(* ===== verification/_CoqProject ===== *)
-Q . S2P
Prelude.v
Bitmap.v
Quad.v
QuadDiv.v
CopyInOut.v
Uio.v
Lhd.v
SfsLayout.v
Sfs.v
SfsBlocks.v
SfsMap.v
SfsFile.v
SfsDir.v
SfsTrunc.v
SfsInode.v
SfsTheorems.v
Files.v
FileSyscalls.v
FileProcs.v
Coremap.v
PageTable.v
Tlb.v
Swap.v
Vm.v
VmPages.v
VmEvict.v
VmFault.v
VmTheorems.v
AddrSpace.v
AddrSpaceTheorems.v
Exec.v
ExecArgs.v
ExecLoad.v
ExecExamples.v
ExecTheorems.v
ExecRun.v
Kmalloc.v
KmallocMem.v
KmallocPages.v
KmallocHeap.v
KmallocRoots.v
KmallocSystem.v
KmallocSteps.v
KmallocThreads.v
KmallocCalls.v
KmallocTheorems.v
KernelHeap.v
Synch.v
SynchSystem.v
SynchTheorems.v
Array.v
Threadlist.v
Thread.v
ThreadInts.v
ThreadSystem.v
ThreadMoves.v
ThreadSteps.v
ThreadSwitch.v
ThreadPark.v
ThreadChanges.v
ThreadActions.v
ThreadIrq.v
ThreadCpus.v
ThreadWake.v
ThreadWchan.v
ThreadProc.v
ThreadCreate.v
ThreadBoot.v
ThreadMigrate.v
ThreadTheorems.v
Pid.v
PidSystem.v
Qsort.v
CString.v
Menu.v
UMalloc.v
UMallocHeap.v
UMallocTheorems.v
