(* ===== verification/Prelude.v ===== *)
(** * A verification library for the OS/161 kernel

    The sources under src/ are OS/161, a teaching operating system in C: a kernel (kern/) for a
    simulated MIPS machine, a C library shared with user programs (common/), and user programs
    (userland/).  This library models parts of the kernel as Rocq functions and proves what makes
    them correct.

    ** How the code is read

    - A function that changes kernel state is a computation in the monad [M S] below: it takes the
      state [S] of its component and either completes with a value and a new state or panics.  A
      failing [KASSERT], a call of [panic], the use of a pointer to nothing and an array access out of
      range are all [Panic], so "does not panic" includes memory safety of the modelled data.
    - Integers are [Z] with the width of the C type written out where it can matter.
    - Error codes are values: [result] for functions with an output argument, the number otherwise.
    - A loop that is not structural has fuel, and running out of fuel is a panic.  Theorems that a
      call completes therefore show that the fuel is enough: LIST_FUEL in Kmalloc.v is one more than
      the number of pagerefs there can be, the fuel of a free list one more than the number of
      blocks of a page, that of [bitmap_alloc], [pid_alloc], [sfs_bmap] and the rest the size of the
      table searched, that of a scan for the end of a string the size of the memory.
    - What the environment decides is an argument or a script in the state: whether memory is
      available, how a device answers, which thread runs next.
    - Code that runs under a lock which is held throughout is one step.  Where a lock is given up
      in the middle (sleeping in [wchan_sleep], calling the page allocator from [kmalloc], a [read] in
      progress), the call is cut there, and the interleavings of the pieces are the runs of a
      transition system.

    The proofs go through the weakest precondition [wp] of this file: [wp m Q s] says that [m] run in
    [s] completes and [Q] holds of its result and the new state.

    ** The parts

    Memory.  Coremap.v (arch/mips/vm/vm.c, ram.c): the coremap as a first-fit allocator of runs of
    pages.  PageTable.v (vm/pagetable.c), Tlb.v (the MMU), Swap.v (vm/swap.c), Vm.v ([vm_fault],
    [evict_one], [alloc_kpages], [alloc_user_page] of vm.c) with VmPages.v, VmEvict.v, VmFault.v and
    VmTheorems.v: a page fault, an eviction and a kernel allocation complete and change nothing that
    a process can see but what they are for.  AddrSpace.v and AddrSpaceTheorems.v (vm/addrspace.c,
    pagetable.c, syscall/vm_syscalls.c): regions, [sbrk], copying and destroying.  CopyInOut.v
    (vm/copyinout.c): user memory and faults.  Kmalloc.v (vm/kmalloc.c) with KmallocMem.v,
    KmallocPages.v, KmallocHeap.v, KmallocRoots.v (the data structure, section by section),
    KmallocSystem.v, KmallocSteps.v, KmallocThreads.v, KmallocCalls.v, KmallocTheorems.v (any number
    of threads in it): the heap is well formed in every state, no check fails, blocks are disjoint
    and keep their contents, no page is lost.  KernelHeap.v puts the heap on the page allocator of
    Vm.v, evictions included.

    Programs.  Exec.v (syscall/runprogram.c, loadelf.c) with ExecArgs.v, ExecLoad.v, ExecExamples.v,
    ExecTheorems.v and ExecRun.v: [execv] either fails and leaves the caller as it was, or enters the
    new program with its arguments on the user stack; the loaded segments are those of the file.

    Files.  Uio.v (lib/uio.c): transfers.  Lhd.v (dev/lamebus/lhd.c): the disk.  SfsLayout.v
    (include/kern/sfs.h), Sfs.v (all of fs/sfs), with SfsBlocks.v, SfsMap.v, SfsFile.v, SfsDir.v,
    SfsTrunc.v, SfsInode.v and SfsTheorems.v: a file is a sequence of bytes, a directory is a map from
    names to inode numbers, truncation keeps what it should, an inode survives a trip to the disk.
    Files.v (syscall/openfile.c, filetable.c), FileSyscalls.v (file_syscalls.c) and FileProcs.v:
    processes that share open files; reference counts are exact in every state.

    Processes and threads.  Pid.v and PidSystem.v (proc/pid.c): the process table, [waitpid] and exit
    status under interleaving, refined to a small specification.  Synch.v, SynchSystem.v and
    SynchTheorems.v (thread/synch.c, spinlock.c and the wait channels of thread.c): mutual exclusion,
    exact counts, no lost wakeup, condition variables.  Threadlist.v (thread/threadlist.c) and Array.v
    (lib/array.c, include/array.h): linked lists and arrays against lists.  Thread.v (thread/thread.c,
    clock.c, spl.c, spinlock.c, the interrupt part of arch/mips/locore/trap.c, the threads of a process
    in proc/proc.c): the thread system of a machine with any number of processors.  Its steps are those
    of ThreadSystem.v: the 29 things a processor can do next, each from taking a spinlock to releasing
    it.  ThreadInts.v (interrupt levels), ThreadMoves.v (threads that change place), ThreadSteps.v,
    ThreadSwitch.v, ThreadPark.v and ThreadChanges.v hold the shared lemmas; ThreadActions.v,
    ThreadIrq.v, ThreadCpus.v, ThreadWake.v, ThreadWchan.v, ThreadProc.v, ThreadCreate.v, ThreadBoot.v
    and ThreadMigrate.v show for each step that it keeps the invariant; ThreadTheorems.v has the
    results: nothing in the thread system panics, every thread is in one place, a processor that
    idles is interrupted when there is work, interrupts are off exactly as long as they should be.

    Libraries.  Bitmap.v (lib/bitmap.c) refines finite sets.  Quad.v and QuadDiv.v
    (common/gcc-millicode): 64-bit arithmetic on 32-bit words, Knuth's algorithm D included, is
    arithmetic.  Qsort.v (userland/lib/libc/stdlib/qsort.c): the sorting function returns a sorted
    permutation.  CString.v (common/libc/string): the memory and string functions on a memory of bytes,
    copies by words included; Menu.v (main/menu.c): a command line is split into its words and
    dispatched.
    UMalloc.v, UMallocHeap.v and UMallocTheorems.v (userland/lib/libc/stdlib/malloc.c): the user-level
    heap as a list of blocks; a program's blocks keep their contents and do not overlap, no check
    of [free] or [malloc] fails, and freeing everything gives one free block.

    ** How they fit together

    Sfs.v runs on the disk of Lhd.v, moves data with Uio.v and keeps its free map with Bitmap.v.
    Vm.v runs on Coremap.v, PageTable.v, Swap.v (which uses Bitmap.v) and Tlb.v; AddrSpace.v on Vm.v.
    Uio.v copies user memory with CopyInOut.v.  FileSyscalls.v runs on Files.v, which calls the VFS
    through an interface, a class of operations and laws.  Each user of a component is proved from
    the lemmas of the component, not from its code.
    Exec.v runs on AddrSpace.v, CopyInOut.v, Uio.v and Files.v.  KernelHeap.v is the proof that the page
    allocator of Vm.v meets what Kmalloc.v assumes of its environment.  Thread.v keeps its queues with
    Threadlist.v and Array.v and activates address spaces with Tlb.v; Synch.v is on the level above, where
    a sleeping thread is on a wait channel and a step of a thread is what it does holding a spinlock.

    ** The theorems

    Each theorem that states a property of the program has a number in its comment; the numbering is
    by importance.  Those with hypotheses are followed by a witness that applies them to a concrete
    state.  Theorems of the kind "error" show defects of the code: the state and the input are given
    for which it panics or does the wrong thing.

    ** Not modelled

    - The VFS layer (vfs/vfslist.c, vfslookup.c, vfspath.c, vfscwd.c, device.c): its users are proved
      against the interface of Files.v, whose laws are what vnode.h documents.
    - The process system calls (syscall/proc_syscalls.c) and [proc_create], [proc_destroy], [proc_fork]
      and [proc_exit] of proc/proc.c, which put together operations of the modelled components; the
      system call dispatch in arch/mips/syscall.
    - fs/semfs, and dev/lamebus/emu.c, whose work is done by the simulator.
    - Drivers other than the disk's: they move characters or read registers.  Of the bus, only
      interprocessor interrupts.
    - Assembly code, trapframes and context switch: what the thread system needs of them is part of its
      model.
    - Boot (main/main.c), the menu but [cmd_dispatch], [kprintf] and what is printed, and the names of
      objects.
    - In the thread system, [thread_start_cpus], [clocksleep] and [timerclock]; in [thread_fork] the
      arguments of the new thread's function.  Spinlocks that a step takes and releases are free
      when it takes them: waiting for another processor has no effect.
    - Waiting in the virtual memory system: [vm_fault] is one thread's, and the answers of the swap
      device and of the allocator are a script.
    - Of the C library, formatted output, [random] and the wrappers of system calls; user
      programs: they run on the system calls.
    - arch/mips/vm/dumbvm.c, which the configuration leaves out, and syscall/sysproc.c, fdtable.c and
      file.c, which are not built. *)

From Stdlib Require Import ZArith Lia.
From stdpp Require Import base numbers list gmap strings.

#[global] Open Scope Z_scope.

(** ** Outcomes of kernel code

    Kernel code either completes with a value, or it panics: a [KASSERT] fails,
    [panic()] is called, or memory is touched that was never allocated. *)

Inductive outcome (A : Type) : Type :=
| Done (a : A)
| Panic.
Arguments Done {A} a.
Arguments Panic {A}.

(** Stateful kernel code over a state [S]: a state monad over [outcome]. *)
Definition M (S A : Type) : Type := S → outcome (A * S).

#[global] Instance M_ret {S} : MRet (M S) := λ A a s, Done (a, s).
#[global] Instance M_bind {S} : MBind (M S) := λ A B f m s,
  match m s with
  | Done (a, s') => f a s'
  | Panic => Panic
  end.

Definition get {S} : M S S := λ s, Done (s, s).
Definition put {S} (s : S) : M S unit := λ _, Done (tt, s).
Definition gets {S A} (f : S → A) : M S A := λ s, Done (f s, s).
Definition modify {S} (f : S → S) : M S unit := λ s, Done (tt, f s).
Definition panic {S A} : M S A := λ _, Panic.

(** [KASSERT(b)]: panics unless [b] holds. *)
Definition KASSERT {S} (b : bool) : M S unit := if b then mret tt else panic.

(** A dereference: the kernel faults on a null or dangling pointer. *)
Definition deref {S A} (o : option A) : M S A :=
  match o with Some a => mret a | None => panic end.

(** The result of a function that returns an [int] error code and hands its
    value back through a pointer: 0 and the value, or the error code. *)
Inductive result (A : Type) : Type :=
| Ok (a : A)
| Err (e : Z).
Arguments Ok {A} a.
Arguments Err {A} e.

Definition is_Ok {A} (r : result A) : Prop := match r with Ok _ => True | Err _ => False end.

(** C array access by an integer index: out of range is [None] (a fault). *)
Definition znth {A} (l : list A) (i : Z) : option A :=
  if decide (0 ≤ i) then l !! Z.to_nat i else None.
Definition zset {A} (l : list A) (i : Z) (x : A) : list A := <[Z.to_nat i := x]> l.

(** [for (i = lo; i < lo + n; i++) body(i)] *)
Fixpoint for_loop {S} (n : nat) (i : Z) (body : Z → M S unit) : M S unit :=
  match n with
  | O => mret tt
  | S n' => body i ;; for_loop n' (i + 1) body
  end.

(** The same with an early [return]: the body yields [Some r] to return [r]. *)
Fixpoint for_return {S R} (n : nat) (i : Z) (body : Z → M S (option R))
  : M S (option R) :=
  match n with
  | O => mret None
  | S n' => r ← body i;
            match r with
            | Some _ => mret r
            | None => for_return n' (i + 1) body
            end
  end.

(** ** Weakest preconditions

    [wp m Q s]: run from [s], [m] does not panic and ends in a value and state
    that satisfy [Q]. *)

Definition wp {S A} (m : M S A) (Q : A → S → Prop) (s : S) : Prop :=
  match m s with
  | Done (a, s') => Q a s'
  | Panic => False
  end.

Section wp_rules.
Context {S A B : Type}.
Implicit Types (s : S) (m : M S A).

Lemma wp_mono m (Q Q' : A → S → Prop) s :
(∀ a s', Q a s' → Q' a s') → wp m Q s → wp m Q' s.
Proof. unfold wp. destruct (m s) as [[a s']|]; auto. Qed.

Lemma wp_ret (a : A) (Q : A → S → Prop) s : Q a s → wp (mret a) Q s.
Proof. auto. Qed.

Lemma wp_bind m (f : A → M S B) (Q : B → S → Prop) s :
wp m (λ a s', wp (f a) Q s') s → wp (m ≫= f) Q s.
Proof.
unfold wp, mbind, M_bind. destruct (m s) as [[a s']|]; auto.
Qed.

Lemma wp_bind_inv m (f : A → M S B) (Q : B → S → Prop) s :
wp (m ≫= f) Q s → wp m (λ a s', wp (f a) Q s') s.
Proof.
unfold wp, mbind, M_bind. destruct (m s) as [[a s']|]; auto.
Qed.

Lemma wp_gets (f : S → A) (Q : A → S → Prop) s : Q (f s) s → wp (gets f) Q s.
Proof. auto. Qed.

Lemma wp_modify (f : S → S) (Q : unit → S → Prop) s :
Q tt (f s) → wp (modify f) Q s.
Proof. auto. Qed.

Lemma wp_KASSERT (b : bool) (Q : unit → S → Prop) s :
b = true → Q tt s → wp (KASSERT b) Q s.
Proof. intros -> ?. auto. Qed.

Lemma wp_deref (o : option A) (a : A) (Q : A → S → Prop) s :
o = Some a → Q a s → wp (deref o) Q s.
Proof. intros -> ?. auto. Qed.

Lemma wp_done m (Q : A → S → Prop) s :
wp m Q s ↔ ∃ a s', m s = Done (a, s') ∧ Q a s'.
Proof.
unfold wp. destruct (m s) as [[a s']|]; split.
- eauto.
- intros (a0 & s0 & [= <- <-] & ?). auto.
- contradiction.
- intros (? & ? & ? & ?). discriminate.
Qed.

(** Running the first part of a computation whose result is known. *)
Lemma bind_run m (f : A → M S B) v s1 s :
wp m (λ a s', a = v ∧ s' = s1) s → (m ≫= f) s = f v s1.
Proof. unfold wp, mbind, M_bind. by destruct (m s) as [[a s']|]; [intros [-> ->]|]. Qed.
End wp_rules.

(** Two statements followed by a third, grouped the other way. *)
Lemma wp_assoc {S A B C} (m : M S A) (n : A → M S B) (k : B → M S C) (Q : C → S → Prop) s :
  wp ((m ≫= n) ≫= k) Q s → wp (m ≫= λ a, n a ≫= k) Q s.
Proof. unfold wp, mbind, M_bind. by destruct (m s) as [[a s']|]. Qed.

(** The loop rule: an invariant indexed by the counter. *)
Lemma wp_for_loop {S} (I : Z → S → Prop) (n : nat) (lo : Z) (body : Z → M S unit)
    (Q : unit → S → Prop) s :
  I lo s →
  (∀ i s', lo ≤ i < lo + Z.of_nat n → I i s' → wp (body i) (λ _, I (i + 1)) s') →
  (∀ s', I (lo + Z.of_nat n) s' → Q tt s') →
  wp (for_loop n lo body) Q s.
Proof.
  revert lo s. induction n as [|n IH]; intros lo s HI Hstep HQ; simpl.
  - apply wp_ret, HQ. by replace (lo + Z.of_nat 0) with lo by lia.
  - apply wp_bind. eapply wp_mono; [|apply Hstep; [lia|done]].
    intros [] s' HI'. apply IH; [done| |].
    + intros i s'' Hi. apply Hstep. lia.
    + intros s'' HI''. apply HQ.
      by replace (lo + Z.of_nat (Datatypes.S n)) with (lo + 1 + Z.of_nat n) by lia.
Qed.

Lemma wp_for_return {S R} (I : Z → S → Prop) (n : nat) (lo : Z)
    (body : Z → M S (option R)) (Q : option R → S → Prop) s :
  I lo s →
  (∀ i s', lo ≤ i < lo + Z.of_nat n → I i s' →
     wp (body i) (λ r s'', if r is Some _ then Q r s'' else I (i + 1) s'') s') →
  (∀ s', I (lo + Z.of_nat n) s' → Q None s') →
  wp (for_return n lo body) Q s.
Proof.
  revert lo s. induction n as [|n IH]; intros lo s HI Hstep HQ; simpl.
  - apply wp_ret, HQ. by replace (lo + Z.of_nat 0) with lo by lia.
  - apply wp_bind. eapply wp_mono; [|apply Hstep; [lia|done]].
    intros [r|] s' HI'; [by apply wp_ret|]. apply IH; [done| |].
    + intros i s'' Hi. apply Hstep. lia.
    + intros s'' HI''. apply HQ.
      by replace (lo + Z.of_nat (Datatypes.S n)) with (lo + 1 + Z.of_nat n) by lia.
Qed.

#[global] Arguments for_loop : simpl never.
#[global] Arguments for_return : simpl never.

Create HintDb wp.
#[export] Hint Resolve wp_ret wp_gets wp_modify : wp.

(** One step of a weakest-precondition proof. *)
Ltac wp_step :=
  cbv beta iota;
  lazymatch goal with
  | |- wp (mbind _ _) _ _ => apply wp_bind
  | |- wp (mret _) _ _ => apply wp_ret
  | |- wp (gets _) _ _ => apply wp_gets
  | |- wp (modify _) _ _ => apply wp_modify
  | |- wp (KASSERT _) _ _ => apply wp_KASSERT
  | |- wp (deref _) _ _ => eapply wp_deref
  end.

(** All the steps up to the next call or assertion. *)
Ltac wp_go :=
  repeat (cbv beta iota;
    lazymatch goal with
    | |- wp (mbind _ _) _ _ => apply wp_bind
    | |- wp (mret _) _ _ => apply wp_ret
    | |- wp (gets _) _ _ => apply wp_gets
    | |- wp (modify _) _ _ => apply wp_modify
    end);
  cbv beta iota.

(** Expose the first call of the continuation of the current call. *)
Ltac wp_inner :=
  eapply wp_mono; [intros ? ?; let H := fresh in intro H; apply wp_bind; exact H|];
  cbv beta.

(** A [KASSERT] in sequence whose condition is immediate. *)
Ltac wp_check :=
  wp_go; apply wp_KASSERT;
  [first [ done | lia | by apply Z.eqb_eq | by apply bool_decide_eq_true ]|]; wp_go.

(** ** Arrays indexed by integers *)

Section arrays.
Context {A : Type}.
Implicit Types (l : list A) (x : A).

Lemma znth_lookup l i : 0 ≤ i → znth l i = l !! Z.to_nat i.
Proof. intros. unfold znth. by rewrite decide_True. Qed.

Lemma znth_Some_range l i x : znth l i = Some x → 0 ≤ i < Z.of_nat (length l).
Proof.
unfold znth. destruct (decide (0 ≤ i)); [|done].
intros H%lookup_lt_Some. lia.
Qed.

Lemma znth_is_Some l i : 0 ≤ i < Z.of_nat (length l) → ∃ x, znth l i = Some x.
Proof.
intros Hi. rewrite znth_lookup by lia. apply lookup_lt_is_Some_2. lia.
Qed.

Lemma znth_elem l i x : znth l i = Some x → x ∈ l.
Proof.
unfold znth. destruct (decide (0 ≤ i)); [|done]. apply list_elem_of_lookup_2.
Qed.

Lemma length_zset l i x : length (zset l i x) = length l.
Proof. apply length_insert. Qed.

Lemma znth_zset_eq l i x : 0 ≤ i < Z.of_nat (length l) → znth (zset l i x) i = Some x.
Proof.
intros Hi. rewrite znth_lookup by lia. apply list_lookup_insert_eq. lia.
Qed.

Lemma znth_zset_ne l i j x : 0 ≤ i → i ≠ j → znth (zset l i x) j = znth l j.
Proof.
intros Hi Hne. unfold znth. destruct (decide (0 ≤ j)); [|done].
apply list_lookup_insert_ne. lia.
Qed.

Lemma znth_app l k i :
  znth (l ++ k) i = if decide (i < Z.of_nat (length l)) then znth l i else znth k (i - Z.of_nat (length l)).
Proof.
unfold znth. destruct (decide (i < Z.of_nat (length l))), (decide (0 ≤ i)).
- apply lookup_app_l. lia.
- done.
- rewrite decide_True, lookup_app_r by lia. f_equal. lia.
- lia.
Qed.

Lemma znth_take l n i : znth (take n l) i = if decide (i < Z.of_nat n) then znth l i else None.
Proof.
unfold znth. destruct (decide (i < Z.of_nat n)), (decide (0 ≤ i)); try done.
- apply lookup_take_lt. lia.
- apply lookup_take_ge. lia.
Qed.

Lemma znth_drop l n i : 0 ≤ i → znth (drop n l) i = znth l (i + Z.of_nat n).
Proof. intros Hi. unfold znth. rewrite !decide_True, lookup_drop by lia. f_equal. lia. Qed.

Lemma znth_replicate n i x : 0 ≤ i < Z.of_nat n → znth (replicate n x) i = Some x.
Proof. intros Hi. rewrite znth_lookup by lia. apply lookup_replicate_2. lia. Qed.
End arrays.

Lemma zset_id {A} (l : list A) i x : znth l i = Some x → zset l i x = l.
Proof. unfold znth, zset. case_decide; [|done]. apply list_insert_id. Qed.

Lemma zset_zset {A} (l : list A) i x y : zset (zset l i x) i y = zset l i y.
Proof. apply list_insert_insert_eq. Qed.

#[global] Arguments znth : simpl never.
#[global] Arguments zset : simpl never.

Lemma filter_none {A} (P : A → Prop) `{∀ x, Decision (P x)} (l : list A) :
  (∀ x, x ∈ l → ¬ P x) → filter P l = [].
Proof.
  induction l as [|x l IH]; intros Hall; [done|].
  rewrite filter_cons_False; [apply IH|]; intros; apply Hall; set_solver.
Qed.

(** The least number of a range with a property. *)
Lemma head_filter_seqZ_Some (P : Z → Prop) `{∀ i, Decision (P i)} lo n i :
  lo ≤ i < lo + n → P i → (∀ j, lo ≤ j < i → ¬ P j) → head (filter P (seqZ lo n)) = Some i.
Proof.
  intros Hi HP Hlow. replace n with ((i - lo) + (n - (i - lo))) by lia.
  rewrite seqZ_app, filter_app by lia.
  rewrite (filter_none P (seqZ lo (i - lo))).
  2: { intros j Hj%elem_of_seqZ. apply Hlow. lia. }
  rewrite seqZ_cons, filter_cons_True by (lia || by replace (lo + (i - lo)) with i by lia).
  simpl. f_equal. lia.
Qed.

Lemma head_filter_seqZ_None (P : Z → Prop) `{∀ i, Decision (P i)} lo n :
  (∀ j, lo ≤ j < lo + n → ¬ P j) → head (filter P (seqZ lo n)) = None.
Proof.
  intros Hall. rewrite filter_none; [done|]. intros j Hj%elem_of_seqZ. by apply Hall.
Qed.

(** Overwriting an existing key does not change which keys are present. *)
Lemma insert_is_Some_iff {K A} `{Countable K} (m : gmap K A) (k q : K) (v : A) :
  is_Some (m !! k) → is_Some (<[k := v]> m !! q) ↔ is_Some (m !! q).
Proof.
  intros Hk. rewrite lookup_insert_is_Some'. split; [|auto].
  intros [<-|]; done.
Qed.

(** ** Sums over finite maps *)

Section msum.
Context {K A : Type} `{Countable K}.
Implicit Types (m : gmap K A) (g : A → Z).

Definition msum (g : A → Z) (m : gmap K A) : Z := map_fold (λ _ a acc, g a + acc) 0 m.

Lemma msum_empty g : msum g ∅ = 0.
Proof. apply map_fold_empty. Qed.

Lemma msum_insert g m k a : m !! k = None → msum g (<[k := a]> m) = g a + msum g m.
Proof.
intros Hk. unfold msum. rewrite map_fold_insert_L; [done| |done]. intros. lia.
Qed.

Lemma msum_delete g m k a : m !! k = Some a → msum g (delete k m) = msum g m - g a.
Proof.
intros Hk. rewrite <- (insert_delete_id m k a Hk) at 2.
rewrite msum_insert by apply lookup_delete_eq. lia.
Qed.

Lemma msum_update g m k a b :
m !! k = Some a → msum g (<[k := b]> m) = msum g m - g a + g b.
Proof.
intros Hk. rewrite <- insert_delete_eq, msum_insert by apply lookup_delete_eq.
rewrite (msum_delete g m k a Hk). lia.
Qed.

Lemma msum_nonneg g m : (∀ k a, m !! k = Some a → 0 ≤ g a) → 0 ≤ msum g m.
Proof.
induction m as [|k a m Hk IH] using map_ind; intros Hg; [by rewrite msum_empty|].
rewrite msum_insert by done.
assert (0 ≤ g a) by (apply (Hg k), lookup_insert_eq).
assert (0 ≤ msum g m); [|lia]. apply IH. intros j b Hj. apply (Hg j).
rewrite lookup_insert_ne by congruence. done.
Qed.

Lemma msum_ge g m k a :
(∀ k a, m !! k = Some a → 0 ≤ g a) → m !! k = Some a → g a ≤ msum g m.
Proof.
intros Hg Hk. pose proof (msum_delete g m k a Hk).
assert (0 ≤ msum g (delete k m)); [|lia].
apply msum_nonneg. intros j b Hj%lookup_delete_Some. naive_solver.
Qed.

Lemma msum_ge2 g m k j a b :
(∀ k a, m !! k = Some a → 0 ≤ g a) → k ≠ j → m !! k = Some a → m !! j = Some b →
g a + g b ≤ msum g m.
Proof.
intros Hg Hne Hk Hj. pose proof (msum_delete g m k a Hk).
assert (g b ≤ msum g (delete k m)); [|lia]. eapply (msum_ge _ _ j).
- intros i c Hi%lookup_delete_Some. naive_solver.
- by rewrite lookup_delete_ne.
Qed.

Lemma msum_le g m c :
(∀ k a, m !! k = Some a → g a ≤ c) → msum g m ≤ c * Z.of_nat (size m).
Proof.
induction m as [|k a m Hk IH] using map_ind; intros Hg.
{ by rewrite msum_empty, map_size_empty, Z.mul_0_r. }
rewrite msum_insert, map_size_insert_None by done.
assert (g a ≤ c) by (apply (Hg k), lookup_insert_eq).
assert (msum g m ≤ c * Z.of_nat (size m)); [|lia]. apply IH. intros j b Hj. apply (Hg j).
rewrite lookup_insert_ne by congruence. done.
Qed.
End msum.

(** ** Error codes (kern/include/kern/errno.h) *)

Definition ENOSYS : Z := 1.
Definition ENOMEM : Z := 3.
Definition EAGAIN : Z := 4.
Definition EFAULT : Z := 6.
Definition ENAMETOOLONG : Z := 7.
Definition EINVAL : Z := 8.
Definition EPERM : Z := 9.
Definition ENOEXEC : Z := 13.
Definition E2BIG : Z := 14.
Definition ESRCH : Z := 15.
Definition ENOTDIR : Z := 17.
Definition EISDIR : Z := 18.
Definition ENOENT : Z := 19.
Definition EEXIST : Z := 22.
Definition EMFILE : Z := 28.
Definition EBADF : Z := 30.
Definition EIO : Z := 32.
Definition ESPIPE : Z := 33.
Definition ENOSPC : Z := 36.
Definition ENXIO : Z := 26.
Definition EBUSY : Z := 27.
Definition EFBIG : Z := 38.
