(* ===== verification/Bitmap.v ===== *)
(** * Bitmaps (kern/lib/bitmap.c)

    A bitmap is an array of bytes.  The operations are translated as they are
    written, on bytes and masks; the specification reads a bitmap as the finite
    set of the bit numbers that are in use. *)

From Stdlib Require Import ZArith Lia.
From stdpp Require Import base numbers list gmap.
From S2P Require Import Prelude.

Module Bitmap.

(** ** The code *)

Definition BITS_PER_WORD : Z := 8.
Definition WORD_ALLBITS : Z := 255.

Record bitmap := mkBitmap { nbits : Z; v : list Z }.

(** [DIVROUNDUP(a, b)] on [unsigned]. *)
Definition DIVROUNDUP (a b : Z) : Z := ((a + b - 1) mod 2 ^ 32) / b.

Definition set_v (f : list Z → list Z) : M bitmap unit :=
  modify (λ b, mkBitmap (nbits b) (f (v b))).

(** [b->v[ix]] *)
Definition word (ix : Z) : M bitmap Z := v' ← gets v; deref (znth v' ix).

(** [b->v[ix] = w], with the conversion to [unsigned char] *)
Definition set_word (ix w : Z) : M bitmap unit :=
  _ ← word ix; set_v (λ l, zset l ix (w mod 256)).

(** The loop that marks the leftover bits of the last word. *)
Definition mark_leftover (ix overbits : Z) : M bitmap unit :=
  for_loop (Z.to_nat (BITS_PER_WORD - overbits)) overbits (λ j,
    w ← word ix; set_word ix (Z.lor w (Z.shiftl 1 j))).

(** [ok1] and [ok2]: whether each [kmalloc] succeeds. *)
Definition bitmap_create (ok1 ok2 : bool) (n : Z) : outcome (option bitmap) :=
  let words := DIVROUNDUP n BITS_PER_WORD in
  if negb ok1 then Done None else
  if negb ok2 then Done None else
  let b := mkBitmap n (replicate (Z.to_nat words) 0) in
  if words >? n / BITS_PER_WORD then
    let ix := words - 1 in
    let overbits := n - ix * BITS_PER_WORD in
    match (KASSERT (n / BITS_PER_WORD =? words - 1) ;;
           KASSERT ((0 <? overbits) && (overbits <? BITS_PER_WORD)) ;;
           mark_leftover ix overbits) b with
    | Done (_, b') => Done (Some b')
    | Panic => Panic
    end
  else Done (Some b).

Definition bitmap_getdata : M bitmap (list Z) := gets v.

(** The inner loop of [bitmap_alloc], on one word that is not full. *)
Definition alloc_in_word (ix : Z) : M bitmap (option Z) :=
  for_return (Z.to_nat BITS_PER_WORD) 0 (λ offset,
    let mask := Z.shiftl 1 offset mod 256 in
    w ← word ix;
    if Z.land w mask =? 0 then
      set_word ix (Z.lor w mask) ;;
      let index := ix * BITS_PER_WORD + offset in
      n ← gets nbits;
      KASSERT (index <? n) ;;
      mret (Some index)
    else mret None).

Definition bitmap_alloc : M bitmap (result Z) :=
  n ← gets nbits;
  let maxix := DIVROUNDUP n BITS_PER_WORD in
  r ← for_return (Z.to_nat maxix) 0 (λ ix,
    w ← word ix;
    if negb (w =? WORD_ALLBITS) then
      r ← alloc_in_word ix;
      match r with
      | Some i => mret (Some i)
      | None => panic
      end
    else mret None);
  mret (match r with Some i => Ok i | None => Err ENOSPC end).

Definition bitmap_translate (bitno : Z) : Z * Z :=
  let ix := bitno / BITS_PER_WORD in
  let offset := bitno mod BITS_PER_WORD in
  (ix, Z.shiftl 1 offset mod 256).

Definition bitmap_mark (index : Z) : M bitmap unit :=
  n ← gets nbits;
  KASSERT (index <? n) ;;
  let '(ix, mask) := bitmap_translate index in
  w ← word ix;
  KASSERT (Z.land w mask =? 0) ;;
  set_word ix (Z.lor w mask).

Definition bitmap_unmark (index : Z) : M bitmap unit :=
  n ← gets nbits;
  KASSERT (index <? n) ;;
  let '(ix, mask) := bitmap_translate index in
  w ← word ix;
  KASSERT (negb (Z.land w mask =? 0)) ;;
  set_word ix (Z.land w (Z.lnot mask)).

Definition bitmap_isset (index : Z) : M bitmap Z :=
  let '(ix, mask) := bitmap_translate index in
  w ← word ix;
  mret (Z.land w mask).

(** ** The specification: the set of bits in use *)

(** Bit [i] of the array. *)
Definition bit (b : bitmap) (i : Z) : bool :=
  match znth (v b) (i / 8) with
  | Some w => Z.testbit w (i mod 8)
  | None => false
  end.

Definition used (b : bitmap) : gset Z :=
  list_to_set (filter (λ i, bit b i = true) (seqZ 0 (nbits b))).

(** A well-formed bitmap: bytes, as many as are needed, the bits past the end
    in use. *)
Record wf (b : bitmap) : Prop := {
  wf_nbits : 0 ≤ nbits b < 2 ^ 32 - 7;
  wf_length : Z.of_nat (length (v b)) = (nbits b + 7) / 8;
  wf_words : Forall (λ w, 0 ≤ w < 256) (v b);
  wf_leftover : ∀ i, nbits b ≤ i < 8 * Z.of_nat (length (v b)) → bit b i = true;
}.

(** The operations, as the clients of the bitmap (swap.c, sfs_balloc.c) call
    them, and what each one does to the set; [None] stands for a panic. *)
Inductive op := OAlloc | OMark (i : Z) | OUnmark (i : Z) | OIsset (i : Z).
Inductive reply := RIndex (r : result Z) | RUnit | RBool (b : bool).

Definition code_op (o : op) : M bitmap reply :=
  match o with
  | OAlloc => r ← bitmap_alloc; mret (RIndex r)
  | OMark i => bitmap_mark i ;; mret RUnit
  | OUnmark i => bitmap_unmark i ;; mret RUnit
  | OIsset i => r ← bitmap_isset i; mret (RBool (negb (r =? 0)))
  end.

Definition least_free (n : Z) (X : gset Z) : option Z :=
  head (filter (λ i, i ∉ X) (seqZ 0 n)).

Definition spec_op (n : Z) (o : op) (X : gset Z) : option (reply * gset Z) :=
  match o with
  | OAlloc => match least_free n X with
              | Some i => Some (RIndex (Ok i), {[i]} ∪ X)
              | None => Some (RIndex (Err ENOSPC), X)
              end
  | OMark i => if decide (i < n ∧ i ∉ X) then Some (RUnit, {[i]} ∪ X) else None
  | OUnmark i => if decide (i ∈ X) then Some (RUnit, X ∖ {[i]}) else None
  | OIsset i => Some (RBool (bool_decide (i ∈ X)), X)
  end.

(** Indices are unsigned, and [bitmap_isset] does not check its index. *)
Definition op_ok (n : Z) (o : op) : Prop :=
  match o with
  | OAlloc => True
  | OMark i | OUnmark i => 0 ≤ i
  | OIsset i => 0 ≤ i < n
  end.

Fixpoint run_code (ops : list op) : M bitmap (list reply) :=
  match ops with
  | [] => mret []
  | o :: ops => r ← code_op o; rs ← run_code ops; mret (r :: rs)
  end.

Fixpoint run_spec (n : Z) (ops : list op) (X : gset Z) : option (list reply * gset Z) :=
  match ops with
  | [] => Some ([], X)
  | o :: ops => '(r, X') ← spec_op n o X; '(rs, X'') ← run_spec n ops X';
                Some (r :: rs, X'')
  end.

Lemma elem_of_used b i : i ∈ used b ↔ 0 ≤ i < nbits b ∧ bit b i = true.
Proof.
  unfold used. rewrite elem_of_list_to_set, list_elem_of_filter, elem_of_seqZ.
  split; intros []; split; first [done|lia].
Qed.

(** ** Bytes and masks *)

Lemma mask_small o : 0 ≤ o < 8 → Z.shiftl 1 o mod 256 = 2 ^ o.
Proof.
  intros Ho. rewrite Z.shiftl_1_l. apply Z.mod_small.
  split; [apply Z.pow_nonneg; lia|].
  change 256 with (2 ^ 8). apply Z.pow_lt_mono_r; lia.
Qed.

Lemma land_mask w o : 0 ≤ o → Z.land w (2 ^ o) = if Z.testbit w o then 2 ^ o else 0.
Proof.
  intros Ho. apply Z.bits_inj'. intros k Hk.
  rewrite Z.land_spec, Z.pow2_bits_eqb by lia.
  destruct (Z.eqb_spec o k) as [->|Hne].
  - destruct (Z.testbit w k); rewrite ?Z.pow2_bits_true, ?Z.testbit_0_l by lia; done.
  - destruct (Z.testbit w o);
      rewrite ?Z.pow2_bits_false, ?Z.testbit_0_l, andb_false_r by lia; done.
Qed.

Lemma land_mask_zero w o :
  0 ≤ o → (Z.land w (2 ^ o) =? 0) = negb (Z.testbit w o).
Proof.
  intros Ho. rewrite land_mask by done. destruct (Z.testbit w o); [|done].
  apply Z.eqb_neq. pose proof (Z.pow_pos_nonneg 2 o). lia.
Qed.

Lemma testbit_byte x k : 0 ≤ k < 8 → Z.testbit (x mod 256) k = Z.testbit x k.
Proof. intros Hk. change 256 with (2 ^ 8). apply Z.mod_pow2_bits_low. lia. Qed.

Lemma testbit_set_mask w o k :
  0 ≤ o < 8 → 0 ≤ k < 8 →
  Z.testbit (Z.lor w (2 ^ o) mod 256) k = (k =? o) || Z.testbit w k.
Proof.
  intros Ho Hk. rewrite testbit_byte, Z.lor_spec, Z.pow2_bits_eqb by lia.
  rewrite Z.eqb_sym. apply orb_comm.
Qed.

Lemma testbit_clear_mask w o k :
  0 ≤ o < 8 → 0 ≤ k < 8 →
  Z.testbit (Z.land w (Z.lnot (2 ^ o)) mod 256) k = negb (k =? o) && Z.testbit w k.
Proof.
  intros Ho Hk.
  rewrite testbit_byte, Z.land_spec, Z.lnot_spec, Z.pow2_bits_eqb by lia.
  rewrite Z.eqb_sym. apply andb_comm.
Qed.

Lemma full_byte w :
  0 ≤ w < 256 → w = WORD_ALLBITS ↔ ∀ k, 0 ≤ k < 8 → Z.testbit w k = true.
Proof.
  intros Hw. split.
  - intros -> k Hk. change WORD_ALLBITS with (Z.ones 8). apply Z.ones_spec_low. lia.
  - intros Hall. change WORD_ALLBITS with (Z.ones 8). apply Z.bits_inj'.
    intros k Hk. destruct (decide (k < 8)).
    + rewrite Z.ones_spec_low by lia. apply Hall. lia.
    + rewrite Z.ones_spec_high by lia.
      rewrite <- (Z.mod_small w 256) by done.
      change 256 with (2 ^ 8). apply Z.mod_pow2_bits_high. lia.
Qed.

Lemma full_byte_dec w :
  0 ≤ w < 256 → w ≠ WORD_ALLBITS → ∃ k, 0 ≤ k < 8 ∧ Z.testbit w k = false.
Proof.
  intros Hw Hne.
  destruct (decide (Forall (λ k, Z.testbit w k = true) (seqZ 0 8))) as [Hall|Hex].
  - destruct Hne. apply full_byte; [done|]. intros k Hk.
    rewrite Forall_forall in Hall. apply Hall, elem_of_seqZ. lia.
  - apply not_Forall_Exists in Hex; [|apply _].
    apply Exists_exists in Hex as (k & Hk & Hb). exists k. split.
    + apply elem_of_seqZ in Hk. lia.
    + by apply not_true_is_false.
Qed.

(** ** Updating one bit *)

(** The bitmap after [b->v[ix] = w]. *)
Definition upd (b : bitmap) (ix w : Z) : bitmap :=
  mkBitmap (nbits b) (zset (v b) ix (w mod 256)).

Lemma wp_word b ix w Q : znth (v b) ix = Some w → Q w b → wp (word ix) Q b.
Proof. intros Hw HQ. unfold word. wp_go. by eapply wp_deref. Qed.

Lemma wp_set_word b ix w w' Q :
  znth (v b) ix = Some w → Q tt (upd b ix w') → wp (set_word ix w') Q b.
Proof. intros Hw HQ. unfold set_word, set_v. wp_go. eapply wp_word; [done|]. by wp_go. Qed.

Lemma bit_split i : 0 ≤ i → i = 8 * (i / 8) + i mod 8 ∧ 0 ≤ i / 8 ∧ 0 ≤ i mod 8 < 8.
Proof.
  intros. pose proof (Z.div_mod i 8). pose proof (Z.mod_pos_bound i 8).
  pose proof (Z.div_pos i 8). lia.
Qed.

Lemma word_of_bit b i :
  wf b → 0 ≤ i < 8 * Z.of_nat (length (v b)) →
  ∃ w, znth (v b) (i / 8) = Some w ∧ 0 ≤ w < 256 ∧ bit b i = Z.testbit w (i mod 8).
Proof.
  intros Hwf Hi. destruct (bit_split i) as (? & ? & ?); [lia|].
  destruct (znth_is_Some (v b) (i / 8)) as [w Hw]; [lia|].
  exists w. split; [done|]. split; [|unfold bit; by rewrite Hw].
  pose proof (wf_words b Hwf) as Hf. rewrite Forall_forall in Hf.
  by eapply Hf, znth_elem.
Qed.

Lemma bit_upd b i w w' x j :
  0 ≤ i → 0 ≤ j → znth (v b) (i / 8) = Some w →
  (∀ k, 0 ≤ k < 8 →
    Z.testbit (w' mod 256) k = if k =? i mod 8 then x else Z.testbit w k) →
  bit (upd b (i / 8) w') j = if j =? i then x else bit b j.
Proof.
  intros Hi Hj Hw Hk. unfold bit, upd; simpl.
  destruct (bit_split i Hi) as (? & ? & ?), (bit_split j Hj) as (? & ? & ?).
  pose proof (znth_Some_range _ _ _ Hw).
  destruct (decide (i / 8 = j / 8)) as [He|Hne].
  - rewrite <- He, znth_zset_eq, Hw, Hk by lia.
    destruct (Z.eqb_spec (j mod 8) (i mod 8)), (Z.eqb_spec j i); first [done|lia].
  - rewrite znth_zset_ne by lia. destruct (Z.eqb_spec j i) as [->|]; [lia|done].
Qed.

Lemma wf_upd b i w' x :
  wf b → 0 ≤ i → (i < nbits b ∨ x = true) →
  (∀ j, 0 ≤ j → bit (upd b (i / 8) w') j = if j =? i then x else bit b j) →
  wf (upd b (i / 8) w').
Proof.
  intros Hwf Hi Hx Hbit. destruct Hwf as [Hn Hl Hf Ho].
  constructor; simpl; rewrite ?length_zset; try done.
  - apply Forall_insert; [done|]. apply Z.mod_pos_bound. lia.
  - intros j Hj. rewrite Hbit by lia. destruct (Z.eqb_spec j i); [|by apply Ho].
    destruct Hx as [| ->]; [lia|done].
Qed.

(** Setting and clearing one bit, as the code does it. *)
Lemma set_bit_wf b i w :
  wf b → 0 ≤ i → znth (v b) (i / 8) = Some w →
  let b' := upd b (i / 8) (Z.lor w (2 ^ (i mod 8))) in
  wf b' ∧ ∀ j, 0 ≤ j → bit b' j = (j =? i) || bit b j.
Proof.
  intros Hwf Hi Hw b'. destruct (bit_split i Hi) as (? & ? & ?).
  assert (∀ j, 0 ≤ j → bit b' j = if j =? i then true else bit b j) as Hb.
  { intros j Hj. apply (bit_upd b i w); [done..|]. intros k Hk.
    rewrite testbit_set_mask by done. by destruct (k =? i mod 8). }
  split; [|done]. apply (wf_upd b i _ true); auto.
Qed.

Lemma clear_bit_wf b i w :
  wf b → 0 ≤ i < nbits b → znth (v b) (i / 8) = Some w →
  let b' := upd b (i / 8) (Z.land w (Z.lnot (2 ^ (i mod 8)))) in
  wf b' ∧ ∀ j, 0 ≤ j → bit b' j = negb (j =? i) && bit b j.
Proof.
  intros Hwf Hi Hw b'. destruct (bit_split i) as (? & ? & ?); [lia|].
  assert (∀ j, 0 ≤ j → bit b' j = if j =? i then false else bit b j) as Hb.
  { intros j Hj. apply (bit_upd b i w); [lia|done|done|]. intros k Hk.
    rewrite testbit_clear_mask by done. by destruct (k =? i mod 8). }
  split.
  - apply (wf_upd b i _ false); auto with lia.
  - intros j Hj. rewrite Hb by done. by destruct (j =? i).
Qed.

Lemma used_set b b' i :
  nbits b' = nbits b → 0 ≤ i < nbits b →
  (∀ j, 0 ≤ j → bit b' j = (j =? i) || bit b j) → used b' = {[i]} ∪ used b.
Proof.
  intros Hn Hi Hb. apply set_eq. intros j.
  rewrite elem_of_union, elem_of_singleton, !elem_of_used, Hn. split.
  - intros [Hj Hbj]. rewrite Hb in Hbj by lia.
    destruct (Z.eqb_spec j i); [by left|right; done].
  - intros [->|[Hj Hbj]]; (split; [done|]); rewrite Hb by lia.
    + by rewrite Z.eqb_refl.
    + rewrite Hbj. apply orb_true_r.
Qed.

Lemma used_clear b b' i :
  nbits b' = nbits b → 0 ≤ i < nbits b →
  (∀ j, 0 ≤ j → bit b' j = negb (j =? i) && bit b j) → used b' = used b ∖ {[i]}.
Proof.
  intros Hn Hi Hb. apply set_eq. intros j.
  rewrite elem_of_difference, elem_of_singleton, !elem_of_used, Hn. split.
  - intros [Hj Hbj]. rewrite Hb in Hbj by lia.
    destruct (Z.eqb_spec j i); done.
  - intros [[Hj Hbj] Hne]. split; [done|]. rewrite Hb, Hbj by lia.
    by destruct (Z.eqb_spec j i).
Qed.

(** ** The operations *)

Lemma DIVROUNDUP_8 n : 0 ≤ n < 2 ^ 32 - 7 → DIVROUNDUP n 8 = (n + 7) / 8.
Proof.
  intros. unfold DIVROUNDUP. rewrite Z.mod_small by lia. f_equal. lia.
Qed.

Lemma wf_bound b : wf b → nbits b ≤ 8 * Z.of_nat (length (v b)) < nbits b + 8.
Proof.
  intros [Hn Hl _ _]. rewrite Hl.
  pose proof (Z.div_mod (nbits b + 7) 8). pose proof (Z.mod_pos_bound (nbits b + 7) 8).
  lia.
Qed.

(** Marking a free bit. *)
Lemma bitmap_mark_correct b i :
  wf b → 0 ≤ i < nbits b → i ∉ used b →
  wp (bitmap_mark i) (λ _ b', wf b' ∧ nbits b' = nbits b ∧ used b' = {[i]} ∪ used b) b.
Proof.
  intros Hwf Hi Hfree. pose proof (wf_bound b Hwf).
  destruct (word_of_bit b i) as (w & Hw & Hb & Hbit); [done|lia|].
  destruct (bit_split i) as (_ & _ & Hm); [lia|].
  unfold bitmap_mark, bitmap_translate, BITS_PER_WORD. rewrite mask_small by done.
  wp_check. eapply wp_word; [done|]. wp_go. apply wp_KASSERT.
  { rewrite land_mask_zero by lia. rewrite elem_of_used in Hfree.
    destruct (Z.testbit w (i mod 8)); [|done]. by destruct Hfree. }
  destruct (set_bit_wf b i w) as [Hwf' Hb']; [done|lia|done|].
  eapply wp_set_word; [done|]. split_and!; [done..|]. by apply used_set.
Qed.

(** Unmarking a bit in use. *)
Lemma bitmap_unmark_correct b i :
  wf b → i ∈ used b →
  wp (bitmap_unmark i) (λ _ b', wf b' ∧ nbits b' = nbits b ∧ used b' = used b ∖ {[i]}) b.
Proof.
  intros Hwf Hin. apply elem_of_used in Hin as [Hi Hset]. pose proof (wf_bound b Hwf).
  destruct (word_of_bit b i) as (w & Hw & Hb & Hbit); [done|lia|].
  destruct (bit_split i) as (_ & _ & Hm); [lia|].
  unfold bitmap_unmark, bitmap_translate, BITS_PER_WORD. rewrite mask_small by done.
  wp_check. eapply wp_word; [done|]. wp_go. apply wp_KASSERT.
  { by rewrite land_mask_zero, <- Hbit, Hset by lia. }
  destruct (clear_bit_wf b i w) as [Hwf' Hb']; [done..|].
  eapply wp_set_word; [done|]. split_and!; [done..|]. by apply used_clear.
Qed.

(** Double marks and double frees are caught. *)
Lemma bitmap_mark_used b i : wf b → i ∈ used b → bitmap_mark i b = Panic.
Proof.
  intros Hwf Hin. apply elem_of_used in Hin as [Hi Hset]. pose proof (wf_bound b Hwf).
  destruct (word_of_bit b i) as (w & Hw & Hb & Hbit); [done|lia|].
  destruct (bit_split i) as (_ & _ & Hm); [lia|].
  unfold bitmap_mark, bitmap_translate, BITS_PER_WORD, word, deref.
  rewrite mask_small by done. unfold mbind, M_bind, gets, KASSERT.
  rewrite (proj2 (Z.ltb_lt i (nbits b))) by lia. simpl.
  rewrite Hw. simpl. by rewrite land_mask_zero, <- Hbit, Hset by lia.
Qed.

Lemma bitmap_unmark_free b i :
  wf b → 0 ≤ i → i ∉ used b → bitmap_unmark i b = Panic.
Proof.
  intros Hwf Hi Hin. pose proof (wf_bound b Hwf). rewrite elem_of_used in Hin.
  unfold bitmap_unmark, bitmap_translate, BITS_PER_WORD, word, deref.
  unfold mbind, M_bind, gets, KASSERT.
  destruct (Z.ltb_spec i (nbits b)); [|done]. simpl.
  destruct (word_of_bit b i) as (w & Hw & Hb & Hbit); [done|lia|].
  destruct (bit_split i) as (_ & _ & Hm); [lia|].
  rewrite Hw. simpl. rewrite mask_small, land_mask_zero, <- Hbit by lia.
  destruct (bit b i); [by destruct Hin|done].
Qed.

Lemma bitmap_isset_correct b i :
  wf b → 0 ≤ i < nbits b →
  wp (bitmap_isset i) (λ r b', b' = b ∧ (r ≠ 0 ↔ i ∈ used b)) b.
Proof.
  intros Hwf Hi. pose proof (wf_bound b Hwf).
  destruct (word_of_bit b i) as (w & Hw & Hb & Hbit); [done|lia|].
  destruct (bit_split i) as (_ & _ & Hm); [lia|].
  unfold bitmap_isset, bitmap_translate, BITS_PER_WORD. rewrite mask_small by done.
  wp_go. eapply wp_word; [done|]. wp_go. split; [done|].
  rewrite elem_of_used, Hbit, <- Z.eqb_neq, land_mask_zero by lia.
  destruct (Z.testbit w (i mod 8)); intuition done.
Qed.

(** The search in a word: the first clear bit of it. *)
Lemma alloc_in_word_correct b ix w :
  wf b → znth (v b) ix = Some w → w ≠ WORD_ALLBITS →
  (∀ j, 0 ≤ j < 8 * ix → bit b j = true) →
  wp (alloc_in_word ix) (λ r b', ∃ i, r = Some i ∧
    wf b' ∧ nbits b' = nbits b ∧ 0 ≤ i < nbits b ∧ (i ∉ used b) ∧
    used b' = {[i]} ∪ used b ∧ ∀ j, 0 ≤ j < i → j ∈ used b) b.
Proof.
  intros Hwf Hw Hne Hlow. pose proof (wf_bound b Hwf).
  pose proof (znth_Some_range _ _ _ Hw).
  assert (0 ≤ w < 256) as Hb.
  { pose proof (wf_words b Hwf) as Hf. rewrite Forall_forall in Hf.
    by eapply Hf, znth_elem. }
  assert (∀ o, 0 ≤ o < 8 → (8 * ix + o) / 8 = ix ∧ (8 * ix + o) mod 8 = o) as Hdm.
  { intros o Ho. split; symmetry; [eapply Z.div_unique|eapply Z.mod_unique]; eauto. }
  assert (∀ o, 0 ≤ o < 8 → bit b (8 * ix + o) = Z.testbit w o) as Hbit.
  { intros o Ho. destruct (Hdm o Ho) as [Hd Hm]. unfold bit. by rewrite Hd, Hm, Hw. }
  unfold alloc_in_word.
  apply (wp_for_return (λ o b', b' = b ∧ ∀ k, 0 ≤ k < o → Z.testbit w k = true)).
  - split; [done|lia].
  - intros o b' Ho [-> Hall]. change (0 + Z.of_nat (Z.to_nat BITS_PER_WORD)) with 8 in Ho.
    rewrite mask_small by done. wp_go. eapply wp_word; [done|].
    rewrite land_mask_zero by lia. destruct (Z.testbit w o) eqn:Hwo; simpl.
    { wp_go. split; [done|]. intros k Hk. destruct (decide (k = o)) as [->|]; [done|].
      apply Hall. lia. }
    assert (8 * ix + o < nbits b) as Hlt.
    { destruct (decide (8 * ix + o < nbits b)); [done|].
      pose proof (wf_leftover b Hwf (8 * ix + o)) as Hx. rewrite Hbit in Hx by done.
      rewrite Hx in Hwo by lia. done. }
    destruct (Hdm o Ho) as [Hd Hm].
    destruct (set_bit_wf b (8 * ix + o) w) as [Hwf' Hb']; [done|lia|by rewrite Hd|].
    rewrite Hd, Hm in Hwf', Hb'.
    wp_go. eapply wp_set_word; [done|]. unfold BITS_PER_WORD. wp_go. cbn [nbits upd]. wp_check.
    exists (8 * ix + o). split; [f_equal; lia|]. split_and!; try done; try lia.
    + rewrite elem_of_used, Hbit by done. rewrite Hwo. by intros [].
    + apply used_set; [done|lia|done].
    + intros j Hj. apply elem_of_used. split; [lia|].
      destruct (decide (j < 8 * ix)); [apply Hlow; lia|].
      replace j with (8 * ix + (j - 8 * ix)) by lia.
      rewrite Hbit by lia. apply Hall. lia.
  - intros b' [-> Hall]. exfalso. apply Hne, full_byte; [done|]. apply Hall.
Qed.

(** Allocation: the lowest free bit, or [ENOSPC] when there is none. *)
Lemma bitmap_alloc_correct b :
  wf b →
  wp bitmap_alloc (λ r b', wf b' ∧ nbits b' = nbits b ∧
    match r with
    | Ok i => 0 ≤ i < nbits b ∧ (i ∉ used b) ∧ used b' = {[i]} ∪ used b ∧
              ∀ j, 0 ≤ j < i → j ∈ used b
    | Err e => e = ENOSPC ∧ b' = b ∧ ∀ j, 0 ≤ j < nbits b → j ∈ used b
    end) b.
Proof.
  intros Hwf. pose proof (wf_bound b Hwf) as Hbd.
  unfold bitmap_alloc. wp_go.
  unfold BITS_PER_WORD. rewrite DIVROUNDUP_8, <- (wf_length b Hwf), Nat2Z.id by apply Hwf.
  apply (wp_for_return (λ ix b', b' = b ∧ ∀ j, 0 ≤ j < 8 * ix → bit b j = true)).
  - split; [done|lia].
  - intros ix b' Hix [-> Hlow]. destruct (znth_is_Some (v b) ix) as [w Hw]; [lia|].
    wp_go. eapply wp_word; [done|].
    destruct (Z.eqb_spec w WORD_ALLBITS) as [->|Hne]; simpl.
    + wp_go. split; [done|]. intros j Hj.
      destruct (decide (j < 8 * ix)); [apply Hlow; lia|].
      destruct (bit_split j) as (? & ? & ?); [lia|].
      unfold bit. replace (j / 8) with ix by lia. rewrite Hw.
      by apply (full_byte WORD_ALLBITS).
    + wp_go. eapply wp_mono; [|by apply (alloc_in_word_correct b ix w)].
      intros r b' (i & -> & ? & ? & ? & ? & ? & ?). by wp_go.
  - intros b' [-> Hall]. wp_go. split_and!; try done. intros j Hj.
    apply elem_of_used. split; [done|]. apply Hall. lia.
Qed.

(** The loop over the leftover bits of the last word. *)
Lemma mark_leftover_correct n :
  0 ≤ n < 2 ^ 32 - 7 → n mod 8 ≠ 0 →
  wp (mark_leftover (n / 8) (n mod 8)) (λ _ b', wf b' ∧ nbits b' = n ∧ used b' = ∅)
    (mkBitmap n (replicate (Z.to_nat ((n + 7) / 8)) 0)).
Proof.
  intros Hn Hm. destruct (bit_split n) as (Hs & ? & ?); [lia|].
  assert ((n + 7) / 8 = n / 8 + 1) as Hw.
  { symmetry. apply (Z.div_unique _ _ _ (n mod 8 - 1)); lia. }
  unfold mark_leftover, BITS_PER_WORD.
  apply (wp_for_loop (λ j b', nbits b' = n ∧ Z.of_nat (length (v b')) = (n + 7) / 8 ∧
    Forall (λ w, 0 ≤ w < 256) (v b') ∧
    ∀ i, 0 ≤ i < 8 * (n / 8) + 8 → bit b' i = (n <=? i) && (i <? 8 * (n / 8) + j))).
  - simpl. split_and!; [done|rewrite length_replicate; lia| |].
    + apply Forall_replicate. lia.
    + intros i Hi. destruct (bit_split i) as (? & ? & ?); [lia|].
      unfold bit; simpl. rewrite znth_replicate, Z.testbit_0_l by lia.
      destruct (Z.leb_spec n i), (Z.ltb_spec i (8 * (n / 8) + n mod 8)); first [done|lia].
  - intros j b' Hj (Hnb & Hl & Hf & Hbit).
    destruct (znth_is_Some (v b') (n / 8)) as [w Hx]; [lia|].
    wp_go. eapply wp_word; [done|]. rewrite Z.shiftl_1_l.
    eapply wp_set_word; [done|]. simpl. rewrite length_zset.
    split_and!; [done..| |].
    + apply Forall_insert; [done|]. apply Z.mod_pos_bound. lia.
    + intros i Hi.
      assert ((8 * (n / 8) + j) / 8 = n / 8 ∧ (8 * (n / 8) + j) mod 8 = j) as [Hd Hmd].
      { split; symmetry; [eapply (Z.div_unique _ _ _ j)|eapply Z.mod_unique]; eauto; lia. }
      pose proof (bit_upd b' (8 * (n / 8) + j) w (Z.lor w (2 ^ j)) true i) as Hupd.
      rewrite Hd, Hmd in Hupd. rewrite Hupd; [|lia..|done|].
      2: { intros k Hk. rewrite testbit_set_mask by lia. by destruct (k =? j). }
      rewrite Hbit by done.
      destruct (Z.eqb_spec i (8 * (n / 8) + j)), (Z.leb_spec n i),
        (Z.ltb_spec i (8 * (n / 8) + j)), (Z.ltb_spec i (8 * (n / 8) + (j + 1)));
        first [done|lia].
  - intros b' (Hnb & Hl & Hf & Hbit). split_and!; [|done|].
    + constructor; rewrite ?Hnb; try done. intros i Hi. rewrite Hbit by lia.
      destruct (Z.leb_spec n i),
        (Z.ltb_spec i (8 * (n / 8) + (n mod 8 + Z.of_nat (Z.to_nat (8 - n mod 8)))));
        first [done|lia].
    + apply set_eq. intros i. rewrite elem_of_used, Hnb. split; [|set_solver].
      intros [Hi Hx]. rewrite Hbit in Hx by lia. destruct (Z.leb_spec n i); [lia|done].
Qed.

(** A new bitmap has no bit in use; [None] only when memory runs out. *)
Lemma bitmap_create_correct ok1 ok2 n :
  0 ≤ n < 2 ^ 32 - 7 →
  ∃ r, bitmap_create ok1 ok2 n = Done r ∧
    match r with
    | Some b => ok1 && ok2 = true ∧ wf b ∧ nbits b = n ∧ used b = ∅
    | None => ok1 && ok2 = false
    end.
Proof.
  intros Hn. unfold bitmap_create, BITS_PER_WORD. rewrite DIVROUNDUP_8 by done.
  destruct ok1; simpl; [|by eexists]. destruct ok2; simpl; [|by eexists].
  destruct (bit_split n) as (Hs & ? & ?); [lia|].
  destruct (decide (n mod 8 = 0)) as [Hm|Hm].
  - assert ((n + 7) / 8 = n / 8) as ->.
    { symmetry. apply (Z.div_unique _ _ _ 7); lia. }
    replace (n / 8 >? n / 8) with false by (symmetry; rewrite Z.gtb_ltb; apply Z.ltb_ge; lia).
    eexists. split; [done|]. split_and!; [done| |done|].
    + constructor; simpl; rewrite ?length_replicate; [done|..].
      * rewrite Z2Nat.id by lia. apply (Z.div_unique _ _ _ 7); lia.
      * apply Forall_replicate. lia.
      * intros i Hi. lia.
    + apply set_eq. intros i. rewrite elem_of_used; simpl. split; [|set_solver].
      intros [Hi Hx]. destruct (bit_split i) as (? & ? & ?); [lia|].
      unfold bit in Hx; simpl in Hx. rewrite znth_replicate, Z.testbit_0_l in Hx by lia.
      done.
  - assert ((n + 7) / 8 = n / 8 + 1) as Hw.
    { symmetry. apply (Z.div_unique _ _ _ (n mod 8 - 1)); lia. }
    pose proof (mark_leftover_correct n Hn Hm) as Hml. rewrite Hw in Hml |- *.
    replace (n / 8 + 1 >? n / 8) with true by (symmetry; rewrite Z.gtb_ltb; apply Z.ltb_lt; lia).
    replace (n / 8 + 1 - 1) with (n / 8) by lia. rewrite Z.eqb_refl.
    replace (n - n / 8 * 8) with (n mod 8) by lia.
    rewrite (proj2 (Z.ltb_lt 0 (n mod 8))), (proj2 (Z.ltb_lt (n mod 8) 8)) by lia.
    apply wp_done in Hml as ([] & b & Hrun & Hwf & Hnb & Hu).
    unfold KASSERT; simpl. unfold mbind, M_bind, mret, M_ret. rewrite Hrun. by eexists.
Qed.

(** ** Refinement *)

Lemma least_free_Some n X i :
  0 ≤ i < n → i ∉ X → (∀ j, 0 ≤ j < i → j ∈ X) → least_free n X = Some i.
Proof. intros Hi Hfree Hlow. apply head_filter_seqZ_Some; [lia|done|]. intros j Hj Hn. auto. Qed.

Lemma least_free_None n X : (∀ j, 0 ≤ j < n → j ∈ X) → least_free n X = None.
Proof. intros Hall. apply head_filter_seqZ_None. intros j Hj Hn. apply Hn, Hall. lia. Qed.

(** The relation between an execution of the code and the specification. *)
Definition agrees {A} (n : Z) (c : outcome (A * bitmap)) (p : option (A * gset Z)) : Prop :=
  match c, p with
  | Done (r, b'), Some (r', X') => r = r' ∧ X' = used b' ∧ wf b' ∧ nbits b' = n
  | Panic, None => True
  | _, _ => False
  end.

Lemma code_op_refines b o :
  wf b → op_ok (nbits b) o →
  agrees (nbits b) (code_op o b) (spec_op (nbits b) o (used b)).
Proof.
  intros Hwf Hok. destruct o as [|i|i|i]; simpl in *; unfold mbind, M_bind.
  - destruct (proj1 (wp_done _ _ _) (bitmap_alloc_correct b Hwf))
      as (r & b' & -> & Hwf' & Hn & Hr). simpl. destruct r as [i|e].
    + destruct Hr as (Hi & Hf & Hu & Hlow). by rewrite (least_free_Some _ _ i).
    + destruct Hr as (-> & -> & Hall). by rewrite least_free_None.
  - destruct (decide (i < nbits b ∧ i ∉ used b)) as [[Hi Hf]|Hno].
    + destruct (proj1 (wp_done _ _ _) (bitmap_mark_correct b i Hwf (conj Hok Hi) Hf))
        as ([] & b' & -> & Hwf' & Hn & Hu). done.
    + destruct (decide (i < nbits b)) as [Hi|Hi].
      * rewrite bitmap_mark_used; [done..|]. destruct (decide (i ∈ used b)); [done|].
        by destruct Hno.
      * unfold bitmap_mark, mbind, M_bind, gets, KASSERT.
        by rewrite (proj2 (Z.ltb_ge i (nbits b))) by lia.
  - destruct (decide (i ∈ used b)) as [Hu|Hu].
    + destruct (proj1 (wp_done _ _ _) (bitmap_unmark_correct b i Hwf Hu))
        as ([] & b' & -> & Hwf' & Hn & Hu'). done.
    + by rewrite bitmap_unmark_free.
  - destruct (proj1 (wp_done _ _ _) (bitmap_isset_correct b i Hwf Hok))
      as (r & b' & -> & -> & Hiff). simpl. split_and!; try done. f_equal.
    destruct (Z.eqb_spec r 0); simpl; case_bool_decide; naive_solver.
Qed.

Lemma run_code_refines ops b :
  wf b → Forall (op_ok (nbits b)) ops →
  agrees (nbits b) (run_code ops b) (run_spec (nbits b) ops (used b)).
Proof.
  revert b. induction ops as [|o ops IH]; intros b Hwf Hok; simpl; [done|].
  apply Forall_cons in Hok as [Ho Hok].
  pose proof (code_op_refines b o Hwf Ho) as Hstep.
  unfold mbind, M_bind, option_bind.
  destruct (code_op o b) as [[r b']|], (spec_op (nbits b) o (used b)) as [[r' X']|];
    simpl in Hstep; try done.
  destruct Hstep as (-> & -> & Hwf' & Hn). rewrite <- Hn in Hok |- *.
  specialize (IH b' Hwf' Hok).
  destruct (run_code ops b') as [[rs b'']|], (run_spec (nbits b') ops (used b'))
    as [[rs' X'']|]; simpl in *; try done.
  by destruct IH as (-> & -> & ? & ?).
Qed.

(** C31: From a bitmap made by [bitmap_create], every sequence of allocations,
    marks, unmarks and queries gives the same replies as the same sequence on a
    finite set of numbers that starts empty: [bitmap_alloc] returns the lowest
    number not in the set and fails with [ENOSPC] exactly when there is none,
    and a run panics exactly when it marks a number that is out of range or in
    the set, or unmarks one that is not in it. *)
Theorem bitmap_refines_set ok1 ok2 n b ops :
  0 ≤ n < 2 ^ 32 - 7 →
  bitmap_create ok1 ok2 n = Done (Some b) →
  Forall (op_ok n) ops →
  agrees n (run_code ops b) (run_spec n ops ∅).
Proof.
  intros Hn Hc Hok.
  destruct (bitmap_create_correct ok1 ok2 n Hn) as (r & Hr & Hspec).
  rewrite Hr in Hc. injection Hc as ->. destruct Hspec as (_ & Hwf & <- & <-).
  by apply run_code_refines.
Qed.

Lemma bitmap_refines_set_witness :
  let b := mkBitmap 10 [0; 252] in
  let ops := [OMark 0; OAlloc; OUnmark 0; OIsset 1; OAlloc; OAlloc; OUnmark 9] in
  run_code ops b = Panic ∧ run_spec 10 ops ∅ = None ∧
  agrees 10 (run_code (removelast ops) b) (run_spec 10 (removelast ops) ∅).
Proof.
  intros b ops. split; [reflexivity|]. split; [reflexivity|].
  apply (bitmap_refines_set true true 10 b).
  - lia.
  - reflexivity.
  - repeat constructor; simpl; lia.
Defined.

End Bitmap.
