(* ===== verification/Quad.v ===== *)
(** * 64-bit arithmetic on 32-bit words (common/gcc-millicode)

    The routines that the compiler calls for operations on [long long], each built
    from operations on 32-bit words.  A [long long] is the integer it stands for; a
    value of [union uu] is its two unsigned words. *)

From Stdlib Require Import ZArith Lia.
From stdpp Require Import base numbers list.
From S2P Require Import Prelude.

Module Quad.

(** ** Representation (longlong.h) *)

Definition INT_BITS : Z := 32.
Definition HALF_BITS : Z := 16.

(** Conversion to [unsigned int], [int], [unsigned long long] and [long long]. *)
Definition u32 (x : Z) : Z := x mod 2 ^ 32.
Definition s32 (x : Z) : Z := (x + 2 ^ 31) mod 2 ^ 32 - 2 ^ 31.
Definition u64 (x : Z) : Z := x mod 2 ^ 64.
Definition s64 (x : Z) : Z := (x + 2 ^ 63) mod 2 ^ 64 - 2 ^ 63.

(** [union uu]: [ui[H]] and [ui[L]]. *)
Record uu := mkUu { uiH : Z; uiL : Z }.

(** Storing into [ll] or [ull], and reading them. *)
Definition of_ll (x : Z) : uu := mkUu (u32 (x / 2 ^ 32)) (u32 x).
Definition to_ull (a : uu) : Z := uiH a * 2 ^ 32 + uiL a.
Definition to_ll (a : uu) : Z := s64 (to_ull a).

Definition HHALF (x : Z) : Z := Z.shiftr x HALF_BITS.
Definition LHALF (x : Z) : Z := Z.land x (2 ^ 16 - 1).
Definition LHUP (x : Z) : Z := u32 (Z.shiftl x HALF_BITS).

(** The value of a comparison. *)
Definition b2z (b : bool) : Z := if b then 1 else 0.

(** ** The routines *)

Definition __adddi3 (a b : Z) : Z :=
  let aa := of_ll a in
  let bb := of_ll b in
  let sumL := u32 (uiL aa + uiL bb) in
  let sumH := u32 (uiH aa + uiH bb + b2z (sumL <? uiL bb)) in
  to_ll (mkUu sumH sumL).

Definition __subdi3 (a b : Z) : Z :=
  let aa := of_ll a in
  let bb := of_ll b in
  let diffL := u32 (uiL aa - uiL bb) in
  let diffH := u32 (uiH aa - uiH bb - b2z (diffL >? uiL aa)) in
  to_ll (mkUu diffH diffL).

Definition __negdi2 (a : Z) : Z :=
  let aa := of_ll a in
  let resL := u32 (- uiL aa) in
  let resH := u32 (- uiH aa - b2z (resL >? 0)) in
  to_ll (mkUu resH resL).

Definition __anddi3 (a b : Z) : Z :=
  let aa := of_ll a in
  let bb := of_ll b in
  to_ll (mkUu (Z.land (uiH aa) (uiH bb)) (Z.land (uiL aa) (uiL bb))).

Definition __iordi3 (a b : Z) : Z :=
  let aa := of_ll a in
  let bb := of_ll b in
  to_ll (mkUu (Z.lor (uiH aa) (uiH bb)) (Z.lor (uiL aa) (uiL bb))).

Definition __xordi3 (a b : Z) : Z :=
  let aa := of_ll a in
  let bb := of_ll b in
  to_ll (mkUu (Z.lxor (uiH aa) (uiH bb)) (Z.lxor (uiL aa) (uiL bb))).

Definition __one_cmpldi2 (a : Z) : Z :=
  let aa := of_ll a in
  to_ll (mkUu (u32 (Z.lnot (uiH aa))) (u32 (Z.lnot (uiL aa)))).

Definition __ashldi3 (a shift : Z) : Z :=
  if shift =? 0 then a else
  let aa := of_ll a in
  if shift >=? INT_BITS then
    to_ll (mkUu (u32 (Z.shiftl (uiL aa) (shift - INT_BITS))) 0)
  else
    to_ll (mkUu (Z.lor (u32 (Z.shiftl (uiH aa) shift)) (Z.shiftr (uiL aa) (INT_BITS - shift)))
             (u32 (Z.shiftl (uiL aa) shift))).

Definition __lshldi3 (a shift : Z) : Z :=
  if shift =? 0 then a else
  let aa := of_ll a in
  if shift >=? INT_BITS then
    to_ll (mkUu (u32 (Z.shiftl (uiL aa) (shift - INT_BITS))) 0)
  else
    to_ll (mkUu (Z.lor (u32 (Z.shiftl (uiH aa) shift)) (Z.shiftr (uiL aa) (INT_BITS - shift)))
             (u32 (Z.shiftl (uiL aa) shift))).

(** [si[H] >> n] is an arithmetic shift. *)
Definition __ashrdi3 (a shift : Z) : Z :=
  if shift =? 0 then a else
  let aa := of_ll a in
  if shift >=? INT_BITS then
    let s := Z.shiftr (Z.shiftr (s32 (uiH aa)) (INT_BITS - 1)) 1 in
    to_ll (mkUu (u32 s) (u32 (Z.shiftr (s32 (uiH aa)) (shift - INT_BITS))))
  else
    to_ll (mkUu (u32 (Z.shiftr (s32 (uiH aa)) shift))
             (Z.lor (Z.shiftr (uiL aa) shift) (u32 (Z.shiftl (uiH aa) (INT_BITS - shift))))).

Definition __lshrdi3 (a shift : Z) : Z :=
  if shift =? 0 then a else
  let aa := of_ll a in
  if shift >=? INT_BITS then
    to_ll (mkUu 0 (Z.shiftr (uiH aa) (shift - INT_BITS)))
  else
    to_ll (mkUu (Z.shiftr (uiH aa) shift)
             (Z.lor (Z.shiftr (uiL aa) shift) (u32 (Z.shiftl (uiH aa) (INT_BITS - shift))))).

Definition __cmpdi2 (a b : Z) : Z :=
  let aa := of_ll a in
  let bb := of_ll b in
  if s32 (uiH aa) <? s32 (uiH bb) then 0 else if s32 (uiH aa) >? s32 (uiH bb) then 2 else
  if uiL aa <? uiL bb then 0 else if uiL aa >? uiL bb then 2 else 1.

Definition __ucmpdi2 (a b : Z) : Z :=
  let aa := of_ll a in
  let bb := of_ll b in
  if uiH aa <? uiH bb then 0 else if uiH aa >? uiH bb then 2 else
  if uiL aa <? uiL bb then 0 else if uiL aa >? uiL bb then 2 else 1.

(** The full product of two words. *)
Definition __lmulq (u v : Z) : Z :=
  let u1 := HHALF u in
  let u0 := LHALF u in
  let v1 := HHALF v in
  let v0 := LHALF v in
  let low := u32 (u0 * v0) in
  if (u1 =? 0) && (v1 =? 0) then low else
  let '(udiff, neg) := if u1 >=? u0 then (u32 (u1 - u0), false) else (u32 (u0 - u1), true) in
  let '(vdiff, neg) := if v0 >=? v1 then (u32 (v0 - v1), neg) else (u32 (v1 - v0), negb neg) in
  let mid := u32 (udiff * vdiff) in
  let high := u32 (u1 * v1) in
  let prodh := u32 (high + HHALF high) in
  let prodl := LHUP high in
  let '(prodh, prodl) :=
    if neg then
      let was := prodl in
      let prodl := u32 (prodl - LHUP mid) in
      (u32 (prodh - (HHALF mid + b2z (prodl >? was))), prodl)
    else
      let was := prodl in
      let prodl := u32 (prodl + LHUP mid) in
      (u32 (prodh + (HHALF mid + b2z (prodl <? was))), prodl) in
  let was := prodl in
  let prodl := u32 (prodl + LHUP low) in
  let prodh := u32 (prodh + (HHALF low + b2z (prodl <? was))) in
  let prodl := u32 (prodl + low) in
  let prodh := if prodl <? low then u32 (prodh + 1) else prodh in
  to_ll (mkUu prodh prodl).

(** [-a] wraps around for the smallest [a]. *)
Definition __muldi3 (a b : Z) : Z :=
  let '(u, negall) := if a >=? 0 then (of_ll a, false) else (of_ll (s64 (- a)), true) in
  let '(v, negall) := if b >=? 0 then (of_ll b, negall) else (of_ll (s64 (- b)), negb negall) in
  let u1 := uiH u in
  let u0 := uiL u in
  let v1 := uiH v in
  let v0 := uiL v in
  let prod :=
    if (u1 =? 0) && (v1 =? 0) then __lmulq u0 v0
    else
      let low := of_ll (__lmulq u0 v0) in
      let '(negmid, udiff) := if u1 >=? u0 then (false, u32 (u1 - u0)) else (true, u32 (u0 - u1)) in
      let '(vdiff, negmid) := if v0 >=? v1 then (u32 (v0 - v1), negmid) else (u32 (v1 - v0), negb negmid) in
      let mid := u32 (udiff * vdiff) in
      let high := u32 (u1 * v1) in
      to_ll (mkUu (u32 (high + (if negmid then u32 (- mid) else mid) + uiL low + uiH low)) (uiL low)) in
  if negall then s64 (- prod) else prod.

(** ** Correctness *)

Lemma s64_cong x y : (x - y) mod 2 ^ 64 = 0 → s64 x = s64 y.
Proof.
  intros H. unfold s64. f_equal. apply Z.mod_divide in H as [k Hk]; [|lia].
  replace (x + 2 ^ 63) with (y + 2 ^ 63 + k * 2 ^ 64) by lia. apply Z.mod_add. lia.
Qed.

Definition is_ll (x : Z) : Prop := - 2 ^ 63 ≤ x < 2 ^ 63.
Definition is_ull (x : Z) : Prop := 0 ≤ x < 2 ^ 64.

Lemma s64_id x : is_ll x → s64 x = x.
Proof. unfold is_ll, s64. intros H. rewrite Z.mod_small; lia. Qed.

Lemma of_ll_range x : 0 ≤ uiH (of_ll x) < 2 ^ 32 ∧ 0 ≤ uiL (of_ll x) < 2 ^ 32.
Proof. split; apply Z.mod_pos_bound; lia. Qed.

(** The words of [x], up to a multiple of [2^64]. *)
Lemma of_ll_split x : ∃ k, x = uiH (of_ll x) * 2 ^ 32 + uiL (of_ll x) + k * 2 ^ 64.
Proof.
  exists (x / 2 ^ 32 / 2 ^ 32). unfold of_ll, u32. cbn [uiH uiL].
  pose proof (Z.div_mod x (2 ^ 32) ltac:(lia)). pose proof (Z.div_mod (x / 2 ^ 32) (2 ^ 32) ltac:(lia)).
  change (2 ^ 64) with (2 ^ 32 * 2 ^ 32). lia.
Qed.

(** [u32 x] is [x] up to a multiple of [2^32]. *)
Lemma u32_eq x : ∃ k, u32 x = x + k * 2 ^ 32 ∧ 0 ≤ u32 x < 2 ^ 32.
Proof.
  exists (- (x / 2 ^ 32)). unfold u32. pose proof (Z.div_mod x (2 ^ 32) ltac:(lia)).
  pose proof (Z.mod_pos_bound x (2 ^ 32) ltac:(lia)). lia.
Qed.

Lemma to_ll_eq h l x k : h * 2 ^ 32 + l = x + k * 2 ^ 64 → to_ll (mkUu h l) = s64 x.
Proof.
  intros H. apply s64_cong. unfold to_ull. cbn [uiH uiL]. rewrite H.
  replace (x + k * 2 ^ 64 - x) with (k * 2 ^ 64) by lia. apply Z.mod_mul. lia.
Qed.

(** *** Sums and differences *)

Lemma carry_add x y : 0 ≤ x < 2 ^ 32 → 0 ≤ y < 2 ^ 32 →
  u32 (x + y) + b2z (u32 (x + y) <? y) * 2 ^ 32 = x + y.
Proof.
  intros Hx Hy. unfold u32, b2z. destruct (decide (x + y < 2 ^ 32)).
  - rewrite Z.mod_small by lia. destruct (Z.ltb_spec (x + y) y); lia.
  - replace (x + y) with (x + y - 2 ^ 32 + 1 * 2 ^ 32) at 1 2 by lia. rewrite Z.mod_add, Z.mod_small by lia.
    destruct (Z.ltb_spec (x + y - 2 ^ 32) y); lia.
Qed.

Lemma borrow_sub x y : 0 ≤ x < 2 ^ 32 → 0 ≤ y < 2 ^ 32 →
  u32 (x - y) - b2z (u32 (x - y) >? x) * 2 ^ 32 = x - y.
Proof.
  intros Hx Hy. unfold u32, b2z. destruct (decide (0 ≤ x - y)).
  - rewrite Z.mod_small by lia. destruct (Z.gtb_spec (x - y) x); lia.
  - replace (x - y) with (x - y + 2 ^ 32 + -1 * 2 ^ 32) at 1 2 by lia. rewrite Z.mod_add, Z.mod_small by lia.
    destruct (Z.gtb_spec (x - y + 2 ^ 32) x); lia.
Qed.

Lemma adddi3_correct a b : __adddi3 a b = s64 (a + b).
Proof.
  unfold __adddi3. destruct (of_ll_split a) as [ka Ha], (of_ll_split b) as [kb Hb].
  destruct (of_ll_range a) as [_ Ra], (of_ll_range b) as [_ Rb]. pose proof (carry_add _ _ Ra Rb) as Hc.
  destruct (u32_eq (uiH (of_ll a) + uiH (of_ll b) + b2z (u32 (uiL (of_ll a) + uiL (of_ll b)) <? uiL (of_ll b)))) as (k & Hk & _).
  apply (to_ll_eq _ _ _ (k - ka - kb)). change (2 ^ 64) with (2 ^ 32 * 2 ^ 32) in *. lia.
Qed.

Lemma subdi3_correct a b : __subdi3 a b = s64 (a - b).
Proof.
  unfold __subdi3. destruct (of_ll_split a) as [ka Ha], (of_ll_split b) as [kb Hb].
  destruct (of_ll_range a) as [_ Ra], (of_ll_range b) as [_ Rb]. pose proof (borrow_sub _ _ Ra Rb) as Hc.
  destruct (u32_eq (uiH (of_ll a) - uiH (of_ll b) - b2z (u32 (uiL (of_ll a) - uiL (of_ll b)) >? uiL (of_ll a)))) as (k & Hk & _).
  apply (to_ll_eq _ _ _ (k - ka + kb)). change (2 ^ 64) with (2 ^ 32 * 2 ^ 32) in *. lia.
Qed.

Lemma negdi2_correct a : __negdi2 a = s64 (- a).
Proof.
  unfold __negdi2. destruct (of_ll_split a) as [ka Ha]. destruct (of_ll_range a) as [_ Ra].
  pose proof (borrow_sub 0 _ ltac:(lia) Ra) as Hc. rewrite Z.sub_0_l in Hc.
  destruct (u32_eq (- uiH (of_ll a) - b2z (u32 (- uiL (of_ll a)) >? 0))) as (k & Hk & _).
  apply (to_ll_eq _ _ _ (k + ka)). change (2 ^ 64) with (2 ^ 32 * 2 ^ 32) in *. lia.
Qed.

(** *** Products *)

Lemma halves x : 0 ≤ x < 2 ^ 32 →
  x = HHALF x * 2 ^ 16 + LHALF x ∧ 0 ≤ HHALF x < 2 ^ 16 ∧ 0 ≤ LHALF x < 2 ^ 16 ∧
  LHUP x = LHALF x * 2 ^ 16.
Proof.
  intros Hx. unfold HHALF, LHALF, LHUP, u32, HALF_BITS. rewrite Z.shiftr_div_pow2, Z.shiftl_mul_pow2 by lia.
  change (2 ^ 16 - 1) with (Z.ones 16). rewrite Z.land_ones by lia.
  change (2 ^ 32) with 4294967296 in *. change (2 ^ 16) with 65536. Z.to_euclidean_division_equations. lia.
Qed.

(** The absolute value of a difference, and its sign. *)
Lemma absdiff x y : 0 ≤ x < 2 ^ 32 → 0 ≤ y < 2 ^ 32 →
  (if x >=? y then (u32 (x - y), false) else (u32 (y - x), true)) = (Z.abs (x - y), x <? y).
Proof.
  intros Hx Hy. unfold u32. destruct (Z.geb_spec x y), (Z.ltb_spec x y); try lia; rewrite Z.mod_small by lia; f_equal; lia.
Qed.

(** Equality of 64-bit quantities. *)
Definition eq64 (x y : Z) : Prop := ∃ k, x = y + k * (2 ^ 32 * 2 ^ 32).

Lemma eq64_trans x y z : eq64 x y → eq64 y z → eq64 x z.
Proof. intros [k ->] [j ->]. exists (k + j). lia. Qed.
Lemma eq64_add x y z : eq64 x y → eq64 (x + z) (y + z).
Proof. intros [k ->]. exists k. lia. Qed.
Lemma to_ll_eq64 h l x : eq64 (h * 2 ^ 32 + l) x → to_ll (mkUu h l) = s64 x.
Proof. intros [k Hk]. by apply (to_ll_eq _ _ _ k). Qed.
Lemma s64_eq64 x y : eq64 x y → s64 x = s64 y.
Proof.
  intros [k ->]. apply s64_cong. change (2 ^ 64) with (2 ^ 32 * 2 ^ 32).
  replace (y + k * (2 ^ 32 * 2 ^ 32) - y) with (k * (2 ^ 32 * 2 ^ 32)) by lia. by apply Z.mod_mul.
Qed.
Lemma eq64_s64 x : eq64 (s64 x) x.
Proof.
  exists (- ((x + 2 ^ 63) / 2 ^ 64)). unfold s64. pose proof (Z.div_mod (x + 2 ^ 63) (2 ^ 64) ltac:(lia)).
  change (2 ^ 64) with (2 ^ 32 * 2 ^ 32) in *. lia.
Qed.
Lemma eq64_words x : eq64 (uiH (of_ll x) * 2 ^ 32 + uiL (of_ll x)) x.
Proof. destruct (of_ll_split x) as [k Hk]. exists (- k). change (2 ^ 64) with (2 ^ 32 * 2 ^ 32) in Hk. lia. Qed.

(** [prod += x << N] and [prod -= x << N]. *)
Lemma step_add h l x : 0 ≤ l < 2 ^ 32 → 0 ≤ x < 2 ^ 32 →
  eq64 (u32 (h + (HHALF x + b2z (u32 (l + LHUP x) <? l))) * 2 ^ 32 + u32 (l + LHUP x)) (h * 2 ^ 32 + l + x * 2 ^ 16).
Proof.
  intros Hl Hx. destruct (halves x Hx) as (E & R1 & R0 & ->).
  pose proof (carry_add (LHALF x * 2 ^ 16) l ltac:(lia) Hl) as Hc.
  rewrite (Z.add_comm (LHALF x * 2 ^ 16) l) in Hc.
  destruct (u32_eq (h + (HHALF x + b2z (u32 (l + LHALF x * 2 ^ 16) <? l)))) as (k & -> & _). exists k. lia.
Qed.

Lemma step_sub h l x : 0 ≤ l < 2 ^ 32 → 0 ≤ x < 2 ^ 32 →
  eq64 (u32 (h - (HHALF x + b2z (u32 (l - LHUP x) >? l))) * 2 ^ 32 + u32 (l - LHUP x)) (h * 2 ^ 32 + l - x * 2 ^ 16).
Proof.
  intros Hl Hx. destruct (halves x Hx) as (E & R1 & R0 & ->).
  pose proof (borrow_sub l (LHALF x * 2 ^ 16) Hl ltac:(lia)) as Hc.
  destruct (u32_eq (h - (HHALF x + b2z (u32 (l - LHALF x * 2 ^ 16) >? l)))) as (k & -> & _). exists k. lia.
Qed.

Lemma step_low h l x : 0 ≤ l < 2 ^ 32 → 0 ≤ x < 2 ^ 32 →
  eq64 ((if u32 (l + x) <? x then u32 (h + 1) else h) * 2 ^ 32 + u32 (l + x)) (h * 2 ^ 32 + l + x).
Proof.
  intros Hl Hx. pose proof (carry_add l x Hl Hx) as Hc. destruct (u32 (l + x) <? x); simpl in Hc.
  - destruct (u32_eq (h + 1)) as (k & -> & _). exists k. lia.
  - exists 0. lia.
Qed.

Lemma u32_range x : 0 ≤ u32 x < 2 ^ 32.
Proof. apply Z.mod_pos_bound. lia. Qed.
Lemma u32_small x : 0 ≤ x < 2 ^ 32 → u32 x = x.
Proof. apply Z.mod_small. Qed.

(** The middle term with its sign. *)
Lemma mid_sign x y z w :
  (if xorb (x <? y) (z <? w) then - (Z.abs (x - y) * Z.abs (z - w)) else Z.abs (x - y) * Z.abs (z - w)) = (x - y) * (z - w).
Proof. destruct (Z.ltb_spec x y), (Z.ltb_spec z w); simpl; nia. Qed.

Lemma absdiff_neg x y neg : 0 ≤ x < 2 ^ 32 → 0 ≤ y < 2 ^ 32 →
  (if x >=? y then (u32 (x - y), neg) else (u32 (y - x), negb neg)) = (Z.abs (x - y), xorb neg (x <? y)).
Proof.
  intros Hx Hy. unfold u32. destruct (Z.geb_spec x y), (Z.ltb_spec x y); try lia; rewrite Z.mod_small by lia;
    destruct neg; simpl; f_equal; lia.
Qed.

Lemma absdiff_swap x y : 0 ≤ x < 2 ^ 32 → 0 ≤ y < 2 ^ 32 →
  (if x >=? y then (false, u32 (x - y)) else (true, u32 (y - x))) = (x <? y, Z.abs (x - y)).
Proof.
  intros Hx Hy. pose proof (absdiff x y Hx Hy) as Hd. destruct (x >=? y); injection Hd as -> ->; done.
Qed.

Lemma lmulq_correct u v : 0 ≤ u < 2 ^ 32 → 0 ≤ v < 2 ^ 32 → __lmulq u v = s64 (u * v).
Proof.
  intros Hu Hv. unfold __lmulq.
  destruct (halves u Hu) as (Eu & U1 & U0 & _), (halves v Hv) as (Ev & V1 & V0 & _).
  set (u1 := HHALF u) in *. set (u0 := LHALF u) in *. set (v1 := HHALF v) in *. set (v0 := LHALF v) in *.
  rewrite (absdiff u1 u0), (absdiff_neg v0 v1) by lia. cbv beta iota zeta.
  pose proof (mid_sign u1 u0 v0 v1) as Hmid.
  assert (0 ≤ u0 * v0 < 2 ^ 32) as Hlow by nia. assert (0 ≤ u1 * v1 < 2 ^ 32) as Hhigh by nia.
  assert (0 ≤ Z.abs (u1 - u0) * Z.abs (v0 - v1) < 2 ^ 32) as Hm by nia.
  rewrite !(u32_small (u0 * v0)), !(u32_small (u1 * v1)), !(u32_small (Z.abs _ * _)) by done.
  set (low := u0 * v0) in *. set (high := u1 * v1) in *. set (mid := Z.abs (u1 - u0) * Z.abs (v0 - v1)) in *.
  destruct ((u1 =? 0) && (v1 =? 0)) eqn:Hz.
  { apply andb_true_iff in Hz as [Hz1%Z.eqb_eq Hz2%Z.eqb_eq]. rewrite s64_id; [nia|]. unfold is_ll. nia. }
  set (P := u32 (high + HHALF high) * 2 ^ 32 + LHUP high).
  assert (eq64 P (high * 2 ^ 32 + high * 2 ^ 16)) as HP.
  { unfold P. destruct (halves high Hhigh) as (E & _ & _ & ->). destruct (u32_eq (high + HHALF high)) as (k & -> & _).
    exists k. lia. }
  destruct (xorb (u1 <? u0) (v0 <? v1)); apply to_ll_eq64; (eapply eq64_trans; [apply step_low; [apply u32_range|done]|]);
    (eapply eq64_trans; [apply eq64_add, step_add; [apply u32_range|done]|]).
  - eapply eq64_trans; [apply eq64_add, eq64_add, step_sub; [apply u32_range|done]|].
    fold P. eapply eq64_trans; [|exists 0; reflexivity].
    destruct HP as [k HP]. exists k. rewrite HP. nia.
  - eapply eq64_trans; [apply eq64_add, eq64_add, step_add; [apply u32_range|done]|].
    fold P. destruct HP as [k HP]. exists k. rewrite HP. nia.
Qed.

Lemma muldi3_words u1 u0 v1 v0 l :
  0 ≤ u1 < 2 ^ 32 → 0 ≤ u0 < 2 ^ 32 → 0 ≤ v1 < 2 ^ 32 → 0 ≤ v0 < 2 ^ 32 → eq64 l (u0 * v0) →
  eq64 (u32 (u32 (u1 * v1) + (if xorb (u1 <? u0) (v0 <? v1) then u32 (- u32 (Z.abs (u1 - u0) * Z.abs (v0 - v1)))
             else u32 (Z.abs (u1 - u0) * Z.abs (v0 - v1))) + uiL (of_ll l) + uiH (of_ll l)) * 2 ^ 32 + uiL (of_ll l))
    ((u1 * 2 ^ 32 + u0) * (v1 * 2 ^ 32 + v0)).
Proof.
  intros R1 R0 S1 S0 Hl. pose proof (mid_sign u1 u0 v0 v1) as Hmid.
  pose proof (eq64_trans _ _ _ (eq64_words l) Hl) as [kl Hw].
  set (m := u32 (Z.abs (u1 - u0) * Z.abs (v0 - v1))).
  assert (∃ k, (if xorb (u1 <? u0) (v0 <? v1) then u32 (- m) else m) = (u1 - u0) * (v0 - v1) + k * 2 ^ 32) as [km Hkm].
  { unfold m. destruct (u32_eq (Z.abs (u1 - u0) * Z.abs (v0 - v1))) as (k & Hk & _). rewrite Hk.
    destruct (xorb (u1 <? u0) (v0 <? v1)).
    - destruct (u32_eq (- (Z.abs (u1 - u0) * Z.abs (v0 - v1) + k * 2 ^ 32))) as (k' & -> & _). exists (k' - k). lia.
    - exists k. lia. }
  rewrite Hkm. destruct (u32_eq (u1 * v1)) as (kh & -> & _).
  destruct (u32_eq (u1 * v1 + kh * 2 ^ 32 + ((u1 - u0) * (v0 - v1) + km * 2 ^ 32) + uiL (of_ll l) + uiH (of_ll l))) as (k & -> & _).
  exists (k + kh + km + kl + kl * 2 ^ 32 - uiH (of_ll l) - u1 * v1). nia.
Qed.

(** The magnitude of an operand, and its sign. *)
Lemma magnitude a :
  (if a >=? 0 then (of_ll a, false) else (of_ll (s64 (- a)), true)) = (of_ll (s64 (Z.abs a)), a <? 0) ∨ ¬ is_ll a.
Proof.
  unfold is_ll. destruct (Z.geb_spec a 0), (Z.ltb_spec a 0); try lia.
  - destruct (decide (a < 2 ^ 63)); [left|right; lia]. rewrite s64_id by (unfold is_ll; lia). by rewrite Z.abs_eq.
  - left. by rewrite Z.abs_neq by lia.
Qed.

Lemma muldi3_correct a b : is_ll a → is_ll b → __muldi3 a b = s64 (a * b).
Proof.
  intros Ha Hb. unfold __muldi3. destruct (magnitude a) as [->|]; [|done].
  assert ((if b >=? 0 then (of_ll b, a <? 0) else (of_ll (s64 (- b)), negb (a <? 0))) =
    (of_ll (s64 (Z.abs b)), xorb (a <? 0) (b <? 0))) as ->.
  { destruct (magnitude b) as [Hm|]; [|done]. pose proof (f_equal fst Hm) as H1. pose proof (f_equal snd Hm) as H2.
    destruct (b >=? 0); simpl in H1, H2; rewrite H1, <- H2; by destruct (a <? 0). }
  cbv beta iota zeta. set (u := of_ll (s64 (Z.abs a))). set (v := of_ll (s64 (Z.abs b))).
  destruct (of_ll_range (s64 (Z.abs a))) as [R1 R0], (of_ll_range (s64 (Z.abs b))) as [S1 S0]. fold u in R1, R0. fold v in S1, S0.
  pose proof (eq64_trans _ _ _ (eq64_words (s64 (Z.abs a))) (eq64_s64 _)) as [ka Hka]. fold u in Hka.
  pose proof (eq64_trans _ _ _ (eq64_words (s64 (Z.abs b))) (eq64_s64 _)) as [kb Hkb]. fold v in Hkb.
  rewrite lmulq_correct by done.
  match goal with |- context [if (uiH u =? 0) && (uiH v =? 0) then _ else ?e] => set (big := e) end.
  assert ((if (uiH u =? 0) && (uiH v =? 0) then s64 (uiL u * uiL v) else big) = s64 (Z.abs a * Z.abs b)) as ->.
  { assert (eq64 ((uiH u * 2 ^ 32 + uiL u) * (uiH v * 2 ^ 32 + uiL v)) (Z.abs a * Z.abs b)) as Hw.
    { rewrite Hka, Hkb. exists (ka * Z.abs b + kb * Z.abs a + ka * kb * (2 ^ 32 * 2 ^ 32)). nia. }
    destruct ((uiH u =? 0) && (uiH v =? 0)) eqn:Hz.
    - apply andb_true_iff in Hz as [Hz1%Z.eqb_eq Hz2%Z.eqb_eq]. apply s64_eq64.
      eapply eq64_trans; [|exact Hw]. rewrite Hz1, Hz2. exists 0. nia.
    - unfold big. rewrite (absdiff_swap (uiH u) (uiL u)), (absdiff_neg (uiL v) (uiH v)) by done. cbv beta iota zeta. apply to_ll_eq64.
      eapply eq64_trans; [|exact Hw]. apply muldi3_words; [done..|apply eq64_s64]. }
  destruct (xorb (a <? 0) (b <? 0)) eqn:Hneg.
  - destruct (eq64_s64 (Z.abs a * Z.abs b)) as [k Hk]. apply s64_eq64. exists (- k). rewrite Hk.
    destruct (Z.ltb_spec a 0), (Z.ltb_spec b 0); try done; nia.
  - f_equal. destruct (Z.ltb_spec a 0), (Z.ltb_spec b 0); try done; nia.
Qed.

(** *** Bits *)

Lemma bits_u32 x n : 0 ≤ n → Z.testbit (u32 x) n = (n <? 32) && Z.testbit x n.
Proof.
  intros Hn. unfold u32. destruct (Z.ltb_spec n 32); [by rewrite Z.mod_pow2_bits_low|].
  by rewrite Z.mod_pow2_bits_high by lia.
Qed.

Lemma bits_sign k z n : 0 ≤ k ≤ n → - 2 ^ k ≤ z < 2 ^ k → Z.testbit z n = (z <? 0).
Proof.
  intros Hk Hz. destruct (Z.ltb_spec z 0).
  - assert (Z.testbit (Z.lnot z) n = false) as Hf.
    { rewrite <- (Z.mod_small (Z.lnot z) (2 ^ k)) by (unfold Z.lnot; lia). by apply Z.mod_pow2_bits_high. }
    rewrite Z.lnot_spec in Hf by lia. by destruct (Z.testbit z n).
  - rewrite <- (Z.mod_small z (2 ^ k)) by lia. by apply Z.mod_pow2_bits_high.
Qed.

(** The bits of a value reduced to [k + 1] bits with sign. *)
Lemma bits_signed k x n : 0 ≤ k → 0 ≤ n →
  Z.testbit ((x + 2 ^ k) mod 2 ^ (k + 1) - 2 ^ k) n = Z.testbit x (Z.min n k).
Proof.
  intros Hk Hn. set (z := (x + 2 ^ k) mod 2 ^ (k + 1) - 2 ^ k).
  assert (- 2 ^ k ≤ z < 2 ^ k) as Hz.
  { unfold z. pose proof (Z.mod_pos_bound (x + 2 ^ k) (2 ^ (k + 1)) ltac:(lia)). rewrite Z.pow_add_r in * by lia. lia. }
  assert (z mod 2 ^ (k + 1) = x mod 2 ^ (k + 1)) as Hmod.
  { unfold z. rewrite Zminus_mod_idemp_l. f_equal. lia. }
  assert (∀ i, 0 ≤ i ≤ k → Z.testbit z i = Z.testbit x i) as Hlow.
  { intros i Hi. rewrite <- (Z.mod_pow2_bits_low z (k + 1)), <- (Z.mod_pow2_bits_low x (k + 1)) by lia. by rewrite Hmod. }
  destruct (decide (n ≤ k)); [rewrite Z.min_l by lia; apply Hlow; lia|]. rewrite Z.min_r by lia.
  rewrite <- Hlow by lia. rewrite !(bits_sign k) by lia. done.
Qed.

Lemma bits_s64 x n : 0 ≤ n → Z.testbit (s64 x) n = Z.testbit x (Z.min n 63).
Proof. intros Hn. exact (bits_signed 63 x n ltac:(lia) Hn). Qed.
Lemma bits_s32 x n : 0 ≤ n → Z.testbit (s32 x) n = Z.testbit x (Z.min n 31).
Proof. intros Hn. exact (bits_signed 31 x n ltac:(lia) Hn). Qed.
Lemma bits_ll a n : is_ll a → 0 ≤ n → Z.testbit a n = Z.testbit a (Z.min n 63).
Proof. intros Ha Hn. rewrite <- (s64_id a Ha) at 1. by apply bits_s64. Qed.

Lemma bits_words h l n : 0 ≤ l < 2 ^ 32 → 0 ≤ n →
  Z.testbit (h * 2 ^ 32 + l) n = if n <? 32 then Z.testbit l n else Z.testbit h (n - 32).
Proof.
  intros Hl Hn. destruct (Z.ltb_spec n 32).
  - rewrite <- (Z.mod_pow2_bits_low _ 32) by lia. rewrite Z.add_comm, Z.mod_add, Z.mod_small by lia. done.
  - replace n with (n - 32 + 32) at 1 by lia. rewrite <- Z.div_pow2_bits by lia.
    rewrite Z.add_comm, Z.div_add, Z.div_small by lia. done.
Qed.

Lemma bits_to_ll h l n : 0 ≤ l < 2 ^ 32 → 0 ≤ n →
  Z.testbit (to_ll (mkUu h l)) n = if n <? 32 then Z.testbit l n else Z.testbit h (Z.min n 63 - 32).
Proof.
  intros Hl Hn. unfold to_ll, to_ull. cbn [uiH uiL]. rewrite bits_s64, bits_words by lia.
  destruct (Z.ltb_spec n 32), (Z.ltb_spec (Z.min n 63) 32); try lia; [|done]. by rewrite Z.min_l by lia.
Qed.

Lemma bits_uiL a n : 0 ≤ n → Z.testbit (uiL (of_ll a)) n = (n <? 32) && Z.testbit a n.
Proof. apply bits_u32. Qed.
Lemma bits_uiH a n : 0 ≤ n → Z.testbit (uiH (of_ll a)) n = (n <? 32) && Z.testbit a (n + 32).
Proof. intros Hn. cbn [of_ll uiH]. rewrite bits_u32 by done. by rewrite Z.div_pow2_bits by lia. Qed.

Lemma word_of_bits x : (∀ n, 32 ≤ n → Z.testbit x n = false) → 0 ≤ x < 2 ^ 32.
Proof.
  intros Hx. assert (x = u32 x) as ->; [|apply u32_range]. apply Z.bits_inj'. intros n Hn. rewrite bits_u32 by done.
  destruct (Z.ltb_spec n 32); [done|]. by apply Hx.
Qed.

Ltac bits_case n := destruct (Z.ltb_spec n 32); cbn [andb].

(** A bitwise operation word by word. *)
Lemma bitwise_correct (f : Z → Z → Z) (g : bool → bool → bool) a b :
  (∀ x y n, 0 ≤ n → Z.testbit (f x y) n = g (Z.testbit x n) (Z.testbit y n)) → g false false = false →
  is_ll a → is_ll b →
  to_ll (mkUu (f (uiH (of_ll a)) (uiH (of_ll b))) (f (uiL (of_ll a)) (uiL (of_ll b)))) = f a b.
Proof.
  intros Hf Hg Ha Hb. apply Z.bits_inj'. intros n Hn. rewrite bits_to_ll; [|apply word_of_bits|done].
  - rewrite (Hf a b n Hn), (bits_ll a n Ha Hn), (bits_ll b n Hb Hn). bits_case n.
    + rewrite Hf, !bits_uiL by lia. bits_case n; [|lia]. by rewrite Z.min_l by lia.
    + rewrite Hf, !bits_uiH by lia. destruct (Z.ltb_spec (Z.min n 63 - 32) 32); [|lia]. cbn [andb].
      by replace (Z.min n 63 - 32 + 32) with (Z.min n 63) by lia.
  - intros k Hk. rewrite Hf, !bits_uiL by lia. destruct (Z.ltb_spec k 32); [lia|done].
Qed.

Lemma anddi3_correct a b : is_ll a → is_ll b → __anddi3 a b = Z.land a b.
Proof. apply (bitwise_correct Z.land andb); [intros; apply Z.land_spec|done]. Qed.
Lemma iordi3_correct a b : is_ll a → is_ll b → __iordi3 a b = Z.lor a b.
Proof. apply (bitwise_correct Z.lor orb); [intros; apply Z.lor_spec|done]. Qed.
Lemma xordi3_correct a b : is_ll a → is_ll b → __xordi3 a b = Z.lxor a b.
Proof. apply (bitwise_correct Z.lxor xorb); [intros; apply Z.lxor_spec|done]. Qed.

Lemma one_cmpldi2_correct a : is_ll a → __one_cmpldi2 a = Z.lnot a.
Proof.
  intros Ha. apply Z.bits_inj'. intros n Hn. unfold __one_cmpldi2. rewrite bits_to_ll by (done || apply u32_range).
  rewrite Z.lnot_spec, (bits_ll a n Ha Hn) by done. bits_case n.
  - rewrite bits_u32, Z.lnot_spec, bits_uiL by done. bits_case n; [|lia]. by rewrite Z.min_l by lia.
  - rewrite bits_u32, Z.lnot_spec, bits_uiH by lia. destruct (Z.ltb_spec (Z.min n 63 - 32) 32); [|lia]. cbn [andb].
    by replace (Z.min n 63 - 32 + 32) with (Z.min n 63) by lia.
Qed.

(** *** Shifts *)

Lemma bits_low a n : Z.testbit (uiL (of_ll a)) n = (n <? 32) && Z.testbit a n.
Proof.
  destruct (decide (0 ≤ n)); [by apply bits_uiL|]. rewrite !Z.testbit_neg_r by lia. by rewrite andb_false_r.
Qed.
Lemma bits_high a n : Z.testbit (uiH (of_ll a)) n = (0 <=? n) && ((n <? 32) && Z.testbit a (n + 32)).
Proof.
  destruct (Z.leb_spec 0 n); [by apply bits_uiH|]. by rewrite Z.testbit_neg_r by lia.
Qed.

(** Reads a word operation bit by bit, splits on the word each bit lies in, and compares positions. *)
Ltac bits_read :=
  rewrite ?bits_s64, ?Z.lor_spec, ?bits_u32, ?Z.shiftl_spec, ?Z.shiftr_spec, ?bits_s32, ?bits_low, ?bits_high, ?Z.bits_0
    by lia.
Ltac bits_split :=
  repeat (match goal with
          | |- context [?x <? ?y] => destruct (Z.ltb_spec x y)
          | |- context [?x <=? ?y] => destruct (Z.leb_spec x y) end; cbn [andb orb]; try lia).
Ltac bits_close :=
  rewrite ?orb_false_r; try done;
  first [f_equal; lia | symmetry; apply Z.testbit_neg_r; lia | apply Z.testbit_neg_r; lia | idtac].

Lemma ashldi3_correct a s : is_ll a → 0 ≤ s < 64 → __ashldi3 a s = s64 (Z.shiftl a s).
Proof.
  intros Ha Hs. unfold __ashldi3, INT_BITS. destruct (Z.eqb_spec s 0) as [->|].
  { by rewrite Z.shiftl_0_r, s64_id. }
  apply Z.bits_inj'. intros i Hi. rewrite Z.geb_leb. destruct (Z.leb_spec 32 s).
  - rewrite bits_to_ll by lia. bits_case i; bits_read; bits_split; bits_close.
  - rewrite bits_to_ll by (lia || apply u32_range). bits_case i; bits_read; bits_split; bits_close.
Qed.

Lemma lshldi3_correct a s : is_ll a → 0 ≤ s < 64 → __lshldi3 a s = s64 (Z.shiftl a s).
Proof. apply ashldi3_correct. Qed.

Lemma bits_u64 x n : Z.testbit (u64 x) n = (n <? 64) && Z.testbit x n.
Proof.
  destruct (decide (0 ≤ n)); [|rewrite !Z.testbit_neg_r by lia; by rewrite andb_false_r].
  unfold u64. destruct (Z.ltb_spec n 64); [by rewrite Z.mod_pow2_bits_low|]. by rewrite Z.mod_pow2_bits_high by lia.
Qed.

Lemma shr_word a s : 0 < s < 32 →
  0 ≤ Z.lor (Z.shiftr (uiL (of_ll a)) s) (u32 (Z.shiftl (uiH (of_ll a)) (32 - s))) < 2 ^ 32.
Proof. intros Hs. apply word_of_bits. intros n Hn. bits_read. bits_split; done. Qed.

Lemma lshrdi3_correct a s : is_ll a → 0 ≤ s < 64 → __lshrdi3 a s = s64 (Z.shiftr (u64 a) s).
Proof.
  intros Ha Hs. unfold __lshrdi3, INT_BITS. destruct (Z.eqb_spec s 0) as [->|].
  { rewrite Z.shiftr_0_r. rewrite <- (s64_id a Ha) at 1. apply s64_cong. unfold u64. rewrite Zminus_mod_idemp_r.
    by rewrite Z.sub_diag. }
  apply Z.bits_inj'. intros i Hi. rewrite Z.geb_leb. destruct (Z.leb_spec 32 s).
  - rewrite bits_to_ll; [|apply word_of_bits; intros k Hk; bits_read; bits_split; done|done].
    bits_case i; bits_read; rewrite bits_u64; bits_split; bits_close.
  - rewrite bits_to_ll by (done || (apply shr_word; lia)).
    bits_case i; bits_read; rewrite bits_u64; bits_split; bits_close.
Qed.

Lemma ashrdi3_correct a s : is_ll a → 0 ≤ s < 64 → __ashrdi3 a s = Z.shiftr a s.
Proof.
  intros Ha Hs. unfold __ashrdi3, INT_BITS. destruct (Z.eqb_spec s 0) as [->|]; [by rewrite Z.shiftr_0_r|].
  apply Z.bits_inj'. intros i Hi. rewrite Z.geb_leb, Z.shiftr_spec, (bits_ll a (i + s)) by (done || lia).
  destruct (Z.leb_spec 32 s); cbn zeta.
  - rewrite bits_to_ll by (lia || apply u32_range). bits_case i; bits_read; bits_split; bits_close.
  - rewrite bits_to_ll by (done || (apply shr_word; lia)). bits_case i; bits_read; bits_split; bits_close.
Qed.

(** *** Comparisons *)

(** What the comparison helpers return: 0, 1 or 2 for below, equal or above. *)
Definition three_way (x y : Z) : Z := match x ?= y with Lt => 0 | Eq => 1 | Gt => 2 end.

Lemma three_way_words h l h' l' : 0 ≤ l < 2 ^ 32 → 0 ≤ l' < 2 ^ 32 →
  (if h <? h' then 0 else if h >? h' then 2 else if l <? l' then 0 else if l >? l' then 2 else 1)
  = three_way (h * 2 ^ 32 + l) (h' * 2 ^ 32 + l').
Proof.
  intros Hl Hl'. unfold three_way. rewrite !Z.gtb_ltb.
  destruct (Z.compare_spec (h * 2 ^ 32 + l) (h' * 2 ^ 32 + l')), (Z.ltb_spec h h'), (Z.ltb_spec h' h),
    (Z.ltb_spec l l'), (Z.ltb_spec l' l); first [done | lia].
Qed.

Lemma of_ll_signed a : is_ll a → s32 (uiH (of_ll a)) * 2 ^ 32 + uiL (of_ll a) = a.
Proof.
  unfold is_ll, of_ll, s32, u32. cbn [uiH uiL]. intros Ha. change (2 ^ 63) with (2 ^ 31 * 2 ^ 32) in Ha.
  pose proof (Z.div_mod a (2 ^ 32) ltac:(lia)). pose proof (Z.mod_pos_bound a (2 ^ 32) ltac:(lia)).
  rewrite Zplus_mod_idemp_l, (Z.mod_small (a / 2 ^ 32 + 2 ^ 31)); lia.
Qed.

Lemma of_ull_split a : is_ull a → uiH (of_ll a) * 2 ^ 32 + uiL (of_ll a) = a.
Proof.
  unfold is_ull, of_ll, u32. cbn [uiH uiL]. intros Ha. change (2 ^ 64) with (2 ^ 32 * 2 ^ 32) in Ha.
  pose proof (Z.div_mod a (2 ^ 32) ltac:(lia)). pose proof (Z.mod_pos_bound a (2 ^ 32) ltac:(lia)).
  rewrite (Z.mod_small (a / 2 ^ 32)); lia.
Qed.

Lemma cmpdi2_correct a b : is_ll a → is_ll b → __cmpdi2 a b = three_way a b.
Proof.
  intros Ha Hb. unfold __cmpdi2. cbv zeta. rewrite three_way_words by apply u32_range. by rewrite !of_ll_signed.
Qed.

Lemma ucmpdi2_correct a b : is_ull a → is_ull b → __ucmpdi2 a b = three_way a b.
Proof.
  intros Ha Hb. unfold __ucmpdi2. cbv zeta. rewrite three_way_words by apply u32_range. by rewrite !of_ull_split.
Qed.

(** C16: the helpers GCC calls for [long long] arithmetic on a 32-bit machine, which work on two
    words and on half-words, agree with 64-bit two's complement arithmetic on every operand:
    [__adddi3], [__subdi3], [__negdi2] and the Karatsuba product [__muldi3] are the sum,
    difference, negation and product reduced to 64 bits; the bitwise helpers are the bitwise
    operations; the shifts by 0 to 63 are the 64-bit shifts, [__ashrdi3] filling with the sign and
    [__lshrdi3] with zeros; and the comparisons answer 0, 1 or 2 as the first operand is below,
    equal to or above the second. *)
Theorem millicode_equivalence a b s : is_ll a → is_ll b → 0 ≤ s < 64 →
  (__adddi3 a b = s64 (a + b) ∧ __subdi3 a b = s64 (a - b) ∧ __negdi2 a = s64 (- a) ∧ __muldi3 a b = s64 (a * b)) ∧
  (__anddi3 a b = Z.land a b ∧ __iordi3 a b = Z.lor a b ∧ __xordi3 a b = Z.lxor a b ∧ __one_cmpldi2 a = Z.lnot a) ∧
  (__ashldi3 a s = s64 (Z.shiftl a s) ∧ __lshldi3 a s = s64 (Z.shiftl a s) ∧ __ashrdi3 a s = Z.shiftr a s ∧
   __lshrdi3 a s = s64 (Z.shiftr (u64 a) s)) ∧
  __cmpdi2 a b = three_way a b ∧ __ucmpdi2 (u64 a) (u64 b) = three_way (u64 a) (u64 b).
Proof.
  intros Ha Hb Hs.
  pose proof (Z.mod_pos_bound a (2 ^ 64) ltac:(lia)). pose proof (Z.mod_pos_bound b (2 ^ 64) ltac:(lia)).
  repeat split; auto using adddi3_correct, subdi3_correct, negdi2_correct, muldi3_correct, anddi3_correct,
    iordi3_correct, xordi3_correct, one_cmpldi2_correct, ashldi3_correct, lshldi3_correct, ashrdi3_correct,
    lshrdi3_correct, cmpdi2_correct, ucmpdi2_correct.
Qed.

Lemma millicode_equivalence_witness :
  __muldi3 (-5000000000) 3000000007 = 3446744038709551616 ∧ __ashrdi3 (-5000000000) 33 = -1.
Proof.
  destruct (millicode_equivalence (-5000000000) 3000000007 33) as ((_ & _ & _ & ->) & _ & (_ & _ & -> & _) & _);
    unfold is_ll; [lia..|]. split; reflexivity.
Defined.

End Quad.
