(* ===== verification/QuadDiv.v ===== *)
(** * 64-bit division (common/gcc-millicode: qdivrem.c and its callers)

    Knuth's algorithm D in base [2^16], as the C code runs it: digit arrays of
    five entries, pointers into them as offsets, unsigned arithmetic reduced to 32
    bits.  [None] is what the code must never do: read or write outside an array,
    divide by zero, or loop more often than the fuel allows. *)

From Stdlib Require Import ZArith Lia.
From stdpp Require Import base numbers list option.
From S2P Require Import Prelude Quad.

Module QuadDiv.
Import Quad.

(** ** The code *)

(** [B]: the base of the digits. *)
Definition B : Z := Z.shiftl 1 HALF_BITS.

Definition COMBINE (a b : Z) : Z := Z.lor (u32 (Z.shiftl a HALF_BITS)) b.

(** [(digit)x]: conversion to [unsigned short]. *)
Definition digit (x : Z) : Z := x mod 2 ^ 16.

(** Division of unsigned integers. *)
Definition udiv (x y : Z) : option Z := if y =? 0 then None else Some (x / y).
Definition umod (x y : Z) : option Z := if y =? 0 then None else Some (x mod y).

(** Writing an array entry. *)
Definition store (a : list Z) (i x : Z) : option (list Z) :=
  if decide (0 ≤ i < Z.of_nat (length a)) then Some (zset a i x) else None.

(** [for (i = 0; i < len; i++)] of [shl], from index [p] with [k] rounds left, and
    the write after it. *)
Fixpoint shl_loop (a : list Z) (p : Z) (k : nat) (sh : Z) : option (list Z) :=
  match k with
  | O =>
      x ← znth a p;
      store a p (digit (LHALF (u32 (Z.shiftl x sh))))
  | S k' =>
      x ← znth a p;
      y ← znth a (p + 1);
      a' ← store a p (digit (Z.lor (LHALF (u32 (Z.shiftl x sh))) (Z.shiftr y (HALF_BITS - sh))));
      shl_loop a' (p + 1) k' sh
  end.

Definition shl (a : list Z) (p len sh : Z) : option (list Z) := shl_loop a p (Z.to_nat len) sh.

(** [for (n = 4; v[1] == 0; v++) if (--n == 1) ...]: the offset of [v] and [n], where
    [n = 1] stands for the early return taken inside the loop. *)
Fixpoint v_loop (fuel : nat) (vs : list Z) (v n : Z) : option (Z * Z) :=
  match fuel with
  | O => None
  | S fuel' =>
      x ← znth vs (v + 1);
      if x =? 0 then
        let n := n - 1 in
        if n =? 1 then Some (v, n) else v_loop fuel' vs (v + 1) n
      else Some (v, n)
  end.

(** [for (m = 4 - n; u[1] == 0; u++) m--]: the offset of [u] and [m]. *)
Fixpoint u_loop (fuel : nat) (us : list Z) (u m : Z) : option (Z * Z) :=
  match fuel with
  | O => None
  | S fuel' =>
      x ← znth us (u + 1);
      if x =? 0 then u_loop fuel' us (u + 1) (m - 1) else Some (u, m)
  end.

(** [for (i = k; --i >= 0;) q[i] = 0] *)
Fixpoint q_zero (k : nat) (qs : list Z) : option (list Z) :=
  match k with
  | O => Some qs
  | S k' => qs' ← store qs (Z.of_nat k') 0; q_zero k' qs'
  end.

(** [for (t = v[1]; t < B / 2; t <<= 1) d++] *)
Fixpoint d_loop (fuel : nat) (t d : Z) : option Z :=
  match fuel with
  | O => None
  | S fuel' => if t <? B / 2 then d_loop fuel' (u32 (Z.shiftl t 1)) (d + 1) else Some d
  end.

(** The [while] of step D3; [enter] is a jump to [qhat_too_big]. *)
Fixpoint qhat_loop (fuel : nat) (enter : bool) (v1 v2 uj2 qhat rhat : Z) : option Z :=
  match fuel with
  | O => None
  | S fuel' =>
      if enter || (u32 (v2 * qhat) >? COMBINE rhat uj2) then
        let qhat := u32 (qhat - 1) in
        let rhat := u32 (rhat + v1) in
        if rhat >=? B then Some qhat else qhat_loop fuel' false v1 v2 uj2 qhat rhat
      else Some qhat
  end.

(** D3 *)
Definition qhat_of (v1 v2 uj0 uj1 uj2 : Z) : option Z :=
  if uj0 =? v1 then qhat_loop 3 true v1 v2 uj2 B uj1
  else
    let nn := COMBINE uj0 uj1 in
    qhat ← udiv nn v1;
    rhat ← umod nn v1;
    qhat_loop 3 false v1 v2 uj2 qhat rhat.

(** D4: [for (t = 0, i = n; i > 0; i--)], with [u] the offset of [u[j]]. *)
Fixpoint mul_sub (i : nat) (us vs : list Z) (u v qhat t : Z) : option (list Z * Z) :=
  match i with
  | O => Some (us, t)
  | S i' =>
      x ← znth us (u + Z.of_nat i);
      y ← znth vs (v + Z.of_nat i);
      let t := u32 (x - y * qhat - t) in
      us' ← store us (u + Z.of_nat i) (digit (LHALF t));
      mul_sub i' us' vs u v qhat (Z.land (u32 (B - HHALF t)) (B - 1))
  end.

(** D6: [for (t = 0, i = n; i > 0; i--)] *)
Fixpoint add_back (i : nat) (us vs : list Z) (u v t : Z) : option (list Z * Z) :=
  match i with
  | O => Some (us, t)
  | S i' =>
      x ← znth us (u + Z.of_nat i);
      y ← znth vs (v + Z.of_nat i);
      let t := u32 (t + (x + y)) in
      us' ← store us (u + Z.of_nat i) (digit (LHALF t));
      add_back i' us' vs u v (HHALF t)
  end.

(** The end of D4, D5 and D6: the digit [u[j]], and the correction if there was a borrow. *)
Definition settle (us vs : list Z) (u v n qhat t : Z) : option (list Z * Z) :=
  x ← znth us u;
  let t := u32 (x - t) in
  us ← store us u (digit (LHALF t));
  if negb (HHALF t =? 0) then
    let qhat := u32 (qhat - 1) in
    '(us, t) ← add_back (Z.to_nat n) us vs u v 0;
    x ← znth us u;
    us ← store us u (digit (LHALF (u32 (x + t))));
    Some (us, digit qhat)
  else Some (us, digit qhat).

(** D3 to D6 for one [j], with [u] the offset of [u[j]]: the new [u] and the digit. *)
Definition one_digit (us vs : list Z) (u v n v1 v2 : Z) : option (list Z * Z) :=
  uj0 ← znth us u;
  uj1 ← znth us (u + 1);
  uj2 ← znth us (u + 2);
  qhat ← qhat_of v1 v2 uj0 uj1 uj2;
  '(us, t) ← mul_sub (Z.to_nat n) us vs u v qhat 0;
  settle us vs u v n qhat t.

(** [do ... while (++j <= m)] *)
Fixpoint j_loop (fuel : nat) (us vs qs : list Z) (u v q n m v1 v2 j : Z) : option (list Z * list Z) :=
  match fuel with
  | O => None
  | S fuel' =>
      '(us, qd) ← one_digit us vs (u + j) v n v1 v2;
      qs ← store qs (q + j) qd;
      if j + 1 <=? m then j_loop fuel' us vs qs u v q n m v1 v2 (j + 1) else Some (us, qs)
  end.

(** [for (i = m + n; i > m; --i)] of the remainder, with [k] rounds left, [u + p] the
    last entry it does not write. *)
Fixpoint unshift (k : nat) (us : list Z) (p d : Z) : option (list Z) :=
  match k with
  | O => Some us
  | S k' =>
      x ← znth us (p + Z.of_nat k);
      y ← znth us (p + Z.of_nat k - 1);
      us' ← store us (p + Z.of_nat k)
              (digit (Z.lor (Z.shiftr x d) (LHALF (u32 (Z.shiftl y (HALF_BITS - d))))));
      unshift k' us' p d
  end.

(** Entries 1 to 4 of an array as an [unsigned long long]. *)
Definition combine4 (a : list Z) : option Z :=
  a1 ← znth a 1; a2 ← znth a 2; a3 ← znth a 3; a4 ← znth a 4;
  Some (to_ull (mkUu (COMBINE a1 a2) (COMBINE a3 a4))).

(** The four digits of an operand. *)
Definition digits4 (x : Z) : list Z :=
  [digit (HHALF (uiH (of_ll x))); digit (LHALF (uiH (of_ll x)));
   digit (HHALF (uiL (of_ll x))); digit (LHALF (uiL (of_ll x)))].

(** Division by one digit (exercise 16). *)
Definition short_division (us : list Z) (t : Z) : option (Z * Z) :=
  u1 ← znth us 1; u2 ← znth us 2; u3 ← znth us 3; u4 ← znth us 4;
  q1 ← udiv u1 t;
  r ← umod u1 t;
  let rbj := COMBINE r u2 in
  q2 ← udiv rbj t;
  r ← umod rbj t;
  let rbj := COMBINE r u3 in
  q3 ← udiv rbj t;
  r ← umod rbj t;
  let rbj := COMBINE r u4 in
  q4 ← udiv rbj t;
  r ← umod rbj t;
  Some (to_ull (mkUu (COMBINE (digit q1) (digit q2)) (COMBINE (digit q3) (digit q4))), r).

(** Program D, once [v], [n], [u] and [m] are known; [arq] says whether the caller wants
    the remainder. *)
Definition program_D (us vs qs : list Z) (u v n m : Z) (arq : bool) : option (Z * option Z) :=
  qs ← q_zero (Z.to_nat (4 - m)) qs;
  let q := 4 - m in
  t ← znth vs (v + 1);
  d ← d_loop 17 t 0;
  us ← (if d >? 0 then shl us u (m + n) d else Some us);
  vs ← (if d >? 0 then shl vs (v + 1) (n - 1) d else Some vs);
  v1 ← znth vs (v + 1);
  v2 ← znth vs (v + 2);
  '(us, qs) ← j_loop 5 us vs qs u v q n m v1 v2 0;
  r ← (if arq then
         us ← (if negb (d =? 0) then us ← unshift (Z.to_nat n) us (u + m) d; store us (u + m) 0
               else Some us);
         r ← combine4 us;
         Some (Some r)
       else Some None);
  res ← combine4 qs;
  Some (res, r).

(** [__qdivrem(ull, vll, arq)]: the quotient, and the remainder if [arq] is not null.  [v0]
    and [qs] are what the uninitialised [vspace[0]] and [qspace] happen to hold. *)
Definition __qdivrem (v0 : Z) (qs : list Z) (ull vll : Z) (arq : bool) : option (Z * option Z) :=
  if vll =? 0 then None
  else if ull <? vll then Some (0, if arq then Some ull else None)
  else
    let us := 0 :: digits4 ull in
    let vs := v0 :: digits4 vll in
    '(v, n) ← v_loop 4 vs 0 4;
    if n =? 1 then
      t ← znth vs (v + 2);
      '(res, r) ← short_division us t;
      Some (res, if arq then Some r else None)
    else
      '(u, m) ← u_loop 5 us 0 (4 - n);
      program_D us vs qs u v n m arq.

Definition __udivdi3 (v0 : Z) (qs : list Z) (a b : Z) : option Z :=
  '(q, _) ← __qdivrem v0 qs a b false; Some q.

Definition __umoddi3 (v0 : Z) (qs : list Z) (a b : Z) : option Z :=
  '(_, r) ← __qdivrem v0 qs a b true; r.

Definition __divdi3 (v0 : Z) (qs : list Z) (a b : Z) : option Z :=
  let ua := u64 a in
  let ub := u64 b in
  let '(ua, neg) := if a <? 0 then (u64 (- ua), true) else (ua, false) in
  let '(ub, neg) := if b <? 0 then (u64 (- ub), negb neg) else (ub, neg) in
  '(uq, _) ← __qdivrem v0 qs ua ub false;
  Some (s64 (if neg : bool then u64 (- uq) else uq)).

Definition __moddi3 (v0 : Z) (qs : list Z) (a b : Z) : option Z :=
  let ua := u64 a in
  let ub := u64 b in
  let '(ua, neg) := if a <? 0 then (u64 (- ua), true) else (ua, false) in
  let ub := if b <? 0 then u64 (- ub) else ub in
  '(_, r) ← __qdivrem v0 qs ua ub true;
  ur ← r;
  Some (s64 (if neg : bool then u64 (- ur) else ur)).

(** ** Digits and values *)

Definition is_digit (x : Z) : Prop := 0 ≤ x < 2 ^ 16.
Definition pw (n : nat) : Z := (2 ^ 16) ^ Z.of_nat n.
Fixpoint val (l : list Z) : Z :=
  match l with [] => 0 | x :: l' => x * pw (length l') + val l' end.

Lemma B_eq : B = 2 ^ 16.
Proof. reflexivity. Qed.
Lemma pw_0 : pw 0 = 1.
Proof. reflexivity. Qed.
Lemma pw_S n : pw (S n) = 2 ^ 16 * pw n.
Proof. unfold pw. rewrite Nat2Z.inj_succ, Z.pow_succ_r by lia. done. Qed.
Lemma pw_pos n : 0 < pw n.
Proof. unfold pw. apply Z.pow_pos_nonneg; lia. Qed.
Lemma pw_add n k : pw (n + k) = pw n * pw k.
Proof. unfold pw. rewrite Nat2Z.inj_add, Z.pow_add_r by lia. done. Qed.

Lemma val_app a b : val (a ++ b) = val a * pw (length b) + val b.
Proof.
  induction a as [|x a IH]; simpl; [lia|]. rewrite IH, length_app, pw_add. lia.
Qed.
Lemma val_snoc a x : val (a ++ [x]) = val a * 2 ^ 16 + x.
Proof. rewrite val_app. simpl. rewrite pw_S, pw_0. lia. Qed.
Lemma val_range l : Forall is_digit l → 0 ≤ val l < pw (length l).
Proof.
  induction 1 as [|x l Hx _ IH]; simpl; [by rewrite pw_0|]. rewrite pw_S. unfold is_digit in Hx. nia.
Qed.

Lemma digits_snoc l x : Forall is_digit (l ++ [x]) ↔ Forall is_digit l ∧ is_digit x.
Proof. by rewrite Forall_app, Forall_singleton. Qed.

Lemma znth_mid (pre : list Z) x post i : i = Z.of_nat (length pre) → znth (pre ++ x :: post) i = Some x.
Proof. intros ->. rewrite znth_app, decide_False, Z.sub_diag by lia. done. Qed.
Lemma store_mid (pre : list Z) x post i y : i = Z.of_nat (length pre) →
  store (pre ++ x :: post) i y = Some (pre ++ y :: post).
Proof.
  intros ->. unfold store. rewrite decide_True by (rewrite length_app; simpl; lia). f_equal.
  unfold zset. rewrite Nat2Z.id. rewrite insert_app_r_alt by lia. by rewrite Nat.sub_diag.
Qed.

Lemma LHALF_mod x : LHALF x = x mod 2 ^ 16.
Proof. unfold LHALF. change (2 ^ 16 - 1) with (Z.ones 16). by apply Z.land_ones. Qed.
Lemma HHALF_div x : HHALF x = x / 2 ^ 16.
Proof. unfold HHALF. by rewrite Z.shiftr_div_pow2. Qed.
Lemma digit_id x : is_digit x → digit x = x.
Proof. apply Z.mod_small. Qed.
Lemma is_digit_digit x : is_digit (digit x).
Proof. apply Z.mod_pos_bound. lia. Qed.
Lemma digit_LHALF x : digit (LHALF x) = x mod 2 ^ 16.
Proof. unfold digit. rewrite LHALF_mod. apply Z.mod_mod. lia. Qed.
Lemma u32_digit x : u32 x mod 2 ^ 16 = x mod 2 ^ 16.
Proof.
  unfold u32. apply Z.mod_mod_divide. by exists (2 ^ 16).
Qed.

(** Disjoint bits: [|] is addition. *)
Lemma lor_add k x y : 0 ≤ k → 0 ≤ y < 2 ^ k → Z.lor (x * 2 ^ k) y = x * 2 ^ k + y.
Proof.
  intros Hk Hy. rewrite <- Z.add_lor_land. cut (Z.land (x * 2 ^ k) y = 0); [lia|].
  apply Z.bits_inj'. intros n Hn. rewrite Z.land_spec, Z.bits_0. destruct (decide (n < k)).
  - by rewrite Z.mul_pow2_bits_low.
  - rewrite <- (Z.mod_small y (2 ^ k)) by done. rewrite Z.mod_pow2_bits_high by lia. apply andb_false_r.
Qed.

Lemma COMBINE_val a b : is_digit a → is_digit b → COMBINE a b = a * 2 ^ 16 + b.
Proof.
  unfold is_digit. intros Ha Hb. unfold COMBINE, HALF_BITS, u32. rewrite Z.shiftl_mul_pow2, Z.mod_small by lia. by apply lor_add.
Qed.

(** ** Step D4: multiply and subtract *)

(** One digit of the subtraction: the new digit and the borrow. *)
Lemma sub_digit x y qhat t : is_digit x → is_digit y → 0 ≤ qhat < 2 ^ 16 → is_digit t →
  let w := u32 (x - y * qhat - t) in
  let t' := Z.land (u32 (B - HHALF w)) (B - 1) in
  is_digit t' ∧ x - y * qhat - t = digit (LHALF w) - t' * 2 ^ 16.
Proof.
  unfold is_digit. intros Hx Hy Hq Ht. cbv zeta. rewrite digit_LHALF, u32_digit, B_eq, HHALF_div.
  change (2 ^ 16 - 1) with (Z.ones 16). rewrite Z.land_ones, u32_digit by lia.
  set (z := x - y * qhat - t). assert (- (2 ^ 16 - 1) * 2 ^ 16 ≤ z < 2 ^ 16) as Hz by (unfold z; nia).
  split; [apply Z.mod_pos_bound; lia|]. unfold u32. clearbody z. clear -Hz.
  change (2 ^ 32) with 4294967296. change (2 ^ 16) with 65536 in *. Z.to_euclidean_division_equations. lia.
Qed.

Lemma mul_sub_correct pre W post vpre V vpost u v qhat t :
  length W = length V → Forall is_digit W → Forall is_digit V → 0 ≤ qhat < 2 ^ 16 → is_digit t →
  u + 1 = Z.of_nat (length pre) → v + 1 = Z.of_nat (length vpre) →
  ∃ W' t', mul_sub (length W) (pre ++ W ++ post) (vpre ++ V ++ vpost) u v qhat t = Some (pre ++ W' ++ post, t') ∧
    length W' = length W ∧ Forall is_digit W' ∧ is_digit t' ∧
    val W - qhat * val V - t = val W' - t' * pw (length W).
Proof.
  revert V post vpost t. induction W as [|w W IH] using rev_ind; intros V post vpost t HV HW HdV Hq Ht Hu Hv.
  { exists [], t. destruct V; [|done]. cbn [mul_sub val length app]. rewrite pw_0. split_and!; [done..|lia]. }
  rewrite length_app in HV. simpl in HV. destruct V as [|y V _] using rev_ind; [simpl in HV; lia|].
  rewrite length_app in HV. simpl in HV. apply digits_snoc in HW as [HW Hw].
  apply digits_snoc in HdV as [HdV Hy].
  destruct (sub_digit w y qhat t) as (Ht' & Heq); [done..|].
  set (w' := u32 (w - y * qhat - t)) in *. set (t' := Z.land (u32 (B - HHALF w')) (B - 1)) in *.
  destruct (IH V (digit (LHALF w') :: post) (y :: vpost) t') as (W' & t'' & Hrun & Hlen & HdW & Hdt & Hval); [done || lia..|].
  exists (W' ++ [digit (LHALF w')]), t''.
  rewrite length_app. simpl. rewrite Nat.add_comm. cbn [mul_sub Nat.add]. rewrite <- !app_assoc. simpl.
  rewrite !(app_assoc _ _ (_ :: _)).
  rewrite !znth_mid by (rewrite length_app; lia). cbn [mbind option_bind]. rewrite store_mid by (rewrite length_app; lia).
  cbn [mbind option_bind]. rewrite <- !app_assoc. fold w'. fold t'. rewrite Hrun. split; [done|].
  rewrite length_app, Hlen. simpl. split; [lia|]. split; [apply digits_snoc; split; [done|apply is_digit_digit]|].
  split; [done|]. rewrite !val_snoc, pw_S. nia.
Qed.

(** ** Step D6: add back *)

Lemma add_digit x y t : is_digit x → is_digit y → 0 ≤ t ≤ 1 →
  let w := u32 (t + (x + y)) in
  0 ≤ HHALF w ≤ 1 ∧ x + y + t = digit (LHALF w) + HHALF w * 2 ^ 16.
Proof.
  unfold is_digit. intros Hx Hy Ht. cbv zeta. rewrite digit_LHALF, HHALF_div. unfold u32. rewrite Z.mod_small by lia.
  change (2 ^ 16) with 65536 in *. Z.to_euclidean_division_equations. lia.
Qed.

Lemma add_back_correct pre W post vpre V vpost u v t :
  length W = length V → Forall is_digit W → Forall is_digit V → 0 ≤ t ≤ 1 →
  u + 1 = Z.of_nat (length pre) → v + 1 = Z.of_nat (length vpre) →
  ∃ W' t', add_back (length W) (pre ++ W ++ post) (vpre ++ V ++ vpost) u v t = Some (pre ++ W' ++ post, t') ∧
    length W' = length W ∧ Forall is_digit W' ∧ 0 ≤ t' ≤ 1 ∧
    val W + val V + t = val W' + t' * pw (length W).
Proof.
  revert V post vpost t. induction W as [|w W IH] using rev_ind; intros V post vpost t HV HW HdV Ht Hu Hv.
  { exists [], t. destruct V; [|done]. cbn [add_back val length app]. rewrite pw_0. do 3 (split; [done|]). lia. }
  rewrite length_app in HV. simpl in HV. destruct V as [|y V _] using rev_ind; [simpl in HV; lia|].
  rewrite length_app in HV. simpl in HV. apply digits_snoc in HW as [HW Hw]. apply digits_snoc in HdV as [HdV Hy].
  destruct (add_digit w y t) as (Ht' & Heq); [done..|]. set (w' := u32 (t + (w + y))) in *.
  destruct (IH V (digit (LHALF w') :: post) (y :: vpost) (HHALF w')) as (W' & t'' & Hrun & Hlen & HdW & Hdt & Hval);
    [done || lia..|].
  exists (W' ++ [digit (LHALF w')]), t''.
  rewrite length_app. simpl. rewrite Nat.add_comm. cbn [add_back Nat.add]. rewrite <- !app_assoc. simpl.
  rewrite !(app_assoc _ _ (_ :: _)).
  rewrite !znth_mid by (rewrite length_app; lia). cbn [mbind option_bind]. rewrite store_mid by (rewrite length_app; lia).
  cbn [mbind option_bind]. rewrite <- !app_assoc. fold w'. rewrite Hrun. split; [done|].
  rewrite length_app, Hlen. simpl. split; [lia|]. split; [apply digits_snoc; split; [done|apply is_digit_digit]|].
  split; [done|]. rewrite !val_snoc, pw_S. nia.
Qed.

(** ** Shifting *)

Lemma shift_digit x sh : is_digit x → 0 < sh < 16 →
  LHALF (u32 (Z.shiftl x sh)) = (x mod 2 ^ (16 - sh)) * 2 ^ sh.
Proof.
  unfold is_digit. intros Hx Hs. rewrite LHALF_mod, u32_digit, Z.shiftl_mul_pow2 by lia.
  replace (2 ^ 16) with (2 ^ (16 - sh) * 2 ^ sh) by (rewrite <- Z.pow_add_r by lia; f_equal; lia).
  apply Z.mul_mod_distr_r; lia.
Qed.

Lemma pow_split sh : 0 < sh < 16 → 2 ^ 16 = 2 ^ (16 - sh) * 2 ^ sh.
Proof. intros Hs. rewrite <- Z.pow_add_r by lia. f_equal. lia. Qed.

(** The bits of a digit that a shift by [sh] moves out of it. *)
Definition top (sh x : Z) : Z := x / 2 ^ (16 - sh).
Lemma top_range sh x : is_digit x → 0 < sh < 16 → 0 ≤ top sh x < 2 ^ sh.
Proof.
  unfold is_digit, top. intros Hx Hs. rewrite (pow_split sh Hs) in Hx.
  split; [apply Z.div_pos; lia|]. apply Z.div_lt_upper_bound; lia.
Qed.
Lemma top_split sh x : is_digit x → 0 < sh < 16 →
  x * 2 ^ sh = top sh x * 2 ^ 16 + LHALF (u32 (Z.shiftl x sh)) ∧
  0 ≤ LHALF (u32 (Z.shiftl x sh)) ≤ 2 ^ 16 - 2 ^ sh ∧ ∃ k, LHALF (u32 (Z.shiftl x sh)) = k * 2 ^ sh.
Proof.
  intros Hx Hs. rewrite shift_digit by done. unfold top. rewrite (pow_split sh Hs).
  pose proof (Z.div_mod x (2 ^ (16 - sh)) ltac:(lia)). pose proof (Z.mod_pos_bound x (2 ^ (16 - sh)) ltac:(lia)).
  split_and!; [nia|nia|nia|eauto].
Qed.

Lemma shl_correct pre w W post p sh :
  Forall is_digit (w :: W) → 0 < sh < 16 → p = Z.of_nat (length pre) →
  ∃ W', shl_loop (pre ++ w :: W ++ post) p (length W) sh = Some (pre ++ W' ++ post) ∧
    length W' = S (length W) ∧ Forall is_digit W' ∧
    val (w :: W) * 2 ^ sh = top sh w * pw (S (length W)) + val W'.
Proof.
  intros HW Hs. revert pre w p HW. induction W as [|w1 W IH]; intros pre w p HW Hp; apply Forall_cons_1 in HW as [Hw HW];
    destruct (top_split sh w Hw Hs) as (Hsp & Hl & k & Hk); set (lo := LHALF (u32 (Z.shiftl w sh))) in *.
  - exists [lo]. cbn [shl_loop length app]. rewrite znth_mid by done. cbn [mbind option_bind].
    rewrite store_mid by done. fold lo. rewrite digit_id by (unfold is_digit; lia). split_and!; [done|done| |].
    + apply Forall_singleton. unfold is_digit. lia.
    + cbn [val length]. rewrite pw_S, pw_0. lia.
  - pose proof HW as HW1. apply Forall_cons_1 in HW1 as [Hw1 _]. pose proof (top_range sh w1 Hw1 Hs) as Ht.
    destruct (IH (pre ++ [lo + top sh w1]) w1 (p + 1)) as (R & Hrun & Hlen & HdR & Hval);
      [done|rewrite length_app; simpl; lia|].
    exists ((lo + top sh w1) :: R). cbn [shl_loop length app].
    rewrite (znth_mid pre w _ p) by done. cbn [mbind option_bind].
    rewrite (cons_middle w pre), (app_assoc pre [w]). rewrite (znth_mid (pre ++ [w])) by (rewrite length_app; simpl; lia).
    cbn [mbind option_bind]. rewrite <- app_assoc. cbn [app]. rewrite store_mid by done. cbn [mbind option_bind].
    fold lo. unfold HALF_BITS. rewrite Z.shiftr_div_pow2 by lia. fold (top sh w1).
    replace (Z.lor lo (top sh w1)) with (lo + top sh w1) by (rewrite Hk; symmetry; apply lor_add; lia).
    rewrite digit_id by (unfold is_digit; lia). rewrite <- app_assoc in Hrun. cbn [app] in Hrun. rewrite Hrun.
    rewrite <- app_assoc. cbn [app length]. split_and!; [done|lia| |].
    + constructor; [unfold is_digit; lia|done].
    + cbn [val length] in *. rewrite Hlen. rewrite (pw_S (S (length W))). nia.
Qed.

(** The entry before the last of [h :: W ++ [w]]. *)
Lemma znth_before_last pre h W (w : Z) post p :
  p = Z.of_nat (length pre) →
  znth (pre ++ h :: (W ++ [w]) ++ post) (p + Z.of_nat (S (length W)) - 1) = Some (last W h) ∧
  znth (pre ++ h :: (W ++ [w]) ++ post) (p + Z.of_nat (S (length W))) = Some w ∧
  ∀ y, store (pre ++ h :: (W ++ [w]) ++ post) (p + Z.of_nat (S (length W))) y = Some (pre ++ h :: W ++ y :: post).
Proof.
  intros ->. rewrite <- (app_assoc W). cbn [app].
  replace (pre ++ h :: W ++ w :: post) with ((pre ++ h :: W) ++ w :: post) by by rewrite <- app_assoc.
  split_and!; [|apply znth_mid; rewrite length_app; simpl; lia|].
  - destruct W as [|y W _] using rev_ind; cbn [last].
    + rewrite <- app_assoc. apply znth_mid. simpl. lia.
    + rewrite last_last. replace ((pre ++ h :: W ++ [y]) ++ w :: post) with ((pre ++ h :: W) ++ y :: w :: post).
      * apply znth_mid. rewrite !length_app. simpl. lia.
      * rewrite <- !app_assoc. cbn [app]. by rewrite <- app_assoc.
  - intros y. rewrite store_mid by (rewrite length_app; simpl; lia). by rewrite <- app_assoc.
Qed.

Lemma unshift_correct pre h W post p d :
  is_digit h → Forall is_digit W → 0 < d < 16 → p = Z.of_nat (length pre) →
  ∃ W', unshift (length W) (pre ++ h :: W ++ post) p d = Some (pre ++ h :: W' ++ post) ∧
    length W' = length W ∧ Forall is_digit W' ∧
    val W + h mod 2 ^ d * pw (length W) = val W' * 2 ^ d + last W h mod 2 ^ d.
Proof.
  intros Hh HW Hd Hp. revert post. induction W as [|w W IH] using rev_ind; intros post.
  { exists []. cbn [unshift length val app last]. rewrite pw_0. split_and!; [done..|simpl; lia]. }
  apply digits_snoc in HW as [HW Hw]. set (y := last W h).
  assert (is_digit y) as Hy.
  { unfold y. destruct W as [|z l _] using rev_ind; [done|]. rewrite last_last. by apply digits_snoc in HW as [_ ?]. }
  assert (LHALF (u32 (Z.shiftl y (HALF_BITS - d))) = y mod 2 ^ d * 2 ^ (16 - d)) as Hsh.
  { unfold HALF_BITS. rewrite shift_digit by (done || lia). by replace (16 - (16 - d)) with d by lia. }
  set (w' := y mod 2 ^ d * 2 ^ (16 - d) + w / 2 ^ d).
  pose proof (Z.mod_pos_bound y (2 ^ d) ltac:(lia)). pose proof (Z.mod_pos_bound w (2 ^ d) ltac:(lia)).
  pose proof (Z.div_mod w (2 ^ d) ltac:(lia)). pose proof (pow_split d Hd). unfold is_digit in Hw.
  assert (0 ≤ w / 2 ^ d < 2 ^ (16 - d)) by (split; [apply Z.div_pos; lia|apply Z.div_lt_upper_bound; lia]).
  assert (is_digit w') by (unfold is_digit, w'; nia).
  destruct (IH HW (w' :: post)) as (W' & Hrun & Hlen & HdW & Hval). exists (W' ++ [w']).
  rewrite length_app, Nat.add_comm. cbn [unshift Nat.add length].
  destruct (znth_before_last pre h W w post p Hp) as (-> & -> & Hst). cbn [mbind option_bind]. rewrite Hst. cbn [mbind option_bind].
  fold y. rewrite Hsh, Z.shiftr_div_pow2, Z.lor_comm by lia. rewrite lor_add by lia. fold w'. rewrite digit_id by done.
  rewrite Hrun, <- (app_assoc W'). cbn [app]. split_and!; [done|rewrite length_app, Hlen; simpl; lia|by apply digits_snoc|].
  rewrite last_last, !val_snoc, pw_S. fold y in Hval. unfold w'. nia.
Qed.

(** ** Step D1: normalisation *)

Lemma d_loop_S f t d :
  d_loop (S f) t d = if t <? B / 2 then d_loop f (u32 (Z.shiftl t 1)) (d + 1) else Some d.
Proof. reflexivity. Qed.

Lemma d_loop_correct f t d : 1 ≤ t < 2 ^ 16 → 2 ^ 15 ≤ t * 2 ^ Z.of_nat f →
  ∃ e, d_loop (S f) t d = Some (d + e) ∧ 0 ≤ e < 16 ∧ 2 ^ 15 ≤ t * 2 ^ e < 2 ^ 16.
Proof.
  revert t d. induction f as [|f IH]; intros t d Ht Hf; rewrite d_loop_S; change (B / 2) with (2 ^ 15);
    destruct (Z.ltb_spec t (2 ^ 15)); try (exists 0; rewrite Z.add_0_r; split_and!; [done|lia..]).
  { change (Z.of_nat 0) with 0 in Hf. lia. }
  rewrite Z.shiftl_mul_pow2 by lia. unfold u32. rewrite Z.mod_small by lia.
  rewrite Nat2Z.inj_succ, Z.pow_succ_r in Hf by lia.
  destruct (IH (t * 2 ^ 1) (d + 1)) as (e & Hrun & He & Hlo & Hhi); [lia..|]. exists (e + 1).
  rewrite <- !Z.mul_assoc, <- Z.pow_add_r, Z.add_comm in Hlo, Hhi by lia. rewrite Hrun.
  assert (e + 1 < 16). { apply (Z.pow_lt_mono_r_iff 2); [lia..|]. nia. }
  split_and!; [f_equal; lia|lia|lia|lia|lia].
Qed.

(** ** Step D3: the estimate of a quotient digit *)

Section estimate.
Context (U V p u0 u1 u2 v1 v2 : Z).
Context (Hp : 0 < p).
Context (HU : (u0 * 2 ^ 32 + u1 * 2 ^ 16 + u2) * p ≤ U < (u0 * 2 ^ 32 + u1 * 2 ^ 16 + u2 + 1) * p).
Context (HV : (v1 * 2 ^ 16 + v2) * p ≤ V < (v1 * 2 ^ 16 + v2 + 1) * p).
Context (Hu0 : is_digit u0) (Hu1 : is_digit u1) (Hu2 : is_digit u2) (Hv2 : is_digit v2).
Context (Hnorm : 2 ^ 15 ≤ v1 < 2 ^ 16).
Context (Hlt : U < V * 2 ^ 16).

Lemma estimate_V : 2 ^ 15 * 2 ^ 16 * p ≤ V.
Proof using HV Hnorm Hp Hv2. clear HU Hu0 Hu1 Hu2 Hlt. unfold is_digit in *. nia. Qed.

Lemma estimate_quot : U = V * (U / V) + U mod V ∧ 0 ≤ U mod V < V ∧ 0 ≤ U / V < 2 ^ 16.
Proof using HU HV Hlt Hnorm Hp Hu0 Hu1 Hu2 Hv2.
  pose proof estimate_V. assert (0 < V) by lia. assert (0 ≤ U) by (unfold is_digit in *; nia).
  split; [apply Z.div_mod; lia|]. split; [apply Z.mod_pos_bound; lia|]. split; [apply Z.div_pos; lia|].
  apply Z.div_lt_upper_bound; lia.
Qed.

(** The test of the loop shows the estimate too big. *)
Lemma too_big qhat rhat : qhat * v1 + rhat = u0 * 2 ^ 16 + u1 → 0 ≤ qhat → v2 * qhat > rhat * 2 ^ 16 + u2 →
  U / V ≤ qhat - 1.
Proof using HU HV Hlt Hnorm Hp Hu0 Hu1 Hu2 Hv2.
  intros Heq Hq Hgt. destruct estimate_quot as (HUV & Hr & Hqr). apply Z.lt_le_pred, Z.nle_gt. intros Hle.
  assert (u0 * 2 ^ 32 + u1 * 2 ^ 16 + u2 + 1 ≤ qhat * (v1 * 2 ^ 16 + v2)) by lia.
  assert ((u0 * 2 ^ 32 + u1 * 2 ^ 16 + u2 + 1) * p ≤ qhat * ((v1 * 2 ^ 16 + v2) * p)) by nia.
  assert (qhat * ((v1 * 2 ^ 16 + v2) * p) ≤ qhat * V) by nia. assert (qhat * V ≤ U / V * V) by nia. lia.
Qed.

(** When the test fails the estimate is at most one too big. *)
Lemma close_enough qhat rhat : qhat * v1 + rhat = u0 * 2 ^ 16 + u1 → 0 ≤ qhat < 2 ^ 16 →
  v2 * qhat ≤ rhat * 2 ^ 16 + u2 → qhat ≤ U / V + 1.
Proof using HU HV Hlt Hnorm Hp Hu0 Hu1 Hu2 Hv2.
  intros Heq Hq Hle. destruct estimate_quot as (HUV & Hr & Hqr). pose proof estimate_V.
  assert (qhat * (v1 * 2 ^ 16 + v2) ≤ u0 * 2 ^ 32 + u1 * 2 ^ 16 + u2) by lia.
  assert (qhat * ((v1 * 2 ^ 16 + v2) * p) ≤ U) by nia.
  assert (qhat * V ≤ qhat * ((v1 * 2 ^ 16 + v2 + 1) * p)) by nia. assert (qhat * p ≤ V) by nia.
  assert (qhat * V ≤ U + V) by lia. nia.
Qed.

Lemma qhat_loop_correct f enter qhat rhat :
  qhat * v1 + rhat = u0 * 2 ^ 16 + u1 → 0 ≤ rhat < 2 ^ 16 → 0 ≤ qhat →
  (if enter : bool then qhat = 2 ^ 16 else U / V ≤ qhat < 2 ^ 16) →
  3 * 2 ^ 15 ≤ rhat + Z.of_nat f * 2 ^ 15 →
  ∃ q', qhat_loop f enter v1 v2 u2 qhat rhat = Some q' ∧ 0 ≤ q' < 2 ^ 16 ∧ U / V ≤ q' ≤ U / V + 1.
Proof using HU HV Hlt Hnorm Hp Hu0 Hu1 Hu2 Hv2.
  revert enter qhat rhat. induction f as [|f IH]; intros enter qhat rhat Heq Hr Hq0 Hen Hf; [lia|].
  destruct estimate_quot as (_ & _ & Hqr). cbn [qhat_loop].
  assert (enter = false → u32 (v2 * qhat) = v2 * qhat) as Hmul.
  { intros ->. unfold u32, is_digit in *. apply Z.mod_small. nia. }
  rewrite COMBINE_val, Z.gtb_ltb by done.
  destruct (enter || (rhat * 2 ^ 16 + u2 <? u32 (v2 * qhat))) eqn:Htest.
  - assert (1 ≤ qhat ∧ U / V ≤ qhat - 1 ∧ qhat - 1 < 2 ^ 16) as (Hq1 & Hq2 & Hq3).
    { destruct enter; [lia|]. simpl in Htest. rewrite Hmul in Htest by done. apply Z.ltb_lt in Htest.
      assert (U / V ≤ qhat - 1) by (apply (too_big qhat rhat); [done|lia..]). lia. }
    unfold u32. rewrite !Z.mod_small by lia. rewrite Z.geb_leb, B_eq. destruct (Z.leb_spec (2 ^ 16) (rhat + v1)).
    + exists (qhat - 1). split_and!; [done|lia|lia|lia|].
      apply (close_enough _ (rhat + v1)); [lia|lia|]. unfold is_digit in *. nia.
    + apply IH; [lia..|]. lia.
  - apply orb_false_iff in Htest as [-> Htest]. rewrite Hmul in Htest by done. apply Z.ltb_ge in Htest.
    exists qhat. split_and!; [done|lia|lia|lia|]. apply (close_enough _ rhat); [done|lia|lia].
Qed.

Lemma qhat_of_correct :
  ∃ q', qhat_of v1 v2 u0 u1 u2 = Some q' ∧ 0 ≤ q' < 2 ^ 16 ∧ U / V ≤ q' ≤ U / V + 1.
Proof using HU HV Hlt Hnorm Hp Hu0 Hu1 Hu2 Hv2.
  destruct estimate_quot as (HUV & Hr & Hqr). unfold qhat_of. destruct (Z.eqb_spec u0 v1) as [He|Hne].
  { apply qhat_loop_correct; rewrite ?B_eq; unfold is_digit in *; lia. }
  assert (u0 < v1) by (unfold is_digit in *; nia). rewrite COMBINE_val by done. set (nn := u0 * 2 ^ 16 + u1).
  unfold udiv, umod. destruct (Z.eqb_spec v1 0); [lia|]. cbn [mbind option_bind].
  pose proof (Z.div_mod nn v1 ltac:(lia)). pose proof (Z.mod_pos_bound nn v1 ltac:(lia)).
  assert (nn < v1 * 2 ^ 16) by (unfold nn, is_digit in *; nia).
  assert (nn / v1 < 2 ^ 16) by (apply Z.div_lt_upper_bound; lia).
  assert (0 ≤ nn / v1) by (apply Z.div_pos; unfold nn, is_digit in *; lia).
  apply qhat_loop_correct; try lia. split; [|lia]. apply Z.div_le_lower_bound; [lia|].
  assert (V * (U / V) < (nn + 1) * (2 ^ 16 * p)) by (unfold nn, is_digit in *; nia).
  assert (v1 * (U / V) * (2 ^ 16 * p) ≤ V * (U / V)) by (unfold is_digit in *; nia). nia.
Qed.
End estimate.

(** ** One quotient digit *)

(** A number lies in the interval its leading digits determine. *)
Lemma leading2 v1 v2 V : Forall is_digit V →
  (v1 * 2 ^ 16 + v2) * pw (length V) ≤ val (v1 :: v2 :: V) < (v1 * 2 ^ 16 + v2 + 1) * pw (length V).
Proof. intros HV. pose proof (val_range V HV). cbn [val length]. rewrite pw_S. nia. Qed.
Lemma leading3 u0 u1 u2 W : Forall is_digit W →
  (u0 * 2 ^ 32 + u1 * 2 ^ 16 + u2) * pw (length W) ≤ val (u0 :: u1 :: u2 :: W)
    < (u0 * 2 ^ 32 + u1 * 2 ^ 16 + u2 + 1) * pw (length W).
Proof. intros HW. pose proof (val_range W HW). cbn [val length]. rewrite !pw_S. nia. Qed.

(** The top digit after the subtraction: it vanishes, or a borrow shows. *)
Lemma top_digit x t b X R P : is_digit x → is_digit t → 0 ≤ R < P → X = (x - t) * P + R → b = (X <? 0) → - P ≤ X < P →
  HHALF (u32 (x - t)) = (if b : bool then 2 ^ 16 - 1 else 0) ∧
  digit (LHALF (u32 (x - t))) = (if b : bool then 2 ^ 16 - 1 else 0) ∧
  x - t = if b : bool then -1 else 0.
Proof.
  unfold is_digit. intros Hx Ht HR HX -> HP. rewrite digit_LHALF, HHALF_div, u32_digit. unfold u32.
  assert (x - t = if X <? 0 then -1 else 0) as -> by (destruct (Z.ltb_spec X 0); nia). by destruct (X <? 0).
Qed.

(** From the state after the subtraction. *)
Lemma settle_correct pre u0 W rest vpre V vpost u v n qhat t U :
  length W = length V → n = Z.of_nat (length W) → is_digit u0 → is_digit t → Forall is_digit W → Forall is_digit V →
  0 < val V → 0 ≤ U → U - qhat * val V = (u0 - t) * pw (length W) + val W →
  0 ≤ qhat < 2 ^ 16 → U / val V ≤ qhat ≤ U / val V + 1 →
  u = Z.of_nat (length pre) → v + 1 = Z.of_nat (length vpre) →
  ∃ R, settle (pre ++ u0 :: W ++ rest) (vpre ++ V ++ vpost) u v n qhat t = Some (pre ++ 0 :: R ++ rest, U / val V) ∧
    length R = length W ∧ Forall is_digit R ∧ val R = U mod val V.
Proof.
  intros Hlen Hn Hu0 Ht HdW HdV HVpos HU Hval Hq Hqle Hu Hv.
  pose proof (val_range W HdW) as HWr. pose proof (val_range V HdV) as HVr. rewrite Hlen in *.
  pose proof (Z.div_mod U (val V) ltac:(lia)) as Hdm. pose proof (Z.mod_pos_bound U (val V) ltac:(lia)) as Hr.
  assert (0 ≤ U / val V) by (apply Z.div_pos; lia).
  set (X := U - qhat * val V) in *. assert (- val V ≤ X < val V) as HX by (unfold X; nia).
  destruct (top_digit u0 t (X <? 0) X (val W) (pw (length V))) as (Hh & Hl & Hd); [done || lia..|].
  rewrite Hd in Hval. unfold settle. rewrite znth_mid by done. cbn [mbind option_bind]. rewrite store_mid, Hh, Hl by done. cbn [mbind option_bind].
  destruct (Z.ltb_spec X 0) as [Hneg|Hpos].
  - assert (qhat = U / val V + 1) by (unfold X in Hneg; nia).
    destruct (add_back_correct (pre ++ [2 ^ 16 - 1]) W rest vpre V vpost u v 0)
      as (W' & t' & Hadd & HlenW' & HdW' & Ht' & Hval'); [done|done|done|lia|rewrite length_app; simpl; lia|done|].
    rewrite <- !app_assoc in Hadd. change (negb (2 ^ 16 - 1 =? 0)) with true. cbn [app] in Hadd. cbn iota.
    replace (Z.to_nat n) with (length W) by lia. rewrite Hadd. cbn [mbind option_bind]. rewrite znth_mid by done.
    cbn [mbind option_bind]. rewrite store_mid by done. cbn [mbind option_bind]. rewrite Hlen in Hval'.
    pose proof (val_range W' HdW') as HWr'. rewrite HlenW', Hlen in HWr'. assert (X + val V = U mod val V) by (unfold X; nia).
    assert (t' = 1) as -> by (destruct (decide (t' = 0)) as [->|]; lia).
    exists W'. change (digit (LHALF (u32 (2 ^ 16 - 1 + 1)))) with 0. unfold u32.
    rewrite (Z.mod_small (qhat - 1)), digit_id by (unfold is_digit; lia).
    split_and!; [by replace (qhat - 1) with (U / val V) by lia|lia|done|lia].
  - assert (qhat = U / val V) by (unfold X in Hpos; nia). exists W. simpl. rewrite digit_id by done.
    split_and!; [by subst qhat|lia|done|unfold X in *; nia].
Qed.

Lemma one_digit_correct pre u0 W rest vpre v1 v2 V vpost u v n :
  length W = S (S (length V)) → n = Z.of_nat (length W) →
  Forall is_digit (u0 :: W) → Forall is_digit (v1 :: v2 :: V) → 2 ^ 15 ≤ v1 →
  val (u0 :: W) < val (v1 :: v2 :: V) * 2 ^ 16 →
  u = Z.of_nat (length pre) → v + 1 = Z.of_nat (length vpre) →
  ∃ R, one_digit (pre ++ u0 :: W ++ rest) (vpre ++ (v1 :: v2 :: V) ++ vpost) u v n v1 v2
       = Some (pre ++ 0 :: R ++ rest, val (u0 :: W) / val (v1 :: v2 :: V)) ∧
    length R = length W ∧ Forall is_digit R ∧ val R = val (u0 :: W) mod val (v1 :: v2 :: V).
Proof.
  intros Hlen Hn HdU HdV Hnorm Hlt Hu Hv. destruct W as [|u1 [|u2 W]]; [simpl in Hlen; lia..|].
  pose proof HdU as (Hu0 & (Hu1 & (Hu2 & HdW)%Forall_cons_1)%Forall_cons_1)%Forall_cons_1.
  pose proof HdV as (Hv1 & (Hv2 & HdV2)%Forall_cons_1)%Forall_cons_1.
  assert (length W = length V) as HlenW by (simpl in Hlen; lia).
  pose proof (leading2 v1 v2 V HdV2) as HV. pose proof (leading3 u0 u1 u2 W HdW) as HU. rewrite HlenW in HU.
  pose proof (pw_pos (length V)) as Hp. assert (2 ^ 15 ≤ v1 < 2 ^ 16) as Hv1' by (unfold is_digit in *; lia).
  pose proof (val_range _ HdV) as HVr.
  pose proof (estimate_quot _ _ _ _ _ _ _ _ Hp HU HV Hu0 Hu1 Hu2 Hv2 Hv1' Hlt) as (HUV & Hr & Hqr).
  destruct (qhat_of_correct _ _ _ _ _ _ _ _ Hp HU HV Hu0 Hu1 Hu2 Hv2 Hv1' Hlt) as (qhat & Hqhat & Hq & Hqle).
  set (W1 := u1 :: u2 :: W) in *. set (VV := v1 :: v2 :: V) in *. set (U := val (u0 :: W1)) in *.
  destruct (mul_sub_correct (pre ++ [u0]) W1 rest vpre VV vpost u v qhat 0)
    as (W' & t & Hsub & HlenW' & HdW' & Ht & Hval); [done|by apply Forall_cons_1 in HdU as [_ ?]|done|done|done
    |rewrite length_app; simpl; lia|done|].
  unfold one_digit. rewrite (znth_mid pre u0 _ u) by done. cbn [mbind option_bind].
  replace (pre ++ u0 :: W1 ++ rest) with ((pre ++ [u0]) ++ u1 :: u2 :: W ++ rest) by by rewrite <- app_assoc.
  rewrite (znth_mid (pre ++ [u0]) u1 _ (u + 1)) by (rewrite length_app; simpl; lia). cbn [mbind option_bind].
  rewrite (cons_middle u1), (app_assoc (pre ++ [u0])), znth_mid by (rewrite !length_app; simpl; lia). cbn [mbind option_bind].
  rewrite Hqhat. cbn [mbind option_bind]. rewrite <- (app_assoc (pre ++ [u0])). change ([u1] ++ u2 :: W ++ rest) with (W1 ++ rest).
  replace (Z.to_nat n) with (length W1) by lia. rewrite Hsub. cbn [mbind option_bind]. rewrite <- app_assoc. cbn [app].
  rewrite <- HlenW'. apply settle_correct; try done; [by rewrite HlenW'|by rewrite HlenW'|lia|nia|].
  rewrite HlenW'. unfold U. cbn [val]. lia.
Qed.

(** ** Step D7: all the quotient digits *)

Lemma j_loop_correct fuel pre u0 W rest vpre v1 v2 V vpost qpre qs u v q n m j :
  length W = S (S (length V)) → n = Z.of_nat (length W) → m - j = Z.of_nat (length rest) → (length rest < fuel)%nat →
  Forall is_digit (u0 :: W) → Forall is_digit rest → Forall is_digit (v1 :: v2 :: V) → 2 ^ 15 ≤ v1 →
  val (u0 :: W) < val (v1 :: v2 :: V) * 2 ^ 16 →
  u + j = Z.of_nat (length pre) → v + 1 = Z.of_nat (length vpre) →
  q + j = Z.of_nat (length qpre) → length qs = S (length rest) →
  ∃ R Q, j_loop fuel (pre ++ u0 :: W ++ rest) (vpre ++ (v1 :: v2 :: V) ++ vpost) (qpre ++ qs) u v q n m v1 v2 j
         = Some (pre ++ replicate (S (length rest)) 0 ++ R, qpre ++ Q) ∧
    length R = length W ∧ Forall is_digit R ∧ length Q = S (length rest) ∧ Forall is_digit Q ∧
    val (u0 :: W ++ rest) = val Q * val (v1 :: v2 :: V) + val R ∧ 0 ≤ val R < val (v1 :: v2 :: V).
Proof.
  intros HlenW Hn. revert fuel pre u0 W rest qpre qs j HlenW Hn.
  induction fuel as [|fuel IH]; intros pre u0 W rest qpre qs j HlenW Hn Hm Hf HdU Hdr HdV Hnorm Hlt Hu Hv Hq Hqs; [lia|].
  destruct (one_digit_correct pre u0 W rest vpre v1 v2 V vpost (u + j) v n) as (R & Hone & HlenR & HdR & HvR); [done..|].
  set (VV := v1 :: v2 :: V) in *. destruct qs as [|q0 qs]; [done|]. cbn [j_loop]. rewrite Hone. cbn [mbind option_bind].
  rewrite store_mid by done. cbn [mbind option_bind].
  pose proof (val_range _ HdU) as HUr.
  assert (0 < val VV) as HVpos by nia.
  assert (is_digit (val (u0 :: W) / val VV)) as Hqd.
  { split; [apply Z.div_pos; lia|apply Z.div_lt_upper_bound; lia]. }
  pose proof (Z.div_mod (val (u0 :: W)) (val VV) ltac:(lia)) as Hdm.
  pose proof (Z.mod_pos_bound (val (u0 :: W)) (val VV) HVpos) as Hrm. rewrite <- HvR in Hdm, Hrm.
  destruct rest as [|x rest].
  - destruct (Z.leb_spec (j + 1) m) as [Hle|_]; [simpl in Hm; lia|]. destruct qs; [|done].
    exists R, [val (u0 :: W) / val VV]. rewrite !app_nil_r. split_and!; try done; try lia.
    + by apply Forall_singleton.
    + cbn [val length]. rewrite pw_0. cbn [val] in Hdm. lia.
  - destruct (Z.leb_spec (j + 1) m) as [_|Hle]; [|simpl in Hm; lia]. simpl in Hqs, Hm, Hf.
    apply Forall_cons_1 in Hdr as [Hx Hdr]. destruct R as [|r0 R]; [simpl in HlenR; lia|].
    assert (Forall is_digit (r0 :: R ++ [x])) as HdRx by (by apply (digits_snoc (r0 :: R) x)).
    assert (val (r0 :: R ++ [x]) < val VV * 2 ^ 16) as HvRx.
    { rewrite (val_snoc (r0 :: R) x : val (r0 :: R ++ [x]) = _). unfold is_digit in Hx. lia. }
    destruct (IH (pre ++ [0]) r0 (R ++ [x]) rest (qpre ++ [val (u0 :: W) / val VV]) qs (j + 1))
      as (R' & Q & Hrun & HlenR' & HdR' & HlenQ & HdQ & Hval & Hlast); rewrite ?length_app; cbn [length] in *; try done; try lia.
    set (qd := val (u0 :: W) / val VV) in *.
    exists R', (qd :: Q). rewrite <- !app_assoc in Hrun. cbn [app] in Hrun |- *.
    rewrite Hrun. split_and!; try done; try (cbn [length]; rewrite ?length_app in *; simpl in *; lia); [by constructor|].
    rewrite (val_app (u0 :: W) (x :: rest) : val (u0 :: W ++ x :: rest) = _).
    rewrite <- app_assoc in Hval. cbn [app] in Hval. rewrite (val_app (r0 :: R) (x :: rest) : val (r0 :: R ++ x :: rest) = _) in Hval.
    cbn [length]. change (val (qd :: Q)) with (qd * pw (length Q) + val Q). rewrite HlenQ. cbn [length] in Hval. nia.
Qed.

(** ** Assembling the result *)

Lemma q_zero_correct k qs : (k ≤ length qs)%nat → q_zero k qs = Some (replicate k 0 ++ drop k qs).
Proof.
  revert qs. induction k as [|k IH]; intros qs Hk; [done|]. cbn [q_zero].
  destruct (lookup_lt_is_Some_2 qs k ltac:(lia)) as [x Hx].
  assert (store qs (Z.of_nat k) 0 = Some (take k qs ++ 0 :: drop (S k) qs)) as ->.
  { rewrite <- (take_drop_middle qs k x Hx) at 1. apply store_mid. rewrite length_take_le; lia. }
  cbn [mbind option_bind]. rewrite IH by (rewrite length_app, length_take; simpl; lia). f_equal.
  rewrite drop_app_length' by (rewrite length_take_le; lia). by rewrite replicate_S_end, <- app_assoc.
Qed.

Lemma val_zeros k l : val (replicate k 0 ++ l) = val l.
Proof. induction k as [|k IH]; simpl; [done|lia]. Qed.
Lemma digits_zeros k : Forall is_digit (replicate k 0).
Proof. apply Forall_replicate. unfold is_digit. lia. Qed.

Lemma combine4_correct x l : length l = 4%nat → Forall is_digit l → combine4 (x :: l) = Some (val l).
Proof.
  intros Hl Hd. destruct l as [|a [|b [|c [|e [|? ?]]]]]; try (simpl in Hl; lia).
  repeat (apply Forall_cons_1 in Hd as [? Hd]). 
  change (combine4 [x; a; b; c; e]) with (Some (to_ull (mkUu (COMBINE a b) (COMBINE c e)))).
  rewrite !COMBINE_val by done. unfold to_ull. cbn [uiH uiL val length].
  f_equal. rewrite pw_0. change (pw 1) with (2 ^ 16). change (pw 2) with (2 ^ 16 * 2 ^ 16).
  change (pw 3) with (2 ^ 16 * 2 ^ 16 * 2 ^ 16). change (2 ^ 32) with (2 ^ 16 * 2 ^ 16). lia.
Qed.

Lemma combine4_zeros k l : length l = 5%nat → (0 < k)%nat → Forall is_digit l →
  ∀ l', l = replicate k 0 ++ l' → combine4 l = Some (val l').
Proof.
  intros Hl Hk Hd l' ->. destruct k as [|k]; [lia|]. cbn [replicate app] in *. apply Forall_cons_1 in Hd as [_ Hd].
  rewrite combine4_correct; [by rewrite val_zeros|simpl in Hl; lia|done].
Qed.

Lemma of_ll_digits x : Forall is_digit (digits4 x).
Proof. repeat constructor; apply is_digit_digit. Qed.
Lemma digits4_val x : is_ull x → val (digits4 x) = x.
Proof.
  intros Hx. destruct (of_ll_range x) as [Hh Hl]. pose proof (of_ull_split x Hx).
  destruct (halves _ Hh) as (HH & H1 & H2 & _), (halves _ Hl) as (HL & H3 & H4 & _).
  unfold digits4. rewrite !digit_id by done. cbn [val length]. rewrite pw_0. change (pw 1) with (2 ^ 16).
  change (pw 2) with (2 ^ 16 * 2 ^ 16). change (pw 3) with (2 ^ 16 * 2 ^ 16 * 2 ^ 16).
  change (2 ^ 32) with (2 ^ 16 * 2 ^ 16). lia.
Qed.

(** ** Program D *)

(** Step D1 on both operands. *)
Lemma normalise_dividend a D u k d : Forall is_digit D → 0 ≤ d < 16 → u = Z.of_nat a → k = Z.of_nat (length D) →
  ∃ U, (if d >? 0 then shl (replicate a 0 ++ 0 :: D) u k d else Some (replicate a 0 ++ 0 :: D)) = Some (replicate a 0 ++ U) ∧
    length U = S (length D) ∧ Forall is_digit U ∧ val U = val D * 2 ^ d.
Proof.
  intros HD Hd Hu Hk. assert (Forall is_digit (0 :: D)) as H0 by (constructor; [done|done]).
  destruct (Z.gtb_spec d 0).
  - destruct (shl_correct (replicate a 0) 0 D [] u d) as (U & Hrun & Hlen & HdU & Hval);
      [done|lia|by rewrite length_replicate|].
    rewrite !app_nil_r in Hrun. exists U. unfold shl. replace (Z.to_nat k) with (length D) by lia.
    split_and!; [done..|]. cbn [val] in Hval. unfold top in Hval. rewrite Z.div_0_l in Hval by lia. lia.
  - exists (0 :: D). replace d with 0 by lia. split_and!; [done..|]. simpl. lia.
Qed.

Lemma normalise_divisor vpre v1 V v k d :
  Forall is_digit (v1 :: V) → 0 ≤ d < 16 → 2 ^ 15 ≤ v1 * 2 ^ d < 2 ^ 16 →
  v + 1 = Z.of_nat (length vpre) → k = Z.of_nat (length V) →
  ∃ w W, (if d >? 0 then shl (vpre ++ v1 :: V) (v + 1) k d else Some (vpre ++ v1 :: V)) = Some (vpre ++ w :: W) ∧
    length W = length V ∧ Forall is_digit (w :: W) ∧ val (w :: W) = val (v1 :: V) * 2 ^ d ∧ 2 ^ 15 ≤ w.
Proof.
  intros HV Hd Hn Hv Hk. destruct (Z.gtb_spec d 0).
  - destruct (shl_correct vpre v1 V [] (v + 1) d) as (U & Hrun & Hlen & HdU & Hval); [done|lia|done|].
    rewrite !app_nil_r in Hrun. destruct U as [|w W]; [done|]. exists w, W. unfold shl.
    replace (Z.to_nat k) with (length V) by lia.
    assert (top d v1 = 0) as Ht.
    { unfold top. apply Z.div_small. apply Forall_cons_1 in HV as [Hv1 _]. unfold is_digit in Hv1.
      rewrite (pow_split d) in Hn by lia. nia. }
    rewrite Ht in Hval. simpl in Hlen. split_and!; [done|lia|done|lia|].
    apply Forall_cons_1 in HV as [_ HV]. apply Forall_cons_1 in HdU as [_ HW].
    pose proof (val_range V HV). pose proof (val_range W HW). cbn [val] in Hval. replace (length W) with (length V) in * by lia.
    pose proof (pw_pos (length V)). nia.
  - exists v1, V. replace d with 0 in * by lia. split_and!; [done..|lia|lia].
Qed.

(** The scaled division gives the quotient and the scaled remainder. *)
Lemma unscale D V Q R d : 0 ≤ d → 0 < V → D * 2 ^ d = Q * (V * 2 ^ d) + R → 0 ≤ R < V * 2 ^ d →
  Q = D / V ∧ R = D mod V * 2 ^ d.
Proof.
  intros Hd HV Heq HR. assert (0 < 2 ^ d) by lia. assert (R = (D - Q * V) * 2 ^ d) as HRe by lia.
  assert (0 ≤ D - Q * V < V) as Hb by nia.
  assert (Q = D / V) as HQ. { apply (Z.div_unique D V Q (D - Q * V)); lia. }
  split; [done|]. rewrite HRe. f_equal. rewrite Z.mod_eq by lia. subst Q. lia.
Qed.

(** The remainder, brought back to the scale of the operands. *)
Lemma remainder_correct a R r n d p :
  Forall is_digit R → n = Z.of_nat (length R) → (a + length R = 4)%nat → 0 ≤ d < 16 → p = Z.of_nat a → val R = r * 2 ^ d →
  (us ← (if negb (d =? 0) then us ← unshift (Z.to_nat n) (replicate (S a) 0 ++ R) p d; store us p 0
         else Some (replicate (S a) 0 ++ R));
   r ← combine4 us;
   Some (Some r)) = Some (Some r).
Proof.
  intros HR Hn Ha Hd Hp Hval. destruct (Z.eqb_spec d 0) as [->|Hne]; cbn [negb].
  - cbn [mbind option_bind]. erewrite combine4_zeros; [| | |apply Forall_app; split; [apply digits_zeros|done]|done].
    + cbn [mbind option_bind]. do 2 f_equal. lia.
    + rewrite length_app, length_replicate. lia.
    + lia.
  - replace (replicate (S a) 0 ++ R) with (replicate a 0 ++ 0 :: R ++ []) by by rewrite replicate_S_end, <- app_assoc, app_nil_r.
    destruct (unshift_correct (replicate a 0) 0 R [] p d) as (R' & Hrun & Hlen & HdR' & Hv);
      [done|done|lia|by rewrite length_replicate|].
    replace (Z.to_nat n) with (length R) by lia. rewrite Hrun. cbn [mbind option_bind].
    rewrite store_mid by by rewrite length_replicate. cbn [mbind option_bind]. rewrite app_nil_r.
    rewrite (combine4_zeros (S a) _) with (l' := R').
    + cbn [mbind option_bind]. do 2 f_equal. rewrite Z.mod_0_l in Hv by lia.
      pose proof (Z.mod_pos_bound (last R 0) (2 ^ d) ltac:(lia)). nia.
    + rewrite length_app, length_replicate. simpl. lia.
    + lia.
    + apply Forall_app. split; [apply digits_zeros|]. by constructor.
    + by rewrite replicate_S_end, <- app_assoc.
Qed.

(** The loop over all the digits, on the normalised operands. *)
Lemma main_loop a N U vpre w1 w2 W qpre qs u v n m :
  n = Z.of_nat (S (S (length W))) → 0 ≤ m ≤ 4 → m + n + 1 = Z.of_nat (length U) → u = Z.of_nat a →
  Forall is_digit U → Forall is_digit (w1 :: w2 :: W) → 2 ^ 15 ≤ w1 → val U = N →
  N < pw (Z.to_nat m) * (pw (Z.to_nat n) * 2 ^ 15) →
  v + 1 = Z.of_nat (length vpre) →
  4 - m = Z.of_nat (length qpre) → length qs = S (Z.to_nat m) →
  ∃ R Q, j_loop 5 (replicate a 0 ++ U) (vpre ++ w1 :: w2 :: W) (qpre ++ qs) u v (4 - m) n m w1 w2 0
         = Some (replicate a 0 ++ replicate (S (Z.to_nat m)) 0 ++ R, qpre ++ Q) ∧
    length R = Z.to_nat n ∧ Forall is_digit R ∧ length Q = S (Z.to_nat m) ∧ Forall is_digit Q ∧
    N = val Q * val (w1 :: w2 :: W) + val R ∧ 0 ≤ val R < val (w1 :: w2 :: W).
Proof.
  intros Hn Hm HlenU Hu HdU HdW Hw1 <- Hlt Hv Hq Hqs.
  destruct U as [|u0 U]; [simpl in HlenU; lia|]. simpl in HlenU.
  rewrite <- (take_drop (Z.to_nat n) U) in HdU, Hlt |- *. set (W0 := take (Z.to_nat n) U) in *. set (rest := drop (Z.to_nat n) U) in *.
  assert (length W0 = Z.to_nat n) as HlenW0 by (unfold W0; rewrite length_take; lia).
  assert (length rest = Z.to_nat m) as Hlenr by (unfold rest; rewrite length_drop; lia).
  clearbody W0 rest. apply (Forall_app _ (u0 :: W0)) in HdU as [HdU0 Hdr].
  rewrite (val_app (u0 :: W0) rest : val (u0 :: W0 ++ rest) = _), Hlenr in Hlt.
  pose proof (val_range rest Hdr) as Hvr. rewrite Hlenr in Hvr.
  pose proof (proj2 (Forall_cons_1 _ _ _ HdW)) as HdW2. pose proof (leading2 w1 w2 W (proj2 (Forall_cons_1 _ _ _ HdW2))) as [HV _].
  assert (val (u0 :: W0) < val (w1 :: w2 :: W) * 2 ^ 16) as Hlt'.
  { replace (Z.to_nat n) with (S (S (length W))) in Hlt by lia. rewrite !pw_S in Hlt.
    assert (val (u0 :: W0) < 2 ^ 16 * (2 ^ 16 * pw (length W)) * 2 ^ 15) as Hx.
    { apply (Z.mul_lt_mono_pos_l (pw (Z.to_nat m))); [apply pw_pos|lia]. }
    pose proof (proj1 (Forall_cons_1 _ _ _ HdW2)) as Hw2. pose proof (pw_pos (length W)). unfold is_digit in Hw2.
    clear -Hx HV Hw1 Hw2 H. nia. }
  destruct (j_loop_correct 5 (replicate a 0) u0 W0 rest vpre w1 w2 W [] qpre qs u v (4 - m) n m 0)
    as (R & Q & Hrun & HlenR & HdR & HlenQ & HdQ & Heq & HR); rewrite ?length_replicate; try done; try lia.
  rewrite app_nil_r, Hlenr in Hrun. exists R, Q. split_and!; try done; lia.
Qed.

Lemma program_D_correct a D vpre v1 v2 V qs u v n m arq :
  Forall is_digit D → Forall is_digit (v1 :: v2 :: V) → 1 ≤ v1 → n = Z.of_nat (S (S (length V))) →
  0 ≤ m → m + n = Z.of_nat (length D) → (a + length D = 4)%nat → length qs = 5%nat →
  u = Z.of_nat a → v + 1 = Z.of_nat (length vpre) →
  program_D (replicate a 0 ++ 0 :: D) (vpre ++ v1 :: v2 :: V) qs u v n m arq
  = Some (val D / val (v1 :: v2 :: V), if arq : bool then Some (val D mod val (v1 :: v2 :: V)) else None).
Proof.
  intros HD HV Hv1 Hn Hm Hmn Ha Hqs Hu Hv. unfold program_D.
  rewrite q_zero_correct by lia. cbn [mbind option_bind]. rewrite znth_mid by done. cbn [mbind option_bind].
  destruct (d_loop_correct 16 v1 0) as (d & Hd & Hd16 & Hnorm);
    [apply Forall_cons_1 in HV as [Hd1 _]; unfold is_digit in Hd1; lia|change (2 ^ Z.of_nat 16) with (2 ^ 16); lia|].
  rewrite Hd. cbn [mbind option_bind]. rewrite Z.add_0_l.
  destruct (normalise_dividend a D u (m + n) d) as (U & -> & HlenU & HdU & HvU); [done|lia|done|lia|].
  destruct (normalise_divisor vpre v1 (v2 :: V) v (n - 1) d) as (w1 & W & -> & HlenW & HdW & HvW & Hw1);
    [done|lia|done|done|simpl; lia|].
  cbn [mbind option_bind]. destruct W as [|w2 W]; [done|]. simpl in HlenW.
  rewrite (znth_mid vpre w1 _ (v + 1)) by done. cbn [mbind option_bind].
  replace (znth (vpre ++ w1 :: w2 :: W) (v + 2)) with (Some w2)
    by (rewrite (cons_middle w1), app_assoc, znth_mid; [done|rewrite length_app; simpl; lia]).
  cbn [mbind option_bind].
  destruct (main_loop a (val D * 2 ^ d) U vpre w1 w2 W (replicate (Z.to_nat (4 - m)) 0) (drop (Z.to_nat (4 - m)) qs) u v n m)
    as (R & Q & -> & HlenR & HdR & HlenQ & HdQ & Heq & HR);
    [lia|lia|lia|lia|done|done|done|by rewrite HvU| |done|by rewrite length_replicate; lia|rewrite length_drop; lia|].
  { pose proof (val_range D HD). replace (Z.to_nat n) with (S (S (length V))) by lia.
    assert (pw (length D) = pw (Z.to_nat m) * pw (S (S (length V)))) as Hpw by (rewrite <- pw_add; f_equal; lia).
    assert (2 ^ d ≤ 2 ^ 15) by (apply Z.pow_le_mono_r; lia). nia. }
  cbn [mbind option_bind]. rewrite HvW in Heq, HR.
  assert (0 < val (v1 :: v2 :: V)) as HVpos.
  { pose proof (val_range _ HV). cbn [val] in *. apply Forall_cons_1 in HV as [_ HV2]. pose proof (val_range _ HV2).
    pose proof (pw_pos (length (v2 :: V))). cbn [val] in *. nia. }
  destruct (unscale _ _ _ _ _ (proj1 Hd16) HVpos Heq HR) as [HQ HRd].
  assert (combine4 (replicate (Z.to_nat (4 - m)) 0 ++ Q) = Some (val Q)) as Hcq.
  { apply (combine4_zeros (Z.to_nat (4 - m))); [|lia|apply Forall_app; split; [apply digits_zeros|done]|done].
    rewrite length_app, length_replicate. lia. }
  rewrite Hcq, HQ. destruct arq; [|done].
  replace (replicate a 0 ++ replicate (S (Z.to_nat m)) 0 ++ R) with (replicate (S (a + Z.to_nat m)) 0 ++ R)
    by (rewrite app_assoc, <- replicate_add; do 2 f_equal; lia).
  rewrite (remainder_correct _ R (val D mod val (v1 :: v2 :: V)) n d (u + m) HdR); [done|lia|lia|lia|lia|done].
Qed.

(** ** Division by a single digit *)

Lemma short_step r x t : 0 ≤ r < t → is_digit x → t < 2 ^ 16 →
  udiv (COMBINE r x) t = Some ((r * 2 ^ 16 + x) / t) ∧ umod (COMBINE r x) t = Some ((r * 2 ^ 16 + x) mod t) ∧
  is_digit ((r * 2 ^ 16 + x) / t) ∧ 0 ≤ (r * 2 ^ 16 + x) mod t < t ∧
  r * 2 ^ 16 + x = t * ((r * 2 ^ 16 + x) / t) + (r * 2 ^ 16 + x) mod t.
Proof.
  intros Hr Hx Ht. rewrite COMBINE_val by (unfold is_digit in *; lia). unfold udiv, umod. destruct (Z.eqb_spec t 0); [lia|].
  unfold is_digit in *. split_and!; try done; try (apply Z.mod_pos_bound; lia); [apply Z.div_pos; lia| |apply Z.div_mod; lia].
  apply Z.div_lt_upper_bound; lia.
Qed.

Lemma short_division_correct x D t : length D = 4%nat → Forall is_digit D → 1 ≤ t < 2 ^ 16 →
  short_division (x :: D) t = Some (val D / t, val D mod t).
Proof.
  intros Hl Hd Ht. destruct D as [|u1 [|u2 [|u3 [|u4 [|? ?]]]]]; try (simpl in Hl; lia).
  repeat (apply Forall_cons_1 in Hd as [? Hd]).
  destruct (short_step 0 u1 t) as (Hq1 & Hr1 & Hd1 & Hb1 & He1); [lia|done|lia|].
  change (0 * 2 ^ 16 + u1) with u1 in *. rewrite COMBINE_val in Hq1, Hr1 by done. change (0 * 2 ^ 16 + u1) with u1 in *.
  destruct (short_step (u1 mod t) u2 t) as (Hq2 & Hr2 & Hd2 & Hb2 & He2); [done|done|lia|].
  set (r2 := (u1 mod t * 2 ^ 16 + u2) mod t) in *.
  destruct (short_step r2 u3 t) as (Hq3 & Hr3 & Hd3 & Hb3 & He3); [done|done|lia|].
  set (r3 := (r2 * 2 ^ 16 + u3) mod t) in *.
  destruct (short_step r3 u4 t) as (Hq4 & Hr4 & Hd4 & Hb4 & He4); [done|done|lia|].
  unfold short_division. change (znth [x; u1; u2; u3; u4] 1) with (Some u1). change (znth [x; u1; u2; u3; u4] 2) with (Some u2).
  change (znth [x; u1; u2; u3; u4] 3) with (Some u3). change (znth [x; u1; u2; u3; u4] 4) with (Some u4).
  do 4 (cbn [mbind option_bind]). rewrite Hq1, Hr1. cbn [mbind option_bind]. rewrite Hq2, Hr2. cbn [mbind option_bind].
  rewrite Hq3, Hr3. cbn [mbind option_bind]. rewrite Hq4, Hr4. cbn [mbind option_bind].
  rewrite !digit_id, !COMBINE_val by done. unfold to_ull. cbn [uiH uiL].
  set (q1 := u1 / t) in *. set (q2 := (u1 mod t * 2 ^ 16 + u2) / t) in *. set (q3 := (r2 * 2 ^ 16 + u3) / t) in *.
  set (q4 := (r3 * 2 ^ 16 + u4) / t) in *. set (r4 := (r3 * 2 ^ 16 + u4) mod t) in *.
  assert (val [u1; u2; u3; u4] = t * ((q1 * 2 ^ 16 + q2) * 2 ^ 32 + (q3 * 2 ^ 16 + q4)) + r4) as Hval.
  { cbn [val length]. rewrite pw_0. change (pw 1) with (2 ^ 16). change (pw 2) with (2 ^ 32). change (pw 3) with (2 ^ 48). lia. }
  f_equal. f_equal; [eapply Z.div_unique|eapply Z.mod_unique]; eauto.
Qed.

(** ** The whole routine *)

Lemma val4 a b c d : val [a; b; c; d] = a * 2 ^ 48 + b * 2 ^ 32 + c * 2 ^ 16 + d.
Proof.
  cbn [val length]. change (pw 3) with (2 ^ 48). change (pw 2) with (2 ^ 32). change (pw 1) with (2 ^ 16). rewrite pw_0. lia.
Qed.

(** The search for the first nonzero digit of the divisor. *)
Lemma v_loop_correct v0 a1 a2 a3 a4 :
  v_loop 4 [v0; a1; a2; a3; a4] 0 4
  = if a1 =? 0 then if a2 =? 0 then if a3 =? 0 then Some (2, 1) else Some (2, 2) else Some (1, 3) else Some (0, 4).
Proof. by destruct a1, a2, a3. Qed.

(** The same for the dividend, which has at least as many digits. *)
Lemma u_loop_eq b1 b2 b3 b4 m :
  u_loop 5 [0; b1; b2; b3; b4] 0 m
  = if b1 =? 0 then if b2 =? 0 then if b3 =? 0 then if b4 =? 0 then None else Some (3, m - 1 - 1 - 1)
    else Some (2, m - 1 - 1) else Some (1, m - 1) else Some (0, m).
Proof. by destruct b1, b2, b3, b4. Qed.

Lemma u_loop_correct b1 b2 b3 b4 m : 0 ≤ m ≤ 2 →
  Forall is_digit [b1; b2; b3; b4] → 2 ^ (16 * (3 - m)) ≤ val [b1; b2; b3; b4] →
  ∃ a D, u_loop 5 [0; b1; b2; b3; b4] 0 m = Some (Z.of_nat a, m - Z.of_nat a) ∧ Z.of_nat a ≤ m ∧
    [0; b1; b2; b3; b4] = replicate a 0 ++ 0 :: D ∧ (a + length D = 4)%nat ∧ val D = val [b1; b2; b3; b4] ∧ Forall is_digit D.
Proof.
  intros Hm Hd Hge. rewrite u_loop_eq. rewrite val4 in Hge.
  pose proof Hd as [Hb1 Hd2]%Forall_cons_1. pose proof Hd2 as [Hb2 Hd3]%Forall_cons_1.
  pose proof Hd3 as [Hb3 Hd4]%Forall_cons_1. pose proof Hd4 as [Hb4 _]%Forall_cons_1. unfold is_digit in Hb1, Hb2, Hb3, Hb4.
  assert (m = 0 ∨ m = 1 ∨ m = 2) as Hcase by lia. destruct (Z.eqb_spec b1 0) as [->|Hn1].
  2: { exists 0%nat, [b1; b2; b3; b4]. rewrite Z.sub_0_r. split_and!; done || lia. }
  destruct (Z.eqb_spec b2 0) as [->|Hn2].
  2: { exists 1%nat, [b2; b3; b4]. split_and!; try done. destruct Hcase as [-> | Hcase]; [simpl in Hge; lia|lia]. }
  destruct (Z.eqb_spec b3 0) as [->|Hn3].
  2: { exists 2%nat, [b3; b4]. split_and!; try done; [do 2 f_equal; lia|]. destruct Hcase as [-> | [-> | ->]]; simpl in Hge; lia. }
  exfalso. destruct Hcase as [-> | [-> | ->]]; simpl in Hge; lia.
Qed.

Lemma long_division_correct b1 b2 b3 b4 vpre w1 w2 V qs v n arq :
  n = Z.of_nat (S (S (length V))) → v + 1 = Z.of_nat (length vpre) → 2 ≤ n ≤ 4 → length qs = 5%nat →
  Forall is_digit [b1; b2; b3; b4] → Forall is_digit (w1 :: w2 :: V) → w1 ≠ 0 →
  val (w1 :: w2 :: V) ≤ val [b1; b2; b3; b4] →
  ('(u, m) ← u_loop 5 [0; b1; b2; b3; b4] 0 (4 - n);
   program_D [0; b1; b2; b3; b4] (vpre ++ w1 :: w2 :: V) qs u v n m arq)
  = Some (val [b1; b2; b3; b4] / val (w1 :: w2 :: V),
          if arq : bool then Some (val [b1; b2; b3; b4] mod val (w1 :: w2 :: V)) else None).
Proof.
  intros Hn Hv Hn4 Hqs HdA HdV Hw1 Hge. pose proof HdV as [Hdw1 HdV2]%Forall_cons_1. unfold is_digit in Hdw1.
  destruct (u_loop_correct b1 b2 b3 b4 (4 - n)) as (k & D & -> & Hk & HU & HlenD & HvD & HdD); [lia|done| |].
  { etransitivity; [|exact Hge]. pose proof (val_range _ HdV2) as HV2. 
    replace (2 ^ (16 * (3 - (4 - n)))) with (pw (length (w2 :: V))).
    - pose proof (pw_pos (length (w2 :: V))). change (val (w1 :: w2 :: V)) with (w1 * pw (length (w2 :: V)) + val (w2 :: V)). nia.
    - unfold pw. rewrite <- Z.pow_mul_r by lia. f_equal. simpl. lia. }
  cbn [mbind option_bind]. rewrite HU, <- HvD. apply program_D_correct; done || lia.
Qed.

Lemma qdivrem_correct v0 qs a b arq : is_ull a → is_ull b → b ≠ 0 → length qs = 5%nat →
  __qdivrem v0 qs a b arq = Some (a / b, if arq : bool then Some (a mod b) else None).
Proof.
  intros Ha Hb Hb0 Hqs. unfold __qdivrem. destruct (Z.eqb_spec b 0); [done|].
  destruct (Z.ltb_spec a b) as [Hlt|Hge]. { unfold is_ull in *. by rewrite Z.div_small, Z.mod_small by lia. }
  pose proof (of_ll_digits a) as HdA. pose proof (of_ll_digits b) as HdB. cbv zeta.
  rewrite <- (digits4_val a Ha), <- (digits4_val b Hb) in Hge. rewrite <- (digits4_val b Hb) in Hb0.
  replace (a / b) with (val (digits4 a) / val (digits4 b)) by by rewrite !digits4_val.
  replace (a mod b) with (val (digits4 a) mod val (digits4 b)) by by rewrite !digits4_val.
  destruct (digits4 a) as [|b1 [|b2 [|b3 [|b4 [|? ?]]]]] eqn:EA; try (apply (f_equal length) in EA; simpl in EA; lia).
  destruct (digits4 b) as [|a1 [|a2 [|a3 [|a4 [|? ?]]]]] eqn:EB; try (apply (f_equal length) in EB; simpl in EB; lia).
  clear EA EB. rewrite v_loop_correct. pose proof HdB as [Hd1 HdB2]%Forall_cons_1. pose proof HdB2 as [Hd2 HdB3]%Forall_cons_1.
  pose proof HdB3 as [Hd3 HdB4]%Forall_cons_1. pose proof HdB4 as [Hd4 _]%Forall_cons_1.
  destruct (Z.eqb_spec a1 0) as [->|Hn1]; [destruct (Z.eqb_spec a2 0) as [->|Hn2]; [destruct (Z.eqb_spec a3 0) as [->|Hn3]|]|];
    cbn [mbind option_bind].
  - change (znth [v0; 0; 0; 0; a4] (2 + 2)) with (Some a4). cbn [Z.eqb mbind option_bind].
    unfold is_digit in Hd4. rewrite short_division_correct; [|done|done|rewrite val4 in Hb0; lia].
    cbn [mbind option_bind]. by rewrite (val4 0 0 0 a4), !Z.mul_0_l, !Z.add_0_l.
  - by apply (long_division_correct b1 b2 b3 b4 [v0; 0; 0] a3 a4 [] qs 2 2 arq).
  - by apply (long_division_correct b1 b2 b3 b4 [v0; 0] a2 a3 [a4] qs 1 3 arq).
  - by apply (long_division_correct b1 b2 b3 b4 [v0] a1 a2 [a3; a4] qs 0 4 arq).
Qed.

(** ** Signed operands *)

Lemma operand_magnitude a : is_ll a → (if a <? 0 then u64 (- u64 a) else u64 a) = Z.abs a ∧ is_ull (Z.abs a).
Proof.
  unfold is_ll, is_ull, u64. intros Ha. change (2 ^ 64) with (2 * 2 ^ 63). destruct (Z.ltb_spec a 0).
  - split; [|lia]. rewrite <- Z.sub_0_l, Zminus_mod_idemp_r, Z.sub_0_l, Z.mod_small; lia.
  - split; [|lia]. rewrite Z.mod_small; lia.
Qed.

Lemma s64_u64 x : s64 (u64 x) = s64 x.
Proof. unfold s64, u64. by rewrite Zplus_mod_idemp_l. Qed.

Lemma divdi3_correct v0 qs a b : is_ll a → is_ll b → b ≠ 0 → length qs = 5%nat →
  __divdi3 v0 qs a b = Some (s64 (Z.quot a b)).
Proof.
  intros Ha Hb Hb0 Hqs. destruct (operand_magnitude a Ha) as [Ea Ra], (operand_magnitude b Hb) as [Eb Rb]. unfold __divdi3.
  rewrite Z.quot_div by done.
  destruct (Z.ltb_spec a 0), (Z.ltb_spec b 0); rewrite Ea, Eb, qdivrem_correct by (done || lia); cbn [mbind option_bind negb];
    rewrite ?s64_u64; do 2 f_equal; destruct (Z.sgn_spec a) as [[? ->] | [[? ->] | [? ->]]], (Z.sgn_spec b) as [[? ->] | [[? ->] | [? ->]]];
    subst; rewrite ?Z.div_0_l by lia; lia.
Qed.

Lemma moddi3_correct v0 qs a b : is_ll a → is_ll b → b ≠ 0 → length qs = 5%nat →
  __moddi3 v0 qs a b = Some (Z.rem a b).
Proof.
  intros Ha Hb Hb0 Hqs. destruct (operand_magnitude a Ha) as [Ea Ra], (operand_magnitude b Hb) as [Eb Rb]. unfold __moddi3. cbv zeta.
  rewrite Eb, Z.rem_mod by done. pose proof (Z.mod_pos_bound (Z.abs a) (Z.abs b) ltac:(lia)).
  pose proof (Z.mod_le (Z.abs a) (Z.abs b) ltac:(lia) ltac:(lia)). unfold is_ll in Ha, Hb.
  destruct (Z.ltb_spec a 0); rewrite Ea, qdivrem_correct by (done || lia); cbn [mbind option_bind].
  - rewrite s64_u64, s64_id, Z.sgn_neg by (unfold is_ll; lia). f_equal; lia.
  - rewrite s64_id by (unfold is_ll; lia). destruct (decide (a = 0)) as [->|]; [done|]. rewrite Z.sgn_pos by lia. f_equal; lia.
Qed.

(** C15: the 64-bit division the compiler calls for, which runs Knuth's algorithm D on 16-bit
    digits in 32-bit unsigned arithmetic, is division.  For every dividend and every nonzero
    divisor, whatever the uninitialised digits of its arrays hold, it stays inside its arrays, its
    loops end and it returns the exact quotient and remainder: [__udivdi3] and [__umoddi3] are
    unsigned division and remainder, and [__divdi3] and [__moddi3] are C's signed ones, rounding
    toward zero, where only the quotient of the most negative number by -1 wraps around. *)
Theorem division_equivalence v0 qs a b : length qs = 5%nat → b ≠ 0 →
  (is_ull a → is_ull b →
     __qdivrem v0 qs a b true = Some (a / b, Some (a mod b)) ∧
     __udivdi3 v0 qs a b = Some (a / b) ∧ __umoddi3 v0 qs a b = Some (a mod b)) ∧
  (is_ll a → is_ll b →
     __divdi3 v0 qs a b = Some (if decide (a = - 2 ^ 63 ∧ b = -1) then - 2 ^ 63 else Z.quot a b) ∧
     __moddi3 v0 qs a b = Some (Z.rem a b)).
Proof.
  intros Hqs Hb0. split.
  - intros Ha Hb. unfold __udivdi3, __umoddi3. by rewrite !qdivrem_correct by done.
  - intros Ha Hb. split; [|by apply moddi3_correct]. rewrite divdi3_correct by done. f_equal.
    destruct (decide _) as [[-> ->]|Hno]; [reflexivity|]. apply s64_id. unfold is_ll in *.
    destruct (decide (Z.abs b = 1)) as [H1|H1].
    + assert (Z.quot a b = a ∧ b = 1 ∨ Z.quot a b = - a ∧ b = -1) as Hq.
      { assert (b = 1 ∨ b = -1) as [-> | ->] by lia; [left; by rewrite Z.quot_1_r|right].
        change (-1) with (- (1)). by rewrite Z.quot_opp_r, Z.quot_1_r by lia. }
      lia.
    + assert (Z.abs (Z.quot a b) < 2 ^ 63); [|lia]. rewrite <- Z.quot_abs by lia.
      rewrite Z.quot_div_nonneg by lia. apply Z.div_lt_upper_bound; lia.
Qed.

Lemma division_equivalence_witness :
  __udivdi3 7 [9; 9; 9; 9; 9] 12345678901234567 987654321987 = Some 12499 ∧
  __moddi3 7 [9; 9; 9; 9; 9] (-12345678901234567) 987654321987 = Some (- (12345678901234567 mod 987654321987)).
Proof.
  destruct (division_equivalence 7 [9; 9; 9; 9; 9] 12345678901234567 987654321987) as [(_ & -> & _) _];
    [reflexivity|lia|unfold is_ull; lia..|].
  destruct (division_equivalence 7 [9; 9; 9; 9; 9] (-12345678901234567) 987654321987) as [_ (_ & ->)];
    [reflexivity|lia|unfold is_ll; lia..|].
  split; reflexivity.
Defined.

End QuadDiv.
