(* ===== verification/CopyInOut.v ===== *)
(** * Copying between the kernel and user memory (kern/vm/copyinout.c)

    One memory holds user and kernel bytes, as on the machine.  A byte that is
    not in it faults, and so does a store to a read-only byte; a fault is fatal
    unless [tm_badfaultfunc] is set, in which case [copyfail] jumps back to the
    [setjmp] of the copy routine.  [memcpy] copies upwards, so a fault in the
    middle leaves a prefix copied. *)

From Stdlib Require Import ZArith Lia.
From stdpp Require Import base numbers list gmap.
From S2P Require Import Prelude.

Module CopyInOut.

(** [MIPS_KSEG0] *)
Definition USERSPACETOP : Z := 2147483648.

Record machine := mkMachine {
  mem : gmap Z Z;
  readonly : gset Z;
  tm_badfaultfunc : bool;
}.

Definition set_badfault (x : bool) : M machine unit :=
  modify (λ s : machine, mkMachine (mem s) (readonly s) x).

(** A fault in kernel mode: [None] when [copyfail] takes over. *)
Definition fault {A} : M machine (option A) :=
  b ← gets tm_badfaultfunc; if (b : bool) then mret None else panic.

Definition load (a : Z) : M machine (option Z) :=
  o ← gets (λ s : machine, mem s !! a);
  match o with Some x => mret (Some x) | None => fault end.

Definition writable (s : machine) (a : Z) : bool :=
  bool_decide (is_Some (mem s !! a) ∧ a ∉ readonly s).

Definition store (a x : Z) : M machine (option unit) :=
  ok ← gets (λ s : machine, writable s a);
  if (ok : bool) then
    modify (λ s : machine, mkMachine (<[a := x]> (mem s)) (readonly s) (tm_badfaultfunc s)) ;;
    mret (Some tt)
  else fault.

(** [memcpy] out of, and into, user memory. *)
Fixpoint memcpy_in (n : nat) (a : Z) : M machine (option (list Z)) :=
  match n with
  | O => mret (Some [])
  | S n' =>
      o ← load a;
      match o with
      | None => mret None
      | Some x => r ← memcpy_in n' (a + 1);
                  mret (match r with Some xs => Some (x :: xs) | None => None end)
      end
  end.

Fixpoint memcpy_out (xs : list Z) (a : Z) : M machine (option unit) :=
  match xs with
  | [] => mret (Some tt)
  | x :: xs' =>
      o ← store a x;
      match o with
      | None => mret None
      | Some _ => memcpy_out xs' (a + 1)
      end
  end.

(** Returns [*stoplen]. *)
Definition copycheck (userptr len : Z) : result Z :=
  let bot := userptr in
  let top := (bot + len - 1) mod 2 ^ 32 in
  if top <? bot then Err EFAULT
  else if bot >=? USERSPACETOP then Err EFAULT
  else if top >=? USERSPACETOP then Ok (USERSPACETOP - bot)
  else Ok len.

Definition copyin (usersrc len : Z) : M machine (result (list Z)) :=
  match copycheck usersrc len with
  | Err e => mret (Err e)
  | Ok stoplen =>
      if negb (stoplen =? len) then mret (Err EFAULT) else
      set_badfault true ;;
      r ← memcpy_in (Z.to_nat len) usersrc;
      match r with
      | None => set_badfault false ;; mret (Err EFAULT)
      | Some xs => set_badfault false ;; mret (Ok xs)
      end
  end.

(** [src] is the kernel buffer, of [len] bytes. *)
Definition copyout (src : list Z) (userdest : Z) : M machine (result unit) :=
  let len := Z.of_nat (length src) in
  match copycheck userdest len with
  | Err e => mret (Err e)
  | Ok stoplen =>
      if negb (stoplen =? len) then mret (Err EFAULT) else
      set_badfault true ;;
      r ← memcpy_out src userdest;
      match r with
      | None => set_badfault false ;; mret (Err EFAULT)
      | Some _ => set_badfault false ;; mret (Ok tt)
      end
  end.

(** The loop of [copystr]: [n] is what is left of the smaller of [maxlen] and
    [stoplen].  [get] reads [src[i]] and [put] writes [dest[i]]; one of the two
    is user memory.  [None] is a fault; [Some (xs, b)] the bytes copied and
    whether the null byte was among them. *)
Fixpoint copystr_loop (n : nat) (i : Z) (get : Z → M machine (option Z))
    (put : Z → Z → M machine (option unit)) : M machine (option (list Z * bool)) :=
  match n with
  | O => mret (Some ([], false))
  | S n' =>
      o ← get i;
      match o with
      | None => mret None
      | Some x =>
          w ← put i x;
          match w with
          | None => mret None
          | Some _ =>
              if x =? 0 then mret (Some ([x], true)) else
              r ← copystr_loop n' (i + 1) get put;
              mret (match r with
                    | Some (xs, b) => Some (x :: xs, b)
                    | None => None
                    end)
          end
      end
  end.

(** Returns the bytes copied, the null byte included; their number is
    [*gotlen]. *)
Definition copystr (maxlen stoplen : Z) (get : Z → M machine (option Z))
    (put : Z → Z → M machine (option unit)) : M machine (option (result (list Z))) :=
  r ← copystr_loop (Z.to_nat (Z.min maxlen stoplen)) 0 get put;
  mret (match r with
        | None => None
        | Some (xs, true) => Some (Ok xs)
        | Some (_, false) =>
            if stoplen <? maxlen then Some (Err EFAULT) else Some (Err ENAMETOOLONG)
        end).

Definition copyinstr (usersrc len : Z) : M machine (result (list Z)) :=
  match copycheck usersrc len with
  | Err e => mret (Err e)
  | Ok stoplen =>
      set_badfault true ;;
      r ← copystr len stoplen (λ i, load (usersrc + i)) (λ _ _, mret (Some tt));
      match r with
      | None => set_badfault false ;; mret (Err EFAULT)
      | Some res => set_badfault false ;; mret res
      end
  end.

(** [src] is a kernel buffer; reading past it is fatal. *)
Definition copyoutstr (src : list Z) (userdest len : Z) : M machine (result (list Z)) :=
  match copycheck userdest len with
  | Err e => mret (Err e)
  | Ok stoplen =>
      set_badfault true ;;
      r ← copystr len stoplen (λ i, x ← deref (znth src i); mret (Some x))
            (λ i x, store (userdest + i) x);
      match r with
      | None => set_badfault false ;; mret (Err EFAULT)
      | Some res => set_badfault false ;; mret res
      end
  end.

(** ** What the routines do *)

(** The bytes at [a], ..., [a + n - 1], if all of them can be read. *)
Fixpoint read_range (m : gmap Z Z) (a : Z) (n : nat) : option (list Z) :=
  match n with
  | O => Some []
  | S n' =>
      match m !! a, read_range m (a + 1) n' with
      | Some x, Some xs => Some (x :: xs)
      | _, _ => None
      end
  end.

#[global] Arguments read_range : simpl never.

Lemma read_range_S m a n :
  read_range m a (S n) =
    match m !! a, read_range m (a + 1) n with
    | Some x, Some xs => Some (x :: xs)
    | _, _ => None
    end.
Proof. done. Qed.

(** Memory with [xs] written at [a]. *)
Fixpoint overwrite (m : gmap Z Z) (a : Z) (xs : list Z) : gmap Z Z :=
  match xs with
  | [] => m
  | x :: xs' => overwrite (<[a := x]> m) (a + 1) xs'
  end.

Definition with_mem (s : machine) (m : gmap Z Z) : machine :=
  mkMachine m (readonly s) (tm_badfaultfunc s).

(** A user buffer: not empty, and below the kernel. *)
Definition user_range (a len : Z) : Prop := 0 < len ∧ a + len ≤ USERSPACETOP.

#[global] Instance user_range_dec a len : Decision (user_range a len) := _.

(** Every byte of a buffer can be written. *)
Definition all_writable (s : machine) (a : Z) (n : nat) : bool :=
  forallb (writable s) (seqZ a (Z.of_nat n)).

(** A null-terminated string at [a]. *)
Definition cstr (xs : list Z) : Prop := ∃ ys, xs = ys ++ [0] ∧ 0 ∉ ys.

Lemma seqZ_S_l a n : seqZ a (Z.of_nat (S n)) = a :: seqZ (a + 1) (Z.of_nat n).
Proof.
  rewrite seqZ_cons by lia. f_equal. f_equal; lia.
Qed.

Lemma copycheck_correct a len :
  0 ≤ a < 2 ^ 32 → 0 < len ≤ 2 ^ 31 →
  copycheck a len =
    if decide (a < USERSPACETOP)
    then Ok (Z.min len (USERSPACETOP - a)) else Err EFAULT.
Proof.
  intros Ha Hl. unfold copycheck, USERSPACETOP.
  case_decide as Hlt.
  - rewrite Z.mod_small by lia.
    rewrite (proj2 (Z.ltb_ge _ _)) by lia.
    rewrite !Z.geb_leb. rewrite (proj2 (Z.leb_gt _ _)) by lia.
    destruct (Z.leb_spec 2147483648 (a + len - 1)); f_equal; lia.
  - destruct (Z.ltb_spec ((a + len - 1) mod 2 ^ 32) a); [done|].
    rewrite Z.geb_leb. by rewrite (proj2 (Z.leb_le _ _)) by lia.
Qed.

(** The check of [copyin] and [copyout], for every length. *)
Lemma copycheck_block a len :
  0 ≤ a < 2 ^ 32 → 0 ≤ len < 2 ^ 32 →
  if decide (user_range a len) then copycheck a len = Ok len
  else match copycheck a len with Ok n => n ≠ len | Err e => e = EFAULT end.
Proof.
  intros Ha Hl. unfold copycheck, user_range, USERSPACETOP.
  rewrite !Z.geb_leb. case_decide as Hr.
  - rewrite Z.mod_small by lia.
    rewrite (proj2 (Z.ltb_ge _ _)) by lia. by rewrite !(proj2 (Z.leb_gt _ _)) by lia.
  - destruct (Z.ltb_spec ((a + len - 1) mod 2 ^ 32) a); [done|].
    destruct (Z.leb_spec 2147483648 a); [done|].
    destruct (decide (len = 0)) as [->|].
    { destruct (Z.leb_spec 2147483648 ((a + 0 - 1) mod 2 ^ 32)); [lia|].
      destruct (decide (a = 0)) as [->|]; [done|].
      rewrite Z.mod_small in * by lia. lia. }
    destruct (decide (a + len - 1 < 2 ^ 32)).
    + rewrite Z.mod_small in * by lia.
      rewrite (proj2 (Z.leb_le _ _)) by lia. lia.
    + assert ((a + len - 1) mod 2 ^ 32 = a + len - 1 - 2 ^ 32) as Hw.
      { symmetry. apply (Z.mod_unique _ _ 1); lia. }
      lia.
Qed.

Lemma load_protected s a :
  tm_badfaultfunc s = true → load a s = Done (mem s !! a, s).
Proof.
  intros Hb. unfold load, fault, mbind, M_bind, gets.
  destruct (mem s !! a); [done|]. by rewrite Hb.
Qed.

Lemma store_protected s a x :
  tm_badfaultfunc s = true →
  store a x s = if writable s a then Done (Some tt, with_mem s (<[a := x]> (mem s)))
                else Done (None, s).
Proof.
  intros Hb. unfold store, fault, mbind, M_bind, gets, modify.
  destruct (writable s a); [done|]. by rewrite Hb.
Qed.

Lemma memcpy_in_protected n s a :
  tm_badfaultfunc s = true → memcpy_in n a s = Done (read_range (mem s) a n, s).
Proof.
  intros Hb. revert a. induction n as [|n IH]; intros a; [done|].
  rewrite read_range_S. cbn [memcpy_in]. unfold mbind at 1, M_bind.
  rewrite load_protected by done. destruct (mem s !! a) as [x|]; [|done].
  unfold mbind at 1. rewrite IH. by destruct (read_range _ _ _).
Qed.

Lemma writable_insert s a x b :
  writable s a = true → writable (with_mem s (<[a := x]> (mem s))) b = writable s b.
Proof.
  unfold writable. simpl. intros Ha%bool_decide_eq_true.
  apply bool_decide_ext. rewrite insert_is_Some_iff by apply Ha. done.
Qed.

Lemma memcpy_out_protected xs s a :
  tm_badfaultfunc s = true →
  ∃ k, (k ≤ length xs)%nat ∧
    memcpy_out xs a s =
      Done (if all_writable s a (length xs) then Some tt else None,
            with_mem s (overwrite (mem s) a (take k xs))) ∧
    (all_writable s a (length xs) = true → k = length xs).
Proof.
  revert s a. induction xs as [|x xs IH]; intros s a Hb.
  { exists 0%nat. split; [done|]. split; [|done]. by destruct s. }
  unfold all_writable. simpl length. rewrite seqZ_S_l. simpl.
  unfold mbind, M_bind. rewrite store_protected by done.
  destruct (writable s a) eqn:Hw; simpl.
  2: { exists 0%nat. split; [lia|]. split; [|done]. by destruct s. }
  destruct (IH (with_mem s (<[a := x]> (mem s))) (a + 1) Hb) as (k & Hk & Hrun & Hall).
  exists (S k). split; [lia|]. rewrite Hrun. unfold all_writable in *.
  assert (∀ l, forallb (writable (with_mem s (<[a := x]> (mem s)))) l
               = forallb (writable s) l) as Heq.
  { induction l as [|b l IHl]; simpl; [done|]. by rewrite writable_insert, IHl. }
  rewrite Heq in Hall |- *. split; [done|]. intros H. by rewrite Hall.
Qed.

Lemma lookup_overwrite m a xs b :
  overwrite m a xs !! b =
    if decide (a ≤ b < a + Z.of_nat (length xs)) then xs !! Z.to_nat (b - a) else m !! b.
Proof.
  revert m a. induction xs as [|x xs IH]; intros m a; simpl.
  { rewrite decide_False by lia. done. }
  rewrite IH. destruct (decide (b = a)) as [->|Hne].
  - rewrite decide_False, decide_True by lia. rewrite lookup_insert_eq.
    by rewrite Z.sub_diag.
  - rewrite lookup_insert_ne by done. case_decide; case_decide; try lia; [|done].
    replace (Z.to_nat (b - a)) with (S (Z.to_nat (b - (a + 1)))) by lia. done.
Qed.

Lemma read_range_mapM m a n : read_range m a n = mapM (λ b, m !! b) (seqZ a (Z.of_nat n)).
Proof.
  revert a. induction n as [|n IH]; intros a; [done|].
  rewrite read_range_S, seqZ_S_l, IH. simpl. by destruct (m !! a), (mapM _ _).
Qed.

Lemma length_read_range m a n xs : read_range m a n = Some xs → length xs = n.
Proof.
  revert a xs. induction n as [|n IH]; intros a xs; [by intros [= <-]|]. rewrite read_range_S.
  destruct (m !! a); [|done]. destruct (read_range m (a + 1) n) as [ys|] eqn:Hy; [|done].
  intros [= <-]. simpl. f_equal. by eapply IH.
Qed.

Lemma read_range_overwrite m a xs : read_range (overwrite m a xs) a (length xs) = Some xs.
Proof.
  revert m a. induction xs as [|x xs IH]; intros m a; [done|]. simpl length.
  rewrite read_range_S, lookup_overwrite. simpl overwrite. rewrite IH.
  rewrite decide_True by (simpl; lia). by rewrite Z.sub_diag.
Qed.

(** [copyin], completely: the bytes when the buffer is a user range that can be
    read, [EFAULT] otherwise; no memory changes. *)
Lemma copyin_correct s a len :
  0 ≤ a < 2 ^ 32 → 0 ≤ len < 2 ^ 32 → tm_badfaultfunc s = false →
  copyin a len s =
    Done (if decide (user_range a len)
          then match read_range (mem s) a (Z.to_nat len) with
               | Some xs => Ok xs
               | None => Err EFAULT
               end
          else Err EFAULT, s).
Proof.
  intros Ha Hl Hb. pose proof (copycheck_block a len Ha Hl) as Hc. unfold copyin.
  destruct (decide (user_range a len)) as [Hr|Hr].
  - rewrite Hc, Z.eqb_refl. simpl. unfold mbind, M_bind, set_badfault, modify.
    rewrite memcpy_in_protected by done. simpl.
    destruct (read_range _ _ _); unfold mret, M_ret; destruct s; simpl in *; congruence.
  - destruct (copycheck a len) as [n|e]; [|by rewrite Hc].
    by rewrite (proj2 (Z.eqb_neq _ _)).
Qed.

(** What holds after [copyout], on every path. *)
Definition copyout_post (s : machine) (src : list Z) (a : Z)
    (r : result unit) (s' : machine) : Prop :=
  tm_badfaultfunc s' = false ∧ readonly s' = readonly s ∧
  (∀ b, USERSPACETOP ≤ b → mem s' !! b = mem s !! b) ∧
  (∀ b, b < a ∨ a + Z.of_nat (length src) ≤ b → mem s' !! b = mem s !! b) ∧
  match r with
  | Ok _ => user_range a (Z.of_nat (length src)) ∧
            all_writable s a (length src) = true ∧ mem s' = overwrite (mem s) a src
  | Err e => e = EFAULT ∧
             ¬ (user_range a (Z.of_nat (length src)) ∧ all_writable s a (length src) = true)
  end.

Lemma copyout_correct s src a :
  0 ≤ a < 2 ^ 32 → Z.of_nat (length src) < 2 ^ 32 → tm_badfaultfunc s = false →
  wp (copyout src a) (copyout_post s src a) s.
Proof.
  intros Ha Hl Hb.
  pose proof (copycheck_block a (Z.of_nat (length src)) Ha ltac:(lia)) as Hc.
  unfold copyout. destruct (decide (user_range _ _)) as [Hr|Hr].
  - rewrite Hc, Z.eqb_refl. simpl. unfold set_badfault. wp_go.
    destruct (memcpy_out_protected src (mkMachine (mem s) (readonly s) true) a)
      as (k & Hk & Hrun & Hall); [done|].
    apply wp_done. eexists _, _. split; [exact Hrun|].
    assert (∀ b, b < a ∨ a + Z.of_nat (length src) ≤ b →
      overwrite (mem s) a (take k src) !! b = mem s !! b) as Hout.
    { intros b Hbb. rewrite lookup_overwrite, decide_False; [done|].
      rewrite length_take. lia. }
    change (all_writable (mkMachine _ _ _)) with (all_writable s) in Hall |- *.
    destruct (all_writable s a (length src)) eqn:Hw; wp_go;
      (split; [done|]); (split; [done|]); simpl; (split; [|split; [exact Hout|]]).
    1,3: intros b Hbb; apply Hout; destruct Hr; lia.
    + rewrite Hall, firstn_all by done. done.
    + split; [done|]. intros [_ H]. congruence.
  - assert (copyout_post s src a (Err EFAULT) s) as Hp.
    { split_and!; try done. tauto. }
    destruct (copycheck a _) as [n|e]; [|subst e; by wp_go].
    rewrite (proj2 (Z.eqb_neq _ _)) by done. by wp_go.
Qed.

(** The loop of [copystr] over user memory. *)
Definition string_scan (m : gmap Z Z) (n : nat) (a : Z) (r : option (list Z * bool)) : Prop :=
  match r with
  | Some (xs, true) =>
      (length xs ≤ n)%nat ∧ cstr xs ∧ read_range m a (length xs) = Some xs
  | Some (xs, false) =>
      length xs = n ∧ (0 ∉ xs) ∧ read_range m a (length xs) = Some xs
  | None => ∃ ys, (length ys < n)%nat ∧ (0 ∉ ys) ∧
      read_range m a (length ys) = Some ys ∧ m !! (a + Z.of_nat (length ys)) = None
  end.

Lemma copystr_loop_in s a n i :
  tm_badfaultfunc s = true →
  wp (copystr_loop n i (λ i, load (a + i)) (λ _ _, mret (Some tt)))
     (λ r s', s' = s ∧ string_scan (mem s) n (a + i) r) s.
Proof.
  intros Hb. revert i. induction n as [|n IH]; intros i; simpl.
  { wp_go. split; [done|]. split_and!; [done|apply not_elem_of_nil|done]. }
  wp_go. apply wp_done. eexists _, _. split; [by apply load_protected|].
  destruct (mem s !! (a + i)) as [x|] eqn:Hx.
  2: { wp_go. split; [done|]. exists []. simpl. rewrite Z.add_0_r.
       split_and!; [lia|apply not_elem_of_nil|done|done]. }
  wp_go. destruct (Z.eqb_spec x 0) as [->|Hne].
  - wp_go. split; [done|]. split_and!; [simpl; lia| |].
    + exists []. split; [done|apply not_elem_of_nil].
    + simpl. by rewrite read_range_S, Hx.
  - wp_go. eapply wp_mono; [|apply IH]. intros r s' [-> Hr]. wp_go. split; [done|].
    replace (a + (i + 1)) with (a + i + 1) in Hr by lia.
    destruct r as [[xs []]|]; simpl in *.
    + destruct Hr as (Hl & (ys & -> & Hys) & Hrd). split_and!; [lia| |].
      * exists (x :: ys). split; [done|]. set_solver.
      * by rewrite read_range_S, Hx, Hrd.
    + destruct Hr as (Hl & Hys & Hrd). split_and!; [lia|set_solver|].
      by rewrite read_range_S, Hx, Hrd.
    + destruct Hr as (ys & Hl & Hys & Hrd & Hno). exists (x :: ys).
      simpl length. split_and!; [lia|set_solver|by rewrite read_range_S, Hx, Hrd|].
      rewrite <- Hno. f_equal. lia.
Qed.

(** What [copyinstr] returns. *)
Definition copyinstr_post (m : gmap Z Z) (a len : Z) (r : result (list Z)) : Prop :=
  match r with
  | Ok xs => cstr xs ∧ Z.of_nat (length xs) ≤ len ∧
             user_range a (Z.of_nat (length xs)) ∧ read_range m a (length xs) = Some xs
  | Err e =>
      ∃ ys, (0 ∉ ys) ∧ read_range m a (length ys) = Some ys ∧
        (e = ENAMETOOLONG ∧ Z.of_nat (length ys) = len ∧ user_range a len ∨
         e = EFAULT ∧ Z.of_nat (length ys) < len ∧
           (USERSPACETOP ≤ a + Z.of_nat (length ys) ∨
            m !! (a + Z.of_nat (length ys)) = None))
  end.

Lemma copyinstr_correct s a len :
  0 ≤ a < 2 ^ 32 → 0 < len ≤ 2 ^ 31 → tm_badfaultfunc s = false →
  wp (copyinstr a len) (λ r s', s' = s ∧ copyinstr_post (mem s) a len r) s.
Proof.
  intros Ha Hl Hb. unfold copyinstr. rewrite copycheck_correct by done.
  case_decide as Hlt.
  2: { wp_go. split; [done|]. exists []. split_and!; [apply not_elem_of_nil|done|].
       right. simpl. split_and!; [done|lia|left; lia]. }
  unfold set_badfault, copystr. wp_go.
  eapply wp_mono; [|by apply copystr_loop_in].
  intros r s' [-> Hr]. wp_go.
  assert (mkMachine (mem s) (readonly s) false = s) as Hs by (destruct s; simpl in *; congruence).
  replace (Z.min len (Z.min len (USERSPACETOP - a)))
    with (Z.min len (USERSPACETOP - a)) in Hr by lia.
  rewrite Z.add_0_r in Hr. simpl in Hr.
  destruct r as [[xs []]|]; simpl in Hr.
  - destruct Hr as (Hn & Hc & Hrd). wp_go. split; [done|].
    assert (0 < length xs)%nat by (destruct Hc as (ys & -> & _); rewrite length_app; simpl; lia).
    split_and!; [done|lia| |done]. split; lia.
  - destruct Hr as (Hn & Hc & Hrd).
    destruct (Z.ltb_spec (Z.min len (USERSPACETOP - a)) len); wp_go; (split; [done|]);
      exists xs; (split; [done|]); (split; [done|]).
    + right. split_and!; [done|lia|left; lia].
    + left. split_and!; [done|lia|split; lia].
  - destruct Hr as (ys & Hn & Hc & Hrd & Hno). wp_go. split; [done|].
    exists ys. split_and!; [done..|]. right. split_and!; [done|lia|by right].
Qed.

(** The first byte of what is left of a kernel buffer. *)
Lemma drop_head (src : list Z) i x l :
  0 ≤ i → drop (Z.to_nat i) src = x :: l →
  znth src i = Some x ∧ drop (Z.to_nat (i + 1)) src = l.
Proof.
  intros Hi Hd. split.
  - rewrite znth_lookup by done. rewrite <- (Nat.add_0_r (Z.to_nat i)), <- lookup_drop.
    by rewrite Hd.
  - replace (Z.to_nat (i + 1)) with (Z.to_nat i + 1)%nat by lia.
    by rewrite <- drop_drop, Hd.
Qed.

Lemma all_writable_S s a n : all_writable s a (S n) = writable s a && all_writable s (a + 1) n.
Proof. unfold all_writable. by rewrite seqZ_S_l. Qed.

Lemma all_writable_insert s a x b n :
  writable s a = true →
  all_writable (with_mem s (<[a := x]> (mem s))) b n = all_writable s b n.
Proof.
  intros Hw. revert b. induction n as [|n IH]; intros b; [done|].
  by rewrite !all_writable_S, IH, writable_insert.
Qed.

(** Pushing out a string that ends within the length given. *)
Lemma copystr_loop_out n i src ys rest s a :
  tm_badfaultfunc s = true → 0 ≤ i → drop (Z.to_nat i) src = ys ++ 0 :: rest → 0 ∉ ys →
  (length ys < n)%nat →
  ∃ k, copystr_loop n i (λ i, x ← deref (znth src i); mret (Some x)) (λ i x, store (a + i) x) s =
    Done (if all_writable s (a + i) (S (length ys)) then Some (ys ++ [0], true) else None,
          with_mem s (overwrite (mem s) (a + i) (take k (ys ++ [0])))) ∧
    (all_writable s (a + i) (S (length ys)) = true → k = S (length ys)).
Proof.
  intros Hb Hi Hd Hno. revert i s n Hb Hi Hd.
  induction ys as [|y ys IH]; intros i s n Hb Hi Hd Hn; (destruct n as [|n]; [lia|]).
  all: destruct (drop_head _ _ _ _ Hi Hd) as [Hz Hd']; simpl length; rewrite all_writable_S.
  all: cbn [copystr_loop]; unfold mbind, M_bind; rewrite Hz; simpl.
  all: unfold mbind, M_bind; simpl; rewrite store_protected by done.
  all: destruct (writable s (a + i)) eqn:Hw; simpl;
    [|exists 0%nat; split; [by destruct s|done]].
  - exists 1%nat. by destruct s.
  - apply not_elem_of_cons in Hno as [Hy Hno].
    rewrite (proj2 (Z.eqb_neq y 0)) by done.
    destruct (IH Hno (i + 1) (with_mem s (<[a + i := y]> (mem s))) n Hb) as (k & Hrun & Hk);
      [lia|done|simpl in Hn; lia|].
    unfold mbind, M_bind in Hrun |- *. rewrite all_writable_insert in Hrun, Hk by done.
    replace (a + (i + 1)) with (a + i + 1) in Hrun, Hk by lia.
    exists (S k). rewrite Hrun. split; [|intros Hall; by rewrite Hk].
    by destruct (all_writable s (a + i + 1) (S (length ys))).
Qed.

Lemma copyoutstr_correct s src str rest a len :
  tm_badfaultfunc s = false → 0 ≤ a → user_range a len → src = str ++ rest → cstr str →
  Z.of_nat (length str) ≤ len →
  wp (copyoutstr src a len) (λ r s',
    if all_writable s a (length str)
    then r = Ok str ∧ s' = with_mem s (overwrite (mem s) a str)
    else r = Err EFAULT) s.
Proof.
  intros Hb Ha Hr -> (ys & -> & Hno) Hl. unfold copyoutstr.
  assert (copycheck a len = Ok len) as ->.
  { unfold user_range, USERSPACETOP in Hr. rewrite copycheck_correct by lia.
    unfold USERSPACETOP. rewrite decide_True by lia. f_equal. lia. }
  rewrite length_app in *. simpl length in *. rewrite Nat.add_1_r in *.
  unfold set_badfault, copystr. wp_go. rewrite Z.min_id.
  destruct (copystr_loop_out (Z.to_nat len) 0 ((ys ++ [0]) ++ rest) ys rest
    (mkMachine (mem s) (readonly s) true) a) as (k & Hrun & Hk); [done..| |done|lia|].
  { simpl. by rewrite <- app_assoc. }
  apply wp_done. eexists _, _. split; [exact Hrun|]. rewrite Z.add_0_r in *.
  change (all_writable (mkMachine _ _ _)) with (all_writable s) in Hk |- *.
  destruct (all_writable s a (S (length ys))); wp_go; [|done]. split; [done|].
  rewrite Hk by done. rewrite take_ge by (rewrite length_app; simpl; lia).
  destruct s; simpl in *; by subst.
Qed.


(** [copyout] never panics and never changes kernel memory or a byte
    outside the destination; it succeeds exactly when the destination is a
    non-empty range of writable bytes below [USERSPACETOP] and returns [EFAULT]
    otherwise, with the fault handler reset on every path; and after a success
    [copyin] of the same range returns the bytes that were copied out. *)
Theorem copyout_copyin s src a :
  0 ≤ a < 2 ^ 32 → Z.of_nat (length src) < 2 ^ 32 → tm_badfaultfunc s = false →
  ∃ r s', copyout src a s = Done (r, s') ∧ copyout_post s src a r s' ∧
    (r = Ok tt → copyin a (Z.of_nat (length src)) s' = Done (Ok src, s')).
Proof.
  intros Ha Hl Hb.
  destruct (proj1 (wp_done _ _ _) (copyout_correct s src a Ha Hl Hb)) as (r & s' & Hrun & Hp).
  exists r, s'. split_and!; [done..|]. intros ->.
  destruct Hp as (Hb' & _ & _ & _ & Hr & _ & Hm).
  rewrite copyin_correct by (done || lia). rewrite decide_True by done.
  by rewrite Nat2Z.id, Hm, read_range_overwrite.
Qed.

(** User bytes 4096-4099, with 4099 read-only, and one kernel byte. *)
Definition sample : machine :=
  mkMachine {[ 4096 := 104; 4097 := 105; 4098 := 0; 4099 := 7; 2147483648 := 1 ]}
    {[ 4099 ]} false.

Lemma copyout_copyin_witness :
  (∃ r s', copyout [1; 2; 3] 4096 sample = Done (r, s') ∧
    copyout_post sample [1; 2; 3] 4096 r s' ∧
    (r = Ok tt → copyin 4096 3 s' = Done (Ok [1; 2; 3], s'))) ∧
  fst <$> (match copyout [1; 2; 3] 4096 sample with Done x => Some x | Panic => None end)
    = Some (Ok tt).
Proof.
  split; [|reflexivity].
  apply (copyout_copyin sample [1; 2; 3] 4096); [lia|simpl; lia|reflexivity].
Defined.

(** [copyinstr] never panics and changes nothing.  It returns a string
    exactly as it stands in user memory, up to and including its first null
    byte, when that byte comes within the given length and below
    [USERSPACETOP]; [ENAMETOOLONG] when the first [len] bytes are user bytes
    without a null byte; and [EFAULT] when an unmapped byte or the end of user
    space comes first. *)
Theorem copyinstr_spec s a len :
  0 ≤ a < 2 ^ 32 → 0 < len ≤ 2 ^ 31 → tm_badfaultfunc s = false →
  ∃ r, copyinstr a len s = Done (r, s) ∧ copyinstr_post (mem s) a len r.
Proof.
  intros Ha Hl Hb.
  destruct (proj1 (wp_done _ _ _) (copyinstr_correct s a len Ha Hl Hb))
    as (r & s' & Hrun & -> & Hp). eauto.
Qed.

Lemma copyinstr_spec_witness :
  (∃ r, copyinstr 4096 1024 sample = Done (r, sample) ∧
        copyinstr_post (mem sample) 4096 1024 r) ∧
  copyinstr 4096 1024 sample = Done (Ok [104; 105; 0], sample) ∧
  copyinstr 4096 2 sample = Done (Err ENAMETOOLONG, sample) ∧
  copyinstr 4099 1024 sample = Done (Err EFAULT, sample).
Proof.
  split; [|split_and!; vm_compute; reflexivity].
  apply (copyinstr_spec sample 4096 1024); [lia|lia|reflexivity].
Defined.

End CopyInOut.
