(* ===== verification/Uio.v ===== *)
(** * Data transfer descriptors (kern/lib/uio.c)

    A [uio] names a list of memory blocks and a position in a file.  The kernel
    buffer given to [uiomove] is passed as its contents and returned with the
    contents it has afterwards. *)

From Stdlib Require Import ZArith Lia.
From stdpp Require Import base numbers list gmap.
From S2P Require Import Prelude CopyInOut.

Module Uio.
Import CopyInOut.

Inductive uio_rw := UIO_READ | UIO_WRITE.
Inductive uio_seg := UIO_USERISPACE | UIO_USERSPACE | UIO_SYSSPACE.

Record iovec := mkIovec { iov_base : Z; iov_len : Z }.

(** [uio_iov] and [uio_iovcnt] together are the list of the blocks left. *)
Record uio := mkUio {
  uio_iov : list iovec;
  uio_offset : Z;
  uio_resid : Z;
  uio_segflg : uio_seg;
  uio_rwflg : uio_rw;
  uio_space : option positive;
}.

Definition is_sysspace (u : uio) : bool :=
  match uio_segflg u with UIO_SYSSPACE => true | _ => false end.

(** [memmove] within the kernel: a fault is fatal. *)
Definition kread (a : Z) (n : nat) : M machine (list Z) :=
  r ← memcpy_in n a; deref r.
Definition kwrite (xs : list Z) (a : Z) : M machine unit :=
  r ← memcpy_out xs a; deref r.

(** The transfer of one block: [buf] is what [ptr] points to, and the transfer
    moves its first [size] bytes.  Returns the error code, and the new contents
    of the buffer. *)
Definition move_block (u : uio) (base size : Z) (buf : list Z) : M machine (Z * list Z) :=
  let n := Z.to_nat size in
  match uio_segflg u, uio_rwflg u with
  | UIO_SYSSPACE, UIO_READ => kwrite (take n buf) base ;; mret (0, buf)
  | UIO_SYSSPACE, UIO_WRITE => xs ← kread base n; mret (0, xs ++ drop n buf)
  | _, UIO_READ =>
      r ← copyout (take n buf) base;
      mret (match r with Ok _ => (0, buf) | Err e => (e, buf) end)
  | _, UIO_WRITE =>
      r ← copyin base size;
      mret (match r with Ok xs => (0, xs ++ drop n buf) | Err e => (e, buf) end)
  end.

(** The loop of [uiomove].  [done] is the part of the buffer behind [ptr], and
    [n] the bytes left to move. *)
Fixpoint uiomove_loop (fuel : nat) (done buf : list Z) (n : Z) (u : uio)
  : M machine (Z * list Z * uio) :=
  match fuel with
  | O => panic
  | S fuel' =>
      if (n >? 0) && (uio_resid u >? 0) then
        match uio_iov u with
        | [] => panic
        | iov :: iovs =>
            let size := if iov_len iov >? n then n else iov_len iov in
            if size =? 0 then
              let u' := mkUio iovs (uio_offset u) (uio_resid u) (uio_segflg u)
                          (uio_rwflg u) (uio_space u) in
              match iovs with
              | [] => panic
              | _ => uiomove_loop fuel' done buf n u'
              end
            else
              '(res, buf') ← move_block u (iov_base iov) size buf;
              if negb (res =? 0) then mret (res, done ++ buf', u) else
              let iov' := mkIovec (iov_base iov + size) (iov_len iov - size) in
              let u' := mkUio (iov' :: iovs) (uio_offset u + size)
                          ((uio_resid u - size) mod 2 ^ 32) (uio_segflg u)
                          (uio_rwflg u) (uio_space u) in
              uiomove_loop fuel' (done ++ take (Z.to_nat size) buf')
                (drop (Z.to_nat size) buf') (n - size) u'
        end
      else mret (0, done ++ buf, u)
  end.

(** [as_] is the current address space, [proc_getas()]. *)
Definition uiomove (as_ : option positive) (buf : list Z) (n : Z) (u : uio)
  : M machine (Z * list Z * uio) :=
  (if is_sysspace u then KASSERT (bool_decide (uio_space u = None))
   else KASSERT (bool_decide (uio_space u = as_))) ;;
  uiomove_loop (S (Z.to_nat n + length (uio_iov u))) [] buf n u.

(** The loop of [uiomovezeros]. *)
Fixpoint zeros_loop (fuel : nat) (as_ : option positive) (n : Z) (u : uio)
  : M machine (Z * uio) :=
  match fuel with
  | O => panic
  | S fuel' =>
      if n >? 0 then
        let amt := if 16 >? n then n else 16 in
        '(res, _, u') ← uiomove as_ (replicate 16 0) amt u;
        if negb (res =? 0) then mret (res, u')
        else zeros_loop fuel' as_ (n - amt) u'
      else mret (0, u)
  end.

Definition uiomovezeros (as_ : option positive) (n : Z) (u : uio) : M machine (Z * uio) :=
  KASSERT (match uio_rwflg u with UIO_READ => true | UIO_WRITE => false end) ;;
  zeros_loop (S (Z.to_nat n)) as_ n u.

Definition uio_kinit (kbuf len pos : Z) (rw : uio_rw) : uio :=
  mkUio [mkIovec kbuf len] pos len UIO_SYSSPACE rw None.

Definition uio_uinit (as_ : option positive) (buf len offset : Z) (rw : uio_rw) : uio :=
  mkUio [mkIovec buf len] offset len UIO_USERSPACE rw as_.

(** ** What [uiomove] promises *)

(** The addresses a [uio] has left, in order. *)
Definition addrs (iovs : list iovec) : list Z :=
  iovs ≫= λ v, seqZ (iov_base v) (iov_len v).

(** The set-up uio.h asks for: the blocks have room for [uio_resid] bytes. *)
Record uio_ok (as_ : option positive) (u : uio) : Prop := {
  ok_resid : 0 ≤ uio_resid u ≤ Z.of_nat (length (addrs (uio_iov u)));
  ok_len : Forall (λ v, 0 ≤ iov_len v ∧ 0 ≤ iov_base v ∧ iov_base v + iov_len v < 2 ^ 32)
             (uio_iov u);
  ok_small : uio_resid u < 2 ^ 32;
  ok_space : uio_space u = if is_sysspace u then None else as_;
}.

(** A transfer of [n] bytes ends with the residue, or with the blocks. *)
Definition fits (n : Z) (u : uio) : Prop :=
  n ≤ uio_resid u ∨ uio_resid u = Z.of_nat (length (addrs (uio_iov u))).

(** Memory with the bytes [xs] stored at the addresses [l]. *)
Fixpoint scatter (m : gmap Z Z) (l xs : list Z) : gmap Z Z :=
  match l, xs with
  | a :: l', x :: xs' => scatter (<[a := x]> m) l' xs'
  | _, _ => m
  end.

Definition gather (m : gmap Z Z) (l : list Z) : option (list Z) := mapM (λ a, m !! a) l.

(** Kernel blocks are memory the kernel may touch. *)
Definition accessible (s : machine) (u : uio) (l : list Z) : Prop :=
  is_sysspace u = true →
  match uio_rwflg u with
  | UIO_READ => Forall (λ a, writable s a = true) l
  | UIO_WRITE => Forall (λ a, is_Some (mem s !! a)) l
  end.

(** After moving [k] bytes of [buf] through [u], with result [res]: the memory
    or the buffer has the bytes, and the cursor has moved by [k]. *)
Definition moved (u : uio) (s : machine) (buf : list Z) (k : nat)
    (res : Z) (buf' : list Z) (s' : machine) : Prop :=
  tm_badfaultfunc s' = false ∧ readonly s' = readonly s ∧
  (∀ a, a ∉ addrs (uio_iov u) → mem s' !! a = mem s !! a) ∧
  match uio_rwflg u with
  | UIO_READ => buf' = buf ∧
      (res = 0 → mem s' = scatter (mem s) (take k (addrs (uio_iov u))) buf)
  | UIO_WRITE => s' = s ∧ ∃ xs,
      gather (mem s) (take k (addrs (uio_iov u))) = Some xs ∧ buf' = xs ++ drop k buf
  end.

Definition advanced (as_ : option positive) (u : uio) (k : nat) (u' : uio) : Prop :=
  uio_ok as_ u' ∧ addrs (uio_iov u') = drop k (addrs (uio_iov u)) ∧
  uio_resid u' = uio_resid u - Z.of_nat k ∧ uio_offset u' = uio_offset u + Z.of_nat k ∧
  uio_segflg u' = uio_segflg u ∧ uio_rwflg u' = uio_rwflg u.

Definition uiomove_post (as_ : option positive) (u : uio) (s : machine)
    (buf : list Z) (n : Z) (r : Z * list Z * uio) (s' : machine) : Prop :=
  let '(res, buf', u') := r in
  ∃ k : nat, Z.of_nat k ≤ Z.min n (uio_resid u) ∧
    (res = 0 ∧ Z.of_nat k = Z.min n (uio_resid u) ∨ res = EFAULT ∧ is_sysspace u = false) ∧
    moved u s buf k res buf' s' ∧ advanced as_ u k u'.

(** *** Lists of addresses *)

Lemma scatter_app m l1 l2 xs1 xs2 :
  length l1 = length xs1 →
  scatter m (l1 ++ l2) (xs1 ++ xs2) = scatter (scatter m l1 xs1) l2 xs2.
Proof.
  revert m xs1. induction l1 as [|a l1 IH]; intros m [|x xs1] Hl; try done.
  apply IH. by injection Hl.
Qed.

Lemma scatter_is_Some m l xs a : is_Some (m !! a) → is_Some (scatter m l xs !! a).
Proof.
  revert m xs. induction l as [|b l IH]; intros m [|x xs] Hm; try done. simpl. apply IH.
  destruct (decide (a = b)) as [->|]; [rewrite lookup_insert_eq; by eexists|by rewrite lookup_insert_ne].
Qed.

Lemma scatter_take m l xs k : scatter m (take k l) (take k xs) = scatter m (take k l) xs.
Proof.
  revert m l xs. induction k as [|k IH]; intros m [|a l] [|x xs]; simpl; auto.
Qed.

Lemma scatter_ne m l xs a : a ∉ l → scatter m l xs !! a = m !! a.
Proof.
  revert m xs. induction l as [|b l IH]; intros m [|x xs] Ha; simpl; try done.
  rewrite IH by set_solver. apply lookup_insert_ne. set_solver.
Qed.

Lemma overwrite_scatter m a xs :
  overwrite m a xs = scatter m (seqZ a (Z.of_nat (length xs))) xs.
Proof.
  revert m a. induction xs as [|x xs IH]; intros m a; [done|].
  simpl length. rewrite seqZ_S_l. simpl. apply IH.
Qed.

Lemma gather_app m l1 l2 xs1 xs2 :
  gather m l1 = Some xs1 → gather m l2 = Some xs2 → gather m (l1 ++ l2) = Some (xs1 ++ xs2).
Proof.
  unfold gather. rewrite !mapM_Some. apply Forall2_app.
Qed.

Lemma addrs_cons v iovs :
  addrs (v :: iovs) = seqZ (iov_base v) (iov_len v) ++ addrs iovs.
Proof. done. Qed.

(** Moving the base of a block forward drops addresses. *)
Lemma seqZ_advance b len size :
  0 ≤ size ≤ len → seqZ (b + size) (len - size) = drop (Z.to_nat size) (seqZ b len).
Proof.
  intros Hs. replace len with (size + (len - size)) at 2 by lia.
  rewrite seqZ_app by lia. by rewrite drop_app_length' by (rewrite length_seqZ; lia).
Qed.

Lemma addrs_advance v iovs size :
  0 ≤ size ≤ iov_len v →
  addrs (mkIovec (iov_base v + size) (iov_len v - size) :: iovs)
  = drop (Z.to_nat size) (addrs (v :: iovs)).
Proof.
  intros Hs. rewrite !addrs_cons. simpl. rewrite seqZ_advance by done.
  rewrite drop_app_le; [done|]. rewrite length_seqZ. lia.
Qed.

(** *** Kernel accesses *)

Lemma kread_mapped s a n :
  Forall (λ b, is_Some (mem s !! b)) (seqZ a (Z.of_nat n)) →
  ∃ xs, kread a n s = Done (xs, s) ∧ read_range (mem s) a n = Some xs.
Proof.
  intros Hall.
  assert (∃ xs, memcpy_in n a s = Done (Some xs, s) ∧ read_range (mem s) a n = Some xs)
    as (xs & Hrun & Hrd).
  { revert a Hall. induction n as [|n IH]; intros a Hall; [by exists []|].
    rewrite seqZ_S_l in Hall. apply Forall_cons in Hall as [[x Hx] Hall].
    destruct (IH _ Hall) as (xs & Hrun & Hrd). exists (x :: xs).
    rewrite read_range_S, Hx, Hrd. split; [|done]. simpl.
    unfold load, mbind, M_bind, gets. rewrite Hx. simpl. by rewrite Hrun. }
  exists xs. split; [|done]. unfold kread, mbind, M_bind. by rewrite Hrun.
Qed.

Lemma kwrite_mapped s xs a :
  Forall (λ b, writable s b = true) (seqZ a (Z.of_nat (length xs))) →
  kwrite xs a s = Done (tt, with_mem s (overwrite (mem s) a xs)).
Proof.
  intros Hall.
  assert (memcpy_out xs a s = Done (Some tt, with_mem s (overwrite (mem s) a xs))) as Hrun.
  { revert s a Hall. induction xs as [|x xs IH]; intros s a Hall; [by destruct s|].
    simpl length in Hall. rewrite seqZ_S_l in Hall. apply Forall_cons in Hall as [Hw Hall].
    simpl. unfold store, mbind, M_bind, gets, modify. rewrite Hw. simpl.
    specialize (IH (with_mem s (<[a := x]> (mem s))) (a + 1)). unfold with_mem in IH.
    simpl in IH. rewrite IH; [done|]. eapply Forall_impl; [exact Hall|].
    intros b Hb. simpl. pose proof (writable_insert s a x b Hw) as Hi. unfold with_mem in Hi.
    by rewrite Hi. }
  unfold kwrite, mbind, M_bind. by rewrite Hrun.
Qed.

(** Storing to mapped bytes does not change what is accessible. *)
Lemma scatter_writable s l xs a :
  Forall (λ b, writable s b = true) l →
  writable (with_mem s (scatter (mem s) l xs)) a = writable s a.
Proof.
  revert s xs. induction l as [|b l IH]; intros s [|x xs] Hall; try done.
  apply Forall_cons in Hall as [Hb Hall]. simpl.
  pose proof (writable_insert s b x a Hb) as Ha.
  rewrite <- Ha. rewrite <- (IH (with_mem s (<[b := x]> (mem s))) xs); [done|].
  eapply Forall_impl; [exact Hall|]. intros c Hc. simpl.
  by rewrite writable_insert.
Qed.

(** *** One block *)

Definition block_post (u : uio) (s : machine) (base size : Z) (buf : list Z)
    (r : Z * list Z) (s' : machine) : Prop :=
  let '(res, buf') := r in
  (res = 0 ∨ res = EFAULT ∧ is_sysspace u = false) ∧
  tm_badfaultfunc s' = false ∧ readonly s' = readonly s ∧
  (∀ a, a ∉ seqZ base size → mem s' !! a = mem s !! a) ∧
  match uio_rwflg u with
  | UIO_READ => buf' = buf ∧ (res = 0 → mem s' = scatter (mem s) (seqZ base size) buf)
  | UIO_WRITE => s' = s ∧
      if decide (res = 0) then ∃ xs, read_range (mem s) base (Z.to_nat size) = Some xs ∧
                                     buf' = xs ++ drop (Z.to_nat size) buf
      else buf' = buf
  end.

Lemma scatter_prefix m a size buf :
  0 ≤ size ≤ Z.of_nat (length buf) →
  overwrite m a (take (Z.to_nat size) buf) = scatter m (seqZ a size) buf.
Proof.
  intros Hs. rewrite overwrite_scatter, length_take, Nat.min_l, Z2Nat.id by lia.
  pose proof (scatter_take m (seqZ a size) buf (Z.to_nat size)) as Ht.
  rewrite take_ge in Ht by (rewrite length_seqZ; lia). done.
Qed.

Lemma move_block_correct u s base size buf :
  tm_badfaultfunc s = false →
  0 < size ≤ Z.of_nat (length buf) → 0 ≤ base → base + size < 2 ^ 32 →
  accessible s u (seqZ base size) →
  wp (move_block u base size buf) (block_post u s base size buf) s.
Proof.
  intros Hb Hs Hb0 Hb1 Hacc. unfold move_block, block_post.
  assert (Z.of_nat (length (take (Z.to_nat size) buf)) = size) as Hlen.
  { rewrite length_take. lia. }
  unfold is_sysspace. unfold accessible, is_sysspace in Hacc.
  destruct (uio_segflg u), (uio_rwflg u) eqn:Hrw.
  1,3: wp_go; eapply wp_mono; [|apply (copyout_correct s _ base); [lia|lia|done]];
    intros r s' (Hb' & Hro & _ & Hout & Hr); rewrite Hlen in Hout; wp_go;
    assert (∀ a, a ∉ seqZ base size → mem s' !! a = mem s !! a) as Hsame
      by (intros a Ha; apply Hout; rewrite elem_of_seqZ in Ha; lia);
    destruct r as [[]|e]; simpl in *;
    [ destruct Hr as (_ & _ & Hm); split_and!; auto; intros _;
      by rewrite Hm, scatter_prefix by lia
    | destruct Hr as [-> _]; split_and!; auto; intros [=] ].
  1,2: wp_go; apply wp_done; eexists _, _;
    (split; [apply copyin_correct; [lia|lia|done]|]); wp_go;
    destruct (decide (user_range base size)); [destruct (read_range _ _ _) eqn:Hrd|];
    simpl; split_and!; eauto.
  - wp_go. apply wp_done. eexists _, _. split; [apply kwrite_mapped|].
    { rewrite Hlen. by apply Hacc. }
    wp_go. rewrite scatter_prefix by lia. split_and!; auto.
    intros a Ha. simpl. by apply scatter_ne.
  - wp_go. destruct (kread_mapped s base (Z.to_nat size)) as (xs & Hrun & Hrd).
    { rewrite Z2Nat.id by lia. by apply Hacc. }
    apply wp_done. eexists _, _. split; [exact Hrun|]. wp_go.
    split_and!; auto. simpl. by exists xs.
Qed.

(** *** The loop *)

(** The cursor after moving [size] bytes through the first block. *)
Definition advance (u : uio) (v : iovec) (iovs : list iovec) (size : Z) : uio :=
  mkUio (mkIovec (iov_base v + size) (iov_len v - size) :: iovs) (uio_offset u + size)
    ((uio_resid u - size) mod 2 ^ 32) (uio_segflg u) (uio_rwflg u) (uio_space u).

Section first_block.
Context (as_ : option positive) (u : uio) (v : iovec) (iovs : list iovec) (size : Z).
Hypothesis Hok : uio_ok as_ u.
Hypothesis Hiov : uio_iov u = v :: iovs.
Hypothesis Hsize : 0 ≤ size ≤ iov_len v.
Hypothesis first_size : size ≤ uio_resid u.

Lemma first_take : take (Z.to_nat size) (addrs (uio_iov u)) = seqZ (iov_base v) size.
Proof.
rewrite Hiov, addrs_cons. replace (iov_len v) with (size + (iov_len v - size)) by lia.
rewrite seqZ_app, <- app_assoc by lia. apply take_app_length'. rewrite length_seqZ. lia.
Qed.

Lemma first_resid : uio_resid (advance u v iovs size) = uio_resid u - size.
Proof.
simpl. pose proof first_size. pose proof (ok_small _ _ Hok). apply Z.mod_small. lia.
Qed.

Lemma first_addrs :
addrs (uio_iov (advance u v iovs size)) = drop (Z.to_nat size) (addrs (uio_iov u)).
Proof. unfold advance. rewrite Hiov. by apply addrs_advance. Qed.

Lemma first_ok : uio_ok as_ (advance u v iovs size).
Proof.
pose proof first_size. pose proof (ok_small _ _ Hok).
constructor.
- rewrite first_resid, first_addrs, length_drop. pose proof (ok_resid _ _ Hok). lia.
- pose proof (ok_len _ _ Hok) as Hf. rewrite Hiov in Hf.
  apply Forall_cons in Hf as [? Hf]. simpl. apply Forall_cons. split; [simpl; lia|done].
- rewrite first_resid. lia.
- exact (ok_space _ _ Hok).
Qed.

Lemma compose_post s s1 s2 buf buf1 n res buf2 u2 :
size ≤ Z.of_nat (length buf) → size ≤ n →
block_post u s (iov_base v) size buf (0, buf1) s1 →
uiomove_post as_ (advance u v iovs size) s1 (drop (Z.to_nat size) buf1) (n - size)
  (res, buf2, u2) s2 →
uiomove_post as_ u s buf n (res, take (Z.to_nat size) buf1 ++ buf2, u2) s2.
Proof.
intros Hbuf Hn (_ & Hb1 & Hro1 & Hout1 & H1) (k & Hk & Hres & Hmv & Hadv).
destruct Hmv as (Hb2 & Hro2 & Hout2 & H2), Hadv as (Hok2 & Ha2 & Hr2 & Ho2 & Hs2 & Hw2).
pose proof first_size. rewrite first_resid in Hk, Hres, Hr2. rewrite first_addrs in *.
assert (∀ a, a ∉ addrs (uio_iov u) → mem s2 !! a = mem s !! a) as Hout.
{ intros a Ha. rewrite Hout2, Hout1; [done|..].
  - rewrite <- first_take. intros Hin. by apply Ha, (subseteq_take (Z.to_nat size)).
  - intros Hin. by apply Ha, (subseteq_drop (Z.to_nat size)). }
assert (take (Z.to_nat size + k) (addrs (uio_iov u)) =
  seqZ (iov_base v) size ++ take k (drop (Z.to_nat size) (addrs (uio_iov u)))) as Htk.
{ by rewrite <- first_take, take_take_drop. }
exists (Z.to_nat size + k)%nat. split; [lia|]. split; [|split].
- destruct Hres as [[-> ?]|[-> ?]]; [left; split; [done|lia]|by right].
- split_and!; [done|congruence|done|]. simpl in H2. rewrite Htk.
  destruct (uio_rwflg u).
  + destruct H1 as [-> H1], H2 as [-> H2]. split; [apply take_drop|].
    intros Hz. rewrite (H2 Hz), (H1 eq_refl).
    rewrite <- (take_drop (Z.to_nat size) buf) at 3.
    rewrite scatter_app by (rewrite length_seqZ, length_take; lia).
    by rewrite <- first_take, scatter_take.
  + rewrite decide_True in H1 by done.
    destruct H1 as [-> (xs & Hx & ->)], H2 as [-> (ys & Hy & ->)].
    pose proof (length_read_range _ _ _ _ Hx) as Hlx.
    rewrite drop_app_length' by done. rewrite take_app_length' by done.
    split; [done|]. exists (xs ++ ys). split.
    * apply gather_app; [|done]. rewrite read_range_mapM in Hx. by rewrite Z2Nat.id in Hx by lia.
    * by rewrite drop_drop, <- app_assoc.
- split_and!; try done; simpl in *; [|lia..].
  by rewrite Ha2, drop_drop.
Qed.

Lemma accessible_first s :
accessible s u (addrs (uio_iov u)) → accessible s u (seqZ (iov_base v) size).
Proof.
intros Hacc Hk. specialize (Hacc Hk). rewrite <- first_take.
destruct (uio_rwflg u); by apply Forall_take.
Qed.

Lemma accessible_next s s1 buf buf1 :
accessible s u (addrs (uio_iov u)) →
block_post u s (iov_base v) size buf (0, buf1) s1 →
accessible s1 (advance u v iovs size) (addrs (uio_iov (advance u v iovs size))).
Proof.
intros Hacc (_ & _ & Hro & _ & Hrw) Hk. specialize (Hacc Hk) as Hall.
pose proof (accessible_first s Hacc Hk) as Hfirst. rewrite first_addrs.
change (uio_rwflg (advance _ _ _ _)) with (uio_rwflg u). destruct (uio_rwflg u).
- destruct Hrw as [_ Hm]. specialize (Hm eq_refl).
  apply Forall_drop. eapply Forall_impl; [exact Hall|]. intros a Ha. simpl in Ha.
  unfold writable. rewrite Hm, Hro.
  pose proof (scatter_writable s (seqZ (iov_base v) size) buf a Hfirst) as Hw.
  unfold writable in Hw at 1. simpl in Hw. by rewrite Hw.
- destruct Hrw as [-> _]. by apply Forall_drop.
Qed.

(** A fault in the first block moves nothing. *)
Lemma fault_post s s1 buf n res buf1 :
0 ≤ n → res ≠ 0 →
block_post u s (iov_base v) size buf (res, buf1) s1 →
uiomove_post as_ u s buf n (res, buf1, u) s1.
Proof.
intros Hn Hne ([|[-> Hseg]] & Hb' & Hro & Hout & Hrw); [done|].
pose proof first_size. exists 0%nat. split; [lia|]. split; [by right|].
split; [|split_and!; try done; lia]. split_and!; try done.
- intros a Ha. apply Hout. rewrite <- first_take.
  intros Hin. by apply Ha, (subseteq_take (Z.to_nat size)).
- destruct (uio_rwflg u).
  + destruct Hrw as [-> _]. done.
  + destruct Hrw as [-> Hrw]. rewrite decide_False in Hrw by done. subst.
    split; [done|]. by exists [].
Qed.
End first_block.

(** Skipping an empty block changes nothing that matters. *)
Definition skip_block (u : uio) (iovs : list iovec) : uio :=
  mkUio iovs (uio_offset u) (uio_resid u) (uio_segflg u) (uio_rwflg u) (uio_space u).

Lemma skip_post as_ u v iovs s buf n r s' :
  uio_iov u = v :: iovs → iov_len v = 0 →
  uiomove_post as_ (skip_block u iovs) s buf n r s' → uiomove_post as_ u s buf n r s'.
Proof.
  intros Hiov Hl. destruct r as [[res buf'] u']. unfold uiomove_post, moved, advanced.
  rewrite Hiov, addrs_cons, Hl. done.
Qed.

Lemma skip_ok as_ u v iovs :
  uio_iov u = v :: iovs → iov_len v = 0 → uio_ok as_ u → uio_ok as_ (skip_block u iovs).
Proof.
  intros Hiov Hl [Hr Hf Hs Hsp]. rewrite Hiov, addrs_cons, Hl in Hr. rewrite Hiov in Hf.
  apply Forall_cons in Hf as [_ Hf]. by constructor.
Qed.

(** Nothing left to do. *)
Lemma finished_post as_ u s buf n :
  uio_ok as_ u → tm_badfaultfunc s = false → 0 ≤ n → n ≤ 0 ∨ uio_resid u ≤ 0 →
  uiomove_post as_ u s buf n (0, buf, u) s.
Proof.
  intros Hok Hb Hn Hz. pose proof (ok_resid _ _ Hok). exists 0%nat. split; [lia|].
  split; [left; split; [done|lia]|]. split.
  - split_and!; try done. destruct (uio_rwflg u); [done|]. split; [done|]. by exists [].
  - split_and!; try done; lia.
Qed.

Lemma uiomove_loop_correct as_ fuel done buf n u s :
  uio_ok as_ u → tm_badfaultfunc s = false →
  0 ≤ n ≤ Z.of_nat (length buf) → fits n u → accessible s u (addrs (uio_iov u)) →
  (Z.to_nat n + length (uio_iov u) < fuel)%nat →
  wp (uiomove_loop fuel done buf n u) (λ r s', let '(res, b, u') := r in
    ∃ buf', b = done ++ buf' ∧ uiomove_post as_ u s buf n (res, buf', u') s') s.
Proof.
  revert done buf n u s. induction fuel as [|fuel IH]; intros done buf n u s Hok Hb Hn Hfit Hacc Hf;
    [lia|]. simpl.
  pose proof (ok_resid _ _ Hok) as Hres.
  destruct (Z.gtb_spec n 0) as [Hn0|Hn0]; simpl;
    [destruct (Z.gtb_spec (uio_resid u) 0) as [Hr0|Hr0]|].
  2,3: wp_go; exists buf; (split; [reflexivity|]); apply finished_post; auto; lia.
  destruct (uio_iov u) as [|v iovs] eqn:Hiov; [simpl in Hres; lia|].
  pose proof (ok_len _ _ Hok) as Hfa. rewrite Hiov in Hfa.
  apply Forall_cons in Hfa as [(Hl0 & Hb0 & Hb1) _].
  replace (if iov_len v >? n then n else iov_len v) with (Z.min n (iov_len v))
    by (destruct (Z.gtb_spec (iov_len v) n); lia).
  destruct (Z.eqb_spec (Z.min n (iov_len v)) 0) as [Hz|Hz].
  - assert (iov_len v = 0) as Hl by lia.
    rewrite addrs_cons, Hl in Hres, Hacc. simpl in Hres, Hacc.
    destruct iovs as [|v' iovs]; [simpl in Hres; lia|].
    change (mkUio _ _ _ _ _ _) with (skip_block u (v' :: iovs)).
    eapply wp_mono; [|apply IH; [by eapply skip_ok|done|done| |done|simpl in *; lia]].
    2: { unfold fits in *. rewrite Hiov, addrs_cons, Hl in Hfit. exact Hfit. }
    intros [[res b] u''] s' (buf' & -> & Hpost). exists buf'. split; [done|].
    exact (skip_post as_ u v _ s buf n (res, buf', u'') s' Hiov Hl Hpost).
  - set (size := Z.min n (iov_len v)) in *.
    assert (0 ≤ size ≤ iov_len v) as Hsz by lia. rewrite <- Hiov in Hacc.
    assert (Z.of_nat (length (addrs (uio_iov u))) = iov_len v + Z.of_nat (length (addrs iovs))) as Htot
      by (rewrite Hiov, addrs_cons, length_app, length_seqZ; lia).
    assert (size ≤ uio_resid u) as Hsr by (destruct Hfit; lia).
    wp_go. eapply wp_mono; [|apply move_block_correct; [done|lia|lia|lia|]].
    2: by eapply accessible_first.
    intros [res buf1] s1 Hblk. destruct (Z.eqb_spec res 0) as [->|Hne]; simpl.
    2: { wp_go. exists buf1. split; [done|]. apply (fault_post as_ u v iovs size Hok Hiov Hsz Hsr s); auto; lia. }
    change (mkUio _ _ _ _ _ _) with (advance u v iovs size).
    eapply wp_mono; [|apply IH].
    + intros [[res b] u''] s2 (buf2 & -> & Hpost). eexists. split; [by rewrite <- app_assoc|].
      apply (compose_post as_ u v iovs size Hok Hiov Hsz Hsr s s1 s2 buf buf1);
        [lia|lia|exact Hblk|exact Hpost].
    + by eapply first_ok.
    + apply Hblk.
    + split; [lia|]. rewrite length_drop.
      destruct Hblk as (_ & _ & _ & _ & Hrw). destruct (uio_rwflg u).
      * destruct Hrw as [-> _]. lia.
      * destruct Hrw as [_ Hrw]. rewrite decide_True in Hrw by done.
        destruct Hrw as (xs & Hx%length_read_range & ->). rewrite length_app, length_drop. lia.
    + unfold fits. rewrite (first_resid as_), (first_addrs u v iovs size), length_drop by done.
      destruct Hfit; [left|right]; lia.
    + by eapply accessible_next.
    + simpl in *. lia.
Qed.

(** The whole of [uiomove]. *)
Lemma uiomove_correct as_ u buf n s :
  uio_ok as_ u → tm_badfaultfunc s = false →
  0 ≤ n ≤ Z.of_nat (length buf) → fits n u → accessible s u (addrs (uio_iov u)) →
  wp (uiomove as_ buf n u) (uiomove_post as_ u s buf n) s.
Proof.
  intros Hok Hb Hn Hfit Hacc. unfold uiomove. apply wp_bind.
  assert (∀ Q : unit → machine → Prop, Q tt s →
    wp (if is_sysspace u then KASSERT (bool_decide (uio_space u = None))
        else KASSERT (bool_decide (uio_space u = as_))) Q s) as Hassert.
  { intros Q HQ. pose proof (ok_space _ _ Hok) as Hsp.
    destruct (is_sysspace u); rewrite Hsp, bool_decide_true; done. }
  apply Hassert. eapply wp_mono; [|eapply uiomove_loop_correct; eauto; lia].
  intros [[res b] u'] s' (buf' & -> & Hpost). exact Hpost.
Qed.

(** ** Transfers in sequence

    [transfer u m xs u' m']: the bytes [xs] have gone through [u], from the memory of
    [m] when writing and into that of [m'] when reading, and [u'] is what is left.
    [stopped]: a fault has ended a transfer of at most [n] bytes somewhere. *)

Definition transfer (as_ : option positive) (u : uio) (m : machine) (xs : list Z)
    (u' : uio) (m' : machine) : Prop :=
  advanced as_ u (length xs) u' ∧ tm_badfaultfunc m' = false ∧ readonly m' = readonly m ∧
  match uio_rwflg u with
  | UIO_READ => mem m' = scatter (mem m) (take (length xs) (addrs (uio_iov u))) xs
  | UIO_WRITE => m' = m ∧ gather (mem m) (take (length xs) (addrs (uio_iov u))) = Some xs
  end.

Definition stopped (as_ : option positive) (u : uio) (m : machine) (n : Z) (u' : uio) (m' : machine) : Prop :=
  ∃ k : nat, Z.of_nat k ≤ n ∧ advanced as_ u k u' ∧ tm_badfaultfunc m' = false ∧
    readonly m' = readonly m ∧ ∀ a, a ∉ addrs (uio_iov u) → mem m' !! a = mem m !! a.

(** A uio whose transfer can go on. *)
Definition ready (as_ : option positive) (m : machine) (u : uio) : Prop :=
  uio_ok as_ u ∧ tm_badfaultfunc m = false ∧ accessible m u (addrs (uio_iov u)).

Lemma advanced_refl as_ u : uio_ok as_ u → advanced as_ u 0 u.
Proof. intros Hok. unfold advanced. split_and!; try done; lia. Qed.

Lemma transfer_nil as_ u m : ready as_ m u → transfer as_ u m [] u m.
Proof.
  intros (Hok & Hb & _). split_and!; try done; [by apply advanced_refl|]. by destruct (uio_rwflg u).
Qed.

Lemma stopped_none as_ u m n : ready as_ m u → 0 ≤ n → stopped as_ u m n u m.
Proof. intros (Hok & Hb & _) Hn. exists 0%nat. split_and!; try done. by apply advanced_refl. Qed.

Lemma transfer_app as_ u m xs u1 m1 ys u2 m2 :
  uio_ok as_ u → transfer as_ u m xs u1 m1 → transfer as_ u1 m1 ys u2 m2 → transfer as_ u m (xs ++ ys) u2 m2.
Proof.
  intros Hok ((Ok1 & A1 & R1 & O1 & S1 & W1) & B1 & Ro1 & H1) ((Ok2 & A2 & R2 & O2 & S2 & W2) & B2 & Ro2 & H2).
  unfold transfer. rewrite length_app. split_and!; [|done|congruence|].
  - split_and!; try done; [|lia|lia|congruence|congruence]. by rewrite A2, A1, drop_drop.
  - rewrite W1 in H2. rewrite A1 in H2. rewrite <- take_take_drop. destruct (uio_rwflg u).
    + rewrite H2, H1. symmetry. apply scatter_app. rewrite length_take.
      pose proof (ok_resid _ _ Ok1). pose proof (ok_resid _ _ Hok). lia.
    + destruct H1 as [-> H1], H2 as [-> H2]. split; [done|]. by apply gather_app.
Qed.

Lemma transfer_ready as_ u m xs u1 m1 : ready as_ m u → transfer as_ u m xs u1 m1 → ready as_ m1 u1.
Proof.
  intros (Hok & Hb & Hacc) ((Ok1 & A1 & R1 & O1 & S1 & W1) & B1 & Ro1 & H1). split_and!; try done.
  unfold accessible, is_sysspace in *. rewrite S1, W1, A1. intros Hs. specialize (Hacc Hs).
  destruct (uio_rwflg u); [|destruct H1 as [-> _]; by apply Forall_drop].
  apply Forall_drop. apply Forall_forall. intros a Ha. rewrite Forall_forall in Hacc.
  pose proof (Hacc a Ha) as Hw. unfold writable in *. apply bool_decide_eq_true in Hw as [Hm Hr].
  apply bool_decide_eq_true. rewrite Ro1, H1. split; [|done]. by apply scatter_is_Some.
Qed.

(** [uiomove] of at most the residue, as a transfer of the buffer. *)
Lemma uiomove_transfer as_ u buf n m (Q : Z * list Z * uio → machine → Prop) :
  ready as_ m u → 0 ≤ n ≤ uio_resid u → n ≤ Z.of_nat (length buf) →
  (∀ xs buf' u' m', Z.of_nat (length xs) = n → transfer as_ u m xs u' m' →
     match uio_rwflg u with
     | UIO_READ => xs = take (Z.to_nat n) buf
     | UIO_WRITE => buf' = xs ++ drop (Z.to_nat n) buf
     end → Q (0, buf', u') m') →
  (∀ buf' u' m', is_sysspace u = false → stopped as_ u m n u' m' →
     (uio_rwflg u = UIO_WRITE → m' = m) → length buf' = length buf → Q (EFAULT, buf', u') m') →
  wp (uiomove as_ buf n u) Q m.
Proof.
  intros (Hok & Hb & Hacc) Hn Hbuf Hgood Hbad.
  eapply wp_mono; [|apply uiomove_correct; [done|done|lia|left; lia|done]].
  intros [[res buf'] u'] m' (k & Hk & Hres & (Hb' & Hro & Hout & Hrw) & Hadv).
  pose proof (ok_resid _ _ Hok) as Hroom. assert (k ≤ length (addrs (uio_iov u)))%nat as Hka by lia.
  destruct Hres as [[-> Hkn]|[-> Hseg]].
  - replace k with (Z.to_nat n) in * by lia. destruct (uio_rwflg u) eqn:Hflg.
    + destruct Hrw as [-> Hm]. apply (Hgood (take (Z.to_nat n) buf)); [rewrite length_take; lia| |done].
      unfold transfer. rewrite length_take, Nat.min_l by lia. split_and!; try done. rewrite Hflg, scatter_take. auto.
    + destruct Hrw as [-> (xs & Hx & ->)]. pose proof Hx as Hlx. apply length_mapM in Hlx.
      rewrite length_take, Nat.min_l in Hlx by lia. apply (Hgood xs); [lia| |done].
      unfold transfer. rewrite <- Hlx. split_and!; try done. by rewrite Hflg.
  - apply Hbad; [done|exists k; split_and!; try done; lia|..].
    + intros Hflg. rewrite Hflg in Hrw. apply Hrw.
    + destruct (uio_rwflg u); [by destruct Hrw as [-> _]|]. destruct Hrw as [_ (xs & Hx & ->)].
      apply length_mapM in Hx. rewrite length_take in Hx. rewrite length_app, length_drop. lia.
Qed.

Lemma zeros_loop_transfer as_ fuel n u m (Q : Z * uio → machine → Prop) :
  ready as_ m u → uio_rwflg u = UIO_READ → 0 ≤ n ≤ uio_resid u → (Z.to_nat n < fuel)%nat →
  (∀ u' m', transfer as_ u m (replicate (Z.to_nat n) 0) u' m' → Q (0, u') m') →
  (∀ xs u1 m1 u' m', is_sysspace u = false → transfer as_ u m xs u1 m1 →
     xs = replicate (length xs) 0 → Z.of_nat (length xs) ≤ n →
     stopped as_ u1 m1 (n - Z.of_nat (length xs)) u' m' → Q (EFAULT, u') m') →
  wp (zeros_loop fuel as_ n u) Q m.
Proof.
  revert n u m. induction fuel as [|fuel IH]; intros n u m Hr Hflg Hn Hf Hgood Hbad; [lia|]. cbn [zeros_loop].
  destruct (Z.gtb_spec n 0).
  2: { wp_go. apply Hgood. replace (Z.to_nat n) with 0%nat by lia. by apply transfer_nil. }
  replace (if 16 >? n then n else 16) with (Z.min n 16) by (destruct (Z.gtb_spec 16 n); lia).
  wp_go. apply uiomove_transfer; [done|lia|rewrite length_replicate; lia|..].
  - intros xs buf' u1 m1 Hl Ht Hxs. rewrite Hflg in Hxs. simpl. wp_go.
    rewrite take_replicate, Nat.min_l in Hxs by lia.
    pose proof (transfer_ready _ _ _ _ _ _ Hr Ht) as Hr1. pose proof Ht as [(_ & _ & R1 & _ & S1 & W1) _].
    apply IH; [done|congruence|lia|lia|..].
    + intros u' m' Ht2. apply Hgood. pose proof (transfer_app _ _ _ _ _ _ _ _ _ (proj1 Hr) Ht Ht2) as Ht3.
      rewrite Hxs, <- replicate_add in Ht3. by replace (Z.to_nat n) with (Z.to_nat (Z.min n 16) + Z.to_nat (n - Z.min n 16))%nat by lia.
    + intros ys u2 m2 u' m' Hseg Ht2 Hys Hle Hst. unfold is_sysspace in *. rewrite S1 in Hseg.
      eapply (Hbad (xs ++ ys)); [done|by eapply transfer_app; [apply Hr|..]|..].
      * rewrite length_app, replicate_add. rewrite <- Hys, Hxs. by rewrite length_replicate.
      * rewrite length_app. lia.
      * rewrite length_app. by replace (n - Z.of_nat (length xs + length ys)) with (n - Z.min n 16 - Z.of_nat (length ys)) by lia.
  - intros buf' u' m' Hseg (k & Hk & Hst) _ _. simpl. wp_go. eapply (Hbad []); [done|by apply transfer_nil|done|simpl; lia|].
    exists k. split; [simpl; lia|done].
Qed.

(** [uiomove] on a properly set-up uio (its blocks have room for its
    residue, kernel blocks are mapped) never panics and its loop always
    ends.  It moves [min n resid] bytes in order between the buffer and the
    blocks, advances the offset and reduces the residue by exactly the number of
    bytes moved, and leaves the uio ready for the next call; on a user fault it
    returns [EFAULT] with the cursor at the block that faulted.  No byte outside
    the uio's blocks changes. *)
Theorem uiomove_spec as_ u buf n s :
  uio_ok as_ u → tm_badfaultfunc s = false →
  0 ≤ n ≤ Z.of_nat (length buf) → fits n u → accessible s u (addrs (uio_iov u)) →
  ∃ r s', uiomove as_ buf n u s = Done (r, s') ∧ uiomove_post as_ u s buf n r s'.
Proof.
  intros Hok Hb Hn Hfit Hacc. apply wp_done. by apply uiomove_correct.
Qed.

Lemma uiomove_spec_witness :
  let u := uio_uinit (Some 1%positive) 4096 2 10 UIO_WRITE in
  (∃ r s', uiomove (Some 1%positive) [0; 0; 0] 3 u sample = Done (r, s') ∧
     uiomove_post (Some 1%positive) u sample [0; 0; 0] 3 r s') ∧
  uiomove (Some 1%positive) [0; 0; 0] 3 u sample =
    Done ((0, [104; 105; 0], mkUio [mkIovec 4098 0] 12 0 UIO_USERSPACE UIO_WRITE
                               (Some 1%positive)), sample).
Proof.
  intros u. split; [|vm_compute; reflexivity].
  apply (uiomove_spec (Some 1%positive) u [0; 0; 0] 3 sample).
  - constructor; try reflexivity; [vm_compute; split; discriminate|]. repeat constructor; simpl; lia.
  - reflexivity.
  - simpl; lia.
  - right. reflexivity.
  - discriminate.
Defined.

End Uio.
