(* ===== verification/Lhd.v ===== *)
(** * The disk driver (kern/dev/lamebus/lhd.c)

    The driver and the disk below it: a card with registers, a buffer of one
    sector and the sectors of the disk.  The card does what is written to its
    status register, which ends in an interrupt; which operations meet a media
    error is a script in the state.

    The driver moves data through a [struct uio].  It serves two kinds of callers:
    those that pass on the uio of a system call, and those that have a buffer of
    their own in the kernel, which is passed by its contents. *)

From Stdlib Require Import ZArith Lia.
From stdpp Require Import base numbers list gmap.
From S2P Require Import Prelude CopyInOut Uio.

Module Lhd.
Import CopyInOut Uio.

Definition LHD_SECTSIZE : Z := 512.

(** Status codes *)
Definition LHD_IDLE : Z := 0.
Definition LHD_WORKING : Z := 1.
Definition LHD_OK : Z := 4.
Definition LHD_INVSECT : Z := 12.
Definition LHD_MEDIA : Z := 20.
Definition LHD_ISWRITE : Z := 2.
Definition LHD_STATEMASK : Z := 29.

(** ** Transfers *)

(** The fields of a uio that a driver reads and writes, and [uiomove]. *)
Record xfer (U : Type) := mkXfer {
  x_offset : U → Z;
  x_resid : U → Z;
  x_rw : U → uio_rw;
  x_move : list Z → Z → U → M machine (Z * list Z * U);
}.
Arguments mkXfer {U}.
Arguments x_offset {U}.
Arguments x_resid {U}.
Arguments x_rw {U}.
Arguments x_move {U}.

Definition uio_xfer (as_ : option positive) : xfer uio :=
  mkXfer uio_offset uio_resid uio_rwflg (uiomove as_).

(** A uio over one kernel buffer ([uio_kinit]): [kb_todo] is the part of the
    buffer from the cursor on, [kb_done] the part before it. *)
Record kbuf := mkKbuf {
  kb_done : list Z;
  kb_todo : list Z;
  kb_offset : Z;
  kb_rw : uio_rw;
}.

Definition kb_resid (k : kbuf) : Z := Z.of_nat (length (kb_todo k)).

(** [uiomove] between [buf] and such a buffer: both are kernel memory. *)
Definition kbuf_move (buf : list Z) (n : Z) (k : kbuf) : M machine (Z * list Z * kbuf) :=
  let c := Z.to_nat (Z.min n (kb_resid k)) in
  let off := kb_offset k + Z.of_nat c in
  match kb_rw k with
  | UIO_READ =>
      mret (0, buf, mkKbuf (kb_done k ++ take c buf) (drop c (kb_todo k)) off UIO_READ)
  | UIO_WRITE =>
      mret (0, take c (kb_todo k) ++ drop c buf,
            mkKbuf (kb_done k ++ take c (kb_todo k)) (drop c (kb_todo k)) off UIO_WRITE)
  end.

Definition kbuf_xfer : xfer kbuf := mkXfer kb_offset kb_resid kb_rw kbuf_move.

(** ** The card *)

(** [lh_clear] and [lh_done] are the counts of the semaphores.  [media] says which
    of the coming operations fail; after its end none does. *)
Record lhd := mkLhd {
  d_blocks : Z;
  lh_buf : list Z;
  lh_result : Z;
  lh_clear : Z;
  lh_done : Z;
  reg_sect : Z;
  reg_stat : Z;
  platter : list (list Z);
  media : list bool;
}.

Definition set_buf b (d : lhd) := mkLhd (d_blocks d) b (lh_result d) (lh_clear d) (lh_done d)
  (reg_sect d) (reg_stat d) (platter d) (media d).
Definition set_result r (d : lhd) := mkLhd (d_blocks d) (lh_buf d) r (lh_clear d) (lh_done d)
  (reg_sect d) (reg_stat d) (platter d) (media d).
Definition set_clear c (d : lhd) := mkLhd (d_blocks d) (lh_buf d) (lh_result d) c (lh_done d)
  (reg_sect d) (reg_stat d) (platter d) (media d).
Definition set_done c (d : lhd) := mkLhd (d_blocks d) (lh_buf d) (lh_result d) (lh_clear d) c
  (reg_sect d) (reg_stat d) (platter d) (media d).
Definition set_sect r (d : lhd) := mkLhd (d_blocks d) (lh_buf d) (lh_result d) (lh_clear d)
  (lh_done d) r (reg_stat d) (platter d) (media d).
Definition set_stat r (d : lhd) := mkLhd (d_blocks d) (lh_buf d) (lh_result d) (lh_clear d)
  (lh_done d) (reg_sect d) r (platter d) (media d).
Definition set_platter p (d : lhd) := mkLhd (d_blocks d) (lh_buf d) (lh_result d) (lh_clear d)
  (lh_done d) (reg_sect d) (reg_stat d) p (media d).
Definition set_media l (d : lhd) := mkLhd (d_blocks d) (lh_buf d) (lh_result d) (lh_clear d)
  (lh_done d) (reg_sect d) (reg_stat d) (platter d) l.

(** The operation that the status register asks for, up to its completion. *)
Definition hw_operate : M lhd unit :=
  sect ← gets reg_sect;
  stat ← gets reg_stat;
  script ← gets media;
  p ← gets platter;
  let w := Z.land stat LHD_ISWRITE in
  match znth p sect with
  | None => modify (set_stat (Z.lor LHD_INVSECT w))
  | Some data =>
      modify (set_media (tail script)) ;;
      if default false (head script) then modify (set_stat (Z.lor LHD_MEDIA w)) else
      (if w =? 0 then modify (set_buf data)
       else modify (λ d, set_platter (zset p sect (lh_buf d)) d)) ;;
      modify (set_stat (Z.lor LHD_OK w))
  end.

(** ** The driver *)

Definition lhd_code_to_errno (code : Z) : Z :=
  let c := Z.land code LHD_STATEMASK in
  if c =? LHD_OK then 0 else if c =? LHD_INVSECT then EINVAL
  else if c =? LHD_MEDIA then EIO else EAGAIN.

Definition lhd_iodone (err : Z) : M lhd unit :=
  modify (set_result err) ;; modify (λ d, set_done (lh_done d + 1) d).

Definition lhd_irq : M lhd unit :=
  val ← gets reg_stat;
  let c := Z.land val LHD_STATEMASK in
  if (c =? LHD_OK) || (c =? LHD_INVSECT) || (c =? LHD_MEDIA) then
    modify (set_stat 0) ;; lhd_iodone (lhd_code_to_errno val)
  else mret tt.

(** Writing the status register starts the operation, which ends in an interrupt. *)
Definition start (sect statval : Z) : M lhd unit :=
  modify (set_sect sect) ;; modify (set_stat statval) ;; hw_operate ;; lhd_irq.

(** [P] on one of the semaphores; a caller that finds it at zero sleeps for good
    if nobody else uses the disk. *)
Definition P_clear : M lhd unit :=
  c ← gets lh_clear; KASSERT (c >? 0) ;; modify (set_clear (c - 1)).
Definition V_clear : M lhd unit := modify (λ d, set_clear (lh_clear d + 1) d).
Definition P_done : M lhd unit :=
  c ← gets lh_done; KASSERT (c >? 0) ;; modify (set_done (c - 1)).

Section io.
Context {U : Type} (X : xfer U).

Definition on_disk {A} (m : M lhd A) : M (machine * lhd) A := λ s,
  match m s.2 with Done (a, d) => Done (a, (s.1, d)) | Panic => Panic end.
Definition on_mem {A} (m : M machine A) : M (machine * lhd) A := λ s,
  match m s.1 with Done (a, k) => Done (a, (k, s.2)) | Panic => Panic end.

Definition is_write (u : U) : bool :=
  match x_rw X u with UIO_WRITE => true | UIO_READ => false end.

(** One turn of the loop of [lhd_io]: a sector. *)
Definition lhd_sector (sect statval : Z) (u : U) : M (machine * lhd) (Z * U) :=
  on_disk P_clear ;;
  '(result, u) ←
    (if is_write u then
       buf ← on_disk (gets lh_buf);
       '(result, buf, u) ← on_mem (x_move X buf LHD_SECTSIZE u);
       on_disk (modify (set_buf buf)) ;; mret (result, u)
     else mret (0, u));
  if negb (result =? 0) then on_disk V_clear ;; mret (result, u) else
  on_disk (start sect statval) ;;
  on_disk P_done ;;
  result ← on_disk (gets lh_result);
  '(result, u) ←
    (if (result =? 0) && negb (is_write u) then
       buf ← on_disk (gets lh_buf);
       '(result, _, u) ← on_mem (x_move X buf LHD_SECTSIZE u);
       mret (result, u)
     else mret (result, u));
  on_disk V_clear ;;
  mret (result, u).

Fixpoint lhd_loop (n : nat) (sect statval : Z) (u : U) : M (machine * lhd) (Z * U) :=
  match n with
  | O => mret (0, u)
  | S n' =>
      '(result, u) ← lhd_sector (sect mod 2 ^ 32) statval u;
      if negb (result =? 0) then mret (result, u) else lhd_loop n' (sect + 1) statval u
  end.

Definition lhd_io (u : U) : M (machine * lhd) (Z * U) :=
  let sector := (x_offset X u ÷ LHD_SECTSIZE) mod 2 ^ 32 in
  let sectoff := (Z.rem (x_offset X u) LHD_SECTSIZE) mod 2 ^ 32 in
  let len := x_resid X u / LHD_SECTSIZE in
  let lenoff := x_resid X u mod LHD_SECTSIZE in
  if negb (sectoff =? 0) || negb (lenoff =? 0) then mret (EINVAL, u) else
  n ← on_disk (gets d_blocks);
  if (sector + len) mod 2 ^ 32 >? n then mret (EINVAL, u) else
  let statval := if is_write u then Z.lor LHD_WORKING LHD_ISWRITE else LHD_WORKING in
  lhd_loop (Z.to_nat len) sector statval u.
End io.

(** ** What the driver does *)

(** The driver between two requests. *)
Record lhd_ok (d : lhd) : Prop := {
  ok_clear : lh_clear d = 1;
  ok_done : lh_done d = 0;
  ok_buf : length (lh_buf d) = 512%nat;
  ok_blocks : d_blocks d = Z.of_nat (length (platter d)) ∧ d_blocks d < 2 ^ 32;
  ok_sects : ∀ b x, znth (platter d) b = Some x → length x = 512%nat;
}.

(** [d'] is [d] after an operation that leaves [p] on the disk. *)
Record dev_after (d : lhd) (p : list (list Z)) (d' : lhd) : Prop := {
  da_ok : lhd_ok d';
  da_platter : platter d' = p;
  da_media : media d' = tail (media d);
}.

(** The next operation meets a media error. *)
Definition fails (d : lhd) : bool := default false (head (media d)).

Lemma wp_on_disk {A} (m : M lhd A) (Q : A → machine * lhd → Prop) k d :
  wp m (λ a d', Q a (k, d')) d → wp (on_disk m) Q (k, d).
Proof. unfold wp, on_disk. simpl. by destruct (m d) as [[a d']|]. Qed.
Lemma wp_on_mem {A} (m : M machine A) (Q : A → machine * lhd → Prop) k d :
  wp m (λ a k', Q a (k', d)) k → wp (on_mem m) Q (k, d).
Proof. unfold wp, on_mem. simpl. by destruct (m k) as [[a k']|]. Qed.

(** Steps on either part of the state. *)
Ltac io_go :=
  repeat (wp_go; lazymatch goal with
    | |- wp (on_disk _) _ _ => apply wp_on_disk
    | |- wp (on_mem _) _ _ => apply wp_on_mem
    end); wp_go.

Lemma zset_sects (p : list (list Z)) b x c y :
  length x = 512%nat → (∀ b x, znth p b = Some x → length x = 512%nat) →
  0 ≤ b < Z.of_nat (length p) → znth (zset p b x) c = Some y → length y = 512%nat.
Proof.
  intros Hx Hall Hb. destruct (decide (b = c)) as [<-|Hne].
  - rewrite znth_zset_eq by done. by intros [= <-].
  - rewrite znth_zset_ne by (done || lia). apply Hall.
Qed.

(** Starting an operation on a valid sector, up to the saved result. *)
Lemma wp_start_read d b x (Q : unit → lhd → Prop) :
  lhd_ok (set_clear 1 d) → lh_done d = 0 → znth (platter d) b = Some x →
  (∀ d1, lhd_ok (set_clear 1 (set_done 0 d1)) → lh_clear d1 = lh_clear d → lh_done d1 = 1 →
     platter d1 = platter d → media d1 = tail (media d) →
     lh_result d1 = (if fails d then EIO else 0) → (fails d = false → lh_buf d1 = x) → Q tt d1) →
  wp (start b LHD_WORKING) Q d.
Proof.
  intros [Hc Hd Hb [Hn1 Hn2] Hs] Hd0 Hx HQ. unfold start, hw_operate, lhd_irq, lhd_iodone, fails in *. wp_go.
  simpl in *. rewrite Hx. wp_go. destruct (default false (head (media d))) eqn:Hf; wp_go; simpl; wp_go.
  - apply HQ; simpl; first [done|lia|by constructor].
  - apply HQ; simpl; try first [done|lia]. constructor; simpl; try done. by eapply Hs.
Qed.

Lemma wp_start_write d b x (Q : unit → lhd → Prop) :
  lhd_ok (set_clear 1 d) → lh_done d = 0 → znth (platter d) b = Some x →
  (∀ d1, lhd_ok (set_clear 1 (set_done 0 d1)) → lh_clear d1 = lh_clear d → lh_done d1 = 1 →
     platter d1 = (if fails d then platter d else zset (platter d) b (lh_buf d)) →
     media d1 = tail (media d) → lh_result d1 = (if fails d then EIO else 0) → Q tt d1) →
  wp (start b (Z.lor LHD_WORKING LHD_ISWRITE)) Q d.
Proof.
  intros [Hc Hd Hb [Hn1 Hn2] Hs] Hd0 Hx HQ. unfold start, hw_operate, lhd_irq, lhd_iodone, fails in *. wp_go.
  simpl in *. rewrite Hx. wp_go. destruct (default false (head (media d))) eqn:Hf; wp_go; simpl; wp_go.
  - apply HQ; simpl; first [done|lia|by constructor].
  - pose proof (znth_Some_range _ _ _ Hx). apply HQ; simpl; try first [done|lia]. constructor; simpl; try done.
    + by rewrite length_zset.
    + intros c y. by apply zset_sects.
Qed.

Section sector.
Context {U : Type} (X : xfer U).

Lemma wp_sector_read u k d b x Q :
  lhd_ok d → x_rw X u = UIO_READ → znth (platter d) b = Some x →
  (fails d = true → ∀ d', dev_after d (platter d) d' → Q (EIO, u) (k, d')) →
  (fails d = false → wp (x_move X x LHD_SECTSIZE u) (λ r k', let '(res, _, u') := r in
     ∀ d', dev_after d (platter d) d' → Q (res, u') (k', d')) k) →
  wp (lhd_sector X b LHD_WORKING u) Q (k, d).
Proof.
  intros Hok Hrw Hx Hbad Hgood. pose proof Hok as [Hc Hd Hb Hn Hs].
  unfold lhd_sector, is_write. rewrite Hrw. io_go. unfold P_clear. wp_go. rewrite Hc. wp_check. simpl.
  io_go. eapply wp_start_read; [by constructor|done|done|].
  intros d1 Hok1 Hc1 Hd1 Hp1 Hm1 Hr1 Hb1. io_go. unfold P_done. wp_go. rewrite Hd1. wp_check. io_go.
  simpl in Hp1, Hm1, Hr1, Hb1, Hc1. change (fails (set_clear (1 - 1) d)) with (fails d) in *.
  assert (∀ d', lhd_ok d' → platter d' = platter d1 → media d' = media d1 → dev_after d (platter d) d') as Haft
    by (intros d' ? ? ?; constructor; [done|congruence..]).
  simpl in *. rewrite Hr1. destruct (fails d); simpl.
  - io_go. unfold V_clear. wp_go. apply (Hbad eq_refl), Haft; [|done..].
    simpl. rewrite Hc1. exact Hok1.
  - rewrite Hrw. simpl. io_go. simpl. rewrite (Hb1 eq_refl). eapply wp_mono; [|by apply Hgood].
    intros [[res b'] u'] k' HQ. io_go. unfold V_clear. wp_go. apply HQ, Haft; [|done..].
    simpl. rewrite Hc1. exact Hok1.
Qed.

Lemma wp_sector_write u k d b x Q :
  lhd_ok d → x_rw X u = UIO_WRITE → znth (platter d) b = Some x →
  wp (x_move X (lh_buf d) LHD_SECTSIZE u) (λ r k', let '(res, buf, u') := r in
    length buf = 512%nat ∧ x_rw X u' = UIO_WRITE ∧
    (res ≠ 0 → ∀ d', lhd_ok d' → platter d' = platter d → media d' = media d → Q (res, u') (k', d')) ∧
    (res = 0 → ∀ d', dev_after d (if fails d then platter d else zset (platter d) b buf) d' →
       Q (if fails d then EIO else 0, u') (k', d'))) k →
  wp (lhd_sector X b (Z.lor LHD_WORKING LHD_ISWRITE) u) Q (k, d).
Proof.
  intros Hok Hrw Hx Hmv. pose proof Hok as [Hc Hd Hb Hn Hs].
  unfold lhd_sector. assert (is_write X u = true) as Hw by (unfold is_write; by rewrite Hrw).
  rewrite Hw. io_go. unfold P_clear. wp_go. rewrite Hc.
  wp_check. io_go. eapply wp_mono; [|exact Hmv]. intros [[res buf] u'] k' (Hlen & Hrw' & Hbad & Hgood).
  io_go. destruct (Z.eqb_spec res 0) as [->|Hne]; cbn [negb]; io_go.
  - simpl. eapply wp_start_write; [by constructor|done|done|]. simpl.
    intros d1 Hok1 Hc1 Hd1 Hp1 Hm1 Hr1. io_go. unfold P_done. wp_go. rewrite Hd1. wp_check. io_go.
    simpl in *. rewrite Hr1. unfold is_write. rewrite Hrw', andb_false_r. io_go. unfold V_clear. wp_go.
    apply Hgood; [done|]. constructor; simpl; [rewrite Hc1; exact Hok1|done..].
  - unfold V_clear. wp_go. apply Hbad; [done| |done..]. simpl. by constructor.
Qed.

(** A request for one sector. *)
Lemma wp_lhd_io_one u k d b Q :
  lhd_ok d → 0 ≤ b < d_blocks d → x_offset X u = b * 512 → x_resid X u = 512 →
  wp (lhd_sector X b (if is_write X u then Z.lor LHD_WORKING LHD_ISWRITE else LHD_WORKING) u) Q (k, d) →
  wp (lhd_io X u) Q (k, d).
Proof.
  intros [_ _ _ [_ Hn] _] Hb Hoff Hres Hs. unfold lhd_io, LHD_SECTSIZE. rewrite Hoff, Hres.
  rewrite Z.quot_mul, Z.rem_mul by lia. rewrite (Z.mod_small b) by lia. simpl. io_go.
  change (512 / 512) with 1. rewrite (Z.mod_small (b + 1)) by lia.
  destruct (Z.gtb_spec (b + 1) (d_blocks d)); [lia|]. simpl. apply wp_bind.
  rewrite Z.mod_small by lia. eapply wp_mono; [|exact Hs]. intros [res u'] s' HQ.
  destruct (Z.eqb_spec res 0) as [->|]; by wp_go.
Qed.

(** An empty request. *)
Lemma lhd_io_none u k d b :
  0 ≤ b ≤ d_blocks d → d_blocks d < 2 ^ 32 → x_offset X u = b * 512 → x_resid X u = 0 →
  lhd_io X u (k, d) = Done ((0, u), (k, d)).
Proof.
  intros Hb Hn Hoff Hres. unfold lhd_io, LHD_SECTSIZE. rewrite Hoff, Hres.
  rewrite Z.quot_mul, Z.rem_mul by lia. rewrite (Z.mod_small b) by lia. simpl.
  unfold mbind, M_bind, on_disk, gets. simpl. change (0 / 512) with 0. rewrite Z.add_0_r, Z.mod_small by lia.
  by destruct (Z.gtb_spec b (d_blocks d)) as [Hgt|]; [lia|].
Qed.
End sector.

End Lhd.
