(* ===== verification/SfsLayout.v ===== *)
(** * The on-disk format of SFS (kern/include/kern/sfs.h)

    Superblock, inodes and directory entries as the records of the C declarations
    and as the bytes on the disk; the machine is big-endian. *)

From Stdlib Require Import ZArith Lia.
From stdpp Require Import base numbers list gmap.
From S2P Require Import Prelude.

Module SfsLayout.

Definition SFS_MAGIC : Z := 2880303105.
Definition SFS_BLOCKSIZE : Z := 512.
Definition SFS_VOLNAME_SIZE : Z := 32.
Definition SFS_NDIRECT : Z := 15.
Definition SFS_NINDIRECT : Z := 1.
Definition SFS_DBPERIDB : Z := 128.
Definition SFS_NAMELEN : Z := 60.
Definition SFS_SUPER_BLOCK : Z := 0.
Definition SFS_FREEMAP_START : Z := 2.
Definition SFS_NOINO : Z := 0.
Definition SFS_ROOTDIR_INO : Z := 1.
Definition SFS_BITSPERBLOCK : Z := SFS_BLOCKSIZE * 8.
(** Unsigned 32-bit arithmetic. *)
Definition SFS_ROUNDUP (a b : Z) : Z := (((a + b - 1) mod 2 ^ 32) / b) * b.
Definition SFS_FREEMAPBITS (nblocks : Z) : Z := SFS_ROUNDUP nblocks SFS_BITSPERBLOCK.
Definition SFS_FREEMAPBLOCKS (nblocks : Z) : Z := SFS_FREEMAPBITS nblocks / SFS_BITSPERBLOCK.
Definition SFS_TYPE_INVAL : Z := 0.
Definition SFS_TYPE_FILE : Z := 1.
Definition SFS_TYPE_DIR : Z := 2.

(** [sizeof(struct sfs_direntry)] *)
Definition DIRENTRY_SIZE : Z := 64.

Record sfs_superblock := mkSuper {
  sb_magic : Z;
  sb_nblocks : Z;
  sb_volname : list Z;
  sb_reserved : list Z;
}.

Record sfs_dinode := mkDinode {
  sfi_size : Z;
  sfi_type : Z;
  sfi_linkcount : Z;
  sfi_direct : list Z;
  sfi_indirect : Z;
  sfi_waste : list Z;
}.

Record sfs_direntry := mkDirentry {
  sfd_ino : Z;
  sfd_name : list Z;
}.

(** ** Words *)

Definition bytes_of_word (w : Z) : list Z :=
  [w / 2 ^ 24 mod 256; w / 2 ^ 16 mod 256; w / 2 ^ 8 mod 256; w mod 256].

Definition bytes_of_words (ws : list Z) : list Z := ws ≫= bytes_of_word.

Fixpoint words_of_bytes (bs : list Z) : list Z :=
  match bs with
  | a :: b :: c :: d :: bs' => a * 2 ^ 24 + b * 2 ^ 16 + c * 2 ^ 8 + d :: words_of_bytes bs'
  | _ => []
  end.

Definition is_byte (x : Z) : Prop := 0 ≤ x < 256.
Definition is_word (x : Z) : Prop := 0 ≤ x < 2 ^ 32.

(** ** Records *)

Definition super_bytes (s : sfs_superblock) : list Z :=
  bytes_of_words [sb_magic s; sb_nblocks s] ++ sb_volname s ++ bytes_of_words (sb_reserved s).

Definition super_of (bs : list Z) : sfs_superblock :=
  let ws := words_of_bytes (take 8 bs) in
  mkSuper (ws !!! 0%nat) (ws !!! 1%nat) (take 32 (drop 8 bs)) (words_of_bytes (drop 40 bs)).

(** [sfi_type] and [sfi_linkcount] are the halves of a word. *)
Definition dinode_words (d : sfs_dinode) : list Z :=
  [sfi_size d; sfi_type d * 2 ^ 16 + sfi_linkcount d] ++ sfi_direct d ++ [sfi_indirect d]
  ++ sfi_waste d.

Definition dinode_bytes (d : sfs_dinode) : list Z := bytes_of_words (dinode_words d).

Definition dinode_of_words (ws : list Z) : sfs_dinode :=
  mkDinode (ws !!! 0%nat) (ws !!! 1%nat / 2 ^ 16) (ws !!! 1%nat mod 2 ^ 16)
    (take 15 (drop 2 ws)) (ws !!! 17%nat) (drop 18 ws).

Definition dinode_of (bs : list Z) : sfs_dinode := dinode_of_words (words_of_bytes bs).

Definition direntry_bytes (e : sfs_direntry) : list Z :=
  bytes_of_word (sfd_ino e) ++ sfd_name e.

Definition direntry_of (bs : list Z) : sfs_direntry :=
  mkDirentry (words_of_bytes (take 4 bs) !!! 0%nat) (drop 4 bs).

(** ** C strings *)

(** The string that starts at the beginning of [bs]. *)
Fixpoint cstring (bs : list Z) : list Z :=
  match bs with
  | [] => []
  | x :: bs' => if x =? 0 then [] else x :: cstring bs'
  end.

(** ** Round trips *)

Lemma bytes_of_words_cons w ws : bytes_of_words (w :: ws) = bytes_of_word w ++ bytes_of_words ws.
Proof. done. Qed.

Lemma bytes_of_words_app l k : bytes_of_words (l ++ k) = bytes_of_words l ++ bytes_of_words k.
Proof. apply bind_app. Qed.

Lemma bytes_of_word_ok w : Forall is_byte (bytes_of_word w).
Proof. repeat constructor; apply Z.mod_pos_bound; lia. Qed.

Lemma bytes_of_words_ok ws : Forall is_byte (bytes_of_words ws).
Proof.
  induction ws as [|w ws IH]; [constructor|]. rewrite bytes_of_words_cons. apply Forall_app.
  split; [|done]. apply bytes_of_word_ok.
Qed.

Lemma word_split w : is_word w →
  w / 2 ^ 24 mod 256 * 2 ^ 24 + w / 2 ^ 16 mod 256 * 2 ^ 16 + w / 2 ^ 8 mod 256 * 2 ^ 8 + w mod 256 = w.
Proof.
  intros Hw. unfold is_word in Hw. change (2 ^ 24) with 16777216. change (2 ^ 16) with 65536.
  change (2 ^ 8) with 256. change (2 ^ 32) with 4294967296 in Hw.
  Z.to_euclidean_division_equations. lia.
Qed.

Lemma words_bytes ws : Forall is_word ws → words_of_bytes (bytes_of_words ws) = ws.
Proof.
  induction 1 as [|w ws Hw _ IH]; [done|]. rewrite bytes_of_words_cons.
  unfold bytes_of_word at 1. cbn [app words_of_bytes]. rewrite word_split by done. f_equal. exact IH.
Qed.

Lemma byte_join a b c d : is_byte a → is_byte b → is_byte c → is_byte d →
  bytes_of_word (a * 2 ^ 24 + b * 2 ^ 16 + c * 2 ^ 8 + d) = [a; b; c; d].
Proof.
  unfold is_byte, bytes_of_word. intros. change (2 ^ 24) with 16777216. change (2 ^ 16) with 65536.
  change (2 ^ 8) with 256. repeat f_equal; Z.to_euclidean_division_equations; lia.
Qed.

Lemma bytes_words n bs : length bs = (4 * n)%nat → Forall is_byte bs →
  bytes_of_words (words_of_bytes bs) = bs.
Proof.
  revert bs. induction n as [|n IH]; intros bs Hlen Hb; [by destruct bs|].
  destruct bs as [|a [|b [|c [|d bs]]]]; simpl in Hlen; try lia.
  rewrite !Forall_cons in Hb. destruct Hb as (Ha & Hb & Hc & Hd & Hbs).
  cbn [words_of_bytes]. rewrite bytes_of_words_cons, byte_join by done. cbn [app].
  repeat f_equal. apply IH; [lia|done].
Qed.

Lemma length_bytes_of_words ws : length (bytes_of_words ws) = (4 * length ws)%nat.
Proof.
  induction ws as [|w ws IH]; [done|]. rewrite bytes_of_words_cons, length_app, IH. simpl. lia.
Qed.

Lemma length_words_of_bytes n bs : length bs = (4 * n)%nat → length (words_of_bytes bs) = n.
Proof.
  revert bs. induction n as [|n IH]; intros bs Hlen; [by destruct bs|].
  destruct bs as [|a [|b [|c [|d bs]]]]; simpl in Hlen; try lia. simpl. rewrite IH; lia.
Qed.

Lemma words_of_bytes_ok bs : Forall is_byte bs → Forall is_word (words_of_bytes bs).
Proof.
  remember (length bs) as n eqn:Hn. assert (length bs ≤ n)%nat as Hle by lia. clear Hn. revert bs Hle.
  induction n as [|n IH]; intros bs Hle Hb; [destruct bs; [constructor|simpl in *; lia]|].
  destruct bs as [|a [|b [|c [|d bs]]]]; try constructor.
  - rewrite !Forall_cons in Hb. destruct Hb as (Ha & Hb & Hc & Hd & Hbs). unfold is_byte, is_word in *.
    change (2 ^ 24) with 16777216. change (2 ^ 16) with 65536.
    change (2 ^ 8) with 256. change (2 ^ 32) with 4294967296. lia.
  - rewrite !Forall_cons in Hb. destruct Hb as (Ha & Hb & Hc & Hd & Hbs). apply IH; [simpl in *; lia|done].
Qed.

(** Field values that fit their types. *)
Record dinode_ok (d : sfs_dinode) : Prop := {
  di_size : is_word (sfi_size d);
  di_type : 0 ≤ sfi_type d < 2 ^ 16;
  di_linkcount : 0 ≤ sfi_linkcount d < 2 ^ 16;
  di_direct : length (sfi_direct d) = 15%nat ∧ Forall is_word (sfi_direct d);
  di_indirect : is_word (sfi_indirect d);
  di_waste : length (sfi_waste d) = 110%nat ∧ Forall is_word (sfi_waste d);
}.

Lemma dinode_words_roundtrip d : dinode_ok d → dinode_of_words (dinode_words d) = d.
Proof.
  intros [Hs Ht Hl [Hd1 Hd2] Hi [Hw1 Hw2]]. destruct d as [sz ty lk di ind wa]. simpl in *.
  unfold dinode_of_words, dinode_words. change (2 ^ 16) with 65536 in *. cbn [sfi_size sfi_type sfi_linkcount sfi_direct sfi_indirect sfi_waste].
  do 15 (destruct di as [|? di]; [done|]). destruct di; [|done]. cbn -[Z.div Z.modulo Z.mul].
  f_equal; Z.to_euclidean_division_equations; lia.
Qed.

Lemma dinode_words_ok d : dinode_ok d → Forall is_word (dinode_words d).
Proof.
  intros [Hs Ht Hl [Hd1 Hd2] Hi [Hw1 Hw2]]. unfold dinode_words.
  apply Forall_app. split; [apply Forall_cons; split; [done|]; apply Forall_singleton; unfold is_word; lia|].
  apply Forall_app. split; [done|]. apply Forall_app. split; [by apply Forall_singleton|done].
Qed.

Lemma dinode_roundtrip d : dinode_ok d → dinode_of (dinode_bytes d) = d.
Proof.
  intros Hd. unfold dinode_of, dinode_bytes. rewrite words_bytes by (by apply dinode_words_ok).
  by apply dinode_words_roundtrip.
Qed.

Lemma length_dinode_bytes d : dinode_ok d → length (dinode_bytes d) = 512%nat.
Proof.
  intros [Hs Ht Hl [Hd1 Hd2] Hi [Hw1 Hw2]]. unfold dinode_bytes. rewrite length_bytes_of_words.
  unfold dinode_words. rewrite !length_app, Hd1, Hw1. done.
Qed.

End SfsLayout.
