(* ===== verification/Sfs.v ===== *)
(** * The SFS file system (kern/fs/sfs/*.c)

    One mounted volume: the objects in memory (superblock, free block map and the
    loaded vnodes), the disk with its driver, and the memory that uios point to.
    All operations run under [vfs_biglock], so a whole operation is one step.
    Buffers of the kernel are passed by their contents. *)

From Stdlib Require Import ZArith Lia.
From stdpp Require Import base numbers list gmap.
From S2P Require Import Prelude Bitmap CopyInOut Uio Lhd SfsLayout.

Module Sfs.
Import CopyInOut Uio Lhd SfsLayout.

(** ** State *)

(** The ops table of a vnode. *)
Inductive vops := sfs_fileops | sfs_dirops.

(** [struct sfs_vnode], with the fields of its [sv_absvn] that change. *)
Record sfs_vnode := mkSv {
  sv_i : sfs_dinode;
  sv_ino : Z;
  sv_dirty : bool;
  vn_refcount : Z;
  vn_ops : vops;
}.

(** [struct sfs_fs].  [sfs_vnodes] is the array of the loaded vnodes, by address;
    [svs] is where they are.  [biglock] is [vfs_biglock_depth]. *)
Record sfs_fs := mkFs {
  sfs_sb : sfs_superblock;
  sfs_superdirty : bool;
  sfs_vnodes : list positive;
  sfs_freemap : Bitmap.bitmap;
  sfs_freemapdirty : bool;
  svs : gmap positive sfs_vnode;
  biglock : Z;
  umem : machine;
  sfs_device : lhd;
}.

Definition set_sb x (s : sfs_fs) := mkFs x (sfs_superdirty s) (sfs_vnodes s) (sfs_freemap s)
  (sfs_freemapdirty s) (svs s) (biglock s) (umem s) (sfs_device s).
Definition set_superdirty x (s : sfs_fs) := mkFs (sfs_sb s) x (sfs_vnodes s) (sfs_freemap s)
  (sfs_freemapdirty s) (svs s) (biglock s) (umem s) (sfs_device s).
Definition set_vnodes x (s : sfs_fs) := mkFs (sfs_sb s) (sfs_superdirty s) x (sfs_freemap s)
  (sfs_freemapdirty s) (svs s) (biglock s) (umem s) (sfs_device s).
Definition set_freemap x (s : sfs_fs) := mkFs (sfs_sb s) (sfs_superdirty s) (sfs_vnodes s) x
  (sfs_freemapdirty s) (svs s) (biglock s) (umem s) (sfs_device s).
Definition set_freemapdirty x (s : sfs_fs) := mkFs (sfs_sb s) (sfs_superdirty s) (sfs_vnodes s)
  (sfs_freemap s) x (svs s) (biglock s) (umem s) (sfs_device s).
Definition set_svs x (s : sfs_fs) := mkFs (sfs_sb s) (sfs_superdirty s) (sfs_vnodes s)
  (sfs_freemap s) (sfs_freemapdirty s) x (biglock s) (umem s) (sfs_device s).
Definition set_biglock x (s : sfs_fs) := mkFs (sfs_sb s) (sfs_superdirty s) (sfs_vnodes s)
  (sfs_freemap s) (sfs_freemapdirty s) (svs s) x (umem s) (sfs_device s).
Definition set_hw (m : machine) (d : lhd) (s : sfs_fs) := mkFs (sfs_sb s) (sfs_superdirty s)
  (sfs_vnodes s) (sfs_freemap s) (sfs_freemapdirty s) (svs s) (biglock s) m d.

(** Code that works on a part of the state. *)
Definition in_freemap {A} (m : M Bitmap.bitmap A) : M sfs_fs A := λ s,
  match m (sfs_freemap s) with
  | Done (a, b) => Done (a, set_freemap b s)
  | Panic => Panic
  end.
Definition in_device {A} (m : M (machine * lhd) A) : M sfs_fs A := λ s,
  match m (umem s, sfs_device s) with
  | Done (a, (k, d)) => Done (a, set_hw k d s)
  | Panic => Panic
  end.
Definition in_mem {A} (m : M machine A) : M sfs_fs A := λ s,
  match m (umem s) with
  | Done (a, k) => Done (a, set_hw k (sfs_device s) s)
  | Panic => Panic
  end.

Definition get_sv (v : positive) : M sfs_fs sfs_vnode := o ← gets (λ s, svs s !! v); deref o.
Definition put_sv (v : positive) (sv : sfs_vnode) : M sfs_fs unit :=
  modify (λ s, set_svs (<[v := sv]> (svs s)) s).

(** An assignment to a field of the inode, which is then dirty. *)
Definition set_inode (v : positive) (f : sfs_dinode → sfs_dinode) : M sfs_fs unit :=
  sv ← get_sv v;
  put_sv v (mkSv (f (sv_i sv)) (sv_ino sv) true (vn_refcount sv) (vn_ops sv)).

Definition with_size x (d : sfs_dinode) := mkDinode x (sfi_type d) (sfi_linkcount d) (sfi_direct d)
  (sfi_indirect d) (sfi_waste d).
Definition with_type x (d : sfs_dinode) := mkDinode (sfi_size d) x (sfi_linkcount d) (sfi_direct d)
  (sfi_indirect d) (sfi_waste d).
Definition with_linkcount x (d : sfs_dinode) := mkDinode (sfi_size d) (sfi_type d) x (sfi_direct d)
  (sfi_indirect d) (sfi_waste d).
Definition with_direct x (d : sfs_dinode) := mkDinode (sfi_size d) (sfi_type d) (sfi_linkcount d) x
  (sfi_indirect d) (sfi_waste d).
Definition with_indirect x (d : sfs_dinode) := mkDinode (sfi_size d) (sfi_type d) (sfi_linkcount d)
  (sfi_direct d) x (sfi_waste d).
Definition with_refcount x (sv : sfs_vnode) := mkSv (sv_i sv) (sv_ino sv) (sv_dirty sv) x (vn_ops sv).

(** ** The big lock (kern/vfs/vfslist.c)

    The thread that runs an operation has the lock, or gets it. *)

Definition vfs_biglock_acquire : M sfs_fs unit := modify (λ s, set_biglock (biglock s + 1) s).
Definition vfs_biglock_release : M sfs_fs unit :=
  n ← gets biglock; KASSERT (n >? 0) ;; modify (set_biglock (n - 1)).
Definition vfs_biglock_do_i_hold : M sfs_fs bool := n ← gets biglock; mret (n >? 0).

(** [vfs_biglock_acquire(); ...; vfs_biglock_release(); return r;] *)
Definition locked {A} (m : M sfs_fs A) : M sfs_fs A :=
  vfs_biglock_acquire ;; r ← m; vfs_biglock_release ;; mret r.

(** ** Block I/O (sfs_io.c) *)

(** The loop of [sfs_rwblock]; [left] is how many retries are left. *)
Fixpoint rw_try {U} (X : xfer U) (left : nat) (u : U) : M sfs_fs (Z * U) :=
  '(result, u) ← in_device (lhd_io X u);
  if result =? EINVAL then panic else
  if result =? EIO then
    match left with
    | S left' => rw_try X left' u
    | O => mret (result, u)
    end
  else mret (result, u).

#[global] Arguments rw_try : simpl never.

Definition sfs_rwblock {U} (X : xfer U) (u : U) : M sfs_fs (Z * U) :=
  h ← vfs_biglock_do_i_hold;
  KASSERT h ;;
  rw_try X 10 u.

(** The buffer is overwritten as a whole. *)
Definition sfs_readblock (block : Z) : M sfs_fs (result (list Z)) :=
  '(r, k) ← sfs_rwblock kbuf_xfer
    (mkKbuf [] (replicate 512 0) (block * SFS_BLOCKSIZE) UIO_READ);
  mret (if r =? 0 then Ok (kb_done k ++ kb_todo k) else Err r).

Definition sfs_writeblock (block : Z) (data : list Z) : M sfs_fs Z :=
  KASSERT (Z.of_nat (length data) =? SFS_BLOCKSIZE) ;;
  '(r, _) ← sfs_rwblock kbuf_xfer (mkKbuf [] data (block * SFS_BLOCKSIZE) UIO_WRITE);
  mret r.

(** ** Block allocation (sfs_balloc.c) *)

Definition sfs_clearblock (block : Z) : M sfs_fs Z := sfs_writeblock block (replicate 512 0).

Definition sfs_balloc : M sfs_fs (result Z) :=
  r ← in_freemap Bitmap.bitmap_alloc;
  match r with
  | Err e => mret (Err e)
  | Ok diskblock =>
      modify (set_freemapdirty true) ;;
      n ← gets (λ s, sb_nblocks (sfs_sb s));
      KASSERT (negb (diskblock >=? n)) ;;
      result ← sfs_clearblock diskblock;
      if negb (result =? 0) then
        in_freemap (Bitmap.bitmap_unmark diskblock) ;; mret (Err result)
      else mret (Ok diskblock)
  end.

Definition sfs_bfree (diskblock : Z) : M sfs_fs unit :=
  in_freemap (Bitmap.bitmap_unmark diskblock) ;; modify (set_freemapdirty true).

Definition sfs_bused (diskblock : Z) : M sfs_fs bool :=
  n ← gets (λ s, sb_nblocks (sfs_sb s));
  KASSERT (negb (diskblock >=? n)) ;;
  r ← in_freemap (Bitmap.bitmap_isset diskblock);
  mret (negb (r =? 0)).

(** ** Block mapping (sfs_bmap.c) *)

(** [if (block != 0 && !sfs_bused(sfs, block)) panic(...); *diskblock = block;] *)
Definition hand_back (block : Z) : M sfs_fs (result Z) :=
  if block =? 0 then mret (Ok block) else
  b ← sfs_bused block; KASSERT b ;; mret (Ok block).

Definition bmap_direct (v : positive) (fileblock : Z) (doalloc : bool) : M sfs_fs (result Z) :=
  sv ← get_sv v;
  block ← deref (znth (sfi_direct (sv_i sv)) fileblock);
  if (block =? 0) && doalloc then
    r ← sfs_balloc;
    match r with
    | Err e => mret (Err e)
    | Ok block =>
        set_inode v (λ d, with_direct (zset (sfi_direct d) fileblock block) d) ;;
        hand_back block
    end
  else hand_back block.

(** From the contents [idbuf] of the indirect block [idblock] on. *)
Definition bmap_indirect (idblock : Z) (idbuf : list Z) (idoff : Z) (doalloc : bool)
  : M sfs_fs (result Z) :=
  block ← deref (znth idbuf idoff);
  if (block =? 0) && doalloc then
    r ← sfs_balloc;
    match r with
    | Err e => mret (Err e)
    | Ok block =>
        result ← sfs_writeblock idblock (bytes_of_words (zset idbuf idoff block));
        if negb (result =? 0) then mret (Err result) else hand_back block
    end
  else hand_back block.

Definition sfs_bmap (v : positive) (fileblock : Z) (doalloc : bool) : M sfs_fs (result Z) :=
  h ← vfs_biglock_do_i_hold;
  KASSERT h ;;
  if fileblock <? SFS_NDIRECT then bmap_direct v fileblock doalloc else
  let fileblock := fileblock - SFS_NDIRECT in
  let idnum := fileblock / SFS_DBPERIDB in
  let idoff := fileblock mod SFS_DBPERIDB in
  if idnum >=? SFS_NINDIRECT then mret (Err EFBIG) else
  sv ← get_sv v;
  let idblock := sfi_indirect (sv_i sv) in
  if (idblock =? 0) && negb doalloc then mret (Ok 0)
  else if idblock =? 0 then
    r ← sfs_balloc;
    match r with
    | Err e => mret (Err e)
    | Ok idblock =>
        set_inode v (with_indirect idblock) ;;
        bmap_indirect idblock (replicate 128 0) idoff doalloc
    end
  else
    r ← sfs_readblock idblock;
    match r with
    | Err e => mret (Err e)
    | Ok bs => bmap_indirect idblock (words_of_bytes bs) idoff doalloc
    end.

(** The loop over the direct blocks, and the loop over the indirect block, which
    returns the new contents, [hasnonzero] and [iddirty]. *)
Definition trunc_direct (v : positive) (blocklen : Z) : M sfs_fs unit :=
  for_loop 15 0 (λ i,
    sv ← get_sv v;
    block ← deref (znth (sfi_direct (sv_i sv)) i);
    if (i >=? blocklen) && negb (block =? 0) then
      sfs_bfree block ;;
      set_inode v (λ d, with_direct (zset (sfi_direct d) i 0) d)
    else mret tt).

Fixpoint trunc_indirect (blocklen j : Z) (idbuf : list Z) : M sfs_fs (list Z * bool * bool) :=
  match idbuf with
  | [] => mret ([], false, false)
  | b :: idbuf' =>
      let baseblock := SFS_NDIRECT in
      '(b, iddirty) ←
        (if (blocklen <? baseblock + j) && negb (b =? 0) then sfs_bfree b ;; mret (0, true)
         else mret (b, false));
      '(rest, hasnonzero', iddirty') ← trunc_indirect blocklen (j + 1) idbuf';
      mret (b :: rest, negb (b =? 0) || hasnonzero', iddirty || iddirty')
  end.

Definition itrunc_body (v : positive) (len : Z) : M sfs_fs Z :=
  let blocklen := ((len + SFS_BLOCKSIZE - 1) ÷ SFS_BLOCKSIZE) mod 2 ^ 32 in
  trunc_direct v blocklen ;;
  sv ← get_sv v;
  let idblock := sfi_indirect (sv_i sv) in
  let highblock := SFS_NDIRECT + SFS_DBPERIDB - 1 in
  result ←
    (if (blocklen <? highblock) && negb (idblock =? 0) then
       r ← sfs_readblock idblock;
       match r with
       | Err e => mret e
       | Ok bs =>
           '(idbuf, hasnonzero, iddirty) ← trunc_indirect blocklen 0 (words_of_bytes bs);
           if negb hasnonzero then
             sfs_bfree idblock ;; set_inode v (with_indirect 0) ;; mret 0
           else if (iddirty : bool) then sfs_writeblock idblock (bytes_of_words idbuf)
           else mret 0
       end
     else mret 0);
  if negb (result =? 0) then mret result else
  set_inode v (with_size (len mod 2 ^ 32)) ;;
  mret 0.

Definition sfs_itrunc (v : positive) (len : Z) : M sfs_fs Z := locked (itrunc_body v len).

(** ** File I/O (sfs_io.c) *)

Section io.
Context (as_ : option positive).

Definition writing (u : uio) : bool :=
  match uio_rwflg u with UIO_WRITE => true | UIO_READ => false end.

Definition set_cursor (off resid : Z) (u : uio) : uio :=
  mkUio (uio_iov u) off resid (uio_segflg u) (uio_rwflg u) (uio_space u).

(** The block of the file at the offset of the uio, a 32-bit number. *)
Definition fileblock_of (u : uio) : Z := (uio_offset u ÷ SFS_BLOCKSIZE) mod 2 ^ 32.

(** [uiomove(iobuf + skipstart, len, uio)] *)
Definition move_part (iobuf : list Z) (skipstart len : Z) (u : uio)
  : M sfs_fs (Z * list Z * uio) :=
  '(result, part, u) ← in_mem (uiomove as_ (drop (Z.to_nat skipstart) iobuf) len u);
  mret (result, take (Z.to_nat skipstart) iobuf ++ part, u).

Definition sfs_partialio (v : positive) (u : uio) (skipstart len : Z) : M sfs_fs (Z * uio) :=
  let doalloc := writing u in
  KASSERT (skipstart + len <=? SFS_BLOCKSIZE) ;;
  h ← vfs_biglock_do_i_hold;
  KASSERT h ;;
  r ← sfs_bmap v (fileblock_of u) doalloc;
  match r with
  | Err e => mret (e, u)
  | Ok diskblock =>
      r ← (if diskblock =? 0 then KASSERT (negb (writing u)) ;; mret (Ok (replicate 512 0))
           else sfs_readblock diskblock);
      match r with
      | Err e => mret (e, u)
      | Ok iobuf =>
          '(result, iobuf, u) ← move_part iobuf skipstart len u;
          if negb (result =? 0) then mret (result, u) else
          if writing u then
            result ← sfs_writeblock diskblock iobuf;
            mret (result, u)
          else mret (0, u)
      end
  end.

(** [diskblock * SFS_BLOCKSIZE] is 32-bit arithmetic. *)
Definition sfs_blockio (v : positive) (u : uio) : M sfs_fs (Z * uio) :=
  let doalloc := writing u in
  r ← sfs_bmap v (fileblock_of u) doalloc;
  match r with
  | Err e => mret (e, u)
  | Ok diskblock =>
      if diskblock =? 0 then
        KASSERT (negb (writing u)) ;;
        in_mem (uiomovezeros as_ SFS_BLOCKSIZE u)
      else
        let saveoff := uio_offset u in
        let diskoff := (diskblock * SFS_BLOCKSIZE) mod 2 ^ 32 in
        KASSERT (uio_resid u >=? SFS_BLOCKSIZE) ;;
        let saveres := uio_resid u in
        let diskres := SFS_BLOCKSIZE in
        '(result, u) ← sfs_rwblock (uio_xfer as_) (set_cursor diskoff diskres u);
        mret (result, set_cursor (uio_offset u - diskoff + saveoff)
                        ((uio_resid u - diskres + saveres) mod 2 ^ 32) u)
  end.

(** The loop over the whole blocks. *)
Fixpoint blocks_loop (v : positive) (n : nat) (u : uio) : M sfs_fs (Z * uio) :=
  match n with
  | O => mret (0, u)
  | S n' =>
      '(result, u) ← sfs_blockio v u;
      if negb (result =? 0) then mret (result, u) else blocks_loop v n' u
  end.

(** [sfs_io] from the leading partial block up to [out:]. *)
Definition io_blocks (v : positive) (u : uio) : M sfs_fs (Z * uio) :=
  let blkoff := (Z.rem (uio_offset u) SFS_BLOCKSIZE) mod 2 ^ 32 in
  '(result, u) ←
    (if negb (blkoff =? 0) then
       let len := SFS_BLOCKSIZE - blkoff in
       let len := if len >? uio_resid u then uio_resid u else len in
       sfs_partialio v u blkoff len
     else mret (0, u));
  if negb (result =? 0) then mret (result, u) else
  if uio_resid u =? 0 then mret (0, u) else
  KASSERT (Z.rem (uio_offset u) SFS_BLOCKSIZE =? 0) ;;
  let nblocks := uio_resid u / SFS_BLOCKSIZE in
  '(result, u) ← blocks_loop v (Z.to_nat nblocks) u;
  if negb (result =? 0) then mret (result, u) else
  KASSERT (uio_resid u <? SFS_BLOCKSIZE) ;;
  if uio_resid u >? 0 then sfs_partialio v u 0 (uio_resid u) else mret (0, u).

(** From [out:] on. *)
Definition io_out (v : positive) (origresid extraresid result : Z) (u : uio) : M sfs_fs (Z * uio) :=
  sv ← get_sv v;
  (if negb (uio_resid u =? origresid) && writing u && (uio_offset u >? sfi_size (sv_i sv)) then
     set_inode v (with_size (uio_offset u mod 2 ^ 32))
   else mret tt) ;;
  mret (result, set_cursor (uio_offset u) ((uio_resid u + extraresid) mod 2 ^ 32) u).

Definition sfs_io (v : positive) (u : uio) : M sfs_fs (Z * uio) :=
  let origresid := uio_resid u in
  sv ← get_sv v;
  let size := sfi_size (sv_i sv) in
  let endpos := uio_offset u + uio_resid u in
  if negb (writing u) && (uio_offset u >=? size) then mret (0, u) else
  extraresid ←
    (if negb (writing u) && (endpos >? size) then
       let extraresid := (endpos - size) mod 2 ^ 32 in
       KASSERT (uio_resid u >? extraresid) ;; mret extraresid
     else mret 0);
  '(result, u) ← io_blocks v (set_cursor (uio_offset u) (uio_resid u - extraresid) u);
  io_out v origresid extraresid result u.

Definition sfs_read (v : positive) (u : uio) : M sfs_fs (Z * uio) :=
  KASSERT (negb (writing u)) ;; locked (sfs_io v u).
Definition sfs_write (v : positive) (u : uio) : M sfs_fs (Z * uio) :=
  KASSERT (writing u) ;; locked (sfs_io v u).
End io.

(** Metadata I/O.  [data] is the buffer, of which [len] bytes are read or written;
    the region lies within a block. *)
Definition sfs_metaio (v : positive) (actualpos : Z) (data : list Z) (rw : uio_rw)
  : M sfs_fs (Z * list Z) :=
  let len := Z.of_nat (length data) in
  h ← vfs_biglock_do_i_hold;
  KASSERT h ;;
  let vnblock := (actualpos ÷ SFS_BLOCKSIZE) mod 2 ^ 32 in
  let blockoffset := (Z.rem actualpos SFS_BLOCKSIZE) mod 2 ^ 32 in
  let doalloc := match rw with UIO_WRITE => true | UIO_READ => false end in
  r ← sfs_bmap v vnblock doalloc;
  match r with
  | Err e => mret (e, data)
  | Ok diskblock =>
      if diskblock =? 0 then
        KASSERT (negb doalloc) ;; mret (0, replicate (length data) 0)
      else
        r ← sfs_readblock diskblock;
        match r with
        | Err e => mret (e, data)
        | Ok metaiobuf =>
            KASSERT (blockoffset + len <=? SFS_BLOCKSIZE) ;;
            match rw with
            | UIO_READ => mret (0, take (length data) (drop (Z.to_nat blockoffset) metaiobuf))
            | UIO_WRITE =>
                result ← sfs_writeblock diskblock
                  (take (Z.to_nat blockoffset) metaiobuf ++ data
                   ++ drop (Z.to_nat blockoffset + length data) metaiobuf);
                if negb (result =? 0) then mret (result, data) else
                let endpos := actualpos + len in
                sv ← get_sv v;
                (if endpos >? sfi_size (sv_i sv) then set_inode v (with_size (endpos mod 2 ^ 32))
                 else mret tt) ;;
                mret (0, data)
            end
        end
  end.

(** ** Directories (sfs_dir.c) *)

Definition sfs_readdir (v : positive) (slot : Z) : M sfs_fs (result sfs_direntry) :=
  let actualpos := (slot * DIRENTRY_SIZE) mod 2 ^ 32 in
  '(r, bs) ← sfs_metaio v actualpos (replicate 64 0) UIO_READ;
  mret (if r =? 0 then Ok (direntry_of bs) else Err r).

Definition sfs_writedir (v : positive) (slot : Z) (sd : sfs_direntry) : M sfs_fs Z :=
  KASSERT (slot >=? 0) ;;
  let actualpos := (slot * DIRENTRY_SIZE) mod 2 ^ 32 in
  '(r, _) ← sfs_metaio v actualpos (direntry_bytes sd) UIO_WRITE;
  mret r.

Definition sfs_dir_nentries (v : positive) : M sfs_fs Z :=
  sv ← get_sv v;
  KASSERT (sfi_type (sv_i sv) =? SFS_TYPE_DIR) ;;
  let size := sfi_size (sv_i sv) in
  KASSERT (size mod DIRENTRY_SIZE =? 0) ;;
  mret (size / DIRENTRY_SIZE).

(** The name in an entry, with the terminator that the search stores at its end. *)
Definition entry_name (sd : sfs_direntry) : list Z := cstring (zset (sfd_name sd) 59 0).

(** The loop of [sfs_dir_findname]: what it has found so far is the entry with the
    name, as slot and inode number, and the last free slot. *)
Fixpoint find_loop (v : positive) (name : list Z) (n : nat) (i : Z) (found : option (Z * Z))
    (emptyslot : Z) : M sfs_fs (result (option (Z * Z) * Z)) :=
  match n with
  | O => mret (Ok (found, emptyslot))
  | S n' =>
      r ← sfs_readdir v i;
      match r with
      | Err e => mret (Err e)
      | Ok tsd =>
          if sfd_ino tsd =? SFS_NOINO then find_loop v name n' (i + 1) found i
          else if bool_decide (entry_name tsd = name) then
            KASSERT (bool_decide (found = None)) ;;
            find_loop v name n' (i + 1) (Some (i, sfd_ino tsd)) emptyslot
          else find_loop v name n' (i + 1) found emptyslot
      end
  end.

(** The slot and the inode number of the entry with the name, or an error; and, when
    the search went through, the last free slot, or -1. *)
Definition sfs_dir_findname (v : positive) (name : list Z) : M sfs_fs (result (Z * Z) * Z) :=
  nentries ← sfs_dir_nentries v;
  r ← find_loop v name (Z.to_nat nentries) 0 None (-1);
  mret (match r with
        | Err e => (Err e, -1)
        | Ok (Some x, emptyslot) => (Ok x, emptyslot)
        | Ok (None, emptyslot) => (Err ENOENT, emptyslot)
        end).

Definition sfs_dir_link (v : positive) (name : list Z) (ino : Z) : M sfs_fs (result Z) :=
  '(r, emptyslot) ← sfs_dir_findname v name;
  match r with
  | Ok _ => mret (Err EEXIST)
  | Err e =>
      if negb (e =? ENOENT) then mret (Err e) else
      if Z.of_nat (length name) + 1 >? SFS_NAMELEN then mret (Err ENAMETOOLONG) else
      emptyslot ← (if emptyslot <? 0 then sfs_dir_nentries v else mret emptyslot);
      let sd := mkDirentry ino (name ++ replicate (60 - length name) 0) in
      result ← sfs_writedir v emptyslot sd;
      mret (if result =? 0 then Ok emptyslot else Err result)
  end.

Definition sfs_dir_unlink (v : positive) (slot : Z) : M sfs_fs Z :=
  sfs_writedir v slot (mkDirentry SFS_NOINO (replicate 60 0)).

(** ** Inodes (sfs_inode.c) and vnodes (kern/vfs/vnode.c) *)

Definition sfs_sync_inode (v : positive) : M sfs_fs Z :=
  sv ← get_sv v;
  if sv_dirty sv then
    result ← sfs_writeblock (sv_ino sv) (dinode_bytes (sv_i sv));
    if negb (result =? 0) then mret result else
    put_sv v (mkSv (sv_i sv) (sv_ino sv) false (vn_refcount sv) (vn_ops sv)) ;; mret 0
  else mret 0.

Definition vnode_incref (v : positive) : M sfs_fs unit :=
  sv ← get_sv v; put_sv v (with_refcount (vn_refcount sv + 1) sv).

(** The check before every call through the ops table. *)
Definition vnode_check (v : positive) : M sfs_fs unit :=
  vfs_biglock_acquire ;;
  sv ← get_sv v;
  KASSERT (vn_refcount sv >? 0) ;;
  vfs_biglock_release.

(** The index of [v] in the array of vnodes. *)
Definition position (v : positive) (l : list positive) : option nat := fst <$> list_find (v =.) l.

(** The vnode leaves the array and its memory is released. *)
Definition discard_vnode (v : positive) : M sfs_fs unit :=
  l ← gets sfs_vnodes;
  ix ← deref (position v l);
  modify (set_vnodes (delete ix l)) ;;
  sv ← get_sv v;
  KASSERT (vn_refcount sv =? 1) ;;
  modify (λ s, set_svs (delete v (svs s)) s).

Definition reclaim_body (v : positive) : M sfs_fs Z :=
  sv ← get_sv v;
  if negb (vn_refcount sv =? 1) then
    KASSERT (vn_refcount sv >? 1) ;;
    put_sv v (with_refcount (vn_refcount sv - 1) sv) ;;
    mret EBUSY
  else
    result ← (if sfi_linkcount (sv_i sv) =? 0 then sfs_itrunc v 0 else mret 0);
    if negb (result =? 0) then mret result else
    result ← sfs_sync_inode v;
    if negb (result =? 0) then mret result else
    sv ← get_sv v;
    (if sfi_linkcount (sv_i sv) =? 0 then sfs_bfree (sv_ino sv) else mret tt) ;;
    discard_vnode v ;;
    mret 0.

Definition sfs_reclaim (v : positive) : M sfs_fs Z := locked (reclaim_body v).

Definition vnode_decref (v : positive) : M sfs_fs unit :=
  sv ← get_sv v;
  KASSERT (vn_refcount sv >? 0) ;;
  if vn_refcount sv >? 1 then put_sv v (with_refcount (vn_refcount sv - 1) sv)
  else vnode_check v ;; _ ← sfs_reclaim v; mret tt.

(** The search for a loaded inode; every loaded one is in an allocated block. *)
Fixpoint find_vnode (ino : Z) (l : list positive) : M sfs_fs (option positive) :=
  match l with
  | [] => mret None
  | v :: l' =>
      sv ← get_sv v;
      b ← sfs_bused (sv_ino sv);
      KASSERT b ;;
      if sv_ino sv =? ino then mret (Some v) else find_vnode ino l'
  end.

(** [ok1] and [ok2]: whether memory for the vnode, and for the array, is there. *)
Definition sfs_loadvnode (ok1 ok2 : bool) (ino forcetype : Z) : M sfs_fs (result positive) :=
  l ← gets sfs_vnodes;
  o ← find_vnode ino l;
  match o with
  | Some v =>
      KASSERT (forcetype =? SFS_TYPE_INVAL) ;;
      vnode_incref v ;;
      mret (Ok v)
  | None =>
      if negb ok1 then mret (Err ENOMEM) else
      b ← sfs_bused ino;
      KASSERT b ;;
      r ← sfs_readblock ino;
      match r with
      | Err e => mret (Err e)
      | Ok bs =>
          let d := dinode_of bs in
          '(d, dirty) ←
            (if negb (forcetype =? SFS_TYPE_INVAL) then
               KASSERT (sfi_type d =? SFS_TYPE_INVAL) ;; mret (with_type forcetype d, true)
             else mret (d, false));
          ops ← (if sfi_type d =? SFS_TYPE_FILE then mret sfs_fileops
                 else if sfi_type d =? SFS_TYPE_DIR then mret sfs_dirops else panic);
          if negb ok2 then mret (Err ENOMEM) else
          v ← gets (λ s, fresh (dom (svs s)));
          put_sv v (mkSv d ino dirty 1 ops) ;;
          modify (λ s, set_vnodes (sfs_vnodes s ++ [v]) s) ;;
          mret (Ok v)
      end
  end.

Definition sfs_makeobj (ok1 ok2 : bool) (type : Z) : M sfs_fs (result positive) :=
  r ← sfs_balloc;
  match r with
  | Err e => mret (Err e)
  | Ok ino =>
      r ← sfs_loadvnode ok1 ok2 ino type;
      match r with
      | Err e => sfs_bfree ino ;; mret (Err e)
      | Ok v => mret (Ok v)
      end
  end.

Definition sfs_getroot (ok1 ok2 : bool) : M sfs_fs positive :=
  locked (
    r ← sfs_loadvnode ok1 ok2 SFS_ROOTDIR_INO SFS_TYPE_INVAL;
    match r with
    | Err _ => panic
    | Ok v =>
        sv ← get_sv v;
        KASSERT (sfi_type (sv_i sv) =? SFS_TYPE_DIR) ;; mret v
    end).

(** The vnode and the slot of a name. *)
Definition sfs_lookonce (ok1 ok2 : bool) (v : positive) (name : list Z)
  : M sfs_fs (result (positive * Z)) :=
  '(r, _) ← sfs_dir_findname v name;
  match r with
  | Err e => mret (Err e)
  | Ok (slot, ino) =>
      r ← sfs_loadvnode ok1 ok2 ino SFS_TYPE_INVAL;
      match r with
      | Err e => mret (Err e)
      | Ok f =>
          sv ← get_sv f;
          KASSERT (negb (sfi_linkcount (sv_i sv) =? 0)) ;;
          mret (Ok (f, slot))
      end
  end.

(** ** Vnode operations (sfs_vnops.c) *)

Definition S_IFREG : Z := 4096.
Definition S_IFDIR : Z := 8192.
Definition O_ACCMODE : Z := 3.
Definition O_APPEND : Z := 32.

Definition sfs_eachopendir (openflags : Z) : Z :=
  if negb (Z.land openflags O_ACCMODE =? 0) then EISDIR else
  if negb (Z.land openflags O_APPEND =? 0) then EISDIR else 0.

Definition sfs_gettype (v : positive) : M sfs_fs Z :=
  locked (
    sv ← get_sv v;
    if sfi_type (sv_i sv) =? SFS_TYPE_FILE then mret S_IFREG
    else if sfi_type (sv_i sv) =? SFS_TYPE_DIR then mret S_IFDIR
    else panic).

(** [st_mode], [st_size] and [st_nlink]; the other fields are zero. *)
Definition sfs_stat (v : positive) : M sfs_fs (Z * Z * Z) :=
  vnode_check v ;;
  mode ← sfs_gettype v;
  sv ← get_sv v;
  mret (mode, sfi_size (sv_i sv), sfi_linkcount (sv_i sv)).

Definition sfs_fsync (v : positive) : M sfs_fs Z := locked (sfs_sync_inode v).

Definition sfs_truncate (v : positive) (len : Z) : M sfs_fs Z := sfs_itrunc v len.

Definition sfs_namefile (v : positive) : M sfs_fs Z :=
  sv ← get_sv v; KASSERT (sv_ino sv =? SFS_ROOTDIR_INO) ;; mret 0.

(** [sfi_linkcount++] and [sfi_linkcount--], 16 bits. *)
Definition link_inc (v : positive) : M sfs_fs unit :=
  set_inode v (λ d, with_linkcount ((sfi_linkcount d + 1) mod 2 ^ 16) d).
Definition link_dec (v : positive) : M sfs_fs unit :=
  set_inode v (λ d, with_linkcount ((sfi_linkcount d - 1) mod 2 ^ 16) d).

Definition creat_body (ok1 ok2 : bool) (v : positive) (name : list Z) (excl : bool)
  : M sfs_fs (result positive) :=
  '(r, _) ← sfs_dir_findname v name;
  match r with
  | Ok (_, ino) =>
      if excl then mret (Err EEXIST) else sfs_loadvnode ok1 ok2 ino SFS_TYPE_INVAL
  | Err e =>
      if negb (e =? ENOENT) then mret (Err e) else
      r ← sfs_makeobj ok1 ok2 SFS_TYPE_FILE;
      match r with
      | Err e => mret (Err e)
      | Ok newguy =>
          g ← get_sv newguy;
          r ← sfs_dir_link v name (sv_ino g);
          match r with
          | Err e => vnode_decref newguy ;; mret (Err e)
          | Ok _ => link_inc newguy ;; mret (Ok newguy)
          end
      end
  end.

Definition sfs_creat (ok1 ok2 : bool) (v : positive) (name : list Z) (excl : bool)
  : M sfs_fs (result positive) := locked (creat_body ok1 ok2 v name excl).

Definition sfs_link (dir : positive) (name : list Z) (file : positive) : M sfs_fs Z :=
  locked (
    f ← get_sv file;
    if sfi_type (sv_i f) =? SFS_TYPE_DIR then mret EINVAL else
    r ← sfs_dir_link dir name (sv_ino f);
    match r with
    | Err e => mret e
    | Ok _ => link_inc file ;; mret 0
    end).

Definition remove_body (ok1 ok2 : bool) (dir : positive) (name : list Z) : M sfs_fs Z :=
  r ← sfs_lookonce ok1 ok2 dir name;
  match r with
  | Err e => mret e
  | Ok (victim, slot) =>
      result ← sfs_dir_unlink dir slot;
      (if result =? 0 then
         sv ← get_sv victim;
         KASSERT (sfi_linkcount (sv_i sv) >? 0) ;;
         link_dec victim
       else mret tt) ;;
      vnode_decref victim ;;
      mret result
  end.

Definition sfs_remove (ok1 ok2 : bool) (dir : positive) (name : list Z) : M sfs_fs Z :=
  locked (remove_body ok1 ok2 dir name).

(** The part of [sfs_rename] between the lookup and the release of [g1]. *)
Definition rename_links (d1 g1 : positive) (slot1 : Z) (n2 : list Z) : M sfs_fs Z :=
  g ← get_sv g1;
  KASSERT (sfi_type (sv_i g) =? SFS_TYPE_FILE) ;;
  r ← sfs_dir_link d1 n2 (sv_ino g);
  match r with
  | Err e => mret e
  | Ok slot2 =>
      link_inc g1 ;;
      result ← sfs_dir_unlink d1 slot1;
      if result =? 0 then
        g ← get_sv g1;
        KASSERT (sfi_linkcount (sv_i g) >? 0) ;;
        link_dec g1 ;;
        mret 0
      else
        result2 ← sfs_dir_unlink d1 slot2;
        KASSERT (result2 =? 0) ;;
        g ← get_sv g1;
        put_sv g1 (mkSv (with_linkcount ((sfi_linkcount (sv_i g) - 1) mod 2 ^ 16) (sv_i g))
                     (sv_ino g) (sv_dirty g) (vn_refcount g) (vn_ops g)) ;;
        mret result
  end.

Definition sfs_rename (ok1 ok2 : bool) (d1 : positive) (n1 : list Z) (d2 : positive) (n2 : list Z)
  : M sfs_fs Z :=
  locked (
    KASSERT (bool_decide (d1 = d2)) ;;
    sv ← get_sv d1;
    KASSERT (sv_ino sv =? SFS_ROOTDIR_INO) ;;
    r ← sfs_lookonce ok1 ok2 d1 n1;
    match r with
    | Err e => mret e
    | Ok (g1, slot1) =>
        result ← rename_links d1 g1 slot1 n2;
        vnode_decref g1 ;;
        mret result
    end).

(** The vnode of the directory, and the path again as the last component. *)
Definition sfs_lookparent (v : positive) (path : list Z) (buflen : Z)
  : M sfs_fs (result (positive * list Z)) :=
  locked (
    sv ← get_sv v;
    if negb (sfi_type (sv_i sv) =? SFS_TYPE_DIR) then mret (Err ENOTDIR) else
    if Z.of_nat (length path) + 1 >? buflen then mret (Err ENAMETOOLONG) else
    vnode_incref v ;;
    mret (Ok (v, path))).

Definition sfs_lookup (ok1 ok2 : bool) (v : positive) (path : list Z) : M sfs_fs (result positive) :=
  locked (
    sv ← get_sv v;
    if negb (sfi_type (sv_i sv) =? SFS_TYPE_DIR) then mret (Err ENOTDIR) else
    r ← sfs_lookonce ok1 ok2 v path;
    mret (match r with Err e => Err e | Ok (f, _) => Ok f end)).

(** ** The file system as a whole (sfs_fsops.c) *)

(** Block [j] of the free block map. *)
Definition map_block (j : Z) (data : list Z) : list Z := take 512 (drop (Z.to_nat (j * 512)) data).
Definition set_map_block (j : Z) (block data : list Z) : list Z :=
  take (Z.to_nat (j * 512)) data ++ block ++ drop (Z.to_nat (j * 512) + 512) data.

Definition sfs_freemapio (rw : uio_rw) : M sfs_fs Z :=
  n ← gets (λ s, SFS_FREEMAPBLOCKS (sb_nblocks (sfs_sb s)));
  r ← for_return (Z.to_nat n) 0 (λ j,
    match rw with
    | UIO_READ =>
        r ← sfs_readblock (SFS_FREEMAP_START + j);
        match r with
        | Err e => mret (Some e)
        | Ok bs =>
            modify (λ s, set_freemap (Bitmap.mkBitmap (Bitmap.nbits (sfs_freemap s))
                            (set_map_block j bs (Bitmap.v (sfs_freemap s)))) s) ;;
            mret None
        end
    | UIO_WRITE =>
        data ← in_freemap Bitmap.bitmap_getdata;
        result ← sfs_writeblock (SFS_FREEMAP_START + j) (map_block j data);
        mret (if result =? 0 then None else Some result)
    end);
  mret (default 0 r).

Fixpoint fsync_all (l : list positive) : M sfs_fs unit :=
  match l with
  | [] => mret tt
  | v :: l' => vnode_check v ;; _ ← sfs_fsync v; fsync_all l'
  end.

Definition sfs_sync : M sfs_fs Z :=
  locked (
    l ← gets sfs_vnodes;
    fsync_all l ;;
    fd ← gets sfs_freemapdirty;
    result ← (if (fd : bool) then
                r ← sfs_freemapio UIO_WRITE;
                (if r =? 0 then modify (set_freemapdirty false) else mret tt) ;; mret r
              else mret 0);
    if negb (result =? 0) then mret result else
    sd ← gets sfs_superdirty;
    if (sd : bool) then
      sb ← gets sfs_sb;
      r ← sfs_writeblock SFS_SUPER_BLOCK (super_bytes sb);
      (if r =? 0 then modify (set_superdirty false) else mret tt) ;; mret r
    else mret 0).

Definition sfs_getvolname : M sfs_fs (list Z) := locked (sb ← gets sfs_sb; mret (sb_volname sb)).

(** The vnode array has to be empty when it is destroyed. *)
Definition sfs_fs_destroy : M sfs_fs unit :=
  l ← gets sfs_vnodes; KASSERT (bool_decide (l = [])).

Definition sfs_unmount : M sfs_fs Z :=
  locked (
    l ← gets sfs_vnodes;
    if negb (bool_decide (l = [])) then mret EBUSY else
    sd ← gets sfs_superdirty;
    KASSERT (negb sd) ;;
    fd ← gets sfs_freemapdirty;
    KASSERT (negb fd) ;;
    sfs_fs_destroy ;;
    mret 0).

(** The fields of a new volume object; the superblock is read in later. *)
Definition sfs_fs_create (ok1 ok2 : bool) : M sfs_fs bool :=
  if negb (ok1 && ok2) then mret false else
  modify (λ s, mkFs (sfs_sb s) false [] (sfs_freemap s) false ∅ (biglock s) (umem s) (sfs_device s)) ;;
  mret true.

(** The terminator stored at the end of the volume name. *)
Definition terminated (sb : sfs_superblock) : sfs_superblock :=
  mkSuper (sb_magic sb) (sb_nblocks sb) (zset (sb_volname sb) 31 0) (sb_reserved sb).

(** [ok1] to [ok4]: whether memory for the volume object, its array of vnodes, and
    the free block map is there. *)
Definition sfs_domount (ok1 ok2 ok3 ok4 : bool) (d_blocksize : Z) : M sfs_fs Z :=
  locked (
    if negb (d_blocksize =? SFS_BLOCKSIZE) then mret ENXIO else
    ok ← sfs_fs_create ok1 ok2;
    if negb ok then mret ENOMEM else
    r ← sfs_readblock SFS_SUPER_BLOCK;
    match r with
    | Err e => sfs_fs_destroy ;; mret e
    | Ok bs =>
        let sb := super_of bs in
        modify (set_sb sb) ;;
        if negb (sb_magic sb =? SFS_MAGIC) then sfs_fs_destroy ;; mret EINVAL else
        modify (set_sb (terminated sb)) ;;
        b ← (λ s, match Bitmap.bitmap_create ok3 ok4 (SFS_FREEMAPBITS (sb_nblocks sb)) with
                  | Done b => Done (b, s)
                  | Panic => Panic
                  end);
        match b with
        | None => sfs_fs_destroy ;; mret ENOMEM
        | Some b =>
            modify (set_freemap b) ;;
            result ← sfs_freemapio UIO_READ;
            (if negb (result =? 0) then sfs_fs_destroy else mret tt) ;;
            mret result
        end
    end).

End Sfs.
