(* ===== verification/SfsBlocks.v ===== *)
(** * Blocks of an SFS volume (theorems about sfs_io.c, sfs_balloc.c, sfs_bmap.c)

    Block I/O, the allocation of blocks and the map from the blocks of a file to
    the blocks of the disk. *)

From Stdlib Require Import ZArith Lia.
From stdpp Require Import base numbers list gmap.
From S2P Require Import Prelude Bitmap CopyInOut Uio Lhd SfsLayout Sfs.

Module SfsBlocks.
Import CopyInOut Uio Lhd SfsLayout Sfs.

(** ** What a volume holds *)

Definition disk (s : sfs_fs) (b : Z) : option (list Z) := znth (platter (sfs_device s)) b.
Definition inuse (s : sfs_fs) : gset Z := Bitmap.used (sfs_freemap s).
Definition nblocks (s : sfs_fs) : Z := sb_nblocks (sfs_sb s).

(** A volume that can be worked on: the driver is idle, the free block map fits the
    volume and has the superblock and what lies past the end in use, and the thread
    has the big lock.  A 32-bit disk offset reaches every block. *)
Record fs_ok (s : sfs_fs) : Prop := {
  fo_dev : lhd_ok (sfs_device s);
  fo_map : Bitmap.wf (sfs_freemap s);
  fo_nbits : nblocks s ≤ Bitmap.nbits (sfs_freemap s);
  fo_past : ∀ b, nblocks s ≤ b < Bitmap.nbits (sfs_freemap s) → b ∈ inuse s;
  fo_zero : 0 ∈ inuse s;
  fo_size : 0 < nblocks s ≤ d_blocks (sfs_device s) ∧ nblocks s ≤ 2 ^ 23;
  fo_bytes : ∀ b x, disk s b = Some x → Forall is_byte x;
  fo_lock : 0 < biglock s;
}.

(** No media errors are to come. *)
Definition healthy (s : sfs_fs) : Prop := media (sfs_device s) = [].

Lemma disk_is_Some s b : fs_ok s → 0 ≤ b < nblocks s → ∃ x, disk s b = Some x ∧ length x = 512%nat.
Proof.
  intros Hs Hb. pose proof (fo_size _ Hs) as [[_ Hle] _]. pose proof (ok_blocks _ (fo_dev _ Hs)) as [Hd _].
  destruct (znth_is_Some (platter (sfs_device s)) b) as [x Hx]; [lia|].
  exists x. split; [done|]. by eapply (ok_sects _ (fo_dev _ Hs)).
Qed.

(** *** States of the card do not matter *)

Lemma fs_ok_hw s k d :
  fs_ok s → lhd_ok d → d_blocks d = d_blocks (sfs_device s) →
  (∀ b x, znth (platter d) b = Some x → Forall is_byte x) → fs_ok (set_hw k d s).
Proof. intros [] Hd Hb Hx. constructor; try done. simpl. by rewrite Hb. Qed.

Lemma d_blocks_platter d d' :
  lhd_ok d → lhd_ok d' → length (platter d') = length (platter d) → d_blocks d' = d_blocks d.
Proof. intros [_ _ _ [H1 _] _] [_ _ _ [H2 _] _] Hl. by rewrite H1, H2, Hl. Qed.

(** ** Block I/O *)

Lemma wp_in_device {A} (m : M (machine * lhd) A) (Q : A → sfs_fs → Prop) s :
  wp m (λ a kd, Q a (set_hw kd.1 kd.2 s)) (umem s, sfs_device s) → wp (in_device m) Q s.
Proof. unfold wp, in_device. by destruct (m _) as [[a [k d]]|]. Qed.

Lemma set_hw_set_hw k d k' d' s : set_hw k d (set_hw k' d' s) = set_hw k d s.
Proof. done. Qed.
Lemma set_hw_id s : set_hw (umem s) (sfs_device s) s = s.
Proof. by destruct s. Qed.

(** Reading a block into a buffer of the kernel. *)
Lemma wp_lhd_read k d b x Q :
  lhd_ok d → znth (platter d) b = Some x →
  (fails d = true → ∀ d', dev_after d (platter d) d' →
     Q (EIO, mkKbuf [] (replicate 512 0) (b * 512) UIO_READ) (k, d')) →
  (fails d = false → ∀ d', dev_after d (platter d) d' →
     Q (0, mkKbuf x [] (b * 512 + 512) UIO_READ) (k, d')) →
  wp (lhd_io kbuf_xfer (mkKbuf [] (replicate 512 0) (b * 512) UIO_READ)) Q (k, d).
Proof.
  intros Hd Hx Hbad Hgood. pose proof (znth_Some_range _ _ _ Hx) as Hb.
  pose proof (ok_blocks _ Hd) as [Hn _]. pose proof (ok_sects _ Hd _ _ Hx) as Hl.
  apply (wp_lhd_io_one kbuf_xfer _ k d b); [done|lia|done..|]. cbn [is_write kbuf_xfer x_rw kb_rw].
  apply (wp_sector_read kbuf_xfer _ k d b x); [done..|]. intros Hf. cbn [kbuf_xfer x_move].
  unfold kbuf_move. change (kb_resid _) with 512. change (Z.to_nat (Z.min LHD_SECTSIZE 512)) with 512%nat.
  cbn [kb_rw kb_todo kb_offset kb_done]. apply wp_ret. intros d' Hd'.
  rewrite take_ge by lia. by apply Hgood.
Qed.

(** Writing a block from a buffer of the kernel: the buffer is used up, also when the
    operation fails. *)
Lemma wp_lhd_write k d b x data Q :
  lhd_ok d → znth (platter d) b = Some x → length data = 512%nat →
  (∀ d', dev_after d (if fails d then platter d else zset (platter d) b data) d' →
     Q (if fails d then EIO else 0, mkKbuf data [] (b * 512 + 512) UIO_WRITE) (k, d')) →
  wp (lhd_io kbuf_xfer (mkKbuf [] data (b * 512) UIO_WRITE)) Q (k, d).
Proof.
  intros Hd Hx Hlen HQ. pose proof (znth_Some_range _ _ _ Hx) as Hb.
  pose proof (ok_blocks _ Hd) as [Hn _].
  apply (wp_lhd_io_one kbuf_xfer _ k d b); [done|lia|done|..].
  { simpl. unfold kb_resid. simpl. by rewrite Hlen. }
  cbn [is_write kbuf_xfer x_rw kb_rw].
  apply (wp_sector_write kbuf_xfer _ k d b x); [done..|]. cbn [kbuf_xfer x_move].
  unfold kbuf_move, kb_resid. cbn [kb_rw kb_todo kb_offset kb_done]. rewrite Hlen.
  change (Z.to_nat (Z.min LHD_SECTSIZE (Z.of_nat 512))) with 512%nat. apply wp_ret.
  rewrite take_ge, !drop_ge by (rewrite ?(ok_buf _ Hd); lia). rewrite app_nil_r.
  split_and!; try done.
Qed.

(** The card after operations that leave [p] on the disk. *)
Definition dev_with (d : lhd) (p : list (list Z)) (d' : lhd) : Prop :=
  lhd_ok d' ∧ platter d' = p ∧ (media d = [] → media d' = []).

Lemma dev_after_with d p d' : dev_after d p d' → dev_with d p d'.
Proof. intros [H1 H2 H3]. split_and!; [done..|]. intros Hm. by rewrite H3, Hm. Qed.

Lemma dev_with_trans d p d1 q d2 : dev_with d p d1 → dev_with d1 q d2 → dev_with d q d2.
Proof. intros (H1 & H2 & H3) (H4 & H5 & H6). split_and!; auto. Qed.

Lemma wp_lock_held (Q : bool → sfs_fs → Prop) s : 0 < biglock s → Q true s → wp vfs_biglock_do_i_hold Q s.
Proof.
  intros Hl HQ. unfold vfs_biglock_do_i_hold. wp_go. destruct (Z.gtb_spec (biglock s) 0); [done|lia].
Qed.

(** One attempt. *)
Lemma wp_rw_try {U} (X : xfer U) n (u : U) s (Q : Z * U → sfs_fs → Prop) :
  wp (lhd_io X u) (λ r kd, let s' := set_hw kd.1 kd.2 s in
    r.1 ≠ EINVAL ∧
    if decide (r.1 = EIO) then
      match n with S n' => wp (rw_try X n' r.2) Q s' | O => Q r s' end
    else Q r s') (umem s, sfs_device s) →
  wp (rw_try X n u) Q s.
Proof.
  intros Hio. destruct n as [|n]; cbn [rw_try]; apply wp_bind, wp_in_device;
    (eapply wp_mono; [|exact Hio]); intros [r u'] kd [Hne Hr]; simpl in *;
    (destruct (Z.eqb_spec r EINVAL); [done|]); destruct (decide (r = EIO)) as [->|]; simpl; wp_go; try done;
    (destruct (Z.eqb_spec r EIO); [done|]); by wp_go.
Qed.

(** A read gets the block, or gives up after many media errors. *)
Lemma wp_read_try n s b x (Q : Z * kbuf → sfs_fs → Prop) :
  lhd_ok (sfs_device s) → disk s b = Some x →
  (∀ d', dev_with (sfs_device s) (platter (sfs_device s)) d' →
     Q (0, mkKbuf x [] (b * 512 + 512) UIO_READ) (set_hw (umem s) d' s)) →
  (∀ d' k, ¬ healthy s → dev_with (sfs_device s) (platter (sfs_device s)) d' →
     Q (EIO, k) (set_hw (umem s) d' s)) →
  wp (rw_try kbuf_xfer n (mkKbuf [] (replicate 512 0) (b * 512) UIO_READ)) Q s.
Proof.
  revert s. induction n as [|n IH]; intros s Hd Hx Hgood Hbad; apply wp_rw_try;
    (apply (wp_lhd_read _ _ _ x); [done..|intros Hf d' Hd'|intros _ d' Hd'%dev_after_with; simpl; split; [done|by apply Hgood]]);
    assert (¬ healthy s) as Hh by (intros Hh; unfold fails in Hf; simpl in Hf; by rewrite Hh in Hf);
    pose proof (dev_after_with _ _ _ Hd') as Hw; simpl; (split; [done|]).
  - by apply Hbad.
  - apply IH; simpl.
    + apply Hd'.
    + unfold disk. simpl. by rewrite (da_platter _ _ _ Hd').
    + intros d2 Hd2. apply Hgood. rewrite (da_platter _ _ _ Hd') in Hd2. by eapply dev_with_trans.
    + intros d2 k _ Hd2. apply Hbad; [done|]. rewrite (da_platter _ _ _ Hd') in Hd2.
      by eapply dev_with_trans.
Qed.

Lemma wp_readblock s b x (Q : result (list Z) → sfs_fs → Prop) :
  fs_ok s → disk s b = Some x →
  (∀ d', dev_with (sfs_device s) (platter (sfs_device s)) d' → Q (Ok x) (set_hw (umem s) d' s)) →
  (∀ d', ¬ healthy s → dev_with (sfs_device s) (platter (sfs_device s)) d' →
     Q (Err EIO) (set_hw (umem s) d' s)) →
  wp (sfs_readblock b) Q s.
Proof.
  intros Hs Hx Hgood Hbad. unfold sfs_readblock, sfs_rwblock. wp_go.
  apply wp_lock_held; [apply Hs|]. wp_check. apply (wp_read_try 10 s b x); [apply Hs|done|..].
  - intros d' Hd'. wp_go. simpl. rewrite app_nil_r. by apply Hgood.
  - intros d' k Hh Hd'. wp_go. by apply Hbad.
Qed.

(** Without media errors a write replaces the block. *)
Lemma wp_writeblock s b x data (Q : Z → sfs_fs → Prop) :
  fs_ok s → healthy s → disk s b = Some x → length data = 512%nat →
  (∀ d', dev_with (sfs_device s) (zset (platter (sfs_device s)) b data) d' →
     Q 0 (set_hw (umem s) d' s)) →
  wp (sfs_writeblock b data) Q s.
Proof.
  intros Hs Hh Hx Hlen HQ. unfold sfs_writeblock, sfs_rwblock. rewrite Hlen. wp_check.
  apply wp_lock_held; [apply Hs|]. wp_check. apply wp_rw_try.
  apply (wp_lhd_write _ _ _ x); [apply Hs|done..|]. unfold fails. rewrite Hh. simpl.
  intros d' Hd'%dev_after_with. split; [done|]. wp_go. by apply HQ.
Qed.

(** When the first attempt to write meets a media error, nothing is written, and the
    retry, for which the buffer is already used up, reports success. *)
Lemma write_error_dropped s b x data l :
  fs_ok s → disk s b = Some x → length data = 512%nat → media (sfs_device s) = true :: l →
  wp (sfs_writeblock b data) (λ r s', r = 0 ∧ ∀ c, disk s' c = disk s c) s.
Proof.
  intros Hs Hx Hlen Hm. pose proof (fo_dev _ Hs) as Hd. pose proof (znth_Some_range _ _ _ Hx) as Hb.
  pose proof (ok_blocks _ Hd) as [Hn1 Hn2].
  unfold sfs_writeblock, sfs_rwblock. rewrite Hlen. wp_check.
  apply wp_lock_held; [apply Hs|]. wp_check. apply wp_rw_try.
  apply (wp_lhd_write _ _ _ x); [done..|]. unfold fails. rewrite Hm. cbn [default head fst snd].
  intros d' Hd'. split; [done|]. cbn [decide]. apply wp_rw_try. unfold wp at 1. simpl.
  rewrite (lhd_io_none kbuf_xfer _ _ d' (b + 1)).
  - simpl. split; [done|]. wp_go. split; [done|]. intros c. unfold disk. simpl. by rewrite (da_platter _ _ _ Hd').
  - pose proof (ok_blocks _ (da_ok _ _ _ Hd')) as [-> _]. rewrite (da_platter _ _ _ Hd'). lia.
  - apply (ok_blocks _ (da_ok _ _ _ Hd')).
  - simpl. lia.
  - done.
Qed.

(** *** The volume after block I/O *)

(** What no operation on files changes. *)
Record same_vol (s s' : sfs_fs) : Prop := {
  sv_sb : sfs_sb s' = sfs_sb s;
  sv_super : sfs_superdirty s' = sfs_superdirty s;
  sv_vnodes : sfs_vnodes s' = sfs_vnodes s;
  sv_lock : biglock s' = biglock s;
}.

Lemma same_vol_refl s : same_vol s s.
Proof. done. Qed.
Lemma same_vol_trans s s1 s2 : same_vol s s1 → same_vol s1 s2 → same_vol s s2.
Proof. intros [] []. constructor; congruence. Qed.
Lemma same_vol_hw s k d : same_vol s (set_hw k d s).
Proof. done. Qed.

Lemma after_read s d' :
  fs_ok s → dev_with (sfs_device s) (platter (sfs_device s)) d' →
  fs_ok (set_hw (umem s) d' s) ∧ (healthy s → healthy (set_hw (umem s) d' s)) ∧
  ∀ c, disk (set_hw (umem s) d' s) c = disk s c.
Proof.
  intros Hs (Hd & Hp & Hm). split_and!.
  - apply fs_ok_hw; [done..| |].
    + apply d_blocks_platter; [apply Hs|done|]. by rewrite Hp.
    + rewrite Hp. apply (fo_bytes _ Hs).
  - exact Hm.
  - intros c. unfold disk. simpl. by rewrite Hp.
Qed.

Lemma after_write s b x data d' :
  fs_ok s → disk s b = Some x → Forall is_byte data →
  dev_with (sfs_device s) (zset (platter (sfs_device s)) b data) d' →
  fs_ok (set_hw (umem s) d' s) ∧ (healthy s → healthy (set_hw (umem s) d' s)) ∧
  ∀ c, disk (set_hw (umem s) d' s) c = if decide (c = b) then Some data else disk s c.
Proof.
  intros Hs Hx%znth_Some_range Hdata (Hd & Hp & Hm).
  assert (∀ c, disk (set_hw (umem s) d' s) c = if decide (c = b) then Some data else disk s c) as Hdisk.
  { intros c. unfold disk. simpl. rewrite Hp. destruct (decide (c = b)) as [->|].
    - by apply znth_zset_eq.
    - apply znth_zset_ne; [lia|done]. }
  split_and!; [|exact Hm|done]. apply fs_ok_hw; [done..| |].
  - apply d_blocks_platter; [apply Hs|done|]. by rewrite Hp, length_zset.
  - intros c y Hy. specialize (Hdisk c). unfold disk in Hdisk. simpl in Hdisk. rewrite Hy in Hdisk.
    destruct (decide (c = b)); [congruence|]. by eapply (fo_bytes _ Hs).
Qed.

(** ** Allocation *)

Lemma wp_in_freemap {A} (m : M Bitmap.bitmap A) (Q : A → sfs_fs → Prop) s :
  wp m (λ a b, Q a (set_freemap b s)) (sfs_freemap s) → wp (in_freemap m) Q s.
Proof. unfold wp, in_freemap. by destruct (m _) as [[a b]|]. Qed.

Lemma fs_ok_map s b :
  fs_ok s → Bitmap.wf b → Bitmap.nbits b = Bitmap.nbits (sfs_freemap s) →
  (∀ c, c ∈ inuse s → c = 0 ∨ nblocks s ≤ c → c ∈ Bitmap.used b) → fs_ok (set_freemap b s).
Proof.
  intros [] Hwf Hn Hk. constructor; try done; simpl.
  - unfold nblocks in *. simpl. by rewrite Hn.
  - unfold nblocks, inuse in *. simpl in *. rewrite Hn. intros c Hc. apply Hk; [by apply fo_past0|right; lia].
  - unfold inuse. simpl. apply Hk; [done|by left].
Qed.

Lemma fs_ok_dirty s x : fs_ok s → fs_ok (set_freemapdirty x s).
Proof. by intros []. Qed.

Definition zeros : list Z := replicate 512 0.

Lemma wp_balloc s (Q : result Z → sfs_fs → Prop) :
  fs_ok s → healthy s →
  (∀ s', fs_ok s' → healthy s' → same_vol s s' → svs s' = svs s → umem s' = umem s →
     inuse s' = inuse s → (∀ c, disk s' c = disk s c) →
     (∀ b, 0 ≤ b < nblocks s → b ∈ inuse s) → Q (Err ENOSPC) s') →
  (∀ b s', fs_ok s' → healthy s' → same_vol s s' → svs s' = svs s → umem s' = umem s →
     0 < b < nblocks s → b ∉ inuse s → inuse s' = {[b]} ∪ inuse s →
     (∀ c, disk s' c = if decide (c = b) then Some zeros else disk s c) → Q (Ok b) s') →
  wp sfs_balloc Q s.
Proof.
  intros Hs Hh Hfull Hgot. unfold sfs_balloc. apply wp_bind, wp_in_freemap.
  eapply wp_mono; [|apply Bitmap.bitmap_alloc_correct, Hs].
  intros [b|e] m (Hwf & Hnb & Hr); wp_go.
  - destruct Hr as (Hb & Hnew & Hused & _). fold (inuse s) in Hnew, Hused.
    assert (0 < b < nblocks s) as Hb'.
    { split.
      - destruct (decide (b = 0)) as [->|]; [|lia]. by destruct (Hnew (fo_zero _ Hs)).
      - destruct (decide (nblocks s ≤ b)); [|lia]. destruct Hnew. apply (fo_past _ Hs). lia. }
    set (s1 := set_freemapdirty true (set_freemap m s)).
    assert (fs_ok s1) as Hs1.
    { apply fs_ok_dirty, fs_ok_map; [done..|]. intros c Hc _. rewrite Hused. set_solver. }
    change (sb_nblocks (sfs_sb _)) with (nblocks s). destruct (Z.geb_spec b (nblocks s)); [lia|].
    wp_check. unfold sfs_clearblock.
    destruct (disk_is_Some s1 b Hs1) as (x & Hx & _); [change (nblocks s1) with (nblocks s); lia|].
    eapply wp_writeblock; [done|done|done|done|]. intros d' Hd'. wp_go.
    destruct (after_write s1 b x zeros d') as (H1 & H2 & H3); [done|done| |done|].
    { unfold zeros. apply Forall_replicate. unfold is_byte. lia. }
    apply Hgot; try done. by apply H2.
  - destruct Hr as (-> & -> & Hall). apply Hfull; try done.
    + by destruct s.
    + intros b Hb. apply Hall. pose proof (fo_nbits _ Hs). lia.
Qed.

Lemma wp_bfree s b (Q : unit → sfs_fs → Prop) :
  fs_ok s → b ∈ inuse s → 0 < b < nblocks s →
  (∀ s', fs_ok s' → (healthy s → healthy s') → same_vol s s' → svs s' = svs s → umem s' = umem s →
     inuse s' = inuse s ∖ {[b]} → (∀ c, disk s' c = disk s c) → Q tt s') →
  wp (sfs_bfree b) Q s.
Proof.
  intros Hs Hin Hb HQ. unfold sfs_bfree. apply wp_bind, wp_in_freemap.
  eapply wp_mono; [|apply Bitmap.bitmap_unmark_correct; [apply Hs|done]].
  intros [] m (Hwf & Hnb & Hused). wp_go. fold (inuse s) in Hused. apply HQ; try done.
  apply fs_ok_dirty, fs_ok_map; [done..|]. intros c Hc Hor. rewrite Hused.
  apply elem_of_difference. split; [done|]. rewrite elem_of_singleton. intros ->. lia.
Qed.

Lemma wp_bused s b (Q : bool → sfs_fs → Prop) :
  fs_ok s → 0 ≤ b < nblocks s → (∀ r, (r = true ↔ b ∈ inuse s) → Q r s) → wp (sfs_bused b) Q s.
Proof.
  intros Hs Hb HQ. unfold sfs_bused. wp_go. change (sb_nblocks (sfs_sb s)) with (nblocks s).
  destruct (Z.geb_spec b (nblocks s)); [lia|]. wp_check. apply wp_in_freemap.
  eapply wp_mono; [|apply Bitmap.bitmap_isset_correct; [apply Hs|pose proof (fo_nbits _ Hs); lia]].
  intros r m [-> Hr]. wp_go. replace (set_freemap (sfs_freemap s) s) with s by (by destruct s).
  apply HQ. rewrite <- Hr. destruct (Z.eqb_spec r 0); simpl; naive_solver.
Qed.

Lemma wp_hand_back s b (Q : result Z → sfs_fs → Prop) :
  fs_ok s → (b ≠ 0 → 0 ≤ b < nblocks s ∧ b ∈ inuse s) → Q (Ok b) s → wp (hand_back b) Q s.
Proof.
  intros Hs Hb HQ. unfold hand_back. destruct (Z.eqb_spec b 0) as [->|Hne]; [by wp_go|].
  destruct (Hb Hne) as [Hr Hin]. wp_go. apply wp_bused; [done..|]. intros r Hr'.
  rewrite (proj2 Hr' Hin). wp_check. done.
Qed.

End SfsBlocks.
