(* ===== verification/SfsMap.v ===== *)
(** * The blocks of a file (theorems about sfs_bmap.c)

    Which disk blocks a file owns, what it contains, and that [sfs_bmap] finds and
    adds blocks without changing the contents of this or any other file. *)

From Stdlib Require Import ZArith Lia.
From stdpp Require Import base numbers list gmap.
From S2P Require Import Prelude Bitmap CopyInOut Uio Lhd SfsLayout Sfs SfsBlocks.

Module SfsMap.
Import CopyInOut Uio Lhd SfsLayout Sfs SfsBlocks.

(** ** Files *)

(** How many blocks a file can have. *)
Definition MAXBLOCKS : Z := 143.

(** The entries of the indirect block; all zero when there is none. *)
Definition idwords (s : sfs_fs) (d : sfs_dinode) : list Z :=
  if sfi_indirect d =? 0 then replicate 128 0
  else default [] (words_of_bytes <$> disk s (sfi_indirect d)).

(** The disk block of block [n] of the file, 0 if there is none. *)
Definition fblock (s : sfs_fs) (d : sfs_dinode) (n : Z) : Z :=
  if n <? 15 then default 0 (znth (sfi_direct d) n) else default 0 (znth (idwords s d) (n - 15)).

(** The blocks of the file, with the indirect block. *)
Definition own (s : sfs_fs) (d : sfs_dinode) (b : Z) : Prop :=
  b ≠ 0 ∧ (b = sfi_indirect d ∨ ∃ n, 0 ≤ n < MAXBLOCKS ∧ fblock s d n = b).

(** All its blocks are allocated, and each is used for one thing. *)
Record file_ok (s : sfs_fs) (d : sfs_dinode) : Prop := {
  f_inode : dinode_ok d;
  f_own : ∀ b, own s d b → 0 < b < nblocks s ∧ b ∈ inuse s;
  f_inj : ∀ n m, 0 ≤ n < MAXBLOCKS → 0 ≤ m < MAXBLOCKS → fblock s d n = fblock s d m →
    fblock s d n ≠ 0 → n = m;
  f_ind : ∀ n, 0 ≤ n < MAXBLOCKS → fblock s d n ≠ 0 → fblock s d n ≠ sfi_indirect d;
}.

(** Byte [i] of the file, also past its size: 0 where there is no block. *)
Definition content (s : sfs_fs) (d : sfs_dinode) (i : Z) : Z :=
  let b := fblock s d (i / 512) in
  if b =? 0 then 0 else default 0 (disk s b ≫= λ x, znth x (i mod 512)).

(** The fields that block mapping does not touch. *)
Definition same_meta (d d' : sfs_dinode) : Prop :=
  sfi_size d' = sfi_size d ∧ sfi_type d' = sfi_type d ∧ sfi_linkcount d' = sfi_linkcount d.

(** A step of an operation on the file of vnode [v], [sv] before and [sv'] after:
    other files cannot tell, because the blocks that are in use and not of this file
    stay so and keep their contents.  A changed inode is dirty. *)
Record file_step (v : positive) (s s' : sfs_fs) (sv sv' : sfs_vnode) : Prop := {
  st_ok : fs_ok s';
  st_healthy : healthy s → healthy s';
  st_vol : same_vol s s';
  st_svs : svs s' = <[v := sv']> (svs s);
  st_file : file_ok s' (sv_i sv');
  st_ids : sv_ino sv' = sv_ino sv ∧ vn_refcount sv' = vn_refcount sv ∧ vn_ops sv' = vn_ops sv;
  st_dirty : sv' = sv ∨ sv_dirty sv' = true;
  st_others : ∀ b, b ∈ inuse s → ¬ own s (sv_i sv) b →
    b ∈ inuse s' ∧ ¬ own s' (sv_i sv') b ∧ disk s' b = disk s b;
}.

Lemma file_step_trans v s s1 s2 sv sv1 sv2 :
  file_step v s s1 sv sv1 → file_step v s1 s2 sv1 sv2 → file_step v s s2 sv sv2.
Proof.
  intros [A1 A2 A3 A4 A5 A6 A7 A8] [B1 B2 B3 B4 B5 B6 B7 B8]. constructor; try done.
  - auto.
  - by eapply same_vol_trans.
  - rewrite B4, A4. apply insert_insert_eq.
  - naive_solver congruence.
  - destruct B7 as [->|]; [done|by right].
  - intros b Hb Ho. destruct (A8 b Hb Ho) as (H1 & H2 & H3). destruct (B8 b H1 H2) as (? & ? & ?).
    split_and!; [done..|congruence].
Qed.

(** Nothing but the card changes. *)
Lemma own_disk s s' d : (∀ c, disk s' c = disk s c) → ∀ b, own s' d b ↔ own s d b.
Proof. intros Hd b. unfold own, fblock, idwords. by rewrite Hd. Qed.

Lemma fblock_disk s s' d n : disk s' (sfi_indirect d) = disk s (sfi_indirect d) → fblock s' d n = fblock s d n.
Proof. intros Hd. unfold fblock, idwords. by rewrite Hd. Qed.

Lemma content_disk s s' d i : (∀ c, disk s' c = disk s c) → content s' d i = content s d i.
Proof. intros Hd. unfold content. rewrite (fblock_disk s s') by done. by rewrite Hd. Qed.

Lemma file_ok_disk s s' d :
  (∀ c, disk s' c = disk s c) → inuse s' = inuse s → nblocks s' = nblocks s → file_ok s d → file_ok s' d.
Proof.
  intros Hd Hu Hn [H1 H2 H3 H4]. constructor; [done| | |].
  - intros b Hb%(own_disk s s' d Hd). rewrite Hu, Hn. by apply H2.
  - intros n m. rewrite !(fblock_disk s s') by done. apply H3.
  - intros n. rewrite !(fblock_disk s s') by done. apply H4.
Qed.

Lemma same_vol_nblocks s s' : same_vol s s' → nblocks s' = nblocks s.
Proof. intros [H _ _ _]. unfold nblocks. by rewrite H. Qed.

Lemma file_step_same v s s' sv :
  svs s !! v = Some sv → file_ok s (sv_i sv) →
  fs_ok s' → (healthy s → healthy s') → same_vol s s' → svs s' = svs s → inuse s' = inuse s →
  (∀ c, disk s' c = disk s c) → file_step v s s' sv sv.
Proof.
  intros Hv Hf Hs Hh Hvol Hsv Hu Hd. constructor; try done.
  - rewrite Hsv. by rewrite insert_id.
  - eapply file_ok_disk; [done..| |done]. by apply same_vol_nblocks.
  - by left.
  - intros b Hb Ho. rewrite Hu, (own_disk s s' _ Hd). done.
Qed.

(** *** Block numbers *)

Lemma fblock_direct s d n : dinode_ok d → 0 ≤ n < 15 → ∃ b, znth (sfi_direct d) n = Some b ∧ fblock s d n = b ∧ is_word b.
Proof.
  intros Hd Hn. pose proof (di_direct _ Hd) as [Hl Hw].
  destruct (znth_is_Some (sfi_direct d) n) as [b Hb]; [lia|]. exists b. split_and!; [done| |].
  - unfold fblock. destruct (Z.ltb_spec n 15); [|lia]. by rewrite Hb.
  - apply znth_elem in Hb. by eapply Forall_forall in Hw.
Qed.

Lemma idwords_ok s d :
  fs_ok s → file_ok s d → length (idwords s d) = 128%nat ∧ Forall is_word (idwords s d).
Proof.
  intros Hs Hf. unfold idwords. destruct (Z.eqb_spec (sfi_indirect d) 0) as [Hz|Hz].
  - split; [apply length_replicate|]. apply Forall_replicate. unfold is_word. lia.
  - destruct (f_own _ _ Hf (sfi_indirect d)) as [Hb _]; [split; [done|by left]|].
    destruct (disk_is_Some s (sfi_indirect d) Hs) as (x & Hx & Hl); [lia|]. rewrite Hx. simpl. split.
    + apply length_words_of_bytes. lia.
    + by apply words_of_bytes_ok, (fo_bytes _ Hs _ _ Hx).
Qed.

Lemma fblock_indirect s d n :
  fs_ok s → file_ok s d → 15 ≤ n < MAXBLOCKS →
  ∃ b, znth (idwords s d) (n - 15) = Some b ∧ fblock s d n = b ∧ is_word b.
Proof.
  unfold MAXBLOCKS. intros Hs Hf Hn. destruct (idwords_ok s d Hs Hf) as [Hl Hw].
  destruct (znth_is_Some (idwords s d) (n - 15)) as [b Hb]; [lia|]. exists b. split_and!; [done| |].
  - unfold fblock. destruct (Z.ltb_spec n 15); [lia|]. by rewrite Hb.
  - apply znth_elem in Hb. by eapply Forall_forall in Hw.
Qed.

Lemma fblock_past s d n : fs_ok s → file_ok s d → MAXBLOCKS ≤ n → fblock s d n = 0.
Proof.
  unfold MAXBLOCKS. intros Hs Hf Hn. destruct (idwords_ok s d Hs Hf) as [Hl _].
  unfold fblock. destruct (Z.ltb_spec n 15); [lia|].
  destruct (znth (idwords s d) (n - 15)) as [b|] eqn:Hb; [|done].
  apply znth_Some_range in Hb. lia.
Qed.

Lemma fblock_no_indirect s d n : sfi_indirect d = 0 → 15 ≤ n < MAXBLOCKS → fblock s d n = 0.
Proof.
  unfold MAXBLOCKS, fblock, idwords. intros -> Hn. destruct (Z.ltb_spec n 15); [lia|].
  change (0 =? 0) with true. cbv iota. by rewrite znth_replicate by lia.
Qed.

(** ** Adding a block *)

Section add.
Context (s s' : sfs_fs) (d d' : sfs_dinode) (b : Z).
Hypothesis Hf : file_ok s d.
Hypothesis Hd' : dinode_ok d'.
Hypothesis Hn : nblocks s' = nblocks s.
Hypothesis Hb : 0 < b < nblocks s.
Hypothesis Hnew : b ∉ inuse s.
Hypothesis Hused : inuse s' = {[b]} ∪ inuse s.

Lemma own_ne c : own s d c → c ≠ b.
Proof using Hf Hnew. intros Ho ->. by apply Hnew, (f_own _ _ Hf). Qed.

Definition others_kept : Prop := ∀ c, c ∈ inuse s → ¬ own s d c →
  c ∈ inuse s' ∧ ¬ own s' d' c ∧ disk s' c = disk s c.

(** [b] becomes block [n] of the file.  The indirect block may have been rewritten. *)
Lemma add_block n :
  0 ≤ n < MAXBLOCKS → fblock s d n = 0 → sfi_indirect d' = sfi_indirect d →
  (∀ m, 0 ≤ m < MAXBLOCKS → fblock s' d' m = if decide (m = n) then b else fblock s d m) →
  (∀ m, MAXBLOCKS ≤ m → fblock s' d' m = 0 ∧ fblock s d m = 0) →
  disk s' b = Some zeros → (∀ c, c ≠ b → c = 0 ∨ c ≠ sfi_indirect d → disk s' c = disk s c) →
  file_ok s' d' ∧ (∀ i, 0 ≤ i → content s' d' i = content s d i) ∧ others_kept.
Proof using Hf Hd' Hn Hb Hnew Hused.
  intros Hrange Hzero Hind Hmap Hpast Hz Hdisk.
  assert (∀ m, 0 ≤ m < MAXBLOCKS → fblock s d m ≠ 0 → own s d (fblock s d m)) as Hown
    by (intros m Hm ?; split; [done|right; by exists m]).
  assert (∀ c, own s' d' c → c = b ∨ own s d c) as Hback.
  { intros c [Hc [->|(m & Hm & Hmc)]]; [right; split; [done|left; congruence]|].
    rewrite Hmap in Hmc by done. destruct (decide (m = n)); [by left|]. right. split; [done|].
    right. by exists m. }
  split_and!; [constructor; [done|..]|..].
  - intros c [->|Ho]%Hback; rewrite Hn, Hused; [set_solver|].
    destruct (f_own _ _ Hf c Ho). set_solver.
  - intros m1 m2 H1 H2. rewrite !Hmap by done.
    destruct (decide (m1 = n)) as [->|], (decide (m2 = n)) as [->|]; [done|..].
    + intros Heq _. destruct (own_ne (fblock s d m2)); [|done]. apply Hown; [done|lia].
    + intros Heq Hne. by destruct (own_ne (fblock s d m1)); [apply Hown|].
    + by apply (f_inj _ _ Hf).
  - intros m Hm. rewrite Hmap, Hind by done. destruct (decide (m = n)) as [->|]; [|by apply (f_ind _ _ Hf)].
    intros Hne Heq. destruct (own_ne (sfi_indirect d)); [|done]. split; [lia|by left].
  - intros i Hi. unfold content. destruct (decide (i / 512 < MAXBLOCKS)) as [Hlt|Hge].
    + rewrite Hmap by (split; [by apply Z.div_pos|done]). destruct (decide (i / 512 = n)) as [->|Hne].
      * rewrite Hzero. destruct (Z.eqb_spec b 0) as [|_]; [lia|]. rewrite Hz. simpl. unfold zeros.
        rewrite znth_replicate; [done|]. pose proof (Z.mod_pos_bound i 512). lia.
      * destruct (Z.eqb_spec (fblock s d (i / 512)) 0) as [|Hnz]; [done|]. rewrite Hdisk; [done|..].
        -- apply own_ne, Hown; [|done]. split; [by apply Z.div_pos|done].
        -- right. apply (f_ind _ _ Hf); [|done]. split; [by apply Z.div_pos|done].
    + destruct (Hpast (i / 512)) as [-> ->]; [lia|done].
  - intros c Hc Ho. assert (c ≠ b) by (by intros ->). split_and!; [set_solver| |].
    + by intros [?|?]%Hback.
    + apply Hdisk; [done|]. destruct (decide (c = 0)); [by left|right]. intros ->. apply Ho.
      split; [done|by left].
Qed.
End add.

(** The indirect block comes into being, with no entries. *)
Lemma add_indirect s s' d b :
  fs_ok s → file_ok s d → sfi_indirect d = 0 → nblocks s' = nblocks s → 0 < b < nblocks s → nblocks s < 2 ^ 32 →
  b ∉ inuse s → inuse s' = {[b]} ∪ inuse s →
  disk s' b = Some zeros → (∀ c, c ≠ b → disk s' c = disk s c) →
  file_ok s' (with_indirect b d) ∧ (∀ i, 0 ≤ i → content s' (with_indirect b d) i = content s d i) ∧
  (∀ n, fblock s' (with_indirect b d) n = fblock s d n) ∧ others_kept s s' d (with_indirect b d).
Proof.
  intros Hs Hf Hi Hn Hb Hsm Hnew Hused Hz Hdisk.
  assert (∀ n, fblock s' (with_indirect b d) n = fblock s d n) as Hmap.
  { intros n. unfold fblock. destruct (n <? 15); [done|]. unfold idwords. simpl. rewrite Hi. simpl.
    destruct (Z.eqb_spec b 0); [lia|]. by rewrite Hz. }
  assert (∀ c, own s' (with_indirect b d) c → c = b ∨ own s d c) as Hback.
  { intros c [Hc [->|(m & Hm & Hmc)]]; [by left|]. rewrite Hmap in Hmc. right. split; [done|]. right. by exists m. }
  assert (∀ n, 0 ≤ n < MAXBLOCKS → fblock s d n ≠ 0 → fblock s d n ≠ b) as Hne.
  { intros n Hnr Hnz Heq. apply Hnew, (f_own _ _ Hf). split; [lia|]. right. by exists n. }
  split_and!; [constructor|..|done|].
  - destruct (f_inode _ _ Hf). constructor; try done. simpl. unfold is_word. lia.
  - intros c [->|Ho]%Hback; rewrite Hn, Hused; [set_solver|]. destruct (f_own _ _ Hf c Ho). set_solver.
  - intros n m. rewrite !Hmap. apply (f_inj _ _ Hf).
  - intros n. rewrite !Hmap. simpl. apply Hne.
  - intros i Hi0. unfold content. rewrite Hmap.
    destruct (Z.eqb_spec (fblock s d (i / 512)) 0) as [|Hnz]; [done|].
    rewrite Hdisk; [done|]. apply Hne; [|done]. split; [by apply Z.div_pos|].
    destruct (decide (i / 512 < MAXBLOCKS)) as [|Hge]; [done|]. destruct Hnz.
    apply fblock_past; [done|done|lia].
  - intros c Hc Ho. assert (c ≠ b) by (by intros ->). split_and!; [set_solver| |by apply Hdisk].
    by intros [?|?]%Hback.
Qed.

(** ** [sfs_bmap] *)

Lemma wp_get_sv v s sv (Q : sfs_vnode → sfs_fs → Prop) : svs s !! v = Some sv → Q sv s → wp (get_sv v) Q s.
Proof. intros Hv HQ. unfold get_sv. wp_go. by eapply wp_deref. Qed.

Definition dirtied (sv : sfs_vnode) (d : sfs_dinode) : sfs_vnode :=
  mkSv d (sv_ino sv) true (vn_refcount sv) (vn_ops sv).

Lemma wp_set_inode v s sv f (Q : unit → sfs_fs → Prop) :
  svs s !! v = Some sv → Q tt (set_svs (<[v := dirtied sv (f (sv_i sv))]> (svs s)) s) → wp (set_inode v f) Q s.
Proof. intros Hv HQ. unfold set_inode. wp_go. eapply wp_get_sv; [done|]. unfold put_sv. by wp_go. Qed.

Lemma fs_ok_svs s x : fs_ok s → fs_ok (set_svs x s).
Proof. by intros []. Qed.

(** What block mapping promises. *)
Definition bmap_post (v : positive) (s : sfs_fs) (sv : sfs_vnode) (n : Z) (doalloc : bool)
    (r : result Z) (s' : sfs_fs) : Prop :=
  ∃ sv', file_step v s s' sv sv' ∧ umem s' = umem s ∧ same_meta (sv_i sv) (sv_i sv') ∧
    (∀ i, 0 ≤ i → content s' (sv_i sv') i = content s (sv_i sv) i) ∧
    (doalloc = false → sv' = sv ∧ inuse s' = inuse s ∧ ∀ c, disk s' c = disk s c) ∧
    match r with
    | Ok b => n < MAXBLOCKS ∧ fblock s' (sv_i sv') n = b ∧ (doalloc = true → b ≠ 0)
    | Err e => e = EFBIG ∧ MAXBLOCKS ≤ n ∨ doalloc = true ∧ e = ENOSPC ∧ fblock s (sv_i sv) n = 0 ∨ e = EIO ∧ ¬ healthy s
    end.

Section bmap.
Context (v : positive) (sv : sfs_vnode).

(** Nothing has changed. *)
Lemma bmap_post_same s s' n doalloc r :
  svs s !! v = Some sv → file_ok s (sv_i sv) → fs_ok s' → (healthy s → healthy s') → same_vol s s' →
  svs s' = svs s → umem s' = umem s → inuse s' = inuse s → (∀ c, disk s' c = disk s c) →
  match r with
  | Ok b => n < MAXBLOCKS ∧ fblock s (sv_i sv) n = b ∧ (doalloc = true → b ≠ 0)
  | Err e => e = EFBIG ∧ MAXBLOCKS ≤ n ∨ doalloc = true ∧ e = ENOSPC ∧ fblock s (sv_i sv) n = 0 ∨ e = EIO ∧ ¬ healthy s
  end → bmap_post v s sv n doalloc r s'.
Proof.
  intros Hv Hf Hs Hh Hvol Hsv Hm Hu Hd Hr. exists sv. split_and!; try done.
  - by apply file_step_same.
  - intros i _. by apply content_disk.
  - destruct r as [b|e]; [|done]. destruct Hr as (? & ? & ?). split_and!; try done.
    by rewrite (fblock_disk s s').
Qed.

(** The step to a changed inode. *)
Lemma file_step_dirtied s s' d' :
  fs_ok s' → (healthy s → healthy s') → same_vol s s' → svs s' = <[v := dirtied sv d']> (svs s) →
  file_ok s' d' → others_kept s s' (sv_i sv) d' → file_step v s s' sv (dirtied sv d').
Proof. intros. constructor; try done. by right. Qed.
Lemma with_direct_ok d n b : dinode_ok d → 0 ≤ n < 15 → is_word b → dinode_ok (with_direct (zset (sfi_direct d) n b) d).
Proof.
  intros [H1 H2 H3 [H4 H5] H6 H7] Hn Hb. constructor; try done. simpl. rewrite length_zset.
  split; [done|]. unfold zset. by apply Forall_insert.
Qed.

Lemma fblock_with_direct s s' d n b m :
  dinode_ok d → 0 ≤ n < 15 → (sfi_indirect d ≠ 0 → disk s' (sfi_indirect d) = disk s (sfi_indirect d)) →
  fblock s' (with_direct (zset (sfi_direct d) n b) d) m = if decide (m = n) then b else fblock s d m.
Proof.
  intros Hd Hn Hi. pose proof (di_direct _ Hd) as [Hl _]. unfold fblock, idwords. simpl.
  destruct (Z.ltb_spec m 15).
  - destruct (decide (m = n)) as [->|]; [by rewrite znth_zset_eq by lia|].
    rewrite znth_zset_ne by (done || lia). done.
  - rewrite decide_False by lia. destruct (Z.eqb_spec (sfi_indirect d) 0); [done|]. by rewrite Hi.
Qed.

Lemma small_word s b : fs_ok s → 0 < b < nblocks s → is_word b.
Proof. intros Hs Hb. pose proof (fo_size _ Hs). unfold is_word. lia. Qed.

Lemma bmap_direct_correct s n doalloc :
  fs_ok s → (doalloc = true → healthy s) → svs s !! v = Some sv → file_ok s (sv_i sv) → 0 ≤ n < 15 →
  wp (bmap_direct v n doalloc) (bmap_post v s sv n doalloc) s.
Proof.
  intros Hs Hh Hv Hf Hn. unfold bmap_direct. wp_go. eapply wp_get_sv; [done|]. wp_go.
  destruct (fblock_direct s (sv_i sv) n (f_inode _ _ Hf) Hn) as (b & Hb & Hfb & Hw).
  eapply wp_deref; [done|]. destruct ((b =? 0) && doalloc) eqn:Hc.
  - apply andb_true_iff in Hc as [->%Z.eqb_eq ->]. wp_go. apply wp_balloc; [done|by apply Hh|..].
    + intros s' ? ? ? ? ? ? ? _. wp_go. apply bmap_post_same; try done. right. left. split_and!; done.
    + intros b' s1 H1 Hh1 Hvol Hsv Hm Hb' Hnew Hused Hdisk. wp_go.
      eapply wp_set_inode; [by rewrite Hsv|]. set (d' := with_direct _ _). set (s2 := set_svs _ s1).
      pose proof (small_word s b' Hs Hb') as Hw'. pose proof (same_vol_nblocks _ _ Hvol) as Hnb.
      assert (∀ c, c ≠ b' → disk s2 c = disk s c) as Hsame by (intros c Hc; unfold s2; change (disk s1 c = disk s c); by rewrite Hdisk, decide_False).
      assert (∀ c, own s (sv_i sv) c → c ≠ b') as Hown by (by apply own_ne).
      assert (∀ m, fblock s2 d' m = if decide (m = n) then b' else fblock s (sv_i sv) m) as Hmap.
      { intros m. apply fblock_with_direct; [apply Hf|done|]. intros Hi. apply Hsame, Hown.
        split; [done|by left]. }
      destruct (add_block s s2 (sv_i sv) d' b') with n as (Hf2 & Hcont & Hoth); try done.
      * apply with_direct_ok; [apply Hf|done..].
      * unfold MAXBLOCKS. lia.
      * intros m Hm'. split; [|by apply fblock_past]. rewrite Hmap. unfold MAXBLOCKS in *.
        rewrite decide_False by lia. by apply fblock_past.
      * change (disk s1 b' = Some zeros). by rewrite Hdisk, decide_True.
      * intros c Hc _. by apply Hsame.
      * apply wp_hand_back; [by apply fs_ok_svs| |].
        { intros _. change (nblocks s2) with (nblocks s1). change (inuse s2) with (inuse s1).
          rewrite Hnb, Hused. split; [lia|set_solver]. }
        exists (dirtied sv d'). split_and!; try done.
        -- apply file_step_dirtied; try done; [by apply fs_ok_svs|by destruct Hvol|].
           simpl. by rewrite Hsv.
        -- unfold MAXBLOCKS. lia.
        -- simpl. by rewrite Hmap, decide_True.
        -- intros _. lia.
  - assert (doalloc = true → b ≠ 0) as Hnz by (intros ->; destruct (Z.eqb_spec b 0); [done|done]).
    apply wp_hand_back; [done| |].
    + intros Hne. destruct (f_own _ _ Hf b) as [? ?]; [|split; [lia|done]]. split; [done|].
      right. exists n. split; [unfold MAXBLOCKS; lia|done].
    + apply bmap_post_same; try done. unfold MAXBLOCKS. split_and!; [lia|done|done].
Qed.
Lemma idwords_written s s2 d idoff b :
  fs_ok s → file_ok s d → sfi_indirect d ≠ 0 → 0 ≤ idoff < 128 → is_word b →
  disk s2 (sfi_indirect d) = Some (bytes_of_words (zset (idwords s d) idoff b)) →
  ∀ m, fblock s2 d m = if decide (m = 15 + idoff) then b else fblock s d m.
Proof.
  intros Hs Hf Hi Ho Hb Hd m. destruct (idwords_ok s d Hs Hf) as [Hl Hw]. unfold fblock.
  destruct (Z.ltb_spec m 15); [by rewrite decide_False by lia|].
  assert (idwords s2 d = zset (idwords s d) idoff b) as ->.
  { unfold idwords at 1. destruct (Z.eqb_spec (sfi_indirect d) 0); [done|]. rewrite Hd. simpl.
    apply words_bytes. unfold zset. by apply Forall_insert. }
  destruct (decide (m = 15 + idoff)) as [->|].
  - replace (15 + idoff - 15) with idoff by lia. by rewrite znth_zset_eq by lia.
  - by rewrite znth_zset_ne by lia.
Qed.

Lemma bmap_indirect_correct s idoff doalloc :
  fs_ok s → (doalloc = true → healthy s) → svs s !! v = Some sv → file_ok s (sv_i sv) →
  sfi_indirect (sv_i sv) ≠ 0 → 0 ≤ idoff < 128 →
  wp (bmap_indirect (sfi_indirect (sv_i sv)) (idwords s (sv_i sv)) idoff doalloc)
    (bmap_post v s sv (15 + idoff) doalloc) s.
Proof.
  intros Hs Hh Hv Hf Hi Ho. set (d := sv_i sv) in *. unfold bmap_indirect. wp_go.
  destruct (fblock_indirect s d (15 + idoff) Hs Hf) as (b & Hb & Hfb & Hw); [unfold MAXBLOCKS; lia|].
  replace (15 + idoff - 15) with idoff in Hb by lia.
  eapply wp_deref; [done|]. destruct ((b =? 0) && doalloc) eqn:Hc.
  - apply andb_true_iff in Hc as [->%Z.eqb_eq ->]. wp_go. apply wp_balloc; [done|by apply Hh|..].
    + intros s' ? ? ? ? ? ? ? _. wp_go. apply bmap_post_same; try done. right. left. split_and!; done.
    + intros b' s1 H1 Hh1 Hvol Hsv Hm Hb' Hnew Hused Hdisk. wp_go.
      assert (∀ c, own s d c → c ≠ b') as Hown by (by apply own_ne).
      assert (own s d (sfi_indirect d)) as Hio by (split; [done|by left]).
      destruct (idwords_ok s d Hs Hf) as [Hl Hwi]. pose proof (same_vol_nblocks _ _ Hvol) as Hnb.
      destruct (f_own _ _ Hf _ Hio) as [Hir Hiu].
      destruct (disk_is_Some s1 (sfi_indirect d) H1) as (x & Hx & _); [lia|].
      eapply wp_writeblock; [done|done|done|by rewrite length_bytes_of_words, length_zset, Hl|].
      intros d' Hd'. wp_go. destruct (after_write s1 _ x _ d' H1 Hx (bytes_of_words_ok _) Hd') as (H2 & Hh2 & Hdisk2).
      set (s2 := set_hw (umem s1) d' s1) in *.
      assert (∀ m, fblock s2 d m = if decide (m = 15 + idoff) then b' else fblock s d m) as Hmap.
      { apply idwords_written; try done; [by apply (small_word s)|]. by rewrite Hdisk2, decide_True. }
      destruct (add_block s s2 d d b') with (15 + idoff) as (Hf2 & Hcont & Hoth); try done.
      * apply Hf.
      * unfold MAXBLOCKS. lia.
      * intros m Hm'. split; [|by apply fblock_past]. rewrite Hmap. unfold MAXBLOCKS in *.
        rewrite decide_False by lia. by apply fblock_past.
      * rewrite Hdisk2, decide_False by (apply not_eq_sym, Hown, Hio). by rewrite Hdisk, decide_True.
      * intros c Hc Hci. rewrite Hdisk2, decide_False by (destruct Hci; lia). by rewrite Hdisk, decide_False.
      * apply wp_hand_back; [done| |].
        { intros _. change (nblocks s2) with (nblocks s1). change (inuse s2) with (inuse s1).
          rewrite Hnb, Hused. split; [lia|set_solver]. }
        exists sv. split_and!; try done.
        -- constructor; [done|by intros _; apply Hh2|by destruct Hvol| |done|done|by left|done].
           simpl. rewrite Hsv. by rewrite insert_id.
        -- unfold MAXBLOCKS. lia.
        -- by rewrite Hmap, decide_True.
        -- intros _. lia.
  - assert (doalloc = true → b ≠ 0) as Hnz by (intros ->; destruct (Z.eqb_spec b 0); [done|done]).
    apply wp_hand_back; [done| |].
    + intros Hne. destruct (f_own _ _ Hf b) as [? ?]; [|split; [lia|done]]. split; [done|].
      right. exists (15 + idoff). split; [unfold MAXBLOCKS; lia|done].
    + apply bmap_post_same; try done. unfold MAXBLOCKS. split_and!; [lia|done|done].
Qed.

(** Mapping after a step that leaves the contents alone. *)
Lemma bmap_post_after s s1 sv1 n doalloc r s' :
  file_step v s s1 sv sv1 → umem s1 = umem s → same_meta (sv_i sv) (sv_i sv1) →
  (∀ i, 0 ≤ i → content s1 (sv_i sv1) i = content s (sv_i sv) i) →
  (doalloc = false → sv1 = sv ∧ inuse s1 = inuse s ∧ ∀ c, disk s1 c = disk s c) →
  fblock s1 (sv_i sv1) n = fblock s (sv_i sv) n →
  bmap_post v s1 sv1 n doalloc r s' → bmap_post v s sv n doalloc r s'.
Proof.
  intros Hst Hm (M1 & M2 & M3) Hc Hno Hfb (sv' & Hst' & Hm' & (M4 & M5 & M6) & Hc' & Hno' & Hr).
  exists sv'. split_and!.
  - by eapply file_step_trans.
  - congruence.
  - split_and!; congruence.
  - intros i Hi. by rewrite Hc', Hc.
  - intros Hd. destruct (Hno Hd) as (-> & E1 & E2), (Hno' Hd) as (-> & E3 & E4).
    split_and!; [done|congruence|]. intros c. by rewrite E4.
  - destruct r as [b|e]; [done|]. rewrite Hfb in Hr. destruct Hr as [?|[?|[? Hh]]]; [by left|by right; left|].
    right; right. split; [done|]. intros Hhs. by apply Hh, (st_healthy _ _ _ _ _ Hst).
Qed.
End bmap.

(** The whole of [sfs_bmap]: it finds the block, or allocates it; what the file and
    all others contain stays the same. *)
Lemma sfs_bmap_correct v sv s n doalloc :
  fs_ok s → (doalloc = true → healthy s) → svs s !! v = Some sv → file_ok s (sv_i sv) → 0 ≤ n →
  wp (sfs_bmap v n doalloc) (bmap_post v s sv n doalloc) s.
Proof.
  intros Hs Hh Hv Hf Hn. unfold sfs_bmap, SFS_NDIRECT, SFS_DBPERIDB, SFS_NINDIRECT. wp_go.
  apply wp_lock_held; [apply Hs|]. wp_check. destruct (Z.ltb_spec n 15) as [Hlt|Hge].
  { by apply bmap_direct_correct. }
  destruct (Z.geb_spec ((n - 15) / 128) 1) as [Hbig|Hsmall].
  { wp_go. apply bmap_post_same; try done. left. split; [done|]. unfold MAXBLOCKS.
    Z.to_euclidean_division_equations. lia. }
  assert (0 ≤ n - 15 < 128) as Hr by (Z.to_euclidean_division_equations; lia).
  rewrite Z.mod_small by done. wp_go. eapply wp_get_sv; [done|]. set (d := sv_i sv) in *.
  destruct (Z.eqb_spec (sfi_indirect d) 0) as [Hz|Hnz]; cbn [andb].
  - destruct doalloc; cbn [negb].
    + wp_go. apply wp_balloc; [done|by apply Hh|..].
      { intros s' ? ? ? ? ? ? ? _. wp_go. apply bmap_post_same; try done. right. left. split_and!; [done..|].
        apply fblock_no_indirect; [done|unfold MAXBLOCKS; lia]. }
      intros b s1 H1 Hh1 Hvol Hsv Hm Hb Hnew Hused Hdisk. wp_go. eapply wp_set_inode; [by rewrite Hsv|].
      fold d. set (s2 := set_svs _ s1). pose proof (fo_size _ Hs).
      destruct (add_indirect s s2 d b) as (Hf2 & Hc2 & Hmap & Hoth); try done; [by apply (same_vol_nblocks s s1)|lia| | |].
      { change (disk s1 b = Some zeros). by rewrite Hdisk, decide_True. }
      { intros c Hc. change (disk s1 c = disk s c). by rewrite Hdisk, decide_False. }
      set (sv1 := dirtied sv (with_indirect b d)).
      assert (file_step v s s2 sv sv1) as Hst.
      { apply file_step_dirtied; try done; [by apply fs_ok_svs|by destruct Hvol|]. simpl. by rewrite Hsv. }
      eapply wp_mono; [intros r s'; apply (bmap_post_after v sv s s2 sv1); try done|].
      replace (replicate 128 0) with (idwords s2 (sv_i sv1)).
      2: { unfold idwords. simpl. destruct (Z.eqb_spec b 0); [lia|].
           change (disk s2 b) with (disk s1 b). by rewrite Hdisk, decide_True. }
      pose proof (bmap_indirect_correct v sv1 s2 (n - 15) true) as Hbm.
      replace (15 + (n - 15)) with n in Hbm by lia. apply Hbm; try done.
      * by apply fs_ok_svs.
      * simpl. by rewrite lookup_insert_eq.
      * simpl. lia.
    + wp_go. apply bmap_post_same; try done. unfold MAXBLOCKS. split_and!; [lia| |done].
      apply fblock_no_indirect; [done|unfold MAXBLOCKS; lia].
  - wp_go. destruct (f_own _ _ Hf (sfi_indirect d)) as [Hb _]; [split; [done|by left]|].
    destruct (disk_is_Some s (sfi_indirect d) Hs) as (x & Hx & _); [lia|].
    eapply wp_readblock; [done|done|..]; intros d'.
    + intros Hd'. destruct (after_read s d' Hs Hd') as (H1 & H2 & H3). wp_go.
      set (s1 := set_hw (umem s) d' s) in *.
      assert (file_step v s s1 sv sv) as Hst by (by apply file_step_same).
      eapply wp_mono; [intros r s'; apply (bmap_post_after v sv s s1 sv); try done|].
      { intros i _. by apply content_disk. } { by apply fblock_disk. }
      replace (words_of_bytes x) with (idwords s1 d).
      2: { unfold idwords. destruct (Z.eqb_spec (sfi_indirect d) 0); [done|]. by rewrite H3, Hx. }
      pose proof (bmap_indirect_correct v sv s1 (n - 15) doalloc) as Hbm.
      replace (15 + (n - 15)) with n in Hbm by lia. apply Hbm; try done.
      * intros Ha. by apply H2, Hh.
      * apply Hst.
    + intros Hun Hd'. destruct (after_read s d' Hs Hd') as (H1 & H2 & H3). wp_go.
      apply bmap_post_same; try done. right. by right.
Qed.


End SfsMap.
