(* ===== verification/SfsFile.v ===== *)
(** * Reading and writing files on SFS (theorems about sfs_io.c)

    [sfs_io] transfers a range of a file block by block.  A file is seen as a
    function from positions to bytes; reading copies a range of it to the uio and
    writing replaces a range of it by what the uio holds, whatever the alignment
    of the range and however its blocks lie on the disk. *)

From Stdlib Require Import ZArith Lia.
From stdpp Require Import base numbers list gmap.
From S2P Require Import Prelude Bitmap CopyInOut Uio Lhd SfsLayout Sfs SfsBlocks SfsMap.

Module SfsFile.
Import CopyInOut Uio Lhd SfsLayout Sfs SfsBlocks SfsMap.

(** ** Ranges of a file *)

(** The contents [f] with [xs] at [off]. *)
Definition over (f : Z → Z) (off : Z) (xs : list Z) (i : Z) : Z :=
  default (f i) (znth xs (i - off)).

(** The bytes from [off] on. *)
Definition slice (f : Z → Z) (off : Z) (n : nat) : list Z := (λ k, f (off + k)) <$> seqZ 0 (Z.of_nat n).

Lemma over_nil f off i : over f off [] i = f i.
Proof. unfold over, znth. by destruct (decide _). Qed.

Lemma over_app f off xs ys i :
  over (over f off xs) (off + Z.of_nat (length xs)) ys i = over f off (xs ++ ys) i.
Proof.
  unfold over. rewrite znth_app, Z.sub_add_distr. case_decide as Hi; [|].
  - destruct (znth ys _) as [y|] eqn:Hy; [|done]. apply znth_Some_range in Hy. lia.
  - destruct (znth xs (i - off)) as [x|] eqn:Hx; [|done]. apply znth_Some_range in Hx. lia.
Qed.

Lemma over_ext f g off xs i : (f i = g i) → over f off xs i = over g off xs i.
Proof. unfold over. by intros ->. Qed.

Lemma length_slice f off n : length (slice f off n) = n.
Proof. unfold slice. rewrite length_fmap, length_seqZ. lia. Qed.

Lemma slice_ext f g off n : 0 ≤ off → (∀ i, 0 ≤ i → f i = g i) → slice f off n = slice g off n.
Proof.
  intros Ho Hfg. apply list_fmap_ext. intros j x Hx%list_elem_of_lookup_2%elem_of_seqZ. apply Hfg. lia.
Qed.

Lemma slice_app f off n m : slice f off (n + m) = slice f off n ++ slice f (off + Z.of_nat n) m.
Proof.
  unfold slice. rewrite Nat2Z.inj_add, seqZ_app by lia.
  rewrite fmap_app. f_equal. replace (0 + Z.of_nat n) with (Z.of_nat n + 0) by lia.
  rewrite <- fmap_add_seqZ, <- list_fmap_compose. apply list_fmap_ext. intros j x _. simpl. f_equal. lia.
Qed.

(** ** Whole blocks *)

(** Block [n] of a file. *)
Definition block_bytes (s : sfs_fs) (d : sfs_dinode) (n : Z) : list Z :=
  if fblock s d n =? 0 then zeros else default zeros (disk s (fblock s d n)).

Section blocks.
Context (s : sfs_fs) (d : sfs_dinode).
Hypothesis Hs : fs_ok s.
Hypothesis Hf : file_ok s d.

Lemma data_block n : 0 ≤ n < MAXBLOCKS → fblock s d n ≠ 0 →
  0 < fblock s d n < nblocks s ∧ fblock s d n ∈ inuse s ∧
  ∃ x, disk s (fblock s d n) = Some x ∧ length x = 512%nat ∧ Forall is_byte x.
Proof using Hs Hf.
  intros Hn Hne. destruct (f_own _ _ Hf (fblock s d n)) as [Hb Hin]; [split; [done|right; by exists n]|].
  destruct (disk_is_Some s (fblock s d n) Hs) as (x & Hx & Hl); [lia|].
  split_and!; [lia..|done|]. exists x. split_and!; [done..|]. by eapply (fo_bytes _ Hs).
Qed.

Lemma block_bytes_ok n : 0 ≤ n → length (block_bytes s d n) = 512%nat ∧ Forall is_byte (block_bytes s d n).
Proof using Hs Hf.
  intros Hn. unfold block_bytes. destruct (Z.eqb_spec (fblock s d n) 0) as [|Hne].
  { split; [done|]. apply Forall_replicate. unfold is_byte. lia. }
  destruct (decide (n < MAXBLOCKS)) as [Hlt|Hge]; [|by destruct Hne; apply fblock_past; [done..|lia]].
  destruct (data_block n) as (_ & _ & x & Hx & Hl & Hx2); [done..|]. by rewrite Hx.
Qed.

Lemma content_block i : 0 ≤ i → Some (content s d i) = znth (block_bytes s d (i / 512)) (i mod 512).
Proof using Hs Hf.
  intros Hi. assert (0 ≤ i / 512) as Hq by (by apply Z.div_pos).
  destruct (block_bytes_ok (i / 512) Hq) as [Hl _].
  pose proof (Z.mod_pos_bound i 512 ltac:(lia)) as Hm.
  destruct (znth_is_Some (block_bytes s d (i / 512)) (i mod 512)) as [y Hy]; [lia|]. rewrite Hy.
  unfold content, block_bytes in *. destruct (Z.eqb_spec (fblock s d (i / 512)) 0).
  - apply znth_elem in Hy. unfold zeros in Hy. apply elem_of_replicate in Hy as [-> _]. done.
  - destruct (decide (i / 512 < MAXBLOCKS)) as [Hlt|Hge]; [|by destruct n; apply fblock_past; [done..|lia]].
    destruct (data_block (i / 512)) as (_ & _ & x & Hx & _); [done..|]. rewrite Hx in *. simpl in *. by rewrite Hy.
Qed.

(** A range within a block. *)
Lemma slice_block off n : 0 ≤ off → off mod 512 + Z.of_nat n ≤ 512 →
  slice (content s d) off n = take n (drop (Z.to_nat (off mod 512)) (block_bytes s d (off / 512))).
Proof using Hs Hf.
  intros Ho Hn. pose proof (Z.mod_pos_bound off 512 ltac:(lia)) as Hm.
  destruct (block_bytes_ok (off / 512)) as [Hl _]; [by apply Z.div_pos|].
  apply list_eq_same_length with n; [|by apply length_slice|].
  { rewrite length_take, length_drop. lia. }
  intros k x y Hk. unfold slice. rewrite list_lookup_fmap, lookup_seqZ_lt by lia. simpl.
  intros [= <-]. rewrite lookup_take_lt, lookup_drop by done. intros Hy.
  assert ((off + Z.of_nat k) / 512 = off / 512 ∧ (off + Z.of_nat k) mod 512 = off mod 512 + Z.of_nat k) as [Hq Hr]
    by (Z.to_euclidean_division_equations; lia).
  assert (Some (content s d (0 + (off + Z.of_nat k))) = Some y) as [= <-]; [|f_equal; lia].
  rewrite content_block by lia. rewrite Z.add_0_l, Hq, Hr, znth_lookup by lia. rewrite <- Hy. f_equal. lia.
Qed.

(** A hole in the file reads as zeros. *)
Lemma slice_zeros off n : 0 ≤ off → off mod 512 + Z.of_nat n ≤ 512 → fblock s d (off / 512) = 0 →
  slice (content s d) off n = replicate n 0.
Proof using Hs Hf.
  intros Ho Hn Hb. rewrite slice_block by done. unfold block_bytes. rewrite Hb.
  pose proof (Z.mod_pos_bound off 512 ltac:(lia)).
  change (0 =? 0) with true. cbv iota. unfold zeros. rewrite drop_replicate, take_replicate. f_equal. lia.
Qed.
End blocks.

(** ** Changing the card and the memory *)

Lemma wp_in_mem {A} (m : M machine A) (Q : A → sfs_fs → Prop) s :
  wp m (λ a k, Q a (set_hw k (sfs_device s) s)) (umem s) → wp (in_mem m) Q s.
Proof. unfold wp, in_mem. by destruct (m _) as [[a k]|]. Qed.

Lemma fs_ok_mem s k d : fs_ok (set_hw (umem s) d s) → fs_ok (set_hw k d s).
Proof. by intros []. Qed.

Section hw.
Context (v : positive) (s : sfs_fs) (sv : sfs_vnode).
Hypothesis Hs : fs_ok s.
Hypothesis Hv : svs s !! v = Some sv.
Hypothesis Hf : file_ok s (sv_i sv).

Lemma file_step_hw k d' :
  dev_with (sfs_device s) (platter (sfs_device s)) d' →
  file_step v s (set_hw k d' s) sv sv ∧ ∀ c, disk (set_hw k d' s) c = disk s c.
Proof using Hs Hv Hf.
  intros Hd. destruct (after_read s d' Hs Hd) as (H1 & H2 & H3). split; [|done].
  apply file_step_same; try done. by eapply fs_ok_mem.
Qed.

(** A data block of the file is rewritten. *)
Lemma file_step_write n data k d' :
  0 ≤ n < MAXBLOCKS → fblock s (sv_i sv) n ≠ 0 → length data = 512%nat → Forall is_byte data →
  dev_with (sfs_device s) (zset (platter (sfs_device s)) (fblock s (sv_i sv) n) data) d' →
  file_step v s (set_hw k d' s) sv sv ∧
  ∀ i, 0 ≤ i → content (set_hw k d' s) (sv_i sv) i =
    if decide (i / 512 = n) then default 0 (znth data (i mod 512)) else content s (sv_i sv) i.
Proof using Hs Hv Hf.
  intros Hn Hne Hlen Hbytes Hd. set (b := fblock s (sv_i sv) n) in *. set (s' := set_hw k d' s).
  destruct (data_block s (sv_i sv) Hs Hf n Hn Hne) as (Hb & Hin & x & Hx & _). fold b in Hx, Hb, Hin.
  destruct (after_write s b x data d' Hs Hx Hbytes Hd) as (H1 & H2 & H3).
  assert (∀ c, disk s' c = if decide (c = b) then Some data else disk s c) as Hdisk by exact H3.
  assert (b ≠ sfi_indirect (sv_i sv)) as Hni by (by apply (f_ind _ _ Hf)).
  assert (∀ m, fblock s' (sv_i sv) m = fblock s (sv_i sv) m) as Hmap.
  { intros m. apply fblock_disk. rewrite Hdisk. by rewrite decide_False by done. }
  assert (∀ c, own s' (sv_i sv) c ↔ own s (sv_i sv) c) as Hown.
  { intros c. unfold own. by setoid_rewrite Hmap. }
  split.
  - constructor; try done.
    + by eapply fs_ok_mem.
    + simpl. by rewrite insert_id.
    + destruct Hf as [F1 F2 F3 F4]. constructor; [done|..].
      * intros c Hc%Hown. by apply F2.
      * intros m1 m2. rewrite !Hmap. apply F3.
      * intros m. rewrite !Hmap. apply F4.
    + by left.
    + intros c Hc Ho. split_and!; [done|by rewrite Hown|]. rewrite Hdisk, decide_False; [done|].
      intros ->. apply Ho. split; [done|right; by exists n].
  - intros i Hi. unfold content. rewrite Hmap. case_decide as Hin'.
    + rewrite Hin'. fold b. destruct (Z.eqb_spec b 0); [done|]. by rewrite Hdisk, decide_True.
    + destruct (Z.eqb_spec (fblock s (sv_i sv) (i / 512)) 0) as [|Hnz]; [done|].
      rewrite Hdisk, decide_False; [done|]. intros Heq. apply Hin'.
      apply (f_inj _ _ Hf); [|done|done|done]. split; [by apply Z.div_pos|].
      destruct (decide (i / 512 < MAXBLOCKS)); [done|]. destruct Hnz. apply fblock_past; [done..|lia].
Qed.

(** The new block is the old one with [xs] in it. *)
Lemma splice_over off xs data s' :
  0 ≤ off → off mod 512 + Z.of_nat (length xs) ≤ 512 →
  data = take (Z.to_nat (off mod 512)) (block_bytes s (sv_i sv) (off / 512)) ++ xs ++
         drop (Z.to_nat (off mod 512) + length xs) (block_bytes s (sv_i sv) (off / 512)) →
  (∀ i, 0 ≤ i → content s' (sv_i sv) i =
    if decide (i / 512 = off / 512) then default 0 (znth data (i mod 512)) else content s (sv_i sv) i) →
  ∀ i, 0 ≤ i → content s' (sv_i sv) i = over (content s (sv_i sv)) off xs i.
Proof using Hs Hf.
  intros Ho Hlen -> Hc i Hi. rewrite Hc by done. unfold over.
  pose proof (Z.mod_pos_bound off 512 ltac:(lia)) as Hm.
  destruct (block_bytes_ok s (sv_i sv) Hs Hf (off / 512)) as [Hl _]; [by apply Z.div_pos|].
  case_decide as Hq.
  - pose proof (content_block s (sv_i sv) Hs Hf i Hi) as Hci. rewrite Hq in Hci.
    assert (i mod 512 - off mod 512 = i - off) as Hdiff by (Z.to_euclidean_division_equations; lia).
    pose proof (Z.mod_pos_bound i 512 ltac:(lia)) as Hmi.
    rewrite !znth_app, !length_take, !znth_take, Nat.min_l, Z2Nat.id by lia.
    destruct (decide (i mod 512 < off mod 512)) as [Hlo|Hlo].
    + rewrite <- Hci. destruct (znth xs (i - off)) as [y|] eqn:Hy; [|done]. apply znth_Some_range in Hy. lia.
    + rewrite Hdiff. destruct (decide (i - off < Z.of_nat (length xs))) as [Hmid|Hhi].
      * destruct (znth_is_Some xs (i - off)) as [y ->]; [lia|done].
      * rewrite znth_drop by lia. replace (i - off - Z.of_nat (length xs) + Z.of_nat (Z.to_nat (off mod 512) + length xs))
          with (i mod 512) by lia. rewrite <- Hci. simpl.
        destruct (znth xs (i - off)) as [y|] eqn:Hy; [|done]. apply znth_Some_range in Hy. lia.
  - destruct (znth xs (i - off)) as [y|] eqn:Hy; [|done]. apply znth_Some_range in Hy.
    destruct Hq. Z.to_euclidean_division_equations. lia.
Qed.
End hw.

(** A new size. *)
Lemma file_step_size v s sv x :
  fs_ok s → file_ok s (sv_i sv) → is_word x →
  let sv' := dirtied sv (with_size x (sv_i sv)) in
  file_step v s (set_svs (<[v := sv']> (svs s)) s) sv sv'.
Proof.
  intros Hs Hf Hx sv'. constructor; try done.
  - by apply fs_ok_svs.
  - destruct Hf as [F1 F2 F3 F4]. constructor; [|done..]. simpl. by destruct F1.
  - by right.
Qed.

(** ** What a transfer promises *)

Definition bytes_mem (m : machine) : Prop := ∀ a x, mem m !! a = Some x → is_byte x.

Section io.
Context (as_ : option positive) (v : positive).

(** The file is open on a sound volume, and the uio is set up.  To write, the disk has
    to be without media errors. *)
Record io_pre (s : sfs_fs) (sv : sfs_vnode) (u : uio) : Prop := {
  ip_fs : fs_ok s;
  ip_v : svs s !! v = Some sv;
  ip_file : file_ok s (sv_i sv);
  ip_uio : ready as_ (umem s) u;
  ip_off : 0 ≤ uio_offset u;
  ip_write : uio_rwflg u = UIO_WRITE → healthy s ∧ bytes_mem (umem s);
}.

(** The bytes [xs] have gone from the file to the uio, or from the uio to the file. *)
Definition data_moved (s : sfs_fs) (sv : sfs_vnode) (u : uio) (xs : list Z) (s' : sfs_fs)
    (sv' : sfs_vnode) : Prop :=
  match uio_rwflg u with
  | UIO_READ => xs = slice (content s (sv_i sv)) (uio_offset u) (length xs) ∧
      sv' = sv ∧ inuse s' = inuse s ∧ ∀ c, disk s' c = disk s c
  | UIO_WRITE => ∀ i, 0 ≤ i →
      content s' (sv_i sv') i = over (content s (sv_i sv)) (uio_offset u) xs i
  end.

(** Why a transfer can stop at position [pos] of the file. *)
Definition io_error (s : sfs_fs) (u : uio) (pos res : Z) : Prop :=
  res = EFAULT ∧ is_sysspace u = false ∨ res = EFBIG ∧ MAXBLOCKS * 512 ≤ pos ∨
  res = ENOSPC ∧ uio_rwflg u = UIO_WRITE ∨ res = EIO ∧ ¬ healthy s.

(** A transfer of [n] bytes: all of them, or some and an error. *)
Definition io_post (s : sfs_fs) (sv : sfs_vnode) (u : uio) (n : Z) (r : Z * uio) (s' : sfs_fs) : Prop :=
  ∃ sv' xs u1 m1, file_step v s s' sv sv' ∧ same_meta (sv_i sv) (sv_i sv') ∧
    transfer as_ u (umem s) xs u1 m1 ∧ data_moved s sv u xs s' sv' ∧ Z.of_nat (length xs) ≤ n ∧
    (uio_rwflg u = UIO_WRITE → umem s' = umem s) ∧
    (r.1 = 0 ∧ Z.of_nat (length xs) = n ∧ r.2 = u1 ∧ umem s' = m1 ∨
     io_error s u (uio_offset u + Z.of_nat (length xs)) r.1 ∧
     stopped as_ u1 m1 (n - Z.of_nat (length xs)) r.2 (umem s')).

Lemma io_error_nz s u pos res : io_error s u pos res → res ≠ 0.
Proof. by intros [[-> _]|[[-> _]|[[-> _]|[-> _]]]]. Qed.

(** The file after a transfer is ready for the next one. *)
Lemma io_post_next s sv u n u' s' :
  io_pre s sv u → io_post s sv u n (0, u') s' →
  ∃ sv', io_pre s' sv' u' ∧ advanced as_ u (Z.to_nat n) u' ∧
    ∀ k r s'', io_post s' sv' u' k r s'' → io_post s sv u (n + k) r s''.
Proof.
  intros [P1 P2 P3 P4 P5 P6] (sv' & xs & u1 & m1 & Hst & Hme & Htr & Hdat & Hle & Hmem & Hr).
  destruct Hr as [(_ & Hn & Hu & Hm)|[He%io_error_nz _]]; [|done]. simpl in Hu. subst u1 m1.
  pose proof Htr as [(Hok1 & Ha1 & Hr1 & Ho1 & Hs1 & Hw1) (_ & _ & Hrw)].
  assert (io_pre s' sv' u') as Hpre.
  { constructor; [apply Hst| |apply Hst|by eapply transfer_ready|lia|].
    - rewrite (st_svs _ _ _ _ _ Hst). apply lookup_insert_eq.
    - rewrite Hw1. intros Hw. rewrite (Hmem Hw). destruct (P6 Hw). split; [|done]. by apply (st_healthy _ _ _ _ _ Hst). }
  exists sv'. split; [done|]. split.
  { replace (Z.to_nat n) with (length xs) by lia. apply Htr. }
  intros k r s'' (sv'' & ys & u2 & m2 & Hst2 & Hme2 & Htr2 & Hdat2 & Hle2 & Hmem2 & Hr2).
  exists sv'', (xs ++ ys), u2, m2. rewrite length_app. split_and!; [by eapply file_step_trans|..].
  - unfold same_meta in *. naive_solver congruence.
  - eapply transfer_app; [apply P4|done|done].
  - unfold data_moved in *. rewrite Hw1 in Hdat2. rewrite Ho1 in Hdat2. destruct (uio_rwflg u).
    + destruct Hdat as (Hx & -> & Hu & Hd), Hdat2 as (Hy & -> & Hu2 & Hd2).
      split_and!; [|done|congruence|congruence]. rewrite length_app, slice_app, <- Hx. f_equal.
      rewrite Hy at 1. apply slice_ext; [lia|]. intros i Hi. by apply content_disk.
    + intros i Hi. rewrite Hdat2, <- over_app by done. by apply over_ext, Hdat.
  - lia.
  - rewrite Hw1 in Hmem2. intros Hw. by rewrite (Hmem2 Hw), (Hmem Hw).
  - destruct Hr2 as [(R1 & R2 & R3 & R4)|[He Hst3]]; [left; split_and!; [done|lia|done|done]|right].
    split.
    + unfold io_error in *. unfold is_sysspace in *. rewrite Hs1, Hw1, Ho1 in He.
      replace (uio_offset u + Z.of_nat (length xs + length ys)) with
        (uio_offset u + Z.of_nat (length xs) + Z.of_nat (length ys)) by lia.
      destruct He as [?|[?|[?|[? Hh]]]]; [tauto..|]. right. right. right. split; [done|].
      intros Hh'. by apply Hh, (st_healthy _ _ _ _ _ Hst).
    + replace (n + k - Z.of_nat (length xs + length ys)) with (k - Z.of_nat (length ys)) by lia. done.
Qed.

Lemma io_post_fail s sv u n m res u' s' :
  0 ≤ m → res ≠ 0 → io_post s sv u n (res, u') s' → io_post s sv u (n + m) (res, u') s'.
Proof.
  intros Hm Hne (sv' & xs & u1 & m1 & Hst & Hme & Htr & Hdat & Hle & Hmem & Hr).
  destruct Hr as [(? & _)|[He Hstop]]; [done|]. exists sv', xs, u1, m1. split_and!; try done; [lia|].
  right. split; [done|]. destruct Hstop as (k & Hk & Hstop). exists k. split; [lia|done].
Qed.

(** One part after the other, unless the first one fails. *)
Lemma wp_io_seq s sv u n1 n2 (m : M sfs_fs (Z * uio)) (k : uio → M sfs_fs (Z * uio)) :
  io_pre s sv u → 0 ≤ n2 → wp m (io_post s sv u n1) s →
  (∀ s1 sv1 u1, io_pre s1 sv1 u1 → advanced as_ u (Z.to_nat n1) u1 → wp (k u1) (io_post s1 sv1 u1 n2) s1) →
  wp ('(result, u) ← m; if negb (result =? 0) then mret (result, u) else k u) (io_post s sv u (n1 + n2)) s.
Proof.
  intros Hpre Hn2 Hm Hk. apply wp_bind. eapply wp_mono; [|exact Hm]. intros [res u1] s1 Hp.
  destruct (Z.eqb_spec res 0) as [->|Hne]; cbn [negb].
  - destruct (io_post_next _ _ _ _ _ _ Hpre Hp) as (sv1 & Hpre1 & Hadv & Hcomp).
    eapply wp_mono; [|by eapply Hk]. intros r s2. apply Hcomp.
  - wp_go. by apply io_post_fail.
Qed.

Lemma io_post_nil s sv u : io_pre s sv u → io_post s sv u 0 (0, u) s.
Proof.
  intros [P1 P2 P3 P4 P5 P6]. exists sv, [], u, (umem s). split_and!; try done.
  - by apply file_step_same.
  - by apply transfer_nil.
  - unfold data_moved. destruct (uio_rwflg u); [done|]. intros i _. by rewrite over_nil.
  - by left.
Qed.

(** An error before anything has moved. *)
Lemma io_post_stop s sv u n e s' :
  io_pre s sv u → io_post s sv u 0 (0, u) s' → 0 ≤ n → io_error s u (uio_offset u) e →
  io_post s sv u n (e, u) s'.
Proof.
  intros Hpre Hp Hn He. destruct (io_post_next _ _ _ _ _ _ Hpre Hp) as (sv' & Hpre' & _).
  destruct Hp as (sv1 & xs & u1 & m1 & Hst & Hme & Htr & Hdat & Hle & Hmem & Hr).
  destruct Hr as [(_ & Hl & Hu & Hm)|[Hz%io_error_nz _]]; [|done]. simpl in Hu. subst u1 m1.
  exists sv1, xs, u, (umem s'). split_and!; try done; [lia|]. right. simpl.
  rewrite Hl, Z.add_0_r, Z.sub_0_r. split; [done|]. apply stopped_none; [apply Hpre'|done].
Qed.

Lemma dev_with_refl d : lhd_ok d → dev_with d (platter d) d.
Proof. done. Qed.

(** Reading the disk changes nothing. *)
Lemma io_post_touch s sv u d' :
  io_pre s sv u → dev_with (sfs_device s) (platter (sfs_device s)) d' →
  io_post s sv u 0 (0, u) (set_hw (umem s) d' s) ∧ io_pre (set_hw (umem s) d' s) sv u ∧
  ∀ c, disk (set_hw (umem s) d' s) c = disk s c.
Proof.
  intros Hpre Hd. pose proof Hpre as [P1 P2 P3 P4 P5 P6].
  destruct (file_step_hw v s sv P1 P2 P3 (umem s) d' Hd) as [Hst Hdk].
  assert (io_post s sv u 0 (0, u) (set_hw (umem s) d' s)) as Hp.
  { exists sv, [], u, (umem s). split_and!; try done; [by apply transfer_nil| |by left].
    unfold data_moved. destruct (uio_rwflg u); [done|]. intros i _. rewrite over_nil. by apply content_disk. }
  split_and!; [done| |done]. constructor; try done; [apply Hst..|]. intros Hw. destruct (P6 Hw). split; [|done].
  by apply (st_healthy _ _ _ _ _ Hst).
Qed.

(** The block map changes nothing that a file holds. *)
Lemma io_post_bmap s sv u n r s1 :
  io_pre s sv u → bmap_post v s sv n (writing u) r s1 →
  ∃ sv1, io_post s sv u 0 (0, u) s1 ∧ io_pre s1 sv1 u ∧
    (∀ k r s2, io_post s1 sv1 u k r s2 → io_post s sv u k r s2) ∧
    match r with
    | Ok b => n < MAXBLOCKS ∧ fblock s1 (sv_i sv1) n = b ∧ (writing u = true → b ≠ 0)
    | Err e => e = EFBIG ∧ MAXBLOCKS ≤ n ∨ writing u = true ∧ e = ENOSPC ∧ fblock s (sv_i sv) n = 0 ∨ e = EIO ∧ ¬ healthy s
    end.
Proof.
  intros Hpre (sv1 & Hst & Hm & Hme & Hc & Hro & Hr). pose proof Hpre as [P1 P2 P3 P4 P5 P6]. exists sv1.
  assert (io_post s sv u 0 (0, u) s1) as Hp.
  { exists sv1, [], u, (umem s). split_and!; try done; [by apply transfer_nil| |by left].
    unfold data_moved, writing in *. destruct (uio_rwflg u).
    - destruct (Hro eq_refl) as (-> & ? & ?). done.
    - intros i Hi. rewrite over_nil. by apply Hc. }
  destruct (io_post_next _ _ _ _ _ _ Hpre Hp) as (sv2 & Hpre2 & _ & Hcomp).
  assert (sv2 = sv1) as ->.
  { pose proof (ip_v _ _ _ Hpre2) as Hv2. rewrite (st_svs _ _ _ _ _ Hst), lookup_insert_eq in Hv2. congruence. }
  split_and!; [done..|]. exact Hr.
Qed.
End io.

Lemma fileblock_of_small u : 0 ≤ uio_offset u < 2 ^ 41 → fileblock_of u = uio_offset u / 512.
Proof.
  intros Ho. unfold fileblock_of, SFS_BLOCKSIZE. rewrite Z.quot_div_nonneg by lia. apply Z.mod_small.
  Z.to_euclidean_division_equations. lia.
Qed.

(** ** Blocks in part *)

Section partial.
Context (as_ : option positive) (v : positive).

Lemma gather_bytes m l xs : bytes_mem m → gather (mem m) l = Some xs → Forall is_byte xs.
Proof.
  intros Hb Hg. apply mapM_Some in Hg. induction Hg as [|a x l xs Hx _ IH]; constructor; [by eapply Hb|done].
Qed.

(** The buffer has the block in it, and the part moves between buffer and uio. *)
Lemma move_correct s sv u len b :
  b = fblock s (sv_i sv) (uio_offset u / 512) → io_pre as_ v s sv u → uio_offset u / 512 < MAXBLOCKS → 0 ≤ len ≤ uio_resid u →
  uio_offset u mod 512 + len ≤ 512 → (writing u = true → b ≠ 0) →
  wp ('(result, iobuf, u) ← move_part as_ (block_bytes s (sv_i sv) (uio_offset u / 512)) (uio_offset u mod 512) len u;
      if negb (result =? 0) then mret (result, u) else
      if writing u then
        result ← sfs_writeblock b iobuf;
        mret (result, u)
      else mret (0, u)) (io_post as_ v s sv u len) s.
Proof.
  intros -> Hpre Hmax Hlen Hfit Hw. pose proof Hpre as [P1 P2 P3 P4 P5 P6].
  set (n := uio_offset u / 512) in *. assert (0 ≤ n) as Hn0 by (by apply Z.div_pos).
  pose proof (Z.mod_pos_bound (uio_offset u) 512 ltac:(lia)) as Hmod.
  destruct (block_bytes_ok s (sv_i sv) P1 P3 n Hn0) as [Hl Hby].
  unfold move_part. wp_go. apply wp_in_mem, uiomove_transfer; [done|lia|rewrite length_drop; lia|..].
  - intros xs buf' u' m' Hlx Htr Hrw. wp_go. pose proof Htr as [(_ & _ & _ & _ & _ & Hw') (_ & _ & Hrw2)].
    unfold writing in *. rewrite Hw'. destruct (uio_rwflg u) eqn:Hflg.
    + wp_go. destruct (file_step_hw v s sv P1 P2 P3 m' (sfs_device s)) as [Hst Hdk]; [by apply dev_with_refl, P1|].
      exists sv, xs, u', m'. split_and!; try done; [|lia|congruence|by left]. unfold data_moved. rewrite Hflg. split_and!; try done.
      rewrite slice_block by (done || lia). fold n. by rewrite Hrw, length_take, length_drop, Nat.min_l by lia.
    + destruct Hrw2 as [-> Hg]. destruct (P6 eq_refl) as [Hh Hbm].
      replace (set_hw (umem s) (sfs_device s) s) with s by (by destruct s). wp_go.
      destruct (data_block s (sv_i sv) P1 P3 n) as (Hb & Hin & x & Hx & _); [done|by apply Hw|].
      rewrite Hrw, drop_drop.
      assert (length (take (Z.to_nat (uio_offset u mod 512)) (block_bytes s (sv_i sv) n) ++ xs ++
        drop (Z.to_nat (uio_offset u mod 512) + Z.to_nat len) (block_bytes s (sv_i sv) n)) = 512%nat) as Hl2
        by (rewrite !length_app, length_take, length_drop; lia).
      apply wp_bind. eapply wp_writeblock; [done|done|done|done|]. intros d' Hd'. wp_go.
      edestruct (file_step_write v s sv P1 P2 P3 n) as [Hst Hc]; [done|by apply Hw|done| |exact Hd'|].
      { apply Forall_app. split; [by apply Forall_take|]. apply Forall_app. split; [by eapply gather_bytes|by apply Forall_drop]. }
      exists sv, xs, u', (umem s). split_and!; try done; [|lia|by left]. unfold data_moved. rewrite Hflg.
      eapply (splice_over s sv P1 P3); [done|lia|reflexivity|]. fold n.
      replace (Z.to_nat len) with (length xs) in Hc by lia. exact Hc.
  - intros buf' u' m' Hseg Hstop Hm _. wp_go.
    destruct (file_step_hw v s sv P1 P2 P3 m' (sfs_device s)) as [Hst Hdk]; [by apply dev_with_refl, P1|].
    exists sv, [], u, (umem s). split_and!; try done; [by apply transfer_nil| |simpl; lia|].
    + unfold data_moved. destruct (uio_rwflg u); [done|]. intros i _. rewrite over_nil. by apply content_disk.
    + right. rewrite Z.sub_0_r. split; [by left|done].
Qed.

(** Reading the block first. *)
Lemma load_move_correct s sv u len b :
  b = fblock s (sv_i sv) (uio_offset u / 512) → io_pre as_ v s sv u → uio_offset u / 512 < MAXBLOCKS →
  0 ≤ len ≤ uio_resid u → uio_offset u mod 512 + len ≤ 512 → (writing u = true → b ≠ 0) →
  wp (r ← (if b =? 0 then KASSERT (negb (writing u)) ;; mret (Ok (replicate 512 0)) else sfs_readblock b);
      match r with
      | Err e => mret (e, u)
      | Ok iobuf =>
          '(result, iobuf, u) ← move_part as_ iobuf (uio_offset u mod 512) len u;
          if negb (result =? 0) then mret (result, u) else
          if writing u then result ← sfs_writeblock b iobuf; mret (result, u) else mret (0, u)
      end) (io_post as_ v s sv u len) s.
Proof.
  intros Hb Hpre Hmax Hlen Hfit Hw. pose proof Hpre as [P1 P2 P3 P4 P5 P6].
  pose proof (move_correct s sv u len b Hb Hpre Hmax Hlen Hfit Hw) as Hmove.
  destruct (Z.eqb_spec b 0) as [Hz|Hnz].
  - wp_go. apply wp_KASSERT; [destruct (writing u); [by destruct (Hw eq_refl)|done]|]. apply wp_ret. cbv beta iota.
    unfold block_bytes in Hmove. rewrite <- Hb, Hz in Hmove. by rewrite Hz.
  - subst b. apply wp_bind. destruct (data_block s (sv_i sv) P1 P3 (uio_offset u / 512)) as (_ & _ & x & Hx & _).
    { split; [by apply Z.div_pos|done]. } { done. }
    eapply wp_readblock; [done|done|..]; intros d' Hd.
    + destruct (io_post_touch as_ v s sv u d' Hpre Hd) as (Ht & Hpre2 & Hdk).
      destruct (io_post_next _ _ _ _ _ _ _ _ Hpre Ht) as (sv2 & Hpre2' & _ & Hcomp2).
      assert (sv2 = sv) as -> by (pose proof (ip_v _ _ _ _ _ Hpre2'); pose proof (ip_v _ _ _ _ _ Hpre2); congruence).
      eapply wp_mono; [intros ? ?; apply Hcomp2|].
      assert (∀ k, fblock (set_hw (umem s) d' s) (sv_i sv) k = fblock s (sv_i sv) k) as Hfb
        by (intros k; by apply fblock_disk).
      replace x with (block_bytes (set_hw (umem s) d' s) (sv_i sv) (uio_offset u / 512)).
      * apply move_correct; [by rewrite Hfb|done..].
      * unfold block_bytes. rewrite Hfb, Hdk, Hx. by destruct (Z.eqb_spec (fblock s (sv_i sv) (uio_offset u / 512)) 0).
    + intros Hd'. wp_go. apply io_post_stop; [done|by apply io_post_touch|lia|]. unfold io_error. auto.
Qed.

(** The step through the block map that every block takes. *)
Lemma wp_map_block s sv u len (k : Z → M sfs_fs (Z * uio)) :
  io_pre as_ v s sv u → uio_offset u < 2 ^ 41 → 0 ≤ len →
  (∀ s1 sv1, io_pre as_ v s1 sv1 u → uio_offset u / 512 < MAXBLOCKS →
     let b := fblock s1 (sv_i sv1) (uio_offset u / 512) in
     (writing u = true → b ≠ 0) → wp (k b) (io_post as_ v s1 sv1 u len) s1) →
  wp (r ← sfs_bmap v (fileblock_of u) (writing u);
      match r with Err e => mret (e, u) | Ok diskblock => k diskblock end) (io_post as_ v s sv u len) s.
Proof.
  intros Hpre Hoff Hlen Hk. pose proof Hpre as [P1 P2 P3 P4 P5 P6].
  pose proof (Z.div_pos (uio_offset u) 512 P5 ltac:(lia)) as Hn.
  rewrite fileblock_of_small by lia. apply wp_bind.
  eapply wp_mono; [|apply sfs_bmap_correct; [done| |done|done|done]].
  2: { unfold writing. destruct (uio_rwflg u); [done|]. intros _. by apply P6. }
  intros r s1 Hbm. destruct (io_post_bmap _ _ _ _ _ _ _ _ Hpre Hbm) as (sv1 & Hp & Hpre1 & Hcomp & Hr).
  destruct r as [b|e].
  - destruct Hr as (Hmax & <- & Hw). eapply wp_mono; [intros ? ?; apply Hcomp|]. by apply Hk.
  - wp_go. apply io_post_stop; [done|done|lia|]. unfold io_error. unfold writing in Hr.
    destruct Hr as [[-> ?]|[(Hw & -> & _)|[-> ?]]]; [|by destruct (uio_rwflg u); auto|by auto].
    right. left. split; [done|]. Z.to_euclidean_division_equations. lia.
Qed.

Lemma sfs_partialio_correct s sv u len :
  io_pre as_ v s sv u → uio_offset u < 2 ^ 41 → 0 ≤ len ≤ uio_resid u → uio_offset u mod 512 + len ≤ 512 →
  wp (sfs_partialio as_ v u (uio_offset u mod 512) len) (io_post as_ v s sv u len) s.
Proof.
  intros Hpre Hoff Hlen Hfit. unfold sfs_partialio, SFS_BLOCKSIZE.
  apply wp_bind, wp_KASSERT; [lia|]. apply wp_bind, wp_lock_held; [apply Hpre|].
  apply wp_bind, wp_KASSERT; [done|]. apply wp_map_block; [done|done|lia|].
  intros s1 sv1 Hpre1 Hmax b Hw. by apply load_move_correct.
Qed.
End partial.

(** ** Whole blocks *)

Section whole.
Context (as_ : option positive) (v : positive).

(** A uio whose cursor stands for a place on the disk. *)
Lemma cursor_ready m u off : ready as_ m u → 512 ≤ uio_resid u → ready as_ m (set_cursor off 512 u).
Proof. intros ([Hr Hl Hs Hsp] & Hb & Ha) Hres. split_and!; try done. constructor; try done; simpl; lia. Qed.

(** The cursor back in the file. *)
Definition restored (off : Z) (u u1 : uio) : uio :=
  set_cursor (uio_offset u1 - off + uio_offset u) ((uio_resid u1 - 512 + uio_resid u) mod 2 ^ 32) u1.

Lemma advanced_restored u off k u1 :
  uio_ok as_ u → 512 ≤ uio_resid u → advanced as_ (set_cursor off 512 u) k u1 →
  advanced as_ u k (restored off u u1).
Proof.
  intros Hu Hres ([Hr Hl Hs Hsp] & A & R & O & S & W). simpl in A, R, O, S, W.
  pose proof (ok_small _ _ Hu). pose proof (ok_resid _ _ Hu). unfold restored.
  assert (length (addrs (uio_iov u1)) = (length (addrs (uio_iov u)) - k)%nat) as Hlen by (rewrite A; apply length_drop).
  split_and!; simpl; try done; [|rewrite Z.mod_small by lia; lia|lia].
  constructor; simpl; try done; [|by apply Z.mod_pos_bound]. rewrite Z.mod_small by lia. lia.
Qed.

Lemma transfer_restored u off m xs u1 m1 :
  uio_ok as_ u → 512 ≤ uio_resid u → transfer as_ (set_cursor off 512 u) m xs u1 m1 →
  transfer as_ u m xs (restored off u u1) m1.
Proof. intros Hu Hres (Ha & Hrest). split; [by apply advanced_restored|done]. Qed.

Lemma stopped_restored u off m n u1 m1 :
  uio_ok as_ u → 512 ≤ uio_resid u → stopped as_ (set_cursor off 512 u) m n u1 m1 →
  stopped as_ u m n (restored off u u1) m1.
Proof. intros Hu Hres (k & Hk & Ha & Hrest). exists k. split; [done|]. split; [by apply advanced_restored|done]. Qed.

(** Straight from the disk to the uio. *)
Lemma wp_read_uio n s u b x (Q : Z * uio → sfs_fs → Prop) :
  lhd_ok (sfs_device s) → disk s b = Some x → ready as_ (umem s) u → uio_offset u = b * 512 →
  uio_resid u = 512 → uio_rwflg u = UIO_READ →
  (∀ d' u1 m1, dev_with (sfs_device s) (platter (sfs_device s)) d' → transfer as_ u (umem s) x u1 m1 →
     Q (0, u1) (set_hw m1 d' s)) →
  (∀ d' u1 m1, dev_with (sfs_device s) (platter (sfs_device s)) d' → is_sysspace u = false →
     stopped as_ u (umem s) 512 u1 m1 → Q (EFAULT, u1) (set_hw m1 d' s)) →
  (∀ d', dev_with (sfs_device s) (platter (sfs_device s)) d' → ¬ healthy s → Q (EIO, u) (set_hw (umem s) d' s)) →
  wp (rw_try (uio_xfer as_) n u) Q s.
Proof.
  revert s. induction n as [|n IH]; intros s Hd Hx Hr Ho Hres Hflg Hgood Hfault Hbad; apply wp_rw_try;
    pose proof (znth_Some_range _ _ _ Hx) as Hb; pose proof (ok_blocks _ Hd) as [Hn _];
    pose proof (ok_sects _ Hd _ _ Hx) as Hl;
    (apply (wp_lhd_io_one (uio_xfer as_) _ _ _ b); [done|lia|done..|]); unfold is_write; simpl; rewrite Hflg;
    (apply (wp_sector_read (uio_xfer as_) _ _ _ b x); [done..| |]).
  2,4: intros _; apply uiomove_transfer; [done|rewrite Hres; unfold LHD_SECTSIZE; lia|rewrite Hl; done|..]; rewrite ?Hflg;
    [intros xs buf' u' m' Hlx Htr -> d' Hd'%dev_after_with; simpl; split; [done|]; apply Hgood; [done|];
     by rewrite take_ge in Htr by (rewrite Hl; done)
    |intros buf' u' m' Hseg Hst _ _ d' Hd'%dev_after_with; simpl; split; [done|]; by apply Hfault].
  - intros Hf d' Hd'%dev_after_with. simpl. split; [done|]. apply Hbad; [done|].
    intros Hh. unfold fails in Hf. by rewrite Hh in Hf.
  - intros Hf d' Hd'. pose proof (dev_after_with _ _ _ Hd') as Hw. simpl. split; [done|].
    assert (¬ healthy s) as Hnh by (intros Hh; unfold fails in Hf; by rewrite Hh in Hf).
    destruct Hw as (W1 & W2 & W3). apply IH; simpl; try done; [unfold disk; simpl; by rewrite W2|..]; rewrite W2.
    + intros d2 u1 m1 Hd2. apply Hgood. by eapply dev_with_trans.
    + intros d2 u1 m1 Hd2. apply Hfault. by eapply dev_with_trans.
    + intros d2 Hd2 _. apply Hbad; [|done]. by eapply dev_with_trans.
Qed.

(** Straight from the uio to the disk. *)
Lemma wp_write_uio n s u b x (Q : Z * uio → sfs_fs → Prop) :
  lhd_ok (sfs_device s) → healthy s → disk s b = Some x → ready as_ (umem s) u → uio_offset u = b * 512 →
  uio_resid u = 512 → uio_rwflg u = UIO_WRITE →
  (∀ d' u1 xs, dev_with (sfs_device s) (zset (platter (sfs_device s)) b xs) d' → length xs = 512%nat →
     transfer as_ u (umem s) xs u1 (umem s) → Q (0, u1) (set_hw (umem s) d' s)) →
  (∀ d' u1, dev_with (sfs_device s) (platter (sfs_device s)) d' → is_sysspace u = false →
     stopped as_ u (umem s) 512 u1 (umem s) → Q (EFAULT, u1) (set_hw (umem s) d' s)) →
  wp (rw_try (uio_xfer as_) n u) Q s.
Proof.
  intros Hd Hh Hx Hr Ho Hres Hflg Hgood Hfault. apply wp_rw_try.
  pose proof (znth_Some_range _ _ _ Hx) as Hb; pose proof (ok_blocks _ Hd) as [Hn _].
  pose proof (ok_buf _ Hd) as Hl.
  apply (wp_lhd_io_one (uio_xfer as_) _ _ _ b); [done|lia|done..|]. unfold is_write. simpl. rewrite Hflg.
  apply (wp_sector_write (uio_xfer as_) _ _ _ b x); [done..|].
  apply uiomove_transfer; [done|rewrite Hres; unfold LHD_SECTSIZE; lia|rewrite Hl; done|..].
  - intros xs buf' u' m' Hlx Htr. rewrite Hflg. rewrite drop_ge, app_nil_r by (rewrite Hl; done). intros ->.
    pose proof Htr as [(_ & _ & _ & _ & _ & Hw') (_ & _ & Hrw)]. rewrite Hflg in Hrw. destruct Hrw as [-> _].
    unfold LHD_SECTSIZE in Hlx. split_and!; [lia|simpl; congruence|done|].
    intros _ d' Hd'%dev_after_with. unfold fails in *. unfold healthy in Hh. rewrite Hh in *. simpl in *. split; [done|].
    apply (Hgood d' u' xs); [done|lia|done].
  - intros buf' u' m' Hseg Hst Hm Hlb. rewrite (Hm Hflg) in *. pose proof Hst as (k & _ & (_ & _ & _ & _ & _ & Hw') & _).
    split_and!; [lia|simpl; congruence| |done]. intros _ d' Hd1 Hd2 Hd3. simpl. split; [done|]. apply Hfault; [|done|done].
    split_and!; [done..|]. intros Hm0. by rewrite Hd3.
Qed.

Lemma hole_correct s sv u :
  io_pre as_ v s sv u → writing u = false → fblock s (sv_i sv) (uio_offset u / 512) = 0 →
  uio_offset u mod 512 = 0 → 512 ≤ uio_resid u →
  wp (in_mem (uiomovezeros as_ 512 u)) (io_post as_ v s sv u 512) s.
Proof.
  intros Hpre Hw Hb Hal Hres. pose proof Hpre as [P1 P2 P3 P4 P5 P6].
  assert (uio_rwflg u = UIO_READ) as Hflg by (unfold writing in Hw; by destruct (uio_rwflg u)).
  assert (∀ m', file_step v s (set_hw m' (sfs_device s) s) sv sv) as Hst
    by (intros m'; apply file_step_hw; [done..|by apply dev_with_refl, P1]).
  assert (∀ m' xs, Z.of_nat (length xs) ≤ 512 → xs = replicate (length xs) 0 →
    data_moved s sv u xs (set_hw m' (sfs_device s) s) sv) as Hmv.
  { intros m' xs Hl Hx. unfold data_moved. rewrite Hflg. split_and!; try done. rewrite (slice_zeros s); [done|done|done|done|lia|done]. }
  apply wp_in_mem. unfold uiomovezeros. rewrite Hflg. wp_check.
  apply zeros_loop_transfer; [done|done|lia|lia|..].
  - intros u' m' Htr. exists sv, (replicate 512 0), u', m'. split_and!; try done; [|congruence|by left].
    by apply Hmv.
  - intros xs u1 m1 u' m' Hseg Htr Hx Hle Hstop. exists sv, xs, u1, m1. split_and!; try done; [by apply Hmv|congruence|].
    right. split; [by left|done].
Qed.

Lemma direct_correct s sv u b :
  io_pre as_ v s sv u → b = fblock s (sv_i sv) (uio_offset u / 512) → b ≠ 0 → uio_offset u / 512 < MAXBLOCKS →
  uio_offset u mod 512 = 0 → 512 ≤ uio_resid u →
  wp ('(result, u1) ← sfs_rwblock (uio_xfer as_) (set_cursor (b * 512) 512 u);
      mret (result, restored (b * 512) u u1)) (io_post as_ v s sv u 512) s.
Proof.
  intros Hpre -> Hnz Hmax Hal Hres. pose proof Hpre as [P1 P2 P3 P4 P5 P6].
  assert (0 ≤ uio_offset u / 512) as Hn by (by apply Z.div_pos).
  destruct (data_block s (sv_i sv) P1 P3 (uio_offset u / 512)) as (Hb & _ & x & Hx & Hl & _); [done..|].
  set (b := fblock s (sv_i sv) (uio_offset u / 512)) in *. set (u0 := set_cursor (b * 512) 512 u).
  assert (ready as_ (umem s) u0) as Hr0 by (by apply cursor_ready). pose proof (proj1 P4) as Hok.
  unfold sfs_rwblock. wp_go. apply wp_lock_held; [apply P1|]. wp_check. destruct (uio_rwflg u) eqn:Hflg.
  - apply (wp_read_uio 10 s u0 b x); try done; [apply P1|..].
    + intros d' u1 m1 Hd Htr%(transfer_restored u) ; [|done..]. wp_go.
      destruct (file_step_hw v s sv P1 P2 P3 m1 d' Hd) as [Hst Hdk].
      exists sv, x, (restored (b * 512) u u1), m1. split_and!; try done; [|lia|congruence|left; split_and!; try done; lia].
      unfold data_moved. rewrite Hflg. split_and!; try done. rewrite slice_block by (done || lia).
      unfold block_bytes. fold b. destruct (Z.eqb_spec b 0); [done|]. rewrite Hx, Hal. simpl. by rewrite firstn_all.
    + intros d' u1 m1 Hd Hseg Hstop%(stopped_restored u); [|done..]. wp_go.
      destruct (file_step_hw v s sv P1 P2 P3 m1 d' Hd) as [Hst Hdk].
      exists sv, [], u, (umem s). split_and!; try done; [by apply transfer_nil| |congruence|].
      * unfold data_moved. by rewrite Hflg.
      * right. split; [by left|done].
    + intros d' Hd Hnh. wp_go.
      replace (restored (b * 512) u u0) with u.
      * apply io_post_stop; [done|by apply io_post_touch|lia|]. unfold io_error. auto.
      * unfold restored, u0, set_cursor. simpl. destruct (ok_resid _ _ Hok). pose proof (ok_small _ _ Hok).
        rewrite Z.mod_small by lia. destruct u. simpl in *. f_equal; lia.
  - destruct (P6 eq_refl) as [Hh Hbm]. apply (wp_write_uio 10 s u0 b x); try done; [apply P1|..].
    + intros d' u1 xs Hd Hlx Htr%(transfer_restored u); [|done..]. wp_go.
      edestruct (file_step_write v s sv P1 P2 P3 (uio_offset u / 512)) as [Hst Hc]; [done|done|exact Hlx| |exact Hd|].
      { destruct Htr as (_ & _ & _ & Hrw). rewrite Hflg in Hrw. destruct Hrw as [_ Hg]. by eapply gather_bytes. }
      exists sv, xs, (restored (b * 512) u u1), (umem s).
      split_and!; try done; [|lia|left; split_and!; try done; lia].
      unfold data_moved. rewrite Hflg. eapply (splice_over s sv P1 P3); [done|lia|reflexivity|].
      rewrite Hal. simpl. destruct (block_bytes_ok s (sv_i sv) P1 P3 (uio_offset u / 512) Hn) as [Hbl _].
      rewrite drop_ge, app_nil_r by lia. exact Hc.
    + intros d' u1 Hd Hseg Hstop%(stopped_restored u); [|done..]. wp_go.
      destruct (file_step_hw v s sv P1 P2 P3 (umem s) d' Hd) as [Hst Hdk].
      exists sv, [], u, (umem s). split_and!; try done; [by apply transfer_nil| |].
      * unfold data_moved. rewrite Hflg. intros i _. rewrite over_nil. by apply content_disk.
      * right. split; [by left|done].
Qed.

Lemma sfs_blockio_correct s sv u :
  io_pre as_ v s sv u → uio_offset u < 2 ^ 41 → uio_offset u mod 512 = 0 → 512 ≤ uio_resid u →
  wp (sfs_blockio as_ v u) (io_post as_ v s sv u 512) s.
Proof.
  intros Hpre Hoff Hal Hres. unfold sfs_blockio. apply wp_map_block; [done|done|lia|].
  intros s1 sv1 Hpre1 Hmax b Hw. unfold SFS_BLOCKSIZE. destruct (Z.eqb_spec b 0) as [Hz|Hnz].
  - assert (writing u = false) as Hf by (destruct (writing u); [by destruct (Hw eq_refl)|done]).
    rewrite Hf. wp_check. by apply hole_correct.
  - assert (0 < b < nblocks s1) as Hb.
    { apply (f_own _ _ (ip_file _ _ _ _ _ Hpre1)). split; [done|]. right. eexists; split; [|reflexivity].
      split; [apply Z.div_pos; [apply Hpre1|done]|done]. }
    pose proof (fo_size _ (ip_fs _ _ _ _ _ Hpre1)) as [_ Hsz]. rewrite (Z.mod_small (b * 512)) by lia.
    apply wp_bind, wp_KASSERT; [lia|]. by apply direct_correct.
Qed.

Lemma blocks_loop_correct n s sv u :
  io_pre as_ v s sv u → uio_offset u + 512 * Z.of_nat n ≤ 2 ^ 41 → uio_offset u mod 512 = 0 →
  512 * Z.of_nat n ≤ uio_resid u →
  wp (blocks_loop as_ v n u) (io_post as_ v s sv u (512 * Z.of_nat n)) s.
Proof.
  revert s sv u. induction n as [|n IH]; intros s sv u Hpre Hoff Hal Hres; cbn [blocks_loop].
  { wp_go. by apply io_post_nil. }
  replace (512 * Z.of_nat (S n)) with (512 + 512 * Z.of_nat n) in * by lia.
  apply wp_io_seq; [done|lia|apply sfs_blockio_correct; [done|lia..]|].
  intros s1 sv1 u1 Hpre1 (_ & _ & Hr & Ho & _ & _). apply IH; [done|lia| |lia].
  rewrite Ho. replace (uio_offset u + Z.of_nat (Z.to_nat 512)) with (uio_offset u + 1 * 512) by lia.
  by rewrite Z.mod_add.
Qed.
End whole.

(** ** A whole transfer *)

Section transfer.
Context (as_ : option positive) (v : positive).

(** The blocks after the leading partial one. *)
Lemma io_rest_correct s sv u :
  io_pre as_ v s sv u → uio_offset u + uio_resid u ≤ 2 ^ 41 → uio_offset u mod 512 = 0 →
  wp ('(result, u) ← blocks_loop as_ v (Z.to_nat (uio_resid u / 512)) u;
      if negb (result =? 0) then mret (result, u) else
      KASSERT (uio_resid u <? 512) ;;
      if uio_resid u >? 0 then sfs_partialio as_ v u 0 (uio_resid u) else mret (0, u))
     (io_post as_ v s sv u (uio_resid u)) s.
Proof.
  intros Hpre Hoff Hal. pose proof (ok_resid _ _ (proj1 (ip_uio _ _ _ _ _ Hpre))) as [Hr0 _].
  assert (uio_resid u = 512 * (uio_resid u / 512) + uio_resid u mod 512) as Hsum by (by apply Z.div_mod).
  pose proof (Z.mod_pos_bound (uio_resid u) 512 ltac:(lia)) as Hmod.
  assert (0 ≤ uio_resid u / 512) as Hq by (by apply Z.div_pos).
  set (n := Z.to_nat (uio_resid u / 512)) in *. assert (Z.of_nat n = uio_resid u / 512) as Hn by lia.
  replace (io_post as_ v s sv u (uio_resid u)) with (io_post as_ v s sv u (512 * Z.of_nat n + uio_resid u mod 512))
    by (f_equal; lia).
  apply wp_io_seq; [done|lia|apply blocks_loop_correct; [done|lia|done|lia]|].
  intros s1 sv1 u1 Hpre1 (_ & _ & Hr & Ho & _ & _).
  assert (uio_resid u1 = uio_resid u mod 512) as Hr1 by lia. rewrite Hr1. wp_check.
  destruct (Z.gtb_spec (uio_resid u mod 512) 0).
  - assert (uio_offset u1 mod 512 = 0) as Hal1.
    { rewrite Ho, Z2Nat.id by lia. replace (uio_offset u + 512 * Z.of_nat n) with (uio_offset u + Z.of_nat n * 512) by lia.
      by rewrite Z.mod_add. }
    pose proof (sfs_partialio_correct as_ v s1 sv1 u1 (uio_resid u mod 512) Hpre1) as Hp. rewrite Hal1 in Hp.
    apply Hp; lia.
  - wp_go. replace (uio_resid u mod 512) with 0 by lia. by apply io_post_nil.
Qed.

Lemma io_blocks_correct s sv u :
  io_pre as_ v s sv u → uio_offset u + uio_resid u ≤ 2 ^ 41 → uio_offset u < 2 ^ 41 →
  wp (io_blocks as_ v u) (io_post as_ v s sv u (uio_resid u)) s.
Proof.
  intros Hpre Hoff Hsm. pose proof (ip_off _ _ _ _ _ Hpre) as Hpos.
  pose proof (ok_resid _ _ (proj1 (ip_uio _ _ _ _ _ Hpre))) as [Hr0 _].
  pose proof (Z.mod_pos_bound (uio_offset u) 512 ltac:(lia)) as Hmod.
  unfold io_blocks, SFS_BLOCKSIZE. rewrite Z.rem_mod_nonneg by lia. rewrite (Z.mod_small (_ mod _)) by lia.
  set (blk := uio_offset u mod 512) in *.
  set (n1 := if blk =? 0 then 0 else if 512 - blk >? uio_resid u then uio_resid u else 512 - blk).
  assert (0 ≤ n1 ≤ uio_resid u ∧ (n1 < uio_resid u → (uio_offset u + n1) mod 512 = 0)) as [Hn1 Hal].
  { unfold n1. destruct (Z.eqb_spec blk 0); [by rewrite Z.add_0_r|].
    destruct (Z.gtb_spec (512 - blk) (uio_resid u)); (split; [lia|]); [lia|]. intros _.
    unfold blk. Z.to_euclidean_division_equations. lia. }
  replace (io_post as_ v s sv u (uio_resid u)) with (io_post as_ v s sv u (n1 + (uio_resid u - n1)))
    by (f_equal; lia).
  apply wp_io_seq; [done|lia|..].
  - unfold n1. destruct (Z.eqb_spec blk 0); cbn [negb]; [wp_go; by apply io_post_nil|].
    apply sfs_partialio_correct; [done|done|..]; destruct (Z.gtb_spec (512 - blk) (uio_resid u)); fold blk; lia.
  - intros s1 sv1 u1 Hpre1 (_ & _ & Hr & Ho & _ & _). rewrite Z2Nat.id in Hr, Ho by lia.
    rewrite <- Hr. destruct (Z.eqb_spec (uio_resid u1) 0) as [->|Hnz]; [wp_go; by apply io_post_nil|].
    assert (uio_offset u1 mod 512 = 0) as Hal1 by (rewrite Ho; apply Hal; lia).
    rewrite Z.rem_mod_nonneg by lia. apply wp_bind, wp_KASSERT; [lia|]. apply io_rest_correct; [done|lia|done].
Qed.

(** The residue past the end of the file comes back in the end. *)
Lemma advanced_extra u extra k u1 :
  uio_ok as_ u → 0 ≤ extra ≤ uio_resid u →
  advanced as_ (set_cursor (uio_offset u) (uio_resid u - extra) u) k u1 →
  advanced as_ u k (set_cursor (uio_offset u1) ((uio_resid u1 + extra) mod 2 ^ 32) u1).
Proof.
  intros Hu Hex ([Hr Hl Hs Hsp] & A & R & O & S & W). simpl in A, R, O, S, W.
  pose proof (ok_small _ _ Hu). pose proof (ok_resid _ _ Hu).
  assert (length (addrs (uio_iov u1)) = (length (addrs (uio_iov u)) - k)%nat) as Hlen by (rewrite A; apply length_drop).
  split_and!; simpl; try done; [|rewrite Z.mod_small by lia; lia].
  constructor; simpl; try done; [|by apply Z.mod_pos_bound]. rewrite Z.mod_small by lia. lia.
Qed.

Lemma io_pre_extra s sv u extra :
  io_pre as_ v s sv u → 0 ≤ extra ≤ uio_resid u →
  io_pre as_ v s sv (set_cursor (uio_offset u) (uio_resid u - extra) u).
Proof.
  intros [P1 P2 P3 P4 P5 P6] Hex. constructor; try done. destruct P4 as ([Hr Hl Hs Hsp] & Hb & Ha).
  split_and!; try done. constructor; try done; simpl; lia.
Qed.
End transfer.

End SfsFile.
