(* ===== verification/SfsDir.v ===== *)
(** * Directories of SFS (theorems about sfs_io.c: [sfs_metaio], and sfs_dir.c)

    A directory is a file of entries of fixed size.  Seen from above it is a finite
    map from names to inode numbers: looking up, linking and unlinking a name are
    lookup, insertion and deletion. *)

From Stdlib Require Import ZArith Lia.
From stdpp Require Import base numbers list gmap.
From S2P Require Import Prelude Bitmap CopyInOut Uio Lhd SfsLayout Sfs SfsBlocks SfsMap SfsFile.

Module SfsDir.
Import CopyInOut Uio Lhd SfsLayout Sfs SfsBlocks SfsMap SfsFile.

(** ** Metadata I/O *)

Section meta.
Context (v : positive) (s : sfs_fs) (sv : sfs_vnode).
Hypothesis Hs : fs_ok s.
Hypothesis Hv : svs s !! v = Some sv.
Hypothesis Hf : file_ok s (sv_i sv).

(** Nothing but the card has changed. *)
Definition unchanged (s' : sfs_fs) : Prop :=
  file_step v s s' sv sv ∧ umem s' = umem s ∧ inuse s' = inuse s ∧ ∀ c, disk s' c = disk s c.

Lemma unchanged_bmap n r s1 :
  bmap_post v s sv n false r s1 → unchanged s1.
Proof using. intros (sv' & Hst & Hm & _ & _ & Hro & _). by destruct (Hro eq_refl) as (-> & ? & ?). Qed.

Lemma unchanged_dev s1 d' :
  unchanged s1 → dev_with (sfs_device s1) (platter (sfs_device s1)) d' → unchanged (set_hw (umem s1) d' s1).
Proof using.
  intros (Hst & Hm & Hin & Hdk) Hd.
  assert (svs s1 !! v = Some sv) as Hv1 by (rewrite (st_svs _ _ _ _ _ Hst); apply lookup_insert_eq).
  destruct (file_step_hw v s1 sv (st_ok _ _ _ _ _ Hst) Hv1 (st_file _ _ _ _ _ Hst) (umem s1) d' Hd) as [Hst2 Hdk2].
  split_and!; [by eapply file_step_trans|done..|congruence].
Qed.

Lemma meta_pos pos : 0 ≤ pos < 2 ^ 41 →
  (pos ÷ SFS_BLOCKSIZE) mod 2 ^ 32 = pos / 512 ∧ Z.rem pos SFS_BLOCKSIZE mod 2 ^ 32 = pos mod 512.
Proof using.
  intros Hp. unfold SFS_BLOCKSIZE. rewrite Z.quot_div_nonneg, Z.rem_mod_nonneg by lia.
  pose proof (Z.mod_pos_bound pos 512 ltac:(lia)).
  split; apply Z.mod_small; [|lia]. Z.to_euclidean_division_equations. lia.
Qed.

Lemma sfs_metaio_read pos data (Q : Z * list Z → sfs_fs → Prop) :
  0 ≤ pos < 2 ^ 41 → pos mod 512 + Z.of_nat (length data) ≤ 512 →
  (∀ s', unchanged s' → Q (0, slice (content s (sv_i sv)) pos (length data)) s') →
  (∀ s' e, unchanged s' → e = EFBIG ∧ MAXBLOCKS ≤ pos / 512 ∨ e = EIO ∧ ¬ healthy s → Q (e, data) s') →
  wp (sfs_metaio v pos data UIO_READ) Q s.
Proof using Hs Hv Hf.
  intros Hp Hlen Hgood Hbad. unfold sfs_metaio. destruct (meta_pos pos Hp) as [-> ->]. wp_go.
  pose proof (Z.mod_pos_bound pos 512 ltac:(lia)) as Hmod. assert (0 ≤ pos / 512) as Hq by (apply Z.div_pos; lia).
  apply wp_lock_held; [apply Hs|]. wp_check.
  eapply wp_mono; [|by apply sfs_bmap_correct]. intros r s1 Hbm. pose proof (unchanged_bmap _ _ _ Hbm) as Hu.
  pose proof Hu as (Hst & Hm & Hin & Hdk). destruct Hbm as (sv' & Hst' & _ & _ & _ & Hro & Hr).
  destruct (Hro eq_refl) as (-> & _). destruct r as [b|e]; [|wp_go; apply Hbad; [done|]].
  2: { destruct Hr as [?|[(? & ?)|?]]; [by left|done|by right]. }
  destruct Hr as (Hmax & Hb & _). rewrite (fblock_disk s s1) in Hb by done.
  rewrite slice_block in Hgood by (done || lia). unfold block_bytes in Hgood. rewrite Hb in Hgood.
  destruct (Z.eqb_spec b 0) as [Hz|Hnz].
  - wp_check. unfold zeros in Hgood. rewrite drop_replicate, take_replicate, Nat.min_l in Hgood by lia. by apply Hgood.
  - subst b. destruct (data_block s (sv_i sv) Hs Hf (pos / 512)) as (_ & _ & x & Hx & Hl & _); [done..|].
    rewrite Hx in Hgood. simpl in Hgood.
    wp_go. eapply (wp_readblock s1 _ x); [apply Hst|by rewrite Hdk|..]; intros d' Hd.
    + wp_go. apply wp_KASSERT; [unfold SFS_BLOCKSIZE; lia|]. wp_go. by apply Hgood, unchanged_dev.
    + intros Hd'. wp_go. apply Hbad; [by apply unchanged_dev|].
      right. split; [done|]. intros Hh. by apply Hd, (st_healthy _ _ _ _ _ Hst).
Qed.

(** A file that has grown or not. *)
Definition sized (sv' : sfs_vnode) (size : Z) : Prop :=
  sfi_size (sv_i sv') = size ∧ sfi_type (sv_i sv') = sfi_type (sv_i sv) ∧
  sfi_linkcount (sv_i sv') = sfi_linkcount (sv_i sv).

Lemma sfs_metaio_write pos data (Q : Z * list Z → sfs_fs → Prop) :
  healthy s → 0 ≤ pos → pos + Z.of_nat (length data) < 2 ^ 32 → pos mod 512 + Z.of_nat (length data) ≤ 512 →
  Forall is_byte data →
  (∀ s' sv', file_step v s s' sv sv' → umem s' = umem s →
     (∀ i, 0 ≤ i → content s' (sv_i sv') i = over (content s (sv_i sv)) pos data i) →
     sized sv' (Z.max (sfi_size (sv_i sv)) (pos + Z.of_nat (length data))) → pos / 512 < MAXBLOCKS →
     Q (0, data) s') →
  (∀ s' sv' e, file_step v s s' sv sv' → umem s' = umem s →
     (∀ i, 0 ≤ i → content s' (sv_i sv') i = content s (sv_i sv) i) → sized sv' (sfi_size (sv_i sv)) →
     e = EFBIG ∧ MAXBLOCKS ≤ pos / 512 ∨ e = ENOSPC ∧ fblock s (sv_i sv) (pos / 512) = 0 → Q (e, data) s') →
  wp (sfs_metaio v pos data UIO_WRITE) Q s.
Proof using Hs Hv Hf.
  intros Hh Hp Hend Hlen Hby Hgood Hbad. unfold sfs_metaio. destruct (meta_pos pos) as [-> ->]; [lia|]. wp_go.
  pose proof (Z.mod_pos_bound pos 512 ltac:(lia)) as Hmod. assert (0 ≤ pos / 512) as Hq by (apply Z.div_pos; lia).
  apply wp_lock_held; [apply Hs|]. wp_check.
  eapply wp_mono; [|by apply sfs_bmap_correct]. intros r s1 (sv1 & Hst & Hm & Hme & Hc & _ & Hr).
  destruct r as [b|e]; [|wp_go; by apply (Hbad _ sv1); [..|naive_solver]].
  destruct Hr as (Hmax & Hb & Hnz). specialize (Hnz eq_refl). destruct (Z.eqb_spec b 0) as [|_]; [done|].
  pose proof (st_ok _ _ _ _ _ Hst) as Hs1. pose proof (st_file _ _ _ _ _ Hst) as Hf1.
  assert (svs s1 !! v = Some sv1) as Hv1 by (rewrite (st_svs _ _ _ _ _ Hst); apply lookup_insert_eq).
  subst b. destruct (data_block s1 (sv_i sv1) Hs1 Hf1 (pos / 512)) as (_ & _ & x & Hx & Hl & Hxb); [done..|].
  wp_go. eapply (wp_readblock s1 _ x); [done|done|..]; intros d1 Hd1; [|by destruct Hd1; apply (st_healthy _ _ _ _ _ Hst)].
  wp_go. apply wp_KASSERT; [unfold SFS_BLOCKSIZE; lia|]. wp_go.
  destruct (after_read s1 d1 Hs1 Hd1) as (Hs2 & Hh2 & Hdk2).
  set (new := take (Z.to_nat (pos mod 512)) x ++ data ++ drop (Z.to_nat (pos mod 512) + length data) x).
  assert (length new = 512%nat) as Hnew by (unfold new; rewrite !length_app, length_take, length_drop; lia).
  eapply wp_writeblock; [done|by apply Hh2, (st_healthy _ _ _ _ _ Hst)|by rewrite Hdk2|done|].
  intros d2 Hd2. wp_go. simpl in Hd2.
  destruct Hd1 as (D1 & D2 & D3). rewrite D2 in Hd2.
  assert (dev_with (sfs_device s1) (zset (platter (sfs_device s1)) (fblock s1 (sv_i sv1) (pos / 512)) new) d2) as Hd3
    by (destruct Hd2 as (? & ? & ?); split_and!; auto).
  destruct (file_step_write v s1 sv1 Hs1 Hv1 Hf1 (pos / 512) new (umem s1) d2) as [Hst2 Hc2]; try done.
  { unfold new. rewrite !Forall_app. split_and!; [by apply Forall_take|done|by apply Forall_drop]. }
  set (s2 := set_hw (umem s1) d2 s1) in *.
  assert (∀ i, 0 ≤ i → content s2 (sv_i sv1) i = over (content s (sv_i sv)) pos data i) as Hc3.
  { intros i Hi. erewrite (splice_over s1 sv1 Hs1 Hf1 pos data new s2); [|done|lia| |done|done].
    - by apply over_ext, Hc.
    - unfold new. unfold block_bytes. destruct (Z.eqb_spec (fblock s1 (sv_i sv1) (pos / 512)) 0); [done|]. by rewrite Hx. }
  destruct Hme as (M1 & M2 & M3). apply wp_bind. eapply wp_get_sv; [exact Hv1|].
  destruct (Z.gtb_spec (pos + Z.of_nat (length data)) (sfi_size (sv_i sv1))); wp_go.
  - eapply wp_set_inode; [exact Hv1|]. wp_go. rewrite Z.mod_small by lia.
    eapply (Hgood _ (dirtied sv1 (with_size (pos + Z.of_nat (length data)) (sv_i sv1)))); [|done|exact Hc3| |done].
    + eapply file_step_trans; [exact Hst|]. eapply file_step_trans; [exact Hst2|].
      apply file_step_size; [apply Hst2|apply Hst2|]. unfold is_word. lia.
    + split_and!; simpl; [lia|done|done].
  - apply (Hgood _ sv1); [by eapply file_step_trans|done|exact Hc3| |done]. split_and!; [lia|done|done].
Qed.
End meta.

(** ** Directories as maps *)

Definition nent (d : sfs_dinode) : Z := sfi_size d / 64.
Definition dirent (s : sfs_fs) (d : sfs_dinode) (i : Z) : sfs_direntry :=
  direntry_of (slice (content s d) (i * 64) 64).
Definition entries (s : sfs_fs) (d : sfs_dinode) : list sfs_direntry := dirent s d <$> seqZ 0 (nent d).

(** The names in use, with their inode numbers. *)
Definition pairs (l : list sfs_direntry) : list (list Z * Z) :=
  (λ e, (entry_name e, sfd_ino e)) <$> filter (λ e, sfd_ino e ≠ 0) l.
Definition dirmap (s : sfs_fs) (d : sfs_dinode) : gmap (list Z) Z := list_to_map (pairs (entries s d)).

Record dir_ok (s : sfs_fs) (d : sfs_dinode) : Prop := {
  do_file : file_ok s d;
  do_type : sfi_type d = SFS_TYPE_DIR;
  do_size : sfi_size d mod 64 = 0 ∧ sfi_size d ≤ MAXBLOCKS * 512;
  do_names : NoDup (pairs (entries s d)).*1;
}.

Lemma pairs_app l k : pairs (l ++ k) = pairs l ++ pairs k.
Proof. unfold pairs. by rewrite filter_app, fmap_app. Qed.

Lemma pairs_cons e l : pairs (e :: l) = pairs [e] ++ pairs l.
Proof. exact (pairs_app [e] l). Qed.

Lemma pairs_used e : sfd_ino e ≠ 0 → pairs [e] = [(entry_name e, sfd_ino e)].
Proof. intros He. unfold pairs. by rewrite filter_cons_True. Qed.
Lemma pairs_free e : sfd_ino e = 0 → pairs [e] = [].
Proof. intros He. unfold pairs. rewrite filter_cons_False; [done|]. tauto. Qed.

Lemma length_entries s d : 0 ≤ nent d → Z.of_nat (length (entries s d)) = nent d.
Proof. intros Hn. unfold entries. rewrite length_fmap, length_seqZ. lia. Qed.

Lemma entries_lookup s d i : 0 ≤ i < nent d → entries s d !! Z.to_nat i = Some (dirent s d i).
Proof.
  intros Hi. unfold entries. rewrite list_lookup_fmap, lookup_seqZ_lt by lia. simpl. do 2 f_equal. lia.
Qed.

Section dir.
Context (v : positive) (sv : sfs_vnode).

Lemma unchanged_refl s : fs_ok s → svs s !! v = Some sv → file_ok s (sv_i sv) → unchanged v s sv s.
Proof. intros. split_and!; try done. by apply file_step_same. Qed.

Lemma unchanged_trans s s1 s2 : unchanged v s sv s1 → unchanged v s1 sv s2 → unchanged v s sv s2.
Proof.
  intros (H1 & H2 & H3 & H4) (K1 & K2 & K3 & K4).
  split_and!; [by eapply file_step_trans|congruence..].
Qed.

Lemma unchanged_v s s' : unchanged v s sv s' → svs s' !! v = Some sv.
Proof. intros (Hst & _). rewrite (st_svs _ _ _ _ _ Hst). apply lookup_insert_eq. Qed.

Lemma unchanged_dirent s s' i : unchanged v s sv s' → 0 ≤ i → dirent s' (sv_i sv) i = dirent s (sv_i sv) i.
Proof.
  intros (_ & _ & _ & Hdk) Hi. unfold dirent. f_equal. apply slice_ext; [lia|]. intros k _. by apply content_disk.
Qed.

Lemma slot_pos d i : sfi_size d ≤ MAXBLOCKS * 512 → 0 ≤ i → i * 64 < sfi_size d ∨ i = nent d →
  (i * DIRENTRY_SIZE) mod 2 ^ 32 = i * 64 ∧ 0 ≤ i * 64 ≤ 143 * 512 ∧ (i * 64) mod 512 + 64 ≤ 512.
Proof.
  unfold MAXBLOCKS, DIRENTRY_SIZE, nent. intros Hs Hi Hor.
  assert (i * 64 ≤ sfi_size d) by (destruct Hor as [?| ->]; [lia|Z.to_euclidean_division_equations; lia]).
  rewrite Z.mod_small by lia. split_and!; try lia. Z.to_euclidean_division_equations. lia.
Qed.

Lemma sfs_readdir_correct s i (Q : result sfs_direntry → sfs_fs → Prop) :
  fs_ok s → svs s !! v = Some sv → file_ok s (sv_i sv) → sfi_size (sv_i sv) ≤ MAXBLOCKS * 512 →
  0 ≤ i < nent (sv_i sv) →
  (∀ s', unchanged v s sv s' → Q (Ok (dirent s (sv_i sv) i)) s') →
  (∀ s', unchanged v s sv s' → ¬ healthy s → Q (Err EIO) s') →
  wp (sfs_readdir v i) Q s.
Proof.
  intros Hs Hv Hf Hsz Hi Hgood Hbad. unfold sfs_readdir.
  assert (i * 64 + 64 ≤ sfi_size (sv_i sv)) as Hin by (unfold nent in Hi; Z.to_euclidean_division_equations; lia).
  destruct (slot_pos (sv_i sv) i) as (-> & Hp & Hal); [done|lia|lia|]. wp_go.
  apply (sfs_metaio_read v s sv Hs Hv Hf); [lia|rewrite length_replicate; lia|..].
  - intros s' Hu. wp_go. rewrite length_replicate. by apply Hgood.
  - intros s' e Hu [[-> Hbig]|[-> Hh]]; wp_go; [|by apply Hbad]. unfold MAXBLOCKS in *.
    assert (143 * 512 ≤ i * 64) by (Z.to_euclidean_division_equations; lia). lia.
Qed.

(** What the search has found among the entries [l], the first of which is slot [i]. *)
Definition search_post (name : list Z) (l : list sfs_direntry) (i : Z) (found : option (Z * Z))
    (empty : Z) (r : option (Z * Z) * Z) : Prop :=
  match r.1 with
  | None => found = None ∧ name ∉ (pairs l).*1
  | Some (k, ino) => found = Some (k, ino) ∨ i ≤ k ∧ ino ≠ 0 ∧
      ∃ e, l !! Z.to_nat (k - i) = Some e ∧ entry_name e = name ∧ sfd_ino e = ino
  end ∧
  (r.2 = empty ∧ Forall (λ e, sfd_ino e ≠ 0) l ∨
   i ≤ r.2 ∧ ∃ e, l !! Z.to_nat (r.2 - i) = Some e ∧ sfd_ino e = 0).

Lemma search_post_cons name e l i found found' empty empty' r :
  search_post name l (i + 1) found' empty' r →
  (sfd_ino e ≠ 0 ∧ empty' = empty ∨ sfd_ino e = 0 ∧ empty' = i) →
  (found' = found ∧ (sfd_ino e = 0 ∨ entry_name e ≠ name) ∨
   found' = Some (i, sfd_ino e) ∧ sfd_ino e ≠ 0 ∧ entry_name e = name) →
  search_post name (e :: l) i found empty r.
Proof.
  intros [Hf He] Hem Hfo. assert (∀ k, i + 1 ≤ k → (e :: l) !! Z.to_nat (k - i) = l !! Z.to_nat (k - (i + 1))) as Hlk.
  { intros k Hk. replace (Z.to_nat (k - i)) with (S (Z.to_nat (k - (i + 1)))) by lia. done. }
  split.
  - destruct r.1 as [[k ino]|].
    + destruct Hf as [->|(Hk & Hino & e' & H1 & H2)].
      * destruct Hfo as [[<- _]|([= -> ->] & Hu & Hn)]; [by left|]. right. split_and!; [lia|done|]. exists e.
        by replace (Z.to_nat (i - i)) with 0%nat by lia.
      * right. split_and!; [lia|done|]. exists e'. by rewrite Hlk.
    + destruct Hf as [-> Hn]. destruct Hfo as [[<- Hfo]|(? & _)]; [|done]. split; [done|].
      rewrite pairs_cons. destruct (decide (sfd_ino e = 0)) as [Hz|Hnz]; [by rewrite pairs_free|].
      rewrite pairs_used by done. simpl. set_solver.
  - destruct He as [[-> Hall]|(Hk & e' & H1 & H2)].
    + destruct Hem as [[Hu ->]|[Hz ->]]; [left; split; [done|by constructor]|]. right. split; [lia|]. exists e.
      by replace (Z.to_nat (i - i)) with 0%nat by lia.
    + right. split; [lia|]. exists e'. by rewrite Hlk.
Qed.

Lemma dir_find_loop_correct name l i found empty s (Q : result (option (Z * Z) * Z) → sfs_fs → Prop) :
  fs_ok s → svs s !! v = Some sv → file_ok s (sv_i sv) → sfi_size (sv_i sv) ≤ MAXBLOCKS * 512 →
  0 ≤ i → i + Z.of_nat (length l) ≤ nent (sv_i sv) →
  (∀ k, (k < length l)%nat → l !! k = Some (dirent s (sv_i sv) (i + Z.of_nat k))) →
  NoDup (pairs l).*1 → (found = None ∨ name ∉ (pairs l).*1) →
  (∀ r s', unchanged v s sv s' → search_post name l i found empty r → Q (Ok r) s') →
  (∀ s', unchanged v s sv s' → ¬ healthy s → Q (Err EIO) s') →
  wp (find_loop v name (length l) i found empty) Q s.
Proof.
  revert i found empty s Q. induction l as [|e l IH]; intros i found empty s Q Hs Hv Hf Hsz Hi Hlen Hl Hnd Hfound Hgood Hbad.
  { simpl. wp_go. apply Hgood; [by apply unchanged_refl|]. split; [|by left].
    simpl. destruct found as [[k ino]|]; [by left|]. split; [done|apply not_elem_of_nil]. }
  cbn [length find_loop]. wp_go. apply sfs_readdir_correct; try done; [simpl in Hlen; lia|].
  intros s1 Hu. wp_go.
  assert (dirent s (sv_i sv) i = e) as He.
  { specialize (Hl 0%nat ltac:(simpl; lia)). simpl in Hl. rewrite Z.add_0_r in Hl. congruence. }
  rewrite He. rewrite pairs_cons, fmap_app in Hnd, Hfound.
  apply NoDup_app in Hnd as (Hnd1 & Hdis & Hnd2).
  assert (∀ found' empty', (found' = None ∨ name ∉ (pairs l).*1) →
    (∀ r, search_post name l (i + 1) found' empty' r → search_post name (e :: l) i found empty r) →
    wp (find_loop v name (length l) (i + 1) found' empty') Q s1) as Hnext.
  { intros found' empty' Hf' Hstep. pose proof Hu as (Hst & _). apply IH; try done.
    - apply Hst.
    - by apply (unchanged_v s).
    - apply Hst.
    - lia.
    - simpl in Hlen. lia.
    - intros k Hk. specialize (Hl (S k) ltac:(simpl; lia)). simpl in Hl. rewrite Hl.
      rewrite (unchanged_dirent s s1) by (done || lia). do 2 f_equal. lia.
    - intros r s2 Hu2 Hr. apply Hgood; [by eapply unchanged_trans|by apply Hstep].
    - intros s2 Hu2 Hh. apply Hbad; [by eapply unchanged_trans|]. intros Hh'. by apply Hh, (st_healthy _ _ _ _ _ Hst). }
  change SFS_NOINO with 0. destruct (Z.eqb_spec (sfd_ino e) 0) as [Hz|Hnz].
  - rewrite pairs_free in Hfound by done. apply Hnext; [done|]. intros r Hr.
    eapply search_post_cons; [exact Hr|by right|left; by auto].
  - rewrite pairs_used in Hfound, Hdis by done. simpl in *.
    destruct (bool_decide_reflect (entry_name e = name)) as [Hn|Hn].
    + assert (found = None) as -> by (destruct Hfound as [|Hni]; [done|]; destruct Hni; rewrite <- Hn; left). wp_check.
      apply Hnext; [right; rewrite <- Hn; apply Hdis; left|]. intros r Hr.
      eapply search_post_cons; [exact Hr|by left|by right].
    + apply Hnext; [destruct Hfound as [|Hni%not_elem_of_cons]; [by left|right; apply Hni]|]. intros r Hr.
      eapply search_post_cons; [exact Hr|by left|left; by auto].
Qed.

(** *** Searching *)

Lemma dir_fields s : dir_ok s (sv_i sv) → 0 ≤ sfi_size (sv_i sv) ∧ 0 ≤ nent (sv_i sv) ∧
  sfi_size (sv_i sv) = nent (sv_i sv) * 64.
Proof.
  intros [Hf _ [Hm _] _]. pose proof (di_size _ (f_inode _ _ Hf)) as [Hz _]. unfold nent.
  Z.to_euclidean_division_equations. lia.
Qed.

Lemma sfs_dir_nentries_correct s (Q : Z → sfs_fs → Prop) :
  svs s !! v = Some sv → dir_ok s (sv_i sv) → Q (nent (sv_i sv)) s → wp (sfs_dir_nentries v) Q s.
Proof.
  intros Hv Hd HQ. unfold sfs_dir_nentries. wp_go. eapply wp_get_sv; [done|]. rewrite (do_type _ _ Hd). wp_check.
  unfold DIRENTRY_SIZE. rewrite (proj1 (do_size _ _ Hd)). by wp_check.
Qed.

(** The outcome of a search: the slot and the inode of the name, or its absence; and
    a free slot, if there is one. *)
Definition found_post (s : sfs_fs) (name : list Z) (r : result (Z * Z)) (empty : Z) : Prop :=
  match r with
  | Ok (k, ino) => 0 ≤ k < nent (sv_i sv) ∧ ino ≠ 0 ∧ entry_name (dirent s (sv_i sv) k) = name ∧
      sfd_ino (dirent s (sv_i sv) k) = ino ∧ dirmap s (sv_i sv) !! name = Some ino
  | Err e => e = ENOENT ∧ dirmap s (sv_i sv) !! name = None
  end ∧
  (empty = -1 ∧ Forall (λ e, sfd_ino e ≠ 0) (entries s (sv_i sv)) ∨
   0 ≤ empty < nent (sv_i sv) ∧ sfd_ino (dirent s (sv_i sv) empty) = 0).

Lemma entries_at s k e : entries s (sv_i sv) !! Z.to_nat k = Some e → 0 ≤ k →
  k < nent (sv_i sv) ∧ e = dirent s (sv_i sv) k.
Proof.
  intros He Hk. pose proof (lookup_lt_Some _ _ _ He) as Hlt. unfold entries in Hlt.
  rewrite length_fmap, length_seqZ in Hlt. rewrite entries_lookup in He by lia. split; [lia|congruence].
Qed.

Lemma pairs_elem l e : e ∈ l → sfd_ino e ≠ 0 → (entry_name e, sfd_ino e) ∈ pairs l.
Proof.
  intros He Hu. unfold pairs. apply list_elem_of_fmap. exists e. split; [done|]. by apply list_elem_of_filter.
Qed.

Lemma search_found s name r :
  dir_ok s (sv_i sv) → search_post name (entries s (sv_i sv)) 0 None (-1) r →
  found_post s name (match r.1 with Some x => Ok x | None => Err ENOENT end) r.2.
Proof.
  intros Hd [Hf He]. split.
  - destruct r.1 as [[k ino]|].
    + destruct Hf as [|(Hk & Hino & e & H1 & H2 & H3)]; [done|]. rewrite Z.sub_0_r in H1.
      destruct (entries_at s k e H1 Hk) as [Hlt Heq]. subst e. split_and!; try done.
      unfold dirmap. apply elem_of_list_to_map_1; [apply Hd|]. rewrite <- H2, <- H3.
      apply pairs_elem; [|congruence]. by eapply list_elem_of_lookup_2.
    + destruct Hf as [_ Hn]. split; [done|]. by apply not_elem_of_list_to_map_1.
  - destruct He as [[-> Hall]|(Hk & e & H1 & H2)]; [by left|]. right. rewrite Z.sub_0_r in H1.
    destruct (entries_at s r.2 e H1 Hk) as [Hlt Heq]. subst e. done.
Qed.

Lemma sfs_dir_findname_correct s name (Q : result (Z * Z) * Z → sfs_fs → Prop) :
  fs_ok s → svs s !! v = Some sv → dir_ok s (sv_i sv) →
  (∀ r empty s', unchanged v s sv s' → found_post s name r empty → Q (r, empty) s') →
  (∀ s', unchanged v s sv s' → ¬ healthy s → Q (Err EIO, -1) s') →
  wp (sfs_dir_findname v name) Q s.
Proof.
  intros Hs Hv Hd Hgood Hbad. destruct (dir_fields s Hd) as (_ & Hn & _). unfold sfs_dir_findname. wp_go.
  apply sfs_dir_nentries_correct; [done..|]. wp_go.
  assert (Z.to_nat (nent (sv_i sv)) = length (entries s (sv_i sv))) as -> by (pose proof (length_entries s (sv_i sv) Hn); lia).
  apply (dir_find_loop_correct name (entries s (sv_i sv)) 0 None (-1) s); try done.
  - apply Hd.
  - apply Hd.
  - rewrite length_entries by done. lia.
  - intros k Hk. rewrite <- (Nat2Z.id k) at 1. pose proof (length_entries s (sv_i sv) Hn).
    rewrite entries_lookup by lia. do 2 f_equal; lia.
  - apply Hd.
  - by left.
  - intros [f em] s' Hu Hp%search_found; [|done]. wp_go. simpl in Hp. destruct f as [x|]; by apply Hgood.
Qed.

(** *** Writing an entry *)

Definition entry_ok (e : sfs_direntry) : Prop :=
  is_word (sfd_ino e) ∧ length (sfd_name e) = 60%nat ∧ Forall is_byte (sfd_name e).

Lemma direntry_roundtrip e : entry_ok e → direntry_of (direntry_bytes e) = e.
Proof.
  intros (Hi & Hl & _). unfold direntry_of, direntry_bytes.
  rewrite take_app_length', drop_app_length' by done. destruct e as [ino name]. simpl sfd_ino.
  pose proof (words_bytes [ino] ltac:(by apply Forall_singleton)) as Hw. unfold bytes_of_words in Hw.
  simpl in Hw. rewrite ?app_nil_r in Hw. f_equal. unfold bytes_of_word. cbn [words_of_bytes].
  unfold bytes_of_word in Hw. cbn [app words_of_bytes] in Hw. injection Hw as Hw. exact Hw.
Qed.

Lemma length_direntry_bytes e : entry_ok e → length (direntry_bytes e) = 64%nat.
Proof. intros (_ & Hl & _). unfold direntry_bytes. rewrite length_app, Hl. done. Qed.

Lemma slice_over_same f off xs : slice (over f off xs) off (length xs) = xs.
Proof.
  apply list_eq_same_length with (length xs); [done|by rewrite length_slice|].
  intros k x y Hk. unfold slice. rewrite list_lookup_fmap, lookup_seqZ_lt by lia. simpl. unfold over.
  intros [= <-] Hy. rewrite znth_lookup by lia. replace (Z.to_nat _) with k by lia. by rewrite Hy.
Qed.

Lemma slice_over_other f off xs off' n :
  off' + Z.of_nat n ≤ off ∨ off + Z.of_nat (length xs) ≤ off' → slice (over f off xs) off' n = slice f off' n.
Proof.
  intros Hd. apply list_fmap_ext. intros j x Hx%list_elem_of_lookup_2%elem_of_seqZ. unfold over.
  destruct (znth xs _) as [y|] eqn:Hy; [|done]. apply znth_Some_range in Hy. lia.
Qed.

(** The directory with the entry [e] in slot [k]. *)
Definition entry_set (s : sfs_fs) (k : Z) (e : sfs_direntry) (s' : sfs_fs) (sv' : sfs_vnode) : Prop :=
  nent (sv_i sv') = Z.max (nent (sv_i sv)) (k + 1) ∧
  ∀ i, 0 ≤ i → dirent s' (sv_i sv') i = if decide (i = k) then e else dirent s (sv_i sv) i.

(** The same entries. *)
Definition entries_kept (s s' : sfs_fs) (sv' : sfs_vnode) : Prop :=
  nent (sv_i sv') = nent (sv_i sv) ∧ ∀ i, 0 ≤ i → dirent s' (sv_i sv') i = dirent s (sv_i sv) i.

Lemma sfs_writedir_correct s k e (Q : Z → sfs_fs → Prop) :
  fs_ok s → healthy s → svs s !! v = Some sv → dir_ok s (sv_i sv) → 0 ≤ k ≤ nent (sv_i sv) → entry_ok e →
  (∀ s' sv', file_step v s s' sv sv' → umem s' = umem s → entry_set s k e s' sv' →
     sized sv sv' (Z.max (sfi_size (sv_i sv)) (k * 64 + 64)) → k < MAXBLOCKS * 8 → Q 0 s') →
  (∀ s' sv' err, file_step v s s' sv sv' → umem s' = umem s → entries_kept s s' sv' →
     sized sv sv' (sfi_size (sv_i sv)) →
     err = EFBIG ∧ MAXBLOCKS * 8 ≤ k ∨ err = ENOSPC ∧ sfd_ino (dirent s (sv_i sv) k) = 0 → Q err s') →
  wp (sfs_writedir v k e) Q s.
Proof.
  intros Hs Hh Hv Hd Hk He Hgood Hbad. destruct (dir_fields s Hd) as (Hz & Hn & Hsz).
  pose proof (proj2 (do_size _ _ Hd)) as Hmax. unfold sfs_writedir. wp_check.
  destruct (slot_pos (sv_i sv) k) as (-> & Hp & Hal); [done|lia|lia|].
  pose proof (length_direntry_bytes e He) as Hl.
  apply (sfs_metaio_write v s sv Hs Hv (do_file _ _ Hd)); rewrite ?Hl; [done|lia|lia|lia|..].
  - apply Forall_app. split; [apply bytes_of_word_ok|apply He].
  - intros s' sv' Hst Hm Hc Hsize Hlt. wp_go. apply (Hgood s' sv'); [done|done| |done|].
    + split; [destruct Hsize as [Hsv _]; unfold nent in *; rewrite Hsv; Z.to_euclidean_division_equations; lia|].
      intros i Hi. unfold dirent. rewrite (slice_ext _ _ (i * 64) 64 ltac:(lia) Hc). case_decide as Heq.
      * subst i. rewrite <- Hl, slice_over_same. by apply direntry_roundtrip.
      * rewrite slice_over_other; [done|]. rewrite Hl. lia.
    + unfold MAXBLOCKS in *. Z.to_euclidean_division_equations. lia.
  - intros s' sv' err Hst Hm Hc Hsize Herr. wp_go. apply (Hbad s' sv'); [done|done| |done|].
    + split; [destruct Hsize as [Hsv _]; unfold nent; by rewrite Hsv|]. intros i Hi. unfold dirent.
      by rewrite (slice_ext _ _ (i * 64) 64 ltac:(lia) Hc).
    + destruct Herr as [[-> Hbig]|[-> Hhole]]; [left; split; [done|]|right; split; [done|]].
      * unfold MAXBLOCKS in *. Z.to_euclidean_division_equations. lia.
      * unfold dirent. rewrite (slice_zeros s); [done|done|apply Hd|lia|lia|done].
Qed.

Lemma seqZ_one a : seqZ a 1 = [a].
Proof. by rewrite seqZ_cons. Qed.

(** The list of entries before and after. *)
Lemma entry_set_entries s k e s' sv' :
  0 ≤ k ≤ nent (sv_i sv) → entry_set s k e s' sv' →
  ∃ l1 mid l2, entries s (sv_i sv) = l1 ++ mid ++ l2 ∧ entries s' (sv_i sv') = l1 ++ [e] ++ l2 ∧
    (k < nent (sv_i sv) → mid = [dirent s (sv_i sv) k]) ∧ (k = nent (sv_i sv) → mid = []).
Proof.
  intros Hk [Hn He]. set (n := nent (sv_i sv)) in *. set (m := Z.min 1 (n - k)).
  exists (dirent s (sv_i sv) <$> seqZ 0 k), (dirent s (sv_i sv) <$> seqZ k m),
    (dirent s (sv_i sv) <$> seqZ (k + 1) (n - k - m)).
  assert (∀ a c, 0 ≤ a → (k < a ∨ a + c ≤ k) →
    dirent s' (sv_i sv') <$> seqZ a c = dirent s (sv_i sv) <$> seqZ a c) as Hsame.
  { intros a c Ha Hac. apply list_fmap_ext. intros j x Hx%list_elem_of_lookup_2%elem_of_seqZ.
    rewrite He by lia. rewrite decide_False by lia. done. }
  split_and!.
  - unfold entries. fold n. destruct (decide (k = n)) as [->|Hne].
    + replace m with 0 by lia. replace (n - n - 0) with 0 by lia. by rewrite app_nil_r.
    + replace m with 1 by lia. replace n with (k + (1 + (n - k - 1))) at 1 by lia.
      rewrite seqZ_app, (seqZ_app (0 + k)) by lia. by rewrite !fmap_app.
  - unfold entries. rewrite Hn. replace (Z.max n (k + 1)) with (k + (1 + (n - k - m))) by lia.
    rewrite seqZ_app, (seqZ_app (0 + k)) by lia. rewrite !fmap_app, Hsame, (Hsame (0 + k + 1)) by lia.
    f_equal. f_equal. rewrite seqZ_one. simpl. rewrite He by lia. by rewrite decide_True by lia.
  - intros Hlt. unfold m. replace (Z.min 1 (n - k)) with 1 by lia. by rewrite seqZ_one.
  - intros ->. unfold m. replace (Z.min 1 (n - n)) with 0 by lia. done.
Qed.

Lemma pairs_perm l1 e l2 : pairs (l1 ++ [e] ++ l2) ≡ₚ pairs [e] ++ pairs (l1 ++ l2).
Proof. rewrite !pairs_app. by rewrite Permutation_app_swap_app. Qed.

(** A name comes in. *)
Lemma entry_set_link s k e s' sv' :
  0 ≤ k ≤ nent (sv_i sv) → entry_set s k e s' sv' → NoDup (pairs (entries s (sv_i sv))).*1 →
  (k < nent (sv_i sv) → sfd_ino (dirent s (sv_i sv) k) = 0) → sfd_ino e ≠ 0 →
  dirmap s (sv_i sv) !! entry_name e = None →
  NoDup (pairs (entries s' (sv_i sv'))).*1 ∧
  dirmap s' (sv_i sv') = <[entry_name e := sfd_ino e]> (dirmap s (sv_i sv)).
Proof.
  intros Hk Hset Hnd Hfree Hu Hnone. unfold dirmap in *.
  destruct (entry_set_entries s k e s' sv' Hk Hset) as (l1 & mid & l2 & Hl & Hl' & Hmid & Hmid').
  assert (pairs (entries s (sv_i sv)) = pairs (l1 ++ l2)) as Hp.
  { rewrite Hl, !pairs_app. destruct (decide (k = nent (sv_i sv))) as [Heq|Hne].
    - by rewrite (Hmid' Heq).
    - by rewrite Hmid, pairs_free by (first [lia|apply Hfree; lia]). }
  rewrite Hp in *. assert (pairs (entries s' (sv_i sv')) ≡ₚ (entry_name e, sfd_ino e) :: pairs (l1 ++ l2)) as Hp'.
  { by rewrite Hl', pairs_perm, pairs_used. }
  assert (NoDup ((entry_name e, sfd_ino e) :: pairs (l1 ++ l2)).*1) as Hnd'.
  { simpl. constructor; [|done]. by apply not_elem_of_list_to_map_2. }
  assert (NoDup (pairs (entries s' (sv_i sv'))).*1) as Hnd2 by (by rewrite Hp').
  split; [done|]. by rewrite (list_to_map_proper _ _ Hnd2 Hp').
Qed.

(** A name goes away. *)
Lemma entry_set_unlink s k e s' sv' :
  0 ≤ k < nent (sv_i sv) → entry_set s k e s' sv' → NoDup (pairs (entries s (sv_i sv))).*1 →
  sfd_ino (dirent s (sv_i sv) k) ≠ 0 → sfd_ino e = 0 →
  NoDup (pairs (entries s' (sv_i sv'))).*1 ∧
  dirmap s' (sv_i sv') = delete (entry_name (dirent s (sv_i sv) k)) (dirmap s (sv_i sv)).
Proof.
  intros Hk Hset Hnd Hu Hfree. unfold dirmap in *. set (old := dirent s (sv_i sv) k) in *.
  destruct (entry_set_entries s k e s' sv') as (l1 & mid & l2 & Hl & Hl' & Hmid & _); [lia|done|].
  rewrite Hmid in Hl by lia. fold old in Hl.
  assert (pairs (entries s' (sv_i sv')) = pairs (l1 ++ l2)) as Hp' by (by rewrite Hl', !pairs_app, pairs_free).
  assert (pairs (entries s (sv_i sv)) ≡ₚ (entry_name old, sfd_ino old) :: pairs (l1 ++ l2)) as Hp.
  { by rewrite Hl, pairs_perm, pairs_used. }
  rewrite Hp'. pose proof Hnd as Hnd'. rewrite Hp in Hnd'. simpl in Hnd'. apply NoDup_cons in Hnd' as [Hni Hnd'].
  split; [done|]. rewrite (list_to_map_proper _ _ Hnd Hp). simpl. rewrite delete_insert_id; [done|].
  by apply not_elem_of_list_to_map_1.
Qed.

(** *** Linking and unlinking *)

Definition name_ok (name : list Z) : Prop := Forall (λ c, 0 < c < 256) name.

Lemma cstring_app name k : name_ok name → cstring (name ++ replicate (S k) 0) = name.
Proof.
  intros Hn. induction Hn as [|c name Hc _ IH]; [done|]. simpl in *.
  destruct (Z.eqb_spec c 0); [lia|]. by rewrite IH.
Qed.

Definition new_entry (name : list Z) (ino : Z) : sfs_direntry :=
  mkDirentry ino (name ++ replicate (60 - length name) 0).

Lemma new_entry_ok name ino : name_ok name → (length name < 60)%nat → is_word ino →
  entry_ok (new_entry name ino) ∧ entry_name (new_entry name ino) = name.
Proof.
  intros Hn Hl Hi. split.
  - unfold new_entry. split_and!; [done|cbn [sfd_name]; rewrite length_app, length_replicate; lia|]. cbn [sfd_name]. apply Forall_app. split.
    + eapply Forall_impl; [exact Hn|]. intros c Hc. simpl in Hc. unfold is_byte. lia.
    + apply Forall_replicate. unfold is_byte. lia.
  - unfold entry_name, new_entry. cbn [sfd_name]. rewrite zset_id.
    + replace (60 - length name)%nat with (S (59 - length name)) by lia. by apply cstring_app.
    + rewrite znth_app, decide_False, znth_replicate by lia. done.
Qed.

(** The directory, still one, after an operation on it. *)
Definition dir_step (s s' : sfs_fs) (sv' : sfs_vnode) : Prop :=
  file_step v s s' sv sv' ∧ umem s' = umem s ∧ dir_ok s' (sv_i sv') ∧
  sfi_linkcount (sv_i sv') = sfi_linkcount (sv_i sv).

Lemma entries_same s s' sv' : entries_kept s s' sv' → entries s' (sv_i sv') = entries s (sv_i sv).
Proof.
  intros [Hn He]. unfold entries. rewrite Hn. apply list_fmap_ext.
  intros j x Hx%list_elem_of_lookup_2%elem_of_seqZ. by rewrite He by lia.
Qed.

Lemma dir_step_kept s s' sv' :
  dir_ok s (sv_i sv) → file_step v s s' sv sv' → umem s' = umem s → entries_kept s s' sv' →
  sized sv sv' (sfi_size (sv_i sv)) → dir_step s s' sv' ∧ dirmap s' (sv_i sv') = dirmap s (sv_i sv).
Proof.
  intros [D1 D2 D3 D4] Hst Hm Hk (Z1 & Z2 & Z3). pose proof (entries_same s s' sv' Hk) as He.
  split; [|unfold dirmap; by rewrite He]. split_and!; [done|done| |done].
  constructor; [apply Hst|congruence|by rewrite Z1|by rewrite He].
Qed.

Lemma dir_step_unchanged s s' :
  dir_ok s (sv_i sv) → unchanged v s sv s' → dir_step s s' sv ∧ dirmap s' (sv_i sv) = dirmap s (sv_i sv).
Proof.
  intros Hd Hu. pose proof Hu as (Hst & Hm & _ & _). apply dir_step_kept; try done. split; [done|].
  intros i Hi. by apply unchanged_dirent.
Qed.

Definition link_post (s : sfs_fs) (name : list Z) (ino : Z) (r : result Z) (s' : sfs_fs) : Prop :=
  ∃ sv', dir_step s s' sv' ∧
    match r with
    | Ok slot => (length name < 60)%nat ∧ dirmap s (sv_i sv) !! name = None ∧
        dirmap s' (sv_i sv') = <[name := ino]> (dirmap s (sv_i sv))
    | Err e => dirmap s' (sv_i sv') = dirmap s (sv_i sv) ∧
        (e = EEXIST ∧ is_Some (dirmap s (sv_i sv) !! name) ∨
         dirmap s (sv_i sv) !! name = None ∧
           (e = ENAMETOOLONG ∧ (60 ≤ length name)%nat ∨ e = EFBIG ∧ MAXBLOCKS * 8 ≤ nent (sv_i sv) ∨ e = ENOSPC))
    end.

(** The entry is written to a free slot or to the end. *)
Lemma link_write_correct s s1 name ino k :
  fs_ok s → healthy s → dir_ok s (sv_i sv) → unchanged v s sv s1 → 0 ≤ k ≤ nent (sv_i sv) →
  (k < nent (sv_i sv) → sfd_ino (dirent s (sv_i sv) k) = 0) →
  dirmap s (sv_i sv) !! name = None → name_ok name → (length name < 60)%nat → is_word ino → ino ≠ 0 →
  wp (result ← sfs_writedir v k (new_entry name ino); mret (if result =? 0 then Ok k else Err result))
    (link_post s name ino) s1.
Proof.
  intros Hs Hh Hd Hu Hk Hfree Hnone Hname Hlen Hino Hnz. pose proof Hu as (Hst & Hm & _).
  destruct (new_entry_ok name ino Hname Hlen Hino) as [Heok Hen].
  destruct (dir_step_unchanged s s1 Hd Hu) as [(_ & _ & Hd1 & _) Hmap1]. wp_go.
  apply (sfs_writedir_correct s1 k (new_entry name ino)); [apply Hst|by apply Hst|by eapply unchanged_v|done|done|done|..].
  - intros s' sv' Hst' Hm' Hset (Z1 & Z2 & Z3) Hlt. wp_go. exists sv'.
    destruct (entry_set_link s1 k (new_entry name ino) s' sv') as [Hnd Hmap]; [done|done|exact (do_names _ _ Hd1)| |exact Hnz|..].
    { intros Hlt'. rewrite (unchanged_dirent s s1) by (done || lia). by apply Hfree. }
    { by rewrite Hmap1, Hen. }
    split; [|simpl; split_and!; [done|done|by rewrite Hmap, Hmap1, Hen]].
    split_and!; [by eapply file_step_trans|congruence| |done].
    pose proof (do_size _ _ Hd1) as [Hsz Hmx]. pose proof (dir_fields s1 Hd1) as (_ & _ & Hsz2).
    constructor; [apply Hst'|rewrite Z2; exact (do_type _ _ Hd1)| |done]. rewrite Z1. unfold MAXBLOCKS in *. split; [|lia].
    destruct (Z.max_spec (sfi_size (sv_i sv)) (k * 64 + 64)) as [[_ ->]|[_ ->]]; [|done].
    replace (k * 64 + 64) with ((k + 1) * 64) by lia. apply Z.mod_mul. lia.
  - intros s' sv' err Hst' Hm' Hkept Hsz Herr. wp_go.
    destruct (dir_step_kept s1 s' sv' Hd1 Hst' Hm' Hkept Hsz) as [(D1 & D2 & D3 & D4) Hmap].
    assert (err ≠ 0) as Hne by (destruct Herr as [[-> _]|[-> _]]; done). apply Z.eqb_neq in Hne. rewrite Hne.
    exists sv'. split; [split_and!; [by eapply file_step_trans|congruence|done|done]|]. split; [congruence|].
    right. split; [done|]. right. destruct Herr as [[-> Hbig]|[-> _]]; [left; split; [done|lia]|by right].
Qed.

Lemma sfs_dir_link_correct s name ino :
  fs_ok s → healthy s → svs s !! v = Some sv → dir_ok s (sv_i sv) → name_ok name → is_word ino → ino ≠ 0 →
  wp (sfs_dir_link v name ino) (link_post s name ino) s.
Proof.
  intros Hs Hh Hv Hd Hname Hino Hnz. destruct (dir_fields s Hd) as (_ & Hn & _). unfold sfs_dir_link. wp_go.
  apply sfs_dir_findname_correct; [done..| |done].
  intros r empty s1 Hu [Hr Hem]. destruct (dir_step_unchanged s s1 Hd Hu) as [Hstep Hmap].
  destruct r as [[k i]|e]; wp_go.
  { destruct Hr as (_ & _ & _ & _ & Hsome). exists sv. split; [done|]. split; [done|]. left. split; [done|by eexists]. }
  destruct Hr as [-> Hnone]. simpl.
  destruct (Z.gtb_spec (Z.of_nat (length name) + 1) SFS_NAMELEN) as [Hlong|Hshort]; unfold SFS_NAMELEN in *; wp_go.
  { exists sv. split; [done|]. split; [done|]. right. split; [done|]. left. split; [done|lia]. }
  destruct (Z.ltb_spec empty 0).
  - apply sfs_dir_nentries_correct; [by eapply unchanged_v|apply Hstep|].
    apply link_write_correct; try done; lia.
  - wp_go. apply wp_bind_inv. apply link_write_correct; try done; destruct Hem as [[-> _]|[? ?]]; lia.
Qed.

Lemma free_entry_ok : entry_ok (mkDirentry SFS_NOINO (replicate 60 0)).
Proof.
  split_and!; [unfold is_word, SFS_NOINO; simpl; lia|done|]. apply Forall_replicate. unfold is_byte. lia.
Qed.

Lemma sfs_dir_unlink_correct s k (Q : Z → sfs_fs → Prop) :
  fs_ok s → healthy s → svs s !! v = Some sv → dir_ok s (sv_i sv) → 0 ≤ k < nent (sv_i sv) →
  sfd_ino (dirent s (sv_i sv) k) ≠ 0 →
  (∀ s' sv', dir_step s s' sv' →
     dirmap s' (sv_i sv') = delete (entry_name (dirent s (sv_i sv) k)) (dirmap s (sv_i sv)) → Q 0 s') →
  wp (sfs_dir_unlink v k) Q s.
Proof.
  intros Hs Hh Hv Hd Hk Hu Hgood. destruct (dir_fields s Hd) as (_ & Hn & Hsz).
  pose proof (do_size _ _ Hd) as [Hm Hmax]. unfold sfs_dir_unlink.
  apply (sfs_writedir_correct s k); [done|done|done|done|lia|apply free_entry_ok|..].
  - intros s' sv' Hst Hum Hset (Z1 & Z2 & Z3) Hlt.
    destruct (entry_set_unlink s k (mkDirentry SFS_NOINO (replicate 60 0)) s' sv') as [Hnd Hmap];
      [done|done|exact (do_names _ _ Hd)|done|done|].
    apply (Hgood s' sv'); [|done]. split_and!; [done|done| |done].
    constructor; [apply Hst|rewrite Z2; exact (do_type _ _ Hd)| |done]. rewrite Z1. by rewrite Z.max_l by lia.
  - intros s' sv' e Hst Hum Hkept Hsize [[_ Hbig]|[_ Hz]]; [|done]. unfold MAXBLOCKS in *. lia.
Qed.
End dir.

End SfsDir.
