(* ===== verification/SfsTrunc.v ===== *)
(** * Truncating files on SFS (theorems about [sfs_itrunc], sfs_bmap.c)

    Which blocks a truncation gives back, and that it takes nothing else. *)

From Stdlib Require Import ZArith Lia.
From stdpp Require Import base numbers list gmap.
From S2P Require Import Prelude Bitmap CopyInOut Uio Lhd SfsLayout Sfs SfsBlocks SfsMap SfsFile.

Module SfsTrunc.
Import CopyInOut Uio Lhd SfsLayout Sfs SfsBlocks SfsMap SfsFile.

(** ** What remains *)

(** The file after the blocks in [gone] have been freed. *)
Record cut (v : positive) (s : sfs_fs) (sv : sfs_vnode) (gone : Z → bool) (s' : sfs_fs) (sv' : sfs_vnode)
  : Prop := {
  cu_step : file_step v s s' sv sv';
  cu_mem : umem s' = umem s;
  cu_meta : same_meta (sv_i sv) (sv_i sv');
  cu_map : ∀ n, 0 ≤ n < MAXBLOCKS → fblock s' (sv_i sv') n = if gone n then 0 else fblock s (sv_i sv) n;
  cu_data : ∀ n, 0 ≤ n < MAXBLOCKS → gone n = false → fblock s (sv_i sv) n ≠ 0 →
    disk s' (fblock s (sv_i sv) n) = disk s (fblock s (sv_i sv) n);
  cu_free : ∀ n, 0 ≤ n < MAXBLOCKS → gone n = true → fblock s (sv_i sv) n ≠ 0 → fblock s (sv_i sv) n ∉ inuse s';
  cu_sub : inuse s' ⊆ inuse s;
}.

Section cut.
Context (v : positive).

Lemma cut_refl s sv : fs_ok s → svs s !! v = Some sv → file_ok s (sv_i sv) → cut v s sv (λ _, false) s sv.
Proof. intros. constructor; try done. by apply file_step_same. Qed.

Lemma cut_weaken s sv g g' s' sv' :
  cut v s sv g s' sv' →
  (∀ n, 0 ≤ n < MAXBLOCKS → g' n = g n ∨ g' n = true ∧ fblock s' (sv_i sv') n = 0) → cut v s sv g' s' sv'.
Proof.
  intros [C1 C2 C3 C4 C5 C6 C7] Hg. constructor; try done.
  - intros n Hn. destruct (Hg n Hn) as [->|[-> ->]]; [by apply C4|done].
  - intros n Hn Hk. destruct (Hg n Hn) as [Heq|[Heq _]]; [|congruence]. apply C5; [done|congruence].
  - intros n Hn Hk Hnz. destruct (Hg n Hn) as [Heq|[_ Hz]]; [apply C6; [done|congruence|done]|].
    rewrite C4 in Hz by done. destruct (g n) eqn:Hgn; [by apply C6|done].
Qed.

Lemma cut_trans s sv g1 s1 sv1 g2 s2 sv2 :
  cut v s sv g1 s1 sv1 → cut v s1 sv1 g2 s2 sv2 → cut v s sv (λ n, g1 n || g2 n) s2 sv2.
Proof.
  intros [A1 A2 A3 A4 A5 A6 A7] [B1 B2 B3 B4 B5 B6 B7]. constructor.
  - by eapply file_step_trans.
  - congruence.
  - unfold same_meta in *. naive_solver congruence.
  - intros n Hn. rewrite B4, A4 by done. by destruct (g1 n), (g2 n).
  - intros n Hn [H1 H2]%orb_false_iff Hnz. specialize (A4 n Hn). rewrite H1 in A4.
    rewrite <- A4 at 1. rewrite B5 by (done || congruence). rewrite A4. by apply A5.
  - intros n Hn Hor Hnz. destruct (g1 n) eqn:H1; simpl in Hor.
    + intros Hin%B7. by apply (A6 n).
    + specialize (A4 n Hn). rewrite H1 in A4. rewrite <- A4. apply B6; [done|done|congruence].
  - by transitivity (inuse s1).
Qed.

(** The bytes of the blocks that are left. *)
Lemma cut_content s sv g s' sv' i :
  fs_ok s → file_ok s (sv_i sv) → cut v s sv g s' sv' → 0 ≤ i →
  content s' (sv_i sv') i = if g (i / 512) then 0 else content s (sv_i sv) i.
Proof.
  intros Hs Hf [C1 C2 C3 C4 C5 C6 C7] Hi. assert (0 ≤ i / 512) as Hq by (by apply Z.div_pos). unfold content.
  destruct (decide (i / 512 < MAXBLOCKS)) as [Hlt|Hge].
  - rewrite C4 by done. destruct (g (i / 512)) eqn:Hg; [done|].
    destruct (Z.eqb_spec (fblock s (sv_i sv) (i / 512)) 0); [done|]. by rewrite C5.
  - rewrite !fblock_past; [by destruct (g _)|done|done|lia|apply C1|apply C1|lia].
Qed.

(** How to get there. *)
Lemma cut_make s sv (g : Z → bool) s' sv' :
  fs_ok s' → (healthy s → healthy s') → same_vol s s' → svs s' = <[v := sv']> (svs s) →
  sv_ino sv' = sv_ino sv ∧ vn_refcount sv' = vn_refcount sv ∧ vn_ops sv' = vn_ops sv →
  sv' = sv ∨ sv_dirty sv' = true → umem s' = umem s → same_meta (sv_i sv) (sv_i sv') → dinode_ok (sv_i sv') →
  file_ok s (sv_i sv) →
  (∀ n, 0 ≤ n < MAXBLOCKS → fblock s' (sv_i sv') n = if g n then 0 else fblock s (sv_i sv) n) →
  sfi_indirect (sv_i sv') = sfi_indirect (sv_i sv) ∨ sfi_indirect (sv_i sv') = 0 →
  (∀ c, c ∈ inuse s → own s' (sv_i sv') c ∨ ¬ own s (sv_i sv) c → c ∈ inuse s') → inuse s' ⊆ inuse s →
  (∀ c, c = 0 ∨ c ≠ sfi_indirect (sv_i sv) → disk s' c = disk s c) →
  (∀ n, 0 ≤ n < MAXBLOCKS → g n = true → fblock s (sv_i sv) n ≠ 0 → fblock s (sv_i sv) n ∉ inuse s') →
  cut v s sv g s' sv'.
Proof.
  intros Hs' Hh Hvol Hsv Hids Hdirty Hm Hme Hdi Hf Hmap Hind Hrel Hsub Hdisk Hfree.
  assert (∀ n, 0 ≤ n < MAXBLOCKS → fblock s' (sv_i sv') n ≠ 0 → fblock s' (sv_i sv') n = fblock s (sv_i sv) n) as Hfb.
  { intros n Hn. rewrite Hmap by done. by destruct (g n). }
  assert (∀ c, own s' (sv_i sv') c → own s (sv_i sv) c) as Hown.
  { intros c [Hc [->|(n & Hn & Hcn)]].
    - split; [done|]. left. destruct Hind as [->|?]; done.
    - split; [done|]. right. exists n. split; [done|]. rewrite <- Hfb; [done|done|congruence]. }
  constructor; try done.
  - constructor; try done.
    + destruct Hf as [F1 F2 F3 F4]. constructor; [done|..].
      * intros c Ho. destruct (F2 c (Hown c Ho)) as [Hr Hi]. rewrite (same_vol_nblocks s s') by done. split; [done|].
        apply Hrel; [done|by left].
      * intros n m Hn Hm' Heq Hnz. apply F3; [done|done|..]; rewrite <- !Hfb; congruence.
      * intros n Hn Hnz. rewrite Hfb by done. destruct Hind as [->| ->]; [|by rewrite <- Hfb].
        apply F4; [done|]. by rewrite <- Hfb.
    + intros c Hc Ho. split_and!.
      * apply Hrel; [done|by right].
      * by intros ?%Hown.
      * apply Hdisk. destruct (decide (c = 0)); [by left|right]. intros ->. apply Ho. split; [done|by left].
  - intros n Hn Hg Hnz. apply Hdisk. right. by apply (f_ind _ _ Hf).
Qed.

(** ** The direct blocks *)

(** One direct block is freed. *)
Lemma free_direct s sv n (Q : unit → sfs_fs → Prop) :
  fs_ok s → svs s !! v = Some sv → file_ok s (sv_i sv) → 0 ≤ n < 15 → fblock s (sv_i sv) n ≠ 0 →
  (∀ s' sv', cut v s sv (λ m, m =? n) s' sv' → Q tt s') →
  wp (sfs_bfree (fblock s (sv_i sv) n) ;; set_inode v (λ d, with_direct (zset (sfi_direct d) n 0) d)) Q s.
Proof.
  intros Hs Hv Hf Hn Hne HQ. set (b := fblock s (sv_i sv) n) in *.
  assert (0 ≤ n < MAXBLOCKS) as Hnm by (unfold MAXBLOCKS; lia).
  assert (own s (sv_i sv) b) as Hob by (split; [done|right; by exists n]).
  destruct (f_own _ _ Hf b Hob) as [Hb Hin].
  wp_go. apply wp_bfree; [done..|]. intros s1 H1 Hh Hvol Hsv Hm Hu Hd.
  eapply wp_set_inode; [by rewrite Hsv|]. set (sv' := dirtied _ _). set (s' := set_svs _ s1).
  assert (∀ m, fblock s' (sv_i sv') m = if m =? n then 0 else fblock s (sv_i sv) m) as Hmap.
  { intros m. unfold sv', dirtied. cbn [sv_i]. rewrite (fblock_with_direct s s'); [|apply Hf|done|intros _; apply Hd].
    destruct (Z.eqb_spec m n); by case_decide. }
  apply (HQ s' sv'). apply cut_make; try done.
  - by apply fs_ok_svs.
  - by destruct Hvol.
  - simpl. by rewrite Hsv.
  - by right.
  - apply with_direct_ok; [apply Hf|done|]. unfold is_word. lia.
  - by left.
  - intros c Hc Hor. change (inuse s') with (inuse s1). rewrite Hu. apply elem_of_difference. split; [done|].
    rewrite elem_of_singleton. intros ->. destruct Hor as [[_ [Heq|(m & Hmr & Hmb)]]|]; [..|done].
    + by apply (f_ind _ _ Hf n Hnm Hne).
    + rewrite Hmap in Hmb. destruct (Z.eqb_spec m n) as [|Hmn]; [congruence|]. apply Hmn.
      apply (f_inj _ _ Hf); [done|done|done|congruence].
  - change (inuse s') with (inuse s1). rewrite Hu. intros c [Hc _]%elem_of_difference. done.
  - intros c _. apply Hd.
  - intros m Hmr Hmn%Z.eqb_eq _. subst m. change (inuse s') with (inuse s1). rewrite Hu, elem_of_difference, elem_of_singleton. tauto.
Qed.

Lemma trunc_direct_correct s sv blocklen (Q : unit → sfs_fs → Prop) :
  fs_ok s → svs s !! v = Some sv → file_ok s (sv_i sv) →
  (∀ s' sv', cut v s sv (λ n, (n <? 15) && (blocklen <=? n)) s' sv' → Q tt s') →
  wp (trunc_direct v blocklen) Q s.
Proof.
  intros Hs Hv Hf HQ. unfold trunc_direct.
  apply (wp_for_loop (λ i s1, ∃ sv1, cut v s sv (λ n, (n <? i) && (blocklen <=? n)) s1 sv1)).
  - exists sv. eapply cut_weaken; [by apply cut_refl|]. intros n Hn. left. destruct (Z.ltb_spec n 0); [lia|done].
  - intros i s1 Hi (sv1 & Hc). pose proof (cu_step _ _ _ _ _ _ Hc) as Hst.
    assert (svs s1 !! v = Some sv1) as Hv1 by (rewrite (st_svs _ _ _ _ _ Hst); apply lookup_insert_eq).
    pose proof (st_file _ _ _ _ _ Hst) as Hf1. wp_go. eapply wp_get_sv; [done|]. wp_go.
    destruct (fblock_direct s1 (sv_i sv1) i) as (b & Hb & Hfb & _); [apply Hf1|lia|]. eapply wp_deref; [done|].
    destruct (Z.geb_spec i blocklen) as [Hge|Hlt]; [destruct (Z.eqb_spec b 0) as [Hz|Hnz]|]; cbn [andb negb].
    + wp_go. exists sv1. eapply cut_weaken; [exact Hc|]. intros n Hn. destruct (decide (n = i)) as [->|].
      * right. split; [|congruence]. destruct (Z.ltb_spec i (i + 1)), (Z.leb_spec blocklen i); lia.
      * left. f_equal. destruct (Z.ltb_spec n i), (Z.ltb_spec n (i + 1)); lia.
    + rewrite <- Hfb. apply free_direct; [apply Hst|done|done|lia|congruence|]. intros s2 sv2 Hc2. exists sv2.
      eapply cut_weaken; [exact (cut_trans _ _ _ _ _ _ _ _ Hc Hc2)|]. intros n Hn. left. simpl.
      destruct (Z.ltb_spec n i), (Z.ltb_spec n (i + 1)), (Z.leb_spec blocklen n), (Z.eqb_spec n i); simpl; lia.
    + wp_go. exists sv1. eapply cut_weaken; [exact Hc|]. intros n Hn. left.
      destruct (Z.ltb_spec n i), (Z.ltb_spec n (i + 1)), (Z.leb_spec blocklen n); simpl; lia.
  - intros s1 (sv1 & Hc). by apply (HQ s1 sv1).
Qed.
End cut.

(** ** The indirect block *)

(** The entries that are left, from entry [j] on. *)
Fixpoint kept_words (blocklen j : Z) (l : list Z) : list Z :=
  match l with
  | [] => []
  | b :: l' => (if blocklen <? 15 + j then 0 else b) :: kept_words blocklen (j + 1) l'
  end.

(** A block that the loop frees. *)
Definition dropped (blocklen j : Z) (l : list Z) (c : Z) : Prop :=
  c ≠ 0 ∧ ∃ k : nat, l !! k = Some c ∧ blocklen < 15 + j + Z.of_nat k.

Lemma dropped_cons blocklen j b l c :
  dropped blocklen j (b :: l) c ↔ c ≠ 0 ∧ c = b ∧ blocklen < 15 + j ∨ dropped blocklen (j + 1) l c.
Proof.
  split.
  - intros (Hc & [|k] & Hk & Hlt); simpl in Hk; [left; split_and!; [done|congruence|lia]|].
    right. split; [done|]. exists k. split; [done|lia].
  - intros [(Hc & -> & Hlt)|(Hc & k & Hk & Hlt)]; (split; [done|]); [exists 0%nat; split; [done|simpl; lia]|].
    exists (S k). split; [done|lia].
Qed.

Lemma kept_words_lookup blocklen j l k b :
  l !! k = Some b → kept_words blocklen j l !! k = Some (if blocklen <? 15 + j + Z.of_nat k then 0 else b).
Proof.
  revert j k. induction l as [|c l IH]; intros j [|k] Hk; cbn -[Z.add Z.ltb Z.of_nat] in *; try done.
  - injection Hk as ->. by replace (15 + j + Z.of_nat 0) with (15 + j) by lia.
  - change (kept_words blocklen (j + 1) l !! k = Some (if blocklen <? 15 + j + Z.of_nat (S k) then 0 else b)).
    rewrite (IH (j + 1) k Hk). by replace (15 + (j + 1) + Z.of_nat k) with (15 + j + Z.of_nat (S k)) by lia.
Qed.

Lemma length_kept_words blocklen j l : length (kept_words blocklen j l) = length l.
Proof. revert j. induction l as [|b l IH]; intros j; simpl; [done|by rewrite IH]. Qed.

(** States that differ in the free block map at most. *)
Definition freed (s s' : sfs_fs) (P : Z → Prop) : Prop :=
  fs_ok s' ∧ (healthy s → healthy s') ∧ same_vol s s' ∧ svs s' = svs s ∧ umem s' = umem s ∧
  (∀ c, disk s' c = disk s c) ∧ ∀ c, c ∈ inuse s' ↔ c ∈ inuse s ∧ ¬ P c.

Lemma trunc_indirect_correct blocklen j l s (Q : list Z * bool * bool → sfs_fs → Prop) :
  fs_ok s → (∀ b, b ∈ l → b ≠ 0 → 0 < b < nblocks s ∧ b ∈ inuse s) →
  (∀ k k' b, l !! k = Some b → l !! k' = Some b → b ≠ 0 → k = k') →
  (∀ s' nz dirty, freed s s' (dropped blocklen j l) →
     nz = existsb (λ b, negb (b =? 0)) (kept_words blocklen j l) →
     (dirty = false → kept_words blocklen j l = l) → Q (kept_words blocklen j l, nz, dirty) s') →
  wp (trunc_indirect blocklen j l) Q s.
Proof.
  revert j s Q. induction l as [|b l IH]; intros j s Q Hs Hl Hinj HQ; simpl.
  { wp_go. apply HQ; try done. split_and!; try done. intros c. split; [|tauto]. intros Hc. split; [done|].
    intros (_ & k & Hk & _). done. }
  assert (∀ b', b' ∈ l → b' ≠ 0 → 0 < b' < nblocks s ∧ b' ∈ inuse s) as Hl'
    by (intros b' Hb'; apply Hl; by right).
  assert (∀ k k' b', l !! k = Some b' → l !! k' = Some b' → b' ≠ 0 → k = k') as Hinj'.
  { intros k k' b' H1 H2 H3. specialize (Hinj (S k) (S k') b' H1 H2 H3). lia. }
  revert HQ. cbn [kept_words]. unfold SFS_NDIRECT. destruct (Z.ltb_spec blocklen (15 + j)) as [Hdrop|Hkeep];
    [destruct (Z.eqb_spec b 0) as [->|Hnz]|]; cbn [andb negb]; intros HQ; wp_go.
  - apply IH; [done..|]. intros s' nz dirty (F1 & F2 & F3 & F4 & F5 & F6 & F7) -> Hdirty. wp_go.
    apply HQ; [|done|intros Hd; f_equal; by apply Hdirty]. split_and!; try done. intros c. rewrite F7, dropped_cons. naive_solver.
  - destruct (Hl b) as [Hb Hin]; [left|done|]. apply wp_bfree; [done..|].
    intros s1 H1 Hh Hvol Hsv Hm Hu Hd. wp_go. apply IH; [done| |done|].
    { intros b' Hb' Hnz'. destruct (Hl' b' Hb' Hnz') as [Hr Hi]. rewrite (same_vol_nblocks s s1) by done.
      split; [done|]. rewrite Hu. apply elem_of_difference. split; [done|]. rewrite elem_of_singleton. intros ->.
      apply list_elem_of_lookup in Hb' as [k Hk]. by specialize (Hinj 0%nat (S k) b eq_refl Hk Hnz). }
    intros s' nz dirty (F1 & F2 & F3 & F4 & F5 & F6 & F7) -> Hdirty. wp_go.
    apply HQ; [|done|done]. split_and!; [done|auto|by eapply same_vol_trans|congruence..|].
    intros c. rewrite F7, dropped_cons, Hu, elem_of_difference, elem_of_singleton. naive_solver.
  - apply IH; [done..|]. intros s' nz dirty (F1 & F2 & F3 & F4 & F5 & F6 & F7) -> Hdirty. wp_go.
    apply HQ; [|done|intros Hd'; f_equal; by apply Hdirty]. split_and!; try done. intros c. rewrite F7, dropped_cons.
    split; [intros [? ?]; split; [done|]; intros [(_ & _ & ?)|?]; [lia|done]|]. naive_solver.
Qed.

Section indirect.
Context (v : positive) (s : sfs_fs) (sv : sfs_vnode) (blocklen : Z).
Hypothesis Hs : fs_ok s.
Hypothesis Hv : svs s !! v = Some sv.
Hypothesis Hf : file_ok s (sv_i sv).
Hypothesis Hi : sfi_indirect (sv_i sv) ≠ 0.

Definition gone_indirect (n : Z) : bool := (15 <=? n) && (blocklen <? n).

Lemma idword_block (k : nat) b :
  idwords s (sv_i sv) !! k = Some b → 15 ≤ 15 + Z.of_nat k < MAXBLOCKS ∧ fblock s (sv_i sv) (15 + Z.of_nat k) = b.
Proof using Hs Hf.
  intros Hk. destruct (idwords_ok s (sv_i sv) Hs Hf) as [Hl _]. pose proof (lookup_lt_Some _ _ _ Hk).
  unfold MAXBLOCKS. split; [lia|]. unfold fblock. destruct (Z.ltb_spec (15 + Z.of_nat k) 15); [lia|].
  rewrite znth_lookup by lia. replace (Z.to_nat (15 + Z.of_nat k - 15)) with k by lia. by rewrite Hk.
Qed.

(** The file when the entries have been cleared, and the indirect block perhaps freed. *)
Lemma cut_indirect s' sv' :
  fs_ok s' → (healthy s → healthy s') → same_vol s s' → svs s' = <[v := sv']> (svs s) →
  sv_ino sv' = sv_ino sv ∧ vn_refcount sv' = vn_refcount sv ∧ vn_ops sv' = vn_ops sv →
  sv' = sv ∨ sv_dirty sv' = true → umem s' = umem s →
  sv_i sv' = sv_i sv ∨ sv_i sv' = with_indirect 0 (sv_i sv) →
  (∀ n, 15 ≤ n < MAXBLOCKS → fblock s' (sv_i sv') n = if blocklen <? n then 0 else fblock s (sv_i sv) n) →
  (∀ c, c ∈ inuse s' ↔ c ∈ inuse s ∧ ¬ dropped blocklen 0 (idwords s (sv_i sv)) c ∧
          ¬ (c = sfi_indirect (sv_i sv) ∧ sfi_indirect (sv_i sv') = 0)) →
  (∀ c, c ≠ sfi_indirect (sv_i sv) → disk s' c = disk s c) →
  cut v s sv gone_indirect s' sv'.
Proof using Hs Hf Hi.
  intros Hs' Hh Hvol Hsv Hids Hdirty Hm Hd Hmap Hu Hdisk.
  assert (∀ n, 0 ≤ n < MAXBLOCKS → fblock s' (sv_i sv') n = if gone_indirect n then 0 else fblock s (sv_i sv) n) as Hmap'.
  { intros n Hn. unfold gone_indirect. destruct (Z.leb_spec 15 n); [apply Hmap; lia|]. simpl. unfold fblock.
    destruct (Z.ltb_spec n 15); [|lia]. by destruct Hd as [->| ->]. }
  assert (∀ c, dropped blocklen 0 (idwords s (sv_i sv)) c → own s (sv_i sv) c ∧ ¬ own s' (sv_i sv') c) as Hdrop.
  { intros c (Hc & k & Hk & Hlt). destruct (idword_block k c Hk) as [Hr Hfb].
    assert (0 ≤ 15 + Z.of_nat k < MAXBLOCKS) as Hr0 by lia.
    split; [split; [done|right; by exists (15 + Z.of_nat k)]|]. intros [_ [Heq|(n & Hn & Hnc)]].
    - destruct Hd as [Hd|Hd]; rewrite Hd in Heq; [|done]. apply (f_ind _ _ Hf _ Hr0); congruence.
    - pose proof (Hmap' n Hn) as Hmn. rewrite Hnc in Hmn. destruct (gone_indirect n) eqn:Hg; [done|].
      assert (n = 15 + Z.of_nat k) as -> by (apply (f_inj _ _ Hf); [done|done|congruence..]).
      unfold gone_indirect in Hg. destruct (Z.leb_spec 15 (15 + Z.of_nat k)), (Z.ltb_spec blocklen (15 + Z.of_nat k)); try done; lia. }
  apply cut_make; try done.
  - destruct Hd as [->| ->]; done.
  - destruct Hd as [->| ->]; [apply Hf|]. destruct (f_inode _ _ Hf). by constructor.
  - destruct Hd as [->| ->]; [by left|by right].
  - intros c Hc Hor. rewrite Hu. split_and!; [done|intros [? ?]%Hdrop; tauto|]. intros [-> Hz].
    assert (own s (sv_i sv) (sfi_indirect (sv_i sv))) as Ho by (split; [done|by left]).
    destruct Hor as [[_ [Heq|(n & Hn & Hnc)]]|]; [congruence| |done].
    pose proof (Hmap' n Hn) as Hmn. rewrite Hnc in Hmn. destruct (gone_indirect n); [done|].
    apply (f_ind _ _ Hf n Hn); congruence.
  - intros c [Hc _]%Hu. done.
  - intros c [->|Hc]; apply Hdisk; [by apply not_eq_sym|done].
  - intros n Hn Hg Hnz Hin. apply Hu in Hin as (_ & Hnd & _). apply Hnd. split; [done|].
    unfold gone_indirect in Hg. apply andb_true_iff in Hg as [H15%Z.leb_le Hlt%Z.ltb_lt].
    destruct (fblock_indirect s (sv_i sv) n Hs Hf) as (b & Hb & Hfb & _); [lia|]. exists (Z.to_nat (n - 15)).
    rewrite <- znth_lookup by lia. split; [congruence|lia].
Qed.

(** The entry of block [n] after the loop. *)
Lemma kept_block n :
  15 ≤ n < MAXBLOCKS →
  kept_words blocklen 0 (idwords s (sv_i sv)) !! Z.to_nat (n - 15) =
    Some (if blocklen <? n then 0 else fblock s (sv_i sv) n).
Proof using Hs Hf.
  intros Hn. destruct (fblock_indirect s (sv_i sv) n Hs Hf Hn) as (b & Hb & Hfb & _).
  rewrite znth_lookup in Hb by lia. rewrite (kept_words_lookup _ _ _ _ _ Hb), Hfb.
  by replace (15 + 0 + Z.of_nat (Z.to_nat (n - 15))) with n by lia.
Qed.

Lemma idwords_own b : b ∈ idwords s (sv_i sv) → b ≠ 0 → own s (sv_i sv) b ∧ 0 < b < nblocks s ∧ b ∈ inuse s.
Proof using Hs Hf.
  intros [k Hk]%list_elem_of_lookup Hnz. destruct (idword_block k b Hk) as [Hr Hfb].
  assert (own s (sv_i sv) b) as Ho by (split; [done|right; exists (15 + Z.of_nat k); split; [lia|done]]).
  split; [done|]. by apply (f_own _ _ Hf).
Qed.

Lemma idwords_inj k k' b :
  idwords s (sv_i sv) !! k = Some b → idwords s (sv_i sv) !! k' = Some b → b ≠ 0 → k = k'.
Proof using Hs Hf.
  intros Hk Hk' Hnz. destruct (idword_block k b Hk) as [R1 F1], (idword_block k' b Hk') as [R2 F2].
  assert (15 + Z.of_nat k = 15 + Z.of_nat k'); [|lia]. apply (f_inj _ _ Hf); [lia|lia|congruence..].
Qed.

Lemma indirect_not_dropped : ¬ dropped blocklen 0 (idwords s (sv_i sv)) (sfi_indirect (sv_i sv)).
Proof using Hs Hf Hi.
  intros (Hc & k & Hk & _). destruct (idword_block k _ Hk) as [Hr Hfb].
  apply (f_ind _ _ Hf (15 + Z.of_nat k)); [lia|congruence|done].
Qed.

(** The three ways the loop can end; [s2] is the state after it. *)
Section ends.
Context (s2 : sfs_fs).
Hypothesis Hh : healthy s.
Hypothesis Hfr : freed s s2 (dropped blocklen 0 (idwords s (sv_i sv))).
Local Notation words := (kept_words blocklen 0 (idwords s (sv_i sv))).
Local Notation cut_done := (λ (r : Z) (s' : sfs_fs), r = 0 ∧ ∃ sv', cut v s sv gone_indirect s' sv').

Lemma indirect_freed :
  existsb (λ b, negb (b =? 0)) words = false →
  wp (sfs_bfree (sfi_indirect (sv_i sv)) ;; set_inode v (with_indirect 0) ;; mret 0) cut_done s2.
Proof using All.
  intros Hz. destruct Hfr as (F1 & F2 & F3 & F4 & F5 & F6 & F7).
  destruct (f_own _ _ Hf (sfi_indirect (sv_i sv))) as [Hr Hin]; [split; [done|by left]|].
  wp_go. apply wp_bfree; [done| |by rewrite (same_vol_nblocks s s2)|].
  { rewrite F7. split; [done|apply indirect_not_dropped]. }
  intros s3 H3 Hh3 Hvol Hsv Hm Hu Hd. wp_go. eapply wp_set_inode; [by rewrite Hsv, F4|]. wp_go. split; [done|].
  exists (dirtied sv (with_indirect 0 (sv_i sv))). set (s4 := set_svs _ s3). apply cut_indirect; try done.
  - by apply fs_ok_svs.
  - intros _. by apply Hh3, F2.
  - pose proof (same_vol_trans _ _ _ F3 Hvol) as []. done.
  - simpl. by rewrite Hsv, F4.
  - by right.
  - simpl. congruence.
  - by right.
  - intros n Hn. rewrite fblock_no_indirect by done. pose proof (kept_block n Hn) as Hk.
    destruct (blocklen <? n); [done|]. apply list_elem_of_lookup_2 in Hk.
    destruct (Z.eqb_spec (fblock s (sv_i sv) n) 0) as [|Hnz]; [congruence|].
    assert (existsb (λ b, negb (b =? 0)) words = true) as Ht; [|congruence].
    apply existsb_exists. eexists. split; [by apply list_elem_of_In|]. by apply Z.eqb_neq in Hnz as ->.
  - intros c. change (inuse s4) with (inuse s3). rewrite Hu, elem_of_difference, F7, elem_of_singleton. simpl. naive_solver.
  - intros c _. change (disk s4 c) with (disk s3 c). by rewrite Hd.
Qed.

Lemma indirect_rewritten : wp (sfs_writeblock (sfi_indirect (sv_i sv)) (bytes_of_words words)) cut_done s2.
Proof using All.
  destruct Hfr as (F1 & F2 & F3 & F4 & F5 & F6 & F7).
  destruct (f_own _ _ Hf (sfi_indirect (sv_i sv))) as [Hr Hin]; [split; [done|by left]|].
  destruct (idwords_ok s (sv_i sv) Hs Hf) as [Hl Hw].
  destruct (disk_is_Some s2 (sfi_indirect (sv_i sv)) F1) as (x & Hx & _); [rewrite (same_vol_nblocks s s2) by done; lia|].
  eapply wp_writeblock; [done|by apply F2|done|by rewrite length_bytes_of_words, length_kept_words, Hl|].
  intros d' Hd'. destruct (after_write s2 _ x _ d' F1 Hx (bytes_of_words_ok _) Hd') as (H3 & Hh3 & Hdisk).
  split; [done|]. exists sv. set (s3 := set_hw _ _ s2) in *. apply cut_indirect; try done.
  - intros _. by apply Hh3, F2.
  - destruct F3. done.
  - simpl. by rewrite F4, insert_id.
  - by left.
  - by left.
  - intros n Hn. unfold fblock at 1. destruct (Z.ltb_spec n 15); [lia|]. unfold idwords.
    destruct (Z.eqb_spec (sfi_indirect (sv_i sv)) 0); [done|]. rewrite Hdisk, decide_True by done. simpl.
    rewrite words_bytes; [by rewrite znth_lookup, kept_block by lia|].
    apply Forall_lookup. intros k b Hk. pose proof (lookup_lt_Some _ _ _ Hk) as Hlt. rewrite length_kept_words in Hlt.
    destruct (lookup_lt_is_Some_2 _ _ Hlt) as [b0 Hb0]. rewrite (kept_words_lookup _ _ _ _ _ Hb0) in Hk.
    injection Hk as <-. destruct (blocklen <? _); [unfold is_word; lia|]. by eapply Forall_lookup in Hw.
  - intros c. change (inuse s3) with (inuse s2). rewrite F7. naive_solver.
  - intros c Hc. rewrite Hdisk, decide_False by done. by apply F6.
Qed.

Lemma indirect_untouched : words = idwords s (sv_i sv) → wp (mret 0) cut_done s2.
Proof using All.
  intros Hw. destruct Hfr as (F1 & F2 & F3 & F4 & F5 & F6 & F7). wp_go. split; [done|]. exists sv.
  apply cut_indirect; try done; [by rewrite F4, insert_id|by left|by left| |].
  - intros n Hn. rewrite (fblock_disk s s2) by done. pose proof (kept_block n Hn) as Hk. rewrite Hw in Hk.
    destruct (fblock_indirect s (sv_i sv) n Hs Hf Hn) as (b & Hb & Hfb & _). rewrite znth_lookup in Hb by lia. congruence.
  - intros c. rewrite F7. naive_solver.
Qed.
End ends.

Lemma indirect_correct :
  healthy s →
  wp (r ← sfs_readblock (sfi_indirect (sv_i sv));
      match r with
      | Err e => mret e
      | Ok bs =>
          '(idbuf, hasnonzero, iddirty) ← trunc_indirect blocklen 0 (words_of_bytes bs);
          if negb hasnonzero then
            sfs_bfree (sfi_indirect (sv_i sv)) ;; set_inode v (with_indirect 0) ;; mret 0
          else if (iddirty : bool) then sfs_writeblock (sfi_indirect (sv_i sv)) (bytes_of_words idbuf)
          else mret 0
      end) (λ r s', r = 0 ∧ ∃ sv', cut v s sv gone_indirect s' sv') s.
Proof using Hs Hv Hf Hi.
  intros Hh. destruct (f_own _ _ Hf (sfi_indirect (sv_i sv))) as [Hr _]; [split; [done|by left]|].
  destruct (disk_is_Some s (sfi_indirect (sv_i sv)) Hs) as (x & Hx & _); [lia|].
  assert (words_of_bytes x = idwords s (sv_i sv)) as Hw.
  { unfold idwords. destruct (Z.eqb_spec (sfi_indirect (sv_i sv)) 0); [done|]. by rewrite Hx. }
  wp_go. eapply wp_readblock; [done|done|..]; intros d' Hd; [|done]. wp_go. rewrite Hw.
  destruct (after_read s d' Hs Hd) as (H1 & H2 & H3).
  apply trunc_indirect_correct; [done| |by apply idwords_inj|].
  { intros b Hb Hnz. by apply idwords_own. }
  intros s2 nz dirty (F1 & F2 & F3 & F4 & F5 & F6 & F7) -> Hdirty. wp_go.
  assert (freed s s2 (dropped blocklen 0 (idwords s (sv_i sv)))) as Hfr.
  { split_and!; [done|auto|by destruct F3|done|done|intros c; by rewrite F6, H3|done]. }
  destruct (existsb _ _) eqn:Hnz; cbn [negb].
  - destruct dirty; [by apply indirect_rewritten|]. by apply indirect_untouched, Hdirty.
  - by apply indirect_freed.
Qed.
End indirect.

(** ** The whole truncation *)

(** The blocks that a truncation to [blocklen] blocks keeps: of the direct ones those
    below the new end, of the others one more. *)
Definition keeps (blocklen n : Z) : bool := if n <? 15 then n <? blocklen else n <=? blocklen.

Definition trunc_post (v : positive) (s : sfs_fs) (sv : sfs_vnode) (len : Z) (r : Z) (s' : sfs_fs) : Prop :=
  let keep n := keeps ((len + 511) / 512) n in
  r = 0 ∧ ∃ sv', file_step v s s' sv sv' ∧ umem s' = umem s ∧
    sfi_size (sv_i sv') = len ∧ sfi_type (sv_i sv') = sfi_type (sv_i sv) ∧
    sfi_linkcount (sv_i sv') = sfi_linkcount (sv_i sv) ∧
    (∀ n, 0 ≤ n < MAXBLOCKS → fblock s' (sv_i sv') n = if keep n then fblock s (sv_i sv) n else 0) ∧
    (∀ i, 0 ≤ i → content s' (sv_i sv') i = if keep (i / 512) then content s (sv_i sv) i else 0) ∧
    (∀ n, 0 ≤ n < MAXBLOCKS → keep n = false → fblock s (sv_i sv) n ≠ 0 → fblock s (sv_i sv) n ∉ inuse s').

Lemma not_keeps blocklen n :
  negb (keeps blocklen n) = (n <? 15) && (blocklen <=? n) || gone_indirect blocklen n.
Proof.
  unfold keeps, gone_indirect. destruct (Z.ltb_spec n 15), (Z.leb_spec 15 n); simpl; lia.
Qed.

Lemma itrunc_body_correct v s sv len :
  fs_ok s → healthy s → svs s !! v = Some sv → file_ok s (sv_i sv) → 0 ≤ len < 2 ^ 32 →
  wp (itrunc_body v len) (trunc_post v s sv len) s.
Proof.
  intros Hs Hh Hv Hf Hlen. unfold itrunc_body, SFS_BLOCKSIZE.
  assert (((len + 512 - 1) ÷ 512) mod 2 ^ 32 = (len + 511) / 512) as Hbl.
  { rewrite Z.quot_div_nonneg by lia. replace (len + 512 - 1) with (len + 511) by lia. apply Z.mod_small.
    Z.to_euclidean_division_equations. lia. }
  rewrite Hbl, (Z.mod_small len) by done. clear Hbl. set (bl := (len + 511) / 512).
  wp_go. apply (trunc_direct_correct v s sv); [done..|]. intros s1 sv1 Hc1.
  pose proof (cu_step _ _ _ _ _ _ Hc1) as Hst1. pose proof (st_file _ _ _ _ _ Hst1) as Hf1.
  assert (svs s1 !! v = Some sv1) as Hv1 by (rewrite (st_svs _ _ _ _ _ Hst1); apply lookup_insert_eq).
  wp_go. eapply wp_get_sv; [done|]. apply wp_bind.
  eapply (wp_mono _ (λ r s2, r = 0 ∧ ∃ sv2, cut v s1 sv1 (gone_indirect bl) s2 sv2)).
  - intros r s2 [-> (sv2 & Hc2)]. pose proof (cut_trans _ _ _ _ _ _ _ _ _ Hc1 Hc2) as Hc.
    pose proof (cu_step _ _ _ _ _ _ Hc) as Hst. simpl.
    assert (svs s2 !! v = Some sv2) as Hv2 by (rewrite (st_svs _ _ _ _ _ Hst); apply lookup_insert_eq).
    wp_go. eapply wp_set_inode; [done|]. wp_go. split; [done|].
    exists (dirtied sv2 (with_size len (sv_i sv2))). destruct (cu_meta _ _ _ _ _ _ Hc) as (M1 & M2 & M3).
    pose proof (file_step_size v s2 sv2 len (st_ok _ _ _ _ _ Hst) (st_file _ _ _ _ _ Hst) Hlen) as Hst3.
    split_and!; [by eapply file_step_trans|apply Hc|done|done|done|..].
    + intros n Hn. pose proof (cu_map _ _ _ _ _ _ Hc n Hn) as Hm. simpl in Hm. rewrite <- not_keeps in Hm.
      change (fblock s2 (sv_i sv2) n = if keeps bl n then fblock s (sv_i sv) n else 0).
      rewrite Hm. by destruct (keeps bl n).
    + intros i Hi. pose proof (cut_content v s sv _ s2 sv2 i Hs Hf Hc Hi) as Hm. simpl in Hm. rewrite <- not_keeps in Hm.
      change (content s2 (sv_i sv2) i = if keeps bl (i / 512) then content s (sv_i sv) i else 0).
      rewrite Hm. by destruct (keeps bl (i / 512)).
    + intros n Hn Hk. apply (cu_free _ _ _ _ _ _ Hc n Hn). simpl. fold bl in Hk. by rewrite <- not_keeps, Hk.
  - assert (∀ n, 0 ≤ n < MAXBLOCKS → bl < 142 ∨ gone_indirect bl n = false) as Hhigh.
    { intros n Hn. unfold gone_indirect, MAXBLOCKS in *. destruct (Z.ltb_spec bl n); [left; lia|right; apply andb_false_r]. }
    change (SFS_NDIRECT + SFS_DBPERIDB - 1) with 142.
    destruct (Z.ltb_spec bl 142); [destruct (Z.eqb_spec (sfi_indirect (sv_i sv1)) 0) as [Hz|Hnz]|]; cbn [andb negb].
    + wp_go. split; [done|]. exists sv1. eapply cut_weaken; [apply cut_refl; [apply Hst1|done|done]|]. intros n Hn.
      destruct (gone_indirect bl n) eqn:Hg; [right|by left]. split; [done|].
      unfold gone_indirect in Hg. apply andb_true_iff in Hg as [H15%Z.leb_le _]. apply fblock_no_indirect; [done|lia].
    + apply indirect_correct; [apply Hst1|done|done|done|by apply Hst1].
    + wp_go. split; [done|]. exists sv1. eapply cut_weaken; [apply cut_refl; [apply Hst1|done|done]|]. intros n Hn.
      left. destruct (Hhigh n Hn); [lia|done].
Qed.

End SfsTrunc.
