(* ===== verification/SfsInode.v ===== *)
(** * Loaded inodes of SFS (theorems about sfs_inode.c)

    The table of loaded vnodes, and that an inode survives being written back,
    dropped from memory and loaded again. *)

From Stdlib Require Import ZArith Lia.
From stdpp Require Import base numbers list gmap.
From S2P Require Import Prelude Bitmap CopyInOut Uio Lhd SfsLayout Sfs SfsBlocks SfsMap.

Module SfsInode.
Import CopyInOut Uio Lhd SfsLayout Sfs SfsBlocks SfsMap.

(** The loaded vnodes: each has its own inode, in an allocated block, and what the disk
    has of a clean one is up to date. *)
Record table_ok (s : sfs_fs) : Prop := {
  ta_nodup : NoDup (sfs_vnodes s);
  ta_loaded : ∀ v, v ∈ sfs_vnodes s → ∃ sv, svs s !! v = Some sv ∧ 0 ≤ sv_ino sv < nblocks s ∧
    sv_ino sv ∈ inuse s ∧ dinode_ok (sv_i sv);
  ta_inj : ∀ v w sv sw, v ∈ sfs_vnodes s → w ∈ sfs_vnodes s → svs s !! v = Some sv → svs s !! w = Some sw →
    sv_ino sv = sv_ino sw → v = w;
  ta_clean : ∀ v sv, v ∈ sfs_vnodes s → svs s !! v = Some sv → sv_dirty sv = false →
    ∃ bs, disk s (sv_ino sv) = Some bs ∧ dinode_of bs = sv_i sv;
}.

(** Writing back. *)
Lemma sfs_sync_inode_correct v s sv (Q : Z → sfs_fs → Prop) :
  fs_ok s → healthy s → table_ok s → v ∈ sfs_vnodes s → svs s !! v = Some sv →
  (∀ s' bs, fs_ok s' → healthy s' → same_vol s s' → inuse s' = inuse s → disk s' (sv_ino sv) = Some bs →
     dinode_of bs = sv_i sv → (∀ c, c ≠ sv_ino sv → disk s' c = disk s c) →
     svs s' = <[v := mkSv (sv_i sv) (sv_ino sv) false (vn_refcount sv) (vn_ops sv)]> (svs s) → Q 0 s') →
  wp (sfs_sync_inode v) Q s.
Proof.
  intros Hs Hh Ht Hin Hv HQ. destruct (ta_loaded _ Ht v Hin) as (sv' & Hv' & Hr & Hu & Hd).
  assert (sv' = sv) as -> by congruence. unfold sfs_sync_inode. wp_go. eapply wp_get_sv; [done|].
  destruct (sv_dirty sv) eqn:Hdirty; wp_go.
  - destruct (disk_is_Some s (sv_ino sv) Hs Hr) as (x & Hx & _).
    eapply wp_writeblock; [done|done|done|by apply length_dinode_bytes|]. intros d' Hd'. wp_go.
    destruct (after_write s _ x _ d' Hs Hx (bytes_of_words_ok _) Hd') as (H1 & H2 & H3). unfold put_sv. wp_go.
    eapply (HQ _ (dinode_bytes (sv_i sv))); try done.
    + by apply fs_ok_svs.
    + by apply H2.
    + change (disk (set_hw (umem s) d' s) (sv_ino sv) = Some (dinode_bytes (sv_i sv))). by rewrite H3, decide_True.
    + by apply dinode_roundtrip.
    + intros c Hc. change (disk (set_hw (umem s) d' s) c = disk s c). by rewrite H3, decide_False.
  - destruct (ta_clean _ Ht v sv Hin Hv Hdirty) as (bs & Hbs & Hof). apply (HQ s bs); try done.
    rewrite insert_id; [done|]. rewrite Hv. f_equal. destruct sv. simpl in *. by subst.
Qed.

Lemma position_elem v l : v ∈ l → ∃ k, position v l = Some k ∧ l !! k = Some v.
Proof.
  intros Hin. unfold position. destruct (list_find_elem_of (v =.) l v Hin eq_refl) as [[k w] Hk].
  rewrite Hk. apply list_find_Some in Hk as (Hlk & <- & _). by exists k.
Qed.

Lemma delete_nodup (l : list positive) k v :
  NoDup l → l !! k = Some v → v ∉ delete k l ∧ ∀ w, w ∈ delete k l → w ∈ l.
Proof.
  intros Hnd Hk. pose proof (delete_Permutation l k v Hk) as Hp. rewrite Hp in Hnd. apply NoDup_cons in Hnd as [Hni _].
  split; [done|]. intros w Hw. rewrite Hp. by right.
Qed.

(** Dropping a vnode with links to it. *)
Lemma reclaim_body_correct v s sv (Q : Z → sfs_fs → Prop) :
  fs_ok s → healthy s → table_ok s → v ∈ sfs_vnodes s → svs s !! v = Some sv →
  vn_refcount sv = 1 → sfi_linkcount (sv_i sv) ≠ 0 →
  (∀ s' bs, fs_ok s' → healthy s' → sfs_sb s' = sfs_sb s → biglock s' = biglock s → inuse s' = inuse s →
     disk s' (sv_ino sv) = Some bs → dinode_of bs = sv_i sv → (∀ c, c ≠ sv_ino sv → disk s' c = disk s c) →
     svs s' = delete v (svs s) → v ∉ sfs_vnodes s' → (∀ w, w ∈ sfs_vnodes s' → w ∈ sfs_vnodes s) → Q 0 s') →
  wp (reclaim_body v) Q s.
Proof.
  intros Hs Hh Ht Hin Hv Hrc Hlk HQ. unfold reclaim_body. wp_go. eapply wp_get_sv; [done|]. rewrite Hrc. simpl.
  destruct (Z.eqb_spec (sfi_linkcount (sv_i sv)) 0); [done|]. wp_go. simpl. apply wp_bind.
  apply (sfs_sync_inode_correct v s sv); [done..|].
  intros s1 bs H1 Hh1 Hvol Hu Hbs Hof Hdk Hsv. simpl. wp_go. eapply wp_get_sv; [rewrite Hsv; apply lookup_insert_eq|].
  simpl. destruct (Z.eqb_spec (sfi_linkcount (sv_i sv)) 0); [done|]. wp_go. unfold discard_vnode. wp_go.
  destruct (position_elem v (sfs_vnodes s) Hin) as (k & Hpos & Hlk').
  destruct (delete_nodup _ _ _ (ta_nodup _ Ht) Hlk') as [Hni Hsub].
  rewrite (sv_vnodes _ _ Hvol). eapply wp_deref; [done|]. wp_go.
  eapply wp_get_sv; [simpl; rewrite Hsv; apply lookup_insert_eq|]. simpl. rewrite Hrc. wp_check.
  set (s2 := set_svs _ _).
  apply (HQ s2 bs); try done.
  - by destruct H1.
  - by destruct Hvol.
  - by destruct Hvol.
  - simpl. rewrite Hsv. by rewrite delete_insert_eq.
Qed.

(** No other vnode has the inode. *)
Lemma find_vnode_none ino l s (Q : option positive → sfs_fs → Prop) :
  fs_ok s → (∀ w, w ∈ l → ∃ sw, svs s !! w = Some sw ∧ 0 ≤ sv_ino sw < nblocks s ∧ sv_ino sw ∈ inuse s ∧
    sv_ino sw ≠ ino) → Q None s → wp (find_vnode ino l) Q s.
Proof.
  intros Hs Hl HQ. induction l as [|w l IH]; simpl; [by wp_go|].
  destruct (Hl w) as (sw & Hw & Hr & Hu & Hne); [left|]. wp_go. eapply wp_get_sv; [done|]. wp_go.
  apply wp_bused; [done..|]. intros r Hr'. rewrite (proj2 Hr' Hu). wp_check.
  destruct (Z.eqb_spec (sv_ino sw) ino); [done|]. apply IH. intros w' Hw'. apply Hl. by right.
Qed.

(** Loading an inode that is not in the table. *)
Lemma sfs_loadvnode_fresh s ino bs ops (Q : result positive → sfs_fs → Prop) :
  fs_ok s → healthy s → 0 ≤ ino < nblocks s → ino ∈ inuse s → disk s ino = Some bs →
  (∀ w, w ∈ sfs_vnodes s → ∃ sw, svs s !! w = Some sw ∧ 0 ≤ sv_ino sw < nblocks s ∧ sv_ino sw ∈ inuse s ∧
    sv_ino sw ≠ ino) →
  sfi_type (dinode_of bs) = SFS_TYPE_FILE ∧ ops = sfs_fileops ∨ sfi_type (dinode_of bs) = SFS_TYPE_DIR ∧ ops = sfs_dirops →
  (∀ s' v, svs s !! v = None → svs s' = <[v := mkSv (dinode_of bs) ino false 1 ops]> (svs s) →
     sfs_vnodes s' = sfs_vnodes s ++ [v] → (∀ c, disk s' c = disk s c) → Q (Ok v) s') →
  wp (sfs_loadvnode true true ino SFS_TYPE_INVAL) Q s.
Proof.
  intros Hs Hh Hr Hu Hbs Hl Hty HQ. unfold sfs_loadvnode. wp_go. apply find_vnode_none; [done..|]. wp_go. simpl.
  apply wp_bind, wp_bused; [done..|]. intros b Hb. rewrite (proj2 Hb Hu). wp_check.
  eapply wp_readblock; [done|done|..]; intros d' Hd; [|done]. wp_go. simpl. wp_go.
  assert (∀ R : vops → sfs_fs → Prop, R ops (set_hw (umem s) d' s) →
    wp (if sfi_type (dinode_of bs) =? SFS_TYPE_FILE then mret sfs_fileops
        else if sfi_type (dinode_of bs) =? SFS_TYPE_DIR then mret sfs_dirops else panic) R (set_hw (umem s) d' s)) as Hops.
  { intros R HR. destruct Hty as [[-> ->]|[-> ->]]; simpl; by wp_go. }
  apply Hops. wp_go. set (v := fresh _). assert (svs s !! v = None) as Hv by (apply not_elem_of_dom, is_fresh).
  unfold put_sv. wp_go. apply (HQ _ v); try done. intros c. unfold disk. simpl. destruct Hd as (_ & -> & _). done.
Qed.

End SfsInode.
