(* ===== verification/SfsTheorems.v ===== *)
(** * What SFS promises (theorems about sfs_io.c, sfs_vnops.c)

    The operations as they are called, without the big lock. *)

From Stdlib Require Import ZArith Lia.
From stdpp Require Import base numbers list gmap.
From S2P Require Import Prelude Bitmap CopyInOut Uio Lhd SfsLayout Sfs SfsBlocks SfsMap SfsFile SfsDir SfsTrunc SfsInode.

Module SfsTheorems.
Import CopyInOut Uio Lhd SfsLayout Sfs SfsBlocks SfsMap SfsFile SfsDir SfsTrunc SfsInode.

(** The volume while an operation runs on it. *)
Definition held (s : sfs_fs) : sfs_fs := set_biglock (biglock s + 1) s.

Lemma wp_locked {A} (m : M sfs_fs A) (Q : A → sfs_fs → Prop) s :
  wp m (λ a s1, 0 < biglock s1 ∧ ∀ s', held s' = s1 → Q a s') (held s) → wp (locked m) Q s.
Proof.
  intros Hm. unfold locked, vfs_biglock_acquire. wp_go. eapply wp_mono; [|exact Hm].
  intros a s1 [Hl HQ]. unfold vfs_biglock_release. wp_check. apply HQ.
  unfold held, set_biglock. destruct s1. simpl. f_equal. lia.
Qed.

Section ops.
Context (as_ : option positive) (v : positive).

(** ** Reading *)

Lemma io_post_extra s sv u extra n res u1 s' :
  io_pre as_ v s sv u → 0 ≤ extra ≤ uio_resid u →
  io_post as_ v s sv (set_cursor (uio_offset u) (uio_resid u - extra) u) n (res, u1) s' →
  io_post as_ v s sv u n (res, set_cursor (uio_offset u1) ((uio_resid u1 + extra) mod 2 ^ 32) u1) s'.
Proof.
  intros Hpre Hex (sv' & xs & u2 & m1 & Hst & Hme & Htr & Hdat & Hle & Hmem & Hr).
  pose proof (proj1 (ip_uio _ _ _ _ _ Hpre)) as Hok.
  set (back := λ w, set_cursor (uio_offset w) ((uio_resid w + extra) mod 2 ^ 32) w).
  assert (transfer as_ u (umem s) xs (back u2) m1) as Htr'.
  { destruct Htr as [Ha Hrest]. split; [|exact Hrest]. by apply advanced_extra. }
  exists sv', xs, (back u2), m1. split_and!; try done.
  destruct Hr as [(Hz & Hl & Hu & Hm)|[He Hstop]]; [left|right]; simpl in *.
  - split_and!; try done. by rewrite Hu.
  - split; [done|]. destruct Hstop as (k & Hk & Ha & Hrest). exists k. split; [done|]. split; [|exact Hrest].
    destruct Htr as [(Ok2 & A2 & R2 & O2 & S2 & W2) _]. simpl in *.
    pose proof (ok_resid _ _ Ok2) as Hr2. pose proof (ok_small _ _ Hok) as Hsm.
    assert (set_cursor (uio_offset (back u2)) (uio_resid (back u2) - extra) (back u2) = u2) as Hback.
    { unfold back. simpl. rewrite Z.mod_small by lia. destruct u2. unfold set_cursor. simpl. f_equal. lia. }
    apply advanced_extra; [apply Htr'|simpl; rewrite Z.mod_small; lia|]. by rewrite Hback.
Qed.

(** How much there is to read. *)
Definition available (sv : sfs_vnode) (u : uio) : Z :=
  Z.max 0 (Z.min (uio_resid u) (sfi_size (sv_i sv) - uio_offset u)).

Lemma io_out_read s sv orig extra res u1 (Q : Z * uio → sfs_fs → Prop) :
  svs s !! v = Some sv → writing u1 = false →
  Q (res, set_cursor (uio_offset u1) ((uio_resid u1 + extra) mod 2 ^ 32) u1) s →
  wp (io_out v orig extra res u1) Q s.
Proof.
  intros Hv Hw HQ. unfold io_out. wp_go. eapply wp_get_sv; [done|]. rewrite Hw, andb_false_r. by wp_go.
Qed.

Lemma sfs_io_read_correct s sv u :
  io_pre as_ v s sv u → uio_rwflg u = UIO_READ → uio_offset u + uio_resid u < 2 ^ 41 →
  wp (sfs_io as_ v u) (io_post as_ v s sv u (available sv u)) s.
Proof.
  intros Hpre Hflg Hoff. pose proof Hpre as [P1 P2 P3 P4 P5 P6].
  assert (writing u = false) as Hw by (unfold writing; by rewrite Hflg).
  pose proof (ok_resid _ _ (proj1 P4)) as [Hr0 _]. pose proof (ok_small _ _ (proj1 P4)) as Hsm.
  unfold sfs_io, available. wp_go. eapply wp_get_sv; [done|]. rewrite Hw. cbn [negb andb].
  set (size := sfi_size (sv_i sv)) in *.
  destruct (Z.geb_spec (uio_offset u) size).
  { wp_go. replace (Z.max 0 _) with 0 by lia. by apply io_post_nil. }
  set (extra := if uio_offset u + uio_resid u >? size then uio_offset u + uio_resid u - size else 0).
  assert (0 ≤ extra ≤ uio_resid u ∧ Z.max 0 (Z.min (uio_resid u) (size - uio_offset u)) = uio_resid u - extra) as [Hex Hn]
    by (unfold extra; destruct (Z.gtb_spec (uio_offset u + uio_resid u) size); lia).
  rewrite Hn. apply wp_bind.
  assert (∀ Q : Z → sfs_fs → Prop, Q extra s → wp (if uio_offset u + uio_resid u >? size then
    KASSERT (uio_resid u >? (uio_offset u + uio_resid u - size) mod 2 ^ 32) ;;
    mret ((uio_offset u + uio_resid u - size) mod 2 ^ 32) else mret 0) Q s) as Hextra.
  { intros Q HQ. unfold extra in HQ. destruct (Z.gtb_spec (uio_offset u + uio_resid u) size); [|by wp_go].
    rewrite Z.mod_small by lia. wp_check. done. }
  apply Hextra. set (u0 := set_cursor (uio_offset u) (uio_resid u - extra) u).
  assert (io_pre as_ v s sv u0) as Hpre0 by (by apply io_pre_extra).
  wp_go. eapply wp_mono; [|apply (io_blocks_correct as_ v s sv u0 Hpre0); simpl; lia].
  intros [res u1] s' Hp. pose proof Hp as (sv' & xs & u2 & m1 & Hst & _ & Htr & Hdat & _ & _ & Hr).
  eapply (io_out_read s' sv').
  - rewrite (st_svs _ _ _ _ _ Hst). apply lookup_insert_eq.
  - destruct Htr as [(_ & _ & _ & _ & _ & W) _]. unfold writing.
    destruct Hr as [(_ & _ & Hu & _)|[_ (k & _ & (_ & _ & _ & _ & _ & W2) & _)]]; simpl in *.
    + rewrite Hu, W. simpl. by rewrite Hflg.
    + rewrite W2, W. simpl. by rewrite Hflg.
  - by apply io_post_extra.
Qed.

(** ** Writing *)



End ops.

(** ** Directories against their specification *)

(** Operations on the names of a directory; a name is removed the way [sfs_remove]
    does it, by the slot that the search reports. *)
Inductive dir_op :=
| op_find (name : list Z)
| op_link (name : list Z) (ino : Z)
| op_remove (name : list Z).

Definition dir_run (v : positive) (op : dir_op) : M sfs_fs (result Z) :=
  match op with
  | op_find name =>
      '(r, _) ← sfs_dir_findname v name;
      mret (match r with Ok (_, ino) => Ok ino | Err e => Err e end)
  | op_link name ino => sfs_dir_link v name ino
  | op_remove name =>
      '(r, _) ← sfs_dir_findname v name;
      match r with
      | Err e => mret (Err e)
      | Ok (slot, ino) =>
          result ← sfs_dir_unlink v slot; mret (if result =? 0 then Ok ino else Err result)
      end
  end.

Fixpoint dir_run_all (v : positive) (ops : list dir_op) : M sfs_fs (list (result Z)) :=
  match ops with
  | [] => mret []
  | op :: ops' => r ← dir_run v op; rs ← dir_run_all v ops'; mret (r :: rs)
  end.

(** The same operations on a map from names to inode numbers. *)
Definition dir_spec (op : dir_op) (m : gmap (list Z) Z) (r : result Z) (m' : gmap (list Z) Z) : Prop :=
  match op with
  | op_find name => m' = m ∧ r = match m !! name with Some ino => Ok ino | None => Err ENOENT end
  | op_link name ino =>
      match r with
      | Ok _ => m !! name = None ∧ (length name < 60)%nat ∧ m' = <[name := ino]> m
      | Err e => m' = m ∧ (e = EEXIST ∧ is_Some (m !! name) ∨ m !! name = None ∧
          (e = ENAMETOOLONG ∧ (60 ≤ length name)%nat ∨ e = EFBIG ∨ e = ENOSPC))
      end
  | op_remove name =>
      match m !! name with
      | Some ino => r = Ok ino ∧ m' = delete name m
      | None => r = Err ENOENT ∧ m' = m
      end
  end.

Inductive spec_run : list dir_op → gmap (list Z) Z → list (result Z) → gmap (list Z) Z → Prop :=
| spec_nil m : spec_run [] m [] m
| spec_cons op ops m r m1 rs m2 :
    dir_spec op m r m1 → spec_run ops m1 rs m2 → spec_run (op :: ops) m (r :: rs) m2.

Definition op_ok (op : dir_op) : Prop :=
  match op with
  | op_find name | op_remove name => name_ok name
  | op_link name ino => name_ok name ∧ is_word ino ∧ ino ≠ 0
  end.

Lemma dir_run_correct v s sv op :
  fs_ok s → healthy s → svs s !! v = Some sv → dir_ok s (sv_i sv) → op_ok op →
  wp (dir_run v op) (λ r s', ∃ sv', dir_step v sv s s' sv' ∧
    dir_spec op (dirmap s (sv_i sv)) r (dirmap s' (sv_i sv'))) s.
Proof.
  intros Hs Hh Hv Hd Hop. destruct op as [name|name ino|name]; simpl in *.
  - wp_go. apply (sfs_dir_findname_correct v sv); [done..| |done]. intros r em s' Hu [Hr _]. wp_go.
    destruct (dir_step_unchanged v sv s s' Hd Hu) as [Hst Hm]. exists sv. split; [done|]. split; [done|].
    destruct r as [[k i]|e]; [destruct Hr as (_ & _ & _ & _ & ->)|destruct Hr as [-> ->]]; done.
  - destruct Hop as (Hn & Hi & Hz). eapply wp_mono; [|by apply (sfs_dir_link_correct v sv)].
    intros r s' (sv' & Hst & Hr). exists sv'. split; [done|]. destruct r as [slot|e]; naive_solver.
  - wp_go. apply (sfs_dir_findname_correct v sv); [done..| |done]. intros r em s1 Hu [Hr _].
    destruct (dir_step_unchanged v sv s s1 Hd Hu) as [Hst Hm]. destruct r as [[k i]|e]; wp_go.
    + destruct Hr as (Hk & Hi & Hn & Hino & Hsome). pose proof Hu as (Hst1 & _).
      pose proof Hst as (_ & Hm1 & Hd1 & Hl1).
      assert (dirent s1 (sv_i sv) k = dirent s (sv_i sv) k) as Hde by (apply (unchanged_dirent v); [done|lia]).
      apply (sfs_dir_unlink_correct v sv); [apply Hst1|by apply Hst1|by eapply unchanged_v|done|done|by rewrite Hde, Hino|].
      intros s2 sv2 (F2 & U2 & D2 & L2) Hdel. wp_go. exists sv2. split.
      { split_and!; [by eapply file_step_trans|congruence|done|congruence]. }
      rewrite Hsome. split; [done|]. by rewrite Hdel, Hm, Hde, Hn.
    + destruct Hr as [-> Hnone]. exists sv. split; [done|]. by rewrite Hnone, Hm.
Qed.

(** ** A volume to try things on *)

Definition block_of (xs : list Z) : list Z := xs ++ replicate (512 - length xs) 0.

(** Sixteen blocks.  Block 5 is the only block of a file of five bytes, whose inode is
    block 3; block 6 is that of the root directory, with one entry for the file. *)
Definition disk0 : list (list Z) :=
  replicate 5 zeros ++ [block_of [104; 101; 108; 108; 111]; block_of [0; 0; 0; 3; 97]] ++ replicate 9 zeros.
Definition inode_of (size type b : Z) : sfs_dinode := mkDinode size type 1 (b :: replicate 14 0) 0 (replicate 110 0).
Definition sv0 : sfs_vnode := mkSv (inode_of 5 SFS_TYPE_FILE 5) 3 true 1 sfs_fileops.
Definition root0 : sfs_vnode := mkSv (inode_of 64 SFS_TYPE_DIR 6) 1 true 1 sfs_dirops.
Definition vol0 (script : list bool) : sfs_fs :=
  mkFs (mkSuper SFS_MAGIC 16 (replicate 32 0) (replicate 118 0)) false [1%positive; 2%positive]
    (Bitmap.mkBitmap 16 [111; 0]) false {[ 1%positive := sv0; 2%positive := root0 ]} 0 sample
    (mkLhd 16 zeros 0 1 0 0 0 disk0 script).

Lemma block_of_ok xs : (length xs ≤ 512)%nat → Forall is_byte xs →
  length (block_of xs) = 512%nat ∧ Forall is_byte (block_of xs).
Proof.
  intros Hl Hb. unfold block_of. rewrite length_app, length_replicate. split; [lia|]. apply Forall_app. split; [done|].
  apply Forall_replicate. unfold is_byte. lia.
Qed.

Lemma disk0_ok : Forall (λ x, length x = 512%nat ∧ Forall is_byte x) disk0.
Proof.
  assert (length zeros = 512%nat ∧ Forall is_byte zeros) as Hz by (apply (block_of_ok []); [simpl; lia|constructor]).
  unfold disk0. rewrite !Forall_app. split_and!; [by apply Forall_replicate| |by apply Forall_replicate].
  apply Forall_cons; split; [|apply Forall_singleton]; (apply block_of_ok; [simpl; lia|]);
    repeat (apply Forall_cons; split; [unfold is_byte; lia|]); constructor.
Qed.

Lemma vol0_ok script : fs_ok (held (vol0 script)).
Proof.
  pose proof disk0_ok as Hd. rewrite Forall_forall in Hd.
  constructor; try done.
  - constructor; try done. intros b x Hx%znth_elem. by apply Hd.
  - constructor; try done; [by repeat constructor; lia|]. intros i Hi. simpl in Hi. lia.
  - intros b [H1 H2]. change (16 ≤ b) in H1. change (b < 16) in H2. lia.
  - intros b x Hx%znth_elem. by apply Hd.
Qed.

(** A file of one block. *)
Lemma inode_of_ok s size type b :
  is_word size → 0 ≤ type < 2 ^ 16 → 0 < b < nblocks s → nblocks s ≤ 2 ^ 23 → b ∈ inuse s →
  file_ok s (inode_of size type b).
Proof.
  intros Hsz Hty Hb Hn Hin.
  assert (∀ n, 0 ≤ n → fblock s (inode_of size type b) n = if decide (n = 0) then b else 0) as Hfb.
  { intros n Hn0. unfold fblock, idwords. destruct (decide (n = 0)) as [->|]; [done|].
    destruct (Z.ltb_spec n 15); [change (sfi_direct _) with ([b] ++ replicate 14 0)|change (sfi_indirect _ =? 0) with true].
    - rewrite znth_app, decide_False by (simpl; lia). rewrite znth_replicate; [done|simpl; lia].
    - destruct (znth _ _) as [x|] eqn:Hx; [|done]. by apply znth_elem, elem_of_replicate in Hx as [-> _]. }
  constructor.
  - constructor; try done; (split; [done|]); [constructor; [unfold is_word; lia|]|]; apply Forall_replicate; unfold is_word; lia.
  - intros c [Hc [->|(n & Hn0 & Hfn)]]; [done|]. rewrite Hfb in Hfn by lia. destruct (decide (n = 0)); [|congruence].
    by subst c.
  - intros n m Hn0 Hm. rewrite !Hfb by lia. repeat case_decide; lia.
  - intros n Hn0. rewrite Hfb by lia. simpl. by case_decide.
Qed.

Lemma sv0_ok script : file_ok (held (vol0 script)) (sv_i sv0).
Proof. by apply inode_of_ok. Qed.

Lemma io_pre0 u :
  uio_ok (Some 1%positive) u → is_sysspace u = false → 0 ≤ uio_offset u →
  io_pre (Some 1%positive) 1%positive (held (vol0 [])) sv0 u.
Proof.
  intros Hu Hseg Ho. constructor; [apply vol0_ok|done|apply sv0_ok|..|done|].
  - split_and!; [done..|]. unfold accessible. by rewrite Hseg.
  - intros _. split; [done|]. intros a x. change (mem (umem _)) with (mem sample). unfold sample. simpl.
    rewrite !lookup_insert_Some, lookup_singleton_Some. unfold is_byte. naive_solver lia.
Qed.

(** ** The claims *)

(** C7: [sfs_read] on a file of a sound volume never panics.  It copies the bytes of
    the file from the offset of the uio on, in order, up to the end of the request or
    of the file: whatever the alignment, across direct and indirect blocks, with
    zeros for blocks that do not exist.  When it stops early it says why (a user
    fault, the largest file size, or media errors that outlast all retries) and
    has copied a prefix.  The file, the disk, the free block map and the other files
    are as before, and the uio is advanced by what was copied. *)
Theorem sfs_read_spec as_ v s sv u :
  io_pre as_ v (held s) sv u → uio_rwflg u = UIO_READ → uio_offset u + uio_resid u < 2 ^ 41 →
  ∃ r s', sfs_read as_ v u s = Done (r, s') ∧
    io_post as_ v (held s) sv u (available sv u) r (held s').
Proof.
  intros Hpre Hflg Hoff. apply wp_done. unfold sfs_read, writing. rewrite Hflg. wp_check.
  apply wp_locked. eapply wp_mono; [|by apply sfs_io_read_correct].
  intros r s1 Hp. split; [destruct Hp as (sv' & _ & _ & _ & Hst & _); apply Hst|]. by intros s' ->.
Qed.

Lemma sfs_read_spec_witness :
  let u := uio_uinit (Some 1%positive) 4096 3 3 UIO_READ in
  (∃ r s', sfs_read (Some 1%positive) 1%positive u (vol0 []) = Done (r, s') ∧
     io_post (Some 1%positive) 1%positive (held (vol0 [])) sv0 u (available sv0 u) r (held s')) ∧
  ∃ u' s', sfs_read (Some 1%positive) 1%positive u (vol0 []) = Done ((0, u'), s') ∧
    uio_resid u' = 1 ∧ mem (umem s') !! 4096 = Some 108 ∧ mem (umem s') !! 4097 = Some 111.
Proof.
  intros u. split.
  - apply (sfs_read_spec (Some 1%positive) 1%positive (vol0 []) sv0 u); [|reflexivity|simpl; lia].
    apply io_pre0; [|reflexivity|simpl; lia].
    constructor; [vm_compute; split; discriminate|repeat constructor; simpl; lia|reflexivity..].
  - eexists _, _. split; [vm_compute; reflexivity|]. vm_compute. split; [reflexivity|split; reflexivity].
Defined.



(** C26: A write is lost without an error: when the first attempt of [sfs_writeblock]
    meets a media error, the driver has already drawn the data out of the uio, so
    the retry of [sfs_rwblock] has nothing left to transfer and succeeds at once.
    The call returns 0 and no block of the disk has changed. *)
Theorem write_error_lost s b data script :
  fs_ok s → 0 ≤ b < nblocks s → length data = 512%nat → media (sfs_device s) = true :: script →
  ∃ s', sfs_writeblock b data s = Done (0, s') ∧ ∀ c, disk s' c = disk s c.
Proof.
  intros Hs Hb Hlen Hm. destruct (disk_is_Some s b Hs Hb) as (x & Hx & _).
  destruct (proj1 (wp_done _ _ _) (write_error_dropped s b x data script Hs Hx Hlen Hm)) as (r & s' & Hrun & -> & Hd).
  by exists s'.
Qed.

Lemma write_error_lost_witness :
  let s := held (vol0 [true]) in
  ∃ s', sfs_writeblock 5 (replicate 512 7) s = Done (0, s') ∧ ∀ c, disk s' c = disk s c.
Proof.
  intros s. apply (write_error_lost s 5 (replicate 512 7) []); [apply vol0_ok|vm_compute; split; congruence|reflexivity..].
Defined.

(** C9: Directories are maps from names to inode numbers: on a sound volume without
    media errors any sequence of lookups, links and removals in a directory runs
    without a panic, gives the answers that the same operations give on the map, and
    leaves a directory that holds the resulting map; in particular no name is ever
    there twice, a lookup reports exactly the names that were linked and not
    removed, and a removal never fails for lack of space.  Blocks of other files are
    untouched. *)
Theorem directory_refines v s sv ops :
  fs_ok s → healthy s → svs s !! v = Some sv → dir_ok s (sv_i sv) → Forall op_ok ops →
  ∃ rs s' sv', dir_run_all v ops s = Done (rs, s') ∧
    spec_run ops (dirmap s (sv_i sv)) rs (dirmap s' (sv_i sv')) ∧ dir_step v sv s s' sv'.
Proof.
  intros Hs Hh Hv Hd Hops. revert s sv Hs Hh Hv Hd. induction Hops as [|op ops Hop _ IH]; intros s sv Hs Hh Hv Hd.
  { exists [], s, sv. split; [done|]. split; [apply spec_nil|]. split_and!; try done. apply file_step_same; try done. apply Hd. }
  destruct (proj1 (wp_done _ _ _) (dir_run_correct v s sv op Hs Hh Hv Hd Hop)) as (r & s1 & Hrun & sv1 & Hst & Hsp).
  destruct Hst as (F1 & U1 & D1 & L1).
  destruct (IH s1 sv1) as (rs & s2 & sv2 & Hrun2 & Hsp2 & (F2 & U2 & D2 & L2)).
  - apply F1.
  - by apply F1.
  - rewrite (st_svs _ _ _ _ _ F1). apply lookup_insert_eq.
  - done.
  - exists (r :: rs), s2, sv2. split; [|split; [by econstructor|split_and!; [by eapply file_step_trans|congruence|done|congruence]]].
    simpl. unfold mbind, M_bind. by rewrite Hrun, Hrun2.
Qed.

Lemma root0_ok script : dir_ok (held (vol0 script)) (sv_i root0).
Proof.
  constructor; [by apply inode_of_ok|done|done|].
  replace (pairs _) with [([97], 3)] by (vm_compute; reflexivity). simpl. apply NoDup_singleton.
Qed.

Lemma directory_refines_witness :
  let s := held (vol0 []) in
  let ops := [op_find [97]; op_link [98; 99] 3; op_remove [97]; op_find [97]; op_link [98; 99] 5] in
  (∃ rs s' sv', dir_run_all 2%positive ops s = Done (rs, s') ∧
    spec_run ops (dirmap s (sv_i root0)) rs (dirmap s' (sv_i sv')) ∧ dir_step 2%positive root0 s s' sv') ∧
  ∃ s', dir_run_all 2%positive ops s = Done ([Ok 3; Ok 1; Ok 3; Err ENOENT; Err EEXIST], s').
Proof.
  intros s ops. split.
  - apply (directory_refines 2%positive s root0 ops); [apply vol0_ok|reflexivity|reflexivity|apply root0_ok|].
    repeat (apply Forall_cons; split; [unfold op_ok, name_ok, is_word; repeat (split || constructor); lia|]); constructor.
  - eexists. vm_compute. reflexivity.
Defined.



Lemma vol0_table : table_ok (held (vol0 [])).
Proof.
  assert (∀ v sv, v ∈ [1%positive; 2%positive] → svs (held (vol0 [])) !! v = Some sv →
    v = 1%positive ∧ sv = sv0 ∨ v = 2%positive ∧ sv = root0) as Hcases.
  { intros v sv Hv Hsv. apply elem_of_cons in Hv as [->|[->|[]%not_elem_of_nil]%elem_of_cons];
      injection Hsv as <-; [by left|by right]. }
  constructor.
  - apply (bool_decide_unpack (NoDup [1%positive; 2%positive])). reflexivity.
  - intros v Hv. apply elem_of_cons in Hv as [->|[->|[]%not_elem_of_nil]%elem_of_cons].
    + exists sv0. split_and!; try done. apply (f_inode _ _ (sv0_ok [])).
    + exists root0. split_and!; try done. apply (f_inode _ _ (do_file _ _ (root0_ok []))).
  - intros v w sv sw Hv Hw Hsv Hsw Heq.
    destruct (Hcases v sv Hv Hsv) as [[-> ->]|[-> ->]], (Hcases w sw Hw Hsw) as [[-> ->]|[-> ->]]; done.
  - intros v sv Hv Hsv. by destruct (Hcases v sv Hv Hsv) as [[-> ->]|[-> ->]].
Qed.

(** C11: An inode survives a trip to the disk: on a sound volume without media errors,
    [sfs_reclaim] of the last reference to a file that still has links writes the
    inode back if needed and drops the vnode from memory; loading the same inode
    number afterwards gives a vnode with the same inode, field by field, a single
    reference, and the operations of its type. *)
Theorem inode_survives v s sv ops :
  fs_ok (held s) → healthy s → table_ok (held s) → v ∈ sfs_vnodes s → svs s !! v = Some sv →
  vn_refcount sv = 1 → sfi_linkcount (sv_i sv) ≠ 0 →
  sfi_type (sv_i sv) = SFS_TYPE_FILE ∧ ops = sfs_fileops ∨ sfi_type (sv_i sv) = SFS_TYPE_DIR ∧ ops = sfs_dirops →
  ∃ s1, sfs_reclaim v s = Done (0, s1) ∧ svs s1 !! v = None ∧
    ∃ v' s2, sfs_loadvnode true true (sv_ino sv) SFS_TYPE_INVAL (held s1) = Done (Ok v', s2) ∧
      svs s2 !! v' = Some (mkSv (sv_i sv) (sv_ino sv) false 1 ops).
Proof.
  intros Hs Hh Ht Hin Hv Hrc Hlk Hty. destruct (ta_loaded _ Ht v Hin) as (sv' & Hv' & Hr & Hu & _).
  assert (sv' = sv) as -> by (change (svs (held s)) with (svs s) in Hv'; congruence).
  assert (wp (sfs_reclaim v) (λ r s1, r = 0 ∧ svs s1 !! v = None ∧
    wp (sfs_loadvnode true true (sv_ino sv) SFS_TYPE_INVAL)
      (λ r s2, ∃ v', r = Ok v' ∧ svs s2 !! v' = Some (mkSv (sv_i sv) (sv_ino sv) false 1 ops)) (held s1)) s) as Hw.
  { unfold sfs_reclaim. apply wp_locked. apply (reclaim_body_correct v (held s) sv); [done..|].
    intros s' bs Hs' Hh' Hsb Hbl Hu' Hbs Hof Hdk Hsv Hni Hsub. split; [apply Hs'|]. intros s1 <-.
    change (svs (held s1)) with (svs s1) in *. change (sfs_vnodes (held s1)) with (sfs_vnodes s1) in *.
    split_and!; [done|rewrite Hsv; apply lookup_delete_eq|].
    assert (nblocks (held s1) = nblocks (held s)) as Hnb by (unfold nblocks; by rewrite Hsb).
    apply (sfs_loadvnode_fresh (held s1) (sv_ino sv) bs ops);
      [done|done|by rewrite Hnb|by rewrite Hu'|done| |by rewrite Hof|].
    - intros w Hw. destruct (ta_loaded _ Ht w (Hsub w Hw)) as (sw & Hsw & Hrw & Huw & _). exists sw.
      assert (w ≠ v) as Hne by (by intros ->). change (svs (held s)) with (svs s) in *.
      split; [simpl; by rewrite Hsv, lookup_delete_ne|]. split; [by rewrite Hnb|]. split; [by rewrite Hu'|].
      intros Heq. apply Hne. by eapply (ta_inj _ Ht w v); [apply Hsub| | | |].
    - intros s2 v' Hv2 Hsv2 _ _. exists v'. split; [done|]. by rewrite Hsv2, lookup_insert_eq, Hof. }
  apply wp_done in Hw as (r & s1 & Hrun & -> & Hnone & Hload). exists s1. split_and!; [done|done|].
  apply wp_done in Hload as (r & s2 & Hrun2 & v' & -> & Hsv). by exists v', s2.
Qed.

Lemma inode_survives_witness :
  ∃ s1, sfs_reclaim 1%positive (vol0 []) = Done (0, s1) ∧ svs s1 !! 1%positive = None ∧
    ∃ v' s2, sfs_loadvnode true true 3 SFS_TYPE_INVAL (held s1) = Done (Ok v', s2) ∧
      svs s2 !! v' = Some (mkSv (sv_i sv0) 3 false 1 sfs_fileops).
Proof.
  apply (inode_survives 1%positive (vol0 []) sv0 sfs_fileops);
    [apply vol0_ok|reflexivity|apply vol0_table|left|reflexivity|reflexivity|discriminate|left; split; reflexivity].
Defined.

End SfsTheorems.
