(* ===== verification/Files.v ===== *)
(** * Open files and file tables (kern/syscall/openfile.c, filetable.c)

    Open files live in a store shared by all processes; a file table is an array
    of [OPEN_MAX] pointers to them.  The layer below, the VFS, is an interface:
    the operations the code calls, with what their documentation promises. *)

From Stdlib Require Import ZArith Lia.
From stdpp Require Import base numbers list gmap.
From S2P Require Import Prelude CopyInOut Uio.

Module Files.
Import CopyInOut Uio.

(** Flags of kern/include/kern/fcntl.h. *)
Definition O_RDONLY : Z := 0.
Definition O_WRONLY : Z := 1.
Definition O_RDWR : Z := 2.
Definition O_CREAT : Z := 4.
Definition O_EXCL : Z := 8.
Definition O_TRUNC : Z := 16.
Definition O_APPEND : Z := 32.
Definition O_NOCTTY : Z := 64.
Definition O_ACCMODE : Z := 3.

Definition OPEN_MAX : Z := 128.
Definition PATH_MAX : Z := 1024.

(** ** The interface of the VFS layer

    [W] is the state of the file systems, [positive] the address of a vnode.
    [vn_refcount w v] is the reference count of a vnode. *)
Class VfsOps (W : Type) := {
  vfs_open : list Z → Z → Z → M W (result positive);
  vfs_close : positive → M W unit;
  VOP_ISSEEKABLE : positive → bool;
  VOP_READ : positive → uio → M (machine * W) (Z * uio);
  VOP_WRITE : positive → uio → M (machine * W) (Z * uio);
  (** [info.st_size] *)
  VOP_STAT : positive → M W (result Z);
  vn_refcount : W → positive → Z;
  world_ok : W → Prop;
}.

(** [c] plus one at [v]. *)
Definition add1 (v : positive) (c : positive → Z) (x : positive) : Z :=
  c x + if decide (x = v) then 1 else 0.

Definition ind (o : option positive) (f : positive) : Z :=
  if decide (o = Some f) then 1 else 0.

Definition sub1 (f : positive) (x : positive → Z) (g : positive) : Z :=
  x g - ind (Some f) g.

Lemma sub1_eq f x : sub1 f x f = x f - 1.
Proof. unfold sub1, ind. by rewrite decide_True. Qed.
Lemma sub1_ne f x g : g ≠ f → sub1 f x g = x g.
Proof. intros. unfold sub1, ind. rewrite decide_False by congruence. lia. Qed.
Lemma add1_eq f x : add1 f x f = x f + 1.
Proof. unfold add1. by rewrite decide_True. Qed.
Lemma add1_ne f x g : g ≠ f → add1 f x g = x g.
Proof. intros. unfold add1. rewrite decide_False by done. lia. Qed.

(** Arithmetic on counted references. *)
Ltac refs_lia :=
  unfold sub1, add1, ind in *; repeat case_decide; simplify_eq; lia.

Definition valid_accmode (a : Z) : bool :=
  (a =? O_RDONLY) || (a =? O_WRONLY) || (a =? O_RDWR).

(** A transfer to or from one block of user memory, which has room for it. *)
Definition user_uio (rw : uio_rw) (u : uio) : Prop :=
  is_sysspace u = false ∧ uio_rwflg u = rw ∧
  ∃ base len, uio_iov u = [mkIovec base len] ∧ 0 ≤ uio_resid u ≤ len.

(** What the VFS promises: [vfs_open] yields a vnode with a new reference and
    rejects invalid access modes, [vfs_close] gives a reference back, the
    transfers keep the references and only advance the uio. *)
Class VfsLaws (W : Type) `{VfsOps W} := {
  vfs_open_law path flags mode w : world_ok w →
    wp (vfs_open path flags mode) (λ r w', world_ok w' ∧
      match r with
      | Ok v => valid_accmode (Z.land flags O_ACCMODE) = true ∧
                ∀ x, vn_refcount w' x = add1 v (vn_refcount w) x
      | Err e => 0 < e ∧ ∀ x, vn_refcount w' x = vn_refcount w x
      end) w;
  vfs_close_law v w : world_ok w → 0 < vn_refcount w v →
    wp (vfs_close v) (λ _ w', world_ok w' ∧
      ∀ x, add1 v (vn_refcount w') x = vn_refcount w x) w;
  vop_rw_law (rw : uio_rw) v u m w : world_ok w → 0 < vn_refcount w v →
    tm_badfaultfunc m = false → user_uio rw u →
    wp (match rw with UIO_READ => VOP_READ v u | UIO_WRITE => VOP_WRITE v u end)
      (λ r mw, let '(res, u') := r in
        tm_badfaultfunc mw.1 = false ∧ world_ok mw.2 ∧
        (∀ x, vn_refcount mw.2 x = vn_refcount w x) ∧ 0 ≤ res ∧
        (res = 0 → 0 ≤ uio_resid u' ≤ uio_resid u)) (m, w);
  vop_stat_law v w : world_ok w → 0 < vn_refcount w v →
    wp (VOP_STAT v) (λ r w', world_ok w' ∧
      (∀ x, vn_refcount w' x = vn_refcount w x) ∧
      match r with Ok _ => True | Err e => 0 < e end) w;
}.

(** ** State *)

(** [of_offsetlock] is the process that holds the lock, if any.  [of_reflock]
    is a spinlock held only within [openfile_incref] and [openfile_decref]. *)
Record openfile := mkOpenfile {
  of_vnode : positive;
  of_accmode : Z;
  of_offsetlock : option positive;
  of_offset : Z;
  of_refcount : Z;
}.

(** [ft_openfiles] *)
Abbreviation filetable := (list (option positive)).

Section files.
Context {W : Type} `{VfsOps W}.

Record kstate := mkK {
tables : gmap positive filetable;
files : gmap positive openfile;
umem : machine;
world : W;
}.

Definition set_tables t (s : kstate) := mkK t (files s) (umem s) (world s).
Definition set_files f (s : kstate) := mkK (tables s) f (umem s) (world s).

(** Running code of the layers below. *)
Definition in_world {A} (m : M W A) : M kstate A := λ s,
match m (world s) with
| Done (a, w) => Done (a, mkK (tables s) (files s) (umem s) w)
| Panic => Panic
end.
Definition in_umem {A} (m : M machine A) : M kstate A := λ s,
match m (umem s) with
| Done (a, u) => Done (a, mkK (tables s) (files s) u (world s))
| Panic => Panic
end.
Definition in_both {A} (m : M (machine * W) A) : M kstate A := λ s,
match m (umem s, world s) with
| Done (a, (u, w)) => Done (a, mkK (tables s) (files s) u w)
| Panic => Panic
end.

Definition file_get (f : positive) : M kstate openfile :=
o ← gets (λ s, files s !! f); deref o.
Definition file_put (f : positive) (o : openfile) : M kstate unit :=
_ ← file_get f; modify (λ s, set_files (<[f := o]> (files s)) s).

Definition table_get (ft : positive) : M kstate filetable :=
o ← gets (λ s, tables s !! ft); deref o.

(** [ft->ft_openfiles[fd]] *)
Definition slot_get (ft : positive) (fd : Z) : M kstate (option positive) :=
t ← table_get ft; deref (znth t fd).
Definition slot_set (ft : positive) (fd : Z) (o : option positive) : M kstate unit :=
t ← table_get ft; _ ← deref (znth t fd);
modify (λ s, set_tables (<[ft := zset t fd o]> (tables s)) s).

(** ** openfile.c *)

(** [ok1], [ok2]: whether [kmalloc] and [lock_create] succeed. *)
Definition openfile_create (ok1 ok2 : bool) (vn : positive) (accmode : Z)
: M kstate (option positive) :=
KASSERT (valid_accmode accmode) ;;
if negb ok1 then mret None else
if negb ok2 then mret None else
f ← gets (λ s, fresh (dom (files s)));
modify (λ s, set_files (<[f := mkOpenfile vn accmode None 0 1]> (files s)) s) ;;
mret (Some f).

(** [lock_destroy] requires the lock to be free. *)
Definition openfile_destroy (f : positive) : M kstate unit :=
o ← file_get f;
in_world (vfs_close (of_vnode o)) ;;
KASSERT (bool_decide (of_offsetlock o = None)) ;;
modify (λ s, set_files (delete f (files s)) s).

Definition openfile_open (ok1 ok2 : bool) (filename : list Z) (openflags mode : Z)
: M kstate (result positive) :=
r ← in_world (vfs_open filename openflags mode);
match r with
| Err e => mret (Err e)
| Ok vn =>
    file ← openfile_create ok1 ok2 vn (Z.land openflags O_ACCMODE);
    match file with
    | None => in_world (vfs_close vn) ;; mret (Err ENOMEM)
    | Some f => mret (Ok f)
    end
end.

Definition openfile_incref (f : positive) : M kstate unit :=
o ← file_get f;
file_put f (mkOpenfile (of_vnode o) (of_accmode o) (of_offsetlock o) (of_offset o)
              (of_refcount o + 1)).

Definition openfile_decref (f : positive) : M kstate unit :=
o ← file_get f;
if of_refcount o =? 1 then openfile_destroy f
else
  KASSERT (of_refcount o >? 1) ;;
  file_put f (mkOpenfile (of_vnode o) (of_accmode o) (of_offsetlock o) (of_offset o)
                (of_refcount o - 1)).

(** ** filetable.c *)

Definition filetable_create (ok : bool) : M kstate (option positive) :=
if negb ok then mret None else
ft ← gets (λ s, fresh (dom (tables s)));
modify (λ s, set_tables (<[ft := replicate (Z.to_nat OPEN_MAX) None]> (tables s)) s) ;;
mret (Some ft).

Definition filetable_destroy (ft : positive) : M kstate unit :=
for_loop (Z.to_nat OPEN_MAX) 0 (λ fd,
  o ← slot_get ft fd;
  match o with
  | Some f => openfile_decref f ;; slot_set ft fd None
  | None => mret tt
  end) ;;
modify (λ s, set_tables (delete ft (tables s)) s).

Definition filetable_copy (ok : bool) (src : option positive)
: M kstate (result (option positive)) :=
match src with
| None => mret (Ok None)
| Some src =>
    dest ← filetable_create ok;
    match dest with
    | None => mret (Err ENOMEM)
    | Some dest =>
        for_loop (Z.to_nat OPEN_MAX) 0 (λ fd,
          file ← slot_get src fd;
          match file with Some f => openfile_incref f | None => mret tt end ;;
          slot_set dest fd file) ;;
        mret (Ok (Some dest))
    end
end.

Definition filetable_okfd (fd : Z) : bool := (fd >=? 0) && (fd <? OPEN_MAX).

Definition filetable_get (ft : positive) (fd : Z) : M kstate (result positive) :=
if negb (filetable_okfd fd) then mret (Err EBADF) else
o ← slot_get ft fd;
mret (match o with None => Err EBADF | Some f => Ok f end).

Definition filetable_put (ft : positive) (fd : Z) (f : positive) : M kstate unit :=
o ← slot_get ft fd; KASSERT (bool_decide (o = Some f)).

Definition filetable_place (ft : positive) (f : positive) : M kstate (result Z) :=
r ← for_return (Z.to_nat OPEN_MAX) 0 (λ fd,
  o ← slot_get ft fd;
  match o with
  | None => slot_set ft fd (Some f) ;; mret (Some fd)
  | Some _ => mret None
  end);
mret (match r with Some fd => Ok fd | None => Err EMFILE end).

Definition filetable_placeat (ft : positive) (newfile : option positive) (fd : Z)
: M kstate (option positive) :=
KASSERT (filetable_okfd fd) ;;
old ← slot_get ft fd;
slot_set ft fd newfile ;;
mret old.

(** ** Reference counts

  Every reference to an open file is either a slot of a file table or held by
  running code.  [x f] counts the references to [f] that running code holds,
  [base v] the references to the vnode [v] held outside this component, and
  [h f] is the holder of the offset lock of [f]. *)

(** The number of slots of a table, and of all tables, that refer to [f]. *)
Definition cnt (f : positive) (t : filetable) : Z :=
Z.of_nat (length (filter (λ o, o = Some f) t)).
Definition refs (f : positive) (m : gmap positive filetable) : Z := msum (cnt f) m.

(** The number of open files on the vnode [v]. *)
Definition held (v : positive) (m : gmap positive openfile) : Z :=
msum (λ o, if decide (v = of_vnode o) then 1 else 0) m.

Record wf (x base : positive → Z) (h : positive → option positive) (s : kstate) : Prop := {
wf_world : world_ok (world s);
wf_umem : tm_badfaultfunc (umem s) = false;
wf_len : ∀ ft t, tables s !! ft = Some t → length t = Z.to_nat OPEN_MAX;
wf_x : ∀ f, 0 ≤ x f;
wf_base : ∀ v, 0 ≤ base v;
wf_file : ∀ f o, files s !! f = Some o →
  of_refcount o = refs f (tables s) + x f ∧ 0 < of_refcount o ∧
  valid_accmode (of_accmode o) = true ∧ of_offsetlock o = h f;
wf_gone : ∀ f, files s !! f = None → refs f (tables s) + x f = 0 ∧ h f = None;
wf_vnode : ∀ v, vn_refcount (world s) v = held v (files s) + base v;
}.

#[global] Instance wf_proper :
Proper (pointwise_relation _ eq ==> pointwise_relation _ eq ==>
        pointwise_relation _ eq ==> eq ==> iff) wf.
Proof.
intros x x' Hx b b' Hb h h' Hh s ? <-. unfold pointwise_relation in *.
split; intros []; constructor; auto; intros;
  rewrite <- ?Hx, <- ?Hb, <- ?Hh || rewrite ?Hx, ?Hb, ?Hh; auto.
Qed.

Lemma wf_ext x x' base h s : (∀ f, x f = x' f) → wf x base h s → wf x' base h s.
Proof. intros Hx. by apply wf_proper; [symmetry; exact Hx|..]. Qed.

Lemma cnt_nonneg f t : 0 ≤ cnt f t.
Proof. unfold cnt. lia. Qed.

Lemma refs_nonneg f m : 0 ≤ refs f m.
Proof. apply msum_nonneg. intros. apply cnt_nonneg. Qed.

Lemma cnt_zset f t fd old new :
znth t fd = Some old → cnt f (zset t fd new) = cnt f t - ind old f + ind new f.
Proof.
intros Hfd. pose proof (znth_Some_range _ _ _ Hfd) as Hr.
rewrite znth_lookup in Hfd by lia. unfold zset, cnt, ind.
rewrite insert_take_drop by lia.
rewrite <- (take_drop_middle t _ _ Hfd) at 3.
rewrite !filter_app, !filter_cons, !length_app.
destruct (decide (old = Some f)), (decide (new = Some f)); simpl; lia.
Qed.

Lemma cnt_pos f t fd : znth t fd = Some (Some f) → 1 ≤ cnt f t.
Proof.
intros Hfd. pose proof (cnt_zset f t fd (Some f) None Hfd) as Hz.
pose proof (cnt_nonneg f (zset t fd None)). unfold ind in Hz.
rewrite decide_True, decide_False in Hz by done. lia.
Qed.

Lemma refs_pos f m ft t fd :
m !! ft = Some t → znth t fd = Some (Some f) → 1 ≤ refs f m.
Proof.
intros Ht Hfd. pose proof (cnt_pos f t fd Hfd).
pose proof (msum_ge (cnt f) m ft t (λ _ _ _, cnt_nonneg _ _) Ht). unfold refs. lia.
Qed.

(** A slot refers to an open file that exists. *)
Lemma slot_file x base h s ft t fd f :
wf x base h s → tables s !! ft = Some t → znth t fd = Some (Some f) →
∃ o, files s !! f = Some o.
Proof.
intros Hwf Ht Hfd. destruct (files s !! f) as [o|] eqn:Hf; [by eauto|].
destruct (wf_gone _ _ _ _ Hwf f Hf). pose proof (wf_x _ _ _ _ Hwf f).
pose proof (refs_pos _ _ _ _ _ Ht Hfd). lia.
Qed.

(** A reference held by running code, too. *)
Lemma wf_owned x base h s f :
wf x base h s → 0 < x f → ∃ o, files s !! f = Some o.
Proof.
intros Hwf Hx. destruct (files s !! f) as [o|] eqn:Hf; [by eauto|].
destruct (wf_gone _ _ _ _ Hwf f Hf). pose proof (refs_nonneg f (tables s)). lia.
Qed.

(** *** Steps of the model *)

Definition set_world (w : W) (s : kstate) := mkK (tables s) (files s) (umem s) w.

Lemma wp_in_world {A} (m : M W A) (Q : A → kstate → Prop) s :
wp m (λ a w, Q a (set_world w s)) (world s) → wp (in_world m) Q s.
Proof. unfold wp, in_world. by destruct (m (world s)) as [[a w]|]. Qed.

Lemma wp_in_umem {A} (m : M machine A) (Q : A → kstate → Prop) s :
wp m (λ a u, Q a (mkK (tables s) (files s) u (world s))) (umem s) →
wp (in_umem m) Q s.
Proof. unfold wp, in_umem. by destruct (m (umem s)) as [[a u]|]. Qed.

Lemma wp_in_both {A} (m : M (machine * W) A) (Q : A → kstate → Prop) s :
wp m (λ a mw, Q a (mkK (tables s) (files s) mw.1 mw.2)) (umem s, world s) →
wp (in_both m) Q s.
Proof. unfold wp, in_both. by destruct (m (umem s, world s)) as [[a [u w]]|]. Qed.

Lemma wp_file_get f o (Q : openfile → kstate → Prop) s :
files s !! f = Some o → Q o s → wp (file_get f) Q s.
Proof. intros Hf HQ. unfold file_get. wp_go. by eapply wp_deref. Qed.

Lemma wp_file_put f o o' (Q : unit → kstate → Prop) s :
files s !! f = Some o → Q tt (set_files (<[f := o']> (files s)) s) →
wp (file_put f o') Q s.
Proof. intros Hf HQ. unfold file_put. wp_go. eapply wp_file_get; [done|]. by wp_go. Qed.

Lemma wp_slot_get ft fd t o (Q : option positive → kstate → Prop) s :
tables s !! ft = Some t → znth t fd = Some o → Q o s → wp (slot_get ft fd) Q s.
Proof.
intros Ht Ho HQ. unfold slot_get, table_get. wp_go. eapply wp_deref; [done|].
by eapply wp_deref.
Qed.

Lemma wp_slot_set ft fd t o o' (Q : unit → kstate → Prop) s :
tables s !! ft = Some t → znth t fd = Some o →
Q tt (set_tables (<[ft := zset t fd o']> (tables s)) s) → wp (slot_set ft fd o') Q s.
Proof.
intros Ht Ho HQ. unfold slot_set, table_get. wp_go. eapply wp_deref; [done|].
wp_go. eapply wp_deref; [done|]. by wp_go.
Qed.

(** *** Moving references *)

(** Storing a reference in a slot takes it from the running code, which gets
  the reference that was there. *)
Lemma wf_slot_set x base h s ft t fd old new :
wf x base h s → tables s !! ft = Some t → znth t fd = Some old →
(∀ f, ind new f ≤ x f + ind old f) →
wf (λ f, x f + ind old f - ind new f) base h
   (set_tables (<[ft := zset t fd new]> (tables s)) s).
Proof.
intros Hwf Ht Hfd Hnew.
assert (∀ f, refs f (<[ft := zset t fd new]> (tables s)) =
             refs f (tables s) - ind old f + ind new f) as Hrefs.
{ intros f. unfold refs. rewrite (msum_update _ _ ft t) by done.
  rewrite (cnt_zset _ _ _ old) by done. lia. }
destruct Hwf as [Hw Hu Hl Hx Hb Hf Hg Hv]. constructor; simpl; try done.
- intros ft' t'. destruct (decide (ft' = ft)) as [->|].
  + rewrite lookup_insert_eq. intros [= <-]. rewrite length_zset. by apply (Hl ft).
  + rewrite lookup_insert_ne by done. apply Hl.
- intros f. specialize (Hnew f). lia.
- intros f o Ho. rewrite Hrefs. destruct (Hf f o Ho) as (? & ? & ? & ?).
  split_and!; [lia|done..].
- intros f Ho. rewrite Hrefs. destruct (Hg f Ho). split; [lia|done].
Qed.

Definition with_refcount (o : openfile) (n : Z) : openfile :=
mkOpenfile (of_vnode o) (of_accmode o) (of_offsetlock o) (of_offset o) n.

Lemma held_same v m f o o' :
m !! f = Some o → of_vnode o' = of_vnode o → held v (<[f := o']> m) = held v m.
Proof. intros Hf Hv. unfold held. rewrite (msum_update _ _ f o) by done. rewrite Hv. lia. Qed.

(** Changing the count of a file along with the references held to it. *)
Lemma wf_set_refcount x x' base h s f o n :
wf x base h s → files s !! f = Some o → 0 < n → n = refs f (tables s) + x' f →
(∀ g, g ≠ f → x' g = x g) → 0 ≤ x' f →
wf x' base h (set_files (<[f := with_refcount o n]> (files s)) s).
Proof.
intros [Hw Hu Hl Hx Hb Hf Hg Hv] Ho Hn Heq Hne Hpos. constructor; simpl; try done.
- intros g. destruct (decide (g = f)) as [->|]; [done|]. by rewrite Hne.
- intros g o'. destruct (decide (g = f)) as [->|].
  + rewrite lookup_insert_eq. intros [= <-]. simpl.
    destruct (Hf f o Ho) as (? & ? & ? & ?). done.
  + rewrite lookup_insert_ne, Hne by done. apply Hf.
- intros g. destruct (decide (g = f)) as [->|].
  + rewrite lookup_insert_eq. done.
  + rewrite lookup_insert_ne, Hne by done. apply Hg.
- intros v. rewrite Hv. by rewrite (held_same v (files s) f o).
Qed.

Lemma openfile_incref_correct x base h s f o :
wf x base h s → files s !! f = Some o →
wp (openfile_incref f) (λ _ s',
  s' = set_files (<[f := with_refcount o (of_refcount o + 1)]> (files s)) s ∧
  wf (add1 f x) base h s') s.
Proof.
intros Hwf Ho. unfold openfile_incref. wp_go. eapply wp_file_get; [done|].
eapply wp_file_put; [done|]. split; [done|].
destruct (wf_file _ _ _ _ Hwf f o Ho) as (Hr & Hp & _).
apply (wf_set_refcount x); try done; unfold add1.
- lia.
- rewrite decide_True by done. lia.
- intros g Hg. rewrite decide_False by done. lia.
- pose proof (wf_x _ _ _ _ Hwf f). case_decide; lia.
Qed.

Lemma held_delete v m f o :
m !! f = Some o → held v m = add1 (of_vnode o) (λ v, held v (delete f m)) v.
Proof.
intros Ho. unfold held, add1. rewrite (msum_delete _ _ f o) by done. lia.
Qed.

Context `{!VfsLaws W}.

Lemma wf_vn_pos x base h s f o :
wf x base h s → files s !! f = Some o → 0 < vn_refcount (world s) (of_vnode o).
Proof.
intros Hwf Ho. rewrite (wf_vnode _ _ _ _ Hwf), (held_delete _ _ f o) by done.
rewrite add1_eq. pose proof (wf_base _ _ _ _ Hwf (of_vnode o)).
assert (0 ≤ held (of_vnode o) (delete f (files s))); [|lia].
apply msum_nonneg. intros. case_decide; lia.
Qed.

(** The last reference goes, and the file with it. *)
Lemma wf_remove x base h s f o w :
wf x base h s → files s !! f = Some o → of_refcount o = 1 → 0 < x f → h f = None →
world_ok w → (∀ v, add1 (of_vnode o) (vn_refcount w) v = vn_refcount (world s) v) →
wf (sub1 f x) base h (mkK (tables s) (delete f (files s)) (umem s) w).
Proof.
intros Hwf Ho H1 Hx Hh Hw Hv.
destruct (wf_file _ _ _ _ Hwf f o Ho) as (Hr & _). pose proof (refs_nonneg f (tables s)).
destruct Hwf as [_ Hu Hl Hx0 Hb Hf Hg Hvn]. constructor; simpl; try done.
- intros g. destruct (decide (g = f)) as [->|]; [rewrite sub1_eq; lia|by rewrite sub1_ne].
- intros g o'. rewrite lookup_delete_Some. intros [Hne Ho'].
  rewrite sub1_ne by done. by apply Hf.
- intros g. rewrite lookup_delete_None. destruct (decide (g = f)) as [->|].
  + intros _. rewrite sub1_eq. split; [lia|done].
  + intros [|]; [done|]. rewrite sub1_ne by done. by apply Hg.
- intros v. specialize (Hv v). rewrite Hvn, (held_delete v _ f o) in Hv by done.
  unfold add1 in Hv. lia.
Qed.

(** Dropping a reference: the file goes when it was the last one. *)
Definition drop_file (f : positive) (m : gmap positive openfile) : gmap positive openfile :=
match m !! f with
| Some o => if of_refcount o =? 1 then delete f m
            else <[f := with_refcount o (of_refcount o - 1)]> m
| None => m
end.

Lemma openfile_decref_correct x base h s f :
wf x base h s → 0 < x f → (h f = None ∨ 0 < refs f (tables s)) →
wp (openfile_decref f) (λ _ s', wf (sub1 f x) base h s' ∧
  tables s' = tables s ∧ umem s' = umem s ∧ files s' = drop_file f (files s)) s.
Proof.
intros Hwf Hx Hlock. destruct (wf_owned _ _ _ _ f Hwf Hx) as [o Ho].
destruct (wf_file _ _ _ _ Hwf f o Ho) as (Hr & Hp & Ha & Hh).
unfold openfile_decref, drop_file. wp_go. eapply wp_file_get; [done|]. rewrite Ho.
destruct (Z.eqb_spec (of_refcount o) 1) as [H1|H1].
- assert (h f = None) as Hn.
  { destruct Hlock as [|Hpos]; [done|]. lia. }
  unfold openfile_destroy. wp_go. eapply wp_file_get; [done|]. wp_go. apply wp_in_world.
  eapply wp_mono; [|apply vfs_close_law; [apply Hwf|by eapply wf_vn_pos]].
  intros [] w [Hw Hv]. wp_go. apply wp_KASSERT.
  { rewrite Hh, Hn. done. }
  wp_go. split_and!; [exact (wf_remove x base h s f o w Hwf Ho H1 Hx Hn Hw Hv)|done..].
- wp_check. eapply wp_file_put; [done|]. split_and!; [|done..].
  apply (wf_set_refcount x); [done|done|lia|..].
  + rewrite sub1_eq. lia.
  + intros g Hg. by rewrite sub1_ne.
  + rewrite sub1_eq. lia.
Qed.

(** *** Opening *)

Lemma wf_world_change x base base' h s w :
wf x base h s → world_ok w → (∀ v, 0 ≤ base' v) →
(∀ v, vn_refcount w v - base' v = vn_refcount (world s) v - base v) →
wf x base' h (set_world w s).
Proof.
intros [Hw Hu Hl Hx Hb Hf Hg Hv] Hw' Hb' Heq. constructor; simpl; try done.
intros v. specialize (Heq v). rewrite Hv in Heq. lia.
Qed.

Lemma wf_new_file x base h s f vn accmode :
wf x (add1 vn base) h s → (∀ v, 0 ≤ base v) → files s !! f = None →
valid_accmode accmode = true →
wf (add1 f x) base h
   (set_files (<[f := mkOpenfile vn accmode None 0 1]> (files s)) s).
Proof.
intros [Hw Hu Hl Hx Hb Hf Hg Hv] Hb' Hfree Ha.
destruct (Hg f Hfree) as [Hz Hh]. pose proof (refs_nonneg f (tables s)).
constructor; simpl; try done.
- intros g. unfold add1. specialize (Hx g). case_decide; lia.
- intros g o. destruct (decide (g = f)) as [->|].
  + rewrite lookup_insert_eq. intros [= <-]. simpl. rewrite add1_eq.
    split_and!; [specialize (Hx f); lia|lia|done..].
  + rewrite lookup_insert_ne, add1_ne by done. apply Hf.
- intros g. destruct (decide (g = f)) as [->|]; [by rewrite lookup_insert_eq|].
  rewrite lookup_insert_ne, add1_ne by done. apply Hg.
- intros v. rewrite Hv. unfold held. rewrite msum_insert by done. unfold add1. simpl.
  lia.
Qed.

Definition openfile_open_post x base h (s : kstate) (flags : Z)
  (r : result positive) (s' : kstate) : Prop :=
tables s' = tables s ∧ umem s' = umem s ∧
match r with
| Ok f => wf (add1 f x) base h s' ∧ files s !! f = None ∧ ∃ vn,
    files s' = <[f := mkOpenfile vn (Z.land flags O_ACCMODE) None 0 1]> (files s)
| Err e => 0 < e ∧ wf x base h s' ∧ files s' = files s
end.

Lemma openfile_open_correct x base h s ok1 ok2 path flags mode :
wf x base h s →
wp (openfile_open ok1 ok2 path flags mode) (openfile_open_post x base h s flags) s.
Proof.
intros Hwf. unfold openfile_open. wp_go. apply wp_in_world.
pose proof (wf_base _ _ _ _ Hwf) as Hb.
eapply wp_mono; [|apply vfs_open_law, Hwf]. intros [vn|e] w [Hw Hr].
- destruct Hr as [Ha Hv].
  assert (wf x (add1 vn base) h (set_world w s)) as Hwf1.
  { apply (wf_world_change x base); [done..| |].
    - intros v. unfold add1. specialize (Hb v). case_decide; lia.
    - intros v. rewrite Hv. unfold add1. lia. }
  unfold openfile_create. wp_go. apply wp_KASSERT; [done|].
  assert (wp (in_world (vfs_close vn) ;; mret (Err ENOMEM))
           (openfile_open_post x base h s flags) (set_world w s)) as Hfail.
  { wp_go. apply wp_in_world. eapply wp_mono; [|apply vfs_close_law; [done|]].
    - intros [] w' [Hw' Hv']. wp_go. simpl in Hv'. split; [done|]. split; [done|].
      split; [unfold ENOMEM; lia|].
      split; [|done]. apply (wf_world_change x base base h s); [done..|].
      intros v. specialize (Hv v). specialize (Hv' v). unfold add1 in *. lia.
    - simpl. pose proof (wf_vnode _ _ _ _ Hwf1 vn) as Hx. simpl in Hx. rewrite Hx, add1_eq.
      specialize (Hb vn). assert (0 ≤ held vn (files s)); [|lia].
      apply msum_nonneg. intros. case_decide; lia. }
  destruct ok1; simpl; [|apply wp_ret, Hfail]. destruct ok2; simpl; [|apply wp_ret, Hfail].
  wp_go. simpl. split; [done|]. split; [done|].
  assert (files s !! fresh (dom (files s)) = None) as Hfresh.
  { apply not_elem_of_dom, is_fresh. }
  split; [by apply (wf_new_file x base h (set_world w s))|]. eauto.
- destruct Hr as [He Hv]. wp_go. split; [done|]. split; [done|]. split; [done|].
  split; [|done]. apply (wf_world_change x base base h s); [done..|].
  intros v. rewrite Hv. lia.
Qed.

(** *** File tables *)

(** What a file descriptor names. *)
Definition lookup_fd (t : filetable) (fd : Z) : result positive :=
match znth t fd with
| Some (Some f) => Ok f
| _ => Err EBADF
end.

Lemma fd_slot x base h s ft t fd :
wf x base h s → tables s !! ft = Some t → 0 ≤ fd < OPEN_MAX →
∃ o, znth t fd = Some o.
Proof.
intros Hwf Ht Hfd. apply znth_is_Some. rewrite (wf_len _ _ _ _ Hwf ft t Ht).
unfold OPEN_MAX in *. lia.
Qed.

Lemma okfd_spec fd : filetable_okfd fd = true ↔ 0 ≤ fd < OPEN_MAX.
Proof.
unfold filetable_okfd. rewrite andb_true_iff, Z.geb_leb, Z.leb_le, Z.ltb_lt. lia.
Qed.

Lemma okfd_false x base h s ft t fd :
wf x base h s → tables s !! ft = Some t → filetable_okfd fd = false → znth t fd = None.
Proof.
intros Hwf Ht Hfd. destruct (znth t fd) as [o|] eqn:Ho; [|done].
apply znth_Some_range in Ho. rewrite (wf_len _ _ _ _ Hwf ft t Ht) in Ho.
rewrite (proj2 (okfd_spec fd)) in Hfd; [done|]. unfold OPEN_MAX in *. lia.
Qed.

Lemma filetable_get_correct x base h s ft t fd :
wf x base h s → tables s !! ft = Some t →
wp (filetable_get ft fd) (λ r s', s' = s ∧ r = lookup_fd t fd) s.
Proof.
intros Hwf Ht. unfold filetable_get, lookup_fd.
destruct (filetable_okfd fd) eqn:Hok; simpl.
- apply okfd_spec in Hok. destruct (fd_slot _ _ _ _ _ _ _ Hwf Ht Hok) as [o Ho].
  wp_go. eapply wp_slot_get; [done..|]. wp_go. rewrite Ho. by destruct o.
- wp_go. by rewrite (okfd_false _ _ _ _ _ _ _ Hwf Ht Hok).
Qed.

Lemma wp_filetable_put ft fd f t (Q : unit → kstate → Prop) s :
tables s !! ft = Some t → znth t fd = Some (Some f) → Q tt s →
wp (filetable_put ft fd f) Q s.
Proof.
intros Ht Hfd HQ. unfold filetable_put. wp_go. eapply wp_slot_get; [done..|].
apply wp_KASSERT; [by apply bool_decide_eq_true|done].
Qed.

Lemma wp_filetable_placeat ft fd new old t (Q : option positive → kstate → Prop) s :
0 ≤ fd < OPEN_MAX → tables s !! ft = Some t → znth t fd = Some old →
Q old (set_tables (<[ft := zset t fd new]> (tables s)) s) →
wp (filetable_placeat ft new fd) Q s.
Proof.
intros Hfd Ht Ho HQ. unfold filetable_placeat. wp_go.
apply wp_KASSERT; [by apply okfd_spec|]. wp_go. eapply wp_slot_get; [done..|].
wp_go. eapply wp_slot_set; [done..|]. by wp_go.
Qed.

(** The lowest free descriptor, or [EMFILE]. *)
Definition place_post x base h (s : kstate) (ft : positive) (t : filetable) (f : positive)
  (r : result Z) (s' : kstate) : Prop :=
match r with
| Ok fd => 0 ≤ fd < OPEN_MAX ∧ znth t fd = Some None ∧
    (∀ j, 0 ≤ j < fd → znth t j ≠ Some None) ∧
    s' = set_tables (<[ft := zset t fd (Some f)]> (tables s)) s ∧
    wf (sub1 f x) base h s'
| Err e => e = EMFILE ∧ s' = s ∧ ∀ j, znth t j ≠ Some None
end.

Lemma filetable_place_correct x base h s ft t f :
wf x base h s → tables s !! ft = Some t → 0 < x f →
wp (filetable_place ft f) (place_post x base h s ft t f) s.
Proof.
intros Hwf Ht Hx. unfold filetable_place. wp_go.
apply (wp_for_return (λ fd s', s' = s ∧ ∀ j, 0 ≤ j < fd → znth t j ≠ Some None)).
- split; [done|lia].
- intros fd s' Hfd [-> Hlow]. change (0 + Z.of_nat (Z.to_nat OPEN_MAX)) with OPEN_MAX in Hfd.
  destruct (fd_slot _ _ _ _ _ _ _ Hwf Ht Hfd) as [o Ho].
  wp_go. eapply wp_slot_get; [done..|]. destruct o as [g|].
  + wp_go. split; [done|]. intros j Hj. destruct (decide (j = fd)) as [->|].
    * congruence.
    * apply Hlow. lia.
  + wp_go. eapply wp_slot_set; [done..|]. wp_go. split_and!; try done; try lia.
    apply (wf_ext (λ g, x g + ind None g - ind (Some f) g)).
    * intros g. refs_lia.
    * eapply wf_slot_set; [done..|]. intros g. pose proof (wf_x _ _ _ _ Hwf g).
      refs_lia.
- intros s' [-> Hall]. wp_go. split_and!; [done..|]. intros j Hj.
  pose proof (znth_Some_range _ _ _ Hj) as Hr. rewrite (wf_len _ _ _ _ Hwf ft t Ht) in Hr.
  by apply (Hall j).
Qed.

(** Dropping a reference does not look at the file tables. *)
Lemma openfile_decref_frame f s T :
openfile_decref f (set_tables T s) =
  match openfile_decref f s with
  | Done (a, s') => Done (a, set_tables T s')
  | Panic => Panic
  end.
Proof.
unfold openfile_decref, openfile_destroy, file_put, file_get, mbind, M_bind, gets, KASSERT.
simpl. destruct (files s !! f) as [o|] eqn:Hf; simpl; [|done].
destruct (of_refcount o =? 1); simpl; rewrite ?Hf; simpl.
- unfold in_world. simpl. destruct (vfs_close (of_vnode o) (world s)) as [[a w]|]; [|done].
  simpl. by case_bool_decide.
- destruct (of_refcount o >? 1); simpl; [|done]. by rewrite ?Hf.
Qed.

(** Emptying one slot, in the order [filetable_destroy] does it: the reference
  is dropped first. *)
Lemma close_slot_correct x base h s ft t fd f :
wf x base h s → tables s !! ft = Some t → znth t fd = Some (Some f) →
(h f = None ∨ 0 < refs f (<[ft := zset t fd None]> (tables s))) →
wp (openfile_decref f ;; slot_set ft fd None) (λ _ s', wf x base h s' ∧
  tables s' = <[ft := zset t fd None]> (tables s) ∧ umem s' = umem s ∧
  files s' = drop_file f (files s)) s.
Proof.
intros Hwf Ht Hfd Hlock.
set (T := <[ft := zset t fd None]> (tables s)).
assert (wf (add1 f x) base h (set_tables T s)) as Hwf0.
{ apply (wf_ext (λ g, x g + ind (Some f) g - ind None g)).
  - intros g. refs_lia.
  - eapply wf_slot_set; [done..|]. intros g. pose proof (wf_x _ _ _ _ Hwf g).
    refs_lia. }
assert (0 < add1 f x f) as Hpos.
{ rewrite add1_eq. pose proof (wf_x _ _ _ _ Hwf f). lia. }
pose proof (openfile_decref_correct _ _ _ _ f Hwf0 Hpos Hlock) as Hdec.
apply wp_done in Hdec as ([] & s' & Hrun & Hwf' & Ht' & Hu' & Hf').
rewrite openfile_decref_frame in Hrun.
destruct (openfile_decref f s) as [[[] s1]|] eqn:Hd; [|done]. simplify_eq.
wp_go. apply wp_done. exists tt, s1. split; [done|].
assert (tables s1 = tables s) as Ht1.
{ pose proof (openfile_decref_frame f s (tables s)) as Hfr. rewrite Hd in Hfr.
  replace (set_tables (tables s) s) with s in Hfr by (by destruct s).
  rewrite Hd in Hfr. injection Hfr as ->. done. }
eapply wp_slot_set; [by rewrite Ht1|done|]. rewrite Ht1. fold T. split_and!; try done.
apply (wf_ext (sub1 f (add1 f x))); [|exact Hwf'].
intros g. refs_lia.
Qed.

(** Everything of an open file but the number of its references. *)
Definition file_core (o : openfile) : positive * Z * option positive * Z :=
(of_vnode o, of_accmode o, of_offsetlock o, of_offset o).

(** The files that are left are as they were. *)
Definition sub_files (m' m : gmap positive openfile) : Prop :=
∀ f o', m' !! f = Some o' → ∃ o, m !! f = Some o ∧ file_core o' = file_core o.

#[global] Instance sub_files_preorder : PreOrder sub_files.
Proof.
split.
- intros m f o Ho. eauto.
- intros m1 m2 m3 H12 H23 f o1 Ho1. destruct (H12 f o1 Ho1) as (o2 & Ho2 & He).
  destruct (H23 f o2 Ho2) as (o3 & Ho3 & He'). exists o3. split; congruence.
Qed.

Lemma drop_file_sub f m : sub_files (drop_file f m) m.
Proof.
unfold drop_file. destruct (m !! f) as [o|] eqn:Ho; [|reflexivity].
destruct (of_refcount o =? 1); intros g o'.
- rewrite lookup_delete_Some. intros [_ Hg]. eauto.
- destruct (decide (g = f)) as [->|].
  + rewrite lookup_insert_eq. intros [= <-]. eauto.
  + rewrite lookup_insert_ne by done. eauto.
Qed.

Lemma cnt_all_none f t : (∀ j, 0 ≤ j < Z.of_nat (length t) → znth t j = Some None) → cnt f t = 0.
Proof.
intros Hall. unfold cnt. rewrite filter_none; [done|].
intros o Ho ->. apply list_elem_of_lookup in Ho as [i Hi].
pose proof (lookup_lt_Some _ _ _ Hi).
specialize (Hall (Z.of_nat i) ltac:(lia)). rewrite znth_lookup, Nat2Z.id in Hall by lia.
congruence.
Qed.

Lemma wf_delete_table x base h s ft t :
wf x base h s → tables s !! ft = Some t → (∀ f, cnt f t = 0) →
wf x base h (set_tables (delete ft (tables s)) s).
Proof.
intros [Hw Hu Hl Hx Hb Hf Hg Hv] Ht Hz.
assert (∀ f, refs f (delete ft (tables s)) = refs f (tables s)) as Hr.
{ intros f. unfold refs. rewrite (msum_delete _ _ ft t) by done. rewrite Hz. lia. }
constructor; simpl; try done.
- intros ft' t' [_ Ht']%lookup_delete_Some. by apply (Hl ft').
- intros f o Ho. rewrite Hr. by apply Hf.
- intros f Ho. rewrite Hr. by apply Hg.
Qed.

Definition destroyed x base h (s : kstate) (ft : positive) (s' : kstate) : Prop :=
wf x base h s' ∧ tables s' = delete ft (tables s) ∧ umem s' = umem s ∧
sub_files (files s') (files s).

(** Destroying a table drops exactly its references.  Offset locks may be held
  only on files that other tables refer to. *)
Lemma filetable_destroy_correct x base h s ft t :
wf x base h s → tables s !! ft = Some t →
(∀ f, h f = None ∨ 0 < refs f (delete ft (tables s))) →
wp (filetable_destroy ft) (λ _ s', destroyed x base h s ft s') s.
Proof.
intros Hwf Ht Hlock. unfold filetable_destroy. wp_go.
pose proof (wf_len _ _ _ _ Hwf ft t Ht) as Hlen.
apply (wp_for_loop (λ fd s', ∃ t', wf x base h s' ∧
  tables s' = <[ft := t']> (tables s) ∧ umem s' = umem s ∧
  sub_files (files s') (files s) ∧ length t' = length t ∧
  ∀ j, 0 ≤ j < OPEN_MAX → znth t' j = if decide (j < fd) then Some None else znth t j)).
- exists t. split_and!; try done.
  + by rewrite insert_id.
  + intros j Hj. by rewrite decide_False by lia.
- intros fd s' Hfd (t' & Hwf' & Ht' & Hu & Hsub & Hl & Hj).
  change (0 + Z.of_nat (Z.to_nat OPEN_MAX)) with OPEN_MAX in Hfd.
  assert (tables s' !! ft = Some t') as Hft by (rewrite Ht'; apply lookup_insert_eq).
  destruct (fd_slot _ _ _ _ _ _ _ Hwf' Hft Hfd) as [o Ho].
  wp_go. eapply wp_slot_get; [done..|]. destruct o as [f|].
  + eapply wp_mono; [|eapply close_slot_correct; [done..|]].
    * intros [] s'' (Hwf'' & Ht'' & Hu'' & Hf''). exists (zset t' fd None).
      split_and!; [done| | | | |].
      -- rewrite Ht'', Ht'. apply insert_insert_eq.
      -- congruence.
      -- rewrite Hf''. by etrans; [apply drop_file_sub|].
      -- by rewrite length_zset.
      -- intros j Hjr. destruct (decide (j = fd)) as [->|].
         ++ rewrite znth_zset_eq by (rewrite Hl, Hlen; unfold OPEN_MAX in *; lia).
            by rewrite decide_True by lia.
         ++ rewrite znth_zset_ne, Hj by lia. repeat case_decide; first [done|lia].
    * destruct (Hlock f) as [|Hr]; [by left|right].
      rewrite Ht', insert_insert_eq. unfold refs in *.
      rewrite (msum_update _ _ ft t) by done.
      rewrite (msum_delete _ _ ft t) in Hr by done.
      pose proof (cnt_nonneg f (zset t' fd None)). lia.
  + wp_go. exists t'. split_and!; try done. intros j Hjr. rewrite Hj by done.
    destruct (decide (j < fd)), (decide (j < fd + 1)); try lia; try done.
    replace j with fd by lia. rewrite <- Ho, Hj by done. by rewrite decide_False by lia.
- intros s' (t' & Hwf' & Ht' & Hu & Hsub & Hl & Hj). wp_go.
  split_and!; simpl; try done.
  + apply (wf_delete_table _ _ _ _ _ t'); [done| |].
    { rewrite Ht'. apply lookup_insert_eq. }
    intros f. apply cnt_all_none. intros j Hjr. rewrite Hl, Hlen in Hjr.
    unfold OPEN_MAX in *. rewrite Hj by lia. by rewrite decide_True by lia.
  + rewrite Ht'. apply delete_insert_eq.
Qed.

(** The same open files, up to the number of references. *)
Definition same_files (m m' : gmap positive openfile) : Prop :=
∀ f, file_core <$> m !! f = file_core <$> m' !! f.

#[global] Instance same_files_equiv : Equivalence same_files.
Proof.
split.
- intros m f. done.
- intros m m' Hm f. by rewrite Hm.
- intros m1 m2 m3 H12 H23 f. by rewrite H12.
Qed.

Lemma same_files_refcount m f o n :
m !! f = Some o → same_files (<[f := with_refcount o n]> m) m.
Proof.
intros Ho g. destruct (decide (g = f)) as [->|].
- by rewrite lookup_insert_eq, Ho.
- by rewrite lookup_insert_ne.
Qed.

Lemma wf_new_table x base h s ft :
wf x base h s → tables s !! ft = None →
wf x base h (set_tables (<[ft := replicate (Z.to_nat OPEN_MAX) None]> (tables s)) s).
Proof.
intros [Hw Hu Hl Hx Hb Hf Hg Hv] Ht.
assert (∀ f, refs f (<[ft := replicate (Z.to_nat OPEN_MAX) None]> (tables s))
             = refs f (tables s)) as Hr.
{ intros f. unfold refs. rewrite msum_insert by done. rewrite cnt_all_none; [done|].
  rewrite length_replicate. intros j Hj. by apply znth_replicate. }
constructor; simpl; try done.
- intros ft' t'. destruct (decide (ft' = ft)) as [->|].
  + rewrite lookup_insert_eq. intros [= <-]. reflexivity.
  + rewrite lookup_insert_ne by done. apply Hl.
- intros f o Ho. rewrite Hr. by apply Hf.
- intros f Ho. rewrite Hr. by apply Hg.
Qed.

(** Putting a new reference to an open file into an empty slot. *)
Lemma share_slot_correct x base h s dest t' fd o :
wf x base h s → tables s !! dest = Some t' → znth t' fd = Some None →
(∀ f, o = Some f → ∃ p, files s !! f = Some p) →
wp (match o with Some f => openfile_incref f | None => mret tt end ;;
    slot_set dest fd o) (λ _ s', wf x base h s' ∧ umem s' = umem s ∧
  tables s' = <[dest := zset t' fd o]> (tables s) ∧ same_files (files s') (files s)) s.
Proof.
intros Hwf Ht Hfd Ho. wp_go. destruct o as [f|].
- destruct (Ho f eq_refl) as [p Hp].
  eapply wp_mono; [|by eapply openfile_incref_correct].
  intros [] s' [-> Hwf']. eapply wp_slot_set; [done..|]. split_and!; try done.
  + apply (wf_ext (λ g, add1 f x g + ind None g - ind (Some f) g)).
    { intros g. refs_lia. }
    eapply wf_slot_set; [done..|]. intros g. pose proof (wf_x _ _ _ _ Hwf g).
    refs_lia.
  + by apply same_files_refcount.
- wp_go. eapply wp_slot_set; [done..|]. split_and!; try done.
  apply (wf_ext (λ g, x g + ind None g - ind None g)); [intros; lia|].
  eapply wf_slot_set; [done..|]. intros g. pose proof (wf_x _ _ _ _ Hwf g). lia.
Qed.

Definition copied x base h (s : kstate) (t : filetable) (r : result (option positive))
  (s' : kstate) : Prop :=
umem s' = umem s ∧ wf x base h s' ∧ same_files (files s') (files s) ∧
match r with
| Ok (Some dest) => tables s !! dest = None ∧ tables s' = <[dest := t]> (tables s)
| Ok None => False
| Err e => e = ENOMEM ∧ tables s' = tables s
end.

(** Copying a table: the same descriptors on the same open files. *)
Lemma filetable_copy_correct x base h s ok src t :
wf x base h s → tables s !! src = Some t →
wp (filetable_copy ok (Some src)) (copied x base h s t) s.
Proof.
intros Hwf Ht. unfold filetable_copy, filetable_create.
destruct ok; cbn [negb]; [|by wp_go; split_and!].
wp_go. set (dest := fresh (dom (tables s))).
assert (tables s !! dest = None) as Hd by apply not_elem_of_dom, is_fresh.
assert (src ≠ dest) as Hne by congruence.
pose proof (wf_len _ _ _ _ Hwf src t Ht) as Hlen.
apply (wp_for_loop (λ fd s', ∃ t', wf x base h s' ∧ umem s' = umem s ∧
  tables s' = <[dest := t']> (tables s) ∧ same_files (files s') (files s) ∧
  length t' = length t ∧
  ∀ j, 0 ≤ j < OPEN_MAX → znth t' j = if decide (j < fd) then znth t j else Some None)).
- eexists. split; [by apply wf_new_table|]. split; [done|]. split; [reflexivity|].
  split; [done|]. split; [by rewrite Hlen|]. intros j Hj. rewrite decide_False by lia.
  apply znth_replicate. unfold OPEN_MAX in *. lia.
- intros fd s' Hfd (t' & Hwf' & Hu & Ht' & Hsame & Hl & Hj).
  change (0 + Z.of_nat (Z.to_nat OPEN_MAX)) with OPEN_MAX in Hfd.
  assert (tables s' !! src = Some t) as Hsrc by (by rewrite Ht', lookup_insert_ne).
  assert (tables s' !! dest = Some t') as Hdst by (rewrite Ht'; apply lookup_insert_eq).
  destruct (fd_slot _ _ _ _ _ _ _ Hwf' Hsrc Hfd) as [o Ho].
  wp_go. eapply wp_slot_get; [done..|].
  eapply wp_mono; [|apply (share_slot_correct x base h s' dest t' fd o); [done..| |]].
  + intros [] s'' (Hwf'' & Hu'' & Ht'' & Hsame''). exists (zset t' fd o).
    split_and!; [done|congruence| |by etrans|by rewrite length_zset|].
    * rewrite Ht'', Ht'. apply insert_insert_eq.
    * intros j Hjr. destruct (decide (j = fd)) as [->|].
      -- rewrite znth_zset_eq by (rewrite Hl, Hlen; unfold OPEN_MAX in *; lia).
         by rewrite decide_True by lia.
      -- rewrite znth_zset_ne, Hj by lia. repeat case_decide; first [done|lia].
  + rewrite Hj by done. by rewrite decide_False by lia.
  + intros f ->. by apply (slot_file x base h s' src t fd).
- intros s' (t' & Hwf' & Hu & Ht' & Hsame & Hl & Hj). wp_go.
  split_and!; try done. rewrite Ht'. f_equal. apply list_eq_same_length with (length t); try done.
  intros i a b Hi Ha Hb. specialize (Hj (Z.of_nat i)).
  rewrite !znth_lookup, !Nat2Z.id in Hj by lia.
  rewrite decide_True in Hj by (unfold OPEN_MAX in *; lia).
  rewrite Ha, Hb in Hj. rewrite Hlen in Hi. unfold OPEN_MAX in *.
  injection Hj; [done|lia].
Qed.

End files.
Arguments kstate : clear implicits.
Arguments mkK {W}.

End Files.
