(* ===== verification/FileSyscalls.v ===== *)
(** * File system calls (kern/syscall/file_syscalls.c)

    The calls of one process run on its file table, [curproc->p_filetable],
    whose address also identifies the process (processes have one thread and
    never share a table).  [sys_readwrite] is given in three parts, up to the
    call of [VOP_READ] or [VOP_WRITE], that call, and what follows it, so that
    the calls of other processes can come in between. *)

From Stdlib Require Import ZArith Lia.
From stdpp Require Import base numbers list gmap.
From S2P Require Import Prelude CopyInOut Uio Files.

Module FileSyscalls.
Import CopyInOut Uio Files.

Definition SEEK_SET : Z := 0.
Definition SEEK_CUR : Z := 1.
Definition SEEK_END : Z := 2.

Definition allflags : Z :=
  Z.lor O_ACCMODE (Z.lor O_CREAT (Z.lor O_EXCL (Z.lor O_TRUNC (Z.lor O_APPEND O_NOCTTY)))).

(** [off_t] is a signed 64-bit integer. *)
Definition off_wrap (x : Z) : Z := (x + 2 ^ 63) mod 2 ^ 64 - 2 ^ 63.

Section calls.
Context {W : Type} `{VfsOps W}.
Abbreviation K := (M (kstate W)).

Definition with_lock (o : openfile) (l : option positive) : openfile :=
mkOpenfile (of_vnode o) (of_accmode o) l (of_offset o) (of_refcount o).
Definition with_offset (o : openfile) (off : Z) : openfile :=
mkOpenfile (of_vnode o) (of_accmode o) (of_offsetlock o) off (of_refcount o).

(** [lock_acquire(file->of_offsetlock)], at the moment the lock is free (a
  caller that finds it held sleeps until then), and [lock_release]. *)
Definition offset_lock (me f : positive) : K unit :=
o ← file_get f;
KASSERT (bool_decide (of_offsetlock o = None)) ;;
file_put f (with_lock o (Some me)).
Definition offset_unlock (me f : positive) : K unit :=
o ← file_get f;
KASSERT (bool_decide (of_offsetlock o = Some me)) ;;
file_put f (with_lock o None).

(** [ok0]: whether the path buffer can be allocated; [ok1], [ok2]: the
  allocations of [openfile_create]. *)
Definition sys_open (ft : positive) (ok0 ok1 ok2 : bool) (upath flags mode : Z)
: K (result Z) :=
if negb (Z.land flags allflags =? flags) then mret (Err EINVAL) else
if negb ok0 then mret (Err ENOMEM) else
r ← in_umem (copyinstr upath PATH_MAX);
match r with
| Err e => mret (Err e)
| Ok kpath =>
    r ← openfile_open ok1 ok2 kpath flags mode;
    match r with
    | Err e => mret (Err e)
    | Ok file =>
        r ← filetable_place ft file;
        match r with
        | Err e => openfile_decref file ;; mret (Err e)
        | Ok fd => mret (Ok fd)
        end
    end
end.

(** The common exit of [sys_readwrite] on failure. *)
Definition rw_fail (ft : positive) (fd : Z) (file : positive) (locked : bool) : K unit :=
(if locked then offset_unlock ft file else mret tt) ;;
filetable_put ft fd file.

(** Up to the transfer: an error, or the file, whether its seek position is
  locked, and the position. *)
Definition rw_begin (ft : positive) (fd badaccmode : Z) : K (result (positive * bool * Z)) :=
r ← filetable_get ft fd;
match r with
| Err e => mret (Err e)
| Ok file =>
    o ← file_get file;
    let locked := VOP_ISSEEKABLE (of_vnode o) in
    pos ← (if locked then
             offset_lock ft file ;; o ← file_get file; mret (of_offset o)
           else mret 0);
    o ← file_get file;
    if of_accmode o =? badaccmode then
      rw_fail ft fd file locked ;; mret (Err EBADF)
    else mret (Ok (file, locked, pos))
end.

Definition rw_transfer (as_ : option positive) (file : positive) (buf size pos : Z)
  (rw : uio_rw) : K (Z * uio) :=
o ← file_get file;
let useruio := uio_uinit as_ buf size pos rw in
in_both (match rw with
         | UIO_READ => VOP_READ (of_vnode o) useruio
         | UIO_WRITE => VOP_WRITE (of_vnode o) useruio
         end).

Definition rw_finish (ft : positive) (fd : Z) (file : positive) (locked : bool) (size : Z)
  (r : Z * uio) : K (result Z) :=
let '(res, useruio) := r in
if negb (res =? 0) then rw_fail ft fd file locked ;; mret (Err res) else
(if locked then
   o ← file_get file; file_put file (with_offset o (uio_offset useruio)) ;;
   offset_unlock ft file
 else mret tt) ;;
filetable_put ft fd file ;;
mret (Ok (size - uio_resid useruio)).

Definition sys_readwrite (ft : positive) (as_ : option positive) (fd buf size : Z)
  (rw : uio_rw) (badaccmode : Z) : K (result Z) :=
r ← rw_begin ft fd badaccmode;
match r with
| Err e => mret (Err e)
| Ok (file, locked, pos) =>
    r ← rw_transfer as_ file buf size pos rw;
    rw_finish ft fd file locked size r
end.

Definition sys_read (ft : positive) (as_ : option positive) (fd buf size : Z) :=
sys_readwrite ft as_ fd buf size UIO_READ O_WRONLY.
Definition sys_write (ft : positive) (as_ : option positive) (fd buf size : Z) :=
sys_readwrite ft as_ fd buf size UIO_WRITE O_RDONLY.

Definition sys_close (ft : positive) (fd : Z) : K (result unit) :=
if negb (filetable_okfd fd) then mret (Err EBADF) else
file ← filetable_placeat ft None fd;
match file with
| None => mret (Err EBADF)
| Some f => openfile_decref f ;; mret (Ok tt)
end.

(** The new position, from [whence]; an error leaves with the lock released. *)
Definition seek_target (o : openfile) (offset whence : Z) : K (result Z) :=
if whence =? SEEK_SET then mret (Ok offset)
else if whence =? SEEK_CUR then mret (Ok (off_wrap (of_offset o + offset)))
else if whence =? SEEK_END then
  r ← in_world (VOP_STAT (of_vnode o));
  mret (match r with Err e => Err e | Ok sz => Ok (off_wrap (sz + offset)) end)
else mret (Err EINVAL).

Definition sys_lseek (ft : positive) (fd offset whence : Z) : K (result Z) :=
r ← filetable_get ft fd;
match r with
| Err e => mret (Err e)
| Ok file =>
    o ← file_get file;
    if negb (VOP_ISSEEKABLE (of_vnode o)) then
      filetable_put ft fd file ;; mret (Err ESPIPE)
    else
    offset_lock ft file ;;
    o ← file_get file;
    r ← seek_target o offset whence;
    match r with
    | Err e => offset_unlock ft file ;; filetable_put ft fd file ;; mret (Err e)
    | Ok pos =>
        if pos <? 0 then
          offset_unlock ft file ;; filetable_put ft fd file ;; mret (Err EINVAL)
        else
        o ← file_get file;
        file_put file (with_offset o pos) ;;
        offset_unlock ft file ;;
        filetable_put ft fd file ;;
        mret (Ok pos)
    end
end.

Definition sys_dup2 (ft : positive) (oldfd newfd : Z) : K (result Z) :=
if negb (filetable_okfd newfd) then mret (Err EBADF) else
if oldfd =? newfd then mret (Ok newfd) else
r ← filetable_get ft oldfd;
match r with
| Err e => mret (Err e)
| Ok oldfdfile =>
    openfile_incref oldfdfile ;;
    filetable_put ft oldfd oldfdfile ;;
    newfdfile ← filetable_placeat ft (Some oldfdfile) newfd;
    match newfdfile with
    | Some f => openfile_decref f
    | None => mret tt
    end ;;
    mret (Ok newfd)
end.

(** ** What the calls do *)

Context `{!VfsLaws W}.
Implicit Types (s : kstate W).

(** No reference is held between calls. *)
Definition none (_ : positive) : Z := 0.

Definition set_h (f : positive) (l : option positive) (h : positive → option positive)
  (g : positive) : option positive := if decide (g = f) then l else h g.

(** Offset locks are held by other processes only, which refer to the files. *)
Definition locks_elsewhere (ft : positive) (h : positive → option positive) s : Prop :=
∀ f, h f = None ∨ 0 < refs f (delete ft (tables s)).

Lemma refs_insert_ge f ft t' (m : gmap positive filetable) :
refs f (delete ft m) ≤ refs f (<[ft := t']> m).
Proof.
unfold refs. rewrite <- insert_delete_eq, msum_insert by apply lookup_delete_eq.
pose proof (cnt_nonneg f t'). lia.
Qed.

Lemma locks_elsewhere_insert ft h s f t' :
locks_elsewhere ft h s → h f = None ∨ 0 < refs f (<[ft := t']> (tables s)).
Proof.
intros Hl. destruct (Hl f) as [|Hr]; [by left|right].
pose proof (refs_insert_ge f ft t' (tables s)). lia.
Qed.

(** Changing the seek position or the lock of a file. *)
Lemma wf_set_file x base h s f o o' :
wf x base h s → files s !! f = Some o → of_vnode o' = of_vnode o →
of_accmode o' = of_accmode o → of_refcount o' = of_refcount o →
wf x base (set_h f (of_offsetlock o') h) (set_files (<[f := o']> (files s)) s).
Proof.
intros [Hw Hu Hl Hx Hb Hf Hg Hv] Ho Hvn Ha Hr. constructor; simpl; try done.
- intros g p. unfold set_h. destruct (decide (g = f)) as [->|].
  + rewrite lookup_insert_eq. intros [= <-]. rewrite Hr, Ha.
    destruct (Hf f o Ho) as (? & ? & ? & _). done.
  + rewrite lookup_insert_ne by done. apply Hf.
- intros g. unfold set_h. destruct (decide (g = f)) as [->|].
  + by rewrite lookup_insert_eq.
  + rewrite lookup_insert_ne by done. apply Hg.
- intros v. by rewrite (held_same v (files s) f o).
Qed.

Lemma set_h_same f h : ∀ g, set_h f (h f) h g = h g.
Proof. intros g. unfold set_h. by case_decide; subst. Qed.

Lemma wf_h_ext x base h h' s : (∀ f, h f = h' f) → wf x base h s → wf x base h' s.
Proof. intros Hh. by apply wf_proper; [..|symmetry; exact Hh|]. Qed.

Lemma wf_lock x base h s f o :
wf x base h s → files s !! f = Some o → of_offsetlock o = h f.
Proof. intros Hwf Ho. by apply (wf_file _ _ _ _ Hwf). Qed.

Lemma wp_offset_lock me f o (Q : unit → kstate W → Prop) s :
files s !! f = Some o → of_offsetlock o = None →
Q tt (set_files (<[f := with_lock o (Some me)]> (files s)) s) →
wp (offset_lock me f) Q s.
Proof.
intros Ho Hl HQ. unfold offset_lock. wp_go. eapply wp_file_get; [done|].
wp_go. apply wp_KASSERT; [by apply bool_decide_eq_true|]. by eapply wp_file_put.
Qed.

Lemma wp_offset_unlock me f o (Q : unit → kstate W → Prop) s :
files s !! f = Some o → of_offsetlock o = Some me →
Q tt (set_files (<[f := with_lock o None]> (files s)) s) →
wp (offset_unlock me f) Q s.
Proof.
intros Ho Hl HQ. unfold offset_unlock. wp_go. eapply wp_file_get; [done|].
wp_go. apply wp_KASSERT; [by apply bool_decide_eq_true|]. by eapply wp_file_put.
Qed.

(** Locking and unlocking again. *)
Lemma relock_same s f o me :
files s !! f = Some o → of_offsetlock o = None →
set_files (<[f := with_lock (with_lock o (Some me)) None]>
  (<[f := with_lock o (Some me)]> (files s))) s = s.
Proof.
intros Ho Hl. rewrite insert_insert_eq. rewrite insert_id; [by destruct s|].
rewrite Ho. unfold with_lock. simpl. rewrite <- Hl. by destruct o.
Qed.

Section one_call.
Context (base : positive → Z) (h : positive → option positive) (s : kstate W).
Context (ft : positive) (t : filetable).
Hypothesis Hwf : wf none base h s.
Hypothesis Ht : tables s !! ft = Some t.
Hypothesis Hlocks : locks_elsewhere ft h s.

(** [close()] *)
Definition close_post (fd : Z) (r : result unit) (s' : kstate W) : Prop :=
wf none base h s' ∧ umem s' = umem s ∧
match lookup_fd t fd with
| Ok f => r = Ok tt ∧ tables s' = <[ft := zset t fd None]> (tables s) ∧
          files s' = drop_file f (files s)
| Err _ => r = Err EBADF ∧ s' = s
end.

Lemma set_tables_same fd o :
znth t fd = Some o → set_tables (<[ft := zset t fd o]> (tables s)) s = s.
Proof.
intros Ho. unfold zset. pose proof (znth_Some_range _ _ _ Ho).
rewrite znth_lookup in Ho by lia.
rewrite list_insert_id by done. rewrite insert_id by done. by destruct s.
Qed.

Lemma sys_close_correct fd : wp (sys_close ft fd) (close_post fd) s.
Proof.
unfold sys_close, close_post, lookup_fd. destruct (filetable_okfd fd) eqn:Hok; simpl.
2: { wp_go. by rewrite (okfd_false _ _ _ _ _ _ _ Hwf Ht Hok). }
apply okfd_spec in Hok. destruct (fd_slot _ _ _ _ _ _ _ Hwf Ht Hok) as [o Ho].
rewrite Ho. wp_go. eapply wp_filetable_placeat; [done..|]. destruct o as [f|]; simpl.
- wp_go. eapply wp_mono; [|eapply (openfile_decref_correct (add1 f none) base h)].
  + intros [] s' (Hwf' & Ht' & Hu' & Hf'). wp_go. split_and!; try done.
    apply (wf_ext (sub1 f (add1 f none))); [|done].
    intros g. unfold none. refs_lia.
  + apply (wf_ext (λ g, none g + ind (Some f) g - ind None g)).
    { intros g. unfold none. refs_lia. }
    eapply wf_slot_set; [done..|]. intros g. unfold none. refs_lia.
  + rewrite add1_eq. unfold none. lia.
  + simpl. by apply locks_elsewhere_insert.
- wp_go. by rewrite set_tables_same.
Qed.

(** [dup2()] *)
Definition dup2_post (oldfd newfd : Z) (r : result Z) (s' : kstate W) : Prop :=
wf none base h s' ∧ umem s' = umem s ∧ sub_files (files s') (files s) ∧
if decide (0 ≤ newfd < OPEN_MAX) then
  if decide (oldfd = newfd) then r = Ok newfd ∧ s' = s else
  match lookup_fd t oldfd with
  | Ok f => r = Ok newfd ∧ tables s' = <[ft := zset t newfd (Some f)]> (tables s)
  | Err e => r = Err EBADF ∧ s' = s
  end
else r = Err EBADF ∧ s' = s.

Lemma sys_dup2_correct oldfd newfd : wp (sys_dup2 ft oldfd newfd) (dup2_post oldfd newfd) s.
Proof.
unfold sys_dup2, dup2_post. destruct (filetable_okfd newfd) eqn:Hok; simpl.
2: { wp_go. split_and!; [done..|]. rewrite decide_False; [done|].
     rewrite <- okfd_spec. congruence. }
apply okfd_spec in Hok. destruct (decide (0 ≤ newfd < OPEN_MAX)) as [_|]; [|done].
destruct (Z.eqb_spec oldfd newfd) as [->|Hne].
{ wp_go. split_and!; [done..|]. by rewrite decide_True. }
destruct (decide (oldfd = newfd)) as [|_]; [done|].
wp_go. eapply wp_mono; [|by eapply filetable_get_correct].
intros r s' [-> ->]. destruct (lookup_fd t oldfd) as [f|e] eqn:Hold.
2: { wp_go. split_and!; try done. unfold lookup_fd in Hold.
     by destruct (znth t oldfd) as [[|]|]; simplify_eq. }
assert (znth t oldfd = Some (Some f)) as Hof.
{ unfold lookup_fd in Hold. by destruct (znth t oldfd) as [[|]|]; simplify_eq. }
destruct (fd_slot _ _ _ _ _ _ _ Hwf Ht Hok) as [old Hnew].
destruct (slot_file _ _ _ _ _ _ _ _ Hwf Ht Hof) as [p Hp].
wp_go. eapply wp_mono; [|by eapply openfile_incref_correct].
intros [] s1 [-> Hwf1]. wp_go. eapply wp_filetable_put; [done..|].
wp_go. eapply wp_filetable_placeat; [done..|].
pose proof (same_files_refcount (files s) f p (of_refcount p + 1) Hp) as Hsame.
assert (sub_files (<[f := with_refcount p (of_refcount p + 1)]> (files s)) (files s)) as Hsub.
{ intros g o' Ho'. specialize (Hsame g). rewrite Ho' in Hsame.
  destruct (files s !! g) as [o|]; [|done]. simpl in Hsame. exists o. split; congruence. }
set (s2 := set_tables _ _).
assert (wf (λ g, add1 f none g + ind old g - ind (Some f) g) base h s2) as Hwf2.
{ eapply wf_slot_set; [done..|]. intros g. unfold none. refs_lia. }
destruct old as [g|].
- wp_go. eapply wp_mono; [|eapply (openfile_decref_correct (add1 g none) base h s2)].
  + intros [] s' (Hwf' & Ht' & Hu' & Hf'). wp_go. split_and!; try done.
    * apply (wf_ext (sub1 g (add1 g none))); [|done].
      intros q. unfold none. refs_lia.
    * rewrite Hf'. by etrans; [apply drop_file_sub|].
  + eapply wf_ext; [|exact Hwf2]. intros q. unfold none. refs_lia.
  + rewrite add1_eq. unfold none. lia.
  + simpl. by apply locks_elsewhere_insert.
- wp_go. split_and!; try done. eapply wf_ext; [|exact Hwf2].
  intros q. unfold none. refs_lia.
Qed.

(** [open()] *)
Definition open_post (flags : Z) (r : result Z) (s' : kstate W) : Prop :=
wf none base h s' ∧ umem s' = umem s ∧
match r with
| Ok fd => Z.land flags allflags = flags ∧ 0 ≤ fd < OPEN_MAX ∧
    znth t fd = Some None ∧ (∀ j, 0 ≤ j < fd → znth t j ≠ Some None) ∧
    ∃ f vn, files s !! f = None ∧ tables s' = <[ft := zset t fd (Some f)]> (tables s) ∧
      files s' = <[f := mkOpenfile vn (Z.land flags O_ACCMODE) None 0 1]> (files s)
| Err e => 0 < e ∧ tables s' = tables s ∧ files s' = files s
end.

Lemma sys_open_correct ok0 ok1 ok2 upath flags mode :
0 ≤ upath < 2 ^ 32 →
wp (sys_open ft ok0 ok1 ok2 upath flags mode) (open_post flags) s.
Proof.
intros Hu. unfold sys_open, open_post.
destruct (Z.eqb_spec (Z.land flags allflags) flags) as [Hfl|]; simpl.
2: { wp_go. split_and!; done. }
destruct ok0; simpl; [|wp_go; by split_and!].
wp_go. apply wp_in_umem.
eapply wp_mono; [|apply copyinstr_correct; [done|unfold PATH_MAX; lia|apply Hwf]].
intros r u [-> Hr].
replace (mkK (tables s) (files s) (umem s) (world s)) with s by (by destruct s).
destruct r as [path|e].
2: { wp_go. split_and!; try done. destruct Hr as (ys & _ & _ & [[-> _]|[-> _]]); done. }
wp_go. eapply wp_mono; [|by eapply openfile_open_correct].
intros [f|e] s1 (Ht1 & Hu1 & Hr1).
2: { wp_go. destruct Hr1 as (? & ? & ?). by split_and!. }
destruct Hr1 as (Hwf1 & Hfree & vn & Hf1). wp_go.
eapply wp_mono; [|eapply (filetable_place_correct (add1 f none) base h s1 ft t f)];
  [|done|by rewrite Ht1|rewrite add1_eq; unfold none; lia].
intros [fd|e] s2 Hp.
- destruct Hp as (Hfd & Hnone & Hlow & -> & Hwf2). wp_go. split_and!; try done; try apply Hfd.
  + eapply wf_ext; [|exact Hwf2]. intros g. unfold none. refs_lia.
  + exists f, vn. split_and!; try done. simpl. by rewrite Ht1.
- destruct Hp as (-> & -> & _). wp_go.
  eapply wp_mono; [|apply (openfile_decref_correct (add1 f none) base h)]; [|done|..].
  + intros [] s3 (Hwf3 & Ht3 & Hu3 & Hf3). wp_go. split_and!; try congruence; try done.
    * eapply wf_ext; [|exact Hwf3]. intros g. unfold none. refs_lia.
    * rewrite Hf3, Hf1. unfold drop_file. rewrite lookup_insert_eq. simpl.
      by rewrite delete_insert_id.
  + rewrite add1_eq. unfold none. lia.
  + left. erewrite <- wf_lock; [|exact Hwf1|rewrite Hf1; apply lookup_insert_eq]. done.
Qed.

(** [lseek()].  A caller that needs the lock of the seek position gets it when
  it is free. *)
Definition seekable_fd (fd : Z) : Prop :=
∀ f o, lookup_fd t fd = Ok f → files s !! f = Some o →
  VOP_ISSEEKABLE (of_vnode o) = true → h f = None.

Definition seek_to (o : openfile) (offset whence pos : Z) : Prop :=
whence = SEEK_SET ∧ pos = offset ∨
whence = SEEK_CUR ∧ pos = off_wrap (of_offset o + offset) ∨
whence = SEEK_END ∧ ∃ sz, pos = off_wrap (sz + offset).

(** Why a seek fails: [whence] is none of the three, the target is negative, or
  the size of the file is not available. *)
Definition seek_err (o : openfile) (offset whence e : Z) : Prop :=
whence ≠ SEEK_SET ∧ whence ≠ SEEK_CUR ∧ whence ≠ SEEK_END ∧ e = EINVAL ∨
(∃ pos, seek_to o offset whence pos ∧ pos < 0 ∧ e = EINVAL) ∨
whence = SEEK_END ∧ 0 < e.

Definition lseek_post (fd offset whence : Z) (r : result Z) (s' : kstate W) : Prop :=
wf none base h s' ∧ umem s' = umem s ∧ tables s' = tables s ∧
match lookup_fd t fd with
| Err _ => r = Err EBADF ∧ s' = s
| Ok f => ∃ o, files s !! f = Some o ∧
    if VOP_ISSEEKABLE (of_vnode o) then
      match r with
      | Ok pos => 0 ≤ pos ∧ seek_to o offset whence pos ∧
                  files s' = <[f := with_offset o pos]> (files s)
      | Err e => seek_err o offset whence e ∧ files s' = files s
      end
    else r = Err ESPIPE ∧ s' = s
end.

Lemma lookup_fd_Ok fd f : lookup_fd t fd = Ok f → znth t fd = Some (Some f).
Proof. unfold lookup_fd. by destruct (znth t fd) as [[|]|]; intros; simplify_eq. Qed.

Lemma lookup_fd_Err fd e : lookup_fd t fd = Err e → e = EBADF.
Proof. unfold lookup_fd. by destruct (znth t fd) as [[|]|]; intros; simplify_eq. Qed.

Lemma seek_target_correct s1 o offset whence :
world_ok (world s1) → 0 < vn_refcount (world s1) (of_vnode o) →
wp (seek_target o offset whence) (λ r s', ∃ w, s' = set_world w s1 ∧ world_ok w ∧
  (∀ v, vn_refcount w v = vn_refcount (world s1) v) ∧
  match r with
  | Ok pos => seek_to o offset whence pos
  | Err e => seek_err o offset whence e
  end) s1.
Proof.
intros Hw Hv. unfold seek_target, seek_to, seek_err.
assert (s1 = set_world (world s1) s1) as Hs1 by (by destruct s1).
destruct (Z.eqb_spec whence SEEK_SET) as [->|]; [wp_go; eauto 10|].
destruct (Z.eqb_spec whence SEEK_CUR) as [->|]; [wp_go; eauto 10|].
destruct (Z.eqb_spec whence SEEK_END) as [->|].
- wp_go. apply wp_in_world. eapply wp_mono; [|by apply vop_stat_law].
  intros [sz|e] w (Hw' & Hr & He); wp_go; exists w; split_and!; eauto 10.
- wp_go. exists (world s1). split_and!; try done. by left.
Qed.

Lemma sys_lseek_correct fd offset whence :
seekable_fd fd → wp (sys_lseek ft fd offset whence) (lseek_post fd offset whence) s.
Proof.
intros Hseek. unfold sys_lseek, lseek_post. wp_go.
eapply wp_mono; [|by eapply filetable_get_correct].
intros r s' [-> ->]. destruct (lookup_fd t fd) as [f|e] eqn:Hfd.
2: { wp_go. by rewrite (lookup_fd_Err _ _ Hfd). }
pose proof (lookup_fd_Ok _ _ Hfd) as Hz.
destruct (slot_file _ _ _ _ _ _ _ _ Hwf Ht Hz) as [o Ho].
wp_go. eapply wp_file_get; [done|].
destruct (VOP_ISSEEKABLE (of_vnode o)) eqn:Hs; simpl.
2: { wp_go. eapply wp_filetable_put; [done..|]. wp_go. split_and!; try done.
     exists o. split; [done|]. by rewrite Hs. }
specialize (Hseek f o Hfd Ho Hs).
pose proof (wf_lock _ _ _ _ _ _ Hwf Ho) as Hl. rewrite Hseek in Hl.
wp_go. eapply wp_offset_lock; [done..|]. wp_go.
eapply wp_file_get; [apply lookup_insert_eq|]. wp_go.
eapply wp_mono; [|apply seek_target_correct; [apply Hwf|exact (wf_vn_pos none base h s f o Hwf Ho)]].
intros r s1 (w & -> & Hw & Hr & Hres).
assert (wf none base h (set_world w s)) as Hwf1.
{ apply (wf_world_change none base base h s); [done|done|apply Hwf|].
  intros v. rewrite Hr. simpl. lia. }
assert (∀ e, seek_err o offset whence e →
  wp (offset_unlock ft f ;; filetable_put ft fd f ;; mret (Err e)) (λ r s',
    wf none base h s' ∧ umem s' = umem s ∧ tables s' = tables s ∧
    ∃ o, files s !! f = Some o ∧
    if VOP_ISSEEKABLE (of_vnode o) then
      match r with
      | Ok pos => 0 ≤ pos ∧ seek_to o offset whence pos ∧
                  files s' = <[f := with_offset o pos]> (files s)
      | Err e => seek_err o offset whence e ∧ files s' = files s
      end
    else r = Err ESPIPE ∧ s' = s)
  (set_world w (set_files (<[f := with_lock o (Some ft)]> (files s)) s))) as Hfail.
{ intros e He. wp_go. eapply wp_offset_unlock; [apply lookup_insert_eq|done|].
  wp_go. eapply wp_filetable_put; [done..|]. wp_go.
  pose proof (relock_same (set_world w s) f o ft Ho Hl) as Hsame.
  change (set_files _ (set_world w _)) with
    (set_files (<[f := with_lock (with_lock o (Some ft)) None]>
      (<[f := with_lock o (Some ft)]> (files (set_world w s)))) (set_world w s)).
  rewrite Hsame. split_and!; try done. exists o. rewrite Hs. by split_and!. }
destruct r as [pos|e]; [|by apply Hfail].
destruct (Z.ltb_spec pos 0) as [|Hpos]; [apply Hfail; right; left; by exists pos|].
wp_go. eapply wp_file_get; [apply lookup_insert_eq|].
wp_go. eapply wp_file_put; [apply lookup_insert_eq|].
wp_go. eapply wp_offset_unlock; [apply lookup_insert_eq|done|].
wp_go. eapply wp_filetable_put; [done..|]. wp_go. simpl.
rewrite !insert_insert_eq.
assert (with_lock (with_offset (with_lock o (Some ft)) pos) None = with_offset o pos) as ->.
{ unfold with_lock, with_offset. simpl. by rewrite Hl. }
split_and!; try done.
- apply (wf_h_ext _ _ (set_h f (of_offsetlock (with_offset o pos)) h)).
  { intros g. simpl. rewrite Hl, <- Hseek. apply set_h_same. }
  by apply (wf_set_file none base h (set_world w s) f o).
- exists o. split; [done|]. by rewrite Hs.
Qed.

(** [read()] and [write()], up to the transfer. *)
Definition locked_state (f : positive) (o : openfile) (locked : bool) : kstate W :=
if locked then set_files (<[f := with_lock o (Some ft)]> (files s)) s else s.
Definition locked_h (f : positive) (locked : bool) : positive → option positive :=
if locked then set_h f (Some ft) h else h.

Definition rw_begin_post (fd bad : Z) (r : result (positive * bool * Z)) (s' : kstate W) : Prop :=
match r with
| Err e => e = EBADF ∧ s' = s ∧
    ∀ f o, lookup_fd t fd = Ok f → files s !! f = Some o → of_accmode o = bad
| Ok (f, locked, pos) => lookup_fd t fd = Ok f ∧ ∃ o, files s !! f = Some o ∧
    of_accmode o ≠ bad ∧ locked = VOP_ISSEEKABLE (of_vnode o) ∧
    pos = (if locked then of_offset o else 0) ∧
    s' = locked_state f o locked ∧ wf none base (locked_h f locked) s'
end.

Lemma rw_begin_correct fd bad :
seekable_fd fd → wp (rw_begin ft fd bad) (rw_begin_post fd bad) s.
Proof.
intros Hseek. unfold rw_begin, rw_begin_post. wp_go.
eapply wp_mono; [|by eapply filetable_get_correct].
intros r s' [-> ->]. destruct (lookup_fd t fd) as [f|e] eqn:Hfd.
2: { wp_go. rewrite (lookup_fd_Err _ _ Hfd). by split_and!. }
pose proof (lookup_fd_Ok _ _ Hfd) as Hz.
destruct (slot_file _ _ _ _ _ _ _ _ Hwf Ht Hz) as [o Ho].
wp_go. eapply wp_file_get; [done|].
destruct (VOP_ISSEEKABLE (of_vnode o)) eqn:Hs.
- specialize (Hseek f o Hfd Ho Hs).
  pose proof (wf_lock _ _ _ _ _ _ Hwf Ho) as Hl. rewrite Hseek in Hl.
  wp_go. eapply wp_offset_lock; [done..|]. wp_go.
  eapply wp_file_get; [apply lookup_insert_eq|]. wp_go.
  eapply wp_file_get; [apply lookup_insert_eq|]. simpl.
  destruct (Z.eqb_spec (of_accmode o) bad) as [Hb|Hb].
  + unfold rw_fail. wp_go. eapply wp_offset_unlock; [apply lookup_insert_eq|done|].
    wp_go. eapply wp_filetable_put; [done..|]. wp_go. split_and!; [done| |].
    * exact (relock_same s f o ft Ho Hl).
    * intros f' o' [= <-] Ho'. congruence.
  + wp_go. split; [done|]. exists o. split_and!; try done.
    by apply (wf_set_file none base h s f o (with_lock o (Some ft))).
- wp_go. eapply wp_file_get; [done|]. destruct (Z.eqb_spec (of_accmode o) bad) as [Hb|Hb].
  + unfold rw_fail. wp_go. eapply wp_filetable_put; [done..|]. wp_go.
    split_and!; [done..|]. intros f' o' [= <-] Ho'. congruence.
  + wp_go. split; [done|]. exists o. by split_and!.
Qed.

(** [dup2] of a descriptor that is not open onto itself succeeds. *)
Lemma dup2_self fd : 0 ≤ fd < OPEN_MAX → sys_dup2 ft fd fd s = Done (Ok fd, s).
Proof.
intros Hfd. unfold sys_dup2. rewrite (proj2 (okfd_spec fd)) by done. simpl.
by rewrite Z.eqb_refl.
Qed.

End one_call.

(** The transfer touches only user memory and the file systems. *)
Lemma rw_transfer_correct base h s as_ f o buf size pos rw :
  wf none base h s → files s !! f = Some o → 0 ≤ size →
  wp (rw_transfer as_ f buf size pos rw) (λ r s', let '(res, u) := r in
    wf none base h s' ∧ tables s' = tables s ∧ files s' = files s ∧ 0 ≤ res ∧
    (res = 0 → 0 ≤ uio_resid u ≤ size)) s.
Proof.
  intros Hwf Ho Hsz. unfold rw_transfer. wp_go. eapply wp_file_get; [done|].
  apply wp_in_both.
  eapply wp_mono; [|apply vop_rw_law; [apply Hwf|by eapply wf_vn_pos|apply Hwf|]].
  2: { split_and!; [done..|]. exists buf, size. split; [done|]. simpl. lia. }
  intros [res u] [m w] (Hm & Hw & Hr & Hres & Hu). simpl in *. split_and!; try done.
  destruct Hwf as [_ Hum Hl Hx Hb Hf Hg Hv]. constructor; simpl; try done.
  intros v. by rewrite Hr.
Qed.

(** After the transfer: the lock is free again, and a successful transfer on a
    seekable file leaves the position the file system reported. *)
Definition rw_finish_post base h s (f : positive) (o : openfile) (locked : bool) (size : Z)
    (u : Z * uio) (r : result Z) (s' : kstate W) : Prop :=
  wf none base (if locked then set_h f None h else h) s' ∧
  tables s' = tables s ∧ umem s' = umem s ∧
  if decide (u.1 = 0) then
    r = Ok (size - uio_resid u.2) ∧
    files s' = if locked then <[f := with_lock (with_offset o (uio_offset u.2)) None]> (files s)
               else files s
  else r = Err u.1 ∧
    files s' = if locked then <[f := with_lock o None]> (files s) else files s.

Lemma rw_finish_correct base h s ft t fd f o locked size u :
  wf none base h s → tables s !! ft = Some t → znth t fd = Some (Some f) →
  files s !! f = Some o → (locked = true → h f = Some ft) →
  wp (rw_finish ft fd f locked size u) (rw_finish_post base h s f o locked size u) s.
Proof.
  intros Hwf Ht Hfd Ho Hlk. destruct u as [res u]. unfold rw_finish, rw_finish_post.
  pose proof (wf_lock _ _ _ _ _ _ Hwf Ho) as Hl.
  simpl fst; simpl snd. destruct (Z.eqb_spec res 0) as [->|Hne]; simpl negb.
  - destruct (decide (0 = 0)) as [_|]; [|done]. wp_go. destruct locked.
    + wp_go. eapply wp_file_get; [done|]. wp_go. eapply wp_file_put; [done|].
      rewrite Hlk in Hl by done.
      eapply wp_offset_unlock; [apply lookup_insert_eq|done|].
      wp_go. eapply wp_filetable_put; [done..|]. wp_go. simpl.
      rewrite insert_insert_eq. split_and!; try done.
      by apply (wf_set_file none base h s f o (with_lock (with_offset o _) None)).
    + wp_go. eapply wp_filetable_put; [done..|]. wp_go. by split_and!.
  - destruct (decide (res = 0)) as [|_]; [done|]. unfold rw_fail. wp_go. destruct locked.
    + rewrite Hlk in Hl by done. eapply wp_offset_unlock; [done..|].
      wp_go. eapply wp_filetable_put; [done..|]. wp_go. split_and!; try done.
      by apply (wf_set_file none base h s f o (with_lock o None)).
    + wp_go. eapply wp_filetable_put; [done..|]. wp_go. by split_and!.
Qed.

End calls.

End FileSyscalls.
