(* ===== verification/FileProcs.v ===== *)
(** * Processes and their open files

    Several processes make file system calls; forking copies a file table and
    exiting destroys it.  A [read] or [write] is two steps, so that calls of
    other processes interleave with it while it holds the lock of the seek
    position.  The invariant ties every reference count to the descriptors that
    exist, over all processes. *)

From Stdlib Require Import ZArith Lia.
From stdpp Require Import base numbers list gmap.
From S2P Require Import Prelude CopyInOut Uio Files FileSyscalls.

Module FileProcs.
Import CopyInOut Uio Files FileSyscalls.

(** A transfer in progress, with the locals of [sys_readwrite]. *)
Record pending := mkPending {
  p_as : option positive;
  p_fd : Z;
  p_file : positive;
  p_locked : bool;
  p_pos : Z;
  p_buf : Z;
  p_size : Z;
  p_rw : uio_rw;
}.

(** A process is identified by its file table. *)
Inductive call :=
| Open (ft : positive) (ok0 ok1 ok2 : bool) (upath flags mode : Z)
| Close (ft : positive) (fd : Z)
| Dup2 (ft : positive) (oldfd newfd : Z)
| Lseek (ft : positive) (fd offset whence : Z)
| Begin (ft : positive) (as_ : option positive) (fd buf size : Z) (rw : uio_rw)
| Finish (ft : positive)
| Fork (ft : positive) (ok : bool)
| Exit (ft : positive).

Inductive reply :=
| RInt (r : result Z)
| RDone (r : result unit)
| RTable (r : result (option positive))
| RPending.

Definition caller (c : call) : positive :=
  match c with
  | Open ft _ _ _ _ _ _ | Close ft _ | Dup2 ft _ _ | Lseek ft _ _ _
  | Begin ft _ _ _ _ _ | Finish ft | Fork ft _ | Exit ft => ft
  end.

(** The access mode that forbids the transfer. *)
Definition badaccmode (rw : uio_rw) : Z :=
  match rw with UIO_READ => O_WRONLY | UIO_WRITE => O_RDONLY end.

Section procs.
Context {W : Type} `{VfsOps W}.

Record sys := mkSys { ker : kstate W; pend : gmap positive pending }.

Definition lift {A} (f : A → reply) (m : M (kstate W) A) (S : sys) : outcome (reply * sys) :=
match m (ker S) with
| Done (a, k) => Done (f a, mkSys k (pend S))
| Panic => Panic
end.

Definition exec (c : call) (S : sys) : outcome (reply * sys) :=
match c with
| Open ft ok0 ok1 ok2 upath flags mode =>
    lift RInt (sys_open ft ok0 ok1 ok2 upath flags mode) S
| Close ft fd => lift RDone (sys_close ft fd) S
| Dup2 ft oldfd newfd => lift RInt (sys_dup2 ft oldfd newfd) S
| Lseek ft fd offset whence => lift RInt (sys_lseek ft fd offset whence) S
| Begin ft as_ fd buf size rw =>
    match rw_begin ft fd (badaccmode rw) (ker S) with
    | Done (Err e, k) => Done (RInt (Err e), mkSys k (pend S))
    | Done (Ok (f, locked, pos), k) =>
        Done (RPending,
              mkSys k (<[ft := mkPending as_ fd f locked pos buf size rw]> (pend S)))
    | Panic => Panic
    end
| Finish ft =>
    match pend S !! ft with
    | None => Panic
    | Some q =>
        match (r ← rw_transfer (p_as q) (p_file q) (p_buf q) (p_size q) (p_pos q) (p_rw q);
               rw_finish ft (p_fd q) (p_file q) (p_locked q) (p_size q) r) (ker S) with
        | Done (r, k) => Done (RInt r, mkSys k (delete ft (pend S)))
        | Panic => Panic
        end
    end
| Fork ft ok => lift RTable (filetable_copy ok (Some ft)) S
| Exit ft => lift (λ _, RDone (Ok tt)) (filetable_destroy ft) S
end.

(** The lock of the seek position, when the call is on a seekable file. *)
Definition lock_free (S : sys) (ft : positive) (fd : Z) : Prop :=
∀ t f o, tables (ker S) !! ft = Some t → lookup_fd t fd = Ok f →
  files (ker S) !! f = Some o → VOP_ISSEEKABLE (of_vnode o) = true →
  of_offsetlock o = None.

(** When a call can be made: the process exists and is not in the middle of
  another one, and a lock it needs is free (it waits until then). *)
Definition enabled (S : sys) (c : call) : Prop :=
is_Some (tables (ker S) !! caller c) ∧
match c with
| Open ft _ _ _ upath _ _ => pend S !! ft = None ∧ 0 ≤ upath < 2 ^ 32
| Finish ft => is_Some (pend S !! ft)
| Lseek ft fd _ _ => pend S !! ft = None ∧ lock_free S ft fd
| Begin ft _ fd _ size _ => pend S !! ft = None ∧ lock_free S ft fd ∧ 0 ≤ size
| _ => pend S !! caller c = None
end.

(** The system starts with one process and no open files. *)
Definition boot (m : machine) (w : W) : sys :=
mkSys (mkK {[ 1%positive := replicate (Z.to_nat OPEN_MAX) None ]} ∅ m w) ∅.

Inductive reachable (m : machine) (w : W) : sys → Prop :=
| reach_boot : reachable m w (boot m w)
| reach_step S c r S' :
  reachable m w S → enabled S c → exec c S = Done (r, S') → reachable m w S'.

(** ** Specification of a call *)

Definition unchanged (S S' : sys) : Prop :=
tables (ker S') = tables (ker S) ∧ files (ker S') = files (ker S) ∧ pend S' = pend S.

Definition call_spec (c : call) (S : sys) (r : reply) (S' : sys) : Prop :=
∃ t, tables (ker S) !! caller c = Some t ∧
match c, r with
| Open ft _ _ _ _ flags _, RInt (Ok fd) =>
    pend S' = pend S ∧ Z.land flags allflags = flags ∧
    0 ≤ fd < OPEN_MAX ∧ znth t fd = Some None ∧
    (∀ j, 0 ≤ j < fd → znth t j ≠ Some None) ∧
    ∃ f vn, files (ker S) !! f = None ∧
      tables (ker S') = <[ft := zset t fd (Some f)]> (tables (ker S)) ∧
      files (ker S') = <[f := mkOpenfile vn (Z.land flags O_ACCMODE) None 0 1]> (files (ker S))
| Open _ _ _ _ _ _ _, RInt (Err e) => 0 < e ∧ unchanged S S'
| Close ft fd, RDone (Ok _) => ∃ f, lookup_fd t fd = Ok f ∧ pend S' = pend S ∧
    tables (ker S') = <[ft := zset t fd None]> (tables (ker S)) ∧
    files (ker S') = drop_file f (files (ker S))
| Close _ fd, RDone (Err e) => e = EBADF ∧ lookup_fd t fd = Err EBADF ∧ unchanged S S'
| Dup2 ft oldfd newfd, RInt (Ok n) => n = newfd ∧ 0 ≤ newfd < OPEN_MAX ∧
    pend S' = pend S ∧ sub_files (files (ker S')) (files (ker S)) ∧
    (oldfd = newfd ∧ unchanged S S' ∨
     ∃ f, lookup_fd t oldfd = Ok f ∧
       tables (ker S') = <[ft := zset t newfd (Some f)]> (tables (ker S)))
| Dup2 _ oldfd newfd, RInt (Err e) => e = EBADF ∧ unchanged S S' ∧
    (lookup_fd t oldfd = Err EBADF ∨ ¬ 0 ≤ newfd < OPEN_MAX)
| Lseek _ fd offset whence, RInt (Ok pos) =>
    ∃ f o, lookup_fd t fd = Ok f ∧ files (ker S) !! f = Some o ∧
      VOP_ISSEEKABLE (of_vnode o) = true ∧ 0 ≤ pos ∧ seek_to o offset whence pos ∧
      tables (ker S') = tables (ker S) ∧ pend S' = pend S ∧
      files (ker S') = <[f := with_offset o pos]> (files (ker S))
| Lseek _ fd offset whence, RInt (Err e) => unchanged S S' ∧
    (lookup_fd t fd = Err EBADF ∧ e = EBADF ∨
     ∃ f o, lookup_fd t fd = Ok f ∧ files (ker S) !! f = Some o ∧
       if VOP_ISSEEKABLE (of_vnode o) then seek_err o offset whence e else e = ESPIPE)
| Begin ft _ fd _ _ rw, RPending =>
    ∃ q f o, pend S' = <[ft := q]> (pend S) ∧ lookup_fd t fd = Ok f ∧
      files (ker S) !! f = Some o ∧ of_accmode o ≠ badaccmode rw ∧
      p_file q = f ∧ p_fd q = fd ∧ p_locked q = VOP_ISSEEKABLE (of_vnode o) ∧
      p_pos q = (if p_locked q then of_offset o else 0) ∧
      tables (ker S') = tables (ker S) ∧
      files (ker S') = if p_locked q then <[f := with_lock o (Some ft)]> (files (ker S))
                       else files (ker S)
| Begin _ _ fd _ _ rw, RInt (Err e) => e = EBADF ∧ unchanged S S' ∧
    ∀ f o, lookup_fd t fd = Ok f → files (ker S) !! f = Some o →
      of_accmode o = badaccmode rw
| Finish ft, RInt res =>
    ∃ q o off, pend S !! ft = Some q ∧ pend S' = delete ft (pend S) ∧
      files (ker S) !! p_file q = Some o ∧ tables (ker S') = tables (ker S) ∧
      files (ker S') = (if p_locked q
        then <[p_file q := with_lock (with_offset o off) None]> (files (ker S))
        else files (ker S)) ∧
      match res with
      | Ok n => 0 ≤ n ≤ p_size q
      | Err e => 0 < e ∧ off = of_offset o
      end
| Fork ft _, RTable (Ok (Some dest)) => pend S' = pend S ∧
    tables (ker S) !! dest = None ∧ tables (ker S') = <[dest := t]> (tables (ker S)) ∧
    same_files (files (ker S')) (files (ker S))
| Fork _ _, RTable (Err e) => e = ENOMEM ∧ pend S' = pend S ∧
    tables (ker S') = tables (ker S) ∧ same_files (files (ker S')) (files (ker S))
| Exit ft, RDone (Ok _) => pend S' = pend S ∧
    tables (ker S') = delete ft (tables (ker S)) ∧
    sub_files (files (ker S')) (files (ker S))
| _, _ => False
end.

(** ** The invariant *)

(** The offset locks are held exactly by the transfers in progress, each of
  which is on a descriptor its process has open. *)
Definition pend_ok (h : positive → option positive) (T : gmap positive filetable)
  (P : gmap positive pending) : Prop :=
(∀ p q, P !! p = Some q → ∃ t, T !! p = Some t ∧
   znth t (p_fd q) = Some (Some (p_file q)) ∧ 0 ≤ p_size q ∧
   (p_locked q = true → h (p_file q) = Some p)) ∧
(∀ f p, h f = Some p → ∃ q, P !! p = Some q ∧ p_file q = f ∧ p_locked q = true).

Definition inv (base : positive → Z) (S : sys) : Prop :=
∃ h, wf none base h (ker S) ∧ pend_ok h (tables (ker S)) (pend S).

Lemma pend_elsewhere h (s : kstate W) P ft :
pend_ok h (tables s) P → P !! ft = None → locks_elsewhere ft h s.
Proof.
intros [Hp Hh] Hft f. destruct (h f) as [p|] eqn:Hf; [right|by left].
destruct (Hh f p Hf) as (q & Hq & <- & _). destruct (Hp p q Hq) as (t & Ht & Hz & _ & _).
assert (1 ≤ refs (p_file q) (delete ft (tables s))); [|lia].
apply (refs_pos _ _ p t (p_fd q)); [|exact Hz]. rewrite lookup_delete_ne by congruence. done.
Qed.

(** Calls of one process leave the tables of the others alone. *)
Lemma pend_ok_tables h T T' P ft :
pend_ok h T P → P !! ft = None →
(∀ p t, p ≠ ft → T !! p = Some t → T' !! p = Some t) → pend_ok h T' P.
Proof.
intros [Hp Hh] Hft HT. split; [|done]. intros p q Hq.
destruct (Hp p q Hq) as (t & Ht & Hz & Hsz & Hl). exists t. split_and!; [|done..].
apply HT; [congruence|done].
Qed.

Lemma insert_other {A} (T : gmap positive A) ft x p t :
p ≠ ft → T !! p = Some t → <[ft := x]> T !! p = Some t.
Proof. intros. by rewrite lookup_insert_ne. Qed.

Lemma lift_done {A} (f : A → reply) (m : M (kstate W) A) S Q :
wp m Q (ker S) → ∃ a k, lift f m S = Done (f a, mkSys k (pend S)) ∧ Q a k.
Proof.
unfold lift, wp. destruct (m (ker S)) as [[a k]|]; [|done]. eauto.
Qed.

Lemma lock_free_seekable base h S ft t fd :
wf none base h (ker S) → tables (ker S) !! ft = Some t → lock_free S ft fd →
seekable_fd h (ker S) t fd.
Proof.
intros Hwf Ht Hlf f o Hfd Ho Hs. rewrite <- (wf_lock _ _ _ _ _ _ Hwf Ho). by eapply Hlf.
Qed.

Context `{!VfsLaws W}.

Definition good base c S : Prop :=
∃ r S', exec c S = Done (r, S') ∧ call_spec c S r S' ∧ inv base S'.

Section steps.
Context (base : positive → Z) (S : sys) (h : positive → option positive).
Context (ft : positive) (t : filetable).
Hypothesis Hwf : wf none base h (ker S).
Hypothesis Hpend : pend_ok h (tables (ker S)) (pend S).
Hypothesis Ht : tables (ker S) !! ft = Some t.

Section idle.
Hypothesis Hidle : pend S !! ft = None.

Lemma exec_open ok0 ok1 ok2 upath flags mode :
0 ≤ upath < 2 ^ 32 → good base (Open ft ok0 ok1 ok2 upath flags mode) S.
Proof.
intros Hu. pose proof (pend_elsewhere _ _ _ _ Hpend Hidle) as Hl.
edestruct (lift_done RInt _ S _
  (sys_open_correct base h (ker S) ft t Hwf Ht Hl ok0 ok1 ok2 upath flags mode Hu))
  as (r & k & Hrun & Hk & Hum & Hr).
do 2 eexists. split; [exact Hrun|]. destruct r as [fd|e].
- destruct Hr as (? & ? & ? & ? & f & vn & ? & HT & ?). split.
  + exists t. split; [done|]. split_and!; try done; try (by destruct H1). eauto 10.
  + exists h. split; [done|]. simpl. rewrite HT.
    eapply pend_ok_tables; [done..|]. apply insert_other.
- destruct Hr as (? & HT & ?). split.
  + exists t. by split_and!.
  + exists h. split; [done|]. simpl. by rewrite HT.
Qed.

Lemma exec_close fd : good base (Close ft fd) S.
Proof.
pose proof (pend_elsewhere _ _ _ _ Hpend Hidle) as Hl.
edestruct (lift_done RDone _ S _ (sys_close_correct base h (ker S) ft t Hwf Ht Hl fd))
  as (r & k & Hrun & Hk & Hum & Hr).
do 2 eexists. split; [exact Hrun|]. destruct (lookup_fd t fd) as [f|e] eqn:Hfd.
- destruct Hr as (-> & HT & Hf). split.
  + exists t. split; [done|]. exists f. by split_and!.
  + exists h. split; [done|]. simpl. rewrite HT.
    eapply pend_ok_tables; [done..|]. apply insert_other.
- destruct Hr as (-> & ->). split; [|by exists h].
  exists t. split; [done|]. by rewrite Hfd, (lookup_fd_Err _ _ _ Hfd).
Qed.

Lemma exec_dup2 oldfd newfd : good base (Dup2 ft oldfd newfd) S.
Proof.
pose proof (pend_elsewhere _ _ _ _ Hpend Hidle) as Hl.
edestruct (lift_done RInt _ S _ (sys_dup2_correct base h (ker S) ft t Hwf Ht Hl oldfd newfd))
  as (r & k & Hrun & Hk & Hum & Hsub & Hr).
do 2 eexists. split; [exact Hrun|].
destruct (decide (0 ≤ newfd < OPEN_MAX)) as [Hok|Hok].
2: { destruct Hr as (-> & ->). split; [|by exists h].
     exists t. split; [done|]. split_and!; try done. by right. }
destruct (decide (oldfd = newfd)) as [->|Hne].
{ destruct Hr as (-> & ->). split; [|by exists h]. exists t. split; [done|].
  split_and!; try done; try apply Hok. by left. }
destruct (lookup_fd t oldfd) as [f|e] eqn:Hfd.
- destruct Hr as (-> & HT). split.
  + exists t. split; [done|]. split_and!; try done; try apply Hok. right. eauto.
  + exists h. split; [done|]. simpl. rewrite HT.
    eapply pend_ok_tables; [done..|]. apply insert_other.
- destruct Hr as (-> & ->). split; [|by exists h]. exists t. split; [done|].
  split_and!; try done. left. by rewrite Hfd, (lookup_fd_Err _ _ _ Hfd).
Qed.

Lemma exec_fork ok : good base (Fork ft ok) S.
Proof.
edestruct (lift_done RTable _ S _ (filetable_copy_correct none base h (ker S) ok ft t Hwf Ht))
  as (r & k & Hrun & Hum & Hk & Hsame & Hr).
do 2 eexists. split; [exact Hrun|]. destruct r as [[dest|]|e]; [|done|].
- destruct Hr as [Hd HT]. split.
  + exists t. split; [done|]. by split_and!.
  + exists h. split; [done|]. simpl. rewrite HT.
    eapply pend_ok_tables; [done..|]. intros p q Hp Hq.
    rewrite lookup_insert_ne by congruence. done.
- destruct Hr as [-> HT]. split.
  + exists t. split; [done|]. by split_and!.
  + exists h. split; [done|]. simpl. by rewrite HT.
Qed.

Lemma exec_exit : good base (Exit ft) S.
Proof.
pose proof (pend_elsewhere _ _ _ _ Hpend Hidle) as Hl.
edestruct (lift_done (λ _, RDone (Ok tt)) _ S _
  (filetable_destroy_correct none base h (ker S) ft t Hwf Ht Hl))
  as ([] & k & Hrun & Hk & HT & Hum & Hsub).
do 2 eexists. split; [exact Hrun|]. split.
- exists t. split; [done|]. by split_and!.
- exists h. split; [done|]. simpl. rewrite HT.
  eapply pend_ok_tables; [done..|]. intros p q Hp Hq. by rewrite lookup_delete_ne.
Qed.

Lemma exec_lseek fd offset whence :
lock_free S ft fd → good base (Lseek ft fd offset whence) S.
Proof.
intros Hlf. pose proof (lock_free_seekable _ _ _ _ _ _ Hwf Ht Hlf) as Hsk.
pose proof (pend_elsewhere _ _ _ _ Hpend Hidle) as Hl.
edestruct (lift_done RInt _ S _
  (sys_lseek_correct base h (ker S) ft t Hwf Ht fd offset whence Hsk))
  as (r & k & Hrun & Hk & Hum & HT & Hr).
do 2 eexists. split; [exact Hrun|].
split; [|exists h; split; [done|]; simpl; by rewrite HT].
exists t. split; [done|]. destruct (lookup_fd t fd) as [f|e] eqn:Hfd.
- destruct Hr as (o & Ho & Hr). destruct (VOP_ISSEEKABLE (of_vnode o)) eqn:Hs.
  + destruct r as [pos|e].
    * destruct Hr as (? & ? & ?). exists f, o. by split_and!.
    * destruct Hr as [? ?]. split; [by split_and!|]. right. exists f, o. by rewrite Hs.
  + destruct Hr as (-> & ->). split; [done|]. right. exists f, o. by rewrite Hs.
- destruct Hr as (-> & ->). split; [done|]. left.
  by rewrite (lookup_fd_Err _ _ _ Hfd).
Qed.

Lemma pend_ok_begin q :
znth t (p_fd q) = Some (Some (p_file q)) → 0 ≤ p_size q →
(p_locked q = true → h (p_file q) = None) →
pend_ok (locked_h h ft (p_file q) (p_locked q)) (tables (ker S)) (<[ft := q]> (pend S)).
Proof.
intros Hz Hsz Hfree. destruct Hpend as [Hp Hh]. unfold locked_h. split.
- intros p q'. destruct (decide (p = ft)) as [->|Hne].
  + rewrite lookup_insert_eq. intros [= <-]. exists t. split_and!; [done..|].
    intros ->. unfold set_h. by rewrite decide_True.
  + rewrite lookup_insert_ne by done. intros Hq'.
    destruct (Hp p q' Hq') as (t' & Ht' & Hz' & Hsz' & Hl'). exists t'. split_and!; [done..|].
    intros Hlk. specialize (Hl' Hlk). destruct (p_locked q); [|done].
    unfold set_h. rewrite decide_False; [done|]. intros Heq.
    rewrite Heq in Hl'. rewrite Hfree in Hl'; done.
- intros g p Hg. destruct (p_locked q) eqn:Hlq.
  + unfold set_h in Hg. destruct (decide (g = p_file q)) as [->|].
    * injection Hg as <-. exists q. by rewrite lookup_insert_eq.
    * destruct (Hh g p Hg) as (q' & Hq' & ?). exists q'.
      rewrite lookup_insert_ne by congruence. done.
  + destruct (Hh g p Hg) as (q' & Hq' & ?). exists q'.
    rewrite lookup_insert_ne by congruence. done.
Qed.

Lemma exec_begin as_ fd buf size rw :
lock_free S ft fd → 0 ≤ size → good base (Begin ft as_ fd buf size rw) S.
Proof.
intros Hlf Hsz. pose proof (lock_free_seekable _ _ _ _ _ _ Hwf Ht Hlf) as Hsk.
pose proof (rw_begin_correct base h (ker S) ft t Hwf Ht fd (badaccmode rw) Hsk) as Hb.
apply wp_done in Hb as (r & k & Hrun & Hr). unfold good. simpl. rewrite Hrun.
destruct r as [[[f locked] pos]|e].
- destruct Hr as (Hfd & o & Ho & Ha & Hlk & Hpos & -> & Hwf').
  do 2 eexists. split; [done|]. split.
  + exists t. split; [done|].
    exists (mkPending as_ fd f locked pos buf size rw), f, o. simpl.
    split_and!; try done; by destruct locked.
  + exists (locked_h h ft f locked). split; [done|]. simpl.
    replace (tables (locked_state _ _ _ _ _)) with (tables (ker S)) by (by destruct locked).
    apply (pend_ok_begin (mkPending as_ fd f locked pos buf size rw)); simpl.
    * by apply lookup_fd_Ok.
    * done.
    * intros ->. by apply (Hsk f o).
- destruct Hr as (-> & -> & Hbad). do 2 eexists. split; [done|].
  split; [|by exists h]. exists t. by split_and!.
Qed.
End idle.

Lemma pend_ok_finish q :
  pend S !! ft = Some q →
  pend_ok (if p_locked q then set_h (p_file q) None h else h) (tables (ker S))
    (delete ft (pend S)).
Proof.
  intros Hq. destruct Hpend as [Hp Hh]. destruct (Hp ft q Hq) as (t0 & _ & _ & _ & Hlq).
  split.
  - intros p q' [Hne Hq']%lookup_delete_Some.
    destruct (Hp p q' Hq') as (t' & Ht' & Hz' & Hsz' & Hl'). exists t'. split_and!; [done..|].
    intros Hlk. specialize (Hl' Hlk). destruct (p_locked q); [|done].
    unfold set_h. rewrite decide_False; [done|]. intros Heq. rewrite Heq, Hlq in Hl' by done.
    congruence.
  - intros g p Hg. assert (h g = Some p ∧ (p_locked q = true → g ≠ p_file q)) as [Hg' Hne].
    { destruct (p_locked q); [|done]. unfold set_h in Hg. by case_decide. }
    destruct (Hh g p Hg') as (q' & Hq' & <- & Hlk). exists q'. split_and!; [|done..].
    rewrite lookup_delete_ne; [done|]. intros ->. simplify_eq. by apply Hne.
Qed.

Lemma exec_finish q : pend S !! ft = Some q → good base (Finish ft) S.
Proof.
  intros Hq. destruct (proj1 Hpend ft q Hq) as (t' & Ht' & Hz & Hsz & Hlk).
  rewrite Ht in Ht'. injection Ht' as <-.
  destruct (slot_file _ _ _ _ _ _ _ _ Hwf Ht Hz) as [o Ho].
  set (m := r ← rw_transfer (p_as q) (p_file q) (p_buf q) (p_size q) (p_pos q) (p_rw q);
            rw_finish ft (p_fd q) (p_file q) (p_locked q) (p_size q) r).
  assert (wp m (λ r k, inv base (mkSys k (delete ft (pend S))) ∧ ∃ off,
    tables k = tables (ker S) ∧
    files k = (if p_locked q then <[p_file q := with_lock (with_offset o off) None]>
                                    (files (ker S)) else files (ker S)) ∧
    match r with Ok n => 0 ≤ n ≤ p_size q | Err e => 0 < e ∧ off = of_offset o end)
    (ker S)) as Hm.
  { unfold m. wp_go. eapply wp_mono; [|by eapply rw_transfer_correct].
    intros [res u] s1 (Hwf1 & HT1 & HF1 & Hres & Hu).
    eapply wp_mono; [|eapply (rw_finish_correct base h s1 ft t);
      [done|by rewrite HT1|done|by rewrite HF1|done]].
    intros r k (Hwf2 & HT2 & Hum & Hr). rewrite HT1 in HT2. rewrite HF1 in Hr. simpl in Hr.
    split.
    - eexists. split; [exact Hwf2|]. simpl. rewrite HT2. by apply pend_ok_finish.
    - destruct (decide (res = 0)) as [->|].
      + destruct Hr as [-> Hf]. exists (uio_offset u). split_and!; try done; lia.
      + destruct Hr as [-> Hf]. exists (of_offset o). split_and!; try done; lia. }
  apply wp_done in Hm as (r & k & Hrun & Hinv & off & HT & HF & Hr).
  unfold good. simpl. rewrite Hq. fold m. rewrite Hrun.
  do 2 eexists. split; [done|]. split; [|done].
  exists t. split; [done|]. exists q, o, off. by split_and!.
Qed.
End steps.

Lemma exec_correct base S c : inv base S → enabled S c → good base c S.
Proof.
  intros (h & Hwf & Hp) [[t Ht] He]. destruct c; simpl in *.
  - destruct He. by apply (exec_open base S h ft t).
  - by apply (exec_close base S h ft t).
  - by apply (exec_dup2 base S h ft t).
  - destruct He. by apply (exec_lseek base S h ft t).
  - destruct He as (? & ? & ?). by apply (exec_begin base S h ft t).
  - destruct He as [q Hq]. by apply (exec_finish base S h ft t Hwf Hp Ht q).
  - by apply (exec_fork base S h ft t).
  - by apply (exec_exit base S h ft t).
Qed.

Lemma inv_boot m w :
  world_ok w → tm_badfaultfunc m = false → (∀ v, 0 ≤ vn_refcount w v) →
  inv (vn_refcount w) (boot m w).
Proof.
  intros Hw Hm Hv. exists (λ _, None). split; [|split; [done|done]].
  constructor; cbn [boot ker tables files umem world]; try done.
  intros ft t. rewrite lookup_singleton_Some. intros [_ <-]. apply length_replicate.
Qed.

Lemma files_reachable_inv m w S :
  world_ok w → tm_badfaultfunc m = false → (∀ v, 0 ≤ vn_refcount w v) →
  reachable m w S → inv (vn_refcount w) S.
Proof.
  intros Hw Hm Hv. induction 1 as [|S c r S' _ IH He Hrun]; [by apply inv_boot|].
  destruct (exec_correct _ _ _ IH He) as (r' & S'' & Hrun' & _ & Hinv).
  rewrite Hrun in Hrun'. by simplify_eq.
Qed.

(** The number of descriptors on an open file, over all processes, bounds its
    reference count: 128 per process. *)
Lemma refs_bound f (s : kstate W) base h :
  wf none base h s → refs f (tables s) ≤ 128 * Z.of_nat (size (tables s)).
Proof.
  intros Hwf. apply msum_le. intros ft t Ht. unfold cnt.
  pose proof (length_filter (λ o, o = Some f) t).
  rewrite (wf_len _ _ _ _ Hwf ft t Ht) in H0. change (Z.to_nat OPEN_MAX) with 128%nat in H0.
  lia.
Qed.

(** C30: In every state the system can reach, whatever the interleaving of
    opens, closes, dup2s, seeks, reads, writes, forks and exits: every
    descriptor refers to an open file that exists; the reference count of an
    open file is exactly the number of descriptors on it over all processes, is
    positive, and cannot overflow (128 per process); its offset lock is held
    only by a process in the middle of a transfer on it; and every vnode has as
    many references from here as there are open files on it. *)
Theorem references_exact m w S :
  world_ok w → tm_badfaultfunc m = false → (∀ v, 0 ≤ vn_refcount w v) →
  reachable m w S →
  (∀ ft t fd f, tables (ker S) !! ft = Some t → znth t fd = Some (Some f) →
     is_Some (files (ker S) !! f)) ∧
  (∀ f o, files (ker S) !! f = Some o →
     of_refcount o = refs f (tables (ker S)) ∧
     0 < of_refcount o ≤ 128 * Z.of_nat (size (tables (ker S))) ∧
     (∀ p, of_offsetlock o = Some p →
        ∃ q, pend S !! p = Some q ∧ p_file q = f ∧ p_locked q = true)) ∧
  (∀ v, vn_refcount (world (ker S)) v = held v (files (ker S)) + vn_refcount w v).
Proof.
  intros Hw Hm Hv HS. destruct (files_reachable_inv m w S Hw Hm Hv HS) as (h & Hwf & Hp & Hh).
  split_and!.
  - intros ft t fd f Ht Hz. by eapply slot_file.
  - intros f o Ho. destruct (wf_file _ _ _ _ Hwf f o Ho) as (Hr & Hpos & _ & Hl).
    pose proof (refs_bound f _ _ _ Hwf). unfold none in Hr. split_and!; try lia.
    intros p Hpl. rewrite Hl in Hpl. by apply Hh.
  - apply Hwf.
Qed.


(** The lock of an idle file is free after a seek on it. *)
Lemma seek_lock_free base S S' ft fd offset whence pos p :
  inv base S → enabled S (Lseek ft fd offset whence) →
  call_spec (Lseek ft fd offset whence) S (RInt (Ok pos)) S' →
  tables (ker S') !! p = tables (ker S) !! ft → lock_free S' p fd.
Proof.
  intros _ [_ [_ Hlf]] (t & Ht & f & o & Hfd & Ho & Hs & _ & _ & _ & _ & HF) Hp.
  simpl in Ht. intros t' f' o' Ht' Hfd' Ho' _. rewrite Hp, Ht in Ht'.
  injection Ht' as <-. rewrite Hfd in Hfd'. injection Hfd' as <-.
  rewrite HF, lookup_insert_eq in Ho'. injection Ho' as <-. by apply (Hlf t f o).
Qed.

(** The seek position is shared across [fork]: after a fork, when the
    child sets the position of an inherited descriptor, the parent finds its
    own descriptor of that number at this position. *)
Theorem fork_shares_position m w S S1 S2 ft ok child fd pos :
  world_ok w → tm_badfaultfunc m = false → (∀ v, 0 ≤ vn_refcount w v) →
  reachable m w S → enabled S (Fork ft ok) →
  exec (Fork ft ok) S = Done (RTable (Ok (Some child)), S1) →
  enabled S1 (Lseek child fd pos SEEK_SET) → pos < 2 ^ 63 →
  exec (Lseek child fd pos SEEK_SET) S1 = Done (RInt (Ok pos), S2) →
  ∃ S3, exec (Lseek ft fd 0 SEEK_CUR) S2 = Done (RInt (Ok pos), S3).
Proof.
  intros Hw Hm Hv HS He Hx He1 Hpos Hx1.
  pose proof (files_reachable_inv m w S Hw Hm Hv HS) as Hinv.
  destruct (exec_correct _ _ _ Hinv He) as (r & S' & Hrun & Hspec & Hinv1).
  rewrite Hx in Hrun. injection Hrun as <- <-.
  destruct (exec_correct _ _ _ Hinv1 He1) as (r & S' & Hrun & Hspec1 & Hinv2).
  rewrite Hx1 in Hrun. injection Hrun as <- <-.
  destruct Hspec as (t & Ht & HP & Hnew & HT & _). simpl in Ht.
  pose proof Hspec1 as (t1 & Ht1 & f & o & Hfd & Ho & Hs & Hp0 & _ & HT2 & HP2 & HF2).
  simpl in Ht1. rewrite HT, lookup_insert_eq in Ht1. injection Ht1 as <-.
  assert (tables (ker S2) !! ft = Some t) as Hft.
  { rewrite HT2, HT. rewrite lookup_insert_ne by congruence. done. }
  assert (enabled S2 (Lseek ft fd 0 SEEK_CUR)) as He2.
  { split; [by exists t|]. split; [rewrite HP2, HP; apply He|].
    eapply (seek_lock_free _ S1); [done..|]. by rewrite Hft, HT, lookup_insert_eq. }
  destruct (exec_correct _ _ _ Hinv2 He2) as (r & S3 & Hrun & (t3 & Ht3 & Hspec3) & _).
  simpl in Ht3. rewrite Hft in Ht3. injection Ht3 as <-. exists S3. rewrite Hrun.
  assert (off_wrap (pos + 0) = pos) as Hwrap.
  { unfold off_wrap. rewrite Z.add_0_r, Z.mod_small; lia. }
  assert (files (ker S2) !! f = Some (with_offset o pos)) as Ho2.
  { by rewrite HF2, lookup_insert_eq. }
  destruct r as [[pos'|e]|?|?|]; try done.
  - destruct Hspec3 as (f' & o' & Hfd' & Ho' & _ & _ & Hto & _).
    rewrite Hfd in Hfd'. injection Hfd' as <-. rewrite Ho2 in Ho'. injection Ho' as <-.
    destruct Hto as [[? _]|[[_ ->]|[? _]]]; [done| |done]. simpl. by rewrite Hwrap.
  - destruct Hspec3 as [_ [[Hbad _]|(f' & o' & Hfd' & Ho' & Herr)]]; [congruence|].
    rewrite Hfd in Hfd'. injection Hfd' as <-. rewrite Ho2 in Ho'. injection Ho' as <-.
    simpl in Herr. rewrite Hs in Herr.
    destruct Herr as [(_ & ? & _)|[(pos' & Hto & Hneg & _)|[? _]]]; [done| |done].
    destruct Hto as [[? _]|[[_ ->]|[? _]]]; [done| |done]. simpl in Hneg. lia.
Qed.

End procs.
Arguments sys : clear implicits.

(** ** A concrete VFS, for the examples

    Two vnodes: a device that cannot seek (reads give end of file, writes
    swallow the data) and a disk that can. *)
Module TestVfs.
Definition count (w : gmap positive Z) (v : positive) : Z := default 0 (w !! v).

#[export] Instance test_ops : VfsOps (gmap positive Z) := {|
  vfs_open path flags mode :=
    if valid_accmode (Z.land flags O_ACCMODE) then
      let v := match path with 110 :: _ => 1%positive | _ => 2%positive end in
      modify (λ w, <[v := count w v + 1]> w) ;; mret (Ok v)
    else mret (Err EINVAL);
  vfs_close v := modify (λ w, <[v := count w v - 1]> w);
  VOP_ISSEEKABLE v := bool_decide (v = 2%positive);
  VOP_READ v u := mret (0, u);
  VOP_WRITE v u :=
    mret (0, mkUio (uio_iov u) (uio_offset u + uio_resid u) 0 (uio_segflg u)
               (uio_rwflg u) (uio_space u));
  VOP_STAT v := mret (Ok 8192);
  vn_refcount := count;
  world_ok _ := True;
|}.

Lemma count_insert w v n x :
  count (<[v := n]> w) x = if decide (x = v) then n else count w x.
Proof.
  unfold count. case_decide as Hx.
  - by rewrite Hx, lookup_insert_eq.
  - by rewrite lookup_insert_ne.
Qed.

#[export] Instance test_laws : VfsLaws (gmap positive Z).
Proof.
  split.
  - intros path flags mode w _. cbn [vfs_open test_ops].
    destruct (valid_accmode _) eqn:Ha; wp_go; (split; [done|]); [|done].
    split; [done|]. intros x. cbn [vn_refcount test_ops]. rewrite count_insert.
    unfold add1. destruct path as [|[] ]; repeat case_decide; subst; try lia;
      congruence.
  - intros v w _ _. cbn [vfs_close test_ops]. wp_go. split; [done|]. intros x.
    cbn [vn_refcount test_ops]. unfold add1. rewrite count_insert.
    case_decide; subst; lia.
  - intros [] v u m w _ _ Hm (_ & _ & b & n & _ & Hu); cbn [VOP_READ VOP_WRITE test_ops]; wp_go;
      split_and!; try done; simpl; lia.
  - intros v w _ _. cbn [VOP_STAT test_ops]. wp_go. by split_and!.
Qed.

(** A user string [x] at 4096, and two processes working on a file of that name. *)
Definition user : machine := mkMachine {[ 4096 := 120; 4097 := 0 ]} ∅ false.

Fixpoint run (cs : list call) (S : sys (gmap positive Z)) : option (sys (gmap positive Z)) :=
  match cs with
  | [] => Some S
  | c :: cs' => match exec c S with Done (_, S') => run cs' S' | Panic => None end
  end.

Definition start : sys (gmap positive Z) := boot user ∅.
Definition opened := Open 1 true true true 4096 O_RDWR 0.
Definition S1 := default start (run [opened] start).
Definition S2 := default start (run [opened; Fork 1 true] start).
Definition S3 := default start (run [opened; Fork 1 true; Lseek 2 0 5 SEEK_SET] start).

Ltac evaluate := vm_compute; first [reflexivity | eexists; reflexivity].

Lemma S1_reachable : reachable user ∅ S1.
Proof.
  apply (reach_step _ _ start opened (RInt (Ok 0))); [constructor| |evaluate].
  split; [evaluate|]. split; [evaluate|lia].
Qed.

Lemma fork_enabled : enabled S1 (Fork 1 true).
Proof. split; evaluate. Qed.

Lemma S2_reachable : reachable user ∅ S2.
Proof.
  apply (reach_step _ _ S1 (Fork 1 true) (RTable (Ok (Some 2%positive))));
    [apply S1_reachable|apply fork_enabled|evaluate].
Qed.

Lemma seek_enabled : enabled S2 (Lseek 2 0 5 SEEK_SET).
Proof.
  split; [evaluate|]. split; [evaluate|]. intros t f o Ht Hfd Ho _.
  vm_compute in Ht. injection Ht as <-. vm_compute in Hfd. injection Hfd as <-.
  vm_compute in Ho. by injection Ho as <-.
Qed.

Lemma references_exact_witness :
  (∀ f o, files (ker S2) !! f = Some o → of_refcount o = refs f (tables (ker S2))) ∧
  of_refcount <$> files (ker S2) !! 1%positive = Some 2.
Proof.
  split; [|vm_compute; reflexivity]. intros f o Ho.
  destruct (references_exact user ∅ S2) as (_ & Hr & _).
  - exact I.
  - reflexivity.
  - intros v. vm_compute. discriminate.
  - exact S2_reachable.
  - apply (Hr f o Ho).
Defined.


Lemma fork_shares_position_witness :
  ∃ S', exec (Lseek 1 0 0 SEEK_CUR) S3 = Done (RInt (Ok 5), S').
Proof.
  apply (fork_shares_position user ∅ S1 S2 S3 1 true 2 0 5).
  - exact I.
  - reflexivity.
  - intros v. vm_compute. discriminate.
  - exact S1_reachable.
  - exact fork_enabled.
  - vm_compute. reflexivity.
  - exact seek_enabled.
  - lia.
  - vm_compute. reflexivity.
Defined.

End TestVfs.

End FileProcs.
