(* ===== verification/Coremap.v ===== *)
(** * The coremap (kern/arch/mips/vm/vm.c)

    One entry per physical page.  Here: finding and taking runs of free pages,
    giving them back, and the set-up at boot.  Eviction and page faults are in
    Vm.v.  The specification reads a coremap as a set of allocated blocks. *)

From Stdlib Require Import ZArith Lia.
From stdpp Require Import base numbers list gmap.
From S2P Require Import Prelude.

Module Coremap.

Definition PAGE_SIZE : Z := 4096.

(** [MIPS_KSEG0]: kernel virtual addresses of physical memory. *)
Definition KSEG0 : Z := 2147483648.
Definition PADDR_TO_KVADDR (paddr : Z) : Z := paddr + KSEG0.
Definition KVADDR_TO_PADDR (vaddr : Z) : Z := vaddr - KSEG0.
Definition PADDR_TO_PPAGE (paddr : Z) : Z := paddr / PAGE_SIZE.
Definition PPAGE_TO_PADDR (ppn : Z) : Z := ppn * PAGE_SIZE.

(** [owner] is the address of the address space. *)
Record cm_entry := mkEntry {
  used : bool;
  kmalloc_end : bool;
  dirty : bool;
  kernel_page : bool;
  busy : bool;
  owner : option positive;
  vaddr : Z;
  pp_num : Z;
}.

Record coremap := mkCoremap {
  entries : list cm_entry;
  first_page : Z;
  last_page : Z;
  cm_page_count : Z;
  cm_spinlock : bool;
}.

Definition set_entries e (c : coremap) :=
  mkCoremap e (first_page c) (last_page c) (cm_page_count c) (cm_spinlock c).
Definition set_count n (c : coremap) :=
  mkCoremap (entries c) (first_page c) (last_page c) n (cm_spinlock c).
Definition set_locked b (c : coremap) :=
  mkCoremap (entries c) (first_page c) (last_page c) (cm_page_count c) b.

(** The spinlock; taking it twice or releasing it when it is not held is a
    fatal error. *)
Definition cm_acquire : M coremap unit :=
  l ← gets cm_spinlock; KASSERT (negb l) ;; modify (set_locked true).
Definition cm_release : M coremap unit :=
  l ← gets cm_spinlock; KASSERT l ;; modify (set_locked false).

Definition entry (p : Z) : M coremap cm_entry :=
  e ← gets entries; deref (znth e p).
Definition set_entry (p : Z) (e : cm_entry) : M coremap unit :=
  _ ← entry p; modify (λ c, set_entries (zset (entries c) p e) c).

Definition is_pp_used (p : Z) : M coremap bool :=
  l ← gets last_page;
  KASSERT (p <? l) ;;
  e ← entry p; mret (used e).

Definition free_ppage (p : Z) : M coremap unit :=
  f ← gets first_page;
  l ← gets last_page;
  KASSERT ((f <=? p) && (p <? l)) ;;
  e ← entry p;
  set_entry p (mkEntry false false (dirty e) false false None 0 (pp_num e)) ;;
  modify (λ c, set_count (cm_page_count c - 1) c).

Definition kalloc_ppage (p : Z) : M coremap unit :=
  e ← entry p;
  set_entry p (mkEntry true false (dirty e) true false None 0 p) ;;
  modify (λ c, set_count (cm_page_count c + 1) c).

(** The inner loop of [find_free_pp]: how many of the next [n] pages are free. *)
Fixpoint free_run (n : nat) (p : Z) : M coremap Z :=
  match n with
  | O => mret 0
  | S n' =>
      u ← is_pp_used p;
      if (u : bool) then mret 0 else r ← free_run n' (p + 1); mret (1 + r)
  end.

(** The outer loop; it moves on by at least one page each time. *)
Fixpoint find_loop (fuel : nat) (npages current : Z) : M coremap (result Z) :=
  match fuel with
  | O => panic
  | S fuel' =>
      l ← gets last_page;
      if current + npages <=? l then
        off ← free_run (Z.to_nat npages) current;
        if off =? npages then mret (Ok current)
        else find_loop fuel' npages (current + off + 1)
      else mret (Err ENOMEM)
  end.

Definition find_free_pp (npages start : Z) : M coremap (result Z) :=
  l ← gets last_page;
  if (npages >? l) || (start >? l - npages) then mret (Err ENOMEM)
  else find_loop (S (Z.to_nat l)) npages start.

(** One round of [alloc_kpages]: the address of the block, or [None] when there
    is no run of [npages] free pages. *)
Definition alloc_try (npages : Z) : M coremap (option Z) :=
  cm_acquire ;;
  start ← gets first_page;
  r ← find_free_pp npages start;
  match r with
  | Ok start =>
      for_loop (Z.to_nat npages) start kalloc_ppage ;;
      e ← entry (start + npages - 1);
      set_entry (start + npages - 1)
        (mkEntry (used e) true (dirty e) (kernel_page e) (busy e) (owner e) (vaddr e)
           (pp_num e)) ;;
      cm_release ;;
      mret (Some (PADDR_TO_KVADDR (PPAGE_TO_PADDR start)))
  | Err _ => cm_release ;; mret None
  end.

(** The loop of [free_kpages]; [fuel] is the number of pages. *)
Fixpoint free_loop (fuel : nat) (curr : Z) : M coremap unit :=
  match fuel with
  | O => panic
  | S fuel' =>
      u ← is_pp_used curr;
      if (u : bool) then
        e ← entry curr;
        free_ppage curr ;;
        if kmalloc_end e then mret tt else free_loop fuel' (curr + 1)
      else mret tt
  end.

Definition free_kpages (addr : Z) : M coremap unit :=
  held ← gets cm_spinlock;
  (if (held : bool) then mret tt else cm_acquire) ;;
  let curr := PADDR_TO_PPAGE (KVADDR_TO_PADDR addr) in
  l ← gets last_page;
  free_loop (S (Z.to_nat l)) curr ;;
  (if (held : bool) then mret tt else cm_release).

(** kern/arch/mips/vm/ram.c: physical memory that nobody manages yet. *)
Record ram := mkRam { firstpaddr : Z; lastpaddr : Z }.

Definition ram_getsize (r : ram) : Z := lastpaddr r.

(** Returns 0 when there is not enough memory. *)
Definition ram_stealmem (npages : Z) (r : ram) : Z * ram :=
  let size := npages * PAGE_SIZE in
  if firstpaddr r + size >? lastpaddr r then (0, r)
  else (firstpaddr r, mkRam (firstpaddr r + size) (lastpaddr r)).

(** [sizeof(struct coremap)] and [sizeof(struct cm_entry)] on the 32-bit
    machine. *)
Definition sizeof_coremap : Z := 4.
Definition sizeof_cm_entry : Z := 20.

Definition empty_entry : cm_entry := mkEntry false false false false false None 0 0.

(** The memory is steal-able until here: the coremap is placed in it, all its
    entries are cleared, and the pages below the first free one are taken. *)
Definition vm_bootstrap (r : ram) : outcome coremap :=
  let total_pages := ram_getsize r / PAGE_SIZE in
  let coremap_bytes := sizeof_coremap + total_pages * sizeof_cm_entry in
  let coremap_pages := (coremap_bytes + PAGE_SIZE - 1) / PAGE_SIZE in
  let '(cm_paddr, r1) := ram_stealmem coremap_pages r in
  let firstfree := fst (ram_stealmem 0 r1) in
  let first := PADDR_TO_PPAGE firstfree in
  match (KASSERT (negb (cm_paddr =? 0)) ;;
         KASSERT (firstfree mod PAGE_SIZE =? 0) ;;
         cm_acquire ;;
         for_loop (Z.to_nat first) 0 kalloc_ppage ;;
         cm_release)
        (mkCoremap (replicate (Z.to_nat total_pages) empty_entry) first
           (PADDR_TO_PPAGE (ram_getsize r1)) 0 false) with
  | Done (_, c) => Done c
  | Panic => Panic
  end.

(** ** The specification: allocated blocks *)

(** [B !! s = Some n]: [n] pages starting at page [s]. *)
Definition in_block (B : gmap Z Z) (p : Z) : Prop :=
  ∃ s n, B !! s = Some n ∧ s ≤ p < s + n.

Definition is_used (c : coremap) (p : Z) : bool :=
  match znth (entries c) p with Some e => used e | None => false end.
Definition is_end (c : coremap) (p : Z) : bool :=
  match znth (entries c) p with Some e => kmalloc_end e | None => false end.

Record blocks (c : coremap) (B : gmap Z Z) : Prop := {
  b_range : 0 ≤ first_page c ≤ last_page c;
  b_len : Z.of_nat (length (entries c)) = last_page c;
  b_unlocked : cm_spinlock c = false;
  b_low : ∀ p, 0 ≤ p < first_page c → is_used c p = true;
  b_used : ∀ p, first_page c ≤ p < last_page c → is_used c p = true ↔ in_block B p;
  b_block : ∀ s n, B !! s = Some n → 0 < n ∧ first_page c ≤ s ∧ s + n ≤ last_page c;
  b_end : ∀ s n p, B !! s = Some n → s ≤ p < s + n →
    is_end c p = true ↔ p = s + n - 1;
  b_disjoint : ∀ s n s' n', B !! s = Some n → B !! s' = Some n' → s < s' → s + n ≤ s';
  b_count : cm_page_count c = first_page c + msum id B;
}.

(** A run of [n] free pages at [s]. *)
Definition free_at (c : coremap) (B : gmap Z Z) (s n : Z) : Prop :=
  first_page c ≤ s ∧ s + n ≤ last_page c ∧ ∀ p, s ≤ p < s + n → ¬ in_block B p.

(** The allocator the coremap implements: first fit over the set of blocks.
    [f] and [l] are the first page and the end of the managed memory. *)
Definition covered (B : gmap Z Z) (p : Z) : bool :=
  existsb (λ b, (fst b <=? p) && (p <? fst b + snd b)) (map_to_list B).
Definition fits (B : gmap Z Z) (n s : Z) : bool :=
  forallb (λ p, negb (covered B p)) (seqZ s n).
Definition first_fit (f l : Z) (B : gmap Z Z) (n : Z) : option Z :=
  head (filter (λ s, fits B n s = true) (seqZ f (l - f - n + 1))).

Inductive op := OAlloc (n : Z) | OFree (addr : Z).

Definition code_op (o : op) : M coremap (option Z) :=
  match o with
  | OAlloc n => alloc_try n
  | OFree addr => free_kpages addr ;; mret None
  end.

(** [None] when the operation is not one a client may make: an empty block, or
    freeing what is not allocated. *)
Definition spec_op (f l : Z) (o : op) (B : gmap Z Z) : option (option Z * gmap Z Z) :=
  match o with
  | OAlloc n =>
      if 0 <? n then
        match first_fit f l B n with
        | Some s => Some (Some (PADDR_TO_KVADDR (PPAGE_TO_PADDR s)), <[s := n]> B)
        | None => Some (None, B)
        end
      else None
  | OFree addr =>
      let s := PADDR_TO_PPAGE (KVADDR_TO_PADDR addr) in
      if bool_decide (addr = PADDR_TO_KVADDR (PPAGE_TO_PADDR s)) then
        match B !! s with Some _ => Some (None, delete s B) | None => None end
      else None
  end.

Fixpoint run_code (ops : list op) : M coremap (list (option Z)) :=
  match ops with
  | [] => mret []
  | o :: ops => r ← code_op o; rs ← run_code ops; mret (r :: rs)
  end.

Fixpoint run_spec (f l : Z) (ops : list op) (B : gmap Z Z)
  : option (list (option Z) * gmap Z Z) :=
  match ops with
  | [] => Some ([], B)
  | o :: ops => '(r, B') ← spec_op f l o B; '(rs, B'') ← run_spec f l ops B';
                Some (r :: rs, B'')
  end.

Lemma wp_entry c p e Q : znth (entries c) p = Some e → Q e c → wp (entry p) Q c.
Proof. intros He HQ. unfold entry. wp_go. by eapply wp_deref. Qed.

Lemma wp_set_entry c p e e' Q :
  znth (entries c) p = Some e → Q tt (set_entries (zset (entries c) p e') c) →
  wp (set_entry p e') Q c.
Proof. intros He HQ. unfold set_entry. wp_go. eapply wp_entry; [done|]. by wp_go. Qed.

Lemma wp_is_pp_used c p Q :
  0 ≤ p < last_page c → Z.of_nat (length (entries c)) = last_page c →
  Q (is_used c p) c → wp (is_pp_used p) Q c.
Proof.
  intros Hp Hl HQ. unfold is_pp_used. wp_check.
  destruct (znth_is_Some (entries c) p) as [e He]; [lia|].
  eapply wp_entry; [done|]. wp_go. unfold is_used in HQ. by rewrite He in HQ.
Qed.

Lemma wp_cm_acquire c (Q : unit → coremap → Prop) :
  cm_spinlock c = false → Q tt (set_locked true c) → wp cm_acquire Q c.
Proof. intros Hl HQ. unfold cm_acquire. wp_go. rewrite Hl. by wp_check. Qed.

Lemma wp_cm_release c (Q : unit → coremap → Prop) :
  cm_spinlock c = true → Q tt (set_locked false c) → wp cm_release Q c.
Proof. intros Hl HQ. unfold cm_release. wp_go. rewrite Hl. by wp_check. Qed.

(** *** Searching *)

Section search.
Context (c : coremap) (B : gmap Z Z).
Hypothesis Hrange : 0 ≤ first_page c ≤ last_page c.
Hypothesis Hlen : Z.of_nat (length (entries c)) = last_page c.
Hypothesis Hused : ∀ p, first_page c ≤ p < last_page c → is_used c p = true ↔ in_block B p.

Lemma free_run_correct n p :
  first_page c ≤ p → p + Z.of_nat n ≤ last_page c →
  wp (free_run n p) (λ r c', c' = c ∧ 0 ≤ r ≤ Z.of_nat n ∧
    (∀ q, p ≤ q < p + r → ¬ in_block B q) ∧ (r < Z.of_nat n → in_block B (p + r))) c.
Proof.
  revert p. induction n as [|n IH]; intros p Hp Hn; simpl.
  { wp_go. split_and!; try done; lia. }
  wp_go. apply wp_is_pp_used; [lia|done|]. destruct (is_used c p) eqn:Hu.
  - wp_go. apply Hused in Hu; [|lia]. split_and!; try done; try lia.
    by rewrite Z.add_0_r.
  - wp_go. eapply wp_mono; [|apply IH; lia].
    intros r c' (-> & Hr & Hfree & Hstop). wp_go. split_and!; try done; try lia.
    + intros q Hq. destruct (decide (q = p)) as [->|].
      * rewrite <- Hused by lia. congruence.
      * apply Hfree. lia.
    + intros Hlt. replace (p + (1 + r)) with (p + 1 + r) by lia. apply Hstop. lia.
Qed.

(** No run of [n] free pages starts before [cur]. *)
Definition none_before (n cur : Z) : Prop := ∀ s, s < cur → ¬ free_at c B s n.

Lemma none_before_next n cur r :
  0 ≤ r < n → none_before n cur → in_block B (cur + r) → none_before n (cur + r + 1).
Proof.
  intros Hr Hnone Hin s Hs (H1 & H2 & Hfree).
  destruct (decide (s < cur)) as [Hlt|]; [by apply (Hnone s Hlt)|].
  apply (Hfree (cur + r)); [lia|done].
Qed.

Lemma find_loop_correct fuel n cur :
  0 < n → first_page c ≤ cur ≤ last_page c → last_page c - cur < Z.of_nat fuel →
  none_before n cur →
  wp (find_loop fuel n cur) (λ r c', c' = c ∧
    match r with
    | Ok s => free_at c B s n ∧ none_before n s
    | Err e => e = ENOMEM ∧ ∀ s, ¬ free_at c B s n
    end) c.
Proof.
  intros Hn. revert cur. induction fuel as [|fuel IH]; intros cur Hcur Hf Hnone; [lia|].
  simpl. wp_go. destruct (Z.leb_spec (cur + n) (last_page c)) as [Hle|Hgt].
  - wp_go. eapply wp_mono; [|apply free_run_correct; lia].
    intros r c' (-> & Hr & Hfree & Hstop). rewrite Z2Nat.id in Hr, Hstop by lia.
    destruct (Z.eqb_spec r n) as [->|Hne].
    + wp_go. split; [done|]. split; [|done]. split_and!; [lia|lia|done].
    + apply IH; [lia|lia|]. apply none_before_next; [lia|done|]. apply Hstop. lia.
  - wp_go. split_and!; try done. intros s Hs.
    destruct (decide (s < cur)) as [Hlt|]; [by apply (Hnone s Hlt)|].
    destruct Hs as (_ & Hs & _). lia.
Qed.

Lemma find_free_pp_correct n :
  0 < n →
  wp (find_free_pp n (first_page c)) (λ r c', c' = c ∧
    match r with
    | Ok s => free_at c B s n ∧ none_before n s
    | Err e => e = ENOMEM ∧ ∀ s, ¬ free_at c B s n
    end) c.
Proof.
  intros Hn. unfold find_free_pp. wp_go. rewrite !Z.gtb_ltb.
  destruct (Z.ltb_spec (last_page c) n) as [H1|H1]; cbn [orb];
    [|destruct (Z.ltb_spec (last_page c - n) (first_page c)) as [H2|H2]].
  3: { apply find_loop_correct; [done|lia|lia|]. intros s Hs (H3 & _). lia. }
  all: wp_go; split_and!; try done; intros s (H3 & H4 & _); lia.
Qed.
End search.

(** *** Taking pages *)

(** The entry of a page that has just been taken. *)
Definition taken (e : cm_entry) (p : Z) (last : bool) : cm_entry :=
  mkEntry true last (dirty e) true false None 0 p.
Definition freed (e : cm_entry) : cm_entry :=
  mkEntry false false (dirty e) false false None 0 (pp_num e).

Lemma wp_kalloc_ppage c p e (Q : unit → coremap → Prop) :
  znth (entries c) p = Some e →
  Q tt (set_count (cm_page_count c + 1) (set_entries (zset (entries c) p (taken e p false)) c)) →
  wp (kalloc_ppage p) Q c.
Proof.
  intros He HQ. unfold kalloc_ppage. wp_go. eapply wp_entry; [done|].
  wp_go. eapply wp_set_entry; [done|]. by wp_go.
Qed.

Definition same_but_entries (c c' : coremap) : Prop :=
  first_page c' = first_page c ∧ last_page c' = last_page c ∧
  cm_spinlock c' = cm_spinlock c ∧ length (entries c') = length (entries c).

Lemma wp_kalloc_loop c n s (Q : unit → coremap → Prop) :
  0 ≤ s → s + Z.of_nat n ≤ Z.of_nat (length (entries c)) →
  (∀ c', same_but_entries c c' → cm_page_count c' = cm_page_count c + Z.of_nat n →
     (∀ p, znth (entries c') p =
        if decide (s ≤ p < s + Z.of_nat n)
        then (λ e, taken e p false) <$> znth (entries c) p else znth (entries c) p) →
     Q tt c') →
  wp (for_loop n s kalloc_ppage) Q c.
Proof.
  intros Hs Hn HQ.
  apply (wp_for_loop (λ i c', same_but_entries c c' ∧
    cm_page_count c' = cm_page_count c + (i - s) ∧
    ∀ p, znth (entries c') p =
      if decide (s ≤ p < i) then (λ e, taken e p false) <$> znth (entries c) p
      else znth (entries c) p)).
  - split_and!; try done; [lia|]. intros p. by rewrite decide_False by lia.
  - intros i c' Hi ((Hf & Hl & Hk & Hlen) & Hc & Hp).
    destruct (znth_is_Some (entries c) i) as [e He]; [lia|].
    assert (znth (entries c') i = Some e) as He'.
    { rewrite Hp. by rewrite decide_False by lia. }
    eapply wp_kalloc_ppage; [done|]. split; [|split]; simpl.
    + split_and!; simpl; rewrite ?length_zset; done.
    + lia.
    + intros p. destruct (decide (p = i)) as [->|Hne].
      * rewrite znth_zset_eq by lia. rewrite decide_True by lia. by rewrite He.
      * rewrite znth_zset_ne, Hp by lia. repeat case_decide; first [done|lia].
  - intros c' (Hsame & Hc & Hp). apply HQ; [done|lia|done].
Qed.

Lemma is_used_entry c p e : znth (entries c) p = Some e → is_used c p = used e.
Proof. intros He. unfold is_used. by rewrite He. Qed.
Lemma is_end_entry c p e : znth (entries c) p = Some e → is_end c p = kmalloc_end e.
Proof. intros He. unfold is_end. by rewrite He. Qed.

(** The entries after taking the block of [n] pages at [s]. *)
Definition block_taken (c c' : coremap) (s n : Z) : Prop :=
  ∀ p, znth (entries c') p =
    if decide (s ≤ p < s + n)
    then (λ e, taken e p (bool_decide (p = s + n - 1))) <$> znth (entries c) p
    else znth (entries c) p.

Lemma in_block_insert B s n p :
  B !! s = None → in_block (<[s := n]> B) p ↔ s ≤ p < s + n ∨ in_block B p.
Proof.
  intros Hs. split.
  - intros (s' & n' & Hs' & Hp). destruct (decide (s' = s)) as [->|].
    + rewrite lookup_insert_eq in Hs'. injection Hs' as <-. by left.
    + rewrite lookup_insert_ne in Hs' by done. right. by exists s', n'.
  - intros [Hp|(s' & n' & Hs' & Hp)].
    + exists s, n. by rewrite lookup_insert_eq.
    + exists s', n'. rewrite lookup_insert_ne by congruence. done.
Qed.

Lemma blocks_take c c' B s n :
  blocks c B → 0 < n → free_at c B s n →
  same_but_entries c c' → cm_page_count c' = cm_page_count c + n →
  block_taken c c' s n → blocks c' (<[s := n]> B).
Proof.
  intros [Hr Hl Hk Hlow Hu Hb He Hd Hcnt] Hn (Hs1 & Hs2 & Hfree) (Hf' & Hl' & Hk' & Hlen') Hc Ht.
  assert (B !! s = None) as Hs.
  { destruct (B !! s) as [m|] eqn:Hm; [|done]. exfalso. apply (Hfree s); [lia|].
    exists s, m. destruct (Hb s m Hm). split; [done|lia]. }
  assert (∀ p, ¬ s ≤ p < s + n → znth (entries c') p = znth (entries c) p) as Hout.
  { intros p Hp. rewrite Ht. by rewrite decide_False. }
  assert (∀ p, s ≤ p < s + n → ∃ e, znth (entries c) p = Some e ∧
    znth (entries c') p = Some (taken e p (bool_decide (p = s + n - 1)))) as Hin.
  { intros p Hp. destruct (znth_is_Some (entries c) p) as [e Hx]; [lia|].
    exists e. split; [done|]. rewrite Ht, Hx. by rewrite decide_True. }
  constructor; rewrite ?Hf', ?Hl', ?Hk', ?Hlen'; try done.
  - intros p Hp. unfold is_used. rewrite Hout by lia. by apply Hlow.
  - intros p Hp. rewrite in_block_insert by done.
    destruct (decide (s ≤ p < s + n)) as [Hi|Ho].
    + destruct (Hin p Hi) as (e & _ & Hx). rewrite (is_used_entry _ _ _ Hx). simpl. tauto.
    + unfold is_used. rewrite Hout by done. fold (is_used c p). rewrite Hu by done. tauto.
  - intros s' n'. destruct (decide (s' = s)) as [->|].
    + rewrite lookup_insert_eq. intros [= <-]. lia.
    + rewrite lookup_insert_ne by done. apply Hb.
  - intros s' n' p. destruct (decide (s' = s)) as [->|].
    + rewrite lookup_insert_eq. intros [= <-] Hp. destruct (Hin p Hp) as (e & _ & Hx).
      rewrite (is_end_entry _ _ _ Hx). simpl. by rewrite bool_decide_eq_true.
    + rewrite lookup_insert_ne by done. intros Hs' Hp.
      assert (¬ s ≤ p < s + n) as Hno.
      { intros Hi. apply (Hfree p Hi). by exists s', n'. }
      unfold is_end. rewrite Hout by done. by apply He.
  - intros s1 n1 s2 n2. destruct (decide (s1 = s)) as [->|], (decide (s2 = s)) as [->|];
      rewrite ?lookup_insert_eq, ?lookup_insert_ne by done; intros H1 H2 Hlt; simplify_eq.
    + lia.
    + destruct (decide (n1 + s ≤ s2)); [lia|]. exfalso. apply (Hfree s2); [lia|].
      exists s2, n2. destruct (Hb _ _ H2). split; [done|lia].
    + destruct (decide (s1 + n1 ≤ s)); [done|]. exfalso. apply (Hfree s); [lia|].
      exists s1, n1. split; [done|lia].
    + by eapply Hd.
  - rewrite Hc, Hcnt, msum_insert by done. unfold id. lia.
Qed.

(** What [alloc_try] does: the lowest run that is long enough, or nothing. *)
Definition alloc_post (c : coremap) (B : gmap Z Z) (n : Z) (r : option Z) (c' : coremap) : Prop :=
  match r with
  | Some a => ∃ s, a = PADDR_TO_KVADDR (PPAGE_TO_PADDR s) ∧ free_at c B s n ∧
      none_before c B n s ∧ blocks c' (<[s := n]> B) ∧ same_but_entries c c' ∧
      block_taken c c' s n
  | None => c' = c ∧ ∀ s, ¬ free_at c B s n
  end.

Lemma alloc_try_correct c B n :
  blocks c B → 0 < n → wp (alloc_try n) (alloc_post c B n) c.
Proof.
  intros Hb Hn. pose proof Hb as [Hr Hl Hk Hlow Hu _ _ _ _].
  unfold alloc_try. wp_go. apply wp_cm_acquire; [done|]. wp_go.
  eapply wp_mono; [|apply (find_free_pp_correct (set_locked true c) B); done].
  intros [s|e] c1 (-> & Hs).
  2: { destruct Hs as [_ Hs]. wp_go. apply wp_cm_release; [done|]. wp_go.
       split; [|exact Hs]. destruct c; simpl in *. by rewrite Hk. }
  destruct Hs as [(Hs1 & Hs2 & Hfree) Hnone]. simpl in Hs1, Hs2. wp_go.
  apply wp_kalloc_loop; [lia|simpl; lia|]. rewrite Z2Nat.id by lia.
  intros c2 (Hf2 & Hl2 & Hk2 & Hlen2) Hc2 Hp2. simpl in *. wp_go.
  destruct (znth_is_Some (entries c) (s + n - 1)) as [e0 He0]; [lia|].
  assert (znth (entries c2) (s + n - 1) = Some (taken e0 (s + n - 1) false)) as He.
  { rewrite Hp2, He0. by rewrite decide_True by lia. }
  eapply wp_entry; [done|]. wp_go. eapply wp_set_entry; [done|]. wp_go.
  apply wp_cm_release; [done|]. wp_go.
  set (c3 := set_locked _ _).
  assert (same_but_entries c c3) as Hsame.
  { split_and!; simpl; rewrite ?length_zset; congruence. }
  assert (block_taken c c3 s n) as Ht.
  { intros p. simpl. destruct (decide (p = s + n - 1)) as [->|Hne].
    - rewrite znth_zset_eq by lia. rewrite decide_True by lia. rewrite He0. simpl.
      by rewrite bool_decide_true.
    - rewrite znth_zset_ne, Hp2 by lia. case_decide; [|done].
      by rewrite bool_decide_false. }
  exists s. split_and!; try done. eapply blocks_take; try done.
Qed.

(** *** Giving pages back *)

Definition block_freed (c c' : coremap) (s n : Z) : Prop :=
  ∀ p, znth (entries c') p =
    if decide (s ≤ p < s + n) then freed <$> znth (entries c) p else znth (entries c) p.

Lemma wp_free_ppage c p e (Q : unit → coremap → Prop) :
  first_page c ≤ p < last_page c → znth (entries c) p = Some e →
  Q tt (set_count (cm_page_count c - 1) (set_entries (zset (entries c) p (freed e)) c)) →
  wp (free_ppage p) Q c.
Proof.
  intros Hp He HQ. unfold free_ppage. wp_go. apply wp_KASSERT.
  { rewrite andb_true_iff, Z.leb_le, Z.ltb_lt. lia. }
  wp_go. eapply wp_entry; [done|]. wp_go. eapply wp_set_entry; [done|]. by wp_go.
Qed.

Lemma free_loop_correct fuel c curr e (Q : unit → coremap → Prop) :
  0 ≤ first_page c ≤ curr → curr ≤ e < last_page c →
  Z.of_nat (length (entries c)) = last_page c → e - curr < Z.of_nat fuel →
  (∀ p, curr ≤ p ≤ e → is_used c p = true ∧ (is_end c p = true ↔ p = e)) →
  (∀ c', same_but_entries c c' → cm_page_count c' = cm_page_count c - (e - curr + 1) →
     block_freed c c' curr (e - curr + 1) → Q tt c') →
  wp (free_loop fuel curr) Q c.
Proof.
  revert c curr. induction fuel as [|fuel IH]; intros c curr Hf Hc Hl Hfuel Hblk HQ; [lia|].
  simpl. wp_go. apply wp_is_pp_used; [lia|done|].
  destruct (Hblk curr) as [-> Hend]; [lia|]. wp_go.
  destruct (znth_is_Some (entries c) curr) as [en Hen]; [lia|].
  eapply wp_entry; [done|]. wp_go. eapply wp_free_ppage; [lia|done|].
  rewrite (is_end_entry _ _ _ Hen) in Hend.
  set (c1 := set_count _ _).
  assert (∀ p, znth (entries c1) p = if decide (p = curr) then Some (freed en) else znth (entries c) p)
    as Hc1.
  { intros p. simpl. case_decide as Hp.
    - rewrite Hp, znth_zset_eq by lia. done.
    - by rewrite znth_zset_ne by lia. }
  destruct (kmalloc_end en).
  - wp_go. assert (curr = e) as -> by (by apply Hend). apply HQ.
    + split_and!; simpl; rewrite ?length_zset; done.
    + simpl. lia.
    + intros p. rewrite Hc1. repeat case_decide; subst; try lia; [by rewrite Hen|done].
  - assert (curr ≠ e) as Hne by (intros He; by apply Hend in He). apply IH.
    + simpl. lia.
    + simpl. lia.
    + simpl. by rewrite length_zset.
    + lia.
    + intros p Hp. unfold is_used, is_end. rewrite Hc1.
      rewrite decide_False by lia. apply Hblk. lia.
    + intros c' (Hf' & Hl' & Hk' & Hlen') Hcnt Hfr. simpl in *. apply HQ.
      * split_and!; try done. by rewrite Hlen', length_zset.
      * lia.
      * intros p. rewrite Hfr, Hc1. repeat case_decide; subst; try lia; try done.
        by rewrite Hen.
Qed.

Lemma in_block_delete c B s n p :
  blocks c B → B !! s = Some n →
  in_block (delete s B) p ↔ in_block B p ∧ ¬ s ≤ p < s + n.
Proof.
  intros Hb Hs. split.
  - intros (s' & n' & [Hne Hs']%lookup_delete_Some & Hp). split; [by exists s', n'|].
    intros Hp'. destruct (decide (s < s')).
    + pose proof (b_disjoint _ _ Hb _ _ _ _ Hs Hs' ltac:(lia)). lia.
    + pose proof (b_disjoint _ _ Hb _ _ _ _ Hs' Hs ltac:(lia)). lia.
  - intros [(s' & n' & Hs' & Hp) Hno]. exists s', n'. split; [|done].
    apply lookup_delete_Some. split; [|done]. intros ->. rewrite Hs in Hs'. by simplify_eq.
Qed.

Lemma blocks_free c c' B s n :
  blocks c B → B !! s = Some n →
  same_but_entries c c' → cm_page_count c' = cm_page_count c - n →
  block_freed c c' s n → blocks c' (delete s B).
Proof.
  intros Hb Hs (Hf' & Hl' & Hk' & Hlen') Hc Ht.
  pose proof Hb as [Hr Hl Hk Hlow Hu Hblk He Hd Hcnt].
  destruct (Hblk s n Hs) as (Hn & Hs1 & Hs2).
  assert (∀ p, ¬ s ≤ p < s + n → znth (entries c') p = znth (entries c) p) as Hout.
  { intros p Hp. rewrite Ht. by rewrite decide_False. }
  constructor; rewrite ?Hf', ?Hl', ?Hk', ?Hlen'; try done.
  - intros p Hp. unfold is_used. rewrite Hout by lia. by apply Hlow.
  - intros p Hp. rewrite (in_block_delete c B s n) by done.
    destruct (decide (s ≤ p < s + n)) as [Hi|Ho].
    + unfold is_used. rewrite Ht, decide_True by done.
      destruct (znth_is_Some (entries c) p) as [e Hx]; [lia|]. rewrite Hx. simpl.
      split; [done|]. tauto.
    + unfold is_used. rewrite Hout by done. fold (is_used c p). rewrite Hu by done. tauto.
  - intros s' n' [_ Hs']%lookup_delete_Some. by apply Hblk.
  - intros s' n' p [Hne Hs']%lookup_delete_Some Hp.
    assert (¬ s ≤ p < s + n) as Hno.
    { apply (in_block_delete c B s n p Hb Hs). exists s', n'. split; [|done].
      by apply lookup_delete_Some. }
    unfold is_end. rewrite Hout by done. by apply He.
  - intros s1 n1 s2 n2 [_ H1]%lookup_delete_Some [_ H2]%lookup_delete_Some. by eapply Hd.
  - rewrite Hc, Hcnt. rewrite (msum_delete _ _ s n) by done. unfold id. lia.
Qed.

Lemma page_of_kvaddr s :
  PADDR_TO_PPAGE (KVADDR_TO_PADDR (PADDR_TO_KVADDR (PPAGE_TO_PADDR s))) = s.
Proof.
  unfold PADDR_TO_PPAGE, KVADDR_TO_PADDR, PADDR_TO_KVADDR, PPAGE_TO_PADDR, PAGE_SIZE.
  replace (s * 4096 + KSEG0 - KSEG0) with (s * 4096) by lia. apply Z.div_mul. lia.
Qed.

Lemma free_kpages_correct c B s n :
  blocks c B → B !! s = Some n →
  wp (free_kpages (PADDR_TO_KVADDR (PPAGE_TO_PADDR s))) (λ _ c',
    blocks c' (delete s B) ∧ same_but_entries c c' ∧ block_freed c c' s n) c.
Proof.
  intros Hb Hs. pose proof Hb as [Hr Hl Hk Hlow Hu Hblk He Hd Hcnt].
  destruct (Hblk s n Hs) as (Hn & Hs1 & Hs2).
  unfold free_kpages. wp_go. rewrite Hk. wp_go. apply wp_cm_acquire; [done|].
  wp_go. rewrite page_of_kvaddr.
  apply (free_loop_correct _ _ _ (s + n - 1)); simpl; try lia.
  - intros p Hp. split; [apply Hu; [lia|]; exists s, n; split; [done|lia]|].
    apply (He s n p Hs). lia.
  - intros c1 (Hf1 & Hl1 & Hk1 & Hlen1) Hc1 Hfr. simpl in *. wp_go.
    apply wp_cm_release; [done|].
    replace (s + n - 1 - s + 1) with n in * by lia.
    assert (same_but_entries c (set_locked false c1)) as Hsame by (split_and!; simpl; congruence).
    split_and!; try done. by eapply blocks_free.
Qed.

#[global] Arguments find_loop : simpl never.
#[global] Arguments free_loop : simpl never.

(** ** Boot *)

Definition ram_ok (r : ram) : Prop :=
  0 < firstpaddr r ≤ lastpaddr r ∧ firstpaddr r mod PAGE_SIZE = 0 ∧ lastpaddr r mod PAGE_SIZE = 0 ∧
  lastpaddr r < 2 ^ 32.

(** Where the coremap ends. *)
Definition coremap_end (r : ram) : Z :=
  firstpaddr r + sizeof_coremap + (lastpaddr r / PAGE_SIZE) * sizeof_cm_entry.

(** The last part of [vm_bootstrap]: the pages below the first free one. *)
Lemma low_pages_taken first total :
  0 ≤ first ≤ total →
  wp (for_loop (Z.to_nat first) 0 kalloc_ppage ;; cm_release)
    (λ _ c, (blocks c ∅ ∧ (∀ p e, znth (entries c) p = Some e → owner e = None)) ∧
       first_page c = first ∧ last_page c = total)
    (set_locked true (mkCoremap (replicate (Z.to_nat total) empty_entry) first total 0 false)).
Proof.
  intros Hft. assert (Z.of_nat (length (replicate (Z.to_nat total) empty_entry)) = total) as Hlen.
  { rewrite length_replicate. lia. }
  assert (∀ p e, znth (replicate (Z.to_nat total) empty_entry) p = Some e → e = empty_entry) as He.
  { intros p e Hp. by apply znth_elem, elem_of_replicate in Hp as [? _]. }
  wp_go. apply wp_kalloc_loop; [lia|simpl; lia|]. rewrite Z2Nat.id by lia.
  intros c1 (Hf1 & Hl1 & Hk1 & Hlen1) Hc1 Hp. simpl in *.
  apply wp_cm_release; [done|]. split; [|done]. split.
  - constructor; simpl; rewrite ?Hf1, ?Hl1, ?Hlen1; try done.
    + intros p Hpr. unfold is_used. simpl. rewrite Hp, decide_True by lia.
      rewrite znth_replicate by lia. done.
    + intros p Hpr. unfold is_used. simpl. rewrite Hp, decide_False by lia.
      rewrite znth_replicate by lia. split; [done|]. by intros (? & ? & ? & _).
    + rewrite Hc1, msum_empty. lia.
  - intros p e. simpl. rewrite Hp. case_decide; [|by intros ->%He].
    destruct (znth _ p); [|done]. by intros [= <-].
Qed.

Lemma vm_bootstrap_correct r :
  ram_ok r → coremap_end r + PAGE_SIZE ≤ lastpaddr r →
  ∃ c, vm_bootstrap r = Done c ∧ blocks c ∅ ∧
    last_page c = lastpaddr r / PAGE_SIZE ∧ coremap_end r ≤ PPAGE_TO_PADDR (first_page c) ∧
    (∀ p e, znth (entries c) p = Some e → owner e = None).
Proof.
  intros (H0 & Hf & Hl & Hmax) Hend. unfold vm_bootstrap, ram_getsize.
  set (total := lastpaddr r / PAGE_SIZE).
  set (pages := (sizeof_coremap + total * sizeof_cm_entry + PAGE_SIZE - 1) / PAGE_SIZE).
  unfold coremap_end, sizeof_coremap, sizeof_cm_entry in *. fold total in Hend |- *.
  assert (0 ≤ total) as Ht by (apply Z.div_pos; unfold PAGE_SIZE in *; lia).
  assert (pages * PAGE_SIZE < 4 + total * 20 + PAGE_SIZE ∧
          4 + total * 20 ≤ pages * PAGE_SIZE) as [Hp1 Hp2].
  { unfold pages, PAGE_SIZE.
    pose proof (Z.div_mod (4 + total * 20 + 4096 - 1) 4096).
    pose proof (Z.mod_pos_bound (4 + total * 20 + 4096 - 1) 4096). lia. }
  unfold ram_stealmem. rewrite Z.gtb_ltb, (proj2 (Z.ltb_ge _ _)) by lia. simpl fst; simpl snd.
  replace (0 * PAGE_SIZE) with 0 by lia. cbn [firstpaddr lastpaddr].
  rewrite Z.gtb_ltb, (proj2 (Z.ltb_ge _ _)) by lia. cbn [fst].
  rewrite (proj2 (Z.eqb_neq (firstpaddr r) 0)) by lia.
  assert ((firstpaddr r + pages * PAGE_SIZE) mod PAGE_SIZE = 0) as Hal.
  { rewrite Z.mod_add by done. done. }
  unfold PADDR_TO_PPAGE. fold total.
  set (first := (firstpaddr r + pages * PAGE_SIZE) / PAGE_SIZE).
  assert (first * PAGE_SIZE = firstpaddr r + pages * PAGE_SIZE) as Hfirst.
  { pose proof (Z.div_mod (firstpaddr r + pages * PAGE_SIZE) PAGE_SIZE ltac:(done)). lia. }
  assert (total * PAGE_SIZE = lastpaddr r) as Htotal.
  { pose proof (Z.div_mod (lastpaddr r) PAGE_SIZE ltac:(done)). lia. }
  assert (0 ≤ first ≤ total) as Hft by (unfold PAGE_SIZE in *; nia).
  set (c0 := mkCoremap _ first total 0 false).
  assert (wp (KASSERT (negb false) ;; KASSERT ((firstpaddr r + pages * PAGE_SIZE) mod PAGE_SIZE =? 0) ;;
     cm_acquire ;; for_loop (Z.to_nat first) 0 kalloc_ppage ;; cm_release)
     (λ _ c, (blocks c ∅ ∧ (∀ p e, znth (entries c) p = Some e → owner e = None)) ∧
       first_page c = first ∧ last_page c = total) c0) as Hwp.
  { rewrite Hal. wp_check. wp_check. apply wp_cm_acquire; [done|].
    by apply low_pages_taken. }
  apply wp_done in Hwp as ([] & c & Hrun & [Hb Ho] & Hfc & Hlc).
  rewrite Hrun. exists c. split_and!; [done..| |done]. rewrite Hfc. unfold PPAGE_TO_PADDR. lia.
Qed.

(** ** Refinement of the first-fit allocator *)

Lemma covered_spec B p : covered B p = true ↔ in_block B p.
Proof.
  unfold covered, in_block. rewrite existsb_exists. split.
  - intros ([s n] & Hin & Hp). simpl in Hp.
    apply andb_true_iff in Hp as [H1%Z.leb_le H2%Z.ltb_lt].
    apply list_elem_of_In, elem_of_map_to_list in Hin. by exists s, n.
  - intros (s & n & Hs & Hp). exists (s, n). split.
    + by apply list_elem_of_In, elem_of_map_to_list.
    + simpl. apply andb_true_iff. rewrite Z.leb_le, Z.ltb_lt. lia.
Qed.

Lemma fits_spec B n s : fits B n s = true ↔ ∀ p, s ≤ p < s + n → ¬ in_block B p.
Proof.
  unfold fits. rewrite forallb_forall. split.
  - intros Hall p Hp. rewrite <- covered_spec. specialize (Hall p).
    rewrite <- list_elem_of_In, elem_of_seqZ in Hall. specialize (Hall Hp).
    by destruct (covered B p).
  - intros Hall p Hp. apply list_elem_of_In, elem_of_seqZ in Hp. specialize (Hall p Hp).
    rewrite <- covered_spec in Hall. by destruct (covered B p).
Qed.

Lemma first_fit_Some c B n s :
  0 < n → free_at c B s n → none_before c B n s →
  first_fit (first_page c) (last_page c) B n = Some s.
Proof.
  intros Hn (H1 & H2 & H3) Hnone. apply head_filter_seqZ_Some; [lia|by apply fits_spec|].
  intros j Hj Hfit. apply (Hnone j); [lia|]. split_and!; [lia|lia|by apply fits_spec].
Qed.

Lemma first_fit_None c B n :
  (∀ s, ¬ free_at c B s n) → first_fit (first_page c) (last_page c) B n = None.
Proof.
  intros Hnone. apply head_filter_seqZ_None. intros j Hj Hfit. apply (Hnone j).
  split_and!; [lia|lia|by apply fits_spec].
Qed.

Lemma code_op_refines_blocks c B o r B' :
  blocks c B → spec_op (first_page c) (last_page c) o B = Some (r, B') →
  ∃ c', code_op o c = Done (r, c') ∧ blocks c' B' ∧
    first_page c' = first_page c ∧ last_page c' = last_page c.
Proof.
  intros Hb Hs. destruct o as [n|addr]; simpl in *.
  - destruct (Z.ltb_spec 0 n) as [Hn|]; [|done].
    destruct (proj1 (wp_done _ _ _) (alloc_try_correct c B n Hb Hn)) as (r' & c' & Hrun & Hp).
    rewrite Hrun. destruct r' as [a|].
    + destruct Hp as (s & -> & Hfree & Hnone & Hb' & (Hf & Hl & _) & _).
      rewrite (first_fit_Some c B n s) in Hs by done. injection Hs as <- <-. eauto.
    + destruct Hp as [-> Hnone]. rewrite first_fit_None in Hs by done.
      injection Hs as <- <-. eauto.
  - case_bool_decide as Ha; [|done].
    destruct (B !! _) as [n|] eqn:Hn; [|done]. injection Hs as <- <-.
    destruct (proj1 (wp_done _ _ _) (free_kpages_correct c B _ n Hb Hn))
      as ([] & c' & Hrun & Hb' & (Hf & Hl & _) & _).
    rewrite <- Ha in Hrun. unfold mbind, M_bind. rewrite Hrun. eauto.
Qed.

Lemma run_code_refines_blocks ops c B rs B' :
  blocks c B → run_spec (first_page c) (last_page c) ops B = Some (rs, B') →
  ∃ c', run_code ops c = Done (rs, c') ∧ blocks c' B'.
Proof.
  revert c B rs. induction ops as [|o ops IH]; intros c B rs Hb Hs; simpl in *.
  { injection Hs as <- <-. eauto. }
  destruct (spec_op (first_page c) (last_page c) o B) as [[r B1]|] eqn:Ho; [|done].
  simpl in Hs. destruct (run_spec _ _ ops B1) as [[rs1 B2]|] eqn:Hr; [|done].
  injection Hs as <- <-.
  destruct (code_op_refines_blocks c B o r B1 Hb Ho) as (c1 & Hrun & Hb1 & Hf & Hl).
  rewrite <- Hf, <- Hl in Hr. destruct (IH c1 B1 rs1 Hb1 Hr) as (c2 & Hrun2 & Hb2).
  exists c2. unfold mbind, M_bind. rewrite Hrun, Hrun2. done.
Qed.

(** The coremap implements a first-fit page allocator.  After
    [vm_bootstrap], which completes whenever the coremap fits into memory and
    keeps the memory of the coremap itself out of the managed range, every
    sequence of page allocations and frees of allocated blocks runs without a
    failed assertion and gives the addresses a first-fit allocator over
    disjoint blocks gives; an allocation fails exactly when no run of free pages
    is long enough, and [cm_page_count] is the number of pages in use. *)
Theorem coremap_first_fit r ops rs B :
  ram_ok r → coremap_end r + PAGE_SIZE ≤ lastpaddr r →
  ∃ c, vm_bootstrap r = Done c ∧ coremap_end r ≤ PPAGE_TO_PADDR (first_page c) ∧
    (run_spec (first_page c) (lastpaddr r / PAGE_SIZE) ops ∅ = Some (rs, B) →
     ∃ c', run_code ops c = Done (rs, c') ∧ blocks c' B).
Proof.
  intros Hr Hend. destruct (vm_bootstrap_correct r Hr Hend) as (c & Hc & Hb & Hl & Hf & _).
  exists c. split_and!; [done..|]. rewrite <- Hl. by apply run_code_refines_blocks.
Qed.

(** Sixteen pages of memory, the kernel in the first two, the coremap in the
    third. *)
Lemma coremap_first_fit_witness :
  let kv p := PADDR_TO_KVADDR (PPAGE_TO_PADDR p) in
  let ops := [OAlloc 2; OAlloc 1; OFree (kv 3); OAlloc 3; OAlloc 2; OAlloc 20] in
  let rs := [Some (kv 3); Some (kv 5); None; Some (kv 6); Some (kv 3); None] in
  run_spec 3 16 ops ∅ = Some (rs, {[ 3 := 2; 5 := 1; 6 := 3 ]}) ∧
  ∃ c, vm_bootstrap (mkRam 8192 65536) = Done c ∧
    8192 + 4 + 16 * 20 ≤ PPAGE_TO_PADDR (first_page c) ∧
    (run_spec (first_page c) 16 ops ∅ = Some (rs, {[ 3 := 2; 5 := 1; 6 := 3 ]}) →
     ∃ c', run_code ops c = Done (rs, c') ∧ blocks c' {[ 3 := 2; 5 := 1; 6 := 3 ]}).
Proof.
  intros kv ops rs. split; [vm_compute; reflexivity|].
  apply (coremap_first_fit (mkRam 8192 65536) ops rs).
  - split_and!; simpl; first [lia | reflexivity].
  - vm_compute. discriminate.
Defined.

End Coremap.
