(* ===== verification/PageTable.v ===== *)
(** * Page tables (kern/vm/pagetable.c, kern/include/pagetable.h)

    The two-level table as data: indices, lookup and the update of an entry.
    The operations that also allocate memory are in Vm.v and AddrSpace.v. *)

From Stdlib Require Import ZArith Lia.
From stdpp Require Import base numbers list.
From S2P Require Import Prelude.

Module PageTable.

Definition L1_SIZE : Z := 1024.
Definition L2_SIZE : Z := 1024.
Definition L1_PAGE_MASK : Z := 4190208. (* 0x003ff000 *)
Definition PAGE_FRAME : Z := 4294963200. (* 0xfffff000 *)

Definition GET_L2_INDEX (vaddr : Z) : Z := Z.shiftr vaddr 22.
Definition GET_L1_INDEX (vaddr : Z) : Z := Z.shiftr (Z.land vaddr L1_PAGE_MASK) 12.

Definition SWAP_OFFSET_NONE : Z := -1.

Record pte := mkPte {
  valid : bool;
  in_mem : bool;
  readonly : bool;
  pte_dirty : bool;
  swap_offset : Z;
  ppn : Z;
}.

(** What [bzero] leaves in a new second-level table. *)
Definition zero_pte : pte := mkPte false false false false 0 0.

Abbreviation l2_ptable := (list pte).

(** [l2_entries], with [None] for null: the address of a second-level table, and
    the table. *)
Abbreviation pagetable := (list (option (Z * list pte))).

Definition pagetable_empty : pagetable := replicate (Z.to_nat L1_SIZE) None.
Definition l2_empty : l2_ptable := replicate (Z.to_nat L2_SIZE) zero_pte.

(** The entry itself; the code returns its address, through which [pt_store]
    changes it. [None] is the null pointer. *)
Definition pagetable_lookup (pt : pagetable) (vaddr : Z) : option pte :=
  match znth pt (GET_L1_INDEX vaddr) with
  | Some (Some (_, l2)) => znth l2 (GET_L2_INDEX vaddr)
  | _ => None
  end.

Definition pt_store (pt : pagetable) (vaddr : Z) (e : pte) : pagetable :=
  match znth pt (GET_L1_INDEX vaddr) with
  | Some (Some (addr, l2)) =>
      zset pt (GET_L1_INDEX vaddr) (Some (addr, zset l2 (GET_L2_INDEX vaddr) e))
  | _ => pt
  end.

(** Whether [pagetable_insert] has to make a new second-level table, and the
    table with it in place, at [addr]. *)
Definition needs_l2 (pt : pagetable) (vaddr : Z) : bool :=
  match znth pt (GET_L1_INDEX vaddr) with Some (Some _) => false | _ => true end.
Definition pt_add_l2 (pt : pagetable) (vaddr addr : Z) : pagetable :=
  zset pt (GET_L1_INDEX vaddr) (Some (addr, l2_empty)).

(** The entry [pagetable_insert] writes. *)
Definition new_pte (paddr : Z) (ro : bool) : pte :=
  mkPte true true ro false SWAP_OFFSET_NONE (paddr / 4096).

(** ** The table as a map from pages to valid entries *)

Record pt_wf (pt : pagetable) : Prop := {
  pt_len : Z.of_nat (length pt) = L1_SIZE;
  pt_l2 : ∀ i addr l2, znth pt i = Some (Some (addr, l2)) → Z.of_nat (length l2) = L2_SIZE;
}.

Definition mapped (pt : pagetable) (vaddr : Z) : option pte :=
  match pagetable_lookup pt vaddr with
  | Some e => if valid e then Some e else None
  | None => None
  end.

Definition is_vaddr (v : Z) : Prop := 0 ≤ v < 2 ^ 32.

(** The indices are the two halves of the page number. *)
Lemma l1_index_eq v : is_vaddr v → GET_L1_INDEX v = (v / 4096) mod 1024.
Proof.
  intros Hv. unfold GET_L1_INDEX, L1_PAGE_MASK.
  rewrite Z.shiftr_land. change (Z.shiftr 4190208 12) with (Z.ones 10).
  rewrite Z.land_ones by lia. rewrite Z.shiftr_div_pow2 by lia. done.
Qed.

Lemma l2_index_eq v : is_vaddr v → GET_L2_INDEX v = (v / 4096) / 1024.
Proof.
  intros Hv. unfold GET_L2_INDEX. rewrite Z.shiftr_div_pow2 by lia.
  rewrite Z.div_div by lia. done.
Qed.

Lemma index_range v :
  is_vaddr v → 0 ≤ GET_L1_INDEX v < L1_SIZE ∧ 0 ≤ GET_L2_INDEX v < L2_SIZE.
Proof.
  intros Hv. rewrite l1_index_eq, l2_index_eq by done. unfold is_vaddr in Hv.
  unfold L1_SIZE, L2_SIZE. pose proof (Z.mod_pos_bound (v / 4096) 1024).
  split; [lia|]. rewrite Z.div_div by lia. split; [apply Z.div_pos; lia|].
  apply Z.div_lt_upper_bound; lia.
Qed.

(** Different pages have different places in the table. *)
Lemma index_inj v v' :
  is_vaddr v → is_vaddr v' →
  GET_L1_INDEX v = GET_L1_INDEX v' → GET_L2_INDEX v = GET_L2_INDEX v' →
  v / 4096 = v' / 4096.
Proof.
  intros Hv Hv'. rewrite !l1_index_eq, !l2_index_eq by done. intros H1 H2.
  rewrite (Z.div_mod (v / 4096) 1024), (Z.div_mod (v' / 4096) 1024) by lia. congruence.
Qed.

Lemma index_same v v' :
  is_vaddr v → is_vaddr v' → v / 4096 = v' / 4096 →
  GET_L1_INDEX v = GET_L1_INDEX v' ∧ GET_L2_INDEX v = GET_L2_INDEX v'.
Proof.
  intros Hv Hv' He. by rewrite !l1_index_eq, !l2_index_eq, He by done.
Qed.

(** [vaddr & PAGE_FRAME] is the address of the page. *)
Lemma page_frame_eq v : is_vaddr v → Z.land v PAGE_FRAME = v / 4096 * 4096.
Proof.
  intros Hv. unfold PAGE_FRAME.
  change 4294963200 with (Z.lxor (Z.ones 32) (Z.ones 12)).
  change 4096 with (2 ^ 12) at 1 2. rewrite <- Z.shiftr_div_pow2, <- Z.shiftl_mul_pow2 by lia.
  apply Z.bits_inj'. intros k Hk.
  rewrite Z.land_spec, Z.lxor_spec, Z.shiftl_spec by lia.
  destruct (decide (k < 12)).
  - rewrite !Z.ones_spec_low by lia. rewrite (Z.testbit_neg_r _ (k - 12)) by lia.
    by rewrite andb_false_r.
  - rewrite (Z.ones_spec_high 12) by lia. rewrite Z.shiftr_spec by lia.
    replace (k - 12 + 12) with k by lia. destruct (decide (k < 32)).
    + rewrite Z.ones_spec_low by lia. by rewrite andb_true_r.
    + assert (Z.testbit v k = false) as ->; [|done].
      destruct Hv. destruct (decide (v = 0)) as [->|]; [apply Z.testbit_0_l|].
      apply Z.bits_above_log2; [done|]. apply Z.log2_lt_pow2; [lia|].
      assert (2 ^ 32 ≤ 2 ^ k) by (apply Z.pow_le_mono_r; lia). lia.
Qed.

Lemma is_vaddr_page v : is_vaddr v → is_vaddr (v / 4096 * 4096).
Proof.
  unfold is_vaddr. intros Hv. pose proof (Z.div_mod v 4096). pose proof (Z.mod_pos_bound v 4096).
  pose proof (Z.div_pos v 4096). lia.
Qed.

Lemma page_idem v : (v / 4096 * 4096) / 4096 = v / 4096.
Proof. apply Z.div_mul. lia. Qed.

(** *** Lookup after an update *)

Lemma lookup_page pt v v' :
  is_vaddr v → is_vaddr v' → v / 4096 = v' / 4096 →
  pagetable_lookup pt v = pagetable_lookup pt v'.
Proof.
  intros Hv Hv' He. destruct (index_same v v' Hv Hv' He) as [H1 H2].
  unfold pagetable_lookup. by rewrite H1, H2.
Qed.

Lemma mapped_page pt v v' :
  is_vaddr v → is_vaddr v' → v / 4096 = v' / 4096 → mapped pt v = mapped pt v'.
Proof. intros. unfold mapped. by rewrite (lookup_page pt v v'). Qed.

Lemma lookup_store pt v v' e e0 :
  is_vaddr v → is_vaddr v' → pagetable_lookup pt v = Some e0 →
  pagetable_lookup (pt_store pt v e) v' =
    if decide (v / 4096 = v' / 4096) then Some e else pagetable_lookup pt v'.
Proof.
  intros Hv Hv' H0. destruct (index_range v Hv) as [Hr1 Hr2].
  unfold pagetable_lookup in H0. destruct (znth pt (GET_L1_INDEX v)) as [[[ad l2]|]|] eqn:Hl1; try done.
  pose proof (znth_Some_range _ _ _ Hl1). pose proof (znth_Some_range _ _ _ H0).
  unfold pt_store, pagetable_lookup. rewrite Hl1.
  destruct (decide (GET_L1_INDEX v = GET_L1_INDEX v')) as [E1|N1].
  - rewrite <- E1, znth_zset_eq, Hl1 by lia.
    destruct (decide (GET_L2_INDEX v = GET_L2_INDEX v')) as [E2|N2].
    + rewrite decide_True by (by apply index_inj). by rewrite <- E2, znth_zset_eq.
    + rewrite decide_False by (intros He; by destruct (index_same v v' Hv Hv' He)).
      by rewrite znth_zset_ne by lia.
  - rewrite decide_False by (intros He; by destruct (index_same v v' Hv Hv' He)).
    by rewrite znth_zset_ne by lia.
Qed.

Lemma mapped_store pt v v' e e0 :
  is_vaddr v → is_vaddr v' → pagetable_lookup pt v = Some e0 → valid e = true →
  mapped (pt_store pt v e) v' =
    if decide (v / 4096 = v' / 4096) then Some e else mapped pt v'.
Proof.
  intros Hv Hv' H0 He. unfold mapped. rewrite (lookup_store pt v v' e e0) by done.
  case_decide; [by rewrite He|done].
Qed.

Lemma mapped_store_invalid pt v v' e e0 :
  is_vaddr v → is_vaddr v' → pagetable_lookup pt v = Some e0 → valid e = false →
  mapped (pt_store pt v e) v' = if decide (v / 4096 = v' / 4096) then None else mapped pt v'.
Proof.
  intros Hv Hv' H0 He. unfold mapped. rewrite (lookup_store pt v v' e e0) by done.
  case_decide; [by rewrite He|done].
Qed.

Lemma pt_store_store pt v e e' : pt_store (pt_store pt v e) v e' = pt_store pt v e'.
Proof.
  unfold pt_store. destruct (znth pt (GET_L1_INDEX v)) as [[[ad l2]|]|] eqn:Hl1; rewrite ?Hl1; try done.
  rewrite znth_zset_eq by (by eapply znth_Some_range). by rewrite !zset_zset.
Qed.

Lemma pt_wf_store pt v e : pt_wf pt → pt_wf (pt_store pt v e).
Proof.
  intros [Hl H2]. unfold pt_store.
  destruct (znth pt (GET_L1_INDEX v)) as [[[ad l2]|]|] eqn:Hl1; [|by constructor..].
  pose proof (znth_Some_range _ _ _ Hl1).
  constructor; rewrite ?length_zset; [done|]. intros i ad' l2' Hi.
  destruct (decide (GET_L1_INDEX v = i)) as [<-|].
  - rewrite znth_zset_eq in Hi by done. injection Hi as <- <-. rewrite length_zset. by eapply H2.
  - rewrite znth_zset_ne in Hi by lia. by eapply H2.
Qed.

(** *** Adding a second-level table *)

Lemma lookup_add_l2 pt v addr :
  pt_wf pt → is_vaddr v → needs_l2 pt v = true →
  pt_wf (pt_add_l2 pt v addr) ∧ pagetable_lookup (pt_add_l2 pt v addr) v = Some zero_pte ∧
  ∀ v', is_vaddr v' → mapped (pt_add_l2 pt v addr) v' = mapped pt v'.
Proof.
  intros [Hl H2] Hv Hn. destruct (index_range v Hv) as [Hr1 Hr2].
  assert (Z.of_nat (length l2_empty) = L2_SIZE) as Hl2 by done.
  unfold pt_add_l2. split_and!.
  - constructor; rewrite ?length_zset; [done|]. intros i ad' l2' Hi.
    destruct (decide (GET_L1_INDEX v = i)) as [<-|].
    + rewrite znth_zset_eq in Hi by lia. by injection Hi as <- <-.
    + rewrite znth_zset_ne in Hi by lia. by eapply H2.
  - unfold pagetable_lookup. rewrite znth_zset_eq by lia.
    apply znth_replicate. unfold L2_SIZE in *. lia.
  - intros v' Hv'. destruct (index_range v' Hv') as [Hr1' Hr2'].
    unfold mapped, pagetable_lookup.
    destruct (decide (GET_L1_INDEX v = GET_L1_INDEX v')) as [<-|].
    + rewrite znth_zset_eq by lia. unfold l2_empty.
      rewrite znth_replicate by (unfold L2_SIZE in *; lia). simpl.
      unfold needs_l2 in Hn. by destruct (znth pt (GET_L1_INDEX v)) as [[|]|].
    + by rewrite znth_zset_ne by lia.
Qed.

Lemma lookup_no_l2 pt v :
  pt_wf pt → is_vaddr v → needs_l2 pt v = false → ∃ e, pagetable_lookup pt v = Some e.
Proof.
  intros [Hl H2] Hv Hn. destruct (index_range v Hv) as [Hr1 Hr2].
  unfold needs_l2, pagetable_lookup in *.
  destruct (znth pt (GET_L1_INDEX v)) as [[[ad l2]|]|] eqn:Hl1; try done.
  apply znth_is_Some. rewrite (H2 _ _ _ Hl1). done.
Qed.

Lemma pt_wf_empty : pt_wf pagetable_empty.
Proof.
  constructor; [done|]. intros i ad l2 Hi. pose proof (znth_elem _ _ _ Hi) as Hin.
  apply elem_of_replicate in Hin. by destruct Hin.
Qed.

Lemma mapped_empty v : is_vaddr v → mapped pagetable_empty v = None.
Proof.
  intros Hv. destruct (index_range v Hv) as [Hr1 _]. unfold mapped, pagetable_lookup.
  unfold pagetable_empty. rewrite znth_replicate; [done|]. unfold L1_SIZE in *. lia.
Qed.

#[global] Arguments pagetable_empty : simpl never.
#[global] Arguments l2_empty : simpl never.

End PageTable.
