(* ===== verification/Tlb.v ===== *)
(** * The TLB (kern/arch/mips/vm/vm.c, kern/arch/mips/include/tlb.h)

    The MMU's 64 entries, the hardware operations on them as tlb.h documents
    them, and the code that fills and invalidates them. *)

From Stdlib Require Import ZArith Lia.
From stdpp Require Import base numbers list.
From S2P Require Import Prelude.

Module Tlb.

Definition NUM_TLB : Z := 64.
Definition TLBHI_VPAGE : Z := 4294963200. (* 0xfffff000 *)
Definition TLBLO_PPAGE : Z := 4294963200. (* 0xfffff000 *)
Definition TLBLO_DIRTY : Z := 1024.       (* 0x00000400 *)
Definition TLBLO_VALID : Z := 512.        (* 0x00000200 *)

(** Addresses that never match, one per entry. *)
Definition TLBHI_INVALID (entryno : Z) : Z := Z.shiftl (524288 + entryno) 12.
Definition TLBLO_INVALID : Z := 0.

Record tlb := mkTlb {
  slots : list (Z * Z);
  tlb_next_victim : Z;
  tlb_spinlock : bool;
}.

(** The hardware: [tlb_read], [tlb_write], and [tlb_probe], which gives the
    entry for a page, or -1. *)
Definition tlb_read (i : Z) : M tlb (Z * Z) := l ← gets slots; deref (znth l i).
Definition tlb_write (hi lo i : Z) : M tlb unit :=
  _ ← tlb_read i;
  modify (λ t, mkTlb (zset (slots t) i (hi, lo)) (tlb_next_victim t) (tlb_spinlock t)).
Definition tlb_probe (hi : Z) : M tlb Z :=
  l ← gets slots;
  mret (match list_find (λ e, Z.land (fst e) TLBHI_VPAGE = hi) l with
        | Some (i, _) => Z.of_nat i
        | None => -1
        end).

Definition tlb_acquire : M tlb unit :=
  b ← gets tlb_spinlock; KASSERT (negb b) ;;
  modify (λ t, mkTlb (slots t) (tlb_next_victim t) true).
Definition tlb_release : M tlb unit :=
  b ← gets tlb_spinlock; KASSERT b ;;
  modify (λ t, mkTlb (slots t) (tlb_next_victim t) false).

Definition tlb_insert_entry (entryhi entrylo : Z) : M tlb unit :=
  r ← for_return (Z.to_nat NUM_TLB) 0 (λ i,
    '(hi, lo) ← tlb_read i;
    if Z.land lo TLBLO_VALID =? 0 then
      tlb_write entryhi entrylo i ;; mret (Some tt)
    else mret None);
  match r with
  | Some _ => mret tt
  | None =>
      v ← gets tlb_next_victim;
      tlb_write entryhi entrylo v ;;
      modify (λ t, mkTlb (slots t) ((tlb_next_victim t + 1) mod NUM_TLB) (tlb_spinlock t))
  end.

Definition flush_loop : M tlb unit :=
  for_loop (Z.to_nat NUM_TLB) 0 (λ i, tlb_write (TLBHI_INVALID i) TLBLO_INVALID i).

Definition vm_tlbshootdown_all : M tlb unit :=
  tlb_acquire ;; flush_loop ;; tlb_release.

(** [as_activate], for a process that has an address space. *)
Definition as_activate : M tlb unit :=
  tlb_acquire ;; flush_loop ;; tlb_release.

Definition vm_tlbshootdown (vaddr : Z) : M tlb unit :=
  tlb_acquire ;;
  idx ← tlb_probe (Z.land vaddr TLBHI_VPAGE);
  (if idx >=? 0 then tlb_write (TLBHI_INVALID idx) TLBLO_INVALID idx else mret tt) ;;
  tlb_release.

(** ** The translations the TLB gives *)

Definition vpage (e : Z * Z) : Z := Z.land (fst e) TLBHI_VPAGE.
Definition is_valid (e : Z * Z) : bool := negb (Z.land (snd e) TLBLO_VALID =? 0).

(** [maps t p lo]: the page at [p] is translated by an entry with low word [lo]. *)
Definition maps (t : tlb) (p lo : Z) : Prop :=
  ∃ i e, znth (slots t) i = Some e ∧ vpage e = p ∧ is_valid e = true ∧ snd e = lo.

(** No two valid entries are for the same page (the hardware forbids it). *)
Record tlb_wf (t : tlb) : Prop := {
  t_len : Z.of_nat (length (slots t)) = NUM_TLB;
  t_victim : 0 ≤ tlb_next_victim t < NUM_TLB;
  t_unique : ∀ i j e e', znth (slots t) i = Some e → znth (slots t) j = Some e' →
    vpage e = vpage e' → i = j;
  t_user : ∀ i e, znth (slots t) i = Some e → is_valid e = true → 0 ≤ vpage e < 2 ^ 31;
  t_invalid : ∀ i e, znth (slots t) i = Some e → is_valid e = false → e = (TLBHI_INVALID i, TLBLO_INVALID);
}.

Lemma wp_tlb_read t i e Q : znth (slots t) i = Some e → Q e t → wp (tlb_read i) Q t.
Proof. intros He HQ. unfold tlb_read. wp_go. by eapply wp_deref. Qed.

Definition set_slot (t : tlb) (i : Z) (e : Z * Z) : tlb :=
  mkTlb (zset (slots t) i e) (tlb_next_victim t) (tlb_spinlock t).

Lemma wp_tlb_write t i hi lo e (Q : unit → tlb → Prop) :
  znth (slots t) i = Some e → Q tt (set_slot t i (hi, lo)) → wp (tlb_write hi lo i) Q t.
Proof. intros He HQ. unfold tlb_write. wp_go. eapply wp_tlb_read; [done|]. by wp_go. Qed.

Lemma invalid_vpage i : 0 ≤ i < NUM_TLB → vpage (TLBHI_INVALID i, TLBLO_INVALID) = (524288 + i) * 4096.
Proof.
  intros Hi. unfold vpage, TLBHI_INVALID, TLBHI_VPAGE, NUM_TLB in *. simpl.
  rewrite Z.shiftl_mul_pow2 by lia. change (2 ^ 12) with 4096.
  change 4294963200 with (Z.shiftl (Z.ones 20) 12).
  change 4096 with (2 ^ 12). rewrite <- Z.shiftl_mul_pow2, <- Z.shiftl_land by lia.
  rewrite Z.land_ones by lia. rewrite Z.mod_small by lia. done.
Qed.

Lemma invalid_not_valid i : is_valid (TLBHI_INVALID i, TLBLO_INVALID) = false.
Proof. done. Qed.

(** Writing a slot: either the invalid entry of that slot, or a page that has no
    entry yet. *)
Lemma tlb_wf_set t i e :
  tlb_wf t → 0 ≤ i < NUM_TLB →
  (is_valid e = true ∧ 0 ≤ vpage e < 2 ^ 31 ∧
     (∀ j e', znth (slots t) j = Some e' → is_valid e' = true → vpage e' ≠ vpage e) ∨
   e = (TLBHI_INVALID i, TLBLO_INVALID)) →
  tlb_wf (set_slot t i e).
Proof.
  intros [Hl Hv Hu Hus Hin] Hi He.
  assert (∀ j e', j ≠ i → znth (slots t) j = Some e' → vpage e' ≠ vpage e) as Hdiff.
  { intros j e' Hne Hj Heq. pose proof (znth_Some_range _ _ _ Hj) as Hr. rewrite Hl in Hr.
    destruct (is_valid e') eqn:Hval.
    - destruct He as [(_ & _ & Hno)| ->]; [by apply (Hno j e')|].
      rewrite invalid_vpage in Heq by done. specialize (Hus j e' Hj Hval). lia.
    - rewrite (Hin j e' Hj Hval), invalid_vpage in Heq by done.
      destruct He as [(_ & Hr' & _)| ->]; [lia|].
      rewrite invalid_vpage in Heq by done. lia. }
  constructor; simpl; rewrite ?length_zset; try done.
  - intros j k e1 e2. destruct (decide (i = j)) as [<-|Hj], (decide (i = k)) as [<-|Hk];
      rewrite ?znth_zset_eq, ?znth_zset_ne by lia; intros H1 H2 Heq; simplify_eq; try done.
    + exfalso. by apply (Hdiff k e2); [congruence| |].
    + exfalso. by apply (Hdiff j e1); [congruence| |].
    + by apply (Hu j k e1 e2).
  - intros j e1. destruct (decide (i = j)) as [<-|Hj];
      rewrite ?znth_zset_eq, ?znth_zset_ne by lia; intros H1 Hval; simplify_eq.
    + destruct He as [(_ & ? & _)| ->]; [done|]. by rewrite invalid_not_valid in Hval.
    + by apply (Hus j).
  - intros j e1. destruct (decide (i = j)) as [<-|Hj];
      rewrite ?znth_zset_eq, ?znth_zset_ne by lia; intros H1 Hval; simplify_eq.
    + destruct He as [(? & _ & _)| ->]; [congruence|done].
    + by apply (Hin j).
Qed.

Lemma maps_set_slot t i e p lo :
  tlb_wf t → 0 ≤ i < NUM_TLB →
  maps (set_slot t i e) p lo →
  is_valid e = true ∧ vpage e = p ∧ snd e = lo ∨ maps t p lo.
Proof.
  intros Hwf Hi (j & e' & Hj & Hp & Hv & Hlo). simpl in Hj. pose proof (t_len t Hwf).
  destruct (decide (i = j)) as [<-|Hne].
  - rewrite znth_zset_eq in Hj by lia. injection Hj as <-. by left.
  - rewrite znth_zset_ne in Hj by lia. right. by exists j, e'.
Qed.

(** What an insertion does: the new page is translated, and the other
    translations are old ones. *)
Definition inserted (t : tlb) (p lo : Z) (t' : tlb) : Prop :=
  tlb_wf t' ∧ tlb_spinlock t' = tlb_spinlock t ∧ maps t' p lo ∧
  ∀ p' lo', maps t' p' lo' → p' = p ∧ lo' = lo ∨ maps t p' lo'.

Lemma tlb_insert_correct t hi lo :
  tlb_wf t → is_valid (hi, lo) = true → 0 ≤ vpage (hi, lo) < 2 ^ 31 →
  (∀ lo', ¬ maps t (vpage (hi, lo)) lo') →
  wp (tlb_insert_entry hi lo) (λ _ t', inserted t (vpage (hi, lo)) lo t') t.
Proof.
  intros Hwf Hval Hr Hno. pose proof Hwf as [Hl Hv _ _ _].
  assert (∀ j e', znth (slots t) j = Some e' → is_valid e' = true →
    vpage e' ≠ vpage (hi, lo)) as Hno'.
  { intros j e' Hj Hve Heq. apply (Hno (snd e')). by exists j, e'. }
  assert (∀ i, 0 ≤ i < NUM_TLB → inserted t (vpage (hi, lo)) lo (set_slot t i (hi, lo))) as Hins.
  { intros i Hi. split_and!; try done.
    - apply tlb_wf_set; [done|done|]. left. done.
    - exists i, (hi, lo). split; [|done]. simpl. apply znth_zset_eq. lia.
    - intros p' lo' [(_ & <- & <-)|?]%maps_set_slot; auto. }
  unfold tlb_insert_entry. wp_go.
  apply (wp_for_return (λ _ t', t' = t)); [done| |].
  - intros i t' Hi ->. change (0 + Z.of_nat (Z.to_nat NUM_TLB)) with NUM_TLB in Hi.
    destruct (znth_is_Some (slots t) i) as [[hi' lo'] He]; [lia|].
    wp_go. eapply wp_tlb_read; [done|]. wp_go. destruct (Z.land lo' TLBLO_VALID =? 0).
    + wp_go. eapply wp_tlb_write; [done|]. wp_go. by apply Hins.
    + by wp_go.
  - intros t' ->. wp_go. destruct (znth_is_Some (slots t) (tlb_next_victim t)) as [e He]; [lia|].
    eapply wp_tlb_write; [done|]. wp_go.
    destruct (Hins (tlb_next_victim t) Hv) as ([? ? ? ? ?] & ? & ? & ?).
    split_and!; try done. constructor; try done. apply Z.mod_pos_bound. done.
Qed.

Lemma tlb_wf_lock t b :
  tlb_wf t → tlb_wf (mkTlb (slots t) (tlb_next_victim t) b).
Proof. intros []. by constructor. Qed.

(** Invalidating one page. *)
Definition shot_down (t : tlb) (p : Z) (t' : tlb) : Prop :=
  tlb_wf t' ∧ tlb_spinlock t' = false ∧
  ∀ p' lo, maps t' p' lo ↔ maps t p' lo ∧ p' ≠ p.

Lemma wp_tlb_acquire t (Q : unit → tlb → Prop) :
  tlb_spinlock t = false → Q tt (mkTlb (slots t) (tlb_next_victim t) true) →
  wp tlb_acquire Q t.
Proof. intros Hl HQ. unfold tlb_acquire. wp_go. rewrite Hl. by wp_check. Qed.

Lemma wp_tlb_release t (Q : unit → tlb → Prop) :
  tlb_spinlock t = true → Q tt (mkTlb (slots t) (tlb_next_victim t) false) →
  wp tlb_release Q t.
Proof. intros Hl HQ. unfold tlb_release. wp_go. rewrite Hl. by wp_check. Qed.

Lemma vm_tlbshootdown_correct t va :
  tlb_wf t → tlb_spinlock t = false →
  wp (vm_tlbshootdown va) (λ _ t', shot_down t (Z.land va TLBHI_VPAGE) t') t.
Proof.
  intros Hwf Hlk. unfold vm_tlbshootdown, tlb_probe. pose proof Hwf as [Hl Hv Hu Hus Hin].
  set (p := Z.land va TLBHI_VPAGE). wp_go. apply wp_tlb_acquire; [done|]. wp_go. simpl.
  destruct (list_find _ (slots t)) as [[i e]|] eqn:Hf.
  - apply list_find_Some in Hf as (Hi & Hp & _).
    assert (znth (slots t) (Z.of_nat i) = Some e) as He by (by rewrite znth_lookup, Nat2Z.id by lia).
    pose proof (znth_Some_range _ _ _ He).
    rewrite Z.geb_leb, (proj2 (Z.leb_le _ _)) by lia.
    eapply wp_tlb_write; [done|]. apply wp_tlb_release; [done|]. simpl.
    assert (tlb_wf (set_slot t (Z.of_nat i) (TLBHI_INVALID (Z.of_nat i), TLBLO_INVALID))) as Hwf'.
    { apply tlb_wf_set; [done|lia|by right]. }
    split_and!; try done.
    { exact (tlb_wf_lock _ false Hwf'). }
    intros p' lo. split.
    + intros (j & e' & Hj & Hp' & Hve & Hlo). simpl in Hj.
      destruct (decide (Z.of_nat i = j)) as [<-|Hne].
      * rewrite znth_zset_eq in Hj by lia. injection Hj as <-. by rewrite invalid_not_valid in Hve.
      * rewrite znth_zset_ne in Hj by lia. split; [by exists j, e'|]. intros ->.
        apply Hne, (Hu _ _ e e' He Hj). rewrite Hp'. exact Hp.
    + intros [(j & e' & Hj & Hp' & Hve & Hlo) Hne]. exists j, e'. split_and!; try done.
      simpl. rewrite znth_zset_ne; [done|lia|]. intros <-. rewrite He in Hj. simplify_eq.
  - rewrite list_find_None in Hf. wp_go. apply wp_tlb_release; [done|]. simpl.
    split; [exact (tlb_wf_lock _ false Hwf)|]. split; [done|]. intros p' lo. split.
    + intros (j & e' & Hj & Hp' & Hve & Hlo). simpl in Hj. split; [by exists j, e'|].
      intros ->. rewrite Forall_forall in Hf. apply (Hf e'); [|done]. by eapply znth_elem.
    + intros [(j & e' & ?) _]. by exists j, e'.
Qed.

(** Flushing: nothing is translated afterwards. *)
Lemma flush_correct t :
  Z.of_nat (length (slots t)) = NUM_TLB → 0 ≤ tlb_next_victim t < NUM_TLB →
  wp flush_loop (λ _ t', tlb_wf t' ∧ tlb_spinlock t' = tlb_spinlock t ∧
    ∀ p lo, ¬ maps t' p lo) t.
Proof.
  intros Hl Hv. unfold flush_loop.
  apply (wp_for_loop (λ i t', Z.of_nat (length (slots t')) = NUM_TLB ∧
    tlb_next_victim t' = tlb_next_victim t ∧ tlb_spinlock t' = tlb_spinlock t ∧
    ∀ j e, 0 ≤ j < i → znth (slots t') j = Some e → e = (TLBHI_INVALID j, TLBLO_INVALID))).
  - split_and!; try done. lia.
  - intros i t' Hi (Hl' & Hv' & Hk & Hj). change (0 + Z.of_nat (Z.to_nat NUM_TLB)) with NUM_TLB in Hi.
    destruct (znth_is_Some (slots t') i) as [e He]; [lia|].
    eapply wp_tlb_write; [done|]. simpl. rewrite length_zset. split_and!; try done.
    intros j e' Hjr. destruct (decide (i = j)) as [<-|].
    + rewrite znth_zset_eq by lia. by intros [= <-].
    + rewrite znth_zset_ne by lia. apply Hj. lia.
  - intros t' (Hl' & Hv' & Hk & Hj). change (0 + Z.of_nat (Z.to_nat NUM_TLB)) with NUM_TLB in Hj.
    assert (∀ j e, znth (slots t') j = Some e → e = (TLBHI_INVALID j, TLBLO_INVALID) ∧
      0 ≤ j < NUM_TLB) as Hall.
    { intros j e He. pose proof (znth_Some_range _ _ _ He). split; [apply Hj|]; try lia; done. }
    split_and!; try done.
    + constructor; try congruence.
      * intros i j e e' [-> Hi]%Hall [-> Hjr]%Hall. rewrite !invalid_vpage by done. lia.
      * intros i e [-> _]%Hall Hve. by rewrite invalid_not_valid in Hve.
      * by intros i e [-> _]%Hall.
    + intros p lo (j & e & [-> _]%Hall & _ & Hve & _). by rewrite invalid_not_valid in Hve.
Qed.

Lemma as_activate_correct t :
  Z.of_nat (length (slots t)) = NUM_TLB → 0 ≤ tlb_next_victim t < NUM_TLB →
  tlb_spinlock t = false →
  wp as_activate (λ _ t', tlb_wf t' ∧ tlb_spinlock t' = false ∧ ∀ p lo, ¬ maps t' p lo) t.
Proof.
  intros Hl Hv Hk. unfold as_activate. wp_go. apply wp_tlb_acquire; [done|]. wp_go.
  eapply wp_mono; [|by apply flush_correct]. intros [] t' (Hwf & Hk' & Hno).
  apply wp_tlb_release; [done|]. split_and!; try done. by apply tlb_wf_lock.
Qed.

End Tlb.
