(* ===== verification/Swap.v ===== *)
(** * Swap space (kern/vm/swap.c)

    Page-sized slots of the swap device, managed with a bitmap.  The contents of
    a page are only ever copied, so they are of any type [page].  How the device
    answers the coming requests is a script in the state: a request may succeed,
    fail with an error code, or transfer less than a page. *)

From Stdlib Require Import ZArith Lia.
From stdpp Require Import base numbers list gmap.
From S2P Require Import Prelude Bitmap.

Module Swap.

Definition PAGE_SIZE : Z := 4096.
Definition SWAP_OFFSET_NONE : Z := -1.

Section swap.
Context {page : Type}.

(** The answer of the device; a request that does not succeed leaves [junk] in
    the slot when it was a write. *)
Inductive io := IoOk | IoErr (e : Z) (junk : page) | IoShort (junk : page).

Record swapst := mkSwap {
  swap_bitmap : Bitmap.bitmap;
  swap_slots : Z;
  swap_lock : bool;
  disk : gmap Z page;
  script : list io;
}.

Definition in_bitmap {A} (m : M Bitmap.bitmap A) : M swapst A := λ s,
  match m (swap_bitmap s) with
  | Done (a, b) => Done (a, mkSwap b (swap_slots s) (swap_lock s) (disk s) (script s))
  | Panic => Panic
  end.

(** [lock_acquire(swap_lock)]; the thread does not hold it already. *)
Definition acquire : M swapst unit :=
  l ← gets swap_lock; KASSERT (negb l) ;;
  modify (λ s, mkSwap (swap_bitmap s) (swap_slots s) true (disk s) (script s)).
Definition release : M swapst unit :=
  l ← gets swap_lock; KASSERT l ;;
  modify (λ s, mkSwap (swap_bitmap s) (swap_slots s) false (disk s) (script s)).

(** The next answer of the device. *)
Definition next_io : M swapst io :=
  l ← gets script;
  match l with
  | [] => mret IoOk
  | x :: l' =>
      modify (λ s, mkSwap (swap_bitmap s) (swap_slots s) (swap_lock s) (disk s) l') ;;
      mret x
  end.

Definition set_disk (off : Z) (p : page) : M swapst unit :=
  modify (λ s, mkSwap (swap_bitmap s) (swap_slots s) (swap_lock s)
                 (<[off := p]> (disk s)) (script s)).

(** [opened] and [stat] are the results of [vfs_open] on the raw device and of
    [VOP_STAT]; [lock_ok], [ok1], [ok2] say whether memory is available. *)
Definition swap_bootstrap (lock_ok : bool) (opened : result unit) (stat : result Z)
    (ok1 ok2 : bool) (contents : gmap Z page) (answers : list io) : outcome (result swapst) :=
  if negb lock_ok then Done (Err ENOMEM) else
  match opened with
  | Err e => Done (Err e)
  | Ok _ =>
      match stat with
      | Err e => Done (Err e)
      | Ok st_size =>
          let slots := (st_size / PAGE_SIZE) mod 2 ^ 32 in
          if slots =? 0 then Done (Err ENOSPC) else
          match Bitmap.bitmap_create ok1 ok2 slots with
          | Panic => Panic
          | Done None => Done (Err ENOMEM)
          | Done (Some b) => Done (Ok (mkSwap b slots false contents answers))
          end
      end
  end.

Definition swap_alloc_slot : M swapst (result Z) :=
  acquire ;;
  r ← in_bitmap Bitmap.bitmap_alloc;
  match r with
  | Err _ => release ;; mret (Err ENOSPC)
  | Ok idx => release ;; mret (Ok (idx * PAGE_SIZE))
  end.

Definition swap_free_slot (offset : Z) : M swapst unit :=
  if offset =? SWAP_OFFSET_NONE then mret tt else
  KASSERT (offset mod PAGE_SIZE =? 0) ;;
  let idx := offset / PAGE_SIZE in
  n ← gets swap_slots;
  KASSERT (idx <? n) ;;
  acquire ;;
  in_bitmap (Bitmap.bitmap_unmark idx) ;;
  release.

(** Returns 0 or an error code; [p] is what the physical page holds. *)
Definition swap_write_page (p : page) (offset : Z) : M swapst Z :=
  KASSERT (offset mod PAGE_SIZE =? 0) ;;
  acquire ;;
  x ← next_io;
  match x with
  | IoOk => set_disk offset p ;; release ;; mret 0
  | IoErr e junk => set_disk offset junk ;; release ;; mret e
  | IoShort junk => set_disk offset junk ;; release ;; mret EIO
  end.

(** Returns what the physical page holds afterwards, or an error code. *)
Definition swap_read_page (offset : Z) : M swapst (result page) :=
  KASSERT (offset mod PAGE_SIZE =? 0) ;;
  acquire ;;
  x ← next_io;
  match x with
  | IoOk => d ← gets disk; release ;;
            p ← deref (d !! offset); mret (Ok p)
  | IoErr e _ => release ;; mret (Err e)
  | IoShort _ => release ;; mret (Err EIO)
  end.

(** ** Well-formed swap space, and what the operations do *)

(** Error codes are not 0. *)
Definition io_ok (x : io) : Prop := match x with IoErr e _ => 0 < e | _ => True end.

Record swap_wf (s : swapst) : Prop := {
  s_bitmap : Bitmap.wf (swap_bitmap s);
  s_slots : swap_slots s = Bitmap.nbits (swap_bitmap s);
  s_lock : swap_lock s = false;
  s_io : Forall io_ok (script s);
}.

(** The offsets of the slots in use. *)
Definition slot_used (s : swapst) (off : Z) : Prop :=
  ∃ i, off = i * PAGE_SIZE ∧ i ∈ Bitmap.used (swap_bitmap s).

Definition swap_full (s : swapst) : Prop :=
  ∀ i, 0 ≤ i < swap_slots s → slot_used s (i * PAGE_SIZE).

(** The device does not do the next request. *)
Definition io_fails (s : swapst) : Prop :=
  match script s with [] | IoOk :: _ => False | _ => True end.

Lemma wp_in_bitmap {A} (m : M Bitmap.bitmap A) (Q : A → swapst → Prop) s :
  wp m (λ a b, Q a (mkSwap b (swap_slots s) (swap_lock s) (disk s) (script s))) (swap_bitmap s) →
  wp (in_bitmap m) Q s.
Proof. unfold wp, in_bitmap. by destruct (m (swap_bitmap s)) as [[a b]|]. Qed.

Lemma wp_sw_acquire s (Q : unit → swapst → Prop) :
  swap_lock s = false →
  Q tt (mkSwap (swap_bitmap s) (swap_slots s) true (disk s) (script s)) → wp acquire Q s.
Proof. intros Hl HQ. unfold acquire. wp_go. rewrite Hl. by wp_check. Qed.

Lemma wp_sw_release s (Q : unit → swapst → Prop) :
  swap_lock s = true →
  Q tt (mkSwap (swap_bitmap s) (swap_slots s) false (disk s) (script s)) → wp release Q s.
Proof. intros Hl HQ. unfold release. wp_go. rewrite Hl. by wp_check. Qed.

Lemma swap_bootstrap_correct st_size contents answers :
  PAGE_SIZE ≤ st_size < (2 ^ 32 - 7) * PAGE_SIZE → Forall io_ok answers →
  ∃ s, swap_bootstrap true (Ok tt) (Ok st_size) true true contents answers = Done (Ok s) ∧
    swap_wf s ∧ swap_slots s = st_size / PAGE_SIZE ∧ (∀ o, ¬ slot_used s o).
Proof.
  intros Hsz Hio. unfold swap_bootstrap. cbn [negb].
  assert (1 ≤ st_size / PAGE_SIZE < 2 ^ 32 - 7) as Hn.
  { split; [by apply Z.div_le_lower_bound; [|lia]|by apply Z.div_lt_upper_bound; [|lia]]. }
  rewrite Z.mod_small, (proj2 (Z.eqb_neq _ _)) by lia.
  destruct (Bitmap.bitmap_create_correct true true (st_size / PAGE_SIZE)) as (r & -> & Hr); [lia|].
  destruct r as [b|]; [|done]. destruct Hr as (_ & Hwf & Hnb & Hu).
  eexists. split_and!; [done| |done|].
  - constructor; simpl; by rewrite ?Hnb.
  - intros o (i & _ & Hi). simpl in Hi. rewrite Hu in Hi. by apply elem_of_empty in Hi.
Qed.

Lemma offset_inj i j : i * PAGE_SIZE = j * PAGE_SIZE → i = j.
Proof. unfold PAGE_SIZE. lia. Qed.

Lemma swap_alloc_correct s :
  swap_wf s →
  wp swap_alloc_slot (λ r s', swap_wf s' ∧ disk s' = disk s ∧ script s' = script s ∧
    match r with
    | Ok off => 0 ≤ off ∧ ¬ slot_used s off ∧
                ∀ o, slot_used s' o ↔ o = off ∨ slot_used s o
    | Err e => e = ENOSPC ∧ s' = s ∧ swap_full s
    end) s.
Proof.
  intros [Hb Hn Hl Hio]. unfold swap_alloc_slot. wp_go.
  apply wp_sw_acquire; [done|]. wp_go. apply wp_in_bitmap.
  eapply wp_mono; [|by apply Bitmap.bitmap_alloc_correct].
  intros [i|e] b (Hb' & Hn' & Hr); wp_go; apply wp_sw_release; try done; wp_go; simpl in *.
  - destruct Hr as (Hi & Hfree & Hu & _).
    split_and!; try done; [by constructor; simpl; congruence|unfold PAGE_SIZE; lia| |].
    + intros (j & Hj%offset_inj & Hin). congruence.
    + intros o. unfold slot_used. simpl. rewrite Hu. split.
      * intros (j & -> & Hj). apply elem_of_union in Hj as [Hj%elem_of_singleton|Hj].
        -- left. by subst.
        -- right. eauto.
      * intros [->|(j & -> & Hj)]; eexists; (split; [done|]); apply elem_of_union;
          [left; by apply elem_of_singleton|by right].
  - destruct Hr as (-> & -> & Hfull). destruct s; simpl in *. subst.
    split_and!; try done. intros i Hi. exists i. auto.
Qed.

Lemma swap_free_correct s off :
  swap_wf s → slot_used s off →
  wp (swap_free_slot off) (λ _ s', swap_wf s' ∧ disk s' = disk s ∧ script s' = script s ∧
    ∀ o, slot_used s' o ↔ slot_used s o ∧ o ≠ off) s.
Proof.
  intros [Hb Hn Hl Hio] (i & -> & Hi). unfold swap_free_slot.
  pose proof Hi as Hi'. apply Bitmap.elem_of_used in Hi' as [Hr _].
  rewrite (proj2 (Z.eqb_neq _ _)) by (unfold PAGE_SIZE, SWAP_OFFSET_NONE; lia).
  rewrite Z.mod_mul, Z.div_mul by done. wp_check. rewrite Hn. wp_check.
  apply wp_sw_acquire; [done|]. wp_go. apply wp_in_bitmap.
  eapply wp_mono; [|by apply Bitmap.bitmap_unmark_correct].
  intros [] b (Hb' & Hn' & Hu). apply wp_sw_release; [done|]. simpl in *.
  split_and!; try done; [by constructor; simpl; congruence|].
  intros o. unfold slot_used. simpl. rewrite Hu. split.
  - intros (j & -> & [Hj Hne]%elem_of_difference). split; [by exists j|].
    intros ->%offset_inj. by apply Hne, elem_of_singleton.
  - intros [(j & -> & Hj) Hne]. exists j. split; [done|].
    apply elem_of_difference. split; [done|]. intros ->%elem_of_singleton. done.
Qed.

(** A write changes at most the slot it is for, and a successful one leaves the
    page there. *)
Lemma swap_write_correct s p off :
  swap_wf s → off mod PAGE_SIZE = 0 →
  wp (swap_write_page p off) (λ r s', swap_wf s' ∧ swap_bitmap s' = swap_bitmap s ∧
    0 ≤ r ∧ (r = 0 → disk s' !! off = Some p) ∧ (r ≠ 0 → io_fails s) ∧
    ∀ o, o ≠ off → disk s' !! o = disk s !! o) s.
Proof.
  intros [Hb Hn Hl Hio] Ho. unfold swap_write_page, next_io, set_disk, io_fails. rewrite Ho.
  wp_check. apply wp_sw_acquire; [done|]. wp_go. simpl.
  assert (∀ q o, o ≠ off → <[off := q]> (disk s) !! o = disk s !! o) as Hne
    by (intros; by apply lookup_insert_ne).
  destruct (script s) as [|x l] eqn:Hs.
  - wp_go. apply wp_sw_release; [done|]. wp_go. simpl.
    split_and!; try done; [|by apply Hne]. intros _. by rewrite lookup_insert_eq.
  - apply Forall_cons in Hio as [Hx Hio]. wp_go.
    destruct x as [|e junk|junk]; wp_go; apply wp_sw_release; try done; wp_go; simpl in *;
      (split; [by constructor|]); (split; [done|]); split_and!; try done; try lia; try by apply Hne.
    intros _. by rewrite lookup_insert_eq.
Qed.

Lemma swap_read_correct s off p :
  swap_wf s → off mod PAGE_SIZE = 0 → disk s !! off = Some p →
  wp (swap_read_page off) (λ r s', swap_wf s' ∧ swap_bitmap s' = swap_bitmap s ∧
    disk s' = disk s ∧ match r with Ok q => q = p | Err e => 0 < e ∧ io_fails s end) s.
Proof.
  intros [Hb Hn Hl Hio] Ho Hp. unfold swap_read_page, next_io, io_fails. rewrite Ho.
  wp_check. apply wp_sw_acquire; [done|]. wp_go. simpl.
  destruct (script s) as [|x l] eqn:Hs.
  - wp_go. apply wp_sw_release; [done|]. wp_go. eapply wp_deref; [done|]. wp_go. simpl.
    split_and!; try done.
  - apply Forall_cons in Hio as [Hx Hio]. wp_go.
    destruct x as [|e junk|junk]; wp_go; apply wp_sw_release; try done; wp_go; simpl in *.
    eapply wp_deref; [done|]. wp_go. by split_and!.
Qed.

End swap.
Arguments io : clear implicits.
Arguments swapst : clear implicits.

End Swap.
