(* ===== verification/Vm.v ===== *)
(** * Page faults and eviction (kern/arch/mips/vm/vm.c, kern/vm/pagetable.c)

    The machine state of the VM system: the coremap, the contents of physical
    pages, swap space, the address spaces, and the TLB.  The code is that of the
    running thread: the flag of a lock says whether this thread holds it. *)

From Stdlib Require Import ZArith Lia.
From stdpp Require Import base numbers list gmap.
From S2P Require Import Prelude Bitmap Coremap PageTable Swap Tlb.

Module Vm.
Import Coremap PageTable Tlb.

Definition VM_FAULT_READ : Z := 0.
Definition VM_FAULT_WRITE : Z := 1.
Definition VM_FAULT_READONLY : Z := 2.

Definition USERSTACK : Z := 2147483648.
Definition SIZEOF_L2 : Z := 24576. (* 1024 entries of 24 bytes *)

(** kern/include/addrspace.h; the list of regions without its links. *)
Record region := mkRegion {
  as_vbase : Z;
  as_npages : Z;
  r_read : Z;
  r_write : Z;
  r_exec : Z;
}.

(** [pt_addr] is the address of the first-level table, [pt] what it holds. *)
Record addrspace := mkAs {
  pt_addr : Z;
  pt : pagetable;
  as_lock : bool;
  region_list : list region;
  heap_start : Z;
  heap_end : Z;
  stack_base : Z;
}.

Definition with_pt (a : addrspace) (p : pagetable) : addrspace :=
  mkAs (pt_addr a) p (as_lock a) (region_list a) (heap_start a) (heap_end a) (stack_base a).
Definition with_as_lock (a : addrspace) (b : bool) : addrspace :=
  mkAs (pt_addr a) (pt a) b (region_list a) (heap_start a) (heap_end a) (stack_base a).

Definition u32 (x : Z) : Z := x mod 2 ^ 32.

Definition in_region (r : region) (vaddr : Z) : bool :=
  (vaddr >=? as_vbase r) && (vaddr <? u32 (as_vbase r + as_npages r * PAGE_SIZE)).

Definition in_heap (a : addrspace) (vaddr : Z) : bool :=
  (vaddr >=? heap_start a) && (vaddr <? heap_end a).
Definition in_stack (a : addrspace) (vaddr : Z) : bool :=
  (vaddr <? USERSTACK) && (vaddr >=? stack_base a).

Definition is_valid_address (a : addrspace) (vaddr : Z) : bool :=
  if existsb (λ r, in_region r vaddr) (region_list a) then true
  else if in_heap a vaddr then true
  else if in_stack a vaddr then true
  else false.

(** Readable, writeable, executable. *)
Definition get_region_permissions (a : addrspace) (vaddr : Z) : result (bool * bool * bool) :=
  match list_find (λ r, in_region r vaddr = true) (region_list a) with
  | Some (_, r) => Ok (negb (r_read r =? 0), negb (r_write r =? 0), negb (r_exec r =? 0))
  | None =>
      if in_heap a vaddr then Ok (true, true, false)
      else if in_stack a vaddr then Ok (true, true, false)
      else Err EFAULT
  end.

Section vm.
Context {page : Type} (zero_page : page).

Record vm := mkVm {
  cm : coremap;
  cm_evict_index : Z;
  frames : gmap Z page;
  sw : Swap.swapst page;
  ases : gmap positive addrspace;
  mmu : tlb;
}.

Definition set_cm c (s : vm) := mkVm c (cm_evict_index s) (frames s) (sw s) (ases s) (mmu s).
Definition set_index i (s : vm) := mkVm (cm s) i (frames s) (sw s) (ases s) (mmu s).
Definition set_frames f (s : vm) := mkVm (cm s) (cm_evict_index s) f (sw s) (ases s) (mmu s).
Definition set_sw w (s : vm) := mkVm (cm s) (cm_evict_index s) (frames s) w (ases s) (mmu s).
Definition set_ases a (s : vm) := mkVm (cm s) (cm_evict_index s) (frames s) (sw s) a (mmu s).
Definition set_mmu t (s : vm) := mkVm (cm s) (cm_evict_index s) (frames s) (sw s) (ases s) t.

Definition in_cm {A} (m : M coremap A) : M vm A := λ s,
  match m (cm s) with Done (a, c) => Done (a, set_cm c s) | Panic => Panic end.
Definition in_sw {A} (m : M (Swap.swapst page) A) : M vm A := λ s,
  match m (sw s) with Done (a, w) => Done (a, set_sw w s) | Panic => Panic end.
Definition in_tlb {A} (m : M tlb A) : M vm A := λ s,
  match m (mmu s) with Done (a, t) => Done (a, set_mmu t s) | Panic => Panic end.

(** The contents of a physical page. *)
Definition frame_get (p : Z) : M vm page := o ← gets (λ s, frames s !! p); deref o.
Definition frame_set (p : Z) (x : page) : M vm unit :=
  _ ← frame_get p; modify (λ s, set_frames (<[p := x]> (frames s)) s).

(** An address space; a stale pointer faults. *)
Definition as_get (a : positive) : M vm addrspace := o ← gets (λ s, ases s !! a); deref o.
Definition as_set (a : positive) (x : addrspace) : M vm unit :=
  _ ← as_get a; modify (λ s, set_ases (<[a := x]> (ases s)) s).

(** [lock_acquire(as->as_lock)] asserts that the thread does not hold the lock. *)
Definition as_acquire (a : positive) : M vm unit :=
  x ← as_get a; KASSERT (negb (as_lock x)) ;; as_set a (with_as_lock x true).
Definition as_release (a : positive) : M vm unit :=
  x ← as_get a; KASSERT (as_lock x) ;; as_set a (with_as_lock x false).

(** [*pte = e], through a pointer into the page table of [a]. *)
Definition pte_set (a : positive) (va : Z) (e : pte) : M vm unit :=
  x ← as_get a; as_set a (with_pt x (pt_store (pt x) va e)).

Definition with_busy (e : cm_entry) (b : bool) : cm_entry :=
  mkEntry (used e) (kmalloc_end e) (dirty e) (kernel_page e) b (owner e) (vaddr e) (pp_num e).

Definition set_busy (p : Z) (b : bool) : M coremap unit :=
  e ← entry p; set_entry p (with_busy e b).

(** [cm_set_user_page] *)
Definition cm_set_user_page (p : Z) (a : positive) (va : Z) : M coremap unit :=
  cm_acquire ;;
  e ← entry p;
  set_entry p (mkEntry (used e) (kmalloc_end e) (dirty e) false (busy e) (Some a)
                 (Z.land va PAGE_FRAME) (pp_num e)) ;;
  cm_release.

(** Giving up on a victim. *)
Definition unbusy (a : positive) (candidate : Z) : M vm unit :=
  as_release a ;;
  in_cm cm_acquire ;;
  in_cm (set_busy candidate false) ;;
  in_cm cm_release.

(** Writing the victim out and unmapping it; [cme] is its coremap entry, [p] its
    page table entry. *)
Definition evict_page (candidate : Z) (cme : cm_entry) (a : positive) (p : pte)
  : M vm (result Z) :=
  r ← in_sw Swap.swap_alloc_slot;
  match r with
  | Err e => unbusy a candidate ;; mret (Err e)
  | Ok off =>
      x ← frame_get (pp_num cme);
      w ← in_sw (Swap.swap_write_page x off);
      if negb (w =? 0) then
        unbusy a candidate ;; in_sw (Swap.swap_free_slot off) ;; mret (Err w)
      else
        pte_set a (vaddr cme) (mkPte (valid p) false (readonly p) false off 0) ;;
        in_tlb (vm_tlbshootdown (vaddr cme)) ;;
        as_release a ;;
        in_cm cm_acquire ;;
        in_cm (free_ppage (pp_num cme)) ;;
        in_cm cm_release ;;
        mret (Ok candidate)
  end.

(** The loop of [evict_one], with [n] rounds left at round [i].  When a victim
    turns out to be stale the loop goes on without the coremap lock, as the code
    does. *)
Fixpoint evict_loop (n : nat) (i : Z) : M vm (result Z) :=
  match n with
  | O => in_cm cm_release ;; mret (Err ENOMEM)
  | S n' =>
      f ← gets (λ s, first_page (cm s));
      l ← gets (λ s, last_page (cm s));
      idx ← gets cm_evict_index;
      let total := l - f in
      let candidate := f + ((idx + i) mod total) in
      cme ← in_cm (entry candidate);
      match owner cme with
      | Some a =>
          if negb (used cme) || kernel_page cme || busy cme then evict_loop n' (i + 1)
          else
            in_cm (set_entry candidate (with_busy cme true)) ;;
            modify (set_index (((candidate - f) + 1) mod total)) ;;
            in_cm cm_release ;;
            as_acquire a ;;
            x ← as_get a;
            match pagetable_lookup (pt x) (vaddr cme) with
            | Some p =>
                if negb (valid p) || negb (in_mem p) || negb (ppn p =? pp_num cme) then
                  unbusy a candidate ;; evict_loop n' (i + 1)
                else evict_page candidate cme a p
            | None => unbusy a candidate ;; evict_loop n' (i + 1)
            end
      | None => evict_loop n' (i + 1)
      end
  end.

Definition evict_one : M vm (result Z) :=
  in_cm cm_acquire ;;
  f ← gets (λ s, first_page (cm s));
  l ← gets (λ s, last_page (cm s));
  evict_loop (Z.to_nat (l - f)) 0.

(** [alloc_kpages]; every round but the last evicts a page, so there are at most
    as many rounds as pages, and one more. Returns 0 on failure. *)
Fixpoint alloc_loop (fuel : nat) (npages : Z) : M vm Z :=
  match fuel with
  | O => panic
  | S fuel' =>
      r ← in_cm (alloc_try npages);
      match r with
      | Some kvaddr => mret kvaddr
      | None =>
          ev ← evict_one;
          match ev with
          | Err _ => mret 0
          | Ok _ => alloc_loop fuel' npages
          end
      end
  end.

Definition alloc_kpages (npages : Z) : M vm Z :=
  l ← gets (λ s, last_page (cm s));
  alloc_loop (S (Z.to_nat l)) npages.

Definition alloc_user_page : M vm Z :=
  kvaddr ← alloc_kpages 1;
  if negb (kvaddr =? 0) then mret kvaddr else
  err ← evict_one;
  match err with
  | Err _ => mret 0
  | Ok _ => alloc_kpages 1
  end.

(** [kmalloc] of at least half a page: whole pages (kern/vm/kmalloc.c). *)
Definition kmalloc_pages (sz : Z) : M vm Z :=
  address ← alloc_kpages ((sz + PAGE_SIZE - 1) / PAGE_SIZE);
  if address =? 0 then mret 0 else
  KASSERT (address mod PAGE_SIZE =? 0) ;;
  mret address.

Definition pagetable_insert (a : positive) (va paddr : Z) (ro : bool) : M vm Z :=
  KASSERT (negb (paddr =? 0)) ;;
  x ← as_get a;
  let store := x ← as_get a;
               as_set a (with_pt x (pt_store (pt x) va (new_pte paddr ro))) ;; mret 0 in
  if needs_l2 (pt x) va then
    new_l2 ← kmalloc_pages SIZEOF_L2;
    if new_l2 =? 0 then mret ENOMEM else
    x ← as_get a;
    as_set a (with_pt x (pt_add_l2 (pt x) va new_l2)) ;;
    store
  else store.

(** The branch of [vm_fault] for a page that does not exist yet. *)
Definition fault_new (a : positive) (page_vaddr : Z) : M vm Z :=
  kv ← alloc_user_page;
  if kv =? 0 then mret ENOMEM else
  frame_set (PADDR_TO_PPAGE (KVADDR_TO_PADDR kv)) zero_page ;;
  x ← as_get a;
  match get_region_permissions x page_vaddr with
  | Err _ => in_cm (free_kpages kv) ;; mret EFAULT
  | Ok (_, writeable, _) =>
      let paddr := KVADDR_TO_PADDR kv in
      res ← pagetable_insert a page_vaddr paddr (negb writeable);
      if negb (res =? 0) then mret res else
      x ← as_get a;
      e ← deref (pagetable_lookup (pt x) page_vaddr);
      KASSERT (valid e && in_mem e) ;;
      in_cm (cm_set_user_page (PADDR_TO_PPAGE paddr) a page_vaddr) ;;
      mret 0
  end.

(** The branch for a page that is on disk. *)
Definition fault_swapin (a : positive) (page_vaddr : Z) : M vm Z :=
  kv ← alloc_user_page;
  if kv =? 0 then mret ENOMEM else
  x ← as_get a;
  e ← deref (pagetable_lookup (pt x) page_vaddr);
  if swap_offset e =? SWAP_OFFSET_NONE then in_cm (free_kpages kv) ;; mret EFAULT else
  let paddr := KVADDR_TO_PADDR kv in
  r ← in_sw (Swap.swap_read_page (swap_offset e));
  match r with
  | Err e => in_cm (free_kpages kv) ;; mret e
  | Ok contents =>
      let p := PADDR_TO_PPAGE paddr in
      frame_set p contents ;;
      pte_set a page_vaddr (mkPte (valid e) true (readonly e) false (swap_offset e) p) ;;
      in_sw (Swap.swap_free_slot (swap_offset e)) ;;
      pte_set a page_vaddr (mkPte (valid e) true (readonly e) false SWAP_OFFSET_NONE p) ;;
      in_cm (cm_set_user_page p a page_vaddr) ;;
      mret 0
  end.

(** The page is made resident: 0, or an error code. *)
Definition fault_resident (a : positive) (page_vaddr : Z) : M vm Z :=
  x ← as_get a;
  match pagetable_lookup (pt x) page_vaddr with
  | Some e =>
      if negb (valid e) then fault_new a page_vaddr
      else if negb (in_mem e) then fault_swapin a page_vaddr
      else mret 0
  | None => fault_new a page_vaddr
  end.

(** The TLB entry is loaded. *)
Definition entrylo_of (e : pte) : Z :=
  let lo := Z.lor (Z.land (PPAGE_TO_PADDR (ppn e)) TLBLO_PPAGE) TLBLO_VALID in
  if readonly e then lo else Z.lor lo TLBLO_DIRTY.

Definition fault_tlb (faultaddress : Z) (e : pte) : M tlb unit :=
  holding ← gets tlb_spinlock;
  (if (holding : bool) then mret tt else tlb_acquire) ;;
  tlb_insert_entry (Z.land faultaddress TLBHI_VPAGE) (entrylo_of e) ;;
  (if (holding : bool) then mret tt else tlb_release).

(** [cur] is the address space of the process, [proc_getas()]. *)
Definition vm_fault (cur : option positive) (faulttype faultaddress : Z) : M vm Z :=
  match cur with
  | None => mret EFAULT
  | Some a =>
      as_acquire a ;;
      x ← as_get a;
      if negb (is_valid_address x faultaddress) then as_release a ;; mret EFAULT else
      let page_vaddr := Z.land faultaddress PAGE_FRAME in
      res ← fault_resident a page_vaddr;
      if negb (res =? 0) then as_release a ;; mret res else
      x ← as_get a;
      e ← deref (pagetable_lookup (pt x) page_vaddr);
      if (faulttype =? VM_FAULT_READONLY) && readonly e then as_release a ;; mret EFAULT else
      (if faulttype =? VM_FAULT_WRITE then
         pte_set a page_vaddr
           (mkPte (valid e) (in_mem e) (readonly e) true (swap_offset e) (ppn e))
       else mret tt) ;;
      in_tlb (fault_tlb faultaddress e) ;;
      as_release a ;;
      mret 0
  end.

End vm.
Arguments vm : clear implicits.

End Vm.
