(* ===== verification/VmPages.v ===== *)
(** * The pages of the address spaces (invariant of kern/arch/mips/vm/vm.c)

    Which page is where: the coremap says whose page a frame holds, the page
    tables say where a page is, swap space says which slots are taken.  This file
    states how the three agree, and that moving a page out and in keeps them in
    agreement and keeps what the page holds. *)

From Stdlib Require Import ZArith Lia.
From stdpp Require Import base numbers list gmap.
From S2P Require Import Prelude Bitmap Coremap PageTable Swap Tlb Vm.

Module VmPages.
Import Coremap PageTable Tlb Vm.

(** The address of a page. *)
Definition is_page (v : Z) : Prop := is_vaddr v ∧ v mod 4096 = 0.
Definition page_of (v : Z) : Z := v / 4096 * 4096.

Lemma page_of_page v : is_vaddr v → is_page (page_of v).
Proof. intros Hv. split; [by apply is_vaddr_page|]. apply Z.mod_mul. lia. Qed.

Lemma page_of_id v : is_page v → page_of v = v.
Proof. intros [_ Hm]. unfold page_of. rewrite (Z.div_mod v 4096) at 2 by lia. lia. Qed.

Lemma page_inj v v' : is_page v → is_page v' → v / 4096 = v' / 4096 → v = v'.
Proof.
  intros Hv Hv' He. rewrite <- (page_of_id v), <- (page_of_id v') by done.
  unfold page_of. by rewrite He.
Qed.

(** ** Agreement of the three tables

    [Ow] says whose page is in a frame, [P] gives the valid entries of the page
    tables, [U] the slots of swap space in use, [D] what they hold. *)

Section agreement.
Context {page : Type}.
Implicit Types (Ow : Z → option (positive * Z)) (P : positive → Z → option pte)
  (U : Z → Prop) (D F : gmap Z page).

Record pages_ok Ow P U D : Prop := {
  p_owner : ∀ p a v, Ow p = Some (a, v) →
    is_page v ∧ ∃ e, P a v = Some e ∧ in_mem e = true ∧ ppn e = p;
  p_mem : ∀ a v e, is_page v → P a v = Some e → in_mem e = true → Ow (ppn e) = Some (a, v);
  p_swap : ∀ a v e, is_page v → P a v = Some e → in_mem e = false →
    U (swap_offset e) ∧ is_Some (D !! swap_offset e);
  p_distinct : ∀ a v e a' v' e', is_page v → is_page v' →
    P a v = Some e → P a' v' = Some e' → in_mem e = false → in_mem e' = false →
    swap_offset e = swap_offset e' → a = a' ∧ v = v';
}.

(** What the page holds. *)
Definition holds (P : positive → Z → option pte) F D (a : positive) (v : Z) : option page :=
  e ← P a v; if in_mem e then F !! ppn e else D !! swap_offset e.

(** The owner of one frame, or the entry of one page, is changed. *)
Definition owner_upd Ow Ow' (p : Z) (o : option (positive * Z)) : Prop :=
  ∀ q, Ow' q = if decide (q = p) then o else Ow q.
Definition pte_upd P P' (a : positive) (v : Z) (e : pte) : Prop :=
  ∀ a' v', is_page v' → P' a' v' = if decide (a' = a ∧ v' = v) then Some e else P a' v'.

Lemma pages_out Ow P U D Ow' P' (U' : Z → Prop) D' p a v e e' :
  pages_ok Ow P U D → Ow p = Some (a, v) → P a v = Some e →
  ¬ U (swap_offset e') → in_mem e' = false → is_Some (D' !! swap_offset e') →
  (∀ o, o ≠ swap_offset e' → D' !! o = D !! o) →
  (∀ o, U' o ↔ o = swap_offset e' ∨ U o) →
  owner_upd Ow Ow' p None → pte_upd P P' a v e' →
  pages_ok Ow' P' U' D'.
Proof.
  intros [Ho Hm Hs Hd] Hp He Hfree Hout HD HD' HU HO HP.
  destruct (Ho p a v Hp) as (Hv & e0 & He0 & Hin & Hppn). simplify_eq.
  constructor.
  - intros q a1 v1. rewrite HO. case_decide as Hq; [done|]. intros Hq1.
    destruct (Ho q a1 v1 Hq1) as (Hv1 & e1 & He1 & Hin1 & Hp1). split; [done|].
    exists e1. rewrite HP by done. rewrite decide_False; [done|]. intros [-> ->]. congruence.
  - intros a1 v1 e1 Hv1. rewrite HP by done. case_decide as Ha.
    + intros [= <-]. congruence.
    + intros He1 Hin1. rewrite HO, decide_False; [by apply Hm|].
      intros Heq. pose proof (Hm a1 v1 e1 Hv1 He1 Hin1) as Hx. rewrite Heq in Hx. naive_solver.
  - intros a1 v1 e1 Hv1. rewrite HP by done. case_decide.
    + intros [= <-] _. rewrite HU. auto.
    + intros He1 Hin1. destruct (Hs a1 v1 e1 Hv1 He1 Hin1) as [HU1 HD1]. rewrite HU.
      split; [by right|]. rewrite HD'; [done|]. intros Heq. rewrite Heq in HU1. done.
  - intros a1 v1 e1 a2 v2 e2 Hv1 Hv2. rewrite !HP by done.
    case_decide as H1; case_decide as H2; intros HP1 HP2 Hin1 Hin2 Heq; simplify_eq.
    + naive_solver.
    + exfalso. destruct (Hs a2 v2 e2 Hv2 HP2 Hin2) as [HU1 _]. rewrite <- Heq in HU1. done.
    + exfalso. destruct (Hs a1 v1 e1 Hv1 HP1 Hin1) as [HU1 _]. rewrite Heq in HU1. done.
    + by apply (Hd a1 v1 e1 a2 v2 e2).
Qed.

Lemma pages_in Ow P U D Ow' P' (U' : Z → Prop) p a v e' :
  pages_ok Ow P U D → Ow p = None → is_page v →
  (∀ e, P a v = Some e → in_mem e = false) →
  in_mem e' = true → ppn e' = p →
  (∀ o, U' o ↔ U o ∧ ∀ e, P a v = Some e → o ≠ swap_offset e) →
  owner_upd Ow Ow' p (Some (a, v)) → pte_upd P P' a v e' →
  pages_ok Ow' P' U' D.
Proof.
  intros [Ho Hm Hs Hd] Hp Hv Hout Hin' Hpp HU HO HP. constructor.
  - intros q a1 v1. rewrite HO. case_decide as Hq.
    + intros [= <- <-]. split; [done|]. exists e'. rewrite HP by done.
      rewrite decide_True by done. by subst.
    + intros Hq1. destruct (Ho q a1 v1 Hq1) as (Hv1 & e1 & He1 & Hin1 & Hp1). split; [done|].
      exists e1. rewrite HP by done. rewrite decide_False; [done|]. intros [-> ->].
      specialize (Hout e1 He1). congruence.
  - intros a1 v1 e1 Hv1. rewrite HP, HO by done. case_decide as Ha.
    + destruct Ha as [-> ->]. intros [= <-] _. by rewrite decide_True.
    + intros He1 Hin1. pose proof (Hm a1 v1 e1 Hv1 He1 Hin1) as Hx.
      rewrite decide_False; [done|]. intros Heq. congruence.
  - intros a1 v1 e1 Hv1. rewrite HP by done. case_decide as Ha.
    + intros [= <-]. congruence.
    + intros He1 Hin1. destruct (Hs a1 v1 e1 Hv1 He1 Hin1) as [HU1 HD1]. rewrite HU.
      split_and!; try done. intros e He Heq. apply Ha.
      by apply (Hd a1 v1 e1 a v e); auto.
  - intros a1 v1 e1 a2 v2 e2 Hv1 Hv2. rewrite !HP by done.
    case_decide as H1; case_decide as H2; intros HP1 HP2 Hin1 Hin2 Heq; simplify_eq; try congruence.
    by apply (Hd a1 v1 e1 a2 v2 e2).
Qed.

(** Changing nothing but flags of an entry. *)
Lemma pages_flags Ow P U D P' a v e e' :
  pages_ok Ow P U D → is_page v → P a v = Some e →
  in_mem e' = in_mem e → swap_offset e' = swap_offset e → ppn e' = ppn e →
  pte_upd P P' a v e' → pages_ok Ow P' U D.
Proof.
  intros [Ho Hm Hs Hd] Hv He E1 E2 E3 HP.
  assert (∀ a1 v1 e1, is_page v1 → P' a1 v1 = Some e1 → ∃ e2, P a1 v1 = Some e2 ∧
    in_mem e1 = in_mem e2 ∧ swap_offset e1 = swap_offset e2 ∧ ppn e1 = ppn e2) as Hback.
  { intros a1 v1 e1 Hv1. rewrite HP by done. case_decide as Ha; [|by eauto].
    destruct Ha as [-> ->]. intros [= <-]. by exists e. }
  constructor.
  - intros q a1 v1 Hq. destruct (Ho q a1 v1 Hq) as (Hv1 & e1 & He1 & Hin1 & Hp1).
    split; [done|]. rewrite HP by done. case_decide as Ha; [|by exists e1].
    destruct Ha as [-> ->]. exists e'. simplify_eq. split_and!; congruence.
  - intros a1 v1 e1 Hv1 (e2 & He2 & -> & _ & ->)%Hback; [|done]. by apply Hm.
  - intros a1 v1 e1 Hv1 (e2 & He2 & -> & -> & _)%Hback; [|done]. by apply (Hs a1 v1).
  - intros a1 v1 e1 a2 v2 e2 Hv1 Hv2 (e3 & He3 & -> & -> & _)%Hback (e4 & He4 & -> & -> & _)%Hback;
      try done. by apply Hd.
Qed.

Lemma pages_ok_ext Ow P U D Ow' P' (U' : Z → Prop) D' :
  pages_ok Ow P U D → (∀ p, Ow' p = Ow p) → (∀ a v, is_page v → P' a v = P a v) →
  (∀ o, U' o ↔ U o) → (∀ o, U o → D' !! o = D !! o) → pages_ok Ow' P' U' D'.
Proof.
  intros [Ho Hm Hs Hd] HO HP HU HD. constructor.
  - intros p a v. rewrite HO. intros Hp. destruct (Ho p a v Hp) as (Hv & e & He & H1 & H2).
    split; [done|]. exists e. by rewrite HP.
  - intros a v e Hv. rewrite HP, HO by done. by apply Hm.
  - intros a v e Hv. rewrite HP, HU by done. intros He Hin.
    destruct (Hs a v e Hv He Hin). by rewrite HD.
  - intros a v e a' v' e' Hv Hv'. rewrite !HP by done. by apply Hd.
Qed.

(** A page is given up. *)
Definition pte_drop P P' (a : positive) (v : Z) : Prop :=
  ∀ a' v', is_page v' → P' a' v' = if decide (a' = a ∧ v' = v) then None else P a' v'.

Lemma pages_drop Ow P U D Ow' P' (U' : Z → Prop) a v e :
  pages_ok Ow P U D → is_page v → P a v = Some e →
  (∀ q, Ow' q = if decide (in_mem e = true ∧ q = ppn e) then None else Ow q) →
  (∀ o, U' o ↔ U o ∧ (in_mem e = false → o ≠ swap_offset e)) →
  pte_drop P P' a v → pages_ok Ow' P' U' D.
Proof.
  intros [Ho Hm Hs Hd] Hv He HO HU HP.
  assert (∀ a1 v1 e1, is_page v1 → P' a1 v1 = Some e1 → P a1 v1 = Some e1 ∧ ¬ (a1 = a ∧ v1 = v)) as Hback.
  { intros a1 v1 e1 Hv1. rewrite (HP a1 v1 Hv1).
    destruct (decide (a1 = a ∧ v1 = v)) as [|Hne]; [done|]. intros H1. exact (conj H1 Hne). }
  constructor.
  - intros q a1 v1. rewrite HO. destruct (decide (in_mem e = true ∧ q = ppn e)) as [|Hq]; [done|]. intros Hq1.
    destruct (Ho q a1 v1 Hq1) as (Hv1 & e1 & He1 & Hin1 & Hp1). split; [done|].
    exists e1. rewrite HP by done. rewrite decide_False; [done|]. intros [-> ->]. simplify_eq. by destruct Hq.
  - intros a1 v1 e1 Hv1 [He1 Hne]%Hback; [|done]. intros Hin1. pose proof (Hm a1 v1 e1 Hv1 He1 Hin1) as Hx.
    rewrite HO, decide_False; [done|]. intros [Hin Heq]. rewrite Heq in Hx.
    rewrite (Hm a v e Hv He Hin) in Hx. apply Hne. by injection Hx as -> ->.
  - intros a1 v1 e1 Hv1 [He1 Hne]%Hback; [|done]. intros Hin1. destruct (Hs a1 v1 e1 Hv1 He1 Hin1).
    rewrite HU. split_and!; try done. intros Hin Heq. apply Hne.
    by apply (Hd a1 v1 e1 a v e).
  - intros a1 v1 e1 a2 v2 e2 Hv1 Hv2 [He1 _]%Hback [He2 _]%Hback; try done. by apply Hd.
Qed.

(** What the pages hold after a page went out, or came in. *)
Lemma holds_out Ow P U D Ow' P' F D' p a v e e' a1 v1 :
  pages_ok Ow P U D → Ow p = Some (a, v) → P a v = Some e →
  ¬ U (swap_offset e') → in_mem e' = false → D' !! swap_offset e' = F !! p →
  (∀ o, o ≠ swap_offset e' → D' !! o = D !! o) →
  owner_upd Ow Ow' p None → pte_upd P P' a v e' → is_page v1 →
  holds P' F D' a1 v1 = holds P F D a1 v1.
Proof.
  intros [Ho Hm Hs Hd] Hp He Hfree Hout HD HD' HO HP Hv1.
  destruct (Ho p a v Hp) as (Hv & e0 & He0 & Hin & Hppn). simplify_eq.
  unfold holds. rewrite HP by done. case_decide as Ha.
  - destruct Ha as [-> ->]. rewrite He. simpl. by rewrite Hout, Hin.
  - destruct (P a1 v1) as [e1|] eqn:He1; [|done]. simpl. destruct (in_mem e1) eqn:Hin1; [done|].
    apply HD'. intros Heq. destruct (Hs a1 v1 e1 Hv1 He1 Hin1) as [HU _]. by rewrite Heq in HU.
Qed.

Lemma holds_in Ow P U D P' F F' p a v e' a1 v1 :
  pages_ok Ow P U D → Ow p = None → in_mem e' = true → ppn e' = p →
  (∀ q, q ≠ p → F' !! q = F !! q) → pte_upd P P' a v e' → is_page v1 →
  holds P' F' D a1 v1 = if decide (a1 = a ∧ v1 = v) then F' !! p else holds P F D a1 v1.
Proof.
  intros [Ho Hm Hs Hd] Hp Hin Hpp HF HP Hv1. unfold holds. rewrite HP by done. case_decide.
  - simpl. by rewrite Hin, Hpp.
  - destruct (P a1 v1) as [e1|] eqn:He1; [|done]. simpl. destruct (in_mem e1) eqn:Hin1; [|done].
    apply HF. intros Heq. pose proof (Hm a1 v1 e1 Hv1 He1 Hin1). congruence.
Qed.
End agreement.

End VmPages.
