(* ===== verification/VmEvict.v ===== *)
(** * Eviction and page allocation (kern/arch/mips/vm/vm.c)

    The invariant of the VM system, and the proof that [evict_one],
    [alloc_kpages] and [alloc_user_page] keep it, end, and change neither the
    contents of any page nor any address space otherwise. *)

From Stdlib Require Import ZArith Lia.
From stdpp Require Import base numbers list gmap.
From S2P Require Import Prelude Bitmap Coremap PageTable Swap Tlb Vm VmPages.

Module VmEvict.
Import Coremap PageTable Tlb Vm VmPages.

(** Whose page a frame holds. *)
Definition owner_at (c : coremap) (p : Z) : option (positive * Z) :=
  e ← znth (entries c) p; a ← owner e; Some (a, vaddr e).

(** The blocks [B] of the coremap are the kernel's blocks [K] and the pages of
    address spaces. *)
Definition kernel_part (c : coremap) (K B : gmap Z Z) : Prop :=
  (∀ st n, B !! st = Some n ↔ K !! st = Some n ∨ n = 1 ∧ is_Some (owner_at c st)) ∧
  (∀ st, is_Some (K !! st) → owner_at c st = None).

Section inv.
Context {page : Type}.
Implicit Types (s : vm page) (K B : gmap Z Z).

(** The valid entry of a page. *)
Definition pte_at s (a : positive) (v : Z) : option pte :=
  x ← ases s !! a; mapped (pt x) v.

(** What a page of an address space holds, wherever it is. *)
Definition content s : positive → Z → option page :=
  holds (pte_at s) (frames s) (Swap.disk (sw s)).

Definition owned_entry (p : Z) (e : cm_entry) : Prop :=
  kernel_page e = false ∧ busy e = false ∧ pp_num e = p.

(** [K]: the blocks of the kernel; [cur]: the address space that the TLB
    translates for. *)
Record inv K (cur : option positive) s : Prop := {
  i_first : 0 < first_page (cm s) ∧ last_page (cm s) ≤ 2 ^ 20;
  i_blocks : ∃ B, blocks (cm s) B ∧ kernel_part (cm s) K B;
  i_owned : ∀ p e a, znth (entries (cm s)) p = Some e → owner e = Some a → owned_entry p e;
  i_kernel : ∀ p e, is_Some (K !! p) → znth (entries (cm s)) p = Some e →
    busy e = false ∧ pp_num e = p;
  i_pages : pages_ok (owner_at (cm s)) (pte_at s) (Swap.slot_used (sw s)) (Swap.disk (sw s));
  i_pt : ∀ a x, ases s !! a = Some x → pt_wf (pt x);
  i_frames : ∀ p, first_page (cm s) ≤ p < last_page (cm s) → is_Some (frames s !! p);
  i_sw : Swap.swap_wf (sw s);
  i_tlb : tlb_wf (mmu s);
  i_tlb_lock : tlb_spinlock (mmu s) = false;
  i_maps : ∀ p lo, maps (mmu s) p lo → ∃ a e,
    cur = Some a ∧ pte_at s a p = Some e ∧ in_mem e = true ∧ lo = entrylo_of e;
}.

(** The parts of an address space that paging does not change. *)
Record as_like (x x' : addrspace) : Prop := {
  al_lock : as_lock x' = as_lock x;
  al_regions : region_list x' = region_list x;
  al_start : heap_start x' = heap_start x;
  al_end : heap_end x' = heap_end x;
  al_stack : stack_base x' = stack_base x;
  al_mapped : ∀ v, is_page v →
    readonly <$> mapped (pt x') v = readonly <$> mapped (pt x) v;
  al_l2 : ∀ v, needs_l2 (pt x') v = needs_l2 (pt x) v;
}.

#[export] Instance as_like_refl : Reflexive as_like.
Proof. by constructor. Qed.
#[export] Instance as_like_trans : Transitive as_like.
Proof.
  intros x y z [? ? ? ? ? H1 ?] [? ? ? ? ? H2 ?]. constructor; try congruence.
  intros v Hv. by rewrite H2, H1.
Qed.

(** [paged s s']: from [s] to [s'] nothing was done but moving pages out. *)
Record paged s s' : Prop := {
  pg_as : ∀ a, option_Forall2 as_like (ases s !! a) (ases s' !! a);
  pg_content : ∀ a v, is_page v → content s' a v = content s a v;
  pg_owner : ∀ p o, owner_at (cm s') p = Some o → owner_at (cm s) p = Some o;
  pg_first : first_page (cm s') = first_page (cm s);
  pg_last : last_page (cm s') = last_page (cm s);
  pg_frames : frames s' = frames s;
  pg_maps : ∀ p lo, maps (mmu s') p lo → maps (mmu s) p lo;
}.

#[export] Instance paged_refl : Reflexive paged.
Proof. by constructor. Qed.
#[export] Instance paged_trans : Transitive paged.
Proof.
  intros s1 s2 s3 [H1 H2 H3 H4 H5 H6 H7] [G1 G2 G3 G4 G5 G6 G7]. constructor.
  - intros a. by etrans; [apply H1|apply G1].
  - intros a v Hv. by rewrite G2, H2.
  - intros p o Ho. by apply H3, G3.
  - by rewrite G4.
  - by rewrite G5.
  - by rewrite G6.
  - intros p lo Hm. by apply H7, G7.
Qed.

(** No page belongs to an address space that this thread has locked. *)
Definition no_locked_owner s : Prop :=
  ∀ p a v x, owner_at (cm s) p = Some (a, v) → ases s !! a = Some x → as_lock x = false.

(** ** Rules for the parts of the state *)

Lemma wp_in_cm {A} (m : M coremap A) (Q : A → vm page → Prop) s :
  wp m (λ a c, Q a (set_cm c s)) (cm s) → wp (in_cm m) Q s.
Proof. unfold wp, in_cm. by destruct (m (cm s)) as [[a c]|]. Qed.

Lemma wp_in_sw {A} (m : M (Swap.swapst page) A) (Q : A → vm page → Prop) s :
  wp m (λ a w, Q a (set_sw w s)) (sw s) → wp (in_sw m) Q s.
Proof. unfold wp, in_sw. by destruct (m (sw s)) as [[a c]|]. Qed.

Lemma wp_in_tlb {A} (m : M tlb A) (Q : A → vm page → Prop) s :
  wp m (λ a t, Q a (set_mmu t s)) (mmu s) → wp (in_tlb m) Q s.
Proof. unfold wp, in_tlb. by destruct (m (mmu s)) as [[a c]|]. Qed.

Lemma wp_as_get a x (Q : addrspace → vm page → Prop) s :
  ases s !! a = Some x → Q x s → wp (as_get a) Q s.
Proof. intros Hx HQ. unfold as_get. wp_go. by eapply wp_deref. Qed.

Lemma wp_as_set a x x' (Q : unit → vm page → Prop) s :
  ases s !! a = Some x → Q tt (set_ases (<[a := x']> (ases s)) s) → wp (as_set a x') Q s.
Proof. intros Hx HQ. unfold as_set. wp_go. eapply wp_as_get; [done|]. by wp_go. Qed.

Lemma wp_as_acquire a x (Q : unit → vm page → Prop) s :
  ases s !! a = Some x → as_lock x = false →
  Q tt (set_ases (<[a := with_as_lock x true]> (ases s)) s) → wp (as_acquire a) Q s.
Proof.
  intros Hx Hl HQ. unfold as_acquire. wp_go. eapply wp_as_get; [done|]. rewrite Hl.
  wp_check. by eapply wp_as_set.
Qed.

Lemma wp_as_release a x (Q : unit → vm page → Prop) s :
  ases s !! a = Some x → as_lock x = true →
  Q tt (set_ases (<[a := with_as_lock x false]> (ases s)) s) → wp (as_release a) Q s.
Proof.
  intros Hx Hl HQ. unfold as_release. wp_go. eapply wp_as_get; [done|]. rewrite Hl.
  wp_check. by eapply wp_as_set.
Qed.

Lemma wp_pte_set a x v e (Q : unit → vm page → Prop) s :
  ases s !! a = Some x →
  Q tt (set_ases (<[a := with_pt x (pt_store (pt x) v e)]> (ases s)) s) → wp (pte_set a v e) Q s.
Proof.
  intros Hx HQ. unfold pte_set. wp_go. eapply wp_as_get; [done|]. by eapply wp_as_set.
Qed.

Lemma wp_frame_get p f (Q : page → vm page → Prop) s :
  frames s !! p = Some f → Q f s → wp (frame_get p) Q s.
Proof. intros Hx HQ. unfold frame_get. wp_go. by eapply wp_deref. Qed.

Lemma wp_frame_set p f (Q : unit → vm page → Prop) s :
  is_Some (frames s !! p) → Q tt (set_frames (<[p := f]> (frames s)) s) → wp (frame_set p f) Q s.
Proof. intros [f0 Hx] HQ. unfold frame_set. wp_go. eapply wp_frame_get; [done|]. by wp_go. Qed.

Lemma wp_set_busy c p e b (Q : unit → coremap → Prop) :
  znth (entries c) p = Some e →
  Q tt (set_entries (zset (entries c) p (with_busy e b)) c) → wp (set_busy p b) Q c.
Proof. intros He HQ. unfold set_busy. wp_go. eapply wp_entry; [done|]. by eapply wp_set_entry. Qed.

(** ** Small facts *)

Lemma owner_at_entry c p e : znth (entries c) p = Some e →
  owner_at c p = (λ a, (a, vaddr e)) <$> owner e.
Proof. intros He. unfold owner_at. rewrite He. simpl. by destruct (owner e). Qed.

Lemma owner_at_Some c p a v :
  owner_at c p = Some (a, v) → ∃ e, znth (entries c) p = Some e ∧ owner e = Some a ∧ vaddr e = v.
Proof.
  unfold owner_at. destruct (znth (entries c) p) as [e|]; [|done]. simpl.
  destruct (owner e) as [a'|] eqn:Ho; [|done]. simpl. intros [= -> <-]. eauto.
Qed.

Lemma owner_at_set c p e q : 0 ≤ p < Z.of_nat (length (entries c)) →
  owner_at (set_entries (zset (entries c) p e) c) q =
    if decide (q = p) then (λ a, (a, vaddr e)) <$> owner e else owner_at c q.
Proof.
  intros Hp. unfold owner_at. simpl. case_decide as Hq.
  - subst. rewrite znth_zset_eq by done. simpl. by destruct (owner e).
  - by rewrite znth_zset_ne by lia.
Qed.

(** One address space is changed. *)
Definition as_upd s s' (a : positive) (x' : addrspace) : Prop :=
  ∀ b, ases s' !! b = if decide (b = a) then Some x' else ases s !! b.

(** An update of one entry of one page table. *)
Lemma pte_at_store s s' a x x' v e0 e :
  ases s !! a = Some x → as_upd s s' a x' → is_page v →
  pagetable_lookup (pt x) v = Some e0 → valid e = true → pt x' = pt_store (pt x) v e →
  pte_upd (pte_at s) (pte_at s') a v e.
Proof.
  intros Hx Hs' [Hv Hm] He0 Hval Hx' a' v' [Hv' Hm']. unfold pte_at. rewrite Hs'.
  destruct (decide (a' = a)) as [->|Hne].
  - rewrite Hx. simpl. rewrite Hx', (mapped_store _ v v' e e0) by done.
    case_decide as H1; case_decide as H2; try done.
    + destruct H2. split; [done|]. symmetry. by apply page_inj.
    + destruct H1. by destruct H2 as [_ ->].
  - by rewrite decide_False by naive_solver.
Qed.

Lemma mapped_lookup (q : pagetable) v e :
  mapped q v = Some e → pagetable_lookup q v = Some e ∧ valid e = true.
Proof.
  unfold mapped. destruct (pagetable_lookup q v) as [e'|]; [|done].
  destruct (valid e') eqn:Hv; naive_solver.
Qed.

Lemma needs_l2_store (q : pagetable) v e v' :
  needs_l2 (pt_store q v e) v' = needs_l2 q v'.
Proof.
  unfold needs_l2, pt_store. destruct (znth q (GET_L1_INDEX v)) as [[[ad l2]|]|] eqn:Hl; try done.
  pose proof (znth_Some_range _ _ _ Hl).
  destruct (decide (GET_L1_INDEX v = GET_L1_INDEX v')) as [<-|].
  - by rewrite znth_zset_eq, Hl.
  - by rewrite znth_zset_ne by lia.
Qed.

Lemma maps_page t p lo : tlb_wf t → maps t p lo → is_page p ∧ p < 2 ^ 31.
Proof.
  intros Hwf (i & e & Hi & <- & Hv & _). pose proof (t_user t Hwf i e Hi Hv).
  split; [|lia]. split; [unfold is_vaddr; lia|].
  unfold vpage, TLBHI_VPAGE. change 4096 with (2 ^ 12). rewrite <- Z.land_ones by lia.
  rewrite <- Z.land_assoc. change (Z.land 4294963200 (Z.ones 12)) with 0. apply Z.land_0_r.
Qed.

Lemma owner_freed c c' p q :
  block_freed c c' p 1 → owner_at c' q = if decide (q = p) then None else owner_at c q.
Proof.
  intros Hf. unfold owner_at. rewrite Hf. destruct (decide (q = p)) as [->|].
  - rewrite decide_True by lia. by destruct (znth (entries c) p).
  - by rewrite decide_False by lia.
Qed.

(** A page that belongs to an address space is a block of its own. *)
Lemma owned_block c K B p o :
  kernel_part c K B → owner_at c p = Some o → B !! p = Some 1 ∧ K !! p = None.
Proof.
  intros [HB HK] Ho. split.
  - apply HB. right. by rewrite Ho.
  - destruct (K !! p) eqn:Hp; [|done]. rewrite HK in Ho; by eauto.
Qed.

Lemma kernel_part_freed c c' K B p :
  kernel_part c K B → is_Some (owner_at c p) → block_freed c c' p 1 →
  kernel_part c' K (delete p B).
Proof.
  intros Hk [o Ho] Hf. destruct (owned_block c K B p o Hk Ho) as [_ HKp]. destruct Hk as [HB HK].
  split.
  - intros st n. rewrite (owner_freed c c' p st Hf), lookup_delete_Some, HB.
    case_decide as Hst; [subst; rewrite HKp|]; naive_solver.
  - intros st Hst. rewrite (owner_freed c c' p st Hf). case_decide; [done|]. by apply HK.
Qed.

(** The entry of a page that was written out. *)
Definition out_pte (e : pte) (off : Z) : pte := mkPte (valid e) false (readonly e) false off 0.

Lemma as_like_store x v e e' :
  is_page v → mapped (pt x) v = Some e → valid e' = true → readonly e' = readonly e →
  as_like x (with_pt x (pt_store (pt x) v e')).
Proof.
  intros [Hv _] He Hval Hro. destruct (mapped_lookup _ _ _ He) as [Hl _].
  constructor; try done; simpl; [|intros v'; apply needs_l2_store].
  intros v' [Hv' _]. rewrite (mapped_store (pt x) v v' e' e) by done.
  case_decide as Heq; [|done]. rewrite <- (mapped_page (pt x) v v'), He by done.
  simpl. by rewrite Hro.
Qed.

Section evicted.
Context (K : gmap Z Z) (cur : option positive) (s : vm page).
Context (p : Z) (a : positive) (v off : Z) (x : addrspace) (e : pte).
Context (c' : coremap) (idx : Z) (w' : Swap.swapst page) (m' : gmap positive addrspace) (t' : tlb).
Context (Hinv : inv K cur s).
Context (Hown : owner_at (cm s) p = Some (a, v)) (Hx : ases s !! a = Some x)
  (He : pte_at s a v = Some e).
Context (Hc1 : same_but_entries (cm s) c') (Hc2 : cm_page_count c' = cm_page_count (cm s) - 1)
  (Hc3 : block_freed (cm s) c' p 1).
Context (Hw1 : Swap.swap_wf w') (Hw2 : ¬ Swap.slot_used (sw s) off)
  (Hw3 : ∀ o, Swap.slot_used w' o ↔ o = off ∨ Swap.slot_used (sw s) o)
  (Hw4 : Swap.disk w' !! off = frames s !! p)
  (Hw5 : ∀ o, o ≠ off → Swap.disk w' !! o = Swap.disk (sw s) !! o).
Let s' := mkVm c' idx (frames s) w' m' t'.
Context (Hm' : as_upd s s' a (with_pt x (pt_store (pt x) v (out_pte e off)))).
Context (Ht' : shot_down (mmu s) v t').

Local Lemma evicted_facts :
  is_page v ∧ first_page (cm s) ≤ p < last_page (cm s) ∧ mapped (pt x) v = Some e ∧
  valid e = true ∧ pte_upd (pte_at s) (pte_at s') a v (out_pte e off) ∧
  owner_upd (owner_at (cm s)) (owner_at c') p None.
Proof.
  pose proof Hinv as [_ (B & HB & HK) _ _ Hpg _ _ _ _ _ _].
  destruct (p_owner _ _ _ _ Hpg p a v Hown) as (Hv & _).
  destruct (owned_block _ _ _ _ _ HK Hown) as [HBp _].
  destruct (b_block _ _ HB p 1 HBp) as (_ & H1 & H2).
  pose proof He as Hmap. unfold pte_at in Hmap. rewrite Hx in Hmap. simpl in Hmap.
  destruct (mapped_lookup _ _ _ Hmap) as [Hlk Hval].
  split_and!; try done; try lia.
  - by apply (pte_at_store s s' a x _ v e (out_pte e off) Hx Hm').
  - intros q. by apply owner_freed.
Qed.

Lemma paged_evicted : paged s s'.
Proof.
  destruct evicted_facts as (Hv & Hp & Hmap & Hval & HP & HO).
  pose proof Hinv as [_ _ _ _ Hpg _ _ _ _ _ _]. destruct Hc1 as (H1 & H2 & _).
  constructor; try done; simpl.
  - intros b. rewrite Hm'. case_decide as Hb.
    + subst b. rewrite Hx. constructor. by eapply as_like_store.
    + by destruct (ases s !! b); constructor.
  - intros a1 v1 Hv1. by apply (holds_out _ _ _ _ _ _ _ _ p a v e (out_pte e off) a1 v1 Hpg Hown He Hw2
      eq_refl Hw4 Hw5 HO HP).
  - intros q o. rewrite HO. by case_decide.
  - intros q lo Hq. by apply Ht' in Hq as [Hq _].
Qed.

Lemma inv_evicted : inv K cur s'.
Proof.
  destruct evicted_facts as (Hv & Hp & Hmap & Hval & HP & HO).
  pose proof Hinv as [Hf (B & HB & HK) Hoe Hke Hpg Hpt Hfr Hsw Ht Htl Hmaps].
  destruct (owned_block _ _ _ _ _ HK Hown) as [HBp _].
  pose proof Hc1 as (H1 & H2 & _). constructor; simpl; rewrite ?H1, ?H2; try done.
  - exists (delete p B). split; [by eapply blocks_free|]. eapply kernel_part_freed; eauto.
  - intros q e1 a1. rewrite Hc3. case_decide; [|by apply Hoe].
    destruct (znth (entries (cm s)) q); [|done]. by intros [= <-].
  - intros q e1 Hq. rewrite Hc3, decide_False; [by apply Hke|].
    intros Hqp. replace q with p in Hq by lia.
    destruct (owned_block _ _ _ _ _ HK Hown) as [_ HKp]. rewrite HKp in Hq. by destruct Hq.
  - apply (pages_out _ _ _ _ _ _ _ _ p a v e (out_pte e off) Hpg); try done.
    simpl. rewrite Hw4. by apply Hfr.
  - intros b y. rewrite Hm'. case_decide; [|by apply Hpt]. intros [= <-]. simpl.
    by apply pt_wf_store, (Hpt a).
  - apply Ht'.
  - apply Ht'.
  - intros q lo Hq. apply Ht' in Hq as [Hq Hne].
    destruct (maps_page _ _ _ Ht Hq) as [Hpq _].
    destruct (Hmaps q lo Hq) as (a1 & e1 & Hcur & He1 & Hin & Hlo). exists a1, e1.
    split_and!; try done. rewrite HP by done. by rewrite decide_False by naive_solver.
Qed.
End evicted.


(** Swap space may change where no page is. *)
Lemma inv_sw K cur s i w' :
  inv K cur s → Swap.swap_wf w' →
  (∀ o, Swap.slot_used w' o ↔ Swap.slot_used (sw s) o) →
  (∀ o, Swap.slot_used (sw s) o → Swap.disk w' !! o = Swap.disk (sw s) !! o) →
  inv K cur (set_index i (set_sw w' s)) ∧ paged s (set_index i (set_sw w' s)).
Proof.
  intros [Hf HB Hoe Hke Hpg Hpt Hfr Hsw Ht Htl Hmaps] Hw HU HD. split.
  - constructor; try done. by eapply pages_ok_ext.
  - constructor; try done; simpl.
    intros a v Hv. unfold content, holds. simpl. change (pte_at _ a v) with (pte_at s a v).
    destruct (pte_at s a v) as [e|] eqn:He; [|done]. simpl.
    destruct (in_mem e) eqn:Hin; [done|]. by apply HD, (p_swap _ _ _ _ Hpg a v e).
Qed.

(** The state while a victim is being worked on: its frame is busy and its
    owner locked. *)
Definition grabbed s (a : positive) (x : addrspace) (p : Z) (e : cm_entry) (i : Z)
    (w : Swap.swapst page) : vm page :=
  mkVm (set_entries (zset (entries (cm s)) p (with_busy e true)) (cm s)) i (frames s) w
    (<[a := with_as_lock x true]> (ases s)) (mmu s).

Lemma wp_unbusy s a x p e i w (Q : unit → vm page → Prop) :
  ases s !! a = Some x → as_lock x = false → znth (entries (cm s)) p = Some e →
  busy e = false → cm_spinlock (cm s) = false →
  Q tt (set_index i (set_sw w s)) → wp (unbusy a p) Q (grabbed s a x p e i w).
Proof.
  intros Hx Hl He Hb Hk HQ. pose proof (znth_Some_range _ _ _ He).
  unfold unbusy. wp_go. eapply wp_as_release; [apply lookup_insert_eq|done|]. wp_go.
  apply wp_in_cm, wp_cm_acquire; [done|]. wp_go.
  apply wp_in_cm. eapply wp_set_busy; [by apply znth_zset_eq|]. wp_go.
  apply wp_in_cm, wp_cm_release; [done|].
  assert (with_as_lock (with_as_lock x true) false = x) as Hxx
    by (destruct x; simpl in *; by subst).
  assert (with_busy (with_busy e true) false = e) as Hee by (destruct e; simpl in *; by subst).
  unfold grabbed, set_ases, set_cm, set_index, set_sw in *. simpl in *.
  rewrite Hxx, Hee, insert_insert_eq, insert_id, zset_zset, zset_id by done.
  destruct s as [[] ? ? ? ? ?]. simpl in *. by subst.
Qed.

(** How many frames hold pages of address spaces. *)
Definition owned_count (c : coremap) : nat :=
  length (filter (λ e, is_Some (owner e)) (entries c)).

Lemma owned_count_freed c p e e' :
  znth (entries c) p = Some e → is_Some (owner e) → owner e' = None →
  (owned_count (set_entries (zset (entries c) p e') c) < owned_count c)%nat.
Proof.
  intros He Ho He'. pose proof (znth_Some_range _ _ _ He). rewrite znth_lookup in He by lia.
  unfold owned_count, zset. simpl. rewrite insert_take_drop by (by apply lookup_lt_Some in He).
  rewrite <- (take_drop_middle _ _ _ He) at 3. rewrite !filter_app, !length_app.
  rewrite filter_cons_False by (rewrite He'; by intros []).
  rewrite filter_cons_True by done. simpl. lia.
Qed.

(** Why eviction may fail: there is nothing to evict, no slot to write it to, or
    the device does not work. *)
Definition evict_reason s : Prop :=
  (∀ p, owner_at (cm s) p = None) ∨ Swap.swap_full (sw s) ∨ Swap.io_fails (sw s).

(** The result of [evict_one]. *)
Definition evict_post K cur s (r : result Z) (s' : vm page) : Prop :=
  inv K cur s' ∧ paged s s' ∧
  match r with
  | Ok p => is_Some (owner_at (cm s) p) ∧ is_used (cm s') p = false ∧
            (owned_count (cm s') < owned_count (cm s))%nat
  | Err e => 0 < e ∧ cm s' = cm s ∧ ases s' = ases s ∧ mmu s' = mmu s ∧ evict_reason s
  end.

Lemma evict_post_err K cur s e i w' :
  inv K cur s → evict_reason s → 0 < e → Swap.swap_wf w' →
  (∀ o, Swap.slot_used w' o ↔ Swap.slot_used (sw s) o) →
  (∀ o, Swap.slot_used (sw s) o → Swap.disk w' !! o = Swap.disk (sw s) !! o) →
  evict_post K cur s (Err e) (set_index i (set_sw w' s)).
Proof.
  intros Hinv Hreason Hpos Hw HU HD. destruct (inv_sw K cur s i w' Hinv Hw HU HD).
  by split_and!.
Qed.

Lemma slot_aligned (w : Swap.swapst page) o : Swap.slot_used w o → o mod Swap.PAGE_SIZE = 0.
Proof. intros (i & -> & _). by apply Z.mod_mul. Qed.


(** Writing out a victim. *)
Section victim.
Context (K : gmap Z Z) (cur : option positive) (s : vm page).
Context (p : Z) (ce : cm_entry) (a : positive) (x : addrspace) (e : pte) (i : Z).
Context (Hinv : inv K cur s).
Context (Hce : znth (entries (cm s)) p = Some ce) (Hoa : owner ce = Some a).
Context (Hx : ases s !! a = Some x) (Hl : as_lock x = false).
Context (He : pte_at s a (vaddr ce) = Some e).

Local Lemma victim_facts :
  owner_at (cm s) p = Some (a, vaddr ce) ∧ owned_entry p ce ∧ is_page (vaddr ce) ∧
  first_page (cm s) ≤ p < last_page (cm s) ∧ cm_spinlock (cm s) = false ∧
  in_mem e = true ∧ ppn e = p ∧ 0 ≤ p < Z.of_nat (length (entries (cm s))).
Proof.
  pose proof Hinv as [_ (B & HB & HK) Hoe _ Hpg _ _ _ _ _ _].
  assert (owner_at (cm s) p = Some (a, vaddr ce)) as Hown
    by (by rewrite (owner_at_entry _ _ _ Hce), Hoa).
  destruct (p_owner _ _ _ _ Hpg p a (vaddr ce) Hown) as (Hv & e0 & He0 & Hin & Hppn).
  destruct (owned_block _ _ _ _ _ HK Hown) as [HBp _].
  destruct (b_block _ _ HB p 1 HBp) as (_ & H1 & H2).
  simplify_eq. split_and!; try done; try lia; [by apply (Hoe _ _ a)..|by apply HB| |];
    pose proof (znth_Some_range _ _ _ Hce); lia.
Qed.

(** The last steps: the page has been written to the slot at [off]. *)
Lemma evict_page_unmap w' off :
  Swap.swap_wf w' → ¬ Swap.slot_used (sw s) off →
  (∀ o, Swap.slot_used w' o ↔ o = off ∨ Swap.slot_used (sw s) o) →
  Swap.disk w' !! off = frames s !! p →
  (∀ o, o ≠ off → Swap.disk w' !! o = Swap.disk (sw s) !! o) →
  wp (pte_set a (vaddr ce) (out_pte e off) ;;
      in_tlb (vm_tlbshootdown (vaddr ce)) ;;
      as_release a ;; in_cm cm_acquire ;; in_cm (free_ppage p) ;;
      in_cm cm_release ;; mret (Ok p)) (evict_post K cur s) (grabbed s a x p ce i w').
Proof.
  intros Hw1 Hw2 Hw3 Hw4 Hw5.
  destruct victim_facts as (Hown & (Hk & Hb & Hpp) & Hv & Hp & Hlk & Hin & Hppn & Hlen).
  wp_go. eapply wp_pte_set; [apply lookup_insert_eq|]. wp_go. apply wp_in_tlb.
  eapply wp_mono; [|apply vm_tlbshootdown_correct; [by apply (i_tlb _ _ _ Hinv)|
    by apply (i_tlb_lock _ _ _ Hinv)]].
  intros [] t' Ht'. cbn in Ht'. replace (Z.land (vaddr ce) TLBHI_VPAGE) with (vaddr ce) in Ht'.
  2: { change TLBHI_VPAGE with PAGE_FRAME. rewrite page_frame_eq by apply Hv.
       symmetry. by apply page_of_id. }
  wp_go. eapply wp_as_release; [apply lookup_insert_eq|done|]. wp_go.
  apply wp_in_cm, wp_cm_acquire; [done|]. wp_go. apply wp_in_cm.
  eapply wp_free_ppage; [done|by apply znth_zset_eq|]. wp_go.
  apply wp_in_cm, wp_cm_release; [done|]. wp_go. simpl. rewrite zset_zset.
  change (freed (with_busy ce true)) with (freed ce).
  set (c' := set_locked false _).
  assert (block_freed (cm s) c' p 1) as Hbf.
  { intros q. simpl. case_decide as Hq.
    - replace q with p by lia. by rewrite znth_zset_eq, Hce.
    - rewrite znth_zset_ne by lia. done. }
  assert (same_but_entries (cm s) c') as Hsame by (split_and!; simpl; auto using length_zset).
  split_and!.
  - eapply (inv_evicted K cur s p a (vaddr ce) off x e); try done.
    intros b. simpl. rewrite !insert_insert_eq. case_decide as Hba.
    + subst. rewrite lookup_insert_eq. do 2 f_equal. by destruct x; simpl in *; subst.
    + by rewrite lookup_insert_ne.
  - eapply (paged_evicted K cur s p a (vaddr ce) off x e); try done.
    intros b. simpl. rewrite !insert_insert_eq. case_decide as Hba.
    + subst. rewrite lookup_insert_eq. do 2 f_equal. by destruct x; simpl in *; subst.
    + by rewrite lookup_insert_ne.
  - by rewrite Hown.
  - unfold is_used. simpl. by rewrite znth_zset_eq.
  - apply (owned_count_freed (cm s) p ce (freed ce)); [done|by rewrite Hoa|done].
Qed.

Lemma evict_page_correct :
  wp (evict_page p ce a e) (evict_post K cur s) (grabbed s a x p ce i (sw s)).
Proof.
  destruct victim_facts as (Hown & (Hk & Hb & Hpp) & Hv & Hp & Hlk & Hin & Hppn & Hlen).
  pose proof (i_sw _ _ _ Hinv) as Hsw. destruct (i_frames _ _ _ Hinv p Hp) as [f Hf].
  unfold evict_page. wp_go. apply wp_in_sw.
  eapply wp_mono; [|by apply Swap.swap_alloc_correct].
  intros [off|err] w1 (Hw1 & Hd1 & Hs1 & Hr).
  - destruct Hr as (Hpos & Hfree & Hu1). wp_go. rewrite Hpp. eapply wp_frame_get; [done|].
    wp_go. apply wp_in_sw.
    assert (Swap.slot_used w1 off) as Hoff by (apply Hu1; auto).
    eapply wp_mono; [|apply Swap.swap_write_correct; [done|by eapply slot_aligned]].
    intros r w2 (Hw2 & Hbm & Hr0 & Hok & Hbad & Hd2). simpl in Hbm, Hd1, Hd2.
    assert (∀ o, Swap.slot_used w2 o ↔ o = off ∨ Swap.slot_used (sw s) o) as Hu2.
    { intros o. rewrite <- Hu1. unfold Swap.slot_used. by rewrite Hbm. }
    destruct (r =? 0) eqn:Hrz.
    + apply Z.eqb_eq in Hrz. apply evict_page_unmap; try done.
      * rewrite Hf. by apply Hok.
      * intros o Hne. by rewrite Hd2, Hd1.
    + apply Z.eqb_neq in Hrz. cbn [negb]. wp_go. eapply (wp_unbusy s a x p ce i w2); try done.
      wp_go. apply wp_in_sw.
      eapply wp_mono; [|apply Swap.swap_free_correct; [done|apply Hu2; by left]].
      intros [] w3 (Hw3 & Hd3 & _ & Hu3). wp_go.
      apply (evict_post_err K cur s r i w3); try done; [|lia|..].
      * right. right. specialize (Hbad Hrz). unfold Swap.io_fails in *. simpl in *. by rewrite <- Hs1.
      * intros o. rewrite Hu3, Hu2. naive_solver.
      * intros o Ho. rewrite Hd3, Hd2, Hd1; naive_solver.
  - destruct Hr as (-> & -> & Hfull). wp_go. eapply (wp_unbusy s a x p ce i (sw s)); try done.
    wp_go. apply evict_post_err; try done. right. by left.
Qed.
End victim.


Lemma is_vaddr_pte s K cur a v e x :
  inv K cur s → ases s !! a = Some x → pte_at s a v = Some e →
  pagetable_lookup (pt x) v = Some e ∧ valid e = true.
Proof.
  intros Hinv Hx He. unfold pte_at in He. rewrite Hx in He. by apply mapped_lookup.
Qed.

(** The clock hand comes past every frame. *)
Lemma clock_all (f l idx p : Z) :
  f ≤ p < l → ∃ j, 0 ≤ j < l - f ∧ f + (idx + j) mod (l - f) = p.
Proof.
  intros Hp. exists ((p - f - idx) mod (l - f)).
  pose proof (Z.mod_pos_bound (p - f - idx) (l - f)). split; [lia|].
  rewrite Z.add_mod_idemp_r by lia. replace (idx + (p - f - idx)) with (p - f) by lia.
  rewrite Z.mod_small by lia. lia.
Qed.

Lemma owner_range K cur s p o :
  inv K cur s → owner_at (cm s) p = Some o → first_page (cm s) ≤ p < last_page (cm s).
Proof.
  intros [_ (B & HB & HK) _ _ _ _ _ _ _ _ _] Ho.
  destruct (owned_block _ _ _ _ _ HK Ho) as [HBp _].
  destruct (b_block _ _ HB p 1 HBp) as (_ & H1 & H2). lia.
Qed.

Lemma evict_loop_correct K cur s n i :
  inv K cur s → no_locked_owner s →
  0 ≤ i → i + Z.of_nat n = last_page (cm s) - first_page (cm s) →
  (∀ j, 0 ≤ j < i → owner_at (cm s) (first_page (cm s) +
     (cm_evict_index s + j) mod (last_page (cm s) - first_page (cm s))) = None) →
  wp (evict_loop n i) (evict_post K cur s) (set_cm (set_locked true (cm s)) s).
Proof.
  intros Hinv Hno. pose proof Hinv as [_ (B & HB & HK) Hoe _ Hpg _ _ Hsw _ _ _].
  pose proof (b_unlocked _ _ HB) as Hul. pose proof (b_len _ _ HB) as Hlen.
  pose proof (b_range _ _ HB) as Hrange.
  revert i. induction n as [|n IH]; intros i Hi Hn Hnone; cbn [evict_loop].
  - wp_go. apply wp_in_cm, wp_cm_release; [done|]. wp_go.
    assert (∀ p, owner_at (cm s) p = None) as Hall.
    { intros p. destruct (owner_at (cm s) p) eqn:Hp; [|done].
      destruct (clock_all (first_page (cm s)) (last_page (cm s)) (cm_evict_index s) p)
        as (j & Hj & Hjp); [by eapply owner_range|]. rewrite <- Hp, <- Hjp. apply Hnone. lia. }
    replace (set_cm _ _) with (set_index (cm_evict_index s) (set_sw (sw s) s)).
    2: { destruct s as [[] ? ? ? ? ?]; simpl in *; by subst. }
    apply evict_post_err; try done. by left.
  - wp_go. cbn [set_cm cm set_locked first_page last_page cm_evict_index entries].
    set (c := first_page (cm s) + _).
    assert (first_page (cm s) ≤ c < last_page (cm s)) as Hc.
    { pose proof (Z.mod_pos_bound (cm_evict_index s + i) (last_page (cm s) - first_page (cm s))).
      lia. }
    destruct (znth_is_Some (entries (cm s)) c) as [e He]; [lia|].
    apply wp_in_cm. eapply wp_entry; [done|].
    destruct (owner e) as [a|] eqn:Ho.
    + destruct (Hoe c e a He Ho) as (Hk & Hb & Hpp).
      assert (owner_at (cm s) c = Some (a, vaddr e)) as Hown
        by (by rewrite (owner_at_entry _ _ _ He), Ho).
      assert (used e = true) as Hu.
      { rewrite <- (is_used_entry _ _ _ He). apply (b_used _ _ HB); [done|].
        exists c, 1. split; [by eapply owned_block|lia]. }
      destruct (p_owner _ _ _ _ Hpg c a (vaddr e) Hown) as (Hv & pe & Hpe & Hin & Hppn).
      destruct (ases s !! a) as [x|] eqn:Hx; [|by unfold pte_at in Hpe; rewrite Hx in Hpe].
      destruct (is_vaddr_pte s K cur a (vaddr e) pe x Hinv Hx Hpe) as [Hlk Hval].
      rewrite Hu, Hk, Hb. cbn [negb orb]. wp_go. apply wp_in_cm.
      eapply wp_set_entry; [done|]. wp_go.
      apply wp_in_cm, wp_cm_release; [done|]. wp_go.
      eapply wp_as_acquire; [done|by eapply Hno|]. wp_go.
      eapply wp_as_get; [apply lookup_insert_eq|]. cbn [with_as_lock pt]. rewrite Hlk.
      rewrite Hval, Hin, Hpp, Hppn, Z.eqb_refl. cbn [negb orb].
      replace (set_ases _ _) with (grabbed s a x c e
        ((c - first_page (cm s) + 1) mod (last_page (cm s) - first_page (cm s))) (sw s)).
      * by apply evict_page_correct; [..|eapply Hno|].
      * destruct s as [[] ? ? ? ? ?]. unfold grabbed, set_ases, set_entries. simpl in *. by subst.
    + apply IH; [lia|lia|]. intros j Hj. destruct (decide (j = i)) as [->|]; [|apply Hnone; lia].
      fold c. by rewrite (owner_at_entry _ _ _ He), Ho.
Qed.

Lemma evict_one_correct K cur s :
  inv K cur s → no_locked_owner s → wp evict_one (evict_post K cur s) s.
Proof.
  intros Hinv Hno. pose proof (i_blocks _ _ _ Hinv) as (B & HB & _). unfold evict_one. wp_go.
  apply wp_in_cm, wp_cm_acquire; [by apply HB|]. wp_go.
  pose proof (b_range _ _ HB). apply evict_loop_correct; try done; simpl; lia.
Qed.


(** ** Taking and freeing blocks of pages *)

Lemma owner_taken c c' st n p :
  block_taken c c' st n →
  owner_at c' p = if decide (st ≤ p < st + n) then None else owner_at c p.
Proof.
  intros Ht. unfold owner_at. rewrite Ht. case_decide; [|done].
  by destruct (znth (entries c) p).
Qed.

Lemma owner_block_freed c c' st n p :
  block_freed c c' st n →
  owner_at c' p = if decide (st ≤ p < st + n) then None else owner_at c p.
Proof.
  intros Ht. unfold owner_at. rewrite Ht. case_decide; [|done].
  by destruct (znth (entries c) p).
Qed.

(** The coremap may change where no page of an address space is. *)
Lemma inv_cm K K' cur s c' :
  inv K cur s → same_but_entries (cm s) c' →
  (∃ B, blocks c' B ∧ kernel_part c' K' B) →
  (∀ p, owner_at c' p = owner_at (cm s) p) →
  (∀ p e a, znth (entries c') p = Some e → owner e = Some a → owned_entry p e) →
  (∀ p e, is_Some (K' !! p) → znth (entries c') p = Some e → busy e = false ∧ pp_num e = p) →
  inv K' cur (set_cm c' s) ∧ paged s (set_cm c' s).
Proof.
  intros [Hf HB Hoe Hke Hpg Hpt Hfr Hsw Ht Htl Hmaps] (H1 & H2 & _) HB' Ho Hoe' Hke'. split.
  - constructor; simpl; rewrite ?H1, ?H2; try done. by eapply pages_ok_ext.
  - constructor; try done. simpl. intros p o. by rewrite Ho.
Qed.

Lemma not_owned_free K cur s B p :
  inv K cur s → blocks (cm s) B → kernel_part (cm s) K B → ¬ in_block B p →
  owner_at (cm s) p = None.
Proof.
  intros Hinv HB HK Hp. destruct (owner_at (cm s) p) eqn:Ho; [|done].
  destruct Hp. exists p, 1. split; [by eapply owned_block|lia].
Qed.

Lemma inv_block_taken K cur s c' B st n :
  inv K cur s → 0 < n → kernel_part (cm s) K B → blocks (cm s) B →
  free_at (cm s) B st n → blocks c' (<[st := n]> B) → same_but_entries (cm s) c' →
  block_taken (cm s) c' st n →
  K !! st = None ∧ inv (<[st := n]> K) cur (set_cm c' s) ∧ paged s (set_cm c' s).
Proof.
  intros Hinv Hn [HB HK] Hbl (Hs1 & Hs2 & Hfree) Hbl' Hsame Ht.
  assert (∀ p, st ≤ p < st + n → owner_at (cm s) p = None) as Hnone.
  { intros p Hp. eapply not_owned_free; [done..|by apply Hfree]. }
  assert (∀ p, owner_at c' p = owner_at (cm s) p) as Ho.
  { intros p. rewrite (owner_taken _ _ _ _ _ Ht). case_decide; [by rewrite Hnone|done]. }
  assert (B !! st = None) as HBst.
  { destruct (B !! st) as [m|] eqn:Hm; [|done]. destruct (Hfree st); [lia|].
    exists st, m. split; [done|]. pose proof (b_block _ _ Hbl st m Hm). lia. }
  split; [|apply (inv_cm K); try done].
  - destruct (K !! st) as [m|] eqn:Hm; [|done]. exfalso.
    assert (B !! st = Some m) by (apply HB; by left). congruence.
  - exists (<[st := n]> B). split; [done|]. split.
    + intros st' n'. rewrite Ho. destruct (decide (st' = st)) as [->|].
      * rewrite !lookup_insert_eq, Hnone by lia. split; [by left|]. intros [?|[_ []]]; done.
      * rewrite !lookup_insert_ne by done. apply HB.
    + intros st'. rewrite Ho. destruct (decide (st' = st)) as [->|].
      * intros _. apply Hnone. lia.
      * rewrite lookup_insert_ne by done. apply HK.
  - intros p e a. rewrite Ht. case_decide as Hp; [|by apply Hinv].
    destruct (znth (entries (cm s)) p); [|done]. by intros [= <-].
  - intros p e Hp. rewrite Ht. case_decide as Hr.
    + destruct (znth (entries (cm s)) p); [|done]. by intros [= <-].
    + apply Hinv. by rewrite lookup_insert_ne in Hp by lia.
Qed.

Lemma kernel_not_owned K cur s st n p :
  inv K cur s → K !! st = Some n → st ≤ p < st + n → owner_at (cm s) p = None.
Proof.
  intros Hinv HKst Hp. pose proof (i_blocks _ _ _ Hinv) as (B & Hbl & HB & HK).
  assert (B !! st = Some n) as HBst by (apply HB; by left).
  destruct (owner_at (cm s) p) eqn:Ho; [|done]. exfalso.
  destruct (owned_block _ K B _ _ (conj HB HK) Ho) as [HBp _].
  destruct (decide (st = p)) as [<-|].
  - rewrite HK in Ho; by eauto.
  - pose proof (b_disjoint _ _ Hbl st n p 1 HBst HBp). lia.
Qed.

Lemma kernel_disjoint K cur s st n st' n' :
  inv K cur s → K !! st = Some n → K !! st' = Some n' → st ≠ st' →
  st + n ≤ st' ∨ st' + n' ≤ st.
Proof.
  intros Hinv H1 H2 Hne. pose proof (i_blocks _ _ _ Hinv) as (B & Hbl & HB & HK).
  assert (B !! st = Some n) by (apply HB; by left).
  assert (B !! st' = Some n') by (apply HB; by left).
  destruct (decide (st < st')); [left|right]; eapply (b_disjoint _ _ Hbl); try done; lia.
Qed.

Lemma inv_block_freed K cur s c' st n :
  inv K cur s → K !! st = Some n →
  (∀ B, blocks (cm s) B → B !! st = Some n → blocks c' (delete st B)) →
  same_but_entries (cm s) c' → block_freed (cm s) c' st n →
  inv (delete st K) cur (set_cm c' s) ∧ paged s (set_cm c' s).
Proof.
  intros Hinv HKst Hbl' Hsame Hf. pose proof (i_blocks _ _ _ Hinv) as (B & Hbl & HB & HK).
  assert (B !! st = Some n) as HBst by (apply HB; by left).
  assert (∀ p, st ≤ p < st + n → owner_at (cm s) p = None) as Hnone
    by (intros p; by eapply kernel_not_owned).
  assert (∀ p, owner_at c' p = owner_at (cm s) p) as Ho.
  { intros p. rewrite (owner_block_freed _ _ _ _ _ Hf). case_decide; [by rewrite Hnone|done]. }
  apply (inv_cm K); try done.
  - exists (delete st B). split; [by apply Hbl'|]. pose proof (b_block _ _ Hbl st n HBst). split.
    + intros st' n'. rewrite Ho, !lookup_delete_Some, HB.
      destruct (decide (st = st')) as [<-|]; [|naive_solver].
      rewrite Hnone by lia. split; [naive_solver|]. intros [?|[_ []]]; naive_solver.
    + intros st' Hst'. rewrite Ho. apply HK. destruct Hst' as [m Hm].
      apply lookup_delete_Some in Hm as [_ Hm]. eauto.
  - intros p e a. rewrite Hf. case_decide as Hp; [|by apply Hinv].
    destruct (znth (entries (cm s)) p); [|done]. by intros [= <-].
  - intros p e [m Hm]. apply lookup_delete_Some in Hm as [_ Hm]. rewrite Hf.
    case_decide as Hp; [|by apply Hinv; eauto].
    destruct (znth (entries (cm s)) p) as [e0|] eqn:He; [|done]. intros [= <-].
    split; [done|]. by apply (i_kernel _ _ _ Hinv p e0); eauto.
Qed.

Lemma free_block_correct K cur s st n :
  inv K cur s → K !! st = Some n →
  wp (in_cm (free_kpages (PADDR_TO_KVADDR (PPAGE_TO_PADDR st))))
    (λ _ s', inv (delete st K) cur s' ∧ paged s s') s.
Proof.
  intros Hinv HK. pose proof (i_blocks _ _ _ Hinv) as (B & Hbl & HB & _).
  assert (B !! st = Some n) as HBst by (apply HB; by left).
  apply wp_in_cm. eapply wp_mono; [|by apply (free_kpages_correct (cm s) B)].
  intros [] c' (Hbl' & Hsame & Hf). apply (inv_block_freed K cur s c' st n); try done.
  intros B' HB' HB'st. pose proof Hsame as (E1 & E2 & E3 & E4).
  eapply blocks_free; try done.
  pose proof (b_count _ _ Hbl) as C1. pose proof (b_count _ _ Hbl') as C2.
  rewrite (msum_delete _ _ _ _ HBst) in C2. simpl in C2. lia.
Qed.


(** ** [alloc_kpages] *)

Definition kva (st : Z) : Z := PADDR_TO_KVADDR (PPAGE_TO_PADDR st).

(** A run of [n] free pages at [st]. *)
Definition free_pages (c : coremap) (st n : Z) : Prop :=
  first_page c ≤ st ∧ st + n ≤ last_page c ∧ ∀ p, st ≤ p < st + n → is_used c p = false.

(** The allocation cannot run into a page of a locked address space. *)
Definition room s (n : Z) : Prop := no_locked_owner s ∨ ∃ st, free_pages (cm s) st n.

Lemma free_pages_at c B st n : blocks c B → free_pages c st n → free_at c B st n.
Proof.
  intros HB (H1 & H2 & H3). split_and!; try done. intros p Hp Hin.
  apply (b_used _ _ HB) in Hin; [|lia]. rewrite H3 in Hin; [done|lia].
Qed.

Lemma no_locked_paged s s' : paged s s' → no_locked_owner s → no_locked_owner s'.
Proof.
  intros Hp Hno p a v x' Ho Hx'. apply (pg_owner _ _ Hp) in Ho.
  pose proof (pg_as _ _ Hp a) as Ha. rewrite Hx' in Ha. inversion Ha as [x y Hl Hx E|].
  subst y. symmetry in Hx. rewrite (al_lock _ _ Hl). by eapply Hno.
Qed.

(** The result of [alloc_kpages]: 0, or the address of a new block. *)
Definition alloc_result K cur s (n r : Z) (s' : vm page) : Prop :=
  paged s s' ∧
  (r = 0 ∧ inv K cur s' ∧ (∀ st, ¬ free_pages (cm s) st n) ∨
   ∃ st, r = kva st ∧ K !! st = None ∧ first_page (cm s) ≤ st ∧ st + n ≤ last_page (cm s) ∧
     inv (<[st := n]> K) cur s').

Lemma alloc_try_vm K cur s n (Q : option Z → vm page → Prop) :
  inv K cur s → 0 < n →
  (∀ st s', alloc_result K cur s n (kva st) s' → owner_at (cm s) st = None →
     Q (Some (kva st)) s') →
  ((∀ st, ¬ free_pages (cm s) st n) → Q None s) →
  wp (in_cm (alloc_try n)) Q s.
Proof.
  intros Hinv Hn Hok Hno. pose proof (i_blocks _ _ _ Hinv) as (B & Hbl & HK).
  apply wp_in_cm. eapply wp_mono; [|by apply (alloc_try_correct (cm s) B)].
  intros [r|] c'.
  - intros (st & -> & Hfree & _ & Hbl' & Hsame & Ht).
    destruct (inv_block_taken K cur s c' B st n) as (HKst & Hinv' & Hpg); try done.
    apply Hok.
    + split; [done|]. right. exists st. destruct Hfree as (? & ? & _). done.
    + eapply not_owned_free; [done..|]. apply Hfree. lia.
  - intros [-> Hnone]. replace (set_cm (cm s) s) with s by (by destruct s).
    apply Hno. intros st Hst. by eapply Hnone, free_pages_at.
Qed.

Lemma alloc_result_paged K cur s s1 n r s' :
  paged s s1 → (∀ st, ¬ free_pages (cm s) st n) →
  alloc_result K cur s1 n r s' → alloc_result K cur s n r s'.
Proof.
  intros Hp Hno (Hp' & Hr). pose proof Hp as [_ _ _ Hf Hl _ _]. split; [by etrans|].
  rewrite <- Hf, <- Hl. destruct Hr as [(? & ? & _)|?]; auto.
Qed.

Lemma alloc_loop_correct fuel K cur s n :
  inv K cur s → 0 < n → room s n → (owned_count (cm s) < fuel)%nat →
  wp (alloc_loop fuel n) (alloc_result K cur s n) s.
Proof.
  revert s. induction fuel as [|fuel IH]; intros s Hinv Hn Hroom Hfuel; [lia|].
  cbn [alloc_loop]. wp_go. eapply alloc_try_vm; [done..| |].
  - intros st s' Hr _. by wp_go.
  - intros Hnone. destruct Hroom as [Hno|[st Hst]]; [|by destruct (Hnone st)].
    wp_go. eapply wp_mono; [|by apply (evict_one_correct K cur)].
    intros [p|e] s' (Hinv' & Hpg & Hr).
    + destruct Hr as (_ & _ & Hcnt). eapply wp_mono; [|apply IH; [done|done| |lia]].
      * intros r s2. by apply alloc_result_paged.
      * left. by eapply no_locked_paged.
    + wp_go. split; [done|]. by left.
Qed.

Lemma owned_count_le K cur s : inv K cur s → (owned_count (cm s) < S (Z.to_nat (last_page (cm s))))%nat.
Proof.
  intros Hinv. pose proof (i_blocks _ _ _ Hinv) as (B & Hbl & _).
  rewrite <- (b_len _ _ Hbl), Nat2Z.id. unfold owned_count.
  pose proof (length_filter (λ e, is_Some (owner e)) (entries (cm s))). lia.
Qed.

Lemma alloc_kpages_correct K cur s n :
  inv K cur s → 0 < n → room s n → wp (alloc_kpages n) (alloc_result K cur s n) s.
Proof.
  intros. unfold alloc_kpages. wp_go. apply alloc_loop_correct; try done. by eapply owned_count_le.
Qed.

Lemma kva_pos st : 0 ≤ st → kva st ≠ 0.
Proof. unfold kva, PADDR_TO_KVADDR, PPAGE_TO_PADDR, PAGE_SIZE, KSEG0. lia. Qed.

Lemma alloc_user_page_correct K cur s :
  inv K cur s → room s 1 → wp alloc_user_page (alloc_result K cur s 1) s.
Proof.
  intros Hinv Hroom. unfold alloc_user_page. wp_go.
  eapply wp_mono; [|by apply (alloc_kpages_correct K cur)].
  intros r s1 Hr. destruct (r =? 0) eqn:Hz; cbn [negb]; [|by wp_go].
  apply Z.eqb_eq in Hz. destruct Hr as (Hpg & [(_ & Hinv1 & Hnone)|(st & -> & _ & H1 & _)]).
  2: { pose proof (i_first _ _ _ Hinv). by destruct (kva_pos st); [lia|]. }
  destruct Hroom as [Hno|[st Hst]]; [|by destruct (Hnone st)]. wp_go.
  eapply wp_mono; [|apply (evict_one_correct K cur); [done|by eapply no_locked_paged]].
  intros [p|e] s2 (Hinv2 & Hpg2 & _).
  - eapply wp_mono; [|apply (alloc_kpages_correct K cur); [done|done|left]].
    + intros r2 s3. apply alloc_result_paged; [by etrans|done].
    + eapply no_locked_paged; [|done]. by etrans.
  - wp_go. split; [by etrans|]. by left.
Qed.

End inv.

End VmEvict.
