(* ===== verification/VmFault.v ===== *)
(** * Page faults (kern/arch/mips/vm/vm.c)

    [vm_fault] makes the faulting page resident and translated, and is otherwise
    invisible: every page of every address space holds what it held. *)

From Stdlib Require Import ZArith Lia.
From stdpp Require Import base numbers list gmap.
From S2P Require Import Prelude Bitmap Coremap PageTable Swap Tlb Vm VmPages VmEvict.

Module VmFault.
Import Coremap PageTable Tlb Vm VmPages VmEvict.

Section fault.
Context {page : Type} (zero_page : page).
Implicit Types (s : vm page) (K B : gmap Z Z).

(** ** The first allocation leaves room for the second *)

Lemma alloc_user_page_room K cur s n :
  inv K cur s → 0 < n → room s (n + 1) →
  wp alloc_user_page (λ r s', alloc_result K cur s 1 r s' ∧ room s' n) s.
Proof.
  intros Hinv Hn [Hno|[st0 Hst0]].
  { eapply wp_mono; [|apply (alloc_user_page_correct K cur); [done|by left]].
    intros r s' Hr. split; [done|]. left. destruct Hr as [Hpg _]. by eapply no_locked_paged. }
  pose proof (i_blocks _ _ _ Hinv) as (B & Hbl & HK).
  pose proof (free_pages_at _ _ _ _ Hbl Hst0) as (F1 & F2 & F3).
  unfold alloc_user_page, alloc_kpages. wp_go. cbn [alloc_loop]. wp_go.
  apply wp_in_cm. eapply wp_mono; [|apply (alloc_try_correct (cm s) B); [done|lia]].
  intros [r|] c'.
  - intros (st & -> & Hfree & Hbefore & Hbl' & Hsame & Ht).
    destruct (inv_block_taken K cur s c' B st 1) as (HKst & Hinv' & Hpg); try done.
    pose proof Hfree as (G1 & G2 & _). pose proof (i_first _ _ _ Hinv).
    wp_go. rewrite (proj2 (Z.eqb_neq _ _)) by (apply (kva_pos st); lia). wp_go. split.
    + split; [done|]. right. by exists st.
    + right. assert (st ≤ st0) as Hle.
      { destruct (decide (st0 < st)) as [Hlt|]; [|lia]. destruct (Hbefore st0 Hlt).
        split_and!; [lia|lia|]. intros p Hp. apply F3. lia. }
      destruct Hsame as (E1 & E2 & _). exists (st0 + 1). simpl. rewrite ?E1, ?E2.
      split_and!; simpl; rewrite ?E1, ?E2; try lia. intros p Hp. unfold is_used. simpl.
      rewrite Ht, decide_False by lia. apply Hst0. lia.
  - intros [_ Hnone]. destruct (Hnone st0). split_and!; [lia|lia|]. intros p Hp. apply F3. lia.
Qed.

(** ** What stays the same *)

Record as_same (x x' : addrspace) : Prop := {
  sm_lock : as_lock x' = as_lock x;
  sm_regions : region_list x' = region_list x;
  sm_start : heap_start x' = heap_start x;
  sm_end : heap_end x' = heap_end x;
  sm_stack : stack_base x' = stack_base x;
}.

#[local] Instance as_same_trans : Transitive as_same.
Proof. intros x y z [] []. constructor; congruence. Qed.

(** Everything about the address spaces and their pages, except the pages in
    [X]; and no translation is new. *)
Record kept (X : positive → Z → Prop) s s' : Prop := {
  kp_as : ∀ b, option_Forall2 as_same (ases s !! b) (ases s' !! b);
  kp_ro : ∀ b u, is_page u → ¬ X b u →
    readonly <$> pte_at s' b u = readonly <$> pte_at s b u;
  kp_content : ∀ b u, is_page u → ¬ X b u → content s' b u = content s b u;
  kp_maps : ∀ q lo, maps (mmu s') q lo → maps (mmu s) q lo;
}.

Definition nowhere : positive → Z → Prop := λ _ _, False.
Definition only (a : positive) (v : Z) : positive → Z → Prop := λ b u, b = a ∧ u = v.

Lemma kept_trans X s1 s2 s3 : kept X s1 s2 → kept X s2 s3 → kept X s1 s3.
Proof.
  intros [H1 H2 H3 H4] [G1 G2 G3 G4]. constructor.
  - intros b. by etrans; [apply H1|apply G1].
  - intros b u Hu HX. by rewrite G2, H2.
  - intros b u Hu HX. by rewrite G3, H3.
  - auto.
Qed.

Lemma kept_weaken X s s' : kept nowhere s s' → kept X s s'.
Proof. intros [H1 H2 H3 H4]. constructor; try done; intros; auto. Qed.

Lemma paged_kept s s' : paged s s' → kept nowhere s s'.
Proof.
  intros [H1 H2 H3 _ _ _ H7]. constructor; try done.
  - intros b. destruct (H1 b) as [x x' []|]; by constructor.
  - intros b u Hu _. unfold pte_at. destruct (H1 b) as [x x' Hl|]; [|done].
    simpl. by apply Hl.
  - intros b u Hu _. by apply H2.
Qed.

Lemma kept_as X s s' a x :
  kept X s s' → ases s !! a = Some x → ∃ x', ases s' !! a = Some x' ∧ as_same x x'.
Proof.
  intros Hk Hx. pose proof (kp_as _ _ _ Hk a) as Ha. rewrite Hx in Ha.
  inversion Ha as [? x' Hl|]. by exists x'.
Qed.

Lemma perms_same x x' v :
  as_same x x' → get_region_permissions x' v = get_region_permissions x v.
Proof.
  intros [_ H1 H2 H3 H4]. unfold get_region_permissions, in_heap, in_stack.
  by rewrite H1, H2, H3, H4.
Qed.

(** Writing to a frame of the kernel. *)
Lemma inv_frame K cur s p f :
  inv K cur s → is_Some (K !! p) →
  inv K cur (set_frames (<[p := f]> (frames s)) s) ∧
  kept nowhere s (set_frames (<[p := f]> (frames s)) s).
Proof.
  intros Hinv HKp. pose proof (i_blocks _ _ _ Hinv) as (B & _ & _ & HK).
  specialize (HK p HKp). pose proof Hinv as [Hf HB Hoe Hke Hpg Hpt Hfr Hsw Ht Htl Hmaps]. split.
  - constructor; try done. simpl. intros q Hq. destruct (decide (p = q)) as [<-|].
    + rewrite lookup_insert_eq. eauto.
    + rewrite lookup_insert_ne by done. by apply Hfr.
  - constructor; try done.
    + simpl. intros b. by destruct (ases s !! b); constructor.
    + intros b u Hu _. unfold content, holds. simpl. change (pte_at _ b u) with (pte_at s b u).
      destruct (pte_at s b u) as [e|] eqn:He; [|done]. simpl.
      destruct (in_mem e) eqn:Hin; [|done]. apply lookup_insert_ne. intros ->.
      pose proof (p_mem _ _ _ _ Hpg b u e Hu He Hin). congruence.
Qed.

(** ** Mapping a page in *)

(** The coremap entry of a page of an address space. *)
Definition user_entry (ce : cm_entry) (a : positive) (v : Z) : cm_entry :=
  mkEntry (used ce) (kmalloc_end ce) (dirty ce) false (busy ce) (Some a) v (pp_num ce).

Section mapping.
Context (K : gmap Z Z) (cur : option positive) (s : vm page).
Context (p : Z) (a : positive) (v : Z) (x : addrspace) (e0 e : pte) (ce : cm_entry).
Context (i : Z) (w' : Swap.swapst page) (m' : gmap positive addrspace).
Context (Hinv : inv K cur s) (HKp : K !! p = Some 1) (Hv : is_page v).
Context (Hx : ases s !! a = Some x) (Hlk : pagetable_lookup (pt x) v = Some e0).
Context (Hout : ∀ e1, pte_at s a v = Some e1 → in_mem e1 = false).
Context (He1 : valid e = true) (He2 : in_mem e = true) (He3 : ppn e = p).
Context (Hce : znth (entries (cm s)) p = Some ce).
Context (Hw1 : Swap.swap_wf w') (Hw2 : Swap.disk w' = Swap.disk (sw s))
  (Hw3 : ∀ o, Swap.slot_used w' o ↔
     Swap.slot_used (sw s) o ∧ ∀ e1, pte_at s a v = Some e1 → o ≠ swap_offset e1).
Let c' := set_entries (zset (entries (cm s)) p (user_entry ce a v)) (cm s).
Let s' := mkVm c' i (frames s) w' m' (mmu s).
Context (Hm' : as_upd s s' a (with_pt x (pt_store (pt x) v e))).

Local Lemma mapping_facts :
  owner_at (cm s) p = None ∧
  owner_upd (owner_at (cm s)) (owner_at c') p (Some (a, v)) ∧
  pte_upd (pte_at s) (pte_at s') a v e.
Proof.
  pose proof (i_blocks _ _ _ Hinv) as (B & Hbl & HB & HK). split_and!.
  - apply HK. by rewrite HKp.
  - intros q. unfold c'. rewrite owner_at_set; [done|]. by eapply znth_Some_range.
  - by apply (pte_at_store s s' a x _ v e0 e Hx Hm').
Qed.

Lemma mapping_content b u :
  is_page u →
  content s' b u = if decide (b = a ∧ u = v) then frames s !! p else content s b u.
Proof.
  destruct mapping_facts as (Ho & HO & HP). intros Hu. unfold content, s'. simpl.
  rewrite Hw2. eapply holds_in; try done. by apply Hinv.
Qed.

Local Lemma mapping_blocks : ∃ B, blocks c' B ∧ kernel_part c' (delete p K) B.
Proof.
  destruct mapping_facts as (Ho & HO & _).
  pose proof (i_blocks _ _ _ Hinv) as (B & Hbl & HB & HK). exists B.
  pose proof (znth_Some_range _ _ _ Hce) as Hr. split.
  - assert (∀ q, is_used c' q = is_used (cm s) q ∧ is_end c' q = is_end (cm s) q) as Hue.
    { intros q. unfold is_used, is_end, c'. simpl. destruct (decide (p = q)) as [<-|].
      - by rewrite znth_zset_eq, Hce.
      - by rewrite znth_zset_ne by lia. }
    destruct Hbl. constructor; try done.
    + simpl. by rewrite length_zset.
    + intros q Hq. rewrite (proj1 (Hue q)). auto.
    + intros q Hq. rewrite (proj1 (Hue q)). auto.
    + intros st n q Hst Hq. rewrite (proj2 (Hue q)). eauto.
  - split.
    + intros st n. rewrite HB, HO, lookup_delete_Some. case_decide as Hst.
      * subst. rewrite HKp, Ho. split; [|intros [?|[-> _]]; naive_solver].
        intros [[= <-]|[_ []]]; [|done]. right. eauto.
      * naive_solver.
    + intros st [n Hn]. apply lookup_delete_Some in Hn as [Hne Hn].
      rewrite HO, decide_False by done. apply HK. eauto.
Qed.

Lemma inv_mapping : inv (delete p K) cur s'.
Proof.
  destruct mapping_facts as (Ho & HO & HP).
  pose proof Hinv as [Hf _ Hoe Hke Hpg Hpt Hfr Hsw Ht Htl Hmaps].
  pose proof (znth_Some_range _ _ _ Hce) as Hr.
  destruct (Hke p ce (mk_is_Some _ _ HKp) Hce) as [Hb Hpp].
  constructor; try done.
  - apply mapping_blocks.
  - intros q e1 a1. simpl. destruct (decide (p = q)) as [<-|].
    + rewrite znth_zset_eq by done. by intros [= <-] _.
    + rewrite znth_zset_ne by lia. apply Hoe.
  - intros q e1 [n Hn]. apply lookup_delete_Some in Hn as [Hne Hn]. simpl.
    rewrite znth_zset_ne by lia. apply Hke. eauto.
  - simpl. rewrite Hw2. by eapply pages_in.
  - intros b y. rewrite Hm'. case_decide; [|by apply Hpt]. intros [= <-]. simpl.
    by apply pt_wf_store, (Hpt a).
  - simpl. intros q lo Hq. destruct (maps_page _ _ _ Ht Hq) as [Hpq _].
    destruct (Hmaps q lo Hq) as (a1 & e1 & Hcur & Hpe & Hin & Hlo). exists a1, e1.
    split_and!; try done. rewrite HP by done. rewrite decide_False; [done|].
    intros [-> ->]. specialize (Hout e1 Hpe). congruence.
Qed.

Lemma mapping_kept : kept (only a v) s s'.
Proof.
  destruct mapping_facts as (Ho & HO & HP). constructor; try done.
  - intros b. rewrite Hm'. case_decide as Hb.
    + subst. rewrite Hx. by do 2 constructor.
    + by destruct (ases s !! b); constructor.
  - intros b u Hu HX. rewrite HP by done. by rewrite decide_False.
  - intros b u Hu HX. rewrite mapping_content by done. by rewrite decide_False.
Qed.

Lemma mapping_done :
  inv (delete p K) cur s' ∧ kept (only a v) s s' ∧ pte_at s' a v = Some e ∧
  content s' a v = frames s !! p.
Proof.
  destruct mapping_facts as (Ho & HO & HP). split_and!.
  - apply inv_mapping.
  - apply mapping_kept.
  - rewrite HP by done. by rewrite decide_True.
  - rewrite mapping_content by done. by rewrite decide_True.
Qed.
End mapping.

Lemma wp_cm_set_user_page c p ce a v (Q : unit → coremap → Prop) :
  cm_spinlock c = false → znth (entries c) p = Some ce → is_page v →
  Q tt (set_entries (zset (entries c) p (user_entry ce a v)) c) →
  wp (cm_set_user_page p a v) Q c.
Proof.
  intros Hl Hce Hv HQ. unfold cm_set_user_page. wp_go. apply wp_cm_acquire; [done|]. wp_go.
  eapply wp_entry; [done|]. wp_go. eapply wp_set_entry; [done|]. wp_go.
  apply wp_cm_release; [done|]. rewrite page_frame_eq by apply Hv.
  change (v / 4096 * 4096) with (page_of v). rewrite page_of_id by done.
  destruct c. simpl in *. by subst.
Qed.

(** ** [pagetable_insert] *)

Lemma kmalloc_pages_correct K cur s sz :
  inv K cur s → 0 < sz → room s ((sz + PAGE_SIZE - 1) / PAGE_SIZE) →
  wp (kmalloc_pages sz)
    (alloc_result K cur s ((sz + PAGE_SIZE - 1) / PAGE_SIZE)) s.
Proof.
  intros Hinv Hsz Hroom. unfold kmalloc_pages. wp_go.
  eapply wp_mono; [|apply (alloc_kpages_correct K cur); [done| |done]].
  2: { apply Z.div_str_pos. unfold PAGE_SIZE. lia. }
  intros r s' Hr. destruct (r =? 0) eqn:Hz.
  - apply Z.eqb_eq in Hz. subst. by wp_go.
  - apply Z.eqb_neq in Hz. destruct Hr as [Hpg [[? _]|(st & -> & Hst)]]; [done|].
    wp_go. apply wp_KASSERT; [|wp_go; split; [done|right; by exists st]].
    unfold kva, PADDR_TO_KVADDR, PPAGE_TO_PADDR. apply Z.eqb_eq.
    change KSEG0 with (524288 * PAGE_SIZE). rewrite <- Z.mul_add_distr_r. by apply Z.mod_mul.
Qed.

(** The second-level table is in place. *)
Definition with_l2 K cur s (a : positive) (v : Z) (s' : vm page) : Prop :=
  ∃ K' x e, K ⊆ K' ∧ inv K' cur s' ∧ kept nowhere s s' ∧ frames s' = frames s ∧
    ases s' !! a = Some x ∧ pagetable_lookup (pt x) v = Some e.

Lemma with_l2_added K cur s a x v addr :
  inv K cur s → ases s !! a = Some x → is_page v → needs_l2 (pt x) v = true →
  with_l2 K cur s a v (set_ases (<[a := with_pt x (pt_add_l2 (pt x) v addr)]> (ases s)) s).
Proof.
  intros Hinv Hx Hv Hn. pose proof Hinv as [Hf HB Hoe Hke Hpg Hpt Hfr Hsw Ht Htl Hmaps].
  destruct (lookup_add_l2 (pt x) v addr) as (Hwf & Hlk & Hsame); [by eapply Hpt|apply Hv|done|].
  set (s' := set_ases _ s).
  assert (∀ b u, is_page u → pte_at s' b u = pte_at s b u) as HP.
  { intros b u [Hu _]. unfold pte_at. simpl. destruct (decide (b = a)) as [->|].
    - rewrite lookup_insert_eq, Hx. simpl. by apply Hsame.
    - by rewrite lookup_insert_ne. }
  exists K, (with_pt x (pt_add_l2 (pt x) v addr)), zero_pte.
  split_and!; try done; [| |simpl; apply lookup_insert_eq].
  - constructor; try done.
    + by eapply pages_ok_ext.
    + intros b y. simpl. destruct (decide (b = a)) as [->|].
      * rewrite lookup_insert_eq. by intros [= <-].
      * rewrite lookup_insert_ne by done. apply Hpt.
    + intros q lo Hq. destruct (maps_page _ _ _ Ht Hq) as [Hpq _].
      destruct (Hmaps q lo Hq) as (a1 & e1 & ?). exists a1, e1. by rewrite HP.
  - constructor; try done.
    + intros b. simpl. destruct (decide (b = a)) as [->|].
      * rewrite lookup_insert_eq, Hx. by do 2 constructor.
      * rewrite lookup_insert_ne by done. by destruct (ases s !! b); constructor.
    + intros b u Hu _. by rewrite HP.
    + intros b u Hu _. unfold content, holds. simpl. by rewrite HP.
Qed.

Lemma room_6 s : room s 6 → room s ((SIZEOF_L2 + PAGE_SIZE - 1) / PAGE_SIZE).
Proof. done. Qed.

Lemma paged_as s s' a x :
  paged s s' → ases s !! a = Some x → ∃ x', ases s' !! a = Some x' ∧ as_like x x'.
Proof.
  intros Hp Hx. pose proof (pg_as _ _ Hp a) as Ha. rewrite Hx in Ha.
  inversion Ha as [? x' Hl|]. by exists x'.
Qed.

Lemma with_l2_paged K K1 cur s s1 a v s2 :
  K ⊆ K1 → paged s s1 → with_l2 K1 cur s1 a v s2 → with_l2 K cur s a v s2.
Proof.
  intros HK Hpg (K' & x & e & HK' & Hinv & Hk & Hfr & Hx & He). exists K', x, e.
  split_and!; try done; [by etrans| |by rewrite Hfr; apply Hpg].
  eapply kept_trans; [|done]. by apply paged_kept.
Qed.

(** On success the entry is written, in a state that is as before. *)
Lemma pagetable_insert_correct K cur s a x v p ro :
  inv K cur s → ases s !! a = Some x → is_page v → 0 < p → room s 6 →
  wp (pagetable_insert a v (PPAGE_TO_PADDR p) ro) (λ r s',
    0 < r ∧ inv K cur s' ∧ kept nowhere s s' ∨
    r = 0 ∧ ∃ s1 x1, with_l2 K cur s a v s1 ∧ ases s1 !! a = Some x1 ∧
      s' = set_ases (<[a := with_pt x1 (pt_store (pt x1) v
                                         (new_pte (PPAGE_TO_PADDR p) ro))]> (ases s1)) s1) s.
Proof.
  intros Hinv Hx Hv Hp Hroom. unfold pagetable_insert.
  wp_go. apply wp_KASSERT; [by unfold PPAGE_TO_PADDR, PAGE_SIZE; destruct p|]. wp_go.
  eapply wp_as_get; [done|]. destruct (needs_l2 (pt x) v) eqn:Hn.
  - wp_go. eapply wp_mono; [|by apply (kmalloc_pages_correct K cur), room_6].
    intros r s1 [Hpg Hr]. destruct (r =? 0) eqn:Hz.
    + wp_go. left. apply Z.eqb_eq in Hz. destruct Hr as [(_ & Hinv1 & _)|(st & -> & _ & Hst & _)].
      * split_and!; [done..|]. by apply paged_kept.
      * pose proof (i_first _ _ _ Hinv). by destruct (kva_pos st); [lia|].
    + apply Z.eqb_neq in Hz. destruct Hr as [[? _]|(st & _ & HKst & _ & _ & Hinv1)]; [done|].
      destruct (paged_as _ _ _ _ Hpg Hx) as (x1 & Hx1 & Hl). rewrite <- (al_l2 _ _ Hl) in Hn.
      wp_go. eapply wp_as_get; [done|]. wp_go. eapply wp_as_set; [done|]. wp_go.
      eapply wp_as_get; [apply lookup_insert_eq|]. wp_go.
      eapply wp_as_set; [apply lookup_insert_eq|]. wp_go. right. split; [done|].
      exists (set_ases (<[a := with_pt x1 (pt_add_l2 (pt x1) v r)]> (ases s1)) s1),
        (with_pt x1 (pt_add_l2 (pt x1) v r)). split_and!; [|apply lookup_insert_eq|done].
      eapply with_l2_paged; [by apply insert_subseteq|done|by apply with_l2_added].
  - wp_go. eapply wp_as_get; [done|]. wp_go. eapply wp_as_set; [done|]. wp_go.
    right. split; [done|]. exists s, x. split_and!; try done.
    destruct (lookup_no_l2 (pt x) v) as [e He]; [by eapply Hinv|apply Hv|done|].
    exists K, x, e. split_and!; try done. by apply paged_kept.
Qed.

(** ** Making the page resident *)

(** The protection that a page gets: the one it had, or that of its region. *)
Definition ro_of s (a : positive) (v : Z) (b : bool) : Prop :=
  match pte_at s a v with
  | Some e => b = readonly e
  | None => ∃ x rd wr ex, ases s !! a = Some x ∧
      get_region_permissions x v = Ok (rd, wr, ex) ∧ b = negb wr
  end.

Definition resident_post K (a : positive) (v : Z) s (r : Z) (s' : vm page) : Prop :=
  ∃ K', K ⊆ K' ∧ inv K' (Some a) s' ∧ kept (only a v) s s' ∧
    (0 < r ∧ kept nowhere s s' ∨
     r = 0 ∧ ∃ e, pte_at s' a v = Some e ∧ in_mem e = true ∧
       content s' a v = Some (default zero_page (content s a v)) ∧ ro_of s a v (readonly e)).

Lemma resident_err K K' a v s r s' :
  K ⊆ K' → 0 < r → inv K' (Some a) s' → kept nowhere s s' → resident_post K a v s r s'.
Proof.
  intros HK Hr Hinv Hk. exists K'. split_and!; try done; [by apply kept_weaken|]. by left.
Qed.

(** Taking the new page and the errors of it, for both branches. *)
Lemma resident_alloc K a v s n (f : Z → M (vm page) Z) :
  inv K (Some a) s → 0 < n → room s (n + 1) →
  (∀ st s1, K !! st = None → 0 < st → first_page (cm s1) ≤ st < last_page (cm s1) →
     inv (<[st := 1]> K) (Some a) s1 → paged s s1 → room s1 n →
     wp (f (kva st)) (resident_post K a v s) s1) →
  wp (kv ← alloc_user_page; if kv =? 0 then mret ENOMEM else f kv) (resident_post K a v s) s.
Proof.
  intros Hinv Hn Hroom Hf. wp_go. eapply wp_mono; [|by apply (alloc_user_page_room K (Some a))].
  intros r s1 [[Hpg Hr] Hroom1]. pose proof (i_first _ _ _ Hinv) as Hfirst.
  destruct Hr as [(-> & Hinv1 & _)|(st & -> & HK & Hst1 & Hst2 & Hinv1)].
  - cbn [Z.eqb]. wp_go. by apply (resident_err K K); [..|apply paged_kept].
  - rewrite (proj2 (Z.eqb_neq _ _)) by (apply kva_pos; lia).
    apply Hf; try done; [lia|]. rewrite (pg_first _ _ Hpg), (pg_last _ _ Hpg). lia.
Qed.

Lemma kva_page st : PADDR_TO_PPAGE (KVADDR_TO_PADDR (kva st)) = st.
Proof. apply page_of_kvaddr. Qed.
Lemma kva_paddr st : KVADDR_TO_PADDR (kva st) = PPAGE_TO_PADDR st.
Proof. unfold KVADDR_TO_PADDR, kva, PADDR_TO_KVADDR. lia. Qed.

Lemma ppage_paddr st : PADDR_TO_PPAGE (PPAGE_TO_PADDR st) = st.
Proof. by apply Z.div_mul. Qed.

(** Giving the new page back. *)
Lemma resident_giveup K a v s s1 st r :
  K !! st = None → inv (<[st := 1]> K) (Some a) s1 → kept nowhere s s1 → 0 < r →
  wp (in_cm (free_kpages (kva st)) ;; mret r) (resident_post K a v s) s1.
Proof.
  intros HK Hinv Hk Hr. wp_go.
  eapply wp_mono; [|by apply (free_block_correct _ _ _ st 1 Hinv), lookup_insert_eq].
  intros [] s2 [Hinv2 Hpg]. wp_go. rewrite delete_insert_id in Hinv2 by done.
  eapply (resident_err K K); try done. eapply kept_trans; [done|]. by apply paged_kept.
Qed.

Lemma subseteq_delete K K' (st : Z) :
  K !! st = None → <[st := 1]> K ⊆ K' → K' !! st = Some 1 ∧ K ⊆ delete st K'.
Proof.
  intros HK Hsub. split.
  - eapply lookup_weaken; [|done]. apply lookup_insert_eq.
  - apply map_subseteq_spec. intros k n Hk. apply lookup_delete_Some.
    assert (st ≠ k) by congruence. split; [done|].
    eapply lookup_weaken; [|done]. by rewrite lookup_insert_ne.
Qed.

Lemma kernel_entry K cur s st n :
  inv K cur s → K !! st = Some n → ∃ ce, znth (entries (cm s)) st = Some ce.
Proof.
  intros Hinv HK. pose proof (i_blocks _ _ _ Hinv) as (B & Hbl & HB & _).
  assert (B !! st = Some n) as HBst by (apply HB; by left).
  destruct (b_block _ _ Hbl _ _ HBst) as (? & ? & ?). pose proof (i_first _ _ _ Hinv).
  apply znth_is_Some. rewrite (b_len _ _ Hbl). lia.
Qed.

Lemma kept_none X s s' a v :
  kept X s s' → is_page v → ¬ X a v → pte_at s a v = None → pte_at s' a v = None.
Proof.
  intros Hk Hv HX Hn. pose proof (kp_ro _ _ _ Hk a v Hv HX) as H. rewrite Hn in H.
  by destruct (pte_at s' a v).
Qed.

(** The new page has been entered in the page table: the rest of the branch. *)
Lemma fault_new_finish K s s2 s3 a v x3 st ro :
  K !! st = None → 0 < st → is_page v → pte_at s a v = None →
  ro_of s a v ro → kept nowhere s s2 → frames s2 !! st = Some zero_page →
  with_l2 (<[st := 1]> K) (Some a) s2 a v s3 → ases s3 !! a = Some x3 →
  wp (x ← as_get a;
      e ← deref (pagetable_lookup (pt x) v);
      KASSERT (valid e && in_mem e) ;;
      in_cm (cm_set_user_page st a v) ;; mret 0) (resident_post K a v s)
    (set_ases (<[a := with_pt x3 (pt_store (pt x3) v (new_pte (PPAGE_TO_PADDR st) ro))]>
                 (ases s3)) s3).
Proof.
  intros HK Hst Hv Hnone Hro Hk2 Hz (K3 & x3' & e0 & HK3 & Hinv3 & Hk3 & Hfr3 & Hx3' & He0) Hx3.
  rewrite Hx3 in Hx3'. injection Hx3' as <-.
  assert (kept nowhere s s3) as Hk by (by eapply kept_trans).
  destruct (subseteq_delete _ _ _ HK HK3) as [HKst Hsub].
  destruct (kernel_entry _ _ _ _ _ Hinv3 HKst) as [ce Hce].
  set (e := new_pte (PPAGE_TO_PADDR st) ro).
  assert (ppn e = st) as Hppn by (apply Z.div_mul; done).
  wp_go. eapply wp_as_get; [apply lookup_insert_eq|]. wp_go. simpl.
  eapply wp_deref.
  { rewrite (lookup_store _ v v e e0) by (apply Hv || done). by rewrite decide_True. }
  wp_check. apply wp_in_cm.
  eapply wp_cm_set_user_page; [by destruct (i_blocks _ _ _ Hinv3) as (? & [] & _)|done..|]. wp_go.
  assert (∀ e1, pte_at s3 a v = Some e1 → in_mem e1 = false) as Hout.
  { intros e1. by rewrite (kept_none _ _ _ _ _ Hk Hv (λ H, H) Hnone). }
  set (s' := set_cm _ _).
  assert (as_upd s3 s' a (with_pt x3 (pt_store (pt x3) v e))) as Hupd.
  { intros b. simpl. case_decide as Hb; [subst b; apply lookup_insert_eq|by apply lookup_insert_ne]. }
  assert (∀ o, Swap.slot_used (sw s3) o ↔ Swap.slot_used (sw s3) o ∧
    ∀ e1, pte_at s3 a v = Some e1 → o ≠ swap_offset e1) as Hw.
  { intros o. split; [|by intros []]. intros Ho. split; [done|]. intros e1.
    by rewrite (kept_none _ _ _ _ _ Hk Hv (λ H, H) Hnone). }
  destruct (mapping_done K3 (Some a) s3 st a v x3 e0 e ce (cm_evict_index s3) (sw s3)
    (ases s') Hinv3 HKst Hv Hx3 He0 Hout eq_refl eq_refl Hppn Hce (i_sw _ _ _ Hinv3) eq_refl
    Hw Hupd) as (D1 & D2 & D3 & D4).
  exists (delete st K3). split_and!; try done.
  - by eapply kept_trans; [apply kept_weaken|].
  - right. split; [done|]. exists e. split_and!; try done. etrans; [exact D4|].
    rewrite Hfr3, Hz. unfold content, holds. by rewrite Hnone.
Qed.

Lemma fault_new_correct K s a x v :
  inv K (Some a) s → ases s !! a = Some x → is_page v → pte_at s a v = None → room s 7 →
  wp (fault_new zero_page a v) (resident_post K a v s) s.
Proof.
  intros Hinv Hx Hv Hnone Hroom. unfold fault_new.
  refine (resident_alloc K a v s 6 _ Hinv _ Hroom _); [lia|].
  intros st s1 HK Hst Hr Hinv1 Hpg Hroom1.
  assert (is_Some ((<[st := 1]> K : gmap Z Z) !! st)) as HKst by (rewrite lookup_insert_eq; eauto).
  destruct (inv_frame _ _ _ st zero_page Hinv1 HKst) as [Hinv2 Hk2].
  wp_go. rewrite kva_page. apply wp_frame_set; [by apply Hinv1|].
  set (s2 := set_frames _ s1) in *.
  assert (kept nowhere s s2) as Hk by (eapply kept_trans; [by apply paged_kept|done]).
  destruct (kept_as _ _ _ _ _ Hk Hx) as (x2 & Hx2 & Hsame). wp_go.
  eapply wp_as_get; [done|]. rewrite (perms_same _ _ v Hsame).
  destruct (get_region_permissions x v) as [[[rd wr] ex]|err] eqn:Hperm.
  - wp_go. rewrite kva_paddr.
    eapply wp_mono; [|by apply (pagetable_insert_correct (<[st := 1]> K) (Some a) s2 a x2)].
    intros r s3 [(Hr1 & Hinv3 & Hk3)|(-> & s4 & x4 & Hl2 & Hx4 & ->)].
    + rewrite (proj2 (Z.eqb_neq _ _)) by lia. cbn [negb]. wp_go.
      eapply (resident_err K (<[st := 1]> K)); try done; [by apply insert_subseteq|].
      by eapply kept_trans.
    + cbn [Z.eqb negb].
      eapply (fault_new_finish K s s2 s4); try done; [|apply lookup_insert_eq].
      unfold ro_of. rewrite Hnone. by exists x, rd, wr, ex.
  - by eapply (resident_giveup K a v s s2).
Qed.

(** A page on disk stays there while other pages are moved out. *)
Lemma paged_swapped K K1 cur s s1 a v e :
  inv K cur s → inv K1 cur s1 → paged s s1 → is_page v →
  pte_at s a v = Some e → in_mem e = false →
  ∃ x1 e1 d, ases s1 !! a = Some x1 ∧ pagetable_lookup (pt x1) v = Some e1 ∧ valid e1 = true ∧
    pte_at s1 a v = Some e1 ∧ in_mem e1 = false ∧ readonly e1 = readonly e ∧
    Swap.slot_used (sw s1) (swap_offset e1) ∧ Swap.disk (sw s1) !! swap_offset e1 = Some d ∧
    content s a v = Some d.
Proof.
  intros Hinv Hinv1 Hpg Hv He Hin. pose proof (paged_kept _ _ Hpg) as Hk.
  pose proof (kp_ro _ _ _ Hk a v Hv (λ H, H)) as Hro. rewrite He in Hro.
  destruct (pte_at s1 a v) as [e1|] eqn:He1; [|done]. injection Hro as Hro.
  pose proof (kp_content _ _ _ Hk a v Hv (λ H, H)) as Hc.
  unfold pte_at in He1. destruct (ases s1 !! a) as [x1|] eqn:Hx1; [|done]. simpl in He1.
  destruct (mapped_lookup _ _ _ He1) as [Hlk Hval].
  assert (pte_at s1 a v = Some e1) as He1' by (unfold pte_at; by rewrite Hx1).
  assert (in_mem e1 = false) as Hin1.
  { destruct (in_mem e1) eqn:Hin1; [|done].
    pose proof (p_mem _ _ _ _ (i_pages _ _ _ Hinv1) a v e1 Hv He1' Hin1) as Ho.
    apply (pg_owner _ _ Hpg) in Ho.
    destruct (p_owner _ _ _ _ (i_pages _ _ _ Hinv) _ _ _ Ho) as (_ & e2 & He2 & Hin2 & _).
    congruence. }
  destruct (p_swap _ _ _ _ (i_pages _ _ _ Hinv1) a v e1 Hv He1' Hin1) as [HU [d Hd]].
  exists x1, e1, d. split_and!; try done. rewrite <- Hc. unfold content, holds. rewrite He1'.
  simpl. by rewrite Hin1.
Qed.

Lemma slot_not_none (w : Swap.swapst page) o :
  Swap.swap_wf w → Swap.slot_used w o → o ≠ SWAP_OFFSET_NONE.
Proof.
  intros Hw (i & -> & Hi). apply Bitmap.elem_of_used in Hi as [Hr _].
  unfold Swap.PAGE_SIZE, SWAP_OFFSET_NONE. lia.
Qed.

(** The page has been read into frame [st]: the rest of the branch. *)
Lemma fault_swapin_finish K s s2 a v x2 e e2 d st :
  K !! st = None → is_page v → pte_at s a v = Some e → content s a v = Some d →
  inv (<[st := 1]> K) (Some a) s2 → kept nowhere s s2 →
  frames s2 !! st = Some d → ases s2 !! a = Some x2 →
  pagetable_lookup (pt x2) v = Some e2 → pte_at s2 a v = Some e2 → valid e2 = true →
  in_mem e2 = false → readonly e2 = readonly e → Swap.slot_used (sw s2) (swap_offset e2) →
  wp (pte_set a v (mkPte (valid e2) true (readonly e2) false (swap_offset e2) st) ;;
      in_sw (Swap.swap_free_slot (swap_offset e2)) ;;
      pte_set a v (mkPte (valid e2) true (readonly e2) false SWAP_OFFSET_NONE st) ;;
      in_cm (cm_set_user_page st a v) ;; mret 0) (resident_post K a v s) s2.
Proof.
  intros HK Hv He Hd Hinv2 Hk Hf Hx2 Hlk He2 Hval Hin Hro HU.
  assert ((<[st := 1]> K : gmap Z Z) !! st = Some 1) as HKst by apply lookup_insert_eq.
  destruct (kernel_entry _ _ _ _ _ Hinv2 HKst) as [ce Hce].
  set (e3 := mkPte (valid e2) true (readonly e2) false SWAP_OFFSET_NONE st).
  wp_go. eapply wp_pte_set; [done|]. wp_go. apply wp_in_sw.
  eapply wp_mono; [|apply Swap.swap_free_correct; [by apply Hinv2|done]].
  intros [] w' (Hw1 & Hw2 & _ & Hw3). wp_go. eapply wp_pte_set; [apply lookup_insert_eq|]. wp_go.
  apply wp_in_cm.
  eapply wp_cm_set_user_page; [by destruct (i_blocks _ _ _ Hinv2) as (? & [] & _)|done..|]. wp_go.
  set (s' := set_cm _ _).
  assert (as_upd s2 s' a (with_pt x2 (pt_store (pt x2) v e3))) as Hupd.
  { intros b. simpl. rewrite insert_insert_eq. case_decide as Hb.
    - subst b. rewrite lookup_insert_eq. unfold with_pt. simpl. by rewrite pt_store_store.
    - by rewrite lookup_insert_ne. }
  destruct (mapping_done (<[st := 1]> K) (Some a) s2 st a v x2 e2 e3 ce (cm_evict_index s2) w'
    (ases s') Hinv2 HKst Hv Hx2 Hlk) as (D1 & D2 & D3 & D4); try done.
  { intros e1. rewrite He2. by intros [= <-]. }
  { intros o. rewrite Hw3, He2. naive_solver. }
  exists K. rewrite delete_insert_id in D1 by done. split_and!; try done.
  - by eapply kept_trans; [apply kept_weaken|].
  - right. split; [done|]. exists e3. split_and!; try done.
    + etrans; [exact D4|]. by rewrite Hf, Hd.
    + unfold ro_of. by rewrite He.
Qed.

Lemma fault_swapin_correct K s a v e :
  inv K (Some a) s → is_page v → pte_at s a v = Some e → in_mem e = false → room s 7 →
  wp (fault_swapin a v) (resident_post K a v s) s.
Proof.
  intros Hinv Hv He Hin Hroom. unfold fault_swapin.
  refine (resident_alloc K a v s 6 _ Hinv _ Hroom _); [lia|].
  intros st s1 HK Hst Hr Hinv1 Hpg Hroom1.
  destruct (paged_swapped _ _ _ _ _ _ _ _ Hinv Hinv1 Hpg Hv He Hin)
    as (x1 & e1 & d & Hx1 & Hlk & Hval & He1 & Hin1 & Hro & HU & Hd & Hc).
  pose proof (i_sw _ _ _ Hinv1) as Hsw.
  wp_go. eapply wp_as_get; [done|]. wp_go. eapply wp_deref; [done|]. wp_go.
  rewrite (proj2 (Z.eqb_neq _ _)) by (by eapply slot_not_none). wp_go. apply wp_in_sw.
  eapply wp_mono; [|apply (Swap.swap_read_correct _ _ d); [done|by eapply slot_aligned|done]].
  intros r w1 (Hw1 & Hbm & Hdisk & Hres).
  destruct (inv_sw _ _ s1 (cm_evict_index s1) w1 Hinv1 Hw1) as [Hinv2 Hpg2].
  { intros o. unfold Swap.slot_used. by rewrite Hbm. }
  { intros o _. by rewrite Hdisk. }
  set (s2 := set_index _ _) in *.
  assert (kept nowhere s s2) as Hk by (apply paged_kept; by etrans).
  destruct r as [d'|err].
  - rewrite kva_paddr, ppage_paddr. wp_go. change (set_sw w1 s1) with s2.
    destruct (inv_frame _ _ s2 st d Hinv2) as [Hinv3 Hk3].
    { rewrite lookup_insert_eq. eauto. }
    subst d'. apply wp_frame_set; [by apply Hinv2|].
    eapply (fault_swapin_finish K s _ a v x1 e e1 d st); try done.
    + by eapply kept_trans.
    + apply lookup_insert_eq.
    + unfold Swap.slot_used in *. simpl. by rewrite Hbm.
  - destruct Hres as [Herr _]. by eapply (resident_giveup K a v s s2).
Qed.

Lemma fault_resident_correct K s a x v :
  inv K (Some a) s → ases s !! a = Some x → is_page v → room s 7 →
  wp (fault_resident zero_page a v) (resident_post K a v s) s.
Proof.
  intros Hinv Hx Hv Hroom. unfold fault_resident. wp_go. eapply wp_as_get; [done|].
  assert (∀ e, mapped (pt x) v = e → pte_at s a v = e) as Hpte
    by (intros e <-; unfold pte_at; by rewrite Hx).
  unfold mapped in Hpte. destruct (pagetable_lookup (pt x) v) as [e|].
  2: { by eapply fault_new_correct; [..|apply Hpte|]. }
  destruct (valid e) eqn:Hval; cbn [negb].
  2: { by eapply fault_new_correct; [..|apply Hpte|]. }
  specialize (Hpte _ eq_refl). destruct (in_mem e) eqn:Hin; cbn [negb].
  2: { by eapply fault_swapin_correct. }
  wp_go. exists K. split_and!; try done; [by apply kept_weaken, paged_kept|].
  right. split; [done|]. exists e. split_and!; try done.
  - pose proof (p_mem _ _ _ _ (i_pages _ _ _ Hinv) a v e Hv Hpte Hin) as Ho.
    destruct (i_frames _ _ _ Hinv (ppn e)) as [f Hf]; [by eapply owner_range|].
    unfold content, holds. rewrite Hpte. simpl. rewrite Hin. by rewrite Hf.
  - unfold ro_of. by rewrite Hpte.
Qed.

(** ** Changing an address space, but not its page table *)

Definition put_as s (a : positive) (y : addrspace) : vm page := set_ases (<[a := y]> (ases s)) s.

Section put_as.
Context (s : vm page) (a : positive) (x y : addrspace).
Context (Hx : ases s !! a = Some x) (Hy : pt y = pt x).

Lemma put_pte c u : pte_at (put_as s a y) c u = pte_at s c u.
Proof.
  unfold pte_at. simpl. destruct (decide (c = a)) as [->|].
  - rewrite lookup_insert_eq, Hx. simpl. by rewrite Hy.
  - by rewrite lookup_insert_ne.
Qed.

Lemma put_content c u : content (put_as s a y) c u = content s c u.
Proof. unfold content, holds. by rewrite put_pte. Qed.

Lemma inv_put K cur : inv K cur s → inv K cur (put_as s a y).
Proof.
  intros [Hf HB Hoe Hke Hpg Hpt Hfr Hsw Ht Htl Hmaps]. constructor; try done.
  - eapply pages_ok_ext; try done. intros. by apply put_pte.
  - intros c z. simpl. destruct (decide (c = a)) as [->|].
    + rewrite lookup_insert_eq. intros [= <-]. rewrite Hy. exact (Hpt a x Hx).
    + rewrite lookup_insert_ne by done. apply Hpt.
  - intros q lo Hq. destruct (Hmaps q lo Hq) as (a1 & e1 & ?). exists a1, e1.
    by rewrite put_pte.
Qed.
End put_as.

(** Locking and unlocking. *)
Definition lockas s (a : positive) (x : addrspace) (b : bool) : vm page :=
  put_as s a (with_as_lock x b).

Lemma lockas_pte s a x b c u : ases s !! a = Some x → pte_at (lockas s a x b) c u = pte_at s c u.
Proof. intros Hx. by apply (put_pte s a x). Qed.

Lemma lockas_content s a x b c u :
  ases s !! a = Some x → content (lockas s a x b) c u = content s c u.
Proof. intros Hx. by apply (put_content s a x). Qed.

Lemma inv_lockas K cur s a x b : inv K cur s → ases s !! a = Some x → inv K cur (lockas s a x b).
Proof. intros Hinv Hx. by apply (inv_put s a x). Qed.

(** ** Loading the TLB *)

Lemma page_mask v : is_page v → Z.land v PAGE_FRAME = v.
Proof. intros Hv. rewrite page_frame_eq by apply Hv. by apply page_of_id. Qed.

Lemma mask_idem v : Z.land (Z.land v PAGE_FRAME) PAGE_FRAME = Z.land v PAGE_FRAME.
Proof. by rewrite <- Z.land_assoc. Qed.

Lemma entrylo_valid hi e : is_valid (hi, entrylo_of e) = true.
Proof.
  unfold is_valid, entrylo_of. simpl. apply negb_true_iff, Z.eqb_neq. intros H.
  apply (f_equal (λ z, Z.testbit z 9)) in H. revert H.
  destruct (readonly e); rewrite !Z.land_spec, !Z.lor_spec; simpl;
    rewrite ?orb_true_r, ?orb_false_r, ?andb_true_r; by rewrite ?orb_true_r.
Qed.

Lemma entrylo_dirty e : Z.land (entrylo_of e) TLBLO_DIRTY = 0 → readonly e = true.
Proof.
  intros H. destruct (readonly e) eqn:Hro; [done|]. exfalso. unfold entrylo_of in H.
  rewrite Hro in H. apply (f_equal (λ z, Z.testbit z 10)) in H. revert H.
  rewrite !Z.land_spec, !Z.lor_spec. simpl. by rewrite !orb_true_r.
Qed.

Lemma fault_tlb_correct t fa e :
  tlb_wf t → tlb_spinlock t = false → is_vaddr fa → fa < 2 ^ 31 →
  (∀ lo, ¬ maps t (page_of fa) lo) →
  wp (fault_tlb fa e) (λ _ t', inserted t (page_of fa) (entrylo_of e) t') t.
Proof.
  intros Hwf Hl Hfa Hmax Hno.
  assert (vpage (Z.land fa TLBHI_VPAGE, entrylo_of e) = page_of fa) as Hvp.
  { unfold vpage. cbn [fst]. change TLBHI_VPAGE with PAGE_FRAME. rewrite mask_idem.
    by apply page_frame_eq. }
  pose proof (page_of_page fa Hfa) as [Hpr _]. unfold is_vaddr in *.
  assert (page_of fa ≤ fa) by (unfold page_of; pose proof (Z.mul_div_le fa 4096); lia).
  unfold fault_tlb. wp_go. rewrite Hl. wp_go. apply wp_tlb_acquire; [done|]. wp_go.
  eapply wp_mono; [|apply tlb_insert_correct].
  - intros [] t' (Hwf' & Hl' & Hmap & Hold). rewrite Hvp in *.
    apply wp_tlb_release; [done|]. split_and!; try done. by apply tlb_wf_lock.
  - by apply tlb_wf_lock.
  - apply entrylo_valid.
  - rewrite Hvp. lia.
  - by rewrite Hvp.
Qed.

(** Setting the dirty flag of an entry. *)
Lemma inv_dirty K cur s a x v e0 e :
  inv K cur s → ases s !! a = Some x → is_page v → pte_at s a v = Some e0 →
  valid e = true → in_mem e = in_mem e0 → swap_offset e = swap_offset e0 → ppn e = ppn e0 →
  readonly e = readonly e0 →
  let s' := set_ases (<[a := with_pt x (pt_store (pt x) v e)]> (ases s)) s in
  inv K cur s' ∧ kept nowhere s s' ∧ pte_at s' a v = Some e.
Proof.
  intros Hinv Hx Hv He0 H1 H2 H3 H4 H5 s'.
  pose proof He0 as Hmap. unfold pte_at in Hmap. rewrite Hx in Hmap. simpl in Hmap.
  destruct (mapped_lookup _ _ _ Hmap) as [Hlk _].
  assert (as_upd s s' a (with_pt x (pt_store (pt x) v e))) as Hupd.
  { intros b. simpl. case_decide as Hb; [subst b; apply lookup_insert_eq|by apply lookup_insert_ne]. }
  pose proof (pte_at_store s s' a x _ v e0 e Hx Hupd Hv Hlk H1 eq_refl) as HP.
  pose proof Hinv as [Hf HB Hoe Hke Hpg Hpt Hfr Hsw Ht Htl Hmaps]. split_and!.
  - constructor; try done.
    + by eapply (pages_flags _ _ _ _ _ a v e0 e).
    + intros b y. rewrite Hupd. case_decide; [|by apply Hpt]. intros [= <-]. simpl.
      by apply pt_wf_store, (Hpt a).
    + intros q lo Hq. destruct (maps_page _ _ _ Ht Hq) as [Hpq _].
      destruct (Hmaps q lo Hq) as (a1 & e1 & Hcur & He1 & Hin & Hlo).
      rewrite Hcur in *. exists a1. rewrite HP by done. case_decide as Ha; [|by exists e1].
      destruct Ha as [-> ->]. exists e. simplify_eq. split_and!; try done; [congruence|].
      unfold entrylo_of. by rewrite H4, H5.
  - constructor; try done.
    + intros b. rewrite Hupd. case_decide as Hb.
      * subst b. rewrite Hx. by do 2 constructor.
      * by destruct (ases s !! b); constructor.
    + intros b u Hu _. rewrite HP by done. case_decide as Ha; [|done].
      destruct Ha as [-> ->]. rewrite He0. simpl. by rewrite H5.
    + intros b u Hu _. unfold content, holds. rewrite HP by done. case_decide as Ha; [|done].
      destruct Ha as [-> ->]. rewrite He0. simpl. by rewrite H2, H3, H4.
  - rewrite HP by done. by rewrite decide_True.
Qed.

(** ** [vm_fault] *)

(** The frame that the low word of a TLB entry names. *)
Definition lo_frame (lo : Z) : Z := Z.land lo TLBLO_PPAGE / PAGE_SIZE.

Lemma lo_frame_entry e : 0 ≤ ppn e < 2 ^ 20 → lo_frame (entrylo_of e) = ppn e.
Proof.
  intros Hp. assert (Z.land (PPAGE_TO_PADDR (ppn e)) PAGE_FRAME = PPAGE_TO_PADDR (ppn e)) as Hm.
  { apply page_mask. unfold PPAGE_TO_PADDR, PAGE_SIZE. split; [unfold is_vaddr; lia|].
    apply Z.mod_mul. lia. }
  unfold lo_frame, entrylo_of. change TLBLO_PPAGE with PAGE_FRAME.
  transitivity (PPAGE_TO_PADDR (ppn e) / PAGE_SIZE); [f_equal|by apply Z.div_mul].
  destruct (readonly e); rewrite !Z.land_lor_distr_l, mask_idem, Hm;
    change (Z.land TLBLO_VALID PAGE_FRAME) with 0; change (Z.land TLBLO_DIRTY PAGE_FRAME) with 0;
    by rewrite !Z.lor_0_r.
Qed.

(** The thread holds the lock of no address space. *)
Definition all_unlocked s : Prop := ∀ a x, ases s !! a = Some x → as_lock x = false.

(** [vm_fault] cannot run into a page of the faulting address space itself:
    none is in memory, or there is free memory for the page and a new
    second-level table. *)
Definition fault_room s (a : positive) : Prop :=
  (∀ p v, owner_at (cm s) p ≠ Some (a, v)) ∨ ∃ st, free_pages (cm s) st 7.

(** When the hardware raises the fault: the page is not translated, or it is and
    a write was not allowed. *)
Definition tlb_event s (faulttype v : Z) : Prop :=
  (faulttype = VM_FAULT_READ ∨ faulttype = VM_FAULT_WRITE) ∧ (∀ lo, ¬ maps (mmu s) v lo) ∨
  faulttype = VM_FAULT_READONLY ∧ ∃ lo, maps (mmu s) v lo ∧ Z.land lo TLBLO_DIRTY = 0.

(** The page [v] can be used: its translation leads to a frame with [f] in it,
    and allows writing unless [ro]. *)
Definition usable s (v : Z) (f : page) (ro : bool) : Prop :=
  ∃ lo, maps (mmu s) v lo ∧ frames s !! lo_frame lo = Some f ∧
    (ro = false → Z.land lo TLBLO_DIRTY ≠ 0).

Record fault_post K (a : positive) (x : addrspace) (faulttype fa : Z) s (r : Z) (s' : vm page)
  : Prop := {
  f_inv : ∃ K', K ⊆ K' ∧ inv K' (Some a) s';
  f_as : ∀ b, option_Forall2 as_same (ases s !! b) (ases s' !! b);
  f_others : ∀ b u, is_page u → ¬ only a (page_of fa) b u →
    readonly <$> pte_at s' b u = readonly <$> pte_at s b u ∧ content s' b u = content s b u;
  f_maps : ∀ q lo, maps (mmu s') q lo → q = page_of fa ∨ maps (mmu s) q lo;
  f_result : 0 ≤ r;
  f_error : r ≠ 0 → content s' a (page_of fa) = content s a (page_of fa);
  f_ok : r = 0 → is_valid_address x fa = true ∧ faulttype ≠ VM_FAULT_READONLY ∧
    let f := default zero_page (content s a (page_of fa)) in
    content s' a (page_of fa) = Some f ∧
    ∃ ro, ro_of s a (page_of fa) ro ∧ usable s' (page_of fa) f ro;
}.

Lemma fault_room_locked s a x :
  all_unlocked s → ases s !! a = Some x → fault_room s a → room (lockas s a x true) 7.
Proof.
  intros Hall Hx [Hno|Hfree]; [left|by right].
  intros p b v y Ho Hy. simpl in Hy. destruct (decide (b = a)) as [->|].
  - by destruct (Hno p v).
  - rewrite lookup_insert_ne in Hy by done. by eapply Hall.
Qed.

Lemma ro_of_lockas s a x b v ro :
  ases s !! a = Some x → ro_of (lockas s a x b) a v ro → ro_of s a v ro.
Proof.
  intros Hx. unfold ro_of. rewrite lockas_pte by done. destruct (pte_at s a v); [done|].
  intros (y & rd & wr & ex & Hy & Hp & ->). simpl in Hy. rewrite lookup_insert_eq in Hy.
  injection Hy as <-. by exists x, rd, wr, ex.
Qed.

(** Releasing the lock at the end: what was kept while it was held is kept. *)
Section released.
Context (K K' : gmap Z Z) (s : vm page) (a : positive) (x : addrspace) (X : positive → Z → Prop).
Context (Hx : ases s !! a = Some x) (Hl : as_lock x = false).
Context (s1 : vm page) (x1 : addrspace).
Context (Hk : kept X (lockas s a x true) s1) (Hx1 : ases s1 !! a = Some x1).

Lemma released_as b :
  option_Forall2 as_same (ases s !! b) (ases (lockas s1 a x1 false) !! b).
Proof.
  pose proof (kp_as _ _ _ Hk b) as Hb. simpl in *. destruct (decide (b = a)) as [->|].
  - rewrite lookup_insert_eq, Hx. rewrite lookup_insert_eq, Hx1 in Hb.
    inversion Hb as [? ? Hs|]; subst. destruct Hs. constructor. by constructor.
  - rewrite lookup_insert_ne by done. by rewrite lookup_insert_ne in Hb.
Qed.

Lemma released_pages b u :
  is_page u → ¬ X b u →
  readonly <$> pte_at (lockas s1 a x1 false) b u = readonly <$> pte_at s b u ∧
  content (lockas s1 a x1 false) b u = content s b u.
Proof.
  intros Hu HX. rewrite lockas_pte, lockas_content by done.
  rewrite (kp_ro _ _ _ Hk), (kp_content _ _ _ Hk) by done.
  by rewrite lockas_pte, lockas_content.
Qed.

Lemma released_lock : as_lock x1 = true.
Proof.
  pose proof (kp_as _ _ _ Hk a) as Ha. simpl in Ha. rewrite lookup_insert_eq, Hx1 in Ha.
  inversion Ha as [? ? Hs|]; subst. by rewrite (sm_lock _ _ Hs).
Qed.
End released.

(** The way out with an error. *)
Lemma vm_fault_error K K' s a x ft fa s1 r :
  ases s !! a = Some x → as_lock x = false → is_vaddr fa → K ⊆ K' → inv K' (Some a) s1 →
  kept nowhere (lockas s a x true) s1 → 0 < r →
  wp (as_release a ;; mret r) (fault_post K a x ft fa s) s1.
Proof.
  intros Hx Hl Hfa HK Hinv Hk Hr.
  destruct (kept_as _ _ _ a _ Hk (lookup_insert_eq _ _ _)) as (x1 & Hx1 & _).
  pose proof (released_lock _ _ _ _ _ _ Hk Hx1) as Hl1.
  wp_go. eapply wp_as_release; [done..|]. wp_go.
  change (set_ases _ s1) with (lockas s1 a x1 false).
  pose proof (page_of_page fa Hfa) as Hpage.
  constructor; try lia.
  - exists K'. split; [done|]. by apply inv_lockas.
  - by eapply released_as.
  - intros b u Hu _. by apply (released_pages s a x nowhere Hx s1 x1 Hk Hx1 b u Hu (λ H, H)).
  - intros q lo Hq. right. by apply (kp_maps _ _ _ Hk).
  - intros _. by apply (released_pages s a x nowhere Hx s1 x1 Hk Hx1 a _ Hpage (λ H, H)).
Qed.

Lemma inv_inserted K s a v e t' :
  inv K (Some a) s → pte_at s a v = Some e → in_mem e = true →
  inserted (mmu s) v (entrylo_of e) t' → inv K (Some a) (set_mmu t' s).
Proof.
  intros [Hf HB Hoe Hke Hpg Hpt Hfr Hsw Ht Htl Hmaps] He Hin (Hwf & Hl & _ & Hold).
  constructor; try done; simpl; [by rewrite Hl|].
  intros q lo Hq. destruct (Hold q lo Hq) as [[-> ->]|Hq']; [by exists a, e|by apply Hmaps].
Qed.

Lemma resident_usable K s a v e f t' ro :
  inv K (Some a) s → is_page v → pte_at s a v = Some e → in_mem e = true →
  content s a v = Some f → readonly e = ro → maps t' v (entrylo_of e) →
  usable (set_mmu t' s) v f ro.
Proof.
  intros Hinv Hv He Hin Hc Hro Hm. exists (entrylo_of e).
  pose proof (p_mem _ _ _ _ (i_pages _ _ _ Hinv) a v e Hv He Hin) as Ho.
  pose proof (owner_range _ _ _ _ _ Hinv Ho). pose proof (i_first _ _ _ Hinv).
  split_and!; [done| |].
  - rewrite lo_frame_entry by lia. unfold content, holds in Hc. rewrite He in Hc. simpl in Hc.
    by rewrite Hin in Hc.
  - intros Hf Hd. apply entrylo_dirty in Hd. congruence.
Qed.

(** The way out with success. *)
Lemma vm_fault_finish K K' s a x ft fa s1 e e1 f :
  ases s !! a = Some x → as_lock x = false → is_vaddr fa → fa < 2 ^ 31 → K ⊆ K' →
  is_valid_address x fa = true → ft ≠ VM_FAULT_READONLY →
  (∀ lo, ¬ maps (mmu s) (page_of fa) lo) →
  inv K' (Some a) s1 → kept (only a (page_of fa)) (lockas s a x true) s1 →
  pte_at s1 a (page_of fa) = Some e1 → in_mem e1 = true → entrylo_of e = entrylo_of e1 →
  f = default zero_page (content s a (page_of fa)) → content s1 a (page_of fa) = Some f →
  ro_of s a (page_of fa) (readonly e1) →
  wp (in_tlb (fault_tlb fa e) ;; as_release a ;; mret 0) (fault_post K a x ft fa s) s1.
Proof.
  intros Hx Hl Hfa Hmax HK Hvalid Hft Hmiss Hinv Hk He1 Hin Heq Hf Hc Hro.
  destruct (kept_as _ _ _ a _ Hk (lookup_insert_eq _ _ _)) as (x1 & Hx1 & _).
  pose proof (released_lock _ _ _ _ _ _ Hk Hx1) as Hl1.
  pose proof (page_of_page fa Hfa) as Hpage.
  wp_go. apply wp_in_tlb.
  eapply wp_mono; [|apply fault_tlb_correct; [apply Hinv|apply Hinv|done|done|]].
  2: { intros lo Hlo. apply (kp_maps _ _ _ Hk) in Hlo. by eapply Hmiss. }
  intros [] t' Hins. rewrite Heq in Hins. wp_go. eapply wp_as_release; [done..|]. wp_go.
  change (set_ases _ (set_mmu t' s1)) with (set_mmu t' (lockas s1 a x1 false)).
  assert (inv K' (Some a) (lockas s1 a x1 false)) as Hinv2 by (by apply inv_lockas).
  constructor; try done.
  - exists K'. split; [done|]. apply (inv_inserted K' _ a (page_of fa) e1); try done.
    by rewrite lockas_pte.
  - intros b. by apply (released_as s a x (only a (page_of fa)) Hx Hl s1).
  - intros b u Hu HX. by apply (released_pages s a x (only a (page_of fa)) Hx s1 x1 Hk Hx1).
  - intros q lo Hq. destruct Hins as (_ & _ & _ & Hold).
    destruct (Hold q lo Hq) as [[-> _]|Hq']; [by left|right]. by apply (kp_maps _ _ _ Hk).
  - intros _. split_and!; [done|done|]. rewrite <- Hf. split.
    + etrans; [|exact Hc]. exact (lockas_content s1 a x1 false a (page_of fa) Hx1).
    + exists (readonly e1). split; [done|].
      eapply (resident_usable K' (lockas s1 a x1 false) a); try done.
      * by rewrite lockas_pte.
      * by rewrite lockas_content.
      * apply Hins.
Qed.

Lemma kept_fill s s' a v :
  kept (only a v) s s' → readonly <$> pte_at s' a v = readonly <$> pte_at s a v →
  content s' a v = content s a v → kept nowhere s s'.
Proof.
  intros [H1 H2 H3 H4] Hro Hc. constructor; try done; intros b u Hu _.
  - destruct (decide (b = a)) as [->|]; [destruct (decide (u = v)) as [->|]|]; [done| |];
      apply H2; [done|unfold only; naive_solver|done|unfold only; naive_solver].
  - destruct (decide (b = a)) as [->|]; [destruct (decide (u = v)) as [->|]|]; [done| |];
      apply H3; [done|unfold only; naive_solver|done|unfold only; naive_solver].
Qed.

Lemma content_mem K cur s a v e :
  inv K cur s → is_page v → pte_at s a v = Some e → is_Some (content s a v).
Proof.
  intros Hinv Hv He. pose proof (i_pages _ _ _ Hinv) as Hpg.
  unfold content, holds. rewrite He. simpl. destruct (in_mem e) eqn:Hin.
  - apply (i_frames _ _ _ Hinv). eapply owner_range; [done|]. by eapply (p_mem _ _ _ _ Hpg a v).
  - by apply (p_swap _ _ _ _ Hpg a v).
Qed.

Lemma vm_fault_correct K s a x ft fa :
  inv K (Some a) s → ases s !! a = Some x → all_unlocked s → is_vaddr fa → fa < 2 ^ 31 →
  fault_room s a → tlb_event s ft (page_of fa) →
  wp (vm_fault zero_page (Some a) ft fa) (fault_post K a x ft fa s) s.
Proof.
  intros Hinv Hx Hall Hfa Hmax Hroom Hev. pose proof (Hall a x Hx) as Hl.
  pose proof (page_of_page fa Hfa) as Hpage. set (v := page_of fa) in *.
  unfold vm_fault. wp_go. eapply wp_as_acquire; [done..|]. wp_go.
  change (set_ases _ s) with (lockas s a x true). set (s0 := lockas s a x true).
  assert (inv K (Some a) s0) as Hinv0 by (by apply inv_lockas).
  assert (ases s0 !! a = Some (with_as_lock x true)) as Hx0 by apply lookup_insert_eq.
  eapply wp_as_get; [done|].
  change (is_valid_address (with_as_lock x true) fa) with (is_valid_address x fa).
  destruct (is_valid_address x fa) eqn:Hvalid; cbn [negb].
  2: { by eapply vm_fault_error; [..|apply paged_kept|]. }
  rewrite page_frame_eq by done. change (fa / 4096 * 4096) with v. wp_go.
  eapply wp_mono; [|eapply fault_resident_correct; [done..|by apply fault_room_locked]].
  intros r s1 (K1 & HK1 & Hinv1 & Hk1 & [(Hr & Hk)|(-> & e & He & Hin & Hc & Hro)]).
  { rewrite (proj2 (Z.eqb_neq _ _)) by lia. cbn [negb]. by eapply vm_fault_error. }
  cbn [Z.eqb negb]. wp_go.
  destruct (kept_as _ _ _ a _ Hk1 Hx0) as (x1 & Hx1 & _). eapply wp_as_get; [done|].
  pose proof He as Hmap. unfold pte_at in Hmap. rewrite Hx1 in Hmap. simpl in Hmap.
  destruct (mapped_lookup _ _ _ Hmap) as [Hlk Hval]. wp_go. eapply wp_deref; [done|].
  unfold s0 in Hc. rewrite lockas_content in Hc by done. apply ro_of_lockas in Hro; [|done].
  destruct Hev as [[Hft Hmiss]|[-> (lo & Hlo & Hd)]].
  - assert (ft =? VM_FAULT_READONLY = false) as -> by (destruct Hft; by subst).
    assert (ft ≠ VM_FAULT_READONLY) by (destruct Hft; by subst). cbn [andb].
    destruct (ft =? VM_FAULT_WRITE).
    + wp_go. eapply wp_pte_set; [done|].
      destruct (inv_dirty K1 (Some a) s1 a x1 v e
        (mkPte (valid e) (in_mem e) (readonly e) true (swap_offset e) (ppn e)))
        as (Hinv2 & Hk2 & He2); try done.
      eapply (vm_fault_finish K K1 s a x ft fa); try done.
      * eapply kept_trans; [done|]. by apply kept_weaken.
      * etrans; [exact (kp_content _ _ _ Hk2 a v Hpage (λ H, H))|exact Hc].
    + apply wp_bind, wp_ret. by eapply (vm_fault_finish K K1 s a x ft fa _ e e).
  - destruct (i_maps _ _ _ Hinv v lo Hlo) as (a' & e0 & [= <-] & He0 & _ & ->).
    apply entrylo_dirty in Hd. unfold ro_of in Hro. rewrite He0 in Hro. rewrite Hro, Hd.
    cbn [VM_FAULT_READONLY Z.eqb andb]. eapply vm_fault_error; try done.
    apply (kept_fill _ _ a v); [done|..]; unfold s0.
    + rewrite lockas_pte, He0, He by done. simpl. by rewrite Hro.
    + rewrite lockas_content by done. fold v in Hc. rewrite Hc.
      destruct (content_mem _ _ _ _ _ _ Hinv Hpage He0) as [f ->]. done.
Qed.
End fault.

End VmFault.
