(* ===== verification/VmTheorems.v ===== *)
(** * Theorems about paging

    Booting establishes the invariant of VmEvict.v; a page fault, an eviction and
    an allocation by the kernel keep it and do not change what any page holds.
    The last part runs the code on small machines. *)

From Stdlib Require Import ZArith Lia.
From stdpp Require Import base numbers list gmap.
From S2P Require Import Prelude Bitmap Coremap PageTable Swap Tlb Vm VmPages VmEvict VmFault.

Module VmTheorems.
Import Coremap PageTable Tlb Vm VmPages VmEvict VmFault.

Section theorems.
Context {page : Type} (zero_page : page).
Implicit Types (s : vm page) (K : gmap Z Z).

(** ** Booting *)

Lemma inv_booted (c : coremap) (fr : gmap Z page) w t a x :
  blocks c ∅ → (∀ p e, znth (entries c) p = Some e → owner e = None) →
  0 < first_page c ∧ last_page c ≤ 2 ^ 20 →
  (∀ p, first_page c ≤ p < last_page c → is_Some (fr !! p)) →
  Swap.swap_wf w → tlb_wf t → tlb_spinlock t = false → (∀ p lo, ¬ maps t p lo) →
  pt x = pagetable_empty →
  inv ∅ (Some a) (mkVm c 0 fr w {[a := x]} t).
Proof.
  intros Hb Ho Hfl Hfr Hw Ht Htl Hm Hx.
  assert (∀ p, owner_at c p = None) as Hown.
  { intros p. unfold owner_at. destruct (znth (entries c) p) as [e|] eqn:He; [|done].
    simpl. by rewrite (Ho p e He). }
  assert (∀ b v, is_page v → pte_at (mkVm c 0 fr w {[a := x]} t) b v = None) as Hpte.
  { intros b v [Hv _]. unfold pte_at. simpl. destruct (decide (b = a)) as [->|].
    - rewrite lookup_singleton_eq. simpl. rewrite Hx. by apply mapped_empty.
    - by rewrite lookup_singleton_ne. }
  constructor; try done.
  - exists ∅. split; [done|]. split; [|done]. intros st n. rewrite Hown, lookup_empty. split; [done|].
    intros [?|[_ []]]; done.
  - intros p e b He. by rewrite (Ho p e He).
  - intros p e [? ?]. done.
  - constructor.
    + intros p b v. simpl. by rewrite Hown.
    + intros b v e Hv. by rewrite Hpte.
    + intros b v e Hv. by rewrite Hpte.
    + intros b v e b' v' e' Hv Hv'. by rewrite Hpte.
  - intros b y. simpl. intros [<- <-]%lookup_singleton_Some. rewrite Hx. apply pt_wf_empty.
  - intros p lo Hp. by destruct (Hm p lo).
Qed.

Lemma as_activate_done t :
  Z.of_nat (length (slots t)) = NUM_TLB → 0 ≤ tlb_next_victim t < NUM_TLB →
  tlb_spinlock t = false →
  ∃ t', as_activate t = Done (tt, t') ∧
    tlb_wf t' ∧ tlb_spinlock t' = false ∧ ∀ p lo, ¬ maps t' p lo.
Proof.
  intros H1 H2 H3. destruct (proj1 (wp_done _ _ _) (as_activate_correct t H1 H2 H3))
    as ([] & t' & ?). eauto.
Qed.

(** Booting gives a machine in which the coremap, the page tables, swap space
    and the TLB agree: [vm_bootstrap] on any memory with room for the coremap,
    [swap_bootstrap] on any disk of at least a page, and the TLB flush of
    [as_activate] for a new address space all succeed, the coremap's own pages
    are not handed out, and the invariant holds with no page mapped. *)
Theorem boot_establishes_invariant r st_size contents answers (fr : gmap Z page) t a x :
  ram_ok r → coremap_end r + PAGE_SIZE ≤ lastpaddr r →
  Swap.PAGE_SIZE ≤ st_size < (2 ^ 32 - 7) * Swap.PAGE_SIZE → Forall Swap.io_ok answers →
  (∀ p, 0 ≤ p < lastpaddr r / PAGE_SIZE → is_Some (fr !! p)) →
  Z.of_nat (length (slots t)) = NUM_TLB → 0 ≤ tlb_next_victim t < NUM_TLB →
  tlb_spinlock t = false → pt x = pagetable_empty →
  ∃ c w t', vm_bootstrap r = Done c ∧
    Swap.swap_bootstrap true (Ok tt) (Ok st_size) true true contents answers = Done (Ok w) ∧
    as_activate t = Done (tt, t') ∧
    coremap_end r ≤ PPAGE_TO_PADDR (first_page c) ∧
    inv ∅ (Some a) (mkVm c 0 fr w {[a := x]} t').
Proof.
  intros Hr Hend Hsz Hio Hfr Htl Htv Hlk Hx.
  destruct (vm_bootstrap_correct r Hr Hend) as (c & Hc & Hb & Hl & Hf & Ho).
  destruct (Swap.swap_bootstrap_correct st_size contents answers Hsz Hio) as (w & Hw & Hwf & _).
  destruct (as_activate_done t) as (t' & Ht' & Htwf & Htl' & Hnm); try done.
  exists c, w, t'. split_and!; try done. destruct Hr as (H1 & H2 & H3 & H4).
  pose proof (Z.div_lt_upper_bound (lastpaddr r) PAGE_SIZE (2 ^ 20) ltac:(done) ltac:(done)).
  assert (0 ≤ lastpaddr r / PAGE_SIZE) by (apply Z.div_pos; [lia|done]).
  unfold coremap_end, sizeof_coremap, sizeof_cm_entry, PPAGE_TO_PADDR, PAGE_SIZE in *.
  apply inv_booted; try done; rewrite ?Hl; [lia|]. intros p Hp. apply Hfr. lia.
Qed.

(** ** Paging is transparent *)


(** Eviction moves exactly one page out and changes nothing else that can be
    seen.  When no lock of a page's owner is held, [evict_one] returns; no page
    of any address space changes what it holds; on success a frame that held a
    page of an address space is free; it fails only if no frame holds such a
    page, swap space is full, or the device fails, and then coremap, address
    spaces and TLB are as they were. *)
Theorem evict_one_transparent K cur s :
  inv K cur s → no_locked_owner s →
  wp evict_one (λ r s', inv K cur s' ∧
    (∀ a v, is_page v → content s' a v = content s a v) ∧
    match r with
    | Ok p => is_Some (owner_at (cm s) p) ∧ is_used (cm s') p = false ∧
              (∀ q, is_used (cm s) q = false → q ≠ p → owner_at (cm s') q = None)
    | Err e => evict_reason s ∧ cm s' = cm s ∧ ases s' = ases s ∧ mmu s' = mmu s
    end) s.
Proof.
  intros Hinv Hno. eapply wp_mono; [|by apply (evict_one_correct K cur)].
  intros [p|e] s' (Hinv' & Hpg & Hr); split_and!; try done; try apply Hpg; try apply Hr.
  intros q Hq Hne. destruct (owner_at (cm s') q) as [o|] eqn:Ho; [|done].
  apply (pg_owner _ _ Hpg) in Ho. pose proof (i_blocks _ _ _ Hinv) as (B & HB & HK).
  pose proof (owner_range _ _ _ _ _ Hinv Ho). destruct (owned_block _ _ _ _ _ HK Ho) as [HBq _].
  assert (is_used (cm s) q = true); [|congruence]. apply (b_used _ _ HB); [done|].
  exists q, 1. split; [done|lia].
Qed.

End theorems.

(** ** A small machine

    Sixteen pages of memory, of which the first three are taken at boot, a disk
    of 64 pages, and one address space in which everything below the top of the
    stack is valid.  A page holds a number. *)

Definition get_done {A} (d : A) (o : outcome A) : A := match o with Done a => a | Panic => d end.

Definition small_ram : ram := mkRam 8192 65536.
Definition small_cm : coremap := get_done (mkCoremap [] 0 0 0 false) (vm_bootstrap small_ram).
Definition small_swap : Swap.swapst Z :=
  match Swap.swap_bootstrap true (Ok tt) (Ok 262144) true true ∅ [] with
  | Done (Ok w) => w
  | _ => Swap.mkSwap (Bitmap.mkBitmap 0 []) 0 false ∅ []
  end.
Definition power_on_tlb : tlb := mkTlb (replicate 64 (0, 0)) 0 false.
Definition small_tlb : tlb := snd (get_done (tt, power_on_tlb) (as_activate power_on_tlb)).
Definition small_as : addrspace := mkAs (kva 2) pagetable_empty false [] 0 0 0.
Definition small_frames : gmap Z Z := list_to_map ((λ p, (p, 1000 + p)) <$> seqZ 0 16).
Definition small : vm Z := mkVm small_cm 0 small_frames small_swap {[1%positive := small_as]} small_tlb.

Lemma small_frames_all p : 0 ≤ p < 16 → is_Some (small_frames !! p).
Proof.
  intros Hp. apply elem_of_dom. unfold small_frames. rewrite dom_list_to_map_L.
  apply elem_of_list_to_set. rewrite <- list_fmap_compose. apply list_elem_of_fmap.
  exists p. split; [done|]. by apply elem_of_seqZ.
Qed.

Lemma small_ram_ok : ram_ok small_ram ∧ coremap_end small_ram + PAGE_SIZE ≤ lastpaddr small_ram.
Proof. split; [split_and!; simpl; first [lia|reflexivity]|vm_compute; discriminate]. Qed.

Lemma small_tlb_ok :
  tlb_wf small_tlb ∧ tlb_spinlock small_tlb = false ∧ ∀ p lo, ¬ maps small_tlb p lo.
Proof.
  destruct (as_activate_done power_on_tlb) as (t' & Ht & H); [done..|].
  unfold small_tlb. rewrite Ht. exact H.
Qed.

Lemma small_bounds : first_page small_cm = 3 ∧ last_page small_cm = 16.
Proof. vm_compute. split; reflexivity. Qed.

Lemma small_cm_ok :
  blocks small_cm ∅ ∧ ∀ p e, znth (entries small_cm) p = Some e → owner e = None.
Proof.
  destruct small_ram_ok as [Hr Hend].
  destruct (vm_bootstrap_correct small_ram Hr Hend) as (c & Hc & Hb & _ & _ & Ho).
  unfold small_cm. rewrite Hc. exact (conj Hb Ho).
Qed.

Lemma small_swap_ok : Swap.swap_wf small_swap.
Proof.
  destruct (Swap.swap_bootstrap_correct 262144 (∅ : gmap Z Z) []) as (w & Hw & Hwf & _);
    [done|by constructor|]. unfold small_swap. rewrite Hw. exact Hwf.
Qed.

Lemma small_inv : inv ∅ (Some 1%positive) small.
Proof.
  destruct small_cm_ok as [Hb Ho]. destruct small_tlb_ok as (Ht & Htl & Hnm).
  destruct small_bounds as [H1 H2]. unfold small.
  apply inv_booted; [exact Hb|exact Ho|rewrite H1, H2; lia| |exact small_swap_ok|exact Ht|exact Htl|exact Hnm|reflexivity].
  intros p. rewrite H1, H2. intros Hp. apply small_frames_all. lia.
Qed.


Lemma small_unlocked : all_unlocked small.
Proof. intros a x. simpl. by intros [<- <-]%lookup_singleton_Some. Qed.



Lemma evict_one_transparent_witness :
  wp evict_one (λ r s', inv ∅ (Some 1%positive) s' ∧
    (∀ a v, is_page v → content s' a v = content small a v) ∧
    match r with
    | Ok p => is_Some (owner_at (cm small) p) ∧ is_used (cm s') p = false ∧
              (∀ q, is_used (cm small) q = false → q ≠ p → owner_at (cm s') q = None)
    | Err e => evict_reason small ∧ cm s' = cm small ∧ ases s' = ases small ∧ mmu s' = mmu small
    end) small.
Proof.
  apply (evict_one_transparent ∅ (Some 1%positive) small).
  - exact small_inv.
  - intros p a v x _. apply small_unlocked.
Defined.


Lemma boot_establishes_invariant_witness :
  ∃ c w t', vm_bootstrap small_ram = Done c ∧
    Swap.swap_bootstrap true (Ok tt) (Ok 262144) true true (∅ : gmap Z Z) [] = Done (Ok w) ∧
    as_activate power_on_tlb = Done (tt, t') ∧
    coremap_end small_ram ≤ PPAGE_TO_PADDR (first_page c) ∧
    inv ∅ (Some 1%positive) (mkVm c 0 small_frames w {[1%positive := small_as]} t').
Proof.
  apply (boot_establishes_invariant small_ram 262144 ∅ [] small_frames power_on_tlb
    1%positive small_as).
  - apply small_ram_ok.
  - apply small_ram_ok.
  - unfold Swap.PAGE_SIZE. lia.
  - constructor.
  - intros p Hp. apply small_frames_all. vm_compute in Hp. done.
  - reflexivity.
  - unfold NUM_TLB. simpl. lia.
  - reflexivity.
  - reflexivity.
Defined.

(** ** Running out of memory *)

(** Writes of one process to the given addresses, each the first to its page. *)
Fixpoint touch (a : positive) (l : list Z) : M (vm Z) (list Z) :=
  match l with
  | [] => mret []
  | va :: l => r ← vm_fault 0 (Some a) VM_FAULT_WRITE va; rs ← touch a l; mret (r :: rs)
  end.

(** Addresses 4 MB apart, which share one second-level table. *)
Definition strided (n : nat) : list Z := (λ i, Z.of_nat i * 4194304) <$> seq 0 n.

(** The page fault handler cannot evict a page of the process that faults:
    when one process has filled memory, its next fault makes [evict_one] choose
    one of the process's own pages and acquire [as_lock], which the handler
    holds already, so the kernel panics although 64 pages of swap are free. *)
Theorem own_page_eviction_panics :
  match touch 1 (strided 7) small with
  | Done (rs, s) =>
      rs = replicate 7 0 ∧ forallb used (entries (cm s)) = true ∧
      Bitmap.v (Swap.swap_bitmap (sw s)) = replicate 8 0 ∧
      vm_fault 0 (Some 1%positive) VM_FAULT_WRITE (7 * 4194304) s = Panic
  | Panic => False
  end.
Proof. vm_compute. repeat split; reflexivity. Qed.

End VmTheorems.
