(* ===== verification/AddrSpace.v ===== *)
(** * Address spaces (kern/vm/addrspace.c, kern/vm/pagetable.c,
    kern/syscall/vm_syscalls.c)

    Creating, copying and destroying address spaces, their regions, and the
    [sbrk] system call.  Whether memory for the small structures is available is
    an argument; page tables are allocated with [alloc_kpages] as [kmalloc] does
    for their size. *)

From Stdlib Require Import ZArith Lia.
From stdpp Require Import base numbers list gmap.
From S2P Require Import Prelude Bitmap Coremap PageTable Swap Tlb Vm.

Module AddrSpace.
Import Coremap PageTable Tlb Vm.

Definition STACK_SIZE : Z := 4096.
Definition SIZEOF_PT : Z := 4096. (* 1024 pointers *)

(** Unsigned 32-bit [ROUNDUP(a, PAGE_SIZE)]. *)
Definition ROUNDUP (a : Z) : Z := u32 (u32 (a + PAGE_SIZE - 1) / PAGE_SIZE * PAGE_SIZE).

(** ** Regions *)

Definition set_write (r : region) (w : Z) : region :=
  mkRegion (as_vbase r) (as_npages r) (r_read r) w (r_exec r).

(** One answer of the allocator per region. *)
Fixpoint region_copy (oks : list bool) (src : list region) : result (list region) :=
  match src with
  | [] => Ok []
  | r :: src' =>
      if negb (hd true oks) then Err ENOMEM else
      match region_copy (tl oks) src' with
      | Ok l => Ok (mkRegion (as_vbase r) (as_npages r) (r_read r) (r_write r) (r_exec r) :: l)
      | Err e => Err e
      end
  end.

Definition with_regions (a : addrspace) (l : list region) : addrspace :=
  mkAs (pt_addr a) (pt a) (as_lock a) l (heap_start a) (heap_end a) (stack_base a).
Definition with_heap (a : addrspace) (start end_ : Z) : addrspace :=
  mkAs (pt_addr a) (pt a) (as_lock a) (region_list a) start end_ (stack_base a).

Definition as_define_region (ok : bool) (a : addrspace) (vaddr sz readable writeable executable : Z)
  : result addrspace :=
  let npages := u32 (sz + PAGE_SIZE - 1) / PAGE_SIZE in
  let vbase := Z.land vaddr PAGE_FRAME in
  if negb ok then Err ENOMEM else
  let a' := with_regions a (region_list a ++ [mkRegion vbase npages readable writeable executable]) in
  if u32 (vbase + npages * PAGE_SIZE) >? heap_start a then
    let new_heap_start := Z.land (u32 (vbase + npages * PAGE_SIZE + PAGE_SIZE - 1)) PAGE_FRAME in
    Ok (with_heap a' new_heap_start new_heap_start)
  else Ok a'.

Definition as_prepare_load (a : addrspace) : addrspace :=
  with_regions a ((λ r, set_write r 1) <$> region_list a).

Definition as_complete_load (a : addrspace) : addrspace :=
  with_regions a ((λ r, if negb (r_exec r =? 0) && negb (negb (r_write r =? 0))
                        then set_write r 0 else r) <$> region_list a).

(** The initial stack pointer. *)
Definition as_define_stack (a : addrspace) : Z := USERSTACK.

Section addrspace.
Context {page : Type}.
Abbreviation vm := (vm page).

(** [kfree] of a block of whole pages. *)
Definition kfree_pages (addr : Z) : M vm unit :=
  if addr =? 0 then mret tt else
  KASSERT (addr mod PAGE_SIZE =? 0) ;;
  in_cm (free_kpages addr).

(** ** Page tables *)

(** The address of a new empty first-level table, or 0. *)
Definition pagetable_create : M vm Z := kmalloc_pages SIZEOF_PT.

Definition l2_ptable_destroy (addr : Z) (l2 : list pte) : M vm unit :=
  for_loop (length l2) 0 (λ i,
    e ← deref (znth l2 i);
    if valid e && negb (in_mem e) && negb (swap_offset e =? SWAP_OFFSET_NONE)
    then in_sw (Swap.swap_free_slot (swap_offset e)) else mret tt) ;;
  kfree_pages addr.

Definition pagetable_destroy (addr : Z) (p : pagetable) : M vm unit :=
  for_loop (length p) 0 (λ i,
    o ← deref (znth p i);
    match o with
    | Some (l2_addr, l2) => l2_ptable_destroy l2_addr l2
    | None => mret tt
    end) ;;
  kfree_pages addr.

(** [*src], the entry [j] of table [i] of [old], read when it is used: the page
    may have been evicted in the meantime. *)
Definition src_pte (old : positive) (i j : Z) : M vm pte :=
  x ← as_get old;
  o ← deref (znth (pt x) i);
  t ← deref o;
  deref (znth (snd t) j).

Definition copy_entry (old : positive) (i j : Z) : M vm (result pte) :=
  src ← src_pte old i j;
  if negb (valid src) then mret (Ok src) else
  kvaddr ← alloc_kpages 1;
  if kvaddr =? 0 then mret (Err ENOMEM) else
  src ← src_pte old i j;
  contents ← frame_get (ppn src);
  let p := PADDR_TO_PPAGE (KVADDR_TO_PADDR kvaddr) in
  frame_set p contents ;;
  src ← src_pte old i j;
  mret (Ok (mkPte true true (readonly src) false (swap_offset src) p)).

(** The cleanup of [l2_ptable_copy], with the address it computes. *)
Definition copy_cleanup (done : list pte) : M vm unit :=
  for_loop (length done) 0 (λ j,
    e ← deref (znth done j);
    if valid e && in_mem e
    then in_cm (free_kpages (u32 (PPAGE_TO_PADDR (PADDR_TO_KVADDR (ppn e))))) else mret tt).

Fixpoint l2_copy_loop (n : nat) (old : positive) (i j : Z) (done : list pte) : M vm (result (list pte)) :=
  match n with
  | O => mret (Ok done)
  | S n' =>
      r ← copy_entry old i j;
      match r with
      | Err _ => copy_cleanup done ;; mret (Err ENOMEM)
      | Ok e => l2_copy_loop n' old i (j + 1) (done ++ [e])
      end
  end.

Definition l2_ptable_copy (old : positive) (i : Z) : M vm (result (Z * list pte)) :=
  newtable ← kmalloc_pages SIZEOF_L2;
  if newtable =? 0 then mret (Err ENOMEM) else
  r ← l2_copy_loop (Z.to_nat L2_SIZE) old i 0 [];
  match r with
  | Err e => kfree_pages newtable ;; mret (Err e)
  | Ok l2 => mret (Ok (newtable, l2))
  end.

Definition destroy_tables (done : pagetable) : M vm unit :=
  for_loop (length done) 0 (λ j,
    o ← deref (znth done j);
    match o with
    | Some (l2_addr, l2) => l2_ptable_destroy l2_addr l2
    | None => mret tt
    end).

Fixpoint pt_copy_loop (n : nat) (old : positive) (newpt i : Z) (done : pagetable)
  : M vm (result pagetable) :=
  match n with
  | O => mret (Ok done)
  | S n' =>
      x ← as_get old;
      o ← deref (znth (pt x) i);
      match o with
      | Some _ =>
          r ← l2_ptable_copy old i;
          match r with
          | Err e => destroy_tables done ;; kfree_pages newpt ;; mret (Err e)
          | Ok t => pt_copy_loop n' old newpt (i + 1) (done ++ [Some t])
          end
      | None => pt_copy_loop n' old newpt (i + 1) (done ++ [None])
      end
  end.

Definition pagetable_copy (old : positive) : M vm (result (Z * pagetable)) :=
  newpt ← kmalloc_pages SIZEOF_PT;
  if newpt =? 0 then mret (Err ENOMEM) else
  r ← pt_copy_loop (Z.to_nat L1_SIZE) old newpt 0 [];
  match r with
  | Err e => mret (Err e)
  | Ok p => mret (Ok (newpt, p))
  end.

(** ** Address spaces *)

Definition as_create (ok_as ok_lock : bool) : M vm (option positive) :=
  if negb ok_as then mret None else
  addr ← pagetable_create;
  if addr =? 0 then mret None else
  if negb ok_lock then pagetable_destroy addr pagetable_empty ;; mret None else
  a ← gets (λ s, fresh (dom (ases s)));
  modify (λ s, set_ases (<[a := mkAs addr pagetable_empty false [] 0 0 (USERSTACK - STACK_SIZE)]>
                           (ases s)) s) ;;
  mret (Some a).

(** The regions, the page table and the structure itself are freed. *)
Definition as_destroy (a : positive) : M vm unit :=
  x ← as_get a;
  pagetable_destroy (pt_addr x) (pt x) ;;
  modify (λ s, set_ases (delete a (ases s)) s).

Definition as_copy (ok_as ok_lock : bool) (oks : list bool) (old : positive)
  : M vm (result positive) :=
  o ← as_create ok_as ok_lock;
  match o with
  | None => mret (Err ENOMEM)
  | Some newas =>
      r ← pagetable_copy old;
      match r with
      | Err e => as_destroy newas ;; mret (Err e)
      | Ok (addr, p) =>
          n ← as_get newas;
          as_set newas (mkAs addr p (as_lock n) (region_list n) (heap_start n) (heap_end n)
                          (stack_base n)) ;;
          x ← as_get old;
          match region_copy oks (region_list x) with
          | Err e => as_destroy newas ;; mret (Err e)
          | Ok l =>
              n ← as_get newas;
              as_set newas (mkAs (pt_addr n) (pt n) (as_lock n) l (heap_start x) (heap_end x)
                              (stack_base x)) ;;
              mret (Ok newas)
          end
      end
  end.

(** ** [sbrk] *)

Definition free_heap_page (a : positive) (vaddr : Z) : M vm unit :=
  x ← as_get a;
  match pagetable_lookup (pt x) vaddr with
  | None => mret tt
  | Some e =>
      if negb (valid e) then mret tt else
      (if in_mem e then in_cm (free_kpages (PADDR_TO_KVADDR (PPAGE_TO_PADDR (ppn e)))) else mret tt) ;;
      (if negb (in_mem e) && negb (swap_offset e =? SWAP_OFFSET_NONE)
       then in_sw (Swap.swap_free_slot (swap_offset e)) else mret tt) ;;
      pte_set a vaddr (mkPte false false (readonly e) (pte_dirty e) SWAP_OFFSET_NONE (ppn e)) ;;
      in_tlb (vm_tlbshootdown vaddr)
  end.

Definition free_heap_pages (a : positive) (new_end old_end : Z) : M vm unit :=
  x ← as_get a;
  KASSERT (as_lock x) ;;
  KASSERT (new_end <? old_end) ;;
  let start_page := ROUNDUP new_end in
  let end_page := ROUNDUP old_end in
  for_loop (Z.to_nat ((end_page - start_page) / PAGE_SIZE)) 0
    (λ i, free_heap_page a (start_page + i * PAGE_SIZE)).

(** [amount] is a signed 32-bit number, addresses are unsigned. *)
Definition sys_sbrk (cur : option positive) (amount : Z) : M vm (result Z) :=
  match cur with
  | None => mret (Err EFAULT)
  | Some a =>
      as_acquire a ;;
      x ← as_get a;
      let old_heap_end := heap_end x in
      let new_heap_end := u32 (old_heap_end + amount) in
      if amount =? 0 then as_release a ;; mret (Ok old_heap_end) else
      if amount <? 0 then
        if new_heap_end <? heap_start x then as_release a ;; mret (Err EINVAL) else
        free_heap_pages a new_heap_end old_heap_end ;;
        x ← as_get a;
        as_set a (with_heap x (heap_start x) new_heap_end) ;;
        as_release a ;;
        mret (Ok old_heap_end)
      else
        let new_heap_top := ROUNDUP new_heap_end in
        if new_heap_top >=? stack_base x then as_release a ;; mret (Err ENOMEM) else
        as_set a (with_heap x (heap_start x) new_heap_end) ;;
        as_release a ;;
        mret (Ok old_heap_end)
  end.

End addrspace.

End AddrSpace.
