(* ===== verification/AddrSpaceTheorems.v ===== *)
(** * Theorems about address spaces

    [sbrk] against the memory it frees, the regions that the loader defines, and
    what happens to pages when address spaces are copied and destroyed. *)

From Stdlib Require Import ZArith Lia.
From stdpp Require Import base numbers list gmap.
From S2P Require Import Prelude Bitmap Coremap PageTable Swap Tlb Vm VmPages VmEvict VmFault VmTheorems AddrSpace.

Module AddrSpaceTheorems.
Import Coremap PageTable Tlb Vm VmPages VmEvict VmFault VmTheorems AddrSpace.

Section sbrk.
Context {page : Type}.
Implicit Types (s : vm page) (K : gmap Z Z).

(** ** Giving up one page *)

Section dropped.
Context (K : gmap Z Z) (cur : option positive) (s : vm page).
Context (a : positive) (v : Z) (x : addrspace) (e e' : pte).
Context (c' : coremap) (w' : Swap.swapst page) (m' : gmap positive addrspace) (t' : tlb).
Context (Hinv : inv K cur s) (Hv : is_page v) (Hx : ases s !! a = Some x)
  (He : pte_at s a v = Some e) (He' : valid e' = false).
Context (Hc1 : same_but_entries (cm s) c') (Hc2 : ∃ B, blocks c' B ∧ kernel_part c' K B).
Context (Hc3 : ∀ q, owner_at c' q =
  if decide (in_mem e = true ∧ q = ppn e) then None else owner_at (cm s) q).
Context (Hc4 : ∀ p ce b, znth (entries c') p = Some ce → owner ce = Some b → owned_entry p ce).
Context (Hc5 : ∀ p ce, is_Some (K !! p) → znth (entries c') p = Some ce →
  busy ce = false ∧ pp_num ce = p).
Context (Hw1 : Swap.swap_wf w') (Hw2 : Swap.disk w' = Swap.disk (sw s)).
Context (Hw3 : ∀ o, Swap.slot_used w' o ↔
  Swap.slot_used (sw s) o ∧ (in_mem e = false → o ≠ swap_offset e)).
Let s' := mkVm c' (cm_evict_index s) (frames s) w' m' t'.
Context (Hm' : as_upd s s' a (with_pt x (pt_store (pt x) v e'))).
Context (Ht' : shot_down (mmu s) v t').

Local Lemma dropped_pte : pte_drop (pte_at s) (pte_at s') a v.
Proof.
  pose proof He as Hmap. unfold pte_at in Hmap. rewrite Hx in Hmap. simpl in Hmap.
  destruct (mapped_lookup _ _ _ Hmap) as [Hlk _].
  intros a1 v1 [Hv1 Hm1]. unfold pte_at. rewrite Hm'. destruct (decide (a1 = a)) as [->|].
  - simpl. rewrite (mapped_store_invalid _ v v1 e' e), Hx by (apply Hv || done). simpl.
    destruct (decide (v / 4096 = v1 / 4096)) as [H1|H1].
    + rewrite decide_True; [done|]. split; [done|]. symmetry. by apply page_inj.
    + rewrite decide_False; [done|]. by intros [_ ->].
  - by rewrite decide_False by naive_solver.
Qed.

Lemma inv_dropped : inv K cur s' ∧ kept (only a v) s s' ∧ pte_at s' a v = None.
Proof.
  pose proof dropped_pte as HP. pose proof Hinv as [Hf HB Hoe Hke Hpg Hpt Hfr Hsw Ht Htl Hmaps].
  pose proof Hc1 as (E1 & E2 & _). destruct Ht' as (Ht1 & Ht2 & Ht3). split_and!.
  - constructor; simpl; rewrite ?E1, ?E2; try done.
    + rewrite Hw2. by eapply (pages_drop (owner_at (cm s)) (pte_at s)).
    + intros b y. rewrite Hm'. destruct (decide (b = a)); [|by apply Hpt]. intros [= <-]. simpl.
      by apply pt_wf_store, (Hpt a).
    + intros q lo [Hq Hne]%Ht3. destruct (maps_page _ _ _ Ht Hq) as [Hpq _].
      destruct (Hmaps q lo Hq) as (a1 & e1 & Hcur & He1 & Hin & Hlo). exists a1, e1.
      rewrite HP by done. rewrite decide_False by naive_solver. done.
  - constructor; try done.
    + intros b. rewrite Hm'. destruct (decide (b = a)) as [Hb|].
      * subst b. rewrite Hx. by do 2 constructor.
      * by destruct (ases s !! b); constructor.
    + intros b u Hu HX. rewrite HP by done. by rewrite decide_False.
    + intros b u Hu HX. unfold content, holds. simpl. rewrite HP, Hw2 by done.
      by rewrite decide_False.
    + intros q lo Hq. by apply Ht3.
  - rewrite HP by done. by rewrite decide_True.
Qed.
End dropped.

Lemma kept_impl (X X' : positive → Z → Prop) s s' :
  (∀ b u, X b u → X' b u) → kept X s s' → kept X' s s'.
Proof. intros HX [H1 H2 H3 H4]. constructor; auto. Qed.

Lemma pte_none s a x v :
  ases s !! a = Some x →
  match pagetable_lookup (pt x) v with Some e => valid e = false | None => True end →
  pte_at s a v = None.
Proof.
  intros Hx Hl. unfold pte_at, mapped. rewrite Hx. simpl.
  destruct (pagetable_lookup (pt x) v) as [e|]; [|done]. by rewrite Hl.
Qed.

(** The last steps of a round: the entry is cleared, the translation removed. *)
Definition clear_pte (e : pte) : pte :=
  mkPte false false (readonly e) (pte_dirty e) SWAP_OFFSET_NONE (ppn e).

Definition page_dropped K cur s (a : positive) (v : Z) (s' : vm page) : Prop :=
  inv K cur s' ∧ kept (only a v) s s' ∧ pte_at s' a v = None.

Lemma drop_finish K cur s a v x e c' w' :
  inv K cur s → is_page v → ases s !! a = Some x → pte_at s a v = Some e →
  same_but_entries (cm s) c' → (∃ B, blocks c' B ∧ kernel_part c' K B) →
  (∀ q, owner_at c' q =
     if decide (in_mem e = true ∧ q = ppn e) then None else owner_at (cm s) q) →
  (∀ p ce b, znth (entries c') p = Some ce → owner ce = Some b → owned_entry p ce) →
  (∀ p ce, is_Some (K !! p) → znth (entries c') p = Some ce → busy ce = false ∧ pp_num ce = p) →
  Swap.swap_wf w' → Swap.disk w' = Swap.disk (sw s) →
  (∀ o, Swap.slot_used w' o ↔
     Swap.slot_used (sw s) o ∧ (in_mem e = false → o ≠ swap_offset e)) →
  wp (pte_set a v (clear_pte e) ;; in_tlb (vm_tlbshootdown v))
    (λ _, page_dropped K cur s a v) (set_sw w' (set_cm c' s)).
Proof.
  intros Hinv Hv Hx He H1 H2 H3 H4 H5 H6 H7 H8.
  wp_go. eapply wp_pte_set; [done|]. apply wp_in_tlb.
  eapply wp_mono; [|apply vm_tlbshootdown_correct; apply Hinv].
  intros [] t' Ht'. change TLBHI_VPAGE with PAGE_FRAME in Ht'. rewrite page_mask in Ht' by done.
  apply (inv_dropped K cur s a v x e (clear_pte e) c' w'); try done.
  intros b. simpl. destruct (decide (b = a)) as [->|]; [apply lookup_insert_eq|].
  by apply lookup_insert_ne.
Qed.

Lemma free_heap_page_correct K cur s a x v :
  inv K cur s → ases s !! a = Some x → is_page v →
  wp (free_heap_page a v) (λ _, page_dropped K cur s a v) s.
Proof.
  intros Hinv Hx Hv. unfold free_heap_page. wp_go. eapply wp_as_get; [done|].
  pose proof (pte_none s a x v Hx) as Hnone.
  assert (kept (only a v) s s) as Hk0 by (by apply kept_weaken, paged_kept).
  destruct (pagetable_lookup (pt x) v) as [e|] eqn:Hlk; [|by wp_go; split_and!; [..|apply Hnone]].
  destruct (valid e) eqn:Hval; cbn [negb]; [|by wp_go; split_and!; [..|apply Hnone]].
  assert (pte_at s a v = Some e) as He.
  { unfold pte_at, mapped. rewrite Hx. simpl. by rewrite Hlk, Hval. }
  pose proof (i_blocks _ _ _ Hinv) as (B & HB & HK). pose proof (i_pages _ _ _ Hinv) as Hpg.
  destruct (in_mem e) eqn:Hin; cbn [negb andb].
  - pose proof (p_mem _ _ _ _ Hpg a v e Hv He Hin) as Ho.
    destruct (owned_block _ _ _ _ _ HK Ho) as [HBp HKp].
    apply wp_bind, wp_in_cm. eapply wp_mono; [|by apply (free_kpages_correct (cm s) B _ 1)].
    intros [] c' (HB' & Hsame & Hf). apply wp_bind, wp_ret.
    eapply (drop_finish K cur s a v x e c' (sw s)); try done; try apply Hinv.
    + exists (delete (ppn e) B). split; [done|]. by eapply kernel_part_freed.
    + intros q. rewrite (owner_freed _ _ _ _ Hf). rewrite Hin.
      destruct (decide (q = ppn e)) as [Hq|Hq].
      * by rewrite decide_True.
      * rewrite decide_False; [done|]. by intros [_ ?].
    + intros p ce b. rewrite Hf. case_decide; [|by apply Hinv].
      destruct (znth (entries (cm s)) p); [|done]. by intros [= <-].
    + intros p ce Hp. rewrite Hf, decide_False; [by apply Hinv|]. intros Hpe.
      replace p with (ppn e) in Hp by lia. rewrite HKp in Hp. by destruct Hp.
    + intros o. rewrite Hin. naive_solver.
  - destruct (p_swap _ _ _ _ Hpg a v e Hv He Hin) as [HU _].
    pose proof (i_sw _ _ _ Hinv) as Hsw. apply wp_bind, wp_ret.
    rewrite (proj2 (Z.eqb_neq _ _)) by (by eapply slot_not_none). cbn [negb].
    apply wp_bind, wp_in_sw. eapply wp_mono; [|by apply Swap.swap_free_correct].
    intros [] w' (Hw & Hd & _ & HU').
    eapply (drop_finish K cur s a v x e (cm s) w'); try done; try apply Hinv.
    + intros q. rewrite Hin. by rewrite decide_False by naive_solver.
    + intros o. rewrite HU', Hin. naive_solver.
Qed.

(** ** [free_heap_pages] *)

Definition roundup (z : Z) : Z := (z + 4095) / 4096 * 4096.

Lemma roundup_page z : 0 ≤ z ≤ 2 ^ 31 → is_page (roundup z) ∧ roundup z ≤ 2 ^ 31 ∧ z ≤ roundup z.
Proof.
  intros Hz. unfold roundup, is_page, is_vaddr.
  pose proof (Z.div_mod (z + 4095) 4096 ltac:(done)).
  pose proof (Z.mod_pos_bound (z + 4095) 4096 ltac:(done)).
  rewrite Z.mod_mul by done. change (2 ^ 31) with 2147483648 in *. lia.
Qed.

Lemma ROUNDUP_eq z : 0 ≤ z ≤ 2 ^ 32 - 4096 → ROUNDUP z = roundup z.
Proof.
  intros Hz. unfold ROUNDUP, roundup, u32, PAGE_SIZE. replace (z + 4096 - 1) with (z + 4095) by lia.
  rewrite (Z.mod_small (z + 4095)) by lia. apply Z.mod_small.
  pose proof (Z.div_mod (z + 4095) 4096 ltac:(done)).
  pose proof (Z.mod_pos_bound (z + 4095) 4096 ltac:(done)). lia.
Qed.

Lemma roundup_mono z z' : z ≤ z' → roundup z ≤ roundup z'.
Proof. intros. unfold roundup. apply Z.mul_le_mono_nonneg_r; [lia|]. apply Z.div_le_mono; lia. Qed.

(** The pages of [a] from [lo] up to [hi]. *)
Definition range_of (a : positive) (lo hi : Z) : positive → Z → Prop :=
  λ b u, b = a ∧ lo ≤ u < hi.

Lemma page_step lo i u :
  is_page lo → is_page u → lo ≤ u < lo + (i + 1) * 4096 → u < lo + i * 4096 ∨ u = lo + i * 4096.
Proof.
  intros Hlo Hu Hr. destruct Hlo as [_ Hlo], Hu as [_ Hu].
  pose proof (Z.div_mod lo 4096 ltac:(done)). pose proof (Z.div_mod u 4096 ltac:(done)). lia.
Qed.

Lemma free_heap_pages_correct K cur s a x lo hi :
  inv K cur s → ases s !! a = Some x → as_lock x = true → 0 ≤ lo < hi → hi ≤ 2 ^ 31 →
  wp (free_heap_pages a lo hi) (λ _ s', inv K cur s' ∧
    kept (range_of a (roundup lo) (roundup hi)) s s' ∧
    (∀ u, is_page u → roundup lo ≤ u < roundup hi → pte_at s' a u = None)) s.
Proof.
  intros Hinv Hx Hl Hlo Hhi. unfold free_heap_pages. wp_go. eapply wp_as_get; [done|].
  rewrite Hl. wp_check. apply wp_KASSERT; [lia|]. rewrite !ROUNDUP_eq by lia.
  destruct (roundup_page lo) as (Hp1 & Hp2 & Hp3); [lia|].
  destruct (roundup_page hi) as (Hq1 & Hq2 & Hq3); [lia|].
  pose proof (roundup_mono lo hi). set (st := roundup lo) in *. set (en := roundup hi) in *.
  unfold PAGE_SIZE. assert ((en - st) / 4096 * 4096 = en - st) as Hn.
  { destruct Hp1 as [_ Hp1], Hq1 as [_ Hq1].
    pose proof (Z.div_mod en 4096 ltac:(done)). pose proof (Z.div_mod st 4096 ltac:(done)).
    replace (en - st) with ((en / 4096 - st / 4096) * 4096) by lia. by rewrite Z.div_mul. }
  assert (0 ≤ (en - st) / 4096) by (apply Z.div_pos; lia).
  apply (wp_for_loop (λ i s', inv K cur s' ∧ kept (range_of a st (st + i * 4096)) s s' ∧
    ∀ u, is_page u → st ≤ u < st + i * 4096 → pte_at s' a u = None)).
  - split_and!; [done| |intros; lia]. apply kept_weaken. by apply paged_kept.
  - intros i s' Hi (Hinv' & Hk & Hnone). rewrite Z.add_0_l, Z2Nat.id in Hi by lia.
    destruct (kept_as _ _ _ _ _ Hk Hx) as (x' & Hx' & _).
    assert (is_page (st + i * 4096)) as Hpg.
    { split; [unfold is_vaddr; destruct Hp1 as [Hp1 _]; unfold is_vaddr in Hp1; nia|].
      rewrite Z.mod_add by done. apply Hp1. }
    eapply wp_mono; [|by eapply free_heap_page_correct].
    intros [] s2 (Hinv2 & Hk2 & Hn2). split_and!; [done| |].
    + eapply kept_trans; eapply kept_impl; [|exact Hk| |exact Hk2]; intros b u;
        unfold range_of, only; intros [-> Hu]; (split; [done|lia]).
    + intros u Hu Hr. destruct (page_step st i u) as [Hlt| ->]; try done.
      eapply (kept_none (only a (st + i * 4096))); try done; [|apply Hnone; [done|lia]].
      unfold only. intros [_ ->]. lia.
  - rewrite Z.add_0_l, Z2Nat.id, Hn by lia. replace (st + (en - st)) with en by lia. done.
Qed.

(** ** [sys_sbrk] *)

(** What [sbrk] answers, without wrap-around. *)
Definition sbrk_result (x : addrspace) (amount : Z) : result Z :=
  let new := heap_end x + amount in
  if amount =? 0 then Ok (heap_end x)
  else if amount <? 0 then if new <? heap_start x then Err EINVAL else Ok (heap_end x)
  else if roundup new >=? stack_base x then Err ENOMEM else Ok (heap_end x).

(** The heap lies below the stack, in the user's half of the address space. *)
Definition heap_ok (x : addrspace) : Prop :=
  0 ≤ heap_start x ≤ heap_end x ∧ heap_end x ≤ stack_base x ≤ USERSTACK - STACK_SIZE.

Definition int32 (n : Z) : Prop := - 2 ^ 31 ≤ n < 2 ^ 31.

(** The pages that a successful [sbrk] gives up. *)
Definition sbrk_frees (a : positive) (x : addrspace) (amount : Z) : positive → Z → Prop :=
  range_of a (roundup (heap_end x + amount)) (roundup (heap_end x)).

Record sbrk_post K cur s (a : positive) (x : addrspace) (amount : Z) (r : result Z) (s' : vm page)
  : Prop := {
  sb_result : r = sbrk_result x amount;
  sb_inv : inv K cur s';
  sb_as : ∃ x', ases s' !! a = Some x' ∧
    as_same (if r is Ok _ then with_heap x (heap_start x) (heap_end x + amount) else x) x';
  sb_others : ∀ b, b ≠ a → option_Forall2 as_same (ases s !! b) (ases s' !! b);
  sb_kept : ∀ b u, is_page u → ¬ (is_Ok r ∧ sbrk_frees a x amount b u) →
    content s' b u = content s b u ∧ readonly <$> pte_at s' b u = readonly <$> pte_at s b u;
  sb_freed : ∀ u, is_page u → is_Ok r → sbrk_frees a x amount a u → pte_at s' a u = None;
  sb_maps : ∀ q lo, maps (mmu s') q lo → maps (mmu s) q lo;
}.

Section sbrk_cases.
Context (K : gmap Z Z) (cur : option positive) (s : vm page) (a : positive) (x : addrspace).
Context (amount : Z) (r : result Z).
Context (Hinv : inv K cur s) (Hx : ases s !! a = Some x) (Hl : as_lock x = false).
Context (Hr : r = sbrk_result x amount).
Let s0 := lockas s a x true.
Let x0 := with_as_lock x true.

(** Nothing is changed: an error, or an amount of 0. *)
Lemma sbrk_unchanged :
  (is_Ok r → amount = 0) →
  wp (as_release a ;; mret r) (sbrk_post K cur s a x amount) s0.
Proof.
  intros H0. wp_go. eapply wp_as_release; [apply lookup_insert_eq|done|]. wp_go.
  replace (set_ases _ s0) with s.
  2: { unfold s0, lockas, put_as, set_ases. simpl. rewrite insert_insert_eq, insert_id.
       - by destruct s.
       - rewrite Hx. f_equal. by destruct x; simpl in *; subst. }
  constructor; try done.
  - exists x. split; [done|]. destruct r; [|by constructor].
    rewrite H0 by done. constructor; try done. simpl. lia.
  - intros b _. by destruct (ases s !! b); constructor.
  - intros u _ Hok. unfold sbrk_frees, range_of. rewrite (H0 Hok), Z.add_0_r. lia.
Qed.

(** The break is moved in a state [s1] in which the pages have been given up. *)
Lemma sbrk_moved s1 x1 new :
  is_Ok r → new = heap_end x + amount → inv K cur s1 → ases s1 !! a = Some x1 →
  kept (sbrk_frees a x amount) s0 s1 →
  (∀ u, is_page u → sbrk_frees a x amount a u → pte_at s1 a u = None) →
  wp (as_set a (with_heap x1 (heap_start x1) new) ;; as_release a ;; mret r)
    (sbrk_post K cur s a x amount) s1.
Proof.
  intros Hok -> Hinv1 Hx1 Hk Hfreed.
  destruct (kept_as _ _ _ a x0 Hk) as (x1' & Hx1' & [E1 E2 E3 E4 E5]); [apply lookup_insert_eq|].
  rewrite Hx1 in Hx1'. injection Hx1' as <-.
  wp_go. eapply wp_as_set; [done|]. wp_go.
  eapply wp_as_release; [apply lookup_insert_eq|done|]. wp_go.
  set (y := with_as_lock _ false).
  replace (set_ases _ _) with (put_as s1 a y).
  2: { unfold put_as, set_ases. simpl. by rewrite insert_insert_eq. }
  assert (pt y = pt x1) as Hy by done. constructor; try done.
  - by apply (inv_put s1 a x1).
  - exists y. split; [apply lookup_insert_eq|]. destruct r; [|done].
    unfold x0 in *. simpl in *. constructor; simpl; congruence.
  - intros b Hb. pose proof (kp_as _ _ _ Hk b) as Hs. simpl in *.
    rewrite lookup_insert_ne in Hs by done. by rewrite lookup_insert_ne.
  - intros b u Hu HX. rewrite (put_content s1 a x1), (put_pte s1 a x1) by done.
    rewrite (kp_content _ _ _ Hk), (kp_ro _ _ _ Hk) by naive_solver.
    unfold s0. by rewrite lockas_content, lockas_pte.
  - intros u Hu _ Hfr. rewrite (put_pte s1 a x1) by done. by apply Hfreed.
  - intros q lo Hq. by apply (kp_maps _ _ _ Hk).
Qed.
End sbrk_cases.

Lemma sys_sbrk_correct K cur s a x amount :
  inv K cur s → ases s !! a = Some x → as_lock x = false → heap_ok x → int32 amount →
  0 ≤ heap_end x + amount →
  wp (sys_sbrk (Some a) amount) (sbrk_post K cur s a x amount) s.
Proof.
  intros Hinv Hx Hl (Hh1 & Hh2 & Hh3) Hint Hpos. unfold sys_sbrk. wp_go.
  eapply wp_as_acquire; [done..|]. wp_go. change (set_ases _ s) with (lockas s a x true).
  eapply wp_as_get; [apply lookup_insert_eq|].
  change (heap_end (with_as_lock x true)) with (heap_end x).
  change (heap_start (with_as_lock x true)) with (heap_start x).
  change (stack_base (with_as_lock x true)) with (stack_base x).
  unfold int32, USERSTACK, STACK_SIZE in *.
  change (2 ^ 31) with 2147483648 in *.
  replace (u32 (heap_end x + amount)) with (heap_end x + amount)
    by (symmetry; apply Z.mod_small; change (2 ^ 32) with 4294967296; lia).
  pose proof (eq_refl (sbrk_result x amount)) as Hres. unfold sbrk_result in Hres at 2.
  destruct (amount =? 0) eqn:Hz.
  { apply Z.eqb_eq in Hz. by apply sbrk_unchanged. }
  apply Z.eqb_neq in Hz.
  assert (inv K cur (lockas s a x true)) as Hinv0 by (by apply inv_lockas).
  destruct (amount <? 0) eqn:Hneg.
  - apply Z.ltb_lt in Hneg. destruct (heap_end x + amount <? heap_start x) eqn:Hlow.
    { by apply sbrk_unchanged. }
    apply wp_bind.
    eapply wp_mono; [|eapply (free_heap_pages_correct K cur); [done|apply lookup_insert_eq|done| |]].
    + intros [] s1 (Hinv1 & Hk & Hn). wp_go.
      destruct (kept_as _ _ _ a _ Hk (lookup_insert_eq _ _ _)) as (x1 & Hx1 & _).
      eapply wp_as_get; [done|]. apply (sbrk_moved K cur s a x amount); try done.
      intros u Hu [_ Hr]. by apply Hn.
    + lia.
    + change (2 ^ 31) with 2147483648. lia.
  - apply Z.ltb_ge in Hneg.
    rewrite ROUNDUP_eq by (change (2 ^ 32) with 4294967296; lia).
    destruct (roundup (heap_end x + amount) >=? stack_base x) eqn:Hcol.
    { by apply sbrk_unchanged. }
    pose proof (roundup_mono (heap_end x) (heap_end x + amount)).
    apply (sbrk_moved K cur s a x amount) with (x1 := with_as_lock x true); try done;
      [apply lookup_insert_eq| |].
    + by apply kept_weaken, paged_kept.
    + intros u _ [_ Hu]. lia.
Qed.
End sbrk.

(** C32: [sbrk] does what it should for every amount that does not take the break
    below address 0: it returns the old break and moves it, or refuses with
    EINVAL below the start of the heap and ENOMEM at the stack; shrinking unmaps
    exactly the pages above the new break, with their frames or swap slots and
    translations, and nothing else changes. *)
Theorem sbrk_spec {page : Type} K cur (s : vm page) a x amount :
  inv K cur s → ases s !! a = Some x → as_lock x = false → heap_ok x → int32 amount →
  0 ≤ heap_end x + amount →
  wp (sys_sbrk (Some a) amount) (sbrk_post K cur s a x amount) s.
Proof. apply sys_sbrk_correct. Qed.

(** A process can panic the kernel with [sbrk]: when the break would go below
    address 0, the new break wraps around to a large address, passes the check
    against the start of the heap, and fails the assertion of
    [free_heap_pages]. *)
Theorem sbrk_below_zero_panics {page : Type} (s : vm page) a x amount :
  ases s !! a = Some x → as_lock x = false → 0 ≤ heap_end x < 2 ^ 31 → heap_start x ≤ 2 ^ 31 →
  - 2 ^ 31 ≤ amount → heap_end x + amount < 0 →
  sys_sbrk (Some a) amount s = Panic.
Proof.
  intros Hx Hl Hh Hs Ha Hneg.
  assert (u32 (heap_end x + amount) = heap_end x + amount + 2 ^ 32) as Hw.
  { unfold u32. symmetry. apply (Z.mod_unique _ _ (-1)); lia. }
  set (s0 := lockas s a x true).
  assert (ases s0 !! a = Some (with_as_lock x true)) as Hx0 by apply lookup_insert_eq.
  unfold sys_sbrk. rewrite (bind_run _ _ tt s0) by (by eapply wp_as_acquire).
  rewrite (bind_run _ _ (with_as_lock x true) s0) by (by eapply wp_as_get).
  cbn [heap_end heap_start with_as_lock]. rewrite Hw.
  rewrite (proj2 (Z.eqb_neq _ _)), (proj2 (Z.ltb_lt amount 0)) by lia.
  rewrite (proj2 (Z.ltb_ge _ (heap_start x))) by lia. unfold mbind at 1, M_bind at 1.
  unfold free_heap_pages. rewrite (bind_run _ _ (with_as_lock x true) s0) by (by eapply wp_as_get).
  cbn [as_lock with_as_lock]. by rewrite (proj2 (Z.ltb_ge _ (heap_end x))) by lia.
Qed.

(** ** Loading a program *)

(** After [as_prepare_load] and [as_complete_load] every region is writeable,
    whatever it was defined as: the second function tests the flag that the
    first has set.  So the text of a program is mapped writeable. *)
Theorem loaded_regions_writeable a vaddr rd wr ex :
  get_region_permissions (as_complete_load (as_prepare_load a)) vaddr = Ok (rd, wr, ex) →
  wr = true.
Proof.
  unfold get_region_permissions.
  destruct (list_find _ _) as [[i r]|] eqn:Hf.
  - intros [= <- <- <-]. apply list_find_Some in Hf as (Hi & _). simpl in Hi.
    rewrite !list_lookup_fmap in Hi. destruct (region_list a !! i) as [r0|]; [|done].
    simpl in Hi. injection Hi as <-. by destruct (r_exec r0 =? 0).
  - destruct (in_heap _ _); [by intros [= <- <- <-]|].
    destruct (in_stack _ _); by intros [= <- <- <-].
Qed.

(** C33: A region defined with [as_define_region] covers the segment from [vaddr]
    to [vaddr + sz] exactly when the part of the first page before the segment
    fits in the rounding of the size: in particular when the segment starts on a
    page boundary, but a segment that starts in the middle of a page and ends in
    the next loses its end, since the number of pages is computed from the size
    alone. *)
Theorem define_region_covers a a' vaddr sz rd wr ex :
  is_vaddr vaddr → 0 < sz → vaddr + sz + PAGE_SIZE < 2 ^ 32 → region_list a = [] →
  as_define_region true a vaddr sz rd wr ex = Ok a' →
  (∀ v, vaddr ≤ v < vaddr + sz → existsb (λ r, in_region r v) (region_list a') = true) ↔
  vaddr mod PAGE_SIZE + sz ≤ roundup sz.
Proof.
  intros Hv Hsz Hmax Hnil Hdef. unfold is_vaddr, PAGE_SIZE in *.
  assert (∃ r, region_list a' = [r] ∧ as_vbase r = vaddr / 4096 * 4096 ∧
    as_npages r = (sz + 4095) / 4096) as (r & Hl & Hb & Hn).
  { unfold as_define_region in Hdef. cbn [negb] in Hdef. rewrite Hnil in Hdef.
    rewrite page_frame_eq in Hdef by done.
    assert (u32 (sz + PAGE_SIZE - 1) / PAGE_SIZE = (sz + 4095) / 4096) as Hnp.
    { unfold u32, PAGE_SIZE. rewrite Z.mod_small by lia. f_equal. lia. }
    rewrite Hnp in Hdef. destruct (_ >? _) in Hdef; injection Hdef as <-; by eexists. }
  rewrite Hl. cbn [existsb]. unfold in_region. rewrite Hb, Hn.
  pose proof (Z.div_mod vaddr 4096 ltac:(done)). pose proof (Z.mod_pos_bound vaddr 4096 ltac:(done)).
  pose proof (Z.div_mod (sz + 4095) 4096 ltac:(done)).
  pose proof (Z.mod_pos_bound (sz + 4095) 4096 ltac:(done)).
  unfold roundup, u32, PAGE_SIZE. rewrite Z.mod_small by lia. split.
  - intros Hall. specialize (Hall (vaddr + sz - 1) ltac:(lia)). lia.
  - intros Hle v Hr. lia.
Qed.

(** ** Witnesses *)

(** A heap of two pages. *)
Definition heap_as : addrspace := mkAs (kva 2) pagetable_empty false [] 4096 12288 (USERSTACK - STACK_SIZE).
Definition heap_vm : vm Z := put_as small 1%positive heap_as.

Lemma sbrk_spec_witness :
  wp (sys_sbrk (Some 1%positive) (-5000))
    (sbrk_post ∅ (Some 1%positive) heap_vm 1%positive heap_as (-5000)) heap_vm.
Proof.
  apply (sbrk_spec ∅ (Some 1%positive) heap_vm 1%positive heap_as (-5000)).
  - apply (inv_put small 1%positive small_as); [reflexivity|reflexivity|exact small_inv].
  - reflexivity.
  - reflexivity.
  - unfold heap_ok, heap_as, USERSTACK, STACK_SIZE. simpl. lia.
  - unfold int32. lia.
  - simpl. lia.
Defined.

Lemma sbrk_below_zero_panics_witness :
  sys_sbrk (Some 1%positive) (-12289) heap_vm = Panic.
Proof.
  apply (sbrk_below_zero_panics heap_vm 1%positive heap_as (-12289)).
  - reflexivity.
  - reflexivity.
  - simpl. lia.
  - simpl. lia.
  - lia.
  - simpl. lia.
Defined.

(** A text segment of two pages, read and execute only. *)
Definition text_as : addrspace :=
  mkAs (kva 2) pagetable_empty false [mkRegion 4194304 2 1 0 1] 4202496 4202496 (USERSTACK - STACK_SIZE).

Lemma loaded_regions_writeable_witness :
  get_region_permissions text_as 4194304 = Ok (true, false, true) ∧
  get_region_permissions (as_complete_load (as_prepare_load text_as)) 4194304 = Ok (true, true, true) ∧
  true = true.
Proof.
  split; [reflexivity|]. split; [reflexivity|].
  apply (loaded_regions_writeable text_as 4194304 true true true). reflexivity.
Defined.

(** Two bytes, the last of one page and the first of the next. *)
Lemma define_region_covers_witness :
  ∃ a', as_define_region true small_as 8191 2 1 1 0 = Ok a' ∧
  ((∀ v, 8191 ≤ v < 8191 + 2 → existsb (λ r, in_region r v) (region_list a') = true) ↔
   8191 mod PAGE_SIZE + 2 ≤ roundup 2).
Proof.
  eexists. split; [reflexivity|].
  apply (define_region_covers small_as _ 8191 2 1 1 0).
  - unfold is_vaddr. lia.
  - lia.
  - reflexivity.
  - reflexivity.
  - reflexivity.
Defined.

(** ** Copying and destroying *)

(** A machine with [n] pages of memory and [d] pages of swap space, and no
    address space yet. *)
Definition machine (n d : Z) : vm Z :=
  mkVm (get_done (mkCoremap [] 0 0 0 false) (vm_bootstrap (mkRam 8192 (n * PAGE_SIZE)))) 0
    (list_to_map ((λ p, (p, 1000 + p)) <$> seqZ 0 n))
    (match Swap.swap_bootstrap true (Ok tt) (Ok (d * PAGE_SIZE)) true true ∅ [] with
     | Done (Ok w) => w
     | _ => Swap.mkSwap (Bitmap.mkBitmap 0 []) 0 false ∅ []
     end) ∅ small_tlb.

(** A new process, with everything below the stack as its heap, touches [n]
    pages; [None] if it could not be made. *)
Definition process (n : nat) : M (vm Z) (option positive) :=
  o ← as_create true true;
  match o with
  | None => mret None
  | Some a =>
      x ← as_get a;
      as_set a (with_heap x 0 (USERSTACK - STACK_SIZE)) ;;
      touch a (strided n) ;;
      mret (Some a)
  end.

(** [as_copy] copies the wrong page when a page of the parent is on disk: the
    process has written 42 to its page, the page is evicted, and after the copy
    the parent's page holds 42 but the child's holds what physical page 0 (the
    exception handlers) holds. *)
Theorem fork_of_swapped_page :
  match (o ← process 1;
         a ← deref o;
         x ← as_get a;
         e ← deref (mapped (pt x) 0);
         frame_set (ppn e) 42 ;;
         evict_one ;;
         r ← as_copy true true [] a;
         mret (a, r)) (machine 64 64) with
  | Done ((a, Ok child), s) =>
      content s a 0 = Some 42 ∧ content s child 0 = frames s !! 0 ∧ frames s !! 0 = Some 1000
  | _ => False
  end.
Proof. vm_compute. repeat split; reflexivity. Qed.

(** [as_destroy] gives back neither the frames of the address space nor the
    coremap's references to it: after a process with one page in memory is
    destroyed, its frame is still in use with the destroyed address space as
    owner, and the next eviction follows the stale pointer. *)
Theorem destroyed_owner_stays :
  match (o ← process 1; a ← deref o; as_destroy a ;; mret a) (machine 64 64) with
  | Done (a, s) =>
      ases s !! a = None ∧
      existsb (λ e, used e && bool_decide (owner e = Some a)) (entries (cm s)) = true ∧
      evict_one s = Panic
  | Panic => False
  end.
Proof. vm_compute. repeat split; reflexivity. Qed.

(** [as_copy] panics when memory runs out while pages are being copied: the
    clean-up passes [free_kpages] an address computed in the wrong order
    (PPAGE_TO_PADDR of PADDR_TO_KVADDR), which is not a page of the coremap. *)
Theorem fork_cleanup_panics :
  match process 3 (machine 21 1) with
  | Done (Some a, s) => as_copy true true [] a s = Panic
  | _ => False
  end.
Proof. vm_compute. reflexivity. Qed.

End AddrSpaceTheorems.
