(* ===== verification/Exec.v ===== *)
(** * Running programs (kern/syscall/runprogram.c, kern/syscall/loadelf.c)

    [sys_execv] and [runprogram]: the argument buffer, the ELF loader, and the
    exchange of address spaces.  They work on the user memory of CopyInOut.v,
    on the regions of AddrSpace.v and on the open files of Files.v, over the
    VFS interface.  Kernel blocks are a store of byte arrays: using a block that
    is not there, or a place outside it, stops the kernel, so that a proof that
    a call returns also excludes overruns, double frees and dangling pointers. *)

From Stdlib Require Import ZArith Lia.
From stdpp Require Import base numbers list gmap.
From S2P Require Import Prelude CopyInOut Uio SfsLayout Files Coremap PageTable Vm AddrSpace.

Module Exec.
Import CopyInOut Uio SfsLayout Files Coremap PageTable Vm AddrSpace.

Definition ARG_MAX : Z := 65536.
Definition PID_MIN : Z := 2.
Definition PID_MAX : Z := 32767.
Definition SIZEOF_PTR : Z := 4.

(** ** ELF headers (kern/include/elf.h), in the big-endian order of the machine *)

Definition be16 (bs : list Z) (i : Z) : Z :=
  default 0 (znth bs i) * 256 + default 0 (znth bs (i + 1)).
Definition be32 (bs : list Z) (i : Z) : Z := be16 bs i * 65536 + be16 bs (i + 2).

Record Elf_Ehdr := mkEhdr {
  e_ident : list Z;
  e_type : Z;
  e_machine : Z;
  e_version : Z;
  e_entry : Z;
  e_phoff : Z;
  e_phentsize : Z;
  e_phnum : Z;
}.

Record Elf_Phdr := mkPhdr {
  p_type : Z;
  p_offset : Z;
  p_vaddr : Z;
  p_filesz : Z;
  p_memsz : Z;
  p_flags : Z;
}.

Definition SIZEOF_EHDR : Z := 52.
Definition SIZEOF_PHDR : Z := 32.

Definition ehdr_of (bs : list Z) : Elf_Ehdr :=
  mkEhdr (take 16 bs) (be16 bs 16) (be16 bs 18) (be32 bs 20) (be32 bs 24) (be32 bs 28)
    (be16 bs 42) (be16 bs 44).

Definition phdr_of (bs : list Z) : Elf_Phdr :=
  mkPhdr (be32 bs 0) (be32 bs 4) (be32 bs 8) (be32 bs 16) (be32 bs 20) (be32 bs 24).

(** The magic number, a 32-bit big-endian executable of the current version,
    for MIPS. *)
Definition ehdr_accepted (eh : Elf_Ehdr) : bool :=
  bool_decide (take 7 (e_ident eh) = [127; 69; 76; 70; 1; 2; 1]) &&
  (e_version eh =? 1) && (e_type eh =? 2) && (e_machine eh =? 8).

Definition PT_NULL : Z := 0.
Definition PT_LOAD : Z := 1.
Definition PT_PHDR : Z := 6.
Definition PT_MIPS_REGINFO : Z := 1879048192.

Definition PF_X : Z := 1.
Definition PF_W : Z := 2.
Definition PF_R : Z := 4.

(** ** State *)

(** An address space, and the user memory it shows. *)
Record space := mkSpace { sp_as : addrspace; sp_user : machine }.

(** The argv buffer; [data] points to a kernel block. *)
Record argbuf := mkArgbuf {
  data : option positive;
  len : Z;
  max : Z;
  nargs : Z;
  tooksem : bool;
}.

(** How a call ends: it returns an error code, or it enters user mode. *)
Inductive ending :=
  | Returns (e : Z)
  | Enters (argc uargv stackptr entrypoint : Z).

(** Up to and with the first null byte. *)
Fixpoint kstring (xs : list Z) : option (list Z) :=
  match xs with
  | [] => None
  | x :: xs' => if x =? 0 then Some [0] else (x ::.) <$> kstring xs'
  end.

(** [n] addresses from [a] on. *)
Fixpoint bytes_from (n : nat) (a : Z) : list Z :=
  match n with O => [] | S n' => a :: bytes_from n' (a + 1) end.

(** The bytes [vm_fault] gives access to in a region, see [in_region], below the
    kernel; [supplied] tells for which pages there is memory. *)
Definition region_bytes (supplied : Z → bool) (r : region) : list Z :=
  let top := Z.min (u32 (as_vbase r + as_npages r * PAGE_SIZE)) USERSPACETOP in
  filter (λ a, supplied (a / PAGE_SIZE) = true)
    (bytes_from (Z.to_nat (top - as_vbase r)) (as_vbase r)).

Definition stack_bytes (supplied : Z → bool) (a : addrspace) : list Z :=
  filter (λ a, supplied (a / PAGE_SIZE) = true)
    (bytes_from (Z.to_nat (USERSTACK - stack_base a)) (stack_base a)).

(** Pages are zero when they are first used. *)
Definition zeros (l : list Z) : gmap Z Z := list_to_map ((λ a, (a, 0)) <$> l).

Definition show_more (m : machine) (l : list Z) : machine :=
  mkMachine (mem m ∪ zeros l) (CopyInOut.readonly m) (tm_badfaultfunc m).

(** A new address space: no regions, an empty heap, and the stack. *)
Definition empty_space (supplied : Z → bool) : space :=
  let x := mkAs 0 pagetable_empty false [] 0 0 (USERSTACK - STACK_SIZE) in
  mkSpace x (show_more (mkMachine ∅ ∅ false) (stack_bytes supplied x)).

Definition unwriteable (x : addrspace) (a : Z) : bool :=
  match get_region_permissions x a with Ok (_, w, _) => negb w | Err _ => false end.

(** The bytes that cannot be written any more once [x] is loaded. *)
Definition protect (x : addrspace) (m : machine) : machine :=
  mkMachine (mem m) (filter (λ a, unwriteable x a = true) (dom (mem m))) (tm_badfaultfunc m).

Section exec.
Context {W : Type} `{VfsOps W} (supplied : Z → bool).

(** [heap] holds the kernel blocks of this component, [answers] whether the next
    allocations succeed (all do after its end).  [t_name] is the name of the
    current thread.  [execthrottle] is the count of the semaphore. *)
Record kernel := mkKernel {
heap : gmap positive (list Z);
answers : list bool;
execthrottle : Z;
spaces : gmap positive space;
p_addrspace : option positive;
p_filetable : option positive;
t_name : positive;
ftables : gmap positive filetable;
openfiles : gmap positive openfile;
fs : W;
}.

Definition set_heap h (s : kernel) :=
mkKernel h (answers s) (execthrottle s) (spaces s) (p_addrspace s) (p_filetable s) (t_name s)
  (ftables s) (openfiles s) (fs s).
Definition set_answers l (s : kernel) :=
mkKernel (heap s) l (execthrottle s) (spaces s) (p_addrspace s) (p_filetable s) (t_name s)
  (ftables s) (openfiles s) (fs s).
Definition set_throttle n (s : kernel) :=
mkKernel (heap s) (answers s) n (spaces s) (p_addrspace s) (p_filetable s) (t_name s)
  (ftables s) (openfiles s) (fs s).
Definition set_spaces m (s : kernel) :=
mkKernel (heap s) (answers s) (execthrottle s) m (p_addrspace s) (p_filetable s) (t_name s)
  (ftables s) (openfiles s) (fs s).
Definition set_addrspace o (s : kernel) :=
mkKernel (heap s) (answers s) (execthrottle s) (spaces s) o (p_filetable s) (t_name s)
  (ftables s) (openfiles s) (fs s).
Definition set_filetable o (s : kernel) :=
mkKernel (heap s) (answers s) (execthrottle s) (spaces s) (p_addrspace s) o (t_name s)
  (ftables s) (openfiles s) (fs s).
Definition set_name p (s : kernel) :=
mkKernel (heap s) (answers s) (execthrottle s) (spaces s) (p_addrspace s) (p_filetable s) p
  (ftables s) (openfiles s) (fs s).
Definition set_io t f w (s : kernel) :=
mkKernel (heap s) (answers s) (execthrottle s) (spaces s) (p_addrspace s) (p_filetable s)
  (t_name s) t f w.

(** The user memory of the current process; without an address space, none. *)
Definition user (s : kernel) : machine :=
match p_addrspace s ≫= λ a, spaces s !! a with
| Some x => sp_user x
| None => mkMachine ∅ ∅ false
end.
Definition set_user (m : machine) (s : kernel) : kernel :=
match p_addrspace s with
| Some a => set_spaces (alter (λ x, mkSpace (sp_as x) m) a (spaces s)) s
| None => s
end.

(** ** Running code of the layers below *)

Definition in_user {A} (m : M machine A) : M kernel A := λ s,
match m (user s) with
| Done (a, u) => Done (a, set_user u s)
| Panic => Panic
end.
Definition in_fs {A} (m : M W A) : M kernel A := λ s,
match m (fs s) with
| Done (a, w) => Done (a, set_io (ftables s) (openfiles s) w s)
| Panic => Panic
end.
Definition in_files {A} (m : M (kstate W) A) : M kernel A := λ s,
match m (mkK (ftables s) (openfiles s) (user s) (fs s)) with
| Done (a, k) => Done (a, set_io (tables k) (files k) (world k) (set_user (umem k) s))
| Panic => Panic
end.

(** A [VOP_READ] into user memory. *)
Definition read_user (v : positive) (u : uio) : M kernel (Z * uio) := λ s,
match VOP_READ v u (user s, fs s) with
| Done (r, (m, w)) => Done (r, set_io (ftables s) (openfiles s) w (set_user m s))
| Panic => Panic
end.

(** A [VOP_READ] into a local variable of [n] bytes, with [uio_kinit]: the error
    code, [uio_resid], and the variable.  Where the variable is in the kernel's
    memory does not matter. *)
Definition KBUF : Z := USERSPACETOP.
Definition kernel_buffer (n : Z) : machine := mkMachine (zeros (bytes_from (Z.to_nat n) KBUF)) ∅ false.
Definition read_kernel (v : positive) (n pos : Z) : M kernel (Z * Z * list Z) := λ s,
match VOP_READ v (uio_kinit KBUF n pos UIO_READ) (kernel_buffer n, fs s) with
| Done ((res, u), (m, w)) =>
    Done ((res, uio_resid u, default [] (read_range (mem m) KBUF (Z.to_nat n))),
          set_io (ftables s) (openfiles s) w s)
| Panic => Panic
end.

(** Whether the next allocation succeeds. *)
Definition answer : M kernel bool :=
l ← gets answers;
modify (set_answers (tl l)) ;;
mret (hd true l).

(** New memory is not cleared. *)
Definition kmalloc (size : Z) : M kernel (option positive) :=
ok ← answer;
if negb ok then mret None else
p ← gets (λ s, fresh (dom (heap s)));
modify (λ s, set_heap (<[p := replicate (Z.to_nat size) 190]> (heap s)) s) ;;
mret (Some p).
Definition block (p : positive) : M kernel (list Z) :=
o ← gets (λ s, heap s !! p); deref o.
Definition kfree (p : positive) : M kernel unit :=
block p ;;
modify (λ s, set_heap (delete p (heap s)) s).

(** Storing [xs] at [p + pos]. *)
Definition block_write (p : positive) (pos : Z) (xs : list Z) : M kernel unit :=
l ← block p;
KASSERT ((0 <=? pos) && (pos + Z.of_nat (length xs) <=? Z.of_nat (length l))) ;;
modify (λ s, set_heap (<[p := take (Z.to_nat pos) l ++ xs
                               ++ drop (Z.to_nat pos + length xs) l]> (heap s)) s).

(** The string at [p], with its null byte. *)
Definition block_string (p : positive) : M kernel (list Z) :=
l ← block p; deref (kstring l).
Definition kstrdup (p : positive) : M kernel (option positive) :=
str ← block_string p;
z ← kmalloc (Z.of_nat (length str));
match z with
| None => mret None
| Some q => block_write q 0 str ;; mret (Some q)
end.

(** A process that has to wait for the semaphore goes on when there is a unit;
    the model is of calls that find one. *)
Definition P_execthrottle : M kernel unit :=
n ← gets execthrottle;
KASSERT (0 <? n) ;;
modify (set_throttle (n - 1)).
Definition V_execthrottle : M kernel unit :=
n ← gets execthrottle; modify (set_throttle (n + 1)).

(** ** Address spaces *)

Definition space_get (a : positive) : M kernel space :=
o ← gets (λ s, spaces s !! a); deref o.
Definition space_set (a : positive) (x : space) : M kernel unit :=
modify (λ s, set_spaces (<[a := x]> (spaces s)) s).

(** The structure, the page table and the lock are allocated. *)
Definition create_space : M kernel (option positive) :=
ok ← answer; if negb ok then mret None else
ok ← answer; if negb ok then mret None else
ok ← answer; if negb ok then mret None else
a ← gets (λ s, fresh (dom (spaces s)));
space_set a (empty_space supplied) ;;
mret (Some a).
Definition destroy_space (a : positive) : M kernel unit :=
space_get a ;;
modify (λ s, set_spaces (delete a (spaces s)) s).

(** Returns the old address space.  What [as_activate] does, flushing the TLB, is
    in Tlb.v; here user memory is always that of the current address space. *)
Definition proc_setas (o : option positive) : M kernel (option positive) :=
old ← gets p_addrspace;
modify (set_addrspace o) ;;
mret old.

Definition define_region (a : positive) (vaddr sz rd wr ex : Z) : M kernel Z :=
ok ← answer;
x ← space_get a;
match as_define_region ok (sp_as x) vaddr sz rd wr ex with
| Err e => mret e
| Ok y =>
    space_set a (mkSpace y (show_more (sp_user x)
      (region_list y ≫= region_bytes supplied))) ;;
    mret 0
end.
Definition prepare_load (a : positive) : M kernel Z :=
x ← space_get a;
space_set a (mkSpace (as_prepare_load (sp_as x)) (sp_user x)) ;;
mret 0.
Definition complete_load (a : positive) : M kernel Z :=
x ← space_get a;
let y := as_complete_load (sp_as x) in
space_set a (mkSpace y (protect y (sp_user x))) ;;
mret 0.
Definition define_stack (a : positive) : M kernel Z :=
x ← space_get a; mret (as_define_stack (sp_as x)).

(** ** The argv buffer *)

Definition argbuf_init : argbuf := mkArgbuf None 0 0 0 false.

Definition argbuf_cleanup (buf : argbuf) : M kernel argbuf :=
match data buf with Some p => kfree p | None => mret tt end ;;
(if tooksem buf then V_execthrottle else mret tt) ;;
mret argbuf_init.

Definition argbuf_allocate (buf : argbuf) (size : Z) : M kernel (Z * argbuf) :=
p ← kmalloc size;
match p with
| None => mret (ENOMEM, mkArgbuf None (len buf) (max buf) (nargs buf) (tooksem buf))
| Some _ => mret (0, mkArgbuf p (len buf) size (nargs buf) (tooksem buf))
end.

(** [progname] is a string in the kernel. *)
Definition argbuf_fromkernel (buf : argbuf) (progname : positive) : M kernel (Z * argbuf) :=
str ← block_string progname;
let n := Z.of_nat (length str) in
'(result, buf) ← argbuf_allocate buf n;
if negb (result =? 0) then mret (result, buf) else
p ← deref (data buf);
block_write p 0 str ;;
mret (0, mkArgbuf (data buf) n (max buf) 1 (tooksem buf)).

(** Every round but the last adds an argument of at least one byte. *)
Fixpoint copyin_loop (fuel : nat) (buf : argbuf) (uargv : Z) : M kernel (Z * argbuf) :=
match fuel with
| O => panic
| S fuel' =>
    r ← in_user (copyin uargv SIZEOF_PTR);
    match r with
    | Err result => mret (result, buf)
    | Ok bs =>
        let thisarg := be32 bs 0 in
        if thisarg =? 0 then mret (0, buf) else
        r ← in_user (copyinstr thisarg (u32 (max buf - len buf)));
        match r with
        | Err result => mret (if result =? ENAMETOOLONG then E2BIG else result, buf)
        | Ok str =>
            p ← deref (data buf);
            block_write p (len buf) str ;;
            copyin_loop fuel'
              (mkArgbuf (data buf) (u32 (len buf + Z.of_nat (length str))) (max buf)
                 (nargs buf + 1) (tooksem buf))
              (u32 (uargv + SIZEOF_PTR))
        end
    end
end.

Definition argbuf_copyin (buf : argbuf) (uargv : Z) : M kernel (Z * argbuf) :=
copyin_loop (S (Z.to_nat (max buf)))
  (mkArgbuf (data buf) (len buf) (max buf) 0 (tooksem buf)) uargv.

Definition argbuf_fromuser (buf : argbuf) (uargv : Z) : M kernel (Z * argbuf) :=
'(result, buf) ← argbuf_allocate buf PAGE_SIZE;
if negb (result =? 0) then mret (result, buf) else
'(result, buf) ← argbuf_copyin buf uargv;
if result =? E2BIG then
  argbuf_cleanup buf ;;
  let buf := argbuf_init in
  P_execthrottle ;;
  let buf := mkArgbuf (data buf) (len buf) (max buf) (nargs buf) true in
  '(result, buf) ← argbuf_allocate buf ARG_MAX;
  if negb (result =? 0) then mret (result, buf) else
  argbuf_copyin buf uargv
else mret (result, buf).

(** The loop that pushes the strings out: an error code, [pos] and [uargv_i]. *)
Fixpoint copyout_loop (fuel : nat) (buf : argbuf) (ustringbase pos uargv_i : Z)
  : M kernel (Z * Z * Z) :=
match fuel with
| O => panic
| S fuel' =>
    if pos <? len buf then
      let thisarg := u32 (ustringbase + pos) in
      r ← in_user (copyout (bytes_of_word thisarg) uargv_i);
      match r with
      | Err result => mret (result, pos, uargv_i)
      | Ok _ =>
          p ← deref (data buf);
          l ← block p;
          r ← in_user (copyoutstr (drop (Z.to_nat pos) l) thisarg (u32 (len buf - pos)));
          match r with
          | Err result => mret (result, pos, uargv_i)
          | Ok str =>
              copyout_loop fuel' buf ustringbase (u32 (pos + Z.of_nat (length str)))
                (u32 (uargv_i + SIZEOF_PTR))
          end
      end
    else mret (0, pos, uargv_i)
end.

(** Where the strings go, below the top [ustackp] of the stack, and where the
    pointers go. *)
Definition string_base (buf : argbuf) (ustackp : Z) : Z :=
let ustack := u32 (ustackp - len buf) in
u32 (ustack - Z.land ustack (SIZEOF_PTR - 1)).
Definition argv_base (buf : argbuf) (ustackp : Z) : Z :=
u32 (string_base buf ustackp - (nargs buf + 1) * SIZEOF_PTR).

(** Returns [*ustackp], [*argc_ret] and [*uargv_ret]. *)
Definition argbuf_copyout (buf : argbuf) (ustackp : Z) : M kernel (result (Z * Z * Z)) :=
let ustringbase := string_base buf ustackp in
let ustack := argv_base buf ustackp in
let uargvbase := ustack in
'(result, pos, uargv_i) ← copyout_loop (S (Z.to_nat (len buf))) buf ustringbase 0 uargvbase;
if negb (result =? 0) then mret (Err result) else
KASSERT (pos =? len buf) ;;
r ← in_user (copyout (bytes_of_word 0) uargv_i);
match r with
| Err result => mret (Err result)
| Ok _ => mret (Ok (ustack, nargs buf, uargvbase))
end.

(** ** loadelf.c *)

Definition load_segment (a : positive) (v : positive) (offset vaddr memsize filesize
  is_executable : Z) : M kernel Z :=
let filesize := if filesize >? memsize then memsize else filesize in
let u := mkUio [mkIovec vaddr memsize] offset filesize
           (if negb (is_executable =? 0) then UIO_USERISPACE else UIO_USERSPACE)
           UIO_READ (Some a) in
'(result, u) ← read_user v u;
if negb (result =? 0) then mret result else
if negb (uio_resid u =? 0) then mret ENOEXEC else
mret 0.

(** Reading the header of segment [i]. *)
Definition read_phdr (v : positive) (eh : Elf_Ehdr) (i : Z) : M kernel (result Elf_Phdr) :=
let offset := u32 (e_phoff eh + i * e_phentsize eh) in
'(result, resid, bs) ← read_kernel v SIZEOF_PHDR offset;
if negb (result =? 0) then mret (Err result) else
if negb (resid =? 0) then mret (Err ENOEXEC) else
mret (Ok (phdr_of bs)).

(** The body of the two loops over the segments: [body] for a segment to load,
    nothing for the kinds to skip; [Some e] returns [e] from [load_elf]. *)
Definition each_segment (v : positive) (eh : Elf_Ehdr) (body : Elf_Phdr → M kernel Z) (i : Z)
  : M kernel (option Z) :=
r ← read_phdr v eh i;
match r with
| Err e => mret (Some e)
| Ok ph =>
    if (p_type ph =? PT_NULL) || (p_type ph =? PT_PHDR) || (p_type ph =? PT_MIPS_REGINFO)
    then mret None
    else if p_type ph =? PT_LOAD then
      result ← body ph;
      mret (if negb (result =? 0) then Some result else None)
    else mret (Some ENOEXEC)
end.

(** Returns the entry point. *)
Definition load_elf (v : positive) : M kernel (result Z) :=
o ← gets p_addrspace;
a ← deref o;
'(result, resid, bs) ← read_kernel v SIZEOF_EHDR 0;
if negb (result =? 0) then mret (Err result) else
if negb (resid =? 0) then mret (Err ENOEXEC) else
let eh := ehdr_of bs in
if negb (ehdr_accepted eh) then mret (Err ENOEXEC) else
r ← for_return (Z.to_nat (e_phnum eh)) 0 (each_segment v eh (λ ph,
  define_region a (p_vaddr ph) (p_memsz ph) (Z.land (p_flags ph) PF_R)
    (Z.land (p_flags ph) PF_W) (Z.land (p_flags ph) PF_X)));
match r with
| Some e => mret (Err e)
| None =>
    result ← prepare_load a;
    if negb (result =? 0) then mret (Err result) else
    r ← for_return (Z.to_nat (e_phnum eh)) 0 (each_segment v eh (λ ph,
      load_segment a v (p_offset ph) (p_vaddr ph) (p_memsz ph) (p_filesz ph)
        (Z.land (p_flags ph) PF_X)));
    match r with
    | Some e => mret (Err e)
    | None =>
        result ← complete_load a;
        if negb (result =? 0) then mret (Err result) else
        mret (Ok (e_entry eh))
    end
end.

(** ** runprogram.c *)

(** Returns the entry point and the initial stack pointer. *)
Definition loadexec (path : positive) : M kernel (result (Z * Z)) :=
newname ← kstrdup path;
match newname with
| None => mret (Err ENOMEM)
| Some newname =>
    str ← block_string path;
    r ← in_fs (vfs_open (take (length str - 1) str) O_RDONLY 0);
    match r with
    | Err result => kfree newname ;; mret (Err result)
    | Ok v =>
        newvm ← create_space;
        match newvm with
        | None => in_fs (vfs_close v) ;; kfree newname ;; mret (Err ENOMEM)
        | Some newvm =>
            oldvm ← proc_setas (Some newvm);
            r ← load_elf v;
            match r with
            | Err result =>
                in_fs (vfs_close v) ;; proc_setas oldvm ;; destroy_space newvm ;;
                kfree newname ;; mret (Err result)
            | Ok entrypoint =>
                in_fs (vfs_close v) ;;
                stackptr ← define_stack newvm;
                match oldvm with Some old => destroy_space old | None => mret tt end ;;
                name ← gets t_name;
                kfree name ;;
                modify (set_name newname) ;;
                mret (Ok (entrypoint, stackptr))
            end
        end
    end
end.

(** [sizeof(mypath)] *)
Definition MYPATH_SIZE : Z := 32.

Definition placed_open (ft : positive) (path : list Z) (openflags fd : Z) : M kernel Z :=
KASSERT (Z.of_nat (length path) <? MYPATH_SIZE) ;;
ok1 ← answer; ok2 ← answer;
r ← in_files (openfile_open ok1 ok2 path openflags 436);
match r with
| Err result => mret result
| Ok newfile =>
    oldfile ← in_files (filetable_placeat ft (Some newfile) fd);
    KASSERT (bool_decide (oldfile = None)) ;;
    mret 0
end.

Definition open_stdfds (ft : positive) (inpath outpath errpath : list Z) : M kernel Z :=
result ← placed_open ft inpath O_RDONLY 0;
if negb (result =? 0) then mret result else
result ← placed_open ft outpath O_WRONLY 1;
if negb (result =? 0) then mret result else
result ← placed_open ft errpath O_WRONLY 2;
if negb (result =? 0) then mret result else
mret 0.

(** "con:" *)
Definition CON : list Z := [99; 111; 110; 58].

(** The standard file descriptors of a process without a file table. *)
Definition setup_files : M kernel Z :=
o ← gets p_filetable;
match o with
| Some _ => mret 0
| None =>
    ok ← answer;
    ft ← in_files (filetable_create ok);
    modify (set_filetable ft) ;;
    match ft with
    | None => mret ENOMEM
    | Some ft => open_stdfds ft CON CON CON
    end
end.

(** What [runprogram] and [sys_execv] do once the program is loaded: a failure
    of [argbuf_copyout] is fatal. *)
Definition enter_program (kargv : argbuf) (entrypoint stackptr : Z) : M kernel ending :=
r ← argbuf_copyout kargv stackptr;
match r with
| Err _ => panic
| Ok (stackptr, argc, uargv) =>
    argbuf_cleanup kargv ;;
    mret (Enters argc uargv stackptr entrypoint)
end.

(** [pid] is [curproc->p_pid]. *)
Definition runprogram (pid : Z) (progname : positive) : M kernel ending :=
KASSERT ((PID_MIN <=? pid) && (pid <=? PID_MAX)) ;;
o ← gets p_addrspace;
KASSERT (bool_decide (o = None)) ;;
result ← setup_files;
if negb (result =? 0) then mret (Returns result) else
'(result, kargv) ← argbuf_fromkernel argbuf_init progname;
if negb (result =? 0) then argbuf_cleanup kargv ;; mret (Returns result) else
r ← loadexec progname;
match r with
| Err result => argbuf_cleanup kargv ;; mret (Returns result)
| Ok (entrypoint, stackptr) => enter_program kargv entrypoint stackptr
end.

Definition sys_execv (prog uargv : Z) : M kernel ending :=
path ← kmalloc PATH_MAX;
match path with
| None => mret (Returns ENOMEM)
| Some path =>
    r ← in_user (copyinstr prog PATH_MAX);
    match r with
    | Err result => kfree path ;; mret (Returns result)
    | Ok str =>
        block_write path 0 str ;;
        '(result, kargv) ← argbuf_fromuser argbuf_init uargv;
        if negb (result =? 0) then
          argbuf_cleanup kargv ;; kfree path ;; mret (Returns result)
        else
        r ← loadexec path;
        match r with
        | Err result => argbuf_cleanup kargv ;; kfree path ;; mret (Returns result)
        | Ok (entrypoint, stackptr) =>
            kfree path ;;
            enter_program kargv entrypoint stackptr
        end
    end
end.

End exec.

End Exec.
