(* ===== verification/ExecArgs.v ===== *)
(** * Passing arguments to a program (the argv buffer of runprogram.c)

    What [argbuf_fromuser] collects and what [argbuf_copyout] pushes is the same
    list of strings: an argv of the old memory becomes an argv of the new one. *)

From Stdlib Require Import ZArith Lia.
From stdpp Require Import base numbers list gmap.
From S2P Require Import Prelude CopyInOut Uio SfsLayout Files Coremap PageTable Vm AddrSpace.
From S2P Require Import Exec.

Module ExecArgs.
Import CopyInOut Uio SfsLayout Files Coremap PageTable Vm AddrSpace Exec.

(** ** An argv in user memory *)

Fixpoint argv_at (m : gmap Z Z) (p : Z) (args : list (list Z)) : Prop :=
  match args with
  | [] => ∃ bs, read_range m p 4 = Some bs ∧ be32 bs 0 = 0
  | x :: args' =>
      ∃ bs, read_range m p 4 = Some bs ∧ be32 bs 0 ≠ 0 ∧
        cstr x ∧ read_range m (be32 bs 0) (length x) = Some x ∧ argv_at m (p + 4) args'
  end.

(** A string of bytes. *)
Definition arg_ok (x : list Z) : Prop := cstr x ∧ Forall is_byte x.

(** The bytes of the strings. *)
Definition total (args : list (list Z)) : Z := Z.of_nat (length (concat args)).

(** The bytes an argv takes on the stack: the strings, rounded up to whole
    words, and a pointer for each of them and for the end. *)
Definition stack_need (args : list (list Z)) : Z :=
  (total args + 3) / 4 * 4 + 4 * (Z.of_nat (length args) + 1).

(** User memory: bytes, below the kernel. *)
Definition bytes_ok (m : gmap Z Z) : Prop :=
  map_Forall (λ a x, 0 ≤ a < USERSPACETOP ∧ is_byte x) m.
Record user_ok (u : machine) : Prop := {
  uo_fault : tm_badfaultfunc u = false;
  uo_bytes : bytes_ok (mem u);
}.

(** ** Ranges of memory *)

Lemma read_range_Some m a n xs :
  read_range m a n = Some xs ↔
  length xs = n ∧ ∀ i, (i < n)%nat → m !! (a + Z.of_nat i) = xs !! i.
Proof.
  revert a xs. induction n as [|n IH]; intros a xs.
  - split; [|intros [H _]; by destruct xs]. intros [= <-]. split; [done|lia].
  - rewrite read_range_S. split.
    + destruct (m !! a) as [x|] eqn:Hx; [|done].
      destruct (read_range m (a + 1) n) as [ys|] eqn:Hy; [|done]. intros [= <-].
      apply IH in Hy as [Hl Hi]. split; [simpl; lia|]. intros [|i] Hlt.
      * by rewrite Z.add_0_r.
      * simpl. rewrite <- Hi by lia. f_equal. lia.
    + intros [Hl Hi]. destruct xs as [|x xs]; [done|].
      specialize (Hi 0%nat ltac:(lia)) as H0. rewrite Z.add_0_r in H0. rewrite H0. simpl.
      rewrite (proj2 (IH (a + 1) xs)); [done|]. split; [simpl in Hl; lia|]. intros i Hlt.
      specialize (Hi (S i) ltac:(lia)). simpl in Hi. rewrite <- Hi. f_equal. lia.
Qed.

Lemma read_range_app m a xs ys :
  read_range m a (length (xs ++ ys)) = Some (xs ++ ys) ↔
  read_range m a (length xs) = Some xs ∧
  read_range m (a + Z.of_nat (length xs)) (length ys) = Some ys.
Proof.
  rewrite !read_range_Some, length_app. split.
  - intros [_ Hi]. split; (split; [done|]); intros i Hlt.
    + rewrite Hi by lia. by rewrite lookup_app_l.
    + specialize (Hi (length xs + i)%nat ltac:(lia)).
      rewrite lookup_app_r, Nat.add_sub' in Hi by lia. rewrite <- Hi. f_equal. lia.
  - intros [[_ Hx] [_ Hy]]. split; [done|]. intros i Hlt.
    destruct (decide (i < length xs)%nat).
    + rewrite lookup_app_l by done. by apply Hx.
    + rewrite lookup_app_r by lia. rewrite <- Hy by lia. f_equal. lia.
Qed.

(** Bytes stored elsewhere do not matter. *)
Lemma read_range_ext m m' a n :
  (∀ b, a ≤ b < a + Z.of_nat n → m' !! b = m !! b) →
  read_range m' a n = read_range m a n.
Proof.
  revert a. induction n as [|n IH]; intros a Hm; [done|].
  rewrite !read_range_S, Hm by lia. rewrite IH; [done|]. intros b Hb. apply Hm. lia.
Qed.

Lemma read_range_user u a n xs :
  user_ok u → read_range (mem u) a n = Some xs → (0 < n)%nat →
  0 ≤ a ∧ user_range a (Z.of_nat n) ∧ Forall is_byte xs.
Proof.
  intros [_ Hb] [Hl Hi]%read_range_Some Hn.
  assert (∀ i, (i < n)%nat → ∃ x, xs !! i = Some x ∧ 0 ≤ a + Z.of_nat i < USERSPACETOP ∧ is_byte x)
    as Hall.
  { intros i Hlt. destruct (lookup_lt_is_Some_2 xs i) as [x Hx]; [lia|].
    exists x. split; [done|]. apply (Hb _ _). by rewrite Hi. }
  destruct (Hall 0%nat Hn) as (? & _ & ? & _).
  destruct (Hall (n - 1)%nat) as (? & _ & ? & _); [lia|].
  split; [lia|]. split; [split; lia|].
  apply Forall_lookup_2. intros i z Hz. destruct (Hall i) as (y & Hy & _ & ?).
  { apply lookup_lt_Some in Hz. lia. }
  by simplify_eq.
Qed.

Lemma be32_word a b c d : be32 [a; b; c; d] 0 = a * 2 ^ 24 + b * 2 ^ 16 + c * 2 ^ 8 + d.
Proof. unfold be32, be16, znth. simpl. lia. Qed.

Lemma be32_range bs : length bs = 4%nat → Forall is_byte bs → 0 ≤ be32 bs 0 < 2 ^ 32.
Proof.
  intros Hl Hb. destruct bs as [|a [|b [|c [|d [|]]]]]; try done.
  rewrite be32_word. rewrite !Forall_cons in Hb. unfold is_byte in Hb. lia.
Qed.

(** What [copyin] of a pointer gives. *)
Lemma be32_bytes_of_word w : is_word w → be32 (bytes_of_word w) 0 = w.
Proof.
  intros Hw. pose proof (words_bytes [w] ltac:(by constructor)) as Hr.
  unfold bytes_of_words in Hr. simpl in Hr. injection Hr as Hr.
  unfold bytes_of_word. rewrite be32_word. lia.
Qed.

(** ** Strings *)

Lemma cstr_length x : cstr x → (0 < length x)%nat.
Proof. intros (ys & -> & _). rewrite length_app. simpl. lia. Qed.

(** A string goes on behind a stretch without a null byte. *)
Lemma string_longer m a x ys :
  cstr x → read_range m a (length x) = Some x →
  0 ∉ ys → read_range m a (length ys) = Some ys → (length ys < length x)%nat.
Proof.
  intros (zs & -> & _) [_ Hx]%read_range_Some Hno [_ Hy]%read_range_Some.
  rewrite length_app in *. simpl in *. destruct (decide (length ys < length zs + 1)%nat); [done|].
  destruct Hno. apply (list_elem_of_lookup_2 _ (length zs)).
  rewrite <- Hy, Hx by lia. rewrite lookup_app_r, Nat.sub_diag by lia. done.
Qed.

Lemma cstr_prefix x y m a :
  cstr x → cstr y → read_range m a (length x) = Some x → read_range m a (length y) = Some y →
  (length y ≤ length x)%nat.
Proof.
  intros Hx (ys & -> & Hno) Hrx Hry. apply read_range_app in Hry as [Hry _].
  pose proof (string_longer m a x ys Hx Hrx Hno Hry). rewrite length_app. simpl. lia.
Qed.

Lemma cstr_unique m a x y :
  cstr x → cstr y → read_range m a (length x) = Some x → read_range m a (length y) = Some y →
  x = y.
Proof.
  intros Hx Hy Hrx Hry. pose proof (cstr_prefix x y m a Hx Hy Hrx Hry).
  pose proof (cstr_prefix y x m a Hy Hx Hry Hrx).
  assert (length x = length y) as Hl by lia. rewrite Hl in Hrx. congruence.
Qed.

Lemma kstring_cstr x l : cstr x → kstring (x ++ l) = Some x.
Proof.
  intros (ys & -> & Hno). induction ys as [|y ys IH]; [done|]. simpl.
  apply not_elem_of_cons in Hno as [Hy Hno].
  rewrite (proj2 (Z.eqb_neq y 0)) by done. by rewrite IH.
Qed.

Lemma kstring_sound l x : kstring l = Some x → cstr x.
Proof.
  revert x. induction l as [|y l IH]; intros x; simpl; [done|].
  destruct (Z.eqb_spec y 0) as [->|Hy].
  - intros [= <-]. exists []. split; [done|apply not_elem_of_nil].
  - destruct (kstring l) as [z|]; simpl; [|done]. intros [= <-].
    destruct (IH z eq_refl) as (ys & -> & Hno). exists (y :: ys). split; [done|set_solver].
Qed.

(** ** Writing to memory *)

Lemma all_writable_spec u a n :
  all_writable u a n = true ↔ ∀ b, a ≤ b < a + Z.of_nat n → writable u b = true.
Proof.
  unfold all_writable. rewrite forallb_forall. split.
  - intros Hall b Hb. apply Hall, list_elem_of_In, elem_of_seqZ. lia.
  - intros Hall b Hb%list_elem_of_In%elem_of_seqZ. apply Hall. lia.
Qed.

(** Storing bytes does not change what can be written. *)
Lemma writable_overwrite u a xs b :
  all_writable u a (length xs) = true →
  writable (with_mem u (overwrite (mem u) a xs)) b = writable u b.
Proof.
  revert u a. induction xs as [|x xs IH]; intros u a Hall; [by destruct u|]. simpl in *.
  rewrite all_writable_S in Hall. apply andb_prop in Hall as [Hw Hall].
  rewrite <- (writable_insert u a x b Hw), <- (IH (with_mem u (<[a := x]> (mem u))) (a + 1)).
  - done.
  - by rewrite all_writable_insert.
Qed.

Lemma all_writable_overwrite u a xs b n :
  all_writable u a (length xs) = true →
  all_writable (with_mem u (overwrite (mem u) a xs)) b n = all_writable u b n.
Proof.
  intros Hall. revert b. induction n as [|n IH]; intros b; [done|].
  by rewrite !all_writable_S, IH, writable_overwrite.
Qed.

Lemma copyout_exact u src a :
  tm_badfaultfunc u = false → 0 ≤ a → user_range a (Z.of_nat (length src)) →
  wp (copyout src a) (λ r u',
    if all_writable u a (length src)
    then r = Ok tt ∧ u' = with_mem u (overwrite (mem u) a src) else r = Err EFAULT) u.
Proof.
  intros Hb Ha Hr. eapply wp_mono; [|apply copyout_correct; [|..|done]].
  2,3: unfold user_range, USERSPACETOP in Hr; lia.
  intros r u' (Hb' & Hro & _ & _ & Hres). destruct r as [[]|e].
  - destruct Hres as (_ & -> & Hm). split; [done|].
    destruct u, u'; simpl in *. unfold with_mem. simpl. congruence.
  - destruct Hres as [-> Hno]. destruct (all_writable u a (length src)); [|done]. tauto.
Qed.

(** A range that is not written to keeps its bytes, one that ends where the new
    bytes begin grows by them. *)
Lemma read_range_outside m a xs b n :
  b + Z.of_nat n ≤ a ∨ a + Z.of_nat (length xs) ≤ b →
  read_range (overwrite m a xs) b n = read_range m b n.
Proof.
  intros Hout. apply read_range_ext. intros c Hc.
  rewrite lookup_overwrite, decide_False by lia. done.
Qed.

Lemma read_range_grow m a ys xs :
  read_range m a (length ys) = Some ys →
  read_range (overwrite m (a + Z.of_nat (length ys)) xs) a (length (ys ++ xs)) = Some (ys ++ xs).
Proof.
  intros Hy. apply read_range_app. rewrite read_range_outside by lia.
  by rewrite read_range_overwrite.
Qed.

(** ** Kernel blocks and user memory *)

Section args.
Context {W : Type} `{VfsOps W}.
Implicit Types (s : kernel (W := W)).

(** [s] with what a call in progress may have changed. *)
Definition now h l n sp pa w s : kernel (W := W) :=
mkKernel h l n sp pa (p_filetable s) (t_name s) (ftables s) (openfiles s) w.

(** Only the blocks, the answers of the allocator and the semaphore. *)
Definition held h l n s : kernel (W := W) := now h l n (spaces s) (p_addrspace s) (fs s) s.

Lemma held_id s : held (heap s) (answers s) (execthrottle s) s = s.
Proof. by destruct s. Qed.

Lemma set_user_id s : set_user (user s) s = s.
Proof.
unfold set_user, user. destruct s as [? ? ? sp [a|] ? ? ? ? ?]; simpl; [|done].
unfold set_spaces. simpl. f_equal. apply map_eq. intros b.
destruct (decide (b = a)) as [->|Hne]; [|by rewrite lookup_alter_ne].
rewrite lookup_alter_eq. by destruct (sp !! a) as [[]|].
Qed.

Lemma wp_in_user {A} (m : M machine A) (Q : A → kernel → Prop) s :
  wp m (λ r u, Q r (set_user u s)) (user s) → wp (in_user m) Q s.
Proof. unfold wp, in_user. by destruct (m (user s)) as [[r u]|]. Qed.

(** Reading user memory. *)
Lemma wp_user_reads {A} (m : M machine A) (P : A → Prop) (Q : A → kernel → Prop) s :
  wp m (λ r u, u = user s ∧ P r) (user s) → (∀ r, P r → Q r s) → wp (in_user m) Q s.
Proof.
intros Hm HQ. apply wp_in_user. eapply wp_mono; [|exact Hm].
intros r u [-> Hr]. rewrite set_user_id. auto.
Qed.

Lemma wp_kmalloc n (Q : option positive → kernel → Prop) s :
  (∀ l, Q None (held (heap s) l (execthrottle s) s)) →
  (∀ l p, heap s !! p = None →
     Q (Some p) (held (<[p := replicate (Z.to_nat n) 190]> (heap s)) l (execthrottle s) s)) →
  wp (kmalloc n) Q s.
Proof.
intros H0 H1. unfold kmalloc, answer. wp_go. destruct (hd true (answers s)); wp_go.
- apply H1. apply not_elem_of_dom, is_fresh.
- apply H0.
Qed.

(** When there is memory. *)
Lemma wp_kmalloc_ok n (Q : option positive → kernel → Prop) s :
  answers s = [] →
  (∀ p, heap s !! p = None →
     Q (Some p) (held (<[p := replicate (Z.to_nat n) 190]> (heap s)) [] (execthrottle s) s)) →
  wp (kmalloc n) Q s.
Proof.
intros Ha HQ. unfold kmalloc, answer. wp_go. rewrite Ha. cbn [hd negb]. wp_go.
apply HQ. apply not_elem_of_dom, is_fresh.
Qed.

Lemma wp_kfree p l (Q : unit → kernel → Prop) s :
  heap s !! p = Some l →
  Q tt (held (delete p (heap s)) (answers s) (execthrottle s) s) → wp (kfree p) Q s.
Proof. intros Hp HQ. unfold kfree, block. wp_go. rewrite Hp. wp_step; [done|]. by wp_go. Qed.

Lemma wp_block p l (Q : list Z → kernel → Prop) s :
  heap s !! p = Some l → Q l s → wp (block p) Q s.
Proof. intros Hp HQ. unfold block. wp_go. by eapply wp_deref. Qed.

Lemma wp_block_write p pos xs l (Q : unit → kernel → Prop) s :
  heap s !! p = Some l → 0 ≤ pos → pos + Z.of_nat (length xs) ≤ Z.of_nat (length l) →
  (∀ l', length l' = length l →
     take (Z.to_nat pos + length xs) l' = take (Z.to_nat pos) l ++ xs →
     Q tt (held (<[p := l']> (heap s)) (answers s) (execthrottle s) s)) →
  wp (block_write p pos xs) Q s.
Proof.
intros Hp H0 H1 HQ. unfold block_write. wp_go. eapply wp_block; [done|].
wp_go. apply wp_KASSERT; [lia|]. wp_go. apply HQ.
- rewrite !length_app, length_take, length_drop. lia.
- rewrite app_assoc, take_app_le; [|rewrite length_app, length_take; lia].
  apply take_ge. rewrite length_app, length_take. lia.
Qed.

(** ** Collecting the arguments *)

(** A block [l] of [max] bytes that holds the [len] bytes of the strings. *)
Definition copied (m : gmap Z Z) (uargv : Z) (b : argbuf) (l : list Z)
  (res : Z) (b' : argbuf) (l' : list Z) : Prop :=
if decide (res = 0) then
  ∃ args, argv_at m uargv args ∧ len b' = len b + total args ∧ len b' ≤ max b ∧
    nargs b' = nargs b + Z.of_nat (length args) ∧ Forall arg_ok args ∧
    take (Z.to_nat (len b')) l' = take (Z.to_nat (len b)) l ++ concat args
else
  0 < res ∧ ∀ args, argv_at m uargv args → max b < len b + total args.

Definition copyin_post s (p : positive) (b : argbuf) (l : list Z) (uargv : Z)
  (r : Z * argbuf) s' : Prop :=
∃ l', length l' = length l ∧ s' = held (<[p := l']> (heap s)) (answers s) (execthrottle s) s ∧
  data r.2 = Some p ∧ max r.2 = max b ∧ tooksem r.2 = tooksem b ∧
  copied (mem (user s)) uargv b l r.1 r.2 l'.

Lemma total_cons x args : total (x :: args) = Z.of_nat (length x) + total args.
Proof. unfold total. simpl. rewrite length_app. lia. Qed.

Lemma total_nonneg args : 0 ≤ total args.
Proof. unfold total. lia. Qed.

(** No round changes anything but the block. *)
Lemma copyin_stop s p b l uargv res :
  heap s !! p = Some l → data b = Some p → 
  0 < res → (∀ args, argv_at (mem (user s)) uargv args → max b < len b + total args) →
  copyin_post s p b l uargv (res, b) s.
Proof.
intros Hp Hd Hres Hno. exists l. split; [done|].
rewrite insert_id, held_id by done. split_and!; [done..|].
unfold copied. rewrite decide_False by (simpl; lia). done.
Qed.

Lemma argv_head m p args : argv_at m p args → ∃ bs, read_range m p 4 = Some bs.
Proof. destruct args; simpl; naive_solver. Qed.

(** There is only one list of arguments to find. *)
Lemma argv_unique m p args args' : argv_at m p args → argv_at m p args' → args = args'.
Proof.
revert p args'. induction args as [|x args IH]; intros p [|y args']; simpl; [done|naive_solver..|].
intros (bs & Hr & _ & Hx & Hrx & Ha) (bs' & Hr' & _ & Hy & Hry & Ha').
rewrite Hr in Hr'. injection Hr' as <-. f_equal; [by eapply cstr_unique|by eapply IH].
Qed.

(** Behind a pointer that is not null there is an argument. *)
Lemma argv_arg m p args bs :
  argv_at m p args → read_range m p 4 = Some bs → be32 bs 0 ≠ 0 →
  ∃ x args', args = x :: args' ∧ cstr x ∧ read_range m (be32 bs 0) (length x) = Some x ∧
    argv_at m (p + 4) args'.
Proof.
destruct args as [|x args]; simpl.
- intros (bs' & Hr & H0) Hr' Hne. rewrite Hr in Hr'. by injection Hr' as <-.
- intros (bs' & Hr & H0 & Hx & Hrx & Ha) Hr' Hne. rewrite Hr in Hr'. injection Hr' as <-.
  by exists x, args.
Qed.

(** With no room left in the buffer, the string is not even looked at. *)
Lemma copyinstr_zero a u : 0 < a < 2 ^ 32 → copyinstr a 0 u = Done (Err EFAULT, u).
Proof.
intros Ha. unfold copyinstr, copycheck. rewrite Z.add_0_r, Z.mod_small by lia.
by rewrite (proj2 (Z.ltb_lt _ _)) by lia.
Qed.

(** What the second half of a round finds. *)
Definition arg_result (m : gmap Z Z) (q room : Z) (r : result (list Z)) : Prop :=
match r with
| Ok x => arg_ok x ∧ Z.of_nat (length x) ≤ room ∧ read_range m q (length x) = Some x
| Err e => (e = ENAMETOOLONG ∨ e = EFAULT) ∧
    ∀ x, cstr x → read_range m q (length x) = Some x → room < Z.of_nat (length x)
end.

Lemma copyinstr_arg s q room (Q : result (list Z) → kernel → Prop) :
  user_ok (user s) → 0 < q < 2 ^ 32 → 0 ≤ room ≤ ARG_MAX →
  (∀ r, arg_result (mem (user s)) q room r → Q r s) →
  wp (in_user (copyinstr q room)) Q s.
Proof.
intros Hu Hq Hroom HQ. destruct (decide (room = 0)) as [->|Hne].
- eapply (wp_user_reads _ (λ r, r = Err EFAULT)).
  + apply wp_done. eexists _, _. split; [by apply copyinstr_zero|done].
  + intros r ->. apply HQ. split; [by right|]. intros x Hx _. apply cstr_length in Hx. lia.
- eapply wp_user_reads.
  + apply copyinstr_correct; [lia|unfold ARG_MAX in *; lia|apply Hu].
  + intros r Hr. apply HQ. destruct r as [x|e]; simpl in *.
    { destruct Hr as (Hx & Hl & _ & Hrx). apply cstr_length in Hx as Hpos.
      destruct (read_range_user _ _ _ _ Hu Hrx Hpos) as (_ & _ & Hb). by split_and!. }
    destruct Hr as (ys & Hno & Hry & Hor). split; [naive_solver|]. intros x Hx Hrx.
    pose proof (string_longer _ _ _ _ Hx Hrx Hno Hry) as Hl.
    destruct Hor as [(_ & Hlen & _)|(_ & _ & Hend)]; [lia|].
    apply cstr_length in Hx as Hpos.
    destruct (read_range_user _ _ _ _ Hu Hrx Hpos) as (_ & Hr & _).
    apply read_range_Some in Hrx as [_ Hi]. specialize (Hi _ Hl).
    destruct (lookup_lt_is_Some_2 x (length ys) Hl) as [z Hz].
    destruct Hend as [Hend|Hend]; [destruct Hr; lia|congruence].
Qed.

Lemma copyin_pointer s q (Q : result (list Z) → kernel → Prop) :
  user_ok (user s) → 0 ≤ q < 2 ^ 32 →
  match read_range (mem (user s)) q 4 with
  | Some bs => length bs = 4%nat → Forall is_byte bs → user_range q 4 → Q (Ok bs) s
  | None => Q (Err EFAULT) s
  end →
  wp (in_user (copyin q SIZEOF_PTR)) Q s.
Proof.
intros Hu Hq HQ.
apply (wp_user_reads _ (λ r, r = if read_range (mem (user s)) q 4 is Some bs then Ok bs else Err EFAULT)).
- apply wp_done. eexists _, _. split; [apply copyin_correct; [done|unfold SIZEOF_PTR; lia|apply Hu]|].
  split; [done|]. unfold SIZEOF_PTR. change (Z.to_nat 4) with 4%nat.
  destruct (read_range _ _ _) as [bs|] eqn:Hr; [|by destruct (decide _)].
  destruct (read_range_user _ _ _ _ Hu Hr) as (_ & Hrange & _); [lia|].
  by rewrite decide_True.
- intros r ->. destruct (read_range _ _ _) as [bs|] eqn:Hr; [|done].
  destruct (read_range_user _ _ _ _ Hu Hr) as (_ & Hrange & Hb); [lia|].
  apply HQ; try done. by eapply length_read_range.
Qed.

(** One argument more. *)
Lemma copied_cons m uargv b l x l1 bs res b' l' n :
  read_range m uargv 4 = Some bs → be32 bs 0 ≠ 0 → arg_ok x →
  read_range m (be32 bs 0) (length x) = Some x → 0 ≤ len b →
  take (Z.to_nat (len b) + length x) l1 = take (Z.to_nat (len b)) l ++ x →
  n = len b + Z.of_nat (length x) →
  copied m (uargv + 4) (mkArgbuf (data b) n (max b) (nargs b + 1) (tooksem b)) l1 res b' l' →
  copied m uargv b l res b' l'.
Proof.
intros Hr H0 Hx Hrx Hlen Hl1 ->. unfold copied. cbn [len max nargs]. destruct (decide (res = 0)).
- intros (args & Ha & Hb' & Hmax & Hn & Hall & Ht). exists (x :: args).
  rewrite total_cons. split_and!; [exists bs; split_and!; try done; apply Hx|lia|lia|simpl; lia|by constructor|].
  rewrite Ht. simpl. rewrite app_assoc. f_equal.
  replace (Z.to_nat (len b + Z.of_nat (length x))) with (Z.to_nat (len b) + length x)%nat by lia.
  done.
- intros [Hres Hno]. split; [done|]. intros args Ha.
  destruct (argv_arg _ _ _ _ Ha Hr H0) as (y & args' & -> & Hy & Hry & Ha').
  rewrite (cstr_unique _ _ _ _ Hy (proj1 Hx) Hry Hrx), total_cons. specialize (Hno args' Ha'). lia.
Qed.

Lemma copyin_loop_correct fuel s p b l uargv :
  user_ok (user s) → 0 ≤ uargv < 2 ^ 32 → data b = Some p → heap s !! p = Some l →
  Z.of_nat (length l) = max b → 0 ≤ len b ≤ max b → max b ≤ ARG_MAX →
  (Z.to_nat (max b - len b) < fuel)%nat →
  wp (copyin_loop fuel b uargv) (copyin_post s p b l uargv) s.
Proof.
revert s b l uargv. induction fuel as [|fuel IH]; intros s b l uargv Hu Ha Hd Hp Hl Hlen Hmax Hf;
  [lia|]. cbn [copyin_loop]. apply wp_bind, copyin_pointer; [done..|].
destruct (read_range (mem (user s)) uargv 4) as [bs|] eqn:Hr.
2: { apply wp_ret, copyin_stop; try done. intros args [bs Hbs]%argv_head. congruence. }
intros Hbl Hbytes Hrange. pose proof (be32_range bs Hbl Hbytes) as Hptr.
destruct (Z.eqb_spec (be32 bs 0) 0) as [H0|H0].
{ apply wp_ret. exists l. rewrite insert_id, held_id by done. split_and!; [done..|].
  unfold copied. simpl. exists []. unfold total. simpl. rewrite app_nil_r.
  split_and!; [by exists bs|lia|lia|lia|constructor|done]. }
assert (u32 (max b - len b) = max b - len b) as ->.
{ unfold u32, ARG_MAX in *. apply Z.mod_small. lia. }
apply wp_bind, copyinstr_arg; [done|lia|lia|]. intros [x|e]; simpl.
2: { intros [He Hlong]. apply wp_ret, copyin_stop; [done..| |].
     - destruct He as [-> | ->]; done.
     - intros args Hargs. destruct (argv_arg _ _ _ _ Hargs Hr H0) as (x & args' & -> & Hx & Hrx & _).
       specialize (Hlong x Hx Hrx). rewrite total_cons. pose proof (total_nonneg args'). lia. }
intros (Hx & Hxl & Hrx). pose proof (cstr_length x (proj1 Hx)) as Hpos. wp_go. rewrite Hd. eapply wp_deref; [done|].
wp_go. eapply wp_block_write; [done|lia|lia|]. intros l1 Hl1 Hl1t.
assert (u32 (len b + Z.of_nat (length x)) = len b + Z.of_nat (length x)) as ->.
{ unfold u32, ARG_MAX in *. apply Z.mod_small. lia. }
assert (u32 (uargv + SIZEOF_PTR) = uargv + 4) as ->.
{ unfold u32, SIZEOF_PTR. apply Z.mod_small. unfold user_range, USERSPACETOP in Hrange. lia. }
eapply wp_mono; [|apply (IH _ _ l1); simpl; try done; try lia].
2: { unfold user_range, USERSPACETOP in Hrange. lia. }
2: apply lookup_insert_eq.
intros r s' (l' & Hl' & -> & Hd' & Hm' & Ht' & Hc). exists l'. simpl.
split_and!; [lia| |done..|].
- unfold held, now. simpl. by rewrite insert_insert_eq.
- rewrite <- Hd in Hc. eapply (copied_cons _ _ _ _ x l1 bs); (done || lia).
Qed.

(** When some arguments fill the buffer to the last byte, the next one is not
    found to be too long: the round ends with [EFAULT]. *)
Lemma copyin_exact fuel s p b l uargv args x rest :
  user_ok (user s) → 0 ≤ uargv < 2 ^ 32 → data b = Some p → heap s !! p = Some l →
  Z.of_nat (length l) = max b → 0 ≤ len b → max b ≤ ARG_MAX →
  (Z.to_nat (max b - len b) < fuel)%nat →
  argv_at (mem (user s)) uargv (args ++ x :: rest) → len b + total args = max b →
  wp (copyin_loop fuel b uargv) (λ r s', r.1 = EFAULT ∧ data r.2 = Some p ∧ tooksem r.2 = tooksem b ∧
    ∃ l', s' = held (<[p := l']> (heap s)) (answers s) (execthrottle s) s) s.
Proof.
revert s b l uargv args. induction fuel as [|fuel IH];
  intros s b l uargv args Hu Ha Hd Hp Hl Hlen Hmax Hf Hargv Hfit; [lia|].
assert (∃ y args', args ++ x :: rest = y :: args') as (y & args' & Heq).
{ destruct args; simpl; eauto. }
pose proof Hargv as Hhead. rewrite Heq in Hhead. destruct Hhead as (bs & Hr & H0 & Hy & Hry & _).
cbn [copyin_loop]. apply wp_bind, copyin_pointer; [done..|]. rewrite Hr. intros Hbl Hbytes Hrange.
pose proof (be32_range bs Hbl Hbytes) as Hptr. rewrite (proj2 (Z.eqb_neq _ 0)) by done.
pose proof (total_nonneg args).
assert (u32 (max b - len b) = max b - len b) as ->.
{ unfold u32, ARG_MAX in *. apply Z.mod_small. lia. }
destruct args as [|z args]; simpl in Heq; injection Heq as -> <-.
- assert (max b - len b = 0) as -> by (unfold total in Hfit; simpl in Hfit; lia).
  apply wp_bind. eapply (wp_user_reads _ (λ r, r = Err EFAULT)).
  { apply wp_done. eexists _, _. split; [apply copyinstr_zero; lia|done]. }
  intros r ->. wp_go. split_and!; [done..|]. exists l. by rewrite insert_id, held_id.
- rewrite total_cons in Hfit. pose proof (total_nonneg args).
  apply wp_bind, copyinstr_arg; [done|lia|lia|]. intros [y'|e]; simpl.
  2: { intros [_ Hlong]. specialize (Hlong y Hy Hry). lia. }
  intros ([Hy' _] & Hyl & Hry'). rewrite (cstr_unique _ _ _ _ Hy' Hy Hry' Hry) in *.
  apply cstr_length in Hy as Hpos. wp_go. rewrite Hd. eapply wp_deref; [done|]. wp_go.
  eapply wp_block_write; [done|lia|lia|]. intros l1 Hl1 _.
  unfold u32. rewrite (Z.mod_small (len b + _)) by (unfold ARG_MAX in *; lia).
  unfold user_range, USERSPACETOP in Hrange. unfold SIZEOF_PTR. rewrite (Z.mod_small (uargv + _)) by lia.
  destruct Hargv as (bs' & _ & _ & _ & _ & Hargv).
  eapply wp_mono; [|apply (IH _ _ l1 _ args); simpl; try done; try lia; apply lookup_insert_eq].
  intros r s' (Hres & Hdr & Htr & l' & ->). split_and!; [done..|]. exists l'.
  unfold held, now. simpl. by rewrite insert_insert_eq.
Qed.

(** The resources a buffer holds on top of the blocks [h0] and the semaphore
    count [n0]. *)
Definition owned (h0 : gmap positive (list Z)) (n0 : Z) (b : argbuf) s : Prop :=
execthrottle s = n0 - (if tooksem b then 1 else 0) ∧
match data b with
| Some p => h0 !! p = None ∧ ∃ l, heap s = <[p := l]> h0
| None => heap s = h0
end.

Lemma wp_cleanup h0 n0 b (Q : argbuf → kernel → Prop) s :
  owned h0 n0 b s → Q argbuf_init (held h0 (answers s) n0 s) → wp (argbuf_cleanup b) Q s.
Proof.
intros [Hn Hh] HQ. unfold argbuf_cleanup, V_execthrottle. wp_go.
assert (wp (if tooksem b then n ← gets execthrottle; modify (set_throttle (n + 1)) else mret tt)
  (λ _ s', Q argbuf_init s') (held h0 (answers s) (execthrottle s) s)) as Hv.
{ destruct (tooksem b); wp_go.
  - unfold set_throttle. simpl. replace (execthrottle s + 1) with n0 by lia. done.
  - rewrite Hn, Z.sub_0_r. done. }
destruct (data b) as [p|].
- destruct Hh as [Hp [l Hl]]. eapply wp_kfree; [rewrite Hl; apply lookup_insert_eq|].
  rewrite Hl, delete_insert_id by done. wp_go. eapply wp_mono; [|exact Hv].
  intros ? ? ?. by wp_go.
- wp_go. rewrite <- Hh, held_id in Hv. eapply wp_mono; [|exact Hv]. intros ? ? ?. by wp_go.
Qed.

(** A buffer that holds [args]. *)
Definition filled (b : argbuf) (args : list (list Z)) s : Prop :=
∃ p l, data b = Some p ∧ heap s !! p = Some l ∧ Forall arg_ok args ∧
  len b = total args ∧ len b ≤ ARG_MAX ∧ len b ≤ Z.of_nat (length l) ∧
  nargs b = Z.of_nat (length args) ∧ take (Z.to_nat (len b)) l = concat args.

(** One attempt, with a new buffer of [size] bytes. *)
Definition attempt_post (size : Z) (sem : bool) (uargv : Z) s (r : Z * argbuf) s' : Prop :=
∃ h l, s' = held h l (execthrottle s) s ∧
  owned (heap s) (execthrottle s + if sem then 1 else 0) r.2 s' ∧ tooksem r.2 = sem ∧
  if decide (r.1 = 0) then ∃ args, argv_at (mem (user s)) uargv args ∧ filled r.2 args s'
  else 0 < r.1 ∧ (r.1 = ENOMEM ∨ ∀ args, argv_at (mem (user s)) uargv args → size < total args).

Lemma attempt_correct size sem uargv s :
  user_ok (user s) → 0 ≤ uargv < 2 ^ 32 → 0 ≤ size ≤ ARG_MAX →
  wp ('(result, b) ← argbuf_allocate (mkArgbuf None 0 0 0 sem) size;
      if negb (result =? 0) then mret (result, b) else argbuf_copyin b uargv)
    (attempt_post size sem uargv s) s.
Proof.
intros Hu Ha Hsz. unfold argbuf_allocate. wp_go. apply wp_kmalloc.
- intros l. wp_go. exists (heap s), l. split; [done|]. split; [|split; [done|]].
  { split; [simpl; destruct sem; lia|done]. }
  rewrite decide_False by done. split; [done|]. by left.
- intros l p Hp. wp_go. cbn [negb Z.eqb]. unfold argbuf_copyin. cbn [max data len tooksem].
  set (s1 := held _ l _ s).
  eapply wp_mono; [|apply (copyin_loop_correct _ s1 p _ (replicate (Z.to_nat size) 190));
    simpl; try done; try lia].
  2: apply lookup_insert_eq. 2: rewrite length_replicate; lia.
  intros r s' (l' & Hl' & -> & Hd & Hm & Ht & Hc). rewrite length_replicate in Hl'.
  exists (<[p := l']> (heap s)), l. unfold s1. unfold held, now. simpl. rewrite insert_insert_eq.
  split; [done|]. simpl in *. split; [|split; [done|]].
  { split; simpl; [rewrite Ht; destruct sem; lia|]. rewrite Hd. split; [done|]. by exists l'. }
  unfold copied in Hc. simpl in Hc. destruct (decide (r.1 = 0)).
  + destruct Hc as (args & Hargs & Hlen & Hmax & Hn & Hall & Htake). exists args.
    split; [exact Hargs|]. exists p, l'. simpl. rewrite lookup_insert_eq.
    split_and!; [done..|lia|lia|lia|lia|done].
  + destruct Hc as [Hres Hno]. split; [done|]. right. intros args Hargs.
    specialize (Hno args Hargs). lia.
Qed.

Definition fromuser_post (uargv : Z) s (r : Z * argbuf) s' : Prop :=
∃ h l n, s' = held h l n s ∧ owned (heap s) (execthrottle s) r.2 s' ∧
  if decide (r.1 = 0) then ∃ args, argv_at (mem (user s)) uargv args ∧ filled r.2 args s'
  else 0 < r.1 ∧
    (r.1 = ENOMEM ∨ ∀ args, argv_at (mem (user s)) uargv args → PAGE_SIZE < total args).

Lemma argbuf_fromuser_correct uargv s :
  user_ok (user s) → 0 ≤ uargv < 2 ^ 32 → 0 < execthrottle s →
  wp (argbuf_fromuser argbuf_init uargv) (fromuser_post uargv s) s.
Proof.
intros Hu Ha Hsem. unfold argbuf_fromuser. apply wp_bind.
pose proof (attempt_correct PAGE_SIZE false uargv s Hu Ha ltac:(done)) as Hone.
apply wp_bind_inv in Hone. eapply wp_mono; [|exact Hone]. intros [r b] s1 Hr.
assert (∀ r s', attempt_post PAGE_SIZE false uargv s r s' → fromuser_post uargv s r s') as Hdone.
{ intros r' s' (h & l & -> & Ho & _ & Hres). exists h, l, (execthrottle s).
  rewrite Z.add_0_r in Ho. done. }
destruct (negb (r =? 0)).
{ apply wp_ret. apply Hdone. exact Hr. }
apply wp_bind. eapply wp_mono; [|exact Hr]. clear Hr Hone. intros [r' b'] s' Hp.
destruct (r' =? E2BIG); [|by apply wp_ret, Hdone]. destruct Hp as (h & l & -> & Ho & _).
rewrite Z.add_0_r in Ho. apply wp_bind. eapply wp_cleanup; [done|]. unfold P_execthrottle. wp_go.
apply wp_KASSERT; [simpl; lia|]. apply wp_modify.
eapply wp_mono; [|apply (attempt_correct ARG_MAX true uargv); [exact Hu|done..]].
intros r2 s2 (h2 & l2 & -> & Ho2 & _ & Hres). exists h2, l2, (execthrottle s - 1).
split; [done|]. simpl in Ho2. replace (execthrottle s - 1 + 1) with (execthrottle s) in Ho2 by lia.
split; [done|]. destruct (decide _); [done|]. destruct Hres as [Hpos Hno]. split; [done|].
destruct Hno as [?|Hno]; [by left|right]. intros args Hargs. specialize (Hno args Hargs).
unfold ARG_MAX, PAGE_SIZE in *. lia.
Qed.

(** The same with arguments that fill the small buffer exactly. *)
Lemma attempt_exact size uargv s args x rest :
  user_ok (user s) → answers s = [] → 0 ≤ uargv < 2 ^ 32 → 0 ≤ size ≤ ARG_MAX →
  argv_at (mem (user s)) uargv (args ++ x :: rest) → total args = size →
  wp ('(result, b) ← argbuf_allocate argbuf_init size;
      if negb (result =? 0) then mret (result, b) else argbuf_copyin b uargv)
    (λ r s', r.1 = EFAULT ∧ owned (heap s) (execthrottle s) r.2 s' ∧
       ∃ h l n, s' = held h l n s) s.
Proof.
intros Hu Hans Ha Hsz Hargv Hfit. unfold argbuf_allocate. wp_go. apply wp_kmalloc_ok; [done|].
intros p Hp. wp_go. cbn [negb Z.eqb]. unfold argbuf_copyin. cbn [max data len tooksem argbuf_init].
set (s1 := held _ [] _ s).
eapply wp_mono; [|apply (copyin_exact _ s1 p _ (replicate (Z.to_nat size) 190) uargv args x rest);
  cbn [max data len]; try done; try lia].
2: apply lookup_insert_eq. 2: rewrite length_replicate; lia.
intros r s' (Hres & Hd & Ht & l' & ->). split; [done|]. cbn [tooksem] in Ht. split.
- split; [simpl; rewrite Ht; lia|]. rewrite Hd. split; [done|]. exists l'. unfold s1. simpl.
  by rewrite insert_insert_eq.
- by eexists _, _, _.
Qed.

Lemma fromuser_exact uargv s args x rest :
  user_ok (user s) → answers s = [] → 0 ≤ uargv < 2 ^ 32 →
  argv_at (mem (user s)) uargv (args ++ x :: rest) → total args = PAGE_SIZE →
  wp (argbuf_fromuser argbuf_init uargv)
    (λ r s', r.1 = EFAULT ∧ owned (heap s) (execthrottle s) r.2 s' ∧ ∃ h l n, s' = held h l n s) s.
Proof.
intros Hu Hans Ha Hargv Hfit. unfold argbuf_fromuser. apply wp_bind.
pose proof (attempt_exact PAGE_SIZE uargv s args x rest Hu Hans Ha ltac:(done) Hargv Hfit) as Hone.
apply wp_bind_inv in Hone. eapply wp_mono; [|exact Hone]. intros [r b] s1 Hr.
destruct (negb (r =? 0)); [done|].
apply wp_bind. eapply wp_mono; [|exact Hr]. intros [r' b'] s' Hp. destruct Hp as [Hres Hp].
simpl in Hres. subst r'. by apply wp_ret.
Qed.

(** A path that is there is found. *)
Lemma copyinstr_finds s q room x :
  user_ok (user s) → 0 < q < 2 ^ 32 → 0 ≤ room ≤ ARG_MAX → cstr x →
  Z.of_nat (length x) ≤ room → read_range (mem (user s)) q (length x) = Some x →
  wp (in_user (copyinstr q room)) (λ r s', s' = s ∧ r = Ok x) s.
Proof.
intros Hu Hq Hroom Hx Hl Hrx. apply copyinstr_arg; [done..|]. intros [y|e]; simpl.
- intros ([Hy _] & _ & Hry). split; [done|]. f_equal. by eapply cstr_unique.
- intros [_ Hlong]. specialize (Hlong x Hx Hrx). lia.
Qed.

(** ** Pushing the arguments out *)

(** The process has an address space. *)
Definition current s : Prop := ∃ a x, p_addrspace s = Some a ∧ spaces s !! a = Some x.

Lemma user_set_user m s : current s → user (set_user m s) = m.
Proof.
intros (a & x & Ha & Hx). unfold user, set_user. rewrite Ha. simpl.
by rewrite Ha; simpl; rewrite lookup_alter_eq, Hx.
Qed.

Lemma set_user_set_user m m' s : set_user m (set_user m' s) = set_user m s.
Proof.
unfold set_user. destruct (p_addrspace s) as [a|] eqn:Ha; [|by rewrite Ha].
simpl. rewrite Ha. unfold set_spaces. simpl. f_equal. apply map_eq. intros c.
destruct (decide (c = a)) as [->|]; [|by rewrite !lookup_alter_ne].
rewrite !lookup_alter_eq. by destruct (spaces s !! a).
Qed.

Lemma current_set_user m s : current s → current (set_user m s).
Proof.
intros (a & x & Ha & Hx). unfold set_user. rewrite Ha. exists a. simpl.
rewrite lookup_alter_eq, Hx. eexists. done.
Qed.

Lemma heap_set_user m s : heap (set_user m s) = heap s.
Proof. unfold set_user. by destruct (p_addrspace s). Qed.

(** The addresses of strings laid out from [q]. *)
Fixpoint pointers (q : Z) (args : list (list Z)) : list Z :=
match args with
| [] => []
| x :: args' => q :: pointers (q + Z.of_nat (length x)) args'
end.

Lemma length_pointers q args : length (pointers q args) = length args.
Proof. revert q. induction args; intros; simpl; auto. Qed.

(** What is on the new stack: [ptrs] at [ab], and the strings [pre] at [sb]. *)
Definition pushed (m : gmap Z Z) (ab sb : Z) (ptrs pre : list Z) : Prop :=
read_range m ab (length (bytes_of_words ptrs)) = Some (bytes_of_words ptrs) ∧
read_range m sb (length pre) = Some pre.

Definition copyout_loop_post (b : argbuf) (ab sb : Z) (ptrs pre : list Z) (rest : list (list Z)) s
  (r : Z * Z * Z) s' : Prop :=
let u := user s in
(∃ m', s' = set_user (with_mem u m') s ∧
  r = (0, len b, ab + 4 * Z.of_nat (length ptrs + length rest)) ∧
  (∀ c n, all_writable (with_mem u m') c n = all_writable u c n) ∧ bytes_ok m' ∧
  (∀ c, c < ab → m' !! c = mem u !! c) ∧
  pushed m' ab sb (ptrs ++ pointers (sb + Z.of_nat (length pre)) rest) (pre ++ concat rest)) ∨
(r.1.1 ≠ 0 ∧ all_writable u ab (Z.to_nat (sb + len b - ab)) = false).

(** The buffer holds [pre], which is pushed already, and [rest]. *)
Record pushing (b : argbuf) (ab sb : Z) (ptrs pre : list Z) (rest : list (list Z)) s : Prop := {
pg_current : current s;
pg_user : user_ok (user s);
pg_block : ∃ p l, data b = Some p ∧ heap s !! p = Some l ∧
  take (Z.to_nat (len b)) l = pre ++ concat rest;
pg_strings : Forall arg_ok rest;
pg_len : len b = Z.of_nat (length pre) + total rest;
pg_base : 0 ≤ ab;
pg_room : ab + 4 * Z.of_nat (length ptrs + length rest + 1) = sb;
pg_top : sb + len b ≤ USERSPACETOP;
pg_pushed : pushed (mem (user s)) ab sb ptrs pre;
}.

Lemma not_writable u a n b k :
  all_writable u b k = false → a ≤ b → b + Z.of_nat k ≤ a + Z.of_nat n →
  all_writable u a n = false.
Proof.
intros Hf Ha Hk. apply not_true_iff_false. intros Hall. apply not_true_iff_false in Hf.
apply Hf, all_writable_spec. intros c Hc. eapply all_writable_spec; [exact Hall|lia].
Qed.

Lemma bytes_overwrite m a xs :
  bytes_ok m → Forall is_byte xs → 0 ≤ a → a + Z.of_nat (length xs) ≤ USERSPACETOP →
  bytes_ok (overwrite m a xs).
Proof.
intros Hm Hxs Ha Htop b x. rewrite lookup_overwrite. case_decide; [|apply Hm].
intros Hx. split; [lia|]. by eapply Forall_lookup_1 in Hx.
Qed.

Lemma length_bytes_of_word w : length (bytes_of_word w) = 4%nat.
Proof. done. Qed.

Lemma pushing_next b ab sb ptrs pre x rest s :
  pushing b ab sb ptrs pre (x :: rest) s →
  let u := user s in let q := sb + Z.of_nat (length pre) in
  let m1 := overwrite (mem u) (ab + 4 * Z.of_nat (length ptrs)) (bytes_of_word q) in
  let m2 := overwrite m1 q x in
  all_writable u (ab + 4 * Z.of_nat (length ptrs)) 4 = true →
  all_writable (with_mem u m1) q (length x) = true →
  pushing b ab sb (ptrs ++ [q]) (pre ++ x) rest (set_user (with_mem u m2) s).
Proof.
intros Hp u q m1 m2 H1 H2. destruct Hp. pose proof pg_strings0 as [Hx _]%Forall_cons.
rewrite total_cons in pg_len0. pose proof (total_nonneg rest). simpl in pg_room0.
constructor; try done.
- by apply current_set_user.
- rewrite user_set_user by done. split; [apply pg_user0|]. apply bytes_overwrite; [..|unfold q; lia|].
  + apply bytes_overwrite; [apply pg_user0|apply bytes_of_word_ok|lia|].
    rewrite length_bytes_of_word. lia.
  + apply Hx.
  + unfold q. lia.
- rewrite heap_set_user. destruct pg_block0 as (p & l & Hd & Hh & Ht). exists p, l.
  split_and!; [done..|]. rewrite Ht. simpl. by rewrite app_assoc.
- by inversion pg_strings0.
- rewrite pg_len0, length_app. lia.
- rewrite <- pg_room0. rewrite length_app. simpl. lia.
- rewrite user_set_user by done. destruct pg_pushed0 as [Hptr Hstr]. simpl. unfold m2, m1. split.
  + rewrite bytes_of_words_app, read_range_outside.
    2: { rewrite length_app, length_bytes_of_words. simpl. unfold q. lia. }
    replace (ab + 4 * Z.of_nat (length ptrs)) with (ab + Z.of_nat (length (bytes_of_words ptrs)))
      by (rewrite length_bytes_of_words; lia).
    change (bytes_of_words [q]) with (bytes_of_word q).
    by apply read_range_grow.
  + unfold q. apply read_range_grow. rewrite read_range_outside; [done|].
    right. rewrite length_bytes_of_word. lia.
Qed.

(** One round: the pointer and the string, or the stack cannot be written. *)
Lemma push_round b ab sb ptrs pre x rest s (Q : Z * Z * Z → kernel → Prop) f :
  pushing b ab sb ptrs pre (x :: rest) s →
  let q := sb + Z.of_nat (length pre) in
  let i := ab + 4 * Z.of_nat (length ptrs) in
  (∀ m, pushing b ab sb (ptrs ++ [q]) (pre ++ x) rest (set_user (with_mem (user s) m) s) →
     (∀ c n, all_writable (with_mem (user s) m) c n = all_writable (user s) c n) →
     (∀ c, c < ab → m !! c = mem (user s) !! c) →
     wp (f x) Q (set_user (with_mem (user s) m) s)) →
  (∀ s', all_writable (user s) ab (Z.to_nat (sb + len b - ab)) = false →
     Q (EFAULT, Z.of_nat (length pre), i) s') →
  wp (r ← in_user (copyout (bytes_of_word q) i);
      match r with
      | Err result => mret (result, Z.of_nat (length pre), i)
      | Ok _ =>
          p ← deref (data b);
          l ← block p;
          r ← in_user (copyoutstr (drop (length pre) l) q (len b - Z.of_nat (length pre)));
          match r with
          | Err result => mret (result, Z.of_nat (length pre), i)
          | Ok str => f str
          end
      end) Q s.
Proof.
intros Hp q i Hok Hbad. pose proof Hp as []. destruct pg_block0 as (p & l & Hd & Hl & Ht).
apply Forall_cons in pg_strings0 as [[Hx _] _]. apply cstr_length in Hx as Hxl.
rewrite total_cons in pg_len0. pose proof (total_nonneg rest). simpl in pg_room0.
wp_go. apply wp_in_user. eapply wp_mono; [|apply copyout_exact; [apply pg_user0|unfold i; lia|]].
2: { rewrite length_bytes_of_word. unfold user_range, i in *. lia. }
rewrite length_bytes_of_word. intros r u1 H1. destruct (all_writable (user s) i 4) eqn:Hw1.
2: { subst r. wp_go. apply Hbad. eapply not_writable; [exact Hw1|unfold i; lia..]. }
destruct H1 as [-> ->]. wp_go. rewrite Hd. eapply wp_deref; [done|]. wp_go.
eapply wp_block; [by rewrite heap_set_user|]. wp_go. apply wp_in_user.
rewrite user_set_user by done.
eapply wp_mono; [|eapply (copyoutstr_correct _ _ x (concat rest ++ drop (Z.to_nat (len b)) l)); [apply pg_user0|unfold q; lia| | |done|lia]].
2: { unfold user_range, q. lia. }
2: { rewrite <- (take_drop (Z.to_nat (len b)) l) at 1. rewrite Ht. simpl. by rewrite <- !app_assoc, drop_app_length. }
intros r u2. rewrite all_writable_overwrite by done.
destruct (all_writable (user s) q (length x)) eqn:Hw2.
2: { intros ->. wp_go. apply Hbad. eapply not_writable; [exact Hw2|unfold q; lia..]. }
intros [-> ->]. rewrite set_user_set_user. apply Hok.
- eapply (pushing_next b ab sb ptrs pre x rest s Hp); [done|].
  by rewrite all_writable_overwrite.
- intros c n. rewrite <- (all_writable_overwrite (user s) i (bytes_of_word q) c) by done.
  apply (all_writable_overwrite (with_mem _ _)). by rewrite all_writable_overwrite.
- intros c Hc. cbn [mem with_mem]. rewrite !lookup_overwrite, !decide_False; [done|unfold i; lia|unfold q; lia].
Qed.

Lemma copyout_loop_correct fuel b ab sb ptrs pre rest s :
  pushing b ab sb ptrs pre rest s → (length (concat rest) < fuel)%nat →
  wp (copyout_loop fuel b sb (Z.of_nat (length pre)) (ab + 4 * Z.of_nat (length ptrs)))
    (copyout_loop_post b ab sb ptrs pre rest s) s.
Proof.
revert ptrs pre rest s. induction fuel as [|fuel IH]; intros ptrs pre rest s Hp Hf; [lia|].
cbn [copyout_loop]. pose proof Hp as []. destruct rest as [|x rest].
{ unfold total in pg_len0. simpl in pg_len0. rewrite (proj2 (Z.ltb_ge _ _)) by lia.
  apply wp_ret. left. exists (mem (user s)).
  assert (with_mem (user s) (mem (user s)) = user s) as -> by (by destruct (user s)).
  rewrite set_user_id, Nat.add_0_r, !app_nil_r. split_and!; [done| |done|apply pg_user0|done|apply pg_pushed0..].
  by rewrite pg_len0, Z.add_0_r. }
assert (0 < length x)%nat as Hxl by (apply cstr_length; by apply Forall_cons in pg_strings0 as [[? _] _]).
rewrite total_cons in pg_len0. pose proof (total_nonneg rest).
simpl in pg_room0, Hf. rewrite length_app in Hf. unfold USERSPACETOP in pg_top0.
rewrite (proj2 (Z.ltb_lt _ _)) by lia. unfold u32, SIZEOF_PTR.
rewrite (Z.mod_small (sb + _)), (Z.mod_small (len b - _)), Nat2Z.id by lia.
apply (push_round b ab sb ptrs pre x rest s _ (λ str, copyout_loop fuel b sb _ _) Hp).
- intros m Hm Hw Hbelow. rewrite !Z.mod_small by lia.
  replace (Z.of_nat (length pre) + Z.of_nat (length x)) with (Z.of_nat (length (pre ++ x)))
    by (rewrite length_app; lia).
  replace (ab + 4 * Z.of_nat (length ptrs) + 4)
    with (ab + 4 * Z.of_nat (length (ptrs ++ [sb + Z.of_nat (length pre)])))
    by (rewrite length_app; simpl; lia).
  eapply wp_mono; [|apply IH; [exact Hm|lia]]. unfold copyout_loop_post.
  rewrite user_set_user, !length_app by done. intros r s' [(m' & -> & -> & Hw' & Hb' & Hbl' & Hpush)|[Hr Hf']].
  + left. exists m'. rewrite set_user_set_user. simpl. split_and!.
    * done.
    * f_equal. lia.
    * intros c n. rewrite <- Hw. apply Hw'.
    * done.
    * intros c Hc. rewrite <- Hbelow by done. by apply Hbl'.
    * rewrite <- !app_assoc in Hpush. simpl in Hpush.
      rewrite Nat2Z.inj_add, Z.add_assoc in Hpush. done.
  + right. by rewrite Hw in Hf'.
- intros s' Hf'. right. done.
Qed.



(** The pointers and the strings together are an argv. *)
Lemma pushed_argv m ab q args :
  0 < q → q + total args ≤ USERSPACETOP → Forall arg_ok args →
  pushed m ab q (pointers q args ++ [0]) (concat args) → argv_at m ab args.
Proof.
revert ab q. induction args as [|x args IH]; intros ab q Hq Htop Hall [Hp Hs].
{ exists (bytes_of_word 0). done. }
apply Forall_cons in Hall as [[Hx _] Hall]. rewrite total_cons in Htop.
pose proof (total_nonneg args). unfold USERSPACETOP in Htop.
change (pointers q (x :: args) ++ [0]) with (q :: (pointers (q + Z.of_nat (length x)) args ++ [0])) in Hp.
rewrite bytes_of_words_cons in Hp. simpl concat in Hs.
apply read_range_app in Hp as [Hp Hps]. apply read_range_app in Hs as [Hxs Hs].
rewrite length_bytes_of_word in Hp, Hps.
exists (bytes_of_word q). rewrite be32_bytes_of_word by (unfold is_word; lia).
split_and!; [done|lia|done..|].
apply (IH _ (q + Z.of_nat (length x))); [lia|unfold USERSPACETOP; lia|done|]. by split.
Qed.

Lemma string_base_eq b :
  0 ≤ len b ≤ ARG_MAX → string_base b USERSTACK = USERSTACK - (len b + 3) / 4 * 4.
Proof.
intros Hl. unfold string_base, SIZEOF_PTR, u32, USERSTACK, ARG_MAX in *.
rewrite (Z.mod_small (2147483648 - len b)) by lia.
change (4 - 1) with (Z.ones 2). rewrite Z.land_ones by lia.
rewrite Z.mod_small; Z.to_euclidean_division_equations; lia.
Qed.

Lemma length_le_total args : Forall arg_ok args → Z.of_nat (length args) ≤ total args.
Proof.
induction 1 as [|x args [Hx _] _ IH]; [unfold total; simpl; lia|].
rewrite total_cons. apply cstr_length in Hx. simpl length. lia.
Qed.

(** Where the argv of [args] goes. *)
Definition argv_addr (args : list (list Z)) : Z := USERSTACK - stack_need args.

Lemma argv_base_eq b args s :
  filled b args s → argv_base b USERSTACK = argv_addr args.
Proof.
intros (p & l & _ & _ & Hall & Hlen & Hmax & _ & Hn & _). pose proof (total_nonneg args).
pose proof (length_le_total args Hall).
unfold argv_base. rewrite string_base_eq by lia. unfold argv_addr, stack_need, SIZEOF_PTR, u32.
rewrite Hn, <- Hlen. unfold USERSTACK, ARG_MAX in *.
rewrite Z.mod_small; Z.to_euclidean_division_equations; lia.
Qed.

Lemma pushing_start b args s :
  current s → user_ok (user s) → filled b args s →
  pushing b (argv_addr args) (string_base b USERSTACK) [] [] args s.
Proof.
intros Hc Hu (p & l & Hd & Hl & Hall & Hlen & Hmax & Hll & Hn & Ht).
pose proof (total_nonneg args). pose proof (length_le_total args Hall).
rewrite string_base_eq by lia.
unfold argv_addr, stack_need. rewrite <- Hlen. unfold ARG_MAX, USERSTACK, USERSPACETOP in *.
constructor; try done; simpl length; try (unfold USERSPACETOP; Z.to_euclidean_division_equations; lia).
by exists p, l.
Qed.

(** What [argbuf_copyout] does: the argv is on the new stack, or the stack
    cannot take it. *)
Definition push_post (b : argbuf) (args : list (list Z)) s (r : result (Z * Z * Z)) s' : Prop :=
let u := user s in
match r with
| Ok x =>
    x = (argv_addr args, Z.of_nat (length args), argv_addr args) ∧
    ∃ m', s' = set_user (with_mem u m') s ∧ bytes_ok m' ∧ argv_at m' (argv_addr args) args ∧
      (∀ c, c < argv_addr args → m' !! c = mem u !! c) ∧
      ∀ c n, all_writable (with_mem u m') c n = all_writable u c n
| Err e => all_writable u (argv_addr args) (Z.to_nat (stack_need args)) = false
end.

Lemma argbuf_copyout_correct b args s :
  current s → user_ok (user s) → filled b args s →
  wp (argbuf_copyout b USERSTACK) (push_post b args s) s.
Proof.
intros Hc Hu Hf. unfold argbuf_copyout. rewrite (argv_base_eq b args s Hf). wp_go.
pose proof (pushing_start b args s Hc Hu Hf) as Hp.
pose proof Hp as [_ _ _ Hall Hlen Hab Hroom Htop _]. simpl in Hlen, Hroom.
pose proof (copyout_loop_correct (S (Z.to_nat (len b))) b _ _ _ _ _ s Hp) as Hloop.
simpl length in Hloop. rewrite Z.mul_0_r, Z.add_0_r in Hloop.
eapply wp_mono; [|apply Hloop; unfold total in Hlen; lia]. clear Hloop.
assert (stack_need args = string_base b USERSTACK - argv_addr args
  + (USERSTACK - string_base b USERSTACK)) as Hneed by (unfold argv_addr; lia).
pose proof (total_nonneg args).
intros r s' [(m & -> & -> & Hw & Hb & Hbelow & Hpush)|[Hr Hno]].
2: { destruct r as [[res pos] i]. simpl in Hr. rewrite (proj2 (Z.eqb_neq res 0)) by done.
     wp_go. eapply not_writable; [exact Hno|lia|]. unfold USERSTACK, USERSPACETOP in *. lia. }
simpl. rewrite Z.eqb_refl. wp_go. apply wp_KASSERT; [done|]. wp_go. apply wp_in_user.
rewrite user_set_user by done. set (i := argv_addr args + 4 * Z.of_nat (length args)).
unfold USERSPACETOP in Htop.
eapply wp_mono; [|apply copyout_exact; [apply Hu|unfold i; lia|]].
2: { rewrite length_bytes_of_word. unfold user_range, i, USERSPACETOP in *. lia. }
rewrite length_bytes_of_word, Hw. intros r u1 Hr.
destruct (all_writable (user s) i 4) eqn:Hwi.
2: { subst r. wp_go. eapply not_writable; [exact Hwi|unfold i; lia|]. unfold i, USERSTACK in *. lia. }
destruct Hr as [-> ->]. wp_go. destruct Hf as (p & l & _ & _ & _ & _ & _ & _ & Hn & _).
rewrite Hn. split; [done|]. exists (overwrite m i (bytes_of_word 0)).
rewrite set_user_set_user. split; [done|]. split.
{ apply bytes_overwrite; [done|apply bytes_of_word_ok|unfold i; lia|].
  rewrite length_bytes_of_word. unfold i, USERSPACETOP. lia. }
split; [|split].
2: { intros c Hlt. rewrite lookup_overwrite, decide_False by (unfold i; lia). by apply Hbelow. }
2: { intros c n. rewrite <- Hw. apply (all_writable_overwrite (with_mem _ _)).
     by rewrite length_bytes_of_word, Hw. }
destruct Hpush as [Hptr Hstr]. rewrite Z.add_0_r in Hptr. simpl in Hptr, Hstr.
apply (pushed_argv _ _ (string_base b USERSTACK)); [lia|unfold USERSPACETOP; lia|done|]. split.
- rewrite bytes_of_words_app. unfold i.
  replace (4 * Z.of_nat (length args))
    with (Z.of_nat (length (bytes_of_words (pointers (string_base b USERSTACK) args))))
    by (rewrite length_bytes_of_words, length_pointers; lia).
  by apply (read_range_grow _ _ _ (bytes_of_word 0)).
- rewrite read_range_outside; [done|]. right. rewrite length_bytes_of_word. unfold i. lia.
Qed.

End args.

End ExecArgs.
