(* ===== verification/ExecLoad.v ===== *)
(** * Loading an executable (kern/syscall/loadelf.c)

    [load_elf] fills a new address space with what the file says, and on every
    failing path returns an error code having touched nothing but that address
    space. *)

From Stdlib Require Import ZArith Lia.
From stdpp Require Import base numbers list gmap.
From S2P Require Import Prelude CopyInOut Uio SfsLayout Files Coremap PageTable Vm AddrSpace.
From S2P Require Import AddrSpaceTheorems Exec ExecArgs.

Module ExecLoad.
Import CopyInOut Uio SfsLayout Files Coremap PageTable Vm AddrSpace Exec ExecArgs.

(** ** What the loader relies on *)

(** A read into one block, which has room for it; a block of the kernel is
    memory the kernel can write. *)
Definition read_uio (m : machine) (u : uio) : Prop :=
  uio_rwflg u = UIO_READ ∧ 0 ≤ uio_offset u ∧
  ∃ base n, uio_iov u = [mkIovec base n] ∧ 0 ≤ base < 2 ^ 32 ∧ n < 2 ^ 32 ∧
    0 ≤ uio_resid u ≤ n ∧
    (is_sysspace u = true → all_writable m base (Z.to_nat n) = true).

(** [m'] is [m] with bytes stored in it. *)
Record stores (m m' : machine) : Prop := {
  st_fault : tm_badfaultfunc m' = false;
  st_readonly : CopyInOut.readonly m' = CopyInOut.readonly m;
  st_dom : ∀ a, is_Some (mem m' !! a) ↔ is_Some (mem m !! a);
  st_bytes : ∀ a x, mem m' !! a = Some x → mem m !! a = Some x ∨ is_byte x;
}.

(** The part of a file that a read asks for. *)
Definition asked (data : list Z) (u : uio) : list Z :=
  take (Z.to_nat (uio_resid u)) (drop (Z.to_nat (uio_offset u)) data).

(** A successful read of a file with contents [data]. *)
Definition transferred (data : list Z) (m : machine) (u : uio) (m' : machine) (u' : uio) : Prop :=
  uio_resid u' = uio_resid u - Z.of_nat (length (asked data u)) ∧
  mem m' = overwrite (mem m) (default 0 (iov_base <$> head (uio_iov u))) (asked data u).

(** What vnode.h promises of [VOP_READ], for every vnode and for regular files;
    [regular w v] is what the file [v] contains, if it is one. *)
Class ReadLaws (W : Type) `{VfsOps W} := {
  regular : W → positive → option (list Z);
  vop_read_law v u m w : world_ok w → 0 < vn_refcount w v → tm_badfaultfunc m = false →
    read_uio m u →
    wp (VOP_READ v u) (λ r mw, world_ok mw.2 ∧
      (∀ x, vn_refcount mw.2 x = vn_refcount w x) ∧ stores m mw.1 ∧ 0 ≤ r.1) (m, w);
  vop_read_file v u m w data : world_ok w → 0 < vn_refcount w v → tm_badfaultfunc m = false →
    read_uio m u → regular w v = Some data →
    wp (VOP_READ v u) (λ r mw, regular mw.2 v = Some data ∧
      (r.1 = 0 → transferred data m u mw.1 r.2)) (m, w);
}.

Lemma wp_and {S A} (m : M S A) (P Q : A → S → Prop) s :
  wp m P s → wp m Q s → wp m (λ a s', P a s' ∧ Q a s') s.
Proof. unfold wp. by destruct (m s) as [[]|]. Qed.

(** ** Memory that an address space shows *)

Lemma lookup_zeros l b : zeros l !! b = if decide (b ∈ l) then Some 0 else None.
Proof.
unfold zeros. induction l as [|a l IH]; [done|]. rewrite fmap_cons, list_to_map_cons.
destruct (decide (b = a)) as [->|Hne].
- rewrite lookup_insert_eq, decide_True; [done|set_solver].
- rewrite lookup_insert_ne, IH by done. destruct (decide (b ∈ l)).
  + rewrite decide_True by set_solver. done.
  + rewrite decide_False by set_solver. done.
Qed.

Lemma valid_noheap x b :
  heap_end x ≤ heap_start x →
  is_valid_address x b = existsb (λ r, in_region r b) (region_list x) || in_stack x b.
Proof.
intros Hh. unfold is_valid_address. destruct (existsb _ _); [done|].
assert (in_heap x b = false) as ->. { unfold in_heap. rewrite Z.geb_leb. lia. }
by destruct (in_stack x b).
Qed.

Lemma elem_of_bytes_from n a b : b ∈ bytes_from n a ↔ a ≤ b < a + Z.of_nat n.
Proof.
  revert a. induction n as [|n IH]; intros a; simpl; [rewrite elem_of_nil; lia|].
  rewrite elem_of_cons, IH. lia.
Qed.

Section visible.
Context (supplied : Z → bool).

(** The bytes a process can use: those [vm_fault] allows, if there is memory. *)
Definition visible (x : addrspace) (b : Z) : bool :=
is_valid_address x b && supplied (b / PAGE_SIZE) && (0 <=? b) && (b <? USERSPACETOP).

Lemma elem_of_region_bytes r b :
  0 ≤ as_vbase r →
  b ∈ region_bytes supplied r ↔
  in_region r b && supplied (b / PAGE_SIZE) && (0 <=? b) && (b <? USERSPACETOP) = true.
Proof.
intros Hr. unfold region_bytes, in_region. rewrite list_elem_of_filter, elem_of_bytes_from.
rewrite !andb_true_iff, Z.geb_leb, Z.leb_le, Z.leb_le, !Z.ltb_lt. intuition lia.
Qed.

Lemma elem_of_stack_bytes x b :
  stack_base x = USERSTACK - STACK_SIZE →
  b ∈ stack_bytes supplied x ↔
  in_stack x b && supplied (b / PAGE_SIZE) && (0 <=? b) && (b <? USERSPACETOP) = true.
Proof.
intros Hr. unfold stack_bytes, in_stack. rewrite list_elem_of_filter, elem_of_bytes_from.
rewrite !andb_true_iff, Z.geb_leb, Z.leb_le, Z.leb_le, !Z.ltb_lt, Hr.
unfold USERSTACK, STACK_SIZE, USERSPACETOP. intuition lia.
Qed.

(** An address space that is being loaded. *)
Record fresh_space (x : space) : Prop := {
fr_fault : tm_badfaultfunc (sp_user x) = false;
fr_readonly : CopyInOut.readonly (sp_user x) = ∅;
fr_stack : stack_base (sp_as x) = USERSTACK - STACK_SIZE;
fr_heap : heap_end (sp_as x) ≤ heap_start (sp_as x);
fr_regions : Forall (λ r, 0 ≤ as_vbase r) (region_list (sp_as x));
fr_bytes : bytes_ok (mem (sp_user x));
fr_dom : ∀ b, is_Some (mem (sp_user x) !! b) ↔ visible (sp_as x) b = true;
}.

(** The contents of its memory. *)
Definition shows (x : space) (f : Z → Z) : Prop :=
∀ b, mem (sp_user x) !! b = if visible (sp_as x) b then Some (f b) else None.

Lemma elem_of_regions x b :
  Forall (λ r, 0 ≤ as_vbase r) (region_list x) →
  b ∈ region_list x ≫= region_bytes supplied ↔
  existsb (λ r, in_region r b) (region_list x) && supplied (b / PAGE_SIZE) && (0 <=? b)
    && (b <? USERSPACETOP) = true.
Proof.
intros Hr. rewrite list_elem_of_bind, <- !andb_assoc, andb_true_iff, existsb_exists. split.
- intros (r & Hb & Hin). rewrite Forall_forall in Hr.
  apply elem_of_region_bytes in Hb; [|by apply Hr]. rewrite <- !andb_assoc, andb_true_iff in Hb.
  destruct Hb as [? ?]. split; [|done]. exists r. by rewrite <- list_elem_of_In.
- intros [(r & Hin%list_elem_of_In & Hb) Hrest]. exists r. split; [|done].
  rewrite Forall_forall in Hr. apply elem_of_region_bytes; [by apply Hr|].
  rewrite <- !andb_assoc, andb_true_iff. done.
Qed.

(** Showing the regions of [y] in the memory of [x], which has fewer of them. *)
Lemma show_regions x y u :
  (∀ b, mem u !! b = if visible x b then Some 0 else None) →
  heap_end x ≤ heap_start x → heap_end y ≤ heap_start y → stack_base y = stack_base x →
  Forall (λ r, 0 ≤ as_vbase r) (region_list y) →
  (∃ l, region_list y = region_list x ++ l) →
  ∀ b, mem (show_more u (region_list y ≫= region_bytes supplied)) !! b =
    if visible y b then Some 0 else None.
Proof.
intros Hu Hx Hy Hs Hr [l Hl] b. unfold show_more. simpl. rewrite lookup_union, lookup_zeros, Hu.
pose proof (elem_of_regions y b Hr) as Hin.
assert (visible y b = visible x b || bool_decide (b ∈ region_list y ≫= region_bytes supplied)) as ->.
{ rewrite (bool_decide_ext _ _ Hin). unfold visible at 1. unfold visible at 1.
  rewrite !valid_noheap by done. unfold in_stack. rewrite Hs, Hl, existsb_app.
  destruct (existsb _ (region_list x)), (existsb _ l), (supplied _), (0 <=? b), (b <? USERSPACETOP),
    (b <? USERSTACK), (b >=? stack_base x); done. }
destruct (visible x b) eqn:Hv; simpl.
- by destruct (decide _).
- by rewrite bool_decide_decide; destruct (decide _).
Qed.

Lemma shows_fresh x f :
  shows x f → (∀ b, is_byte (f b)) → bytes_ok (mem (sp_user x)) ∧
  ∀ b, is_Some (mem (sp_user x) !! b) ↔ visible (sp_as x) b = true.
Proof.
intros Hs Hf. split.
- intros b y. rewrite Hs. destruct (visible (sp_as x) b) eqn:Hv; [|done]. intros [= <-].
  split; [|done]. unfold visible in Hv. rewrite !andb_true_iff in Hv. lia.
- intros b. rewrite Hs. destruct (visible _ _); naive_solver.
Qed.

End visible.

(** ** What an executable file says *)

Definition phdr_at (data : list Z) (eh : Elf_Ehdr) (i : Z) : Elf_Phdr :=
  phdr_of (take (Z.to_nat SIZEOF_PHDR) (drop (Z.to_nat (u32 (e_phoff eh + i * e_phentsize eh))) data)).

(** The segments to load among the first [n]. *)
Definition segments (data : list Z) (eh : Elf_Ehdr) (n : Z) : list Elf_Phdr :=
  filter (λ ph, p_type ph = PT_LOAD) (phdr_at data eh <$> seqZ 0 n).

(** The part of a segment that comes from the file. *)
Definition seg_bytes (data : list Z) (ph : Elf_Phdr) : list Z :=
  take (Z.to_nat (Z.min (p_filesz ph) (p_memsz ph))) (drop (Z.to_nat (p_offset ph)) data).

Definition overlay (f : Z → Z) (a : Z) (xs : list Z) (b : Z) : Z :=
  default (f b) (znth xs (b - a)).

(** Memory as the file describes it: zero, but for what the segments hold; where
    they overlap the last one counts. *)
Definition image (data : list Z) (segs : list Elf_Phdr) : Z → Z :=
  foldl (λ f ph, overlay f (p_vaddr ph) (seg_bytes data ph)) (λ _, 0) segs.

(** The region of a segment; [as_prepare_load] has made it writeable. *)
Definition seg_region (write : Z) (ph : Elf_Phdr) : region :=
  mkRegion (Z.land (p_vaddr ph) PAGE_FRAME) (u32 (p_memsz ph + PAGE_SIZE - 1) / PAGE_SIZE)
    (Z.land (p_flags ph) PF_R) write (Z.land (p_flags ph) PF_X).

Lemma segments_next data eh i :
  0 ≤ i →
  segments data eh (i + 1) = segments data eh i ++
    (if decide (p_type (phdr_at data eh i) = PT_LOAD) then [phdr_at data eh i] else []).
Proof.
  intros Hi. unfold segments. rewrite seqZ_app, fmap_app, filter_app by lia. f_equal.
Qed.

Record phdr_ok (ph : Elf_Phdr) : Prop := {
  ph_offset : 0 ≤ p_offset ph < 2 ^ 32;
  ph_vaddr : 0 ≤ p_vaddr ph < 2 ^ 32;
  ph_filesz : 0 ≤ p_filesz ph < 2 ^ 32;
  ph_memsz : 0 ≤ p_memsz ph < 2 ^ 32;
}.

Lemma be32_bytes bs i : Forall is_byte bs → 0 ≤ be32 bs i < 2 ^ 32.
Proof.
  intros Hb. assert (∀ j, 0 ≤ default 0 (znth bs j) < 256) as Hd.
  { intros j. destruct (znth bs j) as [x|] eqn:Hx; simpl; [|lia].
    apply znth_elem in Hx. rewrite Forall_forall in Hb. by apply Hb. }
  unfold be32, be16. pose proof (Hd i). pose proof (Hd (i + 1)). pose proof (Hd (i + 2)).
  pose proof (Hd (i + 2 + 1)). lia.
Qed.

Lemma phdr_of_ok bs : Forall is_byte bs → phdr_ok (phdr_of bs).
Proof. intros Hb. constructor; simpl; by apply be32_bytes. Qed.

(** ** Running the loader *)

Section load.
Context {W : Type} `{!VfsOps W} `{!ReadLaws W} (supplied : Z → bool).
Implicit Types (s : kernel (W := W)).

(** [s] with the address space [a] changed to [x]. *)
Definition placed (a : positive) (x : space) l w s : kernel (W := W) :=
now (heap s) l (execthrottle s) (<[a := x]> (spaces s)) (p_addrspace s) w s.

Definition world_same s (w : W) : Prop :=
world_ok w ∧ ∀ y, vn_refcount w y = vn_refcount (fs s) y.

(** What is read of a file [v] stays the same. *)
Definition keeps_file (w w' : W) (v : positive) : Prop :=
∀ data, regular w v = Some data → regular w' v = Some data.

Lemma user_placed a x l w s : p_addrspace s = Some a → user (placed a x l w s) = sp_user x.
Proof. intros Ha. unfold user. simpl. rewrite Ha. simpl. by rewrite lookup_insert_eq. Qed.

Lemma set_user_placed a x l w s u :
  p_addrspace s = Some a → set_user u (placed a x l w s) = placed a (mkSpace (sp_as x) u) l w s.
Proof.
intros Ha. unfold set_user. simpl. rewrite Ha. unfold placed, now, set_spaces. simpl.
by rewrite alter_insert_eq.
Qed.

Lemma vop_read_all v u m w :
  world_ok w → 0 < vn_refcount w v → tm_badfaultfunc m = false → read_uio m u →
  wp (VOP_READ v u) (λ r mw, (world_ok mw.2 ∧
      (∀ x, vn_refcount mw.2 x = vn_refcount w x) ∧ stores m mw.1 ∧ 0 ≤ r.1) ∧
    keeps_file w mw.2 v ∧
    (∀ data, regular w v = Some data → r.1 = 0 → transferred data m u mw.1 r.2)) (m, w).
Proof.
intros Hw Hv Hm Hu. apply wp_and; [by apply vop_read_law|].
destruct (regular w v) as [data|] eqn:Hd.
- eapply wp_mono; [|by eapply vop_read_file]. intros r mw [Hk Ht]. split.
  + intros d Hd'. rewrite Hd in Hd'. by injection Hd' as <-.
  + intros d [= <-]. done.
- eapply wp_mono; [|by eapply vop_read_law]. intros r mw _. split; [|done].
  intros d Hd'. congruence.
Qed.

Lemma kernel_buffer_writable n b :
  writable (kernel_buffer n) b = bool_decide (KBUF ≤ b < KBUF + n).
Proof.
unfold writable, kernel_buffer. simpl. apply bool_decide_ext. rewrite lookup_zeros.
pose proof (elem_of_bytes_from (Z.to_nat n) KBUF b) as Hb. destruct (decide _) as [Hin|Hout].
- apply Hb in Hin as Hr. split; [intros _; lia|]. intros _. split; [done|]. apply not_elem_of_empty.
- split; [by intros [[] _]|]. intros Hin. destruct Hout. apply Hb. lia.
Qed.

Lemma read_kernel_correct v n pos w s (Q : Z * Z * list Z → kernel → Prop) :
  fs s = w → world_ok w → 0 < vn_refcount w v → 0 ≤ n < 2 ^ 31 → 0 ≤ pos →
  (∀ res resid bs w', world_ok w' → (∀ y, vn_refcount w' y = vn_refcount w y) →
     0 ≤ res → Forall is_byte bs → keeps_file w w' v →
     (∀ data, regular w v = Some data → res = 0 → resid = 0 →
        bs = take (Z.to_nat n) (drop (Z.to_nat pos) data) ∧ length bs = Z.to_nat n) →
     Q (res, resid, bs) (set_io (ftables s) (openfiles s) w' s)) →
  wp (read_kernel v n pos) Q s.
Proof.
intros Hfs Hw Hv Hn Hpos HQ.
assert (read_uio (kernel_buffer n) (uio_kinit KBUF n pos UIO_READ)) as Hu.
{ split; [done|]. split; [done|]. exists KBUF, n. unfold KBUF, USERSPACETOP.
  split_and!; try done; try (simpl; lia). intros _. apply all_writable_spec. intros b Hb.
  rewrite kernel_buffer_writable. apply bool_decide_eq_true. unfold KBUF, USERSPACETOP. lia. }
pose proof (vop_read_all v _ (kernel_buffer n) w Hw Hv eq_refl Hu) as Hr. unfold wp, read_kernel in *.
rewrite Hfs. destruct (VOP_READ _ _ _) as [[[res u'] [m' w']]|]; [|done]. simpl in *.
destruct Hr as [(Hw' & Href & Hst & Hres) [Hk Ht]]. apply HQ; try done.
- destruct (read_range (mem m') KBUF (Z.to_nat n)) as [bs|] eqn:Hb; simpl; [|constructor].
  apply read_range_Some in Hb as [Hl Hb]. apply Forall_lookup_2. intros i y Hy.
  rewrite <- Hb in Hy by (apply lookup_lt_Some in Hy; lia).
  destruct (st_bytes _ _ Hst _ _ Hy) as [Hz|]; [|done]. simpl in Hz. rewrite lookup_zeros in Hz.
  destruct (decide _); [|done]. injection Hz as <-. done.
- intros data Hd H0 Hz. destruct (Ht data Hd H0) as [Hlen Hmem]. simpl in *.
  unfold asked in *. simpl in *.
  set (xs := take (Z.to_nat n) (drop (Z.to_nat pos) data)) in *. clearbody xs.
  assert (Z.to_nat n = length xs) as -> by lia. by rewrite Hmem, read_range_overwrite.
Qed.

Section program.
Context (s : kernel (W := W)) (a v : positive).
Context (Hcur : p_addrspace s = Some a) (Hfs : world_ok (fs s)) (Hopen : 0 < vn_refcount (fs s) v).

(** A state of the loader, with the address space [x]. *)
Definition loading (x : space) (s' : kernel) : Prop :=
∃ l w, s' = placed a x l w s ∧ world_same s w ∧ keeps_file (fs s) w v.

Lemma read_phdr_correct eh i x s' (Q : result Elf_Phdr → kernel → Prop) :
  loading x s' →
  (∀ e s'', loading x s'' → 0 < e → Q (Err e) s'') →
  (∀ ph s'', loading x s'' → phdr_ok ph →
     (∀ data, regular (fs s) v = Some data → ph = phdr_at data eh i) → Q (Ok ph) s'') →
  wp (read_phdr v eh i) Q s'.
Proof.
intros (l & w & -> & [Hw Href] & Hk) Herr Hok. unfold read_phdr. wp_go.
eapply (read_kernel_correct _ _ _ w); [done|done|by rewrite Href|done|apply Z.mod_pos_bound; lia|].
intros res resid bs w' Hw' Href' Hres Hbytes Hk' Hdata.
assert (loading x (placed a x l w' s)) as Hl.
{ exists l, w'. split; [done|]. split; [split; [done|]; intros; by rewrite Href'|].
  intros d Hd. by apply Hk', Hk. }
change (set_io _ _ w' _) with (placed a x l w' s).
destruct (Z.eqb_spec res 0) as [->|Hne]; simpl; [|wp_go; apply Herr; [done|lia]].
destruct (Z.eqb_spec resid 0) as [->|Hne]; simpl; [|wp_go; by apply Herr].
wp_go. apply Hok; [done|by apply phdr_of_ok|]. intros data Hd.
destruct (Hdata data (Hk data Hd) eq_refl eq_refl) as [-> _]. done.
Qed.

(** The two loops over the segments: [body] keeps [P], which speaks of the
    segments seen so far. *)
Definition loop_inv (eh : Elf_Ehdr) (P : list Elf_Phdr → space → Prop) (i : Z) (s' : kernel) : Prop :=
∃ segs x, loading x s' ∧ P segs x ∧
  ∀ data, regular (fs s) v = Some data → segs = segments data eh i.

Lemma segments_loop eh (P : list Elf_Phdr → space → Prop) body n s' :
  (∀ segs x ph s1, loading x s1 → P segs x → phdr_ok ph →
     wp (body ph) (λ res s2, 0 ≤ res ∧ ∃ x', loading x' s2 ∧ (res = 0 → P (segs ++ [ph]) x')) s1) →
  (∃ x, loading x s' ∧ P [] x) →
  wp (for_return n 0 (each_segment v eh body)) (λ r s2,
    match r with
    | Some e => 0 < e ∧ ∃ x, loading x s2
    | None => loop_inv eh P (Z.of_nat n) s2
    end) s'.
Proof.
intros Hbody (x & Hx & HP). apply (wp_for_return (loop_inv eh P)).
- exists [], x. split_and!; done.
- clear x s' Hx HP. intros i s1 Hi (segs & x & Hl & HP & Hs). unfold each_segment. wp_go.
  eapply read_phdr_correct; [exact Hl| |].
  { intros e s2 Hl2 He. wp_go. split; [done|]. by exists x. }
  intros ph s2 Hl2 Hph Hdata.
  assert (∀ data, regular (fs s) v = Some data →
    segs ++ (if decide (p_type ph = PT_LOAD) then [ph] else []) = segments data eh (i + 1)) as Hnext.
  { intros data Hd. rewrite segments_next by lia. by rewrite <- (Hdata data Hd), (Hs data Hd). }
  destruct (decide (p_type ph = PT_LOAD)) as [Ht|Ht].
  + rewrite Ht. simpl. wp_go. eapply wp_mono; [|by apply (Hbody segs x)].
    intros res s3 [Hres (x' & Hl3 & HP3)]. wp_go.
    destruct (Z.eqb_spec res 0) as [->|Hne]; simpl.
    * exists (segs ++ [ph]), x'. split_and!; [done|by apply HP3|done].
    * split; [lia|]. by exists x'.
  + rewrite app_nil_r in Hnext. destruct (_ || _).
    * wp_go. by exists segs, x.
    * rewrite (proj2 (Z.eqb_neq (p_type ph) PT_LOAD)) by done. wp_go. split; [done|]. by exists x.
- intros s1 Hinv. done.
Qed.

(** ** The regions *)

Definition defined (segs : list Elf_Phdr) (x : space) : Prop :=
fresh_space supplied x ∧ shows supplied x (λ _, 0) ∧
region_list (sp_as x) = (λ ph, seg_region (Z.land (p_flags ph) PF_W) ph) <$> segs.

Lemma space_get_loading x s' (Q : space → kernel → Prop) :
  loading x s' → Q x s' → wp (space_get a) Q s'.
Proof.
intros (l & w & -> & _) HQ. unfold space_get. wp_go. simpl. rewrite lookup_insert_eq.
by eapply wp_deref.
Qed.

Lemma space_set_loading x x' s' (Q : unit → kernel → Prop) :
  loading x s' → (∀ s'', loading x' s'' → Q tt s'') → wp (space_set a x') Q s'.
Proof.
intros (l & w & -> & Hw & Hk) HQ. unfold space_set. wp_go. apply HQ. exists l, w.
split; [|done]. unfold placed, now, set_spaces. simpl. by rewrite insert_insert_eq.
Qed.

Lemma answer_loading x s' (Q : bool → kernel → Prop) :
  loading x s' → (∀ b s'', loading x s'' → Q b s'') → wp answer Q s'.
Proof.
intros (l & w & -> & Hw & Hk) HQ. unfold answer. wp_go. apply HQ. by exists (tl l), w.
Qed.

Lemma define_region_space x ph ok y :
  heap_end x ≤ heap_start x →
  as_define_region ok x (p_vaddr ph) (p_memsz ph) (Z.land (p_flags ph) PF_R)
    (Z.land (p_flags ph) PF_W) (Z.land (p_flags ph) PF_X) = Ok y →
  heap_end y ≤ heap_start y ∧ stack_base y = stack_base x ∧
  region_list y = region_list x ++ [seg_region (Z.land (p_flags ph) PF_W) ph].
Proof.
intros Hh. unfold as_define_region. destruct ok; [|done]. simpl.
by destruct (_ >? _); intros [= <-]; simpl; split_and!.
Qed.

Lemma define_body segs x ph s1 :
  loading x s1 → defined segs x → phdr_ok ph →
  wp (define_region supplied a (p_vaddr ph) (p_memsz ph) (Z.land (p_flags ph) PF_R)
        (Z.land (p_flags ph) PF_W) (Z.land (p_flags ph) PF_X))
    (λ res s2, 0 ≤ res ∧ ∃ x', loading x' s2 ∧ (res = 0 → defined (segs ++ [ph]) x')) s1.
Proof.
intros Hl Hd Hph. unfold define_region. wp_go. eapply answer_loading; [exact Hl|].
intros ok s2 Hl2. wp_go. eapply space_get_loading; [exact Hl2|].
destruct (as_define_region _ _ _ _ _ _ _) as [y|e] eqn:Hy.
2: { wp_go. unfold as_define_region in Hy. destruct ok; simpl in Hy.
     - by destruct (_ >? _).
     - injection Hy as <-. split; [done|]. by exists x. }
destruct (define_region_space (sp_as x) ph ok y (fr_heap _ _ (proj1 Hd)) Hy)
  as (Hheap & Hstack & Hregs). wp_go.
eapply space_set_loading; [exact Hl2|]. intros s3 Hl3. wp_go. split; [done|].
eexists. split; [exact Hl3|]. intros _. destruct Hd as ([] & Hshow & Hsegs).
assert (Forall (λ r, 0 ≤ as_vbase r) (region_list y)) as Hreg.
{ rewrite Hregs. apply Forall_app. split; [done|]. constructor; [|done]. simpl.
  apply Z.land_nonneg. left. apply Hph. }
set (x' := mkSpace y _).
assert (shows supplied x' (λ _, 0)) as Hshow'.
{ intros b. apply (show_regions supplied (sp_as x) y); try done. by eexists. }
destruct (shows_fresh supplied x' _ Hshow' ltac:(done)) as [Hb Hdom].
split_and!; [|done|].
- constructor; try done. simpl. by rewrite Hstack.
- simpl. by rewrite Hregs, Hsegs, fmap_app.
Qed.

(** ** The contents *)

(** The address space [y] stays as it is, its memory is filled. *)
Definition filling (y : addrspace) (segs : list Elf_Phdr) (x : space) : Prop :=
sp_as x = y ∧ fresh_space supplied x ∧
∀ data, regular (fs s) v = Some data → shows supplied x (image data segs).

(** Storing bytes in a space that is being loaded. *)
Lemma fresh_stores x m' :
  fresh_space supplied x → stores (sp_user x) m' → fresh_space supplied (mkSpace (sp_as x) m').
Proof.
intros [] []. constructor; simpl; try done; [congruence| |].
- intros b y Hy. destruct (st_bytes0 b y Hy) as [Ho|Hbyte]; [by apply fr_bytes0|].
  split; [|done]. destruct (proj1 (st_dom0 b)) as [z Hz]; [by eexists|]. by apply (fr_bytes0 b z).
- intros b. by rewrite st_dom0, fr_dom0.
Qed.

Lemma shows_overwrite x m' f base xs :
  fresh_space supplied (mkSpace (sp_as x) m') → shows supplied x f →
  mem m' = overwrite (mem (sp_user x)) base xs →
  shows supplied (mkSpace (sp_as x) m') (overlay f base xs).
Proof.
intros Hfr Hs Hm b. simpl. pose proof (fr_dom _ _ Hfr b) as Hd. simpl in Hd.
rewrite Hm in Hd |- *. rewrite lookup_overwrite in Hd |- *. unfold overlay.
destruct (decide _) as [Hin|Hout].
- destruct (znth_is_Some xs (b - base)) as [y Hy]; [lia|]. rewrite Hy. simpl.
  rewrite znth_lookup in Hy by lia. rewrite Hy in Hd |- *.
  rewrite (proj1 Hd); [done|by eexists].
- rewrite Hs. destruct (znth xs (b - base)) as [y|] eqn:Hy; [|done].
  apply znth_Some_range in Hy. lia.
Qed.

Lemma read_user_loading x s1 u (Q : Z * uio → kernel → Prop) :
  loading x s1 → tm_badfaultfunc (sp_user x) = false → read_uio (sp_user x) u →
  (∀ res u' m' s2, loading (mkSpace (sp_as x) m') s2 → stores (sp_user x) m' → 0 ≤ res →
     (∀ data, regular (fs s) v = Some data → res = 0 → transferred data (sp_user x) u m' u') →
     Q (res, u') s2) →
  wp (read_user v u) Q s1.
Proof.
intros (l & w & -> & [Hw Href] & Hk) Hf Hu HQ.
pose proof (vop_read_all v u (sp_user x) w Hw ltac:(by rewrite Href) Hf Hu) as Hr.
unfold wp, read_user in *. rewrite user_placed by done. change (fs (placed a x l w s)) with w.
destruct (VOP_READ v u _) as [[[res u'] [m' w']]|]; [|done]. simpl in *.
destruct Hr as [(Hw' & Href' & Hst & Hres) [Hk' Ht]]. rewrite set_user_placed by done.
apply (HQ res u' m'); try done.
- exists l, w'. split; [done|]. split; [split; [done|]; intros; by rewrite Href'|].
  intros d Hd. by apply Hk', Hk.
- intros data Hd H0. apply Ht; [|done]. by apply Hk.
Qed.

Lemma load_body y segs x ph s1 :
  loading x s1 → filling y segs x → phdr_ok ph →
  wp (load_segment a v (p_offset ph) (p_vaddr ph) (p_memsz ph) (p_filesz ph)
        (Z.land (p_flags ph) PF_X))
    (λ res s2, 0 ≤ res ∧ ∃ x', loading x' s2 ∧ (res = 0 → filling y (segs ++ [ph]) x')) s1.
Proof.
intros Hl (Hy & Hfr & Hshow) Hph. unfold load_segment.
assert ((if p_filesz ph >? p_memsz ph then p_memsz ph else p_filesz ph)
  = Z.min (p_filesz ph) (p_memsz ph)) as ->.
{ rewrite Z.gtb_ltb. destruct (Z.ltb_spec (p_memsz ph) (p_filesz ph)); lia. }
set (u := mkUio _ _ _ _ _ _). wp_go. eapply (read_user_loading x); [done|apply Hfr| |].
{ split; [done|]. destruct Hph. split; [simpl; lia|]. exists (p_vaddr ph), (p_memsz ph).
  split; [done|]. simpl. split_and!; try lia. unfold is_sysspace, u. simpl. by destruct (negb _). }
intros res u' m' s2 Hl2 Hst Hres Ht.
destruct (Z.eqb_spec res 0) as [->|Hne]; simpl.
2: { wp_go. split; [done|]. by exists (mkSpace (sp_as x) m'). }
destruct (Z.eqb_spec (uio_resid u') 0) as [Hz|Hne]; simpl; wp_go; (split; [done|]);
  exists (mkSpace (sp_as x) m'); (split; [done|]); [|done].
intros _. pose proof (fresh_stores x m' Hfr Hst) as Hfr'. split_and!; [done..|].
intros data Hd. destruct (Ht data Hd eq_refl) as [_ Hm]. unfold image. rewrite foldl_app. simpl.
by apply shows_overwrite; [|apply Hshow|].
Qed.

(** Only the permissions of the regions change. *)
Lemma fresh_regions x g u :
  (∀ r, as_vbase (g r) = as_vbase r ∧ as_npages (g r) = as_npages r) →
  (∀ b, visible supplied (with_regions x (g <$> region_list x)) b = visible supplied x b) ∧
  (fresh_space supplied (mkSpace x u) →
   fresh_space supplied (mkSpace (with_regions x (g <$> region_list x)) u)).
Proof.
intros Hg.
assert (∀ b, visible supplied (with_regions x (g <$> region_list x)) b = visible supplied x b) as Hv.
{ intros b. unfold visible, is_valid_address, in_heap, in_stack. simpl. do 4 f_equal.
  assert (existsb (λ r, in_region r b) (g <$> region_list x) = existsb (λ r, in_region r b) (region_list x))
    as ->; [|done].
  induction (region_list x) as [|r l IH]; [done|]. rewrite fmap_cons. cbn [existsb].
  f_equal; [|exact IH]. unfold in_region. by destruct (Hg r) as [-> ->]. }
split; [done|]. intros []. constructor; try done.
- simpl in *. apply Forall_fmap. eapply Forall_impl; [done|]. intros r Hr. simpl.
  by destruct (Hg r) as [-> _].
- intros b. simpl in *. by rewrite Hv.
Qed.

(** After loading, every region is writeable. *)
Lemma load_regions x :
  as_complete_load (as_prepare_load x) = with_regions x ((λ r, set_write r 1) <$> region_list x).
Proof.
unfold as_complete_load, as_prepare_load, with_regions. simpl. f_equal.
rewrite <- list_fmap_compose. apply list_fmap_ext. intros i r _. simpl. by destruct (r_exec r =? 0).
Qed.

Lemma protect_loaded x u :
  CopyInOut.readonly u = ∅ → protect (as_complete_load (as_prepare_load x)) u = u.
Proof.
intros Hr. destruct u as [m ro f]. simpl in Hr. subst ro. unfold protect. simpl. f_equal.
apply set_eq. intros b. rewrite elem_of_filter. split; [|set_solver]. intros [Hu _]. exfalso.
unfold unwriteable in Hu. destruct (get_region_permissions _ b) as [[[rd wr] ex]|] eqn:Hp; [|done].
apply AddrSpaceTheorems.loaded_regions_writeable in Hp. subst wr. done.
Qed.

(** ** [load_elf] *)

(** What a loaded file has in memory: its regions, its bytes, zeros elsewhere. *)
Record loaded (data : list Z) (entry : Z) (x : space) : Prop := {
ld_header : ehdr_accepted (ehdr_of (take (Z.to_nat SIZEOF_EHDR) data)) = true;
ld_entry : entry = e_entry (ehdr_of (take (Z.to_nat SIZEOF_EHDR) data));
ld_regions : let eh := ehdr_of (take (Z.to_nat SIZEOF_EHDR) data) in
  region_list (sp_as x) = seg_region 1 <$> segments data eh (e_phnum eh);
ld_memory : let eh := ehdr_of (take (Z.to_nat SIZEOF_EHDR) data) in
  shows supplied x (image data (segments data eh (e_phnum eh)));
}.

Definition load_post (r : result Z) (s' : kernel) : Prop :=
∃ x, loading x s' ∧
match r with
| Ok entry => fresh_space supplied x ∧
    ∀ data, regular (fs s) v = Some data → loaded data entry x
| Err e => 0 < e
end.

Lemma be16_bytes bs i : Forall is_byte bs → 0 ≤ be16 bs i.
Proof.
intros Hb. unfold be16. rewrite Forall_forall in Hb.
assert (∀ j, 0 ≤ default 0 (znth bs j)) as Hd.
{ intros j. destruct (znth bs j) as [y|] eqn:Hy; simpl; [|lia].
  apply znth_elem in Hy. by apply Hb. }
pose proof (Hd i). pose proof (Hd (i + 1)). lia.
Qed.

(** The second half: the regions are there. *)
Lemma load_contents eh x segs s1 :
  0 ≤ e_phnum eh → loading x s1 → defined segs x →
  (∀ data, regular (fs s) v = Some data →
     eh = ehdr_of (take (Z.to_nat SIZEOF_EHDR) data) ∧ ehdr_accepted eh = true ∧
     segs = segments data eh (e_phnum eh)) →
  wp (result ← prepare_load a;
      if negb (result =? 0) then mret (Err result) else
      r ← for_return (Z.to_nat (e_phnum eh)) 0 (each_segment v eh (λ ph,
        load_segment a v (p_offset ph) (p_vaddr ph) (p_memsz ph) (p_filesz ph)
          (Z.land (p_flags ph) PF_X)));
      match r with
      | Some e => mret (Err e)
      | None =>
          result ← complete_load a;
          if negb (result =? 0) then mret (Err result) else mret (Ok (e_entry eh))
      end) load_post s1.
Proof.
intros Hn Hl (Hfr & Hshow & Hregs) Hdata. unfold prepare_load. wp_go.
eapply space_get_loading; [exact Hl|]. wp_go. eapply space_set_loading; [exact Hl|].
clear s1 Hl. intros s1 Hl. wp_go. simpl. wp_go.
set (y := as_prepare_load (sp_as x)) in *.
destruct (fresh_regions (sp_as x) (λ r, set_write r 1) (sp_user x)) as [Hvis Hfr1]; [done|].
eapply wp_mono; [|eapply (segments_loop eh (filling y)); [apply load_body|]].
2: { exists (mkSpace y (sp_user x)). split; [done|]. split; [done|].
     split; [apply Hfr1; by destruct x|]. intros data _ b. simpl. unfold y, as_prepare_load.
     rewrite Hvis. apply Hshow. }
intros [e|] s2; [intros [He (x2 & Hl2)]; wp_go; by exists x2|].
intros (segs2 & x2 & Hl2 & (Hy2 & Hfr2 & Hsh2) & Hs2). rewrite Z2Nat.id in Hs2 by done.
unfold complete_load. wp_go. eapply space_get_loading; [exact Hl2|]. wp_go.
rewrite Hy2. unfold y. rewrite protect_loaded by apply Hfr2.
eapply space_set_loading; [exact Hl2|]. intros s3 Hl3. wp_go. simpl. wp_go.
eexists. split; [exact Hl3|]. rewrite load_regions.
assert (fresh_space supplied (mkSpace (with_regions (sp_as x) ((λ r, set_write r 1) <$> region_list (sp_as x)))
  (sp_user x2))) as Hfr3.
{ destruct x2 as [z u2]. simpl in *. subst z. exact Hfr2. }
split; [done|]. intros data Hd. destruct (Hdata data Hd) as (-> & Hacc & ->).
constructor; try done; simpl.
- rewrite Hregs, <- list_fmap_compose. done.
- intros b. simpl. specialize (Hsh2 data Hd b). rewrite Hy2, (Hs2 data Hd) in Hsh2. exact Hsh2.
Qed.

Lemma load_elf_correct x :
  spaces s !! a = Some x → defined [] x → wp (load_elf supplied v) load_post s.
Proof.
intros Hx Hdef.
assert (loading x s) as Hl.
{ exists (answers s), (fs s). split; [|split; [by split|by intros ?]].
  unfold placed, now. rewrite insert_id by done. by destruct s. }
unfold load_elf. wp_go. rewrite Hcur. eapply wp_deref; [done|]. wp_go.
eapply (read_kernel_correct _ _ _ (fs s)); [done..|].
intros res resid bs w' Hw' Href' Hres Hbytes Hk' Hdata.
assert (loading x (set_io (ftables s) (openfiles s) w' s)) as Hl'.
{ exists (answers s), w'. split; [|split; [by split|exact Hk']].
  unfold placed, now, set_io. by rewrite insert_id. }
destruct (Z.eqb_spec res 0) as [->|Hne]; simpl; [|wp_go; exists x; split; [done|lia]].
destruct (Z.eqb_spec resid 0) as [->|Hne]; simpl; [|wp_go; by exists x].
destruct (ehdr_accepted (ehdr_of bs)) eqn:Hacc; simpl; [|wp_go; by exists x].
wp_go. eapply wp_mono; [|eapply (segments_loop (ehdr_of bs) defined); [apply define_body|by exists x]].
intros [e|] s2; [intros [He (x2 & Hl2)]; wp_go; by exists x2|].
assert (0 ≤ e_phnum (ehdr_of bs)) as Hn by (by apply be16_bytes).
intros (segs & x2 & Hl2 & Hd2 & Hs2). rewrite Z2Nat.id in Hs2 by done.
apply (load_contents (ehdr_of bs) x2 segs); try done. intros data Hd.
destruct (Hdata data Hd eq_refl eq_refl) as [-> _]. split_and!; [done..|]. by apply Hs2.
Qed.

End program.

End load.

End ExecLoad.
