(* ===== verification/ExecExamples.v ===== *)
(** * A program to run

    A concrete VFS with one executable file, and a process that holds the
    arguments of an [execv] in its memory; the examples for Exec.v. *)

From Stdlib Require Import ZArith Lia.
From stdpp Require Import base numbers list gmap.
From S2P Require Import Prelude CopyInOut Uio SfsLayout Files Coremap PageTable Vm AddrSpace.
From S2P Require Import Exec ExecArgs ExecLoad.

Module ExecExamples.
Import CopyInOut Uio SfsLayout Files Coremap PageTable Vm AddrSpace Exec ExecArgs ExecLoad.

Definition word (x : Z) : list Z := bytes_of_word x.
Definition half (x : Z) : list Z := [x / 256; x mod 256].

(** One segment of eight bytes at 0x400000, four of them in the file. *)
Definition program : list Z :=
  [127; 69; 76; 70; 1; 2; 1] ++ replicate 9 0 ++
  half 2 ++ half 8 ++ word 1 ++ word 4194304 ++ word 52 ++ word 0 ++ word 0 ++
  half 52 ++ half 32 ++ half 1 ++ half 0 ++ half 0 ++ half 0 ++
  word PT_LOAD ++ word 84 ++ word 4194304 ++ word 4194304 ++ word 4 ++ word 8 ++ word 5
  ++ word 4096 ++
  [36; 2; 0; 3].

Definition count (w : gmap positive Z) (v : positive) : Z := default 0 (w !! v).

(** Reading stores what the file has, if all of the bytes can be written. *)
Definition read_program (u : uio) : M (machine * gmap positive Z) (Z * uio) :=
  let xs := asked program u in
  let base := default 0 (iov_base <$> head (uio_iov u)) in
  ok ← gets (λ mw, all_writable mw.1 base (length xs));
  if (ok : bool) then
    modify (λ mw, (with_mem mw.1 (overwrite (mem mw.1) base xs), mw.2)) ;;
    mret (0, mkUio (uio_iov u) (uio_offset u + Z.of_nat (length xs))
               (uio_resid u - Z.of_nat (length xs)) (uio_segflg u) (uio_rwflg u) (uio_space u))
  else mret (EFAULT, u).

(** The file is vnode 1, the console vnode 2. *)
#[export] Instance exec_ops : VfsOps (gmap positive Z) := {|
  vfs_open path flags mode :=
    if valid_accmode (Z.land flags O_ACCMODE) then
      if decide (path = CON) then modify (λ w, <[2%positive := count w 2 + 1]> w) ;; mret (Ok 2%positive)
      else if decide (path = [112]) then
        modify (λ w, <[1%positive := count w 1 + 1]> w) ;; mret (Ok 1%positive)
      else mret (Err ENOENT)
    else mret (Err EINVAL);
  vfs_close v := modify (λ w, <[v := count w v - 1]> w);
  VOP_ISSEEKABLE v := bool_decide (v = 1%positive);
  VOP_READ v u := if decide (v = 1%positive) then read_program u else mret (0, u);
  VOP_WRITE v u := mret (EINVAL, u);
  VOP_STAT v := mret (Ok (Z.of_nat (length program)));
  vn_refcount := count;
  world_ok _ := True;
|}.

Lemma count_add w v n x :
  count (<[v := n]> w) x = if decide (x = v) then n else count w x.
Proof.
  unfold count. case_decide as Hx; [by rewrite Hx, lookup_insert_eq|by rewrite lookup_insert_ne].
Qed.

Lemma length_asked u : 0 ≤ uio_resid u → Z.of_nat (length (asked program u)) ≤ uio_resid u.
Proof. intros Hu. unfold asked. rewrite length_take. lia. Qed.

Lemma program_bytes : Forall is_byte program.
Proof. unfold is_byte. apply (bool_decide_unpack _). vm_compute. exact I. Qed.

Lemma read_program_correct u m w :
  tm_badfaultfunc m = false → 0 ≤ uio_resid u →
  wp (read_program u) (λ r mw, mw.2 = w ∧ stores m mw.1 ∧ 0 ≤ r.1 ∧
    (r.1 = 0 → 0 ≤ uio_resid r.2 ≤ uio_resid u ∧ transferred program m u mw.1 r.2)) (m, w).
Proof.
  intros Hm Hu. unfold read_program. set (base := default 0 _). wp_go. simpl fst.
  destruct (all_writable m base (length (asked program u))) eqn:Hw; wp_go; simpl.
  - pose proof (length_asked u Hu). split; [done|]. split; [|split; [done|]].
    2: { intros _. split; [lia|done]. }
    constructor; simpl; try done.
    + intros a. pose proof (writable_overwrite m base (asked program u) a Hw) as Hwa.
      rewrite lookup_overwrite. case_decide as Hin; [|done].
      apply all_writable_spec with (b := a) in Hw; [|lia].
      unfold writable in Hw. apply bool_decide_eq_true in Hw as [Hsome _].
      split; [done|]. intros _. apply lookup_lt_is_Some_2. lia.
    + intros a x. rewrite lookup_overwrite. case_decide; [|by left]. intros Hx. right.
      eapply (Forall_lookup_1 is_byte (asked program u)); [|exact Hx].
      apply Forall_take, Forall_drop, program_bytes.
  - split; [done|]. split; [|done]. constructor; try done. by left.
Qed.

#[export] Instance exec_laws : VfsLaws (gmap positive Z).
Proof.
  split.
  - intros path flags mode w _. cbn [vfs_open exec_ops].
    destruct (valid_accmode _) eqn:Ha; [|wp_go; split; [done|]; by split].
    assert (∀ v, wp (modify (λ w, <[v := count w v + 1]> w) ;; mret (Ok v)) (λ r w', True ∧
      match r with
      | Ok v => true = true ∧ ∀ x, count w' x = add1 v (count w) x
      | Err e => 0 < e ∧ ∀ x, count w' x = count w x
      end) w) as Hopen.
    { intros v. wp_go. split_and!; try done. intros x. rewrite count_add. unfold add1.
      case_decide; subst; lia. }
    case_decide; [apply Hopen|]. case_decide; [apply Hopen|]. wp_go. split; [done|]. by split.
  - intros v w _ _. cbn [vfs_close exec_ops]. wp_go. split; [done|]. intros x.
    cbn [vn_refcount exec_ops]. unfold add1. rewrite count_add. case_decide; subst; lia.
  - intros [] v u m w _ _ Hm (_ & _ & b & n & _ & Hu); cbn [VOP_READ VOP_WRITE exec_ops].
    + case_decide; [|wp_go; split_and!; try done; simpl; lia]. eapply wp_mono; [|apply read_program_correct; [done|lia]].
      intros [res u'] [m' w'] (Hw & Hst & Hres & Hr). simpl in *. subst w'.
      split_and!; try done; [apply Hst|]. intros H0. by apply Hr.
    + wp_go. by split_and!.
  - intros v w _ _. cbn [VOP_STAT exec_ops]. wp_go. by split_and!.
Qed.

#[export, refine] Instance exec_reads : ReadLaws (gmap positive Z) := {|
  regular w v := if decide (v = 1%positive) then Some program else None;
|}.
Proof.
  - intros v u m w _ _ Hm (_ & _ & b & n & _ & _ & _ & Hu & _). cbn [VOP_READ exec_ops].
    case_decide.
    + eapply wp_mono; [|apply read_program_correct; [done|lia]].
      intros [res u'] [m' w'] (Hw & Hst & Hres & _). simpl in *. by subst w'.
    + wp_go. split_and!; try done. constructor; try done. by left.
  - intros v u m w data _ _ Hm (_ & _ & b & n & _ & _ & _ & Hu & _). cbn [VOP_READ exec_ops].
    case_decide; [|done]. intros [= <-].
    eapply wp_mono; [|apply read_program_correct; [done|lia]].
    intros [res u'] [m' w'] (_ & _ & _ & Ht). split; [done|]. intros H0. by apply Ht.
Defined.

(** The user memory of the caller: the name "p" at 4096, and an argv at 4100
    with the argument strings behind it. *)
Fixpoint argv_words (q : Z) (args : list (list Z)) : list Z :=
  match args with
  | [] => word 0
  | x :: args' => word q ++ argv_words (q + Z.of_nat (length x)) args'
  end.
Definition caller (args : list (list Z)) : machine :=
  let strings := 4100 + 4 * (Z.of_nat (length args) + 1) in
  mkMachine (overwrite (overwrite ∅ 4096 [112; 0; 0; 0])
               4100 (argv_words strings args ++ concat args)) ∅ false.

Definition caller_as : addrspace :=
  mkAs 0 pagetable_empty false [] 0 0 (USERSTACK - STACK_SIZE).

(** A process whose only thread is called "sh". *)
Definition start (args : list (list Z)) : kernel (W := gmap positive Z) :=
  mkKernel {[1%positive := [115; 104; 0]]} [] 1
    {[1%positive := mkSpace caller_as (caller args)]} (Some 1%positive) None 1 ∅ ∅ ∅.

(** Deciding the conditions of the theorems. *)
Definition memory_okb (u : machine) : bool :=
  bool_decide (map_Forall (λ a x, 0 ≤ a < USERSPACETOP ∧ 0 ≤ x < 256) (mem u)) &&
  negb (tm_badfaultfunc u).

Lemma memory_okb_sound u : memory_okb u = true → user_ok u.
Proof.
  unfold memory_okb. intros [Hm Hf]%andb_prop. apply bool_decide_eq_true in Hm.
  split; [by destruct (tm_badfaultfunc u)|exact Hm].
Qed.

Fixpoint argvb (m : gmap Z Z) (p : Z) (args : list (list Z)) : bool :=
  match read_range m p 4 with
  | None => false
  | Some bs =>
      match args with
      | [] => be32 bs 0 =? 0
      | x :: args' =>
          negb (be32 bs 0 =? 0) && bool_decide (kstring x = Some x) &&
          bool_decide (read_range m (be32 bs 0) (length x) = Some x) && argvb m (p + 4) args'
      end
  end.

Lemma argvb_sound m p args : argvb m p args = true → argv_at m p args.
Proof.
  revert p. induction args as [|x args IH]; intros p; simpl;
    (destruct (read_range m p 4) as [bs|]; [|done]).
  - intros H0%Z.eqb_eq. by exists bs.
  - intros [[[H0 Hx]%andb_prop Hr]%andb_prop Ha]%andb_prop.
    apply bool_decide_eq_true in Hx, Hr. exists bs. split; [done|].
    split; [by apply negb_true_iff, Z.eqb_neq in H0|]. split; [by eapply kstring_sound|]. split; [done|]. by apply IH.
Qed.

Definition plenty : Z → bool := λ _, true.

End ExecExamples.
