(* ===== verification/ExecTheorems.v ===== *)
(** * execv and runprogram: the theorems

    The whole of [sys_execv] on every path: it returns with everything as it
    was, or it enters the new program with the arguments of the caller on the
    stack of a new address space; the one way it can stop the kernel is an argv
    that does not fit the stack page. *)

From Stdlib Require Import ZArith Lia.
From stdpp Require Import base numbers list gmap.
From S2P Require Import Prelude CopyInOut Uio SfsLayout Files Coremap PageTable Vm AddrSpace.
From S2P Require Import Exec ExecArgs ExecLoad ExecExamples.

Module ExecTheorems.
Import CopyInOut Uio SfsLayout Files Coremap PageTable Vm AddrSpace Exec ExecArgs ExecLoad.

Section execv.
Context {W : Type} `{!VfsOps W} `{!VfsLaws W} `{!ReadLaws W} (supplied : Z → bool).
Implicit Types (s : kernel (W := W)).

(** ** States between calls *)

Record kernel_ok s : Prop := {
ko_spaces : ∀ a x, spaces s !! a = Some x → user_ok (sp_user x);
ko_current : ∀ a, p_addrspace s = Some a → is_Some (spaces s !! a);
ko_name : is_Some (heap s !! t_name s);
ko_world : world_ok (fs s);
ko_refs : ∀ v, 0 ≤ vn_refcount (fs s) v;
}.

(** Everything but the state inside the file systems, whose vnodes have the same
    references. *)
Definition unchanged s s' : Prop :=
∃ l w, s' = now (heap s) l (execthrottle s) (spaces s) (p_addrspace s) w s ∧ world_same s w.

Lemma kernel_user_ok s : kernel_ok s → user_ok (user s).
Proof.
intros []. unfold user. destruct (p_addrspace s) as [a|]; simpl.
- destruct (spaces s !! a) as [x|] eqn:Hx; [by eapply ko_spaces0|]. split; [done|]. by intros b y.
- split; [done|]. by intros b y.
Qed.

Lemma unchanged_ok s s' : kernel_ok s → unchanged s s' → kernel_ok s'.
Proof.
intros [] (l & w & -> & [Hw Hr]). constructor; try done. intros v. simpl. by rewrite Hr.
Qed.

(** ** Pieces *)

Lemma wp_in_fs {A} (m : M W A) (Q : A → kernel → Prop) s :
  wp m (λ r w, Q r (set_io (ftables s) (openfiles s) w s)) (fs s) → wp (in_fs m) Q s.
Proof. unfold wp, in_fs. by destruct (m (fs s)) as [[r w]|]. Qed.

Lemma wp_answer (Q : bool → kernel → Prop) s :
  (∀ b l, Q b (set_answers l s)) → wp answer Q s.
Proof. intros HQ. unfold answer. wp_go. apply HQ. Qed.

Lemma wp_proc_setas o (Q : option positive → kernel → Prop) s :
  Q (p_addrspace s) (set_addrspace o s) → wp (proc_setas o) Q s.
Proof. intros HQ. unfold proc_setas. by wp_go. Qed.

(** A new address space: nothing but a zeroed stack. *)
Definition blank (x : space) : Prop := defined supplied [] x.

Lemma empty_space_blank : blank (empty_space supplied).
Proof.
set (z := sp_as (empty_space supplied)).
assert (shows supplied (empty_space supplied) (λ _, 0)) as Hs.
{ intros b. simpl. rewrite map_empty_union, lookup_zeros.
  pose proof (elem_of_stack_bytes supplied z b eq_refl) as He.
  unfold visible. rewrite valid_noheap by done.
  change (existsb _ _ || in_stack _ b) with (in_stack z b).
  destruct (decide _) as [Hin|Hout].
  - by rewrite (proj1 He Hin).
  - destruct (_ && _); [|done]. destruct (Hout (proj2 He eq_refl)). }
destruct (shows_fresh supplied _ _ Hs ltac:(done)) as [Hb Hd]. by split_and!.
Qed.

Lemma wp_create_space (Q : option positive → kernel → Prop) s :
  (∀ l, Q None (set_answers l s)) →
  (∀ l a x, spaces s !! a = None → blank x →
     Q (Some a) (set_spaces (<[a := x]> (spaces s)) (set_answers l s))) →
  wp (create_space supplied) Q s.
Proof.
intros H0 H1. unfold create_space, space_set. wp_go.
apply wp_answer. intros [] l1; cbn [negb]; wp_go; [|apply H0].
apply wp_answer. intros [] l2; cbn [negb]; wp_go; [|apply (H0 l2)].
apply wp_answer. intros [] l3; cbn [negb]; wp_go; [|apply (H0 l3)].
apply (H1 l3); [apply not_elem_of_dom, is_fresh|]. apply empty_space_blank.
Qed.

Lemma wp_kstrdup p l str (Q : option positive → kernel → Prop) s :
  heap s !! p = Some l → kstring l = Some str →
  (∀ an, Q None (held (heap s) an (execthrottle s) s)) →
  (∀ an q, heap s !! q = None →
     Q (Some q) (held (<[q := str]> (heap s)) an (execthrottle s) s)) →
  wp (kstrdup p) Q s.
Proof.
intros Hp Hstr H0 H1. unfold kstrdup, block_string. wp_go. eapply wp_block; [done|].
eapply wp_deref; [done|]. wp_go. apply wp_kmalloc; [intros an; wp_go; apply H0|].
intros an q Hq. wp_go.
eapply wp_block_write; [apply lookup_insert_eq|lia|rewrite length_replicate; lia|].
intros l' Hl' Ht. wp_go. unfold held, now. simpl. rewrite insert_insert_eq.
rewrite Z2Nat.inj_0, take_0 in Ht. simpl in Ht. rewrite length_replicate, Nat2Z.id in Hl'.
rewrite take_ge in Ht by lia. subst l'. apply (H1 an q Hq).
Qed.

(** ** [loadexec] *)

(** The state a program is entered in: the new space [a] is [x], the old one is
    gone, and the thread is called [name]. *)
Definition replaced (a : positive) (x : space) (name : positive) (str : list Z) l (w : W) s : kernel :=
mkKernel (delete (t_name s) (<[name := str]> (heap s))) l (execthrottle s)
  (match p_addrspace s with
   | Some old => delete old (<[a := x]> (spaces s))
   | None => <[a := x]> (spaces s)
   end) (Some a) (p_filetable s) name (ftables s) (openfiles s) w.

(** [x] holds the program that the file at [path] had when it was opened. *)
Definition runs (path : list Z) s (entry : Z) (x : space) : Prop :=
∃ v w, vfs_open path O_RDONLY 0 (fs s) = Done (Ok v, w) ∧
  ∀ data, regular w v = Some data → loaded supplied data entry x.

Definition loadexec_post (str : list Z) s (r : result (Z * Z)) s' : Prop :=
match r with
| Err e => 0 < e ∧ unchanged s s'
| Ok (entry, stackptr) =>
    stackptr = USERSTACK ∧
    ∃ a x name l w, s' = replaced a x name str l w s ∧ spaces s !! a = None ∧
      heap s !! name = None ∧ fresh_space supplied x ∧ world_same s w ∧
      runs (take (length str - 1) str) s entry x
end.

(** Giving a reference back after it was taken. *)
Lemma close_reference v w0 w1 w2 :
  (∀ y, vn_refcount w1 y = add1 v (vn_refcount w0) y) →
  (∀ y, add1 v (vn_refcount w2) y = vn_refcount w1 y) →
  ∀ y, vn_refcount w2 y = vn_refcount w0 y.
Proof. intros H1 H2 y. specialize (H1 y). specialize (H2 y). unfold add1 in *. lia. Qed.

(** A reference to [v] is held on top of those of [s0]. *)
Definition world_plus s0 (v : positive) (w : W) : Prop :=
world_ok w ∧ ∀ y, vn_refcount w y = add1 v (vn_refcount (fs s0)) y.

(** Closing the file, wherever the call has got to. *)
Lemma wp_close s0 v s (Q : unit → kernel → Prop) :
  kernel_ok s0 → world_plus s0 v (fs s) →
  (∀ w', world_same s0 w' → Q tt (set_io (ftables s) (openfiles s) w' s)) →
  wp (in_fs (vfs_close v)) Q s.
Proof.
intros Hok [Hw Href] HQ. apply wp_in_fs.
eapply wp_mono; [|apply vfs_close_law; [done|]].
- intros [] w' [Hw' Hc]. apply HQ. split; [done|]. by eapply close_reference.
- rewrite Href, add1_eq. pose proof (ko_refs _ Hok v). lia.
Qed.

(** The end of [loadexec], on the way out. *)
Lemma loadexec_undo e str s name a x l v (s1 : kernel) :
  kernel_ok s → 0 < e → heap s !! name = None → spaces s !! a = None → world_plus s v (fs s1) →
  s1 = now (<[name := str]> (heap s)) l (execthrottle s) (<[a := x]> (spaces s)) (Some a) (fs s1) s →
  wp (in_fs (vfs_close v) ;; proc_setas (p_addrspace s) ;; destroy_space a ;;
      kfree name ;; mret (Err e)) (loadexec_post str s) s1.
Proof.
intros Hok He Hname Ha Hw ->. wp_go. eapply wp_close; [exact Hok|exact Hw|]. intros w' Hw'. wp_go.
unfold proc_setas, destroy_space, space_get. wp_go. simpl. rewrite lookup_insert_eq.
eapply wp_deref; [done|]. wp_go. eapply wp_kfree; [apply lookup_insert_eq|]. wp_go.
split; [done|]. exists l, w'. unfold held, now, set_spaces, set_addrspace, set_io. simpl.
by rewrite !delete_insert_id.
Qed.

(** The end of [loadexec] when the program is loaded. *)
Lemma loadexec_commit entry str s name a x l v (s1 : kernel) :
  kernel_ok s → heap s !! name = None → spaces s !! a = None → world_plus s v (fs s1) →
  s1 = now (<[name := str]> (heap s)) l (execthrottle s) (<[a := x]> (spaces s)) (Some a) (fs s1) s →
  fresh_space supplied x → runs (take (length str - 1) str) s entry x →
  wp (in_fs (vfs_close v) ;; 
      stackptr ← define_stack a;
      match p_addrspace s with Some old => destroy_space old | None => mret tt end ;;
      name' ← gets t_name;
      kfree name' ;;
      modify (set_name name) ;;
      mret (Ok (entry, stackptr))) (loadexec_post str s) s1.
Proof.
intros Hok Hname Ha Hw -> Hx Hruns. wp_go. eapply wp_close; [exact Hok|exact Hw|].
intros w' Hw'. unfold define_stack, destroy_space, space_get. wp_go. simpl. rewrite lookup_insert_eq.
eapply wp_deref; [done|]. wp_go. destruct (ko_name _ Hok) as [old_name Htn].
assert (name ≠ t_name s) as Hne by congruence.
pose proof (ko_current _ Hok) as Hcur.
unfold loadexec_post, replaced. destruct (p_addrspace s) as [old|] eqn:Hpa.
- destruct (Hcur old eq_refl) as [y Hy]. assert (old ≠ a) as Hoa by congruence. wp_go. simpl.
  rewrite lookup_insert_ne, Hy by done. eapply wp_deref; [done|]. wp_go.
  eapply wp_kfree; [simpl; by rewrite lookup_insert_ne|]. wp_go. split; [done|].
  by exists a, x, name, l, w'.
- wp_go. eapply wp_kfree; [simpl; by rewrite lookup_insert_ne|]. wp_go. split; [done|].
  by exists a, x, name, l, w'.
Qed.

Lemma loadexec_correct path l str s :
  kernel_ok s → heap s !! path = Some l → kstring l = Some str →
  wp (loadexec supplied path) (loadexec_post str s) s.
Proof.
intros Hok Hp Hstr. unfold loadexec. wp_go. eapply wp_kstrdup; [done..| |].
{ intros an. wp_go. split; [done|]. exists an, (fs s). split; [done|]. split; [apply Hok|done]. }
intros an name Hname. wp_go. unfold block_string. wp_go.
assert (name ≠ path) as Hne by congruence.
eapply wp_block; [simpl; by rewrite lookup_insert_ne|]. eapply wp_deref; [done|]. wp_go.
apply wp_in_fs. simpl fs.
destruct (proj1 (wp_done _ _ _) (vfs_open_law (take (length str - 1) str) O_RDONLY 0 (fs s)
  (ko_world _ Hok))) as (r & w1 & Hopen & Hw1 & Hr).
apply wp_done. eexists _, _. split; [exact Hopen|]. destruct r as [v|e].
2: { destruct Hr as [He Href]. wp_go. eapply wp_kfree; [apply lookup_insert_eq|]. wp_go.
     split; [done|]. exists an, w1. unfold held, now, set_io. simpl.
     by rewrite delete_insert_id. }
destruct Hr as [_ Href]. assert (world_plus s v w1) as Hplus by done. wp_go.
apply wp_create_space.
{ intros l1. wp_go. eapply wp_close; [exact Hok|done|]. intros w' Hw'. wp_go.
  eapply wp_kfree; [apply lookup_insert_eq|]. wp_go. split; [done|]. exists l1, w'.
  unfold held, now, set_io, set_answers. simpl. by rewrite delete_insert_id. }
intros l1 a x Ha Hblank. wp_go. apply wp_proc_setas. wp_go. simpl in Ha. simpl p_addrspace.
set (s2 := set_addrspace (W := W) _ _).
eapply wp_mono; [|apply (load_elf_correct supplied s2 a v eq_refl Hw1) with x; [|..|done]].
- intros r s3 (x3 & (l3 & w3 & -> & [Hw3 Href3] & Hk3) & Hr).
  assert (world_plus s v w3) as Hplus3.
  { split; [done|]. intros y. rewrite Href3. apply Href. }
  assert (placed a x3 l3 w3 s2 = now (<[name := str]> (heap s)) l3 (execthrottle s)
    (<[a := x3]> (spaces s)) (Some a) w3 s) as ->.
  { unfold placed, now. simpl. by rewrite insert_insert_eq. }
  destruct r as [entry|e].
  + destruct Hr as [Hx3 Hload].
    apply (loadexec_commit entry str s name a x3 l3 v); try done. by exists v, w1.
  + by apply (loadexec_undo e str s name a x3 l3 v).
- simpl. rewrite Href, add1_eq. pose proof (ko_refs _ Hok v). lia.
- apply lookup_insert_eq.
Qed.

(** ** Entering the program *)

(** [Q] holds if the call comes to an end, [P] if it stops the kernel. *)
Definition ends {A} (m : M kernel A) (Q : A → kernel → Prop) (P : Prop) s : Prop :=
match m s with Done (r, s') => Q r s' | Panic => P end.

Lemma ends_bind {A B} (m : M kernel A) (f : A → M kernel B) Q P s :
  wp m (λ r s', ends (f r) Q P s') s → ends (m ≫= f) Q P s.
Proof. unfold wp, ends, mbind, M_bind. by destruct (m s) as [[]|]. Qed.

Lemma ends_wp {A} (m : M kernel A) Q P s : wp m Q s → ends m Q P s.
Proof. unfold wp, ends. by destruct (m s) as [[]|]. Qed.

(** The page of the user stack. *)
Definition stack_page : Z := (USERSTACK - STACK_SIZE) / PAGE_SIZE.

(** [args] do not fit the stack, or there is no memory for it. *)
Definition no_room (args : list (list Z)) : Prop :=
STACK_SIZE < stack_need args ∨ supplied stack_page = false.

Lemma stack_writable x args :
  fresh_space supplied x → Forall arg_ok args →
  all_writable (sp_user x) (argv_addr args) (Z.to_nat (stack_need args)) = false → no_room args.
Proof.
intros [] Hall Hno. destruct (decide (STACK_SIZE < stack_need args)) as [|Hfit]; [by left|].
destruct (supplied stack_page) eqn:Hpage; [|by right]. exfalso.
apply not_true_iff_false in Hno. apply Hno, all_writable_spec. intros b Hb.
unfold writable. apply bool_decide_eq_true. rewrite fr_readonly0. split; [|set_solver].
apply fr_dom0. unfold argv_addr, stack_need in *. pose proof (total_nonneg args).
unfold visible. rewrite valid_noheap by done. unfold in_stack. rewrite fr_stack0.
unfold stack_page, USERSTACK, STACK_SIZE, PAGE_SIZE, USERSPACETOP in *.
assert (b / 4096 = 524287) as -> by (Z.to_euclidean_division_equations; lia).
change ((2147483648 - 4096) / 4096) with 524287 in Hpage. rewrite Hpage, Z.geb_leb.
Z.to_euclidean_division_equations; lia.
Qed.

Lemma fresh_writable x b :
  fresh_space supplied x → writable (sp_user x) b = visible supplied (sp_as x) b.
Proof.
intros []. unfold writable. rewrite fr_readonly0. apply eq_bool_prop_intro.
rewrite !Is_true_true, bool_decide_eq_true, fr_dom0. set_solver.
Qed.

(** What the new program finds: [x0] is the address space as it was loaded. *)
Definition with_argv (x0 : space) (args : list (list Z)) (x : space) : Prop :=
sp_as x = sp_as x0 ∧ fresh_space supplied x ∧ argv_at (mem (sp_user x)) (argv_addr args) args ∧
∀ b, b < argv_addr args → mem (sp_user x) !! b = mem (sp_user x0) !! b.

Lemma fresh_pushed x m' :
  fresh_space supplied x → bytes_ok m' →
  (∀ c n, all_writable (with_mem (sp_user x) m') c n = all_writable (sp_user x) c n) →
  fresh_space supplied (mkSpace (sp_as x) (with_mem (sp_user x) m')).
Proof.
intros Hfr Hb Hw. pose proof (λ b, fresh_writable x b Hfr) as Hv. destruct Hfr.
constructor; try done. intros b. simpl. specialize (Hw b 1%nat).
rewrite !all_writable_S, !andb_true_r in Hw. rewrite <- Hv, <- Hw. unfold writable.
rewrite bool_decide_eq_true. simpl. rewrite fr_readonly0. set_solver.
Qed.

Lemma enter_program_correct b args h0 n0 a x entry s (Q : ending → kernel → Prop) (P : Prop) :
  p_addrspace s = Some a → spaces s !! a = Some x → fresh_space supplied x →
  filled b args s → owned h0 n0 b s →
  (no_room args → P) →
  (∀ x', with_argv x args x' →
     Q (Enters (Z.of_nat (length args)) (argv_addr args) (argv_addr args) entry)
       (now h0 (answers s) n0 (<[a := x']> (spaces s)) (Some a) (fs s) s)) →
  ends (enter_program b entry USERSTACK) Q P s.
Proof.
intros Ha Hx Hfr Hfill Ho HP HQ.
assert (user s = sp_user x) as Hu. { unfold user. rewrite Ha. simpl. by rewrite Hx. }
assert (user_ok (sp_user x)) as Huo. { split; apply Hfr. }
unfold enter_program. apply ends_bind.
eapply wp_mono; [|apply (argbuf_copyout_correct b args s); [by exists a, x|by rewrite Hu|done]].
intros [[[sp argc] uargv]|e] s'; simpl.
2: { rewrite Hu. intros Hno. apply HP. eapply stack_writable; [done| |done].
     destruct Hfill as (p & l & _ & _ & Hall & _). done. }
intros [[= -> -> ->] (m' & -> & Hb & Hargv & Hbelow & Hw)]. rewrite Hu in *. apply ends_wp. wp_go.
set (x' := mkSpace (sp_as x) (with_mem (sp_user x) m')).
assert (set_user (with_mem (sp_user x) m') s
  = now (heap s) (answers s) (execthrottle s) (<[a := x']> (spaces s)) (Some a) (fs s) s) as ->.
{ unfold set_user. rewrite Ha. unfold now, set_spaces. rewrite Ha. f_equal.
  rewrite <- (insert_id _ _ _ Hx) at 1. by rewrite alter_insert_eq. }
apply (wp_cleanup h0 n0); [done|]. wp_go. apply (HQ x'). split; [done|].
split; [by apply fresh_pushed|done].
Qed.

(** ** [sys_execv] *)

Record entered (prog uargv : Z) s (argc uargv' stackptr entry : Z) s' : Prop := {
en_call : ∃ path args, cstr path ∧ read_range (mem (user s)) prog (length path) = Some path ∧
  argv_at (mem (user s)) uargv args ∧
  argc = Z.of_nat (length args) ∧ uargv' = argv_addr args ∧ stackptr = argv_addr args ∧
  ∃ a x0 x name l w, runs (take (length path - 1) path) s entry x0 ∧ with_argv x0 args x ∧
    spaces s !! a = None ∧ heap s !! name = None ∧ world_same s w ∧
    s' = replaced a x name path l w s;
}.

Definition execv_post (prog uargv : Z) s (r : ending) s' : Prop :=
kernel_ok s' ∧
match r with
| Returns e => 0 < e ∧ unchanged s s'
| Enters argc uargv' stackptr entry => entered prog uargv s argc uargv' stackptr entry s'
end.

(** The heap after the blocks of the call are freed. *)
Lemma heap_after (h : gmap positive (list Z)) p q tn name str l lq :
  h !! p = None → <[p := l]> h !! q = None → <[q := lq]> (<[p := l]> h) !! name = None →
  is_Some (h !! tn) →
  delete p (delete tn (<[name := str]> (<[q := lq]> (<[p := l]> h))))
    = <[q := lq]> (delete tn (<[name := str]> h)) ∧
  delete tn (<[name := str]> h) !! q = None.
Proof.
intros Hp Hq Hn [y Htn]. rewrite lookup_insert_None in Hq. rewrite !lookup_insert_None in Hn.
destruct Hq as [Hq Hpq], Hn as [[Hn Hpn] Hqn]. split.
- apply map_eq. intros i. rewrite !lookup_delete, !lookup_insert, !lookup_delete, !lookup_insert.
  repeat case_decide; congruence.
- rewrite lookup_delete, lookup_insert. repeat case_decide; congruence.
Qed.

Lemma replaced_ok a x name str l w s :
  kernel_ok s → user_ok (sp_user x) → heap s !! name = None → spaces s !! a = None →
  world_same s w → kernel_ok (replaced a x name str l w s).
Proof.
intros Hok Hx Hn Ha [Hw Href]. pose proof (ko_name _ Hok) as [y Htn].
assert (∀ b z, spaces (replaced a x name str l w s) !! b = Some z →
  b = a ∧ z = x ∨ spaces s !! b = Some z) as Hsp.
{ intros b z. simpl. destruct (p_addrspace s); rewrite ?lookup_delete, lookup_insert;
    repeat case_decide; naive_solver. }
constructor.
- intros b z [[-> ->]|Hz]%Hsp; [done|]. by eapply ko_spaces.
- intros b [= <-]. simpl. destruct (p_addrspace s) as [old|] eqn:Hpa.
  + destruct (ko_current _ Hok old Hpa) as [z Hz].
    rewrite lookup_delete_ne, lookup_insert_eq by congruence. by eexists.
  + rewrite lookup_insert_eq. by eexists.
- simpl. rewrite lookup_delete_ne, lookup_insert_eq by congruence. by eexists.
- done.
- intros v. simpl. rewrite Href. apply Hok.
Qed.

(** While the call holds the block [p] of the path and the buffer [b]. *)
Record midway (p : positive) (lp : list Z) (b : argbuf) s s' : Prop := {
mw_state : ∃ h l n, s' = held h l n s;
mw_path : heap s !! p = None;
mw_owned : owned (<[p := lp]> (heap s)) (execthrottle s) b s';
}.

(** A failure after that point gives everything back. *)
Lemma execv_fail e p lp b s s1 s' w :
  kernel_ok s → 0 < e → midway p lp b s s1 → world_same s w →
  (∃ l, s' = now (heap s1) l (execthrottle s1) (spaces s) (p_addrspace s) w s) →
  wp (argbuf_cleanup b ;; kfree p ;; mret (Returns e))
    (λ r s'', kernel_ok s'' ∧
       match r with Returns e => 0 < e ∧ unchanged s s'' | Enters _ _ _ _ => False end) s'.
Proof.
intros Hok He [_ Hp Ho] Hw [l ->]. wp_go. eapply wp_cleanup; [exact Ho|]. wp_go.
eapply wp_kfree; [apply lookup_insert_eq|]. wp_go.
assert (unchanged s (held (delete p (<[p := lp]> (heap s))) l (execthrottle s)
  (now (heap s1) l (execthrottle s1) (spaces s) (p_addrspace s) w s))) as Hun.
{ exists l, w. split; [|done]. unfold held, now. simpl. by rewrite delete_insert_id. }
split; [by eapply unchanged_ok|]. done.
Qed.

(** The arguments go into the space that was put in place. *)
Lemma replaced_spaces a x x' name str l w s :
  kernel_ok s → spaces s !! a = None →
  spaces (replaced a x name str l w s) !! a = Some x ∧
  <[a := x']> (spaces (replaced a x name str l w s)) = spaces (replaced a x' name str l w s).
Proof.
intros Hok Ha. simpl. destruct (p_addrspace s) as [old|] eqn:Hpa.
- destruct (ko_current _ Hok old Hpa) as [y Hy]. assert (old ≠ a) by congruence. split.
  + by rewrite lookup_delete_ne, lookup_insert_eq.
  + rewrite <- delete_insert_ne by done. by rewrite insert_insert_eq.
- by rewrite lookup_insert_eq, insert_insert_eq.
Qed.

(** The second half of [sys_execv]. *)
Lemma execv_load prog uargv s s1 p lp str b args :
  kernel_ok s → midway p lp b s s1 → filled b args s1 → kstring lp = Some str →
  cstr str → read_range (mem (user s)) prog (length str) = Some str →
  argv_at (mem (user s)) uargv args →
  ends (r ← loadexec supplied p;
        match r with
        | Err result => argbuf_cleanup b ;; kfree p ;; mret (Returns result)
        | Ok (entrypoint, stackptr) => kfree p ;; enter_program b entrypoint stackptr
        end) (execv_post prog uargv s)
       (∃ args, argv_at (mem (user s)) uargv args ∧ no_room args) s1.
Proof.
intros Hok Hmw Hfill Hstr Hc Hprog Hargv.
pose proof Hmw as [(h1 & l1 & n1 & ->) Hp Ho]. destruct Hfill as (q & lq & Hd & Hq & Hall & Hrest).
pose proof Ho as [Hthr Hh]. rewrite Hd in Hh. simpl in Hthr, Hh, Hq. destruct Hh as [Hqn [lq' ->]].
rewrite lookup_insert_eq in Hq. injection Hq as ->.
pose proof Hqn as [Hqs Hqp]%lookup_insert_None.
destruct (ko_name _ Hok) as [tl Htn].
set (s1 := held _ l1 n1 s) in *.
assert (kernel_ok s1) as Hok1.
{ destruct Hok. constructor; try done. simpl. rewrite !lookup_insert_ne by congruence. by eexists. }
apply ends_bind. eapply wp_mono; [|apply (loadexec_correct p lp str s1 Hok1); [|done]].
2: { simpl. rewrite lookup_insert_ne by done. apply lookup_insert_eq. }
intros [[entry sp]|e] s2.
2: { intros (He & l2 & w2 & -> & Hw2). apply ends_wp.
     eapply wp_mono; [|apply (execv_fail e p lp b s s1 _ w2); try done; by exists l2].
     by intros [] s3 [? ?]. }
intros (-> & a & x & name & l2 & w2 & -> & Ha & Hname & Hfr & Hw2 & Hruns).
destruct (heap_after (heap s) p q (t_name s) name str lp lq) as [Hheap Hq0];
  [done..|by eexists|].
apply ends_bind. eapply wp_kfree.
{ simpl. simpl in Hname. rewrite !lookup_insert_None in Hname.
  rewrite lookup_delete_ne, !lookup_insert_ne by naive_solver. apply lookup_insert_eq. }
simpl heap. rewrite Hheap.
eapply (enter_program_correct b args (delete (t_name s) (<[name := str]> (heap s)))
  (execthrottle s) a x).
- done.
- by apply (replaced_spaces a x x name str l2 w2 s1).
- done.
- exists q, lq. split; [done|]. split; [apply lookup_insert_eq|]. done.
- split; [done|]. rewrite Hd. split; [done|]. by exists lq.
- intros Hno. by exists args.
- intros x' Hx'. destruct (replaced_spaces a x x' name str l2 w2 s1 Hok1 Ha) as [_ Hsp].
  assert (heap s !! name = None) as Hname'.
  { simpl in Hname. rewrite !lookup_insert_None in Hname. naive_solver. }
  unfold now. cbn [spaces held now] in Hsp |- *. rewrite Hsp.
  split.
  + apply (replaced_ok a x' name str l2 w2 s); try done. split; apply Hx'.
  + constructor. exists str, args. split_and!; [done..|].
    by exists a, x, x', name, l2, w2.
Qed.


Lemma sys_execv_correct prog uargv s :
  kernel_ok s → 0 < execthrottle s → 0 ≤ prog < 2 ^ 32 → 0 ≤ uargv < 2 ^ 32 →
  ends (sys_execv supplied prog uargv) (execv_post prog uargv s)
    (∃ args, argv_at (mem (user s)) uargv args ∧ no_room args) s.
Proof.
intros Hok Hsem Hprog Huargv. pose proof (kernel_user_ok s Hok) as Hu.
unfold sys_execv. apply ends_bind, wp_kmalloc.
{ intros l. apply ends_wp, wp_ret.
  assert (unchanged s (held (heap s) l (execthrottle s) s)) as Hun.
  { exists l, (fs s). split; [done|]. split; [apply Hok|done]. }
  split; [by eapply unchanged_ok|]. done. }
intros l p Hp. apply ends_bind. set (s1 := held _ l _ s).
eapply wp_user_reads; [apply copyinstr_correct; [done|done|apply Hu]|].
intros [str|e]; simpl; intros Hstr.
2: { apply ends_wp. wp_go. eapply wp_kfree; [apply lookup_insert_eq|]. wp_go.
     assert (unchanged s (held (delete p (heap s1)) l (execthrottle s) s1)) as Hun.
     { exists l, (fs s). split; [|split; [apply Hok|done]].
       unfold held, now. simpl. by rewrite delete_insert_id. }
     split; [by eapply unchanged_ok|]. split; [|done].
     destruct Hstr as (ys & _ & _ & [[-> _]|[-> _]]); done. }
destruct Hstr as (Hc & Hlen & _ & Hrd). apply ends_bind.
eapply wp_block_write; [apply lookup_insert_eq|lia|rewrite length_replicate; exact Hlen|].
intros lp Hlp Hlpt. simpl in Hlpt. simpl heap. rewrite insert_insert_eq. simpl answers. simpl execthrottle.
apply ends_bind. set (s2 := held (<[p := lp]> (heap s)) l (execthrottle s) s1).
eapply wp_mono; [|by apply (argbuf_fromuser_correct uargv s2)].
intros [res b] s3 (h3 & l3 & n3 & -> & Ho & Hres). simpl in Hres.
assert (midway p lp b s (held h3 l3 n3 s2)) as Hmw.
{ constructor; [by exists h3, l3, n3|done|done]. }
destruct (decide (res = 0)) as [->|Hne]; simpl.
- destruct Hres as (args & Hargv & Hfill).
  apply (execv_load prog uargv s _ p lp str b args); try done.
  rewrite <- (take_drop (length str) lp), Hlpt. by apply kstring_cstr.
- rewrite (proj2 (Z.eqb_neq res 0)) by done. destruct Hres as [Hpos _]. apply ends_wp.
  eapply wp_mono; [|eapply (execv_fail res p lp b s _ _ (fs s)); try done].
  + by intros [] s4 [? ?].
  + split; [apply Hok|done].
  + by exists l3.
Qed.


(** Arguments that need more than one page of stack never reach a program,
    although they may be up to [ARG_MAX] long: such a call returns an error
    with nothing changed, or it stops the kernel; it enters the program only
    when a segment of the program itself lies just below the stack. *)
Theorem long_arguments prog uargv s args :
  kernel_ok s → 0 < execthrottle s → 0 ≤ prog < 2 ^ 32 → 0 ≤ uargv < 2 ^ 32 →
  argv_at (mem (user s)) uargv args → STACK_SIZE < stack_need args →
  match sys_execv supplied prog uargv s with
  | Panic => True
  | Done (Returns e, s') => 0 < e ∧ unchanged s s'
  | Done (Enters argc uargv' stackptr entry, s') =>
      ∃ a x, p_addrspace s' = Some a ∧ spaces s' !! a = Some x ∧
        existsb (λ r, in_region r stackptr) (region_list (sp_as x)) = true
  end.
Proof.
intros Hok Hsem Hprog Huargv Hargv Hneed.
pose proof (sys_execv_correct prog uargv s Hok Hsem Hprog Huargv) as Hrun. unfold ends in Hrun.
destruct (sys_execv supplied prog uargv s) as [[[e|argc uargv' sp entry] s']|]; [apply Hrun| |done].
destruct Hrun as [_ [(path & args' & _ & _ & Hargv' & _ & _ & -> & a & x0 & x & name & l & w & Hruns
  & (_ & Hfr & Hax & _) & Ha & _ & _ & ->)]].
rewrite (argv_unique _ _ _ _ Hargv' Hargv) in *. exists a, x. split; [done|].
split; [by apply (replaced_spaces a x x name path l w s)|].
apply argv_head in Hax as [bs [Hbl Hbs]%read_range_Some].
destruct (lookup_lt_is_Some_2 bs 0) as [y Hy]; [lia|].
assert (visible supplied (sp_as x) (argv_addr args) = true) as Hv.
{ apply (fr_dom _ _ Hfr). specialize (Hbs 0%nat ltac:(lia)). rewrite Z.add_0_r in Hbs.
  rewrite Hbs, Hy. by eexists. }
unfold visible in Hv. rewrite !andb_true_iff, valid_noheap, orb_true_iff in Hv by apply Hfr.
destruct Hv as [[[[Hv|Hv] _] _] _]; [done|]. unfold in_stack in Hv.
rewrite (fr_stack _ _ Hfr) in Hv. unfold argv_addr in Hv. lia.
Qed.

(** A flaw of the argument buffer.  When the first arguments fill the small
    buffer exactly and more follow, [execv] fails with [EFAULT], whatever the
    size of the rest: it neither reports [E2BIG] nor tries the large buffer. *)
Theorem exact_fit_rejected prog uargv s path args x rest :
  kernel_ok s → answers s = [] → 0 < prog < 2 ^ 32 → 0 ≤ uargv < 2 ^ 32 →
  cstr path → Z.of_nat (length path) ≤ PATH_MAX →
  read_range (mem (user s)) prog (length path) = Some path →
  argv_at (mem (user s)) uargv (args ++ x :: rest) → total args = PAGE_SIZE →
  ∃ s', sys_execv supplied prog uargv s = Done (Returns EFAULT, s').
Proof.
intros Hok Hans Hprog Huargv Hpath Hpl Hrd Hargv Hfit. pose proof (kernel_user_ok s Hok) as Hu.
assert (wp (sys_execv supplied prog uargv) (λ r _, r = Returns EFAULT) s) as Hwp.
2: { apply wp_done in Hwp as (r & s' & Hrun & ->). by exists s'. }
unfold sys_execv. wp_go. apply wp_kmalloc_ok; [done|]. intros p Hp. wp_go.
eapply wp_mono; [|by apply (copyinstr_finds _ prog PATH_MAX path)].
intros r s1 [-> ->]. wp_go.
eapply wp_block_write; [apply lookup_insert_eq|lia|rewrite length_replicate; exact Hpl|].
intros lp _ _. wp_go.
eapply wp_mono; [|apply (fromuser_exact uargv _ args x rest); done].
intros [res b] s2 (Hres & Ho & h & l & n & ->). simpl in Hres. subst res. cbn [negb Z.eqb EFAULT].
wp_go. eapply wp_cleanup; [exact Ho|]. wp_go. eapply wp_kfree; [apply lookup_insert_eq|]. by wp_go.
Qed.

(** C13: Loading an executable.  Into a new address space [load_elf] never fails an
    assertion, and a success means exactly this: the header is that of a MIPS
    executable, the entry point is the one it names, the regions are those of
    the file's [PT_LOAD] segments in order, and every byte the process can use
    holds what the last segment over it has in the file, or zero. *)
Theorem program_image s a v x data :
  p_addrspace s = Some a → spaces s !! a = Some x → blank x →
  world_ok (fs s) → 0 < vn_refcount (fs s) v → regular (fs s) v = Some data →
  wp (load_elf supplied v) (λ r s', ∃ x', spaces s' = <[a := x']> (spaces s) ∧ heap s' = heap s ∧
    match r with
    | Ok entry => loaded supplied data entry x'
    | Err e => 0 < e
    end) s.
Proof.
intros Ha Hx Hb Hw Hv Hd.
eapply wp_mono; [|by eapply (load_elf_correct supplied s a v Ha Hw Hv x)].
intros r s' (x' & (l & w & -> & _) & Hr). exists x'. split; [done|]. split; [done|].
destruct r as [entry|e]; [|done]. by apply Hr.
Qed.

End execv.

(** ** Examples *)

Import ExecExamples.

Lemma start_ok args : memory_okb (caller args) = true → kernel_ok (start args).
Proof.
  intros Hm%memory_okb_sound. constructor; try done.
  - intros a x. simpl. intros [<- <-]%lookup_singleton_Some. done.
  - intros a [= <-]. simpl. rewrite lookup_singleton_eq. by eexists.
Qed.


Definition ending_of {S} (o : outcome (ending * S)) : option ending :=
  match o with Done (r, _) => Some r | Panic => None end.


(** An argument of 4090 characters. *)
Definition long_args : list (list Z) := [replicate 4090 97 ++ [0]].

Lemma long_arguments_witness :
  match sys_execv plenty 4096 4100 (start long_args) with
  | Panic => True
  | Done (Returns e, s') => 0 < e ∧ unchanged (start long_args) s'
  | Done (Enters argc uargv' stackptr entry, s') =>
      ∃ a x, p_addrspace s' = Some a ∧ spaces s' !! a = Some x ∧
        existsb (λ r, in_region r stackptr) (region_list (sp_as x)) = true
  end ∧
  ending_of (sys_execv plenty 4096 4100 (start long_args)) = None.
Proof.
  split; [|vm_compute; reflexivity].
  apply (long_arguments plenty 4096 4100 (start long_args) long_args); [|done..| |].
  - apply start_ok. vm_compute. reflexivity.
  - apply argvb_sound. vm_compute. reflexivity.
  - vm_compute. reflexivity.
Defined.

(** An argument of 4095 characters, which fills a page, and one more. *)
Definition exact_args : list (list Z) := [replicate 4095 97 ++ [0]].

Lemma exact_fit_rejected_witness :
  ∃ s', sys_execv plenty 4096 4100 (start (exact_args ++ [[98; 0]])) = Done (Returns EFAULT, s').
Proof.
  apply (exact_fit_rejected plenty 4096 4100 (start (exact_args ++ [[98; 0]])) [112; 0]
    exact_args [98; 0] []); try done.
  - apply start_ok. vm_compute. reflexivity.
  - by apply (kstring_sound [112; 0]).
  - apply argvb_sound. vm_compute. reflexivity.
Defined.

(** The program of the examples, opened, and a new address space. *)
Definition loading_start : kernel (W := gmap positive Z) :=
  mkKernel ∅ [] 1 {[1%positive := empty_space plenty]} (Some 1%positive) None 1 ∅ ∅
    {[1%positive := 1]}.

Lemma program_image_witness :
  wp (load_elf plenty 1) (λ r s', ∃ x', spaces s' = <[1%positive := x']> (spaces loading_start) ∧
    heap s' = heap loading_start ∧
    match r with
    | Ok entry => loaded plenty program entry x'
    | Err e => 0 < e
    end) loading_start ∧
  match load_elf plenty 1 loading_start with
  | Done (Ok entry, s') => entry = 4194304 ∧
      read_range (mem (user s')) 4194304 8 = Some [36; 2; 0; 3; 0; 0; 0; 0]
  | _ => False
  end.
Proof.
  split; [|vm_compute; split; reflexivity].
  apply (program_image plenty loading_start 1 1 (empty_space plenty) program).
  - reflexivity.
  - apply lookup_singleton_eq.
  - apply empty_space_blank.
  - exact I.
  - reflexivity.
  - reflexivity.
Defined.

End ExecTheorems.
