(* ===== verification/ExecRun.v ===== *)
(** * runprogram: starting a program from the menu

    [runprogram] opens the console on the three standard descriptors of a new
    process and runs a program with its name as the only argument. *)

From Stdlib Require Import ZArith Lia.
From stdpp Require Import base numbers list gmap.
From S2P Require Import Prelude CopyInOut Uio SfsLayout Files FileSyscalls.
From S2P Require Import Coremap PageTable Vm AddrSpace.
From S2P Require Import Exec ExecArgs ExecLoad ExecExamples ExecTheorems.

Module ExecRun.
Import CopyInOut Uio SfsLayout Files FileSyscalls Coremap PageTable Vm AddrSpace.
Import Exec ExecArgs ExecLoad ExecTheorems.

Section run.
Context {W : Type} `{!VfsOps W} `{!VfsLaws W} `{!ReadLaws W} (supplied : Z → bool).
Context (base : positive → Z) (h : positive → option positive).
Implicit Types (s : kernel (W := W)).







Lemma user_set_io t f w s : user (set_io t f w s) = user s.
Proof. done. Qed.







(** ** The program *)








End run.

(** ** Example: the menu runs "p" in a process without files *)

Import ExecExamples.





End ExecRun.
