(* ===== verification/Kmalloc.v ===== *)
(** * The kernel heap (kern/vm/kmalloc.c)

    The subpage allocator as it is configured: guard bands, labels, and consistency
    checks of the whole heap around every operation.  Memory is a map from addresses to
    bytes, and a pageref is a record found by its address.  The spinlock is given up
    around every call of the page allocator, so an operation is a program that stops
    there; between two stops it runs without interference. *)

From Stdlib Require Import ZArith Lia.
From stdpp Require Import base numbers list gmap.
From S2P Require Import Prelude Coremap PageTable.

Module Kmalloc.
Import Coremap(PAGE_SIZE, KSEG0).
Import PageTable(PAGE_FRAME).

(** ** Data *)

Definition KSEG1 : Z := 2684354560.

Definition NSIZES : Z := 8.
Definition sizes : list Z := [16; 32; 64; 128; 256; 512; 1024; 2048].
Definition SMALLEST_SUBPAGE_SIZE : Z := 16.
Definition LARGEST_SUBPAGE_SIZE : Z := 2048.

Record pageref := mkPageref {
  next_samesize : Z;
  next_all : Z;
  pageaddr_and_blocktype : Z;
  freelist_offset : Z;
  nfree : Z;
}.

Definition INVALID_OFFSET : Z := 65535.
Definition SIZEOF_PAGEREF : Z := 16.
Definition PR_PAGEADDR (pr : pageref) : Z := Z.land (pageaddr_and_blocktype pr) PAGE_FRAME.
Definition PR_BLOCKTYPE (pr : pageref) : Z := Z.land (pageaddr_and_blocktype pr) (2 ^ 32 - 1 - PAGE_FRAME).
Definition MKPAB (pa blk : Z) : Z := Z.lor (Z.land pa PAGE_FRAME) (Z.land blk (2 ^ 32 - 1 - PAGE_FRAME)).

Definition NPAGEREFS_PER_PAGE : Z := PAGE_SIZE / SIZEOF_PAGEREF.
Definition INUSE_WORDS : Z := NPAGEREFS_PER_PAGE / 32.
Definition NUM_PAGEREFPAGES : Z := 16.
Definition TOTAL_PAGEREFS : Z := NUM_PAGEREFPAGES * NPAGEREFS_PER_PAGE.

Record kheap_root := mkRoot {
  page : Z;
  pagerefs_inuse : list Z;
  numinuse : Z;
}.

(** The static variables, the memory and the pagerefs; 0 is the null pointer. *)
Record heap := mkHeap {
  mem : gmap Z Z;
  refs : gmap Z pageref;
  kheaproots : list kheap_root;
  sizebases : list Z;
  allbase : Z;
  mallocgeneration : Z;
  klock : bool;
}.

Definition set_mem m h := mkHeap m (refs h) (kheaproots h) (sizebases h) (allbase h) (mallocgeneration h) (klock h).
Definition set_refs r h := mkHeap (mem h) r (kheaproots h) (sizebases h) (allbase h) (mallocgeneration h) (klock h).
Definition set_roots r h := mkHeap (mem h) (refs h) r (sizebases h) (allbase h) (mallocgeneration h) (klock h).
Definition set_sizebases b h := mkHeap (mem h) (refs h) (kheaproots h) b (allbase h) (mallocgeneration h) (klock h).
Definition set_allbase b h := mkHeap (mem h) (refs h) (kheaproots h) (sizebases h) b (mallocgeneration h) (klock h).
Definition set_generation g h := mkHeap (mem h) (refs h) (kheaproots h) (sizebases h) (allbase h) g (klock h).
Definition set_klock b h := mkHeap (mem h) (refs h) (kheaproots h) (sizebases h) (allbase h) (mallocgeneration h) b.

Definition heap_start : heap :=
  mkHeap ∅ ∅ (replicate 16 (mkRoot 0 (replicate 8 0) 0)) (replicate 8 0) 0 0 false.

(** [uint16_t] and [uint32_t] arithmetic. *)
Definition w16 (x : Z) : Z := x mod 2 ^ 16.
Definition w32 (x : Z) : Z := x mod 2 ^ 32.

(** *** Memory: big-endian, with aligned accesses only *)

Definition rd8 (m : gmap Z Z) (a : Z) : Z := default 0 (m !! a).
Definition rd16 (m : gmap Z Z) (a : Z) : Z := rd8 m a * 256 + rd8 m (a + 1).
Definition rd32 (m : gmap Z Z) (a : Z) : Z := rd16 m a * 65536 + rd16 m (a + 2).
Definition wr8 (m : gmap Z Z) (a x : Z) : gmap Z Z := <[a := x mod 256]> m.
Definition wr16 (m : gmap Z Z) (a x : Z) : gmap Z Z := wr8 (wr8 m a (x / 256)) (a + 1) x.
Definition wr32 (m : gmap Z Z) (a x : Z) : gmap Z Z := wr16 (wr16 m a (x / 65536)) (a + 2) x.

Definition load8 (a : Z) : M heap Z := gets (λ h, rd8 (mem h) a).
Definition load16 (a : Z) : M heap Z := KASSERT (a mod 2 =? 0) ;; gets (λ h, rd16 (mem h) a).
Definition load32 (a : Z) : M heap Z := KASSERT (a mod 4 =? 0) ;; gets (λ h, rd32 (mem h) a).
Definition store8 (a x : Z) : M heap unit := modify (λ h, set_mem (wr8 (mem h) a x) h).
Definition store16 (a x : Z) : M heap unit := KASSERT (a mod 2 =? 0) ;; modify (λ h, set_mem (wr16 (mem h) a x) h).
Definition store32 (a x : Z) : M heap unit := KASSERT (a mod 4 =? 0) ;; modify (λ h, set_mem (wr32 (mem h) a x) h).

Definition load_ref (p : Z) : M heap pageref := r ← gets refs; deref (r !! p).
Definition store_ref (p : Z) (pr : pageref) : M heap unit := modify (λ h, set_refs (<[p := pr]> (refs h)) h).
Definition get_root (k : Z) : M heap kheap_root := r ← gets kheaproots; deref (znth r k).
Definition put_root (k : Z) (x : kheap_root) : M heap unit := modify (λ h, set_roots (zset (kheaproots h) k x) h).
Definition get_sizebase (t : Z) : M heap Z := b ← gets sizebases; deref (znth b t).
Definition put_sizebase (t p : Z) : M heap unit := modify (λ h, set_sizebases (zset (sizebases h) t p) h).
Definition blocksize_of (t : Z) : M heap Z := deref (znth sizes t).

(** [kmalloc_spinlock] *)
Definition spinlock_acquire : M heap unit := b ← gets klock; KASSERT (negb b) ;; modify (set_klock true).
Definition spinlock_release : M heap unit := b ← gets klock; KASSERT b ;; modify (set_klock false).
Definition spinlock_do_i_hold : M heap bool := gets klock.

Definition DEADBEEF : Z := 3735928559.

Definition fill_deadbeef (vptr len : Z) : M heap unit :=
  for_loop (Z.to_nat (len / 4)) 0 (λ i, store32 (vptr + 4 * i) DEADBEEF).

(** ** Guard bands *)

Definition GUARD_RETBYTE : Z := 169.
Definition GUARD_FILLBYTE : Z := 186.
Definition GUARD_HALFWORD : Z := 45232.
Definition GUARD_OVERHEAD : Z := 8.
Definition GUARD_PTROFFSET : Z := 4.

(** [for (i = lo; i < hi; i++)] over addresses. *)
Definition for_addr (lo hi : Z) (body : Z → M heap unit) : M heap unit := for_loop (Z.to_nat (hi - lo)) lo body.

Definition establishguardband (block clientsize blocksize : Z) : M heap Z :=
  KASSERT (w32 (clientsize + GUARD_OVERHEAD) <=? blocksize) ;;
  KASSERT (clientsize <? 65536) ;;
  let lowguard := block in
  let lowsize := lowguard + 2 in
  let data := lowsize + 2 in
  let enddata := data + clientsize in
  let highguard := lowguard + blocksize - 4 in
  let highsize := highguard + 2 in
  store16 lowguard GUARD_HALFWORD ;;
  store16 lowsize clientsize ;;
  for_addr data enddata (λ i, store8 i GUARD_RETBYTE) ;;
  for_addr enddata highguard (λ i, store8 i GUARD_FILLBYTE) ;;
  store16 highguard GUARD_HALFWORD ;;
  store16 highsize clientsize ;;
  mret data.

Definition checkguardband (blockaddr smallerblocksize blocksize : Z) : M heap unit :=
  let lowguard := blockaddr in
  let lowsize := lowguard + 2 in
  let data := lowsize + 2 in
  let highguard := blockaddr + blocksize - 4 in
  let highsize := highguard + 2 in
  g ← load16 lowguard;
  KASSERT (g =? GUARD_HALFWORD) ;;
  g ← load16 highguard;
  KASSERT (g =? GUARD_HALFWORD) ;;
  clientsize ← load16 lowsize;
  c ← load16 highsize;
  KASSERT (clientsize =? c) ;;
  KASSERT (clientsize + GUARD_OVERHEAD >? smallerblocksize) ;;
  KASSERT (clientsize + GUARD_OVERHEAD <=? blocksize) ;;
  let enddata := data + clientsize in
  for_addr enddata highguard (λ i, x ← load8 i; KASSERT (x =? GUARD_FILLBYTE)).

(** ** Consistency checks *)

Definition checkdeadbeef (block blocksize : Z) : M heap unit :=
  for_loop (Z.to_nat (blocksize / 4 - 1)) 1 (λ i, x ← load32 (block + 4 * i); KASSERT (x =? DEADBEEF)).

(** The bits of [isfree] and of [pagerefs_inuse]. *)
Definition bit_mask (i : Z) : Z := Z.shiftl 1 (i mod 32).
Definition bit_isset (ws : list Z) (i : Z) : M heap bool :=
  w ← deref (znth ws (i / 32)); mret (negb (Z.land w (bit_mask i) =? 0)).
Definition bit_set (ws : list Z) (i : Z) : M heap (list Z) :=
  w ← deref (znth ws (i / 32)); mret (zset ws (i / 32) (Z.lor w (bit_mask i))).

Definition MAXBLOCKS : Z := PAGE_SIZE / SMALLEST_SUBPAGE_SIZE.

(** [for (; fl != NULL; fl = fl->next)]: a free list that goes round in a circle fails the
    check of [isfree], so there are never more rounds than blocks. *)
Fixpoint check_freelist (fuel : nat) (prpage blocksize fl : Z) (isfree : list Z) (n : Z) : M heap (list Z * Z) :=
  match fuel with
  | O => panic
  | S fuel' =>
      if fl =? 0 then mret (isfree, n) else
      KASSERT ((prpage <=? fl) && (fl <? prpage + PAGE_SIZE)) ;;
      KASSERT ((fl - prpage) mod blocksize =? 0) ;;
      checkdeadbeef fl blocksize ;;
      let blocknum := (fl - prpage) / blocksize in
      b ← bit_isset isfree blocknum;
      KASSERT (negb b) ;;
      isfree ← bit_set isfree blocknum;
      next ← load32 fl;
      KASSERT (negb (next =? fl)) ;;
      check_freelist fuel' prpage blocksize next isfree (n + 1)
  end.

Definition smaller_of (blktype : Z) : M heap Z := if blktype >? 0 then blocksize_of (blktype - 1) else mret 0.

Definition checksubpage (p : Z) : M heap unit :=
  h ← spinlock_do_i_hold;
  KASSERT h ;;
  pr ← load_ref p;
  if freelist_offset pr =? INVALID_OFFSET then KASSERT (nfree pr =? 0) else
  let prpage := PR_PAGEADDR pr in
  let blktype := PR_BLOCKTYPE pr in
  KASSERT ((0 <=? blktype) && (blktype <? NSIZES)) ;;
  blocksize ← blocksize_of blktype;
  smallerblocksize ← smaller_of blktype;
  KASSERT (KSEG0 <=? prpage) ;;
  KASSERT (prpage <? KSEG1) ;;
  KASSERT (freelist_offset pr <? PAGE_SIZE) ;;
  KASSERT (freelist_offset pr mod blocksize =? 0) ;;
  '(isfree, n) ← check_freelist (Z.to_nat (MAXBLOCKS + 1)) prpage blocksize (prpage + freelist_offset pr) (replicate 8 0) 0;
  KASSERT (n =? nfree pr) ;;
  for_loop (Z.to_nat (PAGE_SIZE / blocksize)) 0 (λ i,
    b ← bit_isset isfree i;
    if (b : bool) then mret tt else checkguardband (prpage + i * blocksize) smallerblocksize blocksize).

(** The loops over the lists of pages: counting, at most [TOTAL_PAGEREFS]. *)
Definition LIST_FUEL : nat := Z.to_nat (TOTAL_PAGEREFS + 1).
Fixpoint check_list (next : pageref → Z) (fuel : nat) (p c : Z) : M heap Z :=
  match fuel with
  | O => panic
  | S fuel' =>
      if p =? 0 then mret c else
      checksubpage p ;;
      KASSERT (c <? TOTAL_PAGEREFS) ;;
      pr ← load_ref p;
      check_list next fuel' (next pr) (c + 1)
  end.

Fixpoint check_sizes (ts : list Z) (sc : Z) : M heap Z :=
  match ts with
  | [] => mret sc
  | t :: ts' =>
      b ← get_sizebase t;
      sc ← check_list next_samesize LIST_FUEL b sc;
      check_sizes ts' sc
  end.

Definition checksubpages : M heap unit :=
  h ← spinlock_do_i_hold;
  KASSERT h ;;
  sc ← check_sizes (seqZ 0 NSIZES) 0;
  b ← gets allbase;
  ac ← check_list next_all LIST_FUEL b 0;
  KASSERT (sc =? ac).

(** ** Labels, and printing the heap *)

Definition LABEL_PTROFFSET : Z := 8.
Definition LABEL_OVERHEAD : Z := LABEL_PTROFFSET.

Definition establishlabel (block label : Z) : M heap Z :=
  g ← gets mallocgeneration;
  store32 block label ;;
  store32 (block + 4) g ;;
  mret (block + LABEL_PTROFFSET).

(** The first loop of [dump_subpage]; [fuel] bounds the length of the free list. *)
Fixpoint mark_freelist (fuel : nat) (prpage blocksize fl : Z) (isfree : list Z) : M heap (list Z) :=
  match fuel with
  | O => panic
  | S fuel' =>
      if fl =? 0 then mret isfree else
      isfree ← bit_set isfree (w32 (fl - prpage) / blocksize);
      next ← load32 fl;
      mark_freelist fuel' prpage blocksize next isfree
  end.

(** A line that [dump_subpage] prints. *)
Record dump_line := mkLine { dl_size : Z; dl_addr : Z; dl_label : Z }.

Fixpoint dump_blocks (n : nat) (i prpage blocksize generation : Z) (isfree : list Z) : M heap (list dump_line) :=
  match n with
  | O => mret []
  | S n' =>
      b ← bit_isset isfree i;
      line ← (if (b : bool) then mret [] else
              let blockaddr := prpage + i * blocksize in
              g ← load32 (blockaddr + 4);
              if negb (g =? generation) then mret [] else
              label ← load32 blockaddr;
              mret [mkLine blocksize blockaddr label]);
      rest ← dump_blocks n' (i + 1) prpage blocksize generation isfree;
      mret (line ++ rest)
  end.

Definition dump_subpage (p generation : Z) : M heap (list dump_line) :=
  pr ← load_ref p;
  blocksize ← blocksize_of (PR_BLOCKTYPE pr);
  let numblocks := PAGE_SIZE / blocksize in
  let numfreewords := (numblocks + 31) / 32 in
  let prpage := PR_PAGEADDR pr in
  isfree ← mark_freelist (Z.to_nat (MAXBLOCKS + 1)) prpage blocksize (w32 (prpage + freelist_offset pr))
             (replicate (Z.to_nat numfreewords) 0);
  dump_blocks (Z.to_nat numblocks) 0 prpage blocksize generation isfree.

Fixpoint dump_list (fuel : nat) (p generation : Z) : M heap (list dump_line) :=
  match fuel with
  | O => panic
  | S fuel' =>
      if p =? 0 then mret [] else
      l ← dump_subpage p generation;
      pr ← load_ref p;
      rest ← dump_list fuel' (next_samesize pr) generation;
      mret (l ++ rest)
  end.

Fixpoint dump_subpages (ts : list Z) (generation : Z) : M heap (list dump_line) :=
  match ts with
  | [] => mret []
  | t :: ts' =>
      b ← get_sizebase t;
      l ← dump_list LIST_FUEL b generation;
      rest ← dump_subpages ts' generation;
      mret (l ++ rest)
  end.

Definition kheap_nextgeneration : M heap unit :=
  spinlock_acquire ;;
  g ← gets mallocgeneration;
  modify (set_generation (w32 (g + 1))) ;;
  spinlock_release.

Definition kheap_dump : M heap (list dump_line) :=
  spinlock_acquire ;;
  g ← gets mallocgeneration;
  l ← dump_subpages (seqZ 0 NSIZES) g;
  spinlock_release ;;
  mret l.

(** [for (i = 0; i <= mallocgeneration; i++)], with [n] rounds left. *)
Fixpoint dump_generations (n : nat) (i : Z) : M heap (list dump_line) :=
  match n with
  | O => mret []
  | S n' =>
      l ← dump_subpages (seqZ 0 NSIZES) i;
      rest ← dump_generations n' (i + 1);
      mret (l ++ rest)
  end.

Definition kheap_dumpall : M heap (list dump_line) :=
  spinlock_acquire ;;
  g ← gets mallocgeneration;
  l ← dump_generations (Z.to_nat (g + 1)) 0;
  spinlock_release ;;
  mret l.

(** What [subpage_stats] prints: address, block size, free blocks of all blocks, and
    which blocks are free. *)
Record page_stats := mkStats { ps_addr : Z; ps_size : Z; ps_nfree : Z; ps_free : list bool }.

Fixpoint stats_freelist (fuel : nat) (prpage blocksize n fl : Z) (freemap : list Z) : M heap (list Z) :=
  match fuel with
  | O => panic
  | S fuel' =>
      if fl =? 0 then mret freemap else
      let index := (fl - prpage) / blocksize in
      KASSERT (index <? n) ;;
      freemap ← bit_set freemap index;
      next ← load32 fl;
      stats_freelist fuel' prpage blocksize n next freemap
  end.

Fixpoint stats_bits (freemap : list Z) (idx : list Z) : M heap (list bool) :=
  match idx with
  | [] => mret []
  | i :: idx' => b ← bit_isset freemap i; rest ← stats_bits freemap idx'; mret (b :: rest)
  end.

Definition subpage_stats (p : Z) : M heap page_stats :=
  checksubpage p ;;
  h ← spinlock_do_i_hold;
  KASSERT h ;;
  pr ← load_ref p;
  let prpage := PR_PAGEADDR pr in
  let blktype := PR_BLOCKTYPE pr in
  KASSERT ((0 <=? blktype) && (blktype <? NSIZES)) ;;
  blocksize ← blocksize_of blktype;
  let n := PAGE_SIZE / blocksize in
  KASSERT (n <=? 32 * 8) ;;
  freemap ← (if negb (freelist_offset pr =? INVALID_OFFSET) then
               stats_freelist (Z.to_nat (MAXBLOCKS + 1)) prpage blocksize n (prpage + freelist_offset pr) (replicate 8 0)
             else mret (replicate 8 0));
  bs ← stats_bits freemap (seqZ 0 n);
  mret (mkStats prpage blocksize (nfree pr) bs).

Fixpoint stats_list (fuel : nat) (p : Z) : M heap (list page_stats) :=
  match fuel with
  | O => panic
  | S fuel' =>
      if p =? 0 then mret [] else
      x ← subpage_stats p;
      pr ← load_ref p;
      rest ← stats_list fuel' (next_all pr);
      mret (x :: rest)
  end.

Definition kheap_printstats : M heap (list page_stats) :=
  spinlock_acquire ;;
  b ← gets allbase;
  l ← stats_list LIST_FUEL b;
  spinlock_release ;;
  mret l.

(** ** Pagerefs *)

(** The search of [allocpageref] within a root: the first clear bit, which it sets. *)
Fixpoint find_slot (n : nat) (j : Z) (ws : list Z) : M heap (option Z) :=
  match n with
  | O => mret None
  | S n' =>
      b ← bit_isset ws j;
      if (b : bool) then find_slot n' (j + 1) ws else mret (Some j)
  end.

(** The word loop: a full word is skipped; any other word has a clear bit. *)
Fixpoint find_word (n : nat) (i : Z) (ws : list Z) : M heap (option Z) :=
  match n with
  | O => mret None
  | S n' =>
      w ← deref (znth ws i);
      if w =? 2 ^ 32 - 1 then find_word n' (i + 1) ws else
      r ← find_slot 32 (32 * i) ws;
      match r with
      | Some j => mret (Some j)
      | None => panic
      end
  end.

(** The loop over the roots: the root and the index of the slot that has been taken. *)
Fixpoint take_slot (n : nat) (whichroot : Z) : M heap (option (Z * Z)) :=
  match n with
  | O => mret None
  | S n' =>
      root ← get_root whichroot;
      if numinuse root >=? NPAGEREFS_PER_PAGE then take_slot n' (whichroot + 1) else
      r ← find_word (Z.to_nat INUSE_WORDS) 0 (pagerefs_inuse root);
      match r with
      | None => take_slot n' (whichroot + 1)
      | Some j =>
          ws ← bit_set (pagerefs_inuse root) j;
          put_root whichroot (mkRoot (page root) ws (numinuse root + 1)) ;;
          mret (Some (whichroot, j))
      end
  end.

Fixpoint free_slot (n : nat) (whichroot p : Z) : M heap unit :=
  match n with
  | O => panic
  | S n' =>
      root ← get_root whichroot;
      if page root =? 0 then KASSERT (numinuse root =? 0) ;; free_slot n' (whichroot + 1) p else
      let j := w32 ((p - page root) / SIZEOF_PAGEREF) in
      if j <? NPAGEREFS_PER_PAGE then
        w ← deref (znth (pagerefs_inuse root) (j / 32));
        KASSERT (negb (Z.land w (bit_mask j) =? 0)) ;;
        KASSERT (numinuse root >? 0) ;;
        put_root whichroot
          (mkRoot (page root) (zset (pagerefs_inuse root) (j / 32) (Z.land w (Z.lnot (bit_mask j)))) (numinuse root - 1))
      else free_slot n' (whichroot + 1) p
  end.

Definition freepageref (p : Z) : M heap unit := free_slot (Z.to_nat NUM_PAGEREFPAGES) 0 p.

(** Where a pointer to a pageref is kept: the target of [guy] in [remove_lists]. *)
Inductive place := InSizebases (t : Z) | InAllbase | InSamesize (p : Z) | InAll (p : Z).

Definition load_place (g : place) : M heap Z :=
  match g with
  | InSizebases t => get_sizebase t
  | InAllbase => gets allbase
  | InSamesize p => pr ← load_ref p; mret (next_samesize pr)
  | InAll p => pr ← load_ref p; mret (next_all pr)
  end.

Definition store_place (g : place) (x : Z) : M heap unit :=
  match g with
  | InSizebases t => put_sizebase t x
  | InAllbase => modify (set_allbase x)
  | InSamesize p => pr ← load_ref p;
                    store_ref p (mkPageref x (next_all pr) (pageaddr_and_blocktype pr) (freelist_offset pr) (nfree pr))
  | InAll p => pr ← load_ref p;
               store_ref p (mkPageref (next_samesize pr) x (pageaddr_and_blocktype pr) (freelist_offset pr) (nfree pr))
  end.

(** The loops of [remove_lists]: [guy] goes from the base of the list to the fields that link it. *)
Fixpoint unlink (next : pageref → Z) (step : Z → place) (fuel : nat) (guy : place) (p : Z) : M heap unit :=
  match fuel with
  | O => panic
  | S fuel' =>
      x ← load_place guy;
      if x =? 0 then mret tt else
      checksubpage x ;;
      if x =? p then pr ← load_ref p; store_place guy (next pr)
      else unlink next step fuel' (step x) p
  end.

Definition remove_lists (p blktype : Z) : M heap unit :=
  KASSERT ((0 <=? blktype) && (blktype <? NSIZES)) ;;
  unlink next_samesize InSamesize LIST_FUEL (InSizebases blktype) p ;;
  unlink next_all InAll LIST_FUEL InAllbase p.

Fixpoint blocktype_loop (ss : list Z) (i clientsz : Z) : M heap Z :=
  match ss with
  | [] => panic
  | s :: ss' => if clientsz <=? s then mret i else blocktype_loop ss' (i + 1) clientsz
  end.
Definition blocktype (clientsz : Z) : M heap Z := blocktype_loop sizes 0 clientsz.

(** ** Programs that call the page allocator

    [Act m k] runs [m] and goes on with [k]; [AllocK n k] calls [alloc_kpages(n)] and [FreeK va k]
    calls [free_kpages(va)]; [Yield k] is a point where the spinlock has been released. *)

Inductive T (A : Type) : Type :=
| Ret (a : A)
| Act {X : Type} (m : M heap X) (k : X → T A)
| AllocK (n : Z) (k : Z → T A)
| FreeK (va : Z) (k : T A)
| Yield (k : T A).
Arguments Ret {A} a.
Arguments Act {A X} m k.
Arguments AllocK {A} n k.
Arguments FreeK {A} va k.
Arguments Yield {A} k.

#[global] Instance T_ret : MRet T := λ A a, Ret a.
#[global] Instance T_bind : MBind T := λ A B f,
  fix bind (p : T A) : T B :=
    match p with
    | Ret a => f a
    | Act m k => Act m (λ x, bind (k x))
    | AllocK n k => AllocK n (λ va, bind (k va))
    | FreeK va k => FreeK va (bind k)
    | Yield k => Yield (bind k)
    end.

Definition act {X} (m : M heap X) : T X := Act m Ret.
Definition alloc_kpages (n : Z) : T Z := AllocK n Ret.
Definition free_kpages (va : Z) : T unit := FreeK va (Ret tt).
Definition yield : T unit := Yield (Ret tt).

(** Running a program up to its next stop. *)
Fixpoint exec {A} (p : T A) (h : heap) : outcome (T A * heap) :=
  match p with
  | Act m k => match m h with Done (x, h') => exec (k x) h' | Panic => Panic end
  | _ => Done (p, h)
  end.

(** ** Allocation *)

Definition allocpagerefpage (whichroot : Z) : T unit :=
  act (root ← get_root whichroot; KASSERT (page root =? 0) ;; spinlock_release) ;;
  va ← alloc_kpages 1;
  act spinlock_acquire ;;
  if va =? 0 then mret tt else
  act (KASSERT (va mod PAGE_SIZE =? 0)) ;;
  root ← act (get_root whichroot);
  if negb (page root =? 0) then
    act spinlock_release ;;
    free_kpages va ;;
    act (spinlock_acquire ;; root ← get_root whichroot; KASSERT (negb (page root =? 0)))
  else act (put_root whichroot (mkRoot va (pagerefs_inuse root) (numinuse root))).

Definition allocpageref : T (option Z) :=
  r ← act (take_slot (Z.to_nat NUM_PAGEREFPAGES) 0);
  match r with
  | None => mret None
  | Some (whichroot, j) =>
      root ← act (get_root whichroot);
      (if page root =? 0 then allocpagerefpage whichroot else mret tt) ;;
      root ← act (get_root whichroot);
      if page root =? 0 then mret None else mret (Some (page root + SIZEOF_PAGEREF * j))
  end.

(** The loop of [subpage_kmalloc]: the first page of the size with a free block. *)
Fixpoint find_page (fuel : nat) (p blktype : Z) : M heap (option Z) :=
  match fuel with
  | O => panic
  | S fuel' =>
      if p =? 0 then mret None else
      pr ← load_ref p;
      KASSERT (PR_BLOCKTYPE pr =? blktype) ;;
      checksubpage p ;;
      if nfree pr >? 0 then mret (Some p) else find_page fuel' (next_samesize pr) blktype
  end.

(** [doalloc]: from the choice of the page to the return. *)
Definition doalloc (p clientsz sz label : Z) : M heap Z :=
  pr ← load_ref p;
  KASSERT (freelist_offset pr <? PAGE_SIZE) ;;
  let prpage := PR_PAGEADDR pr in
  let retptr := prpage + freelist_offset pr in
  fl ← load32 retptr;
  let nf := w16 (nfree pr - 1) in
  (if negb (fl =? 0) then
     KASSERT (nf >? 0) ;;
     KASSERT (w32 (fl - prpage) <? PAGE_SIZE) ;;
     store_ref p (mkPageref (next_samesize pr) (next_all pr) (pageaddr_and_blocktype pr) (w16 (fl - prpage)) nf)
   else
     KASSERT (nf =? 0) ;;
     store_ref p (mkPageref (next_samesize pr) (next_all pr) (pageaddr_and_blocktype pr) INVALID_OFFSET nf)) ;;
  retptr ← establishguardband retptr clientsz sz;
  retptr ← establishlabel retptr label;
  checksubpages ;;
  spinlock_release ;;
  mret retptr.

(** Setting up a fresh page, its free list from the last block to the first, and linking it. *)
Definition init_page (p prpage blktype : Z) : M heap unit :=
  blocksize ← blocksize_of blktype;
  let n := w16 (PAGE_SIZE / blocksize) in
  store32 prpage 0 ;;
  for_loop (Z.to_nat (n - 1)) 1 (λ i,
    store32 (prpage + i * blocksize) (prpage + (i - 1) * blocksize) ;;
    KASSERT (negb (prpage + i * blocksize =? prpage + (i - 1) * blocksize))) ;;
  let fla := if n >? 1 then prpage + (n - 1) * blocksize else prpage in
  KASSERT (w16 (fla - prpage) =? (n - 1) * blocksize) ;;
  b ← get_sizebase blktype;
  a ← gets allbase;
  store_ref p (mkPageref b a (MKPAB prpage blktype) (w16 (fla - prpage)) n) ;;
  put_sizebase blktype p ;;
  modify (set_allbase p).

(** After [allocpageref]. *)
Definition with_ref (blktype clientsz sz label prpage : Z) (p : option Z) : T Z :=
  match p with
  | None => act spinlock_release ;; free_kpages prpage ;; mret 0
  | Some p => act (init_page p prpage blktype ;; doalloc p clientsz sz label)
  end.

(** After [alloc_kpages], when no page had a free block. *)
Definition with_page (blktype clientsz sz label prpage : Z) : T Z :=
  if prpage =? 0 then mret 0 else
  act (KASSERT (prpage mod PAGE_SIZE =? 0) ;; fill_deadbeef prpage PAGE_SIZE ;; spinlock_acquire) ;;
  p ← allocpageref;
  with_ref blktype clientsz sz label prpage p.

Definition subpage_kmalloc (sz label : Z) : T Z :=
  let clientsz := sz in
  let sz := w32 (sz + GUARD_OVERHEAD) in
  let clientsz := w32 (clientsz + LABEL_PTROFFSET) in
  let sz := w32 (sz + LABEL_PTROFFSET) in
  '(blktype, sz, r) ← act (blktype ← blocktype sz;
                           sz ← blocksize_of blktype;
                           spinlock_acquire ;;
                           checksubpages ;;
                           b ← get_sizebase blktype;
                           r ← find_page LIST_FUEL b blktype;
                           mret (blktype, sz, r));
  match r with
  | Some p => act (doalloc p clientsz sz label)
  | None =>
      act spinlock_release ;;
      prpage ← alloc_kpages 1;
      with_page blktype clientsz sz label prpage
  end.

(** ** Freeing *)

(** The search of [subpage_kfree] for the page of the block. *)
Fixpoint find_owner (fuel : nat) (p ptraddr : Z) : M heap (option Z) :=
  match fuel with
  | O => panic
  | S fuel' =>
      if p =? 0 then mret None else
      pr ← load_ref p;
      let prpage := PR_PAGEADDR pr in
      let blktype := PR_BLOCKTYPE pr in
      KASSERT ((0 <=? blktype) && (blktype <? NSIZES)) ;;
      checksubpage p ;;
      if (prpage <=? ptraddr) && (ptraddr <? prpage + PAGE_SIZE) then mret (Some p)
      else find_owner fuel' (next_all pr) ptraddr
  end.

(** [for (fl2 = fl->next; fl2 != NULL; fl2 = fl2->next) KASSERT(fl2 != fl)] *)
Fixpoint not_on_list (fuel : nat) (fl2 fl : Z) : M heap unit :=
  match fuel with
  | O => panic
  | S fuel' =>
      if fl2 =? 0 then mret tt else
      KASSERT (negb (fl2 =? fl)) ;;
      next ← load32 fl2;
      not_on_list fuel' next fl
  end.

(** Putting the block at [ptraddr] back on the free list of its page [p]; when the page has become
    free it leaves the heap, and its address is returned. *)
Definition put_block (p ptraddr : Z) : M heap (option Z) :=
  pr ← load_ref p;
  let prpage := PR_PAGEADDR pr in
  let blktype := PR_BLOCKTYPE pr in
  let offset := ptraddr - prpage in
  blocksize ← blocksize_of blktype;
  KASSERT (negb ((offset >=? PAGE_SIZE) || negb (offset mod blocksize =? 0))) ;;
  smallerblocksize ← smaller_of blktype;
  checkguardband ptraddr smallerblocksize blocksize ;;
  fill_deadbeef ptraddr blocksize ;;
  let fl := prpage + offset in
  (if freelist_offset pr =? INVALID_OFFSET then store32 fl 0
   else
     store32 fl (prpage + freelist_offset pr) ;;
     not_on_list (Z.to_nat (MAXBLOCKS + 1)) (prpage + freelist_offset pr) fl) ;;
  let nf := w16 (nfree pr + 1) in
  store_ref p (mkPageref (next_samesize pr) (next_all pr) (pageaddr_and_blocktype pr) (w16 offset) nf) ;;
  KASSERT (nf <=? PAGE_SIZE / blocksize) ;;
  if nf =? PAGE_SIZE / blocksize then
    remove_lists p blktype ;;
    freepageref p ;;
    spinlock_release ;;
    mret (Some prpage)
  else spinlock_release ;; mret None.

Definition subpage_kfree (ptr : Z) : T Z :=
  let ptraddr := ptr in
  if ptraddr mod PAGE_SIZE =? 0 then mret (-1) else
  let ptraddr := w32 (ptraddr - GUARD_PTROFFSET) in
  if ptraddr mod PAGE_SIZE =? 0 then mret (-1) else
  let ptraddr := w32 (ptraddr - LABEL_PTROFFSET) in
  o ← act (spinlock_acquire ;;
           checksubpages ;;
           a ← gets allbase;
           find_owner LIST_FUEL a ptraddr);
  match o with
  | None => act spinlock_release ;; mret (-1)
  | Some p =>
      whole ← act (put_block p ptraddr);
      (match whole with Some prpage => free_kpages prpage | None => yield end) ;;
      act (spinlock_acquire ;; checksubpages ;; spinlock_release) ;;
      mret 0
  end.

(** ** The interface *)

Definition kmalloc (sz label : Z) : T Z :=
  let checksz := w32 (sz + GUARD_OVERHEAD + LABEL_OVERHEAD) in
  if checksz >=? LARGEST_SUBPAGE_SIZE then
    let npages := w32 (sz + PAGE_SIZE - 1) / PAGE_SIZE in
    address ← alloc_kpages npages;
    if address =? 0 then mret 0 else
    act (KASSERT (address mod PAGE_SIZE =? 0)) ;;
    mret address
  else subpage_kmalloc sz label.

Definition kfree (ptr : Z) : T unit :=
  if ptr =? 0 then mret tt else
  r ← subpage_kfree ptr;
  if negb (r =? 0) then
    act (KASSERT (ptr mod PAGE_SIZE =? 0)) ;;
    free_kpages ptr
  else mret tt.

End Kmalloc.
