(* ===== verification/KmallocMem.v ===== *)
(** * Bytes, bits and block sizes of the kernel heap

    What the allocator's code relies on below the level of pages: reading back what was
    written, bitmaps kept in words, the table of block sizes, and the state of a single
    block, free or in use, with the checks that accept it. *)

From Stdlib Require Import ZArith Lia.
From stdpp Require Import base numbers list gmap.
From S2P Require Import Prelude Bitmap Quad Coremap Kmalloc.

Module KmallocMem.
Import Coremap(PAGE_SIZE, KSEG0).
Import Kmalloc.

(** ** Memory *)

Section memory.
Implicit Types (m : gmap Z Z) (a b x : Z).

(** The two memories agree on [lo, hi). *)
Definition agree m m' lo hi : Prop := ∀ a, lo ≤ a < hi → rd8 m' a = rd8 m a.

Lemma agree_refl m lo hi : agree m m lo hi.
Proof. by intros a _. Qed.
Lemma agree_trans m m' m'' lo hi : agree m m' lo hi → agree m' m'' lo hi → agree m m'' lo hi.
Proof. intros H1 H2 a Ha. by rewrite H2, H1. Qed.
Lemma agree_sub m m' lo hi lo' hi' : agree m m' lo hi → lo ≤ lo' → hi' ≤ hi → agree m m' lo' hi'.
Proof. intros H Hl Hh a Ha. apply H. lia. Qed.

Lemma rd8_wr8 m a x b : rd8 (wr8 m a x) b = if decide (a = b) then x mod 256 else rd8 m b.
Proof.
  unfold rd8, wr8. destruct (decide (a = b)) as [->|Hne]; [by rewrite lookup_insert_eq|by rewrite lookup_insert_ne].
Qed.

Lemma wr8_agree m a x lo hi : a < lo ∨ hi ≤ a → agree m (wr8 m a x) lo hi.
Proof. intros H b Hb. rewrite rd8_wr8, decide_False by lia. done. Qed.
Lemma wr16_agree m a x lo hi : a + 2 ≤ lo ∨ hi ≤ a → agree m (wr16 m a x) lo hi.
Proof. intros H. eapply agree_trans; apply wr8_agree; lia. Qed.
Lemma wr32_agree m a x lo hi : a + 4 ≤ lo ∨ hi ≤ a → agree m (wr32 m a x) lo hi.
Proof. intros H. eapply agree_trans; apply wr16_agree; lia. Qed.

(** All changes lie in [lo, hi). *)
Definition changed_in m m' lo hi : Prop := ∀ a, a < lo ∨ hi ≤ a → rd8 m' a = rd8 m a.

Lemma changed_refl m lo hi : changed_in m m lo hi.
Proof. by intros a _. Qed.
Lemma changed_trans m m' m'' lo hi : changed_in m m' lo hi → changed_in m' m'' lo hi → changed_in m m'' lo hi.
Proof. intros H1 H2 a Ha. by rewrite H2, H1. Qed.
Lemma changed_mono m m' lo hi lo' hi' : changed_in m m' lo hi → lo' ≤ lo → hi ≤ hi' → changed_in m m' lo' hi'.
Proof. intros H Hl Hh a Ha. apply H. lia. Qed.
Lemma changed_agree m m' lo hi lo' hi' : changed_in m m' lo hi → hi' ≤ lo ∨ hi ≤ lo' → agree m m' lo' hi'.
Proof. intros H Hd a Ha. apply H. lia. Qed.
Lemma wr8_changed m a x : changed_in m (wr8 m a x) a (a + 1).
Proof. intros b Hb. rewrite rd8_wr8, decide_False by lia. done. Qed.
Lemma wr16_changed m a x : changed_in m (wr16 m a x) a (a + 2).
Proof. apply (changed_trans _ (wr8 m a (x / 256))); (eapply changed_mono; [apply wr8_changed|lia..]). Qed.
Lemma wr32_changed m a x : changed_in m (wr32 m a x) a (a + 4).
Proof. apply (changed_trans _ (wr16 m a (x / 65536))); (eapply changed_mono; [apply wr16_changed|lia..]). Qed.

Lemma rd16_agree m m' a : agree m m' a (a + 2) → rd16 m' a = rd16 m a.
Proof. intros H. unfold rd16. rewrite !H by lia. done. Qed.
Lemma rd32_agree m m' a : agree m m' a (a + 4) → rd32 m' a = rd32 m a.
Proof. intros H. unfold rd32. rewrite !(rd16_agree m m'); [done|by eapply agree_sub; [exact H|lia..]..]. Qed.

Lemma rd16_wr16 m a x : 0 ≤ x < 65536 → rd16 (wr16 m a x) a = x.
Proof.
  intros Hx. unfold rd16, wr16. rewrite !rd8_wr8, (decide_True (P := a + 1 = a + 1)) by done.
  destruct (decide (a + 1 = a)); [lia|]. rewrite decide_True by done. rewrite (Z.mod_small (x / 256)).
  - Z.to_euclidean_division_equations. lia.
  - split; [apply Z.div_pos; lia|apply Z.div_lt_upper_bound; lia].
Qed.
Lemma rd32_wr32 m a x : 0 ≤ x < 2 ^ 32 → rd32 (wr32 m a x) a = x.
Proof.
  intros Hx. unfold rd32, wr32. set (m1 := wr16 m a (x / 65536)).
  rewrite (rd16_agree m1 (wr16 m1 (a + 2) x) a) by (apply wr16_agree; lia). unfold m1.
  rewrite rd16_wr16 by (split; [apply Z.div_pos; lia|apply Z.div_lt_upper_bound; lia]).
  assert (∀ m', rd16 (wr16 m' (a + 2) x) (a + 2) = x mod 65536) as ->.
  { intros m'. unfold rd16, wr16. rewrite !rd8_wr8, (decide_True (P := a + 2 + 1 = a + 2 + 1)) by done.
    destruct (decide (a + 2 + 1 = a + 2)); [lia|]. rewrite decide_True by done. Z.to_euclidean_division_equations. lia. }
  Z.to_euclidean_division_equations. lia.
Qed.
End memory.

(** A byte is kept as a byte. *)
Lemma rd8_wr8_eq m a x : 0 ≤ x < 256 → rd8 (wr8 m a x) a = x.
Proof. intros Hx. rewrite rd8_wr8, decide_True by done. by apply Z.mod_small. Qed.

(** *** The instructions *)

Section access.
Context (h : heap).

Lemma wp_load16 a (Q : Z → heap → Prop) : a mod 2 = 0 → Q (rd16 (mem h) a) h → wp (load16 a) Q h.
Proof. intros Ha HQ. unfold load16. wp_go. apply wp_KASSERT; [by apply Z.eqb_eq|]. by wp_go. Qed.
Lemma wp_load32 a (Q : Z → heap → Prop) : a mod 4 = 0 → Q (rd32 (mem h) a) h → wp (load32 a) Q h.
Proof. intros Ha HQ. unfold load32. wp_go. apply wp_KASSERT; [by apply Z.eqb_eq|]. by wp_go. Qed.
Lemma wp_store16 a x (Q : unit → heap → Prop) :
  a mod 2 = 0 → Q tt (set_mem (wr16 (mem h) a x) h) → wp (store16 a x) Q h.
Proof. intros Ha HQ. unfold store16. wp_go. apply wp_KASSERT; [by apply Z.eqb_eq|]. by wp_go. Qed.
Lemma wp_store32 a x (Q : unit → heap → Prop) :
  a mod 4 = 0 → Q tt (set_mem (wr32 (mem h) a x) h) → wp (store32 a x) Q h.
Proof. intros Ha HQ. unfold store32. wp_go. apply wp_KASSERT; [by apply Z.eqb_eq|]. by wp_go. Qed.
Lemma wp_load_ref p pr (Q : pageref → heap → Prop) : refs h !! p = Some pr → Q pr h → wp (load_ref p) Q h.
Proof. intros Hp HQ. unfold load_ref. wp_go. eapply wp_deref; done. Qed.
End access.

(** ** Bits kept in words *)

Definition wbit (ws : list Z) (i : Z) : bool :=
  match znth ws (i / 32) with Some w => Z.testbit w (i mod 32) | None => false end.

Definition words_ok (ws : list Z) : Prop := length ws = 8%nat ∧ Forall (λ w, 0 ≤ w < 2 ^ 32) ws.

Lemma word_index i : 0 ≤ i < 256 → 0 ≤ i / 32 < 8 ∧ 0 ≤ i mod 32 < 32.
Proof. intros Hi. Z.to_euclidean_division_equations. lia. Qed.

Lemma mask_pow2 i : bit_mask i = 2 ^ (i mod 32).
Proof. unfold bit_mask. rewrite Z.shiftl_1_l. done. Qed.

Lemma wbit_word ws i : words_ok ws → 0 ≤ i < 256 →
  ∃ w, znth ws (i / 32) = Some w ∧ 0 ≤ w < 2 ^ 32 ∧ wbit ws i = Z.testbit w (i mod 32).
Proof.
  intros [Hl Hf] Hi. destruct (word_index i Hi) as [Hq _]. destruct (znth_is_Some ws (i / 32)) as [w Hw]; [lia|].
  exists w. split; [done|]. split; [|unfold wbit; by rewrite Hw].
  rewrite Forall_forall in Hf. apply Hf. by eapply znth_elem.
Qed.

Lemma wp_bit_isset ws i h (Q : bool → heap → Prop) : words_ok ws → 0 ≤ i < 256 → Q (wbit ws i) h → wp (bit_isset ws i) Q h.
Proof.
  intros Hws Hi HQ. destruct (wbit_word ws i Hws Hi) as (w & Hw & _ & Hb). destruct (word_index i Hi) as [_ Hm].
  unfold bit_isset. wp_go. eapply wp_deref; [done|]. wp_go. rewrite mask_pow2, Bitmap.land_mask_zero, negb_involutive by lia.
  by rewrite <- Hb.
Qed.

Lemma same_bit i j : 0 ≤ i → 0 ≤ j → i / 32 = j / 32 → i mod 32 = j mod 32 → i = j.
Proof. intros Hi Hj Hq Hr. Z.to_euclidean_division_equations. lia. Qed.

(** Replacing one word. *)
Lemma wbit_zset ws i w' (v : bool) : words_ok ws → 0 ≤ i < 256 → 0 ≤ w' < 2 ^ 32 →
  (∀ k, 0 ≤ k < 32 → Z.testbit w' k = if k =? i mod 32 then v else wbit ws (32 * (i / 32) + k)) →
  words_ok (zset ws (i / 32) w') ∧
  ∀ j, 0 ≤ j < 256 → wbit (zset ws (i / 32) w') j = if decide (j = i) then v else wbit ws j.
Proof.
  intros [Hl Hf] Hi Hw' Hbits. destruct (word_index i Hi) as [Hq Hm]. split.
  { split; [by rewrite length_zset|]. by apply Forall_insert. }
  intros j Hj. destruct (word_index j Hj) as [Hqj Hmj]. unfold wbit at 1.
  destruct (decide (i / 32 = j / 32)) as [He|Hne].
  - rewrite <- He, znth_zset_eq by lia. rewrite Hbits by lia. destruct (Z.eqb_spec (j mod 32) (i mod 32)).
    + rewrite decide_True; [done|]. symmetry. apply same_bit; lia.
    + rewrite decide_False by congruence. f_equal. rewrite He. symmetry. apply Z.div_mod. lia.
  - rewrite znth_zset_ne by lia. rewrite decide_False by congruence. done.
Qed.

Lemma wbit_in_word ws i k : 0 ≤ i → 0 ≤ k < 32 →
  wbit ws (32 * (i / 32) + k) = match znth ws (i / 32) with Some w => Z.testbit w k | None => false end.
Proof.
  intros Hi Hk. unfold wbit. rewrite Z.mul_comm, Z.add_comm, Z.div_add, Z.div_small, Z.add_0_l by lia.
  by rewrite Z.mod_add, Z.mod_small by lia.
Qed.

Lemma word_high w n : 0 ≤ w < 2 ^ 32 → 32 ≤ n → Z.testbit w n = false.
Proof. intros Hw Hn. rewrite <- (Z.mod_small w (2 ^ 32)) by done. by apply Z.mod_pow2_bits_high. Qed.

Lemma lor_range w k : 0 ≤ w < 2 ^ 32 → 0 ≤ k < 32 → 0 ≤ Z.lor w (2 ^ k) < 2 ^ 32.
Proof.
  intros Hw Hk. apply Quad.word_of_bits. intros n Hn. rewrite Z.lor_spec, (word_high w), Z.pow2_bits_false by (done || lia). done.
Qed.
Lemma clear_range w k : 0 ≤ w < 2 ^ 32 → 0 ≤ Z.land w (Z.lnot (2 ^ k)) < 2 ^ 32.
Proof.
  intros Hw. apply Quad.word_of_bits. intros n Hn. by rewrite Z.land_spec, (word_high w).
Qed.

Lemma wp_bit_set ws i h (Q : list Z → heap → Prop) : words_ok ws → 0 ≤ i < 256 →
  (∀ ws', words_ok ws' → (∀ j, 0 ≤ j < 256 → wbit ws' j = if decide (j = i) then true else wbit ws j) → Q ws' h) →
  wp (bit_set ws i) Q h.
Proof.
  intros Hws Hi HQ. destruct (wbit_word ws i Hws Hi) as (w & Hw & Hr & Hb). destruct (word_index i Hi) as [Hq Hm].
  unfold bit_set. wp_go. eapply wp_deref; [done|]. wp_go. rewrite mask_pow2. 
  destruct (wbit_zset ws i (Z.lor w (2 ^ (i mod 32))) true Hws Hi) as [Hok Hbits]; [by apply lor_range| |by apply HQ].
  intros k Hk. rewrite wbit_in_word, Hw, Z.lor_spec, Z.pow2_bits_eqb by lia.
  rewrite (Z.eqb_sym k). destruct (i mod 32 =? k); [apply orb_true_r|apply orb_false_r].
Qed.

Lemma wbit_clear ws i w : words_ok ws → 0 ≤ i < 256 → znth ws (i / 32) = Some w →
  let ws' := zset ws (i / 32) (Z.land w (Z.lnot (bit_mask i))) in
  words_ok ws' ∧ ∀ j, 0 ≤ j < 256 → wbit ws' j = if decide (j = i) then false else wbit ws j.
Proof.
  intros Hws Hi Hw. destruct (word_index i Hi) as [Hq Hm]. destruct (wbit_word ws i Hws Hi) as (w1 & Hw1 & Hr & _).
  assert (w1 = w) as -> by congruence. rewrite mask_pow2. apply wbit_zset; [done|done|by apply clear_range|].
  intros k Hk. rewrite wbit_in_word, Hw, Z.land_spec, Z.lnot_spec, Z.pow2_bits_eqb by lia.
  rewrite (Z.eqb_sym k). destruct (i mod 32 =? k); [apply andb_false_r|apply andb_true_r].
Qed.

Lemma wbit_zeros n i : wbit (replicate n 0) i = false.
Proof.
  unfold wbit. destruct (znth _ _) as [w|] eqn:E; [|done]. apply znth_elem, elem_of_replicate in E as [-> _]. apply Z.bits_0.
Qed.
Lemma zeros_ok : words_ok (replicate 8 0).
Proof. split; [done|]. apply Forall_replicate. lia. Qed.

(** A word that is not full has a clear bit. *)
Lemma full_word w : 0 ≤ w < 2 ^ 32 → (∀ k, 0 ≤ k < 32 → Z.testbit w k = true) → w = 2 ^ 32 - 1.
Proof.
  intros Hw Hall. change (2 ^ 32 - 1) with (Z.ones 32). apply Z.bits_inj'. intros n Hn. rewrite Z.testbit_ones_nonneg by lia.
  destruct (Z.ltb_spec n 32); [by apply Hall|by apply word_high].
Qed.

(** ** Block sizes *)

Definition size (t : Z) : Z := 2 ^ (t + 4).
Definition smaller (t : Z) : Z := if t >? 0 then size (t - 1) else 0.
Definition nblocks (t : Z) : Z := PAGE_SIZE / size t.

Definition is_type (t : Z) : Prop := 0 ≤ t < 8.

Lemma type_cases t : is_type t → t = 0 ∨ t = 1 ∨ t = 2 ∨ t = 3 ∨ t = 4 ∨ t = 5 ∨ t = 6 ∨ t = 7.
Proof. unfold is_type. lia. Qed.

Record size_facts (t : Z) : Prop := {
  sf_range : 16 ≤ size t ≤ 2048;
  sf_mod : size t mod 16 = 0;
  sf_blocks : size t * nblocks t = 4096;
  sf_nblocks : 2 ≤ nblocks t ≤ 256;
  sf_smaller : 0 ≤ smaller t < size t;
  sf_lookup : znth sizes t = Some (size t);
}.
Lemma sizes_ok t : is_type t → size_facts t.
Proof. intros [-> | [-> | [-> | [-> | [-> | [-> | [-> | ->]]]]]]]%type_cases; by split. Qed.

Lemma wp_blocksize_of t h (Q : Z → heap → Prop) : is_type t → Q (size t) h → wp (blocksize_of t) Q h.
Proof. intros Ht HQ. eapply wp_deref; [by apply sf_lookup, sizes_ok|done]. Qed.
Lemma wp_smaller_of t h (Q : Z → heap → Prop) : is_type t → Q (smaller t) h → wp (smaller_of t) Q h.
Proof.
  intros Ht HQ. unfold smaller_of, smaller in *. destruct (Z.gtb_spec t 0); [|by wp_go].
  apply wp_blocksize_of; [unfold is_type in *; lia|done].
Qed.

(** The block type of a request is the first that is large enough. *)
Lemma wp_blocktype sz h (Q : Z → heap → Prop) : 0 < sz ≤ 2048 →
  (∀ t, is_type t → smaller t < sz ≤ size t → Q t h) → wp (blocktype sz) Q h.
Proof.
  intros Hsz HQ. unfold blocktype, sizes. cbn [blocktype_loop].
  repeat match goal with |- wp (if ?a <=? ?b then _ else _) _ _ => destruct (Z.leb_spec a b) end; try lia;
    apply wp_ret, HQ; unfold is_type, smaller, size; simpl; lia.
Qed.

(** ** Blocks *)

(** The words of a free block, the link apart. *)
Definition beefed (m : gmap Z Z) (a bs : Z) : Prop := ∀ i, 1 ≤ i < bs / 4 → rd32 m (a + 4 * i) = DEADBEEF.

(** A block in use, with [csz] bytes between the guard bands. *)
Record guarded (m : gmap Z Z) (a t csz : Z) : Prop := {
  gd_low : rd16 m a = GUARD_HALFWORD;
  gd_lowsize : rd16 m (a + 2) = csz;
  gd_high : rd16 m (a + size t - 4) = GUARD_HALFWORD;
  gd_highsize : rd16 m (a + size t - 2) = csz;
  gd_fill : ∀ b, a + 4 + csz ≤ b < a + size t - 4 → rd8 m b = GUARD_FILLBYTE;
  gd_size : 0 ≤ csz ∧ smaller t < csz + 8 ≤ size t;
}.

Lemma beefed_agree m m' a bs : beefed m a bs → agree m m' a (a + bs) → beefed m' a bs.
Proof.
  intros H Ha i Hi. rewrite (rd32_agree m m'); [by apply H|].
  assert (4 * (bs / 4) ≤ bs) by (apply Z.mul_div_le; lia). apply (agree_sub _ _ _ _ _ _ Ha); lia.
Qed.

(** A block stays in use while its guard bands are left alone. *)
Lemma guarded_agree m m' a t csz : is_type t → guarded m a t csz →
  agree m m' a (a + 4) → agree m m' (a + 4 + csz) (a + size t) → guarded m' a t csz.
Proof.
  intros Ht [H1 H2 H3 H4 H5 H6] Hlo Hhi.
  split; [rewrite (rd16_agree m m')|rewrite (rd16_agree m m')|rewrite (rd16_agree m m')|rewrite (rd16_agree m m')| |done];
    try done; try (by eapply agree_sub; [exact Hlo|lia..]); try (by eapply agree_sub; [exact Hhi|lia..]).
  intros b Hb. rewrite Hhi by lia. by apply H5.
Qed.

Lemma wp_checkdeadbeef a bs h (Q : unit → heap → Prop) :
  beefed (mem h) a bs → a mod 4 = 0 → 4 ≤ bs → Q tt h → wp (checkdeadbeef a bs) Q h.
Proof.
  intros Hb Ha Hbs HQ. assert (1 ≤ bs / 4) by (apply Z.div_le_lower_bound; lia).
  apply (wp_for_loop (λ _ h', h' = h)); [done| |by intros ? ->]. intros i ? Hi ->. apply wp_bind.
  apply wp_load32. { rewrite Z.mul_comm, Z.mod_add by lia. done. }
  apply wp_KASSERT; [|done]. apply Z.eqb_eq, Hb. lia.
Qed.

Lemma wp_checkguardband a t csz h (Q : unit → heap → Prop) : is_type t → a mod 4 = 0 →
  guarded (mem h) a t csz → Q tt h → wp (checkguardband a (smaller t) (size t)) Q h.
Proof.
  intros Ht Ha [H1 H2 H3 H4 H5 H6] HQ. destruct (sizes_ok t Ht) as [Hr Hm _ _ _ _].
  assert (size t mod 4 = 0) as Hm4 by (Z.to_euclidean_division_equations; lia).
  unfold checkguardband. wp_go. apply wp_load16; [Z.to_euclidean_division_equations; lia|]. rewrite H1. wp_check.
  apply wp_load16; [Z.to_euclidean_division_equations; lia|]. rewrite H3. wp_check.
  apply wp_load16; [Z.to_euclidean_division_equations; lia|]. rewrite H2. wp_go.
  apply wp_load16; [Z.to_euclidean_division_equations; lia|].
  replace (a + size t - 4 + 2) with (a + size t - 2) by lia. rewrite H4. wp_go.
  apply wp_KASSERT; [by apply Z.eqb_eq|]. wp_go. apply wp_KASSERT; [unfold GUARD_OVERHEAD; lia|]. wp_go.
  apply wp_KASSERT; [unfold GUARD_OVERHEAD; lia|]. 
  apply (wp_for_loop (λ _ h', h' = h)); [done| |by intros ? ->]. intros i ? Hi ->. wp_go. apply wp_KASSERT; [|done].
  apply Z.eqb_eq, H5. lia.
Qed.

(** The result of a loop of byte stores. *)
Lemma wp_fill_bytes lo hi x h (Q : unit → heap → Prop) : 0 ≤ x < 256 → lo ≤ hi →
  (∀ m, changed_in (mem h) m lo hi → (∀ a, lo ≤ a < hi → rd8 m a = x) → Q tt (set_mem m h)) →
  wp (for_addr lo hi (λ i, store8 i x)) Q h.
Proof.
  intros Hx Hlo HQ. unfold for_addr.
  apply (wp_for_loop (λ i h', ∃ m, h' = set_mem m h ∧ changed_in (mem h) m lo i ∧ ∀ a, lo ≤ a < i → rd8 m a = x)).
  - exists (mem h). split_and!; [by destruct h|apply changed_refl|lia].
  - intros i ? Hi (m & -> & Hout & Hin). unfold store8. wp_go. exists (wr8 m i x). split_and!; [done| |].
    + apply (changed_trans _ m); (eapply changed_mono; [exact Hout || apply wr8_changed|lia..]).
    + intros a Ha. rewrite rd8_wr8. destruct (decide (i = a)); [by apply Z.mod_small|]. apply Hin. lia.
  - intros h' (m & -> & Hout & Hin). replace (lo + Z.of_nat (Z.to_nat (hi - lo))) with hi in * by lia. by apply HQ.
Qed.

Lemma wp_fill_deadbeef a n h (Q : unit → heap → Prop) : a mod 4 = 0 → 0 ≤ n → n mod 4 = 0 →
  (∀ m, changed_in (mem h) m a (a + n) → (∀ i, 0 ≤ i < n / 4 → rd32 m (a + 4 * i) = DEADBEEF) → Q tt (set_mem m h)) →
  wp (fill_deadbeef a n) Q h.
Proof.
  intros Ha Hn Hm HQ. assert (n = 4 * (n / 4)) as Hn4 by (apply Z.div_exact; lia).
  apply (wp_for_loop (λ i h', ∃ m, h' = set_mem m h ∧ changed_in (mem h) m a (a + 4 * i) ∧
    ∀ j, 0 ≤ j < i → rd32 m (a + 4 * j) = DEADBEEF)).
  - exists (mem h). split_and!; [by destruct h|apply changed_refl|lia].
  - intros i ? Hi (m & -> & Hout & Hin). apply wp_store32. { rewrite Z.mul_comm, Z.mod_add by lia. done. }
    exists (wr32 m (a + 4 * i) DEADBEEF). split_and!; [done| |].
    + apply (changed_trans _ m); (eapply changed_mono; [exact Hout || apply wr32_changed|lia..]).
    + intros j Hj. destruct (decide (j = i)) as [->|]; [by apply rd32_wr32|].
      rewrite (rd32_agree m); [apply Hin; lia|]. eapply changed_agree; [apply wr32_changed|lia].
  - intros h' (m & -> & Hout & Hin). rewrite Z.add_0_l, Z2Nat.id in * by lia. rewrite <- Hn4 in Hout. by apply HQ.
Qed.

Lemma wp_establishguardband a t csz h (Q : Z → heap → Prop) : is_type t → a mod 4 = 0 →
  0 ≤ csz → smaller t < csz + 8 ≤ size t →
  (∀ m, changed_in (mem h) m a (a + size t) → guarded m a t csz → Q (a + 4) (set_mem m h)) →
  wp (establishguardband a csz (size t)) Q h.
Proof.
  intros Ht Ha Hc Hs HQ. destruct (sizes_ok t Ht) as [Hr Hm _ _ _ _].
  assert (size t mod 4 = 0) as Hm4 by (Z.to_euclidean_division_equations; lia).
  unfold establishguardband, GUARD_OVERHEAD, w32. rewrite Z.mod_small by lia. wp_check. wp_go. apply wp_KASSERT; [lia|]. wp_go.
  apply wp_store16; [Z.to_euclidean_division_equations; lia|]. wp_go.
  apply wp_store16; [Z.to_euclidean_division_equations; lia|]. cbn [mem set_mem]. set (m2 := wr16 _ _ csz). wp_go.
  apply wp_fill_bytes; [by unfold GUARD_RETBYTE|lia|]. cbn [mem set_mem]. intros m3 Hc3 _. wp_go.
  apply wp_fill_bytes; [by unfold GUARD_FILLBYTE|lia|]. cbn [mem set_mem]. intros m4 Hc4 Hfill. wp_go.
  apply wp_store16; [Z.to_euclidean_division_equations; lia|]. wp_go. apply wp_store16; [Z.to_euclidean_division_equations; lia|].
  cbn [mem set_mem]. set (m5 := wr16 m4 _ GUARD_HALFWORD). set (m6 := wr16 m5 _ csz). wp_go.
  replace (a + 2 + 2) with (a + 4) in * by lia.
  assert (changed_in m2 m6 (a + 4) (a + size t)) as H26.
  { apply (changed_trans _ m3); [eapply changed_mono; [exact Hc3|lia..]|].
    apply (changed_trans _ m4); [eapply changed_mono; [exact Hc4|lia..]|].
    apply (changed_trans _ m5); (eapply changed_mono; [apply wr16_changed|lia..]). }
  assert (changed_in m4 m6 (a + size t - 4) (a + size t)) as H46.
  { apply (changed_trans _ m5); (eapply changed_mono; [apply wr16_changed|lia..]). }
  apply (HQ m6).
  { apply (changed_trans _ m2); [|eapply changed_mono; [exact H26|lia..]].
    apply (changed_trans _ (wr16 (mem h) a GUARD_HALFWORD)); (eapply changed_mono; [apply wr16_changed|lia..]). }
  split; [| | | | |lia].
  - rewrite (rd16_agree m2) by (eapply changed_agree; [exact H26|lia]). unfold m2.
    erewrite rd16_agree; [|eapply changed_agree; [apply wr16_changed|lia]]. by apply rd16_wr16.
  - rewrite (rd16_agree m2) by (eapply changed_agree; [exact H26|lia]). unfold m2. apply rd16_wr16. lia.
  - unfold m6. erewrite rd16_agree; [|eapply changed_agree; [apply wr16_changed|lia]]. by apply rd16_wr16.
  - unfold m6. replace (a + size t - 4 + 2) with (a + size t - 2) by lia. apply rd16_wr16. lia.
  - intros b Hb. rewrite H46 by lia. apply Hfill. lia.
Qed.

Lemma wp_establishlabel a label h (Q : Z → heap → Prop) : a mod 4 = 0 →
  (∀ m, changed_in (mem h) m a (a + 8) → Q (a + 8) (set_mem m h)) → wp (establishlabel a label) Q h.
Proof.
  intros Ha HQ. unfold establishlabel. wp_go. apply wp_store32; [done|]. wp_go.
  apply wp_store32; [Z.to_euclidean_division_equations; lia|]. wp_go. cbn [mem set_mem]. apply HQ.
  apply (changed_trans _ (wr32 (mem h) a label)); (eapply changed_mono; [apply wr32_changed|lia..]).
Qed.

End KmallocMem.
