(* ===== verification/KmallocPages.v ===== *)
(** * Pages of the kernel heap

    What a page of equal blocks looks like: the free blocks form the free list, the
    others are in use.  [checksubpage] accepts such a page, taking the head of the free
    list and putting a block back keep it one, and a fresh page becomes one. *)

From Stdlib Require Import ZArith Lia.
From stdpp Require Import base numbers list gmap.
From S2P Require Import Prelude Coremap Kmalloc KmallocMem.

Module KmallocPages.
Import Coremap(PAGE_SIZE, KSEG0).
Import Kmalloc KmallocMem.

(** A page of the heap: its pageref, its address and block type, the free blocks in the order of
    the free list, and for the blocks in use the number of bytes between the guard bands. *)
Record hpage := mkPage {
  hp_ref : Z;
  hp_page : Z;
  hp_type : Z;
  hp_free : list Z;
  hp_used : gmap Z Z;
}.

#[global] Instance hpage_eq_dec : EqDecision hpage.
Proof. solve_decision. Defined.

Definition block_addr (x : hpage) (b : Z) : Z := hp_page x + b * size (hp_type x).

Fixpoint free_list (m : gmap Z Z) (x : hpage) (fl : Z) (l : list Z) : Prop :=
  match l with
  | [] => fl = 0
  | b :: l' => fl = block_addr x b ∧ beefed m fl (size (hp_type x)) ∧ free_list m x (rd32 m fl) l'
  end.

Definition free_head (x : hpage) : Z :=
  match hp_free x with [] => 0 | b :: _ => block_addr x b end.

Record page_shape (x : hpage) : Prop := {
  ps_type : is_type (hp_type x);
  ps_align : hp_page x mod 4096 = 0;
  ps_range : KSEG0 ≤ hp_page x ∧ hp_page x + 4096 ≤ KSEG1;
  ps_nodup : NoDup (hp_free x);
  ps_blocks : ∀ b, b ∈ hp_free x ∨ is_Some (hp_used x !! b) ↔ 0 ≤ b < nblocks (hp_type x);
  ps_disjoint : ∀ b, b ∈ hp_free x → hp_used x !! b = None;
}.

Record page_mem (m : gmap Z Z) (x : hpage) : Prop := {
  pm_free : free_list m x (free_head x) (hp_free x);
  pm_used : ∀ b csz, hp_used x !! b = Some csz → guarded m (block_addr x b) (hp_type x) csz;
}.

Record ref_of (x : hpage) (pr : pageref) : Prop := {
  ro_page : PR_PAGEADDR pr = hp_page x;
  ro_type : PR_BLOCKTYPE pr = hp_type x;
  ro_free : freelist_offset pr = match hp_free x with [] => INVALID_OFFSET | b :: _ => b * size (hp_type x) end;
  ro_nfree : nfree pr = Z.of_nat (length (hp_free x));
}.

(** ** Shape *)

Section shape.
Context (x : hpage) (Hx : page_shape x).

Lemma shape_free b : b ∈ hp_free x → 0 ≤ b < nblocks (hp_type x).
Proof using Hx. intros Hb. apply (ps_blocks _ Hx). by left. Qed.
Lemma shape_used b csz : hp_used x !! b = Some csz → 0 ≤ b < nblocks (hp_type x).
Proof using Hx. intros Hb. apply (ps_blocks _ Hx). right. by exists csz. Qed.

Lemma block_in_page b : 0 ≤ b < nblocks (hp_type x) →
  hp_page x ≤ block_addr x b ∧ block_addr x b + size (hp_type x) ≤ hp_page x + 4096.
Proof using Hx. intros Hb. destruct (sizes_ok _ (ps_type _ Hx)) as [Hr _ Hn _ _ _]. unfold block_addr. nia. Qed.

Lemma block_aligned b : block_addr x b mod 16 = 0.
Proof using Hx.
  destruct (sizes_ok _ (ps_type _ Hx)) as [_ Hm _ _ _ _]. pose proof (ps_align _ Hx) as Ha. unfold block_addr.
  apply Z.mod_divide in Hm as [k Hk]; [|lia]. apply Z.mod_divide in Ha as [c Hc]; [|lia]. rewrite Hk, Hc.
  replace (c * 4096 + b * (k * 16)) with ((c * 256 + b * k) * 16) by lia. apply Z.mod_mul. lia.
Qed.
Lemma block_aligned4 b : block_addr x b mod 4 = 0.
Proof using Hx. pose proof (block_aligned b). Z.to_euclidean_division_equations. lia. Qed.

(** Two blocks do not overlap. *)
Lemma block_apart b c : b ≠ c →
  block_addr x b + size (hp_type x) ≤ block_addr x c ∨ block_addr x c + size (hp_type x) ≤ block_addr x b.
Proof using Hx. intros Hne. destruct (sizes_ok _ (ps_type _ Hx)) as [Hr _ _ _ _ _]. unfold block_addr. nia. Qed.
Lemma block_inj b c : block_addr x b = block_addr x c → b = c.
Proof using Hx. destruct (sizes_ok _ (ps_type _ Hx)) as [Hr _ _ _ _ _]. unfold block_addr. nia. Qed.
Lemma block_nonnull b : 0 ≤ b → block_addr x b ≠ 0.
Proof using Hx.
  intros Hb. destruct (sizes_ok _ (ps_type _ Hx)) as [Hr _ _ _ _ _]. destruct (ps_range _ Hx). unfold block_addr, KSEG0 in *. nia.
Qed.
Lemma block_word b : 0 ≤ b < nblocks (hp_type x) → 0 ≤ block_addr x b < 2 ^ 32.
Proof using Hx.
  intros Hb. destruct (block_in_page b Hb). destruct (ps_range _ Hx). destruct (sizes_ok _ (ps_type _ Hx)) as [Hr _ _ _ _ _].
  unfold KSEG0, KSEG1 in *. lia.
Qed.

Lemma block_number b : (block_addr x b - hp_page x) mod size (hp_type x) = 0 ∧
  (block_addr x b - hp_page x) / size (hp_type x) = b.
Proof using Hx.
  destruct (sizes_ok _ (ps_type _ Hx)) as [Hr _ _ _ _ _]. unfold block_addr.
  replace (hp_page x + b * size (hp_type x) - hp_page x) with (b * size (hp_type x)) by lia.
  split; [apply Z.mod_mul; lia|apply Z.div_mul; lia].
Qed.
End shape.

(** ** The checks accept a sound page *)

(** The list of the blocks that follow in the free list. *)
Lemma free_list_head m x fl l : free_list m x fl l → fl = match l with [] => 0 | b :: _ => block_addr x b end.
Proof. destruct l; [done|]. by intros [-> _]. Qed.

Lemma check_freelist_ok x h fuel l fl isfree n (Q : list Z * Z → heap → Prop) :
  page_shape x → free_list (mem h) x fl l → NoDup l → (∀ b, b ∈ l → 0 ≤ b < nblocks (hp_type x) ∧ wbit isfree b = false) →
  words_ok isfree → (length l < fuel)%nat →
  (∀ isfree', words_ok isfree' → (∀ j, 0 ≤ j < 256 → wbit isfree' j = bool_decide (j ∈ l) || wbit isfree j) →
     Q (isfree', n + Z.of_nat (length l)) h) →
  wp (check_freelist fuel (hp_page x) (size (hp_type x)) fl isfree n) Q h.
Proof.
  intros Hx. revert l fl isfree n. induction fuel as [|fuel IH]; intros l fl isfree n Hfl Hnd Hl Hws Hf HQ; [lia|].
  cbn [check_freelist]. destruct l as [|b l].
  { simpl in Hfl. subst fl. wp_go. rewrite <- (Z.add_0_r n). apply HQ; [done|]. intros j Hj. by rewrite bool_decide_false by set_solver. }
  destruct Hfl as (-> & Hbeef & Hfl). destruct (Hl b) as [Hb Hbit]; [left|].
  destruct (block_in_page x Hx b Hb) as [Hlo Hhi]. destruct (sizes_ok _ (ps_type _ Hx)) as [Hr _ _ Hnb _ _].
  rewrite (proj2 (Z.eqb_neq _ _) (block_nonnull x Hx b (proj1 Hb))). wp_go.
  destruct (block_number x Hx b) as [Hmod Hdiv].
  apply wp_KASSERT; [apply andb_true_iff; unfold PAGE_SIZE; lia|]. wp_go. apply wp_KASSERT; [by apply Z.eqb_eq|]. wp_go.
  apply wp_checkdeadbeef; [done|by apply block_aligned4|lia|]. wp_go. rewrite Hdiv.
  apply wp_bit_isset; [done|lia|]. rewrite Hbit. wp_check. apply wp_bit_set; [done|lia|]. intros ws' Hws' Hbits. wp_go.
  apply wp_load32; [by apply block_aligned4|]. wp_go. apply NoDup_cons in Hnd as [Hnin Hnd].
  apply wp_KASSERT.
  { apply negb_true_iff, Z.eqb_neq. rewrite (free_list_head _ _ _ _ Hfl). destruct l as [|c l].
    - symmetry. apply block_nonnull; [done|lia].
    - intros Heq%(block_inj x Hx). subst c. apply Hnin. left. }
  apply IH with (l := l); try done; [|simpl in Hf; lia|].
  - intros c Hc. destruct (Hl c) as [Hcr Hcb]; [by right|]. split; [done|]. rewrite Hbits by lia.
    rewrite decide_False by (intros ->; done). done.
  - intros isfree' Hok Hbits'. replace (n + 1 + Z.of_nat (length l)) with (n + Z.of_nat (length (b :: l))) by (simpl; lia).
    apply HQ; [done|]. intros j Hj. rewrite Hbits' by done. rewrite Hbits by done. destruct (decide (j = b)) as [->|Hne].
    + rewrite orb_true_r. by rewrite bool_decide_true by left.
    + f_equal. apply bool_decide_ext. rewrite elem_of_cons. naive_solver.
Qed.

Lemma free_length x : page_shape x → Z.of_nat (length (hp_free x)) ≤ nblocks (hp_type x).
Proof.
  intros Hx. destruct (sizes_ok _ (ps_type _ Hx)) as [_ _ _ Hnb _ _].
  assert (hp_free x ⊆+ seqZ 0 (nblocks (hp_type x))) as Hsub.
  { apply NoDup_submseteq; [apply Hx|]. intros b Hb%(shape_free x Hx). apply elem_of_seqZ. lia. }
  apply submseteq_length in Hsub. rewrite length_seqZ in Hsub. lia.
Qed.

Lemma wp_checksubpage x p pr h (Q : unit → heap → Prop) :
  klock h = true → refs h !! p = Some pr → page_shape x → page_mem (mem h) x → ref_of x pr → Q tt h →
  wp (checksubpage p) Q h.
Proof.
  intros Hk Hp Hx [Hfree Hused] [Hpg Hty Hoff Hnf] HQ. unfold checksubpage, spinlock_do_i_hold. wp_go. rewrite Hk. wp_check.
  apply (wp_load_ref h p pr); [done|]. rewrite Hpg, Hty. pose proof (ps_type _ Hx) as Ht.
  destruct (sizes_ok _ Ht) as [Hr Hm16 Hbl Hnb _ _]. destruct (ps_range _ Hx) as [Hlo Hhi].
  pose proof (free_length x Hx) as Hlen. unfold free_head in Hfree. destruct (hp_free x) as [|b l] eqn:El.
  { rewrite Hoff, Z.eqb_refl. apply wp_KASSERT; [|done]. by rewrite Hnf. }
  assert (0 ≤ b < nblocks (hp_type x)) as Hb by (apply (shape_free x Hx); rewrite El; left).
  destruct (Z.eqb_spec (freelist_offset pr) INVALID_OFFSET) as [He|_]; [unfold INVALID_OFFSET in He; nia|]. wp_go.
  apply wp_KASSERT; [unfold is_type, NSIZES in *; apply andb_true_iff; lia|]. wp_go.
  apply wp_blocksize_of; [done|]. wp_go. apply wp_smaller_of; [done|]. wp_go.
  apply wp_KASSERT; [lia|]. wp_go. apply wp_KASSERT; [lia|]. wp_go. rewrite Hoff.
  apply wp_KASSERT; [unfold PAGE_SIZE; nia|]. wp_go. apply wp_KASSERT; [apply Z.eqb_eq, Z.mod_mul; lia|]. wp_go.
  eapply (check_freelist_ok x h _ (b :: l)); [done|exact Hfree|rewrite <- El; apply Hx| |apply zeros_ok|change (MAXBLOCKS + 1) with 257; cbn [length] in *; lia|].
  { intros c Hc. split; [apply (shape_free x Hx); by rewrite El|apply wbit_zeros]. }
  intros isfree Hws Hbits. wp_go. apply wp_KASSERT; [apply Z.eqb_eq; lia|].
  apply (wp_for_loop (λ _ h', h' = h)); [done| |by intros ? ->]. intros i ? Hi ->. fold (nblocks (hp_type x)) in Hi.
  apply wp_bind, wp_bit_isset; [done|lia|]. rewrite Hbits, wbit_zeros, orb_false_r by lia.
  case_bool_decide as Hin; [by wp_go|]. destruct (proj2 (ps_blocks _ Hx i)) as [Hf|[csz Hc]]; [lia|by rewrite El in Hf|].
  apply (wp_checkguardband _ _ csz); [done|by apply (block_aligned4 x Hx i)|by apply Hused|done].
Qed.

(** ** Changes to a page *)

Lemma free_list_agree m m' x fl l : 16 ≤ size (hp_type x) → free_list m x fl l →
  (∀ b, b ∈ l → agree m m' (block_addr x b) (block_addr x b + size (hp_type x))) → free_list m' x fl l.
Proof.
  intros Hs. revert fl. induction l as [|b l IH]; intros fl Hfl Hag; [done|]. destruct Hfl as (-> & Hbeef & Hfl).
  assert (agree m m' (block_addr x b) (block_addr x b + size (hp_type x))) as Hb by (apply Hag; left).
  cbn [free_list]. split_and!; [done|by eapply beefed_agree|].
  rewrite (rd32_agree m m') by (eapply agree_sub; [exact Hb|lia..]). apply IH; [done|]. intros c Hc. apply Hag. by right.
Qed.

Lemma free_list_ext m x y fl l : hp_page x = hp_page y → hp_type x = hp_type y → free_list m x fl l → free_list m y fl l.
Proof.
  intros Hp Ht. revert fl. induction l as [|b l IH]; intros fl; [done|]. cbn [free_list]. unfold block_addr. rewrite Hp, Ht.
  intros (-> & Hb & Hf). split_and!; [done..|]. by apply IH.
Qed.

Lemma page_mem_agree m m' x : page_shape x → page_mem m x → agree m m' (hp_page x) (hp_page x + 4096) → page_mem m' x.
Proof.
  intros Hx [Hf Hu] Hag. pose proof (ps_type _ Hx) as Ht. destruct (sizes_ok _ Ht) as [Hr _ _ _ _ _]. split.
  - apply (free_list_agree m); [lia|done|]. intros b Hb%(shape_free x Hx). destruct (block_in_page x Hx b Hb).
    by eapply agree_sub; [exact Hag|lia..].
  - intros b csz Hb. pose proof (shape_used x Hx b csz Hb) as Hbr. destruct (block_in_page x Hx b Hbr).
    pose proof (gd_size _ _ _ _ (Hu b csz Hb)). apply (guarded_agree m); [done|by apply Hu|by eapply agree_sub; [exact Hag|lia..]..].
Qed.

(** A block leaves the free list. *)
Definition take (b csz : Z) (l : list Z) (x : hpage) : hpage :=
  mkPage (hp_ref x) (hp_page x) (hp_type x) l (<[b := csz]> (hp_used x)).

Lemma take_shape x b csz l : page_shape x → hp_free x = b :: l → page_shape (take b csz l x).
Proof.
  intros Hx El. destruct Hx as [H1 H2 H3 H4 H5 H6]. rewrite El in *. apply NoDup_cons in H4 as [Hnin Hnd].
  split; cbn [take hp_type hp_page hp_free hp_used]; try done.
  - intros c. rewrite <- H5, elem_of_cons. destruct (decide (c = b)) as [->|Hne].
    + rewrite lookup_insert_eq. naive_solver.
    + rewrite lookup_insert_ne by done. naive_solver.
  - intros c Hc. rewrite lookup_insert_ne by (intros ->; done). apply H6. by right.
Qed.

Lemma take_mem m m' x b csz l : page_shape x → page_mem m x → hp_free x = b :: l →
  changed_in m m' (block_addr x b) (block_addr x b + size (hp_type x)) → guarded m' (block_addr x b) (hp_type x) csz →
  page_mem m' (take b csz l x).
Proof.
  intros Hx [Hf Hu] El Hch Hg. pose proof (ps_type _ Hx) as Ht. destruct (sizes_ok _ Ht) as [Hr _ _ _ _ _].
  unfold free_head in Hf. rewrite El in Hf. destruct Hf as (_ & _ & Hf). pose proof (ps_nodup _ Hx) as Hnd. rewrite El in Hnd.
  apply NoDup_cons in Hnd as [Hnin _].
  assert (∀ c, c ≠ b → agree m m' (block_addr x c) (block_addr x c + size (hp_type x))) as Hag.
  { intros c Hne. eapply changed_agree; [exact Hch|]. destruct (block_apart x Hx c b Hne); lia. }
  split; cbn [take hp_type hp_free hp_used].
  - unfold free_head. cbn [take hp_free hp_type hp_page]. pose proof (free_list_head _ _ _ _ Hf) as Hh. rewrite Hh in Hf.
    apply (free_list_ext _ x); [done..|]. apply (free_list_agree m); [lia|done|]. intros c Hc. apply Hag. intros ->. done.
  - intros c cz. destruct (decide (c = b)) as [->|Hne].
    + rewrite lookup_insert_eq. intros [= <-]. done.
    + rewrite lookup_insert_ne by done. intros Hc. pose proof (gd_size _ _ _ _ (Hu c cz Hc)).
      apply (guarded_agree m); [done|by apply Hu|by eapply agree_sub; [by apply Hag|unfold block_addr; cbn; lia..]..].
Qed.

(** A block goes back to the free list. *)
Definition put (b : Z) (x : hpage) : hpage :=
  mkPage (hp_ref x) (hp_page x) (hp_type x) (b :: hp_free x) (delete b (hp_used x)).

Lemma put_shape x b csz : page_shape x → hp_used x !! b = Some csz → page_shape (put b x).
Proof.
  intros Hx Hb. destruct Hx as [H1 H2 H3 H4 H5 H6]. assert (b ∉ hp_free x) as Hnin by (intros Hin%H6; congruence).
  split; cbn [put hp_type hp_page hp_free hp_used]; try done.
  - by apply NoDup_cons.
  - intros c. rewrite <- H5, elem_of_cons. destruct (decide (c = b)) as [->|Hne].
    + rewrite Hb. naive_solver.
    + rewrite lookup_delete_ne by done. naive_solver.
  - intros c [->|Hc]%elem_of_cons; [apply lookup_delete_eq|]. rewrite lookup_delete_ne; [by apply H6|]. intros ->. done.
Qed.

Lemma put_mem m m' x b csz : page_shape x → page_mem m x → hp_used x !! b = Some csz →
  changed_in m m' (block_addr x b) (block_addr x b + size (hp_type x)) →
  beefed m' (block_addr x b) (size (hp_type x)) → rd32 m' (block_addr x b) = free_head x →
  page_mem m' (put b x).
Proof.
  intros Hx [Hf Hu] Hb Hch Hbeef Hlink. pose proof (ps_type _ Hx) as Ht. destruct (sizes_ok _ Ht) as [Hr _ _ _ _ _].
  assert (∀ c, c ≠ b → agree m m' (block_addr x c) (block_addr x c + size (hp_type x))) as Hag.
  { intros c Hne. eapply changed_agree; [exact Hch|]. destruct (block_apart x Hx c b Hne); lia. }
  split; cbn [put hp_type hp_free hp_used].
  - unfold free_head. cbn [put hp_free free_list]. split_and!; [done|done|].
    change (block_addr (put b x) b) with (block_addr x b). rewrite Hlink.
    apply (free_list_ext _ x); [done..|]. apply (free_list_agree m); [lia|done|]. intros c Hc. apply Hag. intros ->.
    rewrite (ps_disjoint _ Hx b Hc) in Hb. done.
  - intros c cz [Hne Hc]%lookup_delete_Some. pose proof (gd_size _ _ _ _ (Hu c cz Hc)).
    apply (guarded_agree m); [done|by apply Hu|by eapply agree_sub; [by apply Hag|unfold block_addr; cbn; lia..]..].
Qed.

(** The pageref after each change. *)
Lemma take_ref x pr b csz l o : ref_of x pr → hp_free x = b :: l → page_shape x →
  o = (match l with [] => INVALID_OFFSET | c :: _ => c * size (hp_type x) end) →
  ref_of (take b csz l x) (mkPageref (next_samesize pr) (next_all pr) (pageaddr_and_blocktype pr) o (w16 (nfree pr - 1))).
Proof.
  intros [H1 H2 H3 H4] El Hx ->. pose proof (free_length x Hx) as Hlen. destruct (sizes_ok _ (ps_type _ Hx)) as [_ _ _ Hnb _ _].
  rewrite El in *. cbn [length] in *. split; [done|done|done|]. cbn [nfree take hp_free]. unfold w16. rewrite Z.mod_small; lia.
Qed.
Lemma put_ref x pr b csz : ref_of x pr → page_shape x → hp_used x !! b = Some csz →
  ref_of (put b x) (mkPageref (next_samesize pr) (next_all pr) (pageaddr_and_blocktype pr)
                      (w16 (b * size (hp_type x))) (w16 (nfree pr + 1))).
Proof.
  intros [H1 H2 H3 H4] Hx Hb. pose proof (free_length _ (put_shape x b csz Hx Hb)) as Hlen.
  pose proof (shape_used x Hx b csz Hb) as Hbr. destruct (sizes_ok _ (ps_type _ Hx)) as [Hr _ Hbl Hnb _ _].
  cbn [put hp_free hp_type length] in *. split; [done|done| |]; cbn [freelist_offset nfree put hp_free hp_type length]; unfold w16;
    rewrite Z.mod_small; nia.
Qed.

(** A write inside a block in use. *)
Lemma client_write m x b csz a v : page_shape x → page_mem m x → hp_used x !! b = Some csz →
  block_addr x b + 4 ≤ a < block_addr x b + 4 + csz → page_mem (wr8 m a v) x.
Proof.
  intros Hx [Hf Hu] Hb Ha. pose proof (ps_type _ Hx) as Ht. destruct (sizes_ok _ Ht) as [Hr _ _ _ _ _].
  pose proof (gd_size _ _ _ _ (Hu b csz Hb)) as Hsz. split.
  - apply (free_list_agree m); [lia|done|]. intros c Hc. apply wr8_agree.
    assert (c ≠ b) as Hne by (intros ->; rewrite (ps_disjoint _ Hx b Hc) in Hb; done). destruct (block_apart x Hx c b Hne); lia.
  - intros c cz Hc. pose proof (gd_size _ _ _ _ (Hu c cz Hc)) as Hcz. destruct (decide (c = b)) as [->|Hne].
    + assert (cz = csz) as -> by congruence. apply (guarded_agree m); [done|by apply Hu|apply wr8_agree; lia..].
    + destruct (block_apart x Hx c b Hne); (apply (guarded_agree m); [done|by apply Hu|apply wr8_agree; lia..]).
Qed.

(** A write outside the page. *)
Lemma other_write m x a v : page_shape x → page_mem m x → a < hp_page x ∨ hp_page x + 4096 ≤ a → page_mem (wr8 m a v) x.
Proof. intros Hx Hm Ha. eapply page_mem_agree; [done..|]. apply wr8_agree. lia. Qed.

(** [not_on_list] goes through a list that does not have the block. *)
Lemma wp_not_on_list x fuel l fl2 b h (Q : unit → heap → Prop) : page_shape x → (∀ c, c ∈ l → 0 ≤ c < nblocks (hp_type x)) →
  free_list (mem h) x fl2 l → b ∉ l → (length l < fuel)%nat → Q tt h →
  wp (not_on_list fuel fl2 (block_addr x b)) Q h.
Proof.
  intros Hx. revert l fl2. induction fuel as [|fuel IH]; intros l fl2 Hl Hfl Hb Hf HQ; [lia|]. cbn [not_on_list].
  destruct l as [|c l]; [simpl in Hfl; subst; by wp_go|]. destruct Hfl as (-> & _ & Hfl). apply not_elem_of_cons in Hb as [Hne Hb].
  rewrite (proj2 (Z.eqb_neq _ _) (block_nonnull x Hx c (proj1 (Hl c ltac:(left))))). wp_go.
  apply wp_KASSERT; [apply negb_true_iff, Z.eqb_neq; intros Heq%(block_inj x Hx); congruence|]. wp_go.
  apply wp_load32; [by apply block_aligned4|]. apply (IH l); try done; [|simpl in Hf; lia]. intros d Hd. apply Hl. by right.
Qed.

(** ** A fresh page *)

(** [n - 1, ..., 1, 0] *)
Fixpoint downto (n : nat) : list Z := match n with O => [] | S k => Z.of_nat k :: downto k end.

Lemma elem_of_downto n b : b ∈ downto n ↔ 0 ≤ b < Z.of_nat n.
Proof.
  induction n as [|n IH]; cbn [downto]; [rewrite elem_of_nil; lia|]. rewrite elem_of_cons, IH. lia.
Qed.
Lemma NoDup_downto n : NoDup (downto n).
Proof. induction n as [|n IH]; cbn [downto]; constructor; [rewrite elem_of_downto; lia|done]. Qed.
Lemma length_downto n : length (downto n) = n.
Proof. induction n; simpl; congruence. Qed.

Definition fresh (p pg t : Z) : hpage := mkPage p pg t (downto (Z.to_nat (nblocks t))) ∅.

Lemma fresh_shape p pg t : is_type t → pg mod 4096 = 0 → KSEG0 ≤ pg → pg + 4096 ≤ KSEG1 → page_shape (fresh p pg t).
Proof.
  intros Ht Ha Hlo Hhi. destruct (sizes_ok _ Ht) as [_ _ _ Hnb _ _]. split; cbn [fresh hp_type hp_page hp_free hp_used]; try done.
  - apply NoDup_downto.
  - intros b. rewrite elem_of_downto, lookup_empty. split; [intros [?|[? ?]]; [lia|done]|left; lia].
Qed.

(** The first words of the blocks, linked downwards. *)
Definition linked (m : gmap Z Z) (pg t n : Z) : Prop :=
  ∀ b, 0 ≤ b < n → rd32 m (pg + b * size t) = (if b =? 0 then 0 else pg + (b - 1) * size t).

Lemma fresh_list m p pg t n : linked m pg t (Z.of_nat n) → (∀ b, 0 ≤ b < Z.of_nat n → beefed m (pg + b * size t) (size t)) →
  free_list m (fresh p pg t) (if Z.of_nat n =? 0 then 0 else pg + (Z.of_nat n - 1) * size t) (downto n).
Proof.
  induction n as [|n IH]; intros Hlk Hbf; [done|]. cbn [downto free_list].
  replace (Z.of_nat (S n) - 1) with (Z.of_nat n) by lia. rewrite (proj2 (Z.eqb_neq (Z.of_nat (S n)) 0)) by lia.
  split_and!; [done|apply Hbf; lia|]. rewrite Hlk by lia. apply IH; [|intros; apply Hbf; lia]. intros b Hb. apply Hlk. lia.
Qed.

Lemma fresh_mem m p pg t : is_type t → linked m pg t (nblocks t) → (∀ b, 0 ≤ b < nblocks t → beefed m (pg + b * size t) (size t)) →
  page_mem m (fresh p pg t).
Proof.
  intros Ht Hlk Hbf. destruct (sizes_ok _ Ht) as [_ _ _ Hnb _ _]. split; [|intros b csz; cbn [fresh hp_used]; by rewrite lookup_empty].
  unfold free_head. cbn [fresh hp_free]. pose proof (fresh_list m p pg t (Z.to_nat (nblocks t))) as Hf.
  rewrite Z2Nat.id in Hf by lia. specialize (Hf Hlk Hbf). by rewrite <- (free_list_head _ _ _ _ Hf).
Qed.

(** A page filled with [DEADBEEF] has beefed blocks. *)
Lemma beefed_page m pg t b : is_type t → (∀ i, 0 ≤ i < 1024 → rd32 m (pg + 4 * i) = DEADBEEF) → 0 ≤ b < nblocks t →
  beefed m (pg + b * size t) (size t).
Proof.
  intros Ht Hp Hb i Hi. destruct (sizes_ok _ Ht) as [Hr Hm Hbl _ _ _]. apply Z.mod_divide in Hm as [k Hk]; [|lia].
  replace (pg + b * size t + 4 * i) with (pg + 4 * (b * (4 * k) + i)) by lia. apply Hp.
  replace (size t / 4) with (4 * k) in Hi by (rewrite Hk; Z.to_euclidean_division_equations; lia). nia.
Qed.

(** One link. *)
Lemma wp_link_loop pg t h (Q : unit → heap → Prop) : is_type t → pg mod 4096 = 0 → KSEG0 ≤ pg → pg + 4096 ≤ KSEG1 →
  (∀ i, 0 ≤ i < 1024 → rd32 (mem h) (pg + 4 * i) = DEADBEEF) →
  (∀ m, changed_in (mem h) m pg (pg + 4096) → linked m pg t (nblocks t) →
     (∀ b, 0 ≤ b < nblocks t → beefed m (pg + b * size t) (size t)) → Q tt (set_mem m h)) →
  wp (store32 pg 0 ;;
      for_loop (Z.to_nat (nblocks t - 1)) 1 (λ i,
        store32 (pg + i * size t) (pg + (i - 1) * size t) ;;
        KASSERT (negb (pg + i * size t =? pg + (i - 1) * size t)))) Q h.
Proof.
  intros Ht Ha Hlo Hhi Hbeef HQ. destruct (sizes_ok _ Ht) as [Hr Hm Hbl Hnb _ _]. wp_go.
  pose proof (fresh_shape 0 pg t Ht Ha Hlo Hhi) as Hx. pose proof (block_aligned4 (fresh 0 pg t) Hx) as Hal.
  assert (∀ m c v, 0 ≤ c < nblocks t → (∀ b, 0 ≤ b < nblocks t → beefed m (pg + b * size t) (size t)) →
            changed_in m (wr32 m (pg + c * size t) v) pg (pg + 4096) ∧
            ∀ b, 0 ≤ b < nblocks t → beefed (wr32 m (pg + c * size t) v) (pg + b * size t) (size t)) as Hstep.
  { intros m c v Hc Hb. split; [eapply changed_mono; [apply wr32_changed|nia..]|]. intros b Hbr i Hi.
    rewrite (rd32_agree m); [by apply Hb|]. eapply changed_agree; [apply wr32_changed|].
    assert (4 * (size t / 4) ≤ size t) by (apply Z.mul_div_le; lia).
    destruct (decide (b = c)) as [->|]; [lia|]. destruct (block_apart (fresh 0 pg t) Hx b c) as [?|?]; unfold block_addr in *; cbn in *; lia. }
  apply wp_store32; [Z.to_euclidean_division_equations; lia|].
  apply (wp_for_loop (λ i h', ∃ m, h' = set_mem m h ∧ changed_in (mem h) m pg (pg + 4096) ∧ linked m pg t i ∧
    ∀ b, 0 ≤ b < nblocks t → beefed m (pg + b * size t) (size t))).
  - exists (wr32 (mem h) pg 0). destruct (Hstep (mem h) 0 0) as [Hc Hb]; [lia|by intros; apply beefed_page|].
    rewrite Z.mul_0_l, Z.add_0_r in Hc, Hb. split_and!; try done. intros b Hb0. assert (b = 0) as -> by lia.
    rewrite Z.mul_0_l, Z.add_0_r. by apply rd32_wr32.
  - intros i ? Hi (m & -> & Hc & Hlk & Hbf). wp_go. apply wp_store32; [apply (Hal i)|]. cbn [mem set_mem].
    apply wp_KASSERT; [apply negb_true_iff, Z.eqb_neq; nia|].
    destruct (Hstep m i (pg + (i - 1) * size t)) as [Hc' Hbf']; [lia|done|].
    exists (wr32 m (pg + i * size t) (pg + (i - 1) * size t)). split_and!; [done|by eapply changed_trans| |done].
    intros b Hb. destruct (decide (b = i)) as [->|Hne].
    + destruct (Z.eqb_spec i 0); [lia|]. apply rd32_wr32. unfold KSEG0, KSEG1 in *. nia.
    + rewrite (rd32_agree m); [apply Hlk; lia|]. eapply changed_agree; [apply wr32_changed|]. nia.
  - intros h' (m & -> & Hc & Hlk & Hbf). apply HQ; [done| |done].
    replace (1 + Z.of_nat (Z.to_nat (nblocks t - 1))) with (nblocks t) in Hlk by lia. done.
Qed.

End KmallocPages.
