(* ===== verification/KmallocHeap.v ===== *)
(** * The lists of pages of the kernel heap

    Every page is on the list of all pages and on the list of the pages of its size, in
    the same order.  Under this invariant the checks of the whole heap succeed, and each
    locked section of the allocator keeps it: taking a block, linking a fresh page,
    putting a block back, and unlinking a page that has become free. *)

From Stdlib Require Import ZArith Lia.
From stdpp Require Import base numbers list gmap.
From S2P Require Import Prelude QuadDiv Coremap PageTable Kmalloc KmallocMem KmallocPages.

Module KmallocHeap.
Import Coremap(PAGE_SIZE, KSEG0).
Import Kmalloc KmallocMem KmallocPages.

(** ** Linked lists of pagerefs *)

Fixpoint chain (next : pageref → Z) (R : gmap Z pageref) (head : Z) (l : list Z) : Prop :=
  match l with
  | [] => head = 0
  | p :: l' => head = p ∧ p ≠ 0 ∧ ∃ pr, R !! p = Some pr ∧ chain next R (next pr) l'
  end.

(** The chain only depends on the pagerefs it goes through. *)
Lemma chain_ext next R R' head l : chain next R head l →
  (∀ p pr, p ∈ l → R !! p = Some pr → ∃ pr', R' !! p = Some pr' ∧ next pr' = next pr) → chain next R' head l.
Proof.
  revert head. induction l as [|p l IH]; intros head Hc HR; [done|]. destruct Hc as (-> & Hp & pr & Hpr & Hc).
  destruct (HR p pr) as (pr' & Hpr' & Hn); [left|done|]. cbn [chain]. split_and!; [done..|]. exists pr'. split; [done|].
  rewrite Hn. apply IH; [done|]. intros q qr Hq. apply HR. by right.
Qed.

Lemma chain_elem next R head l p : chain next R head l → p ∈ l → p ≠ 0 ∧ is_Some (R !! p).
Proof.
  revert head. induction l as [|q l IH]; intros head Hc Hp; [by apply elem_of_nil in Hp|].
  destruct Hc as (-> & Hq & qr & Hqr & Hc). apply elem_of_cons in Hp as [->|Hp]; [eauto|]. by eapply IH.
Qed.

(** ** The invariant *)

Definition of_type (t : Z) (xs : list hpage) : list hpage := filter (λ x, hp_type x = t) xs.

Record heap_ok (h : heap) (xs : list hpage) : Prop := {
  hk_all : chain next_all (refs h) (allbase h) (hp_ref <$> xs);
  hk_same : ∀ t, is_type t → ∃ b, znth (sizebases h) t = Some b ∧ chain next_samesize (refs h) b (hp_ref <$> of_type t xs);
  hk_refs : NoDup (hp_ref <$> xs);
  hk_pages : NoDup (hp_page <$> xs);
  hk_count : Z.of_nat (length xs) ≤ TOTAL_PAGEREFS;
  hk_shape : ∀ x, x ∈ xs → page_shape x;
  hk_mem : ∀ x, x ∈ xs → page_mem (mem h) x;
  hk_ref : ∀ x, x ∈ xs → ∃ pr, refs h !! hp_ref x = Some pr ∧ ref_of x pr;
}.

Section invariant.
Context (h : heap) (xs : list hpage) (Hh : heap_ok h xs).

Lemma same_ref x y : x ∈ xs → y ∈ xs → hp_ref x = hp_ref y → x = y.
Proof using Hh.
  intros [i Hi]%list_elem_of_lookup [j Hj]%list_elem_of_lookup Heq.
  assert (i = j) as -> by (apply (NoDup_lookup (hp_ref <$> xs) i j (hp_ref x)); [apply Hh|by rewrite list_lookup_fmap, Hi
    |by rewrite list_lookup_fmap, Hj, Heq]).
  congruence.
Qed.
Lemma same_page x y : x ∈ xs → y ∈ xs → hp_page x = hp_page y → x = y.
Proof using Hh.
  intros [i Hi]%list_elem_of_lookup [j Hj]%list_elem_of_lookup Heq.
  assert (i = j) as -> by (apply (NoDup_lookup (hp_page <$> xs) i j (hp_page x)); [apply Hh|by rewrite list_lookup_fmap, Hi
    |by rewrite list_lookup_fmap, Hj, Heq]).
  congruence.
Qed.

(** Different pages do not overlap. *)
Lemma pages_apart x y : x ∈ xs → y ∈ xs → x ≠ y → hp_page x + 4096 ≤ hp_page y ∨ hp_page y + 4096 ≤ hp_page x.
Proof using Hh.
  intros Hx Hy Hne. pose proof (ps_align _ (hk_shape _ _ Hh x Hx)). pose proof (ps_align _ (hk_shape _ _ Hh y Hy)).
  assert (hp_page x ≠ hp_page y) by (intros ?%same_page; done). Z.to_euclidean_division_equations. lia.
Qed.

Lemma ref_page p : p ∈ hp_ref <$> xs → ∃ x, x ∈ xs ∧ hp_ref x = p.
Proof using. intros (x & -> & Hx)%list_elem_of_fmap. eauto. Qed.

Lemma wp_check_page p (Q : unit → heap → Prop) : klock h = true → p ∈ hp_ref <$> xs → Q tt h → wp (checksubpage p) Q h.
Proof using Hh.
  intros Hk (x & Hx & <-)%ref_page HQ. destruct (hk_ref _ _ Hh x Hx) as (pr & Hpr & Href).
  by eapply (wp_checksubpage x); [..|apply Hh|apply Hh| |].
Qed.

Lemma check_list_ok next fuel head l c (Q : Z → heap → Prop) : klock h = true →
  chain next (refs h) head l → (∀ p, p ∈ l → p ∈ hp_ref <$> xs) → (length l < fuel)%nat → c + Z.of_nat (length l) ≤ TOTAL_PAGEREFS →
  Q (c + Z.of_nat (length l)) h → wp (check_list next fuel head c) Q h.
Proof using Hh.
  intros Hk. revert head l c. induction fuel as [|fuel IH]; intros head l c Hc Hl Hf Hcount HQ; [lia|]. cbn [check_list].
  destruct l as [|p l]; [simpl in Hc; subst; rewrite Z.add_0_r in HQ; by wp_go|]. destruct Hc as (-> & Hp & pr & Hpr & Hc).
  rewrite (proj2 (Z.eqb_neq _ _) Hp). wp_go. apply wp_check_page; [done|apply Hl; left|]. cbn [length] in *. wp_go.
  apply wp_KASSERT; [lia|]. wp_go. apply (wp_load_ref h p pr); [done|]. apply (IH _ l); [done| |lia|lia|].
  - intros q Hq. apply Hl. by right.
  - by replace (c + 1 + Z.of_nat (length l)) with (c + Z.of_nat (S (length l))) by lia.
Qed.
End invariant.

(** All pages, counted by size. *)
Lemma count_types xs : (∀ x, x ∈ xs → is_type (hp_type x)) →
  foldr (λ t n, Z.of_nat (length (of_type t xs)) + n) 0 (seqZ 0 NSIZES) = Z.of_nat (length xs).
Proof.
  change (seqZ 0 NSIZES) with [0; 1; 2; 3; 4; 5; 6; 7].
  induction xs as [|x xs IH]; intros Hx; [done|]. cbn [length]. rewrite Nat2Z.inj_succ, <- IH by (intros; apply Hx; by right).
  destruct (type_cases _ (Hx x ltac:(left))) as [E|[E|[E|[E|[E|[E|[E|E]]]]]]]; unfold of_type; cbn [foldr];
    rewrite !filter_cons, !E; simpl; lia.
Qed.

Lemma of_type_elem t xs p : p ∈ hp_ref <$> of_type t xs → p ∈ hp_ref <$> xs.
Proof. intros (x & -> & [_ Hx]%list_elem_of_filter)%list_elem_of_fmap. apply list_elem_of_fmap. eauto. Qed.

Lemma LIST_FUEL_eq n : Z.of_nat n ≤ TOTAL_PAGEREFS → (n < LIST_FUEL)%nat.
Proof. unfold LIST_FUEL. assert (0 ≤ TOTAL_PAGEREFS) by done. lia. Qed.

Lemma of_type_length t xs : (length (of_type t xs) ≤ length xs)%nat.
Proof. apply length_filter. Qed.

Lemma check_sizes_ok h xs ts sc (Q : Z → heap → Prop) : heap_ok h xs → klock h = true → (∀ t, t ∈ ts → is_type t) →
  0 ≤ sc → sc + foldr (λ t n, Z.of_nat (length (of_type t xs)) + n) 0 ts ≤ TOTAL_PAGEREFS →
  Q (sc + foldr (λ t n, Z.of_nat (length (of_type t xs)) + n) 0 ts) h → wp (check_sizes ts sc) Q h.
Proof.
  intros Hh Hk. revert sc. induction ts as [|t ts IH]; intros sc Hts Hsc Hle HQ.
  { simpl in HQ. rewrite Z.add_0_r in HQ. by wp_go. }
  cbn [check_sizes foldr] in *. destruct (hk_same _ _ Hh t) as (b & Hb & Hc); [apply Hts; left|].
  assert (0 ≤ foldr (λ t n, Z.of_nat (length (of_type t xs)) + n) 0 ts) as Hpos by (clear; induction ts; simpl; lia).
  unfold get_sizebase. wp_go. eapply wp_deref; [done|]. wp_go. pose proof (hk_count _ _ Hh). pose proof (of_type_length t xs).
  apply (check_list_ok h xs Hh _ _ _ (hp_ref <$> of_type t xs)); rewrite ?length_fmap; try done; [by apply of_type_elem| |lia|].
  - apply LIST_FUEL_eq. lia.
  - apply IH; [intros; apply Hts; by right|lia|lia|]. by rewrite <- Z.add_assoc.
Qed.

Lemma wp_checksubpages h xs (Q : unit → heap → Prop) : heap_ok h xs → klock h = true → Q tt h → wp checksubpages Q h.
Proof.
  intros Hh Hk HQ. unfold checksubpages, spinlock_do_i_hold. wp_go. rewrite Hk. wp_check. pose proof (hk_count _ _ Hh) as Hc.
  assert (∀ x, x ∈ xs → is_type (hp_type x)) as Hty by (intros x Hx; apply (ps_type _ (hk_shape _ _ Hh x Hx))).
  apply (check_sizes_ok h xs); try done; rewrite ?count_types by done; [|lia|].
  { intros t Ht%elem_of_seqZ. unfold is_type, NSIZES in *. lia. }
  wp_go. apply (check_list_ok h xs Hh _ _ _ (hp_ref <$> xs)); rewrite ?length_fmap; try done; [apply Hh|by apply LIST_FUEL_eq|].
  apply wp_KASSERT; [by apply Z.eqb_eq|done].
Qed.

(** ** Changing one page *)

Definition replace (x' : hpage) (xs : list hpage) : list hpage :=
  (λ y, if decide (hp_ref y = hp_ref x') then x' else y) <$> xs.

Lemma replace_refs x' xs : hp_ref <$> replace x' xs = hp_ref <$> xs.
Proof.
  unfold replace. rewrite <- list_fmap_compose. apply list_fmap_ext. intros i y _. simpl. by destruct (decide _).
Qed.
Lemma replace_map {B} (f : hpage → B) x x' h xs : heap_ok h xs → x ∈ xs → hp_ref x' = hp_ref x → f x' = f x → f <$> replace x' xs = f <$> xs.
Proof.
  intros Hh Hx Hr Hf. unfold replace. rewrite <- list_fmap_compose. apply list_fmap_ext. intros i y Hy. simpl.
  destruct (decide _) as [He|]; [|done]. rewrite Hf. f_equal. symmetry. apply (same_ref h xs Hh); [|done|congruence].
  by eapply list_elem_of_lookup_2.
Qed.
Lemma replace_elem x' xs y : y ∈ replace x' xs → y = x' ∨ y ∈ xs ∧ hp_ref y ≠ hp_ref x'.
Proof. intros (z & -> & Hz)%list_elem_of_fmap. destruct (decide _); [by left|by right]. Qed.
Lemma replace_of_type t x x' h xs : heap_ok h xs → x ∈ xs → hp_ref x' = hp_ref x → hp_type x' = hp_type x →
  hp_ref <$> of_type t (replace x' xs) = hp_ref <$> of_type t xs.
Proof.
  intros Hh Hx Hr Ht. assert (∀ y, y ∈ xs → hp_ref y = hp_ref x' → hp_type y = hp_type x') as Hy.
  { intros y Hy Heq. rewrite Ht. f_equal. apply (same_ref h xs Hh); [done|done|congruence]. }
  clear Hh Hx Ht. unfold of_type, replace. induction xs as [|y xs IH]; [done|]. rewrite fmap_cons, !filter_cons.
  destruct (decide (hp_ref y = hp_ref x')) as [He|Hne].
  - rewrite <- (Hy y) by (left || done). destruct (decide (hp_type y = t)); rewrite ?fmap_cons, ?He; [f_equal|]; apply IH; intros; apply Hy; (by right) || done.
  - destruct (decide (hp_type y = t)); rewrite ?fmap_cons; [f_equal|]; apply IH; intros; apply Hy; (by right) || done.
Qed.

(** One page, its pageref and its memory are changed; the links stay. *)
Lemma heap_change h xs x x' pr pr' m' h' : heap_ok h xs → x ∈ xs →
  hp_ref x' = hp_ref x → hp_page x' = hp_page x → hp_type x' = hp_type x →
  refs h !! hp_ref x = Some pr → next_all pr' = next_all pr → next_samesize pr' = next_samesize pr →
  ref_of x' pr' → page_shape x' → page_mem m' x' → changed_in (mem h) m' (hp_page x) (hp_page x + 4096) →
  refs h' = <[hp_ref x := pr']> (refs h) → mem h' = m' → allbase h' = allbase h → sizebases h' = sizebases h →
  heap_ok h' (replace x' xs).
Proof.
  intros Hh Hx Hr Hp Ht Hpr Hna Hns Hro Hsh Hme Hch Hrefs Hmem Hall Hsz.
  assert (∀ (next : pageref → Z) head l, next pr' = next pr → chain next (refs h) head l → chain next (refs h') head l) as Hchain.
  { intros next head l Hn Hc. apply (chain_ext _ _ _ _ _ Hc). intros p q Hpl Hq. rewrite Hrefs.
    destruct (decide (p = hp_ref x)) as [->|Hne]; [rewrite lookup_insert_eq|rewrite lookup_insert_ne by done; eauto].
    exists pr'. split; [done|congruence]. }
  split.
  - rewrite Hall, replace_refs. apply Hchain; [done|apply Hh].
  - intros t Hty. rewrite Hsz. destruct (hk_same _ _ Hh t Hty) as (b & Hb & Hc). exists b. split; [done|].
    rewrite (replace_of_type t x x' h xs Hh Hx Hr Ht). by apply Hchain.
  - rewrite replace_refs. apply Hh.
  - rewrite (replace_map hp_page x x' h xs); [apply Hh|done..].
  - unfold replace. rewrite length_fmap. apply Hh.
  - intros y [->|[Hy _]]%replace_elem; [done|by apply Hh].
  - rewrite Hmem. intros y [->|[Hy Hne]]%replace_elem; [done|]. eapply page_mem_agree; [by apply Hh|by apply Hh|].
    eapply changed_agree; [exact Hch|]. destruct (pages_apart h xs Hh y x) as [?|?]; [done|done|congruence|lia|lia].
  - rewrite Hrefs. intros y [->|[Hy Hne]]%replace_elem.
    + exists pr'. rewrite Hr, lookup_insert_eq. done.
    + rewrite lookup_insert_ne by congruence. by apply Hh.
Qed.

(** ** Sections that only read *)

Lemma wp_find_page h xs fuel head ys t (Q : option Z → heap → Prop) : heap_ok h xs → klock h = true →
  chain next_samesize (refs h) head (hp_ref <$> ys) → (∀ y, y ∈ ys → y ∈ xs ∧ hp_type y = t) → (length ys < fuel)%nat →
  ((∀ y, y ∈ ys → hp_free y = []) → Q None h) →
  (∀ x, x ∈ xs → hp_type x = t → hp_free x ≠ [] → Q (Some (hp_ref x)) h) →
  wp (find_page fuel head t) Q h.
Proof.
  intros Hh Hk. revert head ys. induction fuel as [|fuel IH]; intros head ys Hc Hys Hf HN HS; [lia|]. cbn [find_page].
  destruct ys as [|y ys]. { simpl in Hc. subst. wp_go. apply HN. set_solver. }
  rewrite fmap_cons in Hc. destruct Hc as (-> & Hp & pr & Hpr & Hc). destruct (Hys y) as [Hy Hty]; [left|].
  rewrite (proj2 (Z.eqb_neq _ _) Hp). wp_go. apply (wp_load_ref h _ pr); [done|]. wp_go.
  destruct (hk_ref _ _ Hh y Hy) as (pr0 & Hpr0 & [_ Hbt _ Hnf]). assert (pr0 = pr) as -> by congruence.
  apply wp_KASSERT; [by rewrite Hbt; apply Z.eqb_eq|]. wp_go. apply (wp_check_page h xs Hh); [done|apply list_elem_of_fmap; eauto|].
  rewrite Hnf. destruct (hp_free y) as [|b l] eqn:El; simpl.
  - apply (IH _ ys); [done| |simpl in Hf; lia| |done].
    + intros z Hz. apply Hys. by right.
    + intros Hall. apply HN. intros z [->|Hz]%elem_of_cons; [done|]. by apply Hall.
  - wp_go. apply HS; [done|done|by rewrite El].
Qed.

Lemma wp_find_owner h xs fuel head ys a (Q : option Z → heap → Prop) : heap_ok h xs → klock h = true →
  chain next_all (refs h) head (hp_ref <$> ys) → (∀ y, y ∈ ys → y ∈ xs) → (length ys < fuel)%nat →
  ((∀ y, y ∈ ys → a < hp_page y ∨ hp_page y + 4096 ≤ a) → Q None h) →
  (∀ x, x ∈ xs → hp_page x ≤ a < hp_page x + 4096 → Q (Some (hp_ref x)) h) →
  wp (find_owner fuel head a) Q h.
Proof.
  intros Hh Hk. revert head ys. induction fuel as [|fuel IH]; intros head ys Hc Hys Hf HN HS; [lia|]. cbn [find_owner].
  destruct ys as [|y ys]. { simpl in Hc. subst. wp_go. apply HN. set_solver. }
  rewrite fmap_cons in Hc. destruct Hc as (-> & Hp & pr & Hpr & Hc). assert (y ∈ xs) as Hy by (apply Hys; left).
  rewrite (proj2 (Z.eqb_neq _ _) Hp). wp_go. apply (wp_load_ref h _ pr); [done|]. wp_go.
  destruct (hk_ref _ _ Hh y Hy) as (pr0 & Hpr0 & [Hpg Hbt _ Hnf]). assert (pr0 = pr) as -> by congruence.
  pose proof (ps_type _ (hk_shape _ _ Hh y Hy)) as Ht. rewrite Hbt, Hpg.
  apply wp_KASSERT; [unfold is_type, NSIZES in *; apply andb_true_iff; lia|]. wp_go.
  apply (wp_check_page h xs Hh); [done|apply list_elem_of_fmap; eauto|]. unfold PAGE_SIZE.
  destruct ((hp_page y <=? a) && (a <? hp_page y + 4096)) eqn:E.
  - apply andb_true_iff in E as [?%Z.leb_le ?%Z.ltb_lt]. wp_go. by apply HS.
  - apply andb_false_iff in E. apply (IH _ ys); [done| |simpl in Hf; lia| |done].
    + intros z Hz. apply Hys. by right.
    + intros Hall. apply HN. intros z [->|Hz]%elem_of_cons; [lia|]. by apply Hall.
Qed.

(** ** Taking a block *)

Lemma wp_klock_release h (Q : unit → heap → Prop) : klock h = true → Q tt (set_klock false h) → wp spinlock_release Q h.
Proof. intros Hk HQ. unfold spinlock_release. wp_go. rewrite Hk. wp_check. done. Qed.
Lemma wp_klock_acquire h (Q : unit → heap → Prop) : klock h = false → Q tt (set_klock true h) → wp spinlock_acquire Q h.
Proof. intros Hk HQ. unfold spinlock_acquire. wp_go. rewrite Hk. wp_check. done. Qed.

Lemma heap_ok_klock h xs b : heap_ok h xs ↔ heap_ok (set_klock b h) xs.
Proof. split; intros [? ? ? ? ? ? ? ?]; by split. Qed.

(** The pageref after the head of the free list has been taken. *)
Lemma wp_unlink_block h x pr b l (Q : unit → heap → Prop) : page_shape x → page_mem (mem h) x → ref_of x pr → hp_free x = b :: l →
  (∀ pr', next_all pr' = next_all pr → next_samesize pr' = next_samesize pr →
     (∀ csz, ref_of (take b csz l x) pr') → Q tt (set_refs (<[hp_ref x := pr']> (refs h)) h)) →
  wp (let fl := rd32 (mem h) (block_addr x b) in
      let nf := w16 (nfree pr - 1) in
      if negb (fl =? 0) then
        KASSERT (nf >? 0) ;;
        KASSERT (w32 (fl - hp_page x) <? PAGE_SIZE) ;;
        store_ref (hp_ref x) (mkPageref (next_samesize pr) (next_all pr) (pageaddr_and_blocktype pr) (w16 (fl - hp_page x)) nf)
      else
        KASSERT (nf =? 0) ;;
        store_ref (hp_ref x) (mkPageref (next_samesize pr) (next_all pr) (pageaddr_and_blocktype pr) INVALID_OFFSET nf)) Q h.
Proof.
  intros Hx [Hf _] Hro El HQ. unfold free_head in Hf. pose proof (free_length x Hx) as Hlen. pose proof (ro_nfree _ _ Hro) as Hnf.
  pose proof (ps_type _ Hx) as Ht. destruct (sizes_ok _ Ht) as [Hr _ Hbl Hnb _ _]. rewrite El in *. destruct Hf as (_ & _ & Hf).
  assert (∀ c, c ∈ b :: l → 0 ≤ c < nblocks (hp_type x)) as Hin by (intros c Hc; apply (shape_free x Hx); by rewrite El).
  pose proof (free_list_head _ _ _ _ Hf) as Hh. cbn [length] in *. cbv zeta. rewrite Hh.
  assert (w16 (nfree pr - 1) = Z.of_nat (length l)) as Hw by (unfold w16; rewrite Z.mod_small; lia).
  destruct l as [|c l].
  - cbn [Z.eqb negb]. wp_go. apply wp_KASSERT; [by rewrite Hw|]. unfold store_ref. wp_go. apply HQ; [done..|]. intros csz. by apply take_ref.
  - assert (0 ≤ c < nblocks (hp_type x)) as Hc by (apply Hin; right; left).
    rewrite (proj2 (Z.eqb_neq _ _) (block_nonnull x Hx c (proj1 Hc))). cbn [negb]. wp_go. cbn [length] in *.
    assert (block_addr x c - hp_page x = c * size (hp_type x)) as Hoff by (unfold block_addr; lia).
    apply wp_KASSERT; [lia|]. wp_go. rewrite Hoff. unfold w32, PAGE_SIZE.
    apply wp_KASSERT; [rewrite Z.mod_small by nia; nia|]. unfold store_ref. wp_go. apply HQ; [done..|]. intros csz.
    apply take_ref; [done|done|done|]. unfold w16. rewrite Z.mod_small; nia.
Qed.

Lemma wp_doalloc h xs x b l csz label (Q : Z → heap → Prop) : heap_ok h xs → klock h = true → x ∈ xs → hp_free x = b :: l →
  8 ≤ csz → smaller (hp_type x) < csz + 8 ≤ size (hp_type x) →
  (∀ h', heap_ok h' (replace (take b csz l x) xs) → klock h' = false → kheaproots h' = kheaproots h →
     changed_in (mem h) (mem h') (block_addr x b) (block_addr x b + size (hp_type x)) → Q (block_addr x b + 12) h') →
  wp (doalloc (hp_ref x) csz (size (hp_type x)) label) Q h.
Proof.
  intros Hh Hk Hin El Hc Hs HQ. pose proof (hk_shape _ _ Hh x Hin) as Hx. pose proof (hk_mem _ _ Hh x Hin) as Hm.
  destruct (hk_ref _ _ Hh x Hin) as (pr & Hpr & Hro). pose proof (ps_type _ Hx) as Ht.
  destruct (sizes_ok _ Ht) as [Hr _ Hbl Hnb _ _]. pose proof (block_aligned4 x Hx b) as Hal.
  assert (0 ≤ b < nblocks (hp_type x)) as Hb by (apply (shape_free x Hx); rewrite El; left).
  unfold doalloc. wp_go. apply (wp_load_ref h _ pr); [done|]. wp_go. pose proof (ro_free _ _ Hro) as Hoff. rewrite El in Hoff.
  rewrite (ro_page _ _ Hro), Hoff. apply wp_KASSERT; [unfold PAGE_SIZE; nia|]. wp_go. fold (block_addr x b).
  apply wp_load32; [done|]. wp_go. apply (wp_unlink_block h x pr b l _ Hx Hm Hro El). intros pr' Hna Hns Hro'. wp_go.
  apply (wp_establishguardband _ _ csz); [done|done|lia|done|]. cbn [mem set_refs]. intros m1 Hc1 Hg. wp_go.
  apply wp_establishlabel; [Z.to_euclidean_division_equations; lia|]. cbn [mem set_mem]. intros m2 Hc2. wp_go.
  assert (changed_in (mem h) m2 (block_addr x b) (block_addr x b + size (hp_type x))) as Hch.
  { apply (changed_trans _ m1); [done|]. eapply changed_mono; [exact Hc2|lia..]. }
  assert (guarded m2 (block_addr x b) (hp_type x) csz) as Hg2.
  { apply (guarded_agree m1); [done|done|by eapply changed_agree; [exact Hc2|lia]..]. }
  destruct (block_in_page x Hx b Hb) as [Hlo Hhi].
  set (h2 := set_mem m2 _).
  assert (heap_ok h2 (replace (take b csz l x) xs)) as Hok.
  { eapply (heap_change h xs x (take b csz l x) pr pr' m2); try done; [apply take_shape| |]; try done.
    - by apply (take_mem (mem h)).
    - eapply changed_mono; [exact Hch|lia..]. }
  eapply wp_checksubpages; [exact Hok|done|]. wp_go. apply wp_klock_release; [done|]. wp_go.
  replace (block_addr x b + 4 + 8) with (block_addr x b + 12) by lia. apply HQ; [by apply heap_ok_klock|done|done|done].
Qed.

(** ** Linking a fresh page *)

Lemma mkpab pg t : is_type t → pg mod 4096 = 0 → KSEG0 ≤ pg → pg + 4096 ≤ KSEG1 →
  Z.land (MKPAB pg t) PageTable.PAGE_FRAME = pg ∧ Z.land (MKPAB pg t) (2 ^ 32 - 1 - PageTable.PAGE_FRAME) = t.
Proof.
  intros Ht Ha Hlo Hhi. unfold is_type, KSEG0, KSEG1 in *. unfold MKPAB.
  change (2 ^ 32 - 1 - PageTable.PAGE_FRAME) with (Z.ones 12). rewrite (Z.land_ones t), (Z.mod_small t) by lia.
  assert (pg / 4096 * 4096 = pg) as Hpg by (Z.to_euclidean_division_equations; lia).
  rewrite (PageTable.page_frame_eq pg), Hpg by (unfold PageTable.is_vaddr; lia).
  assert (Z.lor pg t = pg + t) as ->.
  { rewrite <- Hpg at 1 2. change 4096 with (2 ^ 12). apply QuadDiv.lor_add; lia. }
  rewrite PageTable.page_frame_eq, Z.land_ones by (unfold PageTable.is_vaddr; lia). change (2 ^ 12) with 4096.
  Z.to_euclidean_division_equations. lia.
Qed.

Lemma fresh_ref p pg t b a : is_type t → pg mod 4096 = 0 → KSEG0 ≤ pg → pg + 4096 ≤ KSEG1 →
  ref_of (fresh p pg t) (mkPageref b a (MKPAB pg t) ((nblocks t - 1) * size t) (nblocks t)).
Proof.
  intros Ht Ha Hlo Hhi. destruct (mkpab pg t) as [H1 H2]; [done..|]. destruct (sizes_ok _ Ht) as [_ _ _ Hnb _ _].
  split; [done|done| |]; cbn [fresh hp_free hp_type freelist_offset nfree].
  - replace (Z.to_nat (nblocks t)) with (S (Z.to_nat (nblocks t - 1))) by lia. cbn [downto]. rewrite Z2Nat.id; lia.
  - rewrite length_downto. lia.
Qed.

(** The state after the page [y] has been put in front of its lists. *)
Lemma heap_push h xs y pr m' b h' : heap_ok h xs → hp_ref y ≠ 0 → hp_ref y ∉ hp_ref <$> xs → hp_page y ∉ hp_page <$> xs →
  Z.of_nat (length xs) < TOTAL_PAGEREFS → page_shape y → page_mem m' y → ref_of y pr →
  znth (sizebases h) (hp_type y) = Some b → next_samesize pr = b → next_all pr = allbase h →
  changed_in (mem h) m' (hp_page y) (hp_page y + 4096) →
  refs h' = <[hp_ref y := pr]> (refs h) → mem h' = m' → allbase h' = hp_ref y →
  sizebases h' = zset (sizebases h) (hp_type y) (hp_ref y) →
  heap_ok h' (y :: xs).
Proof.
  intros Hh H0 Hnr Hnp Hc Hsh Hme Hro Hb Hns Hna Hch Hrefs Hmem Hall Hsz.
  assert (∀ next head l, chain next (refs h) head l → (∀ p, p ∈ l → p ∈ hp_ref <$> xs) → chain next (refs h') head l) as Hchain.
  { intros next head l Hcl Hl. apply (chain_ext _ _ _ _ _ Hcl). intros p q Hp Hq. exists q. split; [|done].
    rewrite Hrefs, lookup_insert_ne; [done|]. intros <-. by apply Hnr, Hl. }
  split.
  - rewrite fmap_cons, Hall. cbn [chain]. split_and!; [done..|]. exists pr. split; [by rewrite Hrefs, lookup_insert_eq|].
    rewrite Hna. apply Hchain; [apply Hh|done].
  - intros t Ht. destruct (hk_same _ _ Hh t Ht) as (b' & Hb' & Hcb). rewrite Hsz. unfold of_type. rewrite filter_cons.
    pose proof (znth_Some_range _ _ _ Hb) as Hrange. destruct (decide (hp_type y = t)) as [<-|Hne].
    + exists (hp_ref y). rewrite znth_zset_eq by lia. split; [done|]. cbn [fmap list_fmap chain]. split_and!; [done..|]. exists pr.
      split; [by rewrite Hrefs, lookup_insert_eq|]. assert (b' = b) as -> by congruence. rewrite Hns.
      apply Hchain; [done|apply of_type_elem].
    + exists b'. rewrite znth_zset_ne by lia. split; [done|]. apply Hchain; [done|apply of_type_elem].
  - rewrite fmap_cons. apply NoDup_cons. split; [done|apply Hh].
  - rewrite fmap_cons. apply NoDup_cons. split; [done|apply Hh].
  - cbn [length]. lia.
  - intros z [->|Hz]%elem_of_cons; [done|by apply Hh].
  - rewrite Hmem. intros z [->|Hz]%elem_of_cons; [done|]. eapply page_mem_agree; [by apply Hh|by apply Hh|].
    eapply changed_agree; [exact Hch|]. assert (hp_page z ≠ hp_page y) by (intros He; apply Hnp; rewrite <- He; by apply list_elem_of_fmap_2).
    pose proof (ps_align _ Hsh). pose proof (ps_align _ (hk_shape _ _ Hh z Hz)). Z.to_euclidean_division_equations. lia.
  - rewrite Hrefs. intros z [->|Hz]%elem_of_cons; [exists pr; by rewrite lookup_insert_eq|].
    rewrite lookup_insert_ne; [by apply Hh|]. intros He. apply Hnr. rewrite He. by apply list_elem_of_fmap_2.
Qed.

Lemma wp_init_page h xs p pg t (Q : unit → heap → Prop) : heap_ok h xs → is_type t →
  pg mod 4096 = 0 → KSEG0 ≤ pg → pg + 4096 ≤ KSEG1 → (∀ i, 0 ≤ i < 1024 → rd32 (mem h) (pg + 4 * i) = DEADBEEF) →
  p ≠ 0 → p ∉ hp_ref <$> xs → pg ∉ hp_page <$> xs → Z.of_nat (length xs) < TOTAL_PAGEREFS →
  (∀ h', heap_ok h' (fresh p pg t :: xs) → klock h' = klock h → kheaproots h' = kheaproots h →
     changed_in (mem h) (mem h') pg (pg + 4096) → Q tt h') →
  wp (init_page p pg t) Q h.
Proof.
  intros Hh Ht Ha Hlo Hhi Hbeef H0 Hnr Hnp Hc HQ. destruct (sizes_ok _ Ht) as [Hr _ Hbl Hnb _ _].
  unfold init_page. wp_go. apply wp_blocksize_of; [done|]. fold (nblocks t). unfold w16. rewrite (Z.mod_small (nblocks t)) by lia.
  wp_go. wp_inner. apply wp_bind_inv, wp_link_loop; [done..|]. intros m' Hch Hlk Hbf. wp_go. rewrite (proj2 (Z.gtb_lt _ _)) by lia.
  replace (pg + (nblocks t - 1) * size t - pg) with ((nblocks t - 1) * size t) by lia. rewrite Z.mod_small by nia. wp_check.
  destruct (hk_same _ _ Hh t Ht) as (b & Hb & _). unfold get_sizebase. wp_go. eapply wp_deref; [done|].
  unfold store_ref, put_sizebase. wp_go. apply HQ; [|done|done|done].
  eapply (heap_push h xs (fresh p pg t) _ m' b); try done; [by apply fresh_shape|by apply fresh_mem|by apply fresh_ref|done|done].
Qed.

(** ** Unlinking a page *)

(** The place that leads to the element after [l]. *)
Fixpoint pred (step : Z → place) (guy : place) (l : list Z) : place :=
  match l with [] => guy | q :: l' => pred step (step q) l' end.

Lemma pred_snoc step guy l q : pred step guy (l ++ [q]) = step q.
Proof. revert guy. induction l as [|r l IH]; intros guy; simpl; auto. Qed.

(** A page the checks accept. *)
Definition good (h : heap) (p : Z) : Prop :=
  ∃ x pr, page_shape x ∧ page_mem (mem h) x ∧ refs h !! p = Some pr ∧ ref_of x pr.

Lemma wp_check_good h p (Q : unit → heap → Prop) : klock h = true → good h p → Q tt h → wp (checksubpage p) Q h.
Proof. intros Hk (x & pr & ? & ? & ? & ?) HQ. by eapply (wp_checksubpage x). Qed.

Lemma heap_good h xs p : heap_ok h xs → p ∈ hp_ref <$> xs → good h p.
Proof.
  intros Hh (x & -> & Hx)%list_elem_of_fmap. destruct (hk_ref _ _ Hh x Hx) as (pr & Hpr & Hro).
  exists x, pr. split_and!; [by apply Hh|by apply Hh|done|done].
Qed.

(** The loop stops at the place that leads to [p], and changes it. *)
Lemma wp_unlink next step l1 p l2 h fuel guy v (Q : unit → heap → Prop) : klock h = true →
  (∀ q, q ∈ l1 ++ [p] → good h q) → (∀ R, R v h → wp (load_place guy) R h) →
  (∀ q pr R, refs h !! q = Some pr → R (next pr) h → wp (load_place (step q)) R h) →
  chain next (refs h) v (l1 ++ p :: l2) → p ∉ l1 → (length l1 < fuel)%nat →
  (∀ pr, refs h !! p = Some pr → wp (store_place (pred step guy l1) (next pr)) Q h) →
  wp (unlink next step fuel guy p) Q h.
Proof.
  intros Hk Hg Hload Hstep. revert l1 guy v Hg Hload. induction fuel as [|fuel IH]; intros l1 guy v Hg Hload Hc Hnin Hf HQ; [lia|].
  cbn [unlink]. apply wp_bind, Hload. destruct l1 as [|q l1]; destruct Hc as (-> & H0 & pr & Hpr & Hc).
  - rewrite (proj2 (Z.eqb_neq _ _) H0). wp_go. apply wp_check_good; [done|apply Hg; left|]. rewrite Z.eqb_refl. wp_go.
    apply (wp_load_ref h p pr); [done|]. by apply HQ.
  - rewrite (proj2 (Z.eqb_neq _ _) H0). wp_go. apply wp_check_good; [done|apply Hg; left|]. apply not_elem_of_cons in Hnin as [Hne Hnin].
    destruct (Z.eqb_spec q p); [congruence|]. apply (IH l1 (step q) (next pr)); try done; [| |simpl in Hf; lia].
    + intros r Hr. apply Hg. by right.
    + intros R HR. by eapply Hstep.
Qed.

Lemma chain_skip next R v l0 q p l2 qr' pr : chain next R v (l0 ++ q :: p :: l2) → NoDup (l0 ++ q :: p :: l2) →
  R !! p = Some pr → next qr' = next pr → chain next (<[q := qr']> R) v (l0 ++ q :: l2).
Proof.
  revert v. induction l0 as [|r l0 IH]; intros v Hc Hnd Hp Hn.
  - destruct Hc as (-> & H0 & qr & Hqr & _ & Hp0 & pr' & Hpr' & Hc). assert (pr' = pr) as -> by congruence.
    apply NoDup_cons in Hnd as [Hnin _]. cbn [app chain]. split_and!; [done..|]. exists qr'. split; [apply lookup_insert_eq|].
    rewrite Hn. apply (chain_ext _ _ _ _ _ Hc). intros r rr Hr Hrr. exists rr. split; [|done]. rewrite lookup_insert_ne; [done|].
    intros ->. apply Hnin. by right.
  - destruct Hc as (-> & H0 & rr & Hrr & Hc). cbn [app] in Hnd. apply NoDup_cons in Hnd as [Hnin Hnd]. cbn [app chain].
    split_and!; [done..|]. exists rr. split; [|by apply IH]. rewrite lookup_insert_ne; [done|]. intros ->. apply Hnin.
    apply elem_of_app. right. left.
Qed.

(** The fields of a pageref that are not links. *)
Definition contents (pr : pageref) : Z * Z * Z := (pageaddr_and_blocktype pr, freelist_offset pr, nfree pr).
Lemma ref_of_contents x pr pr' : contents pr' = contents pr → ref_of x pr → ref_of x pr'.
Proof.
  destruct pr, pr'. unfold contents. simpl. intros [= -> -> ->] [? ? ? ?]. by split.
Qed.

(** The pagerefs of [h'] are those of [h] but for their links of one kind. *)
Definition relinked (keep : pageref → Z) (h h' : heap) : Prop :=
  ∀ q pr, refs h !! q = Some pr → ∃ pr', refs h' !! q = Some pr' ∧ keep pr' = keep pr ∧ contents pr' = contents pr.

Lemma good_relinked keep h h' p : relinked keep h h' → mem h' = mem h → good h p → good h' p.
Proof.
  intros Hr Hm (x & pr & Hs & Hme & Hpr & Hro). destruct (Hr p pr Hpr) as (pr' & Hpr' & _ & Hc).
  exists x, pr'. split_and!; [done|by rewrite Hm|done|by eapply ref_of_contents].
Qed.

Lemma split_refs xs1 x xs2 : hp_ref <$> xs1 ++ x :: xs2 = (hp_ref <$> xs1) ++ hp_ref x :: (hp_ref <$> xs2).
Proof. by rewrite fmap_app, fmap_cons. Qed.
Lemma of_type_split t xs1 x xs2 : of_type t (xs1 ++ x :: xs2) =
  of_type t xs1 ++ (if decide (hp_type x = t) then [x] else []) ++ of_type t xs2.
Proof. unfold of_type. rewrite filter_app, filter_cons. by destruct (decide _). Qed.

Lemma of_type_refs_nodup t xs : NoDup (hp_ref <$> xs) → NoDup (hp_ref <$> of_type t xs).
Proof.
  intros Hnd. eapply sublist_NoDup; [exact Hnd|]. apply fmap_sublist, sublist_filter.
Qed.

Definition set_next_same (v : Z) (pr : pageref) : pageref :=
  mkPageref v (next_all pr) (pageaddr_and_blocktype pr) (freelist_offset pr) (nfree pr).
Definition set_next_all (v : Z) (pr : pageref) : pageref :=
  mkPageref (next_samesize pr) v (pageaddr_and_blocktype pr) (freelist_offset pr) (nfree pr).

(** Removing a page from the list of its size. *)
Lemma wp_unlink_same h xs1 x xs2 (Q : unit → heap → Prop) : heap_ok h (xs1 ++ x :: xs2) → klock h = true →
  (∀ h', relinked next_all h h' → mem h' = mem h → allbase h' = allbase h → klock h' = true → kheaproots h' = kheaproots h →
     (∀ t, is_type t → ∃ b, znth (sizebases h') t = Some b ∧ chain next_samesize (refs h') b (hp_ref <$> of_type t (xs1 ++ xs2))) →
     Q tt h') →
  wp (unlink next_samesize InSamesize LIST_FUEL (InSizebases (hp_type x)) (hp_ref x)) Q h.
Proof.
  intros Hh Hk HQ. set (t := hp_type x). assert (x ∈ xs1 ++ x :: xs2) as Hx by (apply elem_of_app; right; left).
  pose proof (ps_type _ (hk_shape _ _ Hh x Hx)) as Ht. destruct (hk_same _ _ Hh t Ht) as (b & Hb & Hc).
  rewrite of_type_split, decide_True in Hc by done. cbn [app] in Hc. rewrite split_refs in Hc.
  pose proof (of_type_refs_nodup t _ (hk_refs _ _ Hh)) as Hnd. rewrite of_type_split, decide_True in Hnd by done.
  cbn [app] in Hnd. rewrite split_refs in Hnd. pose proof (hk_count _ _ Hh) as Hcount. rewrite length_app in Hcount. cbn [length] in Hcount.
  pose proof (of_type_length t xs1). pose proof (znth_Some_range _ _ _ Hb) as Hrange.
  assert (hp_ref x ∉ hp_ref <$> of_type t xs1) as Hnin.
  { apply NoDup_app in Hnd as (_ & Hd & _). intros Hin. apply (Hd _ Hin). left. }
  eapply (wp_unlink _ _ (hp_ref <$> of_type t xs1) (hp_ref x)); [done| | | |exact Hc|done| |].
  - intros q Hq. apply (heap_good h _ q Hh). rewrite split_refs. apply elem_of_app in Hq as [Hq|Hq%list_elem_of_singleton].
    + apply elem_of_app. left. by eapply of_type_elem.
    + subst q. apply elem_of_app. right. left.
  - intros R HR. simpl. unfold get_sizebase. wp_go. by eapply wp_deref.
  - intros q pr R Hpr HR. simpl. wp_go. apply (wp_load_ref h q pr); [done|]. by wp_go.
  - rewrite length_fmap. apply LIST_FUEL_eq. lia.
  - intros pr Hpr.
    assert (∀ t', is_type t' → t' ≠ t → of_type t' (xs1 ++ xs2) = of_type t' (xs1 ++ x :: xs2)) as Hother.
    { intros t' _ Hne. rewrite of_type_split, decide_False by (unfold t in *; congruence). unfold of_type. by rewrite filter_app. }
    assert (of_type t (xs1 ++ xs2) = of_type t xs1 ++ of_type t xs2) as Happ by (unfold of_type; by rewrite filter_app).
    destruct (of_type t xs1) as [|y ys _] eqn:E using rev_ind.
    + simpl. unfold put_sizebase. wp_go. apply HQ; try done; [by intros q qr Hq; exists qr|]. intros t' Ht'. cbn [sizebases set_sizebases refs].
      destruct (decide (t' = t)) as [->|Hne].
      * exists (next_samesize pr). rewrite znth_zset_eq, Happ by lia. split; [done|]. destruct Hc as (_ & _ & pr' & Hpr' & Hc).
        assert (pr' = pr) as -> by congruence. done.
      * rewrite znth_zset_ne, Hother by (done || lia). by apply Hh.
    + rewrite fmap_app in *. cbn [fmap list_fmap] in *. rewrite pred_snoc. cbn [store_place]. rewrite <- app_assoc in Hc, Hnd. cbn [app] in Hc, Hnd.
      assert (y ∈ xs1 ++ x :: xs2 ∧ hp_type y = t) as [Hy Hyt].
      { assert (y ∈ of_type t xs1) as [? ?]%list_elem_of_filter by (rewrite E; apply elem_of_app; right; left).
        split; [apply elem_of_app; by left|done]. }
      destruct (hk_ref _ _ Hh y Hy) as (yr & Hyr & _). wp_go. apply (wp_load_ref h _ yr); [done|]. unfold store_ref. wp_go.
      fold (set_next_same (next_samesize pr) yr). apply HQ; try done.
      * intros q qr Hq. cbn [refs set_refs]. destruct (decide (q = hp_ref y)) as [->|Hne].
        -- rewrite lookup_insert_eq. exists (set_next_same (next_samesize pr) yr). assert (qr = yr) as -> by congruence. done.
        -- rewrite lookup_insert_ne by done. by exists qr.
      * intros t' Ht'. cbn [sizebases refs set_refs]. destruct (decide (t' = t)) as [->|Hne].
        -- exists b. split; [done|]. rewrite Happ, fmap_app, fmap_app, <- app_assoc. cbn [fmap list_fmap app].
           by eapply chain_skip.
        -- rewrite Hother by done. destruct (hk_same _ _ Hh t' Ht') as (b' & Hb' & Hc'). exists b'. split; [done|].
           apply (chain_ext _ _ _ _ _ Hc'). intros q qr (z & -> & [Hzt Hz]%list_elem_of_filter)%list_elem_of_fmap Hqr.
           exists qr. split; [|done]. rewrite lookup_insert_ne; [done|]. intros Heq. apply Hne. rewrite <- Hzt, <- Hyt. f_equal.
           symmetry. by apply (same_ref h _ Hh).
Qed.

(** Removing a page from the list of all pages. *)
Lemma wp_unlink_all h l1 p l2 (Q : unit → heap → Prop) : klock h = true → chain next_all (refs h) (allbase h) (l1 ++ p :: l2) →
  NoDup (l1 ++ p :: l2) → (∀ q, q ∈ l1 ++ [p] → good h q) → Z.of_nat (length l1) ≤ TOTAL_PAGEREFS →
  (∀ h', relinked next_samesize h h' → mem h' = mem h → sizebases h' = sizebases h → klock h' = true → kheaproots h' = kheaproots h →
     chain next_all (refs h') (allbase h') (l1 ++ l2) → Q tt h') →
  wp (unlink next_all InAll LIST_FUEL InAllbase p) Q h.
Proof.
  intros Hk Hc Hnd Hg Hlen HQ. eapply (wp_unlink _ _ l1 p); [done|done| | |exact Hc| | |].
  - intros R HR. simpl. by wp_go.
  - intros q pr R Hpr HR. simpl. wp_go. apply (wp_load_ref h q pr); [done|]. by wp_go.
  - apply NoDup_app in Hnd as (_ & Hd & _). intros Hin. apply (Hd _ Hin). left.
  - by apply LIST_FUEL_eq.
  - intros pr Hpr. destruct l1 as [|q l1 _] using rev_ind.
    + simpl. wp_go. apply HQ; try done; [by intros q qr Hq; exists qr|]. destruct Hc as (_ & _ & pr' & Hpr' & Hc).
      assert (pr' = pr) as -> by congruence. done.
    + rewrite pred_snoc. cbn [store_place]. rewrite <- app_assoc in Hc, Hnd. cbn [app] in Hc, Hnd.
      destruct (Hg q) as (x & qr & _ & _ & Hqr & _); [rewrite <- app_assoc; apply elem_of_app; right; left|].
      wp_go. apply (wp_load_ref h q qr); [done|]. unfold store_ref. wp_go. fold (set_next_all (next_all pr) qr). apply HQ; try done.
      * intros r rr Hr. cbn [refs set_refs]. destruct (decide (r = q)) as [->|Hne].
        -- rewrite lookup_insert_eq. exists (set_next_all (next_all pr) qr). assert (rr = qr) as -> by congruence. done.
        -- rewrite lookup_insert_ne by done. by exists rr.
      * cbn [refs set_refs allbase]. rewrite <- app_assoc. cbn [app]. by eapply chain_skip.
Qed.

Lemma wp_remove_lists h xs1 x xs2 (Q : unit → heap → Prop) : heap_ok h (xs1 ++ x :: xs2) → klock h = true →
  (∀ h', heap_ok h' (xs1 ++ xs2) → mem h' = mem h → klock h' = true → kheaproots h' = kheaproots h → Q tt h') →
  wp (remove_lists (hp_ref x) (hp_type x)) Q h.
Proof.
  intros Hh Hk HQ. assert (x ∈ xs1 ++ x :: xs2) as Hx by (apply elem_of_app; right; left).
  pose proof (ps_type _ (hk_shape _ _ Hh x Hx)) as Ht. unfold remove_lists. wp_go.
  apply wp_KASSERT; [unfold is_type, NSIZES in *; apply andb_true_iff; lia|]. wp_go.
  eapply wp_unlink_same; [exact Hh|done|]. intros h1 Hr1 Hm1 Hb1 Hk1 Hro1 Hs1. pose proof (hk_count _ _ Hh) as Hcount.
  rewrite length_app in Hcount. cbn [length] in Hcount. pose proof (hk_all _ _ Hh) as Hall. pose proof (hk_refs _ _ Hh) as Hnd.
  pose proof (hk_pages _ _ Hh) as Hpg. rewrite split_refs in Hall, Hnd.
  eapply (wp_unlink_all h1 (hp_ref <$> xs1) (hp_ref x) (hp_ref <$> xs2)); try done.
  { rewrite Hb1. apply (chain_ext _ _ _ _ _ Hall). intros q qr _ Hq. destruct (Hr1 q qr Hq) as (qr' & ? & ? & ?). eauto. }
  { intros q Hq. eapply good_relinked; [exact Hr1|done|]. apply (heap_good h _ q Hh). rewrite split_refs.
    apply elem_of_app in Hq as [Hq|Hq%list_elem_of_singleton]; apply elem_of_app; [by left|subst q; right; left]. }
  { rewrite length_fmap. lia. }
  intros h2 Hr2 Hm2 Hs2 Hk2 Hro2 Hc2. apply HQ; [|congruence|done|congruence].
  assert (∀ y, y ∈ xs1 ++ xs2 → y ∈ xs1 ++ x :: xs2) as Hsub by (intros y; rewrite !elem_of_app, elem_of_cons; tauto).
  split.
  - by rewrite fmap_app.
  - intros t Hty. destruct (Hs1 t Hty) as (b & Hb & Hc). exists b. rewrite Hs2. split; [done|].
    apply (chain_ext _ _ _ _ _ Hc). intros q qr _ Hq. destruct (Hr2 q qr Hq) as (qr' & ? & ? & ?). eauto.
  - rewrite fmap_app. eapply sublist_NoDup; [exact Hnd|]. apply sublist_app; [done|]. by apply sublist_cons.
  - rewrite fmap_app in *. rewrite fmap_cons in Hpg. eapply sublist_NoDup; [exact Hpg|]. apply sublist_app; [done|]. by apply sublist_cons.
  - rewrite length_app. lia.
  - intros y Hy. apply Hh. by apply Hsub.
  - intros y Hy. rewrite Hm2, Hm1. apply Hh. by apply Hsub.
  - intros y Hy. destruct (hk_ref _ _ Hh y (Hsub y Hy)) as (pr & Hpr & Href). destruct (Hr1 _ _ Hpr) as (pr1 & Hpr1 & _ & Hc1).
    destruct (Hr2 _ _ Hpr1) as (pr2 & Hpr2 & _ & Hc2'). exists pr2. split; [done|]. eapply ref_of_contents; [|exact Href]. congruence.
Qed.

(** ** Putting a block back *)

(** The link of the block that goes back, and the search for it on the list. *)
Lemma wp_link_block h x pr b (Q : unit → heap → Prop) : page_shape x → free_list (mem h) x (free_head x) (hp_free x) →
  ref_of x pr → b ∉ hp_free x →
  Q tt (set_mem (wr32 (mem h) (block_addr x b) (free_head x)) h) →
  wp (if freelist_offset pr =? INVALID_OFFSET then store32 (block_addr x b) 0
      else
        store32 (block_addr x b) (hp_page x + freelist_offset pr) ;;
        not_on_list (Z.to_nat (MAXBLOCKS + 1)) (hp_page x + freelist_offset pr) (block_addr x b)) Q h.
Proof.
  intros Hx Hf Hro Hnin HQ. pose proof (ro_free _ _ Hro) as Hoff. pose proof (free_length x Hx) as Hlen.
  pose proof (block_aligned4 x Hx b) as Hal. destruct (sizes_ok _ (ps_type _ Hx)) as [Hr _ Hbl Hnb _ _].
  unfold free_head in *. destruct (hp_free x) as [|c l] eqn:El.
  - rewrite Hoff. simpl. by apply wp_store32.
  - assert (∀ d, d ∈ c :: l → 0 ≤ d < nblocks (hp_type x)) as Hd by (intros d Hd; apply (shape_free x Hx); by rewrite El).
    pose proof (Hd c ltac:(left)). rewrite Hoff. destruct (Z.eqb_spec (c * size (hp_type x)) INVALID_OFFSET) as [He|_];
      [unfold INVALID_OFFSET in He; nia|].
    wp_go. apply wp_store32; [done|]. change (hp_page x + c * size (hp_type x)) with (block_addr x c).
    apply (wp_not_on_list x _ (c :: l)); try done; [|change (MAXBLOCKS + 1) with 257; simpl in *; lia].
    cbn [mem set_mem]. apply (free_list_agree (mem h)); [lia|done|]. intros d Hdl.
    assert (d ≠ b) as Hne by (intros ->; done). eapply changed_agree; [apply wr32_changed|].
    destruct (block_apart x Hx d b Hne); lia.
Qed.

(** [put_block] up to the test whether the page has become free. *)
Lemma wp_put_block h xs x b csz (Q : option Z → heap → Prop) : heap_ok h xs → klock h = true → x ∈ xs → hp_used x !! b = Some csz →
  (∀ h', heap_ok h' (replace (put b x) xs) → klock h' = true → kheaproots h' = kheaproots h →
     changed_in (mem h) (mem h') (block_addr x b) (block_addr x b + size (hp_type x)) →
     wp (if Z.of_nat (S (length (hp_free x))) =? nblocks (hp_type x) then
           remove_lists (hp_ref x) (hp_type x) ;; freepageref (hp_ref x) ;; spinlock_release ;; mret (Some (hp_page x))
         else spinlock_release ;; mret None) Q h') →
  wp (put_block (hp_ref x) (block_addr x b)) Q h.
Proof.
  intros Hh Hk Hin Hu HQ. pose proof (hk_shape _ _ Hh x Hin) as Hx. pose proof (hk_mem _ _ Hh x Hin) as Hm.
  destruct (hk_ref _ _ Hh x Hin) as (pr & Hpr & Hro). pose proof (ps_type _ Hx) as Ht.
  destruct (sizes_ok _ Ht) as [Hr Hm16 Hbl Hnb _ _]. pose proof (block_aligned4 x Hx b) as Hal.
  pose proof (shape_used x Hx b csz Hu) as Hb. destruct (block_in_page x Hx b Hb) as [Hlo Hhi].
  assert (b ∉ hp_free x) as Hnin by (intros Hbf%(ps_disjoint _ Hx); congruence).
  destruct (block_number x Hx b) as [Hmod _]. pose proof (free_length _ (put_shape x b csz Hx Hu)) as Hlen. cbn [put hp_free length hp_type] in Hlen.
  unfold put_block. wp_go. apply (wp_load_ref h _ pr); [done|]. wp_go. rewrite (ro_page _ _ Hro), (ro_type _ _ Hro).
  apply wp_blocksize_of; [done|]. wp_go. rewrite Hmod.
  apply wp_KASSERT; [rewrite Z.geb_leb, (proj2 (Z.leb_gt _ _)); [done|unfold PAGE_SIZE; lia]|]. wp_go.
  apply wp_smaller_of; [done|]. wp_go. apply (wp_checkguardband _ _ csz); [done|done|by apply Hm|]. wp_go.
  apply wp_fill_deadbeef; [done|lia|Z.to_euclidean_division_equations; lia|]. intros m1 Hc1 Hbeef. wp_go.
  replace (hp_page x + (block_addr x b - hp_page x)) with (block_addr x b) by lia.
  apply (wp_link_block (set_mem m1 h) x pr b); [done| |done|done|].
  { apply (free_list_agree (mem h)); [lia|apply Hm|]. intros c Hc. eapply changed_agree; [exact Hc1|].
    assert (c ≠ b) as Hne by (intros ->; done). destruct (block_apart x Hx c b Hne); lia. }
  cbn [mem set_mem]. set (m2 := wr32 m1 _ _). unfold store_ref. wp_go.
  assert (block_addr x b - hp_page x = b * size (hp_type x)) as -> by (unfold block_addr; lia).
  assert (w16 (nfree pr + 1) = Z.of_nat (S (length (hp_free x)))) as Hnf.
  { rewrite (ro_nfree _ _ Hro). unfold w16. rewrite Z.mod_small; lia. }
  change (PAGE_SIZE / size (hp_type x)) with (nblocks (hp_type x)). apply wp_KASSERT; [apply Z.leb_le; lia|].
  replace (w16 (nfree pr + 1) =? nblocks (hp_type x)) with (Z.of_nat (S (length (hp_free x))) =? nblocks (hp_type x)) by by rewrite Hnf.
  assert (changed_in (mem h) m2 (block_addr x b) (block_addr x b + size (hp_type x))) as Hch.
  { apply (changed_trans _ m1); [done|]. eapply changed_mono; [apply wr32_changed|lia..]. }
  apply HQ; try done.
  apply (heap_change h xs x (put b x) pr (mkPageref (next_samesize pr) (next_all pr) (pageaddr_and_blocktype pr)
    (w16 (b * size (hp_type x))) (w16 (nfree pr + 1))) m2); try done.
  - by eapply put_ref.
  - by eapply put_shape.
  - eapply (put_mem (mem h)); try done.
    + intros i Hi. unfold m2. rewrite (rd32_agree m1); [apply Hbeef; lia|]. eapply changed_agree; [apply wr32_changed|lia].
    + apply rd32_wr32. unfold free_head. destruct (hp_free x) as [|c l] eqn:El; [lia|]. apply block_word; [done|].
      apply (shape_free x Hx). rewrite El. left.
  - eapply changed_mono; [exact Hch|lia..].
Qed.

End KmallocHeap.
