(* ===== verification/KmallocRoots.v ===== *)
(** * The pagerefs of the kernel heap

    A pageref is a slot of one of the pagerefs pages.  A map from slots to what they are
    used for says which bits of the roots are set.  Taking a slot finds a clear one and
    sets its bit; giving back the pageref of a page clears its bit. *)

From Stdlib Require Import ZArith Lia.
From stdpp Require Import base numbers list gmap.
From S2P Require Import Prelude Bitmap Coremap Kmalloc KmallocMem KmallocHeap.

Module KmallocRoots.
Import Coremap(PAGE_SIZE, KSEG0).
Import Kmalloc KmallocMem KmallocHeap.

(** ** Counting *)

Section counting.
Context {A : Type} (P P' : A → Prop) `{∀ x, Decision (P x)} `{∀ x, Decision (P' x)}.

Lemma filter_same (l : list A) : (∀ x, x ∈ l → P x ↔ P' x) → filter P l = filter P' l.
Proof using.
  induction l as [|x l IH]; intros Hl; [done|]. rewrite !filter_cons, IH by (intros; apply Hl; by right).
  pose proof (Hl x ltac:(left)) as Hx. destruct (decide (P x)), (decide (P' x)); tauto || done.
Qed.

Lemma filter_all (l : list A) : (∀ x, x ∈ l → P x) → filter P l = l.
Proof using.
  induction l as [|x l IH]; intros Hl; [done|]. rewrite filter_cons, decide_True by (apply Hl; left).
  f_equal. apply IH. intros y Hy. apply Hl. by right.
Qed.

Lemma count_flip (l : list A) a : NoDup l → a ∈ l → ¬ P a → P' a → (∀ x, x ≠ a → P x ↔ P' x) →
  length (filter P' l) = S (length (filter P l)).
Proof using.
  intros Hnd Ha Hn Hy Hsame. induction Hnd as [|x l Hx Hnd IH]; [by apply elem_of_nil in Ha|].
  rewrite !filter_cons. apply elem_of_cons in Ha as [<-|Ha].
  - rewrite decide_True, decide_False by done. cbn [length]. do 2 f_equal. symmetry. apply filter_same.
    intros y Hy'. apply Hsame. intros ->. done.
  - assert (x ≠ a) as Hne by (intros ->; done). pose proof (Hsame x Hne).
    destruct (decide (P x)), (decide (P' x)); try tauto; cbn [length]; rewrite IH by done; done.
Qed.
End counting.

(** ** The invariant *)

(** What the slots in use are used for: [None] for the pageref of a page of the heap, [Some c] for a
    slot that the owner [c] has taken, or will never give back. *)
Notation owners := (gmap (Z * Z) (option Z)).

Definition taken (own : owners) (k j : Z) : Prop := is_Some (own !! (k, j)).
#[global] Instance taken_dec own k j : Decision (taken own k j).
Proof. unfold taken. apply _. Defined.

Definition count (own : owners) (k : Z) : Z := Z.of_nat (length (filter (taken own k) (seqZ 0 256))).

Record root_ok (own : owners) (k : Z) (r : kheap_root) : Prop := {
  rk_words : words_ok (pagerefs_inuse r);
  rk_bits : ∀ j, 0 ≤ j < 256 → wbit (pagerefs_inuse r) j = bool_decide (taken own k j);
  rk_count : numinuse r = count own k;
  rk_page : page r = 0 ∨ page r mod 4096 = 0 ∧ KSEG0 ≤ page r ∧ page r + 4096 ≤ KSEG1;
}.

Record roots_ok (own : owners) (rs : list kheap_root) : Prop := {
  rs_length : length rs = 16%nat;
  rs_root : ∀ k r, znth rs k = Some r → root_ok own k r;
  rs_range : ∀ k j, taken own k j → 0 ≤ k < 16 ∧ 0 ≤ j < 256;
  rs_page : ∀ k j r, own !! (k, j) = Some None → znth rs k = Some r → page r ≠ 0;
  rs_before : ∀ k j k' r, taken own k j → k' < k → znth rs k' = Some r → page r ≠ 0;
  rs_distinct : ∀ k k' r r', znth rs k = Some r → znth rs k' = Some r' → k ≠ k' → page r ≠ 0 → page r ≠ page r';
}.

(** A root has slots to spare while it has no page. *)
Definition roomy (rs : list kheap_root) : Prop := ∀ k r, znth rs k = Some r → page r = 0 → numinuse r < 256.

(** ** Searching for a slot *)

Lemma find_slot_ok ws n j h (Q : option Z → heap → Prop) : words_ok ws → 0 ≤ j → j + Z.of_nat n ≤ 256 →
  (∀ i, j ≤ i < j + Z.of_nat n → wbit ws i = false → Q (Some i) h) →
  ((∀ i, j ≤ i < j + Z.of_nat n → wbit ws i = true) → Q None h) →
  wp (find_slot n j ws) Q h.
Proof.
  intros Hws. revert j. induction n as [|n IH]; intros j Hj Hle HS HN; cbn [find_slot]; [wp_go; apply HN; lia|].
  wp_go. apply wp_bit_isset; [done|lia|]. destruct (wbit ws j) eqn:E; [|wp_go; apply HS; [lia|done]].
  apply IH; [lia|lia|intros i Hi; apply HS; lia|]. intros Hall. apply HN. intros i Hi.
  destruct (decide (i = j)) as [->|]; [done|apply Hall; lia].
Qed.

Lemma find_word_ok ws n i h (Q : option Z → heap → Prop) : words_ok ws → 0 ≤ i → i + Z.of_nat n ≤ 8 →
  (∀ j, 0 ≤ j < 256 → wbit ws j = false → Q (Some j) h) →
  ((∀ j, 32 * i ≤ j < 32 * (i + Z.of_nat n) → wbit ws j = true) → Q None h) →
  wp (find_word n i ws) Q h.
Proof.
  intros Hws. revert i. induction n as [|n IH]; intros i Hi Hle HS HN; cbn [find_word]; [wp_go; apply HN; lia|].
  assert (∀ k, 0 ≤ k < 32 → (32 * i + k) / 32 = i ∧ (32 * i + k) mod 32 = k) as Hix.
  { intros k Hk. rewrite Z.add_comm, Z.mul_comm, Z.div_add, Z.mod_add, Z.div_small, Z.mod_small by lia. lia. }
  destruct (wbit_word ws (32 * i) Hws ltac:(lia)) as (w & Hw & Hr & _). destruct (Hix 0 ltac:(lia)) as [Hd0 _].
  rewrite Z.add_0_r in Hd0. rewrite Hd0 in Hw. wp_go. eapply wp_deref; [done|].
  assert (∀ k, 0 ≤ k < 32 → wbit ws (32 * i + k) = Z.testbit w k) as Hbit.
  { intros k Hk. unfold wbit. destruct (Hix k Hk) as [-> ->]. by rewrite Hw. }
  destruct (Z.eqb_spec w (2 ^ 32 - 1)) as [->|Hne].
  - apply IH; [lia|lia|done|]. intros Hall. apply HN. intros j Hj. destruct (decide (j < 32 * (i + 1))); [|apply Hall; lia].
    replace j with (32 * i + (j - 32 * i)) by lia. rewrite Hbit by lia. change (2 ^ 32 - 1) with (Z.ones 32). apply Z.ones_spec_low. lia.
  - wp_go. apply find_slot_ok; [done|lia|lia| |].
    + intros j Hj Hb. wp_go. apply HS; [lia|done].
    + intros Hall. exfalso. apply Hne, full_word; [done|]. intros k Hk. rewrite <- Hbit by done. apply Hall. lia.
Qed.

Lemma count_full own k : (∀ j, 0 ≤ j < 256 → taken own k j) → count own k = 256.
Proof.
  intros Hall. unfold count. rewrite filter_all; [by rewrite length_seqZ|]. intros j Hj%elem_of_seqZ. apply Hall. lia.
Qed.

(** Changing the use of one slot. *)
Lemma slot_count_insert own k j o k' : own !! (k, j) = None → 0 ≤ j < 256 →
  count (<[(k, j) := o]> own) k' = count own k' + (if decide (k' = k) then 1 else 0).
Proof.
  intros Hn Hj. unfold count. destruct (decide (k' = k)) as [->|Hne].
  - rewrite (count_flip (taken own k) (taken (<[(k, j) := o]> own) k) (seqZ 0 256) j); [lia| | | | |].
    + apply NoDup_seqZ.
    + apply elem_of_seqZ. lia.
    + unfold taken. rewrite Hn. by intros [? ?].
    + unfold taken. rewrite lookup_insert_eq. eauto.
    + intros i Hi. unfold taken. by rewrite lookup_insert_ne by congruence.
  - rewrite Z.add_0_r. do 2 f_equal. apply list_filter_iff. intros i. unfold taken. by rewrite lookup_insert_ne by congruence.
Qed.

(** The pages of the roots after the use of a slot has changed. *)
Lemma zset_pages rs k r ws n : znth rs k = Some r → page <$> zset rs k (mkRoot (page r) ws n) = page <$> rs.
Proof.
  intros Hr. pose proof (znth_Some_range _ _ _ Hr). rewrite znth_lookup in Hr by lia. unfold zset. rewrite list_fmap_insert.
  apply list_insert_id. by rewrite list_lookup_fmap, Hr.
Qed.

Lemma same_pages rs rs' k r : page <$> rs' = page <$> rs → znth rs k = Some r → ∃ r', znth rs' k = Some r' ∧ page r' = page r.
Proof.
  intros He Hr. pose proof (znth_Some_range _ _ _ Hr). rewrite znth_lookup in * by lia.
  assert ((page <$> rs') !! Z.to_nat k = Some (page r)) as Hp by (by rewrite He, list_lookup_fmap, Hr).
  rewrite list_lookup_fmap in Hp. destruct (rs' !! Z.to_nat k) as [r'|] eqn:Hr'; [|done]. exists r'. split; [done|by injection Hp].
Qed.

Section roots.
Context (own : owners) (rs : list kheap_root) (Hrs : roots_ok own rs).

(** The invariant after the use of the slot [j] of the root [k] has changed. *)
Lemma roots_slot own' k j r ws n : znth rs k = Some r → 0 ≤ j < 256 → words_ok ws →
  (∀ q, q ≠ (k, j) → own' !! q = own !! q) →
  (∀ i, 0 ≤ i < 256 → wbit ws i = if decide (i = j) then bool_decide (taken own' k j) else wbit (pagerefs_inuse r) i) →
  n = count own' k → (taken own' k j → ∀ k' r', k' < k → znth rs k' = Some r' → page r' ≠ 0) →
  (own' !! (k, j) = Some None → page r ≠ 0) → roots_ok own' (zset rs k (mkRoot (page r) ws n)).
Proof using Hrs.
  intros Hr Hj Hws Hown Hbits -> Hbefore Hnone. pose proof (znth_Some_range _ _ _ Hr) as Hk.
  pose proof (zset_pages rs k r ws (count own' k) Hr) as Hpages. symmetry in Hpages.
  assert (∀ k' i, (k', i) ≠ (k, j) → taken own' k' i ↔ taken own k' i) as Htk by (intros; unfold taken; by rewrite Hown).
  split.
  - rewrite length_zset. apply Hrs.
  - intros k' r' Hr'. destruct (decide (k' = k)) as [->|Hne].
    + rewrite znth_zset_eq in Hr' by lia. injection Hr' as <-. destruct (rs_root _ _ Hrs k r Hr) as [Hw Hb Hc Hp].
      split; cbn [pagerefs_inuse numinuse page]; try done. intros i Hi. rewrite Hbits by done.
      destruct (decide (i = j)) as [->|Hne]; [done|]. rewrite Hb by done. apply bool_decide_ext. rewrite Htk; [done|congruence].
    + rewrite znth_zset_ne in Hr' by lia. destruct (rs_root _ _ Hrs k' r' Hr') as [Hw Hb Hc Hp]. split; try done.
      * intros i Hi. rewrite Hb by done. apply bool_decide_ext. rewrite Htk; [done|congruence].
      * rewrite Hc. unfold count. do 2 f_equal. apply list_filter_iff. intros i. rewrite Htk; [done|congruence].
  - intros k' i Ht. destruct (decide ((k', i) = (k, j))) as [[= -> ->]|Hne].
    + split; [|done]. rewrite (rs_length _ _ Hrs) in Hk. lia.
    + apply Hrs. by apply Htk.
  - intros k' i r' Hki Hr'. destruct (same_pages _ _ k' r' Hpages Hr') as (r0 & Hr0 & <-).
    destruct (decide ((k', i) = (k, j))) as [[= -> ->]|Hne]; [assert (r0 = r) as -> by congruence; by apply Hnone|].
    rewrite Hown in Hki by done. by eapply (rs_page _ _ Hrs).
  - intros k1 i k' r' Ht Hlt Hr'. destruct (same_pages _ _ k' r' Hpages Hr') as (r0 & Hr0 & <-).
    destruct (decide ((k1, i) = (k, j))) as [[= -> ->]|Hne]; [by eapply Hbefore|]. apply Htk in Ht; [|done].
    by eapply (rs_before _ _ Hrs).
  - intros k1 k2 r1 r2 H1 H2 Hne. destruct (same_pages _ _ k1 r1 Hpages H1) as (r3 & H3 & <-).
    destruct (same_pages _ _ k2 r2 Hpages H2) as (r4 & H4 & <-). by eapply (rs_distinct _ _ Hrs).
Qed.

(** A slot is taken. *)
Lemma roots_insert k j o r ws : znth rs k = Some r → own !! (k, j) = None → 0 ≤ j < 256 → words_ok ws →
  (∀ i, 0 ≤ i < 256 → wbit ws i = if decide (i = j) then true else wbit (pagerefs_inuse r) i) →
  (∀ k' r', k' < k → znth rs k' = Some r' → page r' ≠ 0) → (o = None → page r ≠ 0) →
  roots_ok (<[(k, j) := o]> own) (zset rs k (mkRoot (page r) ws (numinuse r + 1))).
Proof using Hrs.
  intros Hr Hn Hj Hws Hbits Hbefore Ho. apply (roots_slot _ k j); try done.
  - intros q Hq. by rewrite lookup_insert_ne.
  - intros i Hi. rewrite Hbits by done. destruct (decide (i = j)); [|done]. symmetry. apply bool_decide_eq_true.
    unfold taken. rewrite lookup_insert_eq. eauto.
  - rewrite slot_count_insert, decide_True by done. by rewrite (rk_count _ _ _ (rs_root _ _ Hrs k r Hr)).
  - rewrite lookup_insert_eq. intros [= ->]. by apply Ho.
Qed.

(** A slot goes from one owner to another. *)
Lemma roots_relabel k j o r : znth rs k = Some r → taken own k j → (o = None → page r ≠ 0) →
  roots_ok (<[(k, j) := o]> own) rs.
Proof using Hrs.
  intros Hr Ht Ho. destruct (rs_range _ _ Hrs k j Ht) as [_ Hj]. pose proof (rs_root _ _ Hrs k r Hr) as Hok.
  assert (∀ i, taken (<[(k, j) := o]> own) k i ↔ taken own k i) as Htk.
  { intros i. destruct (decide (i = j)) as [->|]; unfold taken; [rewrite lookup_insert_eq; split; eauto|].
    by rewrite lookup_insert_ne by congruence. }
  rewrite <- (zset_id rs k r) by done. destruct r as [pg ws n]. apply (roots_slot _ k j (mkRoot pg ws n)); try done.
  - apply Hok.
  - intros q Hq. by rewrite lookup_insert_ne.
  - intros i Hi. destruct (decide (i = j)) as [->|]; [|done]. rewrite (rk_bits _ _ _ Hok) by done. by apply bool_decide_ext.
  - pose proof (rk_count _ _ _ Hok) as Hc. cbn in Hc. rewrite Hc. unfold count. do 2 f_equal. apply list_filter_iff. intros i. by rewrite Htk.
  - intros Ht' k' r' Hlt Hr'. by eapply (rs_before _ _ Hrs k j).
  - rewrite lookup_insert_eq. intros [= ->]. by apply Ho.
Qed.

(** [allocpageref]: a free slot is taken, unless all are in use. *)
Lemma take_slot_ok o n k h (Q : option (Z * Z) → heap → Prop) : kheaproots h = rs → roomy rs → is_Some o →
  0 ≤ k → k + Z.of_nat n = 16 → (∀ k' r', k' < k → znth rs k' = Some r' → page r' ≠ 0) →
  (∀ k j r rs', znth rs k = Some r → own !! (k, j) = None → roots_ok (<[(k, j) := o]> own) rs' →
     page <$> rs' = page <$> rs → Q (Some (k, j)) (set_roots rs' h)) →
  Q None h → wp (take_slot n k) Q h.
Proof using Hrs.
  intros Hh Hroom [c ->]. revert k. induction n as [|n IH]; intros k Hk Hn Hbefore HS HN; cbn [take_slot]; [by wp_go|].
  destruct (znth_is_Some rs k) as [r Hr]; [rewrite (rs_length _ _ Hrs); lia|]. pose proof (rs_root _ _ Hrs k r Hr) as Hok.
  unfold get_root. wp_go. rewrite Hh. eapply wp_deref; [done|]. change NPAGEREFS_PER_PAGE with 256.
  assert (numinuse r >= 256 → ∀ k' r', k' < k + 1 → znth rs k' = Some r' → page r' ≠ 0) as Hnext.
  { intros Hfull k' r' Hk' Hr'. destruct (decide (k' = k)) as [->|]; [|apply (Hbefore k'); [lia|done]].
    assert (r' = r) as -> by congruence. intros H0. pose proof (Hroom k r Hr H0). lia. }
  destruct (Z.geb_spec (numinuse r) 256) as [Hfull|Hfree]; [apply IH; [lia|lia|by apply Hnext; lia|done|done]|].
  wp_go. change (Z.to_nat INUSE_WORDS) with 8%nat. apply find_word_ok; [apply Hok|lia|lia| |].
  - intros j Hj Hb. rewrite (rk_bits _ _ _ Hok) in Hb by done. apply bool_decide_eq_false in Hb.
    assert (own !! (k, j) = None) as Hnone by (unfold taken in Hb; by apply eq_None_not_Some).
    wp_go. apply wp_bit_set; [apply Hok|done|]. intros ws Hws Hbits. unfold put_root. wp_go.
    rewrite Hh. apply (HS k j r); [done|done|by apply roots_insert|by apply zset_pages].
  - intros Hall. exfalso. rewrite (rk_count _ _ _ Hok), count_full in Hfree; [lia|]. intros j Hj.
    apply (bool_decide_eq_true_1 (taken own k j)). rewrite <- (rk_bits _ _ _ Hok) by done. apply Hall. lia.
Qed.

(** The invariant after the slot [j] of the root [k] has been given back. *)
Lemma roots_delete k j r ws : znth rs k = Some r → taken own k j → words_ok ws →
  (∀ i, 0 ≤ i < 256 → wbit ws i = if decide (i = j) then false else wbit (pagerefs_inuse r) i) →
  roots_ok (delete (k, j) own) (zset rs k (mkRoot (page r) ws (numinuse r - 1))).
Proof using Hrs.
  intros Hr Hin Hws Hbits. destruct (rs_range _ _ Hrs k j Hin) as [_ Hj]. pose proof Hin as [o Ho]. apply (roots_slot _ k j); try done.
  - intros q Hq. by rewrite lookup_delete_ne.
  - intros i Hi. rewrite Hbits by done. destruct (decide (i = j)); [|done]. symmetry. apply bool_decide_eq_false.
    unfold taken. rewrite lookup_delete_eq. by intros [? ?].
  - rewrite (rk_count _ _ _ (rs_root _ _ Hrs k r Hr)). rewrite <- (insert_delete_id own (k, j) o Ho) at 1.
    rewrite slot_count_insert, decide_True by (done || apply lookup_delete_eq). lia.
  - unfold taken. rewrite lookup_delete_eq. by intros [? ?].
  - by rewrite lookup_delete_eq.
Qed.

(** [freepageref] of the pageref in slot [j] of root [k0]. *)
Lemma free_slot_ok k0 j r0 n k h (Q : unit → heap → Prop) : kheaproots h = rs → znth rs k0 = Some r0 → own !! (k0, j) = Some None →
  0 ≤ k ≤ k0 → k + Z.of_nat n = 16 →
  (∀ rs', roots_ok (delete (k0, j) own) rs' → page <$> rs' = page <$> rs → Q tt (set_roots rs' h)) →
  wp (free_slot n k (page r0 + SIZEOF_PAGEREF * j)) Q h.
Proof using Hrs.
  intros Hh Hr0 Hin Hk Hn HQ. assert (taken own k0 j) as Ht by (by exists None). destruct (rs_range _ _ Hrs k0 j Ht) as [Hk0 Hj].
  pose proof (rs_page _ _ Hrs k0 j r0 Hin Hr0) as Hp0. destruct (rk_page _ _ _ (rs_root _ _ Hrs k0 r0 Hr0)) as [?|(Ha0 & Hlo0 & Hhi0)]; [done|].
  revert k Hk Hn. induction n as [|n IH]; intros k Hk Hn; [lia|]. cbn [free_slot].
  destruct (znth_is_Some rs k) as [r Hr]; [rewrite (rs_length _ _ Hrs); lia|]. pose proof (rs_root _ _ Hrs k r Hr) as Hok.
  unfold get_root. wp_go. rewrite Hh. eapply wp_deref; [done|]. change NPAGEREFS_PER_PAGE with 256. unfold SIZEOF_PAGEREF, w32 in *.
  destruct (decide (k = k0)) as [->|Hne].
  - assert (r0 = r) as -> by congruence. destruct (Z.eqb_spec (page r) 0); [done|].
    replace ((page r + 16 * j - page r) / 16) with j by (rewrite Z.add_simpl_l, Z.mul_comm, Z.div_mul by lia; done).
    rewrite Z.mod_small by lia. destruct (Z.ltb_spec j 256); [|lia].
    destruct (wbit_word (pagerefs_inuse r) j) as (w & Hw & Hwr & Hb); [apply Hok|lia|]. wp_go. eapply wp_deref; [done|]. wp_go.
    destruct (word_index j Hj) as [_ Hm].
    assert (Z.testbit w (j mod 32) = true) as Hbit by (rewrite <- Hb, (rk_bits _ _ _ Hok) by lia; by apply bool_decide_eq_true).
    apply wp_KASSERT; [by rewrite mask_pow2, Bitmap.land_mask_zero, Hbit by lia|]. wp_go.
    destruct (wbit_clear (pagerefs_inuse r) j w) as [Hws' Hbits']; [apply Hok|lia|done|].
    assert (1 ≤ numinuse r) as Hpos.
    { rewrite (rk_count _ _ _ Hok). unfold count. assert (j ∈ filter (taken own k0) (seqZ 0 256)) as Hf.
      { apply list_elem_of_filter. split; [done|apply elem_of_seqZ; lia]. }
      destruct (filter _ _); [by apply elem_of_nil in Hf|simpl; lia]. }
    apply wp_KASSERT; [lia|]. unfold put_root. wp_go. rewrite Hh. apply HQ; [by apply roots_delete|by apply zset_pages].
  - assert (page r ≠ 0) as Hp by (apply (rs_before _ _ Hrs k0 j k r); [done|lia|done]).
    destruct (Z.eqb_spec (page r) 0); [done|]. destruct (rk_page _ _ _ Hok) as [?|(Ha & Hlo & Hhi)]; [done|].
    assert (page r0 ≠ page r) as Hd by (apply (rs_distinct _ _ Hrs k0 k r0 r); done || lia).
    unfold KSEG0, KSEG1 in *. destruct (Z.ltb_spec (((page r0 + 16 * j - page r) / 16) mod 2 ^ 32) 256) as [Hlt|_].
    + exfalso. change (2 ^ 32) with 4294967296 in Hlt. Z.to_euclidean_division_equations. lia.
    + apply IH; lia.
Qed.
End roots.

(** A root gets its page. *)
Lemma roots_set_page own rs k r va : roots_ok own rs → znth rs k = Some r → va mod 4096 = 0 → KSEG0 ≤ va → va + 4096 ≤ KSEG1 →
  (∀ k' r', znth rs k' = Some r' → page r' ≠ va) →
  roots_ok own (zset rs k (mkRoot va (pagerefs_inuse r) (numinuse r))).
Proof.
  intros [H1 H2 H3 H4 H5 H6] Hr Ha Hlo Hhi Hnew. pose proof (znth_Some_range _ _ _ Hr) as Hk. rewrite H1 in Hk.
  assert (∀ k' r', znth (zset rs k (mkRoot va (pagerefs_inuse r) (numinuse r))) k' = Some r' →
            (k' = k ∧ r' = mkRoot va (pagerefs_inuse r) (numinuse r)) ∨ k' ≠ k ∧ znth rs k' = Some r') as Hz.
  { intros k' r' Hr'. destruct (decide (k' = k)) as [->|Hne].
    - rewrite znth_zset_eq in Hr' by lia. left. split; congruence.
    - rewrite znth_zset_ne in Hr' by lia. by right. }
  assert (va ≠ 0) as Hva by (unfold KSEG0 in *; lia).
  split; [by rewrite length_zset| |done| | |].
  - intros k' r' [[-> ->]|[_ Hr']]%Hz; [|by apply H2]. destruct (H2 k r Hr) as [Hw Hb Hc _]. split; try done. by right.
  - intros k' j r' Hj [[-> ->]|[_ Hr']]%Hz; [done|by eapply H4].
  - intros k' j k1 r1 Hj Hlt [[-> ->]|[_ Hr']]%Hz; [done|by eapply H5].
  - intros k1 k2 r1 r2 [[-> ->]|[Hn1 Hr1]]%Hz [[-> ->]|[Hn2 Hr2]]%Hz Hne Hp; try done; cbn [page].
    + intros He. by apply (Hnew k2 r2).
    + by apply (Hnew k1 r1).
    + by eapply H6.
Qed.

(** ** The pagerefs of the pages *)

Definition ref_slot (own : owners) (rs : list kheap_root) (p : Z) : Prop :=
  ∃ k j r, znth rs k = Some r ∧ own !! (k, j) = Some None ∧ p = page r + SIZEOF_PAGEREF * j.

(** A list injected into the numbers below [n], one of which is missed, is shorter than [n]. *)
Lemma injected_length {A} (f : A → Z → Prop) (l : list A) n c0 : NoDup l → 0 ≤ c0 < n →
  (∀ x, x ∈ l → ∃ c, f x c ∧ 0 ≤ c < n ∧ c ≠ c0) → (∀ x y c, f x c → f y c → x = y) → Z.of_nat (length l) < n.
Proof.
  intros Hnd Hc0 Hf Hinj.
  assert (∃ cs, length cs = length l ∧ NoDup cs ∧ ∀ c, c ∈ cs → 0 ≤ c < n ∧ c ≠ c0 ∧ ∃ x, x ∈ l ∧ f x c) as (cs & Hlen & Hcs & Hin).
  { clear Hc0. induction Hnd as [|x l Hx Hnd IH]; [exists []; split_and!; [done|constructor|set_solver]|].
    destruct IH as (cs & Hlen & Hcs & Hin); [intros y Hy; apply Hf; by right|]. destruct (Hf x) as (c & Hc & Hr & Hne); [left|].
    exists (c :: cs). split_and!; [simpl; lia| |].
    - constructor; [|done]. intros (_ & _ & y & Hy & Hfy)%Hin. by rewrite (Hinj x y c Hc Hfy) in Hx.
    - intros d [->|Hd]%elem_of_cons; [split_and!; [lia|lia|done|exists x; split; [left|done]]|].
      destruct (Hin d Hd) as (? & ? & y & ? & ?). split_and!; [lia|lia|done|exists y; split; [by right|done]]. }
  assert (c0 :: cs ⊆+ seqZ 0 n) as Hsub.
  { apply NoDup_submseteq.
    - constructor; [|done]. intros (_ & Hne & _)%Hin. done.
    - intros c [->|Hc]%elem_of_cons; apply elem_of_seqZ; [lia|]. apply Hin in Hc as (? & _). lia. }
  apply submseteq_length in Hsub. rewrite length_seqZ in Hsub. simpl in Hsub. lia.
Qed.

Lemma ref_count own rs ps k0 j0 c0 : roots_ok own rs → NoDup ps → (∀ p, p ∈ ps → ref_slot own rs p) →
  own !! (k0, j0) = Some (Some c0) → Z.of_nat (length ps) < TOTAL_PAGEREFS.
Proof.
  intros Hrs Hnd Hps H0. assert (∀ k j o, own !! (k, j) = Some o → 0 ≤ k < 16 ∧ 0 ≤ j < 256) as Hrange.
  { intros k j o Ho. apply (rs_range _ _ Hrs). by exists o. }
  pose proof (Hrange _ _ _ H0) as Hr0. change TOTAL_PAGEREFS with 4096.
  apply (injected_length (λ p c, ∃ k j r, znth rs k = Some r ∧ own !! (k, j) = Some None ∧ p = page r + SIZEOF_PAGEREF * j ∧ c = 256 * k + j)
    _ _ (256 * k0 + j0)); [done|lia| |].
  - intros p Hp. destruct (Hps p Hp) as (k & j & r & Hr & Ho & Hpe). pose proof (Hrange _ _ _ Ho).
    exists (256 * k + j). split_and!; [eauto 10|lia|lia|]. intros He. assert (k = k0 ∧ j = j0) as [-> ->] by lia. congruence.
  - intros p q c (k & j & r & Hr & Ho & -> & ->) (k' & j' & r' & Hr' & Ho' & -> & He). pose proof (Hrange _ _ _ Ho).
    pose proof (Hrange _ _ _ Ho'). assert (k = k' ∧ j = j') as [-> ->] by lia. congruence.
Qed.

(** A slot is in use as one pageref only. *)
Lemma slot_inj own rs k j k' j' r r' : roots_ok own rs → znth rs k = Some r → znth rs k' = Some r' → taken own k j → taken own k' j' →
  page r ≠ 0 → page r' ≠ 0 → page r + SIZEOF_PAGEREF * j = page r' + SIZEOF_PAGEREF * j' → k = k' ∧ j = j'.
Proof.
  intros Hrs Hr Hr' Ht Ht' Hp Hp' He. destruct (rs_range _ _ Hrs _ _ Ht) as [_ Hj], (rs_range _ _ Hrs _ _ Ht') as [_ Hj'].
  destruct (rk_page _ _ _ (rs_root _ _ Hrs k r Hr)) as [?|(Ha & _)]; [done|].
  destruct (rk_page _ _ _ (rs_root _ _ Hrs k' r' Hr')) as [?|(Ha' & _)]; [done|]. unfold SIZEOF_PAGEREF in He.
  assert (page r = page r') as Hpp by (Z.to_euclidean_division_equations; lia).
  destruct (decide (k = k')) as [->|Hne]; [split; [done|lia]|]. exfalso. by eapply (rs_distinct _ _ Hrs k k').
Qed.

End KmallocRoots.
