(* ===== verification/KmallocSystem.v ===== *)
(** * Threads that use the kernel heap

    Any number of threads call [kmalloc] and [kfree] and write into the blocks they have
    been given; the page allocator answers their calls for pages in any way a page
    allocator may.  The steps of the threads interleave wherever the allocator gives up
    its spinlock.  The invariant says who has each page and each pageref slot. *)

From Stdlib Require Import ZArith Lia.
From stdpp Require Import base numbers list gmap.
From S2P Require Import Prelude Coremap Kmalloc KmallocMem KmallocPages KmallocHeap KmallocRoots.

Module KmallocSystem.
Import Coremap(PAGE_SIZE, KSEG0).
Import Kmalloc KmallocMem KmallocPages KmallocHeap KmallocRoots.

(** ** The system *)

(** A call in progress. *)
Inductive call := CMalloc (sz : Z) (p : T Z) | CFree (p : T unit).

(** The heap, the calls in progress by thread, the blocks that clients have with the sizes they
    asked for, and the runs of pages the page allocator has given out with their lengths. *)
Record sys := mkSys {
  hp : heap;
  thr : gmap Z call;
  live : gmap Z Z;
  out : gmap Z Z;
}.

Definition sys_start : sys := mkSys heap_start ∅ ∅ ∅.

Inductive event :=
| EMalloc (i sz label : Z)   (* thread [i] calls [kmalloc] *)
| EKfree (i ptr : Z)         (* thread [i] calls [kfree] *)
| EAlloc (i va : Z)          (* [alloc_kpages] returns [va] to thread [i] *)
| EFreed (i : Z)             (* [free_kpages] has freed the pages and returns to thread [i] *)
| EYield (i : Z)             (* thread [i] goes on *)
| EWrite (a v : Z).          (* a client stores a byte *)

(** A thread runs up to its next stop; [None] is a panic. *)
Definition go_malloc (i sz : Z) (p : T Z) (s : sys) : option sys :=
  match exec p (hp s) with
  | Panic => None
  | Done (Ret va, h) =>
      Some (mkSys h (delete i (thr s)) (if va =? 0 then live s else <[va := sz]> (live s)) (out s))
  | Done (p', h) => Some (mkSys h (<[i := CMalloc sz p']> (thr s)) (live s) (out s))
  end.

Definition go_free (i : Z) (p : T unit) (s : sys) : option sys :=
  match exec p (hp s) with
  | Panic => None
  | Done (Ret _, h) => Some (mkSys h (delete i (thr s)) (live s) (out s))
  | Done (p', h) => Some (mkSys h (<[i := CFree p']> (thr s)) (live s) (out s))
  end.

Definition set_out (o : gmap Z Z) (s : sys) : sys := mkSys (hp s) (thr s) (live s) o.
Definition set_live (l : gmap Z Z) (s : sys) : sys := mkSys (hp s) (thr s) l (out s).
Definition set_hp (h : heap) (s : sys) : sys := mkSys h (thr s) (live s) (out s).

Definition run (e : event) (s : sys) : option sys :=
  match e with
  | EMalloc i sz label => go_malloc i sz (kmalloc sz label) s
  | EKfree i ptr => go_free i (kfree ptr) (set_live (delete ptr (live s)) s)
  | EAlloc i va =>
      match thr s !! i with
      | Some (CMalloc sz (AllocK n k)) =>
          go_malloc i sz (k va) (set_out (if va =? 0 then out s else <[va := n]> (out s)) s)
      | _ => Some s
      end
  | EFreed i =>
      match thr s !! i with
      | Some (CMalloc sz (FreeK va k)) => go_malloc i sz k (set_out (delete va (out s)) s)
      | Some (CFree (FreeK va k)) => go_free i k (set_out (delete va (out s)) s)
      | _ => Some s
      end
  | EYield i =>
      match thr s !! i with
      | Some (CFree (Yield k)) => go_free i k s
      | _ => Some s
      end
  | EWrite a v => Some (set_hp (set_mem (wr8 (mem (hp s)) a v) (hp s)) s)
  end.

(** The run of [n] pages at [va] is one the page allocator may give out. *)
Definition may_give (o : gmap Z Z) (n va : Z) : Prop :=
  va mod 4096 = 0 ∧ KSEG0 ≤ va ∧ va + n * 4096 ≤ KSEG1 ∧
  ∀ a m, o !! a = Some m → a + m * 4096 ≤ va ∨ va + n * 4096 ≤ a.

(** What a client may do, and how the page allocator may answer. *)
Definition allowed (s : sys) (e : event) : Prop :=
  match e with
  | EMalloc i sz _ => 0 ≤ i ∧ thr s !! i = None ∧ 0 ≤ sz < 2 ^ 31
  | EKfree i ptr => 0 ≤ i ∧ thr s !! i = None ∧ (ptr = 0 ∨ is_Some (live s !! ptr))
  | EAlloc i va =>
      match thr s !! i with
      | Some (CMalloc _ (AllocK n _)) => va = 0 ∨ may_give (out s) n va
      | _ => False
      end
  | EFreed i =>
      match thr s !! i with
      | Some (CMalloc _ (FreeK _ _)) | Some (CFree (FreeK _ _)) => True
      | _ => False
      end
  | EYield i => match thr s !! i with Some (CFree (Yield _)) => True | _ => False end
  | EWrite a v => ∃ ptr sz, live s !! ptr = Some sz ∧ ptr ≤ a < ptr + sz
  end.

(** The states that a run can lead to.  In all of them a root without a page has a free slot. *)
Inductive reaches : sys → Prop :=
| reaches_start : reaches sys_start
| reaches_step s e s' : reaches s → allowed s e → run e s = Some s' → roomy (kheaproots (hp s')) → reaches s'.

(** ** The invariant *)

(** What a run of pages is used for. *)
Inductive role := RHeap | RRoot | RBig | RPriv (i : Z).

Record out_ok (o : gmap Z Z) : Prop := {
  oo_range : ∀ a n, o !! a = Some n → a mod 4096 = 0 ∧ KSEG0 ≤ a ∧ 1 ≤ n ∧ a + n * 4096 ≤ KSEG1;
  oo_apart : ∀ a b n m, o !! a = Some n → o !! b = Some m → a ≠ b → a + n * 4096 ≤ b ∨ b + m * 4096 ≤ a;
}.

(** The heap with the ghost state that explains it: the pages, the owners of the slots, and the roles
    of the runs of pages. *)
Record world := mkW {
  w_h : heap;
  w_live : gmap Z Z;
  w_out : gmap Z Z;
  w_xs : list hpage;
  w_own : gmap (Z * Z) (option Z);
  w_role : gmap Z role;
}.
Notation w_mem w := (mem (w_h w)).
Notation w_roots w := (kheaproots (w_h w)).

(** Where the block at [ptr] is. *)
Definition placed (w : world) (ptr sz : Z) : Prop :=
  (∃ x b, x ∈ w_xs w ∧ hp_used x !! b = Some (sz + 8) ∧ ptr = block_addr x b + 12) ∨
  (∃ n, w_role w !! ptr = Some RBig ∧ w_out w !! ptr = Some n ∧ sz ≤ n * 4096).

Record core (w : world) : Prop := {
  co_heap : heap_ok (w_h w) (w_xs w);
  co_roots : roots_ok (w_own w) (w_roots w);
  co_refs : ∀ x, x ∈ w_xs w → ref_slot (w_own w) (w_roots w) (hp_ref x);
  co_out : out_ok (w_out w);
  co_dom : ∀ a, is_Some (w_out w !! a) ↔ is_Some (w_role w !! a);
  co_one : ∀ a, w_role w !! a = Some RHeap ∨ w_role w !! a = Some RRoot → w_out w !! a = Some 1;
  co_pages : ∀ a, w_role w !! a = Some RHeap ↔ a ∈ hp_page <$> w_xs w;
  co_rootpages : ∀ a, w_role w !! a = Some RRoot ↔ a ≠ 0 ∧ a ∈ page <$> w_roots w;
  co_live : ∀ ptr sz, w_live w !! ptr = Some sz → 0 ≤ sz ∧ placed w ptr sz;
  co_used : ∀ x b csz, x ∈ w_xs w → hp_used x !! b = Some csz → w_live w !! (block_addr x b + 12) = Some (csz - 8);
  co_big : ∀ a, w_role w !! a = Some RBig → is_Some (w_live w !! a);
}.

(** What a step of thread [i] may change when it frees the block [d] ([0] when it frees none). *)
Record moves (i d : Z) (w w' : world) : Prop := {
  mv_role : ∀ j a, j ≠ i → w_role w !! a = Some (RPriv j) ↔ w_role w' !! a = Some (RPriv j);
  mv_own : ∀ j q, j ≠ i → 0 ≤ j → w_own w !! q = Some (Some j) ↔ w_own w' !! q = Some (Some j);
  mv_priv : ∀ j a, j ≠ i → w_role w !! a = Some (RPriv j) →
    w_out w' !! a = w_out w !! a ∧ agree (w_mem w) (w_mem w') a (a + 4096);
  mv_roots : ∀ k r, znth (w_roots w) k = Some r → page r ≠ 0 → ∃ r', znth (w_roots w') k = Some r' ∧ page r' = page r;
  mv_live : ∀ ptr sz, ptr ≠ d → w_live w !! ptr = Some sz →
    w_live w' !! ptr = Some sz ∧ agree (w_mem w) (w_mem w') ptr (ptr + sz);
}.

Lemma moves_trans i d w w' w'' : moves i d w w' → moves i d w' w'' → moves i d w w''.
Proof.
  intros H H'. constructor.
  - intros j a Hj. rewrite (mv_role _ _ _ _ H) by done. by apply H'.
  - intros j q Hj Hj'. rewrite (mv_own _ _ _ _ H) by done. by apply H'.
  - intros j a Hj Ha. destruct (mv_priv _ _ _ _ H j a Hj Ha) as [Ho Hm]. apply (mv_role _ _ _ _ H) in Ha; [|done].
    destruct (mv_priv _ _ _ _ H' j a Hj Ha) as [Ho' Hm']. split; [congruence|by eapply agree_trans].
  - intros k r Hr Hp. destruct (mv_roots _ _ _ _ H k r Hr Hp) as (r' & Hr' & Hp').
    destruct (mv_roots _ _ _ _ H' k r' Hr') as (r'' & Hr'' & Hp''); [congruence|]. exists r''. split; [done|congruence].
  - intros ptr sz Hd Hl. destruct (mv_live _ _ _ _ H ptr sz Hd Hl) as [Hl' Hm].
    destruct (mv_live _ _ _ _ H' ptr sz Hd Hl') as [Hl'' Hm']. split; [done|by eapply agree_trans].
Qed.

(** *** Where things are *)

Section places.
Context (w : world) (Hw : core w).

Lemma out_range a n : w_out w !! a = Some n → a mod 4096 = 0 ∧ KSEG0 ≤ a ∧ 1 ≤ n ∧ a + n * 4096 ≤ KSEG1.
Proof using Hw. apply Hw. Qed.

Lemma roles_apart a b o o' n m : w_role w !! a = Some o → w_role w !! b = Some o' → o ≠ o' →
  w_out w !! a = Some n → w_out w !! b = Some m → a + n * 4096 ≤ b ∨ b + m * 4096 ≤ a.
Proof using Hw. intros Ha Hb Hne Hn Hm. by apply (oo_apart _ (co_out _ Hw) a b n m); congruence. Qed.

Lemma role_out a o : w_role w !! a = Some o → ∃ n, w_out w !! a = Some n ∧ 1 ≤ n.
Proof using Hw.
  intros Ha. destruct (proj2 (co_dom _ Hw a)) as [n Hn]; [eauto|]. exists n. split; [done|]. pose proof (out_range a n Hn). tauto.
Qed.

Lemma page_role x : x ∈ w_xs w → w_role w !! hp_page x = Some RHeap ∧ w_out w !! hp_page x = Some 1.
Proof using Hw.
  intros Hx. assert (w_role w !! hp_page x = Some RHeap) as Hr by (apply Hw, list_elem_of_fmap; eauto).
  split; [done|]. apply Hw. by left.
Qed.

(** The data of a live block lies in a used block or in pages of its own. *)
Lemma placed_range ptr sz : w_live w !! ptr = Some sz →
  (∃ x b, x ∈ w_xs w ∧ hp_used x !! b = Some (sz + 8) ∧ ptr = block_addr x b + 12 ∧ 0 ≤ b < nblocks (hp_type x) ∧
     ptr + sz + 4 ≤ block_addr x b + size (hp_type x)) ∨
  (∃ n, w_role w !! ptr = Some RBig ∧ w_out w !! ptr = Some n ∧ sz ≤ n * 4096).
Proof using Hw.
  intros Hl. destruct (co_live _ Hw ptr sz Hl) as [Hsz [(x & b & Hx & Hb & ->)|Hbig]]; [|by right]. left. exists x, b.
  pose proof (hk_shape _ _ (co_heap _ Hw) x Hx) as Hs. pose proof (shape_used x Hs b _ Hb).
  destruct (pm_used _ _ (hk_mem _ _ (co_heap _ Hw) x Hx) b _ Hb). split_and!; try done; lia.
Qed.

Lemma live_apart_page ptr sz a o : w_live w !! ptr = Some sz → w_role w !! a = Some o → o ≠ RHeap → o ≠ RBig →
  ptr + sz ≤ a ∨ a + 4096 ≤ ptr.
Proof using Hw.
  intros Hl Ha Ho Ho'. destruct (role_out a o Ha) as (n & Hn & Hn1).
  destruct (placed_range ptr sz Hl) as [(x & b & Hx & Hb & -> & Hr & Hsz)|(m & Hm & Hm' & Hsz)].
  - destruct (page_role x Hx) as [Hp Hp'].
    pose proof (block_in_page x (hk_shape _ _ (co_heap _ Hw) x Hx) b Hr).
    destruct (roles_apart (hp_page x) a RHeap o 1 n) as [?|?]; [done..|lia|lia].
  - destruct (roles_apart ptr a RBig o m n) as [?|?]; [done..|lia|lia].
Qed.

Lemma live_apart_block ptr sz x b : w_live w !! ptr = Some sz → x ∈ w_xs w → 0 ≤ b < nblocks (hp_type x) →
  ptr ≠ block_addr x b + 12 → ptr + sz ≤ block_addr x b ∨ block_addr x b + size (hp_type x) ≤ ptr.
Proof using Hw.
  intros Hl Hx Hb Hne. pose proof (hk_shape _ _ (co_heap _ Hw) x Hx) as Hs. pose proof (block_in_page x Hs b Hb).
  destruct (placed_range ptr sz Hl) as [(y & c & Hy & Hc & -> & Hr & Hsz)|(m & Hm & Hm' & Hsz)].
  - pose proof (hk_shape _ _ (co_heap _ Hw) y Hy) as Hs'. pose proof (block_in_page y Hs' c Hr).
    destruct (decide (x = y)) as [->|Hxy].
    + destruct (block_apart y Hs' b c) as [?|?]; [congruence|lia|lia].
    + destruct (pages_apart _ _ (co_heap _ Hw) x y Hx Hy Hxy); lia.
  - destruct (page_role x Hx) as [Hp Hp']. destruct (roles_apart (hp_page x) ptr RHeap RBig 1 m) as [?|?]; [done..|lia|lia].
Qed.

(** Live blocks do not overlap. *)
Lemma live_apart p q sp sq : w_live w !! p = Some sp → w_live w !! q = Some sq → p ≠ q → p + sp ≤ q ∨ q + sq ≤ p.
Proof using Hw.
  intros Hp Hq Hne.
  destruct (placed_range q sq Hq) as [(y & c & Hy & Hc & -> & Hr & Hsz)|(m & Hm & Hm' & Hsz)].
  { destruct (live_apart_block p sp y c Hp Hy Hr Hne); lia. }
  destruct (placed_range p sp Hp) as [(y & c & Hy & Hc & -> & Hr & Hsz')|(n & Hn & Hn' & Hsz')].
  { destruct (live_apart_block q sq y c Hq Hy Hr); [congruence|lia|lia]. }
  destruct (oo_apart _ (co_out _ Hw) p q n m); [done..|lia|lia].
Qed.
End places.

End KmallocSystem.
