(* ===== verification/KmallocSteps.v ===== *)
(** * The steps of the kernel heap on its ghost state

    Each lemma takes the heap from one state that its ghost state explains to the next: a
    block is taken or put back, a page enters or leaves the heap, a pageref slot or a run of
    pages changes hands. *)

From Stdlib Require Import ZArith Lia.
From stdpp Require Import base numbers list gmap.
From S2P Require Import Prelude Coremap Kmalloc KmallocMem KmallocPages KmallocHeap KmallocRoots KmallocSystem.

Module KmallocSteps.
Import Coremap(PAGE_SIZE, KSEG0).
Import Kmalloc KmallocMem KmallocPages KmallocHeap KmallocRoots KmallocSystem.

(** ** Blocks *)

Section blocks.
Context (w : world) (Hw : core w).

Lemma page_apart_role x a o : x ∈ w_xs w → w_role w !! a = Some o → o ≠ RHeap →
  a + 4096 ≤ hp_page x ∨ hp_page x + 4096 ≤ a.
Proof using Hw.
  intros Hx Ha Ho. destruct (page_role w Hw x Hx) as [Hp Hp']. destruct (role_out w Hw a o Ha) as (n & Hn & Hn1).
  destruct (roles_apart w Hw a (hp_page x) o RHeap n 1); [done..|lia|lia].
Qed.

(** A block has one page and one number. *)
Lemma block_unique x y b c : x ∈ w_xs w → y ∈ w_xs w → 0 ≤ b < nblocks (hp_type x) → 0 ≤ c < nblocks (hp_type y) →
  block_addr x b = block_addr y c → x = y ∧ b = c.
Proof using Hw.
  intros Hx Hy Hb Hc He. pose proof (hk_shape _ _ (co_heap _ Hw)) as Hs.
  pose proof (block_in_page x (Hs x Hx) b Hb). pose proof (block_in_page y (Hs y Hy) c Hc).
  destruct (sizes_ok (hp_type x) (ps_type _ (Hs x Hx))). destruct (sizes_ok (hp_type y) (ps_type _ (Hs y Hy))).
  destruct (decide (x = y)) as [->|Hne]; [split; [done|by apply (block_inj y (Hs y Hy))]|].
  destruct (pages_apart _ _ (co_heap _ Hw) x y Hx Hy Hne); lia.
Qed.

(** The pointer to a block of the heap is not that of a large block. *)
Lemma block_not_big x b n : x ∈ w_xs w → w_out w !! (block_addr x b + 12) = Some n → False.
Proof using Hw.
  intros Hx Hn. apply (out_range w Hw) in Hn as [Hm _].
  pose proof (block_aligned x (hk_shape _ _ (co_heap _ Hw) x Hx) b). Z.to_euclidean_division_equations. lia.
Qed.

(** A free block is not live. *)
Lemma free_not_live x b l : x ∈ w_xs w → hp_free x = b :: l → w_live w !! (block_addr x b + 12) = None.
Proof using Hw.
  intros Hx Hf. destruct (w_live w !! _) as [sz|] eqn:Hl; [exfalso|done]. pose proof (hk_shape _ _ (co_heap _ Hw) x Hx) as Hs.
  assert (b ∈ hp_free x) as Hb by (rewrite Hf; left).
  destruct (placed_range w Hw _ _ Hl) as [(y & c & Hy & Hc & He & Hr & _)|(n & _ & Hn & _)]; [|by eapply block_not_big].
  destruct (block_unique x y b c) as [<- <-]; [done..|by apply shape_free|done|lia|]. by rewrite (ps_disjoint _ Hs b Hb) in Hc.
Qed.

Lemma in_replace x' y : y ∈ w_xs w → (if decide (hp_ref y = hp_ref x') then x' else y) ∈ replace x' (w_xs w).
Proof using. intros Hy. unfold replace. apply list_elem_of_fmap. eauto. Qed.

(** The state after the page [x] has become [x'], with the same pageref and address. *)
Section change.
Context (x x' : hpage) (Hx : x ∈ w_xs w) (Hr : hp_ref x' = hp_ref x) (Hp : hp_page x' = hp_page x) (Ht : hp_type x' = hp_type x).

Lemma changed_cases y : y ∈ replace x' (w_xs w) → y = x' ∨ y ∈ w_xs w ∧ y ≠ x.
Proof using Hr. intros [->|[Hy Hne]]%replace_elem; [by left|right]. split; [done|]. intros ->. by rewrite Hr in Hne. Qed.

Lemma changed_in_new : x' ∈ replace x' (w_xs w).
Proof using Hr Hx. pose proof (in_replace x' x Hx) as Hin. by rewrite decide_True in Hin. Qed.

Lemma changed_in_old y : y ∈ w_xs w → y ≠ x → y ∈ replace x' (w_xs w).
Proof using Hr Hx Hw.
  intros Hy Hne. pose proof (in_replace x' y Hy) as Hin. rewrite decide_False in Hin; [done|].
  rewrite Hr. intros He. by apply Hne, (same_ref _ _ (co_heap _ Hw)).
Qed.

Lemma changed_core h' lv' : heap_ok h' (replace x' (w_xs w)) → kheaproots h' = w_roots w →
  (∀ ptr sz, lv' !! ptr = Some sz → 0 ≤ sz ∧ placed (mkW h' lv' (w_out w) (replace x' (w_xs w)) (w_own w) (w_role w)) ptr sz) →
  (∀ y b csz, y ∈ replace x' (w_xs w) → hp_used y !! b = Some csz → lv' !! (block_addr y b + 12) = Some (csz - 8)) →
  (∀ a, w_role w !! a = Some RBig → is_Some (lv' !! a)) →
  core (mkW h' lv' (w_out w) (replace x' (w_xs w)) (w_own w) (w_role w)).
Proof using Hw Hx Hr Hp.
  intros Hh' Hrs Hl Hu Hb. constructor; cbn [w_h w_live w_out w_xs w_own w_role]; rewrite ?Hrs; try done; try apply Hw.
  - intros y [->|[Hy _]]%changed_cases; [rewrite Hr|]; by apply Hw.
  - intros a. rewrite (replace_map hp_page x x' (w_h w)); [apply Hw|apply Hw|done..].
Qed.
End change.

(** The memory of the block [b] of [x] changes. *)
Lemma block_moves i d x b w' : x ∈ w_xs w → 0 ≤ b < nblocks (hp_type x) → (w_live w !! (block_addr x b + 12) = None ∨ d = block_addr x b + 12) →
  w_out w' = w_out w → w_own w' = w_own w → w_role w' = w_role w → w_roots w' = w_roots w →
  changed_in (w_mem w) (w_mem w') (block_addr x b) (block_addr x b + size (hp_type x)) →
  (∀ ptr sz, ptr ≠ d → w_live w !! ptr = Some sz → w_live w' !! ptr = Some sz) → moves i d w w'.
Proof using Hw.
  intros Hx Hb Hd Ho Hown Hrl Hrs Hm Hl. pose proof (block_in_page x (hk_shape _ _ (co_heap _ Hw) x Hx) b Hb).
  constructor; rewrite ?Ho, ?Hown, ?Hrl, ?Hrs; try done; [|by eauto|].
  - intros j a Hj Ha. split; [done|]. apply (changed_agree _ _ _ _ _ _ Hm).
    destruct (page_apart_role x a _ Hx Ha); [done|lia|lia].
  - intros ptr sz Hne Hptr. split; [by apply Hl|]. apply (changed_agree _ _ _ _ _ _ Hm).
    destruct (live_apart_block w Hw ptr sz x b) as [?|?]; [done..| |lia|lia]. intros ->. destruct Hd; congruence.
Qed.

(** [doalloc] has taken the block [b]. *)
Lemma take_step i x b l sz h' : x ∈ w_xs w → hp_free x = b :: l → 0 ≤ sz →
  heap_ok h' (replace (take b (sz + 8) l x) (w_xs w)) → kheaproots h' = w_roots w →
  changed_in (w_mem w) (mem h') (block_addr x b) (block_addr x b + size (hp_type x)) →
  let w' := mkW h' (<[block_addr x b + 12 := sz]> (w_live w)) (w_out w) (replace (take b (sz + 8) l x) (w_xs w)) (w_own w) (w_role w) in
  core w' ∧ moves i 0 w w'.
Proof using Hw.
  intros Hx Hf Hsz Hh' Hrs Hm w'. pose proof (free_not_live x b l Hx Hf) as Hnone. pose proof (hk_shape _ _ (co_heap _ Hw)) as Hs.
  assert (b ∈ hp_free x) as Hbf by (rewrite Hf; left). pose proof (shape_free x (Hs x Hx) b Hbf) as Hb. split.
  - apply (changed_core x); try done.
    + intros ptr sz'. rewrite lookup_insert_Some. intros [[<- <-]|[Hne Hl]].
      { split; [done|]. left. exists (take b (sz + 8) l x), b. split_and!; [by apply (changed_in_new x)|apply lookup_insert_eq|done]. }
      destruct (co_live _ Hw ptr sz' Hl) as [Hsz' [(y & c & Hy & Hc & ->)|Hbig]]; (split; [done|]); [left|by right].
      destruct (decide (y = x)) as [->|Hyx].
      * exists (take b (sz + 8) l x), c. split_and!; [by apply (changed_in_new x)| |done].
        cbn. rewrite lookup_insert_ne; [done|]. intros ->. by rewrite (ps_disjoint _ (Hs x Hx) c Hbf) in Hc.
      * exists y, c. split_and!; [by apply (changed_in_old x)|done..].
    + intros y c csz [->|[Hy Hne]]%(changed_cases x) Hc; [|..|done].
      * cbn in Hc. apply lookup_insert_Some in Hc as [[<- <-]|[Hne Hc]].
        { change (block_addr (take b (sz + 8) l x) b) with (block_addr x b). rewrite lookup_insert_eq. f_equal. lia. }
        change (block_addr (take b (sz + 8) l x) c) with (block_addr x c). rewrite lookup_insert_ne; [by apply Hw|].
        intros He. apply Hne, (block_inj x (Hs x Hx)). lia.
      * rewrite lookup_insert_ne; [by apply Hw|]. intros He. destruct (block_unique x y b c) as [-> _]; try done; [|lia].
        by eapply shape_used, Hc; apply Hs.
    + intros a [v Ha]%(co_big _ Hw). destruct (decide (block_addr x b + 12 = a)) as [<-|]; [congruence|].
      rewrite lookup_insert_ne by done. eauto.
  - apply (block_moves i 0 x b); try done; [by left|]. intros ptr sz' _ Hl. cbn. rewrite lookup_insert_ne; [done|]. intros <-. congruence.
Qed.

(** [subpage_kfree] has put the block [b] back. *)
Lemma put_step i x b sz h' : x ∈ w_xs w → hp_used x !! b = Some (sz + 8) →
  heap_ok h' (replace (put b x) (w_xs w)) → kheaproots h' = w_roots w →
  changed_in (w_mem w) (mem h') (block_addr x b) (block_addr x b + size (hp_type x)) →
  let d := block_addr x b + 12 in
  let w' := mkW h' (delete d (w_live w)) (w_out w) (replace (put b x) (w_xs w)) (w_own w) (w_role w) in
  core w' ∧ moves i d w w'.
Proof using Hw.
  intros Hx Hu Hh' Hrs Hm d w'. pose proof (hk_shape _ _ (co_heap _ Hw)) as Hs.
  pose proof (shape_used x (Hs x Hx) b _ Hu) as Hb. split.
  - apply (changed_core x); try done.
    + intros ptr sz' [Hne Hl]%lookup_delete_Some.
      destruct (co_live _ Hw ptr sz' Hl) as [Hsz' [(y & c & Hy & Hc & ->)|Hbig]]; (split; [done|]); [left|by right].
      destruct (decide (y = x)) as [->|Hyx].
      * exists (put b x), c. split_and!; [by apply (changed_in_new x)| |done]. cbn. rewrite lookup_delete_ne; [done|]. by intros ->.
      * exists y, c. split_and!; [by apply (changed_in_old x)|done..].
    + intros y c csz [->|[Hy Hne]]%(changed_cases x) Hc; [|..|done].
      * cbn in Hc. apply lookup_delete_Some in Hc as [Hne Hc]. change (block_addr (put b x) c) with (block_addr x c).
        rewrite lookup_delete_ne; [by apply Hw|]. intros He. apply Hne, (block_inj x (Hs x Hx)). unfold d in He. lia.
      * rewrite lookup_delete_ne; [by apply Hw|]. intros He. destruct (block_unique x y b c) as [-> _]; try done; [|unfold d in He; lia].
        by eapply shape_used, Hc; apply Hs.
    + intros a Ha. rewrite lookup_delete_ne; [by apply Hw|]. intros <-. destruct (role_out w Hw _ _ Ha) as (n & Hn & _).
      by eapply block_not_big.
  - apply (block_moves i d x b); try done; [by right|]. intros ptr sz' Hne Hl. cbn. by rewrite lookup_delete_ne.
Qed.
End blocks.

(** ** Pages and slots *)

Lemma role_other (rl : gmap Z role) a o o' b : o ≠ o' → rl !! a ≠ Some o' → <[a := o]> rl !! b = Some o' ↔ rl !! b = Some o'.
Proof.
  intros Hne Ha. destruct (decide (a = b)) as [<-|Hab]; [|by rewrite lookup_insert_ne].
  rewrite lookup_insert_eq. split; [congruence|done].
Qed.

Lemma role_new (rl : gmap Z role) a o b : rl !! a ≠ Some o → <[a := o]> rl !! b = Some o ↔ b = a ∨ rl !! b = Some o.
Proof.
  intros Ha. destruct (decide (a = b)) as [<-|Hab]; [rewrite lookup_insert_eq; tauto|].
  rewrite lookup_insert_ne by done. split; [by right|]. by intros [->|?].
Qed.

Lemma role_old (rl : gmap Z role) a o o' b : rl !! a = Some o → o ≠ o' → <[a := o']> rl !! b = Some o ↔ b ≠ a ∧ rl !! b = Some o.
Proof.
  intros Ha Hne. destruct (decide (a = b)) as [<-|Hab]; [rewrite lookup_insert_eq; split; [congruence|tauto]|].
  rewrite lookup_insert_ne by done. split; [|tauto]. intros ?. split; congruence.
Qed.

Lemma own_other (own : gmap (Z * Z) (option Z)) q o o' q' : o ≠ o' → own !! q ≠ Some o' →
  <[q := o]> own !! q' = Some o' ↔ own !! q' = Some o'.
Proof.
  intros Hne Hq. destruct (decide (q = q')) as [<-|Hab]; [|by rewrite lookup_insert_ne].
  rewrite lookup_insert_eq. split; [congruence|done].
Qed.

Lemma dom_insert_known {A} (m : gmap Z A) a v b : is_Some (m !! a) → is_Some (<[a := v]> m !! b) ↔ is_Some (m !! b).
Proof.
  intros Ha. destruct (decide (a = b)) as [<-|]; [rewrite lookup_insert_eq; split; eauto|]. by rewrite lookup_insert_ne.
Qed.

Lemma ref_slot_pages own rs rs' p : page <$> rs' = page <$> rs → ref_slot own rs p → ref_slot own rs' p.
Proof.
  intros Hp (k & j & r & Hr & Ho & ->). destruct (same_pages _ _ k r Hp Hr) as (r' & Hr' & He). exists k, j, r'. by rewrite He.
Qed.

Lemma placed_role w w' ptr sz : w_xs w' = w_xs w → w_out w' = w_out w →
  (w_role w !! ptr = Some RBig → w_role w' !! ptr = Some RBig) → placed w ptr sz → placed w' ptr sz.
Proof. intros Hx Ho Hr [H|(n & Hn & H)]; unfold placed; rewrite Hx, Ho; [by left|right]. exists n. by split; [apply Hr|]. Qed.

Section pages.
Context (w : world) (Hw : core w) (i : Z).

(** A private page changes. *)
Lemma private_moves d a w' : w_role w !! a = Some (RPriv i) →
  w_out w' = w_out w → (∀ j q, j ≠ i → 0 ≤ j → w_own w !! q = Some (Some j) ↔ w_own w' !! q = Some (Some j)) →
  (∀ j b, j ≠ i → w_role w !! b = Some (RPriv j) ↔ w_role w' !! b = Some (RPriv j)) →
  (∀ k r, znth (w_roots w) k = Some r → page r ≠ 0 → ∃ r', znth (w_roots w') k = Some r' ∧ page r' = page r) →
  changed_in (w_mem w) (w_mem w') a (a + 4096) →
  (∀ ptr sz, ptr ≠ d → w_live w !! ptr = Some sz → w_live w' !! ptr = Some sz) → moves i d w w'.
Proof using Hw.
  intros Ha Ho Hown Hrl Hrs Hm Hl. constructor; rewrite ?Ho; try done.
  - intros j b Hj Hb. split; [done|]. apply (changed_agree _ _ _ _ _ _ Hm).
    destruct (role_out w Hw a _ Ha) as (n & Hn & ?), (role_out w Hw b _ Hb) as (n' & Hn' & ?).
    destruct (roles_apart w Hw a b (RPriv i) (RPriv j) n n'); [done..|congruence|done|done|lia|lia].
  - intros ptr sz Hne Hptr. split; [by apply Hl|]. apply (changed_agree _ _ _ _ _ _ Hm).
    by apply (live_apart_page w Hw ptr sz a (RPriv i)).
Qed.

(** The heap changes in its lock only. *)
Lemma klock_step d b : let w' := mkW (set_klock b (w_h w)) (w_live w) (w_out w) (w_xs w) (w_own w) (w_role w) in
  core w' ∧ moves i d w w'.
Proof using Hw.
  split.
  - constructor; cbn [w_h w_live w_out w_xs w_own w_role]; try apply Hw. by apply heap_ok_klock, Hw.
  - constructor; cbn [w_h w_live w_out w_xs w_own w_role]; try done; by eauto.
Qed.

(** A private page is filled. *)
Lemma fill_step a m' : w_role w !! a = Some (RPriv i) → changed_in (w_mem w) m' a (a + 4096) →
  let w' := mkW (set_mem m' (w_h w)) (w_live w) (w_out w) (w_xs w) (w_own w) (w_role w) in core w' ∧ moves i 0 w w'.
Proof using Hw.
  intros Ha Hm w'. split; [|by apply (private_moves 0 a); eauto].
  constructor; cbn [w_h w_live w_out w_xs w_own w_role]; try apply Hw. destruct (co_heap _ Hw) as [H1 H2 H3 H4 H5 H6 H7 H8].
  constructor; try done. intros x Hx. apply (page_mem_agree (w_mem w)); [by apply H6|by apply H7|].
  apply (changed_agree _ _ _ _ _ _ Hm). destruct (page_apart_role w Hw x a _ Hx Ha); [done|lia|lia].
Qed.

(** [allocpageref] has taken a slot. *)
Lemma slot_step k j rs' : w_own w !! (k, j) = None → roots_ok (<[(k, j) := Some i]> (w_own w)) rs' → page <$> rs' = page <$> w_roots w →
  let w' := mkW (set_roots rs' (w_h w)) (w_live w) (w_out w) (w_xs w) (<[(k, j) := Some i]> (w_own w)) (w_role w) in
  core w' ∧ moves i 0 w w'.
Proof using Hw.
  intros Hn Hrs Hp. cbv zeta. split.
  - constructor; cbn [w_h w_live w_out w_xs w_own w_role kheaproots set_roots]; rewrite ?Hp; try done; try apply Hw.
    + destruct (co_heap _ Hw) as [H1 H2 H3 H4 H5 H6 H7 H8]. by constructor.
    + intros x Hx. apply (ref_slot_pages _ (w_roots w)); [done|]. destruct (co_refs _ Hw x Hx) as (k' & j' & r & Hr & Ho & He).
      exists k', j', r. split_and!; [done| |done]. rewrite lookup_insert_ne by congruence. done.
  - constructor; cbn [w_h w_live w_out w_xs w_own w_role kheaproots set_roots]; try done.
    + intros j' q Hj _. rewrite own_other; [done|congruence|congruence].
    + intros k' r Hr _. by apply (same_pages (w_roots w)).
Qed.

(** A slot of this thread is handed to [o], which is not a thread's. *)
Lemma relabel_step k j r o : w_own w !! (k, j) = Some (Some i) → znth (w_roots w) k = Some r → (o = None → page r ≠ 0) →
  (∀ j', 0 ≤ j' → o ≠ Some j') →
  let w' := mkW (w_h w) (w_live w) (w_out w) (w_xs w) (<[(k, j) := o]> (w_own w)) (w_role w) in core w' ∧ moves i 0 w w'.
Proof using Hw.
  intros Hn Hr Hpr Ho. cbv zeta. split.
  - constructor; cbn [w_h w_live w_out w_xs w_own w_role]; try apply Hw.
    + apply (roots_relabel _ _ (co_roots _ Hw) k j o r); [done|by eexists|done].
    + intros x Hx. destruct (co_refs _ Hw x Hx) as (k' & j' & r' & Hr' & Ho' & He).
      exists k', j', r'. split_and!; [done| |done]. rewrite lookup_insert_ne by congruence. done.
  - constructor; cbn [w_h w_live w_out w_xs w_own w_role]; try done.
    + intros j' q Hj Hj'. rewrite own_other; [done|by apply Ho|congruence].
    + eauto.
Qed.

(** [alloc_kpages] has given a run of pages to this thread. *)
Lemma give_step va n : 1 ≤ n → may_give (w_out w) n va →
  let w' := mkW (w_h w) (w_live w) (<[va := n]> (w_out w)) (w_xs w) (w_own w) (<[va := RPriv i]> (w_role w)) in
  core w' ∧ moves i 0 w w'.
Proof using Hw.
  intros Hn (Hal & Hlo & Hhi & Hap). cbv zeta. assert (w_out w !! va = None) as Hnone.
  { destruct (w_out w !! va) as [m|] eqn:Hm; [exfalso|done]. pose proof (out_range w Hw va m Hm). destruct (Hap va m Hm); lia. }
  assert (w_role w !! va = None) as Hrole by (rewrite eq_None_not_Some, <- (co_dom _ Hw), Hnone; by intros [? ?]).
  assert (∀ a n', w_out w !! a = Some n' → va ≠ a) as Hne by (intros; congruence).
  assert (∀ o a, w_role w !! a = Some o → va ≠ a) as Hne' by (intros; congruence). split.
  - constructor; cbn [w_h w_live w_out w_xs w_own w_role]; try apply Hw.
    + constructor.
      * intros a m [[<- <-]|[_ Ha]]%lookup_insert_Some; [done|by apply (out_range w Hw)].
      * intros a b n1 n2 [[<- <-]|[Hna Ha]]%lookup_insert_Some [[<- <-]|[Hnb Hb]]%lookup_insert_Some Hab;
          [done|destruct (Hap b n2 Hb); lia|by apply Hap|by apply (oo_apart _ (co_out _ Hw) a b)].
    + intros a. destruct (decide (va = a)) as [<-|]; [rewrite !lookup_insert_eq; split; eauto|].
      rewrite !lookup_insert_ne by done. apply Hw.
    + intros a. rewrite !role_other by congruence. intros Ha. rewrite lookup_insert_ne; [by apply Hw|].
      destruct Ha as [Ha|Ha]; by apply Hne' in Ha.
    + intros a. rewrite role_other by congruence. apply Hw.
    + intros a. rewrite role_other by congruence. apply Hw.
    + intros ptr sz Hl. destruct (co_live _ Hw ptr sz Hl) as [Hsz [Hs|(m & Hm & Hm' & Hle)]]; (split; [done|]); [by left|right].
      exists m. cbn. pose proof (Hne ptr m Hm'). by rewrite !lookup_insert_ne.
    + intros a. rewrite role_other by congruence. apply Hw.
  - constructor; cbn [w_h w_live w_out w_xs w_own w_role]; try done; [| |by eauto].
    + intros j a Hj. rewrite role_other by congruence. done.
    + intros j a Hj Ha. split; [|apply agree_refl]. pose proof (Hne' _ _ Ha). by rewrite lookup_insert_ne.
Qed.

(** [free_kpages] has taken a run of pages back from this thread. *)
Lemma drop_step d va : w_role w !! va = Some (RPriv i) →
  let w' := mkW (w_h w) (w_live w) (delete va (w_out w)) (w_xs w) (w_own w) (delete va (w_role w)) in
  core w' ∧ moves i d w w'.
Proof using Hw.
  intros Hva. cbv zeta.
  assert (∀ a o, o ≠ RPriv i → delete va (w_role w) !! a = Some o ↔ w_role w !! a = Some o) as Hrole.
  { intros a o Ho. rewrite lookup_delete_Some. split; [tauto|]. intros ?. split; [congruence|done]. }
  assert (∀ a o, w_role w !! a = Some o → o ≠ RPriv i → delete va (w_out w) !! a = w_out w !! a) as Hout.
  { intros a o Ha Ho. apply lookup_delete_ne. congruence. } split.
  - constructor; cbn [w_h w_live w_out w_xs w_own w_role]; try apply Hw.
    + constructor.
      * intros a m [_ Ha]%lookup_delete_Some. by apply (out_range w Hw).
      * intros a b n1 n2 [_ Ha]%lookup_delete_Some [_ Hb]%lookup_delete_Some. by apply (oo_apart _ (co_out _ Hw) a b).
    + intros a. destruct (decide (va = a)) as [<-|]; [rewrite !lookup_delete_eq; split; by intros [? ?]|].
      rewrite !lookup_delete_ne by done. apply Hw.
    + intros a. rewrite !Hrole by done. intros Ha. destruct Ha as [Ha|Ha]; rewrite (Hout _ _ Ha) by done; apply Hw; tauto.
    + intros a. rewrite Hrole by done. apply Hw.
    + intros a. rewrite Hrole by done. apply Hw.
    + intros ptr sz Hl. destruct (co_live _ Hw ptr sz Hl) as [Hsz [Hs|(m & Hm & Hm' & Hle)]]; (split; [done|]); [by left|right].
      exists m. cbn. rewrite Hrole, (Hout _ _ Hm) by done. done.
    + intros a. rewrite Hrole by done. apply Hw.
  - constructor; cbn [w_h w_live w_out w_xs w_own w_role]; try done; [| |by eauto].
    + intros j a Hj. rewrite Hrole by congruence. done.
    + intros j a Hj Ha. split; [|apply agree_refl]. by apply (Hout _ _ Ha); congruence.
Qed.
(** A private page becomes the page of the root [k]. *)
Lemma root_step k r va : w_role w !! va = Some (RPriv i) → w_out w !! va = Some 1 → znth (w_roots w) k = Some r → page r = 0 →
  let rs' := zset (w_roots w) k (mkRoot va (pagerefs_inuse r) (numinuse r)) in
  let w' := mkW (set_roots rs' (w_h w)) (w_live w) (w_out w) (w_xs w) (w_own w) (<[va := RRoot]> (w_role w)) in
  core w' ∧ moves i 0 w w'.
Proof using Hw.
  intros Hva Hone Hr H0. cbv zeta. destruct (out_range w Hw va 1 Hone) as (Hal & Hlo & _ & Hhi).
  pose proof (znth_Some_range _ _ _ Hr) as Hk.
  assert (∀ k' r', znth (w_roots w) k' = Some r' → page r' ≠ va) as Hnew.
  { intros k' r' Hr' He. assert (w_role w !! va = Some RRoot) as Hbad; [|congruence].
    apply Hw. split; [unfold KSEG0 in Hlo; lia|]. rewrite <- He. apply list_elem_of_fmap_2. by eapply znth_elem. }
  assert (∀ k' r', znth (w_roots w) k' = Some r' → page r' ≠ 0 →
            znth (zset (w_roots w) k (mkRoot va (pagerefs_inuse r) (numinuse r))) k' = Some r') as Hkeep.
  { intros k' r' Hr' Hp. rewrite znth_zset_ne; [done|lia|]. intros ->. congruence. } split.
  - constructor; cbn [w_h w_live w_out w_xs w_own w_role kheaproots set_roots]; try apply Hw.
    + destruct (co_heap _ Hw) as [H1 H2 H3 H4 H5 H6 H7 H8]. by constructor.
    + apply roots_set_page; try done; apply Hw.
    + intros x Hx. destruct (co_refs _ Hw x Hx) as (k' & j' & r' & Hr' & Ho & He).
      exists k', j', r'. split_and!; [|done..]. apply Hkeep; [done|]. by eapply (rs_page _ _ (co_roots _ Hw)).
    + intros a. rewrite dom_insert_known by eauto. apply Hw.
    + intros a. rewrite role_other, role_new by congruence. intros [?|[->|?]]; [apply Hw; by left|done|apply Hw; by right].
    + intros a. rewrite role_other by congruence. apply Hw.
    + intros a. rewrite role_new by congruence. rewrite (co_rootpages _ Hw). unfold zset. rewrite list_fmap_insert. cbn [page].
      rewrite znth_lookup in Hr by lia.
      pose proof (list_lookup_fmap page (w_roots w) (Z.to_nat k)) as Hpk. rewrite Hr in Hpk. cbn in Hpk. rewrite H0 in Hpk.
      assert (va ≠ 0) by (unfold KSEG0 in Hlo; lia). split.
      * intros [->|[Ha Hin]]; (split; [done|]).
        -- apply list_elem_of_insert. rewrite length_fmap. lia.
        -- apply list_elem_of_lookup in Hin as [n Hn]. apply list_elem_of_lookup. exists n.
           rewrite list_lookup_insert_ne; [done|]. intros <-. congruence.
      * intros [Ha Hin]. apply list_elem_of_lookup in Hin as [n Hn]. apply list_lookup_insert_Some in Hn as [(_ & <- & _)|[_ Hn]]; [by left|].
        right. split; [done|]. by eapply list_elem_of_lookup_2.
    + intros ptr sz Hl. destruct (co_live _ Hw ptr sz Hl) as [Hsz Hpl]. split; [done|].
      apply (placed_role w); try done. cbn. rewrite role_other by congruence. done.
    + intros a. rewrite role_other by congruence. apply Hw.
  - apply (private_moves 0 va); try done; cbn [w_h w_live w_out w_xs w_own w_role kheaproots set_roots].
    + intros j b Hj. rewrite role_other by congruence. done.
    + intros k' r' Hr' Hp. exists r'. split; [by apply Hkeep|done].
Qed.

(** A run of pages of this thread becomes a block. *)
Lemma big_step va n sz : w_role w !! va = Some (RPriv i) → w_out w !! va = Some n → 0 ≤ sz ≤ n * 4096 →
  let w' := mkW (w_h w) (<[va := sz]> (w_live w)) (w_out w) (w_xs w) (w_own w) (<[va := RBig]> (w_role w)) in
  core w' ∧ moves i 0 w w'.
Proof using Hw.
  intros Hva Hn Hsz. cbv zeta. assert (w_live w !! va = None) as Hnone.
  { destruct (w_live w !! va) as [sz'|] eqn:Hl; [exfalso|done].
    destruct (co_live _ Hw va sz' Hl) as [_ [(x & b & Hx & _ & ->)|(m & Hm & _)]]; [by eapply (block_not_big w Hw)|congruence]. }
  assert (∀ ptr sz', w_live w !! ptr = Some sz' → va ≠ ptr) as Hne by (intros; congruence). split.
  - constructor; cbn [w_h w_live w_out w_xs w_own w_role]; try apply Hw.
    + intros a. rewrite dom_insert_known by eauto. apply Hw.
    + intros a. rewrite !role_other by congruence. apply Hw.
    + intros a. rewrite role_other by congruence. apply Hw.
    + intros a. rewrite role_other by congruence. apply Hw.
    + intros ptr sz' [[<- <-]|[_ Hl]]%lookup_insert_Some.
      { split; [lia|]. right. exists n. cbn. rewrite lookup_insert_eq. split_and!; [done|done|lia]. }
      destruct (co_live _ Hw ptr sz' Hl) as [Hsz' Hpl]. split; [done|]. apply (placed_role w); try done. cbn.
      pose proof (Hne _ _ Hl). by rewrite lookup_insert_ne.
    + intros x b csz Hx Hu. pose proof (co_used _ Hw x b csz Hx Hu) as Hl. pose proof (Hne _ _ Hl). by rewrite lookup_insert_ne.
    + intros a. rewrite role_new by congruence. intros [->|Ha]; [rewrite lookup_insert_eq; eauto|].
      pose proof (co_big _ Hw a Ha) as [sz' Hl]. pose proof (Hne _ _ Hl). rewrite lookup_insert_ne by done. eauto.
  - apply (private_moves 0 va); try done; cbn [w_h w_live w_out w_xs w_own w_role].
    + intros j b Hj. rewrite role_other by congruence. done.
    + eauto.
    + intros ptr sz' _ Hl. pose proof (Hne _ _ Hl). by rewrite lookup_insert_ne.
Qed.

(** A large block is taken from its client. *)
Lemma unbig_step ptr : w_role w !! ptr = Some RBig →
  let w' := mkW (w_h w) (delete ptr (w_live w)) (w_out w) (w_xs w) (w_own w) (<[ptr := RPriv i]> (w_role w)) in
  core w' ∧ moves i ptr w w'.
Proof using Hw.
  intros Hva. cbv zeta. destruct (role_out w Hw _ _ Hva) as (n & Hn & _). split.
  - constructor; cbn [w_h w_live w_out w_xs w_own w_role]; try apply Hw.
    + intros a. rewrite dom_insert_known by eauto. apply Hw.
    + intros a. rewrite !role_other by congruence. apply Hw.
    + intros a. rewrite role_other by congruence. apply Hw.
    + intros a. rewrite role_other by congruence. apply Hw.
    + intros ptr' sz' [Hne Hl]%lookup_delete_Some. destruct (co_live _ Hw ptr' sz' Hl) as [Hsz' Hpl]. split; [done|].
      apply (placed_role w); try done. cbn. by rewrite lookup_insert_ne.
    + intros x b csz Hx Hu. rewrite lookup_delete_ne; [by apply Hw|]. intros ->. by eapply (block_not_big w Hw).
    + intros a. rewrite role_old by done. intros [Hne Ha]. rewrite lookup_delete_ne by done. by apply Hw.
  - constructor; cbn [w_h w_live w_out w_xs w_own w_role]; try done; [|by eauto|].
    + intros j b Hj. rewrite role_other by congruence. done.
    + intros ptr' sz' Hne Hl. split; [by rewrite lookup_delete_ne|apply agree_refl].
Qed.
(** A private page has been set up and linked. *)
Lemma enter_step p pg t h' : w_role w !! pg = Some (RPriv i) → w_out w !! pg = Some 1 → ref_slot (w_own w) (w_roots w) p →
  heap_ok h' (fresh p pg t :: w_xs w) → kheaproots h' = w_roots w → changed_in (w_mem w) (mem h') pg (pg + 4096) →
  let w' := mkW h' (w_live w) (w_out w) (fresh p pg t :: w_xs w) (w_own w) (<[pg := RHeap]> (w_role w)) in
  core w' ∧ moves i 0 w w'.
Proof using Hw.
  intros Hpg Hone Hp Hh' Hrs Hm. cbv zeta. split.
  - constructor; cbn [w_h w_live w_out w_xs w_own w_role]; rewrite ?Hrs; try done; try apply Hw.
    + intros x [->|Hx]%elem_of_cons; [done|by apply Hw].
    + intros a. rewrite dom_insert_known by eauto. apply Hw.
    + intros a. rewrite role_new, role_other by congruence. intros [[->|?]|?]; [done|apply Hw; by left|apply Hw; by right].
    + intros a. rewrite role_new by congruence. rewrite (co_pages _ Hw), fmap_cons, elem_of_cons. done.
    + intros a. rewrite role_other by congruence. apply Hw.
    + intros ptr sz Hl. destruct (co_live _ Hw ptr sz Hl) as [Hsz [(x & b & Hx & Hs)|(n & Hn & Hs)]]; (split; [done|]); [left|right].
      * exists x, b. split; [by right|done].
      * exists n. split; [|done]. cbn. rewrite role_other by congruence. done.
    + intros x b csz [->|Hx]%elem_of_cons Hu; [done|by apply Hw].
    + intros a. rewrite role_other by congruence. apply Hw.
  - apply (private_moves 0 pg); try done; cbn [w_h w_live w_out w_xs w_own w_role]; rewrite ?Hrs; [|by eauto].
    intros j b Hj. rewrite role_other by congruence. done.
Qed.

(** A page without used blocks has left the heap. *)
Lemma leave_step d x xs1 xs2 k j r h' : w_xs w = xs1 ++ x :: xs2 → hp_used x = ∅ → hp_ref x = page r + SIZEOF_PAGEREF * j →
  znth (w_roots w) k = Some r → roots_ok (delete (k, j) (w_own w)) (kheaproots h') → w_own w !! (k, j) = Some None →
  page <$> kheaproots h' = page <$> w_roots w → heap_ok h' (xs1 ++ xs2) → mem h' = w_mem w →
  let w' := mkW h' (w_live w) (w_out w) (xs1 ++ xs2) (delete (k, j) (w_own w)) (<[hp_page x := RPriv i]> (w_role w)) in
  core w' ∧ moves i d w w'.
Proof using Hw.
  intros Hxs Hu Hp Hr Hrs Hown Hpages Hh' Hm. cbv zeta. assert (x ∈ w_xs w) as Hx by (rewrite Hxs; set_solver).
  destruct (page_role w Hw x Hx) as [Hpg Hone].
  assert (∀ y, y ∈ xs1 ++ xs2 → y ∈ w_xs w) as Hsub by (rewrite Hxs; set_solver).
  assert (∀ y, y ∈ xs1 ++ xs2 → y ≠ x) as Hne.
  { pose proof (hk_refs _ _ (co_heap _ Hw)) as Hnd. rewrite Hxs, split_refs in Hnd. intros y Hy ->.
    apply (list_elem_of_fmap_2 hp_ref) in Hy. rewrite fmap_app in Hy. rewrite <- Permutation_middle in Hnd.
    apply NoDup_cons_1_1 in Hnd. done. }
  assert (∀ y, y ∈ w_xs w → y ≠ x → y ∈ xs1 ++ xs2) as Hkeep by (rewrite Hxs; set_solver). split.
  - constructor; cbn [w_h w_live w_out w_xs w_own w_role]; rewrite ?Hpages; try done; try apply Hw.
    + intros y Hy. apply (ref_slot_pages _ (w_roots w)); [done|]. destruct (co_refs _ Hw y (Hsub y Hy)) as (k' & j' & r' & Hr' & Ho & He).
      exists k', j', r'. split_and!; [done| |done]. rewrite lookup_delete_ne; [done|]. intros [= <- <-].
      apply (Hne y Hy), (same_ref _ _ (co_heap _ Hw)); [by apply Hsub|done|]. congruence.
    + intros a. rewrite dom_insert_known by eauto. apply Hw.
    + intros a. rewrite role_old, role_other by congruence. intros [[_ ?]|?]; [apply Hw; by left|apply Hw; by right].
    + intros a. rewrite role_old by done. rewrite (co_pages _ Hw). rewrite !list_elem_of_fmap. split.
      * intros [Ha (y & -> & Hy)]. exists y. split; [done|]. apply Hkeep; [done|congruence].
      * intros (y & -> & Hy). split; [|by eauto]. intros He. apply (Hne y Hy), (same_page _ _ (co_heap _ Hw)); auto.
    + intros a. rewrite role_other by congruence. apply Hw.
    + intros ptr sz Hl. destruct (co_live _ Hw ptr sz Hl) as [Hsz [(y & b & Hy & Hs & ?)|(n & Hn & Hs)]]; (split; [done|]); [left|right].
      * exists y, b. split; [|done]. apply Hkeep; [done|]. intros ->. by rewrite Hu in Hs.
      * exists n. split; [|done]. cbn. rewrite role_other by congruence. done.
    + intros y b csz Hy. by apply Hw, Hsub.
    + intros a. rewrite role_other by congruence. apply Hw.
  - constructor; cbn [w_h w_live w_out w_xs w_own w_role]; rewrite ?Hm; try done.
    + intros j' b Hj. rewrite role_other by congruence. done.
    + intros j' q Hj _. rewrite lookup_delete_Some. split; [|tauto]. intros ?. split; [congruence|done].
    + intros k' r' Hr' _. by apply (same_pages (w_roots w)).
Qed.
End pages.

(** A client stores a byte of its block. *)
Lemma write_step w ptr sz a v : core w → w_live w !! ptr = Some sz → ptr ≤ a < ptr + sz →
  let w' := mkW (set_mem (wr8 (w_mem w) a v) (w_h w)) (w_live w) (w_out w) (w_xs w) (w_own w) (w_role w) in
  core w' ∧ moves (-1) ptr w w'.
Proof.
  intros Hw Hl Ha. cbv zeta. split.
  - constructor; cbn [w_h w_live w_out w_xs w_own w_role]; try apply Hw. destruct (co_heap _ Hw) as [H1 H2 H3 H4 H5 H6 H7 H8].
    constructor; try done. intros x Hx. cbn.
    destruct (placed_range w Hw ptr sz Hl) as [(y & b & Hy & Hb & -> & Hr & Hsz)|(n & Hn & Hn' & Hsz)].
    + destruct (decide (x = y)) as [->|Hne]; [apply (client_write _ y b (sz + 8)); auto; lia|].
      pose proof (block_in_page y (H6 y Hy) b Hr). apply other_write; auto.
      destruct (pages_apart _ _ (co_heap _ Hw) x y Hx Hy Hne); lia.
    + apply other_write; auto. destruct (page_role w Hw x Hx) as [Hp Hp'].
      destruct (roles_apart w Hw (hp_page x) ptr RHeap RBig 1 n) as [?|?]; [done..|lia|lia].
  - constructor; cbn [w_h w_live w_out w_xs w_own w_role]; try done; [|by eauto|].
    + intros j b Hj Hb. split; [done|]. apply wr8_agree. destruct (live_apart_page w Hw ptr sz b _ Hl Hb); [done..|lia|lia].
    + intros ptr' sz' Hne Hl'. split; [done|]. apply wr8_agree.
      destruct (live_apart w Hw ptr ptr' sz sz' Hl Hl'); [congruence|lia|lia].
Qed.

End KmallocSteps.
