(* ===== verification/KmallocThreads.v ===== *)
(** * Where a thread can be in a call of the kernel heap

    The stops of [kmalloc] and [kfree] with what the thread holds at each of them, and the
    invariant of the whole system. *)

From Stdlib Require Import ZArith Lia.
From stdpp Require Import base numbers list gmap.
From S2P Require Import Prelude Coremap Kmalloc KmallocMem KmallocPages KmallocHeap KmallocRoots KmallocSystem KmallocSteps.

Module KmallocThreads.
Import Coremap(PAGE_SIZE, KSEG0).
Import Kmalloc KmallocMem KmallocPages KmallocHeap KmallocRoots KmallocSystem KmallocSteps.

(** ** Programs *)

(** The program runs to its next stop without a panic, and [Q] holds there. *)
Definition twp {A} (p : T A) (Q : T A → heap → Prop) (h : heap) : Prop :=
  match exec p h with Done (p', h') => Q p' h' | Panic => False end.

Section programs.
Context {A B C D X : Type} (h : heap).

Lemma twp_act (m : M heap X) (f : X → T A) (Q : T A → heap → Prop) : wp m (λ x h', twp (f x) Q h') h → twp (act m ≫= f) Q h.
Proof. unfold twp, wp. cbn. by destruct (m h) as [[x h']|]. Qed.

Lemma twp_act_bind (m : M heap X) (f : X → T A) (g : A → T B) (Q : T B → heap → Prop) :
  wp m (λ x h', twp (f x ≫= g) Q h') h → twp ((act m ≫= f) ≫= g) Q h.
Proof. unfold twp, wp. cbn. by destruct (m h) as [[x h']|]. Qed.

Lemma twp_act_bind2 (m : M heap X) (f : X → T A) (g : A → T B) (g' : B → T C) (Q : T C → heap → Prop) :
  wp m (λ x h', twp ((f x ≫= g) ≫= g') Q h') h → twp (((act m ≫= f) ≫= g) ≫= g') Q h.
Proof. unfold twp, wp. cbn. by destruct (m h) as [[x h']|]. Qed.

Lemma twp_last (m : M heap A) (Q : T A → heap → Prop) : wp m (λ x h', Q (Ret x) h') h → twp (act m) Q h.
Proof. unfold twp, wp. cbn. by destruct (m h) as [[x h']|]. Qed.
End programs.

(** The rest of [allocpagerefpage] after [alloc_kpages], and of [allocpageref] after that. *)
Definition more_root (whichroot va : Z) : T unit :=
  act spinlock_acquire ;;
  if va =? 0 then mret tt else
  act (KASSERT (va mod PAGE_SIZE =? 0)) ;;
  root ← act (get_root whichroot);
  if negb (page root =? 0) then
    act spinlock_release ;;
    free_kpages va ;;
    act (spinlock_acquire ;; root ← get_root whichroot; KASSERT (negb (page root =? 0)))
  else act (put_root whichroot (mkRoot va (pagerefs_inuse root) (numinuse root))).

Definition slot_ref (k j : Z) : T (option Z) :=
  root ← act (get_root k);
  if page root =? 0 then mret None else mret (Some (page root + SIZEOF_PAGEREF * j)).

(** The continuations of [kmalloc] at its stops. *)
Definition after_refpage (t csz label pg k j va : Z) : T Z :=
  (more_root k va ≫= λ _, slot_ref k j) ≫= with_ref t csz (size t) label pg.
Definition after_extra (t csz label pg k j : Z) : T Z :=
  (act (spinlock_acquire ;; root ← get_root k; KASSERT (negb (page root =? 0))) ≫= λ _, slot_ref k j)
    ≫= with_ref t csz (size t) label pg.
Definition after_big (address : Z) : T Z :=
  if address =? 0 then mret 0 else act (KASSERT (address mod PAGE_SIZE =? 0)) ;; mret address.

(** The continuation of [kfree] after a block has been put back. *)
Definition check_again : T unit :=
  act (spinlock_acquire ;; checksubpages ;; spinlock_release) ;;
  mret tt.

(** ** The threads *)

Definition beef (m : gmap Z Z) (pg : Z) : Prop := ∀ n, 0 ≤ n < 1024 → rd32 m (pg + 4 * n) = DEADBEEF.

(** The sizes for which a block of type [t] is used. *)
Definition fits (t sz : Z) : Prop := is_type t ∧ 0 ≤ sz ∧ smaller t < sz + 16 ≤ size t.

(** A thread at each of the stops, with the pages and the slot that it holds. *)
Inductive at_stop (w : world) : option call → list Z → option (Z * Z) → Prop :=
| at_rest : at_stop w None [] None
| at_page t sz label : fits t sz →
    at_stop w (Some (CMalloc sz (AllocK 1 (with_page t (sz + 8) (size t) label)))) [] None
| at_refpage t sz label pg k j : fits t sz → beef (w_mem w) pg → w_out w !! pg = Some 1 →
    at_stop w (Some (CMalloc sz (AllocK 1 (after_refpage t (sz + 8) label pg k j)))) [pg] (Some (k, j))
| at_extra t sz label pg k j va r : fits t sz → beef (w_mem w) pg → w_out w !! pg = Some 1 → pg ≠ va →
    znth (w_roots w) k = Some r → page r ≠ 0 →
    at_stop w (Some (CMalloc sz (FreeK va (after_extra t (sz + 8) label pg k j)))) [pg; va] (Some (k, j))
| at_giveup sz pg : at_stop w (Some (CMalloc sz (FreeK pg (Ret 0)))) [pg] None
| at_big sz n : 0 ≤ sz ≤ n * 4096 → 1 ≤ n → at_stop w (Some (CMalloc sz (AllocK n after_big))) [] None
| at_whole pg : at_stop w (Some (CFree (FreeK pg check_again))) [pg] None
| at_yield : at_stop w (Some (CFree (Yield check_again))) [] None
| at_bigfree ptr : at_stop w (Some (CFree (FreeK ptr (Ret tt)))) [ptr] None.

Definition holds (w : world) (i : Z) (P : list Z) (S : option (Z * Z)) : Prop :=
  (∀ a, w_role w !! a = Some (RPriv i) ↔ a ∈ P) ∧ (∀ q, w_own w !! q = Some (Some i) ↔ S = Some q).

(** Every page of the heap has a used block. *)
Definition busy (xs : list hpage) : Prop := ∀ x, x ∈ xs → hp_used x ≠ ∅.

Record inv (s : sys) (w : world) : Prop := {
  in_core : core w;
  in_h : w_h w = hp s;
  in_live : w_live w = live s;
  in_out : w_out w = out s;
  in_lock : klock (hp s) = false;
  in_thr : ∀ i, 0 ≤ i → ∃ P S, at_stop w (thr s !! i) P S ∧ holds w i P S;
  in_pos : ∀ a i, w_role w !! a = Some (RPriv i) → 0 ≤ i;
  in_names : ∀ i c, thr s !! i = Some c → 0 ≤ i;
  in_busy : busy (w_xs w);
}.

(** The threads that do not move stay where they are. *)
Lemma at_stop_frame i d w w' j c P S : moves i d w w' → j ≠ i → at_stop w c P S → holds w j P S → at_stop w' c P S.
Proof.
  intros Hm Hj Hs [HP _].
  assert (∀ a, a ∈ P → w_out w' !! a = w_out w !! a ∧ agree (w_mem w) (w_mem w') a (a + 4096)) as Hkeep.
  { intros a Ha%HP. by apply (mv_priv _ _ _ _ Hm j). }
  assert (∀ pg, pg ∈ P → beef (w_mem w) pg → beef (w_mem w') pg) as Hbeef.
  { intros pg [_ Hpg]%Hkeep Hb n Hn. rewrite (rd32_agree (w_mem w)); [by apply Hb|]. eapply agree_sub; [done|lia|lia]. }
  destruct Hs; try by constructor.
  - destruct (Hkeep pg) as [Ho _]; [left|]. constructor; [done|apply Hbeef; [left|done]|congruence].
  - destruct (Hkeep pg) as [Ho _]; [left|]. destruct (mv_roots _ _ _ _ Hm k r) as (r' & Hr' & Hp'); [done..|].
    apply (at_extra w' t sz label pg k j0 va r'); try done; [apply Hbeef; [left|done]|congruence|congruence].
Qed.

Lemma inv_update s w i d w' c P S h' : inv s w → 0 ≤ i → core w' → moves i d w w' → klock (w_h w') = false →
  at_stop w' c P S → holds w' i P S → busy (w_xs w') → h' = mkSys (w_h w') (partial_alter (λ _, c) i (thr s)) (w_live w') (w_out w') → inv h' w'.
Proof.
  intros Hinv Hi Hc Hm Hk Hs Hh Hb ->. constructor; try done; cbn [hp thr live out].
  - intros j Hj. destruct (decide (j = i)) as [->|Hne]; [exists P, S; by rewrite lookup_partial_alter_eq|].
    rewrite lookup_partial_alter_ne by done. destruct (in_thr _ _ Hinv j Hj) as (P' & S' & Hs' & Hh'). exists P', S'.
    split; [by eapply at_stop_frame|]. destruct Hh' as [HP HS]. split.
    + intros a. rewrite <- (mv_role _ _ _ _ Hm) by done. apply HP.
    + intros q. rewrite <- (mv_own _ _ _ _ Hm) by done. apply HS.
  - intros a j Ha. destruct (decide (j = i)) as [->|Hne]; [done|]. apply (mv_role _ _ _ _ Hm) in Ha; [|done].
    by apply (in_pos _ _ Hinv a).
  - intros j c'. destruct (decide (j = i)) as [->|Hne]; [done|]. rewrite lookup_partial_alter_ne by done. apply Hinv.
Qed.

(** ** A thread between two stops *)

(** The thread [i] has come from the state [w] to the state [w1]; the system has not yet been told. *)
Record moving (i d : Z) (s : sys) (w w1 : world) (b : bool) (P : list Z) (S : option (Z * Z)) : Prop := {
  du_core : core w1;
  du_moves : moves i d w w1;
  du_lock : klock (w_h w1) = b;
  du_holds : holds w1 i P S;
  du_live : w_live w1 = live s;
  du_out : w_out w1 = out s;
}.

Record during (i d : Z) (s : sys) (w w1 : world) (b : bool) (P : list Z) (S : option (Z * Z)) : Prop := {
  #[reversible=no] du_moving :> moving i d s w w1 b P S;
  du_busy : busy (w_xs w1);
}.

Lemma moving_step i d s w w1 w2 b b' P S P' S' : moving i d s w w1 b P S → core w2 ∧ moves i d w1 w2 →
  w_live w2 = w_live w1 → w_out w2 = w_out w1 → klock (w_h w2) = b' → holds w2 i P' S' → moving i d s w w2 b' P' S'.
Proof.
  intros [H1 H2 H3 H4 H5 H6] [Hc Hm] Hl Ho Hk Hh. constructor; try done; [by eapply moves_trans|congruence|congruence].
Qed.

Lemma during_step i d s w w1 w2 b b' P S P' S' : during i d s w w1 b P S → core w2 ∧ moves i d w1 w2 → w_xs w2 = w_xs w1 →
  w_live w2 = w_live w1 → w_out w2 = w_out w1 → klock (w_h w2) = b' → holds w2 i P' S' → during i d s w w2 b' P' S'.
Proof. intros [Hd Hb] Hc Hx Hl Ho Hk Hh. constructor; [by eapply moving_step|by rewrite Hx]. Qed.

Definition with_klock (b : bool) (w : world) : world :=
  mkW (set_klock b (w_h w)) (w_live w) (w_out w) (w_xs w) (w_own w) (w_role w).

Lemma during_klock i d s w w1 b b' P S : during i d s w w1 b P S → during i d s w (with_klock b' w1) b' P S.
Proof.
  intros Hd. eapply during_step; [done|apply klock_step, Hd|done..|]. apply (du_holds _ _ _ _ _ _ _ _ Hd).
Qed.

Definition settle_malloc (i sz : Z) (s : sys) (p : T Z) (h : heap) : sys :=
  match p with
  | Ret va => mkSys h (delete i (thr s)) (if va =? 0 then live s else <[va := sz]> (live s)) (out s)
  | _ => mkSys h (<[i := CMalloc sz p]> (thr s)) (live s) (out s)
  end.
Definition settle_free (i : Z) (s : sys) (p : T unit) (h : heap) : sys :=
  match p with
  | Ret _ => mkSys h (delete i (thr s)) (live s) (out s)
  | _ => mkSys h (<[i := CFree p]> (thr s)) (live s) (out s)
  end.

(** A stop of the thread is one the invariant knows. *)
Definition mgood (i sz : Z) (s : sys) (w : world) (p : T Z) (h : heap) : Prop :=
  ∃ w', inv (settle_malloc i sz s p h) w' ∧ moves i 0 w w'.
Definition fgood (i d : Z) (s : sys) (w : world) (p : T unit) (h : heap) : Prop :=
  ∃ w', inv (settle_free i s p h) w' ∧ moves i d w w'.

Lemma go_malloc_eq i sz p s (Q : sys → Prop) : twp p (λ p' h', Q (settle_malloc i sz s p' h')) (hp s) → ∃ s', go_malloc i sz p s = Some s' ∧ Q s'.
Proof. unfold twp, go_malloc. destruct (exec p (hp s)) as [[[] h']|]; [..|done]; cbn; eauto. Qed.

Lemma go_free_eq i p s (Q : sys → Prop) : twp p (λ p' h', Q (settle_free i s p' h')) (hp s) → ∃ s', go_free i p s = Some s' ∧ Q s'.
Proof. unfold twp, go_free. destruct (exec p (hp s)) as [[[] h']|]; [..|done]; cbn; eauto. Qed.

Section stops.
Context (s : sys) (w : world) (Hinv : inv s w) (i : Z) (Hi : 0 ≤ i) (s0 : sys) (Hthr : thr s0 = thr s).

Lemma malloc_stop sz w1 P S p : during i 0 s0 w w1 false P S → at_stop w1 (Some (CMalloc sz p)) P S → (∀ va, p ≠ Ret va) →
  mgood i sz s0 w p (w_h w1).
Proof using Hinv Hi Hthr.
  intros [[H1 H2 H3 H4 H5 H6] Hb] Hs Hp. exists w1. split; [|done]. eapply (inv_update s w i 0); try done.
  rewrite H5, H6, <- Hthr. destruct p; try done. by destruct (Hp a).
Qed.

Lemma malloc_fails sz w1 : during i 0 s0 w w1 false [] None → mgood i sz s0 w (Ret 0) (w_h w1).
Proof using Hinv Hi Hthr.
  intros [[H1 H2 H3 H4 H5 H6] Hb]. exists w1. split; [|done]. eapply (inv_update s w i 0); try done; [constructor|].
  by rewrite H5, H6, <- Hthr.
Qed.

Lemma malloc_returns sz w1 va : core w1 → moves i 0 w w1 → klock (w_h w1) = false → holds w1 i [] None →
  w_live w1 = <[va := sz]> (live s0) → w_out w1 = out s0 → busy (w_xs w1) → va ≠ 0 → mgood i sz s0 w (Ret va) (w_h w1).
Proof using Hinv Hi Hthr.
  intros H1 H2 H3 H4 H5 H6 Hb Hva. exists w1. split; [|done]. eapply (inv_update s w i 0); try done; [constructor|].
  rewrite H5, H6, <- Hthr. cbn. by rewrite (proj2 (Z.eqb_neq va 0) Hva).
Qed.

Lemma free_stop d w1 P S p : during i d s0 w w1 false P S → at_stop w1 (Some (CFree p)) P S → (∀ va, p ≠ Ret va) →
  fgood i d s0 w p (w_h w1).
Proof using Hinv Hi Hthr.
  intros [[H1 H2 H3 H4 H5 H6] Hb] Hs Hp. exists w1. split; [|done]. eapply (inv_update s w i d); try done.
  rewrite H5, H6, <- Hthr. destruct p; try done. by destruct (Hp a).
Qed.

Lemma free_returns d w1 : during i d s0 w w1 false [] None → fgood i d s0 w (Ret tt) (w_h w1).
Proof using Hinv Hi Hthr.
  intros [[H1 H2 H3 H4 H5 H6] Hb]. exists w1. split; [|done]. eapply (inv_update s w i d); try done; [constructor|].
  by rewrite H5, H6, <- Hthr.
Qed.
End stops.

End KmallocThreads.
