(* ===== verification/KmallocCalls.v ===== *)
(** * The calls of the kernel heap

    From every stop a thread runs on to another stop that the invariant knows, or returns,
    without a failing check: the sections of [kmalloc] and [kfree] one by one. *)

From Stdlib Require Import ZArith Lia.
From stdpp Require Import base numbers list gmap.
From S2P Require Import Prelude Coremap Kmalloc KmallocMem KmallocPages KmallocHeap KmallocRoots KmallocSystem KmallocSteps.
From S2P Require Import KmallocThreads.

Module KmallocCalls.
Import Coremap(PAGE_SIZE, KSEG0).
Import Kmalloc KmallocMem KmallocPages KmallocHeap KmallocRoots KmallocSystem KmallocSteps KmallocThreads.

(** ** What a thread holds *)

Section holding.
Context (w w' : world) (i : Z).

Lemma holds_gain P P' S va : holds w i P S → w_role w' = <[va := RPriv i]> (w_role w) → w_own w' = w_own w →
  (∀ a, a ∈ P' ↔ a = va ∨ a ∈ P) → holds w' i P' S.
Proof.
  intros [HP HS] Hr Ho HP'. split; [|by rewrite Ho]. intros a. rewrite Hr, HP', <- HP.
  destruct (decide (va = a)) as [<-|Hne]; [rewrite lookup_insert_eq; tauto|]. rewrite lookup_insert_ne by done. naive_solver.
Qed.

Lemma holds_lose P P' S va o : holds w i P S → w_role w' = <[va := o]> (w_role w) → w_own w' = w_own w → o ≠ RPriv i →
  (∀ a, a ∈ P' ↔ a ≠ va ∧ a ∈ P) → holds w' i P' S.
Proof.
  intros [HP HS] Hr Ho Hne HP'. split; [|by rewrite Ho]. intros a. rewrite Hr, HP', <- HP.
  destruct (decide (va = a)) as [<-|Hva]; [rewrite lookup_insert_eq; naive_solver|]. rewrite lookup_insert_ne by done. naive_solver.
Qed.

Lemma holds_drop P P' S va : holds w i P S → w_role w' = delete va (w_role w) → w_own w' = w_own w →
  (∀ a, a ∈ P' ↔ a ≠ va ∧ a ∈ P) → holds w' i P' S.
Proof.
  intros [HP HS] Hr Ho HP'. split; [|by rewrite Ho]. intros a. rewrite Hr, HP', <- HP, lookup_delete_Some. naive_solver.
Qed.

Lemma holds_slot P q : holds w i P None → w_role w' = w_role w → w_own w' = <[q := Some i]> (w_own w) → holds w' i P (Some q).
Proof.
  intros [HP HS] Hr Ho. split; [by rewrite Hr|]. intros q'. rewrite Ho. destruct (decide (q = q')) as [<-|Hne].
  - by rewrite lookup_insert_eq.
  - rewrite lookup_insert_ne, HS by done. naive_solver.
Qed.

Lemma holds_unslot P q o : holds w i P (Some q) → w_role w' = w_role w → w_own w' = <[q := o]> (w_own w) → o ≠ Some i → holds w' i P None.
Proof.
  intros [HP HS] Hr Ho Hne. split; [by rewrite Hr|]. intros q'. rewrite Ho. destruct (decide (q = q')) as [<-|Hq].
  - rewrite lookup_insert_eq. split; congruence.
  - rewrite lookup_insert_ne, HS by done. naive_solver.
Qed.

Lemma holds_same P S : holds w i P S → w_role w' = w_role w → w_own w' = w_own w → holds w' i P S.
Proof. intros [HP HS] Hr Ho. split; [by rewrite Hr|by rewrite Ho]. Qed.
End holding.

(** ** The sections of [kmalloc] *)

Section malloc.
Context (s : sys) (w : world) (Hinv : inv s w) (i : Z) (Hi : 0 ≤ i) (s0 : sys) (Hthr : thr s0 = thr s).
Context (t sz label : Z) (Hfits : fits t sz).

Notation good := (mgood i sz s0 w).

(** [doalloc] returns a block. *)
Lemma doalloc_good w1 x : moving i 0 s0 w w1 true [] None → x ∈ w_xs w1 → hp_type x = t → hp_free x ≠ [] →
  (∀ y, y ∈ w_xs w1 → y ≠ x → hp_used y ≠ ∅) →
  wp (doalloc (hp_ref x) (sz + 8) (size t) label) (λ va h', good (Ret va) h') (w_h w1).
Proof using Hinv Hi Hthr Hfits.
  intros Hd Hx Ht Hf Hbusy. destruct (hp_free x) as [|b l] eqn:Hfree; [done|]. destruct Hfits as (_ & Hsz & Hsize). rewrite <- Ht in *.
  pose proof (du_core _ _ _ _ _ _ _ _ Hd) as Hc.
  apply (wp_doalloc (w_h w1) (w_xs w1) x b l); [apply Hc|apply Hd|done|done|lia|lia|]. intros h' Hh' Hk Hrs Hm.
  destruct (take_step w1 Hc i x b l sz h' Hx Hfree Hsz Hh' Hrs Hm) as [Hc' Hm'].
  assert (block_addr x b ≠ -12) as Hnz.
  { pose proof (hk_shape _ _ (co_heap _ Hc) x Hx) as Hs. pose proof (shape_free x Hs b ltac:(rewrite Hfree; left)) as Hb.
    pose proof (block_word x Hs b Hb). lia. }
  eapply (malloc_returns s w Hinv i Hi s0 Hthr sz (mkW h' _ _ _ _ _)); [apply Hc'|by eapply moves_trans, Hm'; apply Hd|done| | | | |lia].
  - eapply holds_same; [apply Hd|done..].
  - cbn. by rewrite (du_live _ _ _ _ _ _ _ _ Hd).
  - apply (du_out _ _ _ _ _ _ _ _ Hd).
  - intros y [->|[Hy Hne]]%(changed_cases _ x); [apply insert_non_empty|by apply Hbusy|done].
Qed.

(** No pageref could be had: the page is given back. *)
Lemma no_ref_good pg w1 : during i 0 s0 w w1 true [pg] None → twp (with_ref t (sz + 8) (size t) label pg None) good (w_h w1).
Proof using Hinv Hi Hthr.
  intros Hd. cbn [with_ref]. apply twp_act, wp_klock_release; [apply Hd|]. apply (during_klock _ _ _ _ _ _ false) in Hd.
  apply (malloc_stop s w Hinv i Hi s0 Hthr sz _ [pg] None _ Hd); [constructor|done].
Qed.

(** The page is set up with its pageref, and a block of it is returned. *)
Lemma ref_good pg k j r w1 : during i 0 s0 w w1 true [pg] (Some (k, j)) → beef (w_mem w1) pg → w_out w1 !! pg = Some 1 →
  znth (w_roots w1) k = Some r → page r ≠ 0 →
  twp (with_ref t (sz + 8) (size t) label pg (Some (page r + SIZEOF_PAGEREF * j))) good (w_h w1).
Proof using Hinv Hi Hthr Hfits.
  intros Hd Hbeef Hone Hr Hp. cbn [with_ref]. pose proof (du_core _ _ _ _ _ _ _ _ Hd) as Hc. pose proof (du_holds _ _ _ _ _ _ _ _ Hd) as [HP HS].
  assert (w_own w1 !! (k, j) = Some (Some i)) as Hown by (by apply HS).
  assert (w_role w1 !! pg = Some (RPriv i)) as Hpg by (apply HP; left).
  destruct (out_range w1 Hc pg 1 Hone) as (Hal & Hlo & _ & Hhi).
  destruct (relabel_step w1 Hc i k j r None Hown Hr) as [Hc2 Hm2]; [done|done|].
  set (w2 := mkW _ _ _ _ _ _) in Hc2, Hm2. assert (during i 0 s0 w w2 true [pg] None) as Hd2.
  { eapply (during_step _ _ _ _ w1 w2); [done|done|done|done|done|apply Hd|]. by eapply holds_unslot; [apply Hd|..]. }
  set (p := page r + SIZEOF_PAGEREF * j). assert (ref_slot (w_own w2) (w_roots w2) p) as Hslot.
  { exists k, j, r. split_and!; [done|apply lookup_insert_eq|done]. }
  assert (p ∉ hp_ref <$> w_xs w1) as Hfresh.
  { intros (x & He & Hx)%list_elem_of_fmap. unfold p in He. destruct (co_refs _ Hc x Hx) as (k' & j' & r' & Hr' & Ho' & He').
    destruct (slot_inj (w_own w1) (w_roots w1) k j k' j' r r'); [apply Hc|done|done|by eexists|by eexists|done| |congruence|congruence].
    by eapply (rs_page _ _ (co_roots _ Hc)). }
  apply twp_last. wp_go. apply (wp_init_page (w_h w2) (w_xs w2)); try done.
  - apply Hc2.
  - apply Hfits.
  - destruct (rk_page _ _ _ (rs_root _ _ (co_roots _ Hc) k r Hr)) as [?|(_ & ? & _)]; [done|].
    destruct (rs_range _ _ (co_roots _ Hc) k j) as [_ ?]; [by eexists|]. unfold p, KSEG0, SIZEOF_PAGEREF in *. lia.
  - intros Hin%(co_pages _ Hc). congruence.
  - rewrite <- (length_fmap hp_ref). eapply (ref_count (w_own w1) (w_roots w1)); [apply Hc|apply Hc| |done].
    intros q (x & -> & Hx)%list_elem_of_fmap. by apply Hc.
  - intros h' Hh' Hk Hrs Hm. destruct (enter_step w2 Hc2 i p pg t h') as [Hc3 Hm3]; try done.
    set (w3 := mkW _ _ _ _ _ _) in Hc3, Hm3. change h' with (w_h w3). apply (doalloc_good w3 (fresh p pg t)); [|left|done| |].
    + eapply (moving_step _ _ _ _ w2); [apply Hd2|done|done|done| |].
      * cbn. rewrite Hk. apply Hd.
      * eapply holds_lose; [apply Hd2|done|done|done|]. intros a. set_solver.
    + cbn. destruct (sizes_ok t) as [_ _ _ Hn _ _]; [apply Hfits|]. destruct (Z.to_nat (nblocks t)) eqn:E; [lia|done].
    + intros y [->|Hy]%elem_of_cons Hne; [done|]. by apply (du_busy _ _ _ _ _ _ _ _ Hd).
Qed.

(** [allocpageref] has its slot: it looks whether the root has a page. *)
Lemma slot_ref_good pg k j w1 : during i 0 s0 w w1 true [pg] (Some (k, j)) → beef (w_mem w1) pg → w_out w1 !! pg = Some 1 →
  twp (slot_ref k j ≫= with_ref t (sz + 8) (size t) label pg) good (w_h w1).
Proof using Hinv Hi Hthr Hfits.
  intros Hd Hbeef Hone. pose proof (du_core _ _ _ _ _ _ _ _ Hd) as Hc. pose proof (du_holds _ _ _ _ _ _ _ _ Hd) as [HP HS].
  assert (w_own w1 !! (k, j) = Some (Some i)) as Hown by (by apply HS).
  destruct (rs_range _ _ (co_roots _ Hc) k j) as [Hk Hj]; [by eexists|].
  destruct (znth_is_Some (w_roots w1) k) as [r Hr]; [rewrite (rs_length _ _ (co_roots _ Hc)); lia|].
  unfold slot_ref. apply twp_act_bind. unfold get_root. wp_go. eapply wp_deref; [done|].
  destruct (Z.eqb_spec (page r) 0) as [H0|H0]; [|by eapply ref_good].
  destruct (relabel_step w1 Hc i k j r (Some (-1)) Hown Hr) as [Hc2 Hm2]; [done|intros ? ? ?; simplify_eq; lia|].
  change (w_h w1) with (w_h (mkW (w_h w1) (w_live w1) (w_out w1) (w_xs w1) (<[(k, j) := Some (-1)]> (w_own w1)) (w_role w1))).
  apply no_ref_good. eapply during_step; [done|done|done|done|done|apply Hd|]. eapply holds_unslot; [apply Hd|done..|]. intros [= ?]. lia.
Qed.

(** [allocpagerefpage] got no page. *)
Lemma refpage_fails pg k j w1 : during i 0 s0 w w1 false [pg] (Some (k, j)) → beef (w_mem w1) pg → w_out w1 !! pg = Some 1 →
  twp (after_refpage t (sz + 8) label pg k j 0) good (w_h w1).
Proof using Hinv Hi Hthr Hfits.
  intros Hd Hbeef Hone. unfold after_refpage, more_root. apply twp_act_bind2, wp_klock_acquire; [apply Hd|].
  apply (during_klock _ _ _ _ _ _ true) in Hd. by apply (slot_ref_good pg k j (with_klock true w1)).
Qed.

(** [allocpagerefpage] got the page [va]: it becomes the page of the root, unless another thread has been faster. *)
Lemma refpage_good pg k j va w1 : during i 0 s0 w w1 false [pg; va] (Some (k, j)) → beef (w_mem w1) pg → w_out w1 !! pg = Some 1 →
  w_out w1 !! va = Some 1 → pg ≠ va → twp (after_refpage t (sz + 8) label pg k j va) good (w_h w1).
Proof using Hinv Hi Hthr Hfits.
  intros Hd Hbeef Hone Hva Hne. pose proof (du_core _ _ _ _ _ _ _ _ Hd) as Hc. pose proof (du_holds _ _ _ _ _ _ _ _ Hd) as [HP HS].
  destruct (rs_range _ _ (co_roots _ Hc) k j) as [Hk Hj]; [by eexists; apply HS|].
  destruct (znth_is_Some (w_roots w1) k) as [r Hr]; [rewrite (rs_length _ _ (co_roots _ Hc)); lia|].
  destruct (out_range w1 Hc va 1 Hva) as (Hal & Hlo & _ & Hhi).
  unfold after_refpage, more_root. apply twp_act_bind2, wp_klock_acquire; [apply Hd|].
  destruct (Z.eqb_spec va 0) as [H0|_]; [unfold KSEG0 in Hlo; lia|].
  apply twp_act_bind2, wp_KASSERT; [by apply Z.eqb_eq|]. apply twp_act_bind2. unfold get_root. wp_go. eapply wp_deref; [done|].
  apply (during_klock _ _ _ _ _ _ true) in Hd. destruct (Z.eqb_spec (page r) 0) as [Hp|Hp]; cbn [negb].
  - destruct (root_step (with_klock true w1) (du_core _ _ _ _ _ _ _ _ Hd) i k r va) as [Hc2 Hm2]; try done; [apply HP; set_solver|].
    set (w2 := mkW _ _ _ _ _ _) in Hc2, Hm2. refine (twp_act_bind _ _ (λ _, slot_ref k j) _ _ _). unfold put_root. wp_go.
    apply (slot_ref_good pg k j w2); try done. eapply during_step; [done|done|done|done|done|done|].
    eapply holds_lose; [apply Hd|done|done|done|]. intros a. set_solver.
  - apply twp_act_bind2, wp_klock_release; [done|]. apply (during_klock _ _ _ _ _ _ false) in Hd.
    apply (malloc_stop s w Hinv i Hi s0 Hthr sz _ [pg; va] (Some (k, j)) _ Hd); [|done]. by eapply (at_extra _ t sz label pg k j va r).
Qed.

(** The extra page has been given back. *)
Lemma extra_good pg k j r w1 : during i 0 s0 w w1 false [pg] (Some (k, j)) → beef (w_mem w1) pg → w_out w1 !! pg = Some 1 →
  znth (w_roots w1) k = Some r → page r ≠ 0 → twp (after_extra t (sz + 8) label pg k j) good (w_h w1).
Proof using Hinv Hi Hthr Hfits.
  intros Hd Hbeef Hone Hr Hp. unfold after_extra. apply twp_act_bind. wp_go. apply wp_klock_acquire; [apply Hd|]. unfold get_root. wp_go.
  eapply wp_deref; [done|]. apply wp_KASSERT; [by destruct (Z.eqb_spec (page r) 0)|].
  apply (during_klock _ _ _ _ _ _ true) in Hd. by apply (slot_ref_good pg k j (with_klock true w1)).
Qed.

(** [subpage_kmalloc] got a page. *)
Lemma page_good pg w1 : during i 0 s0 w w1 false [pg] None → w_out w1 !! pg = Some 1 → roomy (w_roots w1) →
  twp (with_page t (sz + 8) (size t) label pg) good (w_h w1).
Proof using Hinv Hi Hthr Hfits.
  intros Hd Hone Hroom. pose proof (du_core _ _ _ _ _ _ _ _ Hd) as Hc. pose proof (du_holds _ _ _ _ _ _ _ _ Hd) as [HP HS].
  destruct (out_range w1 Hc pg 1 Hone) as (Hal & Hlo & _ & Hhi). unfold with_page.
  destruct (Z.eqb_spec pg 0) as [H0|_]; [unfold KSEG0 in Hlo; lia|]. apply twp_act. wp_go. apply wp_KASSERT; [by apply Z.eqb_eq|]. wp_go.
  apply wp_fill_deadbeef; [|done|done|]. { clear -Hal. Z.to_euclidean_division_equations. lia. }
  intros m Hm Hbeef. apply wp_klock_acquire; [apply Hd|].
  destruct (fill_step w1 Hc i pg m) as [Hc2 Hm2]; [apply HP; left|done|]. set (w2 := mkW _ _ _ _ _ _) in Hc2, Hm2.
  assert (during i 0 s0 w (with_klock true w2) true [pg] None) as Hd2.
  { apply (during_klock _ _ _ _ _ false). by eapply during_step; [done|done|done|done|done|apply Hd|apply Hd]. }
  unfold allocpageref. apply twp_act_bind. change (set_klock true (set_mem m (w_h w1))) with (w_h (with_klock true w2)).
  apply (take_slot_ok (w_own w1) (w_roots w1) (co_roots _ Hc) (Some i) (Z.to_nat NUM_PAGEREFPAGES) 0 (w_h (with_klock true w2)));
    [done|done|eauto|lia|done| | |].
  - intros k' r' Hk' Hr'%znth_Some_range. lia.
  - intros k j r rs' Hr Hown Hrs Hpages. destruct (slot_step (with_klock true w2) (du_core _ _ _ _ _ _ _ _ Hd2) i k j rs') as [Hc3 Hm3]; try done.
    set (w3 := mkW _ _ _ _ _ _) in Hc3, Hm3. change (set_roots rs' _) with (w_h w3).
    assert (during i 0 s0 w w3 true [pg] (Some (k, j))) as Hd3.
    { eapply during_step; [done|done|done|done|done|done|]. by eapply holds_slot; [apply Hd2|..]. }
    destruct (same_pages _ _ k r Hpages Hr) as (r' & Hr' & Hp'). apply twp_act_bind. unfold get_root. wp_go. eapply wp_deref; [done|].
    destruct (Z.eqb_spec (page r') 0) as [Hp|Hp]; [|by apply (slot_ref_good pg k j w3)].
    unfold allocpagerefpage. refine (twp_act_bind2 _ _ _ _ _ _ _). unfold get_root. wp_go. eapply wp_deref; [done|].
    wp_go. apply wp_KASSERT; [by apply Z.eqb_eq|]. wp_go. apply wp_klock_release; [done|]. apply (during_klock _ _ _ _ _ _ false) in Hd3.
    apply (malloc_stop s w Hinv i Hi s0 Hthr sz _ [pg] (Some (k, j)) _ Hd3); [|done]. by apply (at_refpage _ t sz label pg k j).
  - by apply (no_ref_good pg (with_klock true w2)).
Qed.
End malloc.

(** ** The start of [kmalloc], and large blocks *)

Section whole.
Context (s : sys) (w : world) (Hinv : inv s w) (i : Z) (Hi : 0 ≤ i).

Lemma during_start d : thr s !! i = None → during i d s w w false [] None.
Proof using Hinv Hi.
  intros Hn. destruct (in_thr _ _ Hinv i Hi) as (P & S & Hs & Hh). rewrite Hn in Hs. inversion Hs; subst.
  constructor; [|apply Hinv]. constructor; try done; try apply Hinv; [|rewrite (in_h _ _ Hinv); apply Hinv].
  constructor; try done; by eauto.
Qed.

Lemma subpage_start sz label : thr s !! i = None → 0 ≤ sz → sz + 16 < 2048 → twp (subpage_kmalloc sz label) (mgood i sz s w) (w_h w).
Proof using Hinv Hi.
  intros Hn Hsz Hlt. unfold subpage_kmalloc, GUARD_OVERHEAD, LABEL_PTROFFSET, w32. rewrite !Z.mod_small by lia.
  replace (sz + 8 + 8) with (sz + 16) by lia. apply twp_act. wp_go. apply wp_blocktype; [lia|]. intros t Ht Hsize. wp_go.
  apply wp_blocksize_of; [done|]. wp_go. pose proof (during_start 0 Hn) as Hd. apply wp_klock_acquire; [apply Hd|].
  apply (during_klock _ _ _ _ _ _ true) in Hd. pose proof (co_heap _ (du_core _ _ _ _ _ _ _ _ Hd)) as Hh. wp_go.
  apply (wp_checksubpages _ (w_xs w)); [done|done|]. wp_go. destruct (hk_same _ _ Hh t Ht) as (b & Hb & Hchain).
  unfold get_sizebase. wp_go. eapply wp_deref; [done|]. wp_go. assert (fits t sz) as Hfits by done.
  apply (wp_find_page _ (w_xs w) _ _ (of_type t (w_xs w))); [done|done|done| | | |].
  - intros y [? ?]%list_elem_of_filter. done.
  - apply LIST_FUEL_eq. pose proof (hk_count _ _ Hh). pose proof (of_type_length t (w_xs w)). cbn in *. lia.
  - intros _. wp_go. apply twp_act, wp_klock_release; [done|]. apply (during_klock _ _ _ _ _ _ false) in Hd.
    apply (malloc_stop s w Hinv i Hi s eq_refl sz _ [] None _ Hd); [by constructor|done].
  - intros x Hx Htx Hf. wp_go. apply twp_last. apply (doalloc_good s w Hinv i Hi s eq_refl t sz label Hfits (with_klock true w) x); try done; [apply Hd|].
    intros y Hy _. by apply (in_busy _ _ Hinv).
Qed.

Lemma kmalloc_start sz label : thr s !! i = None → 0 ≤ sz < 2 ^ 31 → twp (kmalloc sz label) (mgood i sz s w) (w_h w).
Proof using Hinv Hi.
  intros Hn Hsz. unfold kmalloc, GUARD_OVERHEAD, LABEL_OVERHEAD, LABEL_PTROFFSET, LARGEST_SUBPAGE_SIZE, PAGE_SIZE, w32.
  change (2 ^ 31) with 2147483648 in Hsz. rewrite !Z.mod_small by lia. destruct (Z.geb_spec (sz + 8 + 8) 2048); [|apply subpage_start; [done|lia|lia]].
  apply (malloc_stop s w Hinv i Hi s eq_refl sz _ [] None _ (during_start 0 Hn)); [|done].
  apply at_big; Z.to_euclidean_division_equations; lia.
Qed.

Lemma big_good s0 sz n va w1 : thr s0 = thr s → during i 0 s0 w w1 false [va] None → w_out w1 !! va = Some n → 0 ≤ sz ≤ n * 4096 →
  twp (after_big va) (mgood i sz s0 w) (w_h w1).
Proof using Hinv Hi.
  intros Hthr Hd Hn Hsz. pose proof (du_core _ _ _ _ _ _ _ _ Hd) as Hc. pose proof (du_holds _ _ _ _ _ _ _ _ Hd) as [HP HS].
  destruct (out_range w1 Hc va n Hn) as (Hal & Hlo & _ & Hhi). unfold after_big.
  destruct (Z.eqb_spec va 0) as [H0|H0]; [unfold KSEG0 in Hlo; lia|]. apply twp_act, wp_KASSERT; [by apply Z.eqb_eq|].
  destruct (big_step w1 Hc i va n sz) as [Hc2 Hm2]; [apply HP; left|done|done|].
  eapply (malloc_returns s w Hinv i Hi s0 Hthr sz (mkW _ _ _ _ _ _)); [apply Hc2|by eapply moves_trans, Hm2; apply Hd|apply Hd| | | |apply Hd|done].
  - eapply holds_lose; [apply Hd|done|done|done|]. intros a. set_solver.
  - cbn. by rewrite (du_live _ _ _ _ _ _ _ _ Hd).
  - apply (du_out _ _ _ _ _ _ _ _ Hd).
Qed.

(** ** [kfree] *)

Lemma check_again_good d s0 w1 : thr s0 = thr s → during i d s0 w w1 false [] None → twp check_again (fgood i d s0 w) (w_h w1).
Proof using Hinv Hi.
  intros Hthr Hd. unfold check_again. apply twp_act. wp_go. apply wp_klock_acquire; [apply Hd|]. apply (during_klock _ _ _ _ _ _ true) in Hd.
  wp_go. apply (wp_checksubpages _ (w_xs w1)); [apply (co_heap _ (du_core _ _ _ _ _ _ _ _ Hd))|done|]. wp_go. apply wp_klock_release; [done|].
  apply (during_klock _ _ _ _ _ _ false) in Hd. by apply (free_returns s w Hinv i Hi s0 Hthr d _ Hd).
Qed.

Lemma kfree_big ptr : thr s !! i = None → w_role w !! ptr = Some RBig →
  twp (kfree ptr) (fgood i ptr (set_live (delete ptr (live s)) s) w) (w_h w).
Proof using Hinv Hi.
  intros Hn Hbig. pose proof (in_core _ _ Hinv) as Hc. destruct (role_out w Hc _ _ Hbig) as (n & Hout & _).
  destruct (out_range w Hc ptr n Hout) as (Hal & Hlo & _ & Hhi). unfold kfree.
  destruct (Z.eqb_spec ptr 0) as [H0|H0]; [unfold KSEG0 in Hlo; lia|]. unfold subpage_kfree. change PAGE_SIZE with 4096. rewrite Hal, Z.eqb_refl.
  apply twp_act, wp_KASSERT; [done|]. destruct (unbig_step w Hc i ptr Hbig) as [Hc2 Hm2]. set (w2 := mkW _ _ _ _ _ _) in Hc2, Hm2.
  pose proof (during_start ptr Hn) as Hd.
  apply (free_stop s w Hinv i Hi (set_live _ s) eq_refl ptr w2 [ptr] None); [|constructor|done]. constructor; [|apply Hinv]. constructor; try done.
  - apply Hd.
  - eapply holds_gain; [apply Hd|done|done|]. intros a. set_solver.
  - cbn. by rewrite (in_live _ _ Hinv).
  - apply Hinv.
Qed.

(** A page all of whose blocks are free has no used block. *)
Lemma all_free x : page_shape x → Z.of_nat (length (hp_free x)) = nblocks (hp_type x) → hp_used x = ∅.
Proof using.
  intros Hx Hlen. assert (hp_free x ⊆+ seqZ 0 (nblocks (hp_type x))) as Hsub.
  { apply NoDup_submseteq; [apply Hx|]. intros b Hb. apply elem_of_seqZ. pose proof (shape_free x Hx b Hb). lia. }
  apply submseteq_length_Permutation in Hsub; [|rewrite length_seqZ; lia]. apply map_empty. intros b.
  destruct (hp_used x !! b) as [csz|] eqn:Hb; [exfalso|done]. pose proof (shape_used x Hx b csz Hb) as Hr.
  assert (b ∈ hp_free x) as Hf by (rewrite Hsub; apply elem_of_seqZ; lia). rewrite (ps_disjoint _ Hx b Hf) in Hb. done.
Qed.

Lemma none_used x : page_shape x → hp_used x = ∅ → Z.of_nat (length (hp_free x)) = nblocks (hp_type x).
Proof using.
  intros Hx Hu. assert (seqZ 0 (nblocks (hp_type x)) ⊆+ hp_free x) as Hsub%submseteq_length.
  { apply NoDup_submseteq; [apply NoDup_seqZ|]. intros b Hb%elem_of_seqZ. destruct (proj2 (ps_blocks _ Hx b)) as [?|[csz Hc]]; [lia|done|].
    by rewrite Hu in Hc. }
  rewrite length_seqZ in Hsub. pose proof (free_length x Hx). lia.
Qed.

(** The page [x] of which the last used block has been put back leaves the heap. *)
Lemma whole_good d s0 w1 x : thr s0 = thr s → moving i d s0 w w1 true [] None → x ∈ w_xs w1 → hp_used x = ∅ →
  (∀ y, y ∈ w_xs w1 → y ≠ x → hp_used y ≠ ∅) →
  wp (remove_lists (hp_ref x) (hp_type x) ;; freepageref (hp_ref x) ;; spinlock_release ;; mret (Some (hp_page x)))
    (λ o h', o = Some (hp_page x) ∧ fgood i d s0 w (FreeK (hp_page x) check_again) h') (w_h w1).
Proof using Hinv Hi.
  intros Hthr Hd Hx Hu Hbusy. pose proof (du_core _ _ _ _ _ _ _ _ Hd) as Hc. destruct (co_refs _ Hc x Hx) as (k & j & r & Hr & Hown & Hp).
  apply list_elem_of_split in Hx as (xs1 & xs2 & Hxs). pose proof (co_heap _ Hc) as Hh. rewrite Hxs in Hh. wp_go.
  apply (wp_remove_lists _ xs1 x xs2); [done|apply Hd|]. intros h' Hh' Hm Hk Hrs. wp_go. unfold freepageref. rewrite Hp.
  destruct (rs_range _ _ (co_roots _ Hc) k j) as [Hkr _]; [by eexists|].
  apply (free_slot_ok (w_own w1) (w_roots w1) (co_roots _ Hc) k j r); [done|done|done|lia|done|]. intros rs' Hrs' Hpages. wp_go.
  apply wp_klock_release; [done|]. wp_go. split; [done|].
  destruct (leave_step w1 Hc i d x xs1 xs2 k j r (set_roots rs' h')) as [Hc2 Hm2]; try done.
  { by destruct Hh' as [H1 H2 H3 H4 H5 H6 H7 H8]; constructor. }
  set (w2 := mkW _ _ _ _ _ _) in Hc2, Hm2.
  assert (during i d s0 w w2 true [hp_page x] None) as Hd2.
  { constructor; cycle 1.
    { intros y Hy. apply Hbusy; [rewrite Hxs; set_solver|]. intros ->. pose proof (hk_refs _ _ Hh) as Hnd. rewrite split_refs in Hnd.
      rewrite <- Permutation_middle in Hnd. apply NoDup_cons_1_1 in Hnd. apply Hnd. rewrite <- fmap_app. by apply list_elem_of_fmap_2. }
    eapply moving_step; [done|done|done|done|done|]. pose proof (du_holds _ _ _ _ _ _ _ _ Hd) as [HP HS]. split.
    - intros a. cbn. destruct (decide (hp_page x = a)) as [<-|Hne]; [rewrite lookup_insert_eq; set_solver|].
      rewrite lookup_insert_ne, HP by done. set_solver.
    - intros q. cbn. rewrite lookup_delete_Some, HS. naive_solver. }
  apply (during_klock _ _ _ _ _ _ false) in Hd2.
  apply (free_stop s w Hinv i Hi s0 Hthr d _ [hp_page x] None _ Hd2); [constructor|done].
Qed.

Lemma kfree_small x b sz : thr s !! i = None → x ∈ w_xs w → hp_used x !! b = Some (sz + 8) → let ptr := block_addr x b + 12 in
  twp (kfree ptr) (fgood i ptr (set_live (delete ptr (live s)) s) w) (w_h w).
Proof using Hinv Hi.
  intros Hn Hx Hu ptr. pose proof (in_core _ _ Hinv) as Hc. pose proof (hk_shape _ _ (co_heap _ Hc) x Hx) as Hs.
  pose proof (shape_used x Hs b _ Hu) as Hb. pose proof (block_word x Hs b Hb) as Hword. pose proof (block_aligned x Hs b) as Hal.
  pose proof (block_in_page x Hs b Hb) as Hin. destruct (ps_range _ Hs) as [Hlo Hhi].
  assert (block_addr x b + 16 ≤ 2 ^ 32) as Hmax by (destruct (sizes_ok _ (ps_type _ Hs)); unfold KSEG1 in Hhi; lia).
  unfold kfree, ptr. destruct (Z.eqb_spec (block_addr x b + 12) 0) as [H0|_]; [lia|].
  unfold subpage_kfree, GUARD_PTROFFSET, LABEL_PTROFFSET, w32. change PAGE_SIZE with 4096.
  rewrite (Z.mod_small (block_addr x b + 12 - 4)), (Z.mod_small (block_addr x b + 12 - 4 - 8)) by lia.
  destruct (Z.eqb_spec ((block_addr x b + 12) mod 4096) 0) as [H1|_]; [exfalso; Z.to_euclidean_division_equations; lia|].
  destruct (Z.eqb_spec ((block_addr x b + 12 - 4) mod 4096) 0) as [H1|_]; [exfalso; Z.to_euclidean_division_equations; lia|].
  replace (block_addr x b + 12 - 4 - 8) with (block_addr x b) by lia. apply twp_act_bind. wp_go.
  pose proof (during_start ptr Hn) as Hd. apply wp_klock_acquire; [apply Hd|]. apply (during_klock _ _ _ _ _ _ true) in Hd.
  pose proof (co_heap _ (du_core _ _ _ _ _ _ _ _ Hd)) as Hh. wp_go. apply (wp_checksubpages _ (w_xs w)); [done|done|]. wp_go.
  apply (wp_find_owner _ (w_xs w) _ _ (w_xs w)); [done|done|apply Hh|done|apply LIST_FUEL_eq, Hh| |].
  { intros Hno. destruct (Hno x Hx); destruct (sizes_ok _ (ps_type _ Hs)); lia. }
  intros y Hy Hpage. assert (y = x) as ->.
  { destruct (decide (y = x)) as [|Hne]; [done|]. destruct (pages_apart _ _ Hh y x Hy Hx Hne); destruct (sizes_ok _ (ps_type _ Hs)); lia. }
  apply twp_act_bind, (wp_put_block _ (w_xs w) x b (sz + 8)); [done|done|done|done|]. intros h' Hh' Hk Hrs Hm.
  destruct (put_step (with_klock true w) (du_core _ _ _ _ _ _ _ _ Hd) i x b sz h') as [Hc2 Hm2]; try done. set (w2 := mkW _ _ _ _ _ _) in Hc2, Hm2.
  assert (moving i ptr (set_live (delete ptr (live s)) s) w w2 true [] None) as Hd2.
  { constructor; try done; [by eapply moves_trans, Hm2; apply Hd|eapply holds_same; [apply Hd|done..]|cbn; by rewrite (in_live _ _ Hinv)|apply Hinv]. }
  destruct (Z.eqb_spec (Z.of_nat (S (length (hp_free x)))) (nblocks (hp_type x))) as [Hall|Hsome].
  - pose proof (put_shape x b _ Hs Hu) as Hs'.
    eapply wp_mono; [|apply (whole_good ptr (set_live (delete ptr (live s)) s) w2 (put b x) eq_refl Hd2); [by apply (changed_in_new _ x)|by apply all_free|]].
    2: { intros z [->|[Hz _]]%(changed_cases _ x) Hne; [done|by apply (in_busy _ _ Hinv)|done]. }
    intros o h2 [-> Hg]. exact Hg.
  - wp_go. apply wp_klock_release; [done|]. wp_go.
    assert (during i ptr (set_live (delete ptr (live s)) s) w w2 true [] None) as Hd3.
    { constructor; [done|]. intros z [->|[Hz _]]%(changed_cases _ x); [|by apply (in_busy _ _ Hinv)|done].
      intros He. apply Hsome. by apply (none_used (put b x)), He; apply (put_shape x b _ Hs Hu). }
    apply (during_klock _ _ _ _ _ _ false) in Hd3.
    apply (free_stop s w Hinv i Hi (set_live _ s) eq_refl ptr _ [] None _ Hd3); [constructor|done].
Qed.
End whole.

End KmallocCalls.
