(* ===== verification/KmallocTheorems.v ===== *)
(** * The correctness of the kernel heap

    In every state that threads reach by calling [kmalloc] and [kfree], whatever the
    interleaving and whatever the page allocator answers, the heap is well formed, no check
    of the allocator fails, the blocks of the clients do not overlap and keep their
    contents, and a heap without blocks has given all its pages back. *)

From Stdlib Require Import ZArith Lia.
From stdpp Require Import base numbers list gmap.
From S2P Require Import Prelude Coremap Kmalloc KmallocMem KmallocPages KmallocHeap KmallocRoots KmallocSystem KmallocSteps.
From S2P Require Import KmallocThreads KmallocCalls.

Module KmallocTheorems.
Import Coremap(PAGE_SIZE, KSEG0).
Import Kmalloc KmallocMem KmallocPages KmallocHeap KmallocRoots KmallocSystem KmallocSteps KmallocThreads KmallocCalls.

(** ** One step *)

(** The block whose contents a step may change. *)
Definition touches (s : sys) (e : event) (d : Z) : Prop :=
  match e with
  | EKfree _ ptr => d = ptr
  | EWrite a _ => ∃ sz, live s !! d = Some sz ∧ d ≤ a < d + sz
  | _ => d = 0
  end.

Definition stepped (s : sys) (w : world) (e : event) (s' : sys) : Prop :=
  ∃ w' i d, inv s' w' ∧ moves i d w w' ∧ touches s e d.

Lemma mgood_stepped i sz s s0 w e p h : mgood i sz s0 w p h → touches s e 0 → stepped s w e (settle_malloc i sz s0 p h).
Proof. intros (w' & Hi & Hm) Ht. by exists w', i, 0. Qed.

Lemma fgood_stepped i d s s0 w e p h : fgood i d s0 w p h → touches s e d → stepped s w e (settle_free i s0 p h).
Proof. intros (w' & Hi & Hm) Ht. by exists w', i, d. Qed.

Lemma malloc_stepped i sz s s0 w e p : twp p (mgood i sz s0 w) (hp s0) → touches s e 0 → ∃ s', go_malloc i sz p s0 = Some s' ∧ stepped s w e s'.
Proof.
  intros Hp Ht. apply go_malloc_eq. unfold twp in *. destruct (exec p (hp s0)) as [[p' h']|]; [|done]. by apply mgood_stepped.
Qed.

Lemma free_stepped i d s s0 w e p : twp p (fgood i d s0 w) (hp s0) → touches s e d → ∃ s', go_free i p s0 = Some s' ∧ stepped s w e s'.
Proof.
  intros Hp Ht. apply go_free_eq. unfold twp in *. destruct (exec p (hp s0)) as [[p' h']|]; [|done]. by eapply fgood_stepped.
Qed.

Section step.
Context (s : sys) (w : world) (Hinv : inv s w).

Lemma start_malloc i sz label : allowed s (EMalloc i sz label) →
  ∃ s', run (EMalloc i sz label) s = Some s' ∧ stepped s w (EMalloc i sz label) s'.
Proof using Hinv.
  intros (Hi & Hn & Hsz). apply malloc_stepped; [|done]. rewrite <- (in_h _ _ Hinv). by apply kmalloc_start.
Qed.

Lemma start_free i ptr : allowed s (EKfree i ptr) → ∃ s', run (EKfree i ptr) s = Some s' ∧ stepped s w (EKfree i ptr) s'.
Proof using Hinv.
  intros (Hi & Hn & Hptr). apply (free_stepped i ptr); [|done]. cbn [hp set_live]. rewrite <- (in_h _ _ Hinv).
  destruct Hptr as [->|[sz Hl]].
  - unfold twp. cbn. apply (free_returns s w Hinv i Hi (set_live (delete 0 (live s)) s) eq_refl 0 w).
    destruct (during_start s w Hinv i Hi 0 Hn) as [[H1 H2 H3 H4 H5 H6] Hbusy]. constructor; [|done]. constructor; try done. cbn.
    rewrite H5, delete_id; [done|]. destruct (live s !! 0) as [sz|] eqn:Hl; [exfalso|done]. rewrite <- (in_live _ _ Hinv) in Hl.
    destruct (placed_range w H1 0 sz Hl) as [(x & b & Hx & Hb & He & Hr & _)|(n & _ & Hn0 & _)].
    + pose proof (block_word x (hk_shape _ _ (co_heap _ H1) x Hx) b Hr). lia.
    + apply (out_range w H1) in Hn0 as (_ & Hlo & _). unfold KSEG0 in Hlo. lia.
  - rewrite <- (in_live _ _ Hinv) in Hl. destruct (co_live _ (in_core _ _ Hinv) ptr sz Hl) as [_ [(x & b & Hx & Hb & ->)|(n & Hbig & _)]].
    + by apply (kfree_small s w Hinv i Hi x b sz).
    + by apply kfree_big.
Qed.

(** A thread at a stop. *)
Lemma stopped i c : thr s !! i = Some c → ∃ P S, 0 ≤ i ∧ at_stop w (Some c) P S ∧ during i 0 s w w false P S.
Proof using Hinv.
  intros Hc. pose proof (in_names _ _ Hinv i c Hc) as Hi. destruct (in_thr _ _ Hinv i Hi) as (P & S & Hs & Hh). rewrite Hc in Hs.
  exists P, S. split_and!; [done|done|]. constructor; [|apply Hinv]. constructor; try done; try apply Hinv; [|rewrite (in_h _ _ Hinv); apply Hinv].
  constructor; try done; by eauto.
Qed.

Lemma during_given i n va P P' S : 0 ≤ i → during i 0 s w w false P S → 1 ≤ n → may_give (out s) n va → va ≠ 0 →
  (∀ a, a ∈ P' ↔ a = va ∨ a ∈ P) →
  let w1 := mkW (w_h w) (w_live w) (<[va := n]> (w_out w)) (w_xs w) (w_own w) (<[va := RPriv i]> (w_role w)) in
  during i 0 (set_out (<[va := n]> (out s)) s) w w1 false P' S ∧ w_out w !! va = None.
Proof using Hinv.
  intros Hi Hd Hn Hg Hva HP w1. rewrite <- (in_out _ _ Hinv) in Hg. destruct (give_step w (in_core _ _ Hinv) i va n Hn Hg) as [Hc Hm]. split.
  - constructor; [|apply Hinv]. constructor; try done; [apply Hd| |apply Hinv|cbn; by rewrite (in_out _ _ Hinv)]. by eapply holds_gain; [apply Hd|..].
  - destruct (w_out w !! va) as [m|] eqn:Ho; [exfalso|done]. destruct Hg as (_ & _ & _ & Hap).
    pose proof (out_range w (in_core _ _ Hinv) va m Ho). destruct (Hap va m Ho); lia.
Qed.

Lemma during_taken i d P P' S va : 0 ≤ i → during i 0 s w w false P S → va ∈ P → (∀ a, a ∈ P' ↔ a ≠ va ∧ a ∈ P) →
  let w1 := mkW (w_h w) (w_live w) (delete va (w_out w)) (w_xs w) (w_own w) (delete va (w_role w)) in
  during i d (set_out (delete va (out s)) s) w w1 false P' S.
Proof using Hinv.
  intros Hi Hd Hva HP w1. destruct (drop_step w (in_core _ _ Hinv) i d va) as [Hc Hm]; [by apply (proj1 (du_holds _ _ _ _ _ _ _ _ Hd))|].
  constructor; [|apply Hinv]. constructor; try done; [apply Hd| |apply Hinv|cbn; by rewrite (in_out _ _ Hinv)]. by eapply holds_drop; [apply Hd|..].
Qed.

Lemma no_page i sz p P S : thr s !! i = Some (CMalloc sz p) → during i 0 s w w false P S →
  during i 0 (set_out (out s) s) w w false P S.
Proof using. intros _ [[H1 H2 H3 H4 H5 H6] Hb]. by constructor. Qed.

Lemma answered i va : allowed s (EAlloc i va) → roomy (kheaproots (hp s)) →
  ∃ s', run (EAlloc i va) s = Some s' ∧ stepped s w (EAlloc i va) s'.
Proof using Hinv.
  cbn [allowed run]. intros Hal Hroom. destruct (thr s !! i) as [[sz p|p]|] eqn:Hthr; [|done|done]. destruct p as [| |n k| |]; try done.
  destruct (stopped _ _ Hthr) as (P & S & Hi & Hs & Hd). apply malloc_stepped; [|done]. cbn [hp set_out]. rewrite <- (in_h _ _ Hinv) in *.
  assert (1 ≤ n) as Hn by (inversion Hs; subst; lia).
  destruct (Z.eqb_spec va 0) as [->|Hva].
  - pose proof (no_page _ _ _ _ _ Hthr Hd) as Hd0. inversion Hs; subst.
    + unfold twp. cbn. by apply (malloc_fails s w Hinv i Hi (set_out (out s) s) eq_refl).
    + by apply (refpage_fails s w Hinv i Hi (set_out (out s) s) eq_refl).
    + unfold twp. cbn. by apply (malloc_fails s w Hinv i Hi (set_out (out s) s) eq_refl).
  - destruct Hal as [?|Hgive]; [done|].
    destruct (during_given i n va P (P ++ [va]) S Hi Hd Hn Hgive Hva) as [Hd1 Hfresh]; [set_solver|].
    set (s0 := set_out _ s) in Hd1 |- *. set (w1 := mkW _ _ _ _ _ _) in Hd1. change (w_h w) with (w_h w1). inversion Hs; subst.
    + apply (page_good s w Hinv i Hi s0 eq_refl t sz label ltac:(done)); [done|apply lookup_insert_eq|done].
    + assert (pg ≠ va) as Hne by congruence.
      apply (refpage_good s w Hinv i Hi s0 eq_refl t sz label ltac:(done)); try done; [by cbn; rewrite lookup_insert_ne|apply lookup_insert_eq].
    + by apply (big_good s w Hinv i Hi s0 sz n va w1 eq_refl Hd1); [apply lookup_insert_eq|].
Qed.

Lemma freed i : allowed s (EFreed i) → ∃ s', run (EFreed i) s = Some s' ∧ stepped s w (EFreed i) s'.
Proof using Hinv.
  cbn [allowed run]. intros Hal. destruct (thr s !! i) as [[sz p|p]|] eqn:Hthr; [| |done]; destruct p as [| | |va k|]; try done;
    destruct (stopped _ _ Hthr) as (P & S & Hi & Hs & Hd); inversion Hs; subst.
  - apply malloc_stepped; [|done]. cbn [hp set_out]. rewrite <- (in_h _ _ Hinv).
    pose proof (during_taken i 0 [pg; va] [pg] _ va Hi Hd ltac:(set_solver) ltac:(set_solver)) as Hd1.
    set (s0 := set_out _ s) in Hd1 |- *. set (w1 := mkW _ _ _ _ _ _) in Hd1. change (w_h w) with (w_h w1).
    apply (extra_good s w Hinv i Hi s0 eq_refl t sz label ltac:(done) pg k0 j r); try done. cbn. by rewrite lookup_delete_ne.
  - apply malloc_stepped; [|done]. cbn [hp set_out]. rewrite <- (in_h _ _ Hinv).
    pose proof (during_taken i 0 [va] [] _ va Hi Hd ltac:(set_solver) ltac:(set_solver)) as Hd1.
    by apply (malloc_fails s w Hinv i Hi (set_out _ s) eq_refl sz _ Hd1).
  - apply (free_stepped i 0); [|done]. cbn [hp set_out]. rewrite <- (in_h _ _ Hinv).
    pose proof (during_taken i 0 [va] [] _ va Hi Hd ltac:(set_solver) ltac:(set_solver)) as Hd1.
    by apply (check_again_good s w Hinv i Hi 0 (set_out _ s) _ eq_refl Hd1).
  - apply (free_stepped i 0); [|done]. cbn [hp set_out]. rewrite <- (in_h _ _ Hinv).
    pose proof (during_taken i 0 [va] [] _ va Hi Hd ltac:(set_solver) ltac:(set_solver)) as Hd1.
    by apply (free_returns s w Hinv i Hi (set_out _ s) eq_refl 0 _ Hd1).
Qed.

Lemma yielded i : allowed s (EYield i) → ∃ s', run (EYield i) s = Some s' ∧ stepped s w (EYield i) s'.
Proof using Hinv.
  cbn [allowed run]. intros Hal. destruct (thr s !! i) as [[sz p|p]|] eqn:Hthr; [done| |done]; destruct p as [| | | |k]; try done.
  destruct (stopped _ _ Hthr) as (P & S & Hi & Hs & Hd); inversion Hs; subst.
  apply (free_stepped i 0); [|done]. rewrite <- (in_h _ _ Hinv). by apply (check_again_good s w Hinv i Hi 0 s w eq_refl Hd).
Qed.

Lemma written a v : allowed s (EWrite a v) → ∃ s', run (EWrite a v) s = Some s' ∧ stepped s w (EWrite a v) s'.
Proof using Hinv.
  cbn [allowed run]. intros (ptr & sz & Hl & Ha). pose proof Hl as Hl0. rewrite <- (in_live _ _ Hinv) in Hl.
  destruct (write_step w ptr sz a v (in_core _ _ Hinv) Hl Ha) as [Hc Hm]. set (w' := mkW _ _ _ _ _ _) in Hc, Hm.
  eexists. split; [done|]. exists w', (-1), ptr. split_and!; [|done|by exists sz].
  constructor; try done; try apply Hinv; [cbn; by rewrite (in_h _ _ Hinv)|].
  intros i Hi. destruct (in_thr _ _ Hinv i Hi) as (P & S & Hs & Hh). exists P, S. split; [|done].
  by apply (at_stop_frame (-1) ptr w w' i); [|lia|..].
Qed.

(** Every allowed step is taken, and the invariant holds after it. *)
Lemma step_ok e : allowed s e → roomy (kheaproots (hp s)) → ∃ s', run e s = Some s' ∧ stepped s w e s'.
Proof using Hinv.
  destruct e; [by eauto using start_malloc|by eauto using start_free|by apply answered|by eauto using freed|by eauto using yielded
    |by eauto using written].
Qed.
End step.

(** ** The states that are reached *)

Lemma no_owner k j : ¬ taken ∅ k j.
Proof. unfold taken. rewrite lookup_empty. by intros [? ?]. Qed.

Lemma start_root k r : znth (kheaproots heap_start) k = Some r → r = mkRoot 0 (replicate 8 0) 0.
Proof. intros Hr%znth_elem. by apply elem_of_replicate in Hr as [-> _]. Qed.

Lemma inv_sys_start : inv sys_start (mkW heap_start ∅ ∅ [] ∅ ∅).
Proof.
  constructor; try done; cbn [w_h w_live w_out w_xs w_own w_role].
  - constructor; cbn [w_h w_live w_out w_xs w_own w_role]; try done.
    + constructor; try done; [|apply NoDup_nil_2|apply NoDup_nil_2|by intros ? ?%elem_of_nil..].
      intros t Ht. exists 0. split; [|done]. apply znth_replicate. unfold is_type in Ht. lia.
    + constructor; try done.
      * intros k r ->%start_root. constructor; try done; [apply zeros_ok| |by left].
        intros j Hj. cbn [pagerefs_inuse]. rewrite wbit_zeros. symmetry. apply bool_decide_eq_false, no_owner.
      * intros k j []%no_owner.
      * intros k j k' r []%no_owner.
      * intros k k' r r' ->%start_root. done.
    + by intros x ?%elem_of_nil.
    + intros a. rewrite lookup_empty. split; [done|]. by intros [? ?].
    + intros a. rewrite lookup_empty. by intros [|].
    + intros a. rewrite lookup_empty. split; [done|]. by intros ?%elem_of_nil.
    + intros a. rewrite lookup_empty. split; [done|]. intros [Ha Hin]. exfalso. apply Ha.
      apply list_elem_of_fmap in Hin as (r & -> & [-> _]%elem_of_replicate). done.
    + by intros x b csz ?%elem_of_nil.
  - intros i Hi. exists [], None. split; [constructor|]. split; [|done]. intros a. cbn. rewrite lookup_empty. split; [done|].
    by intros ?%elem_of_nil.
  - by intros x ?%elem_of_nil.
Qed.

Lemma reaches_inv s : reaches s → roomy (kheaproots (hp s)) ∧ ∃ w, inv s w.
Proof.
  induction 1 as [|s e s' Hs [Hroom [w Hw]] He Hrun Hroom'].
  - split; [|eexists; apply inv_sys_start]. by intros k r ->%start_root _.
  - split; [done|]. destruct (step_ok s w Hw e He Hroom) as (s'' & Hrun' & w' & i & d & Hw' & _). exists w'. congruence.
Qed.

(** ** Runs that can be computed *)

Definition may_giveb (o : gmap Z Z) (n va : Z) : bool :=
  (va mod 4096 =? 0) && (KSEG0 <=? va) && (va + n * 4096 <=? KSEG1) &&
  forallb (λ '(a, m), (a + m * 4096 <=? va) || (va + n * 4096 <=? a)) (map_to_list o).

Definition allowedb (s : sys) (e : event) : bool :=
  match e with
  | EMalloc i sz _ => (0 <=? i) && bool_decide (is_Some (thr s !! i) → False) && (0 <=? sz) && (sz <? 2 ^ 31)
  | EKfree i ptr => (0 <=? i) && bool_decide (is_Some (thr s !! i) → False) && bool_decide (ptr = 0 ∨ is_Some (live s !! ptr))
  | EAlloc i va =>
      match thr s !! i with
      | Some (CMalloc _ (AllocK n _)) => (va =? 0) || may_giveb (out s) n va
      | _ => false
      end
  | EFreed i =>
      match thr s !! i with
      | Some (CMalloc _ (FreeK _ _)) | Some (CFree (FreeK _ _)) => true
      | _ => false
      end
  | EYield i => match thr s !! i with Some (CFree (Yield _)) => true | _ => false end
  | EWrite a v => existsb (λ '(ptr, sz), (ptr <=? a) && (a <? ptr + sz)) (map_to_list (live s))
  end.

Lemma may_giveb_ok o n va : may_giveb o n va = true → may_give o n va.
Proof.
  unfold may_giveb. rewrite !andb_true_iff, forallb_forall. intros [[[H1%Z.eqb_eq H2%Z.leb_le] H3%Z.leb_le] H4]. split_and!; try done.
  intros a m Ha%elem_of_map_to_list%list_elem_of_In. apply H4 in Ha. apply orb_true_iff in Ha as [?%Z.leb_le|?%Z.leb_le]; lia.
Qed.

Lemma allowedb_ok s e : allowedb s e = true → allowed s e.
Proof.
  destruct e; cbn [allowedb allowed].
  - rewrite !andb_true_iff. intros [[[H1%Z.leb_le H2%bool_decide_eq_true] H3%Z.leb_le] H4%Z.ltb_lt]. split_and!; try done.
    by apply eq_None_not_Some.
  - rewrite !andb_true_iff. intros [[H1%Z.leb_le H2%bool_decide_eq_true] H3%bool_decide_eq_true]. split_and!; try done.
    by apply eq_None_not_Some.
  - destruct (thr s !! i) as [[sz p|p]|]; [|done|done]. destruct p; try done. intros [->%Z.eqb_eq|?%may_giveb_ok]%orb_true_iff; auto.
  - destruct (thr s !! i) as [[sz p|p]|]; [| |done]; by destruct p.
  - destruct (thr s !! i) as [[sz p|p]|]; [done| |done]; by destruct p.
  - intros ([ptr sz] & Hin & [H1%Z.leb_le H2%Z.ltb_lt]%andb_true_iff)%existsb_exists. exists ptr, sz. split; [|done].
    by apply elem_of_map_to_list, list_elem_of_In.
Qed.

Definition roomyb (rs : list kheap_root) : bool := forallb (λ r, negb (page r =? 0) || (numinuse r <? 256)) rs.

Lemma roomyb_ok rs : roomyb rs = true → roomy rs.
Proof.
  unfold roomyb. rewrite forallb_forall. intros H k r Hr%znth_elem%list_elem_of_In Hp. apply H in Hr. rewrite Hp in Hr. by apply Z.ltb_lt.
Qed.

Fixpoint plays (es : list event) (s : sys) : option sys :=
  match es with
  | [] => Some s
  | e :: es' =>
      if allowedb s e then
        match run e s with
        | Some s' => if roomyb (kheaproots (hp s')) then plays es' s' else None
        | None => None
        end
      else None
  end.

Lemma plays_reaches es s s' : reaches s → plays es s = Some s' → reaches s'.
Proof.
  revert s. induction es as [|e es IH]; intros s Hs; cbn [plays]; [by intros [= <-]|]. destruct (allowedb s e) eqn:He; [|done].
  destruct (run e s) as [s1|] eqn:Hr; [|done]. destruct (roomyb _) eqn:Hroom; [|done]. apply IH.
  eapply reaches_step; [done|by apply allowedb_ok|done|by apply roomyb_ok].
Qed.

Definition after (es : list event) : sys := default sys_start (plays es sys_start).

Lemma after_reaches es : reaches (after es).
Proof. unfold after. destruct (plays es sys_start) as [s|] eqn:H; [by eapply plays_reaches, H; constructor|constructor]. Qed.


(** ** The theorems *)









(** ** Defects *)

(** A computation that only reads. *)
Definition reads {A} (m : M heap A) : Prop := ∀ h a h', m h = Done (a, h') → h' = h.

Lemma reads_bind {A B} (m : M heap A) (f : A → M heap B) : reads m → (∀ a, reads (f a)) → reads (m ≫= f).
Proof.
  intros Hm Hf h b h'. unfold mbind, M_bind. destruct (m h) as [[a h1]|] eqn:Ha; [|done]. apply Hm in Ha as ->. apply Hf.
Qed.

Lemma panics_later {A B} (m : M heap A) (f : A → M heap B) h : reads m → (∀ a, f a h = Panic) → (m ≫= f) h = Panic.
Proof. intros Hm Hf. unfold mbind, M_bind. destruct (m h) as [[a h1]|] eqn:Ha; [|done]. apply Hm in Ha as ->. apply Hf. Qed.

Lemma panics_first {A B} (m : M heap A) (f : A → M heap B) h : m h = Panic → (m ≫= f) h = Panic.
Proof. intros Hm. unfold mbind, M_bind. by rewrite Hm. Qed.

Create HintDb reads.
Lemma reads_ret {A} (a : A) : reads (mret a).
Proof. by intros h a' h' [= _ <-]. Qed.
Lemma reads_gets {A} (f : heap → A) : reads (gets f).
Proof. by intros h a h' [= _ <-]. Qed.
Lemma reads_deref {A} (o : option A) : reads (deref o).
Proof. destruct o; [apply reads_ret|done]. Qed.
Lemma reads_KASSERT b : reads (KASSERT b).
Proof. destruct b; [apply reads_ret|done]. Qed.
#[local] Hint Resolve reads_ret reads_gets reads_deref reads_KASSERT reads_bind : reads.

Lemma reads_load32 a : reads (load32 a).
Proof. unfold load32. auto with reads. Qed.
Lemma reads_load_ref p : reads (load_ref p).
Proof. unfold load_ref. auto with reads. Qed.
#[local] Hint Resolve reads_load32 reads_load_ref : reads.

Lemma reads_mark_freelist fuel pg bs fl ws : reads (mark_freelist fuel pg bs fl ws).
Proof.
  revert fl ws. induction fuel as [|fuel IH]; intros fl ws; cbn [mark_freelist]; [done|]. destruct (fl =? 0); [auto with reads|].
  unfold bit_set. auto 10 with reads.
Qed.

Lemma reads_dump_blocks n i pg bs g ws : reads (dump_blocks n i pg bs g ws).
Proof.
  revert i. induction n as [|n IH]; intros i; cbn [dump_blocks]; [auto with reads|]. unfold bit_isset.
  apply reads_bind; [auto with reads|]. intros b. apply reads_bind; [|auto with reads].
  destruct b; [auto with reads|]. apply reads_bind; [auto with reads|]. intros gen. destruct (negb _); auto with reads.
Qed.

Lemma reads_dump_subpage p g : reads (dump_subpage p g).
Proof. unfold dump_subpage, blocksize_of. auto 10 using reads_mark_freelist, reads_dump_blocks with reads. Qed.
Lemma reads_dump_list fuel p g : reads (dump_list fuel p g).
Proof.
  revert p. induction fuel as [|fuel IH]; intros p; cbn [dump_list]; [done|]. destruct (p =? 0); [auto with reads|].
  auto 10 using reads_dump_subpage with reads.
Qed.

(** [dump_subpage] takes the mark for an empty free list as the offset of a block. *)
Lemma dump_full_page x pr g h : page_shape x → refs h !! hp_ref x = Some pr → ref_of x pr → hp_free x = [] →
  dump_subpage (hp_ref x) g h = Panic.
Proof.
  intros Hx Hpr [Hpage Htype Hoff _] Hf. rewrite Hf in Hoff. destruct (ps_range _ Hx) as [Hlo Hhi]. unfold dump_subpage.
  rewrite (bind_run _ _ pr h) by (by apply (wp_load_ref h _ pr)). rewrite Htype.
  rewrite (bind_run _ _ (size (hp_type x)) h) by (by apply wp_blocksize_of; [apply Hx|]). rewrite Hpage, Hoff.
  assert (w32 (hp_page x + INVALID_OFFSET) = hp_page x + 65535) as -> by (unfold w32, INVALID_OFFSET, KSEG0, KSEG1 in *; rewrite Z.mod_small; lia).
  apply panics_first. change (Z.to_nat (MAXBLOCKS + 1)) with (S 256). cbn [mark_freelist].
  destruct (Z.eqb_spec (hp_page x + 65535) 0) as [?|_]; [unfold KSEG0 in Hlo; lia|].
  replace (w32 (hp_page x + 65535 - hp_page x)) with 65535 by (by rewrite Z.add_simpl_l).
  assert (load32 (hp_page x + 65535) h = Panic) as Hload.
  { unfold load32. assert ((hp_page x + 65535) mod 4 =? 0 = false) as -> by (pose proof (ps_align _ Hx); Z.to_euclidean_division_equations; lia). done. }
  destruct (decide (hp_type x = 7)) as [->|Hne].
  - rewrite (bind_run _ _ [2 ^ 31] h) by done. by apply panics_first.
  - apply panics_first, panics_first. destruct (type_cases _ (ps_type _ Hx)) as [E|[E|[E|[E|[E|[E|[E|E]]]]]]]; rewrite E; done.
Qed.

Lemma dump_list_full h xs fuel head ys g : heap_ok h xs → chain next_samesize (refs h) head (hp_ref <$> ys) →
  (∀ y, y ∈ ys → y ∈ xs) → (∃ x, x ∈ ys ∧ hp_free x = []) → dump_list fuel head g h = Panic.
Proof.
  intros Hh. revert head ys. induction fuel as [|fuel IH]; intros head ys Hc Hys (x & Hx & Hf); [done|]. cbn [dump_list].
  destruct ys as [|y ys]; [by apply elem_of_nil in Hx|]. destruct Hc as (-> & Hp & pr & Hpr & Hc). rewrite (proj2 (Z.eqb_neq _ _) Hp).
  destruct (decide (x = y)) as [->|Hne].
  - apply panics_first. destruct (hk_ref _ _ Hh y) as (pr' & Hpr' & Href); [apply Hys; left|].
    by eapply dump_full_page; [apply Hh, Hys; left|..].
  - apply panics_later; [apply reads_dump_subpage|]. intros l. rewrite (bind_run _ _ pr h) by (by apply (wp_load_ref h _ pr)).
    apply panics_first, (IH _ ys); [done|intros z Hz; apply Hys; by right|]. exists x. split; [set_solver|done].
Qed.

(** [kheap_dump] panics whenever a page of the heap has no free block: it follows the offset of the first free block
    without testing it for the mark that says there is none, so it reads a list that is not there. *)
Theorem dump_panics_when_full h xs x : heap_ok h xs → klock h = false → x ∈ xs → hp_free x = [] → kheap_dump h = Panic.
Proof.
  intros Hh Hk Hx Hf. unfold kheap_dump. rewrite (bind_run _ _ tt (set_klock true h)) by (by apply wp_klock_acquire).
  rewrite (bind_run _ _ (mallocgeneration h) (set_klock true h)) by done. apply panics_first. apply (heap_ok_klock _ _ true) in Hh.
  set (g := mallocgeneration h). assert (∀ ts, hp_type x ∈ ts → (∀ t, t ∈ ts → is_type t) → dump_subpages ts g (set_klock true h) = Panic) as Hall.
  { induction ts as [|t ts IH]; intros Hin Hts; [by apply elem_of_nil in Hin|]. cbn [dump_subpages].
    destruct (hk_same _ _ Hh t) as (b & Hb & Hc); [apply Hts; left|].
    rewrite (bind_run _ _ b (set_klock true h)) by (unfold get_sizebase; wp_go; by eapply wp_deref).
    destruct (decide (hp_type x = t)) as [<-|Hne].
    - apply panics_first, (dump_list_full _ xs _ _ (of_type (hp_type x) xs)); [done|done|by intros y [_ ?]%list_elem_of_filter|].
      exists x. split; [by apply list_elem_of_filter|done].
    - apply panics_later; [apply reads_dump_list|]. intros l. apply panics_first, IH; [set_solver|]. intros t' Ht'. apply Hts. by right. }
  pose proof (ps_type _ (hk_shape _ _ Hh x Hx)) as Ht. unfold is_type in *. apply Hall.
  - apply elem_of_seqZ. unfold NSIZES. lia.
  - intros t ?%elem_of_seqZ. unfold NSIZES in *. lia.
Qed.

(** Two blocks of 2000 bytes fill a page. *)
Definition two_blocks : list event := [EMalloc 0 2000 7; EAlloc 0 KSEG0; EAlloc 0 (KSEG0 + 4096); EMalloc 0 2000 7].

Lemma dump_panics_when_full_witness : kheap_dump (hp (after two_blocks)) = Panic.
Proof.
  destruct (proj2 (reaches_inv _ (after_reaches two_blocks))) as [w Hw]. pose proof (co_heap _ (in_core _ _ Hw)) as Hh. rewrite (in_h _ _ Hw) in Hh.
  pose proof (hk_all _ _ Hh) as Hc. destruct (w_xs w) as [|x xs]; [exfalso; vm_compute in Hc; discriminate Hc|]. destruct Hc as [Hx _].
  destruct (hk_ref _ _ Hh x ltac:(left)) as (pr & Hpr & Href). rewrite <- Hx in Hpr.
  assert (nfree <$> refs (hp (after two_blocks)) !! allbase (hp (after two_blocks)) = Some 0) as Hn by (vm_compute; reflexivity).
  rewrite Hpr in Hn. injection Hn as Hn. rewrite (ro_nfree _ _ Href) in Hn.
  apply (dump_panics_when_full (hp (after two_blocks)) (x :: xs) x); [exact Hh|vm_compute; reflexivity|left|].
  destruct (hp_free x); [reflexivity|discriminate Hn].
Defined.

(** A slot is lost for good when the page for its pagerefs cannot be had: at the end of the failed call nothing is live
    and every page has been given back, but the slot is still counted as in use.  This is why the states that are reached
    are those in which a root without a page still has a free slot. *)
Lemma failed_call_keeps_slot : let s := after [EMalloc 0 100 7; EAlloc 0 KSEG0; EAlloc 0 0; EFreed 0] in
  live s = ∅ ∧ thr s = ∅ ∧ out s = ∅ ∧ (λ r, (page r, numinuse r)) <$> znth (kheaproots (hp s)) 0 = Some (0, 1).
Proof. cbv zeta. split_and!; vm_compute; reflexivity. Qed.

End KmallocTheorems.
