(* ===== verification/KernelHeap.v ===== *)
(** * The kernel heap on the page allocator (kern/vm/kmalloc.c on kern/arch/mips/vm/vm.c)

    What the heap needs from a page allocator is an interface.  The heap over any allocator
    that keeps it never panics and never makes the allocator panic; the coremap with
    eviction is such an allocator. *)

From Stdlib Require Import ZArith Lia.
From stdpp Require Import base numbers list gmap.
From S2P Require Import Prelude Coremap PageTable Swap Tlb Vm VmPages VmEvict VmFault VmTheorems.
From S2P Require Import Kmalloc KmallocMem KmallocPages KmallocHeap KmallocRoots KmallocSystem KmallocSteps.
From S2P Require Import KmallocThreads KmallocCalls KmallocTheorems.

Module KernelHeap.
Import Coremap(PAGE_SIZE, KSEG0).
Import Kmalloc KmallocMem KmallocPages KmallocHeap KmallocRoots KmallocSystem KmallocSteps KmallocThreads KmallocCalls KmallocTheorems.

(** ** The interface *)

(** A page allocator: its two calls, what else may happen to it between them, and which runs of pages
    it has given out. *)
Class PageAllocator (S : Type) := {
  pa_alloc : Z → M S Z;
  pa_free : Z → M S unit;
  pa_other : M S unit;
  pa_runs : S → gmap Z Z → Prop;
}.

Class PageAllocatorLaws (S : Type) `{PageAllocator S} := {
  pa_alloc_ok s o n : pa_runs s o → 1 ≤ n →
    wp (pa_alloc n) (λ va s', va = 0 ∧ pa_runs s' o ∨ may_give o n va ∧ pa_runs s' (<[va := n]> o)) s;
  pa_free_ok s o va n : pa_runs s o → o !! va = Some n → wp (pa_free va) (λ _ s', pa_runs s' (delete va o)) s;
  pa_other_ok s o : pa_runs s o → wp pa_other (λ _ s', pa_runs s' o) s;
}.

(** ** The heap on an allocator *)

Section client.
Context {S : Type} `{PageAllocator S}.


















Context `{!PageAllocatorLaws S}.




End client.

(** ** The coremap is such an allocator *)

Section coremap.
Context {page : Type} (cur : option positive).

(** The machine can reach all its memory through KSEG0, and no address space is locked. *)
Definition vm_runs (s : Vm.vm page) (o : gmap Z Z) : Prop :=
  ∃ K, VmEvict.inv K cur s ∧ VmEvict.no_locked_owner s ∧ Coremap.last_page (Vm.cm s) ≤ 2 ^ 17 ∧
    ∀ a n, o !! a = Some n ↔ ∃ st, a = VmEvict.kva st ∧ K !! st = Some n.

#[export] Instance vm_allocator : PageAllocator (Vm.vm page) := {|
  pa_alloc := Vm.alloc_kpages;
  pa_free va := Vm.in_cm (Coremap.free_kpages va);
  pa_other := Vm.evict_one ;; mret tt;
  pa_runs := vm_runs;
|}.

Lemma kva_inj st st' : VmEvict.kva st = VmEvict.kva st' → st = st'.
Proof. unfold VmEvict.kva, Coremap.PADDR_TO_KVADDR, Coremap.PPAGE_TO_PADDR, Coremap.PAGE_SIZE. lia. Qed.

#[export] Instance vm_allocator_laws : PageAllocatorLaws (Vm.vm page).
Proof.
  constructor; cbn [pa_alloc pa_free pa_other pa_runs vm_allocator].
  - intros s o n (K & Hinv & Hl & Hlast & Ho) Hn. eapply wp_mono; [|apply (VmEvict.alloc_kpages_correct K cur s n); [done|lia|by left]].
    intros va s' [Hpg [(-> & Hinv' & _)|(st & -> & HK & Hlo & Hhi & Hinv')]]; [left|right].
    { split; [done|]. exists K. split_and!; [done|by eapply VmEvict.no_locked_paged|by rewrite (VmEvict.pg_last _ _ Hpg)|done]. }
    assert (∀ a m, o !! a = Some m → ∃ st', a = VmEvict.kva st' ∧ K !! st' = Some m) as Ho' by (intros; by apply Ho).
    pose proof (VmEvict.i_first _ _ _ Hinv) as [Hfirst _]. split.
    + unfold may_give. split_and!; try (unfold VmEvict.kva, Coremap.PADDR_TO_KVADDR, Coremap.PPAGE_TO_PADDR, Coremap.PAGE_SIZE, Coremap.KSEG0, KSEG1; lia).
      { unfold VmEvict.kva, Coremap.PADDR_TO_KVADDR, Coremap.PPAGE_TO_PADDR, Coremap.PAGE_SIZE, Coremap.KSEG0.
        Z.to_euclidean_division_equations. lia. }
      intros a m (st' & -> & Hst')%Ho'. assert (st ≠ st') as Hne by congruence.
      destruct (VmEvict.kernel_disjoint (<[st := n]> K) cur s' st n st' m Hinv') as [?|?]; [apply lookup_insert_eq|by rewrite lookup_insert_ne|done|..];
        unfold VmEvict.kva, Coremap.PADDR_TO_KVADDR, Coremap.PPAGE_TO_PADDR, Coremap.PAGE_SIZE; lia.
    + exists (<[st := n]> K). split_and!; [done|by eapply VmEvict.no_locked_paged|by rewrite (VmEvict.pg_last _ _ Hpg)|].
      intros a m. rewrite lookup_insert_Some. split.
      * intros [[<- <-]|[Hne (st' & -> & Hst')%Ho']]; [exists st; by rewrite lookup_insert_eq|]. exists st'. split; [done|].
        rewrite lookup_insert_ne; [done|]. by intros ->.
      * intros (st' & -> & [[<- <-]|[Hne Hst']]%lookup_insert_Some); [by left|right]. split; [by intros ?%kva_inj|]. apply Ho. eauto.
  - intros s o va n (K & Hinv & Hl & Hlast & Ho) (st & -> & Hst)%Ho. eapply wp_mono; [|by apply (VmEvict.free_block_correct K cur s st n)].
    intros _ s' [Hinv' Hpg]. exists (delete st K). split_and!; [done|by eapply VmEvict.no_locked_paged|by rewrite (VmEvict.pg_last _ _ Hpg)|].
    intros a m. rewrite lookup_delete_Some. split.
    + intros [Hne (st' & -> & Hst')%Ho]. exists st'. split; [done|]. rewrite lookup_delete_ne; [done|]. by intros ->.
    + intros (st' & -> & [Hne Hst']%lookup_delete_Some). split; [by intros ?%kva_inj|]. apply Ho. eauto.
  - intros s o (K & Hinv & Hl & Hlast & Ho). apply wp_bind. eapply wp_mono; [|by apply (VmEvict.evict_one_correct K cur)].
    intros r s' (Hinv' & Hpg & _). apply wp_ret. exists K. split_and!; [done|by eapply VmEvict.no_locked_paged|by rewrite (VmEvict.pg_last _ _ Hpg)|done].
Qed.

End coremap.

#[local] Instance small_allocator : PageAllocator (Vm.vm Z) := vm_allocator (Some 1%positive).


End KernelHeap.
