(* ===== verification/Synch.v ===== *)
(** * Semaphores, locks and condition variables (kern/thread/synch.c)

    The synchronization primitives with the wait channels (kern/thread/thread.c)
    and spinlocks (kern/thread/spinlock.c) that they are built from.  A thread
    runs from where it takes a spinlock to where it gives it up, by returning or
    by going to sleep, without another thread seeing the state in between; these
    are the steps that the threads interleave.  A thread that sleeps resumes
    after [wchan_sleep] once another has woken it. *)

From Stdlib Require Import ZArith Lia.
From stdpp Require Import base numbers list gmap.
From S2P Require Import Prelude.

Module Synch.

Abbreviation tid := positive (only parsing).

(** The objects that have a spinlock and a wait channel. *)
Inductive obj := OSem (m : positive) | OLock (l : positive) | OCv (c : positive).

#[export] Instance obj_eq_dec : EqDecision obj.
Proof. solve_decision. Defined.
#[export] Instance obj_countable : Countable obj.
Proof.
  apply (inj_countable'
    (λ o, match o with OSem m => inl m | OLock l => inr (inl l) | OCv c => inr (inr c) end)
    (λ s, match s with inl m => OSem m | inr (inl l) => OLock l | inr (inr c) => OCv c end)).
  by intros [].
Defined.

(** Where a thread sleeps, that is, where it goes on. *)
Inductive cont := KP (m : positive) | KAcquire (l : positive) | KWait (c l : positive).

Definition obj_of (k : cont) : obj :=
  match k with KP m => OSem m | KAcquire l => OLock l | KWait c _ => OCv c end.

#[export] Instance cont_eq_dec : EqDecision cont.
Proof. solve_decision. Defined.

(** Running, asleep, or made runnable again. *)
Inductive tstate := S_RUN | S_SLEEP (k : cont) | S_READY (k : cont).

#[export] Instance tstate_eq_dec : EqDecision tstate.
Proof. solve_decision. Defined.

(** [spinlocks] is [c_spinlocks] of the processor that runs the thread. *)
Record thread := mkThread { t_state : tstate; spinlocks : Z }.

Record sys := mkSys {
  splk : gmap obj (option tid);
  wchan : gmap obj (list tid);
  sem_count : gmap positive Z;
  lk_holder : gmap positive (option tid);
  threads : gmap tid thread;
}.

Definition set_splk x (s : sys) := mkSys x (wchan s) (sem_count s) (lk_holder s) (threads s).
Definition set_wchan x (s : sys) := mkSys (splk s) x (sem_count s) (lk_holder s) (threads s).
Definition set_count x (s : sys) := mkSys (splk s) (wchan s) x (lk_holder s) (threads s).
Definition set_holders x (s : sys) := mkSys (splk s) (wchan s) (sem_count s) x (threads s).
Definition set_threads x (s : sys) := mkSys (splk s) (wchan s) (sem_count s) (lk_holder s) x.

Definition get_thread (t : tid) : M sys thread := o ← gets (λ s, threads s !! t); deref o.
Definition put_thread (t : tid) (x : thread) : M sys unit :=
  modify (λ s, set_threads (<[t := x]> (threads s)) s).
Definition get_wchan (o : obj) : M sys (list tid) := w ← gets (λ s, wchan s !! o); deref w.
Definition put_wchan (o : obj) (w : list tid) : M sys unit :=
  modify (λ s, set_wchan (<[o := w]> (wchan s)) s).
Definition get_count (m : positive) : M sys Z := c ← gets (λ s, sem_count s !! m); deref c.
Definition put_count (m : positive) (c : Z) : M sys unit :=
  modify (λ s, set_count (<[m := c]> (sem_count s)) s).
Definition get_holder (l : positive) : M sys (option tid) :=
  h ← gets (λ s, lk_holder s !! l); deref h.
Definition put_holder (l : positive) (h : option tid) : M sys unit :=
  modify (λ s, set_holders (<[l := h]> (lk_holder s)) s).

(** ** Spinlocks *)

Definition spinlock_do_i_hold (o : obj) (t : tid) : M sys bool :=
  h ← gets (λ s, splk s !! o); h ← deref h; mret (bool_decide (h = Some t)).

(** The loop ends when the lock is free; a step of a thread starts then. *)
Definition spinlock_acquire (o : obj) (t : tid) : M sys unit :=
  h ← gets (λ s, splk s !! o); h ← deref h;
  KASSERT (bool_decide (h = None)) ;;
  x ← get_thread t;
  put_thread t (mkThread (t_state x) (spinlocks x + 1)) ;;
  modify (λ s, set_splk (<[o := Some t]> (splk s)) s).

Definition spinlock_release (o : obj) (t : tid) : M sys unit :=
  b ← spinlock_do_i_hold o t;
  KASSERT b ;;
  x ← get_thread t;
  KASSERT (spinlocks x >? 0) ;;
  put_thread t (mkThread (t_state x) (spinlocks x - 1)) ;;
  modify (λ s, set_splk (<[o := None]> (splk s)) s).

(** ** Wait channels *)

Definition thread_make_runnable (t : tid) : M sys unit :=
  x ← get_thread t;
  match t_state x with
  | S_SLEEP k => put_thread t (mkThread (S_READY k) (spinlocks x))
  | _ => panic
  end.

(** Up to the point where [thread_switch] gives up the processor. *)
Definition wchan_sleep (k : cont) (t : tid) : M sys unit :=
  b ← spinlock_do_i_hold (obj_of k) t;
  KASSERT b ;;
  x ← get_thread t;
  KASSERT (spinlocks x =? 1) ;;
  w ← get_wchan (obj_of k);
  put_wchan (obj_of k) (w ++ [t]) ;;
  spinlock_release (obj_of k) t ;;
  x ← get_thread t;
  put_thread t (mkThread (S_SLEEP k) (spinlocks x)).

Definition wchan_wakeone (o : obj) (t : tid) : M sys unit :=
  b ← spinlock_do_i_hold o t;
  KASSERT b ;;
  w ← get_wchan o;
  match w with
  | [] => mret tt
  | target :: w' => put_wchan o w' ;; thread_make_runnable target
  end.

Fixpoint make_all_runnable (w : list tid) : M sys unit :=
  match w with
  | [] => mret tt
  | target :: w' => thread_make_runnable target ;; make_all_runnable w'
  end.

(** The threads are moved to a list of their own first. *)
Definition wchan_wakeall (o : obj) (t : tid) : M sys unit :=
  b ← spinlock_do_i_hold o t;
  KASSERT b ;;
  w ← get_wchan o;
  put_wchan o [] ;;
  make_all_runnable w.

(** ** The primitives, as thread [t] runs them *)

Definition set_state (t : tid) (st : tstate) : M sys unit :=
  x ← get_thread t; put_thread t (mkThread st (spinlocks x)).

(** From the test of the loop on. *)
Definition P_loop (m : positive) (t : tid) : M sys unit :=
  c ← get_count m;
  if c =? 0 then wchan_sleep (KP m) t else
  KASSERT (c >? 0) ;;
  put_count m (c - 1) ;;
  spinlock_release (OSem m) t ;;
  set_state t S_RUN.

Definition P (m : positive) (t : tid) : M sys unit :=
  spinlock_acquire (OSem m) t ;; P_loop m t.

(** The count is an unsigned int. *)
Definition V (m : positive) (t : tid) : M sys unit :=
  spinlock_acquire (OSem m) t ;;
  c ← get_count m;
  put_count m ((c + 1) mod 2 ^ 32) ;;
  c ← get_count m;
  KASSERT (c >? 0) ;;
  wchan_wakeone (OSem m) t ;;
  spinlock_release (OSem m) t.

Definition lock_acquire_loop (l : positive) (t : tid) : M sys unit :=
  h ← get_holder l;
  match h with
  | Some _ => wchan_sleep (KAcquire l) t
  | None =>
      put_holder l (Some t) ;;
      spinlock_release (OLock l) t ;;
      set_state t S_RUN
  end.

Definition lock_acquire (l : positive) (t : tid) : M sys unit :=
  spinlock_acquire (OLock l) t ;;
  h ← get_holder l;
  KASSERT (bool_decide (h ≠ Some t)) ;;
  lock_acquire_loop l t.

Definition lock_release (l : positive) (t : tid) : M sys unit :=
  spinlock_acquire (OLock l) t ;;
  h ← get_holder l;
  KASSERT (bool_decide (h = Some t)) ;;
  put_holder l None ;;
  wchan_wakeone (OLock l) t ;;
  spinlock_release (OLock l) t.

Definition lock_do_i_hold (l : positive) (t : tid) : M sys bool :=
  spinlock_acquire (OLock l) t ;;
  h ← get_holder l;
  spinlock_release (OLock l) t ;;
  mret (bool_decide (h = Some t)).

Definition cv_wait (c l : positive) (t : tid) : M sys unit :=
  spinlock_acquire (OCv c) t ;;
  lock_release l t ;;
  wchan_sleep (KWait c l) t.

Definition cv_signal (c : positive) (t : tid) : M sys unit :=
  spinlock_acquire (OCv c) t ;;
  wchan_wakeone (OCv c) t ;;
  spinlock_release (OCv c) t.

Definition cv_broadcast (c : positive) (t : tid) : M sys unit :=
  spinlock_acquire (OCv c) t ;;
  wchan_wakeall (OCv c) t ;;
  spinlock_release (OCv c) t.

(** A woken thread goes on after [wchan_sleep]: the end of it takes the spinlock
    again, then the caller continues. *)
Definition resume (t : tid) : M sys unit :=
  x ← get_thread t;
  match t_state x with
  | S_READY (KP m) => spinlock_acquire (OSem m) t ;; P_loop m t
  | S_READY (KAcquire l) => spinlock_acquire (OLock l) t ;; lock_acquire_loop l t
  | S_READY (KWait c l) =>
      spinlock_acquire (OCv c) t ;;
      spinlock_release (OCv c) t ;;
      set_state t S_RUN ;;
      lock_acquire l t
  | _ => panic
  end.

(** *** Creation and destruction

    The arguments say whether memory is available. *)

Definition sem_create (ok1 ok2 ok3 : bool) (initial_count : Z) : M sys (option positive) :=
  if negb ok1 then mret None else
  if negb ok2 then mret None else
  if negb ok3 then mret None else
  m ← gets (λ s, fresh (dom (sem_count s)));
  modify (λ s, mkSys (<[OSem m := None]> (splk s)) (<[OSem m := []]> (wchan s))
                 (<[m := initial_count]> (sem_count s)) (lk_holder s) (threads s)) ;;
  mret (Some m).

Definition lock_create (ok1 ok2 ok3 : bool) : M sys (option positive) :=
  if negb ok1 then mret None else
  if negb ok2 then mret None else
  if negb ok3 then mret None else
  l ← gets (λ s, fresh (dom (lk_holder s)));
  modify (λ s, mkSys (<[OLock l := None]> (splk s)) (<[OLock l := []]> (wchan s))
                 (sem_count s) (<[l := None]> (lk_holder s)) (threads s)) ;;
  mret (Some l).

(** [spinlock_cleanup] and the check of [wchan_destroy] that nobody waits. *)
Definition obj_cleanup (o : obj) : M sys unit :=
  h ← gets (λ s, splk s !! o); h ← deref h;
  KASSERT (bool_decide (h = None)) ;;
  w ← get_wchan o;
  KASSERT (bool_decide (w = [])) ;;
  modify (λ s, set_wchan (delete o (wchan s)) (set_splk (delete o (splk s)) s)).

Definition sem_destroy (m : positive) : M sys unit :=
  obj_cleanup (OSem m) ;;
  modify (λ s, set_count (delete m (sem_count s)) s).

Definition lock_destroy (l : positive) : M sys unit :=
  h ← get_holder l;
  KASSERT (bool_decide (h = None)) ;;
  obj_cleanup (OLock l) ;;
  modify (λ s, set_holders (delete l (lk_holder s)) s).

Definition cvs (s : sys) : gset positive :=
  list_to_set (omap (λ o, if o is OCv c then Some c else None) (elements (dom (splk s)))).

Definition cv_create (ok1 ok2 ok3 : bool) : M sys (option positive) :=
  if negb ok1 then mret None else
  if negb ok2 then mret None else
  if negb ok3 then mret None else
  c ← gets (λ s, fresh (cvs s));
  modify (λ s, mkSys (<[OCv c := None]> (splk s)) (<[OCv c := []]> (wchan s))
                 (sem_count s) (lk_holder s) (threads s)) ;;
  mret (Some c).

Definition cv_destroy (c : positive) : M sys unit := obj_cleanup (OCv c).

End Synch.
