(* ===== verification/SynchSystem.v ===== *)
(** * Threads that synchronize (theorems about kern/thread/synch.c)

    Any number of threads call the primitives in any order that is not a
    programming error.  Locks exclude each other, counts are exact, no wakeup is
    lost, and no assertion fails. *)

From Stdlib Require Import ZArith Lia.
From stdpp Require Import base numbers list gmap.
From S2P Require Import Prelude Synch.

Module SynchSystem.
Import Synch.

(** ** The effect of the parts of a step *)

Definition wake_thread (t : positive) (s : sys) : sys :=
  match threads s !! t with
  | Some (mkThread (S_SLEEP k) n) =>
      set_threads (<[t := mkThread (S_READY k) n]> (threads s)) s
  | _ => s
  end.

Definition do_wake (o : obj) (s : sys) : sys :=
  match wchan s !! o with
  | Some (t :: w) => wake_thread t (set_wchan (<[o := w]> (wchan s)) s)
  | _ => s
  end.

Definition do_wakeall (o : obj) (s : sys) : sys :=
  match wchan s !! o with
  | Some w => foldl (λ s t, wake_thread t s) (set_wchan (<[o := []]> (wchan s)) s) w
  | None => s
  end.

Definition do_state (t : positive) (st : tstate) (s : sys) : sys :=
  set_threads (<[t := mkThread st 0]> (threads s)) s.

Definition do_sleep (k : cont) (t : positive) (s : sys) : sys :=
  do_state t (S_SLEEP k)
    (set_wchan (<[obj_of k := default [] (wchan s !! obj_of k) ++ [t]]> (wchan s)) s).

(** The state while thread [t], [x] before, has the spinlock of [o]. *)
Definition held (o : obj) (t : positive) (x : thread) (s : sys) : sys :=
  mkSys (<[o := Some t]> (splk s)) (wchan s) (sem_count s) (lk_holder s)
    (<[t := mkThread (t_state x) (spinlocks x + 1)]> (threads s)).

Section rules.
Implicit Types (o : obj) (t : positive) (x : thread) (s : sys) (Q : unit → sys → Prop).

Lemma wp_spinlock_acquire o t x s Q :
  splk s !! o = Some None → threads s !! t = Some x → Q tt (held o t x s) →
  wp (spinlock_acquire o t) Q s.
Proof.
  intros Ho Ht HQ. unfold spinlock_acquire, get_thread, put_thread. wp_go.
  eapply wp_deref; [done|]. wp_check. eapply wp_deref; [done|]. by wp_go.
Qed.

Lemma wp_do_i_hold o t x s (Q : bool → sys → Prop) :
  Q true (held o t x s) → wp (spinlock_do_i_hold o t) Q (held o t x s).
Proof.
  intros HQ. unfold spinlock_do_i_hold. wp_go. eapply wp_deref; [apply lookup_insert_eq|].
  wp_go. by rewrite bool_decide_true.
Qed.

Lemma held_thread o t x s :
  threads (held o t x s) !! t = Some (mkThread (t_state x) (spinlocks x + 1)).
Proof. apply lookup_insert_eq. Qed.

Lemma wp_spinlock_release o t x s Q :
  splk s !! o = Some None → threads s !! t = Some x → 0 ≤ spinlocks x → Q tt s →
  wp (spinlock_release o t) Q (held o t x s).
Proof.
  intros Ho Ht Hx HQ. unfold spinlock_release, get_thread, put_thread. wp_go.
  apply wp_do_i_hold. wp_check. eapply wp_deref; [apply held_thread|].
  wp_go. apply wp_KASSERT; [simpl; lia|]. wp_go. unfold held, set_splk, set_threads. simpl.
  rewrite !insert_insert_eq. replace (spinlocks x + 1 - 1) with (spinlocks x) by lia.
  destruct x as [st n]. simpl in *. rewrite !insert_id by done. by destruct s.
Qed.

Lemma wp_set_state t x st s Q :
  threads s !! t = Some x → spinlocks x = 0 → Q tt (do_state t st s) →
  wp (set_state t st) Q s.
Proof.
  intros Ht Hx HQ. unfold set_state, get_thread, put_thread. wp_go. eapply wp_deref; [done|].
  wp_go. by rewrite Hx.
Qed.

Lemma wp_wchan_sleep k t x w s Q :
  splk s !! obj_of k = Some None → threads s !! t = Some x → spinlocks x = 0 →
  wchan s !! obj_of k = Some w → Q tt (do_sleep k t s) →
  wp (wchan_sleep k t) Q (held (obj_of k) t x s).
Proof.
  intros Ho Ht Hx Hw HQ. unfold wchan_sleep, get_thread, get_wchan, put_wchan, put_thread.
  wp_go. apply wp_do_i_hold. wp_check. eapply wp_deref; [apply held_thread|].
  simpl. rewrite Hx. wp_check. eapply wp_deref; [done|]. wp_go.
  set (s' := set_wchan (<[obj_of k := w ++ [t]]> (wchan s)) s).
  apply (wp_spinlock_release (obj_of k) t x s'); try done; [lia|].
  wp_go. eapply wp_deref; [done|]. wp_go. rewrite Hx.
  unfold do_sleep in HQ. by rewrite Hw in HQ.
Qed.

Lemma wp_make_runnable t x k s Q :
  threads s !! t = Some x → t_state x = S_SLEEP k → Q tt (wake_thread t s) →
  wp (thread_make_runnable t) Q s.
Proof.
  intros Ht Hx HQ. unfold thread_make_runnable, get_thread, put_thread. wp_go.
  eapply wp_deref; [done|]. rewrite Hx. wp_go. unfold wake_thread in HQ. rewrite Ht in HQ.
  destruct x as [st n]. simpl in *. by subst.
Qed.

(** The threads on a wait channel sleep there. *)
Definition queue_ok s o (w : list positive) : Prop :=
  NoDup w ∧ ∀ t, t ∈ w ↔ ∃ x k, threads s !! t = Some x ∧ t_state x = S_SLEEP k ∧ obj_of k = o.

Lemma wake_thread_held t t' o x s :
  t ≠ t' → wake_thread t' (held o t x s) = held o t x (wake_thread t' s).
Proof.
  intros Hne. unfold wake_thread, held. simpl. rewrite lookup_insert_ne by done.
  destruct (threads s !! t') as [[[|k|k] n]|]; try done.
  unfold set_threads. simpl. by rewrite insert_insert_ne.
Qed.

Lemma do_wake_held o o' t x s w :
  wchan s !! o' = Some w → t ∉ w → do_wake o' (held o t x s) = held o t x (do_wake o' s).
Proof.
  intros Hw Ht. unfold do_wake. simpl. rewrite Hw. destruct w as [|t' w]; [done|].
  change (set_wchan ?m (held o t x s)) with (held o t x (set_wchan m s)).
  apply wake_thread_held. set_solver.
Qed.

Lemma wp_wakeone o t x w s Q :
  wchan s !! o = Some w → queue_ok s o w → threads s !! t = Some x →
  (∀ k, t_state x ≠ S_SLEEP k) → Q tt (held o t x (do_wake o s)) →
  wp (wchan_wakeone o t) Q (held o t x s).
Proof.
  intros Hw [Hnd Hq] Ht Hx HQ.
  assert (t ∉ w) as Htw.
  { intros (x' & k & Hx' & Hst & _)%Hq. simplify_eq. by destruct (Hx k). }
  rewrite <- (do_wake_held o o t x s w) in HQ by done. unfold do_wake in HQ. simpl in HQ.
  rewrite Hw in HQ.
  unfold wchan_wakeone, get_wchan, put_wchan. wp_go. apply wp_do_i_hold. wp_check.
  eapply wp_deref; [done|]. destruct w as [|t' w]; [by wp_go|]. wp_go.
  destruct (proj1 (Hq t') ltac:(set_solver)) as (x' & k & Hx' & Hst & _).
  eapply wp_make_runnable; [|done|done]. simpl. rewrite lookup_insert_ne; [done|set_solver].
Qed.
End rules.

(** ** The invariant *)

Definition state_of (s : sys) (t : positive) : option tstate := t_state <$> threads s !! t.

(** Thread [t] waits at [k], or has been woken there. *)
Definition at_wait (s : sys) (t : positive) (k : cont) : Prop :=
  state_of s t = Some (S_SLEEP k) ∨ state_of s t = Some (S_READY k).

(** What [k] waits for in the end is lock [l]. *)
Definition for_lock (k : cont) (l : positive) : Prop :=
  k = KAcquire l ∨ ∃ c, k = KWait c l.

Record sstr (s : sys) : Prop := {
  n_spin : ∀ o h, splk s !! o = Some h → h = None;
  n_thr : ∀ t x, threads s !! t = Some x → spinlocks x = 0;
  n_dom : ∀ o, is_Some (splk s !! o) ↔ is_Some (wchan s !! o);
  n_sem : ∀ m, is_Some (sem_count s !! m) ↔ is_Some (splk s !! OSem m);
  n_lock : ∀ l, is_Some (lk_holder s !! l) ↔ is_Some (splk s !! OLock l);
  n_queue : ∀ o w, wchan s !! o = Some w → queue_ok s o w;
  n_wait : ∀ t k, at_wait s t k → is_Some (splk s !! obj_of k) ∧
    ∀ l, for_lock k l → is_Some (lk_holder s !! l);
  n_holder : ∀ l t, lk_holder s !! l = Some (Some t) →
    is_Some (threads s !! t) ∧ ∀ k, at_wait s t k → ¬ for_lock k l;
  n_count : ∀ m c, sem_count s !! m = Some c → 0 ≤ c < 2 ^ 32;
}.

(** How many threads have been woken at [k] and have not run since. *)
Definition is_ready (k : cont) (x : thread) : Z := if decide (t_state x = S_READY k) then 1 else 0.
Definition ready (k : cont) (s : sys) : Z := msum (is_ready k) (threads s).

(** No wakeup is lost: if a lock is free and threads sleep on it, one has been
    woken; if threads sleep on a semaphore, at least as many as its count. *)
Definition lwake (s : sys) : Prop := ∀ l w,
  lk_holder s !! l = Some None → wchan s !! OLock l = Some w → w ≠ [] → 1 ≤ ready (KAcquire l) s.
Definition swake (s : sys) : Prop := ∀ m c w,
  sem_count s !! m = Some c → wchan s !! OSem m = Some w → w ≠ [] → c ≤ ready (KP m) s.

Record sinv (s : sys) : Prop := {
  n_str : sstr s;
  n_lwake : lwake s;
  n_swake : swake s;
}.

Definition awake (x : thread) : Prop := ∀ k, t_state x ≠ S_SLEEP k.

(** *** Changing the state of one thread *)

Definition thread_upd (s s' : sys) (t : positive) (x : thread) : Prop :=
  ∀ u, threads s' !! u = if decide (u = t) then Some x else threads s !! u.

Lemma thread_upd_insert s s' t x :
  threads s' = <[t := x]> (threads s) → thread_upd s s' t x.
Proof.
  intros Heq u. rewrite Heq. destruct (decide (u = t)) as [->|].
  - apply lookup_insert_eq.
  - by apply lookup_insert_ne.
Qed.

Lemma state_upd s s' t x u :
  thread_upd s s' t x → state_of s' u = if decide (u = t) then Some (t_state x) else state_of s u.
Proof. intros Hu. unfold state_of. rewrite Hu. by destruct (decide (u = t)). Qed.

Lemma ready_upd k s s' t x y :
  threads s !! t = Some x → threads s' = <[t := y]> (threads s) →
  ready k s' = ready k s - is_ready k x + is_ready k y.
Proof. intros Hx Heq. unfold ready. rewrite Heq. by apply msum_update. Qed.

Lemma is_ready_01 k x : 0 ≤ is_ready k x ≤ 1.
Proof. unfold is_ready. destruct (decide _); lia. Qed.

Lemma is_ready_1 k x : t_state x = S_READY k → is_ready k x = 1.
Proof. intros Hx. unfold is_ready. by rewrite decide_True. Qed.
Lemma is_ready_0 k x : t_state x ≠ S_READY k → is_ready k x = 0.
Proof. intros Hx. unfold is_ready. by rewrite decide_False. Qed.

Lemma ready_nonneg k s : 0 ≤ ready k s.
Proof. apply msum_nonneg. intros u x _. pose proof (is_ready_01 k x). lia. Qed.

Lemma at_wait_upd s s' t x u k :
  thread_upd s s' t x → at_wait s' u k →
  u = t ∧ (t_state x = S_SLEEP k ∨ t_state x = S_READY k) ∨ u ≠ t ∧ at_wait s u k.
Proof.
  intros Hu. unfold at_wait. rewrite (state_upd s s' t x u Hu).
  destruct (decide (u = t)); [left|right]; naive_solver.
Qed.

(** A thread that was not asleep runs. *)
Lemma sstr_run s t x :
  sstr s → threads s !! t = Some x → awake x → sstr (do_state t S_RUN s).
Proof.
  intros [Hspin Hthr Hdom Hsem Hlk Hq Hw Hh Hc] Hx Haw.
  assert (thread_upd s (do_state t S_RUN s) t (mkThread S_RUN 0)) as Hu by (by apply thread_upd_insert).
  constructor; try done.
  - intros u y. rewrite Hu. destruct (decide (u = t)); [by intros [= <-]|apply Hthr].
  - intros o w Hw'. destruct (Hq o w Hw') as [Hnd Hin]. split; [done|]. intros u.
    rewrite Hin, Hu. destruct (decide (u = t)) as [->|]; [|done]. split.
    + intros (y & k & Hy & Hst & _). simplify_eq. by destruct (Haw k).
    + intros (y & k & [= <-] & Hst & _). done.
  - intros u k Hk. apply (at_wait_upd s _ t _ u k Hu) in Hk as [[_ []]|[_ Hk]]; [done..|].
    by apply (Hw u).
  - intros l u Hl. destruct (Hh l u Hl) as [Hex Hno]. split.
    + rewrite Hu. destruct (decide (u = t)); [by eexists|done].
    + intros k Hk. apply (at_wait_upd s _ t _ u k Hu) in Hk as [[_ []]|[_ Hk]]; [done..|].
      by apply Hno.
Qed.

(** A thread goes to sleep. *)
Lemma sstr_sleep s t x k :
  sstr s → threads s !! t = Some x → awake x → is_Some (splk s !! obj_of k) →
  (∀ l, for_lock k l → is_Some (lk_holder s !! l) ∧ lk_holder s !! l ≠ Some (Some t)) →
  sstr (do_sleep k t s).
Proof.
  intros [Hspin Hthr Hdom Hsem Hlk Hq Hw Hh Hc] Hx Haw Hobj Hfor.
  set (s' := do_sleep k t s).
  assert (thread_upd s s' t (mkThread (S_SLEEP k) 0)) as Hu by (by apply thread_upd_insert).
  destruct (proj1 (Hdom _) Hobj) as [wk Hwk].
  assert (wchan s' = <[obj_of k := wk ++ [t]]> (wchan s)) as Hws
    by (unfold s', do_sleep; simpl; by rewrite Hwk).
  constructor; try done.
  - intros u y. rewrite Hu. destruct (decide (u = t)); [by intros [= <-]|apply Hthr].
  - intros o. rewrite Hws, insert_is_Some_iff by (by eexists). apply Hdom.
  - assert (∀ o w, wchan s !! o = Some w → t ∉ w) as Hnot.
    { intros o w Ho Hin. apply (Hq o w Ho) in Hin as (y & k' & Hy & Hst & _). simplify_eq.
      by destruct (Haw k'). }
    intros o w. rewrite Hws. destruct (decide (obj_of k = o)) as [<-|Hne].
    + rewrite lookup_insert_eq. intros [= <-]. destruct (Hq _ _ Hwk) as [Hnd Hin]. split.
      * apply NoDup_app. split_and!; [done| |apply NoDup_singleton].
        intros u Hu' ->%list_elem_of_singleton. by eapply Hnot.
      * intros u. rewrite elem_of_app, list_elem_of_singleton, Hin, Hu.
        destruct (decide (u = t)) as [->|]; [|naive_solver].
        split; [|by right]. intros _. by eexists _, k.
    + rewrite lookup_insert_ne by done. intros Hw'. destruct (Hq o w Hw') as [Hnd Hin].
      split; [done|]. intros u. rewrite Hin, Hu. destruct (decide (u = t)) as [->|]; [|done].
      split; [|naive_solver]. intros (y & k' & Hy & Hst & _). simplify_eq. by destruct (Haw k').
  - intros u k' Hk. apply (at_wait_upd s _ t _ u k' Hu) in Hk as [[_ []]|[_ Hk]]; simplify_eq/=.
    + split; [done|]. intros l Hl. by apply Hfor.
    + by apply (Hw u).
  - intros l u Hl. destruct (Hh l u Hl) as [Hex Hno]. split.
    + rewrite Hu. destruct (decide (u = t)); [by eexists|done].
    + intros k' Hk. apply (at_wait_upd s _ t _ u k' Hu) in Hk as [[-> []]|[_ Hk]]; simplify_eq/=.
      * intros Hl'. by destruct (Hfor l Hl').
      * by apply Hno.
Qed.

(** *** Waking *)

Definition woken (o : obj) (t : positive) (w : list positive) (k : cont) (s : sys) : sys :=
  set_threads (<[t := mkThread (S_READY k) 0]> (threads s)) (set_wchan (<[o := w]> (wchan s)) s).

Lemma do_wake_cases s o w :
  sstr s → wchan s !! o = Some w →
  w = [] ∧ do_wake o s = s ∨
  ∃ t w' k, w = t :: w' ∧ obj_of k = o ∧ threads s !! t = Some (mkThread (S_SLEEP k) 0) ∧
    do_wake o s = woken o t w' k s.
Proof.
  intros Hs Hw. unfold do_wake. rewrite Hw. destruct w as [|t w]; [by left|right].
  destruct (n_queue _ Hs o _ Hw) as [_ Hq].
  destruct (proj1 (Hq t) ltac:(set_solver)) as ([st n] & k & Hx & Hst & Hk). simpl in Hst. subst st.
  pose proof (n_thr _ Hs t _ Hx) as Hn. simpl in Hn. subst n.
  exists t, w, k. split_and!; try done. unfold wake_thread. simpl. by rewrite Hx.
Qed.

Lemma sstr_woken s o t w k :
  sstr s → wchan s !! o = Some (t :: w) → obj_of k = o →
  threads s !! t = Some (mkThread (S_SLEEP k) 0) → sstr (woken o t w k s).
Proof.
  intros [Hspin Hthr Hdom Hsem Hlk Hq Hw Hh Hc] Hwo Hk Hx. set (s' := woken o t w k s).
  assert (thread_upd s s' t (mkThread (S_READY k) 0)) as Hu by (by apply thread_upd_insert).
  assert (∀ u k', at_wait s' u k' → at_wait s u k') as Hback.
  { intros u k' Hk'. apply (at_wait_upd s _ t _ u k' Hu) in Hk' as [[-> []]|[_ ?]]; simplify_eq/=.
    - left. unfold state_of. by rewrite Hx.
    - done. }
  constructor; try done.
  - intros u y. rewrite Hu. destruct (decide (u = t)); [by intros [= <-]|apply Hthr].
  - intros o'. simpl. rewrite insert_is_Some_iff by (by eexists). apply Hdom.
  - destruct (Hq _ _ Hwo) as [[Hnt Hnd]%NoDup_cons Hin].
    intros o' w'. simpl. destruct (decide (o = o')) as [<-|Hne].
    + rewrite lookup_insert_eq. intros [= <-]. split; [done|]. intros u. rewrite Hu.
      destruct (decide (u = t)) as [->|Hut].
      * split; [done|naive_solver].
      * rewrite <- Hin, elem_of_cons. naive_solver.
    + rewrite lookup_insert_ne by done. intros Hw'. destruct (Hq o' w' Hw') as [Hnd' Hin'].
      split; [done|]. intros u. rewrite Hin', Hu. destruct (decide (u = t)) as [->|]; [|done].
      split; [|naive_solver]. intros (y & k' & Hy & Hst & Hko). rewrite Hx in Hy.
      injection Hy as <-. simpl in Hst. injection Hst as <-. congruence.
  - intros u k' Hk'. by apply (Hw u), Hback.
  - intros l u Hl. destruct (Hh l u Hl) as [Hex Hno]. split.
    + rewrite Hu. destruct (decide (u = t)); [by eexists|done].
    + intros k' Hk'. by apply Hno, Hback.
Qed.

Lemma sstr_wake s o w : sstr s → wchan s !! o = Some w → sstr (do_wake o s).
Proof.
  intros Hs Hw. destruct (do_wake_cases s o w Hs Hw) as [[_ ->]|(t & w' & k & -> & Hk & Hx & ->)];
    [done|by apply sstr_woken].
Qed.

(** Waking does not lose ready threads. *)
Lemma ready_woken s o t w k k' :
  threads s !! t = Some (mkThread (S_SLEEP k) 0) →
  ready k' (woken o t w k s) = ready k' s + (if decide (k' = k) then 1 else 0).
Proof.
  intros Hx. rewrite (ready_upd k' s (woken o t w k s) t _ _ Hx eq_refl).
  rewrite (is_ready_0 k' (mkThread (S_SLEEP k) 0)) by done. destruct (decide (k' = k)) as [->|].
  - rewrite is_ready_1 by done. lia.
  - rewrite is_ready_0; [lia|]. simpl. congruence.
Qed.

Lemma swake_wake s o w :
  sstr s → swake s → wchan s !! o = Some w → swake (do_wake o s).
Proof.
  intros Hs Hsw Hw. destruct (do_wake_cases s o w Hs Hw) as [[_ ->]|(t & w' & k & -> & Hk & Hx & ->)];
    [done|]. intros m c w1. simpl. intros Hm. rewrite (ready_woken s o t w' k) by done.
  destruct (decide (o = OSem m)) as [->|].
  - intros _ _. pose proof (Hsw m c _ Hm Hw ltac:(done)). destruct (decide _); lia.
  - rewrite lookup_insert_ne by done. intros H1 H2. pose proof (Hsw m c w1 Hm H1 H2).
    destruct (decide _); lia.
Qed.

Lemma lwake_wake s o w :
  sstr s → lwake s → wchan s !! o = Some w → lwake (do_wake o s).
Proof.
  intros Hs Hlw Hw. destruct (do_wake_cases s o w Hs Hw) as [[_ ->]|(t & w' & k & -> & Hk & Hx & ->)];
    [done|]. intros l w1. simpl. intros Hl. rewrite (ready_woken s o t w' k) by done.
  destruct (decide (o = OLock l)) as [->|].
  - intros _ _. pose proof (Hlw l _ Hl Hw ltac:(done)). destruct (decide _); lia.
  - rewrite lookup_insert_ne by done. intros H1 H2. pose proof (Hlw l w1 Hl H1 H2).
    destruct (decide _); lia.
Qed.

Lemma sinv_wake s o w : sinv s → wchan s !! o = Some w → sinv (do_wake o s).
Proof.
  intros [H1 H2 H3] Hw. constructor; [by eapply sstr_wake|by eapply lwake_wake|by eapply swake_wake].
Qed.

(** Waking all is waking one until there is none. *)
Lemma wake_thread_wchan t s : wchan (wake_thread t s) = wchan s.
Proof. unfold wake_thread. by destruct (threads s !! t) as [[[] ?]|]. Qed.

Lemma wake_thread_set_wchan t m s : set_wchan m (wake_thread t s) = wake_thread t (set_wchan m s).
Proof. unfold wake_thread. simpl. by destruct (threads s !! t) as [[[] ?]|]. Qed.

Lemma wchan_do_wake s o t w : wchan s !! o = Some (t :: w) → wchan (do_wake o s) = <[o := w]> (wchan s).
Proof. intros Hw. unfold do_wake. rewrite Hw. by rewrite wake_thread_wchan. Qed.

Lemma do_wakeall_cons s o t w :
  wchan s !! o = Some (t :: w) → do_wakeall o s = do_wakeall o (do_wake o s).
Proof.
  intros Hw. unfold do_wakeall at 2. rewrite (wchan_do_wake s o t w Hw), lookup_insert_eq.
  unfold do_wakeall, do_wake. rewrite Hw. simpl. rewrite wake_thread_set_wchan.
  unfold set_wchan. simpl. by rewrite insert_insert_eq.
Qed.

Lemma do_wakeall_nil s o : wchan s !! o = Some [] → do_wakeall o s = s.
Proof.
  intros Hw. unfold do_wakeall. rewrite Hw. simpl. unfold set_wchan. rewrite insert_id by done.
  by destruct s.
Qed.

Lemma sinv_wakeall s o w : sinv s → wchan s !! o = Some w → sinv (do_wakeall o s).
Proof.
  revert s. induction w as [|t w IH]; intros s Hs Hw.
  - by rewrite do_wakeall_nil.
  - rewrite (do_wakeall_cons s o t w) by done. apply IH; [by eapply sinv_wake|].
    rewrite (wchan_do_wake s o t w Hw). apply lookup_insert_eq.
Qed.

(** The loop of [wchan_wakeall]. *)
Lemma wp_make_all o t x w s (Q : unit → sys → Prop) :
  NoDup w → t ∉ w →
  (∀ u, u ∈ w → ∃ y k, threads s !! u = Some y ∧ t_state y = S_SLEEP k) →
  Q tt (held o t x (foldl (λ s u, wake_thread u s) s w)) →
  wp (make_all_runnable w) Q (held o t x s).
Proof.
  revert s. induction w as [|u w IH]; intros s Hnd Ht Hall HQ; cbn [make_all_runnable]; [by wp_go|].
  apply NoDup_cons in Hnd as [Hu Hnd]. apply not_elem_of_cons in Ht as [Htu Ht].
  destruct (Hall u ltac:(set_solver)) as (y & k & Hy & Hst).
  wp_go. eapply wp_make_runnable; [|done|].
  { simpl. by rewrite lookup_insert_ne. }
  rewrite wake_thread_held by done. apply IH; try done.
  intros u' Hu'. destruct (Hall u' ltac:(set_solver)) as (y' & k' & Hy' & Hst').
  exists y', k'. split; [|done]. unfold wake_thread. rewrite Hy. destruct y as [st n].
  simpl in Hst. subst st. simpl. rewrite lookup_insert_ne; [done|]. set_solver.
Qed.

Lemma wp_wakeall o t x w s (Q : unit → sys → Prop) :
  wchan s !! o = Some w → queue_ok s o w → threads s !! t = Some x → awake x →
  Q tt (held o t x (do_wakeall o s)) → wp (wchan_wakeall o t) Q (held o t x s).
Proof.
  intros Hw [Hnd Hq] Ht Hx HQ. unfold wchan_wakeall, get_wchan, put_wchan. wp_go.
  apply wp_do_i_hold. wp_check. eapply wp_deref; [done|]. wp_go.
  change (set_wchan ?m (held o t x s)) with (held o t x (set_wchan m s)).
  unfold do_wakeall in HQ. rewrite Hw in HQ. apply wp_make_all; try done.
  - intros (x' & k & Hx' & Hst & _)%Hq. simplify_eq. by destruct (Hx k).
  - intros u (y & k & Hy & Hst & _)%Hq. by exists y, k.
Qed.

(** *** The data of locks and semaphores *)

Lemma sstr_holder s l h :
  sstr s → is_Some (lk_holder s !! l) →
  (∀ t, h = Some t → is_Some (threads s !! t) ∧ ∀ k, at_wait s t k → ¬ for_lock k l) →
  sstr (set_holders (<[l := h]> (lk_holder s)) s).
Proof.
  intros [Hspin Hthr Hdom Hsem Hlk Hq Hw Hh Hc] Hl Ht. constructor; try done; simpl.
  - intros l'. rewrite insert_is_Some_iff by done. apply Hlk.
  - intros t k Hk. destruct (Hw t k Hk) as [H1 H2]. split; [done|]. intros l' Hl'.
    rewrite insert_is_Some_iff by done. by apply H2.
  - intros l' t. destruct (decide (l = l')) as [<-|].
    + rewrite lookup_insert_eq. intros [= ->]. by apply Ht.
    + rewrite lookup_insert_ne by done. apply Hh.
Qed.

Lemma sstr_count s m c :
  sstr s → is_Some (sem_count s !! m) → 0 ≤ c < 2 ^ 32 →
  sstr (set_count (<[m := c]> (sem_count s)) s).
Proof.
  intros [Hspin Hthr Hdom Hsem Hlk Hq Hw Hh Hc] Hm Hr. constructor; try done; simpl.
  - intros m'. rewrite insert_is_Some_iff by done. apply Hsem.
  - intros m' c'. destruct (decide (m = m')) as [<-|].
    + rewrite lookup_insert_eq. by intros [= <-].
    + rewrite lookup_insert_ne by done. apply Hc.
Qed.

Lemma wake_thread_data t s :
  lk_holder (wake_thread t s) = lk_holder s ∧ sem_count (wake_thread t s) = sem_count s ∧
  splk (wake_thread t s) = splk s.
Proof. unfold wake_thread. by destruct (threads s !! t) as [[[] ?]|]. Qed.

Lemma do_wake_data o s :
  lk_holder (do_wake o s) = lk_holder s ∧ sem_count (do_wake o s) = sem_count s ∧
  splk (do_wake o s) = splk s.
Proof.
  unfold do_wake. destruct (wchan s !! o) as [[|t w]|]; [done| |done].
  apply (wake_thread_data t (set_wchan (<[o := w]> (wchan s)) s)).
Qed.

Lemma do_wakeall_data o s :
  lk_holder (do_wakeall o s) = lk_holder s ∧ sem_count (do_wakeall o s) = sem_count s ∧
  splk (do_wakeall o s) = splk s.
Proof.
  unfold do_wakeall. destruct (wchan s !! o) as [w|]; [|done].
  change (lk_holder s) with (lk_holder (set_wchan (<[o := []]> (wchan s)) s)).
  change (sem_count s) with (sem_count (set_wchan (<[o := []]> (wchan s)) s)).
  change (splk s) with (splk (set_wchan (<[o := []]> (wchan s)) s)).
  generalize (set_wchan (<[o := []]> (wchan s)) s). induction w as [|t w IH]; intros s'; [done|].
  simpl. destruct (IH (wake_thread t s')) as (-> & -> & ->). apply wake_thread_data.
Qed.

(** A thread that is not on the queue is not woken. *)
Lemma do_wake_thread o s w t :
  wchan s !! o = Some w → t ∉ w → threads (do_wake o s) !! t = threads s !! t.
Proof.
  intros Hw Ht. unfold do_wake. rewrite Hw. destruct w as [|u w]; [done|].
  unfold wake_thread. simpl. destruct (threads s !! u) as [[[|k|k] n]|]; try done. simpl.
  apply lookup_insert_ne. set_solver.
Qed.

Lemma awake_not_queued s o w t x :
  sstr s → wchan s !! o = Some w → threads s !! t = Some x → awake x → t ∉ w.
Proof.
  intros Hs Hw Hx Haw Hin. apply (n_queue _ Hs o w Hw) in Hin as (y & k & Hy & Hst & _).
  simplify_eq. by destruct (Haw k).
Qed.

(** ** The primitives *)

(** The thread runs, or has been woken at [k]. *)
Definition at_k (x : thread) (k : cont) : Prop := t_state x = S_RUN ∨ t_state x = S_READY k.

Lemma at_k_awake x k : at_k x k → awake x.
Proof. intros [H|H] k'; by rewrite H. Qed.

Section prims.
Context (s : sys) (t : positive) (x : thread).
Context (Hs : sinv s) (Hx : threads s !! t = Some x).

Lemma prim_x : spinlocks x = 0.
Proof. by apply (n_thr _ (n_str _ Hs) t). Qed.

Lemma prim_obj o : is_Some (splk s !! o) → splk s !! o = Some None ∧ ∃ w, wchan s !! o = Some w.
Proof.
  intros Ho. pose proof Ho as [h Hh]. rewrite (n_spin _ (n_str _ Hs) o h Hh) in Hh.
  split; [done|]. by apply (n_dom _ (n_str _ Hs)).
Qed.

(** Taking a lock. *)
Lemma sinv_take_lock l :
  at_k x (KAcquire l) → lk_holder s !! l = Some None →
  sinv (do_state t S_RUN (set_holders (<[l := Some t]> (lk_holder s)) s)).
Proof.
  intros Hk Hl. pose proof (at_k_awake _ _ Hk) as Haw. destruct Hs as [Hstr Hlw Hsw].
  assert (sstr (do_state t S_RUN s)) as Hstr1 by (by eapply sstr_run).
  constructor.
  - apply (sstr_holder (do_state t S_RUN s) l (Some t)); [done|simpl; by rewrite Hl|].
    intros u [= <-]. split; [simpl; rewrite lookup_insert_eq; by eexists|].
    intros k. unfold at_wait, state_of. simpl. rewrite lookup_insert_eq. by intros [|].
  - intros l' w. simpl. destruct (decide (l = l')) as [<-|Hne].
    + by rewrite lookup_insert_eq.
    + rewrite lookup_insert_ne by done. intros H1 H2 H3. pose proof (Hlw l' w H1 H2 H3).
      rewrite (ready_upd (KAcquire l') s _ t x (mkThread S_RUN 0)) by done.
      pose proof (is_ready_01 (KAcquire l') (mkThread S_RUN 0)).
      rewrite (is_ready_0 (KAcquire l') x); [lia|]. destruct Hk as [->| ->]; congruence.
  - intros m c w. simpl. intros H1 H2 H3. pose proof (Hsw m c w H1 H2 H3).
    rewrite (ready_upd (KP m) s _ t x (mkThread S_RUN 0)) by done.
    pose proof (is_ready_01 (KP m) (mkThread S_RUN 0)).
    rewrite (is_ready_0 (KP m) x); [lia|]. by destruct Hk as [->| ->].
Qed.

(** Taking a semaphore. *)
Lemma sinv_take_sem m c :
  at_k x (KP m) → sem_count s !! m = Some c → 0 < c →
  sinv (do_state t S_RUN (set_count (<[m := c - 1]> (sem_count s)) s)).
Proof.
  intros Hk Hm Hc. pose proof (at_k_awake _ _ Hk) as Haw. destruct Hs as [Hstr Hlw Hsw].
  pose proof (n_count _ Hstr m c Hm). constructor.
  - apply (sstr_count (do_state t S_RUN s) m (c - 1)); [by eapply sstr_run|simpl; by rewrite Hm|lia].
  - intros l w H1 H2 H3. simpl in *. pose proof (Hlw l w H1 H2 H3).
    rewrite (ready_upd (KAcquire l) s _ t x (mkThread S_RUN 0)) by done.
    pose proof (is_ready_01 (KAcquire l) (mkThread S_RUN 0)).
    rewrite (is_ready_0 (KAcquire l) x); [lia|]. by destruct Hk as [->| ->].
  - intros m' c' w. simpl. rewrite (ready_upd (KP m') s _ t x (mkThread S_RUN 0)) by done.
    pose proof (is_ready_01 (KP m') (mkThread S_RUN 0)). destruct (decide (m = m')) as [<-|Hne].
    + rewrite lookup_insert_eq. intros [= <-] H2 H3. pose proof (Hsw m c w Hm H2 H3).
      pose proof (is_ready_01 (KP m) x). lia.
    + rewrite lookup_insert_ne by done. intros H1 H2 H3. pose proof (Hsw m' c' w H1 H2 H3).
      rewrite (is_ready_0 (KP m') x); [lia|]. destruct Hk as [->| ->]; congruence.
Qed.

(** Going to sleep, for a lock that is held, a semaphore at 0, or a condition. *)
Lemma sinv_sleep k :
  at_k x k → is_Some (splk s !! obj_of k) →
  (∀ l, for_lock k l → is_Some (lk_holder s !! l) ∧ lk_holder s !! l ≠ Some (Some t)) →
  (∀ l, k = KAcquire l → lk_holder s !! l ≠ Some None) →
  (∀ m, k = KP m → sem_count s !! m = Some 0) →
  sinv (do_sleep k t s).
Proof.
  intros Hk Hobj Hfor Hl0 Hm0. pose proof (at_k_awake _ _ Hk) as Haw. destruct Hs as [Hstr Hlw Hsw].
  constructor; [by eapply sstr_sleep| |].
  - intros l w. simpl. intros H1. rewrite (ready_upd (KAcquire l) s _ t x (mkThread (S_SLEEP k) 0)) by done.
    rewrite (is_ready_0 _ (mkThread (S_SLEEP k) 0)) by done.
    destruct (decide (k = KAcquire l)) as [->|Hne]; [by destruct (Hl0 l)|].
    rewrite (is_ready_0 (KAcquire l) x) by (destruct Hk as [->| ->]; congruence).
    rewrite lookup_insert_ne by (destruct k; simpl; congruence).
    intros H2 H3. pose proof (Hlw l w H1 H2 H3). lia.
  - intros m c w. simpl. intros H1. rewrite (ready_upd (KP m) s _ t x (mkThread (S_SLEEP k) 0)) by done.
    rewrite (is_ready_0 _ (mkThread (S_SLEEP k) 0)) by done.
    destruct (decide (k = KP m)) as [->|Hne].
    + intros _ _. rewrite (Hm0 m eq_refl) in H1. injection H1 as <-.
      pose proof (ready_nonneg (KP m) (set_threads (delete t (threads s)) s)) as Hnn.
      unfold ready in *. simpl in Hnn. rewrite (msum_delete _ _ _ _ Hx) in Hnn. lia.
    + rewrite (is_ready_0 (KP m) x) by (destruct Hk as [->| ->]; congruence).
      rewrite lookup_insert_ne by (destruct k; simpl; congruence).
      intros H2 H3. pose proof (Hsw m c w H1 H2 H3). lia.
Qed.
(** Giving a lock back wakes one of those who sleep for it. *)
Definition do_release (l : positive) (s : sys) : sys :=
  do_wake (OLock l) (set_holders (<[l := None]> (lk_holder s)) s).

Lemma sinv_release l h : lk_holder s !! l = Some h → sinv (do_release l s).
Proof.
  intros Hl. destruct Hs as [Hstr Hlw Hsw].
  set (s1 := set_holders (<[l := None]> (lk_holder s)) s).
  assert (sstr s1) as Hstr1 by (apply sstr_holder; [done|by rewrite Hl|done]).
  destruct (proj1 (n_dom _ Hstr (OLock l)) (proj1 (n_lock _ Hstr l) ltac:(by eexists))) as [w Hw].
  constructor; [by eapply sstr_wake| |by eapply swake_wake].
  assert (∀ l' w', l' ≠ l → lk_holder s1 !! l' = Some None → wchan s !! OLock l' = Some w' →
            w' ≠ [] → 1 ≤ ready (KAcquire l') s) as Hother.
  { intros l' w' Hne. simpl. rewrite lookup_insert_ne by done. apply Hlw. }
  unfold do_release. fold s1.
  destruct (do_wake_cases s1 (OLock l) w Hstr1 Hw) as [[-> ->]|(u & w1 & k & -> & Hk & Hu & ->)].
  - intros l' w' H1 H2 H3. destruct (decide (l' = l)) as [->|Hne].
    + change (wchan s1) with (wchan s) in H2. rewrite Hw in H2. congruence.
    + by eapply Hother.
  - destruct k; simplify_eq/=. intros l' w' H1. rewrite (ready_woken s1) by done.
    change (ready ?k s1) with (ready k s). pose proof (ready_nonneg (KAcquire l') s).
    destruct (decide (l' = l)) as [->|Hne]; simpl.
    + rewrite decide_True by done. lia.
    + rewrite lookup_insert_ne by congruence. intros H2 H3.
      pose proof (Hother l' w' Hne H1 H2 H3). destruct (decide _); lia.
Qed.

(** Counting a semaphore up wakes one of those who sleep on it. *)
Definition do_V (m : positive) (c : Z) (s : sys) : sys :=
  do_wake (OSem m) (set_count (<[m := c + 1]> (sem_count s)) s).

Lemma sinv_V m c : sem_count s !! m = Some c → c + 1 < 2 ^ 32 → sinv (do_V m c s).
Proof.
  intros Hm Hc. destruct Hs as [Hstr Hlw Hsw].
  set (s1 := set_count (<[m := c + 1]> (sem_count s)) s).
  pose proof (n_count _ Hstr m c Hm).
  assert (sstr s1) as Hstr1 by (apply sstr_count; [done|by rewrite Hm|lia]).
  destruct (proj1 (n_dom _ Hstr (OSem m)) (proj1 (n_sem _ Hstr m) ltac:(by eexists))) as [w Hw].
  constructor; [by eapply sstr_wake|by eapply lwake_wake|]. unfold do_V. fold s1.
  assert (∀ m' c' w', m' ≠ m → sem_count s1 !! m' = Some c' → wchan s !! OSem m' = Some w' →
            w' ≠ [] → c' ≤ ready (KP m') s) as Hother.
  { intros m' c' w' Hne. simpl. rewrite lookup_insert_ne by done. apply Hsw. }
  destruct (do_wake_cases s1 (OSem m) w Hstr1 Hw) as [[-> ->]|(u & w1 & k & -> & Hk & Hu & ->)].
  - intros m' c' w' H1 H2 H3. destruct (decide (m' = m)) as [->|Hne].
    + change (wchan s1) with (wchan s) in H2. rewrite Hw in H2. congruence.
    + by eapply Hother.
  - destruct k; simplify_eq/=. intros m' c' w'. rewrite (ready_woken s1) by done.
    change (ready ?k s1) with (ready k s). destruct (decide (m' = m)) as [->|Hne]; simpl.
    + rewrite lookup_insert_eq, decide_True by done. intros [= <-] _ _.
      pose proof (Hsw m c _ Hm Hw ltac:(done)). lia.
    + intros H1. rewrite lookup_insert_ne by congruence. intros H2 H3.
      pose proof (Hother m' c' w' Hne H1 H2 H3). destruct (decide _); lia.
Qed.

(** *** What the calls do *)

Definition do_acquire (l : positive) (s : sys) : sys :=
  match lk_holder s !! l with
  | Some None => do_state t S_RUN (set_holders (<[l := Some t]> (lk_holder s)) s)
  | _ => do_sleep (KAcquire l) t s
  end.

Definition do_P (m : positive) (s : sys) : sys :=
  match sem_count s !! m with
  | Some 0 | None => do_sleep (KP m) t s
  | Some c => do_state t S_RUN (set_count (<[m := c - 1]> (sem_count s)) s)
  end.
Lemma lock_obj l h : lk_holder s !! l = Some h → is_Some (splk s !! OLock l).
Proof. intros Hl. apply (n_lock _ (n_str _ Hs)). by rewrite Hl. Qed.
Lemma sem_obj m c : sem_count s !! m = Some c → is_Some (splk s !! OSem m).
Proof. intros Hm. apply (n_sem _ (n_str _ Hs)). by rewrite Hm. Qed.

Lemma wp_acquire_loop l h Q :
  lk_holder s !! l = Some h → Q tt (do_acquire l s) →
  wp (lock_acquire_loop l t) Q (held (OLock l) t x s).
Proof.
  intros Hl HQ. destruct (prim_obj _ (lock_obj l h Hl)) as [Ho [w Hw]]. pose proof prim_x as Hx0.
  unfold lock_acquire_loop, get_holder, put_holder, do_acquire in *. rewrite Hl in HQ.
  wp_go. eapply wp_deref; [done|]. destruct h as [u|]; [by eapply (wp_wchan_sleep (KAcquire l))|].
  wp_go. change (set_holders ?m (held ?o t x s)) with (held o t x (set_holders m s)).
  apply wp_spinlock_release; try done; [lia|]. by eapply wp_set_state.
Qed.

Lemma sinv_acquire l h :
  at_k x (KAcquire l) → lk_holder s !! l = Some h → h ≠ Some t → sinv (do_acquire l s).
Proof.
  intros Hk Hl Hne. unfold do_acquire. rewrite Hl. destruct h as [u|]; [|by apply sinv_take_lock].
  apply sinv_sleep; try done; [by eapply lock_obj| |congruence].
  intros l' [|[c ?]]; simplify_eq. rewrite Hl. naive_solver.
Qed.

Lemma wp_P_loop m c Q :
  sem_count s !! m = Some c → Q tt (do_P m s) → wp (P_loop m t) Q (held (OSem m) t x s).
Proof.
  intros Hm HQ. destruct (prim_obj _ (sem_obj m c Hm)) as [Ho [w Hw]]. pose proof prim_x as Hx0.
  pose proof (n_count _ (n_str _ Hs) m c Hm).
  unfold P_loop, get_count, put_count, do_P in *. rewrite Hm in HQ.
  wp_go. eapply wp_deref; [done|]. destruct (c =? 0) eqn:Hc.
  - apply Z.eqb_eq in Hc as ->. by eapply (wp_wchan_sleep (KP m)).
  - apply Z.eqb_neq in Hc. wp_check.
    change (set_count ?m (held ?o t x s)) with (held o t x (set_count m s)).
    apply wp_spinlock_release; try done; [lia|]. eapply wp_set_state; [done..|]. by destruct c.
Qed.

Lemma sinv_P m c : at_k x (KP m) → sem_count s !! m = Some c → sinv (do_P m s).
Proof.
  intros Hk Hm. pose proof (n_count _ (n_str _ Hs) m c Hm). unfold do_P. rewrite Hm.
  destruct c; [|by apply sinv_take_sem|lia].
  apply sinv_sleep; try done; [by eapply sem_obj| |congruence].
  intros l [|[c ?]]; simplify_eq.
Qed.

Lemma wp_acquire l h Q :
  lk_holder s !! l = Some h → h ≠ Some t → Q tt (do_acquire l s) → wp (lock_acquire l t) Q s.
Proof.
  intros Hl Hne HQ. destruct (prim_obj _ (lock_obj l h Hl)) as [Ho _].
  unfold lock_acquire, get_holder. wp_go. eapply wp_spinlock_acquire; [done..|].
  wp_go. eapply wp_deref; [done|]. wp_check. by eapply wp_acquire_loop.
Qed.

Lemma wp_P m c Q : sem_count s !! m = Some c → Q tt (do_P m s) → wp (P m t) Q s.
Proof.
  intros Hm HQ. destruct (prim_obj _ (sem_obj m c Hm)) as [Ho _].
  unfold P. wp_go. eapply wp_spinlock_acquire; [done..|]. by eapply wp_P_loop.
Qed.
(** Waking under a spinlock, then letting it go. *)
Lemma wp_wake_release o (s1 : sys) (y : thread) w Q :
  splk s1 !! o = Some None → wchan s1 !! o = Some w → queue_ok s1 o w →
  threads s1 !! t = Some y → awake y → 0 ≤ spinlocks y → Q tt (do_wake o s1) →
  wp (wchan_wakeone o t) (λ _, wp (spinlock_release o t) Q) (held o t y s1).
Proof.
  intros Ho Hw Hq Hy Haw Hn HQ. eapply wp_wakeone; [done..|].
  destruct (do_wake_data o s1) as (_ & _ & Hsp). apply wp_spinlock_release; [by rewrite Hsp| |done..].
  rewrite (do_wake_thread o s1 w); [done..|]. intros Hin. apply Hq in Hin as (z & k & Hz & Hst & _).
  simplify_eq. by destruct (Haw k).
Qed.

Lemma wp_release l (s1 : sys) (y : thread) w Q :
  splk s1 !! OLock l = Some None → wchan s1 !! OLock l = Some w → queue_ok s1 (OLock l) w →
  threads s1 !! t = Some y → awake y → 0 ≤ spinlocks y →
  lk_holder s1 !! l = Some (Some t) → Q tt (do_release l s1) → wp (lock_release l t) Q s1.
Proof.
  intros Ho Hw Hq Hy Haw Hn Hl HQ. unfold lock_release, get_holder, put_holder. wp_go.
  eapply wp_spinlock_acquire; [done..|]. wp_go. eapply wp_deref; [done|]. wp_check.
  change (set_holders ?m (held ?o t y s1)) with (held o t y (set_holders m s1)).
  by eapply (wp_wake_release (OLock l) (set_holders (<[l := None]> (lk_holder s1)) s1)).
Qed.

Lemma wp_V m c Q :
  awake x → sem_count s !! m = Some c → c + 1 < 2 ^ 32 → Q tt (do_V m c s) → wp (V m t) Q s.
Proof.
  intros Haw Hm Hc HQ. destruct (prim_obj _ (sem_obj m c Hm)) as [Ho [w Hw]]. pose proof prim_x as Hx0.
  pose proof (n_count _ (n_str _ Hs) m c Hm).
  unfold V, get_count, put_count. wp_go. eapply wp_spinlock_acquire; [done..|].
  wp_go. eapply wp_deref; [done|]. wp_go. simpl. eapply wp_deref; [apply lookup_insert_eq|].
  rewrite (Z.mod_small (c + 1)) by lia. wp_check.
  change (set_count ?m (held ?o t x s)) with (held o t x (set_count m s)).
  apply (wp_wake_release (OSem m) (set_count (<[m := c + 1]> (sem_count s)) s) x w); try done; [|lia].
  by apply (n_queue _ (n_str _ Hs)).
Qed.

Lemma queue_ok_held o o' w : queue_ok s o w → queue_ok (held o' t x s) o w.
Proof.
  intros [Hnd Hq]. split; [done|]. intros u. rewrite Hq. simpl.
  destruct (decide (t = u)) as [<-|]; [|by rewrite lookup_insert_ne].
  rewrite lookup_insert_eq. split.
  - intros (y & k & Hy & Hst & Hk). simplify_eq. by eexists _, k.
  - intros (y & k & [= <-] & Hst & Hk). by exists x, k.
Qed.

Definition do_wait (c l : positive) (s : sys) : sys := do_sleep (KWait c l) t (do_release l s).

Lemma release_thread l h : awake x → lk_holder s !! l = Some h → threads (do_release l s) !! t = Some x.
Proof.
  intros Haw Hl. destruct (prim_obj _ (lock_obj l h Hl)) as [_ [w Hw]].
  unfold do_release. rewrite (do_wake_thread _ _ w); [done..|].
  by eapply awake_not_queued; [apply n_str|..].
Qed.

Lemma release_data l :
  lk_holder (do_release l s) = <[l := None]> (lk_holder s) ∧ sem_count (do_release l s) = sem_count s ∧
  splk (do_release l s) = splk s.
Proof.
  unfold do_release. by destruct (do_wake_data (OLock l) (set_holders (<[l := None]> (lk_holder s)) s))
    as (-> & -> & ->).
Qed.
Lemma wp_wait c l Q :
  t_state x = S_RUN → is_Some (splk s !! OCv c) → lk_holder s !! l = Some (Some t) →
  Q tt (do_wait c l s) → wp (cv_wait c l t) Q s.
Proof.
  intros Hr Hc Hl HQ. pose proof prim_x as Hx0. assert (awake x) as Haw by (intros k; by rewrite Hr).
  destruct (prim_obj _ (lock_obj l _ Hl)) as [Ho [w Hw]]. destruct (prim_obj _ Hc) as [Hco [wc Hwc]].
  unfold cv_wait. wp_go. eapply wp_spinlock_acquire; [done..|]. wp_go.
  apply (wp_release l (held (OCv c) t x s) (mkThread (t_state x) (spinlocks x + 1)) w); try done.
  { simpl. by rewrite lookup_insert_ne. }
  { apply queue_ok_held. by apply (n_queue _ (n_str _ Hs)). }
  { apply held_thread. }
  { simpl. lia. }
  unfold do_release.
  change (set_holders ?m (held ?o t x s)) with (held o t x (set_holders m s)).
  rewrite (do_wake_held _ _ _ _ _ w);
    [|done|by eapply (awake_not_queued s); [apply n_str|..]].
  change (lk_holder (held (OCv c) t x s)) with (lk_holder s). fold (do_release l s).
  destruct (release_data l) as (_ & _ & Hsp).
  assert (is_Some (wchan (do_release l s) !! OCv c)) as [wc' Hwc'].
  { apply (n_dom _ (n_str _ (sinv_release l _ Hl))). by rewrite Hsp. }
  eapply (wp_wchan_sleep (KWait c l)); [|by eapply release_thread|done..]. simpl. by rewrite Hsp.
Qed.

Lemma wp_signal c Q :
  awake x → is_Some (splk s !! OCv c) → Q tt (do_wake (OCv c) s) → wp (cv_signal c t) Q s.
Proof.
  intros Haw Hc HQ. pose proof prim_x as Hx0. destruct (prim_obj _ Hc) as [Ho [w Hw]].
  unfold cv_signal. wp_go. eapply wp_spinlock_acquire; [done..|]. wp_go.
  eapply wp_wake_release; try done; [|lia]. by apply (n_queue _ (n_str _ Hs)).
Qed.

(** A thread that does not sleep is not touched by waking others. *)
Lemma do_wakeall_thread o w : wchan s !! o = Some w → awake x → threads (do_wakeall o s) !! t = Some x.
Proof.
  intros Hw Haw. pose proof (awake_not_queued s o w t x (n_str _ Hs) Hw Hx Haw) as Hn.
  revert Hn Hw. clear -Hs Hx Haw. revert s Hs Hx. induction w as [|u w IH]; intros s Hs Hx Hn Hw.
  - by rewrite do_wakeall_nil.
  - rewrite (do_wakeall_cons s o u w) by done. apply IH; [by eapply sinv_wake| |set_solver|].
    + by rewrite (do_wake_thread _ _ (u :: w)).
    + rewrite (wchan_do_wake s o u w Hw). apply lookup_insert_eq.
Qed.

Lemma wp_broadcast c Q :
  awake x → is_Some (splk s !! OCv c) → Q tt (do_wakeall (OCv c) s) → wp (cv_broadcast c t) Q s.
Proof.
  intros Haw Hc HQ. pose proof prim_x as Hx0. destruct (prim_obj _ Hc) as [Ho [w Hw]].
  unfold cv_broadcast. wp_go. eapply wp_spinlock_acquire; [done..|]. wp_go.
  eapply wp_wakeall; try done; [by apply (n_queue _ (n_str _ Hs))|].
  destruct (do_wakeall_data (OCv c) s) as (_ & _ & Hsp).
  apply wp_spinlock_release; [by rewrite Hsp|by eapply do_wakeall_thread|lia|done].
Qed.

Lemma sinv_run_cv c l : t_state x = S_READY (KWait c l) → sinv (do_state t S_RUN s).
Proof.
  intros Hr. destruct Hs as [Hstr Hlw Hsw]. constructor.
  - eapply sstr_run; [done..|]. intros k. by rewrite Hr.
  - intros l' w H1 H2 H3. pose proof (Hlw l' w H1 H2 H3).
    rewrite (ready_upd _ s _ t x (mkThread S_RUN 0)), !is_ready_0 by (done || by rewrite Hr). lia.
  - intros m v w H1 H2 H3. pose proof (Hsw m v w H1 H2 H3).
    rewrite (ready_upd _ s _ t x (mkThread S_RUN 0)), !is_ready_0 by (done || by rewrite Hr). lia.
Qed.
End prims.

Lemma sinv_wait s t x c l :
  sinv s → threads s !! t = Some x → t_state x = S_RUN → is_Some (splk s !! OCv c) →
  lk_holder s !! l = Some (Some t) → sinv (do_wait t c l s).
Proof.
  intros Hs Hx Hr Hc Hl. destruct (release_data s l) as (Hlk & _ & Hsp).
  apply (sinv_sleep _ t x); [by eapply sinv_release| |by left|simpl; by rewrite Hsp| |done|done].
  - eapply release_thread; try done. intros k. by rewrite Hr.
  - intros l' [|[c' ?]]; simplify_eq. rewrite Hlk, lookup_insert_eq. by split; [eexists|].
Qed.

(** *** Resuming *)

Definition do_resume (t : positive) (k : cont) (s : sys) : sys :=
  match k with
  | KP m => do_P t m s
  | KAcquire l => do_acquire t l s
  | KWait _ l => do_acquire t l (do_state t S_RUN s)
  end.

Section resume.
Context (s : sys) (t : positive) (x : thread) (k : cont).
Context (Hs : sinv s) (Hx : threads s !! t = Some x) (Hk : t_state x = S_READY k).

Lemma resume_wait :
  is_Some (splk s !! obj_of k) ∧ ∀ l, for_lock k l → ∃ h, lk_holder s !! l = Some h ∧ h ≠ Some t.
Proof.
  assert (at_wait s t k) as Hat by (right; unfold state_of; rewrite Hx; simpl; by rewrite Hk).
  destruct (n_wait _ (n_str _ Hs) t k Hat) as [Ho Hl]. split; [done|]. intros l Hf.
  destruct (Hl l Hf) as [h Hh]. exists h. split; [done|]. intros ->.
  by apply (proj2 (n_holder _ (n_str _ Hs) l t Hh) k Hat).
Qed.

Lemma resume_running : threads (do_state t S_RUN s) !! t = Some (mkThread S_RUN 0).
Proof. apply lookup_insert_eq. Qed.

Lemma wp_resume Q : Q tt (do_resume t k s) → wp (resume t) Q s.
Proof.
  intros HQ. destruct resume_wait as [Ho Hl]. destruct (prim_obj s Hs _ Ho) as [Hso _].
  pose proof (prim_x s t x Hs Hx) as Hx0.
  unfold resume, get_thread. wp_go. eapply wp_deref; [done|]. rewrite Hk. destruct k as [m|l|c l]; wp_go.
  - eapply wp_spinlock_acquire; [done..|]. destruct (proj2 (n_sem _ (n_str _ Hs) m) Ho) as [v Hv].
    by eapply wp_P_loop.
  - eapply wp_spinlock_acquire; [done..|]. destruct (Hl l ltac:(by left)) as (h & Hh & _).
    by eapply wp_acquire_loop.
  - destruct (Hl l) as (h & Hh & Hne); [right; by exists c|].
    eapply wp_spinlock_acquire; [done..|]. apply wp_bind, wp_spinlock_release; [done..|lia|].
    apply wp_bind. eapply wp_set_state; [done..|].
    eapply (wp_acquire (do_state t S_RUN s) t (mkThread S_RUN 0)); [|apply resume_running|done..].
    by eapply sinv_run_cv.
Qed.

Lemma sinv_resume : sinv (do_resume t k s).
Proof.
  destruct resume_wait as [Ho Hl]. destruct k as [m|l|c l]; simpl.
  - destruct (proj2 (n_sem _ (n_str _ Hs) m) Ho) as [v Hv]. eapply (sinv_P s t x); try done. by right.
  - destruct (Hl l ltac:(by left)) as (h & Hh & Hne). eapply (sinv_acquire s t x); try done. by right.
  - destruct (Hl l) as (h & Hh & Hne); [right; by exists c|].
    eapply (sinv_acquire _ t (mkThread S_RUN 0)); try done;
      [by eapply sinv_run_cv|apply resume_running|by left].
Qed.
End resume.

End SynchSystem.
