(* ===== verification/SynchTheorems.v ===== *)
(** * Runs of threads that synchronize (theorems about kern/thread/synch.c)

    A run is a sequence of calls by any threads in any order; each call is one
    that the documentation allows.  The history of a run, kept from the calls that
    have returned, says who holds which lock and what the semaphores count. *)

From Stdlib Require Import ZArith Lia.
From stdpp Require Import base numbers list gmap.
From S2P Require Import Prelude Synch SynchSystem.

Module SynchTheorems.
Import Synch SynchSystem.

(** ** Runs *)

Inductive event :=
| EP (t m : positive) | EV (t m : positive)
| EAcquire (t l : positive) | ERelease (t l : positive)
| EWait (t c l : positive) | ESignal (t c : positive) | EBroadcast (t c : positive)
| EResume (t : positive)
| ESemCreate (ok1 ok2 ok3 : bool) (n : Z) | ELockCreate (ok1 ok2 ok3 : bool)
| ECvCreate (ok1 ok2 ok3 : bool)
| ESemDestroy (m : positive) | ELockDestroy (l : positive) | ECvDestroy (c : positive).

Definition no_result (m : M sys unit) : M sys (option positive) := m ;; mret None.

(** The step: the code that runs, and the object that it creates. *)
Definition exec (e : event) : M sys (option positive) :=
  match e with
  | EP t m => no_result (P m t)
  | EV t m => no_result (V m t)
  | EAcquire t l => no_result (lock_acquire l t)
  | ERelease t l => no_result (lock_release l t)
  | EWait t c l => no_result (cv_wait c l t)
  | ESignal t c => no_result (cv_signal c t)
  | EBroadcast t c => no_result (cv_broadcast c t)
  | EResume t => no_result (resume t)
  | ESemCreate ok1 ok2 ok3 n => sem_create ok1 ok2 ok3 n
  | ELockCreate ok1 ok2 ok3 => lock_create ok1 ok2 ok3
  | ECvCreate ok1 ok2 ok3 => cv_create ok1 ok2 ok3
  | ESemDestroy m => no_result (sem_destroy m)
  | ELockDestroy l => no_result (lock_destroy l)
  | ECvDestroy c => no_result (cv_destroy c)
  end.

Definition running (s : sys) (t : positive) : Prop := state_of s t = Some S_RUN.

#[export] Instance running_dec s t : Decision (running s t).
Proof. unfold running. apply _. Defined.

(** What the callers have to see to: the object exists, a lock is not taken twice
    and only given back by its holder, a semaphore does not overflow, and an
    object is destroyed only when nobody uses it. *)
Definition enabled (s : sys) (e : event) : Prop :=
  match e with
  | EP t m => running s t ∧ is_Some (sem_count s !! m)
  | EV t m => running s t ∧ ∃ c, sem_count s !! m = Some c ∧ c + 1 < 2 ^ 32
  | EAcquire t l => running s t ∧ ∃ h, lk_holder s !! l = Some h ∧ h ≠ Some t
  | ERelease t l => running s t ∧ lk_holder s !! l = Some (Some t)
  | EWait t c l => running s t ∧ is_Some (splk s !! OCv c) ∧ lk_holder s !! l = Some (Some t)
  | ESignal t c | EBroadcast t c => running s t ∧ is_Some (splk s !! OCv c)
  | EResume t => ∃ k, state_of s t = Some (S_READY k)
  | ESemCreate _ _ _ n => 0 ≤ n < 2 ^ 32
  | ELockCreate _ _ _ | ECvCreate _ _ _ => True
  | ESemDestroy m => is_Some (sem_count s !! m) ∧ ∀ t k, at_wait s t k → obj_of k ≠ OSem m
  | ELockDestroy l => lk_holder s !! l = Some None ∧ ∀ t k, at_wait s t k → ¬ for_lock k l
  | ECvDestroy c => is_Some (splk s !! OCv c) ∧ ∀ t k, at_wait s t k → obj_of k ≠ OCv c
  end.

(** The history: the locks that threads hold by the calls that returned, and for
    each semaphore its initial count, plus the calls of [V], minus the calls of
    [P] that returned. *)
Record history := mkHistory {
  h_held : gset (positive * positive);
  h_count : gmap positive Z;
}.

Definition got_lock (t l : positive) (h : history) : history :=
  mkHistory ({[(t, l)]} ∪ h_held h) (h_count h).
Definition gave_lock (t l : positive) (h : history) : history :=
  mkHistory (h_held h ∖ {[(t, l)]}) (h_count h).
Definition counted (m : positive) (d : Z) (h : history) : history :=
  mkHistory (h_held h) (alter (λ c, c + d) m (h_count h)).

(** [s'] is the state after the step: the call has returned if its thread runs. *)
Definition record (e : event) (s : sys) (r : option positive) (s' : sys) (h : history) : history :=
  let returned t (h' : history) := if decide (state_of s' t = Some S_RUN) then h' else h in
  match e with
  | EP t m => returned t (counted m (-1) h)
  | EV t m => counted m 1 h
  | EAcquire t l => returned t (got_lock t l h)
  | ERelease t l | EWait t _ l => gave_lock t l h
  | EResume t =>
      match state_of s t with
      | Some (S_READY (KP m)) => returned t (counted m (-1) h)
      | Some (S_READY (KAcquire l)) | Some (S_READY (KWait _ l)) => returned t (got_lock t l h)
      | _ => h
      end
  | ESemCreate _ _ _ n =>
      match r with Some m => mkHistory (h_held h) (<[m := n]> (h_count h)) | None => h end
  | ESemDestroy m => mkHistory (h_held h) (delete m (h_count h))
  | _ => h
  end.

(** At first there are threads and no objects. *)
Definition initial (ts : gset positive) : sys :=
  mkSys ∅ ∅ ∅ ∅ (gset_to_gmap (mkThread S_RUN 0) ts).

Inductive step : sys * history → sys * history → Prop :=
| step_intro s h e r s' :
    enabled s e → exec e s = Done (r, s') → step (s, h) (s', record e s r s' h).

Definition run (ts : gset positive) (s : sys) (h : history) : Prop :=
  rtc step (initial ts, mkHistory ∅ ∅) (s, h).

(** The history is what the state says. *)
Record matches (s : sys) (h : history) : Prop := {
  m_inv : sinv s;
  m_held : ∀ t l, (t, l) ∈ h_held h ↔ lk_holder s !! l = Some (Some t);
  m_count : h_count h = sem_count s;
}.

(** ** Objects that come and go *)

Lemma asleep_wait s t x k : threads s !! t = Some x → t_state x = S_SLEEP k → at_wait s t k.
Proof. intros Hx Hk. left. unfold state_of. rewrite Hx. simpl. by rewrite Hk. Qed.

Section objects.
Context (s : sys) (o : obj) (sc : gmap positive Z) (lh : gmap positive (option positive)).
Context (Hs : sinv s).

Definition with_obj : sys :=
  mkSys (<[o := None]> (splk s)) (<[o := []]> (wchan s)) sc lh (threads s).

Lemma sinv_create :
  splk s !! o = None →
  (∀ m, is_Some (sc !! m) ↔ is_Some (sem_count s !! m) ∨ o = OSem m) →
  (∀ l, is_Some (lh !! l) ↔ is_Some (lk_holder s !! l) ∨ o = OLock l) →
  (∀ m c, sc !! m = Some c → sem_count s !! m = Some c ∨ o = OSem m ∧ 0 ≤ c < 2 ^ 32) →
  (∀ l h, lh !! l = Some h → lk_holder s !! l = Some h ∨ o = OLock l ∧ h = None) →
  sinv with_obj.
Proof.
  intros Ho Hsc Hlh Hsv Hlv. destruct Hs as [[Hspin Hthr Hdom Hsem Hlk Hq Hw Hh Hc] Hlw Hsw].
  assert (∀ w, <[o := []]> (wchan s) !! o = Some w → w = []) as Hempty
    by (intros w; rewrite lookup_insert_eq; by intros [= <-]).
  assert (∀ o' w, <[o := []]> (wchan s) !! o' = Some w → w ≠ [] → wchan s !! o' = Some w) as Hold.
  { intros o' w. destruct (decide (o = o')) as [<-|]; [by intros ->%Hempty|].
    by rewrite lookup_insert_ne. }
  constructor; [constructor|..]; simpl.
  - intros o' h. destruct (decide (o = o')) as [<-|].
    + rewrite lookup_insert_eq. by intros [= <-].
    + rewrite lookup_insert_ne by done. apply Hspin.
  - done.
  - intros o'. rewrite !lookup_insert_is_Some', Hdom. done.
  - intros m. rewrite Hsc, lookup_insert_is_Some', Hsem. tauto.
  - intros l. rewrite Hlh, lookup_insert_is_Some', Hlk. tauto.
  - intros o' w. destruct (decide (o = o')) as [<-|].
    + intros ->%Hempty. split; [apply NoDup_nil_2|]. intros t. split; [set_solver|].
      intros (x & k & Hx & Hst & <-). destruct (Hw t k) as [[? Hk] _]; [by eapply asleep_wait|congruence].
    + rewrite lookup_insert_ne by done. apply Hq.
  - intros t k Hk. destruct (Hw t k Hk) as [H1 H2]. split.
    + rewrite lookup_insert_is_Some'. by right.
    + intros l Hl. rewrite Hlh. left. by apply H2.
  - intros l t Hl. destruct (Hlv l _ Hl) as [|[_ ?]]; [by apply Hh|done].
  - intros m c Hm. by destruct (Hsv m c Hm) as [?%Hc|[_ ?]].
  - intros l w Hl H2 H3. simpl in Hl, H2. destruct (Hlv l _ Hl) as [H1|[-> _]]; [|by apply Hempty in H2].
    by apply (Hlw l w H1 (Hold _ _ H2 H3)).
  - intros m c w Hm H2 H3. simpl in Hm, H2. destruct (Hsv m c Hm) as [H1|[-> _]]; [|by apply Hempty in H2].
    by apply (Hsw m c w H1 (Hold _ _ H2 H3)).
Qed.

Definition without_obj : sys :=
  mkSys (delete o (splk s)) (delete o (wchan s)) sc lh (threads s).

Lemma sinv_destroy :
  (∀ t k, at_wait s t k → obj_of k ≠ o ∧ ∀ l, for_lock k l → OLock l ≠ o) →
  (∀ m, is_Some (sc !! m) ↔ is_Some (sem_count s !! m) ∧ o ≠ OSem m) →
  (∀ l, is_Some (lh !! l) ↔ is_Some (lk_holder s !! l) ∧ o ≠ OLock l) →
  (∀ m c, sc !! m = Some c → sem_count s !! m = Some c) →
  (∀ l h, lh !! l = Some h → lk_holder s !! l = Some h) →
  sinv without_obj.
Proof.
  intros Hno Hsc Hlh Hsv Hlv. destruct Hs as [[Hspin Hthr Hdom Hsem Hlk Hq Hw Hh Hc] Hlw Hsw].
  assert (∀ A (m : gmap obj A) o', is_Some (delete o m !! o') ↔ is_Some (m !! o') ∧ o ≠ o') as Hdel.
  { intros A m o'. rewrite lookup_delete_is_Some. tauto. }
  constructor; [constructor|..]; simpl.
  - intros o' h [_ ?]%lookup_delete_Some. by eapply Hspin.
  - done.
  - intros o'. by rewrite !Hdel, Hdom.
  - intros m. by rewrite Hsc, Hdel, Hsem.
  - intros l. by rewrite Hlh, Hdel, Hlk.
  - intros o' w [_ ?]%lookup_delete_Some. by apply Hq.
  - intros t k Hk. destruct (Hno t k Hk) as [N1 N2]. destruct (Hw t k Hk) as [H1 H2]. split.
    + rewrite Hdel. by split.
    + intros l Hl. rewrite Hlh. split; [by apply H2|]. intros ->. by eapply N2.
  - intros l t Hl%Hlv. by apply Hh.
  - intros m c Hm%Hsv. by eapply Hc.
  - intros l w Hl%Hlv H2. simpl in H2. apply lookup_delete_Some in H2 as [_ H2]. by eapply Hlw.
  - intros m c w Hm%Hsv H2. simpl in H2. apply lookup_delete_Some in H2 as [_ H2]. by eapply Hsw.
Qed.
End objects.

(** ** Every step keeps the history right *)

Lemma state_do_state t st s : state_of (do_state t st s) t = Some st.
Proof. unfold state_of. simpl. by rewrite lookup_insert_eq. Qed.

Section steps.
Context (s : sys) (h : history).
Context (Hheld : ∀ t l, (t, l) ∈ h_held h ↔ lk_holder s !! l = Some (Some t)).
Context (Hcount : h_count h = sem_count s).

Lemma record_acquire t l u :
  lk_holder s !! l = Some u → sinv (do_acquire t l s) →
  matches (do_acquire t l s)
    (if decide (state_of (do_acquire t l s) t = Some S_RUN) then got_lock t l h else h).
Proof.
  unfold do_acquire. intros Hl. rewrite Hl. destruct u as [u|]; intros Hs.
  - rewrite decide_False by (unfold do_sleep; by rewrite state_do_state). by constructor.
  - rewrite decide_True by apply state_do_state. constructor; [done| |done].
    intros t' l'. simpl. rewrite elem_of_union, elem_of_singleton, Hheld.
    destruct (decide (l = l')) as [<-|Hne].
    + rewrite lookup_insert_eq, Hl. naive_solver.
    + rewrite lookup_insert_ne by done. naive_solver.
Qed.

Lemma record_P t m c :
  sem_count s !! m = Some c → sinv (do_P t m s) →
  matches (do_P t m s)
    (if decide (state_of (do_P t m s) t = Some S_RUN) then counted m (-1) h else h).
Proof.
  intros Hm Hs. assert (c = 0 ∧ do_P t m s = do_sleep (KP m) t s ∨
    do_P t m s = do_state t S_RUN (set_count (<[m := c - 1]> (sem_count s)) s)) as [[_ Heq]|Heq]
    by (unfold do_P; rewrite Hm; destruct c; auto); rewrite Heq in *.
  - rewrite decide_False by (unfold do_sleep; by rewrite state_do_state). by constructor.
  - rewrite decide_True by apply state_do_state. constructor; [done|done|]. simpl. rewrite Hcount.
    apply map_eq. intros m'. destruct (decide (m = m')) as [<-|Hne].
    + by rewrite lookup_alter_eq, lookup_insert_eq, Hm.
    + by rewrite lookup_alter_ne, lookup_insert_ne.
Qed.

Lemma record_V m c :
  sem_count s !! m = Some c → sinv (do_V m c s) → matches (do_V m c s) (counted m 1 h).
Proof.
  intros Hm Hs. unfold do_V in *.
  destruct (do_wake_data (OSem m) (set_count (<[m := c + 1]> (sem_count s)) s)) as (Hl & Hc & _).
  constructor; [done|by rewrite Hl|]. rewrite Hc. simpl. rewrite Hcount.
  apply map_eq. intros m'. destruct (decide (m = m')) as [<-|Hne].
  - by rewrite lookup_alter_eq, lookup_insert_eq, Hm.
  - by rewrite lookup_alter_ne, lookup_insert_ne.
Qed.

Lemma record_release (s' : sys) t l :
  lk_holder s !! l = Some (Some t) → sinv s' → lk_holder s' = <[l := None]> (lk_holder s) →
  sem_count s' = sem_count s → matches s' (gave_lock t l h).
Proof.
  intros Hl Hs Hlk Hc. constructor; [done| |by rewrite Hc]. intros t' l'. rewrite Hlk. simpl.
  rewrite elem_of_difference, elem_of_singleton, Hheld. destruct (decide (l = l')) as [<-|Hne].
  - rewrite lookup_insert_eq, Hl. naive_solver.
  - rewrite lookup_insert_ne by done. naive_solver.
Qed.

Lemma record_same (s' : sys) :
  sinv s' → lk_holder s' = lk_holder s → sem_count s' = sem_count s → matches s' h.
Proof. intros Hs Hl Hc. constructor; [done| |]; by rewrite ?Hl, ?Hc. Qed.
End steps.

Lemma wp_no_result (m : M sys unit) s (Q : option positive → sys → Prop) :
  wp m (λ _, Q None) s → wp (no_result m) Q s.
Proof. intros Hm. unfold no_result. apply wp_bind. eapply wp_mono; [|done]. intros [] s' HQ. by wp_go. Qed.

Lemma state_thread s t st : state_of s t = Some st → ∃ x, threads s !! t = Some x ∧ t_state x = st.
Proof. unfold state_of. intros (x & Hx & ->)%fmap_Some_1. by exists x. Qed.

Lemma running_awake x : t_state x = S_RUN → awake x.
Proof. intros Hx k. by rewrite Hx. Qed.

(** The calls of a running thread. *)
Section calls.
Context (s : sys) (h : history) (Hm : matches s h).

Definition step_ok (e : event) : Prop :=
  wp (exec e) (λ r s', matches s' (record e s r s' h)) s.

Lemma step_P t m : enabled s (EP t m) → step_ok (EP t m).
Proof.
  intros [(x & Hx & Hr)%state_thread [c Hc]]. destruct Hm as [Hs Hheld Hcount].
  apply wp_no_result. eapply wp_P; try done. eapply record_P; try done.
  eapply sinv_P; try done. by left.
Qed.

Lemma step_V t m : enabled s (EV t m) → step_ok (EV t m).
Proof.
  intros [(x & Hx & Hr)%state_thread (c & Hc & Hlt)]. destruct Hm as [Hs Hheld Hcount].
  apply wp_no_result. eapply wp_V; try done; [by apply running_awake|].
  apply record_V; try done. by apply sinv_V.
Qed.

Lemma step_acquire t l : enabled s (EAcquire t l) → step_ok (EAcquire t l).
Proof.
  intros [(x & Hx & Hr)%state_thread (u & Hl & Hne)]. destruct Hm as [Hs Hheld Hcount].
  apply wp_no_result. eapply wp_acquire; try done. eapply record_acquire; try done.
  eapply sinv_acquire; try done. by left.
Qed.

Lemma step_release t l : enabled s (ERelease t l) → step_ok (ERelease t l).
Proof.
  intros [(x & Hx & Hr)%state_thread Hl]. destruct Hm as [Hs Hheld Hcount].
  destruct (prim_obj s Hs _ (lock_obj s Hs l _ Hl)) as [Ho [w Hw]].
  destruct (release_data s l) as (H1 & H2 & _).
  apply wp_no_result. eapply wp_release; try done.
  - by apply (n_queue _ (n_str _ Hs)).
  - by apply running_awake.
  - by rewrite (n_thr _ (n_str _ Hs) t x Hx).
  - eapply record_release; try done. by eapply sinv_release.
Qed.

Lemma step_wait t c l : enabled s (EWait t c l) → step_ok (EWait t c l).
Proof.
  intros [(x & Hx & Hr)%state_thread [Hc Hl]]. destruct Hm as [Hs Hheld Hcount].
  destruct (release_data s l) as (H1 & H2 & _).
  apply wp_no_result. eapply wp_wait; try done.
  eapply record_release; try done. by eapply sinv_wait.
Qed.

Lemma step_signal t c : enabled s (ESignal t c) → step_ok (ESignal t c).
Proof.
  intros [(x & Hx & Hr)%state_thread Hc]. destruct Hm as [Hs Hheld Hcount].
  destruct (prim_obj s Hs _ Hc) as [_ [w Hw]]. destruct (do_wake_data (OCv c) s) as (H1 & H2 & _).
  apply wp_no_result. eapply wp_signal; try done; [by apply running_awake|].
  eapply record_same; try done. by eapply sinv_wake.
Qed.

Lemma step_broadcast t c : enabled s (EBroadcast t c) → step_ok (EBroadcast t c).
Proof.
  intros [(x & Hx & Hr)%state_thread Hc]. destruct Hm as [Hs Hheld Hcount].
  destruct (prim_obj s Hs _ Hc) as [_ [w Hw]]. destruct (do_wakeall_data (OCv c) s) as (H1 & H2 & _).
  apply wp_no_result. eapply wp_broadcast; try done; [by apply running_awake|].
  eapply record_same; try done. by eapply sinv_wakeall.
Qed.

Lemma step_resume t : enabled s (EResume t) → step_ok (EResume t).
Proof.
  intros [k Hst]. destruct (state_thread s t _ Hst) as (x & Hx & Hk). destruct Hm as [Hs Hheld Hcount].
  pose proof (sinv_resume s t x k Hs Hx Hk) as Hs'.
  destruct (resume_wait s t x k Hs Hx Hk) as [Ho Hl].
  apply wp_no_result. eapply wp_resume; try done. cbn [record]. rewrite Hst.
  destruct k as [m|l|c l]; cbn [do_resume] in *.
  - destruct (proj2 (n_sem _ (n_str _ Hs) m) Ho) as [v Hv]. by eapply record_P.
  - destruct (Hl l ltac:(by left)) as (u & Hu & _). by eapply record_acquire.
  - destruct (Hl l) as (u & Hu & _); [right; by exists c|]. by eapply record_acquire.
Qed.
End calls.

Section objects_steps.
Context (s : sys) (h : history) (Hm : matches s h).

Lemma step_sem_create ok1 ok2 ok3 n :
  enabled s (ESemCreate ok1 ok2 ok3 n) → step_ok s h (ESemCreate ok1 ok2 ok3 n).
Proof.
  intros Hn. unfold step_ok. cbn [exec]. unfold sem_create.
  destruct ok1, ok2, ok3; wp_go; try done. set (m := fresh (dom (sem_count s))).
  assert (sem_count s !! m = None) as Hfr by apply not_elem_of_dom, is_fresh.
  destruct Hm as [Hs Hheld Hcount].
  assert (splk s !! OSem m = None) as Ho.
  { apply eq_None_not_Some. intros ?%(n_sem _ (n_str _ Hs)). rewrite Hfr in *. by apply is_Some_None in H. }
  constructor; [|done|by simpl; rewrite Hcount].
  apply (sinv_create s (OSem m)); try done.
  - intros m'. rewrite lookup_insert_is_Some'. naive_solver.
  - intros l. naive_solver.
  - intros m' c. destruct (decide (m = m')) as [<-|].
    + rewrite lookup_insert_eq. intros [= <-]. by right.
    + rewrite lookup_insert_ne by done. by left.
  - intros l u Hu. by left.
Qed.

Lemma step_lock_create ok1 ok2 ok3 : step_ok s h (ELockCreate ok1 ok2 ok3).
Proof.
  unfold step_ok. cbn [exec]. unfold lock_create.
  destruct ok1, ok2, ok3; wp_go; try done. set (l := fresh (dom (lk_holder s))).
  assert (lk_holder s !! l = None) as Hfr by apply not_elem_of_dom, is_fresh.
  destruct Hm as [Hs Hheld Hcount].
  assert (splk s !! OLock l = None) as Ho.
  { apply eq_None_not_Some. intros ?%(n_lock _ (n_str _ Hs)). rewrite Hfr in *. by apply is_Some_None in H. }
  constructor; [| |done].
  - apply (sinv_create s (OLock l)); try done.
    + naive_solver.
    + intros l'. rewrite lookup_insert_is_Some'. naive_solver.
    + intros m c Hc. by left.
    + intros l' u. destruct (decide (l = l')) as [<-|].
      * rewrite lookup_insert_eq. intros [= <-]. by right.
      * rewrite lookup_insert_ne by done. by left.
  - intros t l'. simpl. rewrite Hheld. destruct (decide (l = l')) as [<-|Hne].
    + by rewrite lookup_insert_eq, Hfr.
    + by rewrite lookup_insert_ne.
Qed.

Lemma step_cv_create ok1 ok2 ok3 : step_ok s h (ECvCreate ok1 ok2 ok3).
Proof.
  unfold step_ok. cbn [exec]. unfold cv_create.
  destruct ok1, ok2, ok3; wp_go; try done. set (c := fresh (cvs s)). destruct Hm as [Hs Hheld Hcount].
  assert (splk s !! OCv c = None) as Ho.
  { apply eq_None_not_Some. intros Hc%elem_of_dom. apply (is_fresh (cvs s)). fold c. unfold cvs.
    apply elem_of_list_to_set, list_elem_of_omap. exists (OCv c). split; [|done].
    by apply elem_of_elements. }
  constructor; [|done|done]. apply (sinv_create s (OCv c)); try done; naive_solver.
Qed.

Lemma wp_obj_cleanup o (Q : unit → sys → Prop) :
  is_Some (splk s !! o) → (∀ t k, at_wait s t k → obj_of k ≠ o) →
  Q tt (set_wchan (delete o (wchan s)) (set_splk (delete o (splk s)) s)) → wp (obj_cleanup o) Q s.
Proof.
  intros Hso Hno HQ. destruct Hm as [Hs _ _]. destruct (prim_obj s Hs _ Hso) as [Ho [w Hw]].
  unfold obj_cleanup, get_wchan. wp_go. eapply wp_deref; [done|]. wp_check. eapply wp_deref; [done|].
  wp_go. apply wp_KASSERT; [|by wp_go]. apply bool_decide_eq_true.
  destruct (n_queue _ (n_str _ Hs) o w Hw) as [_ Hin]. destruct w as [|t w]; [done|].
  destruct (proj1 (Hin t) ltac:(set_solver)) as (x & k & Hx & Hst & Hk).
  destruct (Hno t k); [|done]. by eapply asleep_wait.
Qed.

Lemma step_sem_destroy m : enabled s (ESemDestroy m) → step_ok s h (ESemDestroy m).
Proof.
  intros [Hc Hno]. destruct Hm as [Hs Hheld Hcount]. apply wp_no_result.
  unfold sem_destroy. wp_go. apply wp_obj_cleanup; [by apply (n_sem _ (n_str _ Hs))|done|]. wp_go.
  constructor; [|done|by simpl; rewrite Hcount].
  apply (sinv_destroy s (OSem m) (delete m (sem_count s)) (lk_holder s)); try done.
  - intros t k Hk. split; [by eapply Hno|done].
  - intros m'. rewrite lookup_delete_is_Some. naive_solver.
  - naive_solver.
  - by intros m' c [_ ?]%lookup_delete_Some.
Qed.

Lemma step_lock_destroy l : enabled s (ELockDestroy l) → step_ok s h (ELockDestroy l).
Proof.
  intros [Hl Hno]. destruct Hm as [Hs Hheld Hcount]. apply wp_no_result.
  unfold lock_destroy, get_holder. wp_go. eapply wp_deref; [done|]. wp_check.
  apply wp_obj_cleanup; [by eapply lock_obj| |].
  { intros t k Hk Heq. destruct k; simplify_eq/=. destruct (Hno t _ Hk). by left. }
  wp_go. constructor; [| |done].
  - apply (sinv_destroy s (OLock l) (sem_count s) (delete l (lk_holder s))); try done.
    + intros t k Hk. split.
      * intros Heq. destruct k; simplify_eq/=. destruct (Hno t _ Hk). by left.
      * intros l' Hl' [= ->]. by destruct (Hno t k Hk).
    + naive_solver.
    + intros l'. rewrite lookup_delete_is_Some. naive_solver.
    + by intros l' u [_ ?]%lookup_delete_Some.
  - intros t l'. simpl. rewrite Hheld, lookup_delete_Some. split; [|naive_solver].
    intros Ht. split; [|done]. intros <-. congruence.
Qed.

Lemma step_cv_destroy c : enabled s (ECvDestroy c) → step_ok s h (ECvDestroy c).
Proof.
  intros [Hc Hno]. destruct Hm as [Hs Hheld Hcount]. apply wp_no_result.
  unfold cv_destroy. apply wp_obj_cleanup; [done..|].
  constructor; [|done|done].
  apply (sinv_destroy s (OCv c) (sem_count s) (lk_holder s)); naive_solver.
Qed.
End objects_steps.

(** ** Runs *)

Lemma run_matches_step s h e :
  matches s h → enabled s e → wp (exec e) (λ r s', matches s' (record e s r s' h)) s.
Proof.
  intros Hm He. destruct e;
    [by apply step_P|by apply step_V|by apply step_acquire|by apply step_release|by apply step_wait
    |by apply step_signal|by apply step_broadcast|by apply step_resume|by apply step_sem_create
    |by apply step_lock_create|by apply step_cv_create|by apply step_sem_destroy
    |by apply step_lock_destroy|by apply step_cv_destroy].
Qed.

Lemma initial_threads ts t x : threads (initial ts) !! t = Some x → x = mkThread S_RUN 0.
Proof. simpl. by intros [_ <-]%lookup_gset_to_gmap_Some. Qed.

Lemma initial_matches ts : matches (initial ts) (mkHistory ∅ ∅).
Proof.
  constructor; [|by intros t l; simpl; rewrite lookup_empty|done].
  assert (∀ t k, ¬ at_wait (initial ts) t k) as Hno.
  { intros t k [H|H]; apply state_thread in H as (x & ->%initial_threads & ?); done. }
  constructor; [constructor|..]; simpl; try done.
  - intros t x Hx. by rewrite (initial_threads ts t x Hx).
  - intros o. rewrite !lookup_empty. split; by intros [].
  - intros m. rewrite !lookup_empty. split; by intros [].
  - intros t k Hk. by destruct (Hno t k).
Qed.

Lemma step_matches c c' : step c c' → matches c.1 c.2 → matches c'.1 c'.2.
Proof.
  intros [s h e r s' He Hex] Hm. pose proof (run_matches_step s h e Hm He) as Hwp.
  unfold wp in Hwp. by rewrite Hex in Hwp.
Qed.

Lemma run_matches ts s h : run ts s h → matches s h.
Proof.
  intros Hr. change (matches (s, h).1 (s, h).2). revert Hr. unfold run.
  generalize (s, h). apply rtc_ind_r; [apply initial_matches|].
  intros c c' _ Hstep Hm. by eapply step_matches.
Qed.

(** A step whose outcome is known. *)
Lemma step_to s h e s' :
  enabled s e → wp (exec e) (λ r s1, r = None ∧ s1 = s') s → step (s, h) (s', record e s None s' h).
Proof. intros He (r & s1 & Hex & -> & ->)%wp_done. by eapply step_intro. Qed.

Lemma ready_exists k s : 1 ≤ ready k s → ∃ t, state_of s t = Some (S_READY k).
Proof.
  unfold ready, state_of. generalize (threads s). clear s.
  intros m. induction m as [|t x m Ht IH] using map_ind; [rewrite msum_empty; lia|].
  rewrite msum_insert by done. intros Hle. destruct (decide (t_state x = S_READY k)) as [Hx|Hx].
  - exists t. by rewrite lookup_insert_eq, <- Hx.
  - rewrite is_ready_0 in Hle by done. destruct IH as [u Hu]; [lia|].
    exists u. rewrite lookup_insert_ne; [done|]. intros ->. by rewrite Ht in Hu.
Qed.

(** A woken thread takes a free lock. *)
Lemma step_take s h t l :
  matches s h → state_of s t = Some (S_READY (KAcquire l)) → lk_holder s !! l = Some None →
  let s' := do_state t S_RUN (set_holders (<[l := Some t]> (lk_holder s)) s) in
  step (s, h) (s', got_lock t l h).
Proof.
  intros [Hs _ _] Hst Hl s'. destruct (state_thread s t _ Hst) as (x & Hx & Hk).
  replace (got_lock t l h) with (record (EResume t) s None s' h).
  - apply step_to; [by exists (KAcquire l)|]. apply wp_no_result.
    eapply wp_resume; [done..|]. split; [done|]. simpl. unfold do_acquire. by rewrite Hl.
  - simpl. rewrite Hst. by rewrite decide_True by apply state_do_state.
Qed.

(** The holder gives it back. *)
Lemma step_give s h t l :
  matches s h → running s t → lk_holder s !! l = Some (Some t) →
  step (s, h) (do_release l s, gave_lock t l h).
Proof.
  intros [Hs _ _] Hr Hl. apply (step_to s h (ERelease t l)); [done|]. apply wp_no_result.
  destruct (state_thread s t _ Hr) as (x & Hx & Hk).
  destruct (prim_obj s Hs _ (lock_obj s Hs l _ Hl)) as [Ho [w Hw]].
  eapply wp_release; try done.
  - by apply (n_queue _ (n_str _ Hs)).
  - by apply running_awake.
  - by rewrite (n_thr _ (n_str _ Hs) t x Hx).
Qed.

(** Giving it back shortens the queue and leaves no waiter out. *)
Lemma release_queue s l v w u t :
  sinv s → lk_holder s !! l = Some u → wchan s !! OLock l = Some (v :: w) →
  wchan (do_release l s) !! OLock l = Some w ∧
  (at_wait s t (KAcquire l) → at_wait (do_release l s) t (KAcquire l)).
Proof.
  intros Hs Hl Hw. unfold do_release. set (s1 := set_holders _ s).
  assert (sstr s1) as Hs1 by (apply sstr_holder; [apply Hs|by rewrite Hl|done]).
  split; [rewrite (wchan_do_wake s1 _ v w) by done; apply lookup_insert_eq|].
  destruct (do_wake_cases s1 (OLock l) _ Hs1 Hw) as [[? _]|(v' & w' & k & [= <- <-] & Hk & Hv & ->)];
    [done|]. destruct k; simplify_eq/=. unfold at_wait, state_of. simpl.
  destruct (decide (v = t)) as [<-|Hne]; [right; by rewrite lookup_insert_eq|].
  by rewrite lookup_insert_ne.
Qed.

Lemma waiting_gets w : ∀ s h l t,
  matches s h → lk_holder s !! l = Some None → wchan s !! OLock l = Some w →
  at_wait s t (KAcquire l) →
  ∃ s' h', rtc step (s, h) (s', h') ∧ (t, l) ∈ h_held h' ∧ running s' t.
Proof.
  assert (∀ s h l t, matches s h → lk_holder s !! l = Some None →
    state_of s t = Some (S_READY (KAcquire l)) →
    ∃ s' h', rtc step (s, h) (s', h') ∧ (t, l) ∈ h_held h' ∧ running s' t) as Hready.
  { intros s h l t Hm Hl Ht. eexists _, _. split; [by apply rtc_once, step_take|].
    split; [set_solver|apply state_do_state]. }
  induction w as [|v w IH]; intros s h l t Hm Hl Hw Hat; pose proof (m_inv _ _ Hm) as Hs;
    (destruct Hat as [Hsl|?]; [|by apply Hready]);
    destruct (state_thread s t _ Hsl) as (x & Hx & Hk).
  - assert (t ∈ @nil positive); [|set_solver].
    apply (n_queue _ (n_str _ Hs) _ _ Hw). by exists x, (KAcquire l).
  - destruct (ready_exists (KAcquire l) s) as [u Hu]; [by apply (n_lwake _ Hs l (v :: w))|].
    pose proof (step_take s h u l Hm Hu Hl) as H1. cbv zeta in H1.
    set (s1 := do_state u S_RUN _) in H1. pose proof (step_matches _ _ H1 Hm) as Hm1. simpl in Hm1.
    assert (lk_holder s1 !! l = Some (Some u)) as Hl1 by apply lookup_insert_eq.
    pose proof (step_give s1 _ u l Hm1 (state_do_state _ _ _) Hl1) as H2.
    destruct (release_queue s1 l v w _ t (m_inv _ _ Hm1) Hl1 Hw) as [Hw2 Hat2].
    destruct (release_data s1 l) as (Hlk & _ & _).
    destruct (IH (do_release l s1) (gave_lock u l (got_lock u l h)) l t) as (s' & h' & Hrun & Hres).
    + by apply (step_matches _ _ H2).
    + by rewrite Hlk, lookup_insert_eq.
    + done.
    + apply Hat2. left. rewrite <- Hsl. unfold state_of. simpl. rewrite lookup_insert_ne; [done|].
      intros ->. congruence.
    + exists s', h'. split; [|done]. by eapply rtc_l, rtc_l.
Qed.

(** *** Waking, seen by the threads *)




(** ** The theorems *)

(** C36: Whatever the threads do, as long as each call is one that the documentation
    allows, no assertion of the primitives fails: every such call, and every
    resumption of a woken thread, completes or goes to sleep. *)
Theorem synch_never_panics ts s h e :
  run ts s h → enabled s e → ∃ r s', exec e s = Done (r, s') ∧ run ts s' (record e s r s' h).
Proof.
  intros Hr He. destruct (proj1 (wp_done _ _ _) (run_matches_step s h e (run_matches _ _ _ Hr) He))
    as (r & s' & Hex & _).
  exists r, s'. split; [done|]. eapply rtc_r; [done|]. by eapply step_intro.
Qed.

(** C37: Mutual exclusion: in every run, by the calls that have returned, at most one
    thread holds a lock at a time, and [lock_do_i_hold] tells a thread exactly
    whether it is the one. *)
Theorem locks_exclude ts s h l t :
  run ts s h → running s t → is_Some (lk_holder s !! l) →
  (∀ t1 t2, (t1, l) ∈ h_held h → (t2, l) ∈ h_held h → t1 = t2) ∧
  wp (lock_do_i_hold l t) (λ b s', s' = s ∧ (b = true ↔ (t, l) ∈ h_held h)) s.
Proof.
  intros [Hs Hheld Hcount]%run_matches (x & Hx & _)%state_thread [u Hl]. split.
  - intros t1 t2 H1%Hheld H2%Hheld. congruence.
  - destruct (prim_obj s Hs _ (lock_obj s Hs l _ Hl)) as [Ho _].
    unfold lock_do_i_hold, get_holder. wp_go. eapply wp_spinlock_acquire; [done..|]. wp_go.
    eapply wp_deref; [done|]. wp_go.
    apply wp_spinlock_release; [done..|by rewrite (prim_x s t x)|]. wp_go. split; [done|].
    rewrite bool_decide_eq_true, Hheld, Hl. naive_solver.
Qed.

(** C38: Semaphores count: in every run the count of each semaphore is its initial
    count, plus the calls of [V], minus the calls of [P] that have returned, and it
    is never negative: a [P] returns only when there is something to take. *)
Theorem semaphore_counts ts s h m :
  run ts s h → h_count h !! m = sem_count s !! m ∧ ∀ c, h_count h !! m = Some c → 0 ≤ c < 2 ^ 32.
Proof.
  intros [Hs Hheld Hcount]%run_matches. rewrite Hcount. split; [done|].
  intros c. apply (n_count _ (n_str _ Hs)).
Qed.

(** C39: No wakeup is lost. While a semaphore is above zero and a thread sleeps on it,
    another one has been woken there and its [P] returns as soon as it runs; while a
    lock is free and a thread sleeps on it, another one has been woken there and gets
    the lock as soon as it runs. *)
Theorem no_lost_wakeup ts s h t k :
  run ts s h → state_of s t = Some (S_SLEEP k) →
  (∃ m c, k = KP m ∧ sem_count s !! m = Some c ∧ 0 < c) ∨ (∃ l, k = KAcquire l ∧ lk_holder s !! l = Some None) →
  ∃ u s', state_of s u = Some (S_READY k) ∧ exec (EResume u) s = Done (None, s') ∧ running s' u.
Proof.
  intros [Hs _ _]%run_matches (x & Hx & Hk)%state_thread Hfree.
  assert (∀ w, wchan s !! obj_of k = Some w → w ≠ []) as Hne.
  { intros w Hw ->. assert (t ∈ @nil positive); [|set_solver].
    apply (n_queue _ (n_str _ Hs) _ _ Hw). by exists x, k. }
  assert (1 ≤ ready k s ∧ ∀ u, running (do_resume u k s) u) as [[u Hu]%ready_exists Hrun].
  { destruct Hfree as [(m & c & -> & Hc & Hpos)|(l & -> & Hl)].
    - destruct (prim_obj s Hs _ (sem_obj s Hs m c Hc)) as [_ [w Hw]].
      pose proof (n_swake _ Hs m c w Hc Hw (Hne w Hw)). split; [lia|]. intros u. simpl.
      unfold do_P. rewrite Hc. destruct c; [lia|apply state_do_state|lia].
    - destruct (prim_obj s Hs _ (lock_obj s Hs l _ Hl)) as [_ [w Hw]].
      pose proof (n_lwake _ Hs l w Hl Hw (Hne w Hw)). split; [lia|]. intros u. simpl.
      unfold do_acquire. rewrite Hl. apply state_do_state. }
  destruct (state_thread s u _ Hu) as (y & Hy & Hyk).
  assert (wp (exec (EResume u)) (λ r s', r = None ∧ s' = do_resume u k s) s)
    as (r & s' & Hex & -> & ->)%wp_done by (apply wp_no_result; by eapply wp_resume).
  by exists u, (do_resume u k s).
Qed.

(** Nobody is locked out: from every state of every run in which the lock is free
    or its holder runs, the run can go on so that any given thread that waits for the
    lock gets it. *)
Theorem lock_waiters_served ts s h l t u :
  run ts s h → at_wait s t (KAcquire l) → lk_holder s !! l = Some u →
  (∀ v, u = Some v → running s v) →
  ∃ s' h', rtc step (s, h) (s', h') ∧ (t, l) ∈ h_held h' ∧ running s' t.
Proof.
  intros Hm%run_matches Hat Hl Hv. pose proof (m_inv _ _ Hm) as Hs.
  destruct (prim_obj s Hs _ (lock_obj s Hs l _ Hl)) as [_ [w Hw]].
  destruct u as [v|]; [|by eapply waiting_gets].
  pose proof (step_give s h v l Hm (Hv v eq_refl) Hl) as H1.
  destruct (release_data s l) as (Hlk & _ & Hsp). destruct w as [|v' w].
  - destruct Hat as [(x & Hx & Hk)%state_thread|Hr].
    + assert (t ∈ @nil positive); [|set_solver].
      apply (n_queue _ (n_str _ Hs) _ _ Hw). by exists x, (KAcquire l).
    + destruct (waiting_gets [] (do_release l s) (gave_lock v l h) l t) as (s' & h' & Hrun & Hres).
      * by apply (step_matches _ _ H1).
      * by rewrite Hlk, lookup_insert_eq.
      * unfold do_release, do_wake. simpl. by rewrite Hw.
      * right. unfold do_release, do_wake. simpl. by rewrite Hw.
      * exists s', h'. split; [|done]. by eapply rtc_l.
  - destruct (release_queue s l v' w _ t Hs Hl Hw) as [Hw1 Hat1].
    destruct (waiting_gets w (do_release l s) (gave_lock v l h) l t) as (s' & h' & Hrun & Hres);
      [by apply (step_matches _ _ H1)|by rewrite Hlk, lookup_insert_eq|done|by apply Hat1|].
    exists s', h'. split; [|done]. by eapply rtc_l.
Qed.


(** ** A run *)

(** The calls that threads make, checked as [enabled] asks. *)
Definition allowed (s : sys) (e : event) : bool :=
  match e with
  | EP t m => bool_decide (running s t ∧ is_Some (sem_count s !! m))
  | EV t m => bool_decide (running s t) && (if sem_count s !! m is Some c then c + 1 <? 2 ^ 32 else false)
  | EAcquire t l => bool_decide (running s t)
      && (if lk_holder s !! l is Some h then bool_decide (h ≠ Some t) else false)
  | ERelease t l => bool_decide (running s t ∧ lk_holder s !! l = Some (Some t))
  | EWait t c l =>
      bool_decide (running s t ∧ is_Some (splk s !! OCv c) ∧ lk_holder s !! l = Some (Some t))
  | ESignal t c | EBroadcast t c => bool_decide (running s t ∧ is_Some (splk s !! OCv c))
  | EResume t => if state_of s t is Some (S_READY _) then true else false
  | ESemCreate _ _ _ n => (0 <=? n) && (n <? 2 ^ 32)
  | ELockCreate _ _ _ | ECvCreate _ _ _ => true
  | _ => false
  end.

Lemma allowed_enabled s e : allowed s e = true → enabled s e.
Proof.
  destruct e; simpl; rewrite ?andb_true_iff, ?bool_decide_eq_true; try done.
  - intros [Hr Hc]. destruct (sem_count s !! m) as [c|]; [|done]. split; [done|]. exists c. split; [done|lia].
  - intros [Hr Hc]. destruct (lk_holder s !! l) as [u|]; [|done]. split; [done|].
    exists u. by apply bool_decide_eq_true in Hc.
  - destruct (state_of s t) as [[|k|k]|]; try done. by exists k.
  - lia.
Qed.

Fixpoint play (es : list event) (c : sys * history) : option (sys * history) :=
  match es with
  | [] => Some c
  | e :: es =>
      if allowed c.1 e then
        match exec e c.1 with
        | Done (r, s') => play es (s', record e c.1 r s' c.2)
        | Panic => None
        end
      else None
  end.

Definition after (ts : gset positive) (es : list event) : sys * history :=
  default (initial ts, mkHistory ∅ ∅) (play es (initial ts, mkHistory ∅ ∅)).

Lemma after_run ts es : is_Some (play es (initial ts, mkHistory ∅ ∅)) → run ts (after ts es).1 (after ts es).2.
Proof.
  unfold after, run. generalize (initial ts, mkHistory ∅ ∅).
  induction es as [|e es IH]; intros c; simpl; [by intros _; destruct c|].
  destruct (allowed c.1 e) eqn:He; [|by intros []]. destruct (exec e c.1) as [[r s']|] eqn:Hex; [|by intros []].
  intros Hs. destruct (play es _) eqn:Hp; [|by destruct Hs]. simpl.
  specialize (IH (s', record e c.1 r s' c.2)). rewrite Hp in IH. simpl in IH.
  eapply rtc_l; [|by apply IH]. destruct c as [s h]. simpl in *.
  eapply step_intro; [by apply allowed_enabled|done].
Qed.

(** Thread 1 holds lock 1 while 2 and 3 go to sleep for it; then it lets it go. *)
Definition contended : list event :=
  [ELockCreate true true true; EAcquire 1 1; EAcquire 2 1; EAcquire 3 1].
Definition let_go : list event := contended ++ [ERelease 1 1].
Definition crew : gset positive := {[1; 2; 3]}%positive.

Lemma let_go_run : run crew (after crew let_go).1 (after crew let_go).2.
Proof. apply after_run. vm_compute. by eexists. Qed.
Lemma contended_run : run crew (after crew contended).1 (after crew contended).2.
Proof. apply after_run. vm_compute. by eexists. Qed.

Lemma synch_never_panics_witness :
  ∃ r s', exec (EResume 2) (after crew let_go).1 = Done (r, s') ∧
    run crew s' (record (EResume 2) (after crew let_go).1 r s' (after crew let_go).2).
Proof.
  apply (synch_never_panics crew); [apply let_go_run|]. exists (KAcquire 1). by vm_compute.
Defined.

Lemma locks_exclude_witness :
  let s := (after crew contended).1 in let h := (after crew contended).2 in
  (1%positive, 1%positive) ∈ h_held h ∧
  (∀ t1 t2, (t1, 1%positive) ∈ h_held h → (t2, 1%positive) ∈ h_held h → t1 = t2).
Proof.
  split; [by apply (bool_decide_unpack _); vm_compute|].
  assert (running (after crew contended).1 1) as Hr by (by vm_compute).
  assert (is_Some (lk_holder (after crew contended).1 !! 1%positive)) as Hl by (vm_compute; by eexists).
  exact (proj1 (locks_exclude crew _ _ 1 1 contended_run Hr Hl)).
Defined.

Definition counted_run : list event :=
  [ESemCreate true true true 2; EP 1 1; EP 2 1; EP 3 1; EV 1 1].
Lemma counted_run_run : run crew (after crew counted_run).1 (after crew counted_run).2.
Proof. apply after_run. vm_compute. by eexists. Qed.

Lemma semaphore_counts_witness :
  h_count (after crew counted_run).2 !! 1%positive = Some 1 ∧
  sem_count (after crew counted_run).1 !! 1%positive = Some 1.
Proof.
  split; [by vm_compute|].
  rewrite <- (proj1 (semaphore_counts crew _ _ 1 counted_run_run)). by vm_compute.
Defined.

Lemma no_lost_wakeup_witness :
  ∃ u s', state_of (after crew let_go).1 u = Some (S_READY (KAcquire 1)) ∧
    exec (EResume u) (after crew let_go).1 = Done (None, s') ∧ running s' u.
Proof.
  apply (no_lost_wakeup crew _ (after crew let_go).2 3); [apply let_go_run|by vm_compute|].
  right. exists 1%positive. split; [done|]. by vm_compute.
Defined.

Lemma lock_waiters_served_witness :
  ∃ s' h', rtc step ((after crew contended).1, (after crew contended).2) (s', h') ∧ (3%positive, 1%positive) ∈ h_held h' ∧ running s' 3.
Proof.
  apply (lock_waiters_served crew (after crew contended).1 (after crew contended).2 1 3 (Some 1%positive));
    [apply contended_run|left; by vm_compute|by vm_compute|].
  intros v [= <-]. by vm_compute.
Defined.



End SynchTheorems.
