(* ===== verification/Array.v ===== *)
(** * Resizeable arrays (kern/lib/array.c, kern/include/array.h)

    The array of pointers behind the typed arrays of the kernel (threads of a
    process, processors, wait channels), and the list that it stands for. *)

From Stdlib Require Import ZArith Lia.
From stdpp Require Import base numbers list.
From S2P Require Import Prelude.

Module Array.

(** The block [v] has a slot per pointer; a slot that was never written holds
    [None]. *)
Record array (A : Type) := mkArray { v : list (option A); num : Z; max : Z }.
Arguments mkArray {A} v num max.
Arguments v {A} a.
Arguments num {A} a.
Arguments max {A} a.

Section array.
Context {A : Type}.
Abbreviation array := (array A).

Definition array_init : array := mkArray [] 0 0.

Definition array_cleanup : M array unit :=
  n ← gets num; KASSERT (n =? 0) ;; modify (λ a, mkArray [] (num a) (max a)).

Definition array_num : M array Z := gets num.

Definition array_get (index : Z) : M array A :=
  a ← get; KASSERT (index <? num a) ;; o ← deref (znth (v a) index); deref o.

Definition array_set (index : Z) (val : A) : M array unit :=
  a ← get; KASSERT (index <? num a) ;;
  _ ← deref (znth (v a) index);
  put (mkArray (zset (v a) index (Some val)) (num a) (max a)).

(** The loop that doubles the capacity, unsigned; it goes on for ever when the
    doubling wraps round. *)
Fixpoint grow (fuel : nat) (n newmax : Z) : M array Z :=
  match fuel with
  | O => panic
  | S f => if n >? newmax then
             grow f n (if newmax =? 0 then 4 else (newmax * 2) mod 2 ^ 32)
           else mret newmax
  end.

(** [ok] is whether [kmalloc] finds memory; the size it is asked for is computed
    in 32 bits. *)
Definition array_preallocate (ok : bool) (n : Z) : M array (result unit) :=
  a ← get;
  if n >? max a then
    newmax ← grow 32 n (max a);
    if negb ok then mret (Err ENOMEM) else
    let slots := Z.to_nat ((newmax * 4) mod 2 ^ 32 / 4) in
    KASSERT (num a * 4 <=? (newmax * 4) mod 2 ^ 32) ;;
    put (mkArray (take (Z.to_nat (num a)) (v a) ++ replicate (slots - Z.to_nat (num a)) None)
           (num a) newmax) ;;
    mret (Ok tt)
  else mret (Ok tt).

Definition array_setsize (ok : bool) (n : Z) : M array (result unit) :=
  r ← array_preallocate ok n;
  match r with
  | Err e => mret (Err e)
  | Ok _ => modify (λ a, mkArray (v a) n (max a)) ;; mret (Ok tt)
  end.

(** The index of the new element. *)
Definition array_add (ok : bool) (val : A) : M array (result Z) :=
  index ← array_num;
  r ← array_setsize ok ((index + 1) mod 2 ^ 32);
  match r with
  | Err e => mret (Err e)
  | Ok _ =>
      a ← get; _ ← deref (znth (v a) index);
      put (mkArray (zset (v a) index (Some val)) (num a) (max a)) ;;
      mret (Ok index)
  end.

(** The elements after [index] move down by one; the last slot keeps its value. *)
Definition array_remove (index : Z) : M array unit :=
  a ← get;
  KASSERT (num a <=? max a) ;;
  KASSERT (index <? num a) ;;
  KASSERT (0 <=? index) ;;
  let i := Z.to_nat index in
  let num_to_move := Z.to_nat (num a - (index + 1)) in
  put (mkArray (take i (v a) ++ take num_to_move (drop (S i) (v a)) ++
                drop (i + num_to_move) (v a)) (num a - 1) (max a)).

#[local] Arguments grow : simpl never.

(** ** The list that an array holds *)

Record holds (a : array) (l : list A) : Prop := {
  h_num : num a = Z.of_nat (length l);
  h_fit : num a ≤ max a;
  h_max : max a < 2 ^ 30;
  h_len : Z.of_nat (length (v a)) = max a;
  h_elems : take (length l) (v a) = Some <$> l;
}.

Implicit Types (a : array) (l : list A).

Lemma holds_init : holds array_init [].
Proof. by split. Qed.

Lemma holds_lookup a l i x :
  holds a l → 0 ≤ i → l !! Z.to_nat i = Some x → znth (v a) i = Some (Some x).
Proof.
  intros Ha Hi Hx. rewrite znth_lookup by done. pose proof (lookup_lt_Some _ _ _ Hx).
  rewrite <- (lookup_take_lt _ (length l)), (h_elems _ _ Ha), list_lookup_fmap, Hx by done. done.
Qed.

Lemma array_get_spec a l i x (Q : A → array → Prop) :
  holds a l → 0 ≤ i → l !! Z.to_nat i = Some x → Q x a → wp (array_get i) Q a.
Proof.
  intros Ha Hi Hx HQ. unfold array_get. apply wp_bind. unfold get, wp. cbv beta iota.
  pose proof (h_num _ _ Ha). pose proof (lookup_lt_Some _ _ _ Hx).
  apply wp_bind, wp_KASSERT; [lia|]. apply wp_bind. eapply wp_deref; [by eapply holds_lookup|].
  by eapply wp_deref.
Qed.

Lemma array_set_spec a l i x (Q : unit → array → Prop) :
  holds a l → 0 ≤ i < Z.of_nat (length l) →
  (∀ a', holds a' (<[Z.to_nat i := x]> l) → Q tt a') → wp (array_set i x) Q a.
Proof.
  intros Ha Hi HQ. unfold array_set. apply wp_bind. unfold get, wp. cbv beta iota.
  pose proof (h_num _ _ Ha).
  destruct (lookup_lt_is_Some_2 l (Z.to_nat i)) as [y Hy]; [lia|].
  apply wp_bind, wp_KASSERT; [lia|]. apply wp_bind. eapply wp_deref; [eapply holds_lookup; [done|lia|done]|].
  apply HQ. destruct Ha as [H1 H2 H3 H4 H5]. split; simpl; try done.
  - by rewrite length_insert.
  - by rewrite length_zset.
  - unfold zset. rewrite length_insert, take_insert_lt, H5 by lia. by rewrite list_fmap_insert.
Qed.

(** ** Growing *)

Lemma grow_S fuel n m :
  grow (S fuel) n m =
    if n >? m then grow fuel n (if m =? 0 then 4 else (m * 2) mod 2 ^ 32) else mret m.
Proof. done. Qed.

Lemma grow_enough fuel n m :
  1 ≤ m → m < 2 ^ 30 → n ≤ 2 ^ 29 → n ≤ m * 2 ^ Z.of_nat fuel →
  ∀ a, ∃ r, grow (S fuel) n m a = Done (r, a) ∧ m ≤ r ∧ n ≤ r ∧ r < 2 ^ 30.
Proof.
  revert m. induction fuel as [|fuel IH]; intros m Hm Hm2 Hn Hle a.
  - exists m. rewrite grow_S. change (2 ^ Z.of_nat 0) with 1 in Hle. destruct (Z.gtb_spec n m); [lia|]. split; [done|lia].
  - rewrite grow_S. destruct (Z.gtb_spec n m) as [Hgt|]; [|exists m; split; [done|lia]].
    rewrite (proj2 (Z.eqb_neq m 0)) by lia. rewrite Z.mod_small by lia.
    destruct (IH (m * 2)) with (a := a) as (r & Hr & ?); try lia.
    + rewrite Nat2Z.inj_succ, Z.pow_succ_r in Hle by lia. lia.
    + exists r. split; [done|lia].
Qed.

Lemma grow_spec n m a :
  0 ≤ m < 2 ^ 30 → n ≤ 2 ^ 29 →
  ∃ r, grow 32 n m a = Done (r, a) ∧ m ≤ r ∧ n ≤ r ∧ r < 2 ^ 30.
Proof.
  intros Hm Hn. destruct (decide (m = 0)) as [->|].
  - rewrite (grow_S 31). destruct (Z.gtb_spec n 0); [|exists 0; split; [done|lia]].
    destruct (grow_enough 30 n 4) with (a := a) as (r & Hr & ?); [lia..|].
    exists r. split; [done|lia].
  - apply (grow_enough 31 n m); lia.
Qed.

(** Memory for [n] slots is made, or there is none and nothing changes. *)
Lemma array_preallocate_spec ok a l n (Q : result unit → array → Prop) :
  holds a l → 0 ≤ n ≤ 2 ^ 29 →
  (ok = false → Q (Err ENOMEM) a) →
  (∀ a', holds a' l → n ≤ max a' → Q (Ok tt) a') →
  wp (array_preallocate ok n) Q a.
Proof.
  intros Ha Hn Herr HQ. unfold array_preallocate. apply wp_bind. unfold get at 1, wp at 1. cbv beta iota.
  destruct Ha as [H1 H2 H3 H4 H5]. destruct (Z.gtb_spec n (max a)) as [Hgt|]; [|apply wp_ret, HQ; [done|lia]].
  apply wp_bind. destruct (grow_spec n (max a) a) as (r & Hr & Hr1 & Hr2 & Hr3); [lia..|].
  unfold wp at 1. rewrite Hr. destruct ok; [cbn [negb]|by apply wp_ret, Herr].
  rewrite !(Z.mod_small (r * 4)) by lia. rewrite Z.div_mul by lia.
  apply wp_bind, wp_KASSERT; [lia|]. apply wp_bind. unfold put, wp. cbv beta iota.
  apply HQ; [|simpl; lia]. split; simpl; try done; try lia.
  - rewrite length_app, length_take, length_replicate. lia.
  - rewrite take_app_le by (rewrite length_take; lia). rewrite take_take, Nat.min_l by lia. done.
Qed.

(** An element is added at the end, or there is no memory and nothing changes. *)
Lemma array_add_spec ok a l x (Q : result Z → array → Prop) :
  holds a l → Z.of_nat (length l) < 2 ^ 29 →
  (ok = false → Q (Err ENOMEM) a) →
  (∀ a', holds a' (l ++ [x]) → Q (Ok (Z.of_nat (length l))) a') →
  wp (array_add ok x) Q a.
Proof.
  intros Ha Hl Herr HQ. unfold array_add, array_setsize, array_num. wp_go.
  rewrite (h_num _ _ Ha), Z.mod_small by lia.
  apply (array_preallocate_spec ok a l); [done|lia|intros ->; wp_go; by apply Herr|].
  intros a' Ha' Hmax. wp_go. unfold get, wp at 1. cbv beta iota.
  destruct Ha' as [H1 H2 H3 H4 H5]. apply wp_bind.
  destruct (znth_is_Some (v a') (Z.of_nat (length l))) as [y Hy]; [lia|].
  eapply wp_deref; [done|]. apply wp_bind. unfold put, wp. cbv beta iota. simpl.
  apply HQ. split; simpl; try done.
  - rewrite length_app. simpl. lia.
  - by rewrite length_zset.
  - rewrite length_app, fmap_app, <- H5. simpl. unfold zset. rewrite Nat2Z.id.
    rewrite Nat.add_1_r. erewrite take_S_r by (apply list_lookup_insert_eq; lia).
    f_equal. apply take_insert_ge. lia.
Qed.

(** One element goes, the others keep their order. *)
Lemma array_remove_spec a l i (Q : unit → array → Prop) :
  holds a l → 0 ≤ i < Z.of_nat (length l) →
  (∀ a', holds a' (delete (Z.to_nat i) l) → Q tt a') → wp (array_remove i) Q a.
Proof.
  intros Ha Hi HQ. unfold array_remove. apply wp_bind. unfold get, wp at 1. cbv beta iota.
  destruct Ha as [H1 H2 H3 H4 H5].
  do 3 (apply wp_bind, wp_KASSERT; [lia|]). unfold put, wp.
  assert (length (delete (Z.to_nat i) l) = (length l - 1)%nat) as Hlen.
  { apply length_delete. apply lookup_lt_is_Some_2. lia. }
  apply HQ. split; simpl; try lia.
  - rewrite !length_app, length_take, length_take, !length_drop. lia.
  - rewrite Hlen, delete_take_drop, fmap_app, fmap_take, fmap_drop, <- H5.
    rewrite app_assoc. rewrite take_app_le.
    2: { rewrite length_app, !length_take, length_drop. lia. }
    rewrite take_ge by (rewrite length_app, !length_take, length_drop; lia).
    rewrite take_take, Nat.min_l by lia. f_equal.
    rewrite skipn_firstn_comm. f_equal. lia.
Qed.

(** Shrinking keeps the first elements. *)
Lemma array_shrink_spec ok a l n (Q : result unit → array → Prop) :
  holds a l → (n ≤ length l)%nat →
  (∀ a', holds a' (take n l) → Q (Ok tt) a') → wp (array_setsize ok (Z.of_nat n)) Q a.
Proof.
  intros Ha Hn HQ. destruct Ha as [H1 H2 H3 H4 H5]. unfold array_setsize, array_preallocate.
  apply wp_bind, wp_bind. unfold get at 1, wp at 1. cbv beta iota.
  destruct (Z.gtb_spec (Z.of_nat n) (max a)); [lia|]. wp_go. apply HQ.
  assert (length (take n l) = n) as Hlen by (rewrite length_take; lia).
  split; simpl; try done; try lia.
  rewrite Hlen, fmap_take, <- H5, take_take, Nat.min_l by lia. done.
Qed.

Lemma array_cleanup_spec a (Q : unit → array → Prop) :
  holds a [] → (∀ a', num a' = 0 → Q tt a') → wp array_cleanup Q a.
Proof.
  intros Ha HQ. pose proof (h_num _ _ Ha) as Hn. unfold array_cleanup. wp_go.
  apply wp_KASSERT; [rewrite Hn; done|]. wp_go. by apply HQ.
Qed.

End array.
End Array.
