(* ===== verification/Threadlist.v ===== *)
(** * Lists of threads (kern/thread/threadlist.c, kern/include/threadlist.h)

    Doubly linked lists with a bookend at each end, threaded through the threads
    themselves: a thread has one list node and is on one list at most. *)

From Stdlib Require Import ZArith Lia.
From stdpp Require Import base numbers list gmap.
From S2P Require Import Prelude.

Module Threadlist.

(** The address of a node: one of the two bookends of the list at [l], or the
    [t_listnode] of a thread.  A thread is known by the offset of its structure in
    the kernel's directly mapped segment, which is 2^29 bytes. *)
Inductive node (L : Type) := Head (l : L) | Tail (l : L) | Link (t : positive).
Arguments Head {L} l.
Arguments Tail {L} l.
Arguments Link {L} t.

#[export] Instance node_eq_dec {L} `{EqDecision L} : EqDecision (node L).
Proof. solve_decision. Defined.
#[export] Instance node_countable {L} `{Countable L} : Countable (node L).
Proof.
  apply (inj_countable'
    (λ n, match n with Head l => inl l | Tail l => inr (inl l) | Link t => inr (inr t) end)
    (λ x, match x with inl l => Head l | inr (inl l) => Tail l | inr (inr t) => Link t end)).
  by intros [].
Defined.

Record threadlistnode (L : Type) := mkNode {
  tln_prev : option (node L);
  tln_next : option (node L);
  tln_self : option positive;
}.
Arguments mkNode {L} tln_prev tln_next tln_self.
Arguments tln_prev {L} t.
Arguments tln_next {L} t.
Arguments tln_self {L} t.

(** The nodes there are, and [tl_count] of each list. *)
Record lists (L : Type) `{Countable L} := mkLists {
  nodes : gmap (node L) (threadlistnode L);
  tl_count : gmap L Z;
}.
Arguments mkLists {L _ _} nodes tl_count.
Arguments nodes {L _ _} l.
Arguments tl_count {L _ _} l.

Section threadlist.
Context {L : Type} `{Countable L}.
Abbreviation node := (node L).
Abbreviation lists := (lists L).

Definition node_get (n : node) : M lists (threadlistnode L) := o ← gets (λ s, nodes s !! n); deref o.
Definition node_put (n : node) (x : threadlistnode L) : M lists unit :=
  modify (λ s, mkLists (<[n := x]> (nodes s)) (tl_count s)).
Definition set_prev (n : node) (p : option node) : M lists unit :=
  x ← node_get n; node_put n (mkNode p (tln_next x) (tln_self x)).
Definition set_next (n : node) (p : option node) : M lists unit :=
  x ← node_get n; node_put n (mkNode (tln_prev x) p (tln_self x)).
Definition count_get (l : L) : M lists Z := o ← gets (λ s, tl_count s !! l); deref o.
Definition count_put (l : L) (n : Z) : M lists unit :=
  modify (λ s, mkLists (nodes s) (<[l := n]> (tl_count s))).

(** [tl_count++] and [tl_count--] on an unsigned. *)
Definition count_inc (l : L) : M lists unit := n ← count_get l; count_put l ((n + 1) mod 2 ^ 32).
Definition count_dec (l : L) : M lists unit := n ← count_get l; count_put l ((n - 1) mod 2 ^ 32).

Definition threadlistnode_init (t : positive) : M lists unit :=
  node_put (Link t) (mkNode None None (Some t)).

Definition threadlistnode_cleanup (t : positive) : M lists unit :=
  x ← node_get (Link t);
  KASSERT (bool_decide (tln_next x = None)) ;;
  KASSERT (bool_decide (tln_prev x = None)) ;;
  KASSERT (bool_decide (tln_self x ≠ None)).

Definition threadlist_init (l : L) : M lists unit :=
  node_put (Head l) (mkNode None (Some (Tail l)) None) ;;
  node_put (Tail l) (mkNode (Some (Head l)) None None) ;;
  count_put l 0.

Definition threadlist_isempty (l : L) : M lists bool := n ← count_get l; mret (n =? 0).

Definition threadlist_cleanup (l : L) : M lists unit :=
  b ← threadlist_isempty l;
  KASSERT b ;;
  n ← count_get l;
  KASSERT (n =? 0).

Definition threadlist_insertafternode (onlist : node) (t : positive) : M lists unit :=
  let addee := Link t in
  set_prev addee (Some onlist) ;;
  o ← node_get onlist;
  set_next addee (tln_next o) ;;
  x ← node_get addee;
  p ← deref (tln_prev x);
  set_next p (Some addee) ;;
  x ← node_get addee;
  n ← deref (tln_next x);
  set_prev n (Some addee).

Definition threadlist_insertbeforenode (t : positive) (onlist : node) : M lists unit :=
  let addee := Link t in
  o ← node_get onlist;
  set_prev addee (tln_prev o) ;;
  set_next addee (Some onlist) ;;
  x ← node_get addee;
  p ← deref (tln_prev x);
  set_next p (Some addee) ;;
  x ← node_get addee;
  n ← deref (tln_next x);
  set_prev n (Some addee).

Definition threadlist_removenode (n : node) : M lists unit :=
  x ← node_get n;
  p ← deref (tln_prev x);
  set_next p (tln_next x) ;;
  x ← node_get n;
  q ← deref (tln_next x);
  set_prev q (tln_prev x) ;;
  set_prev n None ;;
  set_next n None.

Definition threadlist_addhead (l : L) (t : positive) : M lists unit :=
  threadlist_insertafternode (Head l) t ;; count_inc l.

Definition threadlist_addtail (l : L) (t : positive) : M lists unit :=
  threadlist_insertbeforenode t (Tail l) ;; count_inc l.

Definition threadlist_remhead (l : L) : M lists (option positive) :=
  h ← node_get (Head l);
  n ← deref (tln_next h);
  x ← node_get n;
  match tln_next x with
  | None => mret None
  | Some _ =>
      threadlist_removenode n ;; count_dec l ;;
      x ← node_get n; mret (tln_self x)
  end.

Definition threadlist_remtail (l : L) : M lists (option positive) :=
  h ← node_get (Tail l);
  n ← deref (tln_prev h);
  x ← node_get n;
  match tln_prev x with
  | None => mret None
  | Some _ =>
      threadlist_removenode n ;; count_dec l ;;
      x ← node_get n; mret (tln_self x)
  end.

Definition threadlist_insertafter (l : L) (onlist addee : positive) : M lists unit :=
  threadlist_insertafternode (Link onlist) addee ;; count_inc l.

Definition threadlist_insertbefore (l : L) (addee onlist : positive) : M lists unit :=
  threadlist_insertbeforenode addee (Link onlist) ;; count_inc l.

Definition threadlist_remove (l : L) (t : positive) : M lists unit :=
  threadlist_removenode (Link t) ;; count_dec l.

(** ** Chains of nodes *)

Definition self (n : node) : option positive := match n with Link t => Some t | _ => None end.

(** The nodes [path] are linked both ways, after [p] and before [q]. *)
Fixpoint linked (ns : gmap node (threadlistnode L)) (p : option node) (path : list node)
    (q : option node) : Prop :=
  match path with
  | [] => True
  | n :: path' =>
      ns !! n = Some (mkNode p (from_option Some q (head path')) (self n)) ∧
      linked ns (Some n) path' q
  end.

Definition path (l : L) (xs : list positive) : list node := Head l :: (Link <$> xs) ++ [Tail l].

Implicit Types (ns : gmap node (threadlistnode L)) (p q : option node) (xs ys : list positive).

Lemma linked_frame ns ns' p ps q :
  (∀ n, n ∈ ps → ns' !! n = ns !! n) → linked ns p ps q → linked ns' p ps q.
Proof.
  revert p. induction ps as [|n ps IH]; intros p Hns; [done|]. intros [Hn Hps]. split.
  - rewrite Hns by set_solver. done.
  - apply IH; [|done]. intros n' Hn'. apply Hns. set_solver.
Qed.

Lemma linked_app ns p ps ps' q :
  linked ns p (ps ++ ps') q ↔
  linked ns p ps (from_option Some q (head ps')) ∧ linked ns (from_option Some p (last ps)) ps' q.
Proof.
  revert p. induction ps as [|n ps IH]; intros p; [simpl; tauto|]. simpl. rewrite IH.
  assert (head (ps ++ ps') = from_option Some (head ps') (head ps)) as -> by by destruct ps.
  assert (from_option Some (Some n) (last ps) = from_option Some p (last (n :: ps))) as ->.
  { destruct ps as [|n' ps]; [done|]. rewrite last_cons_cons. destruct (last (n' :: ps)) eqn:E; [done|].
    by apply last_None in E. }
  assert (from_option Some q (from_option Some (head ps') (head ps)) =
          from_option Some (from_option Some q (head ps')) (head ps)) as ->.
  { by destruct (head ps), (head ps'). }
  tauto.
Qed.

Lemma linked_lookup ns p ps n ps' q :
  linked ns p (ps ++ n :: ps') q →
  ns !! n = Some (mkNode (from_option Some p (last ps)) (from_option Some q (head ps')) (self n)).
Proof. intros [_ [Hn _]]%linked_app. done. Qed.

(** ** Inserting and removing a node *)

(** A new node between two neighbours [a] and [b]. *)
Lemma linked_insert ns ns' p ps a n b ps' q xa xb :
  linked ns p (ps ++ a :: b :: ps') q → NoDup (ps ++ a :: b :: ps') → n ∉ ps ++ a :: b :: ps' →
  ns !! a = Some xa → ns !! b = Some xb →
  ns' !! n = Some (mkNode (Some a) (Some b) (self n)) →
  ns' !! a = Some (mkNode (tln_prev xa) (Some n) (tln_self xa)) →
  ns' !! b = Some (mkNode (Some n) (tln_next xb) (tln_self xb)) →
  (∀ m, m ≠ n → m ≠ a → m ≠ b → ns' !! m = ns !! m) →
  linked ns' p (ps ++ a :: n :: b :: ps') q.
Proof.
  intros [Hps [Ha [Hb Hps']]]%linked_app (Hnd1 & Hnd & [Hna [Hnb Hnd2]%NoDup_cons]%NoDup_cons)%NoDup_app
    Hn Hxa Hxb Hn' Ha' Hb' Hrest.
  simplify_eq. simpl in *. apply linked_app. repeat split; try done.
  - eapply linked_frame; [|done]. intros m Hm. apply Hrest; [set_solver|..];
      intros ->; by eapply (Hnd _ Hm); set_solver.
  - eapply linked_frame; [|done]. intros m Hm. apply Hrest; set_solver.
Qed.

(** A node goes; its neighbours [a] and [b] become neighbours. *)
Lemma linked_remove ns ns' p ps a n b ps' q xa xb :
  linked ns p (ps ++ a :: n :: b :: ps') q → NoDup (ps ++ a :: n :: b :: ps') →
  ns !! a = Some xa → ns !! b = Some xb →
  ns' !! a = Some (mkNode (tln_prev xa) (Some b) (tln_self xa)) →
  ns' !! b = Some (mkNode (Some a) (tln_next xb) (tln_self xb)) →
  (∀ m, m ≠ n → m ≠ a → m ≠ b → ns' !! m = ns !! m) →
  linked ns' p (ps ++ a :: b :: ps') q.
Proof.
  intros [Hps [Ha [Hn [Hb Hps']]]]%linked_app (Hnd1 & Hnd & Hnd2)%NoDup_app Hxa Hxb Ha' Hb' Hrest.
  apply NoDup_cons in Hnd2 as [Hna [Hnn [Hnb Hnd2]%NoDup_cons]%NoDup_cons].
  simplify_eq. simpl in *. apply linked_app. repeat split; try done.
  - eapply linked_frame; [|done]. intros m Hm. apply Hrest; intros ->; by eapply (Hnd _ Hm); set_solver.
  - eapply linked_frame; [|done]. intros m Hm. apply Hrest; set_solver.
Qed.

Lemma wp_set_prev h n x p (Q : unit → lists → Prop) :
  nodes h !! n = Some x →
  Q tt (mkLists (<[n := mkNode p (tln_next x) (tln_self x)]> (nodes h)) (tl_count h)) →
  wp (set_prev n p) Q h.
Proof. intros Hn HQ. unfold set_prev, node_get, node_put. wp_go. eapply wp_deref; [done|]. by wp_go. Qed.

Lemma wp_set_next h n x p (Q : unit → lists → Prop) :
  nodes h !! n = Some x →
  Q tt (mkLists (<[n := mkNode (tln_prev x) p (tln_self x)]> (nodes h)) (tl_count h)) →
  wp (set_next n p) Q h.
Proof. intros Hn HQ. unfold set_next, node_get, node_put. wp_go. eapply wp_deref; [done|]. by wp_go. Qed.

Lemma wp_node_get h n x (Q : threadlistnode L → lists → Prop) :
  nodes h !! n = Some x → Q x h → wp (node_get n) Q h.
Proof. intros Hn HQ. unfold node_get. wp_go. by eapply wp_deref. Qed.

(** What both insertions do to the nodes. *)
Definition spliced ns (a n b : node) (xa xb : threadlistnode L) ns' : Prop :=
  ns' !! n = Some (mkNode (Some a) (Some b) (self n)) ∧
  ns' !! a = Some (mkNode (tln_prev xa) (Some n) (tln_self xa)) ∧
  ns' !! b = Some (mkNode (Some n) (tln_next xb) (tln_self xb)) ∧
  ∀ m, m ≠ n → m ≠ a → m ≠ b → ns' !! m = ns !! m.

Ltac node_map := simpl; repeat first [rewrite lookup_insert_eq | rewrite lookup_insert_ne by done].

Lemma wp_insertafternode h a t b xa xb (Q : unit → lists → Prop) :
  nodes h !! Link t = Some (mkNode None None (Some t)) → nodes h !! a = Some xa →
  nodes h !! b = Some xb → tln_next xa = Some b → a ≠ b → a ≠ Link t → b ≠ Link t →
  (∀ h', spliced (nodes h) a (Link t) b xa xb (nodes h') → tl_count h' = tl_count h → Q tt h') →
  wp (threadlist_insertafternode a t) Q h.
Proof.
  intros Hn Ha Hb Hab Hne Hna Hnb HQ. unfold threadlist_insertafternode. apply wp_bind.
  eapply wp_set_prev; [done|]. apply wp_bind. eapply wp_node_get; [node_map; done|].
  apply wp_bind. eapply wp_set_next; [node_map; done|]. apply wp_bind.
  eapply wp_node_get; [node_map; done|]. apply wp_bind. eapply wp_deref; [done|].
  apply wp_bind. eapply wp_set_next; [node_map; done|]. apply wp_bind.
  eapply wp_node_get; [node_map; done|]. apply wp_bind. eapply wp_deref; [done|].
  eapply wp_set_prev; [node_map; done|]. apply HQ; [|done].
  repeat split; intros; node_map; rewrite ?Hab; done.
Qed.

Lemma wp_insertbeforenode h a t b xa xb (Q : unit → lists → Prop) :
  nodes h !! Link t = Some (mkNode None None (Some t)) → nodes h !! a = Some xa →
  nodes h !! b = Some xb → tln_prev xb = Some a → a ≠ b → a ≠ Link t → b ≠ Link t →
  (∀ h', spliced (nodes h) a (Link t) b xa xb (nodes h') → tl_count h' = tl_count h → Q tt h') →
  wp (threadlist_insertbeforenode t b) Q h.
Proof.
  intros Hn Ha Hb Hab Hne Hna Hnb HQ. unfold threadlist_insertbeforenode. apply wp_bind.
  eapply wp_node_get; [done|]. apply wp_bind.
  eapply wp_set_prev; [done|]. apply wp_bind. eapply wp_set_next; [node_map; done|]. apply wp_bind.
  eapply wp_node_get; [node_map; done|]. rewrite Hab. apply wp_bind. eapply wp_deref; [done|].
  apply wp_bind. eapply wp_set_next; [node_map; done|]. apply wp_bind.
  eapply wp_node_get; [node_map; done|]. apply wp_bind. eapply wp_deref; [done|].
  eapply wp_set_prev; [node_map; done|]. apply HQ; [|done].
  repeat split; intros; node_map; done.
Qed.

Lemma wp_removenode h a n b xa xb o (Q : unit → lists → Prop) :
  nodes h !! n = Some (mkNode (Some a) (Some b) o) → nodes h !! a = Some xa →
  nodes h !! b = Some xb → a ≠ b → a ≠ n → b ≠ n →
  (∀ h', nodes h' !! n = Some (mkNode None None o) →
     nodes h' !! a = Some (mkNode (tln_prev xa) (Some b) (tln_self xa)) →
     nodes h' !! b = Some (mkNode (Some a) (tln_next xb) (tln_self xb)) →
     (∀ m, m ≠ n → m ≠ a → m ≠ b → nodes h' !! m = nodes h !! m) →
     tl_count h' = tl_count h → Q tt h') →
  wp (threadlist_removenode n) Q h.
Proof.
  intros Hn Ha Hb Hne Hna Hnb HQ. unfold threadlist_removenode. apply wp_bind.
  eapply wp_node_get; [done|]. apply wp_bind. eapply wp_deref; [done|]. apply wp_bind.
  eapply wp_set_next; [node_map; done|]. apply wp_bind. eapply wp_node_get; [node_map; done|].
  apply wp_bind. eapply wp_deref; [done|]. apply wp_bind. eapply wp_set_prev; [node_map; done|].
  apply wp_bind. eapply wp_set_prev; [node_map; done|]. eapply wp_set_next; [node_map; done|].
  apply HQ; intros; node_map; done.
Qed.

(** ** The lists that the nodes represent *)

(** Thread [t] is on none of the lists. *)
Definition off (C : gmap L (list positive)) (t : positive) : Prop :=
  ∀ l xs, C !! l = Some xs → t ∉ xs.

(** The nodes represent the lists [C] of the threads [F]. *)
Record rep (h : lists) (C : gmap L (list positive)) (F : gset positive) : Prop := {
  rep_linked : ∀ l xs, C !! l = Some xs → linked (nodes h) None (path l xs) None;
  rep_count : ∀ l xs, C !! l = Some xs → tl_count h !! l = Some (Z.of_nat (length xs));
  rep_nodup : ∀ l xs, C !! l = Some xs → NoDup xs;
  rep_one : ∀ l l' xs ys t, C !! l = Some xs → C !! l' = Some ys → t ∈ xs → t ∈ ys → l = l';
  rep_in : ∀ l xs t, C !! l = Some xs → t ∈ xs → t ∈ F;
  rep_off : ∀ t, t ∈ F → off C t → nodes h !! Link t = Some (mkNode None None (Some t));
  rep_addr : ∀ t, t ∈ F → Z.pos t < 2 ^ 29;
}.

Implicit Types (h : lists) (C : gmap L (list positive)) (F : gset positive).

Lemma NoDup_path l xs : NoDup xs → NoDup (path l xs).
Proof.
  intros Hnd. unfold path. apply NoDup_cons. split.
  - rewrite elem_of_app, list_elem_of_fmap. intros [(t & ? & _)|?%list_elem_of_singleton]; done.
  - apply NoDup_app. split; [|split].
    + by apply NoDup_fmap_2; [intros ?? [=]|].
    + intros n (t & -> & _)%list_elem_of_fmap ?%list_elem_of_singleton. done.
    + apply NoDup_singleton.
Qed.

Lemma elem_of_path l xs n :
  n ∈ path l xs ↔ n = Head l ∨ n = Tail l ∨ ∃ t, n = Link t ∧ t ∈ xs.
Proof.
  unfold path. rewrite elem_of_cons, elem_of_app, list_elem_of_fmap, list_elem_of_singleton. naive_solver.
Qed.

(** Kernel memory is 2^29 bytes, so a list has fewer than 2^29 threads. *)
Lemma short_list xs : NoDup xs → (∀ t, t ∈ xs → Z.pos t < 2 ^ 29) → Z.of_nat (length xs) < 2 ^ 29.
Proof.
  intros Hnd Ha.
  assert (NoDup (Z.pos <$> xs)) as Hnd' by (apply NoDup_fmap_2; [intros ?? [=]|]; done).
  assert (Z.pos <$> xs ⊆ seqZ 1 (2 ^ 29 - 1)) as Hsub.
  { intros z (t & -> & Ht)%list_elem_of_fmap. apply elem_of_seqZ. specialize (Ha t Ht). lia. }
  apply NoDup_submseteq in Hsub; [|done]. apply submseteq_length in Hsub.
  rewrite length_fmap, length_seqZ in Hsub. lia.
Qed.

Lemma rep_short h C F l xs : rep h C F → C !! l = Some xs → Z.of_nat (length xs) < 2 ^ 29.
Proof.
  intros HR Hl. apply short_list; [by eapply rep_nodup|]. intros t Ht.
  eapply rep_addr, rep_in; done.
Qed.

Lemma rep_size h C F l xs : rep h C F → C !! l = Some xs → (length xs ≤ size F)%nat.
Proof.
  intros HR Hl. rewrite <- (size_list_to_set (C := gset positive)) by by eapply rep_nodup.
  apply subseteq_size. intros t Ht%elem_of_list_to_set. by eapply rep_in.
Qed.

(** The threads on a list, read from the links. *)
Fixpoint follow (n : nat) ns (nd : node) : list positive :=
  match n with
  | O => []
  | S n' => match ns !! nd with
            | Some x => match tln_next x with Some (Link t) => t :: follow n' ns (Link t) | _ => [] end
            | None => []
            end
  end.
Definition members (h : lists) (l : L) : list positive :=
  follow (Z.to_nat (default 0 (tl_count h !! l))) (nodes h) (Head l).

Lemma follow_linked ns p nd xs l :
  linked ns p (nd :: (Link <$> xs) ++ [Tail l]) None → follow (length xs) ns nd = xs.
Proof.
  revert p nd. induction xs as [|x xs IH]; intros p nd; [done|]. intros [Hn Hl]. simpl in *. rewrite Hn. simpl.
  f_equal. by eapply IH.
Qed.

Lemma rep_members h C F l xs : rep h C F → C !! l = Some xs → members h l = xs.
Proof.
  intros HR Hl. unfold members. rewrite (rep_count _ _ _ HR _ _ Hl). simpl. rewrite Nat2Z.id.
  eapply follow_linked. exact (rep_linked _ _ _ HR _ _ Hl).
Qed.

(** One of the lists is changed. *)
Lemma rep_update h h' C F l xs ys :
  rep h C F → C !! l = Some xs →
  linked (nodes h') None (path l ys) None →
  tl_count h' = <[l := Z.of_nat (length ys)]> (tl_count h) →
  NoDup ys → (∀ t, t ∈ ys → t ∈ F ∧ (t ∈ xs ∨ off C t)) →
  (∀ n, n ∉ path l xs → n ∉ path l ys → nodes h' !! n = nodes h !! n) →
  (∀ t, t ∈ xs → t ∉ ys → nodes h' !! Link t = Some (mkNode None None (Some t))) →
  rep h' (<[l := ys]> C) F.
Proof.
  intros HR Hl Hys Hc Hnd Hfrom Hsame Hout.
  assert (∀ l' zs t, l ≠ l' → C !! l' = Some zs → t ∈ zs → t ∉ xs ∧ t ∉ ys) as Hdisj.
  { intros l' zs t Hne Hl' Ht.
    assert (t ∉ xs) as Hx by (intros Hx; by destruct (Hne (rep_one _ _ _ HR _ _ _ _ _ Hl Hl' Hx Ht))).
    split; [done|]. intros [_ [?|Ho]]%Hfrom; [done|]. by eapply Ho. }
  split.
  - intros l' zs. destruct (decide (l = l')) as [<-|Hne].
    { rewrite lookup_insert_eq. intros [= <-]. done. }
    rewrite lookup_insert_ne by done. intros Hl'. eapply linked_frame; [|by eapply rep_linked].
    intros n Hn%elem_of_path.
    apply Hsame; rewrite elem_of_path; naive_solver.
  - intros l' zs. rewrite Hc. destruct (decide (l = l')) as [<-|Hne].
    { rewrite !lookup_insert_eq. by intros [= <-]. }
    rewrite !lookup_insert_ne by done. apply (rep_count _ _ _ HR).
  - intros l' zs [[<- <-]|[? ?]]%lookup_insert_Some; [done|]. by eapply rep_nodup.
  - intros l1 l2 zs1 zs2 t [[<- <-]|[? ?]]%lookup_insert_Some [[<- <-]|[? ?]]%lookup_insert_Some Ht1 Ht2;
      [done|naive_solver|naive_solver|]. by eapply rep_one.
  - intros l' zs t [[<- <-]|[? ?]]%lookup_insert_Some Ht; [by apply Hfrom|]. by eapply rep_in.
  - intros t HtF Hoff. assert (t ∉ ys) as Hty by (eapply Hoff; apply lookup_insert_eq).
    destruct (decide (t ∈ xs)) as [Hx|Hx]; [by apply Hout|].
    rewrite Hsame by (rewrite elem_of_path; naive_solver).
    apply (rep_off _ _ _ HR); [done|]. intros l' zs Hl'. destruct (decide (l = l')) as [<-|Hne]; [naive_solver|].
    apply (Hoff l'). by rewrite lookup_insert_ne.
  - apply (rep_addr _ _ _ HR).
Qed.

Lemma wp_count_inc h l n (Q : unit → lists → Prop) :
  tl_count h !! l = Some n → n + 1 < 2 ^ 32 → 0 ≤ n →
  Q tt (mkLists (nodes h) (<[l := n + 1]> (tl_count h))) → wp (count_inc l) Q h.
Proof.
  intros Hl Hn H0 HQ. unfold count_inc, count_get, count_put. wp_go. eapply wp_deref; [done|]. wp_go.
  by rewrite Z.mod_small by lia.
Qed.

Lemma wp_count_dec h l n (Q : unit → lists → Prop) :
  tl_count h !! l = Some n → 0 < n < 2 ^ 32 →
  Q tt (mkLists (nodes h) (<[l := n - 1]> (tl_count h))) → wp (count_dec l) Q h.
Proof.
  intros Hl Hn HQ. unfold count_dec, count_get, count_put. wp_go. eapply wp_deref; [done|]. wp_go.
  by rewrite Z.mod_small by lia.
Qed.

(** ** The operations *)

(** The nodes before and after a place in a list. *)
Definition node_before (l : L) xs : node := from_option Link (Head l) (last xs).
Definition node_after (l : L) ys : node := from_option Link (Tail l) (head ys).

Lemma path_split l xs ys :
  ∃ ps ps', path l (xs ++ ys) = ps ++ node_before l xs :: node_after l ys :: ps' ∧
    ∀ t, path l (xs ++ t :: ys) = ps ++ node_before l xs :: Link t :: node_after l ys :: ps'.
Proof.
  assert (∃ ps, Head l :: (Link <$> xs) = ps ++ [node_before l xs]) as [ps Hps].
  { unfold node_before. induction xs as [|x xs _] using rev_ind; [by exists []|].
    exists (Head l :: (Link <$> xs)). by rewrite last_snoc, fmap_app. }
  assert (∃ ps', (Link <$> ys) ++ [Tail l] = node_after l ys :: ps') as [ps' Hps'].
  { destruct ys as [|y ys]; simpl; eauto. }
  exists ps, ps'. unfold path. split.
  - rewrite fmap_app, <- app_assoc, Hps', app_comm_cons, Hps, <- app_assoc. done.
  - intros t. rewrite fmap_app, <- app_assoc, fmap_cons. simpl. rewrite Hps', app_comm_cons, Hps, <- app_assoc.
    done.
Qed.

(** Inserting between two neighbours, from either side. *)
Lemma wp_insert_at h C F l xs ys t (Q : unit → lists → Prop) (ins : M lists unit) :
  rep h C F → C !! l = Some (xs ++ ys) → t ∈ F → off C t →
  ins = threadlist_insertafternode (node_before l xs) t ∨
  ins = threadlist_insertbeforenode t (node_after l ys) →
  (∀ h', rep h' (<[l := xs ++ t :: ys]> C) F → Q tt h') →
  wp (ins ;; count_inc l) Q h.
Proof.
  intros HR Hl Ht Hoff Hins HQ. destruct (path_split l xs ys) as (ps & ps' & Hp & Hp').
  pose proof (NoDup_path l _ (rep_nodup _ _ _ HR _ _ Hl)) as Hnd.
  pose proof (rep_linked _ _ _ HR _ _ Hl) as Hlk. rewrite Hp in Hnd, Hlk.
  set (a := node_before l xs) in *. set (b := node_after l ys) in *.
  pose proof (linked_lookup _ _ ps a (b :: ps') _ Hlk) as Ha. simpl in Ha.
  pose proof Hlk as Hlk2. rewrite cons_middle, app_assoc in Hlk2.
  pose proof (linked_lookup _ _ (ps ++ [a]) b ps' _ Hlk2) as Hb. rewrite last_snoc in Hb. simpl in Hb.
  assert (Link t ∉ ps ++ a :: b :: ps') as Hnt.
  { rewrite <- Hp, elem_of_path. intros [?|[?|(t' & [= <-] & Hx)]]; [done..|]. by eapply Hoff. }
  assert (a ≠ b) as Hab.
  { intros E. rewrite E in Hnd. apply NoDup_app in Hnd as (_ & _ & Hd). inversion Hd. set_solver. }
  match type of Ha with _ = Some ?x => set (xa := x) in Ha end.
  match type of Hb with _ = Some ?x => set (xb := x) in Hb end. apply wp_bind.
  assert (wp ins (λ _ h', spliced (nodes h) a (Link t) b xa xb (nodes h') ∧ tl_count h' = tl_count h) h) as Hwp.
  { pose proof (rep_off _ _ _ HR t Ht Hoff) as Hf.
    destruct Hins as [-> | ->]; [apply (wp_insertafternode h a t b xa xb)|apply (wp_insertbeforenode h a t b xa xb)];
      auto; try (intros E; apply Hnt; rewrite <- E; set_solver). }
  eapply wp_mono; [|exact Hwp]. intros [] h' [(Hn' & Ha' & Hb' & Hrest) Hc].
  pose proof (rep_nodup _ _ _ HR _ _ Hl) as Hnd0.
  assert (NoDup (xs ++ t :: ys)) as Hnd'.
  { rewrite <- Permutation_middle. apply NoDup_cons. split; [by eapply Hoff|done]. }
  assert (Z.of_nat (length (xs ++ t :: ys)) < 2 ^ 29) as Hsh.
  { apply short_list; [done|]. intros t' Ht'. apply (rep_addr _ _ _ HR).
    rewrite <- Permutation_middle in Ht'. apply elem_of_cons in Ht' as [->|]; [done|]. by eapply rep_in. }
  rewrite length_app in Hsh. simpl in Hsh.
  eapply wp_count_inc; [rewrite Hc; by eapply rep_count|rewrite length_app; lia|lia|].
  apply HQ. eapply (rep_update h); [done|done|..].
  - rewrite Hp'. by eapply linked_insert.
  - simpl. rewrite Hc. f_equal. rewrite !length_app. simpl. lia.
  - done.
  - intros t' Ht'. rewrite <- Permutation_middle in Ht'. apply elem_of_cons in Ht' as [->|]; [by auto|].
    split; [by eapply rep_in|by left].
  - intros n Hn1 Hn2. rewrite Hp in Hn1. rewrite Hp' in Hn2. apply Hrest; set_solver.
  - intros t' Hin Hout. destruct Hout. rewrite <- Permutation_middle. by right.
Qed.

Lemma threadlist_addhead_spec h C F l xs t (Q : unit → lists → Prop) :
  rep h C F → C !! l = Some xs → t ∈ F → off C t →
  (∀ h', rep h' (<[l := t :: xs]> C) F → Q tt h') → wp (threadlist_addhead l t) Q h.
Proof. intros HR Hl Ht Ho HQ. apply (wp_insert_at h C F l [] xs t); auto. Qed.

Lemma threadlist_addtail_spec h C F l xs t (Q : unit → lists → Prop) :
  rep h C F → C !! l = Some xs → t ∈ F → off C t →
  (∀ h', rep h' (<[l := xs ++ [t]]> C) F → Q tt h') → wp (threadlist_addtail l t) Q h.
Proof.
  intros HR Hl Ht Ho HQ. apply (wp_insert_at h C F l xs [] t); auto. by rewrite app_nil_r.
Qed.

Lemma threadlist_insertafter_spec h C F l xs o ys t (Q : unit → lists → Prop) :
  rep h C F → C !! l = Some (xs ++ o :: ys) → t ∈ F → off C t →
  (∀ h', rep h' (<[l := xs ++ o :: t :: ys]> C) F → Q tt h') → wp (threadlist_insertafter l o t) Q h.
Proof.
  intros HR Hl Ht Ho HQ. rewrite cons_middle, app_assoc in Hl.
  apply (wp_insert_at h C F l (xs ++ [o]) ys t); auto.
  - left. unfold node_before. by rewrite last_snoc.
  - intros h' Hh'. apply HQ. rewrite (cons_middle o), app_assoc. done.
Qed.

Lemma threadlist_insertbefore_spec h C F l xs o ys t (Q : unit → lists → Prop) :
  rep h C F → C !! l = Some (xs ++ o :: ys) → t ∈ F → off C t →
  (∀ h', rep h' (<[l := xs ++ t :: o :: ys]> C) F → Q tt h') → wp (threadlist_insertbefore l t o) Q h.
Proof. intros HR Hl Ht Ho HQ. apply (wp_insert_at h C F l xs (o :: ys) t); auto. Qed.

(** Removing a thread from the middle; its node can be read afterwards. *)
Lemma wp_remove_at h C F l xs t ys (Q : unit → lists → Prop) :
  rep h C F → C !! l = Some (xs ++ t :: ys) →
  (∀ h', rep h' (<[l := xs ++ ys]> C) F →
     nodes h' !! Link t = Some (mkNode None None (Some t)) → Q tt h') →
  wp (threadlist_removenode (Link t) ;; count_dec l) Q h.
Proof.
  intros HR Hl HQ. destruct (path_split l xs ys) as (ps & ps' & Hp & Hp'). specialize (Hp' t).
  pose proof (rep_nodup _ _ _ HR _ _ Hl) as Hnd0.
  pose proof (NoDup_path l _ Hnd0) as Hnd.
  pose proof (rep_linked _ _ _ HR _ _ Hl) as Hlk. rewrite Hp' in Hnd, Hlk.
  set (a := node_before l xs) in *. set (b := node_after l ys) in *.
  pose proof (linked_lookup _ _ ps a (Link t :: b :: ps') _ Hlk) as Ha. simpl in Ha.
  pose proof Hlk as Hlk2. rewrite cons_middle, app_assoc in Hlk2.
  pose proof (linked_lookup _ _ (ps ++ [a]) (Link t) (b :: ps') _ Hlk2) as Hn. rewrite last_snoc in Hn.
  simpl in Hn. rewrite (cons_middle (Link t)), app_assoc in Hlk2.
  pose proof (linked_lookup _ _ ((ps ++ [a]) ++ [Link t]) b ps' _ Hlk2) as Hb. rewrite last_snoc in Hb.
  simpl in Hb. pose proof Hnd as Hnd1. apply NoDup_app in Hnd1 as (_ & _ & Hd).
  apply NoDup_cons in Hd as [Hd1 [Hd2 Hd3]%NoDup_cons].
  apply wp_bind. eapply wp_removenode; [exact Hn|exact Ha|exact Hb|set_solver..|].
  intros h' Hn' Ha' Hb' Hrest Hc.
  pose proof (rep_short _ _ _ _ _ HR Hl) as Hsh. rewrite length_app in Hsh. simpl in Hsh.
  eapply wp_count_dec; [rewrite Hc; by eapply rep_count|rewrite length_app; simpl; lia|].
  rewrite <- Permutation_middle in Hnd0. apply NoDup_cons in Hnd0 as [Hnt Hnd0].
  apply HQ; [|done]. eapply (rep_update h); [done|done|..].
  - rewrite Hp. by eapply linked_remove.
  - simpl. rewrite Hc. f_equal. rewrite !length_app. simpl. lia.
  - done.
  - intros t' Ht'. assert (t' ∈ xs ++ t :: ys) as Hin by (rewrite <- Permutation_middle; by right).
    split; [by eapply rep_in|by left].
  - intros n Hn1 Hn2. rewrite Hp' in Hn1. apply Hrest; set_solver.
  - intros t' Hin Hout. rewrite <- Permutation_middle in Hin. apply elem_of_cons in Hin as [->|]; done.
Qed.

Lemma threadlist_remove_spec h C F l xs t ys (Q : unit → lists → Prop) :
  rep h C F → C !! l = Some (xs ++ t :: ys) →
  (∀ h', rep h' (<[l := xs ++ ys]> C) F → Q tt h') → wp (threadlist_remove l t) Q h.
Proof. intros HR Hl HQ. eapply wp_remove_at; eauto. Qed.

Lemma threadlist_remhead_spec h C F l xs (Q : option positive → lists → Prop) :
  rep h C F → C !! l = Some xs →
  (∀ h', rep h' (<[l := tail xs]> C) F → Q (head xs) h') → wp (threadlist_remhead l) Q h.
Proof.
  intros HR Hl HQ. pose proof (rep_linked _ _ _ HR _ _ Hl) as Hlk. unfold threadlist_remhead.
  destruct xs as [|t xs].
  - destruct Hlk as [Hh [Ht _]]. apply wp_bind. eapply wp_node_get; [done|]. apply wp_bind.
    eapply wp_deref; [done|]. apply wp_bind. eapply wp_node_get; [done|]. simpl. apply wp_ret.
    apply HQ. simpl. by rewrite insert_id.
  - destruct Hlk as [Hh [Ht _]]. apply wp_bind. eapply wp_node_get; [done|]. apply wp_bind.
    eapply wp_deref; [done|]. apply wp_bind. eapply wp_node_get; [done|]. cbn [tln_next].
    change (list_fmap positive node Link xs) with (Link (L := L) <$> xs).
    destruct (from_option Some None (head ((Link <$> xs) ++ [Tail l]))) as [n|] eqn:E; [|by destruct xs].
    apply wp_assoc, wp_bind. eapply (wp_remove_at h C F l [] t xs); [done|done|].
    intros h' HR' Hn'. apply wp_bind. eapply wp_node_get; [done|]. apply wp_ret. by apply HQ.
Qed.

Lemma threadlist_remtail_spec h C F l xs (Q : option positive → lists → Prop) :
  rep h C F → C !! l = Some xs →
  (∀ h', rep h' (<[l := removelast xs]> C) F → Q (last xs) h') → wp (threadlist_remtail l) Q h.
Proof.
  intros HR Hl HQ. pose proof (rep_linked _ _ _ HR _ _ Hl) as Hlk. unfold threadlist_remtail.
  destruct xs as [|t xs _] using rev_ind.
  - destruct Hlk as [Hh [Ht _]]. apply wp_bind. eapply wp_node_get; [done|]. apply wp_bind.
    eapply wp_deref; [done|]. apply wp_bind. eapply wp_node_get; [done|]. simpl. apply wp_ret.
    apply HQ. simpl. by rewrite insert_id.
  - assert (path l (xs ++ [t]) = (Head l :: (Link <$> xs)) ++ [Link t; Tail l]) as Hp.
    { unfold path. by rewrite fmap_app, <- app_assoc. }
    rewrite Hp in Hlk. pose proof (linked_lookup _ _ _ (Link t) [Tail l] _ Hlk) as Ht.
    rewrite (cons_middle (Link t)), app_assoc in Hlk.
    pose proof (linked_lookup _ _ _ (Tail l) [] _ Hlk) as Hh. rewrite last_snoc in Hh. simpl in Hh.
    apply wp_bind. eapply wp_node_get; [done|]. apply wp_bind. eapply wp_deref; [done|].
    apply wp_bind. eapply wp_node_get; [done|]. cbn [tln_prev].
    assert (∃ n, from_option Some None (last (Head l :: (Link <$> xs))) = Some n) as [n ->].
    { destruct (last (Head l :: (Link <$> xs))) eqn:E; [by eexists|]. by apply last_None in E. }
    apply wp_assoc, wp_bind. eapply (wp_remove_at h C F l xs t []); [done|done|].
    intros h' HR' Hn'. apply wp_bind. eapply wp_node_get; [done|]. apply wp_ret.
    rewrite last_snoc in HQ. apply HQ. rewrite removelast_last. by rewrite app_nil_r in HR'.
Qed.

Lemma threadlist_isempty_spec h C F l xs (Q : bool → lists → Prop) :
  rep h C F → C !! l = Some xs → Q (bool_decide (xs = [])) h → wp (threadlist_isempty l) Q h.
Proof.
  intros HR Hl HQ. unfold threadlist_isempty, count_get. wp_go.
  eapply wp_deref; [by eapply rep_count|]. wp_go. by destruct xs.
Qed.

Lemma threadlist_cleanup_spec h C F l (Q : unit → lists → Prop) :
  rep h C F → C !! l = Some [] → Q tt h → wp (threadlist_cleanup l) Q h.
Proof.
  intros HR Hl HQ. unfold threadlist_cleanup, count_get. apply wp_bind.
  eapply threadlist_isempty_spec; [done|done|]. wp_check.
  eapply wp_deref; [by eapply rep_count|]. by apply wp_KASSERT.
Qed.

(** A list can be made anew where there was none, or an empty one. *)
Lemma threadlist_init_spec h C F l (Q : unit → lists → Prop) :
  rep h C F → default [] (C !! l) = [] →
  (∀ h', rep h' (<[l := []]> C) F → Q tt h') → wp (threadlist_init l) Q h.
Proof.
  intros HR Hl HQ. unfold threadlist_init, node_put, count_put. wp_go. apply HQ.
  destruct HR as [H1 H2 H3 H4 H5 H6 H7].
  assert (∀ l' xs t, <[l := []]> C !! l' = Some xs → t ∈ xs → C !! l' = Some xs ∧ l ≠ l') as Hin.
  { intros l' xs t [[<- <-]|[? ?]]%lookup_insert_Some Ht; [set_solver|done]. }
  split; cbn [nodes tl_count].
  - intros l' xs. destruct (decide (l = l')) as [<-|Hne].
    { rewrite lookup_insert_eq. intros [= <-]. simpl.
      rewrite lookup_insert_ne, !lookup_insert_eq by done. done. }
    rewrite lookup_insert_ne by done. intros Hl'. eapply linked_frame; [|by apply H1].
    intros n [->|[->|(t & -> & _)]]%elem_of_path; by rewrite !lookup_insert_ne by congruence.
  - intros l' xs. destruct (decide (l = l')) as [<-|Hne].
    { rewrite !lookup_insert_eq. by intros [= <-]. }
    rewrite !lookup_insert_ne by done. apply H2.
  - intros l' xs [[<- <-]|[? ?]]%lookup_insert_Some; [apply NoDup_nil_2|eauto].
  - intros l1 l2 xs ys t Hx Hy Ht1 Ht2. destruct (Hin _ _ _ Hx Ht1), (Hin _ _ _ Hy Ht2). eauto.
  - intros l' xs t Hx Ht. destruct (Hin _ _ _ Hx Ht). eauto.
  - intros t HtF Hoff. rewrite !lookup_insert_ne by done. apply H6; [done|].
    intros l' xs Hl' Ht. destruct (decide (l = l')) as [<-|Hne].
    + rewrite Hl' in Hl. simpl in Hl. subst. set_solver.
    + eapply Hoff; [|done]. by rewrite lookup_insert_ne.
  - done.
Qed.

Lemma threadlistnode_init_spec h C F t (Q : unit → lists → Prop) :
  rep h C F → t ∉ F → Z.pos t < 2 ^ 29 →
  (∀ h', rep h' C ({[t]} ∪ F) → Q tt h') → wp (threadlistnode_init t) Q h.
Proof.
  intros [H1 H2 H3 H4 H5 H6 H7] Ht Hr HQ. unfold threadlistnode_init, node_put. wp_go. apply HQ.
  assert (∀ l xs, C !! l = Some xs → t ∉ xs) as Hnt by (intros l xs Hl Hx; destruct Ht; eauto).
  split; cbn [nodes tl_count]; try done.
  - intros l xs Hl. eapply linked_frame; [|by apply H1].
    intros n [->|[->|(t' & -> & Ht')]]%elem_of_path; rewrite lookup_insert_ne; try done.
    intros [= <-]. by eapply Hnt.
  - intros l xs t' Hl Ht'. apply elem_of_union. right. eauto.
  - intros t' HtF Hoff. destruct (decide (t = t')) as [<-|Hne]; [apply lookup_insert_eq|].
    rewrite lookup_insert_ne by congruence. apply H6; [set_solver|done].
  - intros t' [->%elem_of_singleton|?]%elem_of_union; auto.
Qed.

Lemma threadlistnode_cleanup_spec h C F t (Q : unit → lists → Prop) :
  rep h C F → t ∈ F → off C t → Q tt h → wp (threadlistnode_cleanup t) Q h.
Proof.
  intros HR Ht Ho HQ. unfold threadlistnode_cleanup. apply wp_bind.
  eapply wp_node_get; [by apply (rep_off _ _ _ HR)|]. wp_check. wp_check. by apply wp_KASSERT.
Qed.

(** Threads that are on no list can go. *)
Lemma rep_forget h C F t : rep h C F → off C t → rep h C (F ∖ {[t]}).
Proof.
  intros [H1 H2 H3 H4 H5 H6 H7] Ho. split; try done.
  - intros l xs t' Hl Ht'. apply elem_of_difference. split; [eauto|].
    intros ->%elem_of_singleton. by eapply Ho.
  - intros t' [? ?]%elem_of_difference. auto.
  - intros t' [? ?]%elem_of_difference. auto.
Qed.

(** ** Lists of threads as lists *)

Inductive call :=
| NodeInit (t : positive) | NodeCleanup (t : positive)
| Init (l : L) | Cleanup (l : L) | IsEmpty (l : L)
| AddHead (l : L) (t : positive) | AddTail (l : L) (t : positive)
| RemHead (l : L) | RemTail (l : L)
| InsertAfter (l : L) (o t : positive) | InsertBefore (l : L) (t o : positive)
| Remove (l : L) (t : positive).

Inductive answer := Nothing | Bool (b : bool) | Thread (o : option positive).

Definition exec (c : call) : M lists answer :=
  match c with
  | NodeInit t => threadlistnode_init t ;; mret Nothing
  | NodeCleanup t => threadlistnode_cleanup t ;; mret Nothing
  | Init l => threadlist_init l ;; mret Nothing
  | Cleanup l => threadlist_cleanup l ;; mret Nothing
  | IsEmpty l => b ← threadlist_isempty l; mret (Bool b)
  | AddHead l t => threadlist_addhead l t ;; mret Nothing
  | AddTail l t => threadlist_addtail l t ;; mret Nothing
  | RemHead l => o ← threadlist_remhead l; mret (Thread o)
  | RemTail l => o ← threadlist_remtail l; mret (Thread o)
  | InsertAfter l o t => threadlist_insertafter l o t ;; mret Nothing
  | InsertBefore l t o => threadlist_insertbefore l t o ;; mret Nothing
  | Remove l t => threadlist_remove l t ;; mret Nothing
  end.

(** What a call does to the lists; [None] is a call that the rules of the
    interface forbid. *)
Definition spec (c : call) (C : gmap L (list positive)) (F : gset positive)
  : option (answer * gmap L (list positive) * gset positive) :=
  let free t := bool_decide (t ∈ F ∧ map_Forall (λ _ xs, t ∉ xs) C) in
  match c with
  | NodeInit t => if bool_decide (t ∉ F ∧ Z.pos t < 2 ^ 29) then Some (Nothing, C, {[t]} ∪ F) else None
  | NodeCleanup t => if free t then Some (Nothing, C, F) else None
  | Init l => if bool_decide (default [] (C !! l) = []) then Some (Nothing, <[l := []]> C, F) else None
  | Cleanup l => if bool_decide (C !! l = Some []) then Some (Nothing, C, F) else None
  | IsEmpty l => xs ← C !! l; Some (Bool (bool_decide (xs = [])), C, F)
  | AddHead l t => xs ← C !! l; if free t then Some (Nothing, <[l := t :: xs]> C, F) else None
  | AddTail l t => xs ← C !! l; if free t then Some (Nothing, <[l := xs ++ [t]]> C, F) else None
  | RemHead l => xs ← C !! l; Some (Thread (head xs), <[l := tail xs]> C, F)
  | RemTail l => xs ← C !! l; Some (Thread (last xs), <[l := removelast xs]> C, F)
  | InsertAfter l o t =>
      xs ← C !! l; '(i, _) ← list_find (o =.) xs;
      if free t then Some (Nothing, <[l := take (S i) xs ++ t :: drop (S i) xs]> C, F) else None
  | InsertBefore l t o =>
      xs ← C !! l; '(i, _) ← list_find (o =.) xs;
      if free t then Some (Nothing, <[l := take i xs ++ t :: drop i xs]> C, F) else None
  | Remove l t =>
      xs ← C !! l; '(i, _) ← list_find (t =.) xs;
      Some (Nothing, <[l := take i xs ++ drop (S i) xs]> C, F)
  end.

Lemma list_find_split xs o i x :
  list_find (o =.) xs = Some (i, x) → x = o ∧ take (S i) xs = take i xs ++ [o] ∧
  xs = take i xs ++ o :: drop (S i) xs ∧ drop i xs = o :: drop (S i) xs.
Proof.
  intros (Hi & <- & _)%list_find_Some. rewrite (take_S_r _ _ _ Hi).
  rewrite take_drop_middle, drop_S with (x := o) by done. done.
Qed.

Lemma exec_spec c h C F a C' F' :
  rep h C F → spec c C F = Some (a, C', F') → wp (exec c) (λ r h', r = a ∧ rep h' C' F') h.
Proof.
  intros HR Hc.
  destruct c as [t|t|l|l|l|l t|l t|l|l|l o t|l t o|l t]; simpl in Hc; simpl; apply wp_bind;
    try (apply bind_Some in Hc as (xs & Hl & Hc));
    try (apply bind_Some in Hc as ([i x] & (-> & Hi1 & Hi2 & Hi3)%list_find_split & Hc));
    repeat case_bool_decide; simplify_eq; destruct_and?.
  - eapply threadlistnode_init_spec; by eauto using wp_ret.
  - eapply threadlistnode_cleanup_spec; by eauto using wp_ret.
  - eapply threadlist_init_spec; by eauto using wp_ret.
  - eapply threadlist_cleanup_spec; by eauto using wp_ret.
  - eapply threadlist_isempty_spec; [done..|]. by rewrite bool_decide_true.
  - eapply threadlist_isempty_spec; [done..|]. by rewrite bool_decide_false.
  - eapply threadlist_addhead_spec; by eauto using wp_ret.
  - eapply threadlist_addtail_spec; by eauto using wp_ret.
  - eapply threadlist_remhead_spec; by eauto using wp_ret.
  - eapply threadlist_remtail_spec; by eauto using wp_ret.
  - rewrite Hi2 in Hl. rewrite Hi1, <- app_assoc. eapply threadlist_insertafter_spec; by eauto using wp_ret.
  - rewrite Hi2 in Hl. rewrite Hi3. eapply threadlist_insertbefore_spec; by eauto using wp_ret.
  - rewrite Hi2 in Hl. eapply threadlist_remove_spec; by eauto using wp_ret.
Qed.

Fixpoint run (cs : list call) : M lists (list answer) :=
  match cs with
  | [] => mret []
  | c :: cs' => a ← exec c; rs ← run cs'; mret (a :: rs)
  end.

Fixpoint run_spec (cs : list call) (C : gmap L (list positive)) (F : gset positive)
  : option (list answer * gmap L (list positive) * gset positive) :=
  match cs with
  | [] => Some ([], C, F)
  | c :: cs' =>
      '(a, C1, F1) ← spec c C F;
      '(rs, C2, F2) ← run_spec cs' C1 F1;
      Some (a :: rs, C2, F2)
  end.

(** C35: The doubly linked lists of threads behave as lists.  Whatever sequence of
    calls is made within the rules of the interface (a thread is put on a list
    only when it is on none, a position exists, a list that is torn down is
    empty), no pointer to nothing is followed and no assertion fails, every
    answer is the one that plain lists give, and the nodes represent the
    resulting lists. *)
Theorem threadlists_are_lists cs h C F answers C' F' :
  rep h C F → run_spec cs C F = Some (answers, C', F') →
  wp (run cs) (λ r h', r = answers ∧ rep h' C' F') h.
Proof.
  revert h C F answers. induction cs as [|c cs IH]; intros h C F answers HR Hs; simpl in Hs.
  - simplify_eq. by apply wp_ret.
  - apply bind_Some in Hs as ([[a C1] F1] & Hc & Hs). apply bind_Some in Hs as ([[rs C2] F2] & Hr & ?).
    simplify_eq. apply wp_bind. eapply wp_mono; [|by eapply exec_spec].
    intros r h1 [-> HR1]. apply wp_bind. eapply wp_mono; [|by eapply IH].
    intros r h2 [-> HR2]. by apply wp_ret.
Qed.

Lemma rep_empty : rep (mkLists ∅ ∅) ∅ ∅.
Proof. split; intros *; rewrite ?lookup_empty; set_solver. Qed.

End threadlist.

Lemma threadlists_are_lists_witness :
  wp (run [NodeInit 1; NodeInit 2; NodeInit 3; Init 7; Init 8; AddTail 7 1; AddTail 7 2; InsertBefore 7 3 2;
           RemHead 7; RemTail 7; AddHead 8 1; Remove 7 3; IsEmpty 7; RemTail 7; Cleanup 7])%positive
    (λ r h', r = [Nothing; Nothing; Nothing; Nothing; Nothing; Nothing; Nothing; Nothing;
                  Thread (Some 1); Thread (Some 2); Nothing; Nothing; Bool true; Thread None; Nothing]%positive ∧
             rep h' {[7 := []; 8 := [1]]} {[1; 2; 3]})%positive
    (mkLists (L := positive) ∅ ∅).
Proof.
  apply (threadlists_are_lists _ (mkLists ∅ ∅) ∅ ∅); [apply rep_empty|]. vm_compute. reflexivity.
Defined.

End Threadlist.
