(* ===== verification/Thread.v ===== *)
(** * Threads and processors (kern/thread/thread.c, kern/thread/clock.c,
    kern/thread/spl.c, kern/thread/spinlock.c, kern/arch/mips/locore/trap.c)

    The thread system of a machine with several processors: context switch, idle
    loop, wait channels, migration of threads between processors, interrupts and
    interprocessor interrupts.

    What runs from taking a spinlock to releasing it is one step.  Where the code
    gives up the locks it needs in the middle of a function, the function is cut
    there, and the place where the processor goes on is its [phase].  Spinlocks
    that protect the run queues and the rest of the thread system are thus free
    between steps; those of the clients, [Spin], can be held across steps. *)

From Stdlib Require Import ZArith Lia.
From stdpp Require Import base numbers list gmap strings.
From S2P Require Import Prelude Bitmap Tlb Array Threadlist.

Module Thread.
Import Threadlist.

(** The lists of threads: of a processor, of a wait channel, and the list that a
    processor has in a local variable of the function that it executes. *)
Inductive listid :=
| Zombies (c : positive) | Runqueue (c : positive) | Channel (w : positive) | Private (c : positive).

#[export] Instance listid_eq_dec : EqDecision listid.
Proof. solve_decision. Defined.
#[export] Instance listid_countable : Countable listid.
Proof.
  apply (inj_countable'
    (λ l, match l with Zombies c => (0, c) | Runqueue c => (1, c) | Channel c => (2, c) | Private c => (3, c) end)
    (λ '(k, c), if k =? 0 then Zombies c else if k =? 1 then Runqueue c else
                if k =? 2 then Channel c else Private c)).
  by intros [].
Defined.

Inductive lockid :=
| RunqueueLock (c : positive) | IpiLock (c : positive) | ProcLock (p : positive)
| AllwchansLock | Spin (n : positive).

#[export] Instance lockid_eq_dec : EqDecision lockid.
Proof. solve_decision. Defined.
#[export] Instance lockid_countable : Countable lockid.
Proof.
  apply (inj_countable'
    (λ l, match l with RunqueueLock c => (0, c) | IpiLock c => (1, c) | ProcLock c => (2, c)
                     | AllwchansLock => (3, 1%positive) | Spin c => (4, c) end)
    (λ '(k, c), if k =? 0 then RunqueueLock c else if k =? 1 then IpiLock c else
                if k =? 2 then ProcLock c else if k =? 3 then AllwchansLock else Spin c)).
  by intros [].
Defined.

Inductive threadstate := S_RUN | S_READY | S_SLEEP | S_ZOMBIE.
#[export] Instance threadstate_eq_dec : EqDecision threadstate.
Proof. solve_decision. Defined.

(** Where a thread resumes: a new one in [thread_startup], others after the call
    of [switchframe_switch]. *)
Inductive context := Startup | Switched.
#[export] Instance context_eq_dec : EqDecision context.
Proof. solve_decision. Defined.

(** Where a thread goes on outside the thread system: anywhere, in [wchan_sleep]
    with a spinlock to take again, or in [thread_exit] after leaving its process. *)
Inductive point := Anywhere | Relock (n : positive) | Exiting.
#[export] Instance point_eq_dec : EqDecision point.
Proof. solve_decision. Defined.

(** [t_stack] has the words at the bottom of the stack; [t_local] is the variable
    [spl] of the thread's call of [thread_switch]; [t_frames] the variables
    [old_in] and [doadjust] of its calls of [mips_trap]. *)
Record thread := mkThread {
  t_wchan_name : option string;
  t_state : threadstate;
  t_stack : option (list Z);
  t_context : option context;
  t_cpu : option positive;
  t_proc : option positive;
  t_in_interrupt : bool;
  t_local : Z;
  t_frames : list (bool * bool);
  t_point : point;
}.

Definition with_name n (x : thread) := mkThread n (t_state x) (t_stack x) (t_context x) (t_cpu x)
  (t_proc x) (t_in_interrupt x) (t_local x) (t_frames x) (t_point x).
Definition with_state st (x : thread) := mkThread (t_wchan_name x) st (t_stack x) (t_context x) (t_cpu x)
  (t_proc x) (t_in_interrupt x) (t_local x) (t_frames x) (t_point x).
Definition with_stack k (x : thread) := mkThread (t_wchan_name x) (t_state x) k (t_context x) (t_cpu x)
  (t_proc x) (t_in_interrupt x) (t_local x) (t_frames x) (t_point x).
Definition with_context k (x : thread) := mkThread (t_wchan_name x) (t_state x) (t_stack x) k (t_cpu x)
  (t_proc x) (t_in_interrupt x) (t_local x) (t_frames x) (t_point x).
Definition with_cpu c (x : thread) := mkThread (t_wchan_name x) (t_state x) (t_stack x) (t_context x) c
  (t_proc x) (t_in_interrupt x) (t_local x) (t_frames x) (t_point x).
Definition with_proc p (x : thread) := mkThread (t_wchan_name x) (t_state x) (t_stack x) (t_context x)
  (t_cpu x) p (t_in_interrupt x) (t_local x) (t_frames x) (t_point x).
Definition with_frames b fs (x : thread) := mkThread (t_wchan_name x) (t_state x) (t_stack x) (t_context x)
  (t_cpu x) (t_proc x) b (t_local x) fs (t_point x).
Definition with_local spl (x : thread) := mkThread (t_wchan_name x) (t_state x) (t_stack x) (t_context x)
  (t_cpu x) (t_proc x) (t_in_interrupt x) spl (t_frames x) (t_point x).
Definition with_point k (x : thread) := mkThread (t_wchan_name x) (t_state x) (t_stack x) (t_context x)
  (t_cpu x) (t_proc x) (t_in_interrupt x) (t_local x) (t_frames x) k.

(** What a processor does: it is in code that is free to call the thread system
    (or idle), or it goes on in [wchan_wakeone] with a thread in hand, in
    [wchan_wakeall], in one of the loops of [thread_consider_migration], in
    [hardclock] after that, or in [mainbus_interrupt] after
    [interprocessor_interrupt]. *)
Inductive phase :=
| Free
| WakingOne (t : positive)
| WakingAll
| Counting (i my_count total_count : Z)
| Sending (i one_share to_send : Z)
| Clocked
| Clearing.
#[export] Instance phase_eq_dec : EqDecision phase.
Proof. solve_decision. Defined.

(** A secondary processor is created before it starts; one that halts stays so. *)
Inductive status := Unstarted | Online | Halted.
#[export] Instance status_eq_dec : EqDecision status.
Proof. solve_decision. Defined.

(** [c_line] is the interprocessor interrupt line of the processor, [c_tlb] its
    MMU, [c_waiting] whether it waits in [cpu_idle] and has taken no interrupt
    since. *)
Record cpu := mkCpu {
  c_number : Z;
  c_curthread : positive;
  c_hardclocks : Z;
  c_isidle : bool;
  c_ipi_pending : Z;
  c_shootdown : list Z;
  c_numshootdown : Z;
  c_line : bool;
  c_tlb : Tlb.tlb;
  c_waiting : bool;
  c_status : status;
  c_phase : phase;
}.

Definition with_curthread t (x : cpu) := mkCpu (c_number x) t (c_hardclocks x) (c_isidle x)
  (c_ipi_pending x) (c_shootdown x) (c_numshootdown x) (c_line x) (c_tlb x) (c_waiting x) (c_status x) (c_phase x).
Definition with_hardclocks n (x : cpu) := mkCpu (c_number x) (c_curthread x) n (c_isidle x)
  (c_ipi_pending x) (c_shootdown x) (c_numshootdown x) (c_line x) (c_tlb x) (c_waiting x) (c_status x) (c_phase x).
Definition with_isidle b (x : cpu) := mkCpu (c_number x) (c_curthread x) (c_hardclocks x) b
  (c_ipi_pending x) (c_shootdown x) (c_numshootdown x) (c_line x) (c_tlb x) (c_waiting x) (c_status x) (c_phase x).
Definition with_ipi p (x : cpu) := mkCpu (c_number x) (c_curthread x) (c_hardclocks x) (c_isidle x)
  p (c_shootdown x) (c_numshootdown x) (c_line x) (c_tlb x) (c_waiting x) (c_status x) (c_phase x).
Definition with_shootdown l n (x : cpu) := mkCpu (c_number x) (c_curthread x) (c_hardclocks x) (c_isidle x)
  (c_ipi_pending x) l n (c_line x) (c_tlb x) (c_waiting x) (c_status x) (c_phase x).
Definition with_line b (x : cpu) := mkCpu (c_number x) (c_curthread x) (c_hardclocks x) (c_isidle x)
  (c_ipi_pending x) (c_shootdown x) (c_numshootdown x) b (c_tlb x) (c_waiting x) (c_status x) (c_phase x).
Definition with_tlb t (x : cpu) := mkCpu (c_number x) (c_curthread x) (c_hardclocks x) (c_isidle x)
  (c_ipi_pending x) (c_shootdown x) (c_numshootdown x) (c_line x) t (c_waiting x) (c_status x) (c_phase x).
Definition with_waiting b (x : cpu) := mkCpu (c_number x) (c_curthread x) (c_hardclocks x) (c_isidle x)
  (c_ipi_pending x) (c_shootdown x) (c_numshootdown x) (c_line x) (c_tlb x) b (c_status x) (c_phase x).
Definition with_status b (x : cpu) := mkCpu (c_number x) (c_curthread x) (c_hardclocks x) (c_isidle x)
  (c_ipi_pending x) (c_shootdown x) (c_numshootdown x) (c_line x) (c_tlb x) (c_waiting x) b (c_phase x).
Definition with_phase p (x : cpu) := mkCpu (c_number x) (c_curthread x) (c_hardclocks x) (c_isidle x)
  (c_ipi_pending x) (c_shootdown x) (c_numshootdown x) (c_line x) (c_tlb x) (c_waiting x) (c_status x) p.

(** The state of interrupts and spinlocks, apart from the rest of the structures
    that it is in: [t_curspl] and [t_iplhigh_count] of the threads, [c_spinlocks]
    and the interrupt-enable bit of the processors, [splk_holder] of the locks. *)
Record interrupts := mkInterrupts {
  t_spl : gmap positive (Z * Z);
  c_spinlocks : gmap positive Z;
  c_irq : gmap positive bool;
  splk_holder : gmap lockid (option positive);
}.

Record wchan := mkWchan { wc_name : string; wc_index : Z }.

(** The threads and the address space of a process. *)
Record proc := mkProc { p_threads : Array.array positive; p_addrspace : option positive }.

Record sys := mkSys {
  tl : lists listid;
  threads : gmap positive thread;
  cpus : gmap positive cpu;
  ints : interrupts;
  allcpus : Array.array positive;
  allwchans : Array.array positive;
  wchans : gmap positive wchan;
  procs : gmap positive proc;
  kproc : positive;
  ls_uniprocessor : bool;
}.

Definition set_tl x (s : sys) := mkSys x (threads s) (cpus s) (ints s) (allcpus s) (allwchans s)
  (wchans s) (procs s) (kproc s) (ls_uniprocessor s).
Definition set_threads x (s : sys) := mkSys (tl s) x (cpus s) (ints s) (allcpus s) (allwchans s)
  (wchans s) (procs s) (kproc s) (ls_uniprocessor s).
Definition set_cpus x (s : sys) := mkSys (tl s) (threads s) x (ints s) (allcpus s) (allwchans s)
  (wchans s) (procs s) (kproc s) (ls_uniprocessor s).
Definition set_ints x (s : sys) := mkSys (tl s) (threads s) (cpus s) x (allcpus s) (allwchans s)
  (wchans s) (procs s) (kproc s) (ls_uniprocessor s).
Definition set_allcpus x (s : sys) := mkSys (tl s) (threads s) (cpus s) (ints s) x (allwchans s)
  (wchans s) (procs s) (kproc s) (ls_uniprocessor s).
Definition set_allwchans x (s : sys) := mkSys (tl s) (threads s) (cpus s) (ints s) (allcpus s) x
  (wchans s) (procs s) (kproc s) (ls_uniprocessor s).
Definition set_wchans x (s : sys) := mkSys (tl s) (threads s) (cpus s) (ints s) (allcpus s) (allwchans s)
  x (procs s) (kproc s) (ls_uniprocessor s).
Definition set_procs x (s : sys) := mkSys (tl s) (threads s) (cpus s) (ints s) (allcpus s) (allwchans s)
  (wchans s) x (kproc s) (ls_uniprocessor s).

(** ** Access *)

Definition thread_get (t : positive) : M sys thread := o ← gets (λ s, threads s !! t); deref o.
Definition thread_put (t : positive) (x : thread) : M sys unit :=
  modify (λ s, set_threads (<[t := x]> (threads s)) s).
Definition thread_upd (t : positive) (f : thread → thread) : M sys unit :=
  x ← thread_get t; thread_put t (f x).
Definition cpu_get (c : positive) : M sys cpu := o ← gets (λ s, cpus s !! c); deref o.
Definition cpu_put (c : positive) (x : cpu) : M sys unit :=
  modify (λ s, set_cpus (<[c := x]> (cpus s)) s).
Definition cpu_upd (c : positive) (f : cpu → cpu) : M sys unit := x ← cpu_get c; cpu_put c (f x).

Definition in_tl {A} (m : M (lists listid) A) : M sys A := λ s,
  match m (tl s) with Done (a, x) => Done (a, set_tl x s) | Panic => Panic end.
Definition in_ints {A} (m : M interrupts A) : M sys A := λ s,
  match m (ints s) with Done (a, x) => Done (a, set_ints x s) | Panic => Panic end.
Definition in_allcpus {A} (m : M (Array.array positive) A) : M sys A := λ s,
  match m (allcpus s) with Done (a, x) => Done (a, set_allcpus x s) | Panic => Panic end.
Definition in_allwchans {A} (m : M (Array.array positive) A) : M sys A := λ s,
  match m (allwchans s) with Done (a, x) => Done (a, set_allwchans x s) | Panic => Panic end.
Definition in_pthreads {A} (p : positive) (m : M (Array.array positive) A) : M sys A :=
  x ← gets (λ s, procs s !! p); x ← deref x;
  match m (p_threads x) with
  | Done (a, v) => modify (λ s, set_procs (<[p := mkProc v (p_addrspace x)]> (procs s)) s) ;; mret a
  | Panic => panic
  end.
Definition in_tlb {A} (c : positive) (m : M Tlb.tlb A) : M sys A :=
  x ← cpu_get c;
  match m (c_tlb x) with Done (a, t) => cpu_put c (with_tlb t x) ;; mret a | Panic => panic end.

(** [curthread] and [curcpu] on processor [me].  On this machine [curthread] is a
    register, always written together with [c_curthread], and [curcpu] is
    [curthread->t_cpu]. *)
Definition curthread (me : positive) : M sys positive := x ← cpu_get me; mret (c_curthread x).
Definition curcpu (me : positive) : M sys positive :=
  t ← curthread me; x ← thread_get t; deref (t_cpu x).

(** ** Interrupt priority (spl.c) *)

Definition IPL_NONE : Z := 0.
Definition IPL_HIGH : Z := 1.

Definition spl_get (t : positive) : M sys (Z * Z) := o ← gets (λ s, t_spl (ints s) !! t); deref o.
Definition spl_put (t : positive) (x : Z * Z) : M sys unit :=
  in_ints (modify (λ i, mkInterrupts (<[t := x]> (t_spl i)) (c_spinlocks i) (c_irq i) (splk_holder i))).
Definition irq_put (me : positive) (b : bool) : M sys unit :=
  in_ints (modify (λ i, mkInterrupts (t_spl i) (c_spinlocks i) (<[me := b]> (c_irq i)) (splk_holder i))).

Definition cpu_irqon (me : positive) : M sys unit := irq_put me true.
Definition cpu_irqoff (me : positive) : M sys unit := irq_put me false.

(** [me] is [None] before the first processor is set up ([CURCPU_EXISTS]). *)
Definition splraise (me : option positive) (oldspl newspl : Z) : M sys unit :=
  KASSERT (oldspl =? IPL_NONE) ;;
  KASSERT (newspl =? IPL_HIGH) ;;
  match me with
  | None => mret tt
  | Some m =>
      cur ← curthread m;
      x ← spl_get cur;
      (if snd x =? 0 then cpu_irqoff m else mret tt) ;;
      spl_put cur (fst x, snd x + 1)
  end.

Definition spllower (me : option positive) (oldspl newspl : Z) : M sys unit :=
  KASSERT (oldspl =? IPL_HIGH) ;;
  KASSERT (newspl =? IPL_NONE) ;;
  match me with
  | None => mret tt
  | Some m =>
      cur ← curthread m;
      x ← spl_get cur;
      spl_put cur (fst x, snd x - 1) ;;
      if snd x - 1 =? 0 then cpu_irqon m else mret tt
  end.

Definition splx (me : option positive) (spl : Z) : M sys Z :=
  match me with
  | None => mret spl
  | Some m =>
      cur ← curthread m;
      x ← spl_get cur;
      if fst x <? spl then
        splraise me (fst x) spl ;;
        y ← spl_get cur; spl_put cur (spl, snd y) ;;
        mret (fst x)
      else if fst x >? spl then
        spl_put cur (spl, snd x) ;;
        spllower me (fst x) spl ;;
        mret (fst x)
      else mret spl
  end.

Definition spl0 (me : option positive) : M sys Z := splx me IPL_NONE.
Definition splhigh (me : option positive) : M sys Z := splx me IPL_HIGH.

(** ** Spinlocks (spinlock.c) *)

Definition holder_get (l : lockid) : M sys (option positive) :=
  o ← gets (λ s, splk_holder (ints s) !! l); deref o.
Definition holder_put (l : lockid) (h : option positive) : M sys unit :=
  in_ints (modify (λ i, mkInterrupts (t_spl i) (c_spinlocks i) (c_irq i) (<[l := h]> (splk_holder i)))).
Definition spinlocks_get (c : positive) : M sys Z := o ← gets (λ s, c_spinlocks (ints s) !! c); deref o.
Definition spinlocks_put (c : positive) (n : Z) : M sys unit :=
  in_ints (modify (λ i, mkInterrupts (t_spl i) (<[c := n]> (c_spinlocks i)) (c_irq i) (splk_holder i))).

Definition spinlock_init (l : lockid) : M sys unit := holder_put l None.

(** The loop ends when the lock is free; a step that takes it starts then. *)
Definition spinlock_acquire (me : option positive) (l : lockid) : M sys unit :=
  splraise me IPL_NONE IPL_HIGH ;;
  h ← holder_get l;
  match me with
  | None => KASSERT (bool_decide (h = None))
  | Some m =>
      mycpu ← curcpu m;
      KASSERT (bool_decide (h ≠ Some mycpu)) ;;
      n ← spinlocks_get mycpu;
      spinlocks_put mycpu (n + 1) ;;
      KASSERT (bool_decide (h = None)) ;;
      holder_put l (Some mycpu)
  end.

Definition spinlock_release (me : option positive) (l : lockid) : M sys unit :=
  match me with
  | None => mret tt
  | Some m =>
      c ← curcpu m;
      h ← holder_get l;
      KASSERT (bool_decide (h = Some c)) ;;
      n ← spinlocks_get c;
      KASSERT (n >? 0) ;;
      spinlocks_put c (n - 1)
  end ;;
  holder_put l None ;;
  spllower me IPL_HIGH IPL_NONE.

Definition spinlock_do_i_hold (me : positive) (l : lockid) : M sys bool :=
  h ← holder_get l; c ← curcpu me; mret (bool_decide (h = Some c)).

(** ** Stacks *)

Definition THREAD_STACK_MAGIC : Z := 3131961357. (* 0xbaadf00d *)

(** A new stack: only the words at the bottom are kept. *)
Definition thread_checkstack_init (t : positive) : M sys unit :=
  thread_upd t (with_stack (Some (replicate 4 THREAD_STACK_MAGIC))).

Definition thread_checkstack (t : positive) : M sys unit :=
  x ← thread_get t;
  match t_stack x with
  | None => mret tt
  | Some w => KASSERT (bool_decide (take 4 w = replicate 4 THREAD_STACK_MAGIC))
  end.

(** ** Creating and destroying threads *)

(** Whether there is memory for the structure and its name; [t] is the address of
    the structure. *)
Definition thread_create (ok_thread ok_name : bool) (t : positive) : M sys (option positive) :=
  if negb ok_thread then mret None else
  if negb ok_name then mret None else
  thread_put t (mkThread (Some "NEW"%string) S_READY None None None None false 0 [] Anywhere) ;;
  in_tl (threadlistnode_init t) ;;
  spl_put t (IPL_HIGH, 1) ;;
  mret (Some t).

Definition thread_destroy (me t : positive) : M sys unit :=
  cur ← curthread me;
  KASSERT (bool_decide (t ≠ cur)) ;;
  x ← thread_get t;
  KASSERT (bool_decide (t_state x ≠ S_RUN)) ;;
  KASSERT (bool_decide (t_proc x = None)) ;;
  in_tl (threadlistnode_cleanup t) ;;
  modify (λ s, set_threads (delete t (threads s)) s).

Fixpoint exorcise_loop (fuel : nat) (me : positive) : M sys unit :=
  match fuel with
  | O => panic
  | S f =>
      c ← curcpu me;
      z ← in_tl (threadlist_remhead (Zombies c));
      match z with
      | None => mret tt
      | Some z =>
          cur ← curthread me;
          KASSERT (bool_decide (z ≠ cur)) ;;
          x ← thread_get z;
          KASSERT (bool_decide (t_state x = S_ZOMBIE)) ;;
          thread_destroy me z ;;
          exorcise_loop f me
      end
  end.

Definition exorcise (me : positive) : M sys unit :=
  n ← gets (λ s, size (threads s)); exorcise_loop (S n) me.

(** ** The threads of a process (proc.c) *)

Definition proc_addthread (me : option positive) (ok : bool) (p t : positive) : M sys Z :=
  x ← thread_get t;
  KASSERT (bool_decide (t_proc x = None)) ;;
  spinlock_acquire me (ProcLock p) ;;
  r ← in_pthreads p (Array.array_add ok t);
  spinlock_release me (ProcLock p) ;;
  match r with
  | Err e => mret e
  | Ok _ =>
      spl ← splhigh me;
      thread_upd t (with_proc (Some p)) ;;
      splx me spl ;;
      mret 0
  end.

Definition proc_remthread (me t : positive) : M sys unit :=
  x ← thread_get t;
  p ← deref (t_proc x);
  spinlock_acquire (Some me) (ProcLock p) ;;
  num ← in_pthreads p Array.array_num;
  r ← for_return (Z.to_nat num) 0 (λ i,
    y ← in_pthreads p (Array.array_get i);
    if bool_decide (y = t) then
      in_pthreads p (Array.array_remove i) ;;
      spinlock_release (Some me) (ProcLock p) ;;
      spl ← splhigh (Some me);
      thread_upd t (with_proc None) ;;
      splx (Some me) spl ;;
      mret (Some tt)
    else mret None);
  match r with
  | Some _ => mret tt
  | None => spinlock_release (Some me) (ProcLock p) ;; panic
  end.

Definition proc_getas (me : positive) : M sys (option positive) :=
  t ← curthread me;
  x ← thread_get t;
  match t_proc x with
  | None => mret None
  | Some p =>
      spinlock_acquire (Some me) (ProcLock p) ;;
      pr ← gets (λ s, procs s !! p); pr ← deref pr;
      spinlock_release (Some me) (ProcLock p) ;;
      mret (p_addrspace pr)
  end.

(** The MMU's own lock is part of [Tlb.as_activate]. *)
Definition as_activate (me : positive) : M sys unit :=
  a ← proc_getas me;
  match a with
  | None => mret tt
  | Some _ => in_tlb me Tlb.as_activate
  end.

(** ** Interprocessor interrupts *)

Definition IPI_PANIC : Z := 0.
Definition IPI_OFFLINE : Z := 1.
Definition IPI_UNIDLE : Z := 2.
Definition IPI_TLBSHOOTDOWN : Z := 3.
Definition TLBSHOOTDOWN_MAX : Z := 16.
Definition TLBSHOOTDOWN_ALL : Z := -1.

(** A machine with one processor has no interprocessor interrupts. *)
Definition mainbus_send_ipi (target : positive) : M sys unit :=
  u ← gets ls_uniprocessor;
  if (u : bool) then mret tt else cpu_upd target (with_line true).

Definition lamebus_clear_ipi (target : positive) : M sys unit :=
  u ← gets ls_uniprocessor;
  if (u : bool) then mret tt else cpu_upd target (with_line false).

Definition ipi_send (me target : positive) (code : Z) : M sys unit :=
  KASSERT ((code >=? 0) && (code <? 32)) ;;
  spinlock_acquire (Some me) (IpiLock target) ;;
  cpu_upd target (λ x, with_ipi (Z.lor (c_ipi_pending x) (Z.shiftl 1 code)) x) ;;
  mainbus_send_ipi target ;;
  spinlock_release (Some me) (IpiLock target).

Definition ipi_broadcast (me : positive) (code : Z) : M sys unit :=
  n ← in_allcpus Array.array_num;
  for_loop (Z.to_nat n) 0 (λ i,
    c ← in_allcpus (Array.array_get i);
    self ← curcpu me;
    if bool_decide (c ≠ self) then ipi_send me c code else mret tt).

(** The element -1 of the array is written when everything is already to be
    flushed: a panic here. *)
Definition ipi_tlbshootdown (me target : positive) (mapping : Z) : M sys unit :=
  spinlock_acquire (Some me) (IpiLock target) ;;
  x ← cpu_get target;
  let n := c_numshootdown x in
  (if n =? TLBSHOOTDOWN_MAX then cpu_upd target (λ x, with_shootdown (c_shootdown x) TLBSHOOTDOWN_ALL x)
   else
     _ ← deref (znth (c_shootdown x) n);
     cpu_upd target (λ x, with_shootdown (zset (c_shootdown x) n mapping) (n + 1) x)) ;;
  cpu_upd target (λ x, with_ipi (Z.lor (c_ipi_pending x) (Z.shiftl 1 IPI_TLBSHOOTDOWN)) x) ;;
  mainbus_send_ipi target ;;
  spinlock_release (Some me) (IpiLock target).

Definition cpu_halt (me : positive) : M sys unit := cpu_irqoff me ;; cpu_upd me (with_status Halted).

(** A processor that halts does not go on. *)
Definition interprocessor_interrupt (me : positive) : M sys unit :=
  c ← curcpu me;
  spinlock_acquire (Some me) (IpiLock c) ;;
  x ← cpu_get c;
  let bits := c_ipi_pending x in
  if Z.testbit bits IPI_PANIC then
    spinlock_release (Some me) (IpiLock c) ;; cpu_halt me
  else if Z.testbit bits IPI_OFFLINE then
    spinlock_release (Some me) (IpiLock c) ;;
    spinlock_acquire (Some me) (RunqueueLock c) ;;
    spinlock_release (Some me) (RunqueueLock c) ;;
    cpu_halt me
  else
    (if Z.testbit bits IPI_TLBSHOOTDOWN then
       (if c_numshootdown x =? TLBSHOOTDOWN_ALL then in_tlb me Tlb.vm_tlbshootdown_all
        else for_loop (Z.to_nat (c_numshootdown x)) 0 (λ i,
               v ← deref (znth (c_shootdown x) i); in_tlb me (Tlb.vm_tlbshootdown v))) ;;
       cpu_upd c (λ x, with_shootdown (c_shootdown x) 0 x)
     else mret tt) ;;
    cpu_upd c (with_ipi 0) ;;
    spinlock_release (Some me) (IpiLock c) ;;
    cpu_upd me (with_phase Clearing).

(** ** Context switch *)

Definition thread_make_runnable (me target : positive) (already_have_lock : bool) : M sys unit :=
  x ← thread_get target;
  targetcpu ← deref (t_cpu x);
  (if already_have_lock then
     b ← spinlock_do_i_hold me (RunqueueLock targetcpu); KASSERT b
   else spinlock_acquire (Some me) (RunqueueLock targetcpu)) ;;
  thread_upd target (with_state S_READY) ;;
  in_tl (threadlist_addtail (Runqueue targetcpu) target) ;;
  c ← cpu_get targetcpu;
  (if c_isidle c then ipi_send me targetcpu IPI_UNIDLE else mret tt) ;;
  if already_have_lock then mret tt else spinlock_release (Some me) (RunqueueLock targetcpu).

(** [oks] says whether there is memory for the structure, its name, the stack and
    the process's array of threads. *)
Definition thread_fork (me : positive) (oks : bool * bool * bool * bool) (t : positive)
    (p : option positive) : M sys Z :=
  let '(ok_thread, ok_name, ok_stack, ok_array) := oks in
  o ← thread_create ok_thread ok_name t;
  match o with
  | None => mret ENOMEM
  | Some newthread =>
      if negb ok_stack then thread_destroy me newthread ;; mret ENOMEM else
      thread_checkstack_init newthread ;;
      cur ← curthread me;
      x ← thread_get cur;
      thread_upd newthread (with_cpu (t_cpu x)) ;;
      p ← match p with Some p => mret p | None => deref (t_proc x) end;
      result ← proc_addthread (Some me) ok_array p newthread;
      if negb (result =? 0) then thread_destroy me newthread ;; mret result else
      y ← spl_get newthread;
      spl_put newthread (fst y, snd y + 1) ;;
      thread_upd newthread (with_context (Some Startup)) ;;
      thread_make_runnable me newthread false ;;
      mret 0
  end.

(** The common part of the end of [thread_switch] and of [thread_startup], in the
    thread that now runs. *)
Definition switched_in (me : positive) : M sys unit :=
  cur ← curthread me;
  thread_upd cur (with_name None) ;;
  thread_upd cur (with_state S_RUN) ;;
  c ← curcpu me;
  spinlock_release (Some me) (RunqueueLock c) ;;
  as_activate me ;;
  exorcise me.

(** [thread_switch] after [switchframe_switch]. *)
Definition thread_switch_return (me : positive) : M sys unit :=
  switched_in me ;;
  cur ← curthread me;
  x ← thread_get cur;
  splx (Some me) (t_local x) ;; mret tt.

(** Up to the call of the thread's function. *)
Definition thread_startup (me : positive) : M sys unit :=
  switched_in me ;; spl0 (Some me) ;; mret tt.

(** To leave one thread and go on in another. *)
Definition switchframe_switch (me cur next : positive) : M sys unit :=
  thread_upd cur (with_context (Some Switched)) ;;
  x ← thread_get next;
  k ← deref (t_context x);
  match k with
  | Startup => thread_startup me
  | Switched => thread_switch_return me
  end.

(** A round of the loop of [thread_switch], with the run queue locked; [cpu_idle]
    waits. *)
Definition idle_round (me : positive) : M sys unit :=
  c ← curcpu me;
  next ← in_tl (threadlist_remhead (Runqueue c));
  match next with
  | None =>
      spinlock_release (Some me) (RunqueueLock c) ;;
      cpu_upd me (with_waiting true)
  | Some next =>
      cpu_upd c (with_isidle false) ;;
      cur ← curthread me;
      cpu_upd c (with_curthread next) ;;
      switchframe_switch me cur next
  end.

(** From the return of [cpu_idle] on. *)
Definition idle_wakeup (me : positive) : M sys unit :=
  c ← curcpu me;
  spinlock_acquire (Some me) (RunqueueLock c) ;;
  idle_round me.

(** [wc] is the wait channel and its spinlock, for [S_SLEEP]; [wchan_sleep] takes
    the spinlock again when the thread comes back. *)
Definition thread_switch (me : positive) (newstate : threadstate) (wc : option (positive * positive))
  : M sys unit :=
  spl ← splhigh (Some me);
  cur ← curthread me;
  c ← curcpu me;
  x ← cpu_get c;
  if c_isidle x then splx (Some me) spl ;; mret tt else
  thread_checkstack cur ;;
  spinlock_acquire (Some me) (RunqueueLock c) ;;
  empty ← in_tl (threadlist_isempty (Runqueue c));
  if bool_decide (newstate = S_READY) && empty then
    spinlock_release (Some me) (RunqueueLock c) ;;
    splx (Some me) spl ;; mret tt
  else
    match newstate with
    | S_RUN => panic
    | S_READY => thread_make_runnable me cur true
    | S_SLEEP =>
        '(w, lk) ← deref wc;
        wn ← gets (λ s, wchans s !! w); wn ← deref wn;
        thread_upd cur (with_name (Some (wc_name wn))) ;;
        in_tl (threadlist_addtail (Channel w) cur) ;;
        spinlock_release (Some me) (Spin lk) ;;
        thread_upd cur (with_point (Relock lk))
    | S_ZOMBIE =>
        thread_upd cur (with_name (Some "ZOMBIE"%string)) ;;
        in_tl (threadlist_addtail (Zombies c) cur)
    end ;;
    thread_upd cur (with_state newstate) ;;
    thread_upd cur (with_local spl) ;;
    cpu_upd c (with_isidle true) ;;
    idle_round me.

Definition thread_yield (me : positive) : M sys unit := thread_switch me S_READY None.

(** [thread_exit] up to the point where the thread has left its process, and from
    there on.  No processor takes up a zombie, so the panic behind [thread_switch]
    is not reached. *)
Definition thread_exit (me : positive) : M sys unit :=
  cur ← curthread me;
  x ← thread_get cur;
  k ← gets kproc;
  KASSERT (bool_decide (t_proc x = Some k)) ;;
  proc_remthread me cur ;;
  thread_upd cur (with_point Exiting).

Definition thread_exit_rest (me : positive) : M sys unit :=
  cur ← curthread me;
  x ← thread_get cur;
  KASSERT (bool_decide (t_proc x = None)) ;;
  thread_checkstack cur ;;
  splhigh (Some me) ;;
  thread_switch me S_ZOMBIE None.

(** ** Migration and the clock *)

Definition schedule : M sys unit := mret tt.

(** One round of the first loop of [thread_consider_migration]. *)
Definition count_round (me : positive) (i my_count total_count : Z) : M sys unit :=
  c ← in_allcpus (Array.array_get i);
  spinlock_acquire (Some me) (RunqueueLock c) ;;
  n ← in_tl (count_get (Runqueue c));
  self ← curcpu me;
  spinlock_release (Some me) (RunqueueLock c) ;;
  cpu_upd me (with_phase (Counting (i + 1) (if bool_decide (c = self) then n else my_count)
                            ((total_count + n) mod 2 ^ 32))).

Fixpoint take_victims (n : nat) (self me : positive) : M sys unit :=
  match n with
  | O => mret tt
  | S n' =>
      t ← in_tl (threadlist_remtail (Runqueue self));
      t ← deref t;
      in_tl (threadlist_addhead (Private me) t) ;;
      take_victims n' self me
  end.

(** Between the first and the second loop. *)
Definition choose_victims (me : positive) (numcpus my_count total_count : Z) : M sys unit :=
  let one_share := Bitmap.DIVROUNDUP total_count numcpus in
  if my_count <? one_share then cpu_upd me (with_phase Clocked) else
  let to_send := my_count - one_share in
  in_tl (threadlist_init (Private me)) ;;
  self ← curcpu me;
  spinlock_acquire (Some me) (RunqueueLock self) ;;
  take_victims (Z.to_nat to_send) self me ;;
  spinlock_release (Some me) (RunqueueLock self) ;;
  cpu_upd me (with_phase (Sending 0 one_share to_send)).

(** The inner loop, for processor [c], whose run queue is locked; the result is
    what is left to send. *)
Fixpoint send_loop (n : nat) (me c : positive) (one_share : Z) : M sys Z :=
  match n with
  | O => mret 0
  | S n' =>
      k ← in_tl (count_get (Runqueue c));
      if negb (k <? one_share) then mret (Z.of_nat n) else
      t ← in_tl (threadlist_remhead (Private me));
      t ← deref t;
      cur ← curthread me;
      if bool_decide (t = cur) then
        in_tl (threadlist_addtail (Private me) t) ;;
        send_loop n' me c one_share
      else
        thread_upd t (with_cpu (Some c)) ;;
        in_tl (threadlist_addtail (Runqueue c) t) ;;
        x ← cpu_get c;
        (if c_isidle x then ipi_send me c IPI_UNIDLE else mret tt) ;;
        send_loop n' me c one_share
  end.

(** One round of the second loop. *)
Definition send_round (me : positive) (i one_share to_send : Z) : M sys unit :=
  c ← in_allcpus (Array.array_get i);
  self ← curcpu me;
  if bool_decide (c = self) then cpu_upd me (with_phase (Sending (i + 1) one_share to_send)) else
  spinlock_acquire (Some me) (RunqueueLock c) ;;
  n ← send_loop (Z.to_nat to_send) me c one_share;
  spinlock_release (Some me) (RunqueueLock c) ;;
  cpu_upd me (with_phase (Sending (i + 1) one_share n)).

Fixpoint put_back_loop (fuel : nat) (me self : positive) : M sys unit :=
  match fuel with
  | O => panic
  | S f =>
      t ← in_tl (threadlist_remhead (Private me));
      match t with
      | None => mret tt
      | Some t => in_tl (threadlist_addtail (Runqueue self) t) ;; put_back_loop f me self
      end
  end.

(** The leftovers go back on the processor's own run queue. *)
Definition put_back (me : positive) : M sys unit :=
  empty ← in_tl (threadlist_isempty (Private me));
  (if (empty : bool) then mret tt else
   self ← curcpu me;
   spinlock_acquire (Some me) (RunqueueLock self) ;;
   n ← gets (λ s, size (threads s));
   put_back_loop (S n) me self ;;
   spinlock_release (Some me) (RunqueueLock self)) ;;
  empty ← in_tl (threadlist_isempty (Private me));
  KASSERT empty ;;
  in_tl (threadlist_cleanup (Private me)) ;;
  cpu_upd me (with_phase Clocked).

(** The next step of [thread_consider_migration]. *)
Definition thread_consider_migration (me : positive) : M sys unit :=
  x ← cpu_get me;
  numcpus ← in_allcpus Array.array_num;
  match c_phase x with
  | Counting i my_count total_count =>
      if i <? numcpus then count_round me i my_count total_count
      else choose_victims me numcpus my_count total_count
  | Sending i one_share to_send =>
      if (i <? numcpus) && (to_send >? 0) then send_round me i one_share to_send else put_back me
  | _ => panic
  end.

Definition SCHEDULE_HARDCLOCKS : Z := 4.
Definition MIGRATE_HARDCLOCKS : Z := 16.

(** [hardclock] up to the migration, and from there on. *)
Definition hardclock (me : positive) : M sys unit :=
  c ← curcpu me;
  cpu_upd c (λ x, with_hardclocks ((c_hardclocks x + 1) mod 2 ^ 32) x) ;;
  x ← cpu_get c;
  cpu_upd me (with_phase (if c_hardclocks x mod MIGRATE_HARDCLOCKS =? 0 then Counting 0 0 0 else Clocked)).

Definition hardclock_rest (me : positive) : M sys unit :=
  c ← curcpu me;
  x ← cpu_get c;
  (if c_hardclocks x mod SCHEDULE_HARDCLOCKS =? 0 then schedule else mret tt) ;;
  cpu_upd me (with_phase Free) ;;
  thread_yield me.

(** ** Wait channels *)

Definition wchan_create (me : positive) (ok_wchan ok_array : bool) (name : string) (w : positive)
  : M sys (option positive) :=
  if negb ok_wchan then mret None else
  in_tl (threadlist_init (Channel w)) ;;
  spinlock_acquire (Some me) AllwchansLock ;;
  r ← in_allwchans (Array.array_add ok_array w);
  spinlock_release (Some me) AllwchansLock ;;
  match r with
  | Err e =>
      KASSERT (e =? ENOMEM) ;;
      in_tl (threadlist_cleanup (Channel w)) ;;
      mret None
  | Ok i =>
      modify (λ s, set_wchans (<[w := mkWchan name i]> (wchans s)) s) ;;
      mret (Some w)
  end.

Definition wchan_get (w : positive) : M sys wchan := o ← gets (λ s, wchans s !! w); deref o.

Definition wchan_destroy (me w : positive) : M sys unit :=
  spinlock_acquire (Some me) AllwchansLock ;;
  num ← in_allwchans Array.array_num;
  x ← wchan_get w;
  y ← in_allwchans (Array.array_get (wc_index x));
  KASSERT (bool_decide (y = w)) ;;
  (if wc_index x <? num - 1 then
     w2 ← in_allwchans (Array.array_get (num - 1));
     in_allwchans (Array.array_set (wc_index x) w2) ;;
     x2 ← wchan_get w2;
     modify (λ s, set_wchans (<[w2 := mkWchan (wc_name x2) (wc_index x)]> (wchans s)) s)
   else mret tt) ;;
  in_allwchans (Array.array_setsize true (num - 1)) ;;
  spinlock_release (Some me) AllwchansLock ;;
  in_tl (threadlist_cleanup (Channel w)) ;;
  modify (λ s, set_wchans (delete w (wchans s)) s).

(** Up to the return of [thread_switch], and from there on. *)
Definition wchan_sleep (me w lk : positive) : M sys unit :=
  cur ← curthread me;
  x ← thread_get cur;
  KASSERT (negb (t_in_interrupt x)) ;;
  b ← spinlock_do_i_hold me (Spin lk);
  KASSERT b ;;
  c ← curcpu me;
  n ← spinlocks_get c;
  KASSERT (n =? 1) ;;
  thread_switch me S_SLEEP (Some (w, lk)).

Definition wchan_sleep_return (me lk : positive) : M sys unit :=
  spinlock_acquire (Some me) (Spin lk) ;;
  cur ← curthread me;
  thread_upd cur (with_point Anywhere).

(** Up to the call of [thread_make_runnable]. *)
Definition wchan_wakeone (me w lk : positive) : M sys unit :=
  b ← spinlock_do_i_hold me (Spin lk);
  KASSERT b ;;
  target ← in_tl (threadlist_remhead (Channel w));
  match target with
  | None => mret tt
  | Some t => cpu_upd me (with_phase (WakingOne t))
  end.

Fixpoint grab_loop (fuel : nat) (me w : positive) : M sys unit :=
  match fuel with
  | O => panic
  | S f =>
      target ← in_tl (threadlist_remhead (Channel w));
      match target with
      | None => mret tt
      | Some t => in_tl (threadlist_addtail (Private me) t) ;; grab_loop f me w
      end
  end.

(** Up to the second loop. *)
Definition wchan_wakeall (me w lk : positive) : M sys unit :=
  b ← spinlock_do_i_hold me (Spin lk);
  KASSERT b ;;
  in_tl (threadlist_init (Private me)) ;;
  n ← gets (λ s, size (threads s));
  grab_loop (S n) me w ;;
  cpu_upd me (with_phase WakingAll).

(** The rest of [wchan_wakeone], or the next round of [wchan_wakeall]. *)
Definition wake_round (me : positive) : M sys unit :=
  x ← cpu_get me;
  match c_phase x with
  | WakingOne t => thread_make_runnable me t false ;; cpu_upd me (with_phase Free)
  | WakingAll =>
      t ← in_tl (threadlist_remhead (Private me));
      match t with
      | Some t => thread_make_runnable me t false
      | None => in_tl (threadlist_cleanup (Private me)) ;; cpu_upd me (with_phase Free)
      end
  | _ => panic
  end.

Definition wchan_isempty (me w lk : positive) : M sys bool :=
  b ← spinlock_do_i_hold me (Spin lk);
  KASSERT b ;;
  in_tl (threadlist_isempty (Channel w)).

(** ** Interrupts (trap.c) *)

(** [mips_trap] for an interrupt, up to the handlers that [mainbus_interrupt]
    calls, and after them.  The processor turns interrupts off, and restores
    them on return; when it idles they are on only while it takes interrupts. *)
Definition irq_enter (me : positive) : M sys unit :=
  cpu_irqoff me ;;
  cpu_upd me (with_waiting false) ;;
  cur ← curthread me;
  x ← thread_get cur;
  y ← spl_get cur;
  let doadjust := fst y =? 0 in
  (if doadjust then KASSERT (snd y =? 0) ;; spl_put cur (IPL_HIGH, snd y + 1) else mret tt) ;;
  thread_put cur (with_frames true ((t_in_interrupt x, doadjust) :: t_frames x) x) ;;
  y ← spl_get cur;
  KASSERT (fst y >? 0).

Definition irq_exit (me : positive) : M sys unit :=
  cur ← curthread me;
  x ← thread_get cur;
  '(old_in, doadjust) ← deref (head (t_frames x));
  (if (doadjust : bool) then
     y ← spl_get cur;
     KASSERT (fst y =? IPL_HIGH) ;;
     KASSERT (snd y =? 1) ;;
     spl_put cur (0, snd y - 1) ;;
     cpu_irqon me
   else mret tt) ;;
  thread_put cur (with_frames old_in (tail (t_frames x)) x).

(** The end of [mainbus_interrupt]'s handling of an interprocessor interrupt. *)
Definition clear_ipi (me : positive) : M sys unit :=
  c ← curcpu me; lamebus_clear_ipi c ;; cpu_upd me (with_phase Free).

(** ** Shutdown and startup *)

Definition thread_shutdown (me : positive) : M sys unit := ipi_broadcast me IPI_OFFLINE.

(** The run queue is emptied without its lock. *)
Definition thread_panic (me : positive) : M sys unit :=
  ipi_broadcast me IPI_PANIC ;;
  c ← curcpu me;
  in_tl (count_put (Runqueue c) 0) ;;
  in_tl (set_next (Head (Runqueue c)) (Some (Tail (Runqueue c)))) ;;
  in_tl (set_prev (Tail (Runqueue c)) (Some (Head (Runqueue c)))).

(** The MMU after it is reset, before a processor enters the kernel. *)
Definition tlb_reset : Tlb.tlb :=
  Tlb.mkTlb ((λ i, (Tlb.TLBHI_INVALID i, Tlb.TLBLO_INVALID)) <$> seqZ 0 Tlb.NUM_TLB) 0 false.

(** A new processor [c] with its first thread [t]; running out of memory is a
    panic. *)
Definition cpu_create (me : option positive) (c t : positive) : M sys positive :=
  in_tl (threadlist_init (Zombies c)) ;;
  in_ints (modify (λ i, mkInterrupts (t_spl i) (<[c := 0]> (c_spinlocks i)) (<[c := false]> (c_irq i))
                          (splk_holder i))) ;;
  in_tl (threadlist_init (Runqueue c)) ;;
  spinlock_init (RunqueueLock c) ;;
  spinlock_init (IpiLock c) ;;
  r ← in_allcpus (Array.array_add true c);
  match r with
  | Err _ => panic
  | Ok number =>
      o ← thread_create true true t;
      t ← deref o;
      cpu_put c (mkCpu number t 0 false 0 (replicate (Z.to_nat TLBSHOOTDOWN_MAX) 0) 0 false tlb_reset false
                   (if me is None then Online else Unstarted) Free) ;;
      k ← gets kproc;
      result ← proc_addthread me true k t;
      KASSERT (result =? 0) ;;
      (if number =? 0 then mret tt else thread_checkstack_init t) ;;
      thread_upd t (with_cpu (Some c)) ;;
      mret c
  end.

Definition thread_bootstrap (c t : positive) : M sys unit :=
  modify (set_allcpus Array.array_init) ;;
  c ← cpu_create None c t;
  cur ← curthread c;
  thread_upd cur (with_cpu (Some c)) ;;
  x ← thread_get cur;
  KASSERT (bool_decide (t_proc x ≠ None)) ;;
  spinlock_init AllwchansLock ;;
  modify (set_allwchans Array.array_init).

(** A secondary processor starts; its first thread goes on to tell the one that
    waits for it, and exits. *)
Definition cpu_hatch (me : positive) (software_number : Z) : M sys unit :=
  cpu_upd me (with_status Online) ;;
  c ← curcpu me;
  x ← cpu_get c;
  KASSERT (c_number x =? software_number) ;;
  spl0 (Some me) ;; mret tt.

End Thread.
