(* ===== verification/ThreadInts.v ===== *)
(** * Interrupts and spinlocks of the thread system

    What taking and releasing a spinlock and raising and lowering the interrupt
    priority do to the counts that turn interrupts on and off. *)

From Stdlib Require Import ZArith Lia.
From stdpp Require Import base numbers list gmap.
From S2P Require Import Prelude Tlb Array Threadlist Thread.

Module ThreadInts.
Import Threadlist Thread.

(** ** The parts of the state *)

Section embed.
Context {A : Type}.
Implicit Types (s : sys) (Q : A → sys → Prop).

Lemma wp_in_tl (m : M (lists listid) A) Q s :
  wp m (λ a x, Q a (set_tl x s)) (tl s) → wp (in_tl m) Q s.
Proof. unfold wp, in_tl. by destruct (m (tl s)) as [[]|]. Qed.

Lemma wp_in_ints (m : M interrupts A) Q s :
  wp m (λ a x, Q a (set_ints x s)) (ints s) → wp (in_ints m) Q s.
Proof. unfold wp, in_ints. by destruct (m (ints s)) as [[]|]. Qed.

Lemma wp_in_allcpus (m : M (Array.array positive) A) Q s :
  wp m (λ a x, Q a (set_allcpus x s)) (allcpus s) → wp (in_allcpus m) Q s.
Proof. unfold wp, in_allcpus. by destruct (m (allcpus s)) as [[]|]. Qed.

Lemma wp_in_allwchans (m : M (Array.array positive) A) Q s :
  wp m (λ a x, Q a (set_allwchans x s)) (allwchans s) → wp (in_allwchans m) Q s.
Proof. unfold wp, in_allwchans. by destruct (m (allwchans s)) as [[]|]. Qed.

Lemma wp_in_pthreads p x (m : M (Array.array positive) A) Q s :
  procs s !! p = Some x →
  wp m (λ a v, Q a (set_procs (<[p := mkProc v (p_addrspace x)]> (procs s)) s)) (p_threads x) →
  wp (in_pthreads p m) Q s.
Proof.
  intros Hp Hm. unfold in_pthreads. wp_go. eapply wp_deref; [done|]. unfold wp in Hm.
  destruct (m (p_threads x)) as [[a v]|]; [|done]. by wp_go.
Qed.

Lemma wp_on_tlb c x (m : M Tlb.tlb A) Q s :
  cpus s !! c = Some x →
  wp m (λ a t, Q a (set_cpus (<[c := with_tlb t x]> (cpus s)) s)) (c_tlb x) →
  wp (in_tlb c m) Q s.
Proof.
  intros Hc Hm. unfold in_tlb, cpu_get, cpu_put. wp_go. eapply wp_deref; [done|]. unfold wp in Hm.
  destruct (m (c_tlb x)) as [[a t]|]; [|done]. by wp_go.
Qed.
End embed.

Section access.
Implicit Types (s : sys).

Lemma wp_thread_get t y s (Q : thread → sys → Prop) :
  threads s !! t = Some y → Q y s → wp (thread_get t) Q s.
Proof. intros Ht HQ. unfold thread_get. wp_go. by eapply wp_deref. Qed.

Lemma wp_thread_upd t y f s (Q : unit → sys → Prop) :
  threads s !! t = Some y → Q tt (set_threads (<[t := f y]> (threads s)) s) →
  wp (thread_upd t f) Q s.
Proof.
  intros Ht HQ. unfold thread_upd, thread_put. apply wp_bind. eapply wp_thread_get; [done|]. by wp_go.
Qed.

Lemma wp_cpu_get c x s (Q : cpu → sys → Prop) :
  cpus s !! c = Some x → Q x s → wp (cpu_get c) Q s.
Proof. intros Hc HQ. unfold cpu_get. wp_go. by eapply wp_deref. Qed.

Lemma wp_cpu_upd c x f s (Q : unit → sys → Prop) :
  cpus s !! c = Some x → Q tt (set_cpus (<[c := f x]> (cpus s)) s) → wp (cpu_upd c f) Q s.
Proof.
  intros Hc HQ. unfold cpu_upd, cpu_put. apply wp_bind. eapply wp_cpu_get; [done|]. by wp_go.
Qed.

(** Processor [me] executes thread [t]. *)
Definition here (me t : positive) s : Prop :=
  ∃ x y, cpus s !! me = Some x ∧ c_curthread x = t ∧ threads s !! t = Some y ∧ t_cpu y = Some me.

Lemma wp_curthread me t s (Q : positive → sys → Prop) :
  here me t s → Q t s → wp (curthread me) Q s.
Proof.
  intros (x & y & Hx & <- & Hy & Hc) HQ. unfold curthread. apply wp_bind.
  eapply wp_cpu_get; [done|]. by wp_go.
Qed.

Lemma wp_curcpu me t s (Q : positive → sys → Prop) :
  here me t s → Q me s → wp (curcpu me) Q s.
Proof.
  intros Hh HQ. unfold curcpu. apply wp_bind. eapply wp_curthread; [done|].
  destruct Hh as (x & y & Hx & Ht & Hy & Hc). apply wp_bind.
  eapply wp_thread_get; [done|]. by eapply wp_deref.
Qed.

(** Interrupts are on exactly when the thread's count is zero. *)
Definition sane (me t : positive) (i : interrupts) : Prop :=
  ∃ sp n k, t_spl i !! t = Some (sp, n) ∧ c_spinlocks i !! me = Some k ∧
    c_irq i !! me = Some (bool_decide (n = 0)) ∧ 0 ≤ n ∧ 0 ≤ k.

Definition spl_of (t : positive) (i : interrupts) : Z * Z := default (0, 0) (t_spl i !! t).
Definition locks_of (me : positive) (i : interrupts) : Z := default 0 (c_spinlocks i !! me).

(** The count of thread [t], the locks of processor [me] and the holder of lock
    [l] change. *)
Definition adjust (me t : positive) (sp n k : Z) (l : lockid) (h : option positive) (i : interrupts)
  : interrupts :=
  mkInterrupts (<[t := (sp, n)]> (t_spl i)) (<[me := k]> (c_spinlocks i))
    (<[me := bool_decide (n = 0)]> (c_irq i)) (<[l := h]> (splk_holder i)).

Definition locked (me t : positive) (l : lockid) (i : interrupts) : interrupts :=
  adjust me t (fst (spl_of t i)) (snd (spl_of t i) + 1) (locks_of me i + 1) l (Some me) i.
Definition unlocked (me t : positive) (l : lockid) (i : interrupts) : interrupts :=
  adjust me t (fst (spl_of t i)) (snd (spl_of t i) - 1) (locks_of me i - 1) l None i.

(** The priority and the count of thread [t] change. *)
Definition set_spl (me t : positive) (sp n : Z) (i : interrupts) : interrupts :=
  mkInterrupts (<[t := (sp, n)]> (t_spl i)) (c_spinlocks i) (<[me := bool_decide (n = 0)]> (c_irq i))
    (splk_holder i).
Definition high (me t : positive) (i : interrupts) : interrupts :=
  if fst (spl_of t i) =? 1 then i else set_spl me t 1 (snd (spl_of t i) + 1) i.

Lemma sane_locked me t l i : sane me t i → sane me t (locked me t l i).
Proof.
  intros (sp & n & k & Hs & Hk & Hq & Hn & Hk0). unfold locked, spl_of, locks_of. rewrite Hs, Hk. simpl.
  eexists sp, (n + 1), (k + 1). simpl. rewrite !lookup_insert_eq. auto with lia.
Qed.

Lemma sane_high me t i : sane me t i → sane me t (high me t i).
Proof.
  intros Hs. unfold high. destruct (fst (spl_of t i) =? 1); [done|].
  destruct Hs as (sp & n & k & Hs & Hk & Hq & Hn & Hk0). unfold spl_of. rewrite Hs. simpl.
  eexists 1, (n + 1), k. simpl. rewrite !lookup_insert_eq. auto with lia.
Qed.

Lemma unlocked_locked me t l i :
  sane me t i → splk_holder i !! l = Some None → unlocked me t l (locked me t l i) = i.
Proof.
  intros (sp & n & k & Hs & Hk & Hq & Hn & Hk0) Hl. unfold unlocked, locked, spl_of, locks_of.
  rewrite Hs, Hk. simpl. unfold adjust. simpl. rewrite !lookup_insert_eq. simpl.
  rewrite !insert_insert_eq. replace (n + 1 - 1) with n by lia. replace (k + 1 - 1) with k by lia.
  rewrite !insert_id by done. by destruct i.
Qed.

Lemma wp_splraise me t s (Q : unit → sys → Prop) :
  here me t s → sane me t (ints s) →
  Q tt (set_ints (set_spl me t (fst (spl_of t (ints s))) (snd (spl_of t (ints s)) + 1) (ints s)) s) →
  wp (splraise (Some me) IPL_NONE IPL_HIGH) Q s.
Proof.
  intros Hh (sp & n & k & Hs & Hk & Hq & Hn & Hk0). unfold spl_of. rewrite Hs. simpl. intros HQ.
  unfold splraise. wp_check. wp_check. eapply wp_curthread; [done|].
  unfold spl_get. wp_go. eapply wp_deref; [done|]. simpl. unfold cpu_irqoff, irq_put, spl_put.
  destruct (Z.eqb_spec n 0) as [->|Hne]; wp_go; repeat (apply wp_in_ints, wp_modify).
  - exact HQ.
  - unfold set_spl in HQ. rewrite bool_decide_false in Hq by done.
    rewrite bool_decide_false, (insert_id (c_irq _)) in HQ by (done || lia). exact HQ.
Qed.

Lemma wp_spllower me t s (Q : unit → sys → Prop) :
  here me t s → sane me t (ints s) → 0 < snd (spl_of t (ints s)) →
  Q tt (set_ints (set_spl me t (fst (spl_of t (ints s))) (snd (spl_of t (ints s)) - 1) (ints s)) s) →
  wp (spllower (Some me) IPL_HIGH IPL_NONE) Q s.
Proof.
  intros Hh (sp & n & k & Hs & Hk & Hq & Hn & Hk0). unfold spl_of. rewrite Hs. simpl. intros Hpos HQ.
  unfold spllower. wp_check. wp_check. eapply wp_curthread; [done|].
  unfold spl_get. wp_go. eapply wp_deref; [done|]. simpl. unfold cpu_irqon, irq_put, spl_put.
  rewrite bool_decide_false in Hq by lia. wp_go. apply wp_in_ints, wp_modify.
  destruct (Z.eqb_spec (n - 1) 0) as [E|Hne].
  - apply wp_in_ints, wp_modify. unfold set_spl in HQ. rewrite E in *. exact HQ.
  - wp_go. unfold set_spl in HQ. rewrite bool_decide_false, (insert_id (c_irq _)) in HQ by done. exact HQ.
Qed.

Lemma here_set_ints me t i s : here me t (set_ints i s) ↔ here me t s.
Proof. done. Qed.

Lemma wp_acquire_lock me t l s (Q : unit → sys → Prop) :
  here me t s → sane me t (ints s) → splk_holder (ints s) !! l = Some None →
  Q tt (set_ints (locked me t l (ints s)) s) → wp (spinlock_acquire (Some me) l) Q s.
Proof.
  intros Hh Hsane Hl HQ. unfold spinlock_acquire. apply wp_bind. eapply wp_splraise; [done|done|].
  destruct Hsane as (sp & n & k & Hs & Hk & Hq & Hn & Hk0).
  unfold holder_get, spinlocks_get, spinlocks_put, holder_put. wp_go. eapply wp_deref; [done|].
  wp_go. eapply wp_curcpu; [done|]. wp_check. eapply wp_deref; [done|]. wp_go.
  apply wp_in_ints, wp_modify. apply wp_bind, wp_KASSERT; [done|]. apply wp_in_ints, wp_modify.
  unfold locked, spl_of, locks_of in HQ. rewrite Hs, Hk in HQ. unfold spl_of. rewrite Hs. exact HQ.
Qed.

Lemma wp_release_lock me t l s (Q : unit → sys → Prop) :
  here me t s → sane me t (ints s) → splk_holder (ints s) !! l = Some (Some me) →
  0 < snd (spl_of t (ints s)) → 0 < locks_of me (ints s) →
  Q tt (set_ints (unlocked me t l (ints s)) s) → wp (spinlock_release (Some me) l) Q s.
Proof.
  intros Hh Hsane Hl Hn1 Hk1 HQ. pose proof Hsane as (sp & n & k & Hs & Hk & Hq & Hn & Hk0).
  unfold spinlock_release, holder_get, spinlocks_get, spinlocks_put, holder_put.
  unfold locks_of in Hk1. rewrite Hk in Hk1. simpl in Hk1.
  apply wp_bind. wp_go. eapply wp_curcpu; [done|]. wp_go. eapply wp_deref; [done|].
  apply wp_bind, wp_KASSERT; [by rewrite bool_decide_true|]. wp_go. eapply wp_deref; [done|].
  apply wp_bind, wp_KASSERT; [lia|]. apply wp_in_ints, wp_modify. apply wp_bind, wp_in_ints, wp_modify.
  unfold spl_of in Hn1. rewrite Hs in Hn1. simpl in Hn1.
  eapply (wp_spllower me t); [done|..].
  - exists sp, n, (k - 1). simpl. rewrite lookup_insert_eq. auto with lia.
  - unfold spl_of. simpl. by rewrite Hs.
  - unfold unlocked, spl_of, locks_of in HQ. rewrite Hs, Hk in HQ. unfold spl_of. simpl. rewrite Hs. exact HQ.
Qed.

Lemma wp_holds_lock me t l h s (Q : bool → sys → Prop) :
  here me t s → splk_holder (ints s) !! l = Some h → Q (bool_decide (h = Some me)) s →
  wp (spinlock_do_i_hold me l) Q s.
Proof.
  intros Hh Hl HQ. unfold spinlock_do_i_hold, holder_get. apply wp_bind. wp_go. eapply wp_deref; [done|].
  apply wp_bind. eapply wp_curcpu; [done|]. by apply wp_ret.
Qed.

Lemma locked_spl me t l i : sane me t i → spl_of t (locked me t l i) = (fst (spl_of t i), snd (spl_of t i) + 1).
Proof. intros _. unfold locked, adjust, spl_of at 1. simpl. by rewrite lookup_insert_eq. Qed.

Lemma locked_locks me t l i : locks_of me (locked me t l i) = locks_of me i + 1.
Proof. unfold locked, adjust, locks_of at 1. simpl. by rewrite lookup_insert_eq. Qed.

(** The release that matches an acquisition. *)
Lemma wp_release_locked me t l i s (Q : unit → sys → Prop) :
  here me t s → ints s = locked me t l i → sane me t i → splk_holder i !! l = Some None →
  Q tt (set_ints i s) → wp (spinlock_release (Some me) l) Q s.
Proof.
  intros Hh Hi Hs Hl HQ. pose proof Hs as (sp & n & k & H1 & H2 & H3 & H4 & H5).
  eapply (wp_release_lock me t); [done|..]; rewrite Hi.
  - by apply sane_locked.
  - unfold locked, adjust. simpl. apply lookup_insert_eq.
  - rewrite locked_spl by done. unfold spl_of. rewrite H1. simpl. lia.
  - rewrite locked_locks. unfold locks_of. rewrite H2. simpl. lia.
  - by rewrite unlocked_locked.
Qed.

Lemma wp_splhigh me t s (Q : Z → sys → Prop) :
  here me t s → sane me t (ints s) → (fst (spl_of t (ints s)) = 0 ∨ fst (spl_of t (ints s)) = 1) →
  Q (fst (spl_of t (ints s))) (set_ints (high me t (ints s)) s) → wp (splhigh (Some me)) Q s.
Proof.
  intros Hh Hsane Hsp HQ. pose proof Hsane as (sp & n & k & Hs & Hk & Hq & Hn & Hk0).
  unfold high in HQ. unfold splhigh, splx. apply wp_bind. eapply wp_curthread; [done|].
  unfold spl_get, spl_put. apply wp_bind. wp_go. eapply wp_deref; [done|]. simpl.
  assert (spl_of t (ints s) = (sp, n)) as E by (unfold spl_of; by rewrite Hs). rewrite E in *. simpl in *.
  destruct Hsp as [-> | ->]; simpl in *; [|apply wp_ret; by destruct s].
  apply wp_bind. apply (wp_splraise me t); [done|done|]. rewrite E. simpl. wp_go.
  eapply wp_deref; [apply lookup_insert_eq|]. wp_go. apply wp_in_ints, wp_modify. wp_go.
  unfold set_spl, set_ints in *. simpl in *. rewrite insert_insert_eq. exact HQ.
Qed.

(** Setting the priority to [spl]. *)
Lemma wp_splx me t spl s (Q : Z → sys → Prop) :
  here me t s → sane me t (ints s) →
  (fst (spl_of t (ints s)) = 0 ∨ fst (spl_of t (ints s)) = 1) → (spl = 0 ∨ spl = 1) →
  fst (spl_of t (ints s)) ≤ snd (spl_of t (ints s)) →
  (∀ r, Q r (set_ints (set_spl me t spl (snd (spl_of t (ints s)) + spl - fst (spl_of t (ints s))) (ints s)) s)) →
  wp (splx (Some me) spl) Q s.
Proof.
  intros Hh Hsane Hsp Hspl Hle HQ. pose proof Hsane as (sp & n & k & Hs & Hk & Hq & Hn & Hk0).
  assert (spl_of t (ints s) = (sp, n)) as E by (unfold spl_of; by rewrite Hs). rewrite E in *. simpl in *.
  destruct (decide (sp = spl)) as [->|Hne].
  - unfold splx. apply wp_bind. eapply wp_curthread; [done|]. unfold spl_get. apply wp_bind. wp_go.
    eapply wp_deref; [done|]. simpl. rewrite Z.ltb_irrefl, Z.gtb_ltb, Z.ltb_irrefl. apply wp_ret.
    specialize (HQ spl). unfold set_spl in HQ. replace (n + spl - spl) with n in HQ by lia.
    rewrite !insert_id in HQ by done. by destruct s as [? ? ? [] ? ? ? ? ? ?].
  - destruct Hspl as [-> | ->].
    + destruct Hsp as [-> | ->]; [done|]. unfold splx. apply wp_bind. eapply wp_curthread; [done|].
      unfold spl_get, spl_put. apply wp_bind. wp_go. eapply wp_deref; [done|]. simpl. apply wp_bind.
      apply wp_in_ints, wp_modify. apply wp_bind. apply (wp_spllower me t); [done|..].
      * exists 0, n, k. simpl. rewrite lookup_insert_eq. auto.
      * unfold spl_of. simpl. rewrite lookup_insert_eq. simpl. lia.
      * unfold spl_of. simpl. rewrite lookup_insert_eq. simpl. wp_go. specialize (HQ 1).
        unfold set_spl, set_ints in *. simpl in *. rewrite insert_insert_eq.
        replace (n + 0 - 1) with (n - 1) in HQ by lia. exact HQ.
    + destruct Hsp as [-> | ->]; [|done]. change (splx (Some me) 1) with (splhigh (Some me)).
      eapply (wp_splhigh me t); [done|done|rewrite E; auto|]. unfold high. rewrite E. simpl.
      specialize (HQ 0). replace (n + 1 - 0) with (n + 1) in HQ by lia. exact HQ.
Qed.

(** Restoring the priority after [splhigh]. *)
Lemma wp_splx_high me t i s (Q : Z → sys → Prop) :
  here me t s → ints s = high me t i → sane me t i →
  (fst (spl_of t i) = 0 ∨ fst (spl_of t i) = 1) → fst (spl_of t i) ≤ snd (spl_of t i) →
  (∀ r, Q r (set_ints i s)) → wp (splx (Some me) (fst (spl_of t i))) Q s.
Proof.
  intros Hh Hi Hsane Hsp Hle HQ. pose proof Hsane as (sp & n & k & Hs & Hk & Hq & Hn & Hk0).
  assert (spl_of t i = (sp, n)) as E by (unfold spl_of; by rewrite Hs). rewrite E in *. simpl in *.
  assert (spl_of t (high me t i) = (1, n + 1 - sp)) as E'.
  { unfold high. rewrite E. simpl. destruct Hsp as [-> | ->]; simpl.
    - unfold set_spl, spl_of. simpl. rewrite lookup_insert_eq. simpl. f_equal. lia.
    - rewrite E. f_equal. lia. }
  eapply (wp_splx me t); [done|rewrite Hi; by apply sane_high|rewrite Hi, E'; auto|done|rewrite Hi, E'; simpl; lia|].
  intros r. rewrite Hi, E'. simpl. replace (n + 1 - sp + sp - 1) with n by lia.
  replace (set_spl me t sp n (high me t i)) with i; [done|].
  unfold high. rewrite E. simpl. destruct Hsp as [-> | ->]; simpl; unfold set_spl; simpl.
  - rewrite !insert_insert_eq, !insert_id by done. by destruct i.
  - rewrite !insert_id by done. by destruct i.
Qed.

End access.
End ThreadInts.
