(* ===== verification/ThreadSystem.v ===== *)
(** * The runs of the thread system

    What the processors can do in a state, and the invariant of the states that
    they reach. *)

From Stdlib Require Import ZArith Lia.
From stdpp Require Import base numbers list gmap strings.
From S2P Require Import Prelude Tlb Array Threadlist Thread ThreadInts.

Module ThreadSystem.
Import Threadlist Thread ThreadInts.

(** ** Actions *)

(** What a processor does next: a call of the thread system by the code that it
    executes, or a step that a function of the thread system goes on with. *)
Inductive action :=
| SpinInit (n : positive) | Acquire (n : positive) | Release (n : positive) | Splx (spl : Z)
| Fork (oks : bool * bool * bool * bool) (t : positive) (p : option positive)
| RemThread | AddThread (ok : bool) (p : positive)
| Exit | ExitRest | Yield
| WchanCreate (ok_wchan ok_array : bool) (name : string) (w : positive) | WchanDestroy (w : positive)
| Sleep (w lk : positive) | SleepReturn (lk : positive)
| WakeOne (w lk : positive) | WakeAll (w lk : positive) | WakeRound
| IrqEnter | IrqExit
| Ipi | ClearIpi | Hardclock | Migrate | ClockRest
| IdleWakeup
| Shutdown | Shootdown (target : positive) (mapping : Z)
| CpuCreate (c t : positive) | Hatch (software_number : Z).

Definition perform (me : positive) (a : action) : M sys unit :=
  match a with
  | SpinInit n => spinlock_init (Spin n)
  | Acquire n => spinlock_acquire (Some me) (Spin n)
  | Release n => spinlock_release (Some me) (Spin n)
  | Splx spl => splx (Some me) spl ;; mret tt
  | Fork oks t p => thread_fork me oks t p ;; mret tt
  | RemThread => t ← curthread me; proc_remthread me t
  | AddThread ok p => t ← curthread me; proc_addthread (Some me) ok p t ;; mret tt
  | Exit => thread_exit me
  | ExitRest => thread_exit_rest me
  | Yield => thread_yield me
  | WchanCreate ok1 ok2 name w => wchan_create me ok1 ok2 name w ;; mret tt
  | WchanDestroy w => wchan_destroy me w
  | Sleep w lk => wchan_sleep me w lk
  | SleepReturn lk => wchan_sleep_return me lk
  | WakeOne w lk => wchan_wakeone me w lk
  | WakeAll w lk => wchan_wakeall me w lk
  | WakeRound => wake_round me
  | IrqEnter => irq_enter me
  | IrqExit => irq_exit me
  | Ipi => interprocessor_interrupt me
  | ClearIpi => clear_ipi me
  | Hardclock => hardclock me
  | Migrate => thread_consider_migration me
  | ClockRest => hardclock_rest me
  | IdleWakeup => idle_wakeup me
  | Shutdown => thread_shutdown me
  | Shootdown target mapping => ipi_tlbshootdown me target mapping
  | CpuCreate c t => cpu_create (Some me) c t ;; mret tt
  | Hatch n => cpu_hatch me n
  end.

(** ** What is allowed *)

Section enabled.
Context (s : sys) (me : positive) (x : cpu) (y : thread).

Definition online : bool := bool_decide (c_status x = Online).

(** The processor executes code that may call the thread system: the thread's
    own, or that of an interrupt handler. *)
Definition in_code : bool :=
  online && bool_decide (c_phase x = Free) && (negb (c_isidle x) || negb (bool_decide (t_frames y = []))).
Definition in_thread : bool := in_code && negb (t_in_interrupt y) && bool_decide (t_point y = Anywhere).
Definition in_handler : bool := in_code && t_in_interrupt y.
Definition anywhere : bool := in_thread || in_handler.

Definition locks_held : Z := locks_of me (ints s).
Definition holds_lock (n : positive) : bool :=
  bool_decide (splk_holder (ints s) !! Spin n = Some (Some me)).
Definition lock_free (n : positive) : bool := bool_decide (splk_holder (ints s) !! Spin n = Some None).
Definition new_thread (t : positive) : bool := bool_decide (threads s !! t = None ∧ Z.pos t < 2 ^ 29).

(** A lock is made once.  A thread takes a lock that is free, releases one that
    its processor has, sleeps with that of the channel and no other, and neither
    yields nor exits with one; a handler returns without locks and does not
    sleep.  New threads, channels and processors have new addresses.  A channel
    that is destroyed has no sleeper.  A thread exits from the kernel's process.
    Not more mappings are shot down than there is room for.
    Interrupts come when they are on, or when the processor idles. *)
Definition allowed (a : action) : bool :=
  match a with
  | SpinInit n => in_thread && bool_decide (splk_holder (ints s) !! Spin n = None)
  | Acquire n => anywhere && lock_free n
  | Release n => anywhere && holds_lock n
  | Splx spl => in_thread && ((spl =? IPL_NONE) || (spl =? IPL_HIGH))
  | Fork _ t p =>
      in_thread && new_thread t &&
      match p with
      | Some p => bool_decide (is_Some (procs s !! p))
      | None => bool_decide (is_Some (t_proc y))
      end
  | RemThread => in_thread && bool_decide (is_Some (t_proc y))
  | AddThread _ p => in_thread && bool_decide (t_proc y = None) && bool_decide (is_Some (procs s !! p))
  | Exit => in_thread && bool_decide (t_proc y = Some (kproc s)) && (locks_held =? 0)
  | ExitRest => in_code && negb (t_in_interrupt y) && bool_decide (t_point y = Exiting)
  | Yield => in_thread && (locks_held =? 0)
  | WchanCreate _ _ _ w => in_thread && bool_decide (wchans s !! w = None ∧ Z.pos w < 2 ^ 29)
  | WchanDestroy w =>
      in_thread && bool_decide (is_Some (wchans s !! w)) &&
      bool_decide (tl_count (tl s) !! Channel w = Some 0)
  | Sleep w lk =>
      in_thread && bool_decide (is_Some (wchans s !! w)) && holds_lock lk && (locks_held =? 1)
  | SleepReturn lk =>
      in_code && negb (t_in_interrupt y) && bool_decide (t_point y = Relock lk) && lock_free lk
  | WakeOne w lk | WakeAll w lk => anywhere && bool_decide (is_Some (wchans s !! w)) && holds_lock lk
  | WakeRound => online && match c_phase x with WakingOne _ | WakingAll => true | _ => false end
  | IrqEnter =>
      online && (bool_decide (c_irq (ints s) !! me = Some true) ||
                 (c_isidle x && bool_decide (t_frames y = [])))
  | IrqExit => in_handler && (locks_held =? 0)
  | Ipi => in_handler && c_line x && (locks_held =? 0)
  | ClearIpi => online && bool_decide (c_phase x = Clearing)
  | Hardclock => in_handler && (locks_held =? 0)
  | Migrate => online && match c_phase x with Counting _ _ _ | Sending _ _ _ => true | _ => false end
  | ClockRest => online && bool_decide (c_phase x = Clocked)
  | IdleWakeup => online && c_isidle x && bool_decide (t_frames y = [])
  | Shutdown => in_thread
  | Shootdown target _ =>
      in_thread &&
      match cpus s !! target with
      | Some x' => negb (c_numshootdown x' =? TLBSHOOTDOWN_ALL)
      | None => false
      end
  | CpuCreate c t =>
      in_thread && negb (ls_uniprocessor s) && new_thread t &&
      bool_decide (cpus s !! c = None ∧ Z.pos c < 2 ^ 29) &&
      bool_decide (splk_holder (ints s) !! RunqueueLock c = None ∧ splk_holder (ints s) !! IpiLock c = None)
  | Hatch n => bool_decide (c_status x = Unstarted) && (c_number x =? n)
  end.
End enabled.

Definition enabled (me : positive) (a : action) (s : sys) : bool :=
  match cpus s !! me with
  | None => false
  | Some x =>
      match threads s !! c_curthread x with
      | None => false
      | Some y => allowed s me x y a
      end
  end.

Inductive step (s s' : sys) : Prop :=
| step_action me a : enabled me a s = true → perform me a s = Done (tt, s') → step s s'.

(** ** The invariant *)

Implicit Types (C : gmap listid (list positive)) (s : sys).

(** What the list that a thread is on says of the thread. *)
Definition listed s (l : listid) (y : thread) : Prop :=
  match l with
  | Runqueue c => is_Some (cpus s !! c) ∧ t_state y = S_READY ∧ t_cpu y = Some c
  | Zombies c => is_Some (cpus s !! c) ∧ t_state y = S_ZOMBIE ∧ t_cpu y = Some c ∧ t_proc y = None
  | Channel w => is_Some (wchans s !! w) ∧ t_state y = S_SLEEP
  | Private c =>
      ∃ x, cpus s !! c = Some x ∧
        match c_phase x with
        | WakingAll => t_state y = S_SLEEP
        | Sending _ _ _ => t_state y = S_READY ∧ t_cpu y = Some c
        | _ => False
        end
  end.

(** A thread is on a list, in the hand of a processor that wakes it, or runs. *)
Definition placed C s (t : positive) (y : thread) : Prop :=
  (∃ l xs, C !! l = Some xs ∧ t ∈ xs) ∨
  (∃ c x, cpus s !! c = Some x ∧ c_phase x = WakingOne t) ∨
  (∃ c x, cpus s !! c = Some x ∧ c_curthread x = t ∧ c_isidle x = false).

Definition magic (y : thread) : Prop :=
  match t_stack y with None => True | Some w => take 4 w = replicate 4 THREAD_STACK_MAGIC end.

Definition private_used (p : phase) : bool :=
  match p with WakingAll | Sending _ _ _ => true | _ => false end.
Definition handler_phase (p : phase) : bool :=
  match p with Counting _ _ _ | Sending _ _ _ | Clocked | Clearing => true | _ => false end.

(** The frames of [mips_trap] that a thread can have, [b] when it is the thread
    that its processor idles in. *)
Definition frames_ok (b : bool) (y : thread) : Prop :=
  t_frames y = [] ∧ t_in_interrupt y = false ∨
  t_frames y = [(false, negb b)] ∧ t_in_interrupt y = true.

(** Processor [c] and the thread [y] that it executes. *)
Record cpu_ok C (c : positive) (x : cpu) (y : thread) : Prop := {
  k_cpu : t_cpu y = Some c;
  k_run : c_isidle x = false → off C (c_curthread x) ∧ (t_state y = S_RUN ∨ t_state y = S_READY);
  k_idle : c_isidle x = true → t_state y ≠ S_RUN;
  k_private : if private_used (c_phase x) then is_Some (C !! Private c)
              else default [] (C !! Private c) = [];
  k_tlb : Tlb.tlb_wf (c_tlb x) ∧ Tlb.tlb_spinlock (c_tlb x) = false;
  k_shoot : Z.of_nat (length (c_shootdown x)) = TLBSHOOTDOWN_MAX ∧
            TLBSHOOTDOWN_ALL ≤ c_numshootdown x ≤ TLBSHOOTDOWN_MAX;
}.

(** Some processor executes thread [t]. *)
Definition current s (t : positive) : Prop := ∃ c x, cpus s !! c = Some x ∧ c_curthread x = t.

Record thread_ok C s (t : positive) (y : thread) : Prop := {
  h_place : placed C s t y;
  h_magic : magic y;
  h_cpu : ∃ c, t_cpu y = Some c ∧ is_Some (cpus s !! c);
  h_exit : t_point y = Exiting → t_proc y = None;
}.

(** The arrays of processors, wait channels and threads of a process. *)
Record tables s : Prop := {
  b_cpus : ∃ l, Array.holds (allcpus s) l ∧ NoDup l ∧ ∀ c, c ∈ l ↔ is_Some (cpus s !! c);
  b_addr : ∀ c, is_Some (cpus s !! c) → Z.pos c < 2 ^ 29;
  b_uni : ls_uniprocessor s = true → ∀ c c', is_Some (cpus s !! c) → is_Some (cpus s !! c') → c = c';
  b_wchans : ∃ l, Array.holds (allwchans s) l ∧
    (∀ w x, wchans s !! w = Some x → 0 ≤ wc_index x ∧ l !! Z.to_nat (wc_index x) = Some w) ∧
    (∀ i w, l !! i = Some w → ∃ x, wchans s !! w = Some x ∧ wc_index x = Z.of_nat i);
  b_waddr : ∀ w, is_Some (wchans s !! w) → Z.pos w < 2 ^ 29;
  b_procs : ∀ p x, procs s !! p = Some x → ∃ l, Array.holds (p_threads x) l ∧ NoDup l ∧
    ∀ t, t ∈ l ↔ ∃ y, threads s !! t = Some y ∧ t_proc y = Some p;
  b_proc : ∀ t y p, threads s !! t = Some y → t_proc y = Some p → is_Some (procs s !! p);
  b_kproc : is_Some (procs s !! kproc s);
}.

(** Where the threads are.  Thread [X], if any, is in transit: it is nowhere. *)
Record inv (X : option positive) C s : Prop := {
  i_rep : rep (tl s) C (dom (threads s));
  i_thread : ∀ t y, threads s !! t = Some y → X ≠ Some t → thread_ok C s t y;
  i_transit : ∀ t, X = Some t → is_Some (threads s !! t) ∧ off C t ∧
    ∀ c x, cpus s !! c = Some x → c_phase x ≠ WakingOne t ∧ (c_curthread x = t → c_isidle x = true);
  i_cpu : ∀ c x, cpus s !! c = Some x → ∃ y, threads s !! c_curthread x = Some y ∧ cpu_ok C c x y;
  i_list : ∀ l xs t, C !! l = Some xs → t ∈ xs → ∃ y, threads s !! t = Some y ∧ listed s l y;
  i_hand : ∀ c x t, cpus s !! c = Some x → c_phase x = WakingOne t →
    off C t ∧ ∃ y, threads s !! t = Some y ∧ t_state y = S_SLEEP;
  i_hands : ∀ c c' x x' t, cpus s !! c = Some x → cpus s !! c' = Some x' →
    c_phase x = WakingOne t → c_phase x' = WakingOne t → c = c';
  i_lists : (∀ c, is_Some (cpus s !! c) → is_Some (C !! Zombies c) ∧ is_Some (C !! Runqueue c)) ∧
            (∀ w, is_Some (wchans s !! w) → is_Some (C !! Channel w));
}.

(** A processor that waits in its idle loop has nothing to run, or an interrupt
    that will tell it. *)
Definition notified_at C s (c : positive) : Prop :=
  ∀ x y, cpus s !! c = Some x → threads s !! c_curthread x = Some y →
    c_isidle x = true → c_waiting x = true →
    t_frames y = [] ∧ (c_line x = true ∨ C !! Runqueue c = Some []).
Definition notified C s : Prop := ∀ c, notified_at C s c.

(** What [thread_consider_migration] has counted and has to send. *)
Definition phase_counts C (c : positive) (p : phase) : Prop :=
  match p with
  | Counting i my total => 0 ≤ i ∧ 0 ≤ my ≤ Z.of_nat (length (default [] (C !! Runqueue c))) ∧ 0 ≤ total
  | Sending i _ n => 0 ≤ i ∧ 0 ≤ n ≤ Z.of_nat (length (default [] (C !! Private c)))
  | _ => True
  end.

Definition counts_at C s (c : positive) : Prop := ∀ x, cpus s !! c = Some x → phase_counts C c (c_phase x).
Definition counts C s : Prop := ∀ c, counts_at C s c.

(** ** The invariant of interrupts and locks *)

Definition held_by (c : positive) (i : interrupts) : Z :=
  msum (λ h : option positive, if decide (h = Some c) then 1 else 0) (splk_holder i).

(** The thread that processor [c] executes: its priority [sp], and a count of the
    priority and the locks [k] that the processor has. *)
Record acct_cur s (c : positive) (x : cpu) (y : thread) (sp k : Z) : Prop := {
  a_spl : t_spl (ints s) !! c_curthread x = Some (sp, sp + k);
  a_01 : sp = 0 ∨ sp = 1;
  a_locks : c_spinlocks (ints s) !! c = Some k;
  a_held : k = held_by c (ints s);
  a_irq : c_irq (ints s) !! c = Some (bool_decide (sp + k = 0));
  a_frames : frames_ok (c_isidle x) y;
  a_phase : c_phase x ≠ Free → c_isidle x = true ∨ handler_phase (c_phase x) = true → t_frames y ≠ [];
  a_high : c_isidle x = true ∨ t_frames y ≠ [] → sp = 1;
  a_waking : c_phase x ≠ Free → handler_phase (c_phase x) = false → 0 < k;
  a_handler : handler_phase (c_phase x) = true → k = 0;
  a_none : t_frames y = [] → c_isidle x = true ∨ t_point y ≠ Anywhere → k = 0;
  a_local : c_isidle x = true → t_local y = 0 ∨ t_local y = 1;
  a_start : c_status x = Unstarted → c_isidle x = false ∧ c_phase x = Free ∧ t_frames y = [];
}.

(** A thread that no processor executes: it is resumed with the lock of the run
    queue. *)
Record acct_away s (t : positive) (y : thread) : Prop := {
  w_spl : t_spl (ints s) !! t = Some (1, 2);
  w_frames : frames_ok false y;
  w_context : match t_context y with
              | Some Startup => t_frames y = []
              | Some Switched => (t_local y = 0 ∨ t_local y = 1) ∧ (t_frames y ≠ [] → t_local y = 1)
              | None => False
              end;
}.

Record acct s : Prop := {
  c_cur : ∀ c x y, cpus s !! c = Some x → threads s !! c_curthread x = Some y →
    ∃ sp k, acct_cur s c x y sp k;
  c_away : ∀ t y, threads s !! t = Some y → ¬ current s t → acct_away s t y;
  c_free : (∀ c, is_Some (cpus s !! c) → splk_holder (ints s) !! RunqueueLock c = Some None ∧
                                          splk_holder (ints s) !! IpiLock c = Some None) ∧
           (∀ p, is_Some (procs s !! p) → splk_holder (ints s) !! ProcLock p = Some None) ∧
           splk_holder (ints s) !! AllwchansLock = Some None;
  c_none : ∀ c, cpus s !! c = None → held_by c (ints s) = 0;
}.

Definition ok s : Prop := (∃ C, inv None C s ∧ notified C s ∧ counts C s) ∧ tables s ∧ acct s.

End ThreadSystem.
