(* ===== verification/ThreadMoves.v ===== *)
(** * How threads move

    The changes of the state that keep every thread in its place: from a list into
    transit and back, to and from a processor, in and out of existence. *)

From Stdlib Require Import ZArith Lia.
From stdpp Require Import base numbers list gmap.
From S2P Require Import Prelude Tlb Array Threadlist Thread ThreadInts ThreadSystem.

Module ThreadMoves.
Import Threadlist Thread ThreadInts ThreadSystem.
Implicit Types (C : gmap listid (list positive)) (s : sys) (X : option positive).

(** ** Changes that do not concern where the threads are *)

Definition tkeep (y y' : thread) : Prop :=
  t_state y' = t_state y ∧ t_cpu y' = t_cpu y ∧ t_proc y' = t_proc y.
Definition ckeep (x x' : cpu) : Prop :=
  c_curthread x' = c_curthread x ∧ c_isidle x' = c_isidle x ∧ c_phase x' = c_phase x.

Record same s s' : Prop := {
  same_t : ∀ t, option_Forall2 tkeep (threads s !! t) (threads s' !! t);
  same_c : ∀ c, option_Forall2 ckeep (cpus s !! c) (cpus s' !! c);
  same_w : ∀ w, is_Some (wchans s !! w) ↔ is_Some (wchans s' !! w);
}.

#[global] Instance tkeep_refl : Reflexive tkeep.
Proof. by repeat split. Qed.
#[global] Instance tkeep_trans : Transitive tkeep.
Proof. intros ??? (?&?&?) (?&?&?). repeat split; congruence. Qed.
#[global] Instance ckeep_refl : Reflexive ckeep.
Proof. by repeat split. Qed.
#[global] Instance ckeep_trans : Transitive ckeep.
Proof. intros ??? (?&?&?) (?&?&?). repeat split; congruence. Qed.

#[global] Instance same_refl : Reflexive same.
Proof. intros s. split; intros; [apply reflexivity..|done]. Qed.
#[global] Instance same_trans : Transitive same.
Proof.
  intros s1 s2 s3 [H1 H2 H3] [H1' H2' H3']. split; intros.
  - by transitivity (threads s2 !! t).
  - by transitivity (cpus s2 !! c).
  - by rewrite H3.
Qed.

Lemma same_thread s t y y' :
  threads s !! t = Some y → tkeep y y' → same s (set_threads (<[t := y']> (threads s)) s).
Proof.
  intros Ht Hk. split; simpl; [|intros; apply reflexivity|done].
  intros t'. destruct (decide (t = t')) as [<-|].
  - rewrite Ht, lookup_insert_eq. by constructor.
  - rewrite lookup_insert_ne by done. apply reflexivity.
Qed.

Lemma same_cpu s c x x' :
  cpus s !! c = Some x → ckeep x x' → same s (set_cpus (<[c := x']> (cpus s)) s).
Proof.
  intros Hc Hk. split; simpl; [intros; apply reflexivity| |done].
  intros c'. destruct (decide (c = c')) as [<-|].
  - rewrite Hc, lookup_insert_eq. by constructor.
  - rewrite lookup_insert_ne by done. apply reflexivity.
Qed.

Lemma same_thread_fwd s s' t y :
  same s s' → threads s !! t = Some y → ∃ y', threads s' !! t = Some y' ∧ tkeep y y'.
Proof. intros HS Ht. pose proof (same_t _ _ HS t) as Hk. rewrite Ht in Hk. inversion Hk. eauto. Qed.
Lemma same_thread_bwd s s' t y' :
  same s s' → threads s' !! t = Some y' → ∃ y, threads s !! t = Some y ∧ tkeep y y'.
Proof. intros HS Ht. pose proof (same_t _ _ HS t) as Hk. rewrite Ht in Hk. inversion Hk. eauto. Qed.
Lemma same_cpu_fwd s s' c x :
  same s s' → cpus s !! c = Some x → ∃ x', cpus s' !! c = Some x' ∧ ckeep x x'.
Proof. intros HS Ht. pose proof (same_c _ _ HS c) as Hk. rewrite Ht in Hk. inversion Hk. eauto. Qed.
Lemma same_cpu_bwd s s' c x' :
  same s s' → cpus s' !! c = Some x' → ∃ x, cpus s !! c = Some x ∧ ckeep x x'.
Proof. intros HS Ht. pose proof (same_c _ _ HS c) as Hk. rewrite Ht in Hk. inversion Hk. eauto. Qed.

Lemma same_cpu_is_Some s s' c : same s s' → is_Some (cpus s !! c) ↔ is_Some (cpus s' !! c).
Proof.
  intros HS. split; intros [x Hx].
  - destruct (same_cpu_fwd _ _ _ _ HS Hx) as (x' & ? & _). eauto.
  - destruct (same_cpu_bwd _ _ _ _ HS Hx) as (x' & ? & _). eauto.
Qed.

Lemma same_dom s s' : same s s' → dom (threads s') = dom (threads s).
Proof.
  intros HS. apply set_eq. intros t. rewrite !elem_of_dom. split; intros [y Hy].
  - destruct (same_thread_bwd _ _ _ _ HS Hy) as (y' & ? & _). eauto.
  - destruct (same_thread_fwd _ _ _ _ HS Hy) as (y' & ? & _). eauto.
Qed.

Lemma same_current s s' t : same s s' → current s t ↔ current s' t.
Proof.
  intros HS. split; intros (c & x & Hx & Hc).
  - destruct (same_cpu_fwd _ _ _ _ HS Hx) as (x' & ? & Hk & _). exists c, x'. by rewrite Hk.
  - destruct (same_cpu_bwd _ _ _ _ HS Hx) as (x' & ? & Hk & _). exists c, x'. by rewrite <- Hk.
Qed.

Lemma same_listed s s' l y y' : same s s' → tkeep y y' → listed s l y → listed s' l y'.
Proof.
  intros HS (Hk1 & Hk2 & Hk3) Hl. destruct l as [c|c|w|c]; simpl in *.
  - rewrite <- (same_cpu_is_Some s s') by done. by rewrite Hk1, Hk2, Hk3.
  - rewrite <- (same_cpu_is_Some s s') by done. by rewrite Hk1, Hk2.
  - rewrite <- (same_w s s') by done. by rewrite Hk1.
  - destruct Hl as (x & Hx & Hp). destruct (same_cpu_fwd _ _ _ _ HS Hx) as (x' & Hx' & _ & _ & Hk).
    exists x'. split; [done|]. by rewrite Hk, Hk1, Hk2.
Qed.

Lemma same_placed C s s' t y y' : same s s' → placed C s t y → placed C s' t y'.
Proof.
  intros HS [Hl|[(c & x & Hx & Hp)|(c & x & Hx & Hp & Hi)]].
  - by left.
  - right; left. destruct (same_cpu_fwd _ _ _ _ HS Hx) as (x' & Hx' & _ & _ & Hk). exists c, x'. by rewrite Hk.
  - right; right. destruct (same_cpu_fwd _ _ _ _ HS Hx) as (x' & Hx' & Hk & Hk' & _). exists c, x'.
    by rewrite Hk, Hk'.
Qed.

(** What [thread_ok] asks of the thread alone. *)
Definition tgood (y : thread) : Prop := magic y ∧ (t_point y = Exiting → t_proc y = None).

Lemma inv_same X C s s' :
  inv X C s → same s s' → tl s' = tl s →
  (∀ t y y', threads s !! t = Some y → threads s' !! t = Some y' → tgood y → tgood y') →
  (∀ c x x' y y', cpus s !! c = Some x → cpus s' !! c = Some x' → threads s !! c_curthread x = Some y →
     threads s' !! c_curthread x = Some y' → cpu_ok C c x y → cpu_ok C c x' y') →
  inv X C s'.
Proof.
  intros HI HS Htl Hgood Hcpu. split.
  - rewrite Htl, (same_dom _ _ HS). apply (i_rep _ _ _ HI).
  - intros t y' Hy' HX. destruct (same_thread_bwd _ _ _ _ HS Hy') as (y & Hy & Hk).
    destruct (i_thread _ _ _ HI t y Hy HX) as [H1 H2 H3 H4].
    destruct (Hgood t y y' Hy Hy') as (G1 & G2); [done|]. split; try done.
    + by eapply same_placed.
    + destruct H3 as (c & Hc & Hin). exists c. destruct Hk as (_ & -> & _).
      by rewrite <- (same_cpu_is_Some s s').
  - intros t HX. destruct (i_transit _ _ _ HI t HX) as ([y Hy] & H2 & H3). split; [|split; [done|]].
    + destruct (same_thread_fwd _ _ _ _ HS Hy) as (y' & ? & _). eauto.
    + intros c x' Hx'. destruct (same_cpu_bwd _ _ _ _ HS Hx') as (x & Hx & -> & -> & ->). eauto.
  - intros c x' Hx'. destruct (same_cpu_bwd _ _ _ _ HS Hx') as (x & Hx & Hk & _).
    destruct (i_cpu _ _ _ HI c x Hx) as (y & Hy & Hok). rewrite Hk.
    destruct (same_thread_fwd _ _ _ _ HS Hy) as (y' & Hy' & _). eauto.
  - intros l xs t Hl Ht. destruct (i_list _ _ _ HI l xs t Hl Ht) as (y & Hy & Hli).
    destruct (same_thread_fwd _ _ _ _ HS Hy) as (y' & Hy' & Hk). exists y'. split; [done|].
    by eapply same_listed.
  - intros c x' t Hx' Hp. destruct (same_cpu_bwd _ _ _ _ HS Hx') as (x & Hx & _ & _ & Hk).
    rewrite Hk in Hp. destruct (i_hand _ _ _ HI c x t Hx Hp) as (Ho & y & Hy & Hst). split; [done|].
    destruct (same_thread_fwd _ _ _ _ HS Hy) as (y' & Hy' & Hk1 & _). exists y'. by rewrite Hk1.
  - intros c1 c2 x1' x2' t Hx1' Hx2'.
    destruct (same_cpu_bwd _ _ _ _ HS Hx1') as (x1 & Hx1 & _ & _ & ->).
    destruct (same_cpu_bwd _ _ _ _ HS Hx2') as (x2 & Hx2 & _ & _ & ->). by eapply (i_hands _ _ _ HI).
  - destruct (i_lists _ _ _ HI) as [H1 H2]. split.
    + intros c. rewrite <- (same_cpu_is_Some s s') by done. apply H1.
    + intros w. rewrite <- (same_w s s') by done. apply H2.
Qed.

(** The fields of a thread that do not matter. *)
Lemma inv_thread X C s t y y' :
  inv X C s → threads s !! t = Some y → tkeep y y' → (tgood y → tgood y') →
  inv X C (set_threads (<[t := y']> (threads s)) s).
Proof.
  intros HI Ht Hk Hg. eapply inv_same; [done|by eapply same_thread|done|..].
  - intros t1 y1 y1' Hy1. simpl. destruct (decide (t = t1)) as [<-|].
    + rewrite lookup_insert_eq. intros [= <-]. simplify_eq. done.
    + rewrite lookup_insert_ne by done. intros ? ?. by simplify_eq.
  - intros c x x' y1 y1' Hx Hx' Hy1. simpl in *. simplify_eq.
    destruct (decide (t = c_curthread x)) as [->|].
    + rewrite lookup_insert_eq. intros [= <-]. simplify_eq. intros [H1 H2 H3 H4 H5 H6].
      destruct Hk as (Hk1 & Hk2 & Hk3). split; rewrite ?Hk1, ?Hk2, ?Hk3; done.
    + rewrite lookup_insert_ne by done. intros ? ?. by simplify_eq.
Qed.

(** The fields of a processor that do not matter. *)
Lemma inv_cpu X C s c x x' :
  inv X C s → cpus s !! c = Some x → ckeep x x' →
  Tlb.tlb_wf (c_tlb x') ∧ Tlb.tlb_spinlock (c_tlb x') = false →
  Z.of_nat (length (c_shootdown x')) = TLBSHOOTDOWN_MAX ∧
    TLBSHOOTDOWN_ALL ≤ c_numshootdown x' ≤ TLBSHOOTDOWN_MAX →
  inv X C (set_cpus (<[c := x']> (cpus s)) s).
Proof.
  intros HI Hc Hk Htlb Hsh. eapply inv_same; [done|by eapply same_cpu|done|..].
  - intros t y y' Hy Hy' Hg. simpl in *. by simplify_eq.
  - intros c1 x1 x1' y y' Hx1 Hx1' Hy Hy'. simpl in *. simplify_eq.
    destruct (decide (c = c1)) as [<-|].
    + rewrite lookup_insert_eq in Hx1'. simplify_eq. intros [H1 H2 H3 H4 H5 H6].
      destruct Hk as (Hk1 & Hk2 & Hk3). split; rewrite ?Hk1, ?Hk2, ?Hk3; done.
    + rewrite lookup_insert_ne in Hx1' by done. by simplify_eq.
Qed.

(** The nodes of the lists change, but not the lists. *)
Lemma inv_tl X C s h' : inv X C s → rep h' C (dom (threads s)) → inv X C (set_tl h' s).
Proof.
  intros [H1 H2 H3 H4 H5 H6 H7 H8] HR. split; try done.
  intros t y Hy HX. destruct (H2 t y Hy HX). by split.
Qed.

(** A list is made, or made again when it is empty. *)
Lemma inv_init X C s l h' :
  inv X C s → default [] (C !! l) = [] → rep h' (<[l := []]> C) (dom (threads s)) →
  inv X (<[l := []]> C) (set_tl h' s).
Proof.
  intros [H1 H2 H3 H4 H5 H6 H7 H8] Hl HR.
  assert (∀ l' xs u, <[l := []]> C !! l' = Some xs → u ∈ xs → C !! l' = Some xs) as Hback.
  { intros l' xs u [[<- <-]|[_ ?]]%lookup_insert_Some; [by intros []%elem_of_nil|done]. }
  assert (∀ u, off C u → off (<[l := []]> C) u) as Hoff.
  { intros u Ho l' xs Hl' Hu. by apply (Ho l' xs); [eapply Hback|]. }
  assert (∀ l', is_Some (C !! l') → is_Some (<[l := []]> C !! l')) as His.
  { intros l' Hl'. apply lookup_insert_is_Some. destruct (decide (l = l')); auto. }
  split; try done.
  - intros u y Hy HX. destruct (H2 u y Hy HX) as [[(l' & xs & Hl' & Hu)|Hp] G2 G3 G4]; split; try done; [left|by right].
    exists l', xs. split; [|done]. rewrite lookup_insert_ne; [done|]. intros <-. rewrite Hl' in Hl. simpl in Hl.
    subst. by apply elem_of_nil in Hu.
  - intros u HX. destruct (H3 u HX) as (G1 & G2 & G3). auto.
  - intros c x Hx. destruct (H4 c x Hx) as (y & Hy & [K1 K2 K3 K4 K5 K6]). exists y. split; [done|].
    split; try done; [intros E; destruct (K2 E); auto|]. destruct (private_used (c_phase x)); [auto|].
    destruct (decide (l = Private c)) as [->|]; [by rewrite lookup_insert_eq|by rewrite lookup_insert_ne].
  - intros l' xs u Hl' Hu. by apply (H5 l' xs u); [eapply Hback|].
  - intros c x u Hx Hp. destruct (H6 c x u Hx Hp). auto.
  - destruct H8 as [G1 G2]. split; [|auto]. intros c Hc. destruct (G1 c Hc). auto.
Qed.

(** ** Between lists and transit *)

Lemma off_insert C l ys t : off C t → t ∉ ys → off (<[l := ys]> C) t.
Proof. intros Ho Hy l' zs [[<- <-]|[_ Hl']]%lookup_insert_Some; [done|by eapply Ho]. Qed.

Lemma insert_some C l l' xs ys : C !! l = Some xs → is_Some (C !! l') → is_Some (<[l := ys]> C !! l').
Proof. intros Hl Hl'. apply lookup_insert_is_Some. destruct (decide (l = l')); auto. Qed.

Lemma i_in X C s t c x y :
  inv X C s → cpus s !! c = Some x → c_curthread x = t → threads s !! t = Some y →
  t_cpu y = Some c.
Proof.
  intros HI Hx <- Hy. destruct (i_cpu _ _ _ HI c x Hx) as (y' & Hy' & Hok). simplify_eq. apply Hok.
Qed.

(** A thread is current on one processor at most. *)
Lemma current_cpu X C s t c c' x x' :
  inv X C s → cpus s !! c = Some x → cpus s !! c' = Some x' → c_curthread x = t → c_curthread x' = t → c = c'.
Proof.
  intros HI Hx Hx' Ht Ht'. destruct (i_cpu _ _ _ HI c x Hx) as (y & Hy & Hok).
  pose proof (i_in _ _ _ t c x y HI Hx Ht) as E1. pose proof (i_in _ _ _ t c' x' y HI Hx' Ht') as E2.
  rewrite Ht in Hy. rewrite E1 in E2 by done. specialize (E2 Hy). congruence.
Qed.

Lemma move_take C s l xs ys t h' :
  inv None C s → C !! l = Some xs → t ∈ xs → (∀ u, u ∈ ys ↔ u ∈ xs ∧ u ≠ t) →
  rep h' (<[l := ys]> C) (dom (threads s)) →
  inv (Some t) (<[l := ys]> C) (set_tl h' s).
Proof.
  intros HI Hl Ht Hys HR.
  assert (∀ u, off C u → off (<[l := ys]> C) u) as Hoff.
  { intros u Ho. apply off_insert; [done|]. intros [Hu _]%Hys. by eapply Ho. }
  assert (off (<[l := ys]> C) t) as Hot.
  { intros l' zs [[<- <-]|[Hne Hl']]%lookup_insert_Some Hz; [by apply Hys in Hz as [_ ?]|].
    apply Hne. by eapply (rep_one _ _ _ (i_rep _ _ _ HI)). }
  split; simpl.
  - done.
  - intros u y Hy Hne. destruct (i_thread _ _ _ HI u y Hy) as [[(l' & zs & Hl' & Hu)|Hp] H2 H3 H4]; [done|..];
      split; try done; [|by right].
    left. destruct (decide (l = l')) as [<-|].
    + exists l, ys. rewrite lookup_insert_eq. split; [done|]. apply Hys. simplify_eq. split; [done|congruence].
    + exists l', zs. by rewrite lookup_insert_ne.
  - intros u [= <-]. destruct (i_list _ _ _ HI l xs t Hl Ht) as (y & Hy & _). split; [by eexists|].
    split; [done|]. intros c x Hx. split.
    + intros Hp. destruct (i_hand _ _ _ HI c x t Hx Hp) as [Ho _]. by eapply Ho.
    + intros <-. destruct (c_isidle x) eqn:E; [done|].
      destruct (i_cpu _ _ _ HI c x Hx) as (y' & Hy' & Hok). destruct (k_run _ _ _ _ Hok E) as [Ho _].
      by destruct (Ho l xs Hl).
  - intros c x Hx. destruct (i_cpu _ _ _ HI c x Hx) as (y & Hy & [H1 H2 H3 H4 H5 H6]). exists y. split; [done|].
    split; try done.
    + intros E. destruct (H2 E). auto.
    + destruct (private_used (c_phase x)); [by eapply insert_some|].
      destruct (decide (l = Private c)) as [->|]; [|by rewrite lookup_insert_ne].
      rewrite Hl in H4. simpl in H4. subst xs. by apply elem_of_nil in Ht.
  - intros l' zs u [[<- <-]|[Hne Hl']]%lookup_insert_Some Hu; [apply Hys in Hu as [Hu _]|];
      by eapply (i_list _ _ _ HI).
  - intros c x u Hx Hp. destruct (i_hand _ _ _ HI c x u Hx Hp) as [Ho Hy]. auto.
  - apply (i_hands _ _ _ HI).
  - destruct (i_lists _ _ _ HI) as [H1 H2]. split.
    + intros c Hc. destruct (H1 c Hc). split; by eapply insert_some.
    + intros w Hw. eapply insert_some; eauto.
Qed.

Lemma move_put C s l xs ys t y y' h' :
  inv (Some t) C s → C !! l = Some xs → (∀ u, u ∈ ys ↔ u ∈ xs ∨ u = t) →
  rep h' (<[l := ys]> C) (dom (threads s)) →
  threads s !! t = Some y → listed s l y' → tgood y' →
  (∃ c, t_cpu y' = Some c ∧ is_Some (cpus s !! c)) →
  (current s t → t_cpu y' = t_cpu y) →
  inv None (<[l := ys]> C) (set_tl h' (set_threads (<[t := y']> (threads s)) s)).
Proof.
  intros HI Hl Hys HR Ht Hli [Hg1 Hg2] Hcpu Hcur.
  destruct (i_transit _ _ _ HI t eq_refl) as (_ & Hot & Htr).
  assert (t_state y' ≠ S_RUN) as Hst.
  { destruct l as [c|c|w|c]; simpl in Hli; [destruct_and!; congruence..|].
    destruct Hli as (x & _ & Hli). destruct (c_phase x); try done; [congruence|destruct_and!; congruence]. }
  assert (∀ u, u ≠ t → off C u → off (<[l := ys]> C) u) as Hoff.
  { intros u Hne Ho. apply off_insert; [done|]. intros [Hu|Hu]%Hys; [by eapply Ho|done]. }
  split; simpl.
  - rewrite dom_insert_lookup_L by by eexists. done.
  - intros u z [[<- <-]|[Hne Hz]]%lookup_insert_Some _.
    + split; try done. left. exists l, ys. rewrite lookup_insert_eq. split; [done|]. apply Hys. by right.
    + destruct (i_thread _ _ _ HI u z Hz) as [[(l' & zs & Hl' & Hu)|Hp] H2 H3 H4]; [congruence|..];
        split; try done; [|by right].
      left. destruct (decide (l = l')) as [<-|].
      * exists l, ys. rewrite lookup_insert_eq. split; [done|]. apply Hys. simplify_eq. by left.
      * exists l', zs. by rewrite lookup_insert_ne.
  - done.
  - intros c x Hx. destruct (i_cpu _ _ _ HI c x Hx) as (z & Hz & [H1 H2 H3 H4 H5 H6]).
    assert (if private_used (c_phase x) then is_Some (<[l := ys]> C !! Private c)
            else default [] (<[l := ys]> C !! Private c) = []) as H4'.
    { destruct (private_used (c_phase x)) eqn:E; [by eapply insert_some|].
      destruct (decide (l = Private c)) as [->|]; [|by rewrite lookup_insert_ne].
      destruct Hli as (x' & Hx' & Hli). simplify_eq. by destruct (c_phase x'). }
    destruct (decide (t = c_curthread x)) as [E|Hne].
    + subst t. exists y'. rewrite lookup_insert_eq. split; [done|]. simplify_eq.
      destruct (Htr c x Hx) as [_ Hid]. specialize (Hid eq_refl). split; try done.
      * rewrite Hcur by (by exists c, x). done.
      * rewrite Hid. done.
    + exists z. rewrite lookup_insert_ne by done. split; [done|]. split; try done.
      intros E. destruct (H2 E). auto.
  - intros l' zs u [[<- <-]|[Hne Hl']]%lookup_insert_Some Hu.
    + destruct (decide (t = u)) as [<-|Hne]; [exists y'; by rewrite lookup_insert_eq|].
      rewrite lookup_insert_ne by done. apply Hys in Hu as [Hu| ->]; [|done]. by eapply (i_list _ _ _ HI).
    + assert (t ≠ u) by (intros <-; by eapply Hot). rewrite lookup_insert_ne by done.
      by eapply (i_list _ _ _ HI).
  - intros c x u Hx Hp. destruct (i_hand _ _ _ HI c x u Hx Hp) as (Ho & z & Hz & Hs).
    assert (u ≠ t) by (intros ->; by destruct (Htr c x Hx)). split; [auto|].
    exists z. by rewrite lookup_insert_ne.
  - apply (i_hands _ _ _ HI).
  - destruct (i_lists _ _ _ HI) as [H1 H2]. split.
    + intros c Hc. destruct (H1 c Hc). split; by eapply insert_some.
    + intros w Hw. eapply insert_some; eauto.
Qed.

(** ** Between processors and transit *)

(** The change of one processor that keeps its thread and its phase keeps lists
    as they are. *)
Lemma listed_cpu s c x x' l y :
  cpus s !! c = Some x → c_phase x' = c_phase x → listed s l y →
  listed (set_cpus (<[c := x']> (cpus s)) s) l y.
Proof.
  intros Hc Hp. assert (∀ c', is_Some (cpus s !! c') → is_Some (<[c := x']> (cpus s) !! c')) as His.
  { intros c' Hc'. apply lookup_insert_is_Some. destruct (decide (c = c')); auto. }
  destruct l as [c'|c'|w|c']; simpl; [naive_solver..|].
  intros (x1 & Hx1 & Hl). destruct (decide (c = c')) as [<-|].
  - exists x'. rewrite lookup_insert_eq, Hp. by simplify_eq.
  - exists x1. by rewrite lookup_insert_ne.
Qed.

(** A running thread stops; its processor is idle. *)
Lemma move_park C s c x t y y' :
  inv None C s → cpus s !! c = Some x → c_isidle x = false → c_curthread x = t →
  threads s !! t = Some y → t_state y' ≠ S_RUN → t_cpu y' = t_cpu y →
  inv (Some t) C
    (set_cpus (<[c := with_isidle true x]> (cpus s)) (set_threads (<[t := y']> (threads s)) s)).
Proof.
  intros HI Hc Hid Hcur Hy Hst Hcpu.
  destruct (i_cpu _ _ _ HI c x Hc) as (y0 & Hy0 & Hok). assert (y0 = y) as -> by congruence.
  destruct (k_run _ _ _ _ Hok Hid) as [Hot Hst0]. rewrite Hcur in Hot.
  assert (∀ c', is_Some (cpus s !! c') → is_Some (<[c := with_isidle true x]> (cpus s) !! c')) as His.
  { intros c' Hc'. apply lookup_insert_is_Some. destruct (decide (c = c')); auto. }
  split; simpl.
  - rewrite dom_insert_lookup_L by by eexists. apply (i_rep _ _ _ HI).
  - intros u z Hz Hne. rewrite lookup_insert_ne in Hz by congruence.
    destruct (i_thread _ _ _ HI u z Hz) as [H1 H2 H3 H4]; [done|]. split; try done.
    + destruct H1 as [H1|[(c' & x' & Hx' & Hp)|(c' & x' & Hx' & Hp & Hi)]]; [by left|right; left|right; right].
      * destruct (decide (c = c')) as [<-|].
        -- exists c, (with_isidle true x). simpl. rewrite lookup_insert_eq. by simplify_eq.
        -- exists c', x'. simpl. by rewrite lookup_insert_ne.
      * destruct (decide (c = c')) as [<-|]; [congruence|].
        exists c', x'. simpl. by rewrite lookup_insert_ne.
    + destruct H3 as (c' & Hc' & Hin). exists c'. split; [done|]. by apply His.
  - intros u [= <-]. rewrite lookup_insert_eq. split; [by eexists|]. split; [done|].
    intros c' x' [[<- <-]|[Hne Hx']]%lookup_insert_Some.
    + split; [|done]. intros Hp. destruct (i_hand _ _ _ HI c x t Hc Hp) as (_ & z & Hz & Hs).
      destruct Hst0; congruence.
    + split.
      * intros Hp. destruct (i_hand _ _ _ HI c' x' t Hx' Hp) as (_ & z & Hz & Hs).
        destruct Hst0; congruence.
      * intros E. destruct Hne. by eapply (current_cpu None C s t).
  - intros c' x' [[<- <-]|[Hne Hx']]%lookup_insert_Some; simpl.
    + exists y'. rewrite Hcur, lookup_insert_eq. split; [done|]. destruct Hok as [H1 H2 H3 H4 H5 H6].
      split; simpl; try done. by rewrite Hcpu.
    + destruct (i_cpu _ _ _ HI c' x' Hx') as (z & Hz & Hok'). exists z. split; [|done].
      rewrite lookup_insert_ne; [done|]. intros E. destruct Hne. by eapply (current_cpu None C s t).
  - intros l xs u Hl Hu. destruct (i_list _ _ _ HI l xs u Hl Hu) as (z & Hz & Hli).
    exists z. split.
    + rewrite lookup_insert_ne; [done|]. intros <-. by eapply Hot.
    + by apply (listed_cpu (set_threads (<[t := y']> (threads s)) s) c x).
  - intros c' x' u Hx' Hp.
    assert (∃ x1, cpus s !! c' = Some x1 ∧ c_phase x1 = WakingOne u) as (x1 & Hx1 & Hp1).
    { apply lookup_insert_Some in Hx' as [[<- <-]|[_ ?]]; eauto. }
    destruct (i_hand _ _ _ HI c' x1 u Hx1 Hp1) as (Ho & z & Hz & Hs). split; [done|].
    exists z. split; [|done]. rewrite lookup_insert_ne; [done|]. intros <-. destruct Hst0; congruence.
  - intros c1 c2 x1 x2 u H1 H2 Hp1 Hp2.
    apply lookup_insert_Some in H1 as [[<- <-]|[_ H1]], H2 as [[<- <-]|[_ H2]]; try done;
      by eapply (i_hands _ _ _ HI).
  - destruct (i_lists _ _ _ HI) as [H1 H2]. split; [|done]. intros c' Hc'. apply H1.
    apply lookup_insert_is_Some in Hc'. destruct Hc' as [<-|[_ ?]]; [by eexists|done].
Qed.

(** A thread in transit runs on an idle processor. *)
Lemma move_dispatch C s c x t y y' :
  inv (Some t) C s → cpus s !! c = Some x → c_isidle x = true → threads s !! t = Some y →
  t_cpu y = Some c → t_cpu y' = t_cpu y → tgood y' → (t_state y' = S_RUN ∨ t_state y' = S_READY) →
  inv None C
    (set_cpus (<[c := with_curthread t (with_isidle false x)]> (cpus s))
       (set_threads (<[t := y']> (threads s)) s)).
Proof.
  intros HI Hc Hid Hy Hyc Hcpu [Hg1 Hg2] Hst.
  destruct (i_transit _ _ _ HI t eq_refl) as (_ & Hot & Htr).
  set (x' := with_curthread t (with_isidle false x)).
  assert (∀ c', is_Some (cpus s !! c') → is_Some (<[c := x']> (cpus s) !! c')) as His.
  { intros c' Hc'. apply lookup_insert_is_Some. destruct (decide (c = c')); auto. }
  assert (∀ c' x1, cpus s !! c' = Some x1 → c_curthread x1 = t → c' = c) as Honly.
  { intros c' x1 Hx1 E. pose proof (i_in _ _ _ t c' x1 y HI Hx1 E Hy). congruence. }
  split; simpl.
  - rewrite dom_insert_lookup_L by by eexists. apply (i_rep _ _ _ HI).
  - intros u z Hz _. apply lookup_insert_Some in Hz as [[<- <-]|[Hne Hz]].
    + split; try done.
      * right; right. exists c, x'. simpl. by rewrite lookup_insert_eq.
      * exists c. rewrite Hcpu. split; [done|]. apply His. by eexists.
    + destruct (i_thread _ _ _ HI u z Hz) as [H1 H2 H3 H4]; [congruence|]. split; try done.
      * destruct H1 as [H1|[(c' & x1 & Hx1 & Hp)|(c' & x1 & Hx1 & Hp & Hi)]]; [by left|right; left|right; right].
        -- destruct (decide (c = c')) as [<-|].
           ++ exists c, x'. simpl. rewrite lookup_insert_eq. by simplify_eq.
           ++ exists c', x1. simpl. by rewrite lookup_insert_ne.
        -- destruct (decide (c = c')) as [<-|]; [congruence|]. exists c', x1. simpl. by rewrite lookup_insert_ne.
      * destruct H3 as (c' & Hc' & Hin). exists c'. split; [done|]. by apply His.
  - done.
  - intros c' x1 [[<- <-]|[Hne Hx1]]%lookup_insert_Some; simpl.
    + exists y'. rewrite lookup_insert_eq. split; [done|].
      destruct (i_cpu _ _ _ HI c x Hc) as (z & Hz & [H1 H2 H3 H4 H5 H6]).
      split; simpl; try done. by rewrite Hcpu.
    + destruct (i_cpu _ _ _ HI c' x1 Hx1) as (z & Hz & Hok'). exists z. split; [|done].
      rewrite lookup_insert_ne; [done|]. intros E. destruct Hne. symmetry. by eapply Honly.
  - intros l xs u Hl Hu. destruct (i_list _ _ _ HI l xs u Hl Hu) as (z & Hz & Hli).
    exists z. split.
    + rewrite lookup_insert_ne; [done|]. intros <-. by eapply Hot.
    + by apply (listed_cpu (set_threads (<[t := y']> (threads s)) s) c x).
  - intros c' x1 u Hx1 Hp.
    assert (∃ x1, cpus s !! c' = Some x1 ∧ c_phase x1 = WakingOne u) as (x2 & Hx2 & Hp2).
    { apply lookup_insert_Some in Hx1 as [[<- <-]|[_ ?]]; eauto. }
    destruct (i_hand _ _ _ HI c' x2 u Hx2 Hp2) as (Ho & z & Hz & Hs). split; [done|].
    exists z. split; [|done]. rewrite lookup_insert_ne; [done|]. intros <-. by destruct (Htr c' x2 Hx2).
  - intros c1 c2 x1 x2 u H1 H2 Hp1 Hp2.
    apply lookup_insert_Some in H1 as [[<- <-]|[_ H1]], H2 as [[<- <-]|[_ H2]]; try done;
      by eapply (i_hands _ _ _ HI).
  - destruct (i_lists _ _ _ HI) as [H1 H2]. split; [|done]. intros c' Hc'. apply H1.
    apply lookup_insert_is_Some in Hc'. destruct Hc' as [<-|[_ ?]]; [by eexists|done].
Qed.

(** ** In and out of existence *)

Lemma move_destroy C s t :
  inv (Some t) C s → ¬ current s t → inv None C (set_threads (delete t (threads s)) s).
Proof.
  intros HI Hcur. destruct (i_transit _ _ _ HI t eq_refl) as (_ & Hot & Htr). split; simpl.
  - rewrite dom_delete_L. by apply rep_forget; [apply (i_rep _ _ _ HI)|].
  - intros u z [Hne Hz]%lookup_delete_Some _. destruct (i_thread _ _ _ HI u z Hz) as [H1 H2 H3 H4]; [congruence|].
    by split.
  - done.
  - intros c x Hx. destruct (i_cpu _ _ _ HI c x Hx) as (y & Hy & Hok). exists y. split; [|done].
    rewrite lookup_delete_ne; [done|]. intros E. destruct Hcur. by exists c, x.
  - intros l xs u Hl Hu. destruct (i_list _ _ _ HI l xs u Hl Hu) as (z & Hz & Hli). exists z.
    split; [|done]. rewrite lookup_delete_ne; [done|]. intros <-. by eapply Hot.
  - intros c x u Hx Hp. destruct (i_hand _ _ _ HI c x u Hx Hp) as (Ho & z & Hz & Hs). split; [done|].
    exists z. split; [|done]. rewrite lookup_delete_ne; [done|]. intros <-. by destruct (Htr c x Hx).
  - apply (i_hands _ _ _ HI).
  - apply (i_lists _ _ _ HI).
Qed.

Lemma move_create C s t y h' :
  inv None C s → threads s !! t = None → rep h' C ({[t]} ∪ dom (threads s)) →
  inv (Some t) C (set_tl h' (set_threads (<[t := y]> (threads s)) s)).
Proof.
  intros HI Ht HR. split; simpl.
  - by rewrite dom_insert_L.
  - intros u z Hz Hne. rewrite lookup_insert_ne in Hz by congruence.
    destruct (i_thread _ _ _ HI u z Hz) as [H1 H2 H3 H4]; [done|]. by split.
  - intros u [= <-]. rewrite lookup_insert_eq. split; [by eexists|]. split.
    + intros l xs Hl Hu. destruct (i_list _ _ _ HI l xs t Hl Hu) as (z & Hz & _). congruence.
    + intros c x Hx. split.
      * intros Hp. destruct (i_hand _ _ _ HI c x t Hx Hp) as (_ & z & Hz & _). congruence.
      * intros <-. destruct (i_cpu _ _ _ HI c x Hx) as (z & Hz & _). congruence.
  - intros c x Hx. destruct (i_cpu _ _ _ HI c x Hx) as (z & Hz & Hok). exists z. split; [|done].
    rewrite lookup_insert_ne; [done|]. congruence.
  - intros l xs u Hl Hu. destruct (i_list _ _ _ HI l xs u Hl Hu) as (z & Hz & Hli). exists z.
    split; [|done]. rewrite lookup_insert_ne; [done|]. congruence.
  - intros c x u Hx Hp. destruct (i_hand _ _ _ HI c x u Hx Hp) as (Ho & z & Hz & Hs). split; [done|].
    exists z. split; [|done]. rewrite lookup_insert_ne; [done|]. congruence.
  - apply (i_hands _ _ _ HI).
  - apply (i_lists _ _ _ HI).
Qed.

(** ** Phases *)

(** What the phase of processor [c] says of the threads on its private list. *)
Definition private_ok C s (c : positive) (p : phase) : Prop :=
  (if private_used p then is_Some (C !! Private c) else default [] (C !! Private c) = []) ∧
  ∀ xs t y, C !! Private c = Some xs → t ∈ xs → threads s !! t = Some y →
    match p with
    | WakingAll => t_state y = S_SLEEP
    | Sending _ _ _ => t_state y = S_READY ∧ t_cpu y = Some c
    | _ => False
    end.

Lemma private_unused C s c p :
  private_used p = false → default [] (C !! Private c) = [] → private_ok C s c p.
Proof.
  intros Hp HC. split; [by rewrite Hp|]. intros xs t y Hl Ht. rewrite Hl in HC. simpl in HC. subst.
  by apply elem_of_nil in Ht.
Qed.

(** The phase of a processor changes; [X] and [X'] say which thread it has in hand
    before and after. *)
Lemma move_phase X X' C s c x x' :
  inv X C s → cpus s !! c = Some x →
  c_curthread x' = c_curthread x → c_isidle x' = c_isidle x →
  c_tlb x' = c_tlb x → c_shootdown x' = c_shootdown x → c_numshootdown x' = c_numshootdown x →
  private_ok C s c (c_phase x') →
  (X = None ∧ (∃ t, c_phase x = WakingOne t ∧ X' = Some t) ∧ (∀ t, c_phase x' ≠ WakingOne t)) ∨
  (X = X' ∧ (∀ t, c_phase x ≠ WakingOne t) ∧ (∀ t, c_phase x' ≠ WakingOne t)) ∨
  (X' = None ∧ (∃ t y, c_phase x' = WakingOne t ∧ X = Some t ∧ threads s !! t = Some y ∧
                 t_state y = S_SLEEP ∧ tgood y ∧ ∃ c, t_cpu y = Some c ∧ is_Some (cpus s !! c)) ∧
   (∀ t, c_phase x ≠ WakingOne t)) →
  inv X' C (set_cpus (<[c := x']> (cpus s)) s).
Proof.
  intros HI Hc Hcur Hid Htlb Hsh1 Hsh2 [Hpr1 Hpr2] Hcase.
  assert (∀ c', is_Some (cpus s !! c') ↔ is_Some (<[c := x']> (cpus s) !! c')) as His.
  { intros c'. symmetry. apply insert_is_Some_iff. by eexists. }
  (* a thread in a hand after the change *)
  assert (∀ c' x1 t, <[c := x']> (cpus s) !! c' = Some x1 → c_phase x1 = WakingOne t →
            (c' = c ∧ x1 = x' ∧ X = Some t ∧ X' = None) ∨ (c' ≠ c ∧ cpus s !! c' = Some x1)) as Hhand.
  { intros c' x1 t [[<- <-]|[Hne Hx1]]%lookup_insert_Some Hp; [left|by right].
    destruct Hcase as [(_ & _ & H)|[(_ & _ & H)|(-> & (t' & y & Hp' & -> & _) & _)]]; [by destruct (H t)..|].
    rewrite Hp in Hp'. by simplify_eq. }
  split; simpl.
  - apply (i_rep _ _ _ HI).
  - intros u z Hz Hne.
    assert (thread_ok C s u z ∨ c_phase x' = WakingOne u ∧ tgood z ∧
              ∃ c, t_cpu z = Some c ∧ is_Some (cpus s !! c)) as Hu.
    { destruct Hcase as [(-> & _)|[(-> & _)|(-> & (t & y & Hp & -> & Hy & _ & Hg & Hcpu) & _)]].
      - left. by apply (i_thread _ _ _ HI).
      - left. by apply (i_thread _ _ _ HI).
      - destruct (decide (t = u)) as [->|]; [right; by simplify_eq|left].
        apply (i_thread _ _ _ HI); [done|congruence]. }
    destruct Hu as [[H1 H2 H3 H4]|(Hp & [Hg1 Hg2] & c' & Hc' & Hin)].
    + split; try done.
      * destruct H1 as [H1|[(c' & x1 & Hx1 & Hp)|(c' & x1 & Hx1 & Hp & Hi)]]; [by left|right; left|right; right].
        -- destruct (decide (c = c')) as [<-|Hcc]; [|exists c', x1; simpl; by rewrite lookup_insert_ne].
           simplify_eq. exfalso.
           destruct Hcase as [(_ & (t & Hp' & ->) & _)|[(_ & H & _)|(_ & _ & H)]]; [|by destruct (H u)..].
           congruence.
        -- destruct (decide (c = c')) as [<-|].
           ++ exists c, x'. simpl. rewrite lookup_insert_eq. simplify_eq. by rewrite Hcur, Hid.
           ++ exists c', x1. simpl. by rewrite lookup_insert_ne.
      * destruct H3 as (c' & Hc' & Hin). exists c'. split; [done|]. by apply His.
    + split; try done.
      * right; left. exists c, x'. simpl. by rewrite lookup_insert_eq.
      * exists c'. split; [done|]. by apply His.
  - intros t HX'.
    assert (X = Some t ∧ (∀ t, c_phase x' ≠ WakingOne t) ∨
            X = None ∧ c_phase x = WakingOne t ∧ (∀ t, c_phase x' ≠ WakingOne t)) as [[HX Hno]|(HX & Hp & Hno)].
    { destruct Hcase as [(-> & (t' & Hp & ->) & H)|[(-> & _ & H)|(-> & _)]]; [simplify_eq; by right|by left|done]. }
    + destruct (i_transit _ _ _ HI t HX) as (H1 & H2 & H3). split; [done|]. split; [done|].
      intros c' x1 [[<- <-]|[Hne Hx1]]%lookup_insert_Some; [|exact (H3 _ _ Hx1)].
      rewrite Hcur, Hid. split; [done|]. by apply (H3 c x Hc).
    + destruct (i_hand _ _ _ HI c x t Hc Hp) as (Ho & y & Hy & Hs). split; [by eexists|]. split; [done|].
      assert (∀ c' x1, cpus s !! c' = Some x1 → c_curthread x1 = t → c_isidle x1 = true) as Hidle.
      { intros c' x1 Hx1 <-. destruct (c_isidle x1) eqn:E; [done|].
        destruct (i_cpu _ _ _ HI c' x1 Hx1) as (y1 & Hy1 & Hok). simplify_eq.
        destruct (k_run _ _ _ _ Hok E) as [_ [?|?]]; congruence. }
      intros c' x1 [[<- <-]|[Hne Hx1]]%lookup_insert_Some.
      * rewrite Hcur, Hid. split; [done|]. by eapply Hidle.
      * split; [|by eapply Hidle]. intros Hp1. destruct Hne. by eapply (i_hands _ _ _ HI).
  - intros c' x1 [[<- <-]|[Hne Hx1]]%lookup_insert_Some; [|by apply (i_cpu _ _ _ HI)].
    destruct (i_cpu _ _ _ HI c x Hc) as (y & Hy & [H1 H2 H3 H4 H5 H6]). exists y. rewrite Hcur. split; [done|].
    split; rewrite ?Hcur, ?Hid, ?Htlb, ?Hsh1, ?Hsh2; done.
  - intros l xs t Hl Ht. destruct (i_list _ _ _ HI l xs t Hl Ht) as (y & Hy & Hli). exists y. split; [done|].
    destruct l as [c'|c'|w|c']; simpl in *; [destruct Hli as [Hi Hli]; split; [by apply His|done]..|done|].
    destruct (decide (c = c')) as [<-|].
    + exists x'. rewrite lookup_insert_eq. split; [done|]. by eapply Hpr2.
    + destruct Hli as (x1 & Hx1 & Hli). exists x1. by rewrite lookup_insert_ne.
  - intros c' x1 t Hx1 Hp. destruct (Hhand _ _ _ Hx1 Hp) as [(-> & -> & HX & _)|(Hne & Hx1')].
    + destruct (i_transit _ _ _ HI t HX) as (H1 & H2 & H3). split; [done|].
      destruct Hcase as [(-> & _)|[(_ & _ & H)|(_ & (t' & y & Hp' & HX2 & Hy & Hs & _) & _)]];
        [done|by destruct (H t)|]. exists y. by simplify_eq.
    + by eapply (i_hand _ _ _ HI).
  - intros c1 c2 x1 x2 t Hx1 Hx2 Hp1 Hp2.
    destruct (Hhand _ _ _ Hx1 Hp1) as [(-> & -> & HX & _)|(Hne1 & Hx1')],
      (Hhand _ _ _ Hx2 Hp2) as [(-> & -> & HX2 & _)|(Hne2 & Hx2')]; try done.
    + destruct (i_transit _ _ _ HI t HX) as (_ & _ & H3). by destruct (H3 c2 x2 Hx2').
    + destruct (i_transit _ _ _ HI t HX2) as (_ & _ & H3). by destruct (H3 c1 x1 Hx1').
    + by eapply (i_hands _ _ _ HI).
  - destruct (i_lists _ _ _ HI) as [H1 H2]. split; [|done]. intros c' Hc'. apply H1. by apply His.
Qed.

End ThreadMoves.
