(* ===== verification/ThreadSteps.v ===== *)
(** * The functions of the thread system

    What each function of the thread system does to a state that satisfies the
    invariant. *)

From Stdlib Require Import ZArith Lia.
From stdpp Require Import base numbers list gmap strings.
From S2P Require Import Prelude Tlb Array Threadlist Thread ThreadInts ThreadSystem ThreadMoves.

Module ThreadSteps.
Import Threadlist Thread ThreadInts ThreadSystem ThreadMoves.
Implicit Types (C : gmap listid (list positive)) (s : sys) (X : option positive).

(** ** The executing thread *)

Lemma here_cpu me t s c x x' :
  here me t s → cpus s !! c = Some x → c_curthread x' = c_curthread x →
  here me t (set_cpus (<[c := x']> (cpus s)) s).
Proof.
  intros (x1 & y & Hx & Ht & Hy & Hc) Hcx Hk. destruct (decide (c = me)) as [->|].
  - exists x', y. simpl. rewrite lookup_insert_eq. simplify_eq. by rewrite Hk.
  - exists x1, y. simpl. by rewrite lookup_insert_ne.
Qed.

Lemma here_thread me t s u y y' :
  here me t s → threads s !! u = Some y → t_cpu y' = t_cpu y →
  here me t (set_threads (<[u := y']> (threads s)) s).
Proof.
  intros (x1 & z & Hx & Ht & Hz & Hc) Hu Hk. destruct (decide (u = t)) as [->|].
  - exists x1, y'. simpl. rewrite lookup_insert_eq. simplify_eq. by rewrite Hk.
  - exists x1, z. simpl. by rewrite lookup_insert_ne.
Qed.

Lemma here_other me t s u y' :
  here me t s → u ≠ t → here me t (set_threads (<[u := y']> (threads s)) s).
Proof.
  intros (x1 & z & Hx & Ht & Hz & Hc) Hne. exists x1, z. simpl. by rewrite lookup_insert_ne.
Qed.

Lemma here_eq me t s s' : here me t s → cpus s' = cpus s → threads s' = threads s → here me t s'.
Proof. unfold here. by intros H -> ->. Qed.

(** What the state says of the processor that acts. *)
Lemma inv_here X C s me x : inv X C s → cpus s !! me = Some x → here me (c_curthread x) s.
Proof.
  intros HI Hx. destruct (i_cpu _ _ _ HI me x Hx) as (y & Hy & Hok). exists x, y. repeat split; try done.
  apply Hok.
Qed.

Lemma acct_sane s c x y sp k : acct_cur s c x y sp k → 0 ≤ k → sane c (c_curthread x) (ints s).
Proof.
  intros [H1 H2 H3 H4 H5 _ _ _ _ _ _ _ _] Hk. exists sp, (sp + k), k. repeat split; try done. lia.
Qed.

Lemma held_nonneg c i : 0 ≤ held_by c i.
Proof. apply msum_nonneg. intros l h _. case_decide; lia. Qed.

Lemma held_pos c i l : splk_holder i !! l = Some (Some c) → 1 ≤ held_by c i.
Proof.
  intros Hl. unfold held_by.
  pose proof (msum_ge (λ h : option positive, if decide (h = Some c) then 1 else 0) (splk_holder i) l (Some c)) as Hge.
  cbv beta in Hge. rewrite decide_True in Hge by done. apply Hge; [|done].
  intros l' h _. case_decide; lia.
Qed.

Lemma wp_checkstack t y s (Q : unit → sys → Prop) :
  threads s !! t = Some y → magic y → Q tt s → wp (thread_checkstack t) Q s.
Proof.
  intros Hy Hm HQ. unfold thread_checkstack. apply wp_bind. eapply wp_thread_get; [done|]. unfold magic in Hm.
  destruct (t_stack y) as [w|]; [|by apply wp_ret]. apply wp_KASSERT; [by rewrite bool_decide_true|done].
Qed.

(** ** The array of processors *)

Lemma wp_allcpus_num l s (Q : Z → sys → Prop) :
  Array.holds (allcpus s) l → Q (Z.of_nat (length l)) s → wp (in_allcpus Array.array_num) Q s.
Proof.
  intros Hl HQ. apply wp_in_allcpus. unfold Array.array_num. wp_go. rewrite (Array.h_num _ _ Hl).
  by destruct s.
Qed.

Lemma wp_allcpus_get l i s (Q : positive → sys → Prop) :
  Array.holds (allcpus s) l → 0 ≤ i < Z.of_nat (length l) → (∀ c, c ∈ l → Q c s) →
  wp (in_allcpus (Array.array_get i)) Q s.
Proof.
  intros Hl Hi HQ. destruct (lookup_lt_is_Some_2 l (Z.to_nat i)) as [c Hc]; [lia|].
  apply wp_in_allcpus. eapply Array.array_get_spec; [done|lia|done|].
  replace (set_allcpus (allcpus s) s) with s by by destruct s. apply HQ. by eapply list_elem_of_lookup_2.
Qed.

(** ** Interprocessor interrupts *)

Definition ipi_sent (uni : bool) (code : Z) (x : cpu) : cpu :=
  let x' := with_ipi (Z.lor (c_ipi_pending x) (Z.shiftl 1 code)) x in
  if uni then x' else with_line true x'.

Lemma ipi_sent_keep uni code x : ckeep x (ipi_sent uni code x).
Proof. by destruct uni. Qed.

Lemma wp_mainbus_send_ipi c x s (Q : unit → sys → Prop) :
  cpus s !! c = Some x →
  Q tt (if ls_uniprocessor s then s else set_cpus (<[c := with_line true x]> (cpus s)) s) →
  wp (mainbus_send_ipi c) Q s.
Proof.
  intros Hx HQ. unfold mainbus_send_ipi. wp_go. destruct (ls_uniprocessor s); [by wp_go|].
  by eapply wp_cpu_upd.
Qed.

Lemma wp_ipi_send me t c code x s (Q : unit → sys → Prop) :
  here me t s → sane me t (ints s) → splk_holder (ints s) !! IpiLock c = Some None →
  cpus s !! c = Some x → 0 ≤ code < 32 →
  Q tt (set_cpus (<[c := ipi_sent (ls_uniprocessor s) code x]> (cpus s)) s) →
  wp (ipi_send me c code) Q s.
Proof.
  intros Hh Hs Hl Hx Hcode HQ. unfold ipi_send. apply wp_bind, wp_KASSERT; [lia|].
  apply wp_bind. eapply wp_acquire_lock; [done..|]. apply wp_bind.
  eapply wp_cpu_upd; [done|]. apply wp_bind. eapply wp_mainbus_send_ipi; [apply lookup_insert_eq|].
  unfold ipi_sent in HQ. simpl.
  destruct (ls_uniprocessor s); simpl; rewrite ?insert_insert_eq;
    (eapply (wp_release_locked me t); [by eapply (here_cpu me t s c x)|done..|]);
    by destruct s.
Qed.

(** ** Making a thread runnable *)

(** A processor with a new thread on its run queue: it is told when it idles. *)
Definition poked (uni : bool) (x : cpu) : cpu := if c_isidle x then ipi_sent uni IPI_UNIDLE x else x.

Lemma poked_keep uni x : ckeep x (poked uni x).
Proof. unfold poked. destruct (c_isidle x); [apply ipi_sent_keep|done]. Qed.

(** The body of [thread_make_runnable], with the run queue locked. *)
Definition enqueue (me target targetcpu : positive) : M sys unit :=
  in_tl (threadlist_addtail (Runqueue targetcpu) target) ;;
  c ← cpu_get targetcpu;
  (if c_isidle c then ipi_send me targetcpu IPI_UNIDLE else mret tt).

Lemma enqueue_then {A} me t c (k : M sys A) (Q : A → sys → Prop) s :
  wp (enqueue me t c) (λ _ s', wp k Q s') s →
  wp (in_tl (threadlist_addtail (Runqueue c) t) ;;
      x ← cpu_get c;
      (if c_isidle x then ipi_send me c IPI_UNIDLE else mret tt) ;; k) Q s.
Proof.
  unfold enqueue. intros Hw. apply wp_bind. apply wp_bind_inv in Hw. eapply wp_mono; [|exact Hw].
  intros [] s' Hw'. apply wp_bind. apply wp_bind_inv in Hw'. eapply wp_mono; [|exact Hw'].
  intros x s'' Hw''. by apply wp_bind.
Qed.

Lemma wp_enqueue me u c x t xs C F s (Q : unit → sys → Prop) :
  here me u s → sane me u (ints s) → splk_holder (ints s) !! IpiLock c = Some None →
  cpus s !! c = Some x → rep (tl s) C F → C !! Runqueue c = Some xs → t ∈ F → off C t →
  (∀ h', rep h' (<[Runqueue c := xs ++ [t]]> C) F →
     Q tt (set_tl h' (set_cpus (<[c := poked (ls_uniprocessor s) x]> (cpus s)) s))) →
  wp (enqueue me t c) Q s.
Proof.
  intros Hh Hs Hl Hx HR HC Ht Ho HQ. unfold enqueue. apply wp_bind, wp_in_tl.
  eapply threadlist_addtail_spec; [done..|]. intros h' HR'. apply wp_bind.
  eapply wp_cpu_get; [done|]. specialize (HQ h' HR'). unfold poked in HQ. destruct (c_isidle x).
  - by eapply (wp_ipi_send me u).
  - apply wp_ret. rewrite insert_id in HQ by done. by destruct s.
Qed.

Lemma wp_runnable me u t y c x xs C s (Q : unit → sys → Prop) :
  here me u s → sane me u (ints s) →
  splk_holder (ints s) !! RunqueueLock c = Some None → splk_holder (ints s) !! IpiLock c = Some None →
  threads s !! t = Some y → t_cpu y = Some c → cpus s !! c = Some x →
  rep (tl s) C (dom (threads s)) → C !! Runqueue c = Some xs → off C t →
  (∀ h', rep h' (<[Runqueue c := xs ++ [t]]> C) (dom (threads s)) →
     Q tt (set_tl h' (set_cpus (<[c := poked (ls_uniprocessor s) x]> (cpus s))
             (set_threads (<[t := with_state S_READY y]> (threads s)) s)))) →
  wp (thread_make_runnable me t false) Q s.
Proof.
  intros Hh Hs Hl1 Hl2 Ht Hc Hx HR HC Ho HQ. unfold thread_make_runnable. apply wp_bind.
  eapply wp_thread_get; [done|]. apply wp_bind. eapply wp_deref; [done|]. apply wp_bind.
  eapply (wp_acquire_lock me u); [done..|]. apply wp_bind. eapply wp_thread_upd; [done|].
  assert (dom (<[t := with_state S_READY y]> (threads s)) = dom (threads s)) as Hdom.
  { apply dom_insert_lookup_L. by eexists. }
  apply enqueue_then. eapply (wp_enqueue me u c x t xs C (dom (threads s))); try done.
  - by eapply (here_thread me u s).
  - by apply sane_locked.
  - simpl. rewrite lookup_insert_ne by done. done.
  - apply elem_of_dom. by eexists.
  - intros h' HR'. eapply (wp_release_locked me u); [|done..|].
    + apply (here_eq me u (set_cpus (<[c := poked (ls_uniprocessor s) x]> (cpus s))
                 (set_threads (<[t := with_state S_READY y]> (threads s)) s))); [|done..].
      apply (here_cpu me u (set_threads (<[t := with_state S_READY y]> (threads s)) s) c x);
        [by eapply here_thread|done|apply poked_keep].
    + simpl. specialize (HQ h' HR'). by destruct s.
Qed.

(** ** Activating an address space *)

Lemma wp_proc_getas me t y s (Q : option positive → sys → Prop) :
  here me t s → threads s !! t = Some y → sane me t (ints s) →
  (∀ p, t_proc y = Some p → is_Some (procs s !! p) ∧ splk_holder (ints s) !! ProcLock p = Some None) →
  (∀ a, Q a s) → wp (proc_getas me) Q s.
Proof.
  intros Hh Hy Hs Hp HQ. unfold proc_getas. apply wp_bind. eapply wp_curthread; [done|].
  apply wp_bind. eapply wp_thread_get; [done|]. destruct (t_proc y) as [p|]; [|by apply wp_ret].
  destruct (Hp p eq_refl) as ([pr Hpr] & Hl). apply wp_bind. eapply (wp_acquire_lock me t); [done..|].
  wp_go. eapply wp_deref; [done|]. wp_go. eapply (wp_release_locked me t); [done..|]. wp_go.
  simpl. specialize (HQ (p_addrspace pr)). by destruct s.
Qed.

Lemma wp_as_activate me t x y s (Q : unit → sys → Prop) :
  here me t s → cpus s !! me = Some x → threads s !! t = Some y → sane me t (ints s) →
  (∀ p, t_proc y = Some p → is_Some (procs s !! p) ∧ splk_holder (ints s) !! ProcLock p = Some None) →
  Tlb.tlb_wf (c_tlb x) ∧ Tlb.tlb_spinlock (c_tlb x) = false →
  (∀ tb, Tlb.tlb_wf tb → Tlb.tlb_spinlock tb = false →
     Q tt (set_cpus (<[me := with_tlb tb x]> (cpus s)) s)) →
  wp (as_activate me) Q s.
Proof.
  intros Hh Hx Hy Hs Hp [Hwf Hlk] HQ. unfold as_activate. apply wp_bind. eapply wp_proc_getas; [done..|].
  intros [a|].
  - eapply wp_on_tlb; [done|]. eapply wp_mono; [|apply Tlb.as_activate_correct; [apply Hwf..|done]].
    intros [] tb (Hwf' & Hlk' & _). by apply HQ.
  - apply wp_ret. specialize (HQ (c_tlb x) Hwf Hlk). rewrite insert_id in HQ by (by destruct x).
    by destruct s.
Qed.

(** ** Exorcising zombies *)

Lemma wp_thread_destroy me u t y C s (Q : unit → sys → Prop) :
  here me u s → t ≠ u → threads s !! t = Some y → t_state y ≠ S_RUN → t_proc y = None →
  rep (tl s) C (dom (threads s)) → off C t →
  Q tt (set_threads (delete t (threads s)) s) → wp (thread_destroy me t) Q s.
Proof.
  intros Hh Hne Hy Hst Hp HR Ho HQ. unfold thread_destroy. apply wp_bind. eapply wp_curthread; [done|].
  wp_check. eapply wp_thread_get; [done|]. wp_check. wp_check. apply wp_in_tl.
  eapply threadlistnode_cleanup_spec; [done|apply elem_of_dom; by eexists|done|]. wp_go. by destruct s.
Qed.

(** The threads [th'] are those of [th] without zombies that belong to no process. *)
Definition exorcised (th th' : gmap positive thread) : Prop :=
  (∀ t y, th' !! t = Some y → th !! t = Some y) ∧
  (∀ t y, th !! t = Some y → th' !! t = Some y ∨ t_state y = S_ZOMBIE ∧ t_proc y = None).

Lemma wp_exorcise_loop fuel me u x y zs C s (Q : unit → sys → Prop) :
  inv None C s → cpus s !! me = Some x → c_curthread x = u → threads s !! u = Some y →
  t_state y = S_RUN → C !! Zombies me = Some zs → (length zs < fuel)%nat →
  (∀ h' th', inv None (<[Zombies me := []]> C) (set_tl h' (set_threads th' s)) →
     exorcised (threads s) th' → Q tt (set_tl h' (set_threads th' s))) →
  wp (exorcise_loop fuel me) Q s.
Proof.
  revert zs C s. induction fuel as [|fuel IH]; intros zs C s HI Hx Hcur Hy Hst HC Hfuel HQ; [lia|].
  pose proof (inv_here _ _ _ _ _ HI Hx) as Hh. rewrite Hcur in Hh. simpl. apply wp_bind.
  eapply wp_curcpu; [done|]. apply wp_bind, wp_in_tl.
  eapply threadlist_remhead_spec; [apply (i_rep _ _ _ HI)|done|]. intros h' HR.
  destruct zs as [|z zs]; simpl in *.
  - apply wp_ret. specialize (HQ h' (threads s)). rewrite insert_id in * by done.
    replace (set_threads (threads s) s) with s in HQ by by destruct s.
    apply HQ; [by apply inv_tl|]. split; auto.
  - destruct (i_list _ _ _ HI (Zombies me) (z :: zs) z HC) as (yz & Hyz & _ & Hz1 & Hz2 & Hz3); [left|].
    assert (NoDup (z :: zs)) as [Hnd _]%NoDup_cons by by eapply (rep_nodup _ _ _ (i_rep _ _ _ HI)).
    assert (z ≠ u) by congruence.
    assert (inv (Some z) (<[Zombies me := zs]> C) (set_tl h' s)) as HI1.
    { eapply move_take; [done|done|left| |done]. set_solver. }
    assert (¬ current (set_tl h' s) z) as Hnc.
    { intros (c' & x' & Hx' & E). pose proof (i_in _ _ _ z c' x' yz HI Hx' E Hyz). simpl in *. congruence. }
    apply wp_bind. eapply wp_curthread; [done|]. wp_check. eapply wp_thread_get; [done|]. wp_check.
    eapply (wp_thread_destroy me u z yz (<[Zombies me := zs]> C)); [done|done|done|congruence|done|done|..].
    { apply (i_transit _ _ _ HI1 z eq_refl). }
    pose proof (move_destroy _ _ _ HI1 Hnc) as HI2.
    eapply (IH zs (<[Zombies me := zs]> C)); [exact HI2|done|done|simpl; by rewrite lookup_delete_ne|done
      |apply lookup_insert_eq|lia|].
    intros h2 th2 HI3 [He1 He2]. rewrite insert_insert_eq in HI3.
    apply (HQ h2 th2); [exact HI3|]. simpl in *. split.
    + intros t y' Hy'. apply He1 in Hy'. by apply lookup_delete_Some in Hy' as [_ ?].
    + intros t y' Hy'. destruct (decide (z = t)) as [<-|]; [right; by simplify_eq|].
      apply He2. by rewrite lookup_delete_ne.
Qed.

Lemma wp_exorcise me u x y C s (Q : unit → sys → Prop) :
  inv None C s → cpus s !! me = Some x → c_curthread x = u → threads s !! u = Some y →
  t_state y = S_RUN →
  (∀ h' th', inv None (<[Zombies me := []]> C) (set_tl h' (set_threads th' s)) →
     exorcised (threads s) th' → Q tt (set_tl h' (set_threads th' s))) →
  wp (exorcise me) Q s.
Proof.
  intros HI Hx Hcur Hy Hst HQ. unfold exorcise. wp_go.
  destruct (proj1 (i_lists _ _ _ HI) me) as [[zs Hzs] _]; [by eexists|].
  eapply wp_exorcise_loop; try done. pose proof (i_rep _ _ _ HI) as HR.
  pose proof (rep_size _ _ _ _ _ HR Hzs). rewrite size_dom in *. lia.
Qed.

End ThreadSteps.
