(* ===== verification/ThreadSwitch.v ===== *)
(** * Context switch

    The invariant in the middle of [thread_switch], when a thread has been put
    away and its processor looks for another, and from there to the next thread. *)

From Stdlib Require Import ZArith Lia.
From stdpp Require Import base numbers list gmap strings.
From S2P Require Import Prelude Tlb Array Threadlist Thread ThreadInts ThreadSystem ThreadMoves ThreadSteps.

Module ThreadSwitch.
Import Threadlist Thread ThreadInts ThreadSystem ThreadMoves ThreadSteps.
Implicit Types (C : gmap listid (list positive)) (s : sys) (X : option positive).

(** ** What the parts of the invariant depend on *)

Lemma acct_cur_frame s s' c x x' y y' sp k :
  acct_cur s c x y sp k →
  t_spl (ints s') !! c_curthread x' = t_spl (ints s) !! c_curthread x →
  c_spinlocks (ints s') !! c = c_spinlocks (ints s) !! c →
  c_irq (ints s') !! c = c_irq (ints s) !! c →
  held_by c (ints s') = held_by c (ints s) →
  c_isidle x' = c_isidle x → c_phase x' = c_phase x →
  t_frames y' = t_frames y → t_in_interrupt y' = t_in_interrupt y → t_point y' = t_point y →
  t_local y' = t_local y → c_status x' = c_status x →
  acct_cur s' c x' y' sp k.
Proof.
  intros [H1 H2 H3 H4 H5 H6 H7 H8 H9 H10 H11 H12 H13] E1 E2 E3 E4 E5 E6 E7 E8 E9 E10 E11.
  split; unfold frames_ok in *; rewrite ?E1, ?E2, ?E3, ?E4, ?E5, ?E6, ?E7, ?E8, ?E9, ?E10, ?E11; done.
Qed.

Lemma acct_away_frame s s' t y y' :
  acct_away s t y → t_spl (ints s') !! t = t_spl (ints s) !! t →
  t_frames y' = t_frames y → t_in_interrupt y' = t_in_interrupt y →
  t_local y' = t_local y → t_context y' = t_context y →
  acct_away s' t y'.
Proof.
  intros [H1 H2 H3] E1 E2 E3 E4 E5.
  split; unfold frames_ok in *; rewrite ?E1, ?E2, ?E3, ?E4, ?E5; done.
Qed.

Lemma held_update c i i' l h h' :
  splk_holder i !! l = Some h → splk_holder i' = <[l := h']> (splk_holder i) →
  held_by c i' = held_by c i - (if decide (h = Some c) then 1 else 0) + (if decide (h' = Some c) then 1 else 0).
Proof. intros Hl Hi'. unfold held_by. rewrite Hi'. by rewrite (msum_update _ _ _ h). Qed.

Lemma held_acquire c me i i' l :
  splk_holder i !! l = Some None → splk_holder i' = <[l := Some me]> (splk_holder i) →
  held_by c i' = held_by c i + (if decide (c = me) then 1 else 0).
Proof.
  intros Hl Hi'. rewrite (held_update c i i' l None (Some me)) by done.
  rewrite (decide_False (P := None = Some c)) by done.
  destruct (decide (c = me)) as [->|]; [rewrite decide_True by done|rewrite decide_False by congruence]; lia.
Qed.

Lemma held_release c me i i' l :
  splk_holder i !! l = Some (Some me) → splk_holder i' = <[l := None]> (splk_holder i) →
  held_by c i' = held_by c i - (if decide (c = me) then 1 else 0).
Proof.
  intros Hl Hi'. rewrite (held_update c i i' l (Some me) None) by done.
  rewrite (decide_False (P := None = Some c)) by done.
  destruct (decide (c = me)) as [->|]; [rewrite decide_True by done|rewrite decide_False by congruence]; lia.
Qed.

Lemma tables_frame s s' :
  tables s → allcpus s' = allcpus s → allwchans s' = allwchans s → wchans s' = wchans s →
  procs s' = procs s → kproc s' = kproc s → ls_uniprocessor s' = ls_uniprocessor s →
  (∀ c, is_Some (cpus s' !! c) ↔ is_Some (cpus s !! c)) →
  (∀ t p, (∃ y, threads s' !! t = Some y ∧ t_proc y = Some p) ↔
          (∃ y, threads s !! t = Some y ∧ t_proc y = Some p)) →
  tables s'.
Proof.
  intros [H1 H2 H3 H4 H5 H6 H7 H8] E1 E2 E3 E4 E5 E6 Hc Ht.
  split; rewrite ?E1, ?E2, ?E3, ?E4, ?E5, ?E6; try done.
  - destruct H1 as (l & Hl & Hnd & Hin). exists l. split; [done|]. split; [done|].
    intros c. by rewrite Hc, Hin.
  - intros c. rewrite Hc. apply H2.
  - intros Hu c c'. rewrite !Hc. by apply H3.
  - intros p x Hp. destruct (H6 p x Hp) as (l & Hl & Hnd & Hin). exists l. split; [done|]. split; [done|].
    intros t. by rewrite Hin, Ht.
  - intros t y p Hy Hp. destruct (proj1 (Ht t p)) as (y0 & Hy0 & Hp0); [eauto|]. eauto.
Qed.

Lemma counts_frame C C' s s' c :
  counts_at C s c → cpus s' !! c = cpus s !! c →
  (∀ xs, C !! Runqueue c = Some xs → ∃ ys, C' !! Runqueue c = Some ys ∧ (length xs ≤ length ys)%nat) →
  C' !! Private c = C !! Private c →
  counts_at C' s' c.
Proof.
  intros Hc E Hr Hp x Hx. rewrite E in Hx. specialize (Hc x Hx). destruct (c_phase x); simpl in *; try done.
  - destruct Hc as (? & ? & ?). split; [done|]. split; [|done].
    destruct (C !! Runqueue c) as [xs|] eqn:Hxs; simpl in *; [|lia].
    destruct (Hr xs eq_refl) as (ys & -> & ?). simpl. lia.
  - by rewrite Hp.
Qed.

(** ** In the middle of a switch *)

(** Processor [me] has put away thread [u], on whose stack it still is, and has
    its run queue locked. *)
Record mid s (me u : positive) : Prop := {
  m_cur : ∀ c x y, c ≠ me → cpus s !! c = Some x → threads s !! c_curthread x = Some y →
    ∃ sp k, acct_cur s c x y sp k;
  m_away : ∀ t y, threads s !! t = Some y → t ≠ u → ¬ current s t → acct_away s t y;
  m_self : ∀ y, threads s !! u = Some y → acct_away s u (with_context (Some Switched) y);
  m_locks : c_spinlocks (ints s) !! me = Some 1;
  m_held : held_by me (ints s) = 1;
  m_irq : c_irq (ints s) !! me = Some false;
  m_queue : splk_holder (ints s) !! RunqueueLock me = Some (Some me);
  m_free : (∀ c, is_Some (cpus s !! c) → (c ≠ me → splk_holder (ints s) !! RunqueueLock c = Some None) ∧
                                          splk_holder (ints s) !! IpiLock c = Some None) ∧
           (∀ p, is_Some (procs s !! p) → splk_holder (ints s) !! ProcLock p = Some None) ∧
           splk_holder (ints s) !! AllwchansLock = Some None;
  m_none : ∀ c, cpus s !! c = None → held_by c (ints s) = 0;
}.

(** After the lock is released, the executing thread [t] has priority [sp]. *)
Definition released (me t : positive) (sp : Z) (i : interrupts) : interrupts :=
  mkInterrupts (<[t := (sp, sp)]> (t_spl i)) (<[me := 0]> (c_spinlocks i))
    (<[me := bool_decide (sp = 0)]> (c_irq i)) (<[RunqueueLock me := None]> (splk_holder i)).

Lemma released_held me t sp i c :
  splk_holder i !! RunqueueLock me = Some (Some me) →
  held_by c (released me t sp i) = held_by c i - (if decide (me = c) then 1 else 0).
Proof.
  intros Hl. rewrite (held_release c me i _ (RunqueueLock me)) by done.
  destruct (decide (me = c)), (decide (c = me)); congruence || lia.
Qed.

(** The accounting at the end of a switch: [t] executes; [u], if it is another
    thread, is away. *)
Lemma acct_switched s s' me u t sp x0 x' y' :
  mid s me u → cpus s !! me = Some x0 → c_curthread x0 = u →
  ints s' = released me t sp (ints s) → sp = 0 ∨ sp = 1 → procs s' = procs s →
  cpus s' !! me = Some x' → c_curthread x' = t → threads s' !! t = Some y' →
  (∀ c x, c ≠ me → cpus s !! c = Some x → c_curthread x ≠ t ∧ c_curthread x ≠ u) →
  (∀ c, c ≠ me → cpus s' !! c = cpus s !! c) →
  (∀ v y, threads s' !! v = Some y → ∃ y0, threads s !! v = Some y0 ∧
     (v ≠ t → y = if decide (v = u) then with_context (Some Switched) y0 else y0)) →
  frames_ok (c_isidle x') y' → c_phase x' = Free →
  (c_isidle x' = true ∨ t_frames y' ≠ [] → sp = 1) →
  (c_isidle x' = true → t_local y' = 0 ∨ t_local y' = 1) → c_status x' = Online →
  acct s'.
Proof.
  intros [M1 M2 M3 M4 M5 M6 M7 (M8 & M9 & M10) M11] Hx0 Hu Hi Hsp Hpr Hx' Hcur Hy' Hoth Hcpus Hth Hfr Hph Hhi Hloc Hon.
  split.
  - intros c x y Hx Hy. destruct (decide (c = me)) as [->|Hne].
    + simplify_eq. exists sp, 0.
      split; rewrite ?Hi; simpl; rewrite ?lookup_insert_eq; try done.
      * by rewrite !Z.add_0_r.
      * rewrite released_held, M5, decide_True by done. done.
      * by rewrite !Z.add_0_r.
      * congruence.
    + rewrite Hcpus in Hx by done. destruct (Hoth c x Hne Hx) as [Hn1 Hn2].
      destruct (Hth _ _ Hy) as (y0 & Hy0 & E). rewrite decide_False in E by done.
      destruct (M1 c x y0 Hne Hx Hy0) as (sp' & k & Ha). exists sp', k.
      rewrite E by done. eapply acct_cur_frame; try done; rewrite Hi; simpl.
      * by rewrite lookup_insert_ne.
      * by rewrite lookup_insert_ne.
      * by rewrite lookup_insert_ne.
      * rewrite released_held, decide_False by done. lia.
  - intros v y Hy Hnc. destruct (Hth _ _ Hy) as (y0 & Hy0 & E).
    assert (v ≠ t) as Hvt by (intros ->; destruct Hnc; by exists me, x'). rewrite E by done.
    assert (t_spl (ints s') !! v = t_spl (ints s) !! v) as Hspl.
    { rewrite Hi. simpl. by rewrite lookup_insert_ne. }
    destruct (decide (v = u)) as [->|Hvu].
    + by eapply acct_away_frame; [by apply M3|..].
    + eapply acct_away_frame; [apply M2; [done|done|]|done..].
      intros (c & x & Hx & Hc). destruct (decide (c = me)) as [->|Hne]; [congruence|].
      destruct Hnc. exists c, x. by rewrite Hcpus.
  - assert (∀ c, is_Some (cpus s' !! c) → is_Some (cpus s !! c)) as Hin.
    { intros c Hc. destruct (decide (c = me)) as [->|]; [by eexists|]. by rewrite <- Hcpus. }
    rewrite Hpr, Hi. simpl. split; [|split].
    + intros c Hc%Hin. destruct (M8 c Hc) as [H1 H2]. split.
      * destruct (decide (c = me)) as [->|]; [apply lookup_insert_eq|]. rewrite lookup_insert_ne by congruence. auto.
      * by rewrite lookup_insert_ne.
    + intros p Hp. rewrite lookup_insert_ne by done. auto.
    + by rewrite lookup_insert_ne.
  - intros c Hc. assert (c ≠ me) by congruence. rewrite Hcpus in Hc by done.
    rewrite Hi, released_held, decide_False, M11 by done. done.
Qed.

(** ** The thread that is switched to *)

Lemma unlocked_released me t i :
  t_spl i !! t = Some (1, 2) → c_spinlocks i !! me = Some 1 →
  unlocked me t (RunqueueLock me) i = released me t 1 i.
Proof. intros H1 H2. unfold unlocked, spl_of, locks_of. by rewrite H1, H2. Qed.

Lemma wp_switched_in me t x y C s (Q : unit → sys → Prop) :
  cpus s !! me = Some x → c_curthread x = t → threads s !! t = Some y →
  inv None C (set_threads (<[t := with_state S_RUN (with_name None y)]> (threads s)) s) →
  t_spl (ints s) !! t = Some (1, 2) → c_spinlocks (ints s) !! me = Some 1 →
  c_irq (ints s) !! me = Some false → splk_holder (ints s) !! RunqueueLock me = Some (Some me) →
  (∀ p, t_proc y = Some p → is_Some (procs s !! p) ∧ splk_holder (ints s) !! ProcLock p = Some None) →
  (∀ h' th' tb s', s' = set_tl h' (set_threads th' (set_cpus (<[me := with_tlb tb x]> (cpus s))
                          (set_ints (released me t 1 (ints s)) s))) →
     inv None (<[Zombies me := []]> C) s' →
     exorcised (<[t := with_state S_RUN (with_name None y)]> (threads s)) th' → Q tt s') →
  wp (switched_in me) Q s.
Proof.
  intros Hx Hcur Hy HI Hspl Hk Hirq Hq Hp HQ. set (y' := with_state S_RUN (with_name None y)) in *.
  pose proof (inv_here _ _ _ me x HI Hx) as Hh. rewrite Hcur in Hh.
  destruct (i_cpu _ _ _ HI me x Hx) as (y1 & Hy1 & Hok). simpl in Hy1. rewrite Hcur, lookup_insert_eq in Hy1.
  injection Hy1 as <-.
  assert (here me t s) as Hh0.
  { exists x, y. repeat split; try done. apply Hok. }
  unfold switched_in. apply wp_bind. eapply wp_curthread; [done|]. apply wp_bind.
  eapply wp_thread_upd; [done|]. apply wp_bind. eapply wp_thread_upd; [apply lookup_insert_eq|].
  simpl. rewrite insert_insert_eq. apply wp_bind. eapply wp_curcpu; [exact Hh|]. apply wp_bind.
  assert (sane me t (ints s)) as Hs by (exists 1, 2, 1; repeat split; try done; lia).
  eapply (wp_release_lock me t); [exact Hh|done|done|..].
  { simpl. unfold spl_of. rewrite Hspl. done. }
  { simpl. unfold locks_of. rewrite Hk. done. }
  simpl. rewrite unlocked_released by done. apply wp_bind.
  eapply (wp_as_activate me t x y'); [exact Hh|done|apply lookup_insert_eq|..].
  { exists 1, 1, 0. simpl. rewrite !lookup_insert_eq. repeat split; done. }
  { intros p Hp'. simpl. rewrite lookup_insert_ne by done. by apply Hp. }
  { apply Hok. }
  intros tb Hwf Hlk. simpl.
  assert (inv None C (set_cpus (<[me := with_tlb tb x]> (cpus s)) (set_ints (released me t 1 (ints s))
             (set_threads (<[t := y']> (threads s)) s)))) as HI2.
  { apply (inv_cpu None C (set_ints (released me t 1 (ints s)) (set_threads (<[t := y']> (threads s)) s)) me x);
      [|done|done|done|apply Hok]. eapply inv_same; [exact HI|done|done|..]; intros; simpl in *; by simplify_eq. }
  eapply (wp_exorcise me t); [exact HI2|simpl; apply lookup_insert_eq|done|simpl; apply lookup_insert_eq|done|].
  intros h' th' HI3 Hex. eapply HQ; [|exact HI3|exact Hex]. done.
Qed.

(** The priority with which a thread goes on. *)
Definition resume_spl (k : context) (y : thread) : Z :=
  match k with Startup => 0 | Switched => t_local y end.

Lemma wp_resume_thread me t k x y C s (Q : unit → sys → Prop) :
  cpus s !! me = Some x → c_curthread x = t → threads s !! t = Some y →
  inv None C (set_threads (<[t := with_state S_RUN (with_name None y)]> (threads s)) s) →
  t_spl (ints s) !! t = Some (1, 2) → c_spinlocks (ints s) !! me = Some 1 →
  c_irq (ints s) !! me = Some false → splk_holder (ints s) !! RunqueueLock me = Some (Some me) →
  (∀ p, t_proc y = Some p → is_Some (procs s !! p) ∧ splk_holder (ints s) !! ProcLock p = Some None) →
  resume_spl k y = 0 ∨ resume_spl k y = 1 →
  (∀ h' th' tb s', s' = set_tl h' (set_threads th' (set_cpus (<[me := with_tlb tb x]> (cpus s))
                          (set_ints (released me t (resume_spl k y) (ints s)) s))) →
     inv None (<[Zombies me := []]> C) s' →
     exorcised (<[t := with_state S_RUN (with_name None y)]> (threads s)) th' → Q tt s') →
  wp (match k with Startup => thread_startup me | Switched => thread_switch_return me end) Q s.
Proof.
  intros Hx Hcur Hy HI Hspl Hk Hirq Hq Hp Hsp HQ. set (y' := with_state S_RUN (with_name None y)) in *.
  set (spl := resume_spl k y) in *.
  assert (∀ h' th' tb s', s' = set_tl h' (set_threads th' (set_cpus (<[me := with_tlb tb x]> (cpus s))
                          (set_ints (released me t 1 (ints s)) s))) →
     inv None (<[Zombies me := []]> C) s' → exorcised (<[t := y']> (threads s)) th' →
     here me t s' ∧ threads s' !! t = Some y' ∧
     wp (splx (Some me) spl ;; mret tt) Q s') as Hend.
  { intros h' th' tb s' -> HI' Hex.
    assert (here me t (set_tl h' (set_threads th' (set_cpus (<[me := with_tlb tb x]> (cpus s))
                          (set_ints (released me t 1 (ints s)) s))))) as Hh.
    { pose proof (inv_here _ _ _ me (with_tlb tb x) HI') as Hh. simpl in Hh. rewrite Hcur in Hh. apply Hh.
      apply lookup_insert_eq. }
    split; [done|]. split.
    { simpl. destruct Hex as [_ Hex]. destruct (Hex t y') as [?|[? _]]; [apply lookup_insert_eq|done|done]. }
    apply wp_bind. eapply (wp_splx me t); [done|..]; simpl; unfold spl_of; simpl;
      rewrite ?lookup_insert_eq; simpl; auto; try lia.
    - exists 1, 1, 0. simpl. rewrite !lookup_insert_eq. repeat split; done.
    - intros _. apply wp_ret. replace (1 + spl - 1) with spl by lia.
      eapply (HQ h' th' tb); [|..|exact Hex].
      + unfold set_ints, set_tl, set_threads, set_cpus, set_spl, released. simpl. by rewrite !insert_insert_eq.
      + eapply inv_same; [exact HI'|done|done|..]; intros; simpl in *; by simplify_eq. }
  destruct k; simpl in *.
  - apply wp_bind. eapply (wp_switched_in me t x y C); [done..|]. intros h' th' tb s' E HI' Hex.
    destruct (Hend h' th' tb s' E HI' Hex) as (_ & _ & Hw). exact Hw.
  - apply wp_bind. eapply (wp_switched_in me t x y C); [done..|]. intros h' th' tb s' E HI' Hex.
    destruct (Hend h' th' tb s' E HI' Hex) as (Hh & Hy' & Hw). apply wp_bind. eapply wp_curthread; [done|].
    apply wp_bind. eapply wp_thread_get; [done|]. exact Hw.
Qed.

(** ** A round of the idle loop *)

(** The first thread of the run queue runs, or the processor idles. *)
Definition dispatched C C' s' (me u : positive) : Prop :=
  match C !! Runqueue me with
  | Some (t :: q) =>
      C' = <[Zombies me := []]> (<[Runqueue me := q]> C) ∧
      ∃ x y, cpus s' !! me = Some x ∧ c_curthread x = t ∧ c_isidle x = false ∧
        threads s' !! t = Some y ∧ t_state y = S_RUN
  | _ => C' = C ∧ ∃ x, cpus s' !! me = Some x ∧ c_curthread x = u ∧ c_isidle x = true ∧ c_waiting x = true
  end.

Definition good C s : Prop := inv None C s ∧ notified C s ∧ counts C s ∧ tables s ∧ acct s.

Lemma good_ok C s : good C s → ok s.
Proof. intros (? & ? & ? & ? & ?). split; [by exists C|done]. Qed.

Section round.
Context (me u : positive) (x : cpu) (y : thread) (C : gmap listid (list positive)) (s : sys).
Hypothesis HI : inv None C s.
Hypothesis Htab : tables s.
Hypothesis Hnot : ∀ c, c ≠ me → notified_at C s c.
Hypothesis Hcnt : ∀ c, c ≠ me → counts_at C s c.
Hypothesis Hmid : mid s me u.
Hypothesis Hx : cpus s !! me = Some x.
Hypothesis Hcur : c_curthread x = u.
Hypothesis Hidle : c_isidle x = true.
Hypothesis Hph : c_phase x = Free.
Hypothesis Hon : c_status x = Online.
Hypothesis Hy : threads s !! u = Some y.
Hypothesis Hempty : C !! Runqueue me = Some [] → t_frames y = [].

Lemma round_here : here me u s.
Proof. pose proof (inv_here _ _ _ me x HI Hx) as Hh. by rewrite Hcur in Hh. Qed.

Lemma round_self : acct_away s u (with_context (Some Switched) y).
Proof. by apply (m_self _ _ _ Hmid). Qed.

Lemma round_others c x1 : c ≠ me → cpus s !! c = Some x1 → c_curthread x1 ≠ u.
Proof. intros Hne Hx1 E. destruct Hne. by eapply (current_cpu None C s u). Qed.

Lemma round_none h' (Q : unit → sys → Prop) :
  rep h' C (dom (threads s)) → C !! Runqueue me = Some [] →
  (∀ s' C', good C' s' → dispatched C C' s' me u → Q tt s') →
  wp (spinlock_release (Some me) (RunqueueLock me) ;; cpu_upd me (with_waiting true)) Q (set_tl h' s).
Proof.
  intros HR HC HQ. destruct round_self as [Hspl Hfr [Hloc _]]. simpl in *. specialize (Hempty HC).
  assert (t_in_interrupt y = false) as Hint.
  { destruct Hfr as [[_ ?]|[E _]]; simpl in *; congruence. }
  apply wp_bind. eapply (wp_release_lock me u); [exact round_here|..].
  { exists 1, 2, 1. repeat split; try done; apply Hmid. }
  { apply Hmid. }
  { simpl. unfold spl_of. by rewrite Hspl. }
  { simpl. unfold locks_of. by rewrite (m_locks _ _ _ Hmid). }
  simpl. rewrite unlocked_released by (done || apply Hmid). eapply wp_cpu_upd; [done|]. simpl.
  set (s' := set_cpus _ _). destruct (i_cpu _ _ _ HI me x Hx) as (y0 & Hy0 & Hok).
  assert (inv None C s') as HI'.
  { apply (inv_cpu None C (set_ints (released me u 1 (ints s)) (set_tl h' s)) me x); [|done|done|apply Hok..].
    eapply inv_same; [by apply (inv_tl None C s h')|done|done|..]; intros; simpl in *; by simplify_eq. }
  assert (∀ c, c ≠ me → cpus s' !! c = cpus s !! c) as Hc by (intros; simpl; by rewrite lookup_insert_ne).
  assert (cpus s' !! me = Some (with_waiting true x)) as Hme by (simpl; apply lookup_insert_eq).
  apply (HQ s' C).
  - split; [done|]. split; [|split; [|split]].
    + intros c. destruct (decide (c = me)) as [->|Hne].
      * intros x1 y1 Hx1 Hy1 _ _. rewrite Hme in Hx1. injection Hx1 as <-. simpl in Hy1. rewrite Hcur, Hy in Hy1.
        injection Hy1 as <-. split; [done|by right].
      * intros x1 y1 Hx1 Hy1. rewrite Hc in Hx1 by done. by apply Hnot.
    + intros c. destruct (decide (c = me)) as [->|Hne].
      * intros x1 Hx1. rewrite Hme in Hx1. injection Hx1 as <-. simpl. by rewrite Hph.
      * eapply counts_frame; [by apply Hcnt|by apply Hc| |done]. eauto.
    + eapply tables_frame; try done. intros c. simpl. apply insert_is_Some_iff. by eexists.
    + eapply (acct_switched s s' me u u 1 x (with_waiting true x) y); try done; simpl; auto.
      * intros c x1 Hne Hx1. pose proof (round_others c x1 Hne Hx1). done.
      * intros v yv Hv. exists yv. split; [done|]. intros Hvu. by rewrite decide_False.
      * rewrite Hidle. by left.
  - unfold dispatched. rewrite HC. split; [done|]. by exists (with_waiting true x).
Qed.

(** The next thread, in transit from the run queue; the thread that is left keeps
    its context. *)
Section next.
Context (t : positive) (q : list positive) (h' : lists listid).
Hypothesis HC : C !! Runqueue me = Some (t :: q).
Hypothesis HR : rep h' (<[Runqueue me := q]> C) (dom (threads s)).

Definition left_threads : gmap positive thread := <[u := with_context (Some Switched) y]> (threads s).
Definition left_state : sys := set_threads left_threads (set_tl h' s).
Definition new_cpu : cpu := with_curthread t (with_isidle false x).

Lemma next_facts :
  ∃ y1 y2 k, threads s !! t = Some y1 ∧ left_threads !! t = Some y2 ∧ t_context y2 = Some k ∧
    t_state y1 = S_READY ∧ t_cpu y1 = Some me ∧
    y2 = (if decide (t = u) then with_context (Some Switched) y1 else y1) ∧
    t_spl (ints s) !! t = Some (1, 2) ∧ frames_ok false y2 ∧
    (resume_spl k y2 = 0 ∨ resume_spl k y2 = 1) ∧ (t_frames y2 ≠ [] → resume_spl k y2 = 1).
Proof.
  destruct (i_list _ _ _ HI (Runqueue me) (t :: q) t HC) as (y1 & Hy1 & _ & Hst & Hc); [left|].
  unfold left_threads. destruct (decide (t = u)) as [E|Hne].
  - rewrite E in Hy1 |- *. rewrite Hy in Hy1. injection Hy1 as <-. rewrite lookup_insert_eq.
    destruct round_self as [H1 H2 [H3 H4]]. exists y, (with_context (Some Switched) y), Switched.
    do 8 (split; [done|]). done.
  - assert (¬ current s t) as Hnc.
    { intros (c & x1 & Hx1 & Hc1). pose proof (i_in _ _ _ t c x1 y1 HI Hx1 Hc1 Hy1). congruence. }
    destruct (m_away _ _ _ Hmid t y1 Hy1 Hne Hnc) as [H1 H2 H3].
    rewrite lookup_insert_ne by done. destruct (t_context y1) as [k|] eqn:Hk; [|done].
    exists y1, y1, k. do 8 (split; [done|]). unfold resume_spl. destruct k; [|naive_solver].
    split; [by left|]. by rewrite H3.
Qed.

Lemma next_others c x1 : c ≠ me → cpus s !! c = Some x1 → c_curthread x1 ≠ t.
Proof.
  intros Hne Hx1 E. destruct next_facts as (y1 & y2 & k & Hy1 & _ & _ & _ & Hc & _).
  pose proof (i_in _ _ _ t c x1 y1 HI Hx1 E Hy1). congruence.
Qed.

(** The invariant once the thread runs. *)
Lemma next_inv y2 :
  left_threads !! t = Some y2 →
  inv None (<[Runqueue me := q]> C)
    (set_threads (<[t := with_state S_RUN (with_name None y2)]> left_threads)
       (set_cpus (<[me := new_cpu]> (cpus s)) left_state)).
Proof.
  intros Hy2. destruct next_facts as (y1 & y2' & k & Hy1 & Hy2' & Hk & Hst & Hc & E & Hspl & Hfr & Hsp).
  rewrite Hy2 in Hy2'. injection Hy2' as <-.
  assert (NoDup (t :: q)) as [Hnd _]%NoDup_cons by by eapply (rep_nodup _ _ _ (i_rep _ _ _ HI)).
  assert (inv (Some t) (<[Runqueue me := q]> C) (set_tl h' s)) as HI1.
  { eapply move_take; [done|done|left| |done]. set_solver. }
  assert (inv (Some t) (<[Runqueue me := q]> C) left_state) as HI2.
  { eapply (inv_thread _ _ (set_tl h' s) u y); [done|done|done|]. by intros [? ?]. }
  destruct (i_thread _ _ _ HI t y1 Hy1) as [_ G1 _ G2]; [done|].
  assert (t_cpu y2 = Some me ∧ t_stack y2 = t_stack y1 ∧ t_point y2 = t_point y1 ∧ t_proc y2 = t_proc y1)
    as (F1 & F2 & F3 & F4) by (subst y2; by destruct (decide (t = u))).
  apply (move_dispatch _ left_state me x t y2); try done; [|by left].
  unfold tgood, magic. simpl. rewrite F2, F3, F4. done.
Qed.

(** The threads afterwards. *)
Lemma next_threads y2 th' v yv :
  left_threads !! t = Some y2 →
  exorcised (<[t := with_state S_RUN (with_name None y2)]> left_threads) th' → th' !! v = Some yv →
  ∃ y0, threads s !! v = Some y0 ∧
    (v ≠ t → yv = if decide (v = u) then with_context (Some Switched) y0 else y0) ∧ t_proc yv = t_proc y0.
Proof.
  intros Hy2 [Hex _] Hv%Hex. apply lookup_insert_Some in Hv as [[<- <-]|[Hne Hv]].
  - destruct next_facts as (y1 & y2' & k & Hy1 & Hy2' & _ & _ & _ & E & _).
    rewrite Hy2 in Hy2'. injection Hy2' as <-. exists y1. split; [done|]. split; [done|].
    subst y2. simpl. by destruct (decide (t = u)).
  - unfold left_threads in Hv. apply lookup_insert_Some in Hv as [[<- <-]|[Hne' Hv]].
    + exists y. rewrite decide_True by done. done.
    + exists yv. rewrite decide_False by done. done.
Qed.

Lemma next_procs y2 th' v p :
  left_threads !! t = Some y2 →
  exorcised (<[t := with_state S_RUN (with_name None y2)]> left_threads) th' →
  (∃ yv, th' !! v = Some yv ∧ t_proc yv = Some p) ↔ (∃ yv, threads s !! v = Some yv ∧ t_proc yv = Some p).
Proof.
  intros Hy2 Hex. split.
  - intros (yv & Hv & Hp). destruct (next_threads _ _ _ _ Hy2 Hex Hv) as (y0 & Hy0 & _ & E).
    exists y0. by rewrite <- E.
  - intros (y0 & Hy0 & Hp).
    assert (∃ yv, <[t := with_state S_RUN (with_name None y2)]> left_threads !! v = Some yv ∧ t_proc yv = Some p)
      as (yv & Hv & Hp').
    { destruct next_facts as (y1 & y2' & k & Hy1 & Hy2' & _ & _ & _ & E & _).
      rewrite Hy2 in Hy2'. injection Hy2' as <-. destruct (decide (t = v)) as [<-|].
      - rewrite lookup_insert_eq. eexists. split; [done|]. simpl. subst y2.
        rewrite Hy0 in Hy1. injection Hy1 as <-. by destruct (decide (t = u)).
      - rewrite lookup_insert_ne by done. unfold left_threads. destruct (decide (u = v)) as [<-|].
        + rewrite lookup_insert_eq. eexists. split; [done|]. simpl. congruence.
        + rewrite lookup_insert_ne by done. eauto. }
    destruct Hex as [_ Hex]. destruct (Hex _ _ Hv) as [?|[_ ?]]; [eauto|congruence].
Qed.

Lemma round_next (Q : unit → sys → Prop) :
  (∀ s' C', good C' s' → dispatched C C' s' me u → Q tt s') →
  wp (cpu_upd me (with_isidle false) ;;
      cur ← curthread me;
      cpu_upd me (with_curthread t) ;;
      switchframe_switch me cur t) Q (set_tl h' s).
Proof.
  intros HQ. destruct next_facts as (y1 & y2 & k & Hy1 & Hy2 & Hk & Hst & Hc & E & Hspl & Hfr & Hsp & Hsp1).
  pose proof Hmid as [_ _ _ M4 _ M6 M7 (_ & M9 & _)].
  apply wp_bind. eapply wp_cpu_upd; [done|]. apply wp_bind.
  eapply (wp_curthread me u); [by eapply (here_cpu me u (set_tl h' s)); [exact round_here|..]|].
  apply wp_bind. eapply wp_cpu_upd; [simpl; apply lookup_insert_eq|]. simpl. rewrite insert_insert_eq.
  fold new_cpu. unfold switchframe_switch. apply wp_bind. eapply wp_thread_upd; [done|].
  apply wp_bind. eapply wp_thread_get; [exact Hy2|]. apply wp_bind. eapply wp_deref; [done|].
  assert (∀ p, t_proc y2 = Some p → is_Some (procs s !! p) ∧ splk_holder (ints s) !! ProcLock p = Some None) as Hp.
  { intros p Hp. assert (is_Some (procs s !! p)); [|auto]. apply (b_proc _ Htab t y1 p Hy1).
    rewrite <- Hp. rewrite E. by destruct (decide (t = u)). }
  eapply (wp_resume_thread me t k new_cpu y2 (<[Runqueue me := q]> C));
    [simpl; apply lookup_insert_eq|done|exact Hy2|exact (next_inv y2 Hy2)|done|done|done|done|exact Hp|done|].
  intros h2 th' tb s' Hs' HI' Hex.
  assert (cpus s' !! me = Some (with_tlb tb new_cpu)) as Hme by (subst s'; simpl; apply lookup_insert_eq).
  assert (∀ c, c ≠ me → cpus s' !! c = cpus s !! c) as Hoth.
  { intros c Hne. subst s'. simpl. by rewrite !lookup_insert_ne. }
  assert (threads s' = th') as Hth by by subst s'.
  assert (th' !! t = Some (with_state S_RUN (with_name None y2))) as Hth'.
  { destruct Hex as [_ Hex]. destruct (Hex t (with_state S_RUN (with_name None y2))) as [?|[? _]];
      [apply lookup_insert_eq|done|done]. }
  assert (∀ l, l ≠ Zombies me → l ≠ Runqueue me → <[Zombies me := []]> (<[Runqueue me := q]> C) !! l = C !! l) as HCl.
  { intros l H1 H2. by rewrite !lookup_insert_ne. }
  eapply HQ; [split; [exact HI'|split; [|split; [|split]]]|].
  - intros c x1 y1' Hx1 Hy1'. destruct (decide (c = me)) as [->|Hne].
    + rewrite Hme in Hx1. injection Hx1 as <-. done.
    + rewrite Hoth in Hx1 by done. rewrite Hth in Hy1'.
      destruct (next_threads _ _ _ _ Hy2 Hex Hy1') as (y0 & Hy0 & Ev & _).
      pose proof (round_others c x1 Hne Hx1). pose proof (next_others c x1 Hne Hx1).
      rewrite decide_False in Ev by done. rewrite Ev by done. rewrite HCl by congruence. by apply Hnot.
  - intros c. destruct (decide (c = me)) as [->|Hne].
    + intros x1 Hx1. rewrite Hme in Hx1. injection Hx1 as <-. simpl. by rewrite Hph.
    + eapply counts_frame; [by apply Hcnt|by apply Hoth| |by apply HCl]. intros xs Hxs.
      exists xs. rewrite HCl by congruence. done.
  - eapply tables_frame; try (subst s'; done).
    + intros c. destruct (decide (c = me)) as [->|]; [|by rewrite Hoth]. rewrite Hme, Hx. by split; eexists.
    + intros v p. rewrite Hth. by eapply next_procs.
  - eapply (acct_switched s s' me u t (resume_spl k y2) x (with_tlb tb new_cpu)
              (with_state S_RUN (with_name None y2))); try done; try (by subst s').
    + intros c x1 Hne Hx1. split; [by eapply next_others|by eapply round_others].
    + intros v yv Hv. rewrite Hth in Hv. destruct (next_threads _ _ _ _ Hy2 Hex Hv) as (y0 & Hy0 & Ev & _). eauto.
    + intros [?|?]; [done|]. by apply Hsp1.
  - unfold dispatched. rewrite HC. split; [done|]. exists (with_tlb tb new_cpu). eexists. rewrite Hth. eauto.
Qed.

End next.

Lemma wp_idle_round (Q : unit → sys → Prop) :
  (∀ s' C', good C' s' → dispatched C C' s' me u → Q tt s') → wp (idle_round me) Q s.
Proof.
  intros HQ. unfold idle_round. apply wp_bind. eapply wp_curcpu; [exact round_here|].
  destruct (proj1 (i_lists _ _ _ HI) me) as [_ [xs Hxs]]; [by eexists|].
  apply wp_bind, wp_in_tl. eapply threadlist_remhead_spec; [apply (i_rep _ _ _ HI)|done|].
  intros h' HR. destruct xs as [|t q]; simpl in *.
  - rewrite insert_id in HR by done. by apply round_none.
  - by eapply (round_next t q).
Qed.

End round.
End ThreadSwitch.
