(* ===== verification/ThreadPark.v ===== *)
(** * Giving up the processor

    [thread_switch] from its call to the idle loop: yielding, sleeping and
    exiting. *)

From Stdlib Require Import ZArith Lia.
From stdpp Require Import base numbers list gmap strings.
From S2P Require Import Prelude Tlb Array Threadlist Thread ThreadInts ThreadSystem ThreadMoves ThreadSteps ThreadSwitch.

Module ThreadPark.
Import Threadlist Thread ThreadInts ThreadSystem ThreadMoves ThreadSteps ThreadSwitch.
Implicit Types (C : gmap listid (list positive)) (s : sys) (X : option positive).

(** The accounting of a thread that has been put away: its count is 2, its
    processor has one lock, that of its run queue. *)
Definition parked_ints (me t : positive) (holders : gmap lockid (option positive)) (i : interrupts) : interrupts :=
  mkInterrupts (<[t := (1, 2)]> (t_spl i)) (<[me := 1]> (c_spinlocks i)) (<[me := false]> (c_irq i)) holders.

Lemma locked_high me t sp i :
  t_spl i !! t = Some (sp, sp) → sp = 0 ∨ sp = 1 → c_spinlocks i !! me = Some 0 →
  locked me t (RunqueueLock me) (high me t i) =
  parked_ints me t (<[RunqueueLock me := Some me]> (splk_holder i)) i.
Proof.
  intros H1 Hsp H2. unfold locked, high, spl_of, locks_of. rewrite H1. simpl.
  destruct Hsp as [-> | ->]; simpl; unfold parked_ints, adjust; simpl.
  - rewrite lookup_insert_eq, H2. simpl. by rewrite !insert_insert_eq.
  - by rewrite H1, H2.
Qed.

(** With a lock that is released on the way. *)
Lemma locked_high_unlocked me t sp lk i :
  t_spl i !! t = Some (sp, sp + 1) → sp = 0 ∨ sp = 1 → c_spinlocks i !! me = Some 1 →
  unlocked me t (Spin lk) (locked me t (RunqueueLock me) (high me t i)) =
  parked_ints me t (<[Spin lk := None]> (<[RunqueueLock me := Some me]> (splk_holder i))) i.
Proof.
  intros H1 Hsp H2. unfold locked, high, spl_of, locks_of. rewrite H1. simpl.
  destruct Hsp as [-> | ->]; simpl; unfold unlocked, parked_ints, adjust, spl_of, locks_of; simpl.
  - rewrite !lookup_insert_eq, H2. simpl. by rewrite !insert_insert_eq.
  - rewrite H1, H2. simpl. rewrite !lookup_insert_eq. simpl. by rewrite !insert_insert_eq.
Qed.

Section park.
Context (me t : positive) (x : cpu) (y : thread) (C : gmap listid (list positive)) (s : sys) (sp k : Z).
Hypothesis Hgood : good C s.
Hypothesis Hx : cpus s !! me = Some x.
Hypothesis Hcur : c_curthread x = t.
Hypothesis Hidle : c_isidle x = false.
Hypothesis Hph : c_phase x = Free.
Hypothesis Hon : c_status x = Online.
Hypothesis Hy : threads s !! t = Some y.
Hypothesis Hacct : acct_cur s me x y sp k.

Lemma park_here : here me t s.
Proof. destruct Hgood as [HI _]. pose proof (inv_here _ _ _ me x HI Hx) as Hh. by rewrite Hcur in Hh. Qed.

(** The invariant in the middle of [thread_switch], once the thread [y'] is put away. *)
Lemma parked_mid y' holders h' :
  t_frames y' = t_frames y → t_in_interrupt y' = t_in_interrupt y → t_local y' = sp →
  held_by me (parked_ints me t holders (ints s)) = 1 →
  (∀ c, c ≠ me → held_by c (parked_ints me t holders (ints s)) = held_by c (ints s)) →
  holders !! RunqueueLock me = Some (Some me) →
  (∀ lc, (∀ n, lc ≠ Spin n) → lc ≠ RunqueueLock me → holders !! lc = splk_holder (ints s) !! lc) →
  mid (set_tl h' (set_cpus (<[me := with_isidle true x]> (cpus s))
         (set_threads (<[t := y']> (threads s)) (set_ints (parked_ints me t holders (ints s)) s)))) me t.
Proof.
  intros Hfr Hint Hloc Hh1 Hh2 Hq Hhold. destruct Hgood as (HI & _ & _ & _ & [A1 A2 (A3 & A4 & A5) A6]).
  assert (∀ c x1, c ≠ me → cpus s !! c = Some x1 → c_curthread x1 ≠ t) as Hoth.
  { intros c x1 Hne Hx1 E. destruct Hne. by eapply (current_cpu None C s t). }
  split; simpl.
  - intros c x1 y1 Hne Hx1 Hy1. rewrite lookup_insert_ne in Hx1 by done. pose proof (Hoth c x1 Hne Hx1) as Hnt.
    rewrite lookup_insert_ne in Hy1 by done. destruct (A1 c x1 y1 Hx1 Hy1) as (sp1 & k1 & Ha). exists sp1, k1.
    eapply acct_cur_frame; try done; simpl; [by rewrite lookup_insert_ne..|]. by apply Hh2.
  - intros v yv Hv Hvt Hnc. rewrite lookup_insert_ne in Hv by done.
    eapply acct_away_frame; [apply A2; [done|]|simpl; by rewrite lookup_insert_ne|done..].
    intros (c & x1 & Hx1 & Hc). destruct Hnc. destruct (decide (c = me)) as [->|]; [congruence|].
    exists c, x1. simpl. by rewrite lookup_insert_ne.
  - intros y1 Hy1. rewrite lookup_insert_eq in Hy1. injection Hy1 as <-. destruct Hacct. split; simpl.
    + apply lookup_insert_eq.
    + rewrite Hidle in a_frames0. unfold frames_ok in *. simpl. by rewrite Hfr, Hint.
    + rewrite Hloc, Hfr. auto.
  - apply lookup_insert_eq.
  - done.
  - apply lookup_insert_eq.
  - done.
  - split; [|split].
    + intros c Hc. apply insert_is_Some_iff in Hc; [|by eexists]. destruct (A3 c Hc) as [B1 B2].
      split; [intros Hne|]; rewrite Hhold by (intros; congruence); done.
    + intros p Hp. rewrite Hhold by (intros; congruence). auto.
    + rewrite Hhold by (intros; congruence). done.
  - intros c Hc. apply lookup_insert_None in Hc as [Hc Hne]. rewrite Hh2, A6 by congruence. done.
Qed.

(** From the point where the thread has been put on list [l] as [y']. *)
Lemma wp_parked l xs y' holders h' (Q : unit → sys → Prop) :
  C !! l = Some xs → rep h' (<[l := xs ++ [t]]> C) (dom (threads s)) →
  (∀ c, l ≠ Private c) → listed s l y' → tgood y' → t_cpu y' = t_cpu y → t_proc y' = t_proc y →
  t_frames y' = t_frames y → t_in_interrupt y' = t_in_interrupt y → t_local y' = sp →
  held_by me (parked_ints me t holders (ints s)) = 1 →
  (∀ c, c ≠ me → held_by c (parked_ints me t holders (ints s)) = held_by c (ints s)) →
  holders !! RunqueueLock me = Some (Some me) →
  (∀ lc, (∀ n, lc ≠ Spin n) → lc ≠ RunqueueLock me → holders !! lc = splk_holder (ints s) !! lc) →
  (<[l := xs ++ [t]]> C !! Runqueue me = Some [] → t_frames y = []) →
  (∀ s' C', good C' s' → dispatched (<[l := xs ++ [t]]> C) C' s' me t → Q tt s') →
  wp (idle_round me) Q
    (set_tl h' (set_cpus (<[me := with_isidle true x]> (cpus s))
       (set_threads (<[t := y']> (threads s)) (set_ints (parked_ints me t holders (ints s)) s)))).
Proof.
  intros HC HR Hl Hli Hg Hcpu Hproc Hfr Hint Hloc Hh1 Hh2 Hq Hhold Hempty HQ.
  destruct Hgood as (HI & Hnot & Hcnt & Htab & Hac).
  assert (t_state y' ≠ S_RUN) as Hst.
  { destruct l; simpl in Hli; [destruct_and!; congruence..|by destruct (Hl c)]. }
  set (s0 := set_ints (parked_ints me t holders (ints s)) s).
  assert (inv None C s0) as HI0.
  { eapply inv_same; [exact HI|done|done|..]; intros; simpl in *; by simplify_eq. }
  assert (dom (<[t := y']> (threads s)) = dom (threads s)) as Hdom by (apply dom_insert_lookup_L; by eexists).
  pose proof (move_park C s0 me x t y y' HI0 Hx Hidle Hcur Hy Hst Hcpu) as HI1.
  set (s1 := set_cpus _ _) in HI1.
  assert (inv None (<[l := xs ++ [t]]> C) (set_tl h' s1)) as HI2.
  { replace s1 with (set_threads (<[t := y']> (threads s1)) s1).
    2: { unfold s1, set_threads. simpl. by rewrite insert_insert_eq. }
    eapply (move_put C s1 l xs (xs ++ [t]) t y' y' h' HI1); try done.
    - intros v. rewrite elem_of_app, list_elem_of_singleton. done.
    - simpl. by rewrite Hdom.
    - apply lookup_insert_eq.
    - apply (listed_cpu (set_threads (<[t := y']> (threads s0)) s0) me x); [done|done|]. by destruct l.
    - exists me. split; [|simpl; rewrite lookup_insert_eq; by eexists]. rewrite Hcpu. exact (i_in _ _ _ t me x y HI Hx Hcur Hy). }
  assert (∀ c, c ≠ me → cpus s1 !! c = cpus s !! c) as Hc1 by (intros; simpl; by rewrite lookup_insert_ne).
  assert (∀ c x1, c ≠ me → cpus s !! c = Some x1 → c_curthread x1 ≠ t) as Hoth.
  { intros c x1 Hne Hx1 E. destruct Hne. by eapply (current_cpu None C s t). }
  eapply (wp_idle_round me t (with_isidle true x) y' (<[l := xs ++ [t]]> C)); try done.
  - eapply tables_frame; try done.
    + intros c. simpl. apply insert_is_Some_iff. by eexists.
    + intros v p. simpl. destruct (decide (t = v)) as [<-|]; [|by rewrite lookup_insert_ne].
      rewrite lookup_insert_eq, Hy. split; intros (? & [= <-] & ?); eexists; (split; [done|congruence]).
  - intros c Hne x1 y1 Hx1 Hy1. simpl in Hx1, Hy1. rewrite lookup_insert_ne in Hx1 by done.
    rewrite lookup_insert_ne in Hy1 by (by apply not_eq_sym, (Hoth c)). intros H1 H2.
    destruct (Hnot c x1 y1 Hx1 Hy1 H1 H2) as [H3 H4]. split; [done|]. destruct H4 as [?|H4]; [by left|right].
    rewrite lookup_insert_ne; [done|]. intros ->. destruct Hli as (_ & _ & E).
    pose proof (i_in _ _ _ _ _ _ _ HI Hx Hcur Hy). congruence.
  - intros c Hne. eapply counts_frame; [apply Hcnt|by apply Hc1|..].
    + intros zs Hzs. destruct (decide (l = Runqueue c)) as [->|].
      * exists (xs ++ [t]). rewrite lookup_insert_eq. split; [done|]. rewrite length_app. simplify_eq. lia.
      * exists zs. by rewrite lookup_insert_ne.
    + rewrite lookup_insert_ne by done. done.
  - by apply parked_mid.
  - apply lookup_insert_eq.
  - apply lookup_insert_eq.
  - rewrite Hfr. done.
Qed.

(** ** The beginning of [thread_switch] *)

Lemma park_sane : sane me t (ints s).
Proof.
  rewrite <- Hcur. eapply acct_sane; [done|]. destruct Hacct. rewrite a_held0. apply held_nonneg.
Qed.

Lemma park_spl : spl_of t (ints s) = (sp, sp + k).
Proof. destruct Hacct. unfold spl_of. rewrite <- Hcur. by rewrite a_spl0. Qed.

Lemma park_k : 0 ≤ k.
Proof. destruct Hacct. rewrite a_held0. apply held_nonneg. Qed.

Lemma park_free : splk_holder (ints s) !! RunqueueLock me = Some None.
Proof.
  destruct Hgood as (_ & _ & _ & _ & [_ _ (A & _)]). apply A. by eexists.
Qed.

(** Up to the test of the run queue. *)
Lemma wp_switch_start {A} (f : Z → positive → positive → bool → M sys A) (g : Z → M sys A) xs
    (Q : A → sys → Prop) :
  C !! Runqueue me = Some xs →
  wp (f sp t me (bool_decide (xs = []))) Q
    (set_ints (locked me t (RunqueueLock me) (high me t (ints s))) s) →
  wp (spl ← splhigh (Some me);
      cur ← curthread me;
      c ← curcpu me;
      z ← cpu_get c;
      if c_isidle z then g spl else
      thread_checkstack cur ;;
      spinlock_acquire (Some me) (RunqueueLock c) ;;
      empty ← in_tl (threadlist_isempty (Runqueue c));
      f spl cur c empty) Q s.
Proof.
  intros HC HQ. pose proof park_here as Hh. pose proof park_sane as Hs. pose proof park_free as Hf.
  destruct Hgood as (HI & _). apply wp_bind. eapply wp_splhigh; [done|done|rewrite park_spl; apply Hacct|].
  rewrite park_spl. simpl. apply wp_bind. eapply wp_curthread; [done|]. apply wp_bind.
  eapply wp_curcpu; [done|]. apply wp_bind. eapply wp_cpu_get; [done|]. rewrite Hidle. apply wp_bind.
  eapply wp_checkstack; [done|by apply (h_magic _ _ _ _ (i_thread _ _ _ HI t y Hy ltac:(done)))|]. apply wp_bind. eapply (wp_acquire_lock me t); [done|by apply sane_high|..].
  { unfold high. by destruct (_ =? _). }
  apply wp_bind, wp_in_tl. eapply threadlist_isempty_spec; [apply (i_rep _ _ _ HI)|done|].
  simpl. by destruct s.
Qed.

(** ** Yielding *)

Lemma wp_yield xs (Q : unit → sys → Prop) :
  k = 0 → C !! Runqueue me = Some xs →
  (xs = [] → Q tt s) →
  (xs ≠ [] → ∀ s' C', good C' s' → dispatched (<[Runqueue me := xs ++ [t]]> C) C' s' me t → Q tt s') →
  wp (thread_yield me) Q s.
Proof.
  intros Hk HC HQ1 HQ2. pose proof park_here as Hh. pose proof park_sane as Hs. pose proof park_free as Hf.
  pose proof park_spl as Hspl. destruct Hgood as (HI & _). pose proof Hacct as [A1 A2 A3 A4 A5 A6 A7 A8 A9 Ah A10 A11 A12].
  unfold thread_yield, thread_switch. eapply wp_switch_start; [done|]. rewrite bool_decide_true by done. cbn [andb].
  destruct (bool_decide_reflect (xs = [])) as [Hxs|Hxs].
  - apply wp_bind. eapply (wp_release_locked me t); [done|done|by apply sane_high|..].
    { unfold high. by destruct (_ =? _). }
    apply wp_bind. replace sp with (fst (spl_of t (ints s))) by by rewrite Hspl.
    eapply (wp_splx_high me t (ints s)); [done|done|done|rewrite Hspl; done|rewrite Hspl; simpl; lia|].
    intros _. apply wp_ret. specialize (HQ1 Hxs). by destruct s.
  - assert (t_spl (ints s) !! t = Some (sp, sp)) as B1 by (rewrite Hcur, Hk, Z.add_0_r in A1; done).
    rewrite (locked_high me t sp) by (done || congruence).
    set (hs := <[RunqueueLock me := Some me]> (splk_holder (ints s))).
    assert (here me t (set_ints (parked_ints me t hs (ints s)) s)) as Hh' by done.
    destruct (i_thread _ _ _ HI t y Hy) as [_ Hm _ Hp]; [done|].
    pose proof (i_in _ _ _ t me x y HI Hx Hcur Hy) as Hyc.
    apply wp_bind. unfold thread_make_runnable. apply wp_bind. eapply wp_thread_get; [done|].
    apply wp_bind. eapply wp_deref; [done|]. apply wp_bind, wp_bind.
    eapply wp_holds_lock; [done|apply lookup_insert_eq|].
    apply wp_KASSERT; [by apply bool_decide_true|]. apply wp_bind. eapply wp_thread_upd; [done|]. apply wp_bind, wp_in_tl.
    eapply threadlist_addtail_spec; [apply (i_rep _ _ _ HI)|done|apply elem_of_dom; by eexists|..].
    { destruct (i_cpu _ _ _ HI me x Hx) as (y0 & Hy0 & Hok). rewrite <- Hcur. by apply Hok. }
    intros h' HR. apply wp_bind. eapply wp_cpu_get; [done|]. rewrite Hidle. apply wp_bind, wp_ret, wp_ret, wp_bind.
    eapply wp_thread_upd; [simpl; apply lookup_insert_eq|]. apply wp_bind.
    eapply wp_thread_upd; [simpl; apply lookup_insert_eq|]. apply wp_bind.
    eapply wp_cpu_upd; [done|]. simpl. rewrite !insert_insert_eq.
    eapply (wp_parked (Runqueue me) xs (with_local sp (with_state S_READY (with_state S_READY y))) hs h');
      try done.
    + rewrite (held_acquire me me (ints s) _ (RunqueueLock me)), decide_True by done. lia.
    + intros c Hne. rewrite (held_acquire c me (ints s) _ (RunqueueLock me)), decide_False by done. lia.
    + apply lookup_insert_eq.
    + intros lc _ Hne. unfold hs. by rewrite lookup_insert_ne.
    + rewrite lookup_insert_eq. destruct xs; done.
    + by apply HQ2.
Qed.

(** ** Sleeping *)

Lemma wp_sleep w lk wn ws (Q : unit → sys → Prop) :
  k = 1 → splk_holder (ints s) !! Spin lk = Some (Some me) → wchans s !! w = Some wn →
  C !! Channel w = Some ws → t_frames y = [] →
  (∀ s' C', good C' s' → dispatched (<[Channel w := ws ++ [t]]> C) C' s' me t → Q tt s') →
  wp (thread_switch me S_SLEEP (Some (w, lk))) Q s.
Proof.
  intros Hk Hlk Hw HC Hfr HQ. pose proof park_here as Hh. pose proof park_sane as Hs. pose proof park_free as Hf.
  pose proof park_spl as Hspl. destruct Hgood as (HI & _). pose proof Hacct as [A1 A2 A3 A4 A5 A6 A7 A8 A9 Ah A10 A11 A12].
  destruct (proj1 (i_lists _ _ _ HI) me) as [_ [xs Hxs]]; [by eexists|].
  unfold thread_switch. eapply wp_switch_start; [done|]. rewrite bool_decide_false by done. cbn [andb].
  set (i1 := locked me t (RunqueueLock me) (high me t (ints s))).
  assert (spl_of t i1 = (1, 3) ∧ locks_of me i1 = 2) as [E1 E2].
  { unfold i1. rewrite locked_spl by by apply sane_high. rewrite locked_locks. unfold high, locks_of.
    rewrite Hspl, Hk. destruct A2 as [-> | ->]; simpl; [|by rewrite Hspl, A3, Hk].
    unfold spl_of. simpl. rewrite lookup_insert_eq, A3, Hk. done. }
  assert (splk_holder i1 = <[RunqueueLock me := Some me]> (splk_holder (ints s))) as Hi1.
  { unfold i1, locked, adjust, high. simpl. by destruct (_ =? _). }
  apply wp_bind, wp_bind. eapply wp_deref; [done|]. apply wp_bind, wp_gets, wp_bind. eapply wp_deref; [done|].
  apply wp_bind. eapply wp_thread_upd; [done|]. apply wp_bind, wp_in_tl.
  eapply threadlist_addtail_spec; [apply (i_rep _ _ _ HI)|done|apply elem_of_dom; by eexists|..].
  { destruct (i_cpu _ _ _ HI me x Hx) as (y0 & Hy0 & Hok). rewrite <- Hcur. by apply Hok. }
  intros h' HR. apply wp_bind.
  eapply (wp_release_lock me t);
    [by eapply (here_thread me t (set_ints i1 s) t y)|by apply sane_locked, sane_high|simpl; fold i1..].
  { rewrite lookup_insert_ne by done. unfold high. by destruct (_ =? _). }
  { by rewrite E1. }
  { by rewrite E2. }
  simpl. unfold i1. rewrite (locked_high_unlocked me t sp) by (rewrite <- ?Hcur, ?A1, ?A3, ?Hk; done).
  eapply wp_thread_upd; [simpl; apply lookup_insert_eq|]. simpl. rewrite insert_insert_eq. apply wp_bind.
  eapply wp_thread_upd; [simpl; apply lookup_insert_eq|]. simpl. rewrite insert_insert_eq. apply wp_bind.
  eapply wp_thread_upd; [simpl; apply lookup_insert_eq|]. simpl. rewrite insert_insert_eq. apply wp_bind.
  eapply wp_cpu_upd; [done|]. simpl. set (y' := with_local sp _).
  set (hs1 := <[RunqueueLock me := Some me]> (splk_holder (ints s))).
  set (i2 := mkInterrupts (t_spl (ints s)) (c_spinlocks (ints s)) (c_irq (ints s)) hs1).
  assert (∀ c, held_by c (parked_ints me t (<[Spin lk := None]> hs1) (ints s)) = held_by c (ints s)) as Hheld.
  { intros c. rewrite (held_release c me i2 _ (Spin lk)); [|simpl; unfold hs1; by rewrite lookup_insert_ne|done].
    rewrite (held_acquire c me (ints s) i2 (RunqueueLock me)) by done. lia. }
  eapply (wp_parked (Channel w) ws y' (<[Spin lk := None]> hs1) h'); try done.
  - destruct (i_thread _ _ _ HI t y Hy) as [_ Hm _ Hp]; [done|]. by split.
  - rewrite Hheld, <- A4. done.
  - unfold hs1. rewrite lookup_insert_ne by done. apply lookup_insert_eq.
  - intros lc H1 H2. unfold hs1. rewrite !lookup_insert_ne by congruence. done.
Qed.

(** ** Exiting *)

Lemma wp_die (Q : unit → sys → Prop) :
  k = 0 → t_proc y = None → t_frames y = [] →
  (∀ s' C' zs, C !! Zombies me = Some zs → good C' s' →
     dispatched (<[Zombies me := zs ++ [t]]> C) C' s' me t → Q tt s') →
  wp (thread_switch me S_ZOMBIE None) Q s.
Proof.
  intros Hk Hproc Hfr HQ. pose proof park_here as Hh. pose proof park_sane as Hs. pose proof park_free as Hf.
  pose proof park_spl as Hspl. destruct Hgood as (HI & _). pose proof Hacct as [A1 A2 A3 A4 A5 A6 A7 A8 A9 Ah A10 A11 A12].
  destruct (proj1 (i_lists _ _ _ HI) me) as [[zs Hzs] [xs Hxs]]; [by eexists|].
  unfold thread_switch. eapply wp_switch_start; [done|]. rewrite bool_decide_false by done. cbn [andb].
  assert (t_spl (ints s) !! t = Some (sp, sp)) as B1 by (rewrite Hcur, Hk, Z.add_0_r in A1; done).
  rewrite (locked_high me t sp) by (done || congruence).
  apply wp_bind, wp_bind. eapply wp_thread_upd; [done|]. apply wp_in_tl.
  eapply threadlist_addtail_spec; [apply (i_rep _ _ _ HI)|done|apply elem_of_dom; by eexists|..].
  { destruct (i_cpu _ _ _ HI me x Hx) as (y0 & Hy0 & Hok). rewrite <- Hcur. by apply Hok. }
  intros h' HR. simpl. apply wp_bind.
  eapply wp_thread_upd; [simpl; apply lookup_insert_eq|]. simpl. rewrite insert_insert_eq. apply wp_bind.
  eapply wp_thread_upd; [simpl; apply lookup_insert_eq|]. simpl. rewrite insert_insert_eq. apply wp_bind.
  eapply wp_cpu_upd; [done|]. simpl. set (y' := with_local sp _).
  set (hs := <[RunqueueLock me := Some me]> (splk_holder (ints s))).
  eapply (wp_parked (Zombies me) zs y' hs h'); try done.
  - split; [by eexists|]. split; [done|]. split; [|done]. exact (i_in _ _ _ t me x y HI Hx Hcur Hy).
  - destruct (i_thread _ _ _ HI t y Hy) as [_ Hm _ Hp]; [done|]. by split.
  - rewrite (held_acquire me me (ints s) _ (RunqueueLock me)), decide_True by done. lia.
  - intros c Hne. rewrite (held_acquire c me (ints s) _ (RunqueueLock me)), decide_False by done. lia.
  - apply lookup_insert_eq.
  - intros lc _ Hne. unfold hs. by rewrite lookup_insert_ne.
  - intros s' C' Hg' Hd. by eapply HQ.
Qed.

End park.

(** A processor that idles returns from [thread_switch] at once. *)
Lemma wp_switch_idle me x y C s st wc sp k (Q : unit → sys → Prop) :
  inv None C s → cpus s !! me = Some x → threads s !! c_curthread x = Some y → c_isidle x = true →
  acct_cur s me x y sp k → Q tt s → wp (thread_switch me st wc) Q s.
Proof.
  intros HI Hx Hy Hid Ha HQ. pose proof (inv_here _ _ _ me x HI Hx) as Hh.
  assert (0 ≤ k) as Hk by (rewrite (a_held _ _ _ _ _ _ Ha); apply held_nonneg).
  pose proof (acct_sane _ _ _ _ _ _ Ha Hk) as Hs. destruct Ha as [A1 A2 A3 A4 A5 A6 A7 A8 A9 Ah A10 A11 A12].
  assert (spl_of (c_curthread x) (ints s) = (sp, sp + k)) as Hspl by (unfold spl_of; by rewrite A1).
  unfold thread_switch. apply wp_bind. eapply wp_splhigh; [done|done|by rewrite Hspl|].
  apply wp_bind. eapply wp_curthread; [done|]. apply wp_bind. eapply wp_curcpu; [done|].
  apply wp_bind. eapply wp_cpu_get; [done|]. rewrite Hid. apply wp_bind.
  eapply (wp_splx_high me (c_curthread x) (ints s)); [done|done|done|by rewrite Hspl|rewrite Hspl; simpl; lia|].
  intros _. apply wp_ret. by destruct s.
Qed.
End ThreadPark.
