(* ===== verification/ThreadChanges.v ===== *)
(** * Changes that keep the invariant of the thread system

    Changes of one processor, one thread or the accounting of one processor. *)

From Stdlib Require Import ZArith Lia.
From stdpp Require Import base numbers list gmap strings.
From S2P Require Import Prelude Tlb Array Threadlist Thread ThreadInts ThreadSystem ThreadMoves ThreadSteps ThreadSwitch.

Module ThreadChanges.
Import Threadlist Thread ThreadInts ThreadSystem ThreadMoves ThreadSteps ThreadSwitch.
Implicit Types (C : gmap listid (list positive)) (s : sys) (X : option positive).

(** The accounting of other processors and threads, where only processor [me] and
    its thread [t] change. *)
Record local_ints (me t : positive) (i i' : interrupts) : Prop := {
  l_spl : ∀ v, v ≠ t → t_spl i' !! v = t_spl i !! v;
  l_locks : ∀ c, c ≠ me → c_spinlocks i' !! c = c_spinlocks i !! c;
  l_irq : ∀ c, c ≠ me → c_irq i' !! c = c_irq i !! c;
  l_held : ∀ c, c ≠ me → held_by c i' = held_by c i;
  l_hold : ∀ lc, (∀ n, lc ≠ Spin n) → splk_holder i' !! lc = splk_holder i !! lc;
}.

Lemma local_refl me t i : local_ints me t i i.
Proof. by split. Qed.

(** Processor [me] and its thread change, the other processors and threads do not. *)
Lemma acct_local C s s' me x x' y' sp' k' :
  inv None C s → acct s → cpus s !! me = Some x →
  local_ints me (c_curthread x) (ints s) (ints s') → (∀ p, is_Some (procs s' !! p) → is_Some (procs s !! p)) →
  (∀ c, c ≠ me → cpus s' !! c = cpus s !! c) → cpus s' !! me = Some x' → c_curthread x' = c_curthread x →
  (∀ v y, v ≠ c_curthread x → threads s' !! v = Some y → threads s !! v = Some y) →
  threads s' !! c_curthread x = Some y' → acct_cur s' me x' y' sp' k' →
  acct s'.
Proof.
  intros HI [A1 A2 (A3 & A4 & A5) A6] Hx [L1 L2 L3 L4 L5] Hp Hc Hx' Hcur Hth Hy' Ha.
  assert (∀ c x1, c ≠ me → cpus s !! c = Some x1 → c_curthread x1 ≠ c_curthread x) as Hoth.
  { intros c x1 Hne Hx1 E. destruct Hne. by eapply (current_cpu None C s (c_curthread x)). }
  split.
  - intros c x1 y1 Hx1 Hy1. destruct (decide (c = me)) as [->|Hne].
    + exists sp', k'. assert (x1 = x') as -> by congruence. rewrite Hcur in Hy1. assert (y1 = y') as -> by congruence.
      done.
    + rewrite Hc in Hx1 by done. pose proof (Hoth c x1 Hne Hx1) as Hnt.
      destruct (A1 c x1 y1 Hx1) as (sp & k & Ha1); [by apply Hth|]. exists sp, k.
      eapply acct_cur_frame; try done; auto.
  - intros v y Hy Hnc. assert (v ≠ c_curthread x) as Hnt.
    { intros ->. destruct Hnc. by exists me, x'. }
    eapply acct_away_frame; [apply A2; [by apply Hth|]|by apply L1|done..].
    intros (c & x1 & Hx1 & Hcx). destruct (decide (c = me)) as [->|]; [congruence|].
    destruct Hnc. exists c, x1. by rewrite Hc.
  - split; [|split].
    + intros c Hcs. assert (is_Some (cpus s !! c)) as Hcs'.
      { destruct (decide (c = me)) as [->|]; [by eexists|]. by rewrite <- Hc. }
      destruct (A3 c Hcs'). by rewrite !L5.
    + intros p Hps%Hp. rewrite L5 by done. auto.
    + by rewrite L5.
  - intros c Hcn. assert (c ≠ me) by congruence. rewrite L4, A6 by (rewrite <- ?Hc; done). done.
Qed.

Lemma acct_same s s' :
  acct s → ints s' = ints s → cpus s' = cpus s → threads s' = threads s → procs s' = procs s → acct s'.
Proof.
  intros [A1 A2 A3 A4] E1 E2 E3 E4. split; rewrite ?E1, ?E2, ?E3, ?E4; try done.
  - intros c x y Hx Hy. destruct (A1 c x y Hx Hy) as (sp & k & Ha). exists sp, k.
    eapply acct_cur_frame; [done|by rewrite ?E1..].
  - intros t y Hy Hnc. eapply acct_away_frame; [apply A2; [done|]|by rewrite ?E1|done..].
    unfold current in *. by rewrite E2 in Hnc.
Qed.

Section local.
Context (C : gmap listid (list positive)) (s : sys) (me : positive) (x : cpu) (y : thread) (sp k : Z).
Hypothesis Hgood : good C s.
Hypothesis Hx : cpus s !! me = Some x.
Hypothesis Hy : threads s !! c_curthread x = Some y.
Hypothesis Hacct : acct_cur s me x y sp k.

Lemma local_inv : inv None C s.
Proof. apply Hgood. Qed.

Lemma local_here : here me (c_curthread x) s.
Proof. by apply (inv_here None C); [apply Hgood|]. Qed.

Lemma local_k : 0 ≤ k.
Proof. rewrite (a_held _ _ _ _ _ _ Hacct). apply held_nonneg. Qed.

Lemma local_sane : sane me (c_curthread x) (ints s).
Proof. eapply acct_sane; [done|]. apply local_k. Qed.

Lemma local_spl : spl_of (c_curthread x) (ints s) = (sp, sp + k).
Proof. unfold spl_of. by rewrite (a_spl _ _ _ _ _ _ Hacct). Qed.

Lemma local_held : locks_of me (ints s) = k.
Proof. unfold locks_of. by rewrite (a_locks _ _ _ _ _ _ Hacct). Qed.

Lemma local_cpu_ok : cpu_ok C me x y.
Proof. destruct (i_cpu _ _ _ local_inv me x Hx) as (y0 & Hy0 & Hok). congruence. Qed.

(** The accounting of the processor changes. *)
Lemma good_ints i' sp' k' :
  local_ints me (c_curthread x) (ints s) i' → acct_cur (set_ints i' s) me x y sp' k' →
  good C (set_ints i' s).
Proof.
  intros Hl Ha. destruct Hgood as (HI & Hn & Hc & Ht & Hac). split; [|split; [done|split; [done|split]]].
  - eapply inv_same; [exact HI|done|done|..]; intros; simpl in *; by simplify_eq.
  - by eapply tables_frame.
  - by eapply (acct_local C s).
Qed.

(** The executing thread changes in ways that do not concern where threads are. *)
Lemma good_thread y' i' sp' k' :
  tkeep y y' → tgood y' → local_ints me (c_curthread x) (ints s) i' →
  (c_isidle x = true → c_waiting x = true → t_frames y' = []) →
  acct_cur (set_ints i' s) me x y' sp' k' →
  good C (set_threads (<[c_curthread x := y']> (threads s)) (set_ints i' s)).
Proof.
  intros Hk Hg Hl Hw Ha. destruct Hgood as (HI & Hn & Hc & Ht & Hac). split; [|split; [|split; [done|split]]].
  - assert (inv None C (set_ints i' s)) as HI'.
    { eapply inv_same; [exact HI|done|done|..]; intros; simpl in *; by simplify_eq. }
    by eapply (inv_thread None C (set_ints i' s) _ y).
  - intros c x1 y1 Hx1 Hy1 H1 H2. simpl in *. apply lookup_insert_Some in Hy1 as [[E <-]|[Hne Hy1]].
    + assert (c = me) as -> by (by eapply (current_cpu None C s (c_curthread x))).
      assert (x1 = x) as -> by congruence. destruct (Hn me x y Hx Hy H1 H2) as [_ ?]. auto.
    + by apply (Hn c x1).
  - eapply tables_frame; try done. intros v p. simpl. destruct (decide (c_curthread x = v)) as [<-|].
    + rewrite lookup_insert_eq, Hy. destruct Hk as (_ & _ & E).
      split; intros (? & [= <-] & ?); eexists; (split; [done|congruence]).
    + by rewrite lookup_insert_ne.
  - eapply (acct_local C s _ me x x y' sp' k'); try done.
    + intros v yv Hne. simpl. by rewrite lookup_insert_ne.
    + simpl. apply lookup_insert_eq.
    + destruct Ha. split; done.
Qed.

(** The phase of the processor changes, and no thread is in its hand. *)
Lemma good_phase x' :
  c_curthread x' = c_curthread x → c_isidle x' = c_isidle x → c_tlb x' = c_tlb x → c_status x' = Online →
  c_shootdown x' = c_shootdown x → c_numshootdown x' = c_numshootdown x →
  private_ok C s me (c_phase x') →
  (∀ t, c_phase x ≠ WakingOne t) → (∀ t, c_phase x' ≠ WakingOne t) →
  phase_counts C me (c_phase x') →
  (c_isidle x = true → c_waiting x' = true → t_frames y = [] ∧ (c_line x' = true ∨ C !! Runqueue me = Some [])) →
  (c_phase x' ≠ Free → c_isidle x = true ∨ handler_phase (c_phase x') = true → t_frames y ≠ []) →
  (c_phase x' ≠ Free → handler_phase (c_phase x') = false → 0 < k) →
  (handler_phase (c_phase x') = true → k = 0) →
  good C (set_cpus (<[me := x']> (cpus s)) s).
Proof.
  intros E1 E2 E3 Hon E4 E5 Hp Hw Hw' Hc' Hn' Hph1 Hph2 Hph3. destruct Hgood as (HI & Hn & Hc & Ht & Hac).
  assert (∀ c, c ≠ me → <[me := x']> (cpus s) !! c = cpus s !! c) as Hoth by (intros; by rewrite lookup_insert_ne).
  split; [|split; [|split; [|split]]].
  - eapply (move_phase None None C s me x x'); try done. right. left. done.
  - intros c x1 y1 Hx1 Hy1. simpl in *. destruct (decide (c = me)) as [->|Hne].
    + rewrite lookup_insert_eq in Hx1. injection Hx1 as <-. rewrite E2. rewrite E1, Hy in Hy1. injection Hy1 as <-. done.
    + rewrite Hoth in Hx1 by done. by apply (Hn c x1).
  - intros c x1 Hx1. simpl in *. destruct (decide (c = me)) as [->|Hne].
    + rewrite lookup_insert_eq in Hx1. injection Hx1 as <-. done.
    + rewrite Hoth in Hx1 by done. by apply (Hc c x1).
  - eapply tables_frame; try done. intros c. simpl. apply insert_is_Some_iff. by eexists.
  - eapply (acct_local C s _ me x x' y sp k); try done; [simpl; apply lookup_insert_eq|].
    destruct Hacct as [A1 A2 A3 A4 A5 A6 A7 A8 A9 Ah A10 A11 A12]. split; rewrite ?E1, ?E2; try done. congruence.
Qed.

End local.

(** A processor changes in ways that do not concern where threads are. *)
Lemma good_cpu C s c x x' :
  good C s → cpus s !! c = Some x → ckeep x x' →
  Tlb.tlb_wf (c_tlb x') ∧ Tlb.tlb_spinlock (c_tlb x') = false →
  Z.of_nat (length (c_shootdown x')) = TLBSHOOTDOWN_MAX ∧
    TLBSHOOTDOWN_ALL ≤ c_numshootdown x' ≤ TLBSHOOTDOWN_MAX →
  (c_status x' = Unstarted → c_status x = Unstarted) →
  (c_waiting x' = true → c_waiting x = true) → (c_line x = true → c_line x' = true ∨ c_waiting x' = false) →
  good C (set_cpus (<[c := x']> (cpus s)) s).
Proof.
  intros (HI & Hn & Hc & Ht & Hac) Hx Hk Htlb Hsh Hst Hw Hli. pose proof Hk as (E1 & E2 & E3).
  assert (∀ c', c' ≠ c → <[c := x']> (cpus s) !! c' = cpus s !! c') as Hoth by (intros; by rewrite lookup_insert_ne).
  split; [|split; [|split; [|split]]].
  - by eapply inv_cpu.
  - intros c' x1 y1 Hx1 Hy1 H1 H2. simpl in *. destruct (decide (c' = c)) as [->|Hne].
    + rewrite lookup_insert_eq in Hx1. injection Hx1 as <-. rewrite E1 in Hy1. rewrite E2 in H1.
      destruct (Hn c x y1 Hx Hy1 H1 (Hw H2)) as [H3 [H4|H4]]; [|auto].
      split; [done|]. destruct (Hli H4); [by left|congruence].
    + rewrite Hoth in Hx1 by done. by apply (Hn c' x1).
  - intros c' x1 Hx1. simpl in *. destruct (decide (c' = c)) as [->|Hne].
    + rewrite lookup_insert_eq in Hx1. injection Hx1 as <-. rewrite E3. by apply Hc.
    + rewrite Hoth in Hx1 by done. by apply (Hc c' x1).
  - eapply tables_frame; try done. intros c'. simpl. apply insert_is_Some_iff. by eexists.
  - destruct (i_cpu _ _ _ HI c x Hx) as (y & Hy & _). destruct (c_cur _ Hac c x y Hx Hy) as (sp & k & Ha).
    eapply (acct_local C s _ c x x' y sp k); try done; [simpl; apply lookup_insert_eq|].
    destruct Ha as [A1 A2 A3 A4 A5 A6 A7 A8 A9 Ah A10 A11 A12]. split; rewrite ?E1, ?E2, ?E3; auto.
Qed.

(** ** Moving threads *)

(** What moving a thread keeps of it. *)
Definition trel (y y' : thread) : Prop :=
  t_frames y' = t_frames y ∧ t_in_interrupt y' = t_in_interrupt y ∧ t_local y' = t_local y ∧
  t_context y' = t_context y ∧ t_point y' = t_point y ∧ t_proc y' = t_proc y.

(** A processor that may have been sent an interrupt. *)
Definition told (x x' : cpu) : Prop :=
  ckeep x x' ∧ c_status x' = c_status x ∧ c_waiting x' = c_waiting x ∧ (c_line x = true → c_line x' = true).

(** What happens to a processor other than the acting one: threads are added to
    its run queue, and it is told when it idles. *)
Definition shifted C C' s s' (c : positive) : Prop :=
  ∀ x, cpus s !! c = Some x →
    C' !! Private c = C !! Private c ∧
    ∃ x', cpus s' !! c = Some x' ∧ told x x' ∧
      (C' !! Runqueue c = C !! Runqueue c ∨
       (∃ q q', C !! Runqueue c = Some q ∧ C' !! Runqueue c = Some (q ++ q')) ∧
       (c_isidle x = true → c_line x' = true)).

#[global] Instance trel_refl : Reflexive trel.
Proof. by repeat split. Qed.
#[global] Instance trel_trans : Transitive trel.
Proof. intros ??? (?&?&?&?&?&?) (?&?&?&?&?&?). repeat split; congruence. Qed.
#[global] Instance told_refl : Reflexive told.
Proof. by repeat split. Qed.
#[global] Instance told_trans : Transitive told.
Proof.
  intros x1 x2 x3 (K1 & E1 & E2 & E3) (K2 & F1 & F2 & F3). split; [by transitivity x2|].
  split; [congruence|]. split; [congruence|auto].
Qed.

(** A move that processor [me] makes in code that is not the idle loop's. *)
Record moved (me : positive) C C' s s' (x x' : cpu) (y : thread) (k : Z) : Prop := {
  v_cpu : cpus s !! me = Some x;
  v_cpu' : cpus s' !! me = Some x';
  v_cur : c_curthread x' = c_curthread x ∧ c_isidle x' = c_isidle x ∧ c_status x' = Online ∧ c_waiting x' = c_waiting x;
  v_busy : c_isidle x = true → t_frames y ≠ [];
  v_others : ∀ c, c ≠ me → shifted C C' s s' c;
  v_dom : ∀ c, is_Some (cpus s' !! c) → is_Some (cpus s !! c);
  v_threads : ∀ v, option_Forall2 trel (threads s !! v) (threads s' !! v);
  v_rest : ints s' = ints s ∧ allcpus s' = allcpus s ∧ allwchans s' = allwchans s ∧ wchans s' = wchans s ∧
    procs s' = procs s ∧ kproc s' = kproc s ∧ ls_uniprocessor s' = ls_uniprocessor s;
  v_counts : phase_counts C' me (c_phase x');
  v_phase : c_phase x' ≠ Free → handler_phase (c_phase x') = true → t_frames y ≠ [];
  v_waking : c_phase x' ≠ Free → handler_phase (c_phase x') = false → 0 < k;
  v_handler : handler_phase (c_phase x') = true → k = 0;
}.

Lemma trel_fwd s s' v y :
  (∀ v, option_Forall2 trel (threads s !! v) (threads s' !! v)) → threads s !! v = Some y →
  ∃ y', threads s' !! v = Some y' ∧ trel y y'.
Proof. intros H Hy. specialize (H v). rewrite Hy in H. inversion H; eauto. Qed.
Lemma trel_bwd s s' v y' :
  (∀ v, option_Forall2 trel (threads s !! v) (threads s' !! v)) → threads s' !! v = Some y' →
  ∃ y, threads s !! v = Some y ∧ trel y y'.
Proof. intros H Hy. specialize (H v). rewrite Hy in H. inversion H; eauto. Qed.

Section moved.
Context (me : positive) (C C' : gmap listid (list positive)) (s s' : sys) (x x' : cpu) (y : thread) (sp k : Z).
Hypothesis Hgood : good C s.
Hypothesis Hy : threads s !! c_curthread x = Some y.
Hypothesis Hacct : acct_cur s me x y sp k.
Hypothesis Hinv : inv None C' s'.
Hypothesis Hm : moved me C C' s s' x x' y k.

Lemma moved_cpu c x1' :
  c ≠ me → cpus s' !! c = Some x1' →
  ∃ x1, cpus s !! c = Some x1 ∧ told x1 x1' ∧ C' !! Private c = C !! Private c ∧
    (C' !! Runqueue c = C !! Runqueue c ∨
     (∃ q q', C !! Runqueue c = Some q ∧ C' !! Runqueue c = Some (q ++ q')) ∧
     (c_isidle x1 = true → c_line x1' = true)).
Proof.
  intros Hne Hx1'. destruct Hm as [M1 M2 M3 M4 M5 M6 M7 M8 M9 M10 M11 M12].
  destruct (M6 c) as [x1 Hx1]; [by eexists|]. exists x1. split; [done|].
  destruct (M5 c Hne x1 Hx1) as (HP & x2 & Hx2 & Ht & Hq). assert (x2 = x1') as -> by congruence. done.
Qed.

Lemma moved_current v : current s v ↔ current s' v.
Proof.
  destruct Hm as [M1 M2 (M3 & _) M4 M5 M6 M7 M8 M9 M10 M11 M12]. split; intros (c & x1 & Hx1 & E).
  - destruct (decide (c = me)) as [->|Hne]; [exists me, x'; split; [done|congruence]|].
    destruct (M5 c Hne x1 Hx1) as (_ & x2 & Hx2 & ((Hk & _) & _) & _). exists c, x2. split; [done|congruence].
  - destruct (decide (c = me)) as [->|Hne]; [exists me, x; split; [done|congruence]|].
    destruct (moved_cpu c x1 Hne Hx1) as (x2 & Hx2 & ((Hk & _) & _) & _). exists c, x2. split; [done|congruence].
Qed.

Lemma moved_notified : notified C' s'.
Proof.
  destruct Hm as [M1 M2 (M31 & M32 & M33 & M34) M4 M5 M6 M7 M8 M9 M10 M11 M12]. pose proof Hgood as (_ & Hn & _).
  intros c x1' y1' Hx1' Hy1' Hid Hw. destruct (trel_bwd _ _ _ _ M7 Hy1') as (y1 & Hy1 & (Hf & _)). rewrite Hf.
  destruct (decide (c = me)) as [->|Hne].
  - assert (x1' = x') as -> by congruence. rewrite M31, Hy in Hy1. injection Hy1 as <-.
    destruct M4; [congruence|]. apply (Hn me x y); congruence.
  - destruct (moved_cpu c x1' Hne Hx1') as (x1 & Hx1 & ((E1 & E2 & E3) & E4 & E5 & E6) & _ & Hq).
    rewrite E1 in Hy1. destruct (Hn c x1 y1) as [Hf1 Hl]; [congruence..|]. split; [done|].
    destruct Hq as [->|[_ Hl']]; [destruct Hl; auto|left; apply Hl'; congruence].
Qed.

Lemma moved_counts : counts C' s'.
Proof.
  destruct Hm as [M1 M2 (M31 & M32 & M33 & M34) M4 M5 M6 M7 M8 M9 M10 M11 M12]. pose proof Hgood as (_ & _ & Hc & _).
  intros c x1' Hx1'. destruct (decide (c = me)) as [->|Hne]; [congruence|].
  destruct (moved_cpu c x1' Hne Hx1') as (x1 & Hx1 & ((E1 & E2 & E3) & _) & HP & Hq). rewrite E3.
  specialize (Hc c x1 Hx1). destruct (c_phase x1); simpl in *; try done; [|by rewrite HP].
  destruct Hq as [->|[(q & q' & Hq & ->) _]]; [done|]. rewrite Hq in Hc. simpl in *. rewrite length_app. lia.
Qed.

Lemma moved_acct : acct s'.
Proof.
  destruct Hm as [M1 M2 (M31 & M32 & M33 & M34) M4 M5 M6 M7 (Hi & _ & _ & _ & Hpr & _) M9 M10 M11 M12].
  pose proof Hgood as (_ & _ & _ & _ & [B1 B2 (B3 & B4 & B5) B6]). split.
  - intros c x1' y1' Hx1' Hy1'. destruct (trel_bwd _ _ _ _ M7 Hy1') as (y1 & Hy1 & (F1 & F2 & F3 & F4 & F5 & F6)).
    destruct (decide (c = me)) as [->|Hne].
    + assert (x1' = x') as -> by congruence. rewrite M31, Hy in Hy1. injection Hy1 as <-.
      exists sp, k. destruct Hacct as [A1 A2 A3 A4 A5 A6 A7 A8 A9 Ah A10 A11 A12].
      split; unfold frames_ok in *; rewrite ?Hi, ?M31, ?M32, ?F1, ?F2, ?F3, ?F5; try done; [|congruence].
      intros Hp [Hid|Hh]; auto.
    + destruct (moved_cpu c x1' Hne Hx1') as (x1 & Hx1 & ((E1 & E2 & E3) & E4 & _) & _).
      rewrite E1 in Hy1. destruct (B1 c x1 y1 Hx1 Hy1) as (sp1 & k1 & Ha). exists sp1, k1.
      eapply acct_cur_frame; try done; by rewrite ?Hi, ?E1.
  - intros v y' Hy' Hnc. destruct (trel_bwd _ _ _ _ M7 Hy') as (y1 & Hy1 & (F1 & F2 & F3 & F4 & F5 & F6)).
    eapply acct_away_frame; [apply B2; [done|by rewrite moved_current]|by rewrite Hi|done..].
  - rewrite Hi, Hpr. split; [|done]. intros c Hc%M6. auto.
  - intros c Hc. rewrite Hi. apply B6. destruct (cpus s !! c) as [x1|] eqn:Hx1; [|done].
    destruct (decide (c = me)) as [->|Hne]; [congruence|].
    destruct (M5 c Hne x1 Hx1) as (_ & x2 & Hx2 & _). congruence.
Qed.

Lemma good_moved : good C' s'.
Proof.
  split; [done|]. split; [apply moved_notified|]. split; [apply moved_counts|]. split; [|apply moved_acct].
  destruct Hm as [M1 M2 M3 M4 M5 M6 M7 (_ & E2 & E3 & E4 & E5 & E6 & E7) M9 M10 M11 M12].
  pose proof Hgood as (_ & _ & _ & Ht & _). eapply tables_frame; try done.
  - intros c. split; [apply M6|]. intros [x1 Hx1]. destruct (decide (c = me)) as [->|Hne]; [by eexists|].
    destruct (M5 c Hne x1 Hx1) as (_ & x2 & ? & _). by eexists.
  - intros v p. split.
    + intros (y1' & Hy1' & E). destruct (trel_bwd _ _ _ _ M7 Hy1') as (y1 & Hy1 & (F1 & F2 & F3 & F4 & F5 & F6)).
      exists y1. split; [done|congruence].
    + intros (y1 & Hy1 & E). destruct (trel_fwd _ _ _ _ M7 Hy1) as (y1' & Hy1' & (F1 & F2 & F3 & F4 & F5 & F6)).
      exists y1'. split; [done|congruence].
Qed.

End moved.

End ThreadChanges.
