(* ===== verification/ThreadActions.v ===== *)
(** * The actions keep the invariant

    Locks, interrupt priority, interrupts, interprocessor interrupts, the clock,
    and everything that switches threads. *)

From Stdlib Require Import ZArith Lia.
From stdpp Require Import base numbers list gmap strings.
From S2P Require Import Prelude Tlb Array Threadlist Thread ThreadInts ThreadSystem ThreadMoves ThreadSteps ThreadSwitch ThreadPark ThreadChanges.

Module ThreadActions.
Import Threadlist Thread ThreadInts ThreadSystem ThreadMoves ThreadSteps ThreadSwitch ThreadPark ThreadChanges.
Implicit Types (C : gmap listid (list positive)) (s : sys) (X : option positive).

Section act.
Context (C : gmap listid (list positive)) (s : sys) (me : positive) (x : cpu) (y : thread) (sp k : Z).
Hypothesis Hgood : good C s.
Hypothesis Hx : cpus s !! me = Some x.
Hypothesis Hy : threads s !! c_curthread x = Some y.
Hypothesis Hacct : acct_cur s me x y sp k.

Local Notation t := (c_curthread x).

Lemma in_code_facts :
  in_code x y = true → c_status x = Online ∧ c_phase x = Free ∧ (c_isidle x = true → t_frames y ≠ []).
Proof.
  unfold in_code, online. rewrite !andb_true_iff, orb_true_iff, !bool_decide_eq_true.
  intros ((? & ?) & Hi). split; [done|]. split; [done|]. intros Hid. rewrite Hid in Hi. simpl in Hi.
  destruct Hi as [?|Hi]; [done|]. by apply negb_true_iff, bool_decide_eq_false in Hi.
Qed.

Lemma no_frames : t_in_interrupt y = false → t_frames y = [].
Proof. intros Hi. destruct (a_frames _ _ _ _ _ _ Hacct) as [[? _]|[_ ?]]; congruence. Qed.

Lemma has_frames : t_in_interrupt y = true → t_frames y = [(false, negb (c_isidle x))] ∧ sp = 1.
Proof.
  intros Hi. destruct (a_frames _ _ _ _ _ _ Hacct) as [[_ ?]|[E _]]; [congruence|]. split; [done|].
  apply (a_high _ _ _ _ _ _ Hacct). right. by rewrite E.
Qed.

Lemma in_thread_facts :
  in_thread x y = true → c_status x = Online ∧ c_phase x = Free ∧ c_isidle x = false ∧ t_frames y = [] ∧
    t_in_interrupt y = false ∧ t_point y = Anywhere.
Proof.
  unfold in_thread. rewrite !andb_true_iff, negb_true_iff, bool_decide_eq_true. intros ((Hc & Hi) & Hp).
  destruct (in_code_facts Hc) as (H1 & H2 & H3). pose proof (no_frames Hi) as Hf.
  destruct (c_isidle x); [by destruct H3|done].
Qed.

Lemma in_handler_facts :
  in_handler x y = true → c_status x = Online ∧ c_phase x = Free ∧
    t_frames y = [(false, negb (c_isidle x))] ∧ t_in_interrupt y = true ∧ sp = 1.
Proof.
  unfold in_handler. rewrite andb_true_iff. intros (Hc & Hi).
  destruct (in_code_facts Hc) as (H1 & H2 & H3). destruct (has_frames Hi). done.
Qed.

Lemma anywhere_facts :
  anywhere x y = true → c_status x = Online ∧ c_phase x = Free ∧
    (t_frames y = [] → c_isidle x = false ∧ t_point y = Anywhere).
Proof.
  unfold anywhere. rewrite orb_true_iff. intros [Ht|Ht].
  - destruct (in_thread_facts Ht) as (? & ? & ? & ? & ? & ?). done.
  - destruct (in_handler_facts Ht) as (? & ? & E & ? & ?). split; [done|]. split; [done|]. by rewrite E.
Qed.

(** ** Locks and priority *)

Lemma act_spin_init n :
  allowed s me x y (SpinInit n) = true → wp (perform me (SpinInit n)) (λ _ s', ok s') s.
Proof.
  simpl. rewrite andb_true_iff, bool_decide_eq_true. intros (Ht & Hn). unfold spinlock_init, holder_put.
  apply wp_in_ints, wp_modify, (good_ok C).
  assert (∀ c, held_by c (mkInterrupts (t_spl (ints s)) (c_spinlocks (ints s)) (c_irq (ints s))
                 (<[Spin n := None]> (splk_holder (ints s)))) = held_by c (ints s)) as Hheld.
  { intros c. unfold held_by. simpl. by rewrite msum_insert. }
  eapply (good_ints C s me x y); [done..| |].
  - split; try done. intros lc Hlc. simpl. rewrite lookup_insert_ne; [done|]. by apply not_eq_sym.
  - eapply acct_cur_frame; [exact Hacct|done..]. 
Qed.

Lemma locked_local l : (∃ n, l = Spin n) → splk_holder (ints s) !! l = Some None → local_ints me t (ints s) (locked me t l (ints s)).
Proof.
  intros [n ->] Hl. unfold locked, adjust. split; simpl; intros; try (by rewrite lookup_insert_ne by congruence).
  - rewrite (held_acquire c me (ints s) _ (Spin n)), decide_False by done. lia.
Qed.

Lemma good_locked n :
  (t_frames y = [] → c_isidle x = false ∧ t_point y = Anywhere) → c_phase x = Free →
  splk_holder (ints s) !! Spin n = Some None → good C (set_ints (locked me t (Spin n) (ints s)) s).
Proof.
  intros Hf Hp Hl. eapply (good_ints C s me x y Hgood Hx Hy _ sp (k + 1)); [apply locked_local; by eauto|].
  pose proof Hacct as [A1 A2 A3 A4 A5 A6 A7 A8 A9 Ah A10 A11 A12]. pose proof (local_k _ _ _ _ _ _ Hacct).
  unfold locked, adjust, spl_of, locks_of. rewrite A1, A3. simpl.
  split; simpl; rewrite ?lookup_insert_eq; try done.
  - f_equal. f_equal. lia.
  - rewrite (held_acquire me me (ints s) _ (Spin n)), decide_True by done. lia.
  - f_equal. apply bool_decide_ext. lia.
  - intros E. by rewrite Hp in E.
  - intros Hf' [?|?]; destruct (Hf Hf'); congruence.
Qed.

Lemma act_acquire n :
  allowed s me x y (Acquire n) = true → wp (perform me (Acquire n)) (λ _ s', ok s') s.
Proof.
  simpl. unfold lock_free. rewrite andb_true_iff, bool_decide_eq_true. intros (Ht & Hn).
  destruct (anywhere_facts Ht) as (H1 & H2 & H3).
  eapply (wp_acquire_lock me t); [by eapply local_here|by eapply local_sane|done|].
  eapply good_ok. by apply good_locked.
Qed.

Lemma act_release n :
  allowed s me x y (Release n) = true → wp (perform me (Release n)) (λ _ s', ok s') s.
Proof.
  simpl. unfold holds_lock. rewrite andb_true_iff, bool_decide_eq_true. intros (Ht & Hn).
  destruct (anywhere_facts Ht) as (H1 & H2 & H3).
  pose proof Hacct as [A1 A2 A3 A4 A5 A6 A7 A8 A9 Ah A10 A11 A12].
  assert (1 ≤ k) as Hk.
  { rewrite A4. by eapply held_pos. }
  eapply (wp_release_lock me t); [by eapply local_here|by eapply local_sane|done|..].
  { rewrite (local_spl s me x y sp k Hacct). simpl. lia. }
  { rewrite (local_held s me x y sp k Hacct). lia. }
  eapply good_ok, (good_ints C s me x y Hgood Hx Hy _ sp (k - 1)).
  - unfold unlocked, adjust. split; simpl; intros; try (by rewrite lookup_insert_ne by congruence).
    + rewrite (held_release c me (ints s) _ (Spin n)), decide_False by done. lia.
  - unfold unlocked, adjust, spl_of, locks_of. rewrite A1, A3. simpl.
    split; simpl; rewrite ?lookup_insert_eq; try done.
    + f_equal. f_equal. lia.
    + rewrite (held_release me me (ints s) _ (Spin n)), decide_True by done. lia.
    + f_equal. apply bool_decide_ext. lia.
    + intros E. by rewrite H2 in E.
    + intros Hf' [?|?]; destruct (H3 Hf'); congruence.
Qed.

(** The executing thread's priority changes. *)
Lemma good_spl spl :
  spl = 0 ∨ spl = 1 → t_frames y = [] → c_isidle x = false → c_phase x = Free →
  acct_cur (set_ints (set_spl me t spl (spl + k) (ints s)) s) me x y spl k ∧
  good C (set_ints (set_spl me t spl (spl + k) (ints s)) s).
Proof.
  intros Hspl Hf Hid Hp. pose proof Hacct as [A1 A2 A3 A4 A5 A6 A7 A8 A9 Ah A10 A11 A12].
  assert (acct_cur (set_ints (set_spl me t spl (spl + k) (ints s)) s) me x y spl k) as Ha.
  { split; simpl; try done.
    - apply lookup_insert_eq.
    - apply lookup_insert_eq.
    - rewrite Hf. by intros [?|?]; [congruence|]. }
  split; [done|]. eapply (good_ints C s me x y Hgood Hx Hy); [|exact Ha].
  split; simpl; intros; try done; by rewrite lookup_insert_ne by congruence.
Qed.

Lemma act_splx spl :
  allowed s me x y (Splx spl) = true → wp (perform me (Splx spl)) (λ _ s', ok s') s.
Proof.
  simpl. rewrite andb_true_iff, orb_true_iff, !Z.eqb_eq. unfold IPL_NONE, IPL_HIGH. intros (Ht & Hspl).
  destruct (in_thread_facts Ht) as (H1 & H2 & H3 & H4 & H5 & H6). pose proof (local_k _ _ _ _ _ _ Hacct).
  apply wp_bind. eapply (wp_splx me t); [by eapply local_here|by eapply local_sane|..]; try done;
    rewrite ?(local_spl s me x y sp k Hacct); simpl.
  - apply Hacct.
  - lia.
  - intros _. apply wp_ret, (good_ok C). replace (sp + k + spl - sp) with (spl + k) by lia. by apply good_spl.
Qed.

(** ** Switching threads *)

Lemma own_queue : ∃ xs, C !! Runqueue me = Some xs.
Proof. destruct (proj1 (i_lists _ _ _ (proj1 Hgood)) me) as [_ [xs Hxs]]; [by eexists|eauto]. Qed.

Lemma act_yield : allowed s me x y Yield = true → wp (perform me Yield) (λ _ s', ok s') s.
Proof.
  simpl. unfold locks_held. rewrite andb_true_iff, Z.eqb_eq, (local_held s me x y sp k Hacct). intros (Ht & Hk).
  destruct (in_thread_facts Ht) as (H1 & H2 & H3 & H4 & H5 & H6). destruct own_queue as [xs Hxs].
  eapply (wp_yield me t x y C s sp k); try done; [intros _|intros _ s' C']; by eauto using good_ok.
Qed.

Lemma act_sleep w lk : allowed s me x y (Sleep w lk) = true → wp (perform me (Sleep w lk)) (λ _ s', ok s') s.
Proof.
  simpl. unfold locks_held, holds_lock.
  rewrite !andb_true_iff, Z.eqb_eq, !bool_decide_eq_true, (local_held s me x y sp k Hacct).
  intros (((Ht & [wn Hw]) & Hl) & Hk). destruct (in_thread_facts Ht) as (H1 & H2 & H3 & H4 & H5 & H6).
  destruct (proj2 (i_lists _ _ _ (proj1 Hgood)) w) as [ws Hws]; [by eexists|].
  pose proof (local_here C s me x Hgood Hx) as Hh. unfold wchan_sleep.
  apply wp_bind. eapply wp_curthread; [done|]. apply wp_bind. eapply wp_thread_get; [done|].
  apply wp_bind, wp_KASSERT; [by rewrite H5|]. apply wp_bind. eapply wp_holds_lock; [done..|].
  apply wp_bind, wp_KASSERT; [by rewrite bool_decide_true|]. apply wp_bind. eapply wp_curcpu; [done|].
  unfold spinlocks_get. wp_go. eapply wp_deref; [apply Hacct|].
  apply wp_bind, wp_KASSERT; [lia|].
  eapply (wp_sleep me t x y C s sp k); try done. intros s' C'. by eauto using good_ok.
Qed.

Lemma act_sleep_return lk :
  allowed s me x y (SleepReturn lk) = true → wp (perform me (SleepReturn lk)) (λ _ s', ok s') s.
Proof.
  simpl. unfold lock_free. rewrite !andb_true_iff, negb_true_iff, !bool_decide_eq_true.
  intros (((Ht & Hi) & Hp) & Hl). destruct (in_code_facts Ht) as (H1 & H2 & H3). pose proof (no_frames Hi) as Hf.
  pose proof (local_here C s me x Hgood Hx) as Hh. pose proof (local_k _ _ _ _ _ _ Hacct) as Hk0.
  unfold wchan_sleep_return. apply wp_bind. eapply (wp_acquire_lock me t); [done|by eapply local_sane|done|].
  apply wp_bind. eapply wp_curthread; [done|]. eapply wp_thread_upd; [done|].
  eapply good_ok, (good_thread C s me x y Hgood Hx Hy (with_point Anywhere y) _ sp (k + 1)); try done.
  - split; [|done]. apply (h_magic _ _ _ _ (i_thread _ _ _ (proj1 Hgood) _ _ Hy ltac:(done))).
  - apply locked_local; by eauto.
  - pose proof Hacct as [A1 A2 A3 A4 A5 A6 A7 A8 A9 Ah A10 A11 A12].
    unfold locked, adjust, spl_of, locks_of. rewrite A1, A3. simpl.
    split; simpl; rewrite ?lookup_insert_eq; try done.
    + f_equal. f_equal. lia.
    + rewrite (held_acquire me me (ints s) _ (Spin lk)), decide_True by done. lia.
    + f_equal. apply bool_decide_ext. lia.
    + intros E. by rewrite H2 in E.
    + intros _ [E|?]; [|done]. by destruct (H3 E).
Qed.

Lemma own_thread : thread_ok C s t y.
Proof. by apply (i_thread _ _ _ (proj1 Hgood)). Qed.

Lemma own_tgood : tgood y.
Proof. by destruct own_thread. Qed.

Lemma good_high :
  t_frames y = [] → c_isidle x = false → c_phase x = Free →
  ∃ sp', acct_cur (set_ints (high me t (ints s)) s) me x y sp' k ∧ good C (set_ints (high me t (ints s)) s).
Proof.
  intros Hf Hid Hp. unfold high. rewrite (local_spl s me x y sp k Hacct). simpl.
  destruct (Z.eqb_spec sp 1) as [E|Hne].
  - exists sp. replace (set_ints (ints s) s) with s by by destruct s. done.
  - exists 1. pose proof (a_01 _ _ _ _ _ _ Hacct). replace (sp + k + 1) with (1 + k) by lia. apply good_spl; auto.
Qed.

Lemma act_exit_rest : allowed s me x y ExitRest = true → wp (perform me ExitRest) (λ _ s', ok s') s.
Proof.
  simpl. rewrite !andb_true_iff, negb_true_iff, !bool_decide_eq_true. intros ((Ht & Hi) & Hp).
  destruct (in_code_facts Ht) as (H1 & H2 & H3). pose proof (no_frames Hi) as Hf.
  assert (c_isidle x = false) as Hid by (destruct (c_isidle x); [by destruct H3|done]).
  pose proof own_thread as [_ Hm _ Hex]. specialize (Hex Hp). pose proof (local_here C s me x Hgood Hx) as Hh.
  unfold thread_exit_rest. apply wp_bind. eapply wp_curthread; [done|]. apply wp_bind.
  eapply wp_thread_get; [done|]. apply wp_bind, wp_KASSERT; [by rewrite bool_decide_true|].
  apply wp_bind. eapply wp_checkstack; [done..|]. apply wp_bind.
  eapply (wp_splhigh me t); [done|by eapply local_sane|rewrite (local_spl s me x y sp k Hacct); apply Hacct|].
  destruct (good_high Hf Hid H2) as (sp' & Ha & Hg).
  eapply (wp_die me t x y C (set_ints (high me t (ints s)) s) sp' k); try done.
  - apply (a_none _ _ _ _ _ _ Hacct); [done|right; congruence].
  - intros s' C' zs _. by eauto using good_ok.
Qed.

(** ** The idle loop *)

Lemma mid_locked :
  c_isidle x = true → t_frames y = [] → mid (set_ints (locked me t (RunqueueLock me) (ints s)) s) me t.
Proof.
  intros Hid Hf. pose proof Hacct as [A1 A2 A3 A4 A5 A6 A7 A8 A9 Ah A10 A11 A12].
  assert (sp = 1) as -> by auto. assert (k = 0) as -> by auto.
  destruct Hgood as (HI & _ & _ & _ & [B1 B2 (B3 & B4 & B5) B6]). destruct (B3 me) as [Hrq _]; [by eexists|].
  unfold locked, spl_of, locks_of. rewrite A1, A3. unfold adjust. simpl.
  assert (∀ c i', splk_holder i' = <[RunqueueLock me := Some me]> (splk_holder (ints s)) →
            held_by c i' = held_by c (ints s) + if decide (c = me) then 1 else 0) as Hheld.
  { intros c i' Hi'. by rewrite (held_acquire c me (ints s) i' (RunqueueLock me)). }
  split; simpl; rewrite ?lookup_insert_eq; try done.
  - intros c x1 y1 Hne Hx1 Hy1. destruct (B1 c x1 y1 Hx1 Hy1) as (sp' & k' & Ha). exists sp', k'.
    assert (c_curthread x1 ≠ t) by (intros E; destruct Hne; by eapply (current_cpu None C s t)).
    eapply acct_cur_frame; try done; simpl; [by rewrite lookup_insert_ne..|].
    erewrite Hheld by done. rewrite decide_False by done. lia.
  - intros v yv Hyv Hne Hnc. eapply acct_away_frame; [by apply B2|simpl; by rewrite lookup_insert_ne|done..].
  - intros y' Hy'. assert (y' = y) as -> by congruence. split; simpl; rewrite ?lookup_insert_eq; try done.
    + left. destruct A6 as [?|[? _]]; [done|congruence].
    + split; [auto|]. by intros [].
  - erewrite Hheld by done. rewrite decide_True by done. lia.
  - split; [|split].
    + intros c Hc. destruct (B3 c Hc). split; [intros ?|]; by rewrite lookup_insert_ne by congruence.
    + intros p Hp. rewrite lookup_insert_ne by done. auto.
    + by rewrite lookup_insert_ne.
  - intros c Hc. erewrite Hheld by done. rewrite decide_False by congruence. rewrite B6 by done. done.
Qed.

Lemma wp_idle_wakeup (Q : unit → sys → Prop) :
  c_status x = Online → c_isidle x = true → t_frames y = [] →
  (∀ s' C', good C' s' → dispatched C C' s' me t → Q tt s') → wp (idle_wakeup me) Q s.
Proof.
  intros Hon Hid Hf HQ. pose proof (local_here C s me x Hgood Hx) as Hh. pose proof Hgood as (HI & Hn & Hc & Htab & Hac).
  destruct (proj1 (c_free _ Hac) me) as [Hrq _]; [by eexists|].
  unfold idle_wakeup. apply wp_bind. eapply wp_curcpu; [done|]. apply wp_bind.
  eapply (wp_acquire_lock me t); [done|by eapply local_sane|done|].
  eapply (wp_idle_round me t x y C); try done.
  - eapply inv_same; [exact HI|done|done|..]; intros; simpl in *; by simplify_eq.
  - by eapply tables_frame.
  - intros c _. apply Hn.
  - intros c _. apply Hc.
  - by apply mid_locked.
  - destruct (decide (c_phase x = Free)) as [|Hne]; [done|].
    destruct (a_phase _ _ _ _ _ _ Hacct Hne); [by left|done].
Qed.

Lemma act_idle_wakeup : allowed s me x y IdleWakeup = true → wp (perform me IdleWakeup) (λ _ s', ok s') s.
Proof.
  simpl. unfold online. rewrite !andb_true_iff, !bool_decide_eq_true. intros ((Hon & Hid) & Hf).
  apply wp_idle_wakeup; [done..|]. intros s' C' Hg _. by eapply good_ok.
Qed.

End act.
End ThreadActions.
