(* ===== verification/ThreadIrq.v ===== *)
(** * Interrupts and the clock keep the invariant

    Taking an interrupt and returning from it, the clock's handler and the
    interprocessor interrupt. *)

From Stdlib Require Import ZArith Lia.
From stdpp Require Import base numbers list gmap strings.
From S2P Require Import Prelude Tlb Array Threadlist Thread ThreadInts ThreadSystem ThreadMoves ThreadSteps ThreadSwitch ThreadPark ThreadChanges ThreadActions.

Module ThreadIrq.
Import Threadlist Thread ThreadInts ThreadSystem ThreadMoves ThreadSteps ThreadSwitch ThreadPark ThreadChanges ThreadActions.
Implicit Types (C : gmap listid (list positive)) (s : sys) (X : option positive).

(** ** Interprocessor interrupts *)

(** The mappings that are to be shot down. *)
Lemma wp_shootdowns me x s (Q : unit → sys → Prop) :
  cpus s !! me = Some x → Tlb.tlb_wf (c_tlb x) ∧ Tlb.tlb_spinlock (c_tlb x) = false →
  Z.of_nat (length (c_shootdown x)) = TLBSHOOTDOWN_MAX ∧
    TLBSHOOTDOWN_ALL ≤ c_numshootdown x ≤ TLBSHOOTDOWN_MAX →
  (∀ tb, Tlb.tlb_wf tb → Tlb.tlb_spinlock tb = false → Q tt (set_cpus (<[me := with_tlb tb x]> (cpus s)) s)) →
  wp (if c_numshootdown x =? TLBSHOOTDOWN_ALL then in_tlb me Tlb.vm_tlbshootdown_all
      else for_loop (Z.to_nat (c_numshootdown x)) 0 (λ i,
             v ← deref (znth (c_shootdown x) i); in_tlb me (Tlb.vm_tlbshootdown v))) Q s.
Proof.
  intros Hx [Hwf Hlk] [Hlen Hn] HQ. destruct (Z.eqb_spec (c_numshootdown x) TLBSHOOTDOWN_ALL) as [|Hne].
  - eapply wp_on_tlb; [done|]. eapply wp_mono; [|apply Tlb.as_activate_correct; [apply Hwf..|done]].
    intros [] tb (Hwf' & Hlk' & _). by apply HQ.
  - apply (wp_for_loop (λ _ s', ∃ tb, Tlb.tlb_wf tb ∧ Tlb.tlb_spinlock tb = false ∧
                          s' = set_cpus (<[me := with_tlb tb x]> (cpus s)) s)).
    + exists (c_tlb x). split; [done|]. split; [done|]. rewrite insert_id; [by destruct s|by destruct x].
    + intros i s' Hi (tb & Hwf' & Hlk' & ->).
      destruct (znth_is_Some (c_shootdown x) i) as [v Hv]; [unfold TLBSHOOTDOWN_ALL, TLBSHOOTDOWN_MAX in *; lia|].
      apply wp_bind. eapply wp_deref; [done|]. eapply wp_on_tlb; [apply lookup_insert_eq|].
      eapply wp_mono; [|by apply Tlb.vm_tlbshootdown_correct]. intros [] tb' (Hwf2 & Hlk2 & _).
      exists tb'. split; [done|]. split; [congruence|]. simpl. by rewrite insert_insert_eq.
    + intros s' (tb & Hwf' & Hlk' & ->). by apply HQ.
Qed.

Section irq.
Context (C : gmap listid (list positive)) (s : sys) (me : positive) (x : cpu) (y : thread) (sp k : Z).
Hypothesis Hgood : good C s.
Hypothesis Hx : cpus s !! me = Some x.
Hypothesis Hy : threads s !! c_curthread x = Some y.
Hypothesis Hacct : acct_cur s me x y sp k.

Local Notation t := (c_curthread x).

(** ** Entry and return *)

(** Interrupts come to code with interrupts on, or to the idle loop. *)
Lemma irq_facts :
  allowed s me x y IrqEnter = true →
  c_status x = Online ∧ c_phase x = Free ∧ t_frames y = [] ∧ t_in_interrupt y = false ∧ k = 0 ∧
  sp = (if c_isidle x then 1 else 0).
Proof.
  simpl. unfold online. rewrite andb_true_iff, orb_true_iff, andb_true_iff, !bool_decide_eq_true.
  intros (Hon & Hc). pose proof (local_k _ _ _ _ _ _ Hacct) as Hk.
  pose proof Hacct as [A1 A2 A3 A4 A5 A6 A7 A8 A9 Ah A10 A11 A12]. split; [done|].
  assert (t_frames y = [] ∧ k = 0 ∧ sp = if c_isidle x then 1 else 0) as (Hf & Hk0 & Hsp).
  { destruct Hc as [Hq|[Hid Hf]].
    - rewrite A5 in Hq. injection Hq as Hq%bool_decide_eq_true. assert (sp = 0 ∧ k = 0) as [Hsp ?] by lia.
      assert (c_isidle x = false) as -> by (destruct (c_isidle x); [specialize (A8 (or_introl eq_refl)); lia|done]).
      split; [|done]. destruct (t_frames y) eqn:E; [done|]. assert (sp = 1) by (apply A8; by right). lia.
    - rewrite Hid in *. auto. }
  split; [|split; [done|split; [destruct A6 as [[_ ?]|[? _]]; congruence|done]]].
  destruct (decide (c_phase x = Free)) as [|Hne]; [done|]. exfalso.
  destruct (handler_phase (c_phase x)) eqn:E; [by destruct A7; auto|specialize (A9 Hne eq_refl); lia].
Qed.

Lemma act_irq_enter : allowed s me x y IrqEnter = true → wp (perform me IrqEnter) (λ _ s', ok s') s.
Proof.
  intros Hal. destruct (irq_facts Hal) as (Hon & Hph & Hf & Hii & Hk & Hsp).
  pose proof (local_here C s me x Hgood Hx) as Hh. pose proof Hacct as [A1 A2 A3 A4 A5 A6 A7 A8 A9 Ah A10 A11 A12].
  simpl. unfold irq_enter, cpu_irqoff, irq_put, spl_get, spl_put, thread_put.
  apply wp_bind, wp_in_ints, wp_modify. apply wp_bind. eapply wp_cpu_upd; [done|]. set (x' := with_waiting false x).
  apply wp_bind. eapply wp_curthread; [by eapply (here_cpu me t s)|]. apply wp_bind. eapply wp_thread_get; [done|].
  apply wp_bind, wp_bind, wp_gets. eapply wp_deref; [done|]. simpl. rewrite Hii, Hf.
  set (s1 := set_cpus (<[me := x']> (cpus s)) s).
  assert (good C s1) as Hg1.
  { apply (good_cpu C s me x x'); try done;
      [apply (local_cpu_ok C s me x y)..|]; try done. by right. }
  set (y' := with_frames true [(false, negb (c_isidle x))] y).
  set (i' := mkInterrupts (<[t := (1, 1)]> (t_spl (ints s))) (c_spinlocks (ints s)) (<[me := false]> (c_irq (ints s)))
               (splk_holder (ints s))).
  assert (good C (set_threads (<[t := y']> (threads s1)) (set_ints i' s1))) as Hg2.
  { eapply (good_thread C s1 me x' y Hg1 (lookup_insert_eq _ _ _) Hy y' i' 1 0); try done.
    - by apply (own_tgood C s x y).
    - split; simpl; intros; by rewrite ?lookup_insert_ne by congruence.
    - split; simpl; rewrite ?lookup_insert_eq; try done;
        [by right|by rewrite <- Hk|by rewrite <- Hk|by right|congruence]. }
  assert (∀ s2, good C s2 → t_spl (ints s2) !! t = Some (1, 1) →
            wp (deref (t_spl (ints s2) !! t)) (λ a, wp (KASSERT (fst a >? 0)) (λ _ s', ok s')) s2) as Hend.
  { intros s2 Hg Hs2. eapply wp_deref; [done|]. apply wp_KASSERT; [done|]. by eapply good_ok. }
  destruct (c_isidle x) eqn:Hid; rewrite Hsp, Hk; simpl; wp_go.
  - unfold i' in Hg2. rewrite Hsp, Hk in A1. rewrite (insert_id (t_spl _)) in Hg2 by done. by apply (Hend _ Hg2).
  - apply wp_in_ints, wp_modify. wp_go. apply (Hend _ Hg2). simpl. apply lookup_insert_eq.
Qed.

Lemma act_irq_exit : allowed s me x y IrqExit = true → wp (perform me IrqExit) (λ _ s', ok s') s.
Proof.
  simpl. unfold locks_held. rewrite andb_true_iff, Z.eqb_eq, (local_held s me x y sp k Hacct). intros (Ht & Hk).
  destruct (in_handler_facts s me x y sp k Hacct Ht) as (Hon & Hph & Hf & Hii & Hsp).
  pose proof (local_here C s me x Hgood Hx) as Hh. pose proof Hacct as [A1 A2 A3 A4 A5 A6 A7 A8 A9 Ah A10 A11 A12].
  unfold irq_exit, cpu_irqon, irq_put, spl_get, spl_put, thread_put. apply wp_bind. eapply wp_curthread; [done|].
  apply wp_bind. eapply wp_thread_get; [done|]. apply wp_bind. rewrite Hf. eapply wp_deref; [done|]. simpl.
  assert (∀ i' sp', local_ints me t (ints s) i' → acct_cur (set_ints i' s) me x (with_frames false [] y) sp' k →
            good C (set_threads (<[t := with_frames false [] y]> (threads s)) (set_ints i' s))) as Hg.
  { intros i' sp' Hl Ha. eapply (good_thread C s me x y Hgood Hx Hy _ i' sp' k); try done.
    by apply (own_tgood C s x y). }
  destruct (c_isidle x) eqn:Hid; simpl; wp_go.
  - replace (set_threads _ s) with (set_threads (<[t := with_frames false [] y]> (threads s)) (set_ints (ints s) s))
      by by destruct s.
    eapply good_ok, (Hg _ sp); [apply local_refl|]. split; rewrite ?Hid; try done; [by left|congruence].
  - eapply wp_deref; [done|]. rewrite Hsp, Hk. do 2 (apply wp_bind, wp_KASSERT; [done|]).
    apply wp_bind, wp_in_ints, wp_modify. apply wp_in_ints, wp_modify. wp_go. apply (good_ok C).
    refine (Hg (mkInterrupts (<[t := (0, 0)]> (t_spl (ints s))) (c_spinlocks (ints s))
                  (<[me := true]> (c_irq (ints s))) (splk_holder (ints s))) 0 _ _).
    + split; simpl; intros; by rewrite ?lookup_insert_ne by congruence.
    + rewrite Hk in *. split; simpl; rewrite ?lookup_insert_eq, ?Hid; try done.
      * by left.
      * by left.
      * by intros [|[]].
Qed.

(** ** The interprocessor interrupt, afterwards *)

(** The phase of a processor, when its private list stays empty. *)
Lemma good_with_phase p line hard :
  c_status x = Online → private_used (c_phase x) = false → (∀ u, c_phase x ≠ WakingOne u) →
  handler_phase p = true ∨ p = Free → private_used p = false → phase_counts C me p →
  (p ≠ Free → t_frames y ≠ [] ∧ k = 0) → t_frames y ≠ [] →
  good C (set_cpus (<[me := with_phase p (with_line line (with_hardclocks hard x))]> (cpus s)) s).
Proof.
  intros Hon Hpu Hw Hp Hpu' Hc Hne Hf.
  eapply (good_phase C s me x y sp k Hgood Hx Hy Hacct); try done; simpl.
  - apply private_unused; [done|]. pose proof (local_cpu_ok C s me x y Hgood Hx Hy) as [_ _ _ Hk _ _].
    by rewrite Hpu in Hk.
  - intros u ->. by destruct Hp.
  - intros Hi Hwt. destruct Hf. by apply (proj1 (proj2 Hgood) me x y).
  - intros E1 E2. by destruct Hp; [congruence|].
  - intros E. apply Hne. intros ->. done.
Qed.

Lemma handler_frames : handler_phase (c_phase x) = true → t_frames y ≠ [] ∧ k = 0.
Proof.
  intros Hp. split; [|by apply (a_handler _ _ _ _ _ _ Hacct)].
  apply (a_phase _ _ _ _ _ _ Hacct); [|by right]. by intros E; rewrite E in Hp.
Qed.

Lemma act_clear_ipi : allowed s me x y ClearIpi = true → wp (perform me ClearIpi) (λ _ s', ok s') s.
Proof.
  simpl. unfold online. rewrite andb_true_iff, !bool_decide_eq_true. intros (Hon & Hp).
  destruct handler_frames as [Hf Hk]; [by rewrite Hp|]. pose proof (local_here C s me x Hgood Hx) as Hh.
  unfold clear_ipi, lamebus_clear_ipi. apply wp_bind. eapply wp_curcpu; [done|]. wp_go.
  assert (∀ b, ok (set_cpus (<[me := with_phase Free (with_line b (with_hardclocks (c_hardclocks x) x))]> (cpus s)) s))
    as Hok.
  { intros b. eapply good_ok, good_with_phase; rewrite ?Hp; try done. by right. }
  destruct (ls_uniprocessor s).
  - wp_go. eapply wp_cpu_upd; [done|]. apply (Hok (c_line x)).
  - eapply wp_cpu_upd; [done|]. eapply wp_cpu_upd; [apply lookup_insert_eq|]. simpl. rewrite insert_insert_eq.
    apply (Hok false).
Qed.

(** ** The clock *)

Lemma act_hardclock : allowed s me x y Hardclock = true → wp (perform me Hardclock) (λ _ s', ok s') s.
Proof.
  simpl. unfold locks_held. rewrite andb_true_iff, Z.eqb_eq, (local_held s me x y sp k Hacct). intros (Ht & Hk).
  destruct (in_handler_facts s me x y sp k Hacct Ht) as (Hon & Hph & Hf & Hii & Hsp).
  pose proof (local_here C s me x Hgood Hx) as Hh. unfold hardclock. apply wp_bind. eapply wp_curcpu; [done|].
  apply wp_bind. eapply wp_cpu_upd; [done|]. apply wp_bind. eapply wp_cpu_get; [apply lookup_insert_eq|].
  eapply wp_cpu_upd; [apply lookup_insert_eq|]. simpl. rewrite insert_insert_eq. set (h := (_ + 1) mod _).
  assert (∀ p, p = Counting 0 0 0 ∨ p = Clocked →
            ok (set_cpus (<[me := with_phase p (with_line (c_line x) (with_hardclocks h x))]> (cpus s)) s)) as Hok.
  { intros p Hp. eapply good_ok, good_with_phase; rewrite ?Hph, ?Hf; try done.
    - destruct Hp as [-> | ->]; by left.
    - by destruct Hp as [-> | ->].
    - destruct Hp as [-> | ->]; simpl; [lia|done]. }
  destruct (_ =? 0); [apply (Hok (Counting 0 0 0))|apply (Hok Clocked)]; auto.
Qed.

Lemma act_clock_rest : allowed s me x y ClockRest = true → wp (perform me ClockRest) (λ _ s', ok s') s.
Proof.
  simpl. unfold online. rewrite andb_true_iff, !bool_decide_eq_true. intros (Hon & Hp).
  destruct handler_frames as [Hf Hk]; [by rewrite Hp|]. pose proof (local_here C s me x Hgood Hx) as Hh.
  unfold hardclock_rest, schedule. apply wp_bind. eapply wp_curcpu; [done|]. apply wp_bind.
  eapply wp_cpu_get; [done|]. apply wp_bind.
  set (x' := with_phase Free x). set (s1 := set_cpus (<[me := x']> (cpus s)) s).
  assert (good C s1) as Hg.
  { refine (good_with_phase Free (c_line x) (c_hardclocks x) _ _ _ _ _ _ _ _); rewrite ?Hp; try done. by right. }
  assert (wp (cpu_upd me (with_phase Free) ;; thread_yield me) (λ _ s', ok s') s) as Hrest.
  { apply wp_bind. eapply wp_cpu_upd; [done|]. fold x' s1.
    assert (cpus s1 !! me = Some x') as Hx' by apply lookup_insert_eq.
    destruct (c_cur _ (proj2 (proj2 (proj2 (proj2 Hg)))) me x' y Hx' Hy) as (sp' & k' & Ha).
    assert (k' = 0) as Hk'.
    { pose proof (a_locks _ _ _ _ _ _ Ha) as E. simpl in E. rewrite (a_locks _ _ _ _ _ _ Hacct) in E. congruence. }
    destruct (own_queue C s me x Hgood Hx) as [xs Hxs]. destruct (c_isidle x) eqn:Hid.
    - eapply (wp_switch_idle me x' y C s1); try done; [apply Hg|by eapply good_ok].
    - eapply (wp_yield me t x' y C s1 sp' k'); try done; [intros _|intros _ s' C']; by eauto using good_ok. }
  destruct (_ =? 0); by apply wp_ret.
Qed.

Lemma wp_halt : sp = 1 → wp (cpu_halt me) (λ _ s', ok s') s.
Proof.
  intros Hsp. pose proof (local_k _ _ _ _ _ _ Hacct) as Hk. pose proof (a_irq _ _ _ _ _ _ Hacct) as Hq.
  rewrite bool_decide_false in Hq by lia. unfold cpu_halt, cpu_irqoff, irq_put.
  apply wp_bind, wp_in_ints, wp_modify. rewrite insert_id by done.
  replace (set_ints _ s) with s by by destruct s as [? ? ? [] ? ? ? ? ? ?].
  eapply wp_cpu_upd; [done|]. destruct (local_cpu_ok C s me x y Hgood Hx Hy).
  eapply good_ok, (good_cpu C s me x); try done. by left.
Qed.

Lemma own_locks :
  splk_holder (ints s) !! RunqueueLock me = Some None ∧ splk_holder (ints s) !! IpiLock me = Some None.
Proof. apply (proj1 (c_free _ (proj2 (proj2 (proj2 (proj2 Hgood)))))). by eexists. Qed.

Lemma good_ipi x' :
  c_status x = Online → c_phase x = Free → t_frames y ≠ [] → k = 0 → ckeep x x' → c_status x' = Online →
  c_waiting x' = c_waiting x → c_line x' = c_line x →
  Tlb.tlb_wf (c_tlb x') ∧ Tlb.tlb_spinlock (c_tlb x') = false →
  Z.of_nat (length (c_shootdown x')) = TLBSHOOTDOWN_MAX ∧
    TLBSHOOTDOWN_ALL ≤ c_numshootdown x' ≤ TLBSHOOTDOWN_MAX →
  good C (set_cpus (<[me := with_phase Clearing x']> (cpus s)) s).
Proof.
  intros Hon Hph Hf Hk Hck Hon' Hwt Hl Htlb Hsh. pose proof Hck as (E1 & E2 & E3).
  set (s1 := set_cpus (<[me := x']> (cpus s)) s).
  assert (good C s1) as Hg1 by (apply (good_cpu C s me x x'); try done; [congruence..|left; congruence]).
  assert (cpus s1 !! me = Some x') as Hx1 by apply lookup_insert_eq.
  assert (threads s1 !! c_curthread x' = Some y) as Hy1 by (by rewrite E1).
  destruct (c_cur _ (proj2 (proj2 (proj2 (proj2 Hg1)))) me x' y Hx1 Hy1) as (sp1 & k1 & Ha1).
  assert (k1 = 0) as Hk1.
  { pose proof (a_locks _ _ _ _ _ _ Ha1) as E. simpl in E. rewrite (a_locks _ _ _ _ _ _ Hacct) in E. congruence. }
  replace (set_cpus _ s) with (set_cpus (<[me := with_phase Clearing x']> (cpus s1)) s1)
    by (unfold s1; simpl; by rewrite insert_insert_eq).
  eapply (good_phase C s1 me x' y sp1 k1 Hg1 Hx1 Hy1 Ha1); try done; simpl.
  - apply private_unused; [done|]. pose proof (local_cpu_ok C s me x y Hgood Hx Hy) as [_ _ _ Hp _ _].
    by rewrite Hph in Hp.
  - intros u. rewrite E3, Hph. done.
  - intros Hi Hw. destruct Hf. apply (proj1 (proj2 Hgood) me x y); congruence.
Qed.

Lemma act_ipi : allowed s me x y Ipi = true → wp (perform me Ipi) (λ _ s', ok s') s.
Proof.
  simpl. unfold locks_held. rewrite !andb_true_iff, Z.eqb_eq, (local_held s me x y sp k Hacct).
  intros ((Ht & _) & Hk).
  destruct (in_handler_facts s me x y sp k Hacct Ht) as (Hon & Hph & Hf & Hii & Hsp).
  pose proof (local_here C s me x Hgood Hx) as Hh. pose proof (local_sane s me x y sp k Hacct) as Hs.
  destruct own_locks as [Hl1 Hl2]. destruct (local_cpu_ok C s me x y Hgood Hx Hy) as [_ _ _ _ Htlb Hsh].
  unfold interprocessor_interrupt. apply wp_bind. eapply wp_curcpu; [done|]. apply wp_bind.
  eapply (wp_acquire_lock me t); [done..|]. apply wp_bind. eapply wp_cpu_get; [done|].
  assert (set_ints (ints s) s = s) as Hid by by destruct s.
  destruct (Z.testbit _ IPI_PANIC); [|destruct (Z.testbit _ IPI_OFFLINE)].
  - apply wp_bind. eapply (wp_release_locked me t); [done..|]. simpl.
    replace (set_ints (ints s) _) with s by by destruct s. by apply wp_halt.
  - apply wp_bind. eapply (wp_release_locked me t); [done..|]. simpl.
    replace (set_ints (ints s) _) with s by by destruct s. apply wp_bind.
    eapply (wp_acquire_lock me t); [done..|]. apply wp_bind.
    eapply (wp_release_locked me t); [done..|]. simpl.
    replace (set_ints (ints s) _) with s by by destruct s. by apply wp_halt.
  - assert (∀ x', ckeep x x' → c_status x' = Online → c_waiting x' = c_waiting x → c_line x' = c_line x →
              Tlb.tlb_wf (c_tlb x') ∧ Tlb.tlb_spinlock (c_tlb x') = false →
              Z.of_nat (length (c_shootdown x')) = TLBSHOOTDOWN_MAX ∧
                TLBSHOOTDOWN_ALL ≤ c_numshootdown x' ≤ TLBSHOOTDOWN_MAX →
              wp (cpu_upd me (with_ipi 0) ;; spinlock_release (Some me) (IpiLock me) ;; cpu_upd me (with_phase Clearing))
                (λ _ s', ok s') (set_cpus (<[me := x']> (cpus s)) (set_ints (locked me t (IpiLock me) (ints s)) s))) as Hend.
    { intros x' Hck H1 H2 H3 H4 H5. apply wp_bind. eapply wp_cpu_upd; [apply lookup_insert_eq|]. simpl.
      rewrite insert_insert_eq. apply wp_bind.
      eapply (wp_release_locked me t); [eapply (here_cpu me t s me x); [done..|apply Hck]|done..|]. simpl.
      eapply wp_cpu_upd; [apply lookup_insert_eq|]. simpl. rewrite insert_insert_eq.
      eapply good_ok, (good_ipi (with_ipi 0 x')); try done. by rewrite Hf. }
    apply wp_bind. destruct (Z.testbit _ IPI_TLBSHOOTDOWN).
    + apply wp_bind. eapply (wp_shootdowns me x); [done..|]. intros tb Hwf Hlk.
      eapply wp_cpu_upd; [apply lookup_insert_eq|]. simpl. rewrite insert_insert_eq.
      apply (Hend (with_shootdown (c_shootdown x) 0 (with_tlb tb x))); try done. destruct Hsh. split; [done|].
      unfold TLBSHOOTDOWN_ALL, TLBSHOOTDOWN_MAX. simpl. lia.
    + apply wp_ret. specialize (Hend x). rewrite insert_id in Hend by done. by apply Hend.
Qed.

End irq.
End ThreadIrq.
