(* ===== verification/ThreadCpus.v ===== *)
(** * Processors keep the invariant

    Messages between processors, and a new processor that is created and starts. *)

From Stdlib Require Import ZArith Lia.
From stdpp Require Import base numbers list gmap strings.
From S2P Require Import Prelude Tlb Array Threadlist Thread ThreadInts ThreadSystem ThreadMoves ThreadSteps ThreadSwitch ThreadPark ThreadChanges ThreadActions.

Module ThreadCpus.
Import Threadlist Thread ThreadInts ThreadSystem ThreadMoves ThreadSteps ThreadSwitch ThreadPark ThreadChanges ThreadActions.
Implicit Types (C : gmap listid (list positive)) (s : sys) (X : option positive).

Lemma good_acct C s : good C s → acct s.
Proof. by intros (_ & _ & _ & _ & ?). Qed.
Lemma good_tables C s : good C s → tables s.
Proof. by intros (_ & _ & _ & ? & _). Qed.

Lemma free_locks C s c :
  good C s → is_Some (cpus s !! c) →
  splk_holder (ints s) !! RunqueueLock c = Some None ∧ splk_holder (ints s) !! IpiLock c = Some None.
Proof. intros Hg. apply (proj1 (c_free _ (good_acct _ _ Hg))). Qed.

Lemma good_cpu_ok C s c x : good C s → cpus s !! c = Some x → ∃ y, cpu_ok C c x y.
Proof. intros (HI & _) Hx. destruct (i_cpu _ _ _ HI c x Hx) as (y & _ & ?). eauto. Qed.

(** A processor that is sent an interrupt. *)
Lemma good_ipi_sent C s c x code :
  good C s → cpus s !! c = Some x →
  good C (set_cpus (<[c := ipi_sent (ls_uniprocessor s) code x]> (cpus s)) s).
Proof.
  intros Hg Hx. destruct (good_cpu_ok _ _ _ _ Hg Hx) as (y & [_ _ _ _ Htlb Hsh]).
  eapply good_cpu; [done|done|apply ipi_sent_keep|by destruct (ls_uniprocessor s)..|].
  intros Hl. left. by destruct (ls_uniprocessor s).
Qed.

Section cpus.
Context (C : gmap listid (list positive)) (s : sys) (me : positive) (x : cpu) (y : thread) (sp k : Z).
Hypothesis Hgood : good C s.
Hypothesis Hx : cpus s !! me = Some x.
Hypothesis Hy : threads s !! c_curthread x = Some y.
Hypothesis Hacct : acct_cur s me x y sp k.

Local Notation t := (c_curthread x).

Lemma act_shutdown : allowed s me x y Shutdown = true → wp (perform me Shutdown) (λ _ s', ok s') s.
Proof.
  intros _. simpl. unfold thread_shutdown, ipi_broadcast.
  destruct (b_cpus _ (good_tables _ _ Hgood)) as (l & Hl & _ & Hin). apply wp_bind.
  eapply wp_allcpus_num; [done|].
  apply (wp_for_loop (λ _ s', ∃ m, s' = set_cpus m s ∧ good C s' ∧ ∃ x', m !! me = Some x' ∧ c_curthread x' = t)).
  - exists (cpus s). split; [by destruct s|]. split; [done|]. eauto.
  - intros i s' Hi (m & -> & Hg & x' & Hx' & Ht). apply wp_bind.
    destruct (b_cpus _ (good_tables _ _ Hg)) as (l' & Hl' & _ & Hin').
    eapply wp_allcpus_get; [exact Hl'|pose proof (Array.h_num _ _ Hl); pose proof (Array.h_num _ _ Hl'); simpl in *; lia|].
    intros c [xc Hxc]%Hin'. pose proof (inv_here _ _ _ me x' (proj1 Hg) Hx') as Hh. rewrite Ht in Hh.
    apply wp_bind. eapply wp_curcpu; [done|]. case_bool_decide as Hne; [|apply wp_ret; eauto 6].
    eapply (wp_ipi_send me t); [done|by eapply (local_sane s)| |done|done|].
    { by apply (free_locks C _ c Hg). }
    exists (<[c := ipi_sent (ls_uniprocessor s) IPI_OFFLINE xc]> m). split; [done|].
    split; [by apply (good_ipi_sent C (set_cpus m s))|]. exists x'. by rewrite lookup_insert_ne.
  - intros s' (m & -> & Hg & _). by eapply good_ok.
Qed.

Lemma act_shootdown target mapping :
  allowed s me x y (Shootdown target mapping) = true → wp (perform me (Shootdown target mapping)) (λ _ s', ok s') s.
Proof.
  simpl. destruct (cpus s !! target) as [xt|] eqn:Hxt; rewrite ?andb_false_r; [|done].
  rewrite andb_true_iff, negb_true_iff, Z.eqb_neq. intros (_ & Hne).
  pose proof (local_here C s me x Hgood Hx) as Hh. pose proof (local_sane s me x y sp k Hacct) as Hs.
  destruct (free_locks C s target Hgood) as [_ Hl]; [by eexists|].
  destruct (good_cpu_ok _ _ _ _ Hgood Hxt) as (yt & [_ _ _ _ Htlb [Hlen Hn]]).
  unfold ipi_tlbshootdown. apply wp_bind. eapply (wp_acquire_lock me t); [done..|]. apply wp_bind.
  eapply wp_cpu_get; [done|].
  assert (∀ l n, Z.of_nat (length l) = TLBSHOOTDOWN_MAX → TLBSHOOTDOWN_ALL ≤ n ≤ TLBSHOOTDOWN_MAX →
    wp (cpu_upd target (λ x, with_ipi (Z.lor (c_ipi_pending x) (Z.shiftl 1 IPI_TLBSHOOTDOWN)) x) ;;
        mainbus_send_ipi target ;; spinlock_release (Some me) (IpiLock target)) (λ _ s', ok s')
       (set_cpus (<[target := with_shootdown l n xt]> (cpus s)) (set_ints (locked me t (IpiLock target) (ints s)) s)))
    as Hend.
  { intros l n Hl' Hn'. apply wp_bind. eapply wp_cpu_upd; [apply lookup_insert_eq|]. simpl.
    rewrite insert_insert_eq. apply wp_bind. eapply wp_mainbus_send_ipi; [apply lookup_insert_eq|]. simpl.
    set (x' := ipi_sent (ls_uniprocessor s) IPI_TLBSHOOTDOWN (with_shootdown l n xt)).
    assert (good C (set_cpus (<[target := x']> (cpus s)) s)) as Hg.
    { unfold x'. eapply (good_cpu C s target xt); [done|done|by destruct (ls_uniprocessor s)..|].
      intros E. left. by destruct (ls_uniprocessor s). }
    unfold x', ipi_sent in Hg. destruct (ls_uniprocessor s); simpl; rewrite ?insert_insert_eq;
      (eapply (wp_release_locked me t); [by eapply (here_cpu me t s target xt)|done..|]);
      by apply (good_ok C). }
  apply wp_bind. destruct (Z.eqb_spec (c_numshootdown xt) TLBSHOOTDOWN_MAX) as [|Hm].
  - eapply wp_cpu_upd; [done|]. by apply Hend.
  - unfold TLBSHOOTDOWN_ALL, TLBSHOOTDOWN_MAX in *.
    destruct (znth_is_Some (c_shootdown xt) (c_numshootdown xt)) as [v Hv]; [lia|].
    apply wp_bind. eapply wp_deref; [done|]. eapply wp_cpu_upd; [done|]. apply Hend; [by rewrite length_zset|lia].
Qed.

Lemma act_hatch n : allowed s me x y (Hatch n) = true → wp (perform me (Hatch n)) (λ _ s', ok s') s.
Proof.
  simpl. rewrite andb_true_iff, bool_decide_eq_true, Z.eqb_eq. intros (Hst & Hn).
  destruct (a_start _ _ _ _ _ _ Hacct Hst) as (Hid & Hph & Hf). unfold cpu_hatch.
  apply wp_bind. eapply wp_cpu_upd; [done|]. set (x' := with_status Online x).
  destruct (local_cpu_ok C s me x y Hgood Hx Hy) as [_ _ _ _ Htlb Hsh].
  set (s1 := set_cpus (<[me := x']> (cpus s)) s).
  assert (good C s1) as Hg by (apply (good_cpu C s me x x'); try done; by left).
  assert (cpus s1 !! me = Some x') as Hx' by apply lookup_insert_eq.
  destruct (c_cur _ (good_acct _ _ Hg) me x' y Hx' Hy) as (sp' & k' & Ha).
  pose proof (local_here C s1 me x' Hg Hx') as Hh. apply wp_bind. eapply wp_curcpu; [done|].
  apply wp_bind. eapply wp_cpu_get; [done|]. apply wp_bind, wp_KASSERT; [simpl; lia|]. apply wp_bind.
  pose proof (local_k _ _ _ _ _ _ Ha) as Hk.
  pose proof (local_spl s1 me x' y sp' k' Ha) as Hspl. change (spl_of t (ints s) = (sp', sp' + k')) in Hspl.
  eapply (wp_splx me t); [done|by eapply (local_sane s1 me x')|..]; simpl; rewrite ?Hspl; simpl.
  - apply Ha.
  - by left.
  - lia.
  - intros _. apply wp_ret, (good_ok C). replace (sp' + k' + IPL_NONE - sp') with (0 + k') by (unfold IPL_NONE; lia).
    apply (good_spl C s1 me x' y sp' k' Hg Hx' Hy Ha 0); auto.
Qed.

End cpus.
End ThreadCpus.
