(* ===== verification/ThreadWake.v ===== *)
(** * Wait channels keep the invariant

    Creating and destroying a channel, and waking the threads that sleep on it. *)

From Stdlib Require Import ZArith Lia.
From stdpp Require Import base numbers list gmap strings.
From S2P Require Import Prelude Tlb Array Threadlist Thread ThreadInts ThreadSystem ThreadMoves ThreadSteps ThreadSwitch ThreadPark ThreadChanges ThreadActions ThreadCpus.

Module ThreadWake.
Import Threadlist Thread ThreadInts ThreadSystem ThreadMoves ThreadSteps ThreadSwitch ThreadPark ThreadChanges ThreadActions ThreadCpus.
Implicit Types (C : gmap listid (list positive)) (s : sys) (X : option positive).

(** ** Moves *)

Lemma good_tl C s h' : good C s → rep h' C (dom (threads s)) → good C (set_tl h' s).
Proof.
  intros (HI & Hn & Hc & [T1 T2 T3 T4 T5 T6 T7 T8] & Hac) HR. split; [by apply inv_tl|].
  split; [done|]. split; [done|]. split; [done|]. by eapply acct_same.
Qed.

(** A thread in transit is put on a list as it is. *)
Lemma move_put_same C s l xs ys t y h' :
  inv (Some t) C s → C !! l = Some xs → (∀ u, u ∈ ys ↔ u ∈ xs ∨ u = t) →
  rep h' (<[l := ys]> C) (dom (threads s)) →
  threads s !! t = Some y → listed s l y → tgood y → (∃ c, t_cpu y = Some c ∧ is_Some (cpus s !! c)) →
  inv None (<[l := ys]> C) (set_tl h' s).
Proof.
  intros HI Hl Hys HR Hy Hli Hg Hc. pose proof (move_put C s l xs ys t y y h' HI Hl Hys HR Hy Hli Hg Hc) as H.
  rewrite (insert_id (threads s)) in H by done. destruct s. by apply H.
Qed.

(** A thread in transit is put on the run queue of its processor, which is told. *)
Lemma inv_enqueued C s t y c x xs h' :
  inv (Some t) C s → threads s !! t = Some y → t_cpu y = Some c → tgood y → cpus s !! c = Some x →
  C !! Runqueue c = Some xs → rep h' (<[Runqueue c := xs ++ [t]]> C) (dom (threads s)) →
  inv None (<[Runqueue c := xs ++ [t]]> C)
    (set_tl h' (set_cpus (<[c := poked (ls_uniprocessor s) x]> (cpus s))
       (set_threads (<[t := with_state S_READY y]> (threads s)) s))).
Proof.
  intros HI Hy Hc Hg Hx HC HR.
  assert (inv None (<[Runqueue c := xs ++ [t]]> C)
            (set_tl h' (set_threads (<[t := with_state S_READY y]> (threads s)) s))) as HI1.
  { eapply move_put; [done|done| |done|done| |done|..]; simpl.
    - intros u. rewrite elem_of_app, list_elem_of_singleton. done.
    - split; [by eexists|done].
    - exists c. split; [done|by eexists].
    - done. }
  destruct (i_cpu _ _ _ HI c x Hx) as (y1 & _ & [_ _ _ _ Htlb Hsh]).
  apply (inv_cpu None _ _ c x (poked (ls_uniprocessor s) x)) in HI1; [exact HI1|done|apply poked_keep|..];
    unfold poked; by destruct (c_isidle x), (ls_uniprocessor s).
Qed.

Lemma poked_told uni x : told x (poked uni x).
Proof.
  split; [apply poked_keep|]. unfold poked. destruct (c_isidle x), uni; repeat split; done.
Qed.

(** The processors other than the acting one, when thread [t] is put on the run
    queue of processor [c]. *)
Lemma shifted_enqueued me C C1 s s' c x xs t c' :
  tables s → is_Some (cpus s !! me) → cpus s !! c = Some x →
  C1 !! Runqueue c = Some xs → (∀ l, C1 !! l = C !! l ∨ (∀ c, l ≠ Runqueue c) ∧ l ≠ Private c') →
  (c' ≠ me → cpus s' !! c' = <[c := poked (ls_uniprocessor s) x]> (cpus s) !! c') →
  c' ≠ me → shifted C (<[Runqueue c := xs ++ [t]]> C1) s s' c'.
Proof.
  intros Htab Hme Hx HC1 HC Hcp Hne x1 Hx1. rewrite Hcp by done.
  assert (C1 !! Private c' = C !! Private c') as HP.
  { destruct (HC (Private c')) as [?|[_ ?]]; done. }
  assert (∀ c, C1 !! Runqueue c = C !! Runqueue c) as HQ.
  { intros c0. destruct (HC (Runqueue c0)) as [?|[E _]]; [done|]. by destruct (E c0). }
  split; [by rewrite lookup_insert_ne|]. destruct (decide (c = c')) as [<-|Hcc].
  - rewrite Hx in Hx1. injection Hx1 as <-. exists (poked (ls_uniprocessor s) x). rewrite lookup_insert_eq.
    split; [done|]. split; [apply poked_told|]. right. split.
    + exists xs, [t]. rewrite <- HQ. by rewrite lookup_insert_eq.
    + intros Hid. unfold poked. rewrite Hid. destruct (ls_uniprocessor s) eqn:Hu; [|done].
      destruct Hne. eapply (b_uni _ Htab); [done|by eexists|done].
  - exists x1. rewrite lookup_insert_ne by done. split; [done|]. split; [done|]. left.
    rewrite lookup_insert_ne by congruence. apply HQ.
Qed.

(** The sleepers of a channel go to a private list: [x'] is the acting processor
    with the phase that it enters. *)
Lemma wp_grab fuel me w C s x' ws ps (Q : unit → sys → Prop) :
  inv None C (set_cpus (<[me := x']> (cpus s)) s) → c_phase x' = WakingAll →
  C !! Channel w = Some ws → C !! Private me = Some ps → (length ws < fuel)%nat →
  (∀ h' C', inv None C' (set_cpus (<[me := x']> (cpus s)) (set_tl h' s)) →
     (∀ l, l ≠ Channel w → l ≠ Private me → C' !! l = C !! l) → Q tt (set_tl h' s)) →
  wp (grab_loop fuel me w) Q s.
Proof.
  revert C s ws ps. induction fuel as [|fuel IH]; intros C s ws ps HI Hp Hws Hps Hlen HQ; [lia|]. simpl.
  pose proof (i_rep _ _ _ HI) as HR. apply wp_bind, wp_in_tl.
  eapply threadlist_remhead_spec; [exact HR|done|]. intros h1 HR1. destruct ws as [|t0 ws]; simpl in *.
  - apply wp_ret, (HQ h1 C); [|done]. rewrite insert_id in HR1 by done. exact (inv_tl _ _ _ _ HI HR1).
  - assert (NoDup (t0 :: ws)) as [Hnd _]%NoDup_cons by by eapply (rep_nodup _ _ _ HR).
    destruct (i_list _ _ _ HI _ _ t0 Hws) as (y0 & Hy0 & _ & Hs0); [left|]. simpl in Hy0.
    destruct (i_thread _ _ _ HI t0 y0 Hy0) as [_ Hm0 Hc0 He0]; [done|].
    opose proof (move_take C _ (Channel w) _ ws t0 h1 HI Hws _ _ _) as HI1; [left|set_solver|done|].
    apply wp_bind, wp_in_tl.
    eapply (threadlist_addtail_spec _ _ _ _ ps); [exact HR1|by rewrite lookup_insert_ne|apply elem_of_dom; by eexists
      |apply (i_transit _ _ _ HI1 t0 eq_refl)|]. intros h2 HR2.
    opose proof (move_put_same _ _ (Private me) ps (ps ++ [t0]) t0 y0 h2 HI1 _ _ _ _ _ _ _) as HI2;
      [by rewrite lookup_insert_ne|intros u; rewrite elem_of_app, list_elem_of_singleton; done
      |done|done|exists x'; split; [apply lookup_insert_eq|by rewrite Hp]|done|done|].
    eapply (IH _ (set_tl h2 s) ws (ps ++ [t0])); [exact HI2|done|..].
    + rewrite lookup_insert_ne by done. apply lookup_insert_eq.
    + apply lookup_insert_eq.
    + lia.
    + intros h' C' HI' HC'. apply (HQ h' C'); [exact HI'|]. intros l H1 H2. rewrite HC' by done.
      by rewrite !lookup_insert_ne.
Qed.

Section wake.
Context (C : gmap listid (list positive)) (s : sys) (me : positive) (x : cpu) (y : thread) (sp k : Z).
Hypothesis Hgood : good C s.
Hypothesis Hx : cpus s !! me = Some x.
Hypothesis Hy : threads s !! c_curthread x = Some y.
Hypothesis Hacct : acct_cur s me x y sp k.

Local Notation t := (c_curthread x).

(** ** [wchan_wakeone] *)

(** Only the phase of the acting processor changes, and threads on lists that are
    not run queues. *)
Lemma moved_self C' s' p :
  c_status x = Online → (c_isidle x = true → t_frames y ≠ []) →
  cpus s' = <[me := with_phase p x]> (cpus s) → threads s' = threads s →
  (ints s' = ints s ∧ allcpus s' = allcpus s ∧ allwchans s' = allwchans s ∧ wchans s' = wchans s ∧
    procs s' = procs s ∧ kproc s' = kproc s ∧ ls_uniprocessor s' = ls_uniprocessor s) →
  (∀ c, c ≠ me → C' !! Runqueue c = C !! Runqueue c) → (∀ c, c ≠ me → C' !! Private c = C !! Private c) →
  phase_counts C' me p →
  (p ≠ Free → handler_phase p = true → t_frames y ≠ []) →
  (p ≠ Free → handler_phase p = false → 0 < k) → (handler_phase p = true → k = 0) →
  moved me C C' s s' x (with_phase p x) y k.
Proof.
  intros Hon Hb Hcp Hth Hrest HQ HP Hcnt H1 H2 H3. split; try done.
  - rewrite Hcp. apply lookup_insert_eq.
  - intros c Hne x1 Hx1. split; [auto|]. exists x1. rewrite Hcp, lookup_insert_ne by done.
    split; [done|]. split; [apply reflexivity|]. auto.
  - intros c. rewrite Hcp. apply insert_is_Some_iff. by eexists.
  - intros v. rewrite Hth. apply reflexivity.
Qed.

Lemma own_private : private_used (c_phase x) = false → default [] (C !! Private me) = [].
Proof.
  intros Hp. destruct (local_cpu_ok C s me x y Hgood Hx Hy) as [_ _ _ H _ _]. by rewrite Hp in H.
Qed.

Lemma anywhere_busy : anywhere x y = true → c_isidle x = true → t_frames y ≠ [].
Proof.
  intros Ha Hid Hf. destruct (anywhere_facts s me x y sp k Hacct Ha) as (_ & _ & H).
  destruct (H Hf). congruence.
Qed.

Lemma act_wake_one w lk : allowed s me x y (WakeOne w lk) = true → wp (perform me (WakeOne w lk)) (λ _ s', ok s') s.
Proof.
  simpl. unfold holds_lock. rewrite !andb_true_iff, !bool_decide_eq_true. intros ((Ht & Hw) & Hl).
  destruct (anywhere_facts s me x y sp k Hacct Ht) as (Hon & Hph & _). pose proof (anywhere_busy Ht) as Hb.
  pose proof (local_here C s me x Hgood Hx) as Hh. pose proof Hgood as (HI & _).
  destruct (proj2 (i_lists _ _ _ HI) w Hw) as [ws Hws].
  unfold wchan_wakeone. apply wp_bind. eapply wp_holds_lock; [done..|]. apply wp_bind, wp_KASSERT; [by rewrite bool_decide_true|].
  apply wp_bind, wp_in_tl. eapply threadlist_remhead_spec; [apply (i_rep _ _ _ HI)|done|]. intros h' HR.
  destruct ws as [|t0 ws]; simpl in *.
  - apply wp_ret. rewrite insert_id in HR by done. eapply good_ok. by eapply good_tl.
  - eapply wp_cpu_upd; [done|]. destruct (i_list _ _ _ HI _ _ t0 Hws) as (y0 & Hy0 & _ & Hs0); [left|].
    destruct (i_thread _ _ _ HI t0 y0 Hy0) as [_ Hm0 Hc0 He0]; [done|].
    assert (NoDup (t0 :: ws)) as [Hnd _]%NoDup_cons by by eapply (rep_nodup _ _ _ (i_rep _ _ _ HI)).
    eapply good_ok, (good_moved me C (<[Channel w := ws]> C) s _ x (with_phase (WakingOne t0) x) y sp k); try done.
    + eapply (move_phase (Some t0) None _ (set_tl h' s) me x); try done.
      * eapply move_take; [done|done|left| |done]. set_solver.
      * apply private_unused; [done|]. rewrite lookup_insert_ne by done. apply own_private. by rewrite Hph.
      * right; right. split; [done|]. split; [|by rewrite Hph]. exists t0, y0. by repeat split.
    + apply moved_self; try done; [intros; by rewrite lookup_insert_ne..|].
      intros _ _. rewrite (a_held _ _ _ _ _ _ Hacct). pose proof (held_pos _ _ _ Hl). lia.
Qed.

(** ** [wchan_wakeall] *)

Lemma act_wake_all w lk : allowed s me x y (WakeAll w lk) = true → wp (perform me (WakeAll w lk)) (λ _ s', ok s') s.
Proof.
  simpl. unfold holds_lock. rewrite !andb_true_iff, !bool_decide_eq_true. intros ((Ht & Hw) & Hl).
  destruct (anywhere_facts s me x y sp k Hacct Ht) as (Hon & Hph & _). pose proof (anywhere_busy Ht) as Hb.
  pose proof (local_here C s me x Hgood Hx) as Hh. pose proof Hgood as (HI & _).
  destruct (proj2 (i_lists _ _ _ HI) w Hw) as [ws Hws].
  assert (default [] (C !! Private me) = []) as HP by (apply own_private; by rewrite Hph).
  unfold wchan_wakeall. apply wp_bind. eapply wp_holds_lock; [done..|].
  apply wp_bind, wp_KASSERT; [by rewrite bool_decide_true|]. apply wp_bind, wp_in_tl.
  eapply threadlist_init_spec; [apply (i_rep _ _ _ HI)|done|]. intros h1 HR1. apply wp_bind, wp_gets. apply wp_bind.
  assert (inv None (<[Private me := []]> C) (set_tl h1 s)) as HI1 by by apply inv_init.
  eapply (wp_grab _ me w (<[Private me := []]> C) (set_tl h1 s) (with_phase WakingAll x) ws []);
    [|done|by rewrite lookup_insert_ne|apply lookup_insert_eq| |].
  - eapply (move_phase None None _ (set_tl h1 s) me x); try done.
    + split; simpl; rewrite lookup_insert_eq; [done|]. intros xs v yv [= <-] []%elem_of_nil.
    + right; left. by rewrite Hph.
  - simpl. pose proof (rep_size _ _ _ _ _ (i_rep _ _ _ HI) Hws). rewrite size_dom in *. lia.
  - intros h' C' HI' HC'. eapply wp_cpu_upd; [done|].
    eapply good_ok, (good_moved me C C' s _ x (with_phase WakingAll x) y sp k); try done.
    apply moved_self; try done.
    + intros c Hne. by rewrite HC', lookup_insert_ne by congruence.
    + intros c Hne. by rewrite HC', lookup_insert_ne by congruence.
    + intros _ _. rewrite (a_held _ _ _ _ _ _ Hacct). pose proof (held_pos _ _ _ Hl). lia.
Qed.

(** ** Waking the threads *)

(** The acting processor, when processor [c] has been told of a new thread. *)
Definition acting (c : positive) : cpu := if decide (c = me) then poked (ls_uniprocessor s) x else x.

Lemma acting_keep c : ckeep x (acting c) ∧ c_status (acting c) = c_status x ∧ c_waiting (acting c) = c_waiting x.
Proof. unfold acting. destruct (decide _); [|done]. destruct (poked_told (ls_uniprocessor s) x) as (? & ? & ? & _). auto. Qed.

Lemma acting_lookup c xc :
  cpus s !! c = Some xc → <[c := poked (ls_uniprocessor s) xc]> (cpus s) !! me = Some (acting c).
Proof.
  intros Hxc. unfold acting. destruct (decide (c = me)) as [->|]; [|by rewrite lookup_insert_ne].
  rewrite lookup_insert_eq. congruence.
Qed.

Lemma poked_phase uni p z : poked uni (with_phase p z) = with_phase p (poked uni z).
Proof. unfold poked. simpl. by destruct (c_isidle z), uni. Qed.

(** Thread [t0] has been put on the run queue of processor [c], and the acting
    processor goes on in phase [p]. *)
Lemma moved_enqueued C1 s' t0 y0 c xc xs p :
  c_phase x ≠ Free → c_status x = Online →
  threads s !! t0 = Some y0 → cpus s !! c = Some xc → C1 !! Runqueue c = Some xs →
  (∀ l, l ≠ Private me → C1 !! l = C !! l) →
  cpus s' = <[me := with_phase p (acting c)]> (<[c := poked (ls_uniprocessor s) xc]> (cpus s)) →
  threads s' = <[t0 := with_state S_READY y0]> (threads s) →
  (ints s' = ints s ∧ allcpus s' = allcpus s ∧ allwchans s' = allwchans s ∧ wchans s' = wchans s ∧
    procs s' = procs s ∧ kproc s' = kproc s ∧ ls_uniprocessor s' = ls_uniprocessor s) →
  phase_counts (<[Runqueue c := xs ++ [t0]]> C1) me p → (p = Free ∨ p = c_phase x) →
  moved me C (<[Runqueue c := xs ++ [t0]]> C1) s s' x (with_phase p (acting c)) y k.
Proof.
  intros Hph Hon Hy0 Hxc Hxs HC1 Hcp Hth Hrest Hcnt Hp. destruct (acting_keep c) as ((E1 & E2 & E3) & E4 & E5).
  pose proof Hacct as [A1 A2 A3 A4 A5 A6 A7 A8 A9 Ah A10 A11 A12].
  split; try done; simpl.
  - rewrite Hcp. apply lookup_insert_eq.
  - split; [done|]. split; [done|]. split; [congruence|done].
  - intros Hid. apply A7; auto.
  - intros c' Hne.
    eapply (shifted_enqueued me C C1 s s' c xc xs t0); [by eapply good_tables|by eexists|done|done|..|done].
    + intros l. destruct (decide (l = Private me)) as [->|]; [|left; auto]. right. split; [done|congruence].
    + intros _. by rewrite Hcp, lookup_insert_ne.
  - intros c'. rewrite Hcp. rewrite insert_is_Some_iff by (rewrite (acting_lookup c xc) by done; by eexists).
    apply insert_is_Some_iff. by eexists.
  - intros v. rewrite Hth. destruct (decide (t0 = v)) as [<-|]; [|rewrite lookup_insert_ne by done; apply reflexivity].
    rewrite lookup_insert_eq, Hy0. by constructor.
  - destruct Hp as [-> | ->]; [done|auto].
  - destruct Hp as [-> | ->]; [done|auto].
  - destruct Hp as [-> | ->]; [done|auto].
Qed.

Lemma wake_facts t0 y0 :
  threads s !! t0 = Some y0 → ∃ c xc xs, t_cpu y0 = Some c ∧ cpus s !! c = Some xc ∧ C !! Runqueue c = Some xs ∧ tgood y0.
Proof.
  intros Hy0. pose proof Hgood as (HI & _). destruct (i_thread _ _ _ HI t0 y0 Hy0) as [_ Hm0 (c & Hc & [xc Hxc]) He0]; [done|].
  destruct (proj1 (i_lists _ _ _ HI) c) as [_ [xs Hxs]]; [by eexists|]. by exists c, xc, xs.
Qed.

Lemma wake_one t0 :
  c_phase x = WakingOne t0 → c_status x = Online →
  wp (thread_make_runnable me t0 false ;; cpu_upd me (with_phase Free)) (λ _ s', ok s') s.
Proof.
  intros Hph Hon. pose proof Hgood as (HI & _). destruct (i_hand _ _ _ HI me x t0 Hx Hph) as (Ho & y0 & Hy0 & Hs0).
  destruct (wake_facts t0 y0 Hy0) as (c & xc & xs & Hc & Hxc & Hxs & Hg0).
  destruct (free_locks C s c Hgood) as [Hl1 Hl2]; [by eexists|]. apply wp_bind.
  eapply (wp_runnable me t t0 y0 c xc xs C s); [by eapply local_here|by eapply local_sane|done..|apply (i_rep _ _ _ HI)|done|done|].
  intros h' HR. eapply wp_cpu_upd; [by apply acting_lookup|].
  eapply good_ok, (good_moved me C (<[Runqueue c := xs ++ [t0]]> C) s _ x (with_phase Free (acting c)) y sp k); try done.
  - assert (inv (Some t0) C (set_cpus (<[me := with_phase Free x]> (cpus s)) s)) as HI1.
    { eapply (move_phase None (Some t0) C s me x); try done.
      - apply private_unused; [done|]. apply own_private. by rewrite Hph.
      - left. split; [done|]. split; [by exists t0|done]. }
    set (xc' := if decide (c = me) then with_phase Free x else xc).
    assert (<[me := with_phase Free x]> (cpus s) !! c = Some xc') as Hxc'.
    { unfold xc'. destruct (decide (c = me)) as [->|]; [apply lookup_insert_eq|by rewrite lookup_insert_ne]. }
    pose proof (inv_enqueued C _ t0 y0 c xc' xs h' HI1 Hy0 Hc Hg0 Hxc' Hxs HR) as HI2. simpl in *.
    replace (<[c := _]> (<[me := _]> (cpus s))) with
      (<[me := with_phase Free (acting c)]> (<[c := poked (ls_uniprocessor s) xc]> (cpus s))) in HI2; [exact HI2|].
    unfold xc', acting. destruct (decide (c = me)) as [->|]; [|by rewrite insert_insert_ne].
    by rewrite !insert_insert_eq, poked_phase.
  - eapply moved_enqueued; try done; [congruence|by left].
Qed.

Lemma act_wake_round : allowed s me x y WakeRound = true → wp (perform me WakeRound) (λ _ s', ok s') s.
Proof.
  simpl. unfold online. rewrite andb_true_iff, bool_decide_eq_true. intros (Hon & Hp).
  unfold wake_round. apply wp_bind. eapply wp_cpu_get; [done|]. destruct (c_phase x) as [|t0| | | | |] eqn:Hph; try done;
    [by apply wake_one|]. pose proof Hgood as (HI & _).
  destruct (local_cpu_ok C s me x y Hgood Hx Hy) as [_ _ _ HP _ _]. rewrite Hph in HP. destruct HP as [ps Hps].
  apply wp_bind, wp_in_tl. eapply threadlist_remhead_spec; [apply (i_rep _ _ _ HI)|done|]. intros h1 HR1.
  destruct ps as [|t0 ps]; simpl in *.
  - apply wp_bind, wp_in_tl. eapply threadlist_cleanup_spec; [exact HR1|apply lookup_insert_eq|].
    eapply wp_cpu_upd; [done|]. rewrite insert_id in HR1 by done.
    eapply good_ok, (good_moved me C C s _ x (with_phase Free x) y sp k); try done.
    + eapply (move_phase None None C (set_tl h1 s) me x); try done; [exact (inv_tl _ _ _ _ HI HR1)|..].
      * apply private_unused; [done|]. by rewrite Hps.
      * right; left. by rewrite Hph.
    + apply moved_self; try done. intros Hid. apply (a_phase _ _ _ _ _ _ Hacct); [by rewrite Hph|auto].
  - assert (NoDup (t0 :: ps)) as [Hnd _]%NoDup_cons by by eapply (rep_nodup _ _ _ (i_rep _ _ _ HI)).
    destruct (i_list _ _ _ HI _ _ t0 Hps) as (y0 & Hy0 & _); [left|].
    destruct (wake_facts t0 y0 Hy0) as (c & xc & xs & Hc & Hxc & Hxs & Hg0).
    destruct (free_locks C s c Hgood) as [Hl1 Hl2]; [by eexists|].
    opose proof (move_take C s (Private me) _ ps t0 h1 HI Hps _ _ HR1) as HI1; [left|set_solver|].
    assert (<[Private me := ps]> C !! Runqueue c = Some xs) as Hxs1 by by rewrite lookup_insert_ne.
    eapply (wp_runnable me t t0 y0 c xc xs (<[Private me := ps]> C) (set_tl h1 s));
      [exact (local_here C s me x Hgood Hx)|by eapply (local_sane s)|done..|apply (i_transit _ _ _ HI1 t0 eq_refl)|].
    intros h' HR. simpl in *.
    eapply good_ok, (good_moved me C (<[Runqueue c := xs ++ [t0]]> (<[Private me := ps]> C)) s _ x
                       (with_phase WakingAll (acting c)) y sp k); try done.
    + exact (inv_enqueued _ _ t0 y0 c xc xs h' HI1 Hy0 Hc Hg0 Hxc Hxs1 HR).
    + eapply moved_enqueued; try done; try congruence.
      * intros l Hl. by rewrite lookup_insert_ne.
      * simpl. symmetry. apply insert_id. rewrite (acting_lookup c xc) by done.
        destruct (acting_keep c) as ((_ & _ & E) & _). rewrite Hph in E. rewrite <- E. by destruct (acting c).
      * right. by rewrite Hph.
Qed.

End wake.
End ThreadWake.
