(* ===== verification/ThreadWchan.v ===== *)
(** * Wait channels come and go

    [wchan_create] and [wchan_destroy] keep the invariant, in particular the array
    of all channels and the index in it that each channel has. *)

From Stdlib Require Import ZArith Lia.
From stdpp Require Import base numbers list gmap strings.
From S2P Require Import Prelude Tlb Array Threadlist Thread ThreadInts ThreadSystem ThreadMoves ThreadSteps ThreadSwitch ThreadPark ThreadChanges ThreadActions ThreadCpus.

Module ThreadWchan.
Import Threadlist Thread ThreadInts ThreadSystem ThreadMoves ThreadSteps ThreadSwitch ThreadPark ThreadChanges ThreadActions ThreadCpus.
Implicit Types (C : gmap listid (list positive)) (s : sys) (X : option positive).

Definition set_channels (h : lists listid) (a : Array.array positive) (ws : gmap positive wchan) s : sys :=
  set_wchans ws (set_allwchans a (set_tl h s)).

Lemma inv_channels X C s h' a ws :
  inv X C s → rep h' C (dom (threads s)) →
  (∀ w xs t, C !! Channel w = Some xs → t ∈ xs → is_Some (ws !! w)) →
  (∀ w, is_Some (ws !! w) → is_Some (C !! Channel w)) → inv X C (set_channels h' a ws s).
Proof.
  intros [H1 H2 H3 H4 H5 H6 H7 [H8 H9]] HR Hw1 Hw2. split; try done.
  - intros t y Hy HX. destruct (H2 t y Hy HX). by split.
  - intros l xs t Hl Ht. destruct (H5 l xs t Hl Ht) as (y & Hy & Hli). exists y. split; [done|].
    destruct l as [c|c|w|c]; try done. destruct Hli as [_ Hli]. split; [|done]. by eapply Hw1.
Qed.

(** The array of all channels has the channel [w] at its index. *)
Definition indexed (l : list positive) (ws : gmap positive wchan) : Prop :=
  (∀ w x, ws !! w = Some x → 0 ≤ wc_index x ∧ l !! Z.to_nat (wc_index x) = Some w) ∧
  (∀ i w, l !! i = Some w → ∃ x, ws !! w = Some x ∧ wc_index x = Z.of_nat i).

Lemma good_channels C s h' a ws l :
  good C s → rep h' C (dom (threads s)) →
  (∀ w xs t, C !! Channel w = Some xs → t ∈ xs → is_Some (ws !! w)) →
  (∀ w, is_Some (ws !! w) → is_Some (C !! Channel w) ∧ Z.pos w < 2 ^ 29) →
  Array.holds a l → indexed l ws → good C (set_channels h' a ws s).
Proof.
  intros (HI & Hn & Hc & [T1 T2 T3 T4 T5 T6 T7 T8] & Hac) HR Hw1 Hw2 Ha [Hi1 Hi2].
  split; [apply inv_channels; try done; naive_solver|]. split; [done|]. split; [done|]. split; [|by eapply acct_same].
  split; try done; simpl.
  - by exists l.
  - naive_solver.
Qed.

Lemma indexed_nodup l ws : indexed l ws → NoDup l.
Proof.
  intros [_ Hi]. apply NoDup_alt. intros i j w H1 H2. destruct (Hi _ _ H1) as (x1 & E1 & F1), (Hi _ _ H2) as (x2 & E2 & F2).
  rewrite E1 in E2. injection E2 as <-. lia.
Qed.

Lemma indexed_add l ws w name :
  indexed l ws → ws !! w = None →
  indexed (l ++ [w]) (<[w := mkWchan name (Z.of_nat (length l))]> ws).
Proof.
  intros [H1 H2] Hw. split.
  - intros w' x [[<- <-]|[Hne Hx]]%lookup_insert_Some; simpl.
    + rewrite Nat2Z.id, lookup_app_r, Nat.sub_diag by done. split; [lia|done].
    + destruct (H1 w' x Hx) as [? Hl]. split; [done|]. by apply lookup_app_l_Some.
  - intros i w' [Hl|[Hl1 Hl2]]%lookup_app_Some.
    + destruct (H2 i w' Hl) as (x & Hx & Hi). exists x. rewrite lookup_insert_ne by congruence. done.
    + destruct (i - length l)%nat as [|n] eqn:E; simpl in Hl2; [|done]. injection Hl2 as <-.
      eexists. rewrite lookup_insert_eq. split; [done|]. simpl. lia.
Qed.

(** The last channel takes the place of [w]. *)
Lemma indexed_remove l ws w x w2 x2 :
  indexed l ws → ws !! w = Some x → wc_index x < Z.of_nat (length l) - 1 →
  l !! (length l - 1)%nat = Some w2 → ws !! w2 = Some x2 →
  indexed (take (length l - 1) (<[Z.to_nat (wc_index x) := w2]> l))
    (delete w (<[w2 := mkWchan (wc_name x2) (wc_index x)]> ws)).
Proof.
  intros [H1 H2] Hx Hlt Hw2 Hx2. destruct (H1 w x Hx) as [Hi0 Hi]. set (i := Z.to_nat (wc_index x)) in *.
  destruct (H2 _ _ Hw2) as (x2' & Hx2' & Hi2). assert (x2' = x2) as -> by congruence.
  assert (w2 ≠ w) as Hne by (intros ->; assert (x2 = x) as -> by congruence; lia). split.
  - intros w' x' [Hn' [[<- <-]|[Hn2 Hx']]%lookup_insert_Some]%lookup_delete_Some; simpl.
    + split; [done|]. fold i. rewrite lookup_take_Some. split; [|lia]. apply list_lookup_insert_eq. lia.
    + destruct (H1 w' x' Hx') as [Hj0 Hj]. split; [done|]. rewrite lookup_take_Some.
      assert (Z.to_nat (wc_index x') ≠ i) by (intros E; rewrite E in Hj; congruence).
      pose proof (lookup_lt_Some _ _ _ Hj). rewrite list_lookup_insert_ne by done. split; [done|].
      assert (Z.to_nat (wc_index x') ≠ length l - 1)%nat by (intros E; rewrite E in Hj; congruence). lia.
  - intros j w' [Hj Hjl]%lookup_take_Some. destruct (decide (i = j)) as [<-|Hij].
    + rewrite list_lookup_insert_eq in Hj by lia. injection Hj as <-. eexists.
      rewrite lookup_delete_ne, lookup_insert_eq by done. split; [done|]. simpl. lia.
    + rewrite list_lookup_insert_ne in Hj by done. destruct (H2 j w' Hj) as (x' & Hx' & Hj').
      assert (w' ≠ w) by (intros ->; assert (x' = x) as -> by congruence; lia).
      assert (w' ≠ w2) by (intros ->; assert (x' = x2) as -> by congruence; lia).
      exists x'. by rewrite lookup_delete_ne, lookup_insert_ne.
Qed.

(** [w] is the last channel. *)
Lemma indexed_remove_last l ws w x :
  indexed l ws → ws !! w = Some x → wc_index x = Z.of_nat (length l) - 1 →
  indexed (take (length l - 1) l) (delete w ws).
Proof.
  intros [H1 H2] Hx Heq. destruct (H1 w x Hx) as [Hi0 Hi]. split.
  - intros w' x' [Hn' Hx']%lookup_delete_Some. destruct (H1 w' x' Hx') as [Hj0 Hj]. split; [done|].
    rewrite lookup_take_Some. split; [done|]. pose proof (lookup_lt_Some _ _ _ Hj).
    assert (Z.to_nat (wc_index x') ≠ Z.to_nat (wc_index x)) by (intros E; rewrite E in Hj; congruence). lia.
  - intros j w' [Hj Hjl]%lookup_take_Some. destruct (H2 j w' Hj) as (x' & Hx' & Hj').
    assert (w' ≠ w) by (intros ->; assert (x' = x) as -> by congruence; lia).
    exists x'. by rewrite lookup_delete_ne.
Qed.

Section channels.
Context (C : gmap listid (list positive)) (s : sys) (me : positive) (x : cpu) (y : thread) (sp k : Z).
Hypothesis Hgood : good C s.
Hypothesis Hx : cpus s !! me = Some x.
Hypothesis Hy : threads s !! c_curthread x = Some y.
Hypothesis Hacct : acct_cur s me x y sp k.

Local Notation t := (c_curthread x).

Lemma channels_free : splk_holder (ints s) !! AllwchansLock = Some None.
Proof. apply (c_free _ (good_acct _ _ Hgood)). Qed.

Lemma no_sleepers w : wchans s !! w = None → default [] (C !! Channel w) = [].
Proof.
  intros Hw. destruct (C !! Channel w) as [[|v xs]|] eqn:E; try done. exfalso.
  destruct (i_list _ _ _ (proj1 Hgood) _ _ v E) as (yv & _ & Hli & _); [left|]. rewrite Hw in Hli. by destruct Hli.
Qed.

Lemma good_init l h' :
  default [] (C !! l) = [] → (∀ c, l ≠ Runqueue c) → (∀ c, l ≠ Private c) →
  rep h' (<[l := []]> C) (dom (threads s)) →
  good (<[l := []]> C) (set_tl h' s).
Proof.
  intros Hl Hne1 Hne2 HR. destruct Hgood as (HI & Hn & Hc & [T1 T2 T3 T4 T5 T6 T7 T8] & Hac).
  split; [by apply inv_init|]. split; [|split; [|split; [done|by eapply acct_same]]].
  - intros c x1 y1 Hx1 Hy1 H1 H2. rewrite lookup_insert_ne by done. by apply (Hn c x1 y1).
  - intros c x1 Hx1. specialize (Hc c x1 Hx1). destruct (c_phase x1); simpl in *; try done;
      by rewrite lookup_insert_ne.
Qed.

Lemma act_wchan_create ok1 ok2 name w :
  allowed s me x y (WchanCreate ok1 ok2 name w) = true →
  wp (perform me (WchanCreate ok1 ok2 name w)) (λ _ s', ok s') s.
Proof.
  simpl. rewrite andb_true_iff, bool_decide_eq_true. intros (_ & Hw & Haddr).
  pose proof (local_here C s me x Hgood Hx) as Hh. pose proof (local_sane s me x y sp k Hacct) as Hs.
  pose proof Hgood as (HI & _ & _ & [T1 T2 T3 (l & Hl & Hi1 & Hi2) T5 T6 T7 T8] & _).
  assert (indexed l (wchans s)) as Hix by done.
  apply wp_bind. unfold wchan_create. destruct ok1; simpl; [|apply wp_ret, wp_ret; by eapply good_ok].
  apply wp_bind, wp_in_tl. eapply threadlist_init_spec; [apply (i_rep _ _ _ HI)|by apply no_sleepers|].
  intros h1 HR1. pose proof (good_init (Channel w) h1 (no_sleepers w Hw) ltac:(done) ltac:(done) HR1) as Hg1.
  apply wp_bind. eapply (wp_acquire_lock me t); [exact Hh|done|by apply channels_free|]. apply wp_bind, wp_in_allwchans.
  eapply Array.array_add_spec; [exact Hl| |intros _|intros a' Ha'].
  - apply short_list; [by eapply indexed_nodup|]. intros w' Hw'. apply T5.
    apply list_elem_of_lookup in Hw' as [i Hi]. destruct (Hi2 i w' Hi) as (xw & ? & _). by eexists.
  - apply wp_bind. eapply (wp_release_locked me t); [exact Hh|done|done|by apply channels_free|].
    apply wp_bind, wp_KASSERT; [done|]. apply wp_bind, wp_in_tl.
    eapply threadlist_cleanup_spec; [exact HR1|apply lookup_insert_eq|]. apply wp_ret, wp_ret.
    eapply good_ok. destruct s. exact Hg1.
  - apply wp_bind. eapply (wp_release_locked me t); [exact Hh|done|done|by apply channels_free|].
    apply wp_bind, wp_modify. apply wp_ret, wp_ret. eapply good_ok.
    refine (good_channels (<[Channel w := []]> C) (set_tl h1 s) h1 a' _ (l ++ [w]) Hg1 HR1 _ _ Ha' _).
    + intros w' xs v [[E <-]|[_ Hl']]%lookup_insert_Some Hv; [by apply elem_of_nil in Hv|].
      destruct (i_list _ _ _ HI _ _ v Hl' Hv) as (yv & _ & [xw Hxw] & _).
      apply lookup_insert_is_Some. destruct (decide (w = w')); [by left|right]. split; [done|by eexists].
    + intros w' [<-|[Hne Hw']]%lookup_insert_is_Some; [by rewrite lookup_insert_eq|].
      rewrite lookup_insert_ne by congruence. split; [by apply (i_lists _ _ _ HI)|by apply T5].
    + by apply indexed_add.
Qed.

Lemma act_wchan_destroy w :
  allowed s me x y (WchanDestroy w) = true → wp (perform me (WchanDestroy w)) (λ _ s', ok s') s.
Proof.
  simpl. rewrite !andb_true_iff, !bool_decide_eq_true. intros ((_ & [xw Hxw]) & Hcount).
  pose proof (local_here C s me x Hgood Hx) as Hh. pose proof (local_sane s me x y sp k Hacct) as Hs.
  pose proof Hgood as (HI & _ & _ & [T1 T2 T3 (l & Hl & Hi1 & Hi2) T5 T6 T7 T8] & _).
  assert (indexed l (wchans s)) as Hix by done.
  destruct (proj2 (i_lists _ _ _ HI) w) as [ws Hws]; [by eexists|].
  rewrite (rep_count _ _ _ (i_rep _ _ _ HI) _ _ Hws) in Hcount.
  assert (ws = []) as -> by (destruct ws; [done|by injection Hcount]).
  destruct (Hi1 w xw Hxw) as [Hi0 Hi]. pose proof (lookup_lt_Some _ _ _ Hi) as Hlt.
  (* what is left to do when the array and the last channel have been updated *)
  assert (∀ a ws' l', Array.holds a l' → length l' = length l → indexed (take (length l - 1) l') (delete w ws') →
    (∀ w', is_Some (ws' !! w') ↔ is_Some (wchans s !! w')) →
    wp (in_allwchans (Array.array_setsize true (Z.of_nat (length l) - 1)) ;;
        spinlock_release (Some me) AllwchansLock ;;
        in_tl (threadlist_cleanup (Channel w)) ;;
        modify (λ s, set_wchans (delete w (wchans s)) s)) (λ _ s', ok s')
      (set_wchans ws' (set_allwchans a (set_ints (locked me t AllwchansLock (ints s)) s)))) as Hend.
  { intros a ws' l' Ha Hlen Hix' Hdom. apply wp_bind, wp_in_allwchans.
    replace (Z.of_nat (length l) - 1) with (Z.of_nat (length l - 1)) by lia.
    eapply Array.array_shrink_spec; [exact Ha|lia|]. intros a' Ha'. apply wp_bind.
    eapply (wp_release_locked me t); [exact Hh|done|done|by apply channels_free|]. apply wp_bind, wp_in_tl.
    eapply threadlist_cleanup_spec; [exact (i_rep _ _ _ HI)|done|]. apply wp_modify. eapply good_ok.
    refine (good_channels C s (tl s) a' (delete w ws') _ Hgood (i_rep _ _ _ HI) _ _ Ha' Hix').
    - intros w' xs v Hl' Hv. assert (w ≠ w') by (intros <-; rewrite Hws in Hl'; injection Hl' as <-; by apply elem_of_nil in Hv).
      rewrite lookup_delete_ne by done. apply Hdom. destruct (i_list _ _ _ HI _ _ v Hl' Hv) as (yv & _ & ? & _). done.
    - intros w' [Hne Hw']%lookup_delete_is_Some. apply Hdom in Hw'. split; [by apply (i_lists _ _ _ HI)|by apply T5]. }
  unfold wchan_destroy, wchan_get. apply wp_bind. eapply (wp_acquire_lock me t); [exact Hh|done|by apply channels_free|].
  apply wp_bind, wp_in_allwchans. unfold Array.array_num. apply wp_gets. simpl. rewrite (Array.h_num _ _ Hl).
  apply wp_bind, wp_bind, wp_gets. eapply wp_deref; [done|]. apply wp_bind, wp_in_allwchans.
  eapply Array.array_get_spec; [exact Hl|done|done|]. apply wp_bind, wp_KASSERT; [by apply bool_decide_eq_true|].
  apply wp_bind. destruct (Z.ltb_spec (wc_index xw) (Z.of_nat (length l) - 1)) as [Hless|Hge].
  - destruct (lookup_lt_is_Some_2 l (length l - 1)) as [w2 Hw2]; [lia|]. destruct (Hi2 _ _ Hw2) as (x2 & Hx2 & Hn2).
    apply wp_bind, wp_in_allwchans. eapply Array.array_get_spec; [exact Hl|lia| |].
    { by replace (Z.to_nat (Z.of_nat (length l) - 1)) with (length l - 1)%nat by lia. }
    apply wp_bind, wp_in_allwchans. eapply Array.array_set_spec; [exact Hl|lia|]. intros a' Ha'.
    apply wp_bind, wp_bind, wp_gets. eapply wp_deref; [done|]. apply wp_modify.
    refine (Hend a' _ _ Ha' _ _ _); [by rewrite length_insert|by eapply indexed_remove|].
    intros w'. apply insert_is_Some_iff. by eexists.
  - apply wp_ret. refine (Hend (allwchans s) (wchans s) l Hl _ _ _); [done| |done].
    eapply indexed_remove_last; [done|done|lia].
Qed.

End channels.
End ThreadWchan.
