(* ===== verification/ThreadProc.v ===== *)
(** * Threads and processes

    Adding a thread to a process and removing it keep the invariant; so do the
    two parts of [thread_exit]. *)

From Stdlib Require Import ZArith Lia.
From stdpp Require Import base numbers list gmap strings.
From S2P Require Import Prelude Tlb Array Threadlist Thread ThreadInts ThreadSystem ThreadMoves ThreadSteps ThreadSwitch ThreadPark ThreadChanges ThreadActions ThreadCpus.

Module ThreadProc.
Import Threadlist Thread ThreadInts ThreadSystem ThreadMoves ThreadSteps ThreadSwitch ThreadPark ThreadChanges ThreadActions ThreadCpus.
Implicit Types (C : gmap listid (list positive)) (s : sys) (X : option positive).

(** ** The functions *)

(** The executing thread can change its priority. *)
Definition steady (me u : positive) s : Prop :=
  here me u s ∧ sane me u (ints s) ∧ (fst (spl_of u (ints s)) = 0 ∨ fst (spl_of u (ints s)) = 1) ∧
  fst (spl_of u (ints s)) ≤ snd (spl_of u (ints s)).

Lemma wp_set_proc {A} me u t y q (m : M sys A) (Q : A → sys → Prop) s :
  steady me u s → threads s !! t = Some y →
  wp m Q (set_threads (<[t := with_proc q y]> (threads s)) s) →
  wp (spl ← splhigh (Some me); thread_upd t (with_proc q) ;; splx (Some me) spl ;; m) Q s.
Proof.
  intros (Hh & Hs & H1 & H2) Hy HQ. apply wp_bind. eapply (wp_splhigh me u); [done..|].
  apply wp_bind. eapply wp_thread_upd; [done|]. apply wp_bind.
  eapply (wp_splx_high me u (ints s)); [by eapply (here_thread me u s)|done..|]. intros _. exact HQ.
Qed.

(** Process [p] with the array [a] of threads. *)
Definition with_pthreads (a : Array.array positive) (x : proc) : proc := mkProc a (p_addrspace x).

Lemma wp_proc_addthread me u ok p pr t y l s (Q : Z → sys → Prop) :
  steady me u s → procs s !! p = Some pr → splk_holder (ints s) !! ProcLock p = Some None →
  threads s !! t = Some y → t_proc y = None → Array.holds (p_threads pr) l → Z.of_nat (length l) < 2 ^ 29 →
  (ok = false → Q ENOMEM s) →
  (∀ a, Array.holds a (l ++ [t]) →
     Q 0 (set_threads (<[t := with_proc (Some p) y]> (threads s))
            (set_procs (<[p := with_pthreads a pr]> (procs s)) s))) →
  wp (proc_addthread (Some me) ok p t) Q s.
Proof.
  intros Hst Hp Hlk Hy Hpr Hl Hlen Herr HQ. pose proof Hst as (Hh & Hs & _). unfold proc_addthread. apply wp_bind.
  eapply wp_thread_get; [done|]. apply wp_bind, wp_KASSERT; [by apply bool_decide_eq_true|]. apply wp_bind.
  eapply (wp_acquire_lock me u); [done..|]. apply wp_bind. eapply wp_in_pthreads; [done|].
  eapply Array.array_add_spec; [done|done|intros Hok|intros a Ha]; apply wp_bind;
    (eapply (wp_release_locked me u); [exact Hh|done..|]).
  - apply wp_ret. simpl. rewrite insert_id by (rewrite Hp; by destruct pr). destruct s. by apply Herr.
  - eapply (wp_set_proc me u t y); [done|done|]. apply wp_ret. by apply HQ.
Qed.

Lemma wp_proc_remthread me u p pr t y l s (Q : unit → sys → Prop) :
  steady me u s → procs s !! p = Some pr → splk_holder (ints s) !! ProcLock p = Some None →
  threads s !! t = Some y → t_proc y = Some p → Array.holds (p_threads pr) l → t ∈ l →
  (∀ a i, Array.holds a (delete i l) → l !! i = Some t →
     Q tt (set_threads (<[t := with_proc None y]> (threads s))
             (set_procs (<[p := with_pthreads a pr]> (procs s)) s))) →
  wp (proc_remthread me t) Q s.
Proof.
  intros Hst Hp Hlk Hy Hpr Hl Ht HQ. pose proof Hst as (Hh & Hs & _). unfold proc_remthread. apply wp_bind.
  eapply wp_thread_get; [done|]. apply wp_bind. eapply wp_deref; [done|]. apply wp_bind.
  eapply (wp_acquire_lock me u); [done..|]. set (s1 := set_ints _ s).
  assert (∀ (A : Type) (m : M (Array.array positive) A) (R : A → sys → Prop),
            wp m (λ v a, a = p_threads pr ∧ R v s1) (p_threads pr) → wp (in_pthreads p m) R s1) as Hread.
  { intros A m R Hm. eapply wp_in_pthreads; [done|]. eapply wp_mono; [|exact Hm]. intros v a [-> HR].
    simpl. rewrite insert_id by (rewrite Hp; by destruct pr). by destruct s. }
  apply wp_bind, Hread. unfold Array.array_num. apply wp_gets. split; [done|]. rewrite (Array.h_num _ _ Hl). apply wp_bind.
  apply (wp_for_return (λ i s', s' = s1 ∧ ∀ j, (j < Z.to_nat i)%nat → l !! j ≠ Some t)).
  - split; [done|]. intros j Hj. lia.
  - intros i s' Hi [-> Hno]. destruct (lookup_lt_is_Some_2 l (Z.to_nat i)) as [v Hv]; [lia|].
    apply wp_bind, Hread. eapply Array.array_get_spec; [done|lia|done|]. split; [done|].
    case_bool_decide as Hvt; [subst v|].
    + apply wp_bind. eapply wp_in_pthreads; [done|]. eapply Array.array_remove_spec; [done|lia|]. intros a Ha.
      apply wp_bind. eapply (wp_release_locked me u); [exact Hh|done..|].
      eapply (wp_set_proc me u t y); [done|done|]. by apply wp_ret, wp_ret, (HQ a (Z.to_nat i)).
    + apply wp_ret. split; [done|]. intros j Hj. destruct (decide (j = Z.to_nat i)) as [->|]; [congruence|].
      apply Hno. lia.
  - intros s' [-> Hno]. apply list_elem_of_lookup in Ht as [j Hj]. destruct (Hno j); [|done].
    apply lookup_lt_Some in Hj. lia.
Qed.

(** ** The invariant *)

(** The process of a thread that is on no list. *)
Lemma inv_proc X C s t y p :
  inv X C s → threads s !! t = Some y → off C t → (t_point y = Exiting → p = None) →
  inv X C (set_threads (<[t := with_proc p y]> (threads s)) s).
Proof.
  intros [H1 H2 H3 H4 H5 H6 H7 H8] Hy Ho Hp. split; simpl; try done.
  - by rewrite dom_insert_lookup_L by by eexists.
  - intros u z [[<- <-]|[Hne Hz]]%lookup_insert_Some HX.
    + destruct (H2 t y Hy HX) as [G1 G2 G3 G4]. by split.
    + destruct (H2 u z Hz HX) as [G1 G2 G3 G4]. by split.
  - intros u HX. destruct (H3 u HX) as (G1 & G2 & G3). split; [|done].
    destruct (decide (t = u)) as [<-|]; [rewrite lookup_insert_eq; by eexists|by rewrite lookup_insert_ne].
  - intros c x Hx. destruct (H4 c x Hx) as (z & Hz & [K1 K2 K3 K4 K5 K6]).
    destruct (decide (t = c_curthread x)) as [->|]; [|exists z; by rewrite lookup_insert_ne].
    exists (with_proc p y). rewrite lookup_insert_eq. split; [done|]. assert (z = y) as -> by congruence. by split.
  - intros l xs u Hl Hu. assert (t ≠ u) by (intros <-; by eapply Ho). rewrite lookup_insert_ne by done. by eapply H5.
  - intros c x u Hx Hph. destruct (H6 c x u Hx Hph) as (G1 & z & Hz & Hs). split; [done|].
    destruct (decide (t = u)) as [<-|]; [|exists z; by rewrite lookup_insert_ne].
    exists (with_proc p y). rewrite lookup_insert_eq. split; [done|]. simpl. congruence.
Qed.

Lemma inv_procs X C s pm : inv X C s → inv X C (set_procs pm s).
Proof.
  intros [H1 H2 H3 H4 H5 H6 H7 H8]. split; try done.
  intros t y Hy HX. destruct (H2 t y Hy HX). by split.
Qed.

Lemma tables_proc s t y q p pr a l :
  tables s → threads s !! t = Some y → procs s !! p = Some pr → Array.holds a l → NoDup l →
  (q = Some p ∧ t_proc y = None ∨ q = None ∧ t_proc y = Some p) →
  (∀ u, u ∈ l ↔ if decide (u = t) then q = Some p else ∃ z, threads s !! u = Some z ∧ t_proc z = Some p) →
  tables (set_threads (<[t := with_proc q y]> (threads s)) (set_procs (<[p := with_pthreads a pr]> (procs s)) s)).
Proof.
  intros [T1 T2 T3 T4 T5 T6 T7 T8] Hy Hp Ha Hnd Hq Hl.
  assert (∀ r, is_Some (procs s !! r) → is_Some (<[p := with_pthreads a pr]> (procs s) !! r)) as His.
  { intros r Hr. apply insert_is_Some_iff; [by eexists|done]. }
  split; simpl; try done.
  - intros p' x' [[<- <-]|[Hne Hx']]%lookup_insert_Some; simpl.
    + exists l. split; [done|]. split; [done|]. intros u. rewrite Hl. destruct (decide (u = t)) as [->|Hut].
      * rewrite lookup_insert_eq. split; [intros ->; by eexists|]. by intros (z & [= <-] & ?).
      * by rewrite lookup_insert_ne by congruence.
    + destruct (T6 p' x' Hx') as (l' & Hl' & Hnd' & Hin'). exists l'. split; [done|]. split; [done|].
      intros u. rewrite Hin'. destruct (decide (t = u)) as [<-|]; [|by rewrite lookup_insert_ne].
      rewrite lookup_insert_eq, Hy. split; intros (z & [= <-] & E); destruct Hq as [[-> Hq]|[-> Hq]];
        simpl in *; congruence.
  - intros u z r [[<- <-]|[Hne Hz]]%lookup_insert_Some Hr; [|eauto]. apply His. simpl in Hr.
    destruct Hq as [[-> _]|[-> _]]; simplify_eq. by eexists.
  - by apply His.
Qed.

Lemma tables_added s t y p pr a l :
  tables s → threads s !! t = Some y → t_proc y = None → procs s !! p = Some pr →
  Array.holds (p_threads pr) l → NoDup l → (∀ u, u ∈ l ↔ ∃ z, threads s !! u = Some z ∧ t_proc z = Some p) →
  Array.holds a (l ++ [t]) →
  tables (set_threads (<[t := with_proc (Some p) y]> (threads s)) (set_procs (<[p := with_pthreads a pr]> (procs s)) s)).
Proof.
  intros Ht Hy Hpr Hp _ Hnd Hin Ha. assert (t ∉ l) as Htl by (intros (z & Hz & E)%Hin; congruence).
  eapply tables_proc; [done|done|done|exact Ha| |by left|].
  - apply NoDup_app. split; [done|]. split; [|apply NoDup_singleton]. by intros u Hu ->%list_elem_of_singleton.
  - intros u. rewrite elem_of_app, list_elem_of_singleton, Hin. destruct (decide (u = t)) as [->|]; [naive_solver|].
    split; [by intros [?|?]|by left].
Qed.

Lemma tables_removed s t y p pr a l i :
  tables s → threads s !! t = Some y → t_proc y = Some p → procs s !! p = Some pr → NoDup l →
  (∀ u, u ∈ l ↔ ∃ z, threads s !! u = Some z ∧ t_proc z = Some p) → l !! i = Some t →
  Array.holds a (delete i l) →
  tables (set_threads (<[t := with_proc None y]> (threads s)) (set_procs (<[p := with_pthreads a pr]> (procs s)) s)).
Proof.
  intros Ht Hy Hpr Hp Hnd Hin Hi Ha. pose proof (delete_Permutation _ _ _ Hi) as HP.
  rewrite HP in Hnd. apply NoDup_cons in Hnd as [Hti Hnd].
  eapply tables_proc; [done|done|done|exact Ha|done|by right|].
  intros u. destruct (decide (u = t)) as [->|]; [by split|].
  rewrite <- Hin. assert (u ∈ l ↔ u ∈ t :: delete i l) as -> by (by rewrite <- HP). rewrite elem_of_cons. naive_solver.
Qed.

Section procs.
Context (C : gmap listid (list positive)) (s : sys) (me : positive) (x : cpu) (y : thread) (sp k : Z).
Hypothesis Hgood : good C s.
Hypothesis Hx : cpus s !! me = Some x.
Hypothesis Hy : threads s !! c_curthread x = Some y.
Hypothesis Hacct : acct_cur s me x y sp k.

Local Notation t := (c_curthread x).

Lemma own_steady : steady me t s.
Proof.
  pose proof (local_k _ _ _ _ _ _ Hacct). split; [by eapply local_here|]. split; [by eapply local_sane|].
  rewrite (local_spl s me x y sp k Hacct). simpl. split; [apply Hacct|lia].
Qed.

Lemma proc_free p : is_Some (procs s !! p) → splk_holder (ints s) !! ProcLock p = Some None.
Proof. apply (c_free _ (good_acct _ _ Hgood)). Qed.

Lemma proc_short l p :
  NoDup l → (∀ u, u ∈ l ↔ ∃ z, threads s !! u = Some z ∧ t_proc z = Some p) → Z.of_nat (length l) < 2 ^ 29.
Proof.
  intros Hnd Hin. apply short_list; [done|]. intros u (z & Hz & _)%Hin.
  eapply (rep_addr _ _ _ (i_rep _ _ _ (proj1 Hgood))), elem_of_dom. by eexists.
Qed.

(** The process of the executing thread changes. *)
Lemma good_own_proc q p pr a s' :
  procs s !! p = Some pr → c_isidle x = false → (t_point y = Exiting → q = None) →
  s' = set_threads (<[t := with_proc q y]> (threads s)) (set_procs (<[p := with_pthreads a pr]> (procs s)) s) →
  tables s' → acct_cur s' me x (with_proc q y) sp k ∧ good C s'.
Proof.
  intros Hp Hid Hpt -> Ht. set (s' := set_threads _ _) in *.
  assert (acct_cur s' me x (with_proc q y) sp k) as Ha by by eapply acct_cur_frame.
  split; [done|]. pose proof Hgood as (HI & Hn & Hc & _ & Hac).
  assert (off C t) as Ho by (apply (local_cpu_ok C s me x y Hgood Hx Hy); done).
  split; [|split; [|split; [done|split; [done|]]]].
  - by apply (inv_proc None C (set_procs (<[p := with_pthreads a pr]> (procs s)) s)); [apply inv_procs|..].
  - intros c x1 y1 Hx1 Hy1 H1 H2. simpl in *. apply lookup_insert_Some in Hy1 as [[E <-]|[Hne Hy1]].
    + simpl. apply (Hn c x1 y); try done. by rewrite <- E.
    + by apply (Hn c x1).
  - eapply (acct_local C s s' me x x (with_proc q y) sp k); try done.
    + intros r. simpl. apply insert_is_Some_iff. by eexists.
    + intros v yv Hne. simpl. by rewrite lookup_insert_ne.
    + simpl. apply lookup_insert_eq.
Qed.

Lemma act_add_thread ok1 p :
  allowed s me x y (AddThread ok1 p) = true → wp (perform me (AddThread ok1 p)) (λ _ s', ok s') s.
Proof.
  simpl. rewrite !andb_true_iff, !bool_decide_eq_true. intros ((Ht & Hpr) & [pr Hp]).
  destruct (in_thread_facts s me x y sp k Hacct Ht) as (H1 & H2 & H3 & H4 & H5 & H6).
  destruct (b_procs _ (good_tables _ _ Hgood) p pr Hp) as (l & Hl & Hnd & Hin).
  apply wp_bind. eapply wp_curthread; [by eapply local_here|]. apply wp_bind.
  eapply (wp_proc_addthread me t ok1 p pr t y l); try done.
  - apply own_steady.
  - apply proc_free. by eexists.
  - by eapply proc_short.
  - intros _. apply wp_ret. by eapply good_ok.
  - intros a Ha. apply wp_ret. eapply good_ok, (good_own_proc (Some p)); try done; [congruence|].
    by eapply tables_added; [eapply good_tables|..].
Qed.

(** The executing thread leaves its process. *)
Lemma wp_leave p (Q : unit → sys → Prop) :
  c_isidle x = false → t_proc y = Some p →
  (∀ s', cpus s' = cpus s → threads s' !! t = Some (with_proc None y) →
     acct_cur s' me x (with_proc None y) sp k → good C s' → Q tt s') →
  wp (proc_remthread me t) Q s.
Proof.
  intros Hid Hpr HQ. destruct (b_proc _ (good_tables _ _ Hgood) t y p Hy Hpr) as [pr Hp].
  destruct (b_procs _ (good_tables _ _ Hgood) p pr Hp) as (l & Hl & Hnd & Hin).
  eapply (wp_proc_remthread me t p pr t y l); try done.
  - apply own_steady.
  - apply proc_free. by eexists.
  - apply Hin. by exists y.
  - intros a i Ha Hi. edestruct (good_own_proc None p pr a) as [Ha' Hg']; [done..|by eapply tables_removed; [eapply good_tables|..]|].
    apply HQ; try done. simpl. apply lookup_insert_eq.
Qed.

Lemma act_rem_thread : allowed s me x y RemThread = true → wp (perform me RemThread) (λ _ s', ok s') s.
Proof.
  simpl. rewrite andb_true_iff, bool_decide_eq_true. intros (Ht & [p Hp]).
  destruct (in_thread_facts s me x y sp k Hacct Ht) as (H1 & H2 & H3 & H4 & H5 & H6).
  apply wp_bind. eapply wp_curthread; [by eapply local_here|].
  apply (wp_leave p); [done|done|]. intros s' _ _ _ Hg. by eapply good_ok.
Qed.

Lemma act_exit : allowed s me x y Exit = true → wp (perform me Exit) (λ _ s', ok s') s.
Proof.
  simpl. unfold locks_held. rewrite !andb_true_iff, Z.eqb_eq, bool_decide_eq_true, (local_held s me x y sp k Hacct).
  intros ((Ht & Hp) & Hk). destruct (in_thread_facts s me x y sp k Hacct Ht) as (H1 & H2 & H3 & H4 & H5 & H6).
  unfold thread_exit. apply wp_bind. eapply wp_curthread; [by eapply local_here|]. apply wp_bind.
  eapply wp_thread_get; [done|]. apply wp_bind, wp_gets. apply wp_bind, wp_KASSERT; [by apply bool_decide_eq_true|].
  apply wp_bind, (wp_leave (kproc s)); [done|done|]. intros s' Hcp Hy' Ha Hg. eapply wp_thread_upd; [done|].
  set (y' := with_point Exiting (with_proc None y)).
  assert (cpus s' !! me = Some x) as Hx' by by rewrite Hcp.
  replace (set_threads _ s') with (set_threads (<[t := y']> (threads s')) (set_ints (ints s') s')) by by destruct s'.
  eapply good_ok, (good_thread C s' me x _ Hg Hx' Hy' y' (ints s') sp k); try done.
  - destruct (i_thread _ _ _ (proj1 Hg) t _ Hy') as [_ Hm _ _]; [done|]. by split.
  - destruct Ha as [A1 A2 A3 A4 A5 A6 A7 A8 A9 Ah A10 A11 A12]. by split.
Qed.

End procs.
End ThreadProc.
