(* ===== verification/ThreadCreate.v ===== *)
(** * New threads and processors

    [thread_fork] and [cpu_create] keep the invariant, also when memory runs out
    on the way. *)

From Stdlib Require Import ZArith Lia.
From stdpp Require Import base numbers list gmap strings.
From S2P Require Import Prelude Tlb Array Threadlist Thread ThreadInts ThreadSystem ThreadMoves ThreadSteps ThreadSwitch ThreadPark ThreadChanges ThreadActions ThreadCpus ThreadWake ThreadWchan ThreadProc.

Module ThreadCreate.
Import Threadlist Thread ThreadInts ThreadSystem ThreadMoves ThreadSteps ThreadSwitch ThreadPark ThreadChanges ThreadActions ThreadCpus ThreadWake ThreadWchan ThreadProc.
Implicit Types (C : gmap listid (list positive)) (s : sys) (X : option positive).

Definition with_spl (t : positive) (v : Z * Z) (i : interrupts) : interrupts :=
  mkInterrupts (<[t := v]> (t_spl i)) (c_spinlocks i) (c_irq i) (splk_holder i).

Lemma inv_ints X C s i : inv X C s → inv X C (set_ints i s).
Proof.
  intros [H1 H2 H3 H4 H5 H6 H7 H8]. split; try done.
  intros t y Hy HX. destruct (H2 t y Hy HX). by split.
Qed.

(** Thread [t] is new, and so may be a processor. *)
Lemma acct_grow C s s' t :
  inv None C s → acct s → threads s !! t = None →
  (∀ v, v ≠ t → threads s' !! v = threads s !! v) →
  (∀ v, v ≠ t → t_spl (ints s') !! v = t_spl (ints s) !! v) →
  (∀ c, is_Some (cpus s !! c) → c_spinlocks (ints s') !! c = c_spinlocks (ints s) !! c ∧
     c_irq (ints s') !! c = c_irq (ints s) !! c) →
  (∀ c, held_by c (ints s') = held_by c (ints s)) →
  (∀ l, is_Some (splk_holder (ints s) !! l) → splk_holder (ints s') !! l = splk_holder (ints s) !! l) →
  (∀ c x, cpus s !! c = Some x → cpus s' !! c = Some x) →
  (∀ c x, cpus s' !! c = Some x → cpus s !! c = Some x ∨
     c_curthread x = t ∧ (∀ y, threads s' !! t = Some y → acct_cur s' c x y 1 0) ∧
     splk_holder (ints s') !! RunqueueLock c = Some None ∧ splk_holder (ints s') !! IpiLock c = Some None) →
  (∀ p, is_Some (procs s' !! p) → is_Some (procs s !! p)) →
  (∀ y, threads s' !! t = Some y → ¬ current s' t → acct_away s' t y) →
  acct s'.
Proof.
  intros HI [B1 B2 (B3 & B4 & B5) B6] Ht Hth Hspl Hc1 Hheld Hlk Hfwd Hbwd Hpr Haway.
  assert (∀ c x, cpus s !! c = Some x → c_curthread x ≠ t) as Hne.
  { intros c x Hx E. destruct (i_cpu _ _ _ HI c x Hx) as (y & Hy & _). congruence. }
  split.
  - intros c x y Hx Hy. destruct (Hbwd c x Hx) as [Hx0|(E & Ha & _)]; [|rewrite E in Hy; eauto].
    rewrite Hth in Hy by eauto. destruct (B1 c x y Hx0 Hy) as (sp & k & Ha). exists sp, k.
    destruct (Hc1 c) as [E1 E2]; [by eexists|]. eapply acct_cur_frame; try done. eauto.
  - intros v y Hy Hnc. destruct (decide (v = t)) as [->|Hvt]; [auto|]. rewrite Hth in Hy by done.
    eapply acct_away_frame; [apply B2; [done|]|auto|done..].
    intros (c & x & Hx & E). destruct Hnc. exists c, x. auto.
  - split; [|split].
    + intros c [x Hx]. destruct (Hbwd c x Hx) as [Hx0|(_ & _ & ?)]; [|done].
      destruct (B3 c) as [E1 E2]; [by eexists|]. by rewrite !Hlk by (rewrite ?E1, ?E2; by eexists).
    + intros p Hp%Hpr. rewrite Hlk by (rewrite B4 by done; by eexists). auto.
    + by rewrite Hlk by (rewrite B5; by eexists).
  - intros c Hc. rewrite Hheld. apply B6. destruct (cpus s !! c) as [x|] eqn:Hx; [|done].
    rewrite (Hfwd c x Hx) in Hc. done.
Qed.

(** A priority that belongs to no thread. *)
Lemma good_garbage C s t v h' :
  good C s → threads s !! t = None → rep h' C (dom (threads s)) →
  good C (set_tl h' (set_ints (with_spl t v (ints s)) s)).
Proof.
  intros (HI & Hn & Hc & Ht & Hac) Hno HR. apply good_tl; [|done]. split; [by apply inv_ints|].
  split; [done|]. split; [done|]. split; [by eapply tables_frame|].
  eapply (acct_grow C s _ t); try done; simpl.
  - intros u Hu. by rewrite lookup_insert_ne.
  - auto.
  - intros y. by rewrite Hno.
Qed.

Definition new_thread_record : thread :=
  mkThread (Some "NEW"%string) S_READY None None None None false 0 [] Anywhere.

Section create.
Context (C : gmap listid (list positive)) (s : sys) (me : positive) (x : cpu) (y : thread) (sp k : Z).
Hypothesis Hgood : good C s.
Hypothesis Hx : cpus s !! me = Some x.
Hypothesis Hy : threads s !! c_curthread x = Some y.
Hypothesis Hacct : acct_cur s me x y sp k.

Local Notation t := (c_curthread x).

Section new.
Context (nt : positive).
Hypothesis Hnew : threads s !! nt = None.
Hypothesis Haddr : Z.pos nt < 2 ^ 29.

Lemma new_ne : nt ≠ t.
Proof. congruence. Qed.

(** The state with the new thread, and what an early return leaves. *)
Definition born (h : lists listid) (yn : thread) : sys :=
  set_ints (with_spl nt (1, 1) (ints s)) (set_tl h (set_threads (<[nt := yn]> (threads s)) s)).

Lemma born_inv h yn : rep h C ({[nt]} ∪ dom (threads s)) → inv (Some nt) C (born h yn).
Proof. intros HR. apply inv_ints. by apply move_create; [apply Hgood|..]. Qed.

Lemma born_steady h yn : steady me t (born h yn).
Proof.
  destruct (own_steady C s me x y sp k Hgood Hx Hacct) as (Hh & (sp0 & n0 & k0 & Hs1 & Hs2 & Hs3 & Hs4 & Hs5) & H1 & H2).
  pose proof new_ne as Hne.
  assert (spl_of t (ints (born h yn)) = spl_of t (ints s)) as E.
  { unfold spl_of. simpl. by rewrite lookup_insert_ne. }
  split; [by apply (here_other me t s nt yn); [|apply not_eq_sym]|]. split; [|by rewrite E].
  exists sp0, n0, k0. simpl. by rewrite lookup_insert_ne.
Qed.

Lemma wp_thread_create ok1 ok2 (Q : option positive → sys → Prop) :
  (ok1 && ok2 = false → Q None s) →
  (∀ h, rep h C ({[nt]} ∪ dom (threads s)) → Q (Some nt) (born h new_thread_record)) →
  wp (thread_create ok1 ok2 nt) Q s.
Proof.
  intros Hno HQ. unfold thread_create, thread_put, spl_put.
  destruct ok1; simpl; [|apply wp_ret; auto]. destruct ok2; simpl; [|apply wp_ret; auto].
  apply wp_bind, wp_modify. apply wp_bind, wp_in_tl.
  eapply threadlistnode_init_spec; [apply (i_rep _ _ _ (proj1 Hgood))|by apply not_elem_of_dom|done|].
  intros h HR. apply wp_bind, wp_in_ints, wp_modify. apply wp_ret. exact (HQ h HR).
Qed.

(** The new thread is destroyed again. *)
Lemma wp_unborn h yn (Q : unit → sys → Prop) :
  rep h C ({[nt]} ∪ dom (threads s)) → t_state yn ≠ S_RUN → t_proc yn = None →
  (∀ s', good C s' → Q tt s') → wp (thread_destroy me nt) Q (born h yn).
Proof.
  intros HR Hst Hpr HQ. pose proof (born_inv h yn HR) as HI1. pose proof (i_transit _ _ _ HI1 nt eq_refl) as (_ & Ho & _).
  eapply (wp_thread_destroy me t nt yn C); [apply born_steady|apply new_ne|simpl; apply lookup_insert_eq|done|done|
    apply (i_rep _ _ _ HI1)|done|].
  simpl. rewrite delete_insert_id by done. apply HQ.
  refine (good_garbage C s nt (1, 1) h Hgood Hnew _).
  replace (dom (threads s)) with (({[nt]} ∪ dom (threads s)) ∖ {[nt]}); [by apply rep_forget|].
  apply not_elem_of_dom in Hnew. set_solver.
Qed.

Lemma wp_born_upd h yn f (Q : unit → sys → Prop) : Q tt (born h (f yn)) → wp (thread_upd nt f) Q (born h yn).
Proof.
  intros HQ. eapply wp_thread_upd; [simpl; apply lookup_insert_eq|]. simpl. rewrite insert_insert_eq. exact HQ.
Qed.

Lemma newborn_tables yn p pr a l :
  procs s !! p = Some pr → t_proc yn = None → Array.holds (p_threads pr) l → NoDup l →
  (∀ u, u ∈ l ↔ ∃ z, threads s !! u = Some z ∧ t_proc z = Some p) → Array.holds a (l ++ [nt]) →
  tables (set_threads (<[nt := with_proc (Some p) yn]> (threads s))
            (set_procs (<[p := with_pthreads a pr]> (procs s)) s)).
Proof.
  intros Hp Hpr Hl Hnd Hin Ha. set (s0 := set_threads (<[nt := yn]> (threads s)) s).
  assert (∀ u q, (∃ z, threads s0 !! u = Some z ∧ t_proc z = Some q) ↔
            (∃ z, threads s !! u = Some z ∧ t_proc z = Some q)) as Hs0.
  { intros u q. simpl. destruct (decide (nt = u)) as [<-|]; [|by rewrite lookup_insert_ne].
    rewrite lookup_insert_eq, Hnew. split; intros (z & E & ?); simplify_eq. }
  assert (tables s0) as Ht0 by (eapply tables_frame; [by eapply good_tables|done..]).
  opose proof (tables_added s0 nt yn p pr a l Ht0 _ Hpr Hp Hl Hnd _ Ha) as Ht1;
    [simpl; apply lookup_insert_eq|intros u; by rewrite Hin, Hs0|].
  simpl in Ht1. rewrite insert_insert_eq in Ht1. exact Ht1.
Qed.

(** The new thread in its process. *)
Lemma wp_born_addthread ok1 p pr h yn (Q : Z → sys → Prop) :
  procs s !! p = Some pr → t_proc yn = None →
  (ok1 = false → Q ENOMEM (born h yn)) →
  (∀ pm, tables (set_threads (<[nt := with_proc (Some p) yn]> (threads s)) (set_procs pm s)) →
     (∀ q, is_Some (pm !! q) ↔ is_Some (procs s !! q)) →
     Q 0 (set_procs pm (born h (with_proc (Some p) yn)))) →
  wp (proc_addthread (Some me) ok1 p nt) Q (born h yn).
Proof.
  intros Hp Hpr Herr HQ. destruct (b_procs _ (good_tables _ _ Hgood) p pr Hp) as (l & Hl & Hnd & Hin).
  eapply (wp_proc_addthread me t ok1 p pr nt yn l); try done.
  - apply born_steady.
  - apply (proc_free C s Hgood). by eexists.
  - simpl. apply lookup_insert_eq.
  - by eapply proc_short.
  - intros a Ha. simpl. rewrite insert_insert_eq. apply (HQ (<[p := with_pthreads a pr]> (procs s))).
    + by eapply newborn_tables.
    + intros q. apply insert_is_Some_iff. by eexists.
Qed.

End new.

Lemma forked_good nt h yn pm xs h' :
  threads s !! nt = None → c_isidle x = false → c_phase x = Free → rep h C ({[nt]} ∪ dom (threads s)) →
  t_cpu yn = Some me → tgood yn → t_frames yn = [] → t_in_interrupt yn = false → t_context yn = Some Startup →
  tables (set_threads (<[nt := yn]> (threads s)) (set_procs pm s)) →
  (∀ q, is_Some (pm !! q) ↔ is_Some (procs s !! q)) → C !! Runqueue me = Some xs →
  rep h' (<[Runqueue me := xs ++ [nt]]> C) ({[nt]} ∪ dom (threads s)) →
  good (<[Runqueue me := xs ++ [nt]]> C)
    (set_tl h' (set_threads (<[nt := with_state S_READY yn]> (threads s))
       (set_procs pm (set_ints (with_spl nt (1, 2) (ints s)) s)))).
Proof.
  intros Hnew Hid Hph HR Hcpu Hg Hf Hii Hctx Htab Hpm Hxs HR'. pose proof Hgood as (HI & Hn & Hc & _ & Hac).
  assert (nt ≠ t) as Hne by congruence. split; [|split; [|split; [|split]]].
  - assert (inv (Some nt) C (set_tl h (set_threads (<[nt := yn]> (threads s)) s))) as HI1 by by apply move_create.
    opose proof (inv_enqueued C _ nt yn me x xs h' HI1 _ Hcpu Hg Hx Hxs _) as HI2;
      [simpl; apply lookup_insert_eq|simpl; by rewrite dom_insert_L|].
    simpl in HI2. rewrite insert_insert_eq in HI2. unfold poked in HI2. rewrite Hid, (insert_id (cpus s)) in HI2 by done.
    apply (inv_ints _ _ _ (with_spl nt (1, 2) (ints s))), (inv_procs _ _ _ pm) in HI2. exact HI2.
  - intros c x1 y1 Hx1 Hy1 H1 H2. simpl in *. destruct (decide (c = me)) as [->|Hcm]; [congruence|].
    rewrite lookup_insert_ne by congruence. apply lookup_insert_Some in Hy1 as [[E <-]|[_ Hy1]]; [|by apply (Hn c x1)].
    destruct (i_cpu _ _ _ HI c x1 Hx1) as (z & Hz & _). congruence.
  - intros c x1 Hx1. simpl in *. specialize (Hc c x1 Hx1). destruct (decide (c = me)) as [->|Hcm].
    + assert (x1 = x) as -> by congruence. by rewrite Hph.
    + destruct (c_phase x1); simpl in *; try done; by rewrite !lookup_insert_ne by congruence.
  - eapply tables_frame; try done. intros v q. simpl. destruct (decide (nt = v)) as [<-|]; [|by rewrite !lookup_insert_ne].
    rewrite !lookup_insert_eq. split; intros (z & [= <-] & E); by eexists.
  - eapply (acct_grow C s _ nt); try done; simpl.
    + intros v Hv. by rewrite lookup_insert_ne.
    + intros v Hv. by rewrite lookup_insert_ne.
    + auto.
    + intros q. apply Hpm.
    + intros z Hz _. rewrite lookup_insert_eq in Hz. injection Hz as <-.
      split; simpl; [apply lookup_insert_eq|by left|by rewrite Hctx].
Qed.

Lemma act_fork oks nt p : allowed s me x y (Fork oks nt p) = true → wp (perform me (Fork oks nt p)) (λ _ s', ok s') s.
Proof.
  simpl. rewrite !andb_true_iff. unfold new_thread. rewrite bool_decide_eq_true. intros ((Ht & Hnew & Haddr) & Hp).
  destruct (in_thread_facts s me x y sp k Hacct Ht) as (H1 & H2 & H3 & H4 & H5 & H6).
  assert (∃ q pr, (p = Some q ∨ p = None ∧ t_proc y = Some q) ∧ procs s !! q = Some pr) as (q & pr & Hq & Hpr).
  { destruct p as [q|]; apply bool_decide_eq_true in Hp as [pr Hpr]; [by exists q, pr; auto|].
    destruct (b_proc _ (good_tables _ _ Hgood) t y pr Hy Hpr) as [z Hz]. exists pr, z. auto. }
  destruct oks as [[[ok1 ok2] ok3] ok4]. unfold thread_fork. apply wp_bind. apply wp_bind.
  apply (wp_thread_create nt Hnew Haddr); [intros _; apply wp_ret, wp_ret; by eapply good_ok|]. intros h HR.
  destruct ok3; simpl.
  2: { apply wp_bind. apply (wp_unborn nt Hnew Haddr); [done|done|done|]. intros s' Hg. apply wp_ret, wp_ret. by eapply good_ok. }
  unfold thread_checkstack_init. apply wp_bind, wp_born_upd. apply wp_bind.
  eapply wp_curthread; [apply (born_steady nt Hnew)|]. apply wp_bind.
  eapply wp_thread_get; [simpl; rewrite lookup_insert_ne by congruence; done|].
  apply wp_bind, wp_born_upd. apply wp_bind.
  assert (∀ (R : positive → sys → Prop) s1, R q s1 → wp (match p with Some p => mret p | None => deref (t_proc y) end) R s1) as Hsel.
  { intros R s1 HR1. destruct Hq as [-> |[-> E]]; [by apply wp_ret|by eapply wp_deref]. }
  apply Hsel. apply wp_bind. eapply (wp_born_addthread nt Hnew); [done|done|..].
  { intros _. simpl. apply wp_bind. apply (wp_unborn nt Hnew Haddr); [done|done|done|].
    intros s' Hg. apply wp_ret, wp_ret. by eapply good_ok. }
  intros pm Htab Hpm. simpl. unfold spl_get, spl_put. apply wp_bind, wp_bind, wp_gets.
  eapply wp_deref; [simpl; apply lookup_insert_eq|]. apply wp_bind, wp_in_ints, wp_modify.
  apply wp_bind. eapply wp_thread_upd; [simpl; apply lookup_insert_eq|]. apply wp_bind. simpl. rewrite !insert_insert_eq.
  set (yn := with_context _ _). destruct (own_queue C s me x Hgood Hx) as [xs Hxs].
  destruct (free_locks C s me Hgood) as [Hl1 Hl2]; [by eexists|].
  pose proof (born_inv nt Hnew h yn HR) as HI1. destruct (i_transit _ _ _ HI1 nt eq_refl) as (_ & Ho & _).
  assert (t_cpu y = Some me) as Hcpu by apply (local_cpu_ok C s me x y Hgood Hx Hy).
  destruct (born_steady nt Hnew h yn) as (Hh & Hs & _).
  eapply (wp_runnable me t nt yn me x xs C); simpl; try done.
  - destruct Hs as (sp1 & n1 & k1 & Hs1 & Hs2). exists sp1, n1, k1. simpl in *.
    rewrite lookup_insert_ne in Hs1 by congruence. by rewrite !lookup_insert_ne by congruence.
  - apply lookup_insert_eq.
  - rewrite dom_insert_L. done.
  - intros h' HR'. rewrite dom_insert_L in HR'. apply wp_ret, wp_ret. eapply good_ok.
    rewrite insert_insert_eq. unfold poked. rewrite H3, (insert_id (cpus s)) by done.
    refine (forked_good nt h yn pm xs h' Hnew H3 H2 HR Hcpu _ _ _ _ _ Hpm Hxs HR'); try done.
    eapply tables_frame; [exact Htab|done..|]. intros v q'. simpl.
    destruct (decide (nt = v)) as [<-|]; [|by rewrite !lookup_insert_ne].
    rewrite !lookup_insert_eq. split; intros (z & [= <-] & E); by eexists.
Qed.

End create.
End ThreadCreate.
