(* ===== verification/ThreadBoot.v ===== *)
(** * Processors are created

    [cpu_create] for a secondary processor keeps the invariant, and
    [thread_bootstrap] makes a first state that satisfies it. *)

From Stdlib Require Import ZArith Lia.
From stdpp Require Import base numbers list gmap strings.
From S2P Require Import Prelude Tlb Array Threadlist Thread ThreadInts ThreadSystem ThreadMoves ThreadSteps ThreadSwitch ThreadPark ThreadChanges ThreadActions ThreadCpus ThreadWake ThreadWchan ThreadProc ThreadCreate.

Module ThreadBoot.
Import Threadlist Thread ThreadInts ThreadSystem ThreadMoves ThreadSteps ThreadSwitch ThreadPark ThreadChanges ThreadActions ThreadCpus ThreadWake ThreadWchan ThreadProc ThreadCreate.
Implicit Types (C : gmap listid (list positive)) (s : sys) (X : option positive).

(** The processor that [cpu_create] makes. *)
Definition new_cpu (number : Z) (t : positive) (st : status) : cpu :=
  mkCpu number t 0 false 0 (replicate (Z.to_nat TLBSHOOTDOWN_MAX) 0) 0 false tlb_reset false st Free.

Lemma tlb_reset_ok : Tlb.tlb_wf tlb_reset ∧ Tlb.tlb_spinlock tlb_reset = false.
Proof.
  assert (∀ i e, znth (Tlb.slots tlb_reset) i = Some e →
            0 ≤ i < Tlb.NUM_TLB ∧ e = (Tlb.TLBHI_INVALID i, Tlb.TLBLO_INVALID)) as Hslot.
  { intros i e Hi. pose proof (znth_Some_range _ _ _ Hi) as [Hi0 _]. rewrite znth_lookup in Hi by done.
    unfold tlb_reset in Hi. cbn [Tlb.slots] in Hi. apply list_lookup_fmap_Some in Hi as (j & -> & Hj). apply lookup_seqZ in Hj as [-> Hj].
    replace (0 + Z.of_nat (Z.to_nat i)) with i by lia. split; [lia|done]. }
  split; [|done]. split.
  - done.
  - unfold Tlb.NUM_TLB. simpl. lia.
  - intros i j e e' [Hi ->]%Hslot [Hj ->]%Hslot. rewrite !Tlb.invalid_vpage by done. lia.
  - intros i e [Hi ->]%Hslot. by rewrite Tlb.invalid_not_valid.
  - by intros i e [Hi ->]%Hslot.
Qed.

Lemma inv_allcpus X C s a : inv X C s → inv X C (set_allcpus a s).
Proof.
  intros [H1 H2 H3 H4 H5 H6 H7 H8]. split; try done.
  intros t y Hy HX. destruct (H2 t y Hy HX). by split.
Qed.

(** A thread in transit becomes the first thread of a new processor. *)
Lemma move_online C s c t y n st :
  inv (Some t) C s → cpus s !! c = None → threads s !! t = Some y → t_cpu y = Some c → t_state y = S_READY → tgood y →
  is_Some (C !! Zombies c) → is_Some (C !! Runqueue c) →
  inv None C (set_cpus (<[c := new_cpu n t st]> (cpus s)) s).
Proof.
  intros HI Hc Hy Hcpu Hst [Hg1 Hg2] HZ HQ. set (x := new_cpu n t st).
  destruct (i_transit _ _ _ HI t eq_refl) as (_ & Hot & Htr).
  assert (∀ c' x', cpus s !! c' = Some x' → <[c := x]> (cpus s) !! c' = Some x') as Hfwd.
  { intros c' x' Hx'. rewrite lookup_insert_ne; [done|]. congruence. }
  assert (∀ c', is_Some (cpus s !! c') → is_Some (<[c := x]> (cpus s) !! c')) as His.
  { intros c' [x' Hx']. rewrite (Hfwd c' x' Hx'). by eexists. }
  assert (∀ c' x', cpus s !! c' = Some x' → c_curthread x' ≠ t) as Hnc.
  { intros c' x' Hx' E. pose proof (i_in _ _ _ t c' x' y HI Hx' E Hy). congruence. }
  split; simpl.
  - apply (i_rep _ _ _ HI).
  - intros u z Hz _. destruct (decide (u = t)) as [->|Hne].
    + assert (z = y) as -> by congruence. split; try done.
      * right; right. exists c, x. simpl. by rewrite lookup_insert_eq.
      * exists c. split; [done|]. simpl. rewrite lookup_insert_eq. by eexists.
    + destruct (i_thread _ _ _ HI u z Hz) as [H1 H2 H3 H4]; [congruence|]. split; try done.
      * destruct H1 as [H1|[(c' & x' & Hx' & Hp)|(c' & x' & Hx' & Hp)]]; [by left|right; left|right; right];
          exists c', x'; simpl; auto.
      * destruct H3 as (c' & Hc' & Hin). eauto.
  - done.
  - intros c' x' [[<- <-]|[Hne Hx']]%lookup_insert_Some.
    + exists y. split; [done|]. split; simpl; try done.
      * intros _. auto.
      * destruct (C !! Private c) as [[|v xs]|] eqn:E; try done. exfalso.
        destruct (i_list _ _ _ HI _ _ v E) as (yv & _ & x' & Hx' & _); [left|congruence].
      * apply tlb_reset_ok.
    + by apply (i_cpu _ _ _ HI).
  - intros l xs u Hl Hu. destruct (i_list _ _ _ HI l xs u Hl Hu) as (z & Hz & Hli). exists z. split; [done|].
    destruct l as [c'|c'|w|c']; simpl in *; [destruct Hli as [Hi ?]; split; [by apply His|done]..|done|].
    destruct Hli as (x' & Hx' & Hli). exists x'. auto.
  - intros c' x' u [[<- <-]|[Hne Hx']]%lookup_insert_Some Hp; [done|]. by eapply (i_hand _ _ _ HI).
  - intros c1 c2 x1 x2 u [[<- <-]|[Hn1 Hx1]]%lookup_insert_Some [[<- <-]|[Hn2 Hx2]]%lookup_insert_Some Hp1 Hp2; try done.
    by eapply (i_hands _ _ _ HI).
  - destruct (i_lists _ _ _ HI) as [H1 H2]. split; [|done]. intros c' Hc'.
    destruct (decide (c = c')) as [<-|]; [done|]. rewrite lookup_insert_ne in Hc' by done. auto.
Qed.

Lemma tables_cpus s c x a l :
  tables s → cpus s !! c = None → Z.pos c < 2 ^ 29 → ls_uniprocessor s = false →
  NoDup l → (∀ c, c ∈ l ↔ is_Some (cpus s !! c)) → Array.holds a (l ++ [c]) →
  tables (set_cpus (<[c := x]> (cpus s)) (set_allcpus a s)).
Proof.
  intros [T1 T2 T3 T4 T5 T6 T7 T8] Hc Haddr Hu Hnd Hin Ha.
  split; simpl; try done.
  - exists (l ++ [c]). split; [done|]. split.
    + apply NoDup_app. split; [done|]. split; [|apply NoDup_singleton].
      intros u Hu' ->%list_elem_of_singleton. apply Hin in Hu' as [? ?]. congruence.
    + intros u. rewrite elem_of_app, list_elem_of_singleton, Hin, lookup_insert_is_Some. destruct (decide (c = u)); naive_solver.
  - intros u [<-|[_ Hu']]%lookup_insert_is_Some; [done|auto].
  - congruence.
Qed.

(** The accounting with a new processor that has no locks. *)
Definition new_ints (c t : positive) (i : interrupts) : interrupts :=
  mkInterrupts (<[t := (1, 1)]> (t_spl i)) (<[c := 0]> (c_spinlocks i)) (<[c := false]> (c_irq i))
    (<[IpiLock c := None]> (<[RunqueueLock c := None]> (splk_holder i))).

Lemma new_ints_held c t i d :
  splk_holder i !! RunqueueLock c = None → splk_holder i !! IpiLock c = None →
  held_by d (new_ints c t i) = held_by d i.
Proof.
  intros H1 H2. unfold held_by. simpl. rewrite msum_insert by (by rewrite lookup_insert_ne).
  rewrite msum_insert by done. by rewrite decide_False.
Qed.

Section create.
Context (C : gmap listid (list positive)) (s : sys) (me : positive) (x : cpu) (y : thread) (sp k : Z).
Hypothesis Hgood : good C s.
Hypothesis Hx : cpus s !! me = Some x.
Hypothesis Hy : threads s !! c_curthread x = Some y.
Hypothesis Hacct : acct_cur s me x y sp k.
Context (c nt : positive).
Hypothesis Hc : cpus s !! c = None.
Hypothesis Hcaddr : Z.pos c < 2 ^ 29.
Hypothesis Hl1 : splk_holder (ints s) !! RunqueueLock c = None.
Hypothesis Hl2 : splk_holder (ints s) !! IpiLock c = None.
Hypothesis Hnew : threads s !! nt = None.
Hypothesis Haddr : Z.pos nt < 2 ^ 29.
Hypothesis Huni : ls_uniprocessor s = false.

Local Notation t := (c_curthread x).
Local Notation C' := (<[Runqueue c := []]> (<[Zombies c := []]> C)).

Lemma new_lists : default [] (C !! Zombies c) = [] ∧ default [] (<[Zombies c := []]> C !! Runqueue c) = [].
Proof.
  rewrite lookup_insert_ne by done. pose proof Hgood as (HI & _). split.
  - destruct (C !! Zombies c) as [[|v xs]|] eqn:E; try done. exfalso.
    destruct (i_list _ _ _ HI _ _ v E) as (yv & _ & Hli & _); [left|]. rewrite Hc in Hli. by destruct Hli.
  - destruct (C !! Runqueue c) as [[|v xs]|] eqn:E; try done. exfalso.
    destruct (i_list _ _ _ HI _ _ v E) as (yv & _ & Hli & _); [left|]. rewrite Hc in Hli. by destruct Hli.
Qed.

(** The state after the new processor and its thread are made. *)
Definition made (h : lists listid) (yn : thread) (xn : cpu) a pm : sys :=
  set_procs pm (set_cpus (<[c := xn]> (cpus s)) (set_allcpus a (set_ints (new_ints c nt (ints s))
    (set_tl h (set_threads (<[nt := yn]> (threads s)) s))))).

Lemma made_steady h yn xn a pm : steady me t (made h yn xn a pm).
Proof.
  destruct (own_steady C s me x y sp k Hgood Hx Hacct) as ((x0 & y0 & Hh1 & Hh2 & Hh3 & Hh4) & (sp0 & n0 & k0 & Hs1 & Hs2 & Hs3 & Hs4 & Hs5) & H1 & H2).
  assert (nt ≠ t) as Hne by congruence. assert (c ≠ me) as Hcm by congruence.
  assert (spl_of t (ints (made h yn xn a pm)) = spl_of t (ints s)) as E.
  { unfold spl_of. simpl. by rewrite lookup_insert_ne. }
  split; [exists x0, y0; simpl; rewrite !lookup_insert_ne by done; done|]. split; [|by rewrite E].
  exists sp0, n0, k0. simpl. by rewrite !lookup_insert_ne by done.
Qed.

Lemma made_good h2 h yn n a pm l :
  inv None C' (set_tl h2 s) → rep h C' ({[nt]} ∪ dom (threads s)) → t_cpu yn = Some c → t_state yn = S_READY → tgood yn →
  t_frames yn = [] → t_in_interrupt yn = false →
  NoDup l → (∀ c, c ∈ l ↔ is_Some (cpus s !! c)) → Array.holds a (l ++ [c]) →
  tables (set_threads (<[nt := yn]> (threads s)) (set_procs pm s)) →
  (∀ q, is_Some (pm !! q) ↔ is_Some (procs s !! q)) →
  good C' (made h yn (new_cpu n nt Unstarted) a pm).
Proof.
  intros HI2 HR Hcpu Hst Hg Hf Hii Hnd Hin Ha Htab Hpm. pose proof Hgood as (HI & Hn & Hcn & _ & Hac).
  split; [|split; [|split; [|split]]].
  - assert (inv (Some nt) C' (set_tl h (set_threads (<[nt := yn]> (threads s)) (set_tl h2 s)))) as HI3.
    { exact (move_create C' (set_tl h2 s) nt yn h HI2 Hnew HR). }
    apply (move_online _ _ c nt yn n Unstarted) in HI3; try done.
    + by apply (inv_ints _ _ _ (new_ints c nt (ints s))), (inv_procs _ _ _ pm), (inv_allcpus _ _ _ a) in HI3.
    + simpl. apply lookup_insert_eq.
    + rewrite lookup_insert_ne, lookup_insert_eq by done. by eexists.
    + rewrite lookup_insert_eq. by eexists.
  - intros c1 x1 y1 Hx1 Hy1 H1 H2. simpl in *. apply lookup_insert_Some in Hx1 as [[<- <-]|[Hne Hx1]]; [done|].
    rewrite !lookup_insert_ne by congruence. apply lookup_insert_Some in Hy1 as [[E <-]|[_ Hy1]]; [|by apply (Hn c1 x1)].
    destruct (i_cpu _ _ _ HI c1 x1 Hx1) as (z & Hz' & _). congruence.
  - intros c1 x1 Hx1. simpl in *. apply lookup_insert_Some in Hx1 as [[<- <-]|[Hne Hx1]]; [done|].
    specialize (Hcn c1 x1 Hx1). destruct (c_phase x1); simpl in *; try done; by rewrite !lookup_insert_ne by congruence.
  - pose proof (tables_cpus _ c (new_cpu n nt Unstarted) a l Htab Hc Hcaddr Huni Hnd Hin Ha) as Ht'.
    eapply tables_frame; [exact Ht'|done..].
  - eapply (acct_grow C s _ nt); try done; simpl.
    + intros v Hv. by rewrite lookup_insert_ne.
    + intros v Hv. by rewrite lookup_insert_ne.
    + intros c1 [x1 Hx1]. assert (c ≠ c1) by congruence. by rewrite !lookup_insert_ne.
    + intros c1. by apply new_ints_held.
    + intros l0 [h0 Hl0]. rewrite !lookup_insert_ne by congruence. done.
    + intros c1 x1 Hx1. rewrite lookup_insert_ne by congruence. done.
    + intros c1 x1 [[<- <-]|[Hne Hx1]]%lookup_insert_Some; [right|by left]. split; [done|]. split.
      * intros z Hz'. rewrite lookup_insert_eq in Hz'. injection Hz' as <-.
        split; simpl; rewrite ?lookup_insert_eq; try done; [by right|by rewrite new_ints_held, (c_none _ Hac)|by left].
      * by rewrite lookup_insert_eq, lookup_insert_ne, lookup_insert_eq by done.
    + intros q. apply Hpm.
    + intros z _ Hnc. destruct Hnc. exists c, (new_cpu n nt Unstarted). simpl. by rewrite lookup_insert_eq.
Qed.

Lemma wp_cpu_create : wp (cpu_create (Some me) c nt) (λ _ s', ok s') s.
Proof.
  pose proof Hgood as (HI & _ & _ & [(lc & Hlc & Hlnd & Hlin) T2 _ _ _ T6 _ [pr Hpr]] & _).
  destruct new_lists as [Hz Hq]. destruct (T6 _ _ Hpr) as (l & Hl & Hnd & Hin).
  unfold cpu_create. apply wp_bind, wp_in_tl. eapply threadlist_init_spec; [apply (i_rep _ _ _ HI)|done|].
  intros h1 HR1. pose proof (inv_init _ _ _ _ h1 HI Hz HR1) as HI1.
  apply wp_bind, wp_in_ints, wp_modify. apply wp_bind, wp_in_tl.
  eapply threadlist_init_spec; [exact HR1|done|]. intros h2 HR2. pose proof (inv_init _ _ _ _ h2 HI1 Hq HR2) as HI2.
  unfold spinlock_init, holder_put. do 2 (apply wp_bind, wp_in_ints, wp_modify). apply wp_bind, wp_in_allcpus.
  eapply Array.array_add_spec; [exact Hlc| |done|].
  { apply short_list; [done|]. intros c1 Hc1%Hlin. auto. }
  intros ac Hac. unfold thread_create, thread_put, spl_put. simpl. apply wp_bind. apply wp_bind, wp_modify. apply wp_bind, wp_in_tl.
  eapply threadlistnode_init_spec; [exact HR2|by apply not_elem_of_dom|done|]. intros h HR.
  apply wp_bind, wp_in_ints, wp_modify. apply wp_ret. apply wp_bind. eapply wp_deref; [done|].
  unfold cpu_put. apply wp_bind, wp_modify. apply wp_bind, wp_gets. apply wp_bind.
  set (n := Z.of_nat (length lc)).
  eapply (wp_proc_addthread me t true (kproc s) pr nt new_thread_record l); try done.
  - exact (made_steady h new_thread_record (new_cpu n nt Unstarted) ac (procs s)).
  - simpl. rewrite !lookup_insert_ne by done. apply (proc_free C s Hgood). by eexists.
  - simpl. apply lookup_insert_eq.
  - by eapply proc_short.
  - intros ap Hap. apply wp_bind, wp_KASSERT; [done|].
    pose proof (newborn_tables C s Hgood nt Hnew new_thread_record (kproc s) pr ap l Hpr eq_refl Hl Hnd Hin Hap) as Htab.
    set (pm := <[kproc s := with_pthreads ap pr]> (procs s)) in *.
    assert (∀ q, is_Some (pm !! q) ↔ is_Some (procs s !! q)) as Hpm by (intros q; apply insert_is_Some_iff; by eexists).
    assert (∀ yn, t_proc yn = Some (kproc s) → t_state yn = S_READY → tgood yn → t_frames yn = [] → t_in_interrupt yn = false →
      wp (thread_upd nt (with_cpu (Some c)) ;; mret c) (λ _ s', ok s') (made h yn (new_cpu n nt Unstarted) ac pm)) as Hend.
    { intros yn E1 E2 E3 E4 E5. apply wp_bind. eapply wp_thread_upd; [simpl; apply lookup_insert_eq|]. simpl.
      rewrite insert_insert_eq. apply wp_ret. eapply good_ok.
      refine (made_good h2 h (with_cpu (Some c) yn) n ac pm lc HI2 HR _ _ _ _ _ Hlnd Hlin Hac _ Hpm); try done.
      eapply tables_frame; [exact Htab|done..|]. intros v q. simpl.
      destruct (decide (nt = v)) as [<-|]; [|by rewrite !lookup_insert_ne].
      rewrite !lookup_insert_eq. split; intros (z & [= <-] & E); simpl in *; eexists; (split; [done|simpl; congruence]). }
    simpl. rewrite insert_insert_eq. apply wp_bind. destruct (n =? 0).
    + apply wp_ret. by apply (Hend (with_proc (Some (kproc s)) new_thread_record)).
    + unfold thread_checkstack_init. eapply wp_thread_upd; [simpl; apply lookup_insert_eq|]. simpl.
      rewrite insert_insert_eq. by refine (Hend (with_stack _ (with_proc (Some (kproc s)) new_thread_record)) _ _ _ _ _).
Qed.

End create.

Lemma act_cpu_create C s me x y sp k c nt :
  good C s → cpus s !! me = Some x → threads s !! c_curthread x = Some y → acct_cur s me x y sp k →
  allowed s me x y (CpuCreate c nt) = true → wp (perform me (CpuCreate c nt)) (λ _ s', ok s') s.
Proof.
  intros Hg Hx Hy Ha. simpl. unfold new_thread. rewrite !andb_true_iff, negb_true_iff, !bool_decide_eq_true.
  intros ((((_ & Hu) & Hn1 & Hn2) & Hc1 & Hc2) & Hl1 & Hl2). apply wp_bind.
  eapply wp_mono; [|by eapply (wp_cpu_create C s me x y sp k)]. intros r s' Hok. by apply wp_ret.
Qed.

(** ** The first processor *)

(** Before [thread_bootstrap] there is the kernel's process, without threads. *)
Definition boot (p : positive) (uni : bool) : sys :=
  mkSys (mkLists ∅ ∅) ∅ ∅ (mkInterrupts ∅ ∅ ∅ {[ProcLock p := None]}) Array.array_init Array.array_init ∅
    {[p := mkProc Array.array_init None]} p uni.

Section first.
Context (c t p : positive) (uni : bool).
Hypothesis Hc : Z.pos c < 2 ^ 29.
Hypothesis Ht : Z.pos t < 2 ^ 29.

Local Notation C1 := (<[Zombies c := []]> ∅ : gmap listid (list positive)).
Local Notation C2 := (<[Runqueue c := []]> C1).

Definition first_thread : thread :=
  with_cpu (Some c) (with_proc (Some p) new_thread_record).
Definition first_ints : interrupts :=
  mkInterrupts {[t := (1, 1)]} {[c := 0]} {[c := false]}
    (<[AllwchansLock := None]> (<[ProcLock p := None]>
      (<[IpiLock c := None]> (<[RunqueueLock c := None]> {[ProcLock p := None]})))).
Definition first (h : lists listid) ac ap : sys :=
  mkSys h {[t := first_thread]} {[c := new_cpu 0 t Online]} first_ints ac Array.array_init ∅
    {[p := mkProc ap None]} p uni.

Lemma start_inv : inv None ∅ (boot p uni).
Proof.
  split; try done. split; intros ? [? ?]; simplify_map_eq.
Qed.

Lemma first_held d : held_by d first_ints = 0.
Proof.
  unfold held_by, first_ints. cbn [splk_holder].
  rewrite (insert_id (<[IpiLock c := None]> _)) by (by rewrite !lookup_insert_ne, lookup_singleton_eq by done).
  rewrite !msum_insert by (by rewrite ?lookup_insert_ne, ?lookup_singleton_ne by done).
  by rewrite <- insert_empty, msum_insert.
Qed.

Lemma first_good h h2 ac ap :
  inv None C2 (set_tl h2 (boot p uni)) → rep h C2 {[t]} → Array.holds ac [c] → Array.holds ap [t] →
  good C2 (first h ac ap).
Proof.
  intros HI2 HR Hac Hap.
  assert (inv (Some t) C2 (set_tl h (set_threads (<[t := first_thread]> ∅) (set_tl h2 (boot p uni))))) as HI3.
  { apply (move_create C2 (set_tl h2 (boot p uni)) t first_thread h HI2); [done|].
    simpl. by rewrite dom_empty_L, union_empty_r_L. }
  split; [|split; [|split; [|split]]].
  - apply (move_online _ _ c t first_thread 0 Online) in HI3; try done.
    + apply (inv_ints _ _ _ first_ints), (inv_procs _ _ _ {[p := mkProc ap None]}), (inv_allcpus _ _ _ ac) in HI3.
      exact HI3.
    + simpl. apply lookup_insert_eq.
    + rewrite lookup_insert_ne, lookup_insert_eq by done. by eexists.
    + rewrite lookup_insert_eq. by eexists.
  - intros c1 x1 y1 Hx1. simpl in Hx1. by apply lookup_singleton_Some in Hx1 as [<- <-].
  - intros c1 x1 Hx1. simpl in Hx1. by apply lookup_singleton_Some in Hx1 as [<- <-].
  - split; simpl; try done.
    + exists [c]. split; [done|]. split; [apply NoDup_singleton|]. intros d.
      rewrite list_elem_of_singleton. split; [intros ->; rewrite lookup_singleton_eq; by eexists|].
      by intros [z [<- _]%lookup_singleton_Some].
    + by intros d [z [<- _]%lookup_singleton_Some].
    + by intros _ d d' [z [<- _]%lookup_singleton_Some] [z' [<- _]%lookup_singleton_Some].
    + exists []. split; [apply Array.holds_init|]. by split.
    + by intros w [? ?].
    + intros q z [<- <-]%lookup_singleton_Some. exists [t]. split; [done|]. split; [apply NoDup_singleton|].
      intros u. rewrite list_elem_of_singleton. split; [intros ->; rewrite lookup_singleton_eq; by eexists|].
      by intros (z & [<- _]%lookup_singleton_Some & _).
    + intros u z q [<- <-]%lookup_singleton_Some [= <-]. rewrite lookup_singleton_eq. by eexists.
    + rewrite lookup_singleton_eq. by eexists.
  - split; simpl.
    + intros c1 x1 y1 [<- <-]%lookup_singleton_Some [_ <-]%lookup_singleton_Some. exists 1, 0.
      split; simpl; rewrite ?lookup_singleton_eq; try done; [by right|by rewrite first_held|by left].
    + intros u z [<- <-]%lookup_singleton_Some Hnc. destruct Hnc. exists c, (new_cpu 0 t Online).
      simpl. by rewrite lookup_singleton_eq.
    + split; [|split].
      * intros d [z [<- _]%lookup_singleton_Some]. by rewrite !lookup_insert_ne, !lookup_insert_eq,
          ?lookup_insert_ne, ?lookup_insert_eq by done.
      * intros q [z [<- _]%lookup_singleton_Some]. by rewrite lookup_insert_ne, lookup_insert_eq.
      * by rewrite lookup_insert_eq.
    + intros d _. apply first_held.
Qed.

Lemma boot_ok : wp (thread_bootstrap c t) (λ _ s', ok s') (boot p uni).
Proof.
  pose proof start_inv as HI. unfold thread_bootstrap. apply wp_bind, wp_modify. apply wp_bind. unfold cpu_create.
  apply wp_bind, wp_in_tl. eapply threadlist_init_spec; [apply (i_rep _ _ _ HI)|done|]. intros h1 HR1.
  pose proof (inv_init _ _ _ _ h1 HI eq_refl HR1) as HI1.
  apply wp_bind, wp_in_ints, wp_modify. apply wp_bind, wp_in_tl.
  assert (default [] (C1 !! Runqueue c) = []) as Hq by by rewrite lookup_insert_ne.
  eapply threadlist_init_spec; [exact HR1|done|]. intros h2 HR2.
  pose proof (inv_init _ _ _ _ h2 HI1 Hq HR2) as HI2.
  unfold spinlock_init, holder_put. do 2 (apply wp_bind, wp_in_ints, wp_modify). apply wp_bind, wp_in_allcpus.
  eapply (Array.array_add_spec _ _ []); [apply Array.holds_init|done|done|].
  intros ac Hac. unfold thread_create, thread_put, spl_put. simpl. apply wp_bind. apply wp_bind, wp_modify.
  apply wp_bind, wp_in_tl. eapply threadlistnode_init_spec; [exact HR2|set_solver|done|]. intros h HR.
  apply wp_bind, wp_in_ints, wp_modify. apply wp_ret. apply wp_bind. eapply wp_deref; [done|].
  unfold cpu_put. apply wp_bind, wp_modify. apply wp_bind, wp_gets. apply wp_bind. unfold proc_addthread.
  apply wp_bind. eapply wp_thread_get; [simpl; apply lookup_insert_eq|]. apply wp_bind, wp_KASSERT; [done|].
  unfold spinlock_acquire, splraise, holder_get. simpl. apply wp_bind. wp_go.
  eapply wp_deref; [simpl; by rewrite !lookup_insert_ne, lookup_singleton_eq by done|]. wp_check.
  eapply wp_in_pthreads; [apply lookup_singleton_eq|].
  eapply (Array.array_add_spec _ _ []); [apply Array.holds_init|done|done|]. intros ap Hap.
  unfold spinlock_release, spllower, holder_put. simpl. wp_go. apply wp_in_ints, wp_modify. wp_go.
  eapply wp_thread_upd; [simpl; apply lookup_insert_eq|]. wp_go. wp_check.
  eapply wp_thread_upd; [simpl; apply lookup_insert_eq|]. wp_go. simpl. rewrite !insert_insert_eq.
  eapply (wp_curthread c t). { eexists _, _. simpl. by rewrite !lookup_insert_eq. }
  apply wp_bind. eapply wp_thread_upd; [simpl; apply lookup_insert_eq|]. apply wp_bind. eapply wp_thread_get; [simpl; apply lookup_insert_eq|].
  wp_check. apply wp_in_ints, wp_modify. wp_go. simpl. rewrite !insert_insert_eq, insert_singleton_eq.
  eapply good_ok. refine (first_good h h2 ac ap HI2 _ Hac Hap). simpl in HR. by rewrite dom_empty_L, union_empty_r_L in HR.
Qed.

End first.

End ThreadBoot.
