(* ===== verification/ThreadMigrate.v ===== *)
(** * Migration keeps the invariant

    The steps of [thread_consider_migration]: threads that wait on the run queue of
    one processor go to the run queues of others; a thread whose stack is in use
    stays. *)

From Stdlib Require Import ZArith Lia.
From stdpp Require Import base numbers list gmap strings.
From S2P Require Import Prelude Bitmap Tlb Array Threadlist Thread ThreadInts ThreadSystem ThreadMoves ThreadSteps ThreadSwitch ThreadPark ThreadChanges ThreadActions ThreadIrq ThreadCpus ThreadWake ThreadCreate.

Module ThreadMigrate.
Import Threadlist Thread ThreadInts ThreadSystem ThreadMoves ThreadSteps ThreadSwitch ThreadPark ThreadChanges ThreadActions ThreadIrq ThreadCpus ThreadWake ThreadCreate.
Implicit Types (C : gmap listid (list positive)) (s : sys) (X : option positive).

Lemma wp_count C s l xs (Q : Z → sys → Prop) :
  rep (tl s) C (dom (threads s)) → C !! l = Some xs → Q (Z.of_nat (length xs)) s →
  wp (in_tl (count_get l)) Q s.
Proof.
  intros HR Hl HQ. apply wp_in_tl. unfold count_get. wp_go. eapply wp_deref; [by apply (rep_count _ _ _ HR)|].
  by destruct s.
Qed.

(** A thread goes from one list to another. *)
Lemma inv_transfer C s l l' t xs ys zs ws y h1 h2 :
  inv None C s → l ≠ l' → C !! l = Some xs → C !! l' = Some zs → t ∈ xs →
  (∀ u, u ∈ ys ↔ u ∈ xs ∧ u ≠ t) → (∀ u, u ∈ ws ↔ u ∈ zs ∨ u = t) →
  rep h1 (<[l := ys]> C) (dom (threads s)) → rep h2 (<[l' := ws]> (<[l := ys]> C)) (dom (threads s)) →
  threads s !! t = Some y → listed s l' y →
  inv None (<[l' := ws]> (<[l := ys]> C)) (set_tl h2 s).
Proof.
  intros HI Hne Hl Hl' Ht Hys Hws HR1 HR2 Hy Hli.
  destruct (i_thread _ _ _ HI t y Hy) as [_ Hm Hc He]; [done|].
  pose proof (move_take C s l xs ys t h1 HI Hl Ht Hys HR1) as HI1.
  refine (move_put_same _ _ l' zs ws t y h2 HI1 _ Hws HR2 Hy _ _ _); try done. by rewrite lookup_insert_ne.
Qed.

(** ** Taking threads from the run queue *)

Lemma wp_take n me C s x' q ps i share m (Q : unit → sys → Prop) :
  inv None C (set_cpus (<[me := x']> (cpus s)) s) → c_phase x' = Sending i share m →
  C !! Runqueue me = Some q → (n ≤ length q)%nat → C !! Private me = Some ps →
  (∀ h' C' ps', inv None C' (set_cpus (<[me := x']> (cpus s)) (set_tl h' s)) → C' !! Private me = Some ps' →
     length ps' = (length ps + n)%nat → (∀ l, l ≠ Runqueue me → l ≠ Private me → C' !! l = C !! l) →
     Q tt (set_tl h' s)) →
  wp (take_victims n me me) Q s.
Proof.
  revert C s q ps. induction n as [|n IH]; intros C s q ps HI Hp Hq Hn Hps HQ; simpl.
  - apply wp_ret. specialize (HQ (tl s) C ps). destruct s. apply HQ; try done.
  - destruct q as [|t0 q _] using rev_ind; [simpl in Hn; lia|]. rewrite length_app in Hn. simpl in Hn.
    pose proof (i_rep _ _ _ HI) as HR. apply wp_bind, wp_in_tl.
    eapply threadlist_remtail_spec; [exact HR|done|]. intros h1 HR1. rewrite last_snoc. rewrite removelast_last in HR1.
    apply wp_bind. eapply wp_deref; [done|].
    destruct (i_list _ _ _ HI _ _ t0 Hq) as (y0 & Hy0 & _ & Hs0 & Hc0); [set_solver|]. simpl in Hy0.
    pose proof (rep_nodup _ _ _ HR _ _ Hq) as (Hnd & Hnd' & _)%NoDup_app.
    assert (∀ u, u ∈ q ↔ u ∈ q ++ [t0] ∧ u ≠ t0) as Hys.
    { intros u. rewrite elem_of_app, list_elem_of_singleton. split; [|by intros [[?|?] ?]].
      intros Hu. split; [by left|]. intros ->. by apply (Hnd' t0); [|apply list_elem_of_singleton]. }
    opose proof (move_take C _ (Runqueue me) _ q t0 h1 HI Hq _ Hys _) as HI1; [set_solver|done|].
    apply wp_bind, wp_in_tl.
    eapply (threadlist_addhead_spec _ _ _ _ ps); [exact HR1|by rewrite lookup_insert_ne|apply elem_of_dom; by eexists
      |apply (i_transit _ _ _ HI1 t0 eq_refl)|]. intros h2 HR2.
    opose proof (inv_transfer C _ (Runqueue me) (Private me) t0 (q ++ [t0]) q ps (t0 :: ps) y0 h1 h2 HI _ Hq Hps _ Hys _ HR1 HR2 Hy0 _)
      as HI2; [done|set_solver|set_solver|exists x'; split; [apply lookup_insert_eq|by rewrite Hp]|].
    eapply (IH _ (set_tl h2 s) q (t0 :: ps)); [exact HI2|done|..].
    + rewrite lookup_insert_ne by done. apply lookup_insert_eq.
    + lia.
    + apply lookup_insert_eq.
    + intros h' C' ps' HI' Hps' Hlen HC'. apply (HQ h' C' ps'); [exact HI'|done|simpl in Hlen; lia|].
      intros l H1 H2. rewrite HC' by done. by rewrite !lookup_insert_ne.
Qed.

(** ** Putting threads back *)

Lemma wp_put_back_loop fuel me C s x ps q i share m (Q : unit → sys → Prop) :
  inv None C s → cpus s !! me = Some x → c_phase x = Sending i share m →
  C !! Private me = Some ps → C !! Runqueue me = Some q → (length ps < fuel)%nat →
  (∀ h' C', inv None C' (set_tl h' s) → C' !! Private me = Some [] →
     (∀ l, l ≠ Runqueue me → l ≠ Private me → C' !! l = C !! l) → Q tt (set_tl h' s)) →
  wp (put_back_loop fuel me me) Q s.
Proof.
  revert C s q ps. induction fuel as [|fuel IH]; intros C s q ps HI Hx Hp Hps Hq Hlen HQ; [lia|]. simpl.
  pose proof (i_rep _ _ _ HI) as HR. apply wp_bind, wp_in_tl.
  eapply threadlist_remhead_spec; [exact HR|done|]. intros h1 HR1. destruct ps as [|t0 ps]; simpl in *.
  - apply wp_ret, (HQ h1 C); [|done|done]. rewrite insert_id in HR1 by done. exact (inv_tl _ _ _ _ HI HR1).
  - assert (NoDup (t0 :: ps)) as [Hnd _]%NoDup_cons by by eapply (rep_nodup _ _ _ HR).
    destruct (i_list _ _ _ HI _ _ t0 Hps) as (y0 & Hy0 & x0 & Hx0 & Hli); [left|].
    assert (x0 = x) as -> by congruence. rewrite Hp in Hli. destruct Hli as [Hs0 Hc0].
    opose proof (move_take C s (Private me) _ ps t0 h1 HI Hps _ _ HR1) as HI1; [left|set_solver|].
    apply wp_bind, wp_in_tl.
    eapply (threadlist_addtail_spec _ _ _ _ q); [exact HR1|by rewrite lookup_insert_ne|apply elem_of_dom; by eexists
      |apply (i_transit _ _ _ HI1 t0 eq_refl)|]. intros h2 HR2.
    opose proof (inv_transfer C s (Private me) (Runqueue me) t0 (t0 :: ps) ps q (q ++ [t0]) y0 h1 h2 HI _ Hps Hq _ _ _ HR1 HR2 Hy0 _)
      as HI2; [done|left|set_solver|intros u; rewrite elem_of_app, list_elem_of_singleton; done|split; [by eexists|done]|].
    eapply (IH _ (set_tl h2 s) (q ++ [t0]) ps); [exact HI2|done|done|..].
    + rewrite lookup_insert_ne by done. apply lookup_insert_eq.
    + apply lookup_insert_eq.
    + lia.
    + intros h' C' HI' Hps' HC'. apply (HQ h' C'); [exact HI'|done|].
      intros l H1 H2. rewrite HC' by done. by rewrite !lookup_insert_ne.
Qed.

(** ** Sending threads to another processor *)

(** What the inner loop does: threads go from the private list of [me] to the run
    queue of processor [c]. *)
Record sent (me c : positive) C C' s s' : Prop := {
  n_inv : inv None C' s';
  n_lists : ∀ l, l ≠ Runqueue c → l ≠ Private me → C' !! l = C !! l;
  n_cpus : ∀ d, d ≠ c → cpus s' !! d = cpus s !! d;
  n_shift : shifted C C' s s' c;
  n_some : is_Some (cpus s !! c);
  n_threads : ∀ v, option_Forall2 trel (threads s !! v) (threads s' !! v);
  n_rest : ints s' = ints s ∧ allcpus s' = allcpus s ∧ allwchans s' = allwchans s ∧ wchans s' = wchans s ∧
    procs s' = procs s ∧ kproc s' = kproc s ∧ ls_uniprocessor s' = ls_uniprocessor s;
}.

Lemma shifted_trans C1 C2 C3 s1 s2 s3 c :
  shifted C1 C2 s1 s2 c → shifted C2 C3 s2 s3 c → shifted C1 C3 s1 s3 c.
Proof.
  intros H1 H2 x1 Hx1. destruct (H1 x1 Hx1) as (HP1 & x2 & Hx2 & Ht1 & Hq1).
  destruct (H2 x2 Hx2) as (HP2 & x3 & Hx3 & Ht2 & Hq2). split; [congruence|]. exists x3. split; [done|].
  split; [by transitivity x2|]. pose proof Ht1 as ((_ & E1 & _) & _). pose proof Ht2 as (_ & _ & _ & Hl2).
  destruct Hq1 as [E|[(q & q1 & Hq & Hq') Hl]], Hq2 as [E'|[(r & q2 & Hr & Hr') Hl']].
  - left. congruence.
  - right. split; [exists r, q2; split; [congruence|done]|]. intros Hid. apply Hl'. congruence.
  - right. split; [exists q, q1; split; [done|congruence]|]. auto.
  - right. split; [|auto]. exists q, (q1 ++ q2). rewrite app_assoc. split; [done|]. congruence.
Qed.

Lemma sent_trans me c C1 C2 C3 s1 s2 s3 : sent me c C1 C2 s1 s2 → sent me c C2 C3 s2 s3 → sent me c C1 C3 s1 s3.
Proof.
  intros [A1 A2 A3 A4 A5 A6 (E1 & E2 & E3 & E4 & E5 & E6 & E7)] [B1 B2 B3 B4 B5 B6 (F1 & F2 & F3 & F4 & F5 & F6 & F7)].
  split; try done.
  - intros l H1 H2. rewrite B2, A2 by done. done.
  - intros d Hd. rewrite B3, A3 by done. done.
  - by eapply shifted_trans.
  - intros v. by transitivity (threads s2 !! v).
  - repeat split; congruence.
Qed.

Lemma sent_lists me c C C' s h' :
  c ≠ me → is_Some (cpus s !! c) → inv None C' (set_tl h' s) →
  (∀ l, l ≠ Private me → C' !! l = C !! l) → sent me c C C' s (set_tl h' s).
Proof.
  intros Hne Hc HI HC. split; try done; [auto|..].
  - intros x Hx. split; [apply HC; congruence|]. exists x. split; [done|]. split; [apply reflexivity|].
    left. by apply HC.
Qed.

(** One thread is sent. *)
Lemma sent_one me c C C1 s t0 y0 xc q h1 h2 :
  c ≠ me → ls_uniprocessor s = false → inv (Some t0) C1 (set_tl h1 s) → threads s !! t0 = Some y0 →
  tgood y0 → t_state y0 = S_READY → ¬ current s t0 → cpus s !! c = Some xc → C1 !! Runqueue c = Some q →
  (∀ l, l ≠ Private me → C1 !! l = C !! l) →
  rep h2 (<[Runqueue c := q ++ [t0]]> C1) (dom (threads s)) →
  sent me c C (<[Runqueue c := q ++ [t0]]> C1) s
    (set_tl h2 (set_cpus (<[c := poked (ls_uniprocessor s) xc]> (cpus s))
       (set_threads (<[t0 := with_cpu (Some c) y0]> (threads s)) (set_tl h1 s)))).
Proof.
  intros Hne Hu HI Hy0 Hg Hst Hnc Hxc Hq HC1 HR. split; try done.
  - assert (inv None (<[Runqueue c := q ++ [t0]]> C1)
              (set_tl h2 (set_threads (<[t0 := with_cpu (Some c) y0]> (threads s)) (set_tl h1 s)))) as HI1.
    { refine (move_put C1 (set_tl h1 s) (Runqueue c) q _ t0 y0 _ h2 HI Hq _ HR Hy0 _ _ _ _); try done.
      - intros u. rewrite elem_of_app, list_elem_of_singleton. done.
      - exists c. split; [done|by eexists]. }
    destruct (i_cpu _ _ _ HI c xc Hxc) as (y1 & _ & [_ _ _ _ Htlb Hsh]).
    apply (inv_cpu None _ _ c xc (poked (ls_uniprocessor s) xc)) in HI1; [exact HI1|done|apply poked_keep|..];
      unfold poked; by destruct (c_isidle xc), (ls_uniprocessor s).
  - intros l H1 H2. rewrite lookup_insert_ne by done. auto.
  - intros d Hd. simpl. by rewrite lookup_insert_ne.
  - intros x Hx. assert (x = xc) as -> by congruence. split; [rewrite lookup_insert_ne by done; apply HC1; congruence|].
    exists (poked (ls_uniprocessor s) xc). simpl. rewrite lookup_insert_eq. split; [done|]. split; [apply poked_told|].
    right. split; [exists q, [t0]; rewrite <- HC1 by done; by rewrite lookup_insert_eq|].
    intros Hid. unfold poked. by rewrite Hid, Hu.
  - intros v. simpl. destruct (decide (t0 = v)) as [<-|]; [|rewrite lookup_insert_ne by done; apply reflexivity].
    rewrite lookup_insert_eq, Hy0. by constructor.
Qed.

Lemma wp_send_loop n me c x share C s ps i share0 m (Q : Z → sys → Prop) :
  inv None C s → cpus s !! me = Some x → c_phase x = Sending i share0 m → c ≠ me → is_Some (cpus s !! c) →
  ls_uniprocessor s = false → sane me (c_curthread x) (ints s) → splk_holder (ints s) !! IpiLock c = Some None →
  C !! Private me = Some ps → (n ≤ length ps)%nat →
  (∀ r C' s' ps', sent me c C C' s s' → C' !! Private me = Some ps' → 0 ≤ r ≤ Z.of_nat (length ps') → Q r s') →
  wp (send_loop n me c share) Q s.
Proof.
  revert C s ps Q. induction n as [|n IH]; intros C s ps Q HI Hx Hp Hne [xc Hxc] Hu Hs Hl Hps Hn HQ; cbn [send_loop].
  { apply wp_ret. apply (HQ 0 C s ps); [|done|lia]. replace s with (set_tl (tl s) s) at 2 by by destruct s.
    apply sent_lists; [done|by eexists|by destruct s|done]. }
  destruct (proj1 (i_lists _ _ _ HI) c) as [_ [q Hq]]; [by eexists|]. pose proof (inv_here _ _ _ me x HI Hx) as Hh.
  apply wp_bind. eapply wp_count; [apply (i_rep _ _ _ HI)|done|]. destruct (negb _).
  { apply wp_ret. apply (HQ _ C s ps); [|done|lia]. replace s with (set_tl (tl s) s) at 2 by by destruct s.
    apply sent_lists; [done|by eexists|by destruct s|done]. }
  pose proof (i_rep _ _ _ HI) as HR. apply wp_bind, wp_in_tl.
  eapply threadlist_remhead_spec; [exact HR|done|]. intros h1 HR1. destruct ps as [|t0 ps]; [simpl in Hn; lia|].
  simpl in Hn, HR1. cbn [head].
  assert (NoDup (t0 :: ps)) as [Hnd _]%NoDup_cons by by eapply (rep_nodup _ _ _ HR).
  destruct (i_list _ _ _ HI _ _ t0 Hps) as (y0 & Hy0 & x0 & Hx0 & Hli); [left|].
  assert (x0 = x) as -> by congruence. rewrite Hp in Hli. destruct Hli as [Hs0 Hc0].
  destruct (i_thread _ _ _ HI t0 y0 Hy0) as [_ Hm0 _ He0]; [done|].
  opose proof (move_take C s (Private me) _ ps t0 h1 HI Hps _ _ HR1) as HI1; [left|set_solver|].
  destruct (i_transit _ _ _ HI1 t0 eq_refl) as (_ & Ho & _).
  apply wp_bind. eapply wp_deref; [done|]. apply wp_bind. eapply (wp_curthread me (c_curthread x)); [exact Hh|].
  case_bool_decide as Hcur.
  - apply wp_bind, wp_in_tl. eapply (threadlist_addtail_spec _ _ _ _ ps); [exact HR1|apply lookup_insert_eq|apply elem_of_dom; by eexists|done|].
    intros h2 HR2. rewrite insert_insert_eq in HR2.
    opose proof (move_put_same _ _ (Private me) ps (ps ++ [t0]) t0 y0 h2 HI1 _ _ _ Hy0 _ _ _) as HI2;
      [apply lookup_insert_eq|intros u; rewrite elem_of_app, list_elem_of_singleton; done|by rewrite insert_insert_eq
      |exists x; by rewrite Hp|done|exists me; split; [done|by eexists]|]. rewrite insert_insert_eq in HI2.
    eapply (IH _ (set_tl h2 s) (ps ++ [t0])); [exact HI2|done|done|done|by eexists|done|done|done|apply lookup_insert_eq
      |rewrite length_app; simpl; lia|].
    intros r C' s' ps' Hsent Hps' Hr. apply (HQ r C' s' ps'); [|done|done].
    eapply sent_trans; [|exact Hsent]. apply (sent_lists me c C _ s h2); [done|by eexists|exact HI2|].
    intros l Hlp. by rewrite lookup_insert_ne.
  - apply wp_bind. eapply wp_thread_upd; [done|]. apply enqueue_then.
    assert (¬ current s t0) as Hnc.
    { intros (d & xd & Hxd & E). pose proof (i_in _ _ _ t0 d xd y0 HI Hxd E Hy0). assert (d = me) as -> by congruence. congruence. }
    assert (dom (<[t0 := with_cpu (Some c) y0]> (threads s)) = dom (threads s)) as Hdom.
    { apply dom_insert_lookup_L. by eexists. }
    assert (<[Private me := ps]> C !! Runqueue c = Some q) as Hq1 by by rewrite lookup_insert_ne.
    eapply (wp_enqueue me (c_curthread x) c xc t0 q (<[Private me := ps]> C) (dom (threads s))); try done.
    + exact (here_other me (c_curthread x) s t0 (with_cpu (Some c) y0) Hh Hcur).
    + apply elem_of_dom. by eexists.
    + intros h2 HR2.
      opose proof (sent_one me c C (<[Private me := ps]> C) s t0 y0 xc q h1 h2 Hne Hu HI1 Hy0 _ Hs0 Hnc Hxc Hq1 _ HR2) as Hsent;
        [done|intros l Hlp; by rewrite lookup_insert_ne|].
      eapply (IH _ _ ps); [exact (n_inv _ _ _ _ _ _ Hsent)|..]; try done.
      * simpl. by rewrite lookup_insert_ne.
      * simpl. rewrite lookup_insert_eq. by eexists.
      * rewrite lookup_insert_ne by done. apply lookup_insert_eq.
      * lia.
      * intros r C' s' ps' Hsent' Hps' Hr. apply (HQ r C' s' ps'); [|done|done]. by eapply sent_trans.
Qed.

(** ** The steps *)

Section migrate.
Context (C : gmap listid (list positive)) (s : sys) (me : positive) (x : cpu) (y : thread) (sp k : Z).
Hypothesis Hgood : good C s.
Hypothesis Hx : cpus s !! me = Some x.
Hypothesis Hy : threads s !! c_curthread x = Some y.
Hypothesis Hacct : acct_cur s me x y sp k.
Hypothesis Hon : c_status x = Online.
Hypothesis Hh : handler_phase (c_phase x) = true.

Local Notation t := (c_curthread x).

Lemma migrate_frames : t_frames y ≠ [] ∧ k = 0.
Proof. by eapply handler_frames. Qed.

Lemma migrate_here : here me t s ∧ sane me t (ints s).
Proof. split; [by eapply local_here|by eapply local_sane]. Qed.

(** The next phase, when no thread moves. *)
Lemma good_step p :
  private_ok C s me p → (handler_phase p = true) → phase_counts C me p →
  good C (set_cpus (<[me := with_phase p x]> (cpus s)) s).
Proof.
  intros Hp Hhp Hc. destruct migrate_frames as [Hf Hk].
  eapply (good_phase C s me x y sp k Hgood Hx Hy Hacct); try done; simpl.
  - intros u E. by rewrite E in Hh.
  - intros u ->. done.
  - intros Hid Hw. destruct Hf. by apply (proj1 (proj2 Hgood) me x y).
  - intros _ E. congruence.
Qed.

(** A move of threads between lists, by the acting processor. *)
Lemma good_migrated C' s' p :
  inv None C' s' → cpus s' = <[me := with_phase p x]> (cpus s) → threads s' = threads s →
  (ints s' = ints s ∧ allcpus s' = allcpus s ∧ allwchans s' = allwchans s ∧ wchans s' = wchans s ∧
    procs s' = procs s ∧ kproc s' = kproc s ∧ ls_uniprocessor s' = ls_uniprocessor s) →
  (∀ l, l ≠ Runqueue me → l ≠ Private me → C' !! l = C !! l) → handler_phase p = true → phase_counts C' me p →
  good C' s'.
Proof.
  intros HI Hcp Hth Hrest HC Hhp Hcnt. destruct migrate_frames as [Hf Hk].
  eapply (good_moved me C C' s s' x (with_phase p x) y sp k); try done.
  apply moved_self; try done; [intros; apply HC; congruence..|]. congruence.
Qed.

Lemma act_count i my total :
  c_phase x = Counting i my total → i < Array.num (allcpus s) →
  wp (count_round me i my total) (λ _ s', ok s') s.
Proof.
  intros Hp Hi.
  destruct migrate_here as [Hme Hs]. pose proof Hgood as (HI & _ & Hcn & Htab & _).
  pose proof (Hcn me x Hx) as Hcnt. rewrite Hp in Hcnt. destruct Hcnt as (Hi0 & Hmy & Htot).
  destruct (b_cpus _ Htab) as (l & Hl & _ & Hin). rewrite (Array.h_num _ _ Hl) in Hi.
  unfold count_round. apply wp_bind. eapply wp_allcpus_get; [exact Hl|lia|]. intros c Hc%Hin.
  destruct (free_locks C s c Hgood Hc) as [Hl1 _]. destruct (proj1 (i_lists _ _ _ HI) c Hc) as [_ [q Hq]].
  apply wp_bind. eapply (wp_acquire_lock me t); [done..|]. apply wp_bind.
  eapply wp_count; [exact (i_rep _ _ _ HI)|done|]. apply wp_bind. eapply wp_curcpu; [exact Hme|]. apply wp_bind.
  eapply (wp_release_locked me t); [exact Hme|done..|]. eapply wp_cpu_upd; [exact Hx|]. eapply good_ok.
  refine (good_step (Counting (i + 1) _ _) _ _ _); [|done|].
  - apply private_unused; [done|]. eapply own_private; try done. by rewrite Hp.
  - simpl. split; [lia|]. split; [|apply Z.mod_pos_bound; lia]. case_bool_decide as E; [|done].
    subst c. rewrite Hq. simpl. lia.
Qed.

Lemma act_choose i my total :
  c_phase x = Counting i my total →
  wp (choose_victims me (Array.num (allcpus s)) my total) (λ _ s', ok s') s.
Proof.
  intros Hp. destruct migrate_here as [Hme Hs]. pose proof Hgood as (HI & _ & Hcn & Htab & _).
  pose proof (Hcn me x Hx) as Hcnt. rewrite Hp in Hcnt. destruct Hcnt as (Hi0 & Hmy & Htot).
  destruct (own_queue C s me x Hgood Hx) as [q Hq]. rewrite Hq in Hmy. simpl in Hmy.
  assert (default [] (C !! Private me) = []) as HP by (eapply own_private; try done; by rewrite Hp).
  unfold choose_victims. set (share := Bitmap.DIVROUNDUP _ _).
  assert (0 ≤ share) as Hsh.
  { destruct (b_cpus _ Htab) as (l & Hl & _ & Hin). unfold share, Bitmap.DIVROUNDUP. rewrite (Array.h_num _ _ Hl).
    assert (me ∈ l) as Hme' by (apply Hin; by eexists). destruct l; [by apply elem_of_nil in Hme'|].
    apply Z.div_pos; [apply Z.mod_pos_bound; lia|simpl; lia]. }
  destruct (Z.ltb_spec my share) as [Hlt|Hge].
  { eapply wp_cpu_upd; [done|]. eapply good_ok, (good_step Clocked); [|done|done]. by apply private_unused. }
  set (n := my - share). destruct (free_locks C s me Hgood) as [Hl1 _]; [by eexists|].
  apply wp_bind, wp_in_tl. eapply threadlist_init_spec; [apply (i_rep _ _ _ HI)|done|]. intros h1 HR1.
  pose proof (inv_init _ _ _ _ h1 HI HP HR1) as HI1. apply wp_bind. eapply wp_curcpu; [exact Hme|].
  apply wp_bind. eapply (wp_acquire_lock me t); [exact Hme|done|done|]. apply wp_bind.
  set (x' := with_phase (Sending 0 share n) x).
  eapply (wp_take _ me (<[Private me := []]> C) _ x' q [] 0 share n); [..|apply lookup_insert_eq|]; try done.
  - apply (inv_ints _ _ _ (locked me t (RunqueueLock me) (ints s))) in HI1.
    refine (move_phase None None _ _ me x x' HI1 Hx eq_refl eq_refl eq_refl eq_refl eq_refl _ _).
    + split; simpl; rewrite lookup_insert_eq; [done|]. intros xs v yv [= <-] []%elem_of_nil.
    + right; left. by rewrite Hp.
  - by rewrite lookup_insert_ne.
  - lia.
  - intros h' C' ps' HI' Hps' Hlen HC'. apply wp_bind. eapply (wp_release_locked me t); [exact Hme|done..|].
    eapply wp_cpu_upd; [exact Hx|]. eapply good_ok, (good_migrated C' _ (Sending 0 share n)); try done.
    + apply (inv_ints _ _ _ (ints s)) in HI'. exact HI'.
    + intros l H1 H2. rewrite HC' by done. by rewrite lookup_insert_ne.
    + simpl. rewrite Hps'. simpl in *. lia.
Qed.

Lemma sending_facts i share n :
  c_phase x = Sending i share n →
  ∃ ps, C !! Private me = Some ps ∧ 0 ≤ i ∧ 0 ≤ n ≤ Z.of_nat (length ps) ∧
    ∀ j share' m, private_ok C s me (Sending j share' m).
Proof.
  intros Hp. pose proof Hgood as (HI & _ & Hcn & _). pose proof (Hcn me x Hx) as Hcnt. rewrite Hp in Hcnt.
  destruct (local_cpu_ok C s me x y Hgood Hx Hy) as [_ _ _ HP _ _]. rewrite Hp in HP. destruct HP as [ps Hps].
  exists ps. destruct Hcnt as (Hi & Hn). rewrite Hps in Hn. split; [done|]. split; [done|]. split; [done|].
  intros j share' m. split; [by eexists|]. intros xs v yv Hxs Hv Hyv.
  destruct (i_list _ _ _ HI _ _ v Hxs Hv) as (y1 & Hy1 & x1 & Hx1 & Hli).
  assert (x1 = x) as -> by congruence. rewrite Hp in Hli. by assert (y1 = yv) as <- by congruence.
Qed.

Lemma good_sent i share n r c C' s' ps' :
  c_phase x = Sending i share n → c ≠ me → ls_uniprocessor s = false → sent me c C C' s s' → C' !! Private me = Some ps' → 0 ≤ r ≤ Z.of_nat (length ps') →
  good C' (set_cpus (<[me := with_phase (Sending (i + 1) share r) x]> (cpus s')) s').
Proof.
  intros Hp Hne Hu [N1 N2 N3 N4 N5 N6 N7] Hps' Hr. destruct migrate_frames as [Hf Hk].
  destruct (sending_facts i share n Hp) as (ps & _ & Hi & _).
  assert (cpus s' !! me = Some x) as Hx' by (rewrite N3; done).
  eapply (good_moved me C C' s _ x (with_phase (Sending (i + 1) share r) x) y sp k); try done.
  - eapply (move_phase None None C' s' me x); try done.
    + split; [by eexists|]. intros xs v yv Hxs Hv Hyv.
      destruct (i_list _ _ _ N1 _ _ v Hxs Hv) as (y1 & Hy1 & x1 & Hx1 & Hli).
      assert (x1 = x) as -> by congruence. rewrite Hp in Hli. by assert (y1 = yv) as <- by congruence.
    + right; left. by rewrite Hp.
  - split; simpl; try done.
    + apply lookup_insert_eq.
    + intros d Hd. destruct (decide (d = c)) as [->|Hdc].
      * intros x1 Hx1. destruct (N4 x1 Hx1) as (HP & x2 & Hx2 & Hrest). split; [done|]. exists x2.
        simpl. by rewrite lookup_insert_ne.
      * intros x1 Hx1. split; [apply N2; congruence|]. exists x1. simpl.
        rewrite lookup_insert_ne, N3 by done. split; [done|]. split; [apply reflexivity|]. left. apply N2; congruence.
    + intros d Hd. apply insert_is_Some_iff in Hd; [|by eexists]. destruct (decide (d = c)) as [->|]; [done|]. by rewrite <- N3.
    + rewrite Hps'. simpl. lia.
Qed.

Lemma act_send i share n :
  c_phase x = Sending i share n → i < Array.num (allcpus s) → wp (send_round me i share n) (λ _ s', ok s') s.
Proof.
  intros Hp Hlt. destruct migrate_here as [Hme Hs]. pose proof Hgood as (HI & _ & _ & Htab & _).
  destruct (sending_facts i share n Hp) as (ps & Hps & Hi & Hn & HP).
  destruct (b_cpus _ Htab) as (l & Hl & _ & Hin). rewrite (Array.h_num _ _ Hl) in Hlt.
  unfold send_round. apply wp_bind. eapply wp_allcpus_get; [exact Hl|lia|]. intros c Hc%Hin.
  apply wp_bind. eapply wp_curcpu; [done|]. case_bool_decide as Hcm.
  { eapply wp_cpu_upd; [done|]. eapply good_ok, good_step; [apply HP|done|]. simpl. rewrite Hps. simpl. lia. }
  destruct (free_locks C s c Hgood Hc) as [Hl1 Hl2].
  assert (ls_uniprocessor s = false) as Hu.
  { destruct (ls_uniprocessor s) eqn:E; [|done]. destruct Hcm. eapply (b_uni _ Htab); [done|done|by eexists]. }
  apply wp_bind. eapply (wp_acquire_lock me t); [done..|]. apply wp_bind.
  eapply (wp_send_loop _ me c x share C _ ps i share n); [by apply inv_ints|done|done|done|done|done|by apply sane_locked|..].
  - simpl. by rewrite lookup_insert_ne.
  - done.
  - lia.
  - intros r C' s' ps' Hsent Hps' Hr. apply wp_bind.
    pose proof Hsent as [N1 N2 N3 N4 N5 N6 (E1 & E2 & E3 & E4 & E5 & E6 & E7)]. simpl in *.
    assert (cpus s' !! me = Some x) as Hx' by (rewrite N3; done).
    eapply (wp_release_locked me t); [exact (inv_here _ _ _ me x N1 Hx')|done|done|done|].
    eapply wp_cpu_upd; [done|]. eapply good_ok.
    refine (good_sent i share n r c C' (set_ints (ints s) s') ps' Hp Hcm Hu _ Hps' Hr).
    split; try done. by apply inv_ints.
Qed.

Lemma act_put_back i share n : c_phase x = Sending i share n → wp (put_back me) (λ _ s', ok s') s.
Proof.
  intros Hp. destruct migrate_here as [Hme Hs]. pose proof Hgood as (HI & _).
  destruct (sending_facts i share n Hp) as (ps & Hps & _). destruct (own_queue C s me x Hgood Hx) as [q Hq].
  destruct (free_locks C s me Hgood) as [Hl1 _]; [by eexists|].
  assert (∀ C' h', inv None C' (set_tl h' s) → C' !! Private me = Some [] →
    (∀ l, l ≠ Runqueue me → l ≠ Private me → C' !! l = C !! l) →
    wp (empty ← in_tl (threadlist_isempty (Private me)); KASSERT empty ;;
        in_tl (threadlist_cleanup (Private me)) ;; cpu_upd me (with_phase Clocked)) (λ _ s', ok s') (set_tl h' s)) as Hend.
  { intros C' h' HI' HP' HC'. pose proof (i_rep _ _ _ HI') as HR'. apply wp_bind, wp_in_tl.
    eapply threadlist_isempty_spec; [exact HR'|done|]. apply wp_bind, wp_KASSERT; [done|]. apply wp_bind, wp_in_tl.
    eapply threadlist_cleanup_spec; [exact HR'|done|]. eapply wp_cpu_upd; [exact Hx|]. eapply good_ok.
    eapply (good_migrated C' _ Clocked); try done.
    refine (move_phase None None C' (set_tl h' s) me x (with_phase Clocked x) HI' Hx eq_refl eq_refl eq_refl eq_refl eq_refl _ _).
    - apply private_unused; [done|]. by rewrite HP'.
    - right; left. by rewrite Hp. }
  unfold put_back. apply wp_bind, wp_in_tl. eapply threadlist_isempty_spec; [apply (i_rep _ _ _ HI)|done|].
  replace (set_tl (tl s) s) with s by by destruct s. apply wp_bind. case_bool_decide as He.
  - apply wp_ret. replace s with (set_tl (tl s) s) by by destruct s.
    apply (Hend C); [by destruct s|congruence|done].
  - apply wp_bind. eapply wp_curcpu; [done|]. apply wp_bind. eapply (wp_acquire_lock me t); [done..|].
    apply wp_bind, wp_gets. apply wp_bind.
    eapply (wp_put_back_loop _ me C _ x ps q i share n); [by apply inv_ints|done..| |].
    + simpl. pose proof (rep_size _ _ _ _ _ (i_rep _ _ _ HI) Hps). rewrite size_dom in *. lia.
    + intros h' C' HI' HP' HC'. eapply (wp_release_locked me t); [exact Hme|done..|].
      refine (Hend C' h' _ HP' HC'). apply (inv_ints _ _ _ (ints s)) in HI'. exact HI'.
Qed.

End migrate.

Lemma act_migrate C s me x y sp k :
  good C s → cpus s !! me = Some x → threads s !! c_curthread x = Some y → acct_cur s me x y sp k →
  allowed s me x y Migrate = true → wp (perform me Migrate) (λ _ s', ok s') s.
Proof.
  intros Hg Hx Hy Ha. simpl. unfold online. rewrite andb_true_iff, bool_decide_eq_true. intros (Hon & Hp).
  unfold thread_consider_migration. apply wp_bind. eapply wp_cpu_get; [done|]. apply wp_bind.
  apply wp_in_allcpus. unfold Array.array_num. apply wp_gets. replace (set_allcpus (allcpus s) s) with s by by destruct s.
  destruct (c_phase x) as [| | |i my total|i share n| |] eqn:Hph; try done.
  - destruct (Z.ltb_spec i (Array.num (allcpus s))).
    + eapply act_count; try done. by rewrite Hph.
    + eapply act_choose; try done. by rewrite Hph.
  - destruct (Z.ltb_spec i (Array.num (allcpus s))), (n >? 0); simpl;
      [eapply act_send|eapply act_put_back..]; try done; by rewrite Hph.
Qed.
End ThreadMigrate.
