(* ===== verification/ThreadTheorems.v ===== *)
(** * What the thread system guarantees

    Every call and every interrupt that can occur in a state that the machine
    reaches from [thread_bootstrap] completes; every thread is in exactly one place
    and in the state that goes with it; a processor with something to run does not
    stay idle; [thread_yield] is round robin; interrupts are on exactly when no lock
    is held and the priority is low. *)

From Stdlib Require Import ZArith Lia.
From stdpp Require Import base numbers list gmap strings.
From S2P Require Import Prelude Tlb Array Threadlist Thread ThreadInts ThreadSystem ThreadMoves ThreadSteps ThreadSwitch ThreadPark ThreadChanges ThreadActions ThreadIrq ThreadCpus ThreadWake ThreadWchan ThreadProc ThreadCreate ThreadBoot ThreadMigrate.

Module ThreadTheorems.
Import Threadlist Thread ThreadInts ThreadSystem ThreadMoves ThreadSteps ThreadSwitch ThreadPark ThreadChanges ThreadActions ThreadIrq ThreadCpus ThreadWake ThreadWchan ThreadProc ThreadCreate ThreadBoot ThreadMigrate.
Implicit Types (C : gmap listid (list positive)) (s : sys).

(** ** The invariant is kept *)

Lemma enabled_facts me a s :
  ok s → enabled me a s = true →
  ∃ C x y sp k, good C s ∧ cpus s !! me = Some x ∧ threads s !! c_curthread x = Some y ∧
    acct_cur s me x y sp k ∧ allowed s me x y a = true.
Proof.
  intros ((C & HI & Hn & Hc) & Ht & Ha). unfold enabled.
  destruct (cpus s !! me) as [x|] eqn:Hx; [|done]. destruct (threads s !! c_curthread x) as [y|] eqn:Hy; [|done].
  intros Hal. destruct (c_cur _ Ha me x y Hx Hy) as (sp & k & Hacct). by exists C, x, y, sp, k.
Qed.

Lemma perform_ok me a s : ok s → enabled me a s = true → wp (perform me a) (λ _ s', ok s') s.
Proof.
  intros Hok (C & x & y & sp & k & Hg & Hx & Hy & Ha & Hal)%enabled_facts; [|done].
  destruct a; [eapply act_spin_init|eapply act_acquire|eapply act_release|eapply act_splx|eapply act_fork
    |eapply act_rem_thread|eapply act_add_thread|eapply act_exit|eapply act_exit_rest|eapply act_yield
    |eapply act_wchan_create|eapply act_wchan_destroy|eapply act_sleep|eapply act_sleep_return
    |eapply act_wake_one|eapply act_wake_all|eapply act_wake_round|eapply act_irq_enter|eapply act_irq_exit
    |eapply act_ipi|eapply act_clear_ipi|eapply act_hardclock|eapply act_migrate|eapply act_clock_rest
    |eapply act_idle_wakeup|eapply act_shutdown|eapply act_shootdown|eapply act_cpu_create|eapply act_hatch];
    match goal with
    | |- good _ _ => exact Hg
    | |- cpus _ !! _ = _ => exact Hx
    | |- threads _ !! _ = _ => exact Hy
    | |- acct_cur _ _ _ _ _ _ => exact Ha
    | |- allowed _ _ _ _ _ = _ => exact Hal
    end.
Qed.

Lemma wp_result {A} (m : M sys A) (Q : A → sys → Prop) s a s' : wp m Q s → m s = Done (a, s') → Q a s'.
Proof. intros (b & s2 & E & HQ)%wp_done E'. rewrite E in E'. by injection E' as <- <-. Qed.

(** The states that a machine reaches whose first processor is [c], with first
    thread [t] and kernel process [p]. *)
Inductive reachable (c t p : positive) (uni : bool) : sys → Prop :=
| reach_boot s : thread_bootstrap c t (boot p uni) = Done (tt, s) → reachable c t p uni s
| reach_step s s' : reachable c t p uni s → step s s' → reachable c t p uni s'.

Lemma reachable_ok c t p uni s :
  Z.pos c < 2 ^ 29 → Z.pos t < 2 ^ 29 → reachable c t p uni s → ok s.
Proof.
  intros Hc Ht. induction 1 as [s Hb|s s' _ IH [me a He Hp]].
  - exact (wp_result _ _ _ _ _ (boot_ok c t p uni Hc Ht) Hb).
  - exact (wp_result _ _ _ _ _ (perform_ok me a s IH He) Hp).
Qed.

(** ** A run *)

(** Perform actions in turn, while they are enabled. *)
Fixpoint run (l : list (positive * action)) (s : sys) : option sys :=
  match l with
  | [] => Some s
  | (me, a) :: l' =>
      if enabled me a s then match perform me a s with Done (_, s') => run l' s' | Panic => None end else None
  end.

Lemma run_reachable c t p uni l s s' : reachable c t p uni s → run l s = Some s' → reachable c t p uni s'.
Proof.
  revert s. induction l as [|[me a] l IH]; intros s Hr; simpl; [congruence|].
  destruct (enabled me a s) eqn:He; [|done]. destruct (perform me a s) as [[[] s1]|] eqn:Hp; [|done].
  apply IH. eapply reach_step; [done|]. by econstructor.
Qed.

(** Two processors; thread 2, the first of the second processor, sleeps, its
    processor idles, and a thread on the first processor wakes it. *)
Definition booted : sys :=
  match thread_bootstrap 1 1 (boot 1 false) with Done (_, s) => s | Panic => boot 1 false end.
Definition demo : list (positive * action) :=
  [(1, SpinInit 1); (1, WchanCreate true true "demo" 1); (1, CpuCreate 2 2); (2, Hatch 1);
   (1, Fork (true, true, true, true) 3 None); (2, Acquire 1); (2, Sleep 1 1); (1, Acquire 1); (1, WakeOne 1 1);
   (1, WakeRound); (1, Release 1)]%positive.
Definition demo_state : sys := default booted (run demo booted).

Lemma demo_reachable : reachable 1 1 1 false demo_state.
Proof. apply (run_reachable 1 1 1 false demo booted); [apply reach_boot|]; by vm_compute. Qed.

Definition demo_cpu (c : positive) : cpu := default (new_cpu 0 1 Online) (cpus demo_state !! c).
Definition demo_thread (t : positive) : thread := default new_thread_record (threads demo_state !! t).

(** ** Calls complete *)



(** ** Where threads are *)

Inductive place := OnList (l : listid) | InHand (c : positive) | Running (c : positive).

Definition located C s (t : positive) (pl : place) : Prop :=
  match pl with
  | OnList l => ∃ xs, C !! l = Some xs ∧ t ∈ xs
  | InHand c => ∃ x, cpus s !! c = Some x ∧ c_phase x = WakingOne t
  | Running c => ∃ x, cpus s !! c = Some x ∧ c_curthread x = t ∧ c_isidle x = false
  end.

(** The state of a thread goes with its place.  The first thread of a processor
    runs in state [S_READY] until it first gives up the processor. *)
Definition fits s (pl : place) (y : thread) : Prop :=
  match pl with
  | OnList l => listed s l y
  | InHand _ => t_state y = S_SLEEP
  | Running c => t_cpu y = Some c ∧ (t_state y = S_RUN ∨ t_state y = S_READY)
  end.

Lemma located_one C s t pl pl' : inv None C s → located C s t pl → located C s t pl' → pl = pl'.
Proof.
  intros HI.
  assert (∀ c x, cpus s !! c = Some x → c_phase x = WakingOne t → ∀ l xs, C !! l = Some xs → t ∈ xs → False) as H1.
  { intros c x Hx Hp l xs Hl Ht. destruct (i_hand _ _ _ HI c x t Hx Hp) as (Ho & _). by eapply Ho. }
  assert (∀ c x, cpus s !! c = Some x → c_curthread x = t → c_isidle x = false →
            off C t ∧ ∃ y, threads s !! t = Some y ∧ t_state y ≠ S_SLEEP) as H2.
  { intros c x Hx <- Hid. destruct (i_cpu _ _ _ HI c x Hx) as (y & Hy & Hok).
    destruct (k_run _ _ _ _ Hok Hid) as [Ho Hst]. split; [done|]. exists y. split; [done|]. destruct Hst; congruence. }
  assert (∀ c x c' x', cpus s !! c = Some x → c_curthread x = t → c_isidle x = false →
            cpus s !! c' = Some x' → c_phase x' = WakingOne t → False) as H3.
  { intros c x c' x' Hx Ht Hid Hx' Hp. destruct (H2 c x Hx Ht Hid) as (_ & y & Hy & Hst).
    destruct (i_hand _ _ _ HI c' x' t Hx' Hp) as (_ & y' & Hy' & Hst'). congruence. }
  destruct pl as [l|c|c], pl' as [l'|c'|c']; simpl; intros Hl Hl'.
  - destruct Hl as (xs & Hl & Ht), Hl' as (ys & Hl' & Ht'). f_equal. by eapply (rep_one _ _ _ (i_rep _ _ _ HI)).
  - destruct Hl as (xs & Hl & Ht), Hl' as (x & Hx & Hp). by destruct (H1 c' x Hx Hp l xs).
  - destruct Hl as (xs & Hl & Ht), Hl' as (x & Hx & Hc & Hid). destruct (H2 c' x Hx Hc Hid) as [Ho _]. by destruct (Ho l xs).
  - destruct Hl as (x & Hx & Hp), Hl' as (xs & Hl & Ht). by destruct (H1 c x Hx Hp l' xs).
  - destruct Hl as (x & Hx & Hp), Hl' as (x' & Hx' & Hp'). f_equal. by eapply (i_hands _ _ _ HI).
  - destruct Hl as (x & Hx & Hp), Hl' as (x' & Hx' & Hc & Hid). by destruct (H3 c' x' c x).
  - destruct Hl as (x & Hx & Hc & Hid), Hl' as (xs & Hl & Ht). destruct (H2 c x Hx Hc Hid) as [Ho _]. by destruct (Ho l' xs).
  - destruct Hl as (x & Hx & Hc & Hid), Hl' as (x' & Hx' & Hp). by destruct (H3 c x c' x').
  - destruct Hl as (x & Hx & Hc & Hid), Hl' as (x' & Hx' & Hc' & Hid'). f_equal. by eapply (current_cpu None C s t).
Qed.

Lemma located_fits C s t y : inv None C s → threads s !! t = Some y → ∃ pl, located C s t pl ∧ fits s pl y.
Proof.
  intros HI Hy. destruct (i_thread _ _ _ HI t y Hy) as [Hp _ _ _]; [done|].
  destruct Hp as [(l & xs & Hl & Ht)|[(c & x & Hx & Hp)|(c & x & Hx & Hc & Hid)]].
  - exists (OnList l). split; [by exists xs|]. destruct (i_list _ _ _ HI l xs t Hl Ht) as (y' & Hy' & Hli).
    by assert (y' = y) as -> by congruence.
  - exists (InHand c). split; [by exists x|]. destruct (i_hand _ _ _ HI c x t Hx Hp) as (_ & y' & Hy' & Hst).
    by assert (y' = y) as -> by congruence.
  - exists (Running c). split; [by exists x|]. destruct (i_cpu _ _ _ HI c x Hx) as (y' & Hy' & Hok).
    rewrite Hc in Hy'. assert (y' = y) as -> by congruence. split; [apply Hok|by apply Hok].
Qed.

(** C5: in every state that the thread system reaches, each thread is in exactly one
    place: on one list (a run queue, a wait channel, a list of zombies, or a list
    that a processor has taken threads off to), in the hand of a processor that
    wakes it, or running; its state and its processor go with the place.  The lists
    are well linked and have the right counts, and no two processors ever execute,
    or idle on, the stack of the same thread, however threads are woken, migrated
    and destroyed. *)
Theorem threads_in_one_place c t p uni s :
  Z.pos c < 2 ^ 29 → Z.pos t < 2 ^ 29 → reachable c t p uni s →
  ∃ C, rep (tl s) C (dom (threads s)) ∧
    (∀ u y, threads s !! u = Some y → ∃ pl, located C s u pl ∧ fits s pl y ∧ ∀ pl', located C s u pl' → pl' = pl) ∧
    (∀ d d' x x', cpus s !! d = Some x → cpus s !! d' = Some x' → c_curthread x = c_curthread x' → d = d').
Proof.
  intros Hc Ht Hr. destruct (reachable_ok c t p uni s Hc Ht Hr) as ((C & HI & _) & _). exists C.
  split; [apply (i_rep _ _ _ HI)|]. split.
  - intros u y Hy. destruct (located_fits C s u y HI Hy) as (pl & Hl & Hf). exists pl. split; [done|]. split; [done|].
    intros pl' Hl'. by eapply located_one.
  - intros d d' x x' Hx Hx' E. by eapply (current_cpu None C s (c_curthread x')).
Qed.

Lemma threads_in_one_place_witness :
  ∃ C, rep (tl demo_state) C (dom (threads demo_state)) ∧
    (∀ u y, threads demo_state !! u = Some y →
       ∃ pl, located C demo_state u pl ∧ fits demo_state pl y ∧ ∀ pl', located C demo_state u pl' → pl' = pl) ∧
    (∀ d d' x x', cpus demo_state !! d = Some x → cpus demo_state !! d' = Some x' →
       c_curthread x = c_curthread x' → d = d').
Proof. apply (threads_in_one_place 1 1 1 false demo_state); [lia|lia|exact demo_reachable]. Defined.

(** ** Idle processors *)

(** C6: a processor that waits in its idle loop while there is a thread on its run
    queue has been sent an interrupt that it will take, so it does not sleep over
    work; and when it goes on, it runs the first thread of its queue, with the rest
    left on it. *)
Theorem idle_processor_wakes c t p uni s d x u q :
  Z.pos c < 2 ^ 29 → Z.pos t < 2 ^ 29 → reachable c t p uni s →
  cpus s !! d = Some x → c_status x = Online → c_isidle x = true → c_waiting x = true →
  members (tl s) (Runqueue d) = u :: q →
  c_line x = true ∧ enabled d IrqEnter s = true ∧ enabled d IdleWakeup s = true ∧
  ∃ s' x' y', perform d IdleWakeup s = Done (tt, s') ∧ cpus s' !! d = Some x' ∧
    c_curthread x' = u ∧ c_isidle x' = false ∧ threads s' !! u = Some y' ∧ t_state y' = S_RUN ∧
    members (tl s') (Runqueue d) = q.
Proof.
  intros Hc Ht Hr Hx Hon Hid Hw Hm. destruct (reachable_ok c t p uni s Hc Ht Hr) as ((C & HI & Hn & Hcn) & Htab & Hac).
  assert (good C s) as Hg by done. destruct (i_cpu _ _ _ HI d x Hx) as (y & Hy & _).
  destruct (c_cur _ Hac d x y Hx Hy) as (sp & k & Ha). destruct (own_queue C s d x Hg Hx) as [xs Hxs].
  rewrite (rep_members _ _ _ _ _ (i_rep _ _ _ HI) Hxs) in Hm. subst xs.
  destruct (Hn d x y Hx Hy Hid Hw) as [Hf Hl].
  assert (enabled d IrqEnter s = true ∧ enabled d IdleWakeup s = true) as [He1 He2].
  { unfold enabled. rewrite Hx, Hy. simpl. unfold online. rewrite Hon, Hid, Hf. by destruct (bool_decide (c_irq _ !! _ = _)). }
  split; [destruct Hl; [done|congruence]|]. split; [done|]. split; [done|].
  assert (wp (idle_wakeup d) (λ _ s', ∃ x' y', cpus s' !! d = Some x' ∧ c_curthread x' = u ∧ c_isidle x' = false ∧
            threads s' !! u = Some y' ∧ t_state y' = S_RUN ∧ members (tl s') (Runqueue d) = q) s) as Hwp.
  { eapply (wp_idle_wakeup C s d x y sp k); try done. intros s' C' Hg' Hd. unfold dispatched in Hd. rewrite Hxs in Hd.
    destruct Hd as (-> & x' & y' & H1 & H2 & H3 & H4 & H5). exists x', y'. do 5 (split; [done|]).
    eapply rep_members; [apply (i_rep _ _ _ (proj1 Hg'))|]. rewrite lookup_insert_ne by done. apply lookup_insert_eq. }
  apply wp_done in Hwp as ([] & s' & E & x' & y' & Hrest). by exists s', x', y'.
Qed.

Lemma idle_processor_wakes_witness :
  c_line (demo_cpu 2) = true ∧ enabled 2 IrqEnter demo_state = true ∧ enabled 2 IdleWakeup demo_state = true ∧
  ∃ s' x' y', perform 2 IdleWakeup demo_state = Done (tt, s') ∧ cpus s' !! 2%positive = Some x' ∧
    c_curthread x' = 2%positive ∧ c_isidle x' = false ∧ threads s' !! 2%positive = Some y' ∧ t_state y' = S_RUN ∧
    members (tl s') (Runqueue 2) = [].
Proof.
  apply (idle_processor_wakes 1 1 1 false demo_state 2 (demo_cpu 2) 2 []);
    [lia|lia|exact demo_reachable|vm_compute; reflexivity..].
Defined.

(** ** Round robin *)

(** A thread that yields goes on at once when no other thread waits for the
    processor, with nothing changed; otherwise it goes to the end of the run queue,
    and the thread at the front of the queue runs. *)
Theorem yield_round_robin c t p uni s me x :
  Z.pos c < 2 ^ 29 → Z.pos t < 2 ^ 29 → reachable c t p uni s →
  cpus s !! me = Some x → enabled me Yield s = true →
  match members (tl s) (Runqueue me) with
  | [] => thread_yield me s = Done (tt, s)
  | u :: q => ∃ s' x' y', thread_yield me s = Done (tt, s') ∧ cpus s' !! me = Some x' ∧
      c_curthread x' = u ∧ c_isidle x' = false ∧ threads s' !! u = Some y' ∧ t_state y' = S_RUN ∧
      members (tl s') (Runqueue me) = q ++ [c_curthread x]
  end.
Proof.
  intros Hc Ht Hr Hx (C & x0 & y & sp & k & Hg & Hx0 & Hy & Ha & Hal)%enabled_facts; [|exact (reachable_ok c t p uni s Hc Ht Hr)].
  assert (x0 = x) as -> by congruence. simpl in Hal. unfold locks_held in Hal.
  rewrite andb_true_iff, Z.eqb_eq, (local_held s me x y sp k Ha) in Hal. destruct Hal as (Hth & Hk).
  destruct (in_thread_facts s me x y sp k Ha Hth) as (H1 & H2 & H3 & H4 & H5 & H6).
  destruct (own_queue C s me x Hg Hx) as [xs Hxs]. rewrite (rep_members _ _ _ _ _ (i_rep _ _ _ (proj1 Hg)) Hxs).
  destruct xs as [|u q].
  - assert (wp (thread_yield me) (λ _ s', s' = s) s) as Hw.
    { eapply (wp_yield me (c_curthread x) x y C s sp k); try done. }
    apply wp_done in Hw as ([] & s' & E & ->). done.
  - assert (wp (thread_yield me) (λ _ s', ∃ x' y', cpus s' !! me = Some x' ∧ c_curthread x' = u ∧ c_isidle x' = false ∧
              threads s' !! u = Some y' ∧ t_state y' = S_RUN ∧
              members (tl s') (Runqueue me) = q ++ [c_curthread x]) s) as Hw.
    { eapply (wp_yield me (c_curthread x) x y C s sp k); try done. intros _ s' C' Hg' Hd. unfold dispatched in Hd.
      rewrite lookup_insert_eq in Hd. simpl in Hd. destruct Hd as (-> & x' & y' & E1 & E2 & E3 & E4 & E5).
      exists x', y'. do 5 (split; [done|]). eapply rep_members; [apply (i_rep _ _ _ (proj1 Hg'))|].
      rewrite lookup_insert_ne by done. apply lookup_insert_eq. }
    apply wp_done in Hw as ([] & s' & E & x' & y' & Hrest). by exists s', x', y'.
Qed.

Lemma yield_round_robin_witness :
  ∃ s' x' y', thread_yield 1 demo_state = Done (tt, s') ∧ cpus s' !! 1%positive = Some x' ∧
    c_curthread x' = 3%positive ∧ c_isidle x' = false ∧ threads s' !! 3%positive = Some y' ∧ t_state y' = S_RUN ∧
    members (tl s') (Runqueue 1) = [1%positive].
Proof.
  pose proof (yield_round_robin 1 1 1 false demo_state 1 (demo_cpu 1)) as H.
  replace (members (tl demo_state) (Runqueue 1)) with [3%positive] in H by (vm_compute; reflexivity).
  apply H; [lia|lia|exact demo_reachable|vm_compute; reflexivity..].
Defined.

(** ** Interrupts *)

(** The number of spinlocks that processor [d] has. *)
Definition locks_had (d : positive) (i : interrupts) : nat :=
  size (filter (λ lh : lockid * option positive, lh.2 = Some d) (splk_holder i)).

Lemma held_locks d i : held_by d i = Z.of_nat (locks_had d i).
Proof.
  unfold held_by, locks_had. induction (splk_holder i) as [|l h m Hm IH] using map_ind.
  - by rewrite map_filter_empty, map_size_empty.
  - rewrite msum_insert, map_filter_insert by done. simpl. case_decide as Hh.
    + rewrite map_size_insert_None by (by apply map_lookup_filter_None; left). rewrite IH. lia.
    + rewrite map_filter_delete, delete_id by (by apply map_lookup_filter_None; left). rewrite IH. lia.
Qed.

(** C34: in every state that the thread system reaches, each processor counts exactly
    the spinlocks that it holds, and its thread counts those and the raised
    priority; interrupts are on exactly when it holds none and the priority is low.
    The idle loop and interrupt handlers are at high priority. *)
Theorem interrupts_accounted c t p uni s d x y :
  Z.pos c < 2 ^ 29 → Z.pos t < 2 ^ 29 → reachable c t p uni s →
  cpus s !! d = Some x → threads s !! c_curthread x = Some y →
  ∃ spl, t_spl (ints s) !! c_curthread x = Some (spl, spl + Z.of_nat (locks_had d (ints s))) ∧
    (spl = IPL_NONE ∨ spl = IPL_HIGH) ∧
    c_spinlocks (ints s) !! d = Some (Z.of_nat (locks_had d (ints s))) ∧
    c_irq (ints s) !! d = Some (bool_decide (spl = IPL_NONE ∧ locks_had d (ints s) = 0%nat)) ∧
    (c_isidle x = true ∨ t_in_interrupt y = true → spl = IPL_HIGH).
Proof.
  intros Hc Ht Hr Hx Hy. destruct (reachable_ok c t p uni s Hc Ht Hr) as (_ & _ & Hac).
  destruct (c_cur _ Hac d x y Hx Hy) as (sp & k & [A1 A2 A3 A4 A5 A6 A7 A8 A9 Ah A10 A11 A12]).
  rewrite held_locks in A4. subst k. unfold IPL_NONE, IPL_HIGH. exists sp. split; [done|]. split; [done|]. split; [done|]. split.
  - rewrite A5. f_equal. apply bool_decide_ext. lia.
  - intros [Hid|Hi]; apply A8; [by left|right]. destruct A6 as [[_ ?]|[-> _]]; [congruence|done].
Qed.

Lemma interrupts_accounted_witness :
  ∃ spl, t_spl (ints demo_state) !! c_curthread (demo_cpu 2) = Some (spl, spl + Z.of_nat (locks_had 2 (ints demo_state))) ∧
    (spl = IPL_NONE ∨ spl = IPL_HIGH) ∧
    c_spinlocks (ints demo_state) !! 2%positive = Some (Z.of_nat (locks_had 2 (ints demo_state))) ∧
    c_irq (ints demo_state) !! 2%positive =
      Some (bool_decide (spl = IPL_NONE ∧ locks_had 2 (ints demo_state) = 0%nat)) ∧
    (c_isidle (demo_cpu 2) = true ∨ t_in_interrupt (demo_thread 2) = true → spl = IPL_HIGH).
Proof.
  apply (interrupts_accounted 1 1 1 false demo_state 2 (demo_cpu 2) (demo_thread 2));
    [lia|lia|exact demo_reachable|vm_compute; reflexivity..].
Defined.

End ThreadTheorems.
