(* ===== verification/Pid.v ===== *)
(** * Process ids: kern/proc/pid.c

    The process table maps [pid mod PROCS_MAX] to a heap-allocated [pidinfo].
    The model keeps the pointers: the table holds addresses and the live
    objects are in a store, so a dangling or leaked [pidinfo] is visible.
    [pidlock] is kept as "does the current thread hold it"; a thread asleep in
    [cv_wait] is the pid of its process in the [pi_cv] list of the [pidinfo] it
    waits for. *)

From Stdlib Require Import ZArith Lia.
From stdpp Require Import base numbers list gmap.
From S2P Require Import Prelude.

Module Pid.

(** ** Limits and special pids (kern/include/pid.h, kern/limits.h, kern/wait.h) *)

Definition INVALID_PID : Z := 0.
Definition KERNEL_PID : Z := 1.
Definition PROCS_MAX : Z := 128.
Definition PID_MIN : Z := 2.
Definition PID_MAX : Z := 32767.
Definition WNOHANG : Z := 1.

(** ** Data *)

Record pidinfo := PidInfo {
  pi_pid : Z;
  pi_ppid : Z;
  pi_exited : bool;
  pi_exitstatus : Z;
  pi_cv : list Z  (* the threads asleep on the condition variable *)
}.

Abbreviation ptr := positive.

Record pidstate := PidState {
  pidlock : bool;                 (* held by the current thread *)
  pidtab : list (option ptr);     (* the array pidinfo[PROCS_MAX] *)
  pistore : gmap ptr pidinfo;     (* the live struct pidinfo objects *)
  nextpid : Z;
  nprocs : Z;
  curpid : Z                      (* curproc->p_pid *)
}.

Definition set_pidlock (b : bool) (s : pidstate) : pidstate :=
  PidState b (pidtab s) (pistore s) (nextpid s) (nprocs s) (curpid s).
Definition set_pidtab (t : list (option ptr)) (s : pidstate) : pidstate :=
  PidState (pidlock s) t (pistore s) (nextpid s) (nprocs s) (curpid s).
Definition set_pistore (h : gmap ptr pidinfo) (s : pidstate) : pidstate :=
  PidState (pidlock s) (pidtab s) h (nextpid s) (nprocs s) (curpid s).
Definition set_nextpid (n : Z) (s : pidstate) : pidstate :=
  PidState (pidlock s) (pidtab s) (pistore s) n (nprocs s) (curpid s).
Definition set_nprocs (n : Z) (s : pidstate) : pidstate :=
  PidState (pidlock s) (pidtab s) (pistore s) (nextpid s) n (curpid s).
Definition set_curpid (p : Z) (s : pidstate) : pidstate :=
  PidState (pidlock s) (pidtab s) (pistore s) (nextpid s) (nprocs s) p.

(** ** The sleep lock, as the current thread sees it (kern/thread/synch.c) *)

Definition lock_acquire : M pidstate unit :=
  held ← gets pidlock;
  KASSERT (negb held) ;; modify (set_pidlock true).

Definition lock_release : M pidstate unit :=
  held ← gets pidlock;
  KASSERT held ;; modify (set_pidlock false).

Definition assert_locked : M pidstate unit :=
  held ← gets pidlock; KASSERT held.

(** ** Pointers and the table *)

Definition load (a : ptr) : M pidstate pidinfo :=
  o ← gets (λ s, pistore s !! a); deref o.

Definition store (a : ptr) (pi : pidinfo) : M pidstate unit :=
  load a ;; modify (λ s, set_pistore (<[a := pi]> (pistore s)) s).

Definition tab_get (i : Z) : M pidstate (option ptr) :=
  o ← gets (λ s, znth (pidtab s) i); deref o.

Definition tab_set (i : Z) (v : option ptr) : M pidstate unit :=
  tab_get i ;; modify (λ s, set_pidtab (zset (pidtab s) i v) s).

(** The slot of a pid: [pid % PROCS_MAX]. *)
Definition slot (pid : Z) : Z := Z.rem pid PROCS_MAX.

(** ** pidinfo objects *)

(** [mem] and [cvmem]: whether the two allocations succeed. *)
Definition pidinfo_create (mem cvmem : bool) (pid ppid : Z)
  : M pidstate (option ptr) :=
  KASSERT (negb (pid =? INVALID_PID)) ;;
  if negb mem then mret None else
  if negb cvmem then mret None else
  a ← gets (λ s, fresh (dom (pistore s)));
  modify (λ s, set_pistore
    (<[a := PidInfo pid ppid false 0xbeef []]> (pistore s)) s) ;;
  mret (Some a).

(** [cv_destroy] asserts that no thread sleeps on the condition variable. *)
Definition pidinfo_destroy (a : ptr) : M pidstate unit :=
  pi ← load a;
  KASSERT (pi_exited pi) ;;
  KASSERT (pi_ppid pi =? INVALID_PID) ;;
  KASSERT (bool_decide (pi_cv pi = [])) ;;
  modify (λ s, set_pistore (delete a (pistore s)) s).

(** The static variables before [pid_bootstrap] runs; the boot thread belongs
    to the kernel process, whose [p_pid] is [KERNEL_PID]. *)
Definition pid_zeroed : pidstate :=
  PidState false (replicate (Z.to_nat PROCS_MAX) None) ∅ 0 0 KERNEL_PID.

Definition pid_bootstrap (lockmem mem cvmem : bool) : M pidstate unit :=
  if negb lockmem then panic else
  for_loop (Z.to_nat PROCS_MAX) 0 (λ i, tab_set i None) ;;
  a ← pidinfo_create mem cvmem KERNEL_PID INVALID_PID;
  tab_set KERNEL_PID a ;;
  o ← tab_get KERNEL_PID;
  if bool_decide (o = None) then panic else
  modify (set_nextpid PID_MIN) ;;
  modify (set_nprocs 1).

Definition pi_get (pid : Z) : M pidstate (option ptr) :=
  KASSERT (0 <=? pid) ;;
  KASSERT (negb (pid =? INVALID_PID)) ;;
  assert_locked ;;
  o ← tab_get (slot pid);
  match o with
  | None => mret None
  | Some a => pi ← load a;
              if negb (pi_pid pi =? pid) then mret None else mret (Some a)
  end.

Definition pi_put (pid : Z) (a : ptr) : M pidstate unit :=
  assert_locked ;;
  KASSERT (negb (pid =? INVALID_PID)) ;;
  o ← tab_get (slot pid);
  KASSERT (bool_decide (o = None)) ;;
  tab_set (slot pid) (Some a) ;;
  modify (λ s, set_nprocs (nprocs s + 1) s).

Definition pi_drop (pid : Z) : M pidstate unit :=
  assert_locked ;;
  o ← tab_get (slot pid);
  a ← deref o;
  pi ← load a;
  KASSERT (pi_pid pi =? pid) ;;
  pidinfo_destroy a ;;
  tab_set (slot pid) None ;;
  modify (λ s, set_nprocs (nprocs s - 1) s).

(** ** Operations *)

Definition inc_nextpid : M pidstate unit :=
  assert_locked ;;
  modify (λ s, set_nextpid (nextpid s + 1) s) ;;
  n ← gets nextpid;
  if PID_MAX <? n then modify (set_nextpid PID_MIN) else mret tt.

(** The search for a free slot. The assertion on [count] bounds the loop, so
    with [fuel] equal to the bound the fuel never decides. *)
Fixpoint pid_search (fuel : nat) (count : Z) : M pidstate unit :=
  n ← gets nextpid;
  o ← tab_get (slot n);
  match o with
  | None => mret tt
  | Some _ =>
      KASSERT (count <? PROCS_MAX * 2 + 5) ;;
      match fuel with
      | O => panic
      | S fuel' => inc_nextpid ;; pid_search fuel' (count + 1)
      end
  end.

Definition pid_alloc (mem cvmem : bool) : M pidstate (result Z) :=
  self ← gets curpid;
  KASSERT (negb (self =? INVALID_PID)) ;;
  lock_acquire ;;
  np ← gets nprocs;
  if np =? PROCS_MAX then lock_release ;; mret (Err EAGAIN) else
  pid_search (Z.to_nat (PROCS_MAX * 2 + 5)) 0 ;;
  pid ← gets nextpid;
  pi ← pidinfo_create mem cvmem pid self;
  match pi with
  | None => lock_release ;; mret (Err ENOMEM)
  | Some a =>
      pi_put pid a ;;
      inc_nextpid ;;
      lock_release ;;
      mret (Ok pid)
  end.

Definition pid_unalloc (theirpid : Z) : M pidstate unit :=
  KASSERT ((PID_MIN <=? theirpid) && (theirpid <=? PID_MAX)) ;;
  lock_acquire ;;
  o ← pi_get theirpid;
  them ← deref o;
  pi ← load them;
  KASSERT (negb (pi_exited pi)) ;;
  self ← gets curpid;
  KASSERT (pi_ppid pi =? self) ;;
  store them (PidInfo (pi_pid pi) INVALID_PID true 0xdead (pi_cv pi)) ;;
  pi_drop theirpid ;;
  lock_release.

Definition pid_disown (theirpid : Z) : M pidstate unit :=
  KASSERT ((PID_MIN <=? theirpid) && (theirpid <=? PID_MAX)) ;;
  lock_acquire ;;
  o ← pi_get theirpid;
  them ← deref o;
  pi ← load them;
  self ← gets curpid;
  KASSERT (pi_ppid pi =? self) ;;
  store them (PidInfo (pi_pid pi) INVALID_PID (pi_exited pi)
                      (pi_exitstatus pi) (pi_cv pi)) ;;
  (if pi_exited pi then pi_drop (pi_pid pi) else mret tt) ;;
  lock_release.

(** One iteration of the loop of [pid_setexitstatus] that disowns children. *)
Definition disown_slot (i : Z) : M pidstate unit :=
  o ← tab_get i;
  match o with
  | None => mret tt
  | Some a =>
      pi ← load a;
      self ← gets curpid;
      if pi_ppid pi =? self then
        store a (PidInfo (pi_pid pi) INVALID_PID (pi_exited pi)
                         (pi_exitstatus pi) (pi_cv pi)) ;;
        (if pi_exited pi then pi_drop (pi_pid pi) else mret tt)
      else mret tt
  end.

(** [cv_broadcast] empties the list of sleepers. *)
Definition pid_setexitstatus (status : Z) : M pidstate unit :=
  lock_acquire ;;
  self ← gets curpid;
  KASSERT (negb (self =? INVALID_PID)) ;;
  for_loop (Z.to_nat PROCS_MAX) 0 disown_slot ;;
  o ← pi_get self;
  us ← deref o;
  pi ← load us;
  store us (PidInfo (pi_pid pi) (pi_ppid pi) true status (pi_cv pi)) ;;
  (if pi_ppid pi =? INVALID_PID
   then pi_drop self
   else store us (PidInfo (pi_pid pi) (pi_ppid pi) true status [])) ;;
  modify (set_curpid INVALID_PID) ;;
  lock_release.

(** What [pid_wait] did to [*status] and [*ret]: [None] is "not written". *)
Record wait_ret := WaitRet { w_status : option Z; w_ret : option Z }.

(** A call to [pid_wait] returns, or goes to sleep in [cv_wait] holding a
    pointer to the child's [pidinfo]. *)
Inductive wait_outcome :=
| Returned (r : result wait_ret)
| Asleep (them : ptr).

(** The code of [pid_wait] after the exit of the child is known: hand back the
    status and drop the [pidinfo]. [status] and [ret]: the pointer is not null. *)
Definition pid_wait_collect (theirpid : Z) (status ret : bool) (them : ptr)
  : M pidstate (result wait_ret) :=
  pi ← load them;
  store them (PidInfo (pi_pid pi) 0 (pi_exited pi) (pi_exitstatus pi) (pi_cv pi)) ;;
  pi_drop (pi_pid pi) ;;
  lock_release ;;
  mret (Ok (WaitRet (if status then Some (pi_exitstatus pi) else None)
                    (if ret then Some theirpid else None))).

Definition pid_wait (theirpid : Z) (status : bool) (flags : Z) (ret : bool)
  : M pidstate wait_outcome :=
  self ← gets curpid;
  KASSERT (negb (self =? INVALID_PID)) ;;
  if theirpid =? self then mret (Returned (Err EINVAL)) else
  if (theirpid =? INVALID_PID) || (theirpid <? 0)
  then mret (Returned (Err ENOSYS)) else
  if negb (flags =? 0) && negb (flags =? WNOHANG)
  then mret (Returned (Err EINVAL)) else
  lock_acquire ;;
  o ← pi_get theirpid;
  match o with
  | None => lock_release ;; mret (Returned (Err ESRCH))
  | Some them =>
      pi ← load them;
      KASSERT (pi_pid pi =? theirpid) ;;
      if negb (pi_ppid pi =? self)
      then lock_release ;; mret (Returned (Err EPERM)) else
      if negb (pi_exited pi) then
        if flags =? WNOHANG then
          lock_release ;;
          KASSERT ret ;;
          mret (Returned (Ok (WaitRet None (Some 0))))
        else
          (* cv_wait: give up the lock and sleep on pi_cv *)
          store them (PidInfo (pi_pid pi) (pi_ppid pi) (pi_exited pi)
                              (pi_exitstatus pi) (pi_cv pi ++ [self])) ;;
          lock_release ;;
          mret (Asleep them)
      else
        r ← pid_wait_collect theirpid status ret them;
        mret (Returned r)
  end.

(** The rest of [pid_wait] once [cv_wait] returns with the lock. *)
Definition pid_wait_wakeup (theirpid : Z) (status ret : bool) (them : ptr)
  : M pidstate (result wait_ret) :=
  lock_acquire ;;
  pi ← load them;
  KASSERT (pi_exited pi) ;;
  pid_wait_collect theirpid status ret them.

(** ** Facts about the primitives *)

Create HintDb pid.

Lemma slot_mod pid : 0 ≤ pid → slot pid = pid mod PROCS_MAX.
Proof. intros ?. apply Z.rem_mod_nonneg; [done|]. unfold PROCS_MAX; lia. Qed.

Lemma slot_bound pid : 0 ≤ pid → 0 ≤ slot pid < PROCS_MAX.
Proof. intros. rewrite slot_mod by done. apply Z.mod_pos_bound. done. Qed.

Section primitives.
Implicit Types (s : pidstate) (a : ptr) (pi : pidinfo).

Lemma wp_assert_locked (Q : unit → pidstate → Prop) s :
pidlock s = true → Q tt s → wp assert_locked Q s.
Proof. intros Hl HQ. unfold assert_locked. repeat wp_step; done. Qed.

Lemma wp_pidlock_acquire (Q : unit → pidstate → Prop) s :
pidlock s = false → Q tt (set_pidlock true s) → wp lock_acquire Q s.
Proof. intros Hl HQ. unfold lock_acquire. repeat wp_step; [by rewrite Hl|done]. Qed.

Lemma wp_pidlock_release (Q : unit → pidstate → Prop) s :
pidlock s = true → Q tt (set_pidlock false s) → wp lock_release Q s.
Proof. intros Hl HQ. unfold lock_release. repeat wp_step; done. Qed.

Lemma wp_load a pi (Q : pidinfo → pidstate → Prop) s :
pistore s !! a = Some pi → Q pi s → wp (load a) Q s.
Proof. intros Ha HQ. unfold load. repeat wp_step; done. Qed.

Lemma wp_store a pi pi' (Q : unit → pidstate → Prop) s :
pistore s !! a = Some pi →
Q tt (set_pistore (<[a := pi']> (pistore s)) s) → wp (store a pi') Q s.
Proof.
intros Ha HQ. unfold store. wp_go. eapply wp_load; [done|]. by wp_step.
Qed.

Lemma wp_tab_get i o (Q : option ptr → pidstate → Prop) s :
znth (pidtab s) i = Some o → Q o s → wp (tab_get i) Q s.
Proof. intros Hi HQ. unfold tab_get. repeat wp_step; done. Qed.

Lemma wp_tab_set i o v (Q : unit → pidstate → Prop) s :
znth (pidtab s) i = Some o →
Q tt (set_pidtab (zset (pidtab s) i v) s) → wp (tab_set i v) Q s.
Proof.
intros Hi HQ. unfold tab_set. wp_go. eapply wp_tab_get; [done|]. by wp_step.
Qed.
End primitives.

(** ** Well-formedness of the table

    Every occupied slot points to a live object whose pid hashes there; every
    live object is in the table (nothing leaks); the counters agree. *)

Record wf (s : pidstate) : Prop := Wf {
  wf_len : length (pidtab s) = Z.to_nat PROCS_MAX;
  wf_tab : ∀ i a, pidtab s !! i = Some (Some a) →
    ∃ pi, pistore s !! a = Some pi ∧ Z.to_nat (slot (pi_pid pi)) = i;
  wf_store : ∀ a pi, pistore s !! a = Some pi →
    1 ≤ pi_pid pi ≤ PID_MAX ∧
    pidtab s !! Z.to_nat (slot (pi_pid pi)) = Some (Some a);
  wf_next : PID_MIN ≤ nextpid s ≤ PID_MAX;
  wf_nprocs : nprocs s = Z.of_nat (size (pistore s))
}.

(** The two shapes of change to the table. *)
Definition put_state (pid : Z) (a : ptr) (pi : pidinfo) (s : pidstate) : pidstate :=
  PidState (pidlock s) (zset (pidtab s) (slot pid) (Some a))
    (<[a := pi]> (pistore s)) (nextpid s) (nprocs s + 1) (curpid s).
Definition drop_state (pid : Z) (a : ptr) (s : pidstate) : pidstate :=
  PidState (pidlock s) (zset (pidtab s) (slot pid) None)
    (delete a (pistore s)) (nextpid s) (nprocs s - 1) (curpid s).

Section wellformed.
Implicit Types (s : pidstate) (a : ptr) (pi : pidinfo).

Lemma wf_slot s pid : wf s → 0 ≤ pid →
∃ o, znth (pidtab s) (slot pid) = Some o.
Proof.
intros Hwf Hp. pose proof (slot_bound pid Hp). rewrite znth_lookup by lia.
apply lookup_lt_is_Some_2. rewrite (wf_len _ Hwf). lia.
Qed.

Lemma wf_znth s a pi : wf s → pistore s !! a = Some pi →
znth (pidtab s) (slot (pi_pid pi)) = Some (Some a).
Proof.
intros Hwf Ha. destruct (wf_store _ Hwf _ _ Ha) as [Hr Ht].
pose proof (slot_bound (pi_pid pi) ltac:(lia)). by rewrite znth_lookup by lia.
Qed.

(** A pid names at most one live object. *)
Lemma wf_inj s a b pi qi : wf s →
pistore s !! a = Some pi → pistore s !! b = Some qi →
pi_pid pi = pi_pid qi → a = b.
Proof.
intros Hwf Ha Hb Heq.
pose proof (wf_znth _ _ _ Hwf Ha). pose proof (wf_znth _ _ _ Hwf Hb). congruence.
Qed.

Lemma wf_set_pidlock b s : wf s → wf (set_pidlock b s).
Proof. intros []. by constructor. Qed.

Lemma wf_set_curpid p s : wf s → wf (set_curpid p s).
Proof. intros []. by constructor. Qed.

Lemma wf_set_nextpid n s : wf s → PID_MIN ≤ n ≤ PID_MAX → wf (set_nextpid n s).
Proof. intros []. by constructor. Qed.

Lemma wf_update s a pi pi' : wf s →
pistore s !! a = Some pi → pi_pid pi' = pi_pid pi →
wf (set_pistore (<[a := pi']> (pistore s)) s).
Proof.
intros Hwf Ha Hpid. pose proof Hwf as [Hlen Htab Hst Hnx Hnp].
constructor; simpl; try done.
- intros i b Hb. destruct (Htab i b Hb) as (qi & Hqi & <-).
  destruct (decide (a = b)) as [->|].
  + exists pi'. rewrite lookup_insert_eq. split; [done|]. congruence.
  + exists qi. by rewrite lookup_insert_ne.
- intros b qi. rewrite lookup_insert. case_decide as Hab.
  + intros [= <-]. subst. rewrite Hpid. eauto.
  + eauto.
- rewrite Hnp, map_size_insert_Some by eauto. done.
Qed.

Lemma wf_put s a pi : wf s →
1 ≤ pi_pid pi ≤ PID_MAX → pistore s !! a = None →
znth (pidtab s) (slot (pi_pid pi)) = Some None →
wf (put_state (pi_pid pi) a pi s).
Proof.
intros Hwf Hr Ha Hfree. pose proof Hwf as [Hlen Htab Hst Hnx Hnp].
pose proof (slot_bound (pi_pid pi) ltac:(lia)) as Hsl.
rewrite znth_lookup in Hfree by lia.
constructor; simpl; unfold zset; try done.
- by rewrite length_insert.
- intros i b. rewrite list_lookup_insert. case_decide as Hi.
  + intros [= <-]. destruct Hi as [<- _]. exists pi. by rewrite lookup_insert_eq.
  + intros Hb. destruct (Htab i b Hb) as (qi & Hqi & <-).
    exists qi. rewrite lookup_insert_ne by congruence. done.
- intros b qi. rewrite lookup_insert. case_decide as Hab.
  + intros [= <-]. subst. split; [done|].
    apply list_lookup_insert_eq. rewrite Hlen. lia.
  + intros Hb. destruct (Hst b qi Hb) as [? Hq]. split; [done|].
    rewrite list_lookup_insert_ne; [done|congruence].
- rewrite map_size_insert_None by done. lia.
Qed.

Lemma wf_drop s a pi : wf s → pistore s !! a = Some pi →
wf (drop_state (pi_pid pi) a s).
Proof.
intros Hwf Ha. pose proof Hwf as [Hlen Htab Hst Hnx Hnp].
destruct (Hst _ _ Ha) as [Hr Hslot].
constructor; simpl; unfold zset; try done.
- by rewrite length_insert.
- intros i b. rewrite list_lookup_insert. case_decide; [done|].
  intros Hb. destruct (Htab i b Hb) as (qi & Hqi & <-).
  exists qi. rewrite lookup_delete_ne; [done|]. intros <-.
  assert (qi = pi) by congruence. subst.
  apply lookup_lt_Some in Hb. tauto.
- intros b qi. rewrite lookup_delete. case_decide as Hab; [done|].
  intros Hb. destruct (Hst b qi Hb) as [? Hq]. split; [done|].
  rewrite list_lookup_insert_ne; [done|congruence].
- rewrite map_size_delete_Some by eauto.
  pose proof (map_size_ne_0_lookup_2 (pistore s) a ltac:(eauto)). lia.
Qed.
End wellformed.

(** ** Specifications of the internal operations *)

Section internal.
Implicit Types (s : pidstate) (a : ptr) (pi : pidinfo).

Lemma find_pid s pid : wf s → 0 < pid →
(∃ a pi, pistore s !! a = Some pi ∧ pi_pid pi = pid) ∨
(∀ a pi, pistore s !! a = Some pi → pi_pid pi ≠ pid).
Proof.
intros Hwf Hp. destruct (wf_slot s pid Hwf ltac:(lia)) as [[a|] Ho].
- pose proof (slot_bound pid ltac:(lia)). rewrite znth_lookup in Ho by lia.
  destruct (wf_tab _ Hwf _ _ Ho) as (pi & Hpi & Hsl).
  destruct (decide (pi_pid pi = pid)) as [|Hne]; [left; eauto|right].
  intros b qi Hb <-. destruct (wf_store _ Hwf _ _ Hb) as [_ Hq]. congruence.
- right. intros b qi Hb <-. by rewrite (wf_znth _ _ _ Hwf Hb) in Ho.
Qed.

Lemma wp_pi_get_found s a pi (Q : option ptr → pidstate → Prop) :
wf s → pidlock s = true → pistore s !! a = Some pi →
Q (Some a) s → wp (pi_get (pi_pid pi)) Q s.
Proof.
intros Hwf Hl Ha HQ. destruct (wf_store _ Hwf _ _ Ha) as [Hr _].
unfold pi_get, INVALID_PID. do 2 wp_check.
wp_go. apply wp_assert_locked; [done|].
wp_go. eapply wp_tab_get; [by eapply wf_znth|].
wp_go. eapply wp_load; [done|]. by rewrite Z.eqb_refl.
Qed.

Lemma wp_pi_get_none s pid (Q : option ptr → pidstate → Prop) :
wf s → pidlock s = true → 0 < pid →
(∀ a pi, pistore s !! a = Some pi → pi_pid pi ≠ pid) →
Q None s → wp (pi_get pid) Q s.
Proof.
intros Hwf Hl Hp Hno HQ.
unfold pi_get, INVALID_PID. do 2 wp_check.
wp_go. apply wp_assert_locked; [done|].
destruct (wf_slot s pid Hwf ltac:(lia)) as [o Ho].
wp_go. eapply wp_tab_get; [done|]. destruct o as [a|]; [|by wp_step].
pose proof (slot_bound pid ltac:(lia)). rewrite znth_lookup in Ho by lia.
destruct (wf_tab _ Hwf _ _ Ho) as (pi & Hpi & _).
wp_go. eapply wp_load; [done|].
rewrite (proj2 (Z.eqb_neq _ _)) by eauto. simpl. by wp_step.
Qed.

Lemma wp_pi_drop s a pi (Q : unit → pidstate → Prop) :
wf s → pidlock s = true → pistore s !! a = Some pi →
pi_exited pi = true → pi_ppid pi = INVALID_PID → pi_cv pi = [] →
Q tt (drop_state (pi_pid pi) a s) → wp (pi_drop (pi_pid pi)) Q s.
Proof.
intros Hwf Hl Ha He Hp Hc HQ. unfold pi_drop, pidinfo_destroy.
wp_go. apply wp_assert_locked; [done|].
wp_go. eapply wp_tab_get; [by eapply wf_znth|].
wp_go. eapply wp_deref; [done|].
wp_go. eapply wp_load; [done|].
wp_check. wp_go. eapply wp_load; [done|].
do 3 wp_check. wp_go.
eapply wp_tab_set; [by apply (wf_znth _ _ _ Hwf Ha)|].
wp_step. done.
Qed.

Lemma wp_inc_nextpid s (Q : unit → pidstate → Prop) :
pidlock s = true →
Q tt (set_nextpid (if PID_MAX <? nextpid s + 1 then PID_MIN else nextpid s + 1) s) →
wp inc_nextpid Q s.
Proof.
intros Hl HQ. unfold inc_nextpid.
wp_go. apply wp_assert_locked; [done|]. repeat wp_step. simpl.
destruct (PID_MAX <? nextpid s + 1); by wp_step.
Qed.
End internal.

(** ** The search for a free pid *)

(** The successor in the cyclic order of candidate pids. *)
Definition next_candidate (n : Z) : Z :=
  if PID_MAX <? n + 1 then PID_MIN else n + 1.

Abbreviation candidate k n := (Nat.iter k next_candidate n).

Lemma candidate_range k n :
  PID_MIN ≤ n ≤ PID_MAX → PID_MIN ≤ candidate k n ≤ PID_MAX.
Proof.
  intros Hn. induction k as [|k IH]; simpl; [done|].
  unfold next_candidate at 1 3. unfold PID_MIN, PID_MAX in *.
  destruct (Z.ltb_spec 32767 (candidate k n + 1)); lia.
Qed.

Lemma candidate_linear k n :
  n + Z.of_nat k ≤ PID_MAX → candidate k n = n + Z.of_nat k.
Proof.
  induction k as [|k IH]; intros Hk; simpl; [lia|].
  rewrite IH by lia. unfold next_candidate.
  destruct (Z.ltb_spec PID_MAX (n + Z.of_nat k + 1)); lia.
Qed.

(** Every slot is visited within 254 steps, whatever the starting point: the
    wrap-around from [PID_MAX] to [PID_MIN] skips the residues 0 and 1. *)
Lemma candidate_covers n i :
  PID_MIN ≤ n ≤ PID_MAX → 0 ≤ i < PROCS_MAX →
  ∃ k, (k ≤ 254)%nat ∧ slot (candidate k n) = i.
Proof.
  unfold PID_MIN, PID_MAX, PROCS_MAX. intros Hn Hi.
  assert (Hreach : ∀ m, 0 ≤ m → m + 127 ≤ PID_MAX →
            ∃ k, (k ≤ 127)%nat ∧ slot (candidate k m) = i).
  { intros m Hm Hmax. exists (Z.to_nat ((i - m) mod 128)).
    pose proof (Z.mod_pos_bound (i - m) 128 ltac:(lia)).
    rewrite candidate_linear by lia. split; [lia|].
    rewrite slot_mod by lia. unfold PROCS_MAX.
    rewrite Z2Nat.id by lia. rewrite Z.add_mod_idemp_r by lia.
    replace (m + (i - m)) with i by lia. apply Z.mod_small. lia. }
  destruct (Z_le_gt_dec (n + 127) 32767) as [Hle|Hgt].
  - destruct (Hreach n ltac:(lia) Hle) as (k & ? & ?). exists k. split; [lia|done].
  - destruct (Hreach PID_MIN ltac:(done) ltac:(done)) as (k & ? & Hk).
    exists (k + S (Z.to_nat (32767 - n)))%nat. split; [lia|].
    rewrite Nat.iter_add. simpl.
    rewrite (candidate_linear (Z.to_nat (32767 - n)) n) by (unfold PID_MAX; lia).
    unfold next_candidate at 2. unfold PID_MAX.
    rewrite (proj2 (Z.ltb_lt _ _)) by lia. done.
Qed.

(** A table with fewer than [PROCS_MAX] live objects has a free slot. *)
Lemma wf_free_slot s : wf s → nprocs s < PROCS_MAX →
  ∃ i, 0 ≤ i < PROCS_MAX ∧ znth (pidtab s) i = Some None.
Proof.
  intros Hwf Hn. pose proof Hwf as [Hlen Htab Hst _ Hnp].
  destruct (decide (Some None ∈ ((λ i, pidtab s !! i) <$> seq 0 128)))
    as [Hin|Hnot].
  { apply list_elem_of_fmap in Hin as (i & Hi & Hs%elem_of_seq).
    exists (Z.of_nat i). unfold PROCS_MAX. split; [lia|].
    by rewrite znth_lookup, Nat2Z.id by lia. }
  exfalso.
  assert (Hfull : ∀ i o, pidtab s !! i = Some o → ∃ a, o = Some a).
  { intros i [a|] Hi; [eauto|]. exfalso. apply Hnot.
    apply list_elem_of_fmap. exists i. split; [done|]. apply elem_of_seq.
    apply lookup_lt_Some in Hi. rewrite Hlen in Hi. unfold PROCS_MAX in Hi. lia. }
  set (addrs := default 1%positive <$> pidtab s).
  assert (Hget : ∀ i a, addrs !! i = Some a → pidtab s !! i = Some (Some a)).
  { intros i a Hi. apply list_lookup_fmap_Some in Hi as (o & -> & Ho).
    by destruct (Hfull i o Ho) as [b ->]. }
  assert (Hnd : NoDup addrs).
  { apply NoDup_alt. intros i j a Hi%Hget Hj%Hget.
    destruct (Htab _ _ Hi) as (pi & Hpi & <-).
    destruct (Htab _ _ Hj) as (qi & Hqi & <-). congruence. }
  assert (Hsub : (list_to_set addrs : gset ptr) ⊆ dom (pistore s)).
  { intros a. rewrite elem_of_list_to_set. intros (i & Hi%Hget)%list_elem_of_lookup.
    destruct (Htab _ _ Hi) as (pi & Hpi & _). apply elem_of_dom. eauto. }
  apply subseteq_size in Hsub.
  rewrite size_list_to_set, size_dom in Hsub by done.
  unfold addrs in Hsub. rewrite length_fmap, Hlen in Hsub.
  change (Z.to_nat PROCS_MAX) with 128%nat in Hsub. unfold PROCS_MAX in Hn. lia.
Qed.

(** The loop ends on the first free candidate and its assertion holds. *)
Lemma wp_pid_search fuel count s (Q : unit → pidstate → Prop) :
  wf s → pidlock s = true →
  (∃ k, (k ≤ fuel)%nat ∧ count + Z.of_nat k ≤ PROCS_MAX * 2 + 5 ∧
        znth (pidtab s) (slot (candidate k (nextpid s))) = Some None) →
  (∀ k, (∀ j, (j < k)%nat →
           ∃ a, znth (pidtab s) (slot (candidate j (nextpid s))) = Some (Some a)) →
        znth (pidtab s) (slot (candidate k (nextpid s))) = Some None →
        Q tt (set_nextpid (candidate k (nextpid s)) s)) →
  wp (pid_search fuel count) Q s.
Proof.
  revert count s. induction fuel as [|fuel IH]; intros count s Hwf Hl Hk HQ.
  all: destruct (wf_slot s (nextpid s) Hwf) as [o Ho];
    [pose proof (wf_next _ Hwf); unfold PID_MIN in *; lia|].
  all: simpl; wp_step; wp_step; wp_step; eapply wp_tab_get; [done|].
  all: destruct o as [a|];
    [|wp_step; specialize (HQ 0%nat); destruct s; apply HQ; [lia|done]].
  all: destruct Hk as (k & Hkf & Hkc & Hfree).
  - replace k with 0%nat in Hfree by lia. simpl in Hfree. congruence.
  - destruct k as [|k]; [simpl in Hfree; congruence|].
    wp_check. wp_go. apply wp_inc_nextpid; [done|].
    fold (next_candidate (nextpid s)). rewrite Nat.iter_succ_r in Hfree.
    apply IH.
    + apply wf_set_nextpid; [done|]. apply (candidate_range 1), (wf_next _ Hwf).
    + done.
    + exists k. simpl. split_and!; [lia|lia|done].
    + simpl. intros k' Hocc Hfree'. rewrite <- Nat.iter_succ_r in Hfree' |- *.
      apply HQ; [|done]. intros [|j] Hj; [eauto|].
      rewrite Nat.iter_succ_r. apply Hocc. lia.
Qed.

#[local] Arguments pid_search : simpl never.

Lemma wf_nprocs_le s : wf s → nprocs s ≤ PROCS_MAX.
Proof.
  intros Hwf. pose proof Hwf as [Hlen Htab Hst _ Hnp].
  set (idx := λ x : ptr * pidinfo, Z.to_nat (slot (pi_pid x.2))).
  assert (Hsub : idx <$> map_to_list (pistore s) ⊆+ seq 0 128).
  { apply NoDup_submseteq.
    - apply NoDup_fmap_2_strong; [|apply NoDup_map_to_list].
      intros [a pi] [b qi] Ha%elem_of_map_to_list Hb%elem_of_map_to_list Heq.
      unfold idx in Heq; simpl in Heq.
      destruct (Hst _ _ Ha), (Hst _ _ Hb). simplify_eq. congruence.
    - intros i ([a pi] & -> & Ha%elem_of_map_to_list)%list_elem_of_fmap.
      apply elem_of_seq. unfold idx; simpl.
      destruct (Hst _ _ Ha) as [Hr _].
      pose proof (slot_bound (pi_pid pi) ltac:(lia)) as Hb. unfold PROCS_MAX in Hb. lia. }
  apply submseteq_length in Hsub.
  rewrite length_fmap, length_map_to_list, length_seq in Hsub.
  unfold PROCS_MAX. lia.
Qed.

(** ** pid_alloc *)

(** What a successful allocation does to the state. *)
Record allocated (s s' : pidstate) (pid : Z) : Prop := Allocated {
  al_range : PID_MIN ≤ pid ≤ PID_MAX;
  al_fresh : ∀ b pi, pistore s !! b = Some pi → pi_pid pi ≠ pid;
  al_first : ∃ k, pid = candidate k (nextpid s) ∧
    ∀ j, (j < k)%nat →
      ∃ a, znth (pidtab s) (slot (candidate j (nextpid s))) = Some (Some a);
  al_next : nextpid s' = next_candidate pid;
  al_store : ∃ a, pistore s !! a = None ∧
    pistore s' = <[a := PidInfo pid (curpid s) false 0xbeef []]> (pistore s)
}.

Definition pid_alloc_post (mem cvmem : bool) (s : pidstate) (r : result Z)
    (s' : pidstate) : Prop :=
  wf s' ∧ pidlock s' = false ∧ curpid s' = curpid s ∧
  match r with
  | Ok pid => nprocs s < PROCS_MAX ∧ mem && cvmem = true ∧ allocated s s' pid
  | Err e => pistore s' = pistore s ∧
             ((e = EAGAIN ∧ nprocs s = PROCS_MAX) ∨
              (e = ENOMEM ∧ nprocs s < PROCS_MAX ∧ mem && cvmem = false))
  end.

Lemma pid_alloc_finish pid s0 s (Q : result Z → pidstate → Prop) :
  wf s → pidlock s = true → nextpid s = pid →
  znth (pidtab s) (slot pid) = Some None →
  (∀ a, pistore s !! a = None →
        Q (Ok pid) (set_pidlock false (set_nextpid (next_candidate pid)
          (put_state pid a (PidInfo pid s0 false 0xbeef []) s)))) →
  wp (pidinfo_create true true pid s0)
     (λ pi, wp (match pi with
                | None => lock_release ;; mret (Err ENOMEM)
                | Some a =>
                    pi_put pid a ;; inc_nextpid ;; lock_release ;; mret (Ok pid)
                end) Q) s.
Proof.
  intros Hwf Hl Hnx Hfree HQ. pose proof (wf_next _ Hwf) as Hr. rewrite Hnx in Hr.
  unfold pidinfo_create, pi_put, INVALID_PID.
  unfold PID_MIN in Hr. wp_check. simpl. wp_go.
  apply wp_assert_locked; [done|]. wp_check.
  wp_go. eapply wp_tab_get; [done|]. wp_check.
  wp_go. eapply wp_tab_set; [done|]. wp_step. simpl.
  wp_go. apply wp_inc_nextpid; [done|]. simpl. rewrite Hnx.
  wp_go. apply wp_pidlock_release; [done|]. wp_go.
  apply (HQ (fresh (dom (pistore s)))).
  apply not_elem_of_dom, is_fresh.
Qed.

Lemma pid_alloc_correct mem cvmem s :
  wf s → pidlock s = false → curpid s ≠ INVALID_PID →
  wp (pid_alloc mem cvmem) (pid_alloc_post mem cvmem s) s.
Proof.
  intros Hwf Hl Hc. unfold pid_alloc.
  wp_check.
  wp_go. apply wp_pidlock_acquire; [done|]. wp_go. simpl.
  pose proof (wf_set_pidlock true s Hwf) as Hwf1.
  destruct (Z.eqb_spec (nprocs s) PROCS_MAX) as [Hfull|Hnf].
  { wp_go. apply wp_pidlock_release; [done|]. wp_step.
    split_and!; try done; [by repeat apply wf_set_pidlock|by left]. }
  pose proof (wf_nprocs_le _ Hwf) as Hle.
  destruct (wf_free_slot s Hwf ltac:(lia)) as (i & Hi & Hfree).
  destruct (candidate_covers (nextpid s) i (wf_next _ Hwf) Hi) as (k0 & Hk0 & Hs0).
  wp_go. apply wp_pid_search; [done|done| |].
  { exists k0. simpl. rewrite Hs0. unfold PROCS_MAX. split_and!; [lia|lia|done]. }
  intros k Hocc Hk. simpl in Hocc, Hk. wp_go. simpl.
  set (pid := candidate k (nextpid s)) in *.
  assert (Hr : PID_MIN ≤ pid ≤ PID_MAX) by apply candidate_range, (wf_next _ Hwf).
  pose proof (wf_set_nextpid pid _ Hwf1 Hr) as Hwf2.
  destruct (mem && cvmem) eqn:Hmem.
  - apply andb_true_iff in Hmem as [-> ->].
    apply pid_alloc_finish; [done|done|done|done|].
    intros a Ha. simpl in Ha.
    assert (Hnx : PID_MIN ≤ next_candidate pid ≤ PID_MAX)
      by (apply (candidate_range 1); done).
    split_and!; try done; [|lia|].
    + apply wf_set_pidlock, wf_set_nextpid; [|done].
      apply (wf_put _ a (PidInfo pid (curpid s) false 0xbeef [])); try done.
      simpl. unfold PID_MIN in Hr. lia.
    + constructor; try done; [|by exists k|by exists a].
      intros b pi Hb Heq. pose proof (wf_znth _ _ _ Hwf Hb). congruence.
  - wp_go. unfold pidinfo_create, INVALID_PID. unfold PID_MIN in Hr. wp_check.
    assert (Hq : pid_alloc_post mem cvmem s (Err ENOMEM)
              (set_pidlock false (set_nextpid pid (set_pidlock true s)))).
    { split_and!; try done; [by apply wf_set_pidlock|].
      right. rewrite Hmem. split_and!; [done|lia|done]. }
    destruct mem, cvmem; try done; simpl; wp_step; wp_step;
      apply wp_pidlock_release; try done; by wp_step.
Qed.

(** ** Disowning, exiting, waiting *)

(** The state changes of an operation that leaves [nextpid] and the current
    process alone and ends with the store [h]. *)
Record effect (s s' : pidstate) (h : gmap ptr pidinfo) : Prop := Effect {
  ef_wf : wf s';
  ef_lock : pidlock s' = pidlock s;
  ef_next : nextpid s' = nextpid s;
  ef_cur : curpid s' = curpid s;
  ef_store : pistore s' = h
}.

(** Nobody sleeps on the condition variable of an exited process. *)
Definition calm (h : gmap ptr pidinfo) : Prop :=
  ∀ a pi, h !! a = Some pi → pi_exited pi = true → pi_cv pi = [].

(** A [pidinfo] whose parent is gone. *)
Definition orphan (pi : pidinfo) : pidinfo :=
  PidInfo (pi_pid pi) INVALID_PID (pi_exited pi) (pi_exitstatus pi) (pi_cv pi).

Section operations.
Implicit Types (s : pidstate) (a : ptr) (pi : pidinfo).

Lemma effect_refl s : wf s → effect s s (pistore s).
Proof. by constructor. Qed.

Lemma effect_update s a pi pi' : wf s →
pistore s !! a = Some pi → pi_pid pi' = pi_pid pi →
effect s (set_pistore (<[a := pi']> (pistore s)) s) (<[a := pi']> (pistore s)).
Proof. intros. constructor; try done. by eapply wf_update. Qed.

(** Mark [a] as exited and orphaned, then free it. *)
Lemma effect_drop s a pi pi' : wf s →
pistore s !! a = Some pi → pi_pid pi' = pi_pid pi →
effect s (drop_state (pi_pid pi') a (set_pistore (<[a := pi']> (pistore s)) s))
       (delete a (pistore s)).
Proof.
intros Hwf Ha Hp. constructor; try done.
- apply wf_drop; simpl; [by eapply wf_update|]. by rewrite lookup_insert_eq.
- simpl. by rewrite delete_insert_eq.
Qed.

Lemma wp_store_drop s a pi pi' (Q : unit → pidstate → Prop) :
wf s → pidlock s = true → pistore s !! a = Some pi →
pi_pid pi' = pi_pid pi → pi_exited pi' = true →
pi_ppid pi' = INVALID_PID → pi_cv pi' = [] →
(∀ s', effect s s' (delete a (pistore s)) → Q tt s') →
wp (store a pi') (λ _, wp (pi_drop (pi_pid pi)) Q) s.
Proof.
intros Hwf Hl Ha Hp He Hpp Hcv HQ.
eapply wp_store; [done|]. rewrite <- Hp.
eapply wp_pi_drop; simpl; try done; [by eapply wf_update|by rewrite lookup_insert_eq|].
apply HQ. by eapply effect_drop.
Qed.

Lemma wp_orphan s a pi (Q : unit → pidstate → Prop) :
wf s → pidlock s = true → pistore s !! a = Some pi →
(pi_exited pi = true → pi_cv pi = []) →
(∀ s', effect s s' (if pi_exited pi then delete a (pistore s)
                    else <[a := orphan pi]> (pistore s)) → Q tt s') →
wp (store a (orphan pi))
   (λ _, wp (if pi_exited pi then pi_drop (pi_pid pi) else mret tt) Q) s.
Proof.
intros Hwf Hl Ha Hcv HQ. destruct (pi_exited pi) eqn:He.
- apply (wp_store_drop s a pi); try done. by apply Hcv.
- eapply wp_store; [done|]. wp_go. apply HQ. by eapply effect_update.
Qed.

Lemma effect_locked s s' h :
pidlock s = false → effect (set_pidlock true s) s' h →
effect s (set_pidlock false s') h.
Proof.
intros Hl [Hwf Hl' Hn Hc Hs]. constructor; try done. by apply wf_set_pidlock.
Qed.

Lemma set_pidlock_id s :
pidlock s = false → set_pidlock false (set_pidlock true s) = s.
Proof. intros Hl. destruct s; simpl in *. by rewrite Hl. Qed.

Lemma pid_unalloc_correct s a pi :
wf s → pidlock s = false → pistore s !! a = Some pi →
PID_MIN ≤ pi_pid pi → pi_exited pi = false →
pi_ppid pi = curpid s → pi_cv pi = [] →
wp (pid_unalloc (pi_pid pi)) (λ _ s', effect s s' (delete a (pistore s))) s.
Proof.
intros Hwf Hl Ha Hmin He Hp Hcv. destruct (wf_store _ Hwf _ _ Ha) as [Hr _].
unfold pid_unalloc. wp_check. apply wp_pidlock_acquire; [done|].
wp_go. apply (wp_pi_get_found (set_pidlock true s) a); [by apply wf_set_pidlock|done|done|].
wp_go. eapply wp_deref; [done|]. wp_go. apply wp_load with pi; [done|].
rewrite He. wp_check. wp_check. wp_inner.
apply (wp_store_drop (set_pidlock true s) a pi); try done; [by apply wf_set_pidlock|].
intros s' He'. apply wp_pidlock_release; [by rewrite (ef_lock _ _ _ He')|].
by apply effect_locked.
Qed.

Lemma pid_disown_correct s a pi :
wf s → pidlock s = false → pistore s !! a = Some pi →
PID_MIN ≤ pi_pid pi → pi_ppid pi = curpid s →
(pi_exited pi = true → pi_cv pi = []) →
wp (pid_disown (pi_pid pi))
   (λ _ s', effect s s' (if pi_exited pi then delete a (pistore s)
                         else <[a := orphan pi]> (pistore s))) s.
Proof.
intros Hwf Hl Ha Hmin Hp Hcv. destruct (wf_store _ Hwf _ _ Ha) as [Hr _].
unfold pid_disown. wp_check. apply wp_pidlock_acquire; [done|].
wp_go. apply (wp_pi_get_found (set_pidlock true s) a); [by apply wf_set_pidlock|done|done|].
wp_go. eapply wp_deref; [done|]. wp_go. apply wp_load with pi; [done|].
wp_check. fold (orphan pi). wp_inner.
apply (wp_orphan (set_pidlock true s) a pi); try done; [by apply wf_set_pidlock|].
intros s' He'. apply wp_pidlock_release; [by rewrite (ef_lock _ _ _ He')|].
by apply effect_locked.
Qed.
End operations.

(** What the exit of [self] does to the other entries of slots below [i]: its
    children lose their parent, and those that have exited are freed. *)
Definition disowned (self i : Z) (pi : pidinfo) : option pidinfo :=
  if (pi_ppid pi =? self) && (slot (pi_pid pi) <? i)
  then (if pi_exited pi then None else Some (orphan pi))
  else Some pi.

Section exiting.
Implicit Types (s : pidstate) (a : ptr) (pi : pidinfo).

Lemma disowned_same self i pi :
slot (pi_pid pi) ≠ i → disowned self (i + 1) pi = disowned self i pi.
Proof.
intros Hne. unfold disowned.
replace (slot (pi_pid pi) <? i + 1) with (slot (pi_pid pi) <? i); [done|].
destruct (Z.ltb_spec (slot (pi_pid pi)) i), (Z.ltb_spec (slot (pi_pid pi)) (i + 1)); lia.
Qed.

Lemma disowned_here self i pi :
slot (pi_pid pi) = i → disowned self i pi = Some pi.
Proof.
intros <-. unfold disowned. by rewrite Z.ltb_irrefl, andb_false_r.
Qed.

Lemma disowned_all self pi : 0 ≤ pi_pid pi →
disowned self PROCS_MAX pi =
if pi_ppid pi =? self
then (if pi_exited pi then None else Some (orphan pi)) else Some pi.
Proof.
intros Hp. pose proof (slot_bound _ Hp). unfold disowned.
by rewrite (proj2 (Z.ltb_lt _ _)), andb_true_r by lia.
Qed.

Lemma disowned_pid self i pi pi' :
disowned self i pi = Some pi' → pi_pid pi' = pi_pid pi.
Proof.
unfold disowned. destruct (_ && _); [|by intros [= <-]].
destruct (pi_exited pi); [done|]. by intros [= <-].
Qed.

Lemma wp_disown_slot self i s0 s (Q : unit → pidstate → Prop) :
0 ≤ i < PROCS_MAX → self ≠ INVALID_PID → calm (pistore s0) →
wf s → pidlock s = true → curpid s = self → nextpid s = nextpid s0 →
(∀ a pi, pistore s0 !! a = Some pi → 0 ≤ pi_pid pi) →
pistore s = omap (disowned self i) (pistore s0) →
(∀ s', effect s s' (omap (disowned self (i + 1)) (pistore s0)) → Q tt s') →
wp (disown_slot i) Q s.
Proof.
intros Hi Hself Hcalm Hwf Hl Hc Hn Hpos Hst HQ. unfold disown_slot.
assert (∃ o, znth (pidtab s) i = Some o) as [o Ho].
{ rewrite znth_lookup by lia. apply lookup_lt_is_Some_2. rewrite (wf_len _ Hwf). lia. }
wp_go. eapply wp_tab_get; [done|]. rewrite znth_lookup in Ho by lia.
(* the two stores agree outside slot i *)
assert (Hagree : ∀ b, (∀ pi, pistore s0 !! b = Some pi → slot (pi_pid pi) ≠ i) →
  omap (disowned self (i + 1)) (pistore s0) !! b = pistore s !! b).
{ intros b Hb. rewrite Hst, !lookup_omap.
  destruct (pistore s0 !! b) as [pi|] eqn:E; [|done]. simpl.
  apply disowned_same. by apply Hb. }
(* slot i of the original store is still in place *)
assert (Hhere : ∀ b pi, pistore s0 !! b = Some pi → slot (pi_pid pi) = i →
  o = Some b ∧ pistore s !! b = Some pi).
{ intros b pi Hb Hsl. assert (pistore s !! b = Some pi) as Hb'.
  { rewrite Hst, lookup_omap, Hb. simpl. by apply disowned_here. }
  split; [|done]. destruct (wf_store _ Hwf _ _ Hb') as [_ Ht].
  rewrite Hsl in Ht. congruence. }
destruct o as [a|].
- destruct (wf_tab _ Hwf _ _ Ho) as (pi & Hpi & Hsl).
  assert (pistore s0 !! a = Some pi ∧ slot (pi_pid pi) = i) as [Ha0 Hsl'].
  { rewrite Hst, lookup_omap in Hpi.
    destruct (pistore s0 !! a) as [pi0|] eqn:E; [|done]. simpl in Hpi.
    pose proof (disowned_pid _ _ _ _ Hpi) as Hpid.
    pose proof (slot_bound _ (Hpos _ _ E)).
    assert (slot (pi_pid pi0) = i) as Hs0 by (rewrite Hpid in Hsl; lia).
    rewrite disowned_here in Hpi by done. split; congruence. }
  wp_go. eapply wp_load; [done|]. wp_go. rewrite Hc.
  destruct (Z.eqb_spec (pi_ppid pi) self) as [Hp|Hp].
  + fold (orphan pi). wp_go. apply (wp_orphan s a pi); try done.
    { by apply Hcalm with a. }
    intros s' He. apply HQ.
    assert ((if pi_exited pi then delete a (pistore s)
             else <[a:=orphan pi]> (pistore s)) =
            omap (disowned self (i + 1)) (pistore s0)) as <-; [|done].
    apply map_eq. intros b. destruct (decide (a = b)) as [<-|Hab].
    * rewrite lookup_omap, Ha0. simpl. unfold disowned.
      rewrite Hp, Z.eqb_refl, (proj2 (Z.ltb_lt _ _)) by lia. simpl.
      destruct (pi_exited pi); [by rewrite lookup_delete_eq|by rewrite lookup_insert_eq].
    * rewrite Hagree.
      { destruct (pi_exited pi); [by rewrite lookup_delete_ne|by rewrite lookup_insert_ne]. }
      intros qi Hb Hq. destruct (Hhere b qi Hb Hq) as [[= ->] _]. done.
  + wp_go. apply HQ. constructor; try done.
    apply map_eq. intros b. destruct (decide (a = b)) as [<-|Hab].
    * rewrite Hpi, lookup_omap, Ha0. simpl. unfold disowned.
      by rewrite (proj2 (Z.eqb_neq _ _)).
    * rewrite Hagree; [done|]. intros qi Hb Hq.
      destruct (Hhere b qi Hb Hq) as [[= ->] _]. done.
- wp_go. apply HQ. constructor; try done. apply map_eq. intros b.
  rewrite Hagree; [done|]. intros qi Hb Hq. by destruct (Hhere b qi Hb Hq).
Qed.
End exiting.

(** The store after the process with pid [self], whose entry is [pi] at [us],
    exits with [status]. *)
Definition exit_store (self : Z) (us : ptr) (pi : pidinfo) (status : Z)
    (h : gmap ptr pidinfo) : gmap ptr pidinfo :=
  let h' := omap (disowned self PROCS_MAX) h in
  if pi_ppid pi =? INVALID_PID then delete us h'
  else <[us := PidInfo (pi_pid pi) (pi_ppid pi) true status []]> h'.

Definition wait_reply (c : Z) (status ret : bool) (pi : pidinfo) : wait_ret :=
  WaitRet (if status then Some (pi_exitstatus pi) else None)
          (if ret then Some c else None).

Section exit_wait.
Implicit Types (s : pidstate) (a : ptr) (pi : pidinfo).

Lemma wp_disown_all s (Q : unit → pidstate → Prop) :
wf s → pidlock s = true → curpid s ≠ INVALID_PID → calm (pistore s) →
(∀ s', effect s s' (omap (disowned (curpid s) PROCS_MAX) (pistore s)) → Q tt s') →
wp (for_loop (Z.to_nat PROCS_MAX) 0 disown_slot) Q s.
Proof.
intros Hwf Hl Hc Hcalm HQ.
apply (wp_for_loop
  (λ i s', effect s s' (omap (disowned (curpid s) i) (pistore s)))).
- constructor; try done. apply map_eq. intros a. rewrite lookup_omap.
  destruct (pistore s !! a) as [pi|] eqn:E; [|done]. simpl. unfold disowned.
  destruct (wf_store _ Hwf _ _ E) as [Hr _].
  pose proof (slot_bound (pi_pid pi) ltac:(lia)).
  by rewrite (proj2 (Z.ltb_ge _ _)), andb_false_r by lia.
- intros i s' Hi [Hwf' Hl' Hn' Hc' Hs'].
  apply (wp_disown_slot (curpid s) i s s'); try done; try congruence.
  + intros a pi Ha. destruct (wf_store _ Hwf _ _ Ha). lia.
  + intros s'' [? ? ? ? ?]. constructor; congruence.
- intros s' He. apply HQ. exact He.
Qed.

Lemma pid_setexitstatus_correct s us pi status :
wf s → pidlock s = false → pistore s !! us = Some pi →
pi_pid pi = curpid s → pi_exited pi = false → pi_ppid pi ≠ curpid s →
calm (pistore s) → (pi_ppid pi = INVALID_PID → pi_cv pi = []) →
wp (pid_setexitstatus status)
   (λ _ s', effect (set_curpid INVALID_PID s) s'
              (exit_store (curpid s) us pi status (pistore s))) s.
Proof.
intros Hwf Hl Hus Hpid Hex Hpp Hcalm Hcv. unfold pid_setexitstatus.
destruct (wf_store _ Hwf _ _ Hus) as [Hr _].
wp_go. apply wp_pidlock_acquire; [done|]. wp_go. simpl. unfold INVALID_PID at 1. wp_check.
pose proof (wf_set_pidlock true s Hwf) as Hwf1.
apply wp_disown_all; simpl; [done|done|unfold INVALID_PID; lia|done|].
intros s1 [Hw1 Hl1 Hn1 Hc1 Hs1]; simpl in *.
assert (Hus1 : pistore s1 !! us = Some pi).
{ rewrite Hs1, lookup_omap, Hus. simpl. unfold disowned.
  by rewrite (proj2 (Z.eqb_neq _ _)). }
wp_go. rewrite <- Hpid. apply (wp_pi_get_found s1 us); [done|done|done|].
wp_go. eapply wp_deref; [done|]. wp_go. apply wp_load with pi; [done|].
wp_go. eapply wp_store; [done|]. wp_go. unfold exit_store.
set (pi' := PidInfo (pi_pid pi) (pi_ppid pi) true status (pi_cv pi)).
set (s2 := set_pistore (<[us:=pi']> (pistore s1)) s1).
assert (Hw2 : wf s2) by by eapply wf_update.
assert (Hus2 : pistore s2 !! us = Some pi') by apply lookup_insert_eq.
destruct (Z.eqb_spec (pi_ppid pi) INVALID_PID) as [Hp|Hp].
- apply (wp_pi_drop s2 us pi'); try done; [by apply Hcv|].
  wp_go. apply wp_pidlock_release; [done|].
  constructor; try done.
  + by apply wf_set_pidlock, wf_set_curpid, (wf_drop s2 us pi').
  + simpl. by rewrite delete_insert_eq, Hs1, Hpid.
- eapply wp_store; [done|]. wp_go. apply wp_pidlock_release; [done|].
  constructor; try done.
  + apply wf_set_pidlock, wf_set_curpid. by eapply (wf_update s2 us pi').
  + simpl. by rewrite insert_insert_eq, Hs1, Hpid.
Qed.

Lemma wp_collect s a pi c status ret (Q : result wait_ret → pidstate → Prop) :
wf s → pidlock s = true → pistore s !! a = Some pi →
pi_exited pi = true → pi_cv pi = [] →
(∀ s', effect s s' (delete a (pistore s)) →
       Q (Ok (wait_reply c status ret pi)) (set_pidlock false s')) →
wp (pid_wait_collect c status ret a) Q s.
Proof.
intros Hwf Hl Ha He Hcv HQ. unfold pid_wait_collect.
wp_go. apply wp_load with pi; [done|]. wp_go. wp_inner.
apply (wp_store_drop s a pi); try done.
intros s' He'. wp_go. apply wp_pidlock_release; [by rewrite (ef_lock _ _ _ He')|].
wp_go. by apply HQ.
Qed.

Lemma pid_wait_wakeup_correct s a pi c status ret :
wf s → pidlock s = false → pistore s !! a = Some pi →
pi_exited pi = true → pi_cv pi = [] →
wp (pid_wait_wakeup c status ret a)
   (λ r s', r = Ok (wait_reply c status ret pi) ∧
            effect s s' (delete a (pistore s))) s.
Proof.
intros Hwf Hl Ha He Hcv. unfold pid_wait_wakeup.
wp_go. apply wp_pidlock_acquire; [done|]. wp_go. apply wp_load with pi; [done|]. wp_check.
apply (wp_collect _ a pi); try done; [by apply wf_set_pidlock|].
intros s' He'. split; [done|]. by apply effect_locked.
Qed.
End exit_wait.

(** What waiting for the live or exited process [pi] at [a] comes to. *)
Definition wait_found (c : Z) (status : bool) (flags : Z) (ret : bool)
    (s : pidstate) (r : wait_outcome) (s' : pidstate) (a : ptr) (pi : pidinfo) : Prop :=
  if negb (pi_ppid pi =? curpid s) then r = Returned (Err EPERM) ∧ s' = s
  else if pi_exited pi then
    r = Returned (Ok (wait_reply c status ret pi)) ∧
    effect s s' (delete a (pistore s))
  else if flags =? WNOHANG then
    r = Returned (Ok (WaitRet None (Some 0))) ∧ s' = s
  else
    r = Asleep a ∧
    effect s s' (<[a := PidInfo (pi_pid pi) (pi_ppid pi) (pi_exited pi)
                          (pi_exitstatus pi) (pi_cv pi ++ [curpid s])]> (pistore s)).

(** Every outcome of [pid_wait], by the checks of the code in order. *)
Definition pid_wait_post (c : Z) (status : bool) (flags : Z) (ret : bool)
    (s : pidstate) (r : wait_outcome) (s' : pidstate) : Prop :=
  if c =? curpid s then r = Returned (Err EINVAL) ∧ s' = s
  else if c <=? 0 then r = Returned (Err ENOSYS) ∧ s' = s
  else if negb (flags =? 0) && negb (flags =? WNOHANG)
  then r = Returned (Err EINVAL) ∧ s' = s
  else
    ((∀ a pi, pistore s !! a = Some pi → pi_pid pi ≠ c) →
       r = Returned (Err ESRCH) ∧ s' = s) ∧
    (∀ a pi, pistore s !! a = Some pi → pi_pid pi = c →
       wait_found c status flags ret s r s' a pi).

Lemma wait_found_unique c status flags ret s r s' a pi :
  wf s → pistore s !! a = Some pi → pi_pid pi = c →
  wait_found c status flags ret s r s' a pi →
  ((∀ b qi, pistore s !! b = Some qi → pi_pid qi ≠ c) →
     r = Returned (Err ESRCH) ∧ s' = s) ∧
  (∀ b qi, pistore s !! b = Some qi → pi_pid qi = c →
     wait_found c status flags ret s r s' b qi).
Proof.
  intros Hwf Ha Hpi HP. split; [intros Hn; by destruct (Hn a pi)|].
  intros b qi Hb Hq. assert (b = a) as -> by (eapply wf_inj; eauto; congruence).
  by simplify_eq.
Qed.

Lemma pid_wait_correct c status flags ret s :
  wf s → pidlock s = false → curpid s ≠ INVALID_PID → calm (pistore s) →
  (flags = WNOHANG → ret = true) →
  wp (pid_wait c status flags ret) (pid_wait_post c status flags ret s) s.
Proof.
  intros Hwf Hl Hc Hcalm Hret. unfold pid_wait, pid_wait_post.
  wp_go. wp_check. destruct (c =? curpid s); [by wp_go|].
  replace ((c =? INVALID_PID) || (c <? 0)) with (c <=? 0)
    by (unfold INVALID_PID; lia).
  destruct (Z.leb_spec c 0) as [|Hpos]; [by wp_go|].
  destruct (negb (flags =? 0) && negb (flags =? WNOHANG)); [by wp_go|].
  wp_go. apply wp_pidlock_acquire; [done|]. wp_go.
  pose proof (wf_set_pidlock true s Hwf) as Hwf1.
  pose proof (set_pidlock_id s Hl) as Hsame.
  destruct (find_pid _ c Hwf1 Hpos) as [(a & pi & Ha & <-)|Hno]; simpl in *.
  - apply (wp_pi_get_found (set_pidlock true s) a); [done|done|done|].
    wp_go. apply wp_load with pi; [done|]. wp_check.
    apply (wp_mono _ (λ r s', wait_found (pi_pid pi) status flags ret s r s' a pi)).
    { intros r s' HP. by apply wait_found_unique with a pi. }
    unfold wait_found. destruct (negb (pi_ppid pi =? curpid s)).
    { wp_go. apply wp_pidlock_release; [done|]. by wp_go. }
    destruct (pi_exited pi) eqn:Eex; simpl.
    { wp_go. apply (wp_collect _ a pi); try done; [by apply Hcalm with a|].
      intros s' He. wp_go. split; [done|]. by apply effect_locked. }
    destruct (flags =? WNOHANG) eqn:Efl.
    { apply Z.eqb_eq in Efl. wp_go. apply wp_pidlock_release; [done|].
      rewrite Hret by done. wp_check. done. }
    wp_go. eapply wp_store; [done|]. wp_go. apply wp_pidlock_release; [done|]. wp_go.
    split; [done|]. apply effect_locked; [done|].
    by eapply (effect_update (set_pidlock true s) a pi).
  - apply wp_pi_get_none; [done|done|done|done|].
    wp_go. apply wp_pidlock_release; [done|]. wp_go.
    split; [done|]. intros a pi Ha Hq. by destruct (Hno a pi).
Qed.

(** ** Properties of the operations *)

(** [pid_alloc] completes; it fails with [EAGAIN] exactly when the table is
    full and with [ENOMEM] only when an allocation fails, leaving the table as
    it was; otherwise it returns the first candidate, in cyclic order from
    [nextpid], whose slot is free, enters it with the caller as parent, and
    moves [nextpid] past it. Its loop assertion never fires. *)
Theorem pid_alloc_spec mem cvmem s :
  wf s → pidlock s = false → curpid s ≠ INVALID_PID →
  wp (pid_alloc mem cvmem) (pid_alloc_post mem cvmem s) s.
Proof. apply pid_alloc_correct. Qed.

(** [pid_wait] completes or sleeps, and does on every branch what the checks
    say: own pid, nonpositive pid, bad flags, unknown pid, another's child, an
    exited child (collected and freed), a live child with and without
    [WNOHANG]. *)
Theorem pid_wait_spec c status flags ret s :
  wf s → pidlock s = false → curpid s ≠ INVALID_PID → calm (pistore s) →
  (flags = WNOHANG → ret = true) →
  wp (pid_wait c status flags ret) (pid_wait_post c status flags ret s) s.
Proof. apply pid_wait_correct. Qed.

(** A small well-formed table: the kernel and one exited child. *)
Definition sample : pidstate :=
  PidState false
    (zset (zset (replicate 128 None) 1 (Some 1%positive)) 2 (Some 2%positive))
    (<[2%positive := PidInfo 2 1 true 28 []]>
       {[ 1%positive := PidInfo 1 0 false 0xbeef [] ]})
    3 2 1.

Lemma sample_store a pi : pistore sample !! a = Some pi →
  (a = 2%positive ∧ pi = PidInfo 2 1 true 28 []) ∨
  (a = 1%positive ∧ pi = PidInfo 1 0 false 0xbeef []).
Proof.
  simpl. intros [[<- <-]|[_ [<- <-]%lookup_singleton_Some]]%lookup_insert_Some; auto.
Qed.

Lemma sample_wf : wf sample.
Proof.
  constructor; try done.
  - intros i a Hi.
    change (<[2%nat := Some 2%positive]> (<[1%nat := Some 1%positive]>
      (replicate 128 None)) !! i = Some (Some a)) in Hi.
    rewrite !list_lookup_insert in Hi. repeat case_decide; simplify_eq.
    + exists (PidInfo 2 1 true 28 []). split; [done|]. simpl. tauto.
    + exists (PidInfo 1 0 false 0xbeef []). split; [done|]. simpl. tauto.
    + by apply lookup_replicate in Hi as [? _].
  - by intros a pi [[-> ->]|[-> ->]]%sample_store.
Qed.

Lemma pid_alloc_spec_witness :
  wp (pid_alloc true true) (pid_alloc_post true true sample) sample ∧
  (λ x, match x with Done (r, _) => r = Ok 3 | Panic => False end)
    (pid_alloc true true sample).
Proof.
  split; [|vm_compute; reflexivity].
  apply (pid_alloc_spec true true sample); [apply sample_wf|reflexivity|discriminate].
Defined.

Lemma pid_wait_spec_witness :
  wp (pid_wait 2 true 0 true) (pid_wait_post 2 true 0 true sample) sample ∧
  (λ x, match x with
        | Done (r, _) => r = Returned (Ok (WaitRet (Some 28) (Some 2)))
        | Panic => False end) (pid_wait 2 true 0 true sample).
Proof.
  split; [|vm_compute; reflexivity].
  apply (pid_wait_spec 2 true 0 true sample);
    [apply sample_wf|reflexivity|discriminate| |discriminate].
  intros a pi [[-> ->]|[-> ->]]%sample_store; [done|discriminate].
Defined.

End Pid.
