(* ===== verification/PidSystem.v ===== *)
(** * Processes sharing the pid table

    The operations of [Pid] interleaved by the processes of the system, one
    thread per process. [pidlock] makes each operation atomic except for
    [pid_wait], which sleeps in the middle; the sleep and the wakeup are
    separate steps, and any other process may run in between. *)

From Stdlib Require Import ZArith Lia.
From stdpp Require Import base numbers list gmap.
From S2P Require Import Prelude Pid.

Module PidSystem.
Import Pid.

(** A process that has a pid and has not exited: created but not started,
    running, or inside [pid_wait] with the locals the wakeup will use. *)
Inductive pstat :=
| PNew
| PRun
| PWait (them : ptr) (c : Z) (status ret : bool).

Record sys := Sys { ps : pidstate; procs : gmap Z pstat }.

(** The calls a process [p] makes. [LStart] is the first time a new process
    runs; [LResume] is the wakeup inside [pid_wait]. *)
Inductive label :=
| LAlloc (p : Z) (mem cvmem : bool)
| LStart (c : Z)
| LUnalloc (p c : Z)
| LDisown (p c : Z)
| LExit (p status : Z)
| LWait (p c : Z) (status : bool) (flags : Z) (ret : bool)
| LResume (p : Z).

Inductive reply :=
| RUnit
| RAlloc (r : result Z)
| RWait (o : wait_outcome).

(** Run [m] on behalf of process [p]. *)
Definition run_as {A} (p : Z) (m : M pidstate A) (k : A → pidstate → reply * sys)
    (s : sys) : outcome (reply * sys) :=
  match m (set_curpid p (ps s)) with
  | Done (a, ps') => Done (k a ps')
  | Panic => Panic
  end.

Definition exec (l : label) (s : sys) : outcome (reply * sys) :=
  match l with
  | LAlloc p mem cvmem =>
      run_as p (pid_alloc mem cvmem) (λ r ps',
        (RAlloc r, Sys ps' (match r with
                            | Ok c => <[c := PNew]> (procs s)
                            | Err _ => procs s
                            end))) s
  | LStart c => Done (RUnit, Sys (ps s) (<[c := PRun]> (procs s)))
  | LUnalloc p c =>
      run_as p (pid_unalloc c) (λ _ ps', (RUnit, Sys ps' (delete c (procs s)))) s
  | LDisown p c =>
      run_as p (pid_disown c) (λ _ ps', (RUnit, Sys ps' (procs s))) s
  | LExit p status =>
      run_as p (pid_setexitstatus status)
             (λ _ ps', (RUnit, Sys ps' (delete p (procs s)))) s
  | LWait p c status flags ret =>
      run_as p (pid_wait c status flags ret) (λ o ps',
        (RWait o, Sys ps' (match o with
                           | Asleep a => <[p := PWait a c status ret]> (procs s)
                           | Returned _ => procs s
                           end))) s
  | LResume p =>
      match procs s !! p with
      | Some (PWait a c status ret) =>
          run_as p (pid_wait_wakeup c status ret a)
                 (λ r ps', (RWait (Returned r), Sys ps' (<[p := PRun]> (procs s)))) s
      | _ => Panic
      end
  end.

(** [c] is an entry of the table whose parent is [p]. *)
Definition child_of (s : sys) (p c : Z) : Prop :=
  ∃ a pi, pistore (ps s) !! a = Some pi ∧ pi_pid pi = c ∧ pi_ppid pi = p.

(** The thread of [p] is on the wait channel of the [pidinfo] at [a]. *)
Definition asleep_on (s : sys) (p : Z) (a : ptr) : Prop :=
  ∃ pi, pistore (ps s) !! a = Some pi ∧ p ∈ pi_cv pi.

(** Who may call what. [pid_unalloc] is for children that have not run,
    [pid_disown] for children, the kernel process does not exit, and a null
    [ret] may not be combined with [WNOHANG]; the arguments of [pid_wait] come
    from user programs and are arbitrary. *)
Definition enabled (s : sys) (l : label) : Prop :=
  match l with
  | LAlloc p _ _ => procs s !! p = Some PRun
  | LStart c => procs s !! c = Some PNew
  | LUnalloc p c => procs s !! p = Some PRun ∧ procs s !! c = Some PNew ∧ child_of s p c
  | LDisown p c => procs s !! p = Some PRun ∧ child_of s p c
  | LExit p _ => procs s !! p = Some PRun ∧ p ≠ KERNEL_PID
  | LWait p _ _ flags ret => procs s !! p = Some PRun ∧ (flags = WNOHANG → ret = true)
  | LResume p => ∃ a c status ret,
      procs s !! p = Some (PWait a c status ret) ∧ ¬ asleep_on s p a
  end.

(** The state after a successful boot. *)
Definition boot : sys :=
  match pid_bootstrap true true true pid_zeroed with
  | Done (_, ps0) => Sys ps0 {[KERNEL_PID := PRun]}
  | Panic => Sys pid_zeroed ∅
  end.

Inductive reachable : sys → Prop :=
| reach_boot : reachable boot
| reach_step s l r s' :
    reachable s → enabled s l → exec l s = Done (r, s') → reachable s'.

(** ** The invariant *)

Record inv (s : sys) : Prop := Inv {
  i_wf : wf (ps s);
  i_lock : pidlock (ps s) = false;
  i_alive : ∀ p, is_Some (procs s !! p) ↔
    ∃ a pi, pistore (ps s) !! a = Some pi ∧ pi_pid pi = p ∧ pi_exited pi = false;
  i_zombie : ∀ a pi, pistore (ps s) !! a = Some pi →
    pi_exited pi = true → pi_ppid pi ≠ INVALID_PID;
  i_parent : ∀ a pi, pistore (ps s) !! a = Some pi → pi_ppid pi ≠ INVALID_PID →
    is_Some (procs s !! pi_ppid pi) ∧ pi_ppid pi ≠ pi_pid pi ∧ PID_MIN ≤ pi_pid pi;
  i_cv : ∀ a pi, pistore (ps s) !! a = Some pi →
    pi_cv pi = [] ∨
    (pi_exited pi = false ∧ pi_cv pi = [pi_ppid pi] ∧ pi_ppid pi ≠ INVALID_PID ∧
     ∃ c status ret, procs s !! pi_ppid pi = Some (PWait a c status ret));
  i_wait : ∀ p a c status ret, procs s !! p = Some (PWait a c status ret) →
    ∃ pi, pistore (ps s) !! a = Some pi ∧ pi_pid pi = c ∧ pi_ppid pi = p ∧
          (pi_exited pi = false → pi_cv pi = [p]);
  i_new : ∀ c, procs s !! c = Some PNew →
    ∀ a pi, pistore (ps s) !! a = Some pi → pi_ppid pi ≠ c;
  i_kernel : is_Some (procs s !! KERNEL_PID)
}.

(** ** The boot state satisfies it *)

Lemma boot_eq :
  boot = Sys (PidState false (zset (replicate 128 None) 1 (Some 1%positive))
                {[ 1%positive := PidInfo KERNEL_PID INVALID_PID false 0xbeef [] ]}
                PID_MIN 1 KERNEL_PID)
             {[KERNEL_PID := PRun]}.
Proof. vm_compute. reflexivity. Qed.

Lemma boot_inv : inv boot.
Proof.
  rewrite boot_eq.
  assert (Hst : ∀ a pi, ({[ 1%positive := PidInfo KERNEL_PID INVALID_PID false 0xbeef [] ]}
            : gmap ptr pidinfo) !! a = Some pi →
          a = 1%positive ∧ pi = PidInfo KERNEL_PID INVALID_PID false 0xbeef []).
  { intros a pi [<- <-]%lookup_singleton_Some. done. }
  constructor; simpl; try done.
  - constructor; simpl; try done.
    + intros i a Hi. exists (PidInfo KERNEL_PID INVALID_PID false 0xbeef []).
      change (<[1%nat := Some 1%positive]> (replicate 128 None) !! i = Some (Some a)) in Hi.
      rewrite list_lookup_insert in Hi. case_decide as Hd.
      * destruct Hd as [<- _]. by injection Hi as <-.
      * apply lookup_replicate in Hi as [? _]. done.
    + intros a pi [-> ->]%Hst. done.
  - intros p. split.
    + intros [st [<- <-]%lookup_singleton_Some]. eexists _, _.
      by rewrite lookup_singleton_eq.
    + intros (a & pi & [-> ->]%Hst & <- & _). by rewrite lookup_singleton_eq.
  - intros a pi [-> ->]%Hst. done.
  - intros a pi [-> ->]%Hst. done.
  - intros a pi [-> ->]%Hst. by left.
  - by intros p a c st rt [_ ?]%lookup_singleton_Some.
  - by intros c [_ ?]%lookup_singleton_Some.
Qed.

(** ** Consequences of the invariant *)

Section consequences.
Context (s : sys) (Hinv : inv s).

Lemma inv_calm : calm (pistore (ps s)).
Proof.
intros a pi Ha He. destruct (i_cv _ Hinv _ _ Ha) as [|[? _]]; [done|congruence].
Qed.

Lemma alive_entry p : is_Some (procs s !! p) →
∃ a pi, pistore (ps s) !! a = Some pi ∧ pi_pid pi = p ∧ pi_exited pi = false.
Proof. apply (i_alive _ Hinv). Qed.

Lemma alive_pos p : is_Some (procs s !! p) → 1 ≤ p ≤ PID_MAX.
Proof.
intros (a & pi & Ha & <- & _)%alive_entry.
by destruct (wf_store _ (i_wf _ Hinv) _ _ Ha).
Qed.

Lemma run_valid p : procs s !! p = Some PRun → p ≠ INVALID_PID.
Proof. intros Hp. pose proof (alive_pos p ltac:(eauto)). unfold INVALID_PID. lia. Qed.

(** Only its parent sleeps on a [pidinfo], and only inside [pid_wait]. *)
Lemma run_no_sleeper a pi : pistore (ps s) !! a = Some pi →
(procs s !! pi_ppid pi = Some PRun ∨ pi_ppid pi = INVALID_PID) → pi_cv pi = [].
Proof.
intros Ha Hp. destruct (i_cv _ Hinv _ _ Ha) as [|(_ & _ & Hne & c & st & rt & Hw)];
  [done|]. destruct Hp; congruence.
Qed.

Lemma entry_unique a b pi qi : pistore (ps s) !! a = Some pi →
pistore (ps s) !! b = Some qi → pi_pid pi = pi_pid qi → a = b ∧ pi = qi.
Proof.
intros Ha Hb Hq. assert (a = b) as -> by (eapply wf_inj; eauto; apply i_wf, Hinv).
split; congruence.
Qed.

Lemma wf_run p : wf (set_curpid p (ps s)).
Proof. apply wf_set_curpid, (i_wf _ Hinv). Qed.
End consequences.

(** ** Preservation *)

Section preservation.
Implicit Types (s : sys) (a : ptr) (pi : pidinfo).

Lemma inv_alloc s ps' p c : inv s → procs s !! p = Some PRun →
wf ps' → pidlock ps' = false → allocated (set_curpid p (ps s)) ps' c →
inv (Sys ps' (<[c := PNew]> (procs s))).
Proof.
intros Hinv Hp Hwf' Hl' [Hr Hfr _ _ (a & Ha & Hst)]. simpl in *.
assert (Hc : procs s !! c = None).
{ apply eq_None_not_Some. intros (b & pi & Hb & Hq & _)%(alive_entry _ Hinv).
  by apply (Hfr b pi). }
assert (Hne : ∀ b pi, pistore (ps s) !! b = Some pi → a ≠ b) by congruence.
constructor; simpl; try done; rewrite ?Hst.
- intros q. destruct (decide (c = q)) as [<-|Hcq].
  + rewrite lookup_insert_eq. split; [intros _|done]. eexists a, _.
    by rewrite lookup_insert_eq.
  + rewrite lookup_insert_ne by done. rewrite (i_alive _ Hinv). split.
    * intros (b & pi & Hb & ?). exists b, pi. rewrite lookup_insert_ne by eauto. done.
    * intros (b & pi & Hb & <- & ?). rewrite lookup_insert in Hb.
      case_decide; simplify_eq/=; eauto.
- intros b pi [[<- <-]|[_ Hb]]%lookup_insert_Some; [done|by apply (i_zombie _ Hinv b)].
- intros b pi [[<- <-]|[_ Hb]]%lookup_insert_Some; simpl.
  + intros _. rewrite lookup_insert_ne by congruence. split_and!; [eauto|congruence|lia].
  + intros Hpp. destruct (i_parent _ Hinv _ _ Hb Hpp) as (? & ? & ?).
    split; [|done]. by apply lookup_insert_is_Some'; right.
- intros b pi [[<- <-]|[_ Hb]]%lookup_insert_Some; [by left|].
  destruct (i_cv _ Hinv _ _ Hb) as [|(? & ? & ? & c' & st & rt & Hw)]; [by left|right].
  split_and!; try done. exists c', st, rt. rewrite lookup_insert_ne; congruence.
- intros q b c' st rt [[_ ?]|[_ Hq]]%lookup_insert_Some; [done|].
  destruct (i_wait _ Hinv _ _ _ _ _ Hq) as (pi & Hb & ?). exists pi.
  rewrite lookup_insert_ne by eauto. done.
- intros q Hq b pi [[<- <-]|[_ Hb]]%lookup_insert_Some; simpl.
  + intros <-. rewrite lookup_insert_ne in Hq by congruence. congruence.
  + intros <-. apply lookup_insert_Some in Hq as [[Hq _]|[_ Hq]].
    * assert (Hi : pi_ppid pi ≠ INVALID_PID).
      { rewrite <- Hq. unfold INVALID_PID. unfold PID_MIN in Hr. lia. }
      destruct (i_parent _ Hinv _ _ Hb Hi) as ([x Hx] & _). congruence.
    * by apply (i_new _ Hinv _ Hq b pi).
- by apply lookup_insert_is_Some'; right; apply (i_kernel _ Hinv).
Qed.

Lemma inv_start s c : inv s → procs s !! c = Some PNew →
inv (Sys (ps s) (<[c := PRun]> (procs s))).
Proof.
intros Hinv Hc.
assert (Hsome : ∀ q, is_Some (<[c:=PRun]> (procs s) !! q) ↔ is_Some (procs s !! q)).
{ intros q. apply insert_is_Some_iff. eauto. }
destruct Hinv. constructor; simpl; try done.
- intros q. rewrite Hsome. done.
- intros a pi Ha Hp. rewrite Hsome. eauto.
- intros a pi Ha. destruct (i_cv0 _ _ Ha) as [|(? & ? & ? & c' & st & rt & Hw)];
    [by left|right]. split_and!; try done. exists c', st, rt.
  rewrite lookup_insert_ne; congruence.
- intros q a c' st rt [[_ ?]|[_ Hq]]%lookup_insert_Some; [done|eauto].
- intros q [[_ ?]|[_ Hq]]%lookup_insert_Some; [done|eauto].
- by rewrite Hsome.
Qed.

(** Freeing the entry of an exited process: by its parent, running or just
  woken up. *)
Lemma inv_reap s ps' a pi : inv s → pistore (ps s) !! a = Some pi →
pi_exited pi = true →
(procs s !! pi_ppid pi = Some PRun ∨
 ∃ c status ret, procs s !! pi_ppid pi = Some (PWait a c status ret)) →
effect (set_curpid (pi_ppid pi) (ps s)) ps' (delete a (pistore (ps s))) →
inv (Sys ps' (<[pi_ppid pi := PRun]> (procs s))).
Proof.
intros Hinv Ha Hex Hpar [Hwf' Hl' _ _ Hst]. simpl in *.
assert (Hpar' : is_Some (procs s !! pi_ppid pi))
  by (destruct Hpar as [|(? & ? & ? & ?)]; eauto).
assert (Hsome : ∀ q, is_Some (<[pi_ppid pi:=PRun]> (procs s) !! q)
                     ↔ is_Some (procs s !! q)).
{ intros q. apply insert_is_Some_iff. eauto. }
constructor; simpl; rewrite ?Hst.
- done.
- by rewrite Hl', (i_lock _ Hinv).
- intros q. rewrite Hsome, (i_alive _ Hinv). split.
  + intros (b & qi & Hb & ? & ?). exists b, qi. rewrite lookup_delete_ne by congruence. done.
  + intros (b & qi & [_ Hb]%lookup_delete_Some & ?). eauto.
- intros b qi [_ Hb]%lookup_delete_Some. by apply (i_zombie _ Hinv b).
- intros b qi [_ Hb]%lookup_delete_Some. rewrite Hsome. by apply (i_parent _ Hinv b).
- intros b qi [Hab Hb]%lookup_delete_Some.
  destruct (i_cv _ Hinv _ _ Hb) as [|(? & ? & ? & c' & st & rt & Hw)]; [by left|right].
  split_and!; try done. exists c', st, rt. rewrite lookup_insert_ne; [done|].
  intros Hq. rewrite <- Hq in Hw. destruct Hpar as [|(?&?&?&?)]; congruence.
- intros q b c st rt [[_ ?]|[Hq Hw]]%lookup_insert_Some; [done|].
  destruct (i_wait _ Hinv _ _ _ _ _ Hw) as (qi & Hb & ? & ? & ?). exists qi.
  rewrite lookup_delete_ne; [done|]. intros <-. congruence.
- intros q [[_ ?]|[_ Hq]]%lookup_insert_Some b qi [_ Hb]%lookup_delete_Some; [done|].
  by apply (i_new _ Hinv _ Hq b).
- rewrite Hsome. apply (i_kernel _ Hinv).
Qed.

(** A parent gives up a child that is still alive. *)
Lemma inv_orphan s ps' a pi : inv s → pistore (ps s) !! a = Some pi →
pi_exited pi = false → procs s !! pi_ppid pi = Some PRun →
effect (set_curpid (pi_ppid pi) (ps s)) ps' (<[a := orphan pi]> (pistore (ps s))) →
inv (Sys ps' (procs s)).
Proof.
intros Hinv Ha Hex Hpar [Hwf' Hl' _ _ Hst]. simpl in *.
pose proof (run_no_sleeper _ Hinv a pi Ha ltac:(auto)) as Hcv.
constructor; simpl; rewrite ?Hst.
- done.
- by rewrite Hl', (i_lock _ Hinv).
- intros q. rewrite (i_alive _ Hinv). split.
  + intros (b & qi & Hb & ? & ?). destruct (decide (a = b)) as [<-|].
    * exists a, (orphan pi). rewrite lookup_insert_eq. simplify_eq. done.
    * exists b, qi. by rewrite lookup_insert_ne.
  + intros (b & qi & [[<- <-]|[_ Hb]]%lookup_insert_Some & ?); eauto.
- intros b qi [[<- <-]|[_ Hb]]%lookup_insert_Some; simpl; [congruence|].
  by apply (i_zombie _ Hinv b).
- intros b qi [[<- <-]|[_ Hb]]%lookup_insert_Some; simpl; [done|].
  by apply (i_parent _ Hinv b).
- intros b qi [[<- <-]|[_ Hb]]%lookup_insert_Some; simpl; [by left|].
  by apply (i_cv _ Hinv).
- intros q b c st rt Hw. destruct (i_wait _ Hinv _ _ _ _ _ Hw) as (qi & Hb & ? & <- & ?).
  exists qi. rewrite lookup_insert_ne; [done|]. intros <-. congruence.
- intros q Hq b qi [[<- <-]|[_ Hb]]%lookup_insert_Some; simpl.
  + intros <-. pose proof (alive_pos _ Hinv INVALID_PID ltac:(eauto)).
    unfold INVALID_PID in *. lia.
  + by apply (i_new _ Hinv _ Hq b).
- apply (i_kernel _ Hinv).
Qed.

(** A child that never ran goes away. *)
Lemma inv_unalloc s ps' a pi : inv s → pistore (ps s) !! a = Some pi →
procs s !! pi_ppid pi = Some PRun → procs s !! pi_pid pi = Some PNew →
effect (set_curpid (pi_ppid pi) (ps s)) ps' (delete a (pistore (ps s))) →
inv (Sys ps' (delete (pi_pid pi) (procs s))).
Proof.
intros Hinv Ha Hpar Hnew [Hwf' Hl' _ _ Hst]. simpl in *.
pose proof (run_valid _ Hinv _ Hpar) as Hpp.
destruct (i_parent _ Hinv _ _ Ha Hpp) as (_ & Hne & Hmin).
constructor; simpl; rewrite ?Hst.
- done.
- by rewrite Hl', (i_lock _ Hinv).
- intros q. destruct (decide (pi_pid pi = q)) as [<-|Hq].
  + rewrite lookup_delete_eq. split; [by intros []|].
    intros (b & qi & [Hab Hb]%lookup_delete_Some & Hq & _).
    by destruct (entry_unique _ Hinv a b pi qi).
  + rewrite lookup_delete_ne by done. rewrite (i_alive _ Hinv). split.
    * intros (b & qi & Hb & <- & ?). exists b, qi.
      rewrite lookup_delete_ne by congruence. done.
    * intros (b & qi & [_ Hb]%lookup_delete_Some & ?). eauto.
- intros b qi [_ Hb]%lookup_delete_Some. by apply (i_zombie _ Hinv b).
- intros b qi [_ Hb]%lookup_delete_Some Hq. rewrite lookup_delete_ne.
  + by apply (i_parent _ Hinv b).
  + pose proof (i_new _ Hinv _ Hnew b qi Hb). congruence.
- intros b qi [Hab Hb]%lookup_delete_Some.
  destruct (i_cv _ Hinv _ _ Hb) as [|(? & ? & ? & c' & st & rt & Hw)]; [by left|right].
  split_and!; try done. exists c', st, rt. rewrite lookup_delete_ne; congruence.
- intros q b c st rt [_ Hw]%lookup_delete_Some.
  destruct (i_wait _ Hinv _ _ _ _ _ Hw) as (qi & Hb & ? & ? & ?). exists qi.
  rewrite lookup_delete_ne; [done|]. intros <-. congruence.
- intros q [_ Hq]%lookup_delete_Some b qi [_ Hb]%lookup_delete_Some.
  by apply (i_new _ Hinv _ Hq b).
- rewrite lookup_delete_ne; [apply (i_kernel _ Hinv)|].
  unfold KERNEL_PID. unfold PID_MIN in Hmin. lia.
Qed.

(** A parent goes to sleep on a child. *)
Lemma inv_sleep s ps' a pi status ret : inv s → pistore (ps s) !! a = Some pi →
pi_exited pi = false → procs s !! pi_ppid pi = Some PRun →
effect (set_curpid (pi_ppid pi) (ps s)) ps'
  (<[a := PidInfo (pi_pid pi) (pi_ppid pi) (pi_exited pi) (pi_exitstatus pi)
            (pi_cv pi ++ [pi_ppid pi])]> (pistore (ps s))) →
inv (Sys ps' (<[pi_ppid pi := PWait a (pi_pid pi) status ret]> (procs s))).
Proof.
intros Hinv Ha Hex Hpar [Hwf' Hl' _ _ Hst]. simpl in *.
pose proof (run_valid _ Hinv _ Hpar) as Hpp.
rewrite (run_no_sleeper _ Hinv a pi Ha ltac:(auto)) in Hst. simpl in Hst.
assert (Hsome : ∀ q v, is_Some (<[pi_ppid pi:=v]> (procs s) !! q)
                     ↔ is_Some (procs s !! q)).
{ intros q v. apply insert_is_Some_iff. eauto. }
constructor; simpl; rewrite ?Hst.
- done.
- by rewrite Hl', (i_lock _ Hinv).
- intros q. rewrite Hsome, (i_alive _ Hinv). split.
  + intros (b & qi & Hb & ? & ?). destruct (decide (a = b)) as [<-|].
    * eexists a, _. rewrite lookup_insert_eq. simplify_eq. done.
    * exists b, qi. by rewrite lookup_insert_ne.
  + intros (b & qi & [[<- <-]|[_ Hb]]%lookup_insert_Some & ?); eauto.
- intros b qi [[<- <-]|[_ Hb]]%lookup_insert_Some; simpl; [done|].
  by apply (i_zombie _ Hinv b).
- intros b qi [[<- <-]|[_ Hb]]%lookup_insert_Some; rewrite Hsome; simpl.
  + by apply (i_parent _ Hinv a).
  + by apply (i_parent _ Hinv b).
- intros b qi [[<- <-]|[_ Hb]]%lookup_insert_Some; simpl.
  + right. split_and!; try done. eexists _, _, _. by rewrite lookup_insert_eq.
  + destruct (i_cv _ Hinv _ _ Hb) as [|(? & ? & ? & c' & st & rt & Hw)]; [by left|right].
    split_and!; try done. exists c', st, rt. rewrite lookup_insert_ne; congruence.
- intros q b c st rt [[<- [= <- <- <- <-]]|[Hq Hw]]%lookup_insert_Some.
  + eexists. by rewrite lookup_insert_eq.
  + destruct (i_wait _ Hinv _ _ _ _ _ Hw) as (qi & Hb & ? & ? & ?). exists qi.
    rewrite lookup_insert_ne; [done|]. intros <-. congruence.
- intros q [[_ ?]|[_ Hq]]%lookup_insert_Some b qi
    [[<- <-]|[_ Hb]]%lookup_insert_Some; simpl; [done|done| |].
  + by apply (i_new _ Hinv _ Hq a).
  + by apply (i_new _ Hinv _ Hq b).
- rewrite Hsome. apply (i_kernel _ Hinv).
Qed.

(** Entries of the store after an exit. *)
Lemma exit_store_lookup s p us pi status b qi : inv s →
pistore (ps s) !! us = Some pi → pi_pid pi = p →
exit_store p us pi status (pistore (ps s)) !! b = Some qi →
(b = us ∧ pi_ppid pi ≠ INVALID_PID ∧
   qi = PidInfo p (pi_ppid pi) true status []) ∨
(b ≠ us ∧ ∃ qi0, pistore (ps s) !! b = Some qi0 ∧
   ((pi_ppid qi0 ≠ p ∧ qi = qi0) ∨
    (pi_ppid qi0 = p ∧ pi_exited qi0 = false ∧ qi = orphan qi0))).
Proof.
intros Hinv Hus <-. unfold exit_store.
assert (Hom : ∀ x, omap (disowned (pi_pid pi) PROCS_MAX) (pistore (ps s)) !! b = Some x →
  ∃ qi0, pistore (ps s) !! b = Some qi0 ∧
   ((pi_ppid qi0 ≠ pi_pid pi ∧ x = qi0) ∨
    (pi_ppid qi0 = pi_pid pi ∧ pi_exited qi0 = false ∧ x = orphan qi0))).
{ intros x. rewrite lookup_omap.
  destruct (pistore (ps s) !! b) as [qi0|] eqn:Hb; [|done]. simpl. intros Hx.
  exists qi0. split; [done|].
  destruct (wf_store _ (i_wf _ Hinv) _ _ Hb) as [Hr _].
  rewrite disowned_all in Hx by lia.
  destruct (Z.eqb_spec (pi_ppid qi0) (pi_pid pi)).
  - right. destruct (pi_exited qi0); [done|]. by injection Hx as <-.
  - left. by injection Hx as <-. }
destruct (Z.eqb_spec (pi_ppid pi) INVALID_PID) as [Hp|Hp].
- intros [Hne Hb]%lookup_delete_Some. right. auto.
- intros [[<- <-]|[Hne Hb]]%lookup_insert_Some; [by left|right; auto].
Qed.

(** Conversely, what survives. *)
Lemma exit_store_keep s p us pi status b qi : inv s →
pistore (ps s) !! us = Some pi → pi_pid pi = p → b ≠ us →
pistore (ps s) !! b = Some qi →
(pi_ppid qi ≠ p → exit_store p us pi status (pistore (ps s)) !! b = Some qi) ∧
(pi_ppid qi = p → pi_exited qi = false →
   exit_store p us pi status (pistore (ps s)) !! b = Some (orphan qi)).
Proof.
intros Hinv Hus <- Hne Hb. unfold exit_store.
destruct (wf_store _ (i_wf _ Hinv) _ _ Hb) as [Hr _].
assert (Hd : omap (disowned (pi_pid pi) PROCS_MAX) (pistore (ps s)) !! b =
             disowned (pi_pid pi) PROCS_MAX qi) by by rewrite lookup_omap, Hb.
rewrite disowned_all in Hd by lia.
destruct (pi_ppid pi =? INVALID_PID);
  rewrite ?lookup_delete_ne, ?lookup_insert_ne by done; rewrite Hd;
  (split; [intros Hq; by rewrite (proj2 (Z.eqb_neq _ _))|]);
  intros Hq He; by rewrite Hq, Z.eqb_refl, He.
Qed.

(** A process exits. *)
Lemma inv_exit s ps' us pi status : inv s → pistore (ps s) !! us = Some pi →
pi_exited pi = false → procs s !! pi_pid pi = Some PRun → pi_pid pi ≠ KERNEL_PID →
effect (set_curpid INVALID_PID (set_curpid (pi_pid pi) (ps s))) ps'
  (exit_store (pi_pid pi) us pi status (pistore (ps s))) →
inv (Sys ps' (delete (pi_pid pi) (procs s))).
Proof.
intros Hinv Hus Hex Hrun Hk [Hwf' Hl' _ _ Hst]. simpl in *.
pose proof (run_valid _ Hinv _ Hrun) as Hv.
pose proof (λ b qi, exit_store_lookup s _ us pi status b qi Hinv Hus eq_refl) as Hget.
pose proof (λ b qi, exit_store_keep s _ us pi status b qi Hinv Hus eq_refl) as Hkeep.
assert (Hother : ∀ b qi, pistore (ps s) !! b = Some qi → b ≠ us → pi_pid qi ≠ pi_pid pi).
{ intros b qi Hb Hne Hq. by destruct (entry_unique _ Hinv b us qi pi). }
constructor; simpl; rewrite ?Hst.
- done.
- by rewrite Hl', (i_lock _ Hinv).
- intros q. destruct (decide (pi_pid pi = q)) as [<-|Hq].
  + rewrite lookup_delete_eq. split; [by intros []|].
    intros (b & qi & [(-> & _ & ->)|(Hne & q0 & Hb & Hq0)]%Hget & Hq & He); [done|].
    exfalso. apply (Hother b q0 Hb Hne). destruct Hq0 as [[_ ->]|(_ & _ & ->)]; done.
  + rewrite lookup_delete_ne by done. rewrite (i_alive _ Hinv). split.
    * intros (b & qi & Hb & <- & He).
      assert (Hne : b ≠ us) by congruence.
      destruct (Hkeep b qi Hne Hb) as [Hk1 Hk2].
      destruct (decide (pi_ppid qi = pi_pid pi)) as [E|E].
      -- exists b, (orphan qi). split; [by apply Hk2|done].
      -- exists b, qi. split; [by apply Hk1|done].
    * intros (b & qi & [(-> & _ & ->)|(Hne & q0 & Hb & Hq0)]%Hget & ? & He); [done|].
      exists b, q0. destruct Hq0 as [[_ ->]|(_ & _ & ->)]; done.
- intros b qi [(-> & Hp & ->)|(Hne & q0 & Hb & [[_ ->]|(_ & He & ->)])]%Hget; simpl.
  + done.
  + by apply (i_zombie _ Hinv b).
  + congruence.
- intros b qi [(-> & Hp & ->)|(Hne & q0 & Hb & [[Hp ->]|(_ & He & ->)])]%Hget; simpl.
  + intros _. destruct (i_parent _ Hinv _ _ Hus Hp) as (? & ? & ?).
    by rewrite lookup_delete_ne.
  + intros Hi. rewrite lookup_delete_ne by done. by apply (i_parent _ Hinv b).
  + done.
- intros b qi [(-> & Hp & ->)|(Hne & q0 & Hb & [[Hp ->]|(Hp & He & ->)])]%Hget; simpl.
  + by left.
  + destruct (i_cv _ Hinv _ _ Hb) as [|(? & ? & ? & c & st & rt & Hw)]; [by left|right].
    split_and!; try done. exists c, st, rt. by rewrite lookup_delete_ne.
  + left. apply (run_no_sleeper _ Hinv b); [done|]. rewrite Hp. auto.
- intros q b c st rt [Hq Hw]%lookup_delete_Some.
  destruct (i_wait _ Hinv _ _ _ _ _ Hw) as (qi & Hb & <- & <- & Hcv).
  destruct (decide (b = us)) as [->|Hne].
  + assert (qi = pi) as -> by congruence.
    exists (PidInfo (pi_pid pi) (pi_ppid pi) true status []). split; [|done].
    unfold exit_store. rewrite (proj2 (Z.eqb_neq _ _)); [apply lookup_insert_eq|].
    pose proof (alive_pos _ Hinv (pi_ppid pi) ltac:(eauto)). unfold INVALID_PID. lia.
  + exists qi. split; [|done]. apply (Hkeep b qi Hne Hb). congruence.
- intros q [_ Hq]%lookup_delete_Some b qi
    [(-> & Hp & ->)|(Hne & q0 & Hb & [[Hp ->]|(Hp & He & ->)])]%Hget; simpl.
  + by apply (i_new _ Hinv _ Hq us).
  + by apply (i_new _ Hinv _ Hq b).
  + intros <-. pose proof (alive_pos _ Hinv INVALID_PID ltac:(eauto)).
    unfold INVALID_PID in *. lia.
- rewrite lookup_delete_ne by done. apply (i_kernel _ Hinv).
Qed.
End preservation.

(** ** The transitions of the system

    What each call does to the store and to the processes, without the code:
    the specification that [exec] implements. *)

Inductive trans (s : sys) : label → reply → sys → Prop :=
| T_alloc p m1 m2 c ps' :
    procs s !! p = Some PRun →
    wf ps' → pidlock ps' = false → allocated (set_curpid p (ps s)) ps' c →
    trans s (LAlloc p m1 m2) (RAlloc (Ok c)) (Sys ps' (<[c := PNew]> (procs s)))
| T_alloc_fail p m1 m2 e ps' :
    wf ps' → pidlock ps' = false → pistore ps' = pistore (ps s) →
    trans s (LAlloc p m1 m2) (RAlloc (Err e)) (Sys ps' (procs s))
| T_start c :
    procs s !! c = Some PNew →
    trans s (LStart c) RUnit (Sys (ps s) (<[c := PRun]> (procs s)))
| T_unalloc a pi ps' :
    pistore (ps s) !! a = Some pi →
    procs s !! pi_ppid pi = Some PRun → procs s !! pi_pid pi = Some PNew →
    effect (set_curpid (pi_ppid pi) (ps s)) ps' (delete a (pistore (ps s))) →
    trans s (LUnalloc (pi_ppid pi) (pi_pid pi)) RUnit
            (Sys ps' (delete (pi_pid pi) (procs s)))
| T_orphan a pi ps' :
    pistore (ps s) !! a = Some pi → pi_exited pi = false →
    procs s !! pi_ppid pi = Some PRun →
    effect (set_curpid (pi_ppid pi) (ps s)) ps' (<[a := orphan pi]> (pistore (ps s))) →
    trans s (LDisown (pi_ppid pi) (pi_pid pi)) RUnit (Sys ps' (procs s))
| T_reap l r a pi ps' :
    pistore (ps s) !! a = Some pi → pi_exited pi = true →
    (procs s !! pi_ppid pi = Some PRun ∧
       ((l = LDisown (pi_ppid pi) (pi_pid pi) ∧ r = RUnit) ∨
        ∃ st fl rt, l = LWait (pi_ppid pi) (pi_pid pi) st fl rt ∧
                    r = RWait (Returned (Ok (wait_reply (pi_pid pi) st rt pi)))) ∨
     ∃ st rt, procs s !! pi_ppid pi = Some (PWait a (pi_pid pi) st rt) ∧
       l = LResume (pi_ppid pi) ∧
       r = RWait (Returned (Ok (wait_reply (pi_pid pi) st rt pi)))) →
    effect (set_curpid (pi_ppid pi) (ps s)) ps' (delete a (pistore (ps s))) →
    trans s l r (Sys ps' (<[pi_ppid pi := PRun]> (procs s)))
| T_exit us pi status ps' :
    pistore (ps s) !! us = Some pi → pi_exited pi = false →
    procs s !! pi_pid pi = Some PRun → pi_pid pi ≠ KERNEL_PID →
    effect (set_curpid INVALID_PID (set_curpid (pi_pid pi) (ps s))) ps'
      (exit_store (pi_pid pi) us pi status (pistore (ps s))) →
    trans s (LExit (pi_pid pi) status) RUnit (Sys ps' (delete (pi_pid pi) (procs s)))
| T_wait_now p c st fl rt r :
    trans s (LWait p c st fl rt) (RWait (Returned r)) (Sys (set_curpid p (ps s)) (procs s))
| T_sleep a pi st fl rt ps' :
    pistore (ps s) !! a = Some pi → pi_exited pi = false →
    procs s !! pi_ppid pi = Some PRun →
    effect (set_curpid (pi_ppid pi) (ps s)) ps'
      (<[a := PidInfo (pi_pid pi) (pi_ppid pi) (pi_exited pi) (pi_exitstatus pi)
                (pi_cv pi ++ [pi_ppid pi])]> (pistore (ps s))) →
    trans s (LWait (pi_ppid pi) (pi_pid pi) st fl rt) (RWait (Asleep a))
            (Sys ps' (<[pi_ppid pi := PWait a (pi_pid pi) st rt]> (procs s))).

Lemma trans_inv s l r s' : inv s → trans s l r s' → inv s'.
Proof.
  intros Hinv Ht. destruct Ht.
  - by eapply inv_alloc.
  - destruct Hinv. constructor; simpl; try done.
    all: match goal with H : pistore _ = pistore _ |- _ => rewrite H end; done.
  - by apply inv_start.
  - by eapply inv_unalloc.
  - by eapply inv_orphan.
  - eapply inv_reap; eauto.
    match goal with H : _ ∨ _ |- _ => destruct H as [[? _]|(? & ? & ? & _)] end; eauto.
  - by eapply inv_exit.
  - destruct Hinv. constructor; simpl; try done. by apply wf_set_curpid.
  - by eapply inv_sleep.
Qed.

(** ** Every enabled call completes, with the effect of a transition *)

Section refinement.
Context (s : sys) (Hinv : inv s).

Definition implements (l : label) : Prop :=
∃ r s', exec l s = Done (r, s') ∧ trans s l r s'.

Lemma run_as_implements {A} l p (m : M pidstate A) k (Q : A → pidstate → Prop) :
exec l s = run_as p m k s → wp m Q (set_curpid p (ps s)) →
(∀ a ps', Q a ps' → trans s l (k a ps').1 (k a ps').2) →
implements l.
Proof.
intros Hex Hwp HR. apply wp_done in Hwp as (a & ps' & Hm & HQ).
exists (k a ps').1, (k a ps').2. split; [|auto].
rewrite Hex. unfold run_as. rewrite Hm. by destruct (k a ps').
Qed.

Lemma alloc_implements p m1 m2 :
procs s !! p = Some PRun → implements (LAlloc p m1 m2).
Proof.
intros Hp. pose proof (run_valid _ Hinv _ Hp) as Hv.
eapply run_as_implements; [done|apply pid_alloc_correct; try done|].
{ by apply wf_run. }
{ apply (i_lock _ Hinv). }
intros r ps' (Hw' & Hl' & _ & Hr). simpl. destruct r as [c|e].
- destruct Hr as (_ & _ & Hal). by apply T_alloc.
- destruct Hr as [Hst _]. by apply T_alloc_fail.
Qed.

Lemma unalloc_implements p c : enabled s (LUnalloc p c) → implements (LUnalloc p c).
Proof.
intros (Hp & Hc & a & pi & Ha & <- & <-).
pose proof (run_valid _ Hinv _ Hp) as Hv.
destruct (i_parent _ Hinv _ _ Ha Hv) as (_ & _ & Hmin).
destruct (alive_entry _ Hinv (pi_pid pi) ltac:(eauto)) as (b & qi & Hb & Hq & Hex).
destruct (entry_unique _ Hinv a b pi qi) as [<- <-]; try done.
eapply run_as_implements; [done|apply (pid_unalloc_correct _ a pi); try done|].
{ by apply wf_run. }
{ apply (i_lock _ Hinv). }
{ apply (run_no_sleeper _ Hinv a); auto. }
intros [] ps' He. simpl. by apply T_unalloc with a.
Qed.

Lemma disown_implements p c : enabled s (LDisown p c) → implements (LDisown p c).
Proof.
intros (Hp & a & pi & Ha & <- & <-).
pose proof (run_valid _ Hinv _ Hp) as Hv.
destruct (i_parent _ Hinv _ _ Ha Hv) as (_ & _ & Hmin).
eapply run_as_implements; [done|apply (pid_disown_correct _ a pi); try done|].
{ by apply wf_run. }
{ apply (i_lock _ Hinv). }
{ by apply (inv_calm _ Hinv a). }
intros [] ps' He. simpl in *. destruct (pi_exited pi) eqn:Hex.
- rewrite <- (insert_id (procs s) (pi_ppid pi) PRun) by done.
  eapply (T_reap s _ _ a pi); eauto.
- by apply (T_orphan s a pi).
Qed.

Lemma exit_implements p st : enabled s (LExit p st) → implements (LExit p st).
Proof.
intros [Hp Hk].
destruct (alive_entry _ Hinv p ltac:(eauto)) as (a & pi & Ha & <- & Hex).
pose proof (run_valid _ Hinv _ Hp) as Hv.
eapply run_as_implements; [done|apply (pid_setexitstatus_correct _ a pi); try done|].
- by apply wf_run.
- apply (i_lock _ Hinv).
- intros Hpp. simpl in Hpp. rewrite <- Hpp in Hv.
  destruct (i_parent _ Hinv _ _ Ha Hv) as (_ & ? & _). congruence.
- apply (inv_calm _ Hinv).
- intros Hpp. apply (run_no_sleeper _ Hinv a); auto.
- intros [] ps' He. simpl in *. by apply (T_exit s a pi st).
Qed.

Lemma wait_implements p c st fl rt :
enabled s (LWait p c st fl rt) → implements (LWait p c st fl rt).
Proof.
intros [Hp Hrt]. pose proof (run_valid _ Hinv _ Hp) as Hv.
pose proof (wf_run s Hinv p) as Hwf.
eapply run_as_implements; [done|apply pid_wait_correct; try done|].
{ apply (i_lock _ Hinv). }
{ apply (inv_calm _ Hinv). }
intros o ps' Ho. simpl. unfold pid_wait_post in Ho. simpl in Ho.
assert (Hnow : ∀ r, o = Returned r ∧ ps' = set_curpid p (ps s) →
  trans s (LWait p c st fl rt) (RWait o) (Sys ps' (match o with
    | Returned _ => procs s | Asleep a => <[p:=PWait a c st rt]> (procs s) end))).
{ intros r [-> ->]. apply T_wait_now. }
destruct (c =? p); [by eauto|].
destruct (Z.leb_spec c 0) as [|Hpos]; [by eauto|].
destruct (_ && _); [by eauto|]. destruct Ho as [Hno Hyes].
destruct (find_pid _ c Hwf Hpos) as [(a & pi & Ha & Hc)|Hnone]; [|by eauto].
specialize (Hyes a pi Ha Hc). unfold wait_found in Hyes. simpl in Hyes, Ha.
destruct (Z.eqb_spec (pi_ppid pi) p) as [Hpp|]; [|simpl in Hyes; by eauto].
subst p c. simpl in Hyes. destruct (pi_exited pi) eqn:Hex.
- destruct Hyes as [-> He]. rewrite <- (insert_id (procs s) (pi_ppid pi) PRun) by done.
  eapply (T_reap s _ _ a pi); try done. left. split; [done|]. right. eauto.
- destruct (fl =? WNOHANG); [by eauto|]. destruct Hyes as [-> He].
  apply (T_sleep s a pi); try done. by rewrite Hex.
Qed.

Lemma resume_implements p : enabled s (LResume p) → implements (LResume p).
Proof.
intros (a & c & st & rt & Hp & Hns).
destruct (i_wait _ Hinv _ _ _ _ _ Hp) as (pi & Ha & <- & <- & Hcv).
assert (Hex : pi_exited pi = true).
{ destruct (pi_exited pi) eqn:E; [done|]. exfalso. apply Hns. exists pi.
  rewrite Hcv by done. split; [done|]. by apply list_elem_of_singleton. }
eapply run_as_implements;
  [simpl; rewrite Hp; done|apply (pid_wait_wakeup_correct _ a pi); try done|].
{ by apply wf_run. }
{ apply (i_lock _ Hinv). }
{ by apply (inv_calm _ Hinv a). }
intros r ps' [-> He]. simpl in *. eapply (T_reap s _ _ a pi); eauto 10.
Qed.

Lemma exec_implements l : enabled s l → implements l.
Proof.
intros Hen. destruct l.
- by apply alloc_implements.
- eexists _, _. split; [done|]. by apply T_start.
- by apply unalloc_implements.
- by apply disown_implements.
- by apply exit_implements.
- by apply wait_implements.
- by apply resume_implements.
Qed.
End refinement.

Lemma reachable_inv s : reachable s → inv s.
Proof.
  induction 1 as [|s l r s' _ IH Hen Hex]; [apply boot_inv|].
  destruct (exec_implements s IH l Hen) as (r0 & s0 & Hx & Ht).
  rewrite Hex in Hx. injection Hx as <- <-. by eapply trans_inv.
Qed.

Lemma exec_trans s l r s' :
  reachable s → enabled s l → exec l s = Done (r, s') → trans s l r s'.
Proof.
  intros Hr Hen Hex. destruct (exec_implements s (reachable_inv s Hr) l Hen)
    as (r0 & s0 & Hx & Ht). rewrite Hex in Hx. by injection Hx as <- <-.
Qed.

(** ** An exit status stays available to the waiting parent *)

(** [p] waits for its child [c], which has exited with status [v]. *)
Definition awaiting (s : sys) (p : Z) (a : ptr) (c : Z) (st rt : bool) (v : Z) : Prop :=
  procs s !! p = Some (PWait a c st rt) ∧
  ∃ pi, pistore (ps s) !! a = Some pi ∧ pi_pid pi = c ∧ pi_ppid pi = p ∧
        pi_exited pi = true ∧ pi_exitstatus pi = v.

(** Steps of the other processes. *)
Inductive steps_but (p : Z) : sys → sys → Prop :=
| sb_refl s : steps_but p s s
| sb_step s l r s1 s2 :
    enabled s l → exec l s = Done (r, s1) → l ≠ LResume p →
    steps_but p s1 s2 → steps_but p s s2.

Lemma awaiting_frame s l r s' p a c st rt v :
  inv s → trans s l r s' → l ≠ LResume p →
  awaiting s p a c st rt v → awaiting s' p a c st rt v.
Proof.
  intros Hinv Ht Hl [Hp (pi & Ha & Hc & Hpp & Hex & Hv)].
  assert (Hkeep : ∀ ps' pr, pr !! p = procs s !! p →
            pistore ps' !! a = Some pi → awaiting (Sys ps' pr) p a c st rt v).
  { intros ps' pr E1 E2. split; simpl; [congruence|eauto 10]. }
  destruct Ht as [q m1 m2 c' ps' Hq _ _ [_ Hfr _ _ (b & Hb & Hst)]
    |q m1 m2 e ps' _ _ Hst|c' Hc'|b qi ps' Hb Hq Hn [_ _ _ _ Hst]
    |b qi ps' Hb He Hq [_ _ _ _ Hst]|l r b qi ps' Hb He Hq [_ _ _ _ Hst]
    |b qi status ps' Hb He Hq Hk [_ _ _ _ Hst]|q c' st' fl' rt' r
    |b qi st' fl' rt' ps' Hb He Hq [_ _ _ _ Hst]]; simpl in *; apply Hkeep; try rewrite Hst.
  - rewrite lookup_insert_ne; [done|]. intros ->.
    destruct (alive_entry _ Hinv p ltac:(eauto)) as (b' & pi' & Hb' & Hp' & _).
    by apply (Hfr b' pi').
  - rewrite lookup_insert_ne; [done|]. congruence.
  - done.
  - done.
  - rewrite lookup_insert_ne; [done|]. congruence.
  - done.
  - rewrite lookup_delete_ne; [done|]. congruence.
  - rewrite lookup_delete_ne; [done|]. congruence.
  - done.
  - rewrite lookup_insert_ne; [done|]. congruence.
  - rewrite lookup_insert_ne; [done|]. intros <-.
    destruct Hq as [[? _]|(? & ? & ? & -> & _)]; [congruence|done].
  - rewrite lookup_delete_ne; [done|]. intros ->. simplify_eq.
    destruct Hq as [[? _]|(? & ? & ? & -> & _)]; [congruence|done].
  - rewrite lookup_delete_ne; [done|]. congruence.
  - apply (exit_store_keep s _ b qi status a pi Hinv Hb eq_refl); [congruence|done|congruence].
  - done.
  - done.
  - rewrite lookup_insert_ne; [done|]. congruence.
  - rewrite lookup_insert_ne; [done|]. congruence.
Qed.

Lemma awaiting_steps p s s' a c st rt v :
  reachable s → steps_but p s s' → awaiting s p a c st rt v →
  reachable s' ∧ awaiting s' p a c st rt v.
Proof.
  intros Hr Hs. induction Hs as [s|s l r s1 s2 Hen Hex Hl _ IH]; [done|].
  intros Hw. apply IH; [by eapply reach_step|].
  eapply awaiting_frame; [by apply reachable_inv| |done|done].
  by apply exec_trans.
Qed.

Lemma awaiting_exit s p a c st rt v r s' :
  reachable s → procs s !! p = Some (PWait a c st rt) →
  enabled s (LExit c v) → exec (LExit c v) s = Done (r, s') →
  awaiting s' p a c st rt v.
Proof.
  intros Hr Hp Hen Hex. pose proof (reachable_inv s Hr) as Hinv.
  pose proof (exec_trans _ _ _ _ Hr Hen Hex) as Ht.
  destruct (i_wait _ Hinv _ _ _ _ _ Hp) as (pi & Ha & Hc & Hpp & _).
  inversion Ht as [| | | | |l r0 b qi ps' Hb He Hq|us qi v' ps' Hus He Hq Hk [_ _ _ _ Hst] Heq| |]; subst.
  { destruct Hq as [[_ [[? _]|(? & ? & ? & ? & _)]]|(? & ? & _ & ? & _)]; done. }
  destruct (entry_unique _ Hinv us a qi pi) as [-> ->]; try done.
  split; simpl in *.
  - rewrite lookup_delete_ne; [done|]. intros E. rewrite E in Hq. congruence.
  - eexists. split; [rewrite Hst; unfold exit_store|].
    + rewrite (proj2 (Z.eqb_neq _ _)); [apply lookup_insert_eq|].
      pose proof (alive_pos _ Hinv (pi_ppid pi) ltac:(eauto)). unfold INVALID_PID. lia.
    + done.
Qed.

(** ** Properties of the system *)

(** C1: in every reachable state and for every call a process may make, with
    any arguments to [pid_wait], no assertion of pid.c fails, no [pidinfo] is
    used after it was freed, and the call has the effect of a transition. *)
Theorem pid_calls_complete s l :
  reachable s → enabled s l →
  ∃ r s', exec l s = Done (r, s') ∧ trans s l r s'.
Proof. intros Hr. apply exec_implements. by apply reachable_inv. Qed.

(** C3: in every reachable state the table and the live [pidinfo] objects agree
    one to one, the lock is free, and an entry that has exited belongs to a
    parent that is still alive: none leaks and none dangles. *)
Theorem pid_table_consistent s :
  reachable s →
  wf (ps s) ∧ pidlock (ps s) = false ∧
  (∀ a pi, pistore (ps s) !! a = Some pi →
     if pi_exited pi then is_Some (procs s !! pi_ppid pi)
     else is_Some (procs s !! pi_pid pi)).
Proof.
  intros Hr%reachable_inv. split_and!; [apply Hr|apply Hr|].
  intros a pi Ha. destruct (pi_exited pi) eqn:He.
  - by apply (i_parent _ Hr a pi Ha), (i_zombie _ Hr a).
  - apply (i_alive _ Hr). eauto.
Qed.

(** C2: when a process exits while its parent sleeps in [pid_wait], the parent
    can resume whatever the other processes did meanwhile, and it is handed
    exactly that exit status and the pid it asked for. *)
Theorem exit_status_delivered s p a c st rt v r s1 s2 :
  reachable s → procs s !! p = Some (PWait a c st rt) →
  enabled s (LExit c v) → exec (LExit c v) s = Done (r, s1) →
  steps_but p s1 s2 →
  enabled s2 (LResume p) ∧
  ∃ s3, exec (LResume p) s2 =
    Done (RWait (Returned (Ok (WaitRet (if st then Some v else None)
                                       (if rt then Some c else None)))), s3).
Proof.
  intros Hr Hp Hen Hex Hsteps.
  destruct (awaiting_steps p s1 s2 a c st rt v) as [Hr2 [Hp2 (pi & Ha & Hc & Hpp & He & Hv)]];
    [by eapply reach_step|done|by eapply awaiting_exit|].
  pose proof (reachable_inv _ Hr2) as Hinv.
  assert (Hres : enabled s2 (LResume p)).
  { exists a, c, st, rt. split; [done|]. intros (qi & Hq & Hin).
    assert (qi = pi) as -> by congruence.
    rewrite (inv_calm _ Hinv a pi Ha He) in Hin. by apply not_elem_of_nil in Hin. }
  split; [done|]. destruct (exec_implements _ Hinv _ Hres) as (r' & s3 & Hx & Ht).
  exists s3. rewrite Hx. do 2 f_equal.
  inversion Ht as [| | | | |l r0 b qi ps' Hb Hqe Hq _| | |]; subst.
  destruct Hq as [[_ [[? _]|(? & ? & ? & ? & _)]]|(st' & rt' & Hw & [= Hpar] & ->)]; try done.
  rewrite <- Hpar in Hw. simplify_eq. done.
Qed.

(** ** A concrete run: the kernel forks process 2, which runs, is waited for and
    exits with status 28. *)

Definition after (l : label) (s : sys) : sys :=
  match exec l s with Done (_, s') => s' | Panic => s end.

Definition run0 : sys := after (LStart 2) (after (LAlloc 1 true true) boot).
Definition run1 : sys := after (LWait 1 2 true 0 true) run0.
Definition run2 : sys := after (LExit 2 28) run1.

Lemma reach_after l s r :
  reachable s → enabled s l → exec l s = Done (r, after l s) → reachable (after l s).
Proof. apply reach_step. Qed.

Lemma run0_reachable : reachable run0.
Proof.
  unfold run0. eapply reach_after; [|vm_compute; reflexivity|vm_compute; reflexivity].
  eapply reach_after; [apply reach_boot|vm_compute; reflexivity|vm_compute; reflexivity].
Qed.

Lemma run1_reachable : reachable run1.
Proof.
  unfold run1. eapply reach_after; [apply run0_reachable| |vm_compute; reflexivity].
  split; [vm_compute; reflexivity|done].
Qed.

Lemma pid_calls_complete_witness :
  ∃ r s', exec (LExit 2 28) run1 = Done (r, s') ∧ trans run1 (LExit 2 28) r s'.
Proof.
  apply (pid_calls_complete run1 (LExit 2 28));
    [apply run1_reachable|split; [vm_compute; reflexivity|done]].
Defined.

Lemma pid_table_consistent_witness : wf (ps run1) ∧ pidlock (ps run1) = false.
Proof.
  destruct (pid_table_consistent run1 run1_reachable) as (H1 & H2 & _). split; assumption.
Defined.

Lemma exit_status_delivered_witness :
  ∃ s3, exec (LResume 1) run2 =
        Done (RWait (Returned (Ok (WaitRet (Some 28) (Some 2)))), s3).
Proof.
  apply (exit_status_delivered run1 1 2%positive 2 true true 28 RUnit run2 run2).
  - apply run1_reachable.
  - vm_compute; reflexivity.
  - split; [vm_compute; reflexivity|done].
  - vm_compute; reflexivity.
  - apply sb_refl.
Defined.

End PidSystem.
