(* ===== verification/Qsort.v ===== *)
(** * Sorting (userland/lib/libc/stdlib/qsort.c)

    The quicksort of the C library, on an array in memory: the state is the array that the
    elements lie in, and a call sorts [num] of them from index [base] on.  The recursive calls
    work on parts of the same array.  A comparison function that orders the elements makes it
    sort; the recursion and the loop end, and no element outside is touched. *)

From Stdlib Require Import ZArith Lia Sorted.
From stdpp Require Import base numbers list sorting.
From S2P Require Import Prelude.

Open Scope Z_scope.

Module Qsort.

Section Qsort.
Context {A : Type} (f : A → A → Z).

(** ** The code *)

(** [data] points to the element with index [base]. *)
Definition element (base i : Z) : M (list A) A := o ← gets (λ l, znth l (base + i)); deref o.

Definition COMPARE (base aa bb : Z) : M (list A) Z :=
  if aa =? bb then mret 0 else
  x ← element base aa; y ← element base bb; mret (f x y).

Definition EXCHANGE (base aa bb : Z) : M (list A) unit :=
  tmp ← element base aa;
  y ← element base bb;
  modify (λ l, zset l (base + aa) y) ;;
  modify (λ l, zset l (base + bb) tmp).

(** Step 2: the loop that brings small elements to the front; the results are
    [pivot], [head] and [tail]. *)
Fixpoint partition (fuel : nat) (base pivot head tail : Z) : M (list A) (Z * Z * Z) :=
  match fuel with
  | O => panic
  | S fuel' =>
      if negb (head <? tail) then mret (pivot, head, tail) else
      c ← COMPARE base head pivot;
      if c <=? 0 then partition fuel' base pivot (head + 1) tail else
      c ← COMPARE base tail pivot;
      if c >? 0 then partition fuel' base pivot head (tail - 1) else
      EXCHANGE base head tail ;;
      let pivot := if pivot =? head then tail else if pivot =? tail then head else pivot in
      partition fuel' base pivot (head + 1) (tail - 1)
  end.

(** Step 4: leave out the elements at the end that are equal. *)
Fixpoint lop_off (fuel : nat) (base tail : Z) : M (list A) Z :=
  match fuel with
  | O => panic
  | S fuel' =>
      if negb (tail >? 0) then mret tail else
      c ← COMPARE base (tail - 1) tail;
      if c =? 0 then lop_off fuel' base (tail - 1) else mret tail
  end.

Fixpoint qsort (fuel : nat) (base num : Z) : M (list A) unit :=
  match fuel with
  | O => panic
  | S fuel' =>
      if num <=? 1 then mret tt else
      done ← (if num =? 2 then
                c ← COMPARE base 0 1;
                if c >? 0 then EXCHANGE base 0 1 ;; mret true else mret false
              else mret false);
      if (done : bool) then mret tt else
      '(pivot, head, tail) ← partition (Z.to_nat num) base (num / 2) 0 (num - 1);
      c ← (if head >? tail then mret 0 else COMPARE base head pivot);
      let tail := if c <=? 0 then tail + 1 else tail in
      if tail =? num then
        (if pivot <? num - 1 then
           c ← COMPARE base pivot (num - 1);
           if c >? 0 then EXCHANGE base pivot (num - 1) else mret tt
         else mret tt) ;;
        tail ← lop_off (Z.to_nat num) base (num - 1);
        if tail >? 0 then qsort fuel' base tail else mret tt
      else
        KASSERT ((tail >? 0) && (tail <? num)) ;;
        qsort fuel' base tail ;;
        qsort fuel' (base + tail) (num - tail)
  end.

(** ** Why it sorts *)

(** What the C standard asks of the comparison function. *)
Definition consistent : Prop :=
  (∀ x y, Z.sgn (f x y) = - Z.sgn (f y x)) ∧
  (∀ x y z, f x y <= 0 → f y z <= 0 → f x z <= 0).

Definition le (x y : A) : Prop := f x y <= 0.

(** The array between what lies before and behind it. *)
Definition around (pre post l : list A) : list A := pre ++ l ++ post.

Definition swap (l : list A) (a b : Z) (x y : A) : list A := zset (zset l a y) b x.

Section Proof.
Context (Hf : consistent) (pre post : list A).
Local Notation base := (Z.of_nat (length pre)).
Local Notation arr := (around pre post).

Lemma f_refl x : f x x = 0.
Proof. destruct Hf as [Hs _]. specialize (Hs x x). destruct (f x x); simpl in *; lia. Qed.

Lemma le_total x y : f x y <= 0 ∨ 0 < f x y ∧ f y x <= 0.
Proof. destruct Hf as [Hs _]. specialize (Hs x y). destruct (f x y), (f y x); simpl in *; lia. Qed.

Lemma lt_le x y : 0 < f y x → f x y <= 0.
Proof. destruct Hf as [Hs _]. specialize (Hs x y). destruct (f x y), (f y x); simpl in *; lia. Qed.

Lemma znth_around l i x : znth l i = Some x → znth (arr l) (base + i) = Some x.
Proof.
  intros H. pose proof (znth_Some_range _ _ _ H) as Hr. unfold around.
  rewrite znth_app. rewrite decide_False by lia. rewrite znth_app, decide_True by lia.
  by replace (base + i - base) with i by lia.
Qed.

Lemma zset_around l i x :
  0 <= i < Z.of_nat (length l) → zset (arr l) (base + i) x = arr (zset l i x).
Proof.
  intros H. unfold zset, around. rewrite insert_app_r_alt by lia.
  replace (Z.to_nat (base + i) - length pre)%nat with (Z.to_nat i) by lia.
  by rewrite insert_app_l by lia.
Qed.

Lemma wp_element l i x Q : znth l i = Some x → Q x (arr l) → wp (element base i) Q (arr l).
Proof.
  intros H HQ. apply wp_bind, wp_gets. rewrite (znth_around l i x H). exact (wp_ret _ _ _ HQ).
Qed.

Lemma wp_COMPARE l a b x y Q :
  znth l a = Some x → znth l b = Some y → Q (f x y) (arr l) → wp (COMPARE base a b) Q (arr l).
Proof.
  intros Ha Hb HQ. unfold COMPARE. destruct (Z.eqb_spec a b) as [->|].
  - simplify_eq. rewrite f_refl in HQ. by apply wp_ret.
  - apply wp_bind, (wp_element _ _ _ _ Ha). apply wp_bind, (wp_element _ _ _ _ Hb). by apply wp_ret.
Qed.

Lemma wp_EXCHANGE l a b x y Q :
  znth l a = Some x → znth l b = Some y → Q tt (arr (swap l a b x y)) → wp (EXCHANGE base a b) Q (arr l).
Proof.
  intros Ha Hb HQ. unfold EXCHANGE.
  apply wp_bind, (wp_element _ _ _ _ Ha). apply wp_bind, (wp_element _ _ _ _ Hb).
  pose proof (znth_Some_range _ _ _ Ha). pose proof (znth_Some_range _ _ _ Hb).
  apply wp_bind, wp_modify, wp_modify. rewrite !zset_around by (rewrite ?length_zset; lia). done.
Qed.

Lemma swap_perm l a b x y : znth l a = Some x → znth l b = Some y → swap l a b x y ≡ₚ l.
Proof.
  intros Ha Hb. pose proof (znth_Some_range _ _ _ Ha). pose proof (znth_Some_range _ _ _ Hb).
  rewrite znth_lookup in Ha, Hb by lia. unfold swap, zset.
  by apply Permutation_insert_swap.
Qed.

Lemma znth_swap l a b x y i :
  znth l a = Some x → znth l b = Some y →
  znth (swap l a b x y) i = if decide (i = b) then Some x else if decide (i = a) then Some y else znth l i.
Proof.
  intros Ha Hb. pose proof (znth_Some_range _ _ _ Ha). pose proof (znth_Some_range _ _ _ Hb).
  unfold swap. repeat case_decide; subst.
  - apply znth_zset_eq. rewrite length_zset. lia.
  - rewrite znth_zset_ne by lia. by apply znth_zset_eq.
  - by rewrite !znth_zset_ne by lia.
Qed.

(** What the loop of step 2 keeps: the pivot stays in reach, what is before [head]
    is not above it, what is behind [tail] is. *)
Record parted (v : A) (pivot head tail : Z) (l : list A) : Prop := {
  pt_pivot : znth l pivot = Some v;
  pt_reach : pivot <= tail;
  pt_range : 0 <= head <= tail + 1 ∧ tail < Z.of_nat (length l);
  pt_low : ∀ i x, i < head → znth l i = Some x → f x v <= 0;
  pt_high : ∀ i x, tail < i → znth l i = Some x → 0 < f x v }.

Lemma parted_head v pivot head tail l x :
  parted v pivot head tail l → head <= tail → znth l head = Some x → f x v <= 0 →
  parted v pivot (head + 1) tail l.
Proof.
  intros [] ? Hx ?. split; try done; [lia|]. intros i y Hi Hy.
  destruct (decide (i = head)) as [->|]; [congruence|]. apply (pt_low0 i); [lia|done].
Qed.

Lemma parted_tail v pivot head tail l x :
  parted v pivot head tail l → head <= tail → znth l tail = Some x → 0 < f x v →
  parted v pivot head (tail - 1) l.
Proof.
  intros [] ? Hx ?. split; try done.
  - destruct (decide (pivot = tail)) as [->|]; [|lia]. simplify_eq. rewrite f_refl in *. lia.
  - lia.
  - intros i y Hi Hy. destruct (decide (i = tail)) as [->|]; [congruence|]. apply (pt_high0 i); [lia|done].
Qed.

Lemma parted_exchange v pivot head tail l x y :
  parted v pivot head tail l → head < tail →
  znth l head = Some x → znth l tail = Some y → 0 < f x v → f y v <= 0 →
  parted v (if pivot =? head then tail else if pivot =? tail then head else pivot)
    (head + 1) (tail - 1) (swap l head tail x y).
Proof.
  intros [] ? Hx Hy ? ?. destruct (Z.eqb_spec pivot head) as [->|].
  { simplify_eq. rewrite f_refl in *. lia. }
  assert (length (swap l head tail x y) = length l) as Hl by (unfold swap; by rewrite !length_zset).
  split.
  - rewrite znth_swap by done. destruct (Z.eqb_spec pivot tail) as [->|]; repeat case_decide; congruence || lia.
  - destruct (Z.eqb_spec pivot tail); lia.
  - lia.
  - intros i z Hi. rewrite znth_swap by done. repeat case_decide; [lia| |].
    + intros; by simplify_eq.
    + apply pt_low0. lia.
  - intros i z Hi. rewrite znth_swap by done. repeat case_decide.
    + intros; by simplify_eq.
    + lia.
    + apply pt_high0. lia.
Qed.

Lemma wp_partition fuel v pivot head tail l :
  parted v pivot head tail l → 0 < Z.of_nat fuel → tail - head < Z.of_nat fuel →
  wp (partition fuel base pivot head tail)
    (λ '(p, h, t) s, ∃ l', s = arr l' ∧ l' ≡ₚ l ∧ parted v p h t l' ∧ t <= h) (arr l).
Proof.
  revert pivot head tail l. induction fuel as [|fuel IH]; intros pivot head tail l Hp Hpos Hfuel; [lia|].
  simpl. destruct (Z.ltb_spec head tail) as [Hlt|]; simpl; [|apply wp_ret; eexists; split_and!; eauto].
  pose proof (pt_range _ _ _ _ _ Hp).
  destruct (znth_is_Some l head) as [x Hx]; [lia|]. destruct (znth_is_Some l tail) as [y Hy]; [lia|].
  apply wp_bind, (wp_COMPARE _ _ _ _ _ _ Hx (pt_pivot _ _ _ _ _ Hp)).
  destruct (Z.leb_spec (f x v) 0).
  { apply IH; [eapply parted_head; eauto; lia|lia|lia]. }
  apply wp_bind, (wp_COMPARE _ _ _ _ _ _ Hy (pt_pivot _ _ _ _ _ Hp)).
  destruct (Z.gtb_spec (f y v) 0).
  { apply IH; [eapply parted_tail; eauto; lia|lia|lia]. }
  apply wp_bind, (wp_EXCHANGE _ _ _ _ _ _ Hx Hy). eapply wp_mono; [|apply IH].
  - intros [[p h] t] s (l' & -> & Hl & ?). exists l'. split_and!; try tauto.
    rewrite Hl. by apply swap_perm.
  - eapply parted_exchange; eauto; lia.
  - lia.
  - lia.
Qed.

Lemma wp_lop_off fuel l tail :
  0 <= tail < Z.of_nat (length l) → tail < Z.of_nat fuel →
  wp (lop_off fuel base tail) (λ t s, s = arr l ∧ 0 <= t <= tail ∧
    (∀ i x y, t <= i < tail → znth l i = Some x → znth l (i + 1) = Some y → f x y = 0)) (arr l).
Proof.
  revert tail. induction fuel as [|fuel IH]; intros tail Ht Hfuel; [lia|]. simpl.
  destruct (Z.gtb_spec tail 0); simpl; [|apply wp_ret; split_and!; auto; lia].
  destruct (znth_is_Some l (tail - 1)) as [x Hx]; [lia|]. destruct (znth_is_Some l tail) as [y Hy]; [lia|].
  apply wp_bind, (wp_COMPARE _ _ _ _ _ _ Hx Hy).
  destruct (Z.eqb_spec (f x y) 0); [|apply wp_ret; split_and!; auto; lia].
  eapply wp_mono; [|apply IH; lia]. intros t s (-> & Hr & Heq). split_and!; [done|lia|lia|].
  intros i x' y' Hi Hx' Hy'. destruct (decide (i = tail - 1)) as [->|]; [|apply (Heq i); auto; lia].
  replace (tail - 1 + 1) with tail in Hy' by lia. congruence.
Qed.

(** After step 3, the array is cut in two at [k]. *)
Definition cut_at (v : A) (k : Z) (l : list A) : Prop :=
  (∀ i x, i < k → znth l i = Some x → f x v <= 0) ∧ (∀ i x, k <= i → znth l i = Some x → 0 < f x v).

Lemma parted_crossed v pivot head tail l :
  parted v pivot head tail l → tail < head → cut_at v (tail + 1) l.
Proof. intros [] ?. split; intros i x Hi; [apply pt_low0|apply pt_high0]; lia. Qed.

Lemma parted_met v pivot head l x :
  parted v pivot head head l → znth l head = Some x →
  cut_at v (if f x v <=? 0 then head + 1 else head) l.
Proof.
  intros [] Hx. split; intros i y Hi Hy; destruct (Z.leb_spec (f x v) 0); destruct (decide (i = head)) as [->|];
    simplify_eq; solve [lia | apply (pt_low0 i); [lia|done] | apply (pt_high0 i); [lia|done]].
Qed.

Lemma cut_bounds v k l pivot :
  cut_at v k l → znth l pivot = Some v → pivot < k.
Proof.
  intros [_ Hh] Hp. destruct (decide (pivot < k)); [done|]. pose proof (Hh pivot v ltac:(lia) Hp).
  rewrite f_refl in *. lia.
Qed.

Lemma sorted_all_le (l : list A) : (∀ x y, x ∈ l → y ∈ l → le x y) → StronglySorted le l.
Proof.
  induction l as [|x l IH]; intros H; constructor.
  - apply IH. intros; apply H; by right.
  - apply Forall_forall. intros y Hy. apply H; [left|by right].
Qed.

Lemma sorted_app v (l1 l2 : list A) :
  (∀ x, x ∈ l1 → f x v <= 0) → (∀ x, x ∈ l2 → f v x <= 0) →
  StronglySorted le l1 → StronglySorted le l2 → StronglySorted le (l1 ++ l2).
Proof.
  intros H1 H2 ? ?. apply StronglySorted_app_2; try done. intros x y Hx Hy.
  destruct Hf as [_ Ht]. apply (Ht x v y); auto.
Qed.

(** The elements that step 4 leaves out are all as big as the pivot. *)
Lemma lopped v l t :
  0 <= t < Z.of_nat (length l) → 
  (∀ y, znth l (Z.of_nat (length l) - 1) = Some y → f v y <= 0) →
  (∀ i x y, t <= i < Z.of_nat (length l) - 1 → znth l i = Some x → znth l (i + 1) = Some y → f x y = 0) →
  ∀ y, y ∈ drop (Z.to_nat t) l → f v y <= 0.
Proof.
  intros Ht Hlast Heq.
  assert (∀ n i y, i = Z.of_nat (length l) - 1 - Z.of_nat n → t <= i → znth l i = Some y → f v y <= 0) as Hall.
  { induction n as [|n IH]; intros i y -> Hi Hy.
    - apply Hlast. by replace (Z.of_nat (length l) - 1 - Z.of_nat 0) with (Z.of_nat (length l) - 1) in Hy by lia.
    - destruct (znth_is_Some l (Z.of_nat (length l) - 1 - Z.of_nat n)) as [z Hz]; [lia|].
      pose proof (IH _ z eq_refl ltac:(lia) Hz) as Hvz.
      opose proof (Heq (Z.of_nat (length l) - 1 - Z.of_nat (S n)) y z _ Hy _) as He; [lia|rewrite <- Hz; f_equal; lia|].
      destruct Hf as [Hs Htr]. apply (Htr v z y Hvz). specialize (Hs y z). rewrite He in Hs.
      destruct (f z y); simpl in *; lia. }
  intros y Hy. apply list_elem_of_lookup in Hy as [i Hi]. rewrite lookup_drop in Hi.
  pose proof (lookup_lt_Some _ _ _ Hi).
  apply (Hall (length l - 1 - (Z.to_nat t + i))%nat (Z.of_nat (Z.to_nat t + i))); [lia|lia|].
  rewrite znth_lookup by lia. by rewrite Nat2Z.id.
Qed.
End Proof.

(** The post-condition of a call for the elements [l]. *)
Definition sorted_result (pre post l : list A) (_ : unit) (s : list A) : Prop :=
  ∃ l', s = around pre post l' ∧ l' ≡ₚ l ∧ StronglySorted le l'.

Definition sorts (fuel : nat) : Prop := ∀ pre post l,
  (length l ≤ fuel)%nat → (0 < fuel)%nat →
  wp (qsort fuel (Z.of_nat (length pre)) (Z.of_nat (length l))) (sorted_result pre post l) (around pre post l).

Section Recursion.
Context (Hf : consistent).

Lemma sort_part fuel pre l1 l2 post num :
  sorts fuel → num = Z.of_nat (length l1) → (length l1 ≤ fuel)%nat → (0 < fuel)%nat →
  wp (qsort fuel (Z.of_nat (length pre)) num)
    (λ _ s, ∃ l', s = around pre post (l' ++ l2) ∧ l' ≡ₚ l1 ∧ StronglySorted le l') (around pre post (l1 ++ l2)).
Proof.
  intros IH -> ? ?. unfold around. rewrite <- (assoc_L (++) l1 l2 post).
  eapply wp_mono; [|exact (IH pre (l2 ++ post) l1 ltac:(lia) ltac:(lia))].
  intros _ s (l' & -> & ? & ?). exists l'. unfold around. by rewrite <- (assoc_L (++) l' l2 post).
Qed.

Lemma sort_halves fuel pre post l v k :
  sorts fuel → cut_at v k l → 0 < k < Z.of_nat (length l) → (length l ≤ S fuel)%nat →
  wp (qsort fuel (Z.of_nat (length pre)) k ;;
      qsort fuel (Z.of_nat (length pre) + k) (Z.of_nat (length l) - k)) (sorted_result pre post l) (around pre post l).
Proof.
  intros IH [Hlow Hhigh] Hk Hn. pose proof (take_drop (Z.to_nat k) l) as Hl.
  set (l1 := take (Z.to_nat k) l) in *. set (l2 := drop (Z.to_nat k) l) in *.
  assert (length l1 = Z.to_nat k) by (unfold l1; rewrite length_take; lia).
  assert (length l2 = (length l - Z.to_nat k)%nat) by (unfold l2; rewrite length_drop; lia).
  assert (∀ x, x ∈ l1 → f x v <= 0) as H1.
  { intros x Hx. apply list_elem_of_lookup in Hx as [i Hi]. unfold l1 in Hi. apply lookup_take_Some in Hi as [Hi ?].
    apply (Hlow (Z.of_nat i)); [lia|]. rewrite znth_lookup by lia. by rewrite Nat2Z.id. }
  assert (∀ x, x ∈ l2 → f v x <= 0) as H2.
  { intros x Hx. apply list_elem_of_lookup in Hx as [i Hi]. unfold l2 in Hi. rewrite lookup_drop in Hi. apply (lt_le Hf).
    apply (Hhigh (Z.of_nat (Z.to_nat k + i))); [lia|]. rewrite znth_lookup by lia. by rewrite Nat2Z.id. }
  rewrite <- Hl at 2. apply wp_bind. eapply wp_mono; [|apply (sort_part fuel pre l1 l2 post k IH); lia].
  intros _ s (l1' & -> & Hp1 & Hs1).
  assert (around pre post (l1' ++ l2) = around (pre ++ l1') post (l2 ++ [])) as ->
    by (unfold around; by rewrite app_nil_r, <- !(assoc_L (++))).
  replace (Z.of_nat (length pre) + k) with (Z.of_nat (length (pre ++ l1')))
    by (rewrite length_app; apply Permutation_length in Hp1; lia).
  eapply wp_mono; [|apply (sort_part fuel (pre ++ l1') l2 [] post _ IH); lia].
  intros [] s (l2' & -> & Hp2 & Hs2). exists (l1' ++ l2'). split_and!.
  - unfold around. by rewrite app_nil_r, <- !(assoc_L (++)).
  - by rewrite Hp1, Hp2, Hl.
  - apply (sorted_app Hf v); try done; intros x Hx; [apply H1; by rewrite <- Hp1|apply H2; by rewrite <- Hp2].
Qed.

Lemma sort_front fuel pre post l v :
  sorts fuel → (∀ x, x ∈ l → f x v <= 0) →
  (∀ y, znth l (Z.of_nat (length l) - 1) = Some y → f v y <= 0) →
  (2 ≤ length l ≤ S fuel)%nat →
  wp (tail ← lop_off (length l) (Z.of_nat (length pre)) (Z.of_nat (length l) - 1);
      if tail >? 0 then qsort fuel (Z.of_nat (length pre)) tail else mret tt)
    (sorted_result pre post l) (around pre post l).
Proof.
  intros IH Hall Hlast Hn. apply wp_bind.
  eapply wp_mono; [|apply (wp_lop_off Hf pre post); lia]. intros t s (-> & Ht & Heq).
  pose proof (lopped Hf v l t ltac:(lia) Hlast ltac:(intros; eapply Heq; eauto)) as Hback.
  assert (StronglySorted le (drop (Z.to_nat t) l)) as Hsd.
  { apply sorted_all_le. intros x y Hx Hy. destruct Hf as [_ Htr].
    apply (Htr x v y); [|by apply Hback]. apply Hall. rewrite <- (take_drop (Z.to_nat t) l). apply elem_of_app. by right. }
  destruct (Z.gtb_spec t 0).
  - rewrite <- (take_drop (Z.to_nat t) l) at 2. eapply wp_mono; [|apply (sort_part fuel); try done; rewrite ?length_take; lia].
    intros [] s (l' & -> & Hp & Hs). eexists. split_and!; [done| |].
    + rewrite Hp. by rewrite take_drop.
    + apply (sorted_app Hf v); try done. intros x Hx. apply Hall. rewrite Hp in Hx. rewrite <- (take_drop (Z.to_nat t) l). apply elem_of_app. by left.
  - apply wp_ret. exists l. replace t with 0 in Hsd by lia. rewrite drop_0 in Hsd. done.
Qed.

(** The elements after step 4 has moved the pivot to the end. *)
Lemma pivot_moved fuel pre post l v pivot :
  sorts fuel → (2 ≤ length l ≤ S fuel)%nat → (∀ x, x ∈ l → f x v <= 0) → znth l pivot = Some v →
  wp ((if pivot <? Z.of_nat (length l) - 1 then
         c ← COMPARE (Z.of_nat (length pre)) pivot (Z.of_nat (length l) - 1);
         if c >? 0 then EXCHANGE (Z.of_nat (length pre)) pivot (Z.of_nat (length l) - 1) else mret tt
       else mret tt) ;;
      tail ← lop_off (length l) (Z.of_nat (length pre)) (Z.of_nat (length l) - 1);
      if tail >? 0 then qsort fuel (Z.of_nat (length pre)) tail else mret tt)
    (sorted_result pre post l) (around pre post l).
Proof.
  intros IH Hn Hall Hp. pose proof (znth_Some_range _ _ _ Hp).
  destruct (znth_is_Some l (Z.of_nat (length l) - 1)) as [w Hw]; [lia|]. apply wp_bind.
  destruct (Z.ltb_spec pivot (Z.of_nat (length l) - 1)).
  2:{ apply wp_ret, (sort_front fuel pre post l v); auto. replace pivot with (Z.of_nat (length l) - 1) in Hp by lia.
      intros y Hy. simplify_eq. rewrite (f_refl Hf). lia. }
  apply wp_bind, (wp_COMPARE Hf pre post _ _ _ _ _ _ Hp Hw). destruct (Z.gtb_spec (f v w) 0).
  2:{ apply wp_ret, (sort_front fuel pre post l v); auto. intros y Hy. by simplify_eq. }
  apply (wp_EXCHANGE pre post _ _ _ _ _ _ Hp Hw).
  pose proof (swap_perm l _ _ _ _ Hp Hw) as Hsw. pose proof (Permutation_length Hsw) as Hlen.
  assert (znth (swap l pivot (Z.of_nat (length l) - 1) v w) (Z.of_nat (length l) - 1) = Some v) as Hend
    by (rewrite znth_swap by done; by rewrite decide_True by done).
  revert Hsw Hlen Hend. generalize (swap l pivot (Z.of_nat (length l) - 1) v w). intros k Hsw Hlen Hend.
  rewrite <- !Hlen in *. eapply wp_mono; [|apply (sort_front fuel pre post k v); auto].
  - intros [] s (l' & -> & Hl & Hs). exists l'. split_and!; try done. by rewrite Hl.
  - intros x Hx. apply Hall. by rewrite <- Hsw.
  - intros y Hy. simplify_eq. rewrite (f_refl Hf). lia.
Qed.

Lemma cut_all v l : cut_at v (Z.of_nat (length l)) l → ∀ x, x ∈ l → f x v <= 0.
Proof.
  intros [Hl _] x Hx. apply list_elem_of_lookup in Hx as [i Hi]. pose proof (lookup_lt_Some _ _ _ Hi).
  apply (Hl (Z.of_nat i)); [lia|]. rewrite znth_lookup by lia. by rewrite Nat2Z.id.
Qed.

(** Steps 4 and 5. *)
Lemma sort_rest fuel pre post l v pivot tail :
  sorts fuel → (2 ≤ length l ≤ S fuel)%nat → cut_at v tail l → znth l pivot = Some v →
  tail <= Z.of_nat (length l) →
  wp (if tail =? Z.of_nat (length l) then
        (if pivot <? Z.of_nat (length l) - 1 then
           c ← COMPARE (Z.of_nat (length pre)) pivot (Z.of_nat (length l) - 1);
           if c >? 0 then EXCHANGE (Z.of_nat (length pre)) pivot (Z.of_nat (length l) - 1) else mret tt
         else mret tt) ;;
        tail ← lop_off (Z.to_nat (Z.of_nat (length l))) (Z.of_nat (length pre)) (Z.of_nat (length l) - 1);
        if tail >? 0 then qsort fuel (Z.of_nat (length pre)) tail else mret tt
      else
        KASSERT ((tail >? 0) && (tail <? Z.of_nat (length l))) ;;
        qsort fuel (Z.of_nat (length pre)) tail ;;
        qsort fuel (Z.of_nat (length pre) + tail) (Z.of_nat (length l) - tail))
    (sorted_result pre post l) (around pre post l).
Proof.
  intros IH Hn Hc Hp Hle. pose proof (cut_bounds Hf _ _ _ _ Hc Hp). pose proof (znth_Some_range _ _ _ Hp).
  destruct (Z.eqb_spec tail (Z.of_nat (length l))) as [->|].
  - rewrite Nat2Z.id. apply (pivot_moved fuel pre post l v); auto. by apply cut_all.
  - apply wp_bind, wp_KASSERT; [apply andb_true_intro; lia|].
    apply (sort_halves fuel pre post l v); try done; lia.
Qed.

Lemma sort_general fuel pre post l :
  sorts fuel → (2 ≤ length l ≤ S fuel)%nat →
  wp ('(pivot, head, tail) ← partition (Z.to_nat (Z.of_nat (length l))) (Z.of_nat (length pre))
                               (Z.of_nat (length l) / 2) 0 (Z.of_nat (length l) - 1);
      c ← (if head >? tail then mret 0 else COMPARE (Z.of_nat (length pre)) head pivot);
      let tail := if c <=? 0 then tail + 1 else tail in
      if tail =? Z.of_nat (length l) then
        (if pivot <? Z.of_nat (length l) - 1 then
           c ← COMPARE (Z.of_nat (length pre)) pivot (Z.of_nat (length l) - 1);
           if c >? 0 then EXCHANGE (Z.of_nat (length pre)) pivot (Z.of_nat (length l) - 1) else mret tt
         else mret tt) ;;
        tail ← lop_off (Z.to_nat (Z.of_nat (length l))) (Z.of_nat (length pre)) (Z.of_nat (length l) - 1);
        if tail >? 0 then qsort fuel (Z.of_nat (length pre)) tail else mret tt
      else
        KASSERT ((tail >? 0) && (tail <? Z.of_nat (length l))) ;;
        qsort fuel (Z.of_nat (length pre)) tail ;;
        qsort fuel (Z.of_nat (length pre) + tail) (Z.of_nat (length l) - tail))
    (sorted_result pre post l) (around pre post l).
Proof.
  intros IH Hn. assert (0 <= Z.of_nat (length l) / 2 < Z.of_nat (length l)) by (Z.to_euclidean_division_equations; lia).
  destruct (znth_is_Some l (Z.of_nat (length l) / 2)) as [v Hv]; [lia|].
  assert (parted v (Z.of_nat (length l) / 2) 0 (Z.of_nat (length l) - 1) l) as Hparted.
  { split; [done|lia|lia| |]; intros i x Hi Hx; pose proof (znth_Some_range _ _ _ Hx); lia. }
  apply wp_bind. eapply wp_mono; [|apply (wp_partition Hf pre post _ v); [done|lia|lia]].
  intros [[pivot head] tail] s (l' & -> & Hl & Hp & Hth).
  pose proof (Permutation_length Hl) as Hlen. rewrite <- !Hlen. rewrite <- Hlen in Hn.
  assert (∀ s, sorted_result pre post l' tt s → sorted_result pre post l tt s) as Hres.
  { intros s (l'' & -> & Hl' & ?). exists l''. split_and!; [done|by rewrite Hl', Hl|done]. }
  destruct (pt_range _ _ _ _ _ Hp) as [Hr1 Hr2]. pose proof (pt_pivot _ _ _ _ _ Hp).
  apply wp_bind. destruct (Z.gtb_spec head tail).
  - apply wp_ret. cbn [Z.leb Z.compare]. eapply wp_mono; [intros []; apply Hres|].
    apply (sort_rest fuel pre post l' v); auto; [by eapply parted_crossed|lia].
  - replace tail with head in * by lia. destruct (znth_is_Some l' head) as [x Hx]; [lia|].
    apply (wp_COMPARE Hf pre post _ _ _ x v); auto. eapply wp_mono; [intros []; apply Hres|].
    apply (sort_rest fuel pre post l' v); auto; [by eapply parted_met|]. destruct (f x v <=? 0); lia.
Qed.

Lemma sort_two pre post x y :
  0 < f x y → sorted_result pre post [x; y] tt (around pre post (swap [x; y] 0 1 x y)).
Proof.
  intros H. exists [y; x]. split_and!; [done|constructor|].
  repeat constructor. unfold le. by apply (lt_le Hf).
Qed.

Lemma qsort_sorts fuel : sorts fuel.
Proof.
  induction fuel as [|fuel IH]; intros pre post l Hn Hpos; [lia|]. cbn [qsort].
  destruct (Z.leb_spec (Z.of_nat (length l)) 1).
  { apply wp_ret. exists l. split_and!; try done. apply sorted_all_le. intros x y Hx Hy.
    destruct l as [|a []]; simpl in *; try lia; [by apply not_elem_of_nil in Hx|].
    apply list_elem_of_singleton in Hx as ->, Hy as ->. unfold le. rewrite (f_refl Hf). lia. }
  pose proof (sort_general fuel pre post l IH ltac:(lia)) as Hgen. apply wp_bind.
  destruct (Z.eqb_spec (Z.of_nat (length l)) 2); [|by apply wp_ret].
  destruct l as [|x [|y []]]; simpl in *; try lia.
  apply wp_bind, (wp_COMPARE Hf pre post _ 0 1 x y); [done|done|].
  destruct (Z.gtb_spec (f x y) 0); [|by apply wp_ret].
  apply wp_bind, (wp_EXCHANGE pre post _ 0 1 x y); [done|done|]. by apply wp_ret, wp_ret, sort_two.
Qed.
End Recursion.

End Qsort.

(** C17: The C library's qsort sorts: called with a comparison function that is consistent (a
    total preorder, as the C standard asks) on [num] elements of an array, it returns, with fuel
    for as many nested calls as there are elements; the elements are then a permutation of what
    they were, each not above the ones behind it, and nothing before or behind them in memory has
    changed.  Its assertion, and the accesses to the array, never fail on the way. *)
Theorem qsort_correct {A} (f : A → A → Z) (pre l post : list A) :
  consistent f →
  ∃ l', qsort f (S (length l)) (Z.of_nat (length pre)) (Z.of_nat (length l)) (pre ++ l ++ post)
          = Done (tt, pre ++ l' ++ post) ∧
    l' ≡ₚ l ∧ StronglySorted (λ x y, f x y <= 0) l'.
Proof.
  intros Hf. destruct (proj1 (wp_done _ _ _) (qsort_sorts f Hf (S (length l)) pre post l ltac:(lia) ltac:(lia)))
    as ([] & s & Hrun & l' & -> & Hl & Hs). by exists l'.
Qed.

Lemma qsort_correct_witness :
  consistent Z.sub ∧
  ∃ l', qsort Z.sub 8 1 7 [9; 5; 3; 8; 3; 1; 7; 2; 0] = Done (tt, 9 :: l' ++ [0]) ∧
    l' ≡ₚ [5; 3; 8; 3; 1; 7; 2] ∧ StronglySorted (λ x y, x - y <= 0) l'.
Proof.
  assert (consistent Z.sub) as Hc by (split; intros; lia).
  split; [exact Hc|]. exact (qsort_correct Z.sub [9] [5; 3; 8; 3; 1; 7; 2] [0] Hc).
Defined.

End Qsort.
