(* ===== verification/CString.v ===== *)
(** * Memory and strings (common/libc/string, userland/lib/libc/string)

    The string functions that the kernel and the C library share, on a memory of bytes: a map
    from addresses to bytes, in which an access to an address that is not there is a panic, and so
    is an access to a word that is not aligned.  The functions that copy or clear whole words are
    proved equal to what they do byte by byte. *)

From Stdlib Require Import ZArith Lia.
From stdpp Require Import base numbers list gmap.
From S2P Require Import Prelude.

Open Scope Z_scope.

Module CString.

Notation memory := (gmap Z Z).

(** ** Access to memory *)

Definition ldb (a : Z) : M memory Z := o ← gets (λ m, m !! a); deref o.
Definition stb (a v : Z) : M memory unit := _ ← ldb a; modify <[a := v mod 256]>.

(** sizeof(long) *)
Definition WORD : Z := 4.

(** Words are big-endian. *)
Definition ldw (a : Z) : M memory Z :=
  KASSERT (a mod WORD =? 0) ;;
  b0 ← ldb a; b1 ← ldb (a + 1); b2 ← ldb (a + 2); b3 ← ldb (a + 3);
  mret (b0 * 2 ^ 24 + b1 * 2 ^ 16 + b2 * 2 ^ 8 + b3).

Definition stw (a v : Z) : M memory unit :=
  KASSERT (a mod WORD =? 0) ;;
  stb a (v / 2 ^ 24) ;; stb (a + 1) (v / 2 ^ 16) ;; stb (a + 2) (v / 2 ^ 8) ;; stb (a + 3) v.

(** Every byte that is read is in memory, so the loops that look for the end of a
    string stop within its size. *)
Definition fuel : M memory nat := gets (λ m, S (size m)).

(** ** Blocks *)

Definition bzero (block len : Z) : M memory unit :=
  if (block mod WORD =? 0) && (len mod WORD =? 0)
  then for_loop (Z.to_nat (len / WORD)) 0 (λ i, stw (block + i * WORD) 0)
  else for_loop (Z.to_nat len) 0 (λ i, stb (block + i) 0).

Definition memset (ptr ch len : Z) : M memory Z :=
  for_loop (Z.to_nat len) 0 (λ i, stb (ptr + i) ch) ;; mret ptr.

Definition memcpy (dst src len : Z) : M memory Z :=
  (if (dst mod WORD =? 0) && (src mod WORD =? 0) && (len mod WORD =? 0)
   then for_loop (Z.to_nat (len / WORD)) 0 (λ i, v ← ldw (src + i * WORD); stw (dst + i * WORD) v)
   else for_loop (Z.to_nat len) 0 (λ i, v ← ldb (src + i); stb (dst + i) v)) ;;
  mret dst.

Fixpoint down_loop (n : nat) (body : Z → M memory unit) : M memory unit :=
  match n with
  | O => mret tt
  | S n' => body (Z.of_nat n) ;; down_loop n' body
  end.

Definition memmove (dst src len : Z) : M memory Z :=
  if dst <? src then memcpy dst src len else
  (if (dst mod WORD =? 0) && (src mod WORD =? 0) && (len mod WORD =? 0)
   then down_loop (Z.to_nat (len / WORD))
          (λ i, v ← ldw (src + (i - 1) * WORD); stw (dst + (i - 1) * WORD) v)
   else down_loop (Z.to_nat len) (λ i, v ← ldb (src + (i - 1)); stb (dst + (i - 1)) v)) ;;
  mret dst.

Definition memcmp (a b len : Z) : M memory Z :=
  r ← for_return (Z.to_nat len) 0 (λ i,
        x ← ldb (a + i); y ← ldb (b + i);
        mret (if negb (x =? y) then Some (x - y) else None));
  mret (default 0 r).

(** ** Strings *)

Fixpoint strlen_loop (n : nat) (str ret : Z) : M memory Z :=
  match n with
  | O => panic
  | S n' => c ← ldb (str + ret); if negb (c =? 0) then strlen_loop n' str (ret + 1) else mret ret
  end.
Definition strlen (str : Z) : M memory Z := n ← fuel; strlen_loop n str 0.

Fixpoint strcpy_loop (n : nat) (dest src i : Z) : M memory unit :=
  match n with
  | O => panic
  | S n' =>
      c ← ldb (src + i);
      if negb (c =? 0) then
        stb (dest + i) c ;; strcpy_loop n' dest src (i + 1)
      else stb (dest + i) 0
  end.
Definition strcpy (dest src : Z) : M memory Z := n ← fuel; strcpy_loop n dest src 0 ;; mret dest.

Definition strcat (dest src : Z) : M memory Z :=
  offset ← strlen dest;
  strcpy (dest + offset) src ;;
  mret dest.

(** NULL is [None]. *)
Fixpoint strchr_loop (n : nat) (s ch : Z) : M memory (option Z) :=
  match n with
  | O => panic
  | S n' =>
      c ← ldb s;
      if negb (c =? 0) then
        if c =? ch then mret (Some s) else strchr_loop n' (s + 1) ch
      else if c =? ch then mret (Some s) else mret None
  end.
Definition strchr (s ch_arg : Z) : M memory (option Z) := n ← fuel; strchr_loop n s (ch_arg mod 256).

Fixpoint strrchr_loop (i : nat) (s ch : Z) : M memory (option Z) :=
  match i with
  | O => mret None
  | S i' => c ← ldb (s + Z.of_nat i'); if c =? ch then mret (Some (s + Z.of_nat i')) else strrchr_loop i' s ch
  end.
Definition strrchr (s ch_arg : Z) : M memory (option Z) :=
  len ← strlen s; strrchr_loop (Z.to_nat (len + 1)) s (ch_arg mod 256).

Fixpoint strcmp_loop (n : nat) (a b i : Z) : M memory Z :=
  match n with
  | O => panic
  | S n' =>
      x ← ldb (a + i);
      go ← (if x =? 0 then mret false else y ← ldb (b + i); mret (x =? y));
      if (go : bool) then strcmp_loop n' a b (i + 1) else mret i
  end.
Definition strcmp (a b : Z) : M memory Z :=
  n ← fuel;
  i ← strcmp_loop n a b 0;
  x ← ldb (a + i); y ← ldb (b + i);
  if x >? y then mret 1 else if x =? y then mret 0 else mret (-1).

(** The scan for the first character that is, or is not, among [seps]. *)
Fixpoint skip_loop (n : nat) (seps : Z) (wanted : bool) (p : Z) : M memory Z :=
  match n with
  | O => panic
  | S n' =>
      c ← ldb p;
      if c =? 0 then mret p else
      o ← strchr seps c;
      if Bool.eqb (if o is Some _ then true else false) wanted then skip_loop n' seps wanted (p + 1) else mret p
  end.

(** [context] is the value of *context before and after. *)
Definition strtok_r (string : option Z) (seps : Z) (context : option Z) : M memory (option Z * option Z) :=
  let context := if string is Some _ then string else context in
  match context with
  | None => mret (None, None)
  | Some head =>
      n ← fuel;
      head ← skip_loop n seps true head;
      c ← ldb head;
      if c =? 0 then mret (None, None) else
      tail ← skip_loop n seps false head;
      c ← ldb tail;
      if c =? 0 then mret (Some head, None) else
      stb tail 0 ;; mret (Some head, Some (tail + 1))
  end.

(** ** What is in memory *)

(** The bytes [l] are at address [a]. *)
Definition here (m : memory) (a : Z) (l : list Z) : Prop :=
  ∀ i x, l !! i = Some x → m !! (a + Z.of_nat i) = Some x.

(** There is memory at the [n] addresses from [a] on. *)
Definition mapped (m : memory) (a : Z) (n : nat) : Prop := ∀ i, 0 <= i < Z.of_nat n → is_Some (m !! (a + i)).

(** The memory with the bytes [l] put at [a]. *)
Fixpoint put_at (m : memory) (a : Z) (l : list Z) : memory :=
  match l with [] => m | x :: l => <[a := x]> (put_at m (a + 1) l) end.

Definition byte (x : Z) : Prop := 0 <= x < 256.

Lemma lookup_put_at m a l k :
  put_at m a l !! k = if decide (a <= k < a + Z.of_nat (length l)) then l !! Z.to_nat (k - a) else m !! k.
Proof.
  revert a. induction l as [|x l IH]; intros a; simpl.
  { by rewrite decide_False by lia. }
  destruct (decide (k = a)) as [->|].
  - rewrite lookup_insert_eq, decide_True by lia. by rewrite Z.sub_diag.
  - rewrite lookup_insert_ne, IH by done. repeat case_decide; try lia; [|done].
    replace (Z.to_nat (k - a)) with (S (Z.to_nat (k - (a + 1)))) by lia. done.
Qed.

Lemma put_at_app m a l1 l2 : put_at m a (l1 ++ l2) = put_at (put_at m (a + Z.of_nat (length l1)) l2) a l1.
Proof.
  apply map_eq. intros k. rewrite !lookup_put_at, length_app. repeat case_decide; try lia; try done.
  - rewrite lookup_app_l by lia. done.
  - rewrite lookup_app_r by lia. f_equal. lia.
Qed.

Lemma put_at_app_r m a l1 l2 : put_at m a (l1 ++ l2) = put_at (put_at m a l1) (a + Z.of_nat (length l1)) l2.
Proof.
  apply map_eq. intros k. rewrite !lookup_put_at, length_app. repeat case_decide; try lia; try done.
  - rewrite lookup_app_r by lia. f_equal. lia.
  - rewrite lookup_app_l by lia. done.
Qed.

Lemma put_at_snoc m a l x : put_at m a (l ++ [x]) = <[a + Z.of_nat (length l) := x]> (put_at m a l).
Proof.
  apply map_eq. intros k. destruct (decide (k = a + Z.of_nat (length l))) as [->|].
  - rewrite lookup_insert_eq, lookup_put_at, length_app, decide_True by (simpl; lia).
    rewrite lookup_app_r by lia. by replace (Z.to_nat _ - length l)%nat with 0%nat by lia.
  - rewrite lookup_insert_ne, !lookup_put_at, length_app by done. simpl. repeat case_decide; try lia; try done.
    by rewrite lookup_app_l by lia.
Qed.

Lemma here_app m a l1 l2 : here m a (l1 ++ l2) ↔ here m a l1 ∧ here m (a + Z.of_nat (length l1)) l2.
Proof.
  split.
  - intros H. split; intros i x Hi.
    + apply H. by apply lookup_app_l_Some.
    + rewrite <- (Z.add_assoc a), <- Nat2Z.inj_add. apply H. rewrite lookup_app_r by lia. rewrite <- Hi. f_equal. lia.
  - intros [H1 H2] i x [Hi|[Hle Hi]]%lookup_app_Some; [by apply H1|].
    replace (a + Z.of_nat i) with (a + Z.of_nat (length l1) + Z.of_nat (i - length l1)) by lia. by apply H2.
Qed.

Lemma here_cons m a x l : here m a (x :: l) ↔ m !! a = Some x ∧ here m (a + 1) l.
Proof.
  change (x :: l) with ([x] ++ l). rewrite here_app. simpl. split; intros [H1 H2]; (split; [|done]).
  - rewrite <- (Z.add_0_r a). by apply (H1 0%nat).
  - intros [|i] y Hy; [|done]. simpl in Hy. simplify_eq. by rewrite Z.add_0_r.
Qed.

Lemma here_nil m a : here m a [].
Proof. by intros [] x ?. Qed.

Lemma here_mapped m a l : here m a l → mapped m a (length l).
Proof.
  intros H i Hi. destruct (lookup_lt_is_Some_2 l (Z.to_nat i)) as [x Hx]; [lia|].
  exists x. rewrite <- (Z2Nat.id i) by lia. by apply H.
Qed.

Lemma mapped_put_at m a l b n : mapped m b n → mapped (put_at m a l) b n.
Proof.
  intros H i Hi. rewrite lookup_put_at. case_decide; [|by apply H]. apply lookup_lt_is_Some. lia.
Qed.

Lemma mapped_le m a n k : (k ≤ n)%nat → mapped m a n → mapped m a k.
Proof. intros ? H i Hi. apply H. lia. Qed.

Lemma here_put_at m a l : here (put_at m a l) a l.
Proof.
  intros i x Hi. pose proof (lookup_lt_Some _ _ _ Hi). rewrite lookup_put_at, decide_True by lia.
  rewrite <- Hi. f_equal. lia.
Qed.

Lemma here_put_other m a l b k :
  here m b k → b + Z.of_nat (length k) <= a ∨ a + Z.of_nat (length l) <= b → here (put_at m a l) b k.
Proof.
  intros H Hd i x Hi. pose proof (lookup_lt_Some _ _ _ Hi). rewrite lookup_put_at, decide_False by lia. by apply H.
Qed.

Lemma put_at_here m a l : here m a l → put_at m a l = m.
Proof.
  intros H. apply map_eq. intros k. rewrite lookup_put_at. case_decide; [|done].
  destruct (lookup_lt_is_Some_2 l (Z.to_nat (k - a))) as [x Hx]; [lia|]. rewrite Hx.
  apply H in Hx. rewrite <- Hx. f_equal. lia.
Qed.

(** No string is longer than the memory. *)
Lemma here_size m a l : here m a l → (length l ≤ size m)%nat.
Proof.
  intros H. rewrite <- size_dom.
  transitivity (size (list_to_set (C := gset Z) (seqZ a (Z.of_nat (length l))))).
  - rewrite size_list_to_set by apply NoDup_seqZ. by rewrite length_seqZ, Nat2Z.id.
  - apply subseteq_size. intros k Hk%elem_of_list_to_set%elem_of_seqZ. apply elem_of_dom.
    replace k with (a + (k - a)) by lia. apply (here_mapped m a l H). lia.
Qed.

(** ** Blocks *)

Lemma wp_ldb m a x Q : m !! a = Some x → Q x m → wp (ldb a) Q m.
Proof. intros H HQ. apply wp_bind, wp_gets. rewrite H. exact HQ. Qed.

Lemma wp_stb m a v Q : is_Some (m !! a) → Q tt (<[a := v mod 256]> m) → wp (stb a v) Q m.
Proof. intros [x H] HQ. apply wp_bind, (wp_ldb _ _ x); [done|]. exact HQ. Qed.

Lemma wp_stb_byte m a v Q : is_Some (m !! a) → byte v → Q tt (<[a := v]> m) → wp (stb a v) Q m.
Proof. intros ? Hv HQ. apply wp_stb; [done|]. by rewrite Z.mod_small by apply Hv. Qed.

Lemma wp_ldw m a b0 b1 b2 b3 Q :
  a mod WORD = 0 → here m a [b0; b1; b2; b3] →
  Q (b0 * 2 ^ 24 + b1 * 2 ^ 16 + b2 * 2 ^ 8 + b3) m → wp (ldw a) Q m.
Proof.
  intros Ha H HQ. rewrite !here_cons in H. destruct H as (H0 & H1 & H2 & H3 & _).
  replace (a + 1 + 1 + 1) with (a + 3) in H3 by lia. replace (a + 1 + 1) with (a + 2) in H2 by lia.
  apply wp_bind, wp_KASSERT; [by apply Z.eqb_eq|].
  apply wp_bind, (wp_ldb _ _ _ _ H0), wp_bind, (wp_ldb _ _ _ _ H1).
  apply wp_bind, (wp_ldb _ _ _ _ H2), wp_bind, (wp_ldb _ _ _ _ H3). by apply wp_ret.
Qed.

Lemma wp_stw m a v Q :
  a mod WORD = 0 → mapped m a 4 →
  Q tt (put_at m a [v / 2 ^ 24 mod 256; v / 2 ^ 16 mod 256; v / 2 ^ 8 mod 256; v mod 256]) → wp (stw a v) Q m.
Proof.
  intros Ha H HQ. apply wp_bind, wp_KASSERT; [by apply Z.eqb_eq|].
  apply wp_bind, wp_stb; [rewrite <- (Z.add_0_r a); apply H; lia|].
  apply wp_bind, wp_stb; [rewrite lookup_insert_ne by lia; apply H; lia|].
  apply wp_bind, wp_stb; [rewrite !lookup_insert_ne by lia; apply H; lia|].
  apply wp_stb; [rewrite !lookup_insert_ne by lia; apply H; lia|].
  replace (<[a + 3 := _]> _) with (put_at m a [v / 2 ^ 24 mod 256; v / 2 ^ 16 mod 256; v / 2 ^ 8 mod 256; v mod 256]);
    [done|].
  apply map_eq. intros k. simpl. rewrite !lookup_insert. repeat case_decide; done || lia.
Qed.

Lemma word_bytes b0 b1 b2 b3 :
  byte b0 → byte b1 → byte b2 → byte b3 →
  let v := b0 * 2 ^ 24 + b1 * 2 ^ 16 + b2 * 2 ^ 8 + b3 in
  [v / 2 ^ 24 mod 256; v / 2 ^ 16 mod 256; v / 2 ^ 8 mod 256; v mod 256] = [b0; b1; b2; b3].
Proof.
  unfold byte. intros H0 H1 H2 H3. cbv zeta. change (2 ^ 24) with 16777216. change (2 ^ 16) with 65536.
  change (2 ^ 8) with 256. apply (f_equal2 cons); [|apply (f_equal2 cons); [|apply (f_equal2 cons);
    [|apply (f_equal2 cons); [|done]]]]; Z.to_euclidean_division_equations; lia.
Qed.

(** A word that is copied is four bytes that are copied. *)
Lemma wp_copy_word m d s l :
  s mod WORD = 0 → d mod WORD = 0 → length l = 4%nat → Forall byte l → here m s l → mapped m d 4 →
  wp (v ← ldw s; stw d v) (λ _ m', m' = put_at m d l) m.
Proof.
  intros Hs Hd Hl Hb H Hm. destruct l as [|b0 [|b1 [|b2 [|b3 []]]]]; try done.
  apply wp_bind, (wp_ldw _ _ b0 b1 b2 b3); [done|done|]. apply wp_stw; [done|done|].
  rewrite !Forall_cons in Hb. destruct Hb as (? & ? & ? & ? & _). by rewrite word_bytes.
Qed.

Lemma wp_copy_byte m d s l :
  length l = 1%nat → Forall byte l → here m s l → mapped m d 1 →
  wp (v ← ldb s; stb d v) (λ _ m', m' = put_at m d l) m.
Proof.
  intros Hl Hb H Hm. destruct l as [|b []]; try done. apply here_cons in H as [H _].
  apply Forall_inv in Hb. apply wp_bind, (wp_ldb _ _ _ _ H), wp_stb_byte; [|done|done].
  rewrite <- (Z.add_0_r d). apply Hm. lia.
Qed.

(** Copying [l], [w] bytes in each round, upwards and downwards. *)
Section copy.
Context (w : nat) (dst src : Z) (l : list Z) (m : memory) (n : nat).
Context (Hw : (0 < w)%nat) (Hl : length l = (n * w)%nat) (Hb : Forall byte l).
Context (Hsrc : here m src l) (Hdst : mapped m dst (length l)).

Definition copies (body : Z → M memory unit) : Prop := ∀ i c m',
  0 <= i → length c = w → Forall byte c → here m' (src + i * Z.of_nat w) c → mapped m' (dst + i * Z.of_nat w) w →
  wp (body i) (λ _ m'', m'' = put_at m' (dst + i * Z.of_nat w) c) m'.

Lemma chunk (k : nat) :
  (k < n)%nat → ∃ c, length c = w ∧ Forall byte c ∧ take (S k * w) l = take (k * w) l ++ c ∧
    here m (src + Z.of_nat (k * w)) c ∧ Z.of_nat (k * w) + Z.of_nat w <= Z.of_nat (length l) ∧
    drop (k * w) l = c ++ drop (S k * w) l.
Proof.
  intros Hk. assert (k * w + w ≤ length l)%nat by nia.
  exists (take w (drop (k * w) l)). split_and!.
  - rewrite length_take, length_drop. lia.
  - by apply Forall_take, Forall_drop.
  - rewrite take_take_drop. f_equal. lia.
  - rewrite <- (take_drop (k * w) l) in Hsrc. apply here_app in Hsrc as [_ Hsrc].
    rewrite length_take, Nat.min_l in Hsrc by lia.
    rewrite <- (take_drop w (drop (k * w) l)) in Hsrc. by apply here_app in Hsrc as [Hsrc _].
  - lia.
  - rewrite <- (take_drop w (drop (k * w) l)) at 1. rewrite drop_drop. do 2 f_equal. lia.
Qed.

Lemma wp_copy_up body :
  copies body → dst <= src ∨ src + Z.of_nat (length l) <= dst →
  wp (for_loop n 0 body) (λ _ m', m' = put_at m dst l) m.
Proof.
  intros Hbody Hov.
  apply (wp_for_loop (λ i m', m' = put_at m dst (take (Z.to_nat i * w) l))); [done| |].
  - intros i m' Hi ->. destruct (chunk (Z.to_nat i) ltac:(lia)) as (c & Hc & Hcb & Htake & Hat & Hlen).
    rewrite Nat2Z.inj_mul, Z2Nat.id in Hat, Hlen by lia.
    eapply wp_mono; [|apply (Hbody i c); try done; [lia| |]].
    + intros [] m' ->. replace (Z.to_nat (i + 1)) with (S (Z.to_nat i)) by lia.
      rewrite Htake, put_at_app_r, length_take. do 2 f_equal. lia.
    + apply here_put_other; [done|]. rewrite length_take. lia.
    + apply mapped_put_at. intros j Hj. rewrite <- Z.add_assoc. apply Hdst. lia.
  - intros m' ->. rewrite take_ge by lia. done.
Qed.

Lemma wp_copy_down body :
  copies body → src <= dst →
  wp (down_loop n (λ i, body (i - 1))) (λ _ m', m' = put_at m dst l) m.
Proof.
  intros Hbody Hov.
  assert (∀ k, (k ≤ n)%nat → wp (down_loop k (λ i, body (i - 1))) (λ _ m', m' = put_at m dst l)
    (put_at m (dst + Z.of_nat (k * w)) (drop (k * w) l))) as H.
  { induction k as [|k IH]; intros Hk.
    { apply wp_ret. by rewrite Z.add_0_r, drop_0. }
    destruct (chunk k ltac:(lia)) as (c & Hc & Hcb & _ & Hat & Hlen & Hdrop).
    simpl down_loop. apply wp_bind. replace (Z.of_nat (S k) - 1) with (Z.of_nat k) by lia.
    eapply wp_mono; [|apply (Hbody (Z.of_nat k) c); try done; [lia| |]].
    - intros [] m' ->. rewrite <- Nat2Z.inj_mul.
      replace (put_at _ (dst + Z.of_nat (k * w)) c) with (put_at m (dst + Z.of_nat (k * w)) (drop (k * w) l));
        [apply IH; lia|].
      rewrite Hdrop, put_at_app, Hc. do 2 f_equal. lia.
    - rewrite <- Nat2Z.inj_mul. apply here_put_other; [done|]. left. lia.
    - rewrite <- Nat2Z.inj_mul. apply mapped_put_at. intros j Hj. rewrite <- Z.add_assoc. apply Hdst. lia. }
  specialize (H n ltac:(lia)). rewrite drop_ge in H by lia. exact H.
Qed.
End copy.

Lemma copies_word dst src : dst mod WORD = 0 → src mod WORD = 0 →
  copies 4 dst src (λ i, v ← ldw (src + i * WORD); stw (dst + i * WORD) v).
Proof.
  intros Hd Hs i c m' Hi Hc Hb Hh Hm. apply wp_copy_word; try done; unfold WORD in *;
    Z.to_euclidean_division_equations; lia.
Qed.

Lemma copies_byte dst src : copies 1 dst src (λ i, v ← ldb (src + i); stb (dst + i) v).
Proof.
  intros i c m' Hi Hc Hb Hh Hm. rewrite Z.mul_1_r in *. by apply wp_copy_byte.
Qed.

Lemma aligned_length {A} (l : list A) :
  Z.of_nat (length l) mod WORD = 0 → length l = (Z.to_nat (Z.of_nat (length l) / WORD) * 4)%nat.
Proof. unfold WORD. intros. Z.to_euclidean_division_equations. lia. Qed.

Lemma wp_memcpy m dst src l :
  here m src l → mapped m dst (length l) → Forall byte l → dst <= src ∨ src + Z.of_nat (length l) <= dst →
  wp (memcpy dst src (Z.of_nat (length l))) (λ r m', r = dst ∧ m' = put_at m dst l) m.
Proof.
  intros Hs Hd Hb Hov. apply wp_bind.
  apply (wp_mono _ (λ _ m', m' = put_at m dst l)); [intros [] m' ->; by apply wp_ret|].
  destruct ((dst mod WORD =? 0) && (src mod WORD =? 0) && (Z.of_nat (length l) mod WORD =? 0)) eqn:E.
  - apply andb_prop in E as [[E1 E2]%andb_prop E3]. apply Z.eqb_eq in E1, E2, E3.
    apply (wp_copy_up 4 dst src); try done; [lia|by apply aligned_length|by apply copies_word].
  - rewrite Nat2Z.id. apply (wp_copy_up 1 dst src); try done; [lia|lia|apply copies_byte].
Qed.

Lemma wp_memmove m dst src l :
  here m src l → mapped m dst (length l) → Forall byte l →
  wp (memmove dst src (Z.of_nat (length l))) (λ r m', r = dst ∧ m' = put_at m dst l) m.
Proof.
  intros Hs Hd Hb. unfold memmove. destruct (Z.ltb_spec dst src); [apply wp_memcpy; auto; lia|].
  apply wp_bind, (wp_mono _ (λ _ m', m' = put_at m dst l)); [intros [] m' ->; by apply wp_ret|].
  destruct ((dst mod WORD =? 0) && (src mod WORD =? 0) && (Z.of_nat (length l) mod WORD =? 0)) eqn:E.
  - apply andb_prop in E as [[E1 E2]%andb_prop E3]. apply Z.eqb_eq in E1, E2, E3.
    exact (wp_copy_down 4 dst src l m _ ltac:(lia) (aligned_length l E3) Hb Hs Hd _ (copies_word dst src E1 E2) ltac:(lia)).
  - rewrite Nat2Z.id.
    exact (wp_copy_down 1 dst src l m (length l) ltac:(lia) ltac:(lia) Hb Hs Hd _ (copies_byte dst src) ltac:(lia)).
Qed.

(** Filling, [w] bytes in each round. *)
Lemma wp_fill (w n : nat) b m a body :
  (∀ i m', 0 <= i → mapped m' (a + i * Z.of_nat w) w →
     wp (body i) (λ _ m'', m'' = put_at m' (a + i * Z.of_nat w) (replicate w b)) m') →
  mapped m a (n * w) → wp (for_loop n 0 body) (λ _ m', m' = put_at m a (replicate (n * w) b)) m.
Proof.
  intros Hbody Hm. apply (wp_for_loop (λ i m', m' = put_at m a (replicate (Z.to_nat i * w) b))); [done| |].
  - intros i m' Hi ->. eapply wp_mono; [|apply Hbody; [lia|]].
    + intros [] m' ->. replace (Z.to_nat (i + 1) * w)%nat with (Z.to_nat i * w + w)%nat by lia.
      rewrite replicate_add, put_at_app_r, length_replicate. do 2 f_equal. lia.
    + apply mapped_put_at. intros j Hj. rewrite <- Z.add_assoc. apply Hm. nia.
  - intros m' ->. do 2 f_equal. lia.
Qed.

Lemma wp_memset m ptr ch n :
  mapped m ptr n →
  wp (memset ptr ch (Z.of_nat n)) (λ r m', r = ptr ∧ m' = put_at m ptr (replicate n (ch mod 256))) m.
Proof.
  intros Hm. apply wp_bind. rewrite Nat2Z.id.
  eapply wp_mono; [|apply (wp_fill 1 n (ch mod 256) m ptr); [|by rewrite Nat.mul_1_r]].
  - intros [] m' ->. apply wp_ret. by rewrite Nat.mul_1_r.
  - intros i m' Hi H. rewrite Z.mul_1_r in *. apply wp_stb; [|done]. rewrite <- (Z.add_0_r (ptr + i)). apply H. lia.
Qed.

Lemma wp_bzero m a n :
  mapped m a n → wp (bzero a (Z.of_nat n)) (λ _ m', m' = put_at m a (replicate n 0)) m.
Proof.
  intros Hm. unfold bzero. destruct ((a mod WORD =? 0) && (Z.of_nat n mod WORD =? 0)) eqn:E.
  - apply andb_prop in E as [E1%Z.eqb_eq E2%Z.eqb_eq].
    assert (n = (Z.to_nat (Z.of_nat n / WORD) * 4)%nat) as Hn
      by (unfold WORD in *; Z.to_euclidean_division_equations; lia).
    rewrite Hn in Hm. eapply wp_mono; [|apply (wp_fill 4 _ 0 m a); [|exact Hm]]; [intros [] m' ->; by rewrite <- Hn|].
    intros i m' Hi H. apply wp_stw; [|done|done]. unfold WORD in *. Z.to_euclidean_division_equations. lia.
  - rewrite Nat2Z.id. eapply wp_mono; [|apply (wp_fill 1 n 0 m a); [|by rewrite Nat.mul_1_r]].
    + intros [] m' ->. by rewrite Nat.mul_1_r.
    + intros i m' Hi H. rewrite Z.mul_1_r in *. apply wp_stb; [|done]. rewrite <- (Z.add_0_r (a + i)). apply H. lia.
Qed.

(** ** Strings *)

(** The string [s], with its terminator, is at [a]. *)
Definition cstr (m : memory) (a : Z) (s : list Z) : Prop :=
  here m a (s ++ [0]) ∧ Forall (λ c, byte c ∧ c ≠ 0) s.

Lemma cstr_nil m a : cstr m a [] ↔ m !! a = Some 0.
Proof.
  unfold cstr. simpl. rewrite here_cons. split; [by intros [[? _] _]|].
  intros H. repeat split; [done|apply here_nil|constructor].
Qed.

Lemma cstr_cons m a c s :
  cstr m a (c :: s) ↔ (m !! a = Some c ∧ byte c ∧ c ≠ 0) ∧ cstr m (a + 1) s.
Proof. unfold cstr. simpl. rewrite here_cons, Forall_cons. tauto. Qed.

Lemma cstr_fuel m a s : cstr m a s → (length s < S (size m))%nat.
Proof. intros [H _]. apply here_size in H. rewrite length_app in H. simpl in H. lia. Qed.

Lemma cstr_app m a s1 s2 : cstr m a (s1 ++ s2) → cstr m (a + Z.of_nat (length s1)) s2.
Proof.
  intros [H1 H2]. apply Forall_app in H2 as [_ ?]. rewrite <- (assoc_L (++)) in H1.
  by apply here_app in H1 as [_ ?].
Qed.

Lemma wp_strlen_loop m a s n k :
  cstr m (a + k) s → (length s < n)%nat →
  wp (strlen_loop n a k) (λ r m', r = k + Z.of_nat (length s) ∧ m' = m) m.
Proof.
  revert n k. induction s as [|c s IH]; intros [|n] k Hs Hn; simpl in Hn; try lia; simpl.
  - apply cstr_nil in Hs. apply wp_bind, (wp_ldb _ _ _ _ Hs), wp_ret. split; [simpl; lia|done].
  - apply cstr_cons in Hs as [(Hc & _ & Hnz) Hs]. apply wp_bind, (wp_ldb _ _ _ _ Hc).
    rewrite (proj2 (Z.eqb_neq c 0) Hnz). simpl. rewrite <- Z.add_assoc in Hs.
    eapply wp_mono; [|apply (IH n (k + 1)); [done|lia]]. simpl. intros r m' [-> ->]. split; [lia|done].
Qed.

Lemma wp_strlen m a s :
  cstr m a s → wp (strlen a) (λ r m', r = Z.of_nat (length s) ∧ m' = m) m.
Proof.
  intros H. apply wp_bind, wp_gets. eapply wp_mono; [|apply wp_strlen_loop with (s := s)].
  - intros r m' [-> ->]. done.
  - by rewrite Z.add_0_r.
  - by eapply cstr_fuel.
Qed.

Lemma cstr_put_other m a l b s :
  cstr m b s → b + Z.of_nat (length s) < a ∨ a + Z.of_nat (length l) <= b → cstr (put_at m a l) b s.
Proof.
  intros [H ?] Hd. split; [|done]. apply here_put_other; [done|]. rewrite length_app. simpl. lia.
Qed.

Lemma wp_strcpy_loop m dest src s1 s2 n :
  cstr m src (s1 ++ s2) → mapped m dest (length (s1 ++ s2) + 1) → 
  dest + Z.of_nat (length (s1 ++ s2)) < src ∨ src + Z.of_nat (length (s1 ++ s2)) < dest →
  (length s2 < n)%nat →
  wp (strcpy_loop n dest src (Z.of_nat (length s1))) (λ _ m', m' = put_at m dest (s1 ++ s2 ++ [0]))
    (put_at m dest s1).
Proof.
  revert s1 n. induction s2 as [|c s2 IH]; intros s1 [|n] Hs Hm Hd Hn; simpl in Hn; try lia; simpl.
  - assert (cstr (put_at m dest s1) src s1) as H.
    { rewrite app_nil_r in *. apply cstr_put_other; [done|]. lia. }
    rewrite <- (app_nil_r s1) in H at 2. apply cstr_app, cstr_nil in H.
    apply wp_bind, (wp_ldb _ _ _ _ H). simpl. apply wp_stb_byte; [|done|by rewrite put_at_snoc].
    apply mapped_put_at with (n := (length (s1 ++ []) + 1)%nat); [done|]. rewrite app_nil_r. lia.
  - assert (cstr (put_at m dest s1) src (s1 ++ c :: s2)) as H.
    { apply cstr_put_other; [done|]. rewrite length_app in *. simpl in *. lia. }
    apply cstr_app, cstr_cons in H as [(Hc & Hb & Hnz) _].
    apply wp_bind, (wp_ldb _ _ _ _ Hc). rewrite (proj2 (Z.eqb_neq c 0) Hnz). simpl.
    apply wp_bind, wp_stb_byte; [|done|].
    { apply mapped_put_at with (n := (length (s1 ++ c :: s2) + 1)%nat); [done|]. rewrite length_app. simpl. lia. }
    rewrite <- put_at_snoc. specialize (IH (s1 ++ [c]) n). rewrite <- !(assoc_L (++)) in IH. simpl in IH.
    replace (Z.of_nat (length s1) + 1) with (Z.of_nat (length (s1 ++ [c]))) by (rewrite length_app; simpl; lia).
    apply IH; try done. lia.
Qed.

Lemma wp_strcpy m dest src s :
  cstr m src s → mapped m dest (length s + 1) →
  dest + Z.of_nat (length s) < src ∨ src + Z.of_nat (length s) < dest →
  wp (strcpy dest src) (λ r m', r = dest ∧ m' = put_at m dest (s ++ [0])) m.
Proof.
  intros Hs Hm Hd. apply wp_bind, wp_gets, wp_bind.
  eapply wp_mono; [|exact (wp_strcpy_loop m dest src [] s _ Hs Hm Hd (cstr_fuel _ _ _ Hs))].
  intros [] m' ->. by apply wp_ret.
Qed.

Lemma wp_strcat m dest src d s :
  cstr m dest d → cstr m src s → mapped m dest (length d + length s + 1) →
  dest + Z.of_nat (length d + length s) < src ∨ src + Z.of_nat (length s) < dest →
  wp (strcat dest src) (λ r m', r = dest ∧ m' = put_at m dest (d ++ s ++ [0])) m.
Proof.
  intros Hd Hs Hm Hdis. apply wp_bind. eapply wp_mono; [|by apply (wp_strlen m dest d)].
  intros r m' [-> ->]. apply wp_bind. eapply wp_mono; [|apply (wp_strcpy m _ _ s); [done| |lia]].
  - intros r m' [-> ->]. apply wp_ret. split; [done|]. rewrite (put_at_app_r m dest d).
    destruct Hd as [Hd _]. apply here_app in Hd as [Hd _]. by rewrite (put_at_here m dest d Hd).
  - intros i Hi. rewrite <- Z.add_assoc. apply Hm. lia.
Qed.

Lemma wp_strchr_loop m a s ch n :
  cstr m a s → (length s < n)%nat →
  wp (strchr_loop n a ch)
    (λ r m', r = (λ p, a + Z.of_nat p.1) <$> list_find (ch =.) (s ++ [0]) ∧ m' = m) m.
Proof.
  revert a n. induction s as [|c s IH]; intros a [|n] Hs Hn; simpl in Hn; try lia; simpl.
  - apply cstr_nil in Hs. apply wp_bind, (wp_ldb _ _ _ _ Hs). rewrite Z.eqb_refl. cbn [negb].
    destruct (Z.eqb_spec 0 ch); repeat case_decide; try congruence; apply wp_ret; simpl; (split; [|done]); try done. f_equal. lia.
  - apply cstr_cons in Hs as [(Hc & _ & Hnz) Hs]. apply wp_bind, (wp_ldb _ _ _ _ Hc).
    rewrite (proj2 (Z.eqb_neq c 0) Hnz). simpl.
    destruct (Z.eqb_spec c ch); case_decide; try congruence.
    + apply wp_ret. split; [|done]. simpl. f_equal. lia.
    + eapply wp_mono; [|apply (IH (a + 1) n); [done|lia]]. intros r m' [-> ->]. split; [|done].
      rewrite <- !option_fmap_compose. destruct (list_find _ _) as [[i y]|]; simpl; [|done]. f_equal. lia.
Qed.

(** [strchr] finds the first occurrence; the terminator counts as one of the characters. *)
Lemma wp_strchr m a s ch :
  cstr m a s → wp (strchr a ch)
    (λ r m', r = (λ p, a + Z.of_nat p.1) <$> list_find (ch mod 256 =.) (s ++ [0]) ∧ m' = m) m.
Proof. intros H. apply wp_bind, wp_gets, wp_strchr_loop; [done|]. by eapply cstr_fuel. Qed.

Lemma wp_strrchr_loop m a l ch k :
  here m a l → (k ≤ length l)%nat →
  wp (strrchr_loop k a ch) (λ r m', m' = m ∧ match r with
    | Some p => ∃ i, p = a + Z.of_nat i ∧ (i < k)%nat ∧ l !! i = Some ch ∧ ∀ j, (i < j < k)%nat → l !! j ≠ Some ch
    | None => ∀ j, (j < k)%nat → l !! j ≠ Some ch end) m.
Proof.
  intros Hl. induction k as [|k IH]; intros Hk; simpl.
  { apply wp_ret. split; [done|]. lia. }
  destruct (lookup_lt_is_Some_2 l k) as [c Hc]; [lia|].
  apply wp_bind, (wp_ldb _ _ _ _ (Hl _ _ Hc)). destruct (Z.eqb_spec c ch) as [->|].
  - apply wp_ret. split; [done|]. exists k. split_and!; try done; lia.
  - eapply wp_mono; [|apply IH; lia]. intros r m' [-> Hr]. split; [done|].
    assert (∀ j, (j < S k)%nat → (k ≤ j)%nat → l !! j ≠ Some ch) as Hlast.
    { intros j ? ?. replace j with k by lia. congruence. }
    destruct r as [p|].
    + destruct Hr as (i & -> & ? & ? & Hj). exists i. split_and!; try done; [lia|].
      intros j ?. destruct (decide (j < k)%nat); [apply Hj|apply Hlast]; lia.
    + intros j ?. destruct (decide (j < k)%nat); [by apply Hr|apply Hlast; lia].
Qed.

(** [strrchr] finds the last one. *)
Lemma wp_strrchr m a s ch :
  cstr m a s → wp (strrchr a ch) (λ r m', m' = m ∧ match r with
    | Some p => ∃ i, p = a + Z.of_nat i ∧ (s ++ [0]) !! i = Some (ch mod 256) ∧
                  ∀ j, (i < j)%nat → (s ++ [0]) !! j ≠ Some (ch mod 256)
    | None => ch mod 256 ∉ s ++ [0] end) m.
Proof.
  intros Hs. apply wp_bind. eapply wp_mono; [|by apply (wp_strlen m a s)]. intros r m' [-> ->].
  assert (length (s ++ [0]) = (length s + 1)%nat) as Hl by (by rewrite length_app).
  eapply wp_mono; [|apply (wp_strrchr_loop m a (s ++ [0])); [apply Hs|rewrite Hl; lia]].
  intros r m' [-> Hr]. split; [done|].
  assert (∀ j x, (s ++ [0]) !! j = Some x → (j < Z.to_nat (Z.of_nat (length s) + 1))%nat) as Hlt.
  { intros j x Hj%lookup_lt_Some. lia. }
  destruct r as [p|].
  - destruct Hr as (i & -> & ? & ? & Hj). exists i. split_and!; try done. intros j ? Hx. apply (Hj j); [|done].
    split; [done|]. by eapply Hlt.
  - intros [j Hj]%list_elem_of_lookup. apply (Hr j); [|done]. by eapply Hlt.
Qed.

(** Order of strings by their bytes. *)
Fixpoint lexcmp (a b : list Z) : Z :=
  match a, b with
  | [], [] => 0
  | [], _ => -1
  | _, [] => 1
  | x :: a, y :: b => if x >? y then 1 else if x =? y then lexcmp a b else -1
  end.

Lemma wp_strcmp_loop m a b k s t n :
  cstr m (a + k) s → cstr m (b + k) t → (length s < n)%nat →
  wp (i ← strcmp_loop n a b k; x ← ldb (a + i); y ← ldb (b + i);
      if x >? y then mret 1 else if x =? y then mret 0 else mret (-1))
    (λ r m', r = lexcmp s t ∧ m' = m) m.
Proof.
  revert t k n. induction s as [|c s IH]; intros t k [|n] Hs Ht Hn; simpl in Hn; try lia; cbn [strcmp_loop].
  - apply cstr_nil in Hs. apply wp_bind, wp_bind, (wp_ldb _ _ _ _ Hs). rewrite Z.eqb_refl.
    apply wp_bind, wp_ret, wp_ret, wp_bind, (wp_ldb _ _ _ _ Hs), wp_bind. destruct t as [|d t].
    + apply cstr_nil in Ht. apply (wp_ldb _ _ _ _ Ht). by apply wp_ret.
    + apply cstr_cons in Ht as [(Hd & Hbd & Hd0) _]. apply (wp_ldb _ _ _ _ Hd). unfold byte in *.
      destruct (Z.gtb_spec 0 d); [lia|]. destruct (Z.eqb_spec 0 d); [lia|]. by apply wp_ret.
  - apply cstr_cons in Hs as [(Hc & Hbc & Hc0) Hs]. apply wp_bind, wp_bind, (wp_ldb _ _ _ _ Hc).
    rewrite (proj2 (Z.eqb_neq c 0) Hc0). unfold byte in *. destruct t as [|d t].
    + apply cstr_nil in Ht. apply wp_bind, wp_bind, (wp_ldb _ _ _ _ Ht), wp_ret.
      rewrite (proj2 (Z.eqb_neq c 0) Hc0). apply wp_ret, wp_bind, (wp_ldb _ _ _ _ Hc), wp_bind, (wp_ldb _ _ _ _ Ht).
      destruct (Z.gtb_spec c 0); [|lia]. by apply wp_ret.
    + apply cstr_cons in Ht as [(Hd & Hbd & Hd0) Ht]. apply wp_bind, wp_bind, (wp_ldb _ _ _ _ Hd), wp_ret.
      simpl lexcmp. destruct (Z.eqb_spec c d) as [->|Hne].
      * destruct (Z.gtb_spec d d); [lia|]. apply wp_bind_inv. apply IH; [| |lia]; by rewrite Z.add_assoc.
      * apply wp_ret, wp_bind, (wp_ldb _ _ _ _ Hc), wp_bind, (wp_ldb _ _ _ _ Hd).
        rewrite (proj2 (Z.eqb_neq c d) Hne). destruct (c >? d); by apply wp_ret.
Qed.

Lemma wp_strcmp m a b s t :
  cstr m a s → cstr m b t → wp (strcmp a b) (λ r m', r = lexcmp s t ∧ m' = m) m.
Proof.
  intros Hs Ht. apply wp_bind, wp_gets, wp_strcmp_loop; [by rewrite Z.add_0_r|by rewrite Z.add_0_r|].
  by eapply cstr_fuel.
Qed.

Lemma lexcmp_refl s : lexcmp s s = 0.
Proof. induction s as [|x s IH]; simpl; [done|]. destruct (Z.gtb_spec x x); [lia|]. by rewrite Z.eqb_refl. Qed.

Lemma lexcmp_eq s t : lexcmp s t = 0 → s = t.
Proof.
  revert t. induction s as [|x s IH]; intros [|y t]; simpl; try done.
  destruct (x >? y); [done|]. destruct (Z.eqb_spec x y) as [->|]; [|done]. intros H. by rewrite (IH t H).
Qed.

(** ** Words *)

(** The longest prefix of characters that satisfy [P], and the rest. *)
Fixpoint span (P : Z → bool) (l : list Z) : list Z * list Z :=
  match l with
  | [] => ([], [])
  | x :: l' => if P x then let '(u, v) := span P l' in (x :: u, v) else ([], l)
  end.

Lemma span_app P l : (span P l).1 ++ (span P l).2 = l.
Proof.
  induction l as [|x l IH]; simpl; [done|]. destruct (P x); [|done]. destruct (span P l); simpl in *. by rewrite IH.
Qed.

(** The words of a string that [sep] separates. *)
Fixpoint words (sep : Z → bool) (s : list Z) : list (list Z) :=
  match s with
  | [] => []
  | c :: s' =>
      if sep c then words sep s' else
      match s' with
      | [] => [[c]]
      | d :: _ => if sep d then [c] :: words sep s' else
                  match words sep s' with w :: ws => (c :: w) :: ws | [] => [[c]] end
      end
  end.

Lemma words_skip sep s : words sep s = words sep (span sep s).2.
Proof.
  induction s as [|c s IH]; [done|]. simpl. destruct (sep c) eqn:E; [|simpl; by rewrite E].
  rewrite IH. by destruct (span sep s).
Qed.

Lemma words_word sep c s :
  sep c = false →
  words sep (c :: s) = (span (negb ∘ sep) (c :: s)).1 :: words sep (span (negb ∘ sep) (c :: s)).2.
Proof.
  revert c. induction s as [|d s IH]; intros c Hc.
  { simpl. by rewrite Hc. }
  change (words sep (c :: d :: s)) with (if sep c then words sep (d :: s) else
    if sep d then [c] :: words sep (d :: s) else
    match words sep (d :: s) with w :: ws => (c :: w) :: ws | [] => [[c]] end).
  rewrite Hc. destruct (sep d) eqn:Hd.
  - simpl. rewrite Hc, Hd. simpl. by rewrite Hd.
  - rewrite IH by done. cbn [span compose]. rewrite Hc. cbn [negb]. cbn [compose]. 
    destruct (span (negb ∘ sep) (d :: s)) as [u v] eqn:E. simpl in E |- *. rewrite Hd in *. simpl in *. by rewrite E.
Qed.

Definition isin (q : list Z) (c : Z) : bool := bool_decide (c ∈ q).

Lemma strchr_isin q c :
  byte c → c ≠ 0 → (if list_find (c mod 256 =.) (q ++ [0]) is Some _ then true else false) = isin q c.
Proof.
  intros Hb H0. rewrite Z.mod_small by apply Hb. unfold isin. destruct (list_find _ _) as [[i x]|] eqn:E.
  - apply list_find_Some in E as (Hi & <- & _). symmetry. apply bool_decide_eq_true.
    apply list_elem_of_lookup_2, elem_of_app in Hi as [?|Hi]; [done|]. by apply list_elem_of_singleton in Hi.
  - symmetry. apply bool_decide_eq_false. intros Hin. apply list_find_None in E.
    rewrite Forall_forall in E. apply (E c); [|done]. apply elem_of_app. by left.
Qed.

Lemma wp_skip_loop m seps q wanted p s n :
  cstr m seps q → cstr m p s → (length s < n)%nat →
  wp (skip_loop n seps wanted p)
    (λ r m', r = p + Z.of_nat (length (span (λ c, Bool.eqb (isin q c) wanted) s).1) ∧ m' = m) m.
Proof.
  intros Hq. revert p n. induction s as [|c s IH]; intros p [|n] Hs Hn; simpl in Hn; try lia; cbn [skip_loop].
  - apply cstr_nil in Hs. apply wp_bind, (wp_ldb _ _ _ _ Hs). rewrite Z.eqb_refl. apply wp_ret. split; [simpl; lia|done].
  - apply cstr_cons in Hs as [(Hc & Hb & H0) Hs]. apply wp_bind, (wp_ldb _ _ _ _ Hc).
    rewrite (proj2 (Z.eqb_neq c 0) H0). apply wp_bind. eapply wp_mono; [|by apply (wp_strchr m seps q)].
    intros o m' [-> ->]. pose proof (strchr_isin q c Hb H0) as Hin. cbn [span].
    destruct (list_find _ _) as [x|]; cbn [fmap option_fmap option_map]; rewrite <- Hin;
      destruct wanted; cbn [Bool.eqb];
      try (apply wp_ret; split; [simpl; lia|done]);
      (eapply wp_mono; [|apply (IH (p + 1) n); [done|lia]]; intros r m' [-> ->]; split; [|done];
       destruct (span _ s); simpl; lia).
Qed.

Definition sep_span (q s : list Z) : list Z * list Z := span (isin q) s.
Definition word_span (q s : list Z) : list Z * list Z := span (negb ∘ isin q) s.

Lemma span_ext P P' l : (∀ x, P x = P' x) → span P l = span P' l.
Proof. intros H. induction l as [|x l IH]; simpl; [done|]. by rewrite H, IH. Qed.

(** A word that ends at a separator or at the end of the string. *)
Definition token (q : list Z) (m m' : memory) (a : Z) (s : list Z) (r : option Z * option Z) : Prop :=
  let '(u, v) := sep_span q s in
  match v with
  | [] => r = (None, None) ∧ m' = m
  | _ =>
      let '(w, v') := word_span q v in
      let head := a + Z.of_nat (length u) in
      let tail := head + Z.of_nat (length w) in
      match v' with
      | [] => r = (Some head, None) ∧ m' = m
      | _ => r = (Some head, Some (tail + 1)) ∧ m' = <[tail := 0]> m
      end
  end.

Lemma wp_strtok_r m string seps q context a s :
  cstr m seps q → cstr m a s → (if string is Some _ then string else context) = Some a →
  wp (strtok_r string seps context) (λ r m', token q m m' a s r) m.
Proof.
  intros Hq Hs Hctx. unfold strtok_r, token, sep_span, word_span. rewrite Hctx. apply wp_bind, wp_gets, wp_bind.
  eapply wp_mono; [|apply (wp_skip_loop m seps q true a s); [done|done|by eapply cstr_fuel]].
  rewrite (span_ext _ (isin q)) by (intros x; by destruct (isin q x)). intros head m' [-> ->].
  pose proof (span_app (isin q) s) as Happ. destruct (span (isin q) s) as [u v]. cbn [fst snd] in *. subst s.
  pose proof (cstr_app _ _ _ _ Hs) as Hv. destruct v as [|c v].
  { apply cstr_nil in Hv. by apply wp_bind, (wp_ldb _ _ _ _ Hv), wp_ret. }
  pose proof Hv as Hcv. apply cstr_cons in Hcv as [(Hc & _ & H0) _]. apply wp_bind, (wp_ldb _ _ _ _ Hc).
  rewrite (proj2 (Z.eqb_neq c 0) H0). apply wp_bind.
  eapply wp_mono; [|apply (wp_skip_loop m seps q false _ (c :: v) _ Hq Hv (cstr_fuel _ _ _ Hv))].
  rewrite (span_ext _ (negb ∘ isin q)) by (intros x; unfold compose; by destruct (isin q x)). intros tail m' [-> ->].
  pose proof (span_app (negb ∘ isin q) (c :: v)) as Happ. destruct (span _ (c :: v)) as [w v']. cbn [fst snd] in *.
  rewrite <- Happ in Hv. pose proof (cstr_app _ _ _ _ Hv) as Hv'. destruct v' as [|d v'].
  { apply cstr_nil in Hv'. by apply wp_bind, (wp_ldb _ _ _ _ Hv'), wp_ret. }
  apply cstr_cons in Hv' as [(Hd & _ & Hd0) _]. apply wp_bind, (wp_ldb _ _ _ _ Hd).
  rewrite (proj2 (Z.eqb_neq d 0) Hd0). apply wp_bind, wp_stb_byte; [by eexists|done|]. by apply wp_ret.
Qed.

Lemma span_stop P l d v : (span P l).2 = d :: v → P d = false.
Proof.
  induction l as [|x l IH]; simpl; [done|]. destruct (P x) eqn:E; [|simpl; congruence].
  by destruct (span P l).
Qed.

Lemma cstr_insert_other m a s k x : cstr m a s → k < a ∨ a + Z.of_nat (length s) < k → cstr (<[k := x]> m) a s.
Proof. intros H Hk. apply (cstr_put_other m k [x] a s H). simpl. lia. Qed.

(** Cutting a string in two. *)
Lemma cstr_cut m a s1 d s2 :
  cstr m a (s1 ++ d :: s2) → cstr (<[a + Z.of_nat (length s1) := 0]> m) a s1.
Proof.
  intros [H1 H2]. apply Forall_app in H2 as [? _]. split; [|done]. rewrite <- (assoc_L (++)) in H1.
  apply here_app in H1 as [H1 _]. apply here_app. split.
  - intros i x Hi. pose proof (lookup_lt_Some _ _ _ Hi). rewrite lookup_insert_ne by lia. by apply H1.
  - apply here_cons. split; [by rewrite lookup_insert_eq|apply here_nil].
Qed.

(** What a call of [strtok_r] gives in terms of the words that are left. *)
Lemma token_words q m m' a s h ctx :
  cstr m a s → token q m m' a s (h, ctx) →
  (∀ k, ¬ (a <= k < a + Z.of_nat (length s)) → m' !! k = m !! k) ∧
  match h with
  | None => words (isin q) s = []
  | Some h => ∃ w rest,
      words (isin q) s = w :: words (isin q) rest ∧ cstr m' h w ∧ a <= h ∧
      match ctx with
      | None => rest = []
      | Some a' => cstr m' a' rest ∧ h + Z.of_nat (length w) < a' ∧
                   a' + Z.of_nat (length rest) = a + Z.of_nat (length s)
      end
  end.
Proof.
  unfold token, sep_span, word_span. intros Hs Ht. rewrite words_skip.
  pose proof (span_app (isin q) s) as Hu. pose proof (span_stop (isin q) s) as Hstop.
  destruct (span (isin q) s) as [u v]. cbn [fst snd] in *. subst s.
  pose proof (cstr_app _ _ _ _ Hs) as Hv. rewrite length_app. destruct v as [|c v].
  { destruct Ht as [[= -> ->] ->]. done. }
  rewrite words_word by (by apply (Hstop c v)).
  pose proof (span_app (negb ∘ isin q) (c :: v)) as Hw. pose proof (span_stop (negb ∘ isin q) (c :: v)) as Hstop'.
  destruct (span _ (c :: v)) as [w v']. cbn [fst snd] in *. rewrite <- Hw in Hv |- *. rewrite length_app.
  destruct v' as [|d v'].
  { destruct Ht as [[= -> ->] ->]. split; [done|]. exists w, []. rewrite app_nil_r in Hv. split_and!; try done. lia. }
  destruct Ht as [[= -> ->] ->]. cbn [length]. split; [intros k Hk; rewrite lookup_insert_ne by lia; done|].
  exists w, v'. pose proof (Hstop' d v' eq_refl) as Hd. unfold compose in Hd.
  cbn [words]. destruct (isin q d); [|done]. split_and!; [done|by eapply cstr_cut|lia| |lia|lia].
  apply cstr_insert_other; [|lia]. apply cstr_app, cstr_cons in Hv as [_ Hv]. done.
Qed.

(** C18: [memmove] copies a block of memory, whatever the distance of the two blocks and their
    alignment: for any bytes [l] at [src] and memory at [dst], it returns [dst] with the bytes [l]
    at [dst], every other byte unchanged.  The copy by words, upwards or downwards, is thus the same
    as reading the whole block first and then writing it, also where the blocks overlap. *)
Theorem memmove_correct (m : memory) (dst src : Z) (l : list Z) :
  here m src l → mapped m dst (length l) → Forall byte l →
  memmove dst src (Z.of_nat (length l)) m = Done (dst, put_at m dst l).
Proof.
  intros Hs Hd Hb. destruct (proj1 (wp_done _ _ _) (wp_memmove m dst src l Hs Hd Hb)) as (r & m' & Hrun & -> & ->).
  exact Hrun.
Qed.

Lemma mapped_check m a n :
  forallb (λ i, if m !! (a + i) is Some _ then true else false) (seqZ 0 (Z.of_nat n)) = true → mapped m a n.
Proof.
  intros H i Hi. apply forallb_forall with (x := i) in H; [by destruct (m !! (a + i))|].
  apply list_elem_of_In, elem_of_seqZ. lia.
Qed.

Definition demo_memory : memory := put_at ∅ 100 [1; 2; 3; 4; 5; 6; 7; 8; 9; 10; 11; 12].

Lemma memmove_correct_witness :
  memmove 104 100 8 demo_memory = Done (104, put_at demo_memory 104 [1; 2; 3; 4; 5; 6; 7; 8]) ∧
  memmove 101 103 5 demo_memory = Done (101, put_at demo_memory 101 [4; 5; 6; 7; 8]).
Proof.
  split.
  - apply (memmove_correct demo_memory 104 100 [1; 2; 3; 4; 5; 6; 7; 8]).
    + do 8 (apply here_cons; split; [by vm_compute|]). apply here_nil.
    + by apply mapped_check.
    + by repeat constructor.
  - apply (memmove_correct demo_memory 101 103 [4; 5; 6; 7; 8]).
    + do 5 (apply here_cons; split; [by vm_compute|]). apply here_nil.
    + by apply mapped_check.
    + by repeat constructor.
Defined.

End CString.
