(* ===== verification/Menu.v ===== *)
(** * Commands of the kernel menu (kern/main/menu.c)

    A command line is split into words, in place, with [strtok_r], and the first word selects the
    command.  The functions that the table names are an argument. *)

From Stdlib Require Import ZArith Lia.
From stdpp Require Import base numbers list gmap.
From S2P Require Import Prelude CString.

Open Scope Z_scope.

Module Menu.
Import CString.

Definition MAXMENUARGS : Z := 16.

(** An entry of [cmdtable]: the address of the name, and the function. *)
Record cmdentry := mkEntry { name : Z; func : list Z → M memory Z }.

(** The loop that collects the words; [args] are the words so far. *)
Fixpoint words_loop (fuel : nat) (seps : Z) (args : list Z) (word context : option Z)
  : M memory (result (list Z)) :=
  match fuel with
  | O => panic
  | S fuel' =>
      match word with
      | None => mret (Ok args)
      | Some word =>
          if Z.of_nat (length args) >=? MAXMENUARGS then mret (Err E2BIG) else
          '(next, context) ← strtok_r None seps context;
          words_loop fuel' seps (args ++ [word]) next context
      end
  end.

Definition collect_words (seps cmd : Z) : M memory (result (list Z)) :=
  '(word, context) ← strtok_r (Some cmd) seps None;
  words_loop (S (S (Z.to_nat MAXMENUARGS))) seps [] word context.

Fixpoint find_command (table : list cmdentry) (word : Z) : M memory (option cmdentry) :=
  match table with
  | [] => mret None
  | e :: table' =>
      c ← ldb (name e);
      hit ← (if c =? 0 then mret false else r ← strcmp word (name e); mret (r =? 0));
      if (hit : bool) then mret (Some e) else find_command table' word
  end.

(** [seps] is the address of the string constant with a blank and a tab.  What is
    printed and the time taken are left out. *)
Definition cmd_dispatch (table : list cmdentry) (seps cmd : Z) : M memory Z :=
  r ← collect_words seps cmd;
  match r with
  | Err e => mret e
  | Ok [] => mret 0
  | Ok (word :: args) =>
      o ← find_command table word;
      match o with
      | Some e => func e (word :: args)
      | None => mret EINVAL
      end
  end.

(** ** The words *)

Section words.
Context (seps : Z) (q : list Z).

(** Words that have been found: strings that end before [lim]. *)
Definition found (m : memory) (ps : list Z) (ws : list (list Z)) : Prop :=
  Forall2 (λ p w, cstr m p w) ps ws.

(** The strings before [lim]. *)
Definition below (lim : Z) (ps : list Z) (ws : list (list Z)) : Prop :=
  Forall2 (λ p w, p + Z.of_nat (length w) < lim) ps ws.

Definition apart (a : Z) (n : nat) : Prop :=
  seps + Z.of_nat (length q) < a ∨ a + Z.of_nat n <= seps.

Definition unchanged (a : Z) (n : nat) (m m' : memory) : Prop :=
  ∀ k, ¬ (a <= k < a + Z.of_nat n) → m' !! k = m !! k.

Lemma cstr_unchanged a n m m' p w :
  unchanged a n m m' → cstr m p w → p + Z.of_nat (length w) < a ∨ a + Z.of_nat n <= p → cstr m' p w.
Proof.
  intros Hu [H1 H2] Hd. split; [|done]. intros i x Hi. pose proof (lookup_lt_Some _ _ _ Hi) as Hl.
  rewrite length_app in Hl. simpl in Hl. rewrite Hu by lia. by apply H1.
Qed.

Lemma found_unchanged a n m m' ps ws :
  unchanged a n m m' → found m ps ws → below a ps ws → found m' ps ws.
Proof.
  intros Hu Hf. induction Hf as [|p w ps ws Hp Hf IH]; intros Hb; [constructor|].
  apply Forall2_cons in Hb as [? Hb]. constructor; [|by apply IH]. eapply cstr_unchanged; eauto.
Qed.

Lemma untouched_trans a n m1 m2 m3 : unchanged a n m1 m2 → unchanged a n m2 m3 → unchanged a n m1 m3.
Proof. intros H1 H2 k Hk. by rewrite H2, H1. Qed.

(** The word that the last call of [strtok_r] has returned, and what is left behind
    it; [todo] are the words still to collect. *)
Definition pending (m : memory) (a : Z) (n : nat) (ps : list Z) (ws : list (list Z))
    (word context : option Z) (todo : list (list Z)) : Prop :=
  match word with
  | None => todo = []
  | Some p => ∃ w rest, todo = w :: words (isin q) rest ∧ cstr m p w ∧
      match context with
      | None => rest = []
      | Some a' => cstr m a' rest ∧ below a' (ps ++ [p]) (ws ++ [w]) ∧ a <= a' ∧
                   a' + Z.of_nat (length rest) = a + Z.of_nat n
      end
  end.

Definition collected (m : memory) (a : Z) (n : nat) (ws : list (list Z)) (r : result (list Z)) (m' : memory) : Prop :=
  unchanged a n m m' ∧
  match r with
  | Ok args => found m' args ws ∧ Z.of_nat (length ws) <= MAXMENUARGS
  | Err e => e = E2BIG ∧ MAXMENUARGS < Z.of_nat (length ws)
  end.

(** The next call of [strtok_r]. *)
Lemma wp_next m a n ps ws p context w rest :
  cstr m seps q → apart a n → found m ps ws → cstr m p w → (context = None → rest = []) →
  (∀ a', context = Some a' → cstr m a' rest ∧ below a' (ps ++ [p]) (ws ++ [w]) ∧ a <= a' ∧
     a' + Z.of_nat (length rest) = a + Z.of_nat n) →
  wp (strtok_r None seps context) (λ '(h, ctx) m',
    unchanged a n m m' ∧ found m' (ps ++ [p]) (ws ++ [w]) ∧ cstr m' seps q ∧
    pending m' a n (ps ++ [p]) (ws ++ [w]) h ctx (words (isin q) rest)) m.
Proof.
  intros Hq Hap Hf Hp Hnone Hsome. assert (found m (ps ++ [p]) (ws ++ [w])) as Hf'.
  { apply Forall2_app; [done|]. by constructor. }
  destruct context as [a'|].
  2:{ apply wp_ret. rewrite Hnone by done. done. }
  destruct (Hsome a' eq_refl) as (Hr & Hb & Ha & Hlen).
  eapply wp_mono; [|apply (wp_strtok_r m None seps q (Some a') a' rest Hq Hr eq_refl)].
  intros [h ctx] m' Ht. destruct (token_words _ _ _ _ _ _ _ Hr Ht) as [Hu Hh].
  assert (unchanged a' (length rest) m m') as Hu' by exact Hu.
  assert (found m' (ps ++ [p]) (ws ++ [w])) as Hf2 by (by eapply found_unchanged).
  split_and!; [intros k Hk; apply Hu; lia|done| |].
  - eapply cstr_unchanged; [exact Hu'|done|]. unfold apart in Hap. lia.
  - destruct h as [h|]; [|done]. destruct Hh as (w' & rest' & Hw & Hc & Hh & Hctx). exists w', rest'.
    split_and!; [done|done|]. destruct ctx as [a2|]; [|done]. destruct Hctx as (Hc2 & Hlt & Heq).
    split_and!; [done| |lia|lia]. apply Forall2_app; [|by constructor].
    eapply Forall2_impl; [exact Hb|]. intros x y ?. simpl in *. lia.
Qed.

Lemma wp_words_loop fuel m a n ps ws word context todo :
  cstr m seps q → apart a n → found m ps ws → pending m a n ps ws word context todo →
  Z.of_nat (length ps) <= MAXMENUARGS → MAXMENUARGS - Z.of_nat (length ps) + 1 < Z.of_nat fuel →
  wp (words_loop fuel seps ps word context) (collected m a n (ws ++ todo)) m.
Proof.
  revert m ps ws word context todo. induction fuel as [|fuel IH]; intros m ps ws word context todo Hq Hap Hf Hp Hle Hfuel; [lia|].
  pose proof (Forall2_length _ _ _ Hf) as Hlen. cbn [words_loop]. destruct word as [p|].
  2:{ apply wp_ret. simpl in Hp. subst todo. rewrite app_nil_r. split_and!; [done|done|lia]. }
  destruct Hp as (w & rest & -> & Hp & Hctx).
  destruct (Z.geb_spec (Z.of_nat (length ps)) MAXMENUARGS).
  { apply wp_ret. split_and!; [done|done|]. rewrite length_app. simpl. lia. }
  apply wp_bind. eapply wp_mono; [|apply (wp_next m a n ps ws p context w rest); try done].
  - intros [h ctx] m' (Hu & Hf' & Hq' & Hp'). replace (ws ++ w :: words (isin q) rest) with ((ws ++ [w]) ++ words (isin q) rest)
      by (by rewrite <- (assoc_L (++))).
    eapply wp_mono; [|apply (IH m' (ps ++ [p]) (ws ++ [w])); try done; rewrite length_app; simpl; lia].
    intros r m'' [Hu' Hr]. split; [by eapply untouched_trans|done].
  - by intros ->.
  - by intros a' ->.
Qed.

Lemma wp_collect_words m cmd s :
  cstr m seps q → apart cmd (length s) → cstr m cmd s →
  wp (collect_words seps cmd) (collected m cmd (length s) (words (isin q) s)) m.
Proof.
  intros Hq Hap Hs. apply wp_bind. eapply wp_mono; [|by apply (wp_strtok_r m (Some cmd) seps q None cmd s)].
  intros [h ctx] m' Ht. destruct (token_words _ _ _ _ _ _ _ Hs Ht) as [Hu Hh].
  assert (unchanged cmd (length s) m m') as Hu' by exact Hu.
  eapply wp_mono; [|apply (wp_words_loop _ m' cmd (length s) [] [] h ctx (words (isin q) s))].
  - intros r m'' [Hu2 Hr]. split; [by eapply untouched_trans|done].
  - eapply cstr_unchanged; [exact Hu'|done|]. unfold apart in Hap. lia.
  - done.
  - constructor.
  - destruct h as [h|]; [|done]. destruct Hh as (w & rest & Hw & Hc & Hh & Hctx). exists w, rest.
    split_and!; [done|done|]. destruct ctx as [a'|]; [|done]. destruct Hctx as (? & ? & ?).
    split_and!; [done|by repeat constructor|lia|lia].
  - done.
  - unfold MAXMENUARGS. simpl. lia.
Qed.
End words.

(** ** The command *)

(** The entry that is selected: the first whose name is the word; an empty name
    never is.  [names] are the strings that the names point to. *)
Fixpoint select (table : list cmdentry) (names : list (list Z)) (word : list Z) : option cmdentry :=
  match table, names with
  | e :: table', n :: names' =>
      if bool_decide (n ≠ []) && bool_decide (word = n) then Some e else select table' names' word
  | _, _ => None
  end.

Lemma wp_find_command m table names p w :
  Forall2 (λ e n, cstr m (name e) n) table names → cstr m p w →
  wp (find_command table p) (λ r m', r = select table names w ∧ m' = m) m.
Proof.
  intros Ht Hw. induction Ht as [|e n table names Hn Ht IH]; cbn [find_command select]; [by apply wp_ret|].
  destruct n as [|c n].
  - pose proof Hn as Hc. apply cstr_nil in Hc. apply wp_bind, (wp_ldb _ _ _ _ Hc). rewrite Z.eqb_refl.
    by apply wp_bind, wp_ret, IH.
  - pose proof Hn as Hc. apply cstr_cons in Hc as [(Hc & _ & H0) _]. apply wp_bind, (wp_ldb _ _ _ _ Hc).
    rewrite (proj2 (Z.eqb_neq c 0) H0). apply wp_bind, wp_bind. eapply wp_mono; [|by apply (wp_strcmp m p (name e) w (c :: n))].
    intros r m' [-> ->]. apply wp_ret. rewrite (bool_decide_eq_true_2 (c :: n ≠ [])) by done. cbn [andb].
    destruct (Z.eqb_spec (lexcmp w (c :: n)) 0) as [E|E].
    + rewrite bool_decide_eq_true_2 by (by apply lexcmp_eq). by apply wp_ret.
    + rewrite bool_decide_eq_false_2; [exact IH|]. intros ->. apply E. apply lexcmp_refl.
Qed.

(** C19: [cmd_dispatch] splits a command line into its words and calls the command that the first
    one names.  The words are what stands between the separators, wherever these are; the
    strings passed to the command are these words, in order.  A line without words succeeds, one
    with more than 16 words fails with E2BIG, and an unknown command with EINVAL.  Only the
    command line itself is written to.  Calling [strtok_r] again and again on a string thus
    yields its words. *)
Theorem cmd_dispatch_correct (table : list cmdentry) (names : list (list Z)) (m : memory) (seps cmd : Z) (q s : list Z) :
  cstr m seps q → cstr m cmd s → apart seps q cmd (length s) →
  Forall2 (λ e n, cstr m (name e) n ∧ apart (name e) n cmd (length s)) table names →
  ∃ m' args,
    (∀ k, ¬ (cmd <= k < cmd + Z.of_nat (length s)) → m' !! k = m !! k) ∧
    (Z.of_nat (length (words (isin q) s)) <= MAXMENUARGS → Forall2 (λ p w, cstr m' p w) args (words (isin q) s)) ∧
    cmd_dispatch table seps cmd m =
      if decide (MAXMENUARGS < Z.of_nat (length (words (isin q) s))) then Done (E2BIG, m') else
      match words (isin q) s with
      | [] => Done (0, m')
      | word :: _ => match select table names word with
                     | Some e => func e args m'
                     | None => Done (EINVAL, m')
                     end
      end.
Proof.
  intros Hq Hs Hap Ht.
  destruct (proj1 (wp_done _ _ _) (wp_collect_words seps q m cmd s Hq Hap Hs)) as (r & m' & Hrun & Hu & Hr).
  assert (∀ (k : result (list Z) → M memory Z), (collect_words seps cmd ≫= k) m = k r m') as Hbind.
  { intros k. unfold mbind, M_bind. by rewrite Hrun. }
  unfold cmd_dispatch. rewrite Hbind. destruct r as [args|e].
  - destruct Hr as [Hf Hle]. exists m', args. split_and!; [exact Hu|done|]. rewrite decide_False by lia.
    destruct Hf as [|p w ps ws Hp Hf]; [done|].
    assert (Forall2 (λ e n, cstr m' (name e) n) table names) as Ht'.
    { eapply Forall2_impl; [exact Ht|]. intros e n [Hn Ha]. eapply cstr_unchanged; [exact Hu|done|]. unfold apart in Ha. lia. }
    destruct (proj1 (wp_done _ _ _) (wp_find_command m' table names p w Ht' Hp)) as (o & m2 & Hfind & -> & ->).
    unfold mbind, M_bind. rewrite Hfind. by destruct (select table names w).
  - destruct Hr as [-> Hlt]. exists m', []. split_and!; [exact Hu|lia|]. by rewrite decide_True by lia.
Qed.

(** The line "ls  -a" at 100, the separators at 200, and a table with the command "ls" at 300. *)
Definition demo_line : list Z := [32; 108; 115; 32; 9; 45; 97].
Definition demo_menu : memory :=
  put_at (put_at (put_at ∅ 100 (demo_line ++ [0])) 200 [32; 9; 0]) 300 [108; 115; 0].

Lemma cstr_check m a s :
  forallb (λ '(i, x), bool_decide (m !! (a + Z.of_nat i) = Some x)) (zip (seq 0 (S (length s))) (s ++ [0])) = true →
  forallb (λ c, (0 <? c) && (c <? 256)) s = true → cstr m a s.
Proof.
  intros H1 H2. split.
  - intros i x Hi. rewrite forallb_forall in H1.
    specialize (H1 (i, x)). apply bool_decide_eq_true in H1; [done|].
    apply list_elem_of_In, list_elem_of_lookup. exists i. apply lookup_zip_Some. split; [|done].
    apply lookup_seq. apply lookup_lt_Some in Hi. rewrite length_app in Hi. simpl in Hi. lia.
  - apply Forall_forall. intros c Hc. rewrite forallb_forall in H2.
    specialize (H2 c ltac:(by apply list_elem_of_In)). unfold byte. lia.
Qed.

Lemma cmd_dispatch_correct_witness :
  let table := [mkEntry 300 (λ args, mret (Z.of_nat (length args)))] in
  words (isin [32; 9]) demo_line = [[108; 115]; [45; 97]] ∧
  ∃ m', cmd_dispatch table 200 100 demo_menu = Done (2, m').
Proof.
  intros table. split; [reflexivity|].
  destruct (cmd_dispatch_correct table [[108; 115]] demo_menu 200 100 [32; 9] demo_line)
    as (m' & args & _ & Hargs & Hrun).
  - apply cstr_check; reflexivity.
  - apply cstr_check; reflexivity.
  - right. vm_compute. discriminate.
  - constructor; [|constructor]. split; [apply cstr_check; reflexivity|]. right. vm_compute. discriminate.
  - exists m'. rewrite Hrun. rewrite decide_False by (vm_compute; discriminate).
    specialize (Hargs ltac:(vm_compute; discriminate)). apply Forall2_length in Hargs.
    change (length (words (isin [32; 9]) demo_line)) with 2%nat in Hargs.
    change (words (isin [32; 9]) demo_line) with [[108; 115]; [45; 97]].
    simpl. unfold mret, M_ret. by rewrite Hargs.
Defined.

End Menu.
