(* ===== verification/UMalloc.v ===== *)
(** * The user-level heap (userland/lib/libc/stdlib/malloc.c)

    The first-fit allocator of the C library, on the memory of a process: the words of its heap,
    which [sbrk] extends.  Every block has a header of two words with bit fields: how far the
    headers of the previous and of the next block are, and whether the block is in use.  The
    proofs view the heap as a list of blocks, those in use with their contents. *)

From Stdlib Require Import ZArith Lia.
From stdpp Require Import base numbers list gmap.
From S2P Require Import Prelude.

Open Scope Z_scope.

Module UMalloc.

(** The memory of the heap, word by word; the variables of malloc.c; and the bounds
    of the heap in the kernel's address space structure. *)
Record ustate := mkU {
  words : gmap Z Z;
  heapbase : Z; heaptop : Z;
  heap_start : Z; heap_end : Z; stack_base : Z }.

Definition set_words w s := mkU w (heapbase s) (heaptop s) (heap_start s) (heap_end s) (stack_base s).
Definition set_bounds b t s := mkU (words s) b t (heap_start s) (heap_end s) (stack_base s).
Definition set_end e s := mkU (words s) (heapbase s) (heaptop s) (heap_start s) e (stack_base s).

Definition u32 (x : Z) : Z := x mod 2 ^ 32.

(** Words are at multiples of four. *)
Definition ld (a : Z) : M ustate Z := o ← gets (λ s, words s !! a); deref o.
Definition st (a v : Z) : M ustate unit := _ ← ld a; modify (λ s, set_words (<[a := v]> (words s)) s).

(** ** The header: mh_prevblock:29, mh_pad:1, mh_magic1:2; mh_nextblock:29, mh_inuse:1, mh_magic2:2 *)

Definition MBLOCKSIZE : Z := 8.
Definition MBLOCKSHIFT : Z := 3.
Definition MMAGIC : Z := 2.
Definition PAGE_SIZE : Z := 4096.

Definition mh_prevblock (mh : Z) : M ustate Z := w ← ld mh; mret (w / 8).
Definition mh_magic1 (mh : Z) : M ustate Z := w ← ld mh; mret (w mod 4).
Definition mh_nextblock (mh : Z) : M ustate Z := w ← ld (mh + 4); mret (w / 8).
Definition mh_inuse (mh : Z) : M ustate bool := w ← ld (mh + 4); mret (negb (w / 4 mod 2 =? 0)).
Definition mh_magic2 (mh : Z) : M ustate Z := w ← ld (mh + 4); mret (w mod 4).

Definition set_prevblock (mh v : Z) : M ustate unit := w ← ld mh; st mh (v mod 2 ^ 29 * 8 + w mod 8).
Definition set_pad (mh v : Z) : M ustate unit := w ← ld mh; st mh (w / 8 * 8 + v * 4 + w mod 4).
Definition set_magic1 (mh v : Z) : M ustate unit := w ← ld mh; st mh (w / 4 * 4 + v).
Definition set_nextblock (mh v : Z) : M ustate unit := w ← ld (mh + 4); st (mh + 4) (v mod 2 ^ 29 * 8 + w mod 8).
Definition set_inuse (mh v : Z) : M ustate unit := w ← ld (mh + 4); st (mh + 4) (w / 8 * 8 + v * 4 + w mod 4).
Definition set_magic2 (mh v : Z) : M ustate unit := w ← ld (mh + 4); st (mh + 4) (w / 4 * 4 + v).

Definition M_NEXTOFF (mh : Z) : M ustate Z := n ← mh_nextblock mh; mret (u32 (Z.shiftl n MBLOCKSHIFT)).
Definition M_PREVOFF (mh : Z) : M ustate Z := n ← mh_prevblock mh; mret (u32 (Z.shiftl n MBLOCKSHIFT)).
Definition M_NEXT (mh : Z) : M ustate Z := o ← M_NEXTOFF mh; mret (u32 (mh + o)).
Definition M_PREV (mh : Z) : M ustate Z := o ← M_PREVOFF mh; mret (u32 (mh - o)).
Definition M_DATA (mh : Z) : Z := mh + MBLOCKSIZE.
Definition M_SIZE (mh : Z) : M ustate Z := o ← M_NEXTOFF mh; mret (u32 (o - MBLOCKSIZE)).
Definition M_OK (mh : Z) : M ustate bool :=
  a ← mh_magic1 mh; b ← mh_magic2 mh; mret ((a =? MMAGIC) && (b =? MMAGIC)).
Definition M_MKFIELD (off : Z) : Z := Z.shiftr off MBLOCKSHIFT.

(** ** The break *)

(** New memory is zero. *)
Fixpoint zero_words (n : nat) (a : Z) (w : gmap Z Z) : gmap Z Z :=
  match n with O => w | S n' => <[a := 0]> (zero_words n' (a + 4) w) end.

(** [sbrk] as the kernel has it ([sys_sbrk]); the argument is signed, and [None] is
    (void * )-1.  To take the break down below address 0 is a panic of the kernel. *)
Definition sbrk (change : Z) : M ustate (option Z) :=
  s ← get;
  let old := heap_end s in
  let amount := if change <? 2 ^ 31 then change else change - 2 ^ 32 in
  let new := u32 (old + amount) in
  if amount =? 0 then mret (Some old) else
  if amount <? 0 then
    if new <? heap_start s then mret None else
    KASSERT (new <? old) ;;
    modify (λ s, set_words (filter (λ '(a, _), a < new) (words s)) (set_end new s)) ;;
    mret (Some old)
  else
    let new_top := u32 ((new + PAGE_SIZE - 1) / PAGE_SIZE * PAGE_SIZE) in
    if new_top >=? stack_base s then mret None else
    modify (λ s, set_words (zero_words (Z.to_nat (amount / 4)) old (words s)) (set_end new s)) ;;
    mret (Some old).

(** ** malloc *)

(** [errx] and [err] end the program: a panic. *)
Definition malloc_init : M ustate unit :=
  s ← get;
  KASSERT ((heapbase s =? 0) && (heaptop s =? 0)) ;;
  x ← sbrk 0;
  x ← deref x;
  KASSERT (negb (x =? 0)) ;;
  modify (set_bounds x x) ;;
  if negb (x mod MBLOCKSIZE =? 0) then
    let adjust := MBLOCKSIZE - x mod MBLOCKSIZE in
    y ← sbrk adjust;
    y ← deref y;
    KASSERT (y =? x) ;;
    modify (set_bounds (x + adjust) (x + adjust))
  else mret tt.

Definition malloc_sbrk (size : Z) : M ustate (option Z) :=
  x ← sbrk size;
  match x with
  | None => mret None
  | Some x =>
      s ← get;
      KASSERT (x =? heaptop s) ;;
      modify (set_bounds (heapbase s) (u32 (heaptop s + size))) ;;
      mret (Some x)
  end.

Definition malloc_split (mh size : Z) : M ustate unit :=
  KASSERT (size mod MBLOCKSIZE =? 0) ;;
  msize ← M_SIZE mh;
  if u32 (msize - size) <? 2 * MBLOCKSIZE then mret tt else
  mhnext ← M_NEXT mh;
  set_nextblock mh (M_MKFIELD (u32 (size + MBLOCKSIZE))) ;;
  mhnew ← M_NEXT mh;
  KASSERT (negb (mhnew =? mhnext)) ;;
  set_prevblock mhnew (M_MKFIELD (u32 (size + MBLOCKSIZE))) ;;
  set_pad mhnew 0 ;;
  set_magic1 mhnew MMAGIC ;;
  set_nextblock mhnew (M_MKFIELD (u32 (msize - size))) ;;
  set_inuse mhnew 0 ;;
  set_magic2 mhnew MMAGIC ;;
  top ← gets heaptop;
  if mhnext =? top then mret tt else
  n ← mh_nextblock mhnew;
  set_prevblock mhnext n.

(** The search: the pointer to return, or the last header and [rightprevblock]. *)
Fixpoint search (fuel : nat) (i : Z) (mh : option Z) (rightprevblock size : Z)
  : M ustate (Z + option Z * Z) :=
  match fuel with
  | O => panic
  | S fuel' =>
      top ← gets heaptop;
      if i <? top then
        ok ← M_OK i;
        KASSERT ok ;;
        p ← mh_prevblock i;
        KASSERT (p =? rightprevblock) ;;
        next ← mh_nextblock i;
        used ← mh_inuse i;
        msize ← M_SIZE i;
        if (used : bool) || (msize <? size) then
          o ← M_NEXTOFF i;
          search fuel' (u32 (i + o)) (Some i) next size
        else
          malloc_split i size ;;
          set_inuse i 1 ;;
          mret (inl (M_DATA i))
      else
        KASSERT (i =? top) ;;
        mret (inr (mh, rightprevblock))
  end.

(** From "Didn't find anything" on; [mh] is the last header. *)
Definition expand (mh : option Z) (rightprevblock size : Z) : M ustate (option Z) :=
  reuse ← match mh with
          | None => mret None
          | Some mh => used ← mh_inuse mh; mret (if (used : bool) then None else Some mh)
          end;
  morespace ← match reuse with
              | Some mh =>
                  msize ← M_SIZE mh;
                  KASSERT (size >? msize) ;;
                  mret (u32 (size - msize))
              | None => mret (u32 (MBLOCKSIZE + size))
              end;
  let morespace := u32 (PAGE_SIZE * (u32 (morespace + PAGE_SIZE - 1) / PAGE_SIZE)) in
  p ← malloc_sbrk morespace;
  match p with
  | None => mret None
  | Some p =>
      mh ← match reuse with
           | Some mh =>
               o ← M_NEXTOFF mh;
               set_nextblock mh (M_MKFIELD (u32 (o + morespace))) ;;
               set_inuse mh 1 ;;
               mret mh
           | None =>
               set_prevblock p rightprevblock ;;
               set_magic1 p MMAGIC ;;
               set_magic2 p MMAGIC ;;
               set_pad p 0 ;;
               set_inuse p 1 ;;
               set_nextblock p (M_MKFIELD morespace) ;;
               mret p
           end;
      malloc_split mh size ;;
      mret (Some (M_DATA mh))
  end.

Definition malloc (size : Z) : M ustate (option Z) :=
  b ← gets heapbase;
  (if b =? 0 then malloc_init else mret tt) ;;
  s ← get;
  KASSERT (negb ((heapbase s =? 0) || (heaptop s =? 0) || (heapbase s >? heaptop s))) ;;
  let size := u32 (size + MBLOCKSIZE - 1) / MBLOCKSIZE * MBLOCKSIZE in
  r ← search (Z.to_nat ((heaptop s - heapbase s) / MBLOCKSIZE + 1)) (heapbase s) None 0 size;
  match r with
  | inl p => mret (Some p)
  | inr (mh, rightprevblock) => expand mh rightprevblock size
  end.

(** ** free *)

Fixpoint malloc_deadbeef (n : nat) (x : Z) : M ustate unit :=
  match n with O => mret tt | S n' => st x 0xdeadbeef ;; malloc_deadbeef n' (x + 4) end.

Definition malloc_trymerge (mh mhnext : Z) : M ustate unit :=
  a ← mh_nextblock mh;
  b ← mh_prevblock mhnext;
  KASSERT (a =? b) ;;
  u ← mh_inuse mh;
  v ← mh_inuse mhnext;
  if (u : bool) || v then mret tt else
  mhnextnext ← M_NEXT mhnext;
  s1 ← M_SIZE mh;
  s2 ← M_SIZE mhnext;
  set_nextblock mh (M_MKFIELD (u32 (MBLOCKSIZE + s1 + MBLOCKSIZE + s2))) ;;
  top ← gets heaptop;
  (if mhnextnext =? top then mret tt else n ← mh_nextblock mh; set_prevblock mhnextnext n) ;;
  malloc_deadbeef 2 mhnext.

(** NULL is [None]. *)
Definition free (x : option Z) : M ustate unit :=
  match x with
  | None => mret tt
  | Some x =>
      s ← get;
      KASSERT (negb ((heapbase s =? 0) || (heaptop s =? 0) || (heapbase s >? heaptop s))) ;;
      KASSERT (negb ((x <? heapbase s) || (x >=? heaptop s))) ;;
      let mh := x - MBLOCKSIZE in
      ok ← M_OK mh;
      KASSERT ok ;;
      u ← mh_inuse mh;
      KASSERT u ;;
      set_inuse mh 0 ;;
      n ← M_SIZE mh;
      malloc_deadbeef (Z.to_nat (n / 4)) (M_DATA mh) ;;
      mhnext ← M_NEXT mh;
      top ← gets heaptop;
      (if mhnext =? top then mret tt else malloc_trymerge mh mhnext) ;;
      base ← gets heapbase;
      if mh =? base then mret tt else
      mhprev ← M_PREV mh;
      malloc_trymerge mhprev mh
  end.

(** ** Headers *)

Lemma set_words_id s : set_words (words s) s = s.
Proof. by destruct s. Qed.

Lemma wp_ld m s a x Q : m !! a = Some x → Q x (set_words m s) → wp (ld a) Q (set_words m s).
Proof. intros H HQ. apply wp_bind, wp_gets. simpl. rewrite H. exact HQ. Qed.

Lemma wp_st m s a v Q : is_Some (m !! a) → Q tt (set_words (<[a := v]> m) s) → wp (st a v) Q (set_words m s).
Proof. intros [x H] HQ. apply wp_bind, (wp_ld m s a x); done. Qed.

Definition flag (u : bool) : Z := if u then 4 else 0.

(** The header of a block at [a]: [n] and [p] are the distances in units of eight
    bytes. *)
Record hdr (m : gmap Z Z) (a p n : Z) (u : bool) : Prop := {
  h_first : m !! a = Some (p * 8 + MMAGIC);
  h_second : m !! (a + 4) = Some (n * 8 + flag u + MMAGIC);
  h_prev : 0 <= p < 2 ^ 29 ∧ 8 * p <= a;
  h_next : 1 <= n;
  h_addr : 0 <= a ∧ a + 8 * n < 2 ^ 31 }.

Lemma fields n u :
  (n * 8 + flag u + MMAGIC) / 8 = n ∧ (n * 8 + flag u + MMAGIC) mod 4 = 2 ∧
  negb ((n * 8 + flag u + MMAGIC) / 4 mod 2 =? 0) = u ∧
  (n * 8 + flag u + MMAGIC) mod 8 = flag u + MMAGIC.
Proof.
  unfold flag, MMAGIC. split_and!; [destruct u; Z.to_euclidean_division_equations; lia..| |destruct u; Z.to_euclidean_division_equations; lia].
  destruct u.
  - replace ((n * 8 + 4 + 2) / 4 mod 2) with 1 by (Z.to_euclidean_division_equations; lia). done.
  - replace ((n * 8 + 0 + 2) / 4 mod 2) with 0 by (Z.to_euclidean_division_equations; lia). done.
Qed.

Lemma field1 p : (p * 8 + MMAGIC) / 8 = p ∧ (p * 8 + MMAGIC) mod 4 = 2 ∧ (p * 8 + MMAGIC) mod 8 = MMAGIC.
Proof. unfold MMAGIC. split_and!; Z.to_euclidean_division_equations; lia. Qed.

Lemma shiftl3 n : Z.shiftl n MBLOCKSHIFT = 8 * n.
Proof. unfold MBLOCKSHIFT. rewrite Z.shiftl_mul_pow2 by lia. lia. Qed.

Lemma shiftr3 n : M_MKFIELD (8 * n) = n.
Proof. unfold M_MKFIELD, MBLOCKSHIFT. rewrite Z.shiftr_div_pow2 by lia. change (2 ^ 3) with 8. rewrite Z.mul_comm. by apply Z.div_mul. Qed.

Section header.
Context (m : gmap Z Z) (s : ustate) (a p n : Z) (u : bool) (H : hdr m a p n u).

Lemma wp_prevblock Q : Q p (set_words m s) → wp (mh_prevblock a) Q (set_words m s).
Proof. intros HQ. destruct H. apply wp_bind, (wp_ld _ _ _ _ _ h_first0), wp_ret. by rewrite (proj1 (field1 p)). Qed.

Lemma wp_nextblock Q : Q n (set_words m s) → wp (mh_nextblock a) Q (set_words m s).
Proof. intros HQ. destruct H. apply wp_bind, (wp_ld _ _ _ _ _ h_second0), wp_ret. by rewrite (proj1 (fields n u)). Qed.

Lemma wp_inuse Q : Q u (set_words m s) → wp (mh_inuse a) Q (set_words m s).
Proof.
  intros HQ. destruct H. apply wp_bind, (wp_ld _ _ _ _ _ h_second0), wp_ret.
  destruct (fields n u) as (_ & _ & -> & _). done.
Qed.

Lemma wp_OK Q : Q true (set_words m s) → wp (M_OK a) Q (set_words m s).
Proof.
  intros HQ. destruct H. apply wp_bind, wp_bind, (wp_ld _ _ _ _ _ h_first0), wp_ret.
  apply wp_bind, wp_bind, (wp_ld _ _ _ _ _ h_second0), wp_ret, wp_ret.
  destruct (fields n u) as (_ & -> & _). destruct (field1 p) as (_ & -> & _). done.
Qed.

Lemma wp_NEXTOFF Q : Q (8 * n) (set_words m s) → wp (M_NEXTOFF a) Q (set_words m s).
Proof.
  intros HQ. apply wp_bind, wp_nextblock, wp_ret. rewrite shiftl3. unfold u32. destruct H.
  by rewrite Z.mod_small by lia.
Qed.

Lemma wp_NEXT Q : Q (a + 8 * n) (set_words m s) → wp (M_NEXT a) Q (set_words m s).
Proof. intros HQ. apply wp_bind, wp_NEXTOFF, wp_ret. unfold u32. destruct H. by rewrite Z.mod_small by lia. Qed.

Lemma wp_SIZE Q : Q (8 * (n - 1)) (set_words m s) → wp (M_SIZE a) Q (set_words m s).
Proof.
  intros HQ. apply wp_bind, wp_NEXTOFF, wp_ret. unfold u32, MBLOCKSIZE. destruct H. rewrite Z.mod_small by lia.
  by replace (8 * n - 8) with (8 * (n - 1)) by lia.
Qed.

Lemma wp_PREV Q : Q (a - 8 * p) (set_words m s) → wp (M_PREV a) Q (set_words m s).
Proof.
  intros HQ. apply wp_bind, wp_bind, wp_prevblock, wp_ret, wp_ret. rewrite shiftl3. unfold u32. destruct H.
  by rewrite !Z.mod_small by (rewrite ?Z.mod_small by lia; lia).
Qed.

Lemma wp_set_nextblock v Q :
  0 <= v < 2 ^ 29 → Q tt (set_words (<[a + 4 := v * 8 + flag u + MMAGIC]> m) s) → wp (set_nextblock a v) Q (set_words m s).
Proof.
  intros Hv HQ. destruct H. apply wp_bind, (wp_ld _ _ _ _ _ h_second0), wp_st; [by eexists|].
  destruct (fields n u) as (_ & _ & _ & ->). rewrite Z.mod_small by done. by rewrite Z.add_assoc.
Qed.

Lemma wp_set_inuse v Q :
  Q tt (set_words (<[a + 4 := n * 8 + flag v + MMAGIC]> m) s) →
  wp (set_inuse a (if v then 1 else 0)) Q (set_words m s).
Proof.
  intros HQ. destruct H. apply wp_bind, (wp_ld _ _ _ _ _ h_second0), wp_st; [by eexists|].
  destruct (fields n u) as (-> & -> & _). by destruct v.
Qed.

Lemma wp_set_prevblock v Q :
  0 <= v < 2 ^ 29 → Q tt (set_words (<[a := v * 8 + MMAGIC]> m) s) → wp (set_prevblock a v) Q (set_words m s).
Proof.
  intros Hv HQ. destruct H. apply wp_bind, (wp_ld _ _ _ _ _ h_first0), wp_st; [by eexists|].
  destruct (field1 p) as (_ & _ & ->). by rewrite Z.mod_small by done.
Qed.
End header.

(** Writing all the fields of a header, in the two orders of the code. *)
Lemma word_filled v f w :
  0 <= v < 2 ^ 29 → f = 0 ∨ f = 1 →
  (let w1 := v mod 2 ^ 29 * 8 + w mod 8 in let w2 := w1 / 8 * 8 + f * 4 + w1 mod 4 in w2 / 4 * 4 + MMAGIC)
    = v * 8 + f * 4 + MMAGIC ∧
  (let w1 := w / 4 * 4 + MMAGIC in let w2 := w1 / 8 * 8 + f * 4 + w1 mod 4 in v mod 2 ^ 29 * 8 + w2 mod 8)
    = v * 8 + f * 4 + MMAGIC ∧
  (let w1 := v mod 2 ^ 29 * 8 + w mod 8 in let w2 := w1 / 4 * 4 + MMAGIC in w2 / 8 * 8 + f * 4 + w2 mod 4)
    = v * 8 + f * 4 + MMAGIC.
Proof.
  intros Hv Hf. cbv zeta. rewrite (Z.mod_small v) by done. unfold MMAGIC.
  destruct Hf as [-> | ->]; split_and!; Z.to_euclidean_division_equations; lia.
Qed.

Lemma wp_new_header {B} m s a p n (k : M ustate B) Q :
  0 <= p < 2 ^ 29 → 0 <= n < 2 ^ 29 → is_Some (m !! a) → is_Some (m !! (a + 4)) →
  wp k Q (set_words (<[a + 4 := n * 8 + flag false + MMAGIC]> (<[a := p * 8 + MMAGIC]> m)) s) →
  wp (set_prevblock a p ;; set_pad a 0 ;; set_magic1 a MMAGIC ;;
      set_nextblock a n ;; set_inuse a 0 ;; set_magic2 a MMAGIC ;; k) Q (set_words m s).
Proof.
  intros Hp Hn [w Hw] [w' Hw'] HQ.
  destruct (word_filled p 0 w Hp ltac:(lia)) as [E1 _]. destruct (word_filled n 0 w' Hn ltac:(lia)) as [E2 _].
  cbv zeta in E1, E2.
  apply wp_bind, wp_bind, (wp_ld _ _ _ _ _ Hw), wp_st; [by eexists|].
  apply wp_bind, wp_bind, wp_ld with (x := p mod 2 ^ 29 * 8 + w mod 8); [by rewrite lookup_insert_eq|].
  apply wp_st; [rewrite lookup_insert_eq; by eexists|]. rewrite insert_insert_eq.
  apply wp_bind, wp_bind. eapply wp_ld; [by rewrite lookup_insert_eq|].
  apply wp_st; [rewrite lookup_insert_eq; by eexists|]. rewrite insert_insert_eq, E1.
  replace (p * 8 + 0 * 4 + MMAGIC) with (p * 8 + MMAGIC) by lia.
  set (m1 := <[a := p * 8 + MMAGIC]> m). assert (m1 !! (a + 4) = Some w') as Hm1 by (unfold m1; rewrite lookup_insert_ne by lia; done).
  apply wp_bind, wp_bind, (wp_ld _ _ _ _ _ Hm1), wp_st; [by eexists|].
  apply wp_bind, wp_bind. eapply wp_ld; [by rewrite lookup_insert_eq|].
  apply wp_st; [rewrite lookup_insert_eq; by eexists|]. rewrite insert_insert_eq.
  apply wp_bind, wp_bind. eapply wp_ld; [by rewrite lookup_insert_eq|].
  apply wp_st; [rewrite lookup_insert_eq; by eexists|]. rewrite insert_insert_eq, E2.
  by replace (n * 8 + 0 * 4 + MMAGIC) with (n * 8 + flag false + MMAGIC) by (unfold flag; lia).
Qed.

Lemma wp_top_header {B} m s a p n (k : M ustate B) Q :
  0 <= p < 2 ^ 29 → 0 <= n < 2 ^ 29 → is_Some (m !! a) → is_Some (m !! (a + 4)) →
  wp k Q (set_words (<[a + 4 := n * 8 + flag true + MMAGIC]> (<[a := p * 8 + MMAGIC]> m)) s) →
  wp (set_prevblock a p ;; set_magic1 a MMAGIC ;; set_magic2 a MMAGIC ;;
      set_pad a 0 ;; set_inuse a 1 ;; set_nextblock a n ;; k) Q (set_words m s).
Proof.
  intros Hp Hn [w Hw] [w' Hw'] HQ.
  destruct (word_filled p 0 w Hp ltac:(lia)) as (_ & _ & E1). destruct (word_filled n 1 w' Hn ltac:(lia)) as (_ & E2 & _).
  cbv zeta in E1, E2.
  apply wp_bind, wp_bind, (wp_ld _ _ _ _ _ Hw), wp_st; [by eexists|].
  apply wp_bind, wp_bind. eapply wp_ld; [by rewrite lookup_insert_eq|].
  apply wp_st; [rewrite lookup_insert_eq; by eexists|]. rewrite insert_insert_eq.
  apply wp_bind, wp_bind. eapply wp_ld; [rewrite lookup_insert_ne by lia; exact Hw'|].
  apply wp_st; [rewrite lookup_insert_ne by lia; by eexists|].
  apply wp_bind, wp_bind. eapply wp_ld; [rewrite lookup_insert_ne by lia; by rewrite lookup_insert_eq|].
  apply wp_st; [rewrite lookup_insert_ne by lia; rewrite lookup_insert_eq; by eexists|].
  rewrite (insert_insert_ne _ a (a + 4)), insert_insert_eq, E1 by lia.
  replace (p * 8 + 0 * 4 + MMAGIC) with (p * 8 + MMAGIC) by lia.
  apply wp_bind, wp_bind. eapply wp_ld; [by rewrite lookup_insert_eq|].
  apply wp_st; [rewrite lookup_insert_eq; by eexists|]. rewrite insert_insert_eq.
  apply wp_bind, wp_bind. eapply wp_ld; [by rewrite lookup_insert_eq|].
  apply wp_st; [rewrite lookup_insert_eq; by eexists|]. rewrite insert_insert_eq, E2.
  by replace (n * 8 + 1 * 4 + MMAGIC) with (n * 8 + flag true + MMAGIC) by (unfold flag; lia).
Qed.

(** ** Splitting a block *)

(** The memory after a block of [n] units at [a] is cut after [k] units of data. *)
Definition split_at (m : gmap Z Z) (a n k top : Z) (u : bool) : gmap Z Z :=
  let m := <[a + 4 := (k + 1) * 8 + flag u + MMAGIC]> m in
  let b := a + 8 * (k + 1) in
  let m := <[b + 4 := (n - 1 - k) * 8 + flag false + MMAGIC]> (<[b := (k + 1) * 8 + MMAGIC]> m) in
  if a + 8 * n =? top then m else <[a + 8 * n := (n - 1 - k) * 8 + MMAGIC]> m.

Definition mapped (m : gmap Z Z) (a b : Z) : Prop := ∀ k, a <= k < b → k mod 4 = 0 → is_Some (m !! k).

Lemma wp_split m s a p n u k :
  hdr m a p n u → a mod 8 = 0 → mapped m a (a + 8 * n) → 0 <= k <= n - 1 →
  (a + 8 * n ≠ heaptop s → ∃ n' u', hdr m (a + 8 * n) n n' u') →
  wp (malloc_split a (8 * k))
    (λ _ s', s' = set_words (if n - 1 - k <? 2 then m else split_at m a n k (heaptop s) u) s) (set_words m s).
Proof.
  intros H Ha Hm Hk Hnext. pose proof (h_addr _ _ _ _ _ H). pose proof (h_next _ _ _ _ _ H).
  apply wp_bind, wp_KASSERT; [apply Z.eqb_eq; unfold MBLOCKSIZE; rewrite Z.mul_comm; apply Z_mod_mult|].
  apply wp_bind, (wp_SIZE m s a p n u H). unfold u32 at 1, MBLOCKSIZE at 1. rewrite Z.mod_small by lia.
  replace (8 * (n - 1) - 8 * k <? 2 * 8) with (n - 1 - k <? 2) by (destruct (Z.ltb_spec (n - 1 - k) 2), (Z.ltb_spec (8 * (n - 1) - 8 * k) (2 * 8)); lia).
  destruct (Z.ltb_spec (n - 1 - k) 2); [by apply wp_ret|].
  apply wp_bind, (wp_NEXT m s a p n u H).
  assert (M_MKFIELD (u32 (8 * k + MBLOCKSIZE)) = k + 1) as ->.
  { unfold u32, MBLOCKSIZE. rewrite Z.mod_small by lia. replace (8 * k + 8) with (8 * (k + 1)) by lia. apply shiftr3. }
  assert (M_MKFIELD (u32 (8 * (n - 1) - 8 * k)) = n - 1 - k) as ->.
  { unfold u32. rewrite Z.mod_small by lia. replace (8 * (n - 1) - 8 * k) with (8 * (n - 1 - k)) by lia. apply shiftr3. }
  apply wp_bind, (wp_set_nextblock m s a p n u H); [lia|].
  set (m1 := <[a + 4 := _]> m). assert (hdr m1 a p (k + 1) u) as Hh1.
  { destruct H. split; try done; try lia; unfold m1; [by rewrite lookup_insert_ne by lia|by rewrite lookup_insert_eq]. }
  apply wp_bind, (wp_NEXT m1 s a p (k + 1) u Hh1), wp_bind, wp_KASSERT.
  { apply negb_true_iff, Z.eqb_neq. lia. }
  set (b := a + 8 * (k + 1)).
  assert (∀ c, c = b ∨ c = b + 4 → is_Some (m1 !! c)) as Hb.
  { intros c Hc. unfold m1. apply lookup_insert_is_Some'. right. apply Hm; [unfold b in *; lia|].
    unfold b in *. Z.to_euclidean_division_equations. lia. }
  apply wp_new_header; [lia|lia|apply Hb; lia|apply Hb; lia|].
  set (m2 := <[b + 4 := _]> _). apply wp_bind, wp_gets. cbn [heaptop set_words].
  unfold split_at. cbv zeta. fold m1. fold b. fold m2.
  destruct (Z.eqb_spec (a + 8 * n) (heaptop s)) as [|Hne]; [by apply wp_ret|].
  destruct (Hnext Hne) as (n' & u' & Hn'). apply wp_bind, (wp_nextblock m2 s b (k + 1) (n - 1 - k) false).
  { split; unfold m2; [by rewrite lookup_insert_ne, lookup_insert_eq by lia|by rewrite lookup_insert_eq|lia|lia|unfold b; lia]. }
  apply (wp_set_prevblock m2 s _ n n' u'); [|lia|done].
  destruct Hn'. split; try done; unfold m2, m1; by rewrite !lookup_insert_ne by (unfold b; lia).
Qed.

End UMalloc.
