(* ===== verification/UMallocHeap.v ===== *)
(** * The user-level heap as a list of blocks

    The headers of UMalloc.v describe a list of blocks, each free or in use with its contents.
    Every operation of malloc.c is described by what it does to this list: a free block is cut,
    marked, or taken over a growing top of the heap; a freed block is merged with its
    neighbours. *)

From Stdlib Require Import ZArith Lia.
From stdpp Require Import base numbers list gmap.
From S2P Require Import Prelude UMalloc.

Open Scope Z_scope.

Module UMallocHeap.
Import UMalloc.

(** ** The heap as a list of blocks *)

(** A block: its length in units of eight bytes, the header included, and its
    contents if it is in use. *)
Notation block := (Z * option (list Z))%type.
Implicit Types (bs l : list block) (m : gmap Z Z).

Definition used (c : option (list Z)) : bool := if c is Some _ then true else false.

Definition contents (m : gmap Z Z) (d n : Z) (c : option (list Z)) : Prop :=
  match c with
  | None => True
  | Some ws => Z.of_nat (length ws) <= 2 * (n - 1) ∧
      ∀ (i : nat) x, ws !! i = Some x → m !! (d + 4 * Z.of_nat i) = Some x
  end.

Fixpoint blocks (m : gmap Z Z) (a p : Z) (bs : list block) : Prop :=
  match bs with
  | [] => True
  | (n, c) :: bs' =>
      m !! a = Some (p * 8 + MMAGIC) ∧ m !! (a + 4) = Some (n * 8 + flag (used c) + MMAGIC) ∧ 1 <= n ∧
      contents m (a + 8) n c ∧ blocks m (a + 8 * n) n bs'
  end.

Fixpoint span (bs : list block) : Z := match bs with [] => 0 | (n, _) :: bs' => n + span bs' end.

(** The length of the last block. *)
Definition lastn (p : Z) (bs : list block) : Z := default p (fst <$> last bs).

Lemma block_span_app l1 l2 : span (l1 ++ l2) = span l1 + span l2.
Proof. induction l1 as [|[n c] l1 IH]; simpl; [done|]. lia. Qed.

Lemma lastn_cons p n c bs : lastn p ((n, c) :: bs) = lastn n bs.
Proof. unfold lastn. destruct bs as [|b bs]; [done|]. by rewrite last_cons_cons; destruct (last (b :: bs)) eqn:E; [|apply last_None in E]. Qed.

Lemma lastn_snoc p n c l : lastn p (l ++ [(n, c)]) = n.
Proof. unfold lastn. by rewrite last_snoc. Qed.

Lemma blocks_app m a p l1 l2 :
  blocks m a p (l1 ++ l2) ↔ blocks m a p l1 ∧ blocks m (a + 8 * span l1) (lastn p l1) l2.
Proof.
  revert a p. induction l1 as [|[n c] l1 IH]; intros a p; simpl.
  - unfold lastn. simpl. rewrite Z.mul_0_r, Z.add_0_r. tauto.
  - rewrite IH, lastn_cons. replace (a + 8 * n + 8 * span l1) with (a + 8 * (n + span l1)) by lia. tauto.
Qed.

Lemma blocks_span m a p bs : blocks m a p bs → 0 <= span bs ∧ (bs ≠ [] → 1 <= span bs).
Proof.
  revert a p. induction bs as [|[n c] bs IH]; intros a p; simpl; [by split|].
  intros (_ & _ & ? & _ & H). apply IH in H as [? _]. lia.
Qed.

Lemma contents_frame m m' d n c :
  (∀ k, d <= k < d + 8 * (n - 1) → m' !! k = m !! k) → contents m d n c → contents m' d n c.
Proof.
  intros Hf. destruct c as [ws|]; [|done]. intros [Hl Hc]. split; [done|]. intros i x Hi.
  pose proof (lookup_lt_Some _ _ _ Hi). rewrite Hf by lia. by apply Hc.
Qed.

Lemma blocks_frame m m' a p bs :
  (∀ k, a <= k < a + 8 * span bs → m' !! k = m !! k) → blocks m a p bs → blocks m' a p bs.
Proof.
  revert a p. induction bs as [|[n c] bs IH]; intros a p Hf; simpl in *; [done|].
  intros (H1 & H2 & Hn & Hc & Hbs). pose proof (blocks_span _ _ _ _ Hbs).
  split_and!; [rewrite Hf by lia; done|rewrite Hf by lia; done|done| |].
  - eapply contents_frame; [|done]. intros k Hk. apply Hf. lia.
  - apply IH; [|done]. intros k Hk. apply Hf. lia.
Qed.

Lemma blocks_prev m a p q bs : blocks m a p bs → blocks (<[a := q * 8 + MMAGIC]> m) a q bs.
Proof.
  destruct bs as [|[n c] bs]; simpl; [done|]. intros (H1 & H2 & Hn & Hc & Hbs).
  split_and!; [by rewrite lookup_insert_eq|rewrite lookup_insert_ne by lia; done|done| |].
  - eapply contents_frame; [|done]. intros k Hk. by rewrite lookup_insert_ne by lia.
  - eapply blocks_frame; [|done]. intros k Hk. by rewrite lookup_insert_ne by lia.
Qed.

Lemma lastn_le m a p l : 0 <= p → blocks m a p l → 0 <= lastn p l <= p + span l ∧ (l ≠ [] → lastn p l <= span l).
Proof.
  revert a p. induction l as [|[n c] l IH]; intros a p Hp H.
  { unfold lastn. simpl. split; [lia|done]. }
  rewrite lastn_cons. simpl in *. destruct H as (_ & _ & Hn & _ & H).
  destruct (IH _ n ltac:(lia) H). lia.
Qed.

(** The header in the middle of the list. *)
Lemma blocks_hdr m a l1 n c l2 :
  blocks m a 0 (l1 ++ (n, c) :: l2) → 0 <= a → a + 8 * span (l1 ++ (n, c) :: l2) < 2 ^ 31 →
  hdr m (a + 8 * span l1) (lastn 0 l1) n (used c).
Proof.
  intros H Ha Hb. apply blocks_app in H as [H1 (Hf & Hs & Hn & _ & H2)].
  rewrite block_span_app in Hb. simpl in Hb. pose proof (blocks_span _ _ _ _ H1). pose proof (blocks_span _ _ _ _ H2).
  destruct (lastn_le m a 0 l1 ltac:(lia) H1). split; [done|done| |done|lia]. destruct l1; simpl in *; lia.
Qed.

(** Changing the state of a block. *)
Lemma blocks_mark m a p l1 n c c' l2 :
  blocks m a p (l1 ++ (n, c) :: l2) → contents m (a + 8 * span l1 + 8) n c' →
  blocks (<[a + 8 * span l1 + 4 := n * 8 + flag (used c') + MMAGIC]> m) a p (l1 ++ (n, c') :: l2).
Proof.
  rewrite !blocks_app. intros [H1 (Hf & Hs & Hn & _ & H2)] Hc'. split.
  - eapply blocks_frame; [|done]. intros k Hk. by rewrite lookup_insert_ne by lia.
  - simpl. split_and!; [by rewrite lookup_insert_ne by lia|by rewrite lookup_insert_eq|done| |].
    + eapply contents_frame; [|done]. intros k Hk. by rewrite lookup_insert_ne by lia.
    + eapply blocks_frame; [|done]. intros k Hk. by rewrite lookup_insert_ne by lia.
Qed.

Definition fits (k : Z) (c : option (list Z)) : Prop := if c is Some ws then Z.of_nat (length ws) <= 2 * k else True.

Lemma blocks_split m a p l1 n c l2 k :
  blocks m a p (l1 ++ (n, c) :: l2) → 0 <= k → 2 <= n - 1 - k → fits k c →
  blocks (split_at m (a + 8 * span l1) n k (a + 8 * span (l1 ++ (n, c) :: l2)) (used c)) a p
    (l1 ++ (k + 1, c) :: (n - 1 - k, None) :: l2).
Proof.
  rewrite !blocks_app. intros [H1 (Hf & Hs & Hn & Hc & H2)] Hk Hn2 Hfit. unfold split_at. cbv zeta.
  rewrite block_span_app. cbn [span]. set (x := a + 8 * span l1) in *.
  replace (x + 8 * n =? a + 8 * (span l1 + (n + span l2))) with (span l2 =? 0)
    by (destruct (Z.eqb_spec (span l2) 0), (Z.eqb_spec (x + 8 * n) (a + 8 * (span l1 + (n + span l2)))); lia).
  set (m1 := <[x + 4 := _]> m). set (m2 := <[_ + 4 := _]> (<[_ := _]> m1)).
  assert (∀ k', k' < x ∨ x + 8 * n <= k' → m2 !! k' = m !! k') as Hout.
  { intros k' Hk'. unfold m2, m1. by rewrite !lookup_insert_ne by lia. }
  assert (∀ m3, (∀ k', k' < x + 8 * n → m3 !! k' = m2 !! k') → blocks m3 (x + 8 * n) (n - 1 - k) l2 →
    blocks m3 a p l1 ∧ blocks m3 x (lastn p l1) ((k + 1, c) :: (n - 1 - k, None) :: l2)) as Hgen.
  { intros m3 H3 Hl2. split; [eapply blocks_frame; [|exact H1]; intros k' Hk'; rewrite H3, Hout by lia; done|].
    cbn [blocks]. replace (x + 8 * (k + 1) + 8 * (n - 1 - k)) with (x + 8 * n) by lia. cbn [used contents].
    split_and!; try done; try lia; rewrite ?H3 by lia; unfold m2, m1.
    - by rewrite !lookup_insert_ne by lia.
    - rewrite !lookup_insert_ne by lia. by rewrite lookup_insert_eq.
    - destruct c as [ws|]; [|done]. destruct Hc as [_ Hc]. simpl in Hfit. split; [lia|]. intros i y Hi.
      pose proof (lookup_lt_Some _ _ _ Hi). rewrite H3 by lia. unfold m2, m1.
      rewrite !lookup_insert_ne by lia. by apply Hc.
    - rewrite lookup_insert_ne by lia. by rewrite lookup_insert_eq.
    - by rewrite lookup_insert_eq. }
  destruct (Z.eqb_spec (span l2) 0) as [E|E].
  - apply Hgen; [done|]. destruct l2; [done|]. pose proof (proj2 (blocks_span _ _ _ _ H2) ltac:(done)). lia.
  - apply Hgen; [intros k' Hk'; by rewrite lookup_insert_ne by lia|].
    eapply (blocks_frame (<[x + 8 * n := (n - 1 - k) * 8 + MMAGIC]> m)); [|by eapply blocks_prev].
    intros k' Hk'. destruct (decide (k' = x + 8 * n)) as [->|]; [by rewrite !lookup_insert_eq|].
    rewrite !(lookup_insert_ne _ (x + 8 * n)) by done. apply Hout. lia.
Qed.

Lemma mapped_insert m a b k x : mapped m a b → mapped (<[k := x]> m) a b.
Proof. intros H j Hj Hm. apply lookup_insert_is_Some'. right. by apply H. Qed.

Lemma mapped_split_at m a b x n k top u : mapped m a b → mapped (split_at m x n k top u) a b.
Proof. intros H. unfold split_at. destruct (_ =? _); by repeat apply mapped_insert. Qed.

Lemma mapped_sub m a b a' b' : mapped m a b → a <= a' → b' <= b → mapped m a' b'.
Proof. intros H ? ? k Hk. apply H. lia. Qed.

(** The words that are at some place. *)
Lemma read_words m d (j : nat) :
  mapped m d (d + 4 * Z.of_nat j) → d mod 4 = 0 →
  ∃ ws : list Z, length ws = j ∧ ∀ (i : nat) x, ws !! i = Some x → m !! (d + 4 * Z.of_nat i) = Some x.
Proof.
  revert d. induction j as [|j IH]; intros d Hm Hd.
  { exists []. split; [done|]. intros i x Hi. by rewrite lookup_nil in Hi. }
  destruct (Hm d ltac:(lia) Hd) as [x Hx].
  destruct (IH (d + 4)) as (ws & Hl & Hws).
  { eapply mapped_sub; [done|lia|lia]. }
  { Z.to_euclidean_division_equations. lia. }
  exists (x :: ws). split; [simpl; lia|]. intros [|i] y Hy; simpl in Hy.
  - simplify_eq. rewrite <- Hx. f_equal. lia.
  - apply Hws in Hy. rewrite <- Hy. f_equal. lia.
Qed.

(** The blocks that a block is cut into. *)
Definition cut (n k : Z) (c : option (list Z)) : list block :=
  if n - 1 - k <? 2 then [(n, c)] else [(k + 1, c); (n - 1 - k, None)].

Lemma span_cut n k c : span (cut n k c) = n.
Proof. unfold cut. destruct (_ <? _); simpl; lia. Qed.

Section heap.
Context (s : ustate).
Local Notation base := (heapbase s).
Local Notation top := (heaptop s).

(** A memory that holds the blocks [bs]. *)
Record holds (m : gmap Z Z) (bs : list block) : Prop := {
  hd_base : 0 < base ∧ base mod 8 = 0;
  hd_top : top = base + 8 * span bs ∧ top < 2 ^ 31;
  hd_mapped : mapped m base top;
  hd_blocks : blocks m base 0 bs }.

Lemma holds_hdr m l1 n c l2 :
  holds m (l1 ++ (n, c) :: l2) → hdr m (base + 8 * span l1) (lastn 0 l1) n (used c).
Proof. intros []. apply (blocks_hdr _ _ _ _ _ l2); [done|lia|lia]. Qed.

Lemma holds_split m l1 n c l2 :
  holds m (l1 ++ (n, c) :: l2) → 0 <= span l1 ∧ 1 <= n ∧ 0 <= span l2 ∧ top = base + 8 * (span l1 + n + span l2).
Proof.
  intros [_ [Ht _] _ H]. rewrite block_span_app in Ht. simpl in Ht. apply blocks_app in H as [H1 (_ & _ & ? & _ & H2)].
  pose proof (blocks_span _ _ _ _ H1). pose proof (blocks_span _ _ _ _ H2). lia.
Qed.

Lemma holds_next m l1 n c l2 :
  holds m (l1 ++ (n, c) :: l2) → base + 8 * span l1 + 8 * n ≠ top →
  ∃ n' u', hdr m (base + 8 * span l1 + 8 * n) n n' u'.
Proof.
  intros H Hne. pose proof (holds_split _ _ _ _ _ H). destruct l2 as [|[n' c'] l2]; [simpl in *; lia|].
  exists n', (used c'). replace (l1 ++ (n, c) :: (n', c') :: l2) with ((l1 ++ [(n, c)]) ++ (n', c') :: l2) in H
    by (by rewrite <- (assoc_L (++))).
  apply holds_hdr in H. rewrite block_span_app, lastn_snoc in H. simpl in H.
  by replace (base + 8 * span l1 + 8 * n) with (base + 8 * (span l1 + (n + 0))) by lia.
Qed.

Lemma holds_mark m l1 n c c' l2 :
  holds m (l1 ++ (n, c) :: l2) → contents m (base + 8 * span l1 + 8) n c' →
  holds (<[base + 8 * span l1 + 4 := n * 8 + flag (used c') + MMAGIC]> m) (l1 ++ (n, c') :: l2).
Proof.
  intros [] Hc. split; [done| |by apply mapped_insert|by eapply blocks_mark]. rewrite block_span_app in *. simpl in *. done.
Qed.

Lemma aligned8 x k : x mod 8 = 0 → (x + 8 * k) mod 8 = 0.
Proof. intros. Z.to_euclidean_division_equations. lia. Qed.

Lemma aligned4 x k : x mod 8 = 0 → (x + 4 * k) mod 4 = 0.
Proof. intros. Z.to_euclidean_division_equations. lia. Qed.

Lemma wp_split_holds m l1 n c l2 k :
  holds m (l1 ++ (n, c) :: l2) → 0 <= k <= n - 1 → fits k c →
  wp (malloc_split (base + 8 * span l1) (8 * k))
    (λ _ s', ∃ m', s' = set_words m' s ∧ holds m' (l1 ++ cut n k c ++ l2)) (set_words m s).
Proof.
  intros H Hk Hfit. pose proof (holds_split _ _ _ _ _ H).
  eapply wp_mono; [|apply (wp_split m s _ _ n (used c) k (holds_hdr _ _ _ _ _ H)); [|eapply mapped_sub; [apply H|lia|lia]|done|]].
  - intros _ s' ->. eexists. split; [done|]. unfold cut. destruct (Z.ltb_spec (n - 1 - k) 2); [done|].
    destruct H as [Hb Ht Hm Hbs]. split; [done| |by apply mapped_split_at|].
    + rewrite block_span_app in *. simpl in *. split; [|apply Ht]. lia.
    + replace top with (base + 8 * span (l1 ++ (n, c) :: l2)) by (symmetry; apply Ht).
      by apply blocks_split; [done|lia|lia|].
  - apply aligned8. apply H.
  - by apply holds_next with (c := c) (l2 := l2).
Qed.

(** A block that the search passes over. *)
Definition unsuited (k : Z) (b : block) : Prop := used b.2 = true ∨ b.1 - 1 < k.

(** The header of the last block. *)
Definition last_header (bs : list block) : option Z :=
  match bs with [] => None | _ => Some (base + 8 * (span bs - lastn 0 bs)) end.

(** A block that has been allocated, at the place of a free one. *)
Definition allocated (m' : gmap Z Z) (bs : list block) (k p : Z) : Prop :=
  ∃ l1 n l2 ws, bs = l1 ++ (n, None) :: l2 ∧ k <= n - 1 ∧ p = base + 8 * span l1 + 8 ∧
    Z.of_nat (length ws) = 2 * k ∧ holds m' (l1 ++ cut n k (Some ws) ++ l2).

(** Marking the first part of a block that has been cut. *)
Lemma wp_mark_cut m l1 n l2 k :
  holds m (l1 ++ cut n k None ++ l2) → 0 <= k <= n - 1 →
  wp (set_inuse (base + 8 * span l1) 1)
    (λ _ s', ∃ m' ws, s' = set_words m' s ∧ Z.of_nat (length ws) = 2 * k ∧
       holds m' (l1 ++ cut n k (Some ws) ++ l2)) (set_words m s).
Proof.
  intros H Hk. set (n' := if n - 1 - k <? 2 then n else k + 1).
  set (l2' := (if n - 1 - k <? 2 then [] else [(n - 1 - k, None)]) ++ l2).
  assert (∀ c, l1 ++ cut n k c ++ l2 = l1 ++ (n', c) :: l2') as Hcut.
  { intros c. unfold cut, n', l2'. by destruct (_ <? _). }
  rewrite Hcut in H. pose proof (holds_split _ _ _ _ _ H).
  assert (k + 1 <= n') by (unfold n'; destruct (Z.ltb_spec (n - 1 - k) 2); lia).
  destruct (read_words m (base + 8 * span l1 + 8) (Z.to_nat (2 * k))) as (ws & Hl & Hws).
  { eapply mapped_sub; [apply H|lia|lia]. }
  { destruct H as [[_ ?] _ _ _]. Z.to_euclidean_division_equations. lia. }
  apply (wp_set_inuse m s _ _ n' false (holds_hdr _ _ _ _ _ H) true). eexists _, ws. split; [done|].
  split; [lia|]. rewrite Hcut. apply (holds_mark m l1 n' None (Some ws) l2' H). split; [lia|done].
Qed.

Lemma wp_search m bs k fuel l1 l2 :
  holds m bs → 0 <= k → k < 2 ^ 28 → bs = l1 ++ l2 → Forall (unsuited k) l1 → (length l2 < fuel)%nat →
  wp (search fuel (base + 8 * span l1) (last_header l1) (lastn 0 l1) (8 * k))
    (λ r s', match r with
       | inl p => ∃ m', s' = set_words m' s ∧ allocated m' bs k p
       | inr (mh, rp) => s' = set_words m s ∧ Forall (unsuited k) bs ∧ mh = last_header bs ∧ rp = lastn 0 bs
       end) (set_words m s).
Proof.
  intros H Hk Hk'. revert l1 l2. induction fuel as [|fuel IH]; intros l1 l2 -> Hl1 Hfuel; [lia|].
  cbn [search]. apply wp_bind, wp_gets. cbn [heaptop set_words]. destruct l2 as [|[n c] l2].
  { rewrite app_nil_r in *. destruct (hd_top _ _ H) as [Ht _].
    destruct (Z.ltb_spec (base + 8 * span l1) top); [lia|].
    apply wp_bind, wp_KASSERT; [apply Z.eqb_eq; lia|]. by apply wp_ret. }
  pose proof (holds_split _ _ _ _ _ H) as Hsp. pose proof (holds_hdr _ _ _ _ _ H) as Hh.
  destruct (Z.ltb_spec (base + 8 * span l1) top); [|lia].
  apply wp_bind, (wp_OK m s _ _ _ _ Hh), wp_bind, wp_KASSERT; [done|].
  apply wp_bind, (wp_prevblock m s _ _ _ _ Hh), wp_bind, wp_KASSERT; [by apply Z.eqb_eq|].
  apply wp_bind, (wp_nextblock m s _ _ _ _ Hh), wp_bind, (wp_inuse m s _ _ _ _ Hh), wp_bind, (wp_SIZE m s _ _ _ _ Hh).
  destruct (used c || (8 * (n - 1) <? 8 * k)) eqn:E.
  - apply wp_bind, (wp_NEXTOFF m s _ _ _ _ Hh).
    assert (unsuited k (n, c)) as Hun.
    { unfold unsuited. simpl. apply orb_true_iff in E as [E|E]; [by left|right]. lia. }
    specialize (IH (l1 ++ [(n, c)]) l2). rewrite <- !(assoc_L (++)) in IH. cbn [app] in IH.
    replace (u32 (base + 8 * span l1 + 8 * n)) with (base + 8 * span (l1 ++ [(n, c)])).
    2:{ rewrite block_span_app. simpl. unfold u32. destruct (hd_top _ _ H), (hd_base _ _ H). rewrite Z.mod_small; lia. }
    replace (Some (base + 8 * span l1)) with (last_header (l1 ++ [(n, c)])).
    2:{ unfold last_header. rewrite lastn_snoc, block_span_app. simpl. destruct (l1 ++ [(n, c)]) eqn:E'; [by apply app_nil in E' as [_ ?]|].
        f_equal. lia. }
    rewrite lastn_snoc in IH. apply IH; [done|apply Forall_app; split; [done|by constructor]|simpl in *; lia].
  - apply orb_false_iff in E as [Eu Es]. destruct c as [ws|]; [done|].
    apply wp_bind. eapply wp_mono; [|apply (wp_split_holds m l1 n None l2 k H); [lia|done]].
    intros _ s' (m' & -> & Hm'). apply wp_bind.
    eapply wp_mono; [|apply (wp_mark_cut m' l1 n l2 k Hm'); lia].
    intros _ s' (m2 & ws & -> & Hws & Hm2). apply wp_ret. exists m2. split; [done|].
    exists l1, n, l2, ws. split_and!; try done. lia.
Qed.
End heap.

(** ** Growing the heap *)

Lemma lookup_zero_words n a m k :
  zero_words n a m !! k = if decide (a <= k < a + 4 * Z.of_nat n ∧ (k - a) mod 4 = 0) then Some 0 else m !! k.
Proof.
  revert a. induction n as [|n IH]; intros a; cbn [zero_words].
  { rewrite decide_False; [done|]. intros [? _]. lia. }
  destruct (decide (k = a)) as [->|].
  - rewrite lookup_insert_eq, decide_True; [done|]. rewrite Z.sub_diag. split; [lia|done].
  - rewrite lookup_insert_ne, IH by done. repeat case_decide; try done; exfalso;
      Z.to_euclidean_division_equations; lia.
Qed.

Lemma mapped_zero_words n a m b :
  mapped m b a → a mod 4 = 0 → mapped (zero_words n a m) b (a + 4 * Z.of_nat n).
Proof.
  intros H Ha k Hk Hm. rewrite lookup_zero_words. case_decide as Hd; [by eexists|]. apply H; [|done].
  split; [lia|]. apply Znot_ge_lt. intros ?. apply Hd. split; [lia|]. Z.to_euclidean_division_equations. lia.
Qed.

Definition grown (s : ustate) (amount : Z) : ustate :=
  set_bounds (heapbase s) (heaptop s + amount) (set_end (heaptop s + amount) s).

(** What [malloc] relies on between calls, besides the blocks. *)
Definition break_ok (s : ustate) : Prop := heap_end s = heaptop s ∧ stack_base s <= 2 ^ 31.

Lemma wp_malloc_sbrk m s amt :
  break_ok s → 0 < heaptop s < 2 ^ 31 → 0 < amt <= 2 ^ 30 + 2 ^ 13 →
  wp (malloc_sbrk amt) (λ r s', (r = None ∧ s' = set_words m s) ∨
    (r = Some (heaptop s) ∧ heaptop s + amt < 2 ^ 31 ∧
     s' = set_words (zero_words (Z.to_nat (amt / 4)) (heaptop s) m) (grown s amt))) (set_words m s).
Proof.
  intros [He Hst] Ht Ha. apply wp_bind, wp_bind, wp_gets. cbn [heap_end set_words]. rewrite He.
  destruct (Z.ltb_spec amt (2 ^ 31)); [|lia]. destruct (Z.eqb_spec amt 0); [lia|].
  destruct (Z.ltb_spec amt 0); [lia|]. assert (u32 (heaptop s + amt) = heaptop s + amt) as Hu by (apply Z.mod_small; lia).
  cbv zeta. cbn [stack_base set_words heap_end]. rewrite ?He, !Hu. destruct (Z.geb_spec (u32 ((heaptop s + amt + PAGE_SIZE - 1) / PAGE_SIZE * PAGE_SIZE)) (stack_base s)) as [|Hlt].
  { apply wp_ret. apply wp_ret. by left. }
  assert (heaptop s + amt < 2 ^ 31) as Hlim.
  { unfold u32, PAGE_SIZE in Hlt. rewrite Z.mod_small in Hlt by (Z.to_euclidean_division_equations; lia).
    Z.to_euclidean_division_equations. lia. }
  apply wp_bind, wp_modify, wp_ret. apply wp_bind, wp_gets, wp_bind, wp_KASSERT; [by apply Z.eqb_eq|].
  apply wp_bind, wp_modify, wp_ret. right. split_and!; [done|done|]. unfold grown, u32. simpl.
  by rewrite Z.mod_small by lia.
Qed.

Lemma round_page need :
  0 < need <= 2 ^ 30 + 16 →
  let ms := u32 (PAGE_SIZE * (u32 (need + PAGE_SIZE - 1) / PAGE_SIZE)) in
  ∃ j, ms = 8 * j ∧ need <= 8 * j <= 2 ^ 30 + 2 ^ 13 ∧ 512 <= j.
Proof.
  intros H ms. unfold ms, u32, PAGE_SIZE. rewrite (Z.mod_small (need + 4096 - 1)) by lia.
  exists (512 * ((need + 4096 - 1) / 4096)).
  assert (need <= 4096 * ((need + 4096 - 1) / 4096) < need + 4096) by (Z.to_euclidean_division_equations; lia).
  rewrite Z.mod_small by lia. lia.
Qed.

Lemma blocks_grow s m bs n :
  holds s m bs → blocks (zero_words n (heaptop s) m) (heapbase s) 0 bs.
Proof.
  intros []. eapply blocks_frame; [|done]. intros k Hk. rewrite lookup_zero_words, decide_False; [done|].
  intros [? _]. lia.
Qed.

(** A block that has been allocated at the top of a heap that has grown. *)
Definition allocated_top (s : ustate) (bs : list block) (k p : Z) (s' : ustate) : Prop :=
  ∃ j m' l1 n ws, s' = set_words m' (grown s (8 * j)) ∧ (bs = l1 ∨ ∃ n0, bs = l1 ++ [(n0, None)]) ∧
    k <= n - 1 ∧ 2 <= n ∧ p = heapbase s + 8 * span l1 + 8 ∧ Z.of_nat (length ws) = 2 * k ∧
    holds (grown s (8 * j)) m' (l1 ++ cut n k (Some ws)).

Lemma wp_finish s j m bs l1 n ws k :
  holds (grown s (8 * j)) m (l1 ++ [(n, Some ws)]) → (bs = l1 ∨ ∃ n0, bs = l1 ++ [(n0, None)]) →
  0 <= k <= n - 1 → 2 <= n → Z.of_nat (length ws) = 2 * k →
  wp (malloc_split (heapbase s + 8 * span l1) (8 * k) ;; mret (Some (M_DATA (heapbase s + 8 * span l1))))
    (λ r s', match r with None => False | Some p => allocated_top s bs k p s' end) (set_words m (grown s (8 * j))).
Proof.
  intros H Hbs Hk Hn Hws. apply wp_bind.
  eapply wp_mono; [|apply (wp_split_holds (grown s (8 * j)) m l1 n (Some ws) [] k H); [lia|simpl; lia]].
  intros _ s' (m' & -> & Hm'). rewrite app_nil_r in Hm'. apply wp_ret.
  exists j, m', l1, n, ws. split_and!; try done. lia.
Qed.

Lemma holds_words s m l1 n k :
  mapped m (heapbase s) (heaptop s) → heapbase s mod 8 = 0 → heaptop s = heapbase s + 8 * (span l1 + n) →
  0 <= span l1 → 0 <= k <= n - 1 →
  ∃ ws : list Z, Z.of_nat (length ws) = 2 * k ∧
    contents m (heapbase s + 8 * span l1 + 8) n (Some ws).
Proof.
  intros Hm Hb Ht Hsp Hk. destruct (read_words m (heapbase s + 8 * span l1 + 8) (Z.to_nat (2 * k))) as (ws & Hl & Hws).
  { eapply mapped_sub; [done|lia|lia]. }
  { Z.to_euclidean_division_equations. lia. }
  exists ws. split; [lia|]. split; [lia|done].
Qed.

Section grow.
Context (s : ustate) (m : gmap Z Z) (j : Z) (Hj : 512 <= j) (Hlim : heaptop s + 8 * j < 2 ^ 31).
Local Notation s1 := (grown s (8 * j)).
Local Notation m1 := (zero_words (Z.to_nat (8 * j / 4)) (heaptop s) m).

Lemma grown_mapped bs : holds s m bs → mapped m1 (heapbase s) (heaptop s + 8 * j).
Proof.
  intros []. replace (heaptop s + 8 * j) with (heaptop s + 4 * Z.of_nat (Z.to_nat (8 * j / 4)))
    by (Z.to_euclidean_division_equations; lia).
  apply mapped_zero_words; [done|]. Z.to_euclidean_division_equations. lia.
Qed.

(** The last block takes the new space. *)
Lemma wp_grow_last l1 n k :
  holds s m (l1 ++ [(n, None)]) → 0 <= k <= n + j - 1 →
  wp (o ← M_NEXTOFF (heapbase s + 8 * span l1);
      set_nextblock (heapbase s + 8 * span l1) (M_MKFIELD (u32 (o + 8 * j))) ;;
      set_inuse (heapbase s + 8 * span l1) 1 ;; mret (heapbase s + 8 * span l1))
    (λ r s', r = heapbase s + 8 * span l1 ∧ ∃ m' ws, s' = set_words m' s1 ∧ Z.of_nat (length ws) = 2 * k ∧
       holds s1 m' (l1 ++ [(n + j, Some ws)])) (set_words m1 s1).
Proof.
  intros H Hk. pose proof (holds_split _ _ _ _ _ _ H) as Hsp. pose proof (grown_mapped _ H) as Hm1.
  pose proof (blocks_grow s m _ (Z.to_nat (8 * j / 4)) H) as Hb1. destruct (hd_base _ _ _ H) as [Hb0 Hb8]. cbn [span] in Hsp.
  assert (hdr m1 (heapbase s + 8 * span l1) (lastn 0 l1) n false) as Hh.
  { apply (blocks_hdr _ _ _ _ _ [] Hb1); [lia|]. rewrite block_span_app. simpl. lia. }
  apply wp_bind, (wp_NEXTOFF m1 s1 _ _ _ _ Hh).
  assert (M_MKFIELD (u32 (8 * n + 8 * j)) = n + j) as ->.
  { unfold u32. rewrite Z.mod_small by lia. rewrite <- Z.mul_add_distr_l. apply shiftr3. }
  apply wp_bind, (wp_set_nextblock m1 s1 _ _ _ _ Hh); [lia|].
  set (m2 := <[_ := _]> m1). set (a := heapbase s + 8 * span l1) in *.
  assert (hdr m2 a (lastn 0 l1) (n + j) false) as Hh2.
  { destruct Hh. split; try done; unfold m2; [by rewrite lookup_insert_ne by lia|by rewrite lookup_insert_eq|lia|unfold a; lia]. }
  apply wp_bind, (wp_set_inuse m2 s1 a _ _ _ Hh2 true), wp_ret. split; [done|].
  destruct (holds_words s1 m1 l1 (n + j) k Hm1 Hb8) as (ws & Hws & Hc); [simpl; lia|lia|lia|].
  eexists _, ws. split_and!; [done|done|]. unfold m2. rewrite insert_insert_eq. split; [done| |by apply mapped_insert|].
  - rewrite block_span_app. simpl. lia.
  - apply blocks_app in Hb1 as [Hl1 (Hf & _)]. apply blocks_app. split.
    + eapply blocks_frame; [|exact Hl1]. intros k' Hk'. simpl in Hk'. rewrite lookup_insert_ne by (unfold a; lia). done.
    + cbn [blocks used]. change (heapbase s1) with (heapbase s). fold a in Hf |- *. split_and!; [by rewrite lookup_insert_ne by lia|by rewrite lookup_insert_eq|lia| |done].
      eapply contents_frame; [|exact Hc]. intros k' Hk'. simpl in Hk'. by rewrite lookup_insert_ne by (unfold a; lia).
Qed.

(** A new block at the top. *)
Lemma wp_grow_new {B} bs k (q : Z → M ustate B) Q :
  holds s m bs → 0 <= k <= j - 1 →
  (∀ m' ws, Z.of_nat (length ws) = 2 * k → holds s1 m' (bs ++ [(j, Some ws)]) →
     wp (q (heaptop s)) Q (set_words m' s1)) →
  wp (set_prevblock (heaptop s) (lastn 0 bs) ;; set_magic1 (heaptop s) MMAGIC ;; set_magic2 (heaptop s) MMAGIC ;;
      set_pad (heaptop s) 0 ;; set_inuse (heaptop s) 1 ;; set_nextblock (heaptop s) (M_MKFIELD (8 * j)) ;;
      q (heaptop s)) Q (set_words m1 s1).
Proof.
  intros H Hk HQ. pose proof (grown_mapped _ H) as Hm1. pose proof (blocks_grow s m _ (Z.to_nat (8 * j / 4)) H) as Hb1.
  destruct (hd_base _ _ _ H) as [Hb0 Hb8]. destruct (hd_top _ _ _ H) as [Ht Ht2].
  pose proof (blocks_span _ _ _ _ Hb1) as [Hsp _]. pose proof (lastn_le _ _ 0 _ ltac:(lia) Hb1) as [? _].
  rewrite shiftr3. apply wp_top_header; [lia|lia| | |].
  { apply Hm1; [lia|]. Z.to_euclidean_division_equations. lia. }
  { apply Hm1; [lia|]. Z.to_euclidean_division_equations. lia. }
  destruct (holds_words s1 m1 bs j k Hm1 Hb8) as (ws & Hws & Hc); [simpl; lia|lia|lia|].
  apply (HQ _ ws Hws). split; [done| |by repeat apply mapped_insert|].
  - rewrite block_span_app. simpl. lia.
  - apply blocks_app. replace (heapbase s1 + 8 * span bs) with (heaptop s) by (simpl; lia).
    replace (heapbase s1 + 8 * span bs + 8) with (heaptop s + 8) in Hc by (simpl; lia). split.
    + eapply blocks_frame; [|exact Hb1]. intros k' Hk'. simpl in Hk'. by rewrite !lookup_insert_ne by lia.
    + cbn [blocks used]. split_and!; [rewrite lookup_insert_ne by lia; by rewrite lookup_insert_eq|by rewrite lookup_insert_eq|lia| |done].
      eapply contents_frame; [|exact Hc]. intros k' Hk'. by rewrite !lookup_insert_ne by lia.
Qed.
End grow.

Lemma last_header_snoc s l n c : last_header s (l ++ [(n, c)]) = Some (heapbase s + 8 * span l).
Proof.
  unfold last_header. rewrite lastn_snoc, block_span_app. cbn [span].
  destruct (l ++ [(n, c)]) eqn:E; [by apply app_nil in E as [_ ?]|]. f_equal. lia.
Qed.

(** The outcome of [expand]. *)
Definition expanded (s : ustate) (m : gmap Z Z) (bs : list block) (k : Z) (r : option Z) (s' : ustate) : Prop :=
  match r with None => s' = set_words m s | Some p => allocated_top s bs k p s' end.

Lemma wp_expand_new s m bs k :
  holds s m bs → break_ok s → 0 <= 8 * k <= 2 ^ 30 + 8 →
  wp (morespace ← mret (u32 (MBLOCKSIZE + 8 * k));
      let morespace := u32 (PAGE_SIZE * (u32 (morespace + PAGE_SIZE - 1) / PAGE_SIZE)) in
      p ← malloc_sbrk morespace;
      match p with
      | None => mret None
      | Some p =>
          mh ← (set_prevblock p (lastn 0 bs) ;; set_magic1 p MMAGIC ;; set_magic2 p MMAGIC ;;
                set_pad p 0 ;; set_inuse p 1 ;; set_nextblock p (M_MKFIELD morespace) ;; mret p);
          malloc_split mh (8 * k) ;;
          mret (Some (M_DATA mh))
      end) (expanded s m bs k) (set_words m s).
Proof.
  intros H Hbr Hk. destruct (hd_base _ _ _ H) as [Hb0 Hb8]. destruct (hd_top _ _ _ H) as [Ht Ht2].
  pose proof (blocks_span _ _ _ _ (hd_blocks _ _ _ H)) as [Hsp _].
  apply wp_bind, wp_ret. unfold u32 at 3, MBLOCKSIZE. rewrite (Z.mod_small (8 + 8 * k)) by lia.
  destruct (round_page (8 + 8 * k) ltac:(lia)) as (j & -> & Hj & Hj2). cbv zeta.
  apply wp_bind. eapply wp_mono; [|apply (wp_malloc_sbrk m s (8 * j) Hbr); lia].
  intros r s' [[-> ->]|(-> & Hlim & ->)]; [by apply wp_ret|].
  apply wp_bind, (wp_grow_new s m j Hj2 Hlim bs k (λ p, mret p) _ H); [lia|].
  intros m' ws Hws Hm'. apply wp_ret. rewrite Ht.
  eapply wp_mono; [|apply (wp_finish s j m' bs bs j ws k Hm'); [by left|lia|lia|done]].
  by intros [p|] s'.
Qed.

Lemma wp_expand_last s m l1 n k :
  holds s m (l1 ++ [(n, None)]) → break_ok s → 0 <= 8 * k <= 2 ^ 30 + 8 → n - 1 < k →
  wp (morespace ← (msize ← M_SIZE (heapbase s + 8 * span l1);
                   KASSERT (8 * k >? msize) ;;
                   mret (u32 (8 * k - msize)));
      let morespace := u32 (PAGE_SIZE * (u32 (morespace + PAGE_SIZE - 1) / PAGE_SIZE)) in
      p ← malloc_sbrk morespace;
      match p with
      | None => mret None
      | Some p =>
          mh ← (o ← M_NEXTOFF (heapbase s + 8 * span l1);
                set_nextblock (heapbase s + 8 * span l1) (M_MKFIELD (u32 (o + morespace))) ;;
                set_inuse (heapbase s + 8 * span l1) 1 ;;
                mret (heapbase s + 8 * span l1));
          malloc_split mh (8 * k) ;;
          mret (Some (M_DATA mh))
      end) (expanded s m (l1 ++ [(n, None)]) k) (set_words m s).
Proof.
  intros H Hbr Hk Hnk. destruct (hd_base _ _ _ H) as [Hb0 Hb8]. destruct (hd_top _ _ _ H) as [Ht Ht2].
  pose proof (holds_split _ _ _ _ _ _ H) as Hsp. pose proof (holds_hdr _ _ _ _ _ _ H) as Hh.
  apply wp_bind, wp_bind, (wp_SIZE m s _ _ _ _ Hh), wp_bind, wp_KASSERT; [lia|]. apply wp_ret.
  unfold u32 at 3. rewrite (Z.mod_small (8 * k - 8 * (n - 1))) by lia.
  destruct (round_page (8 * k - 8 * (n - 1)) ltac:(lia)) as (j & -> & Hj & Hj2). cbv zeta.
  apply wp_bind. eapply wp_mono; [|apply (wp_malloc_sbrk m s (8 * j) Hbr); lia].
  intros r s' [[-> ->]|(-> & Hlim & ->)]; [by apply wp_ret|]. apply wp_bind.
  eapply wp_mono; [|apply (wp_grow_last s m j Hj2 Hlim l1 n k H); lia].
  intros r s' (-> & m' & ws & -> & Hws & Hm').
  eapply wp_mono; [|apply (wp_finish s j m' (l1 ++ [(n, None)]) l1 (n + j) ws k Hm'); [right; by eexists|lia|lia|done]].
  by intros [p|] s'.
Qed.

Lemma wp_expand s m bs k :
  holds s m bs → break_ok s → 0 <= 8 * k <= 2 ^ 30 + 8 → Forall (unsuited k) bs →
  wp (expand (last_header s bs) (lastn 0 bs) (8 * k)) (expanded s m bs k) (set_words m s).
Proof.
  intros H Hbr Hk Hun. unfold expand. destruct bs as [|[n c] l _] using rev_ind.
  { apply wp_bind, wp_ret. by apply (wp_expand_new s m [] k). }
  rewrite last_header_snoc. apply wp_bind, wp_bind, (wp_inuse m s _ _ _ _ (holds_hdr _ _ _ _ _ _ H)), wp_ret.
  apply Forall_app in Hun as [_ Hun]. apply Forall_inv in Hun. destruct c as [ws|]; cbn [used].
  - by apply (wp_expand_new s m (l ++ [(n, Some ws)]) k).
  - destruct Hun as [?|Hn]; [done|]. by apply (wp_expand_last s m l n k).
Qed.

(** ** Freeing *)

Lemma wp_deadbeef s n x m lo hi :
  mapped m lo hi → lo <= x → x + 4 * Z.of_nat n <= hi → x mod 4 = 0 →
  wp (malloc_deadbeef n x) (λ _ s', ∃ m', s' = set_words m' s ∧ mapped m' lo hi ∧
    ∀ k, k < x ∨ x + 4 * Z.of_nat n <= k → m' !! k = m !! k) (set_words m s).
Proof.
  revert x m. induction n as [|n IH]; intros x m Hm Hx Hn Hal; cbn [malloc_deadbeef].
  { apply wp_ret. by eexists. }
  apply wp_bind, wp_st; [apply Hm; [lia|done]|].
  eapply wp_mono; [|apply (IH (x + 4)); [by apply mapped_insert|lia|lia|Z.to_euclidean_division_equations; lia]].
  intros _ s' (m' & -> & Hm' & Hout). exists m'. split_and!; [done|done|]. intros k Hk.
  rewrite Hout by lia. by rewrite lookup_insert_ne by lia.
Qed.

(** The memory may change inside free blocks. *)
Lemma holds_frame_free s m m' l1 n l2 :
  holds s m (l1 ++ (n, None) :: l2) → mapped m' (heapbase s) (heaptop s) →
  (∀ k, k < heapbase s + 8 * span l1 + 8 ∨ heapbase s + 8 * span l1 + 8 * n <= k → m' !! k = m !! k) →
  holds s m' (l1 ++ (n, None) :: l2).
Proof.
  intros H Hm Hf. destruct H as [Hb Ht Hm0 Hbs]. split; [done|done|done|].
  apply blocks_app in Hbs as [H1 (Hw1 & Hw2 & Hn & _ & H2)]. apply blocks_app. split.
  - eapply blocks_frame; [|exact H1]. intros k Hk. apply Hf. lia.
  - cbn [blocks]. split_and!; [rewrite Hf by lia; done|rewrite Hf by lia; done|done|done|].
    eapply blocks_frame; [|exact H2]. intros k Hk. apply Hf. lia.
Qed.

Section merge.
Context (s : ustate) (m : gmap Z Z) (l1 l2 : list block) (n1 n2 : Z).
Local Notation a := (heapbase s + 8 * span l1).
Local Notation b := (heapbase s + 8 * span l1 + 8 * n1).
Context (H : holds s m (l1 ++ (n1, None) :: (n2, None) :: l2)).

Lemma merge_headers : hdr m a (lastn 0 l1) n1 false ∧ hdr m b n1 n2 false.
Proof.
  split; [exact (holds_hdr _ _ _ _ _ _ H)|].
  pose proof H as H2. replace (l1 ++ (n1, None) :: (n2, None) :: l2) with ((l1 ++ [(n1, None)]) ++ (n2, None) :: l2) in H2
    by (by rewrite <- (assoc_L (++))).
  apply holds_hdr in H2. rewrite block_span_app, lastn_snoc in H2. cbn [span used] in H2.
  by replace b with (heapbase s + 8 * (span l1 + (n1 + 0))) by lia.
Qed.

(** The memory after the two headers have become one. *)
Definition merged (m : gmap Z Z) : gmap Z Z :=
  let m := <[a + 4 := (n1 + n2) * 8 + flag false + MMAGIC]> m in
  if b + 8 * n2 =? heaptop s then m else <[b + 8 * n2 := (n1 + n2) * 8 + MMAGIC]> m.

Lemma merged_holds : holds s (merged m) (l1 ++ (n1 + n2, None) :: l2).
Proof.
  destruct H as [Hb Ht Hm Hbs]. apply blocks_app in Hbs as [H1 (Hw1 & Hw2 & Hn1 & _ & (Hw3 & Hw4 & Hn2 & _ & H2))].
  rewrite block_span_app in Ht. cbn [span] in Ht. pose proof (blocks_span _ _ _ _ H2) as [Hs2 Hs2'].
  pose proof (blocks_span _ _ _ _ H1) as [Hs1 _]. split; [done| | |].
  - rewrite block_span_app. cbn [span]. lia.
  - unfold merged. destruct (_ =? _); by repeat apply mapped_insert.
  - assert (∀ k, k < a + 4 → merged m !! k = m !! k) as Hlow.
    { intros k Hk. unfold merged. destruct (_ =? _); by rewrite !lookup_insert_ne by lia. }
    apply blocks_app. split; [eapply blocks_frame; [|exact H1]; intros k Hk; apply Hlow; lia|].
    cbn [blocks]. split_and!; [by rewrite Hlow by lia| |lia|done|].
    { unfold merged. destruct (_ =? _); [by rewrite lookup_insert_eq|]. rewrite lookup_insert_ne by lia.
      by rewrite lookup_insert_eq. }
    unfold merged. replace (a + 8 * (n1 + n2)) with (b + 8 * n2) by lia.
    destruct (Z.eqb_spec (b + 8 * n2) (heaptop s)).
    + destruct l2; [done|]. specialize (Hs2' ltac:(done)). lia.
    + eapply (blocks_frame (<[b + 8 * n2 := (n1 + n2) * 8 + MMAGIC]> m)); [|by eapply blocks_prev].
      intros k Hk. destruct (decide (k = b + 8 * n2)) as [->|]; [by rewrite !lookup_insert_eq|].
      by rewrite !lookup_insert_ne by lia.
Qed.

Lemma wp_trymerge_free :
  wp (malloc_trymerge a b) (λ _ s', ∃ m', s' = set_words m' s ∧ holds s m' (l1 ++ (n1 + n2, None) :: l2)) (set_words m s).
Proof.
  destruct merge_headers as [Ha Hb]. pose proof (holds_split _ _ _ _ _ _ H) as Hsp. cbn [span] in Hsp.
  pose proof (h_addr _ _ _ _ _ Hb). pose proof (h_next _ _ _ _ _ Hb). pose proof (h_next _ _ _ _ _ Ha).
  destruct (hd_top _ _ _ H) as [_ Ht]. destruct (hd_base _ _ _ H) as [Hb0 Hb8].
  apply wp_bind, (wp_nextblock _ _ _ _ _ _ Ha), wp_bind, (wp_prevblock _ _ _ _ _ _ Hb), wp_bind, wp_KASSERT; [by apply Z.eqb_eq|].
  apply wp_bind, (wp_inuse _ _ _ _ _ _ Ha), wp_bind, (wp_inuse _ _ _ _ _ _ Hb). cbn [orb].
  apply wp_bind, (wp_NEXT _ _ _ _ _ _ Hb), wp_bind, (wp_SIZE _ _ _ _ _ _ Ha), wp_bind, (wp_SIZE _ _ _ _ _ _ Hb).
  assert (M_MKFIELD (u32 (MBLOCKSIZE + 8 * (n1 - 1) + MBLOCKSIZE + 8 * (n2 - 1))) = n1 + n2) as ->.
  { unfold u32, MBLOCKSIZE. rewrite Z.mod_small by lia. replace (8 + 8 * (n1 - 1) + 8 + 8 * (n2 - 1)) with (8 * (n1 + n2)) by lia.
    apply shiftr3. }
  apply wp_bind, (wp_set_nextblock _ _ _ _ _ _ Ha); [lia|]. apply wp_bind, wp_gets. cbn [heaptop set_words].
  set (m1 := <[a + 4 := _]> m). apply wp_bind.
  apply (wp_mono _ (λ _ s', s' = set_words (merged m) s)).
  - intros _ s' ->. pose proof merged_holds as Hmh. pose proof (holds_split _ _ _ _ _ _ Hmh).
    eapply wp_mono; [|apply (wp_deadbeef s 2 b (merged m) (heapbase s) (heaptop s)); [apply Hmh|lia|lia|Z.to_euclidean_division_equations; lia]].
    intros _ s' (m' & -> & Hm' & Hout). exists m'. split; [done|]. eapply holds_frame_free; [done|done|].
    intros k Hk. apply Hout. lia.
  - unfold merged. fold m1. cbv zeta. destruct (Z.eqb_spec (b + 8 * n2) (heaptop s)) as [|Hne]; [by apply wp_ret|].
    assert (hdr m1 a (lastn 0 l1) (n1 + n2) false) as Ha1.
    { destruct Ha. split; try done; unfold m1; [by rewrite lookup_insert_ne by lia|by rewrite lookup_insert_eq|lia|lia]. }
    apply wp_bind, (wp_nextblock _ _ _ _ _ _ Ha1).
    pose proof H as Hn. replace (l1 ++ (n1, None) :: (n2, None) :: l2) with ((l1 ++ [(n1, None)]) ++ (n2, None) :: l2) in Hn
      by (by rewrite <- (assoc_L (++))).
    apply holds_next in Hn as (n' & u' & Hn').
    + rewrite block_span_app in Hn'. cbn [span] in Hn'.
      replace (heapbase s + 8 * (span l1 + (n1 + 0)) + 8 * n2) with (b + 8 * n2) in Hn' by lia.
      apply (wp_set_prevblock m1 s _ n2 n' u'); [|lia|done].
      destruct Hn'. split; try done; unfold m1; by rewrite lookup_insert_ne by lia.
    + rewrite block_span_app. cbn [span]. lia.
Qed.
End merge.

Lemma wp_trymerge_used s m l1 n1 c1 n2 c2 l2 :
  holds s m (l1 ++ (n1, c1) :: (n2, c2) :: l2) → used c1 || used c2 = true →
  wp (malloc_trymerge (heapbase s + 8 * span l1) (heapbase s + 8 * span l1 + 8 * n1))
    (λ _ s', s' = set_words m s) (set_words m s).
Proof.
  intros H Hu. pose proof (holds_hdr _ _ _ _ _ _ H) as Ha. pose proof H as H2.
  replace (l1 ++ (n1, c1) :: (n2, c2) :: l2) with ((l1 ++ [(n1, c1)]) ++ (n2, c2) :: l2) in H2
    by (by rewrite <- (assoc_L (++))).
  apply holds_hdr in H2 as Hb. rewrite block_span_app, lastn_snoc in Hb. cbn [span] in Hb.
  replace (heapbase s + 8 * (span l1 + (n1 + 0))) with (heapbase s + 8 * span l1 + 8 * n1) in Hb by lia.
  apply wp_bind, (wp_nextblock _ _ _ _ _ _ Ha), wp_bind, (wp_prevblock _ _ _ _ _ _ Hb), wp_bind, wp_KASSERT; [by apply Z.eqb_eq|].
  apply wp_bind, (wp_inuse _ _ _ _ _ _ Ha), wp_bind, (wp_inuse _ _ _ _ _ _ Hb). rewrite Hu. by apply wp_ret.
Qed.

End UMallocHeap.
