(* ===== verification/UMallocTheorems.v ===== *)
(** * What malloc and free promise

    A program calls [malloc] and [free] and writes to its blocks.  In every state that it can
    reach, the heap is well formed, no check of malloc.c fails, each live block still has the
    contents that the program gave it, and free blocks are never adjacent. *)

From Stdlib Require Import ZArith Lia.
From stdpp Require Import base numbers list gmap.
From S2P Require Import Prelude UMalloc UMallocHeap.

Open Scope Z_scope.

Module UMallocTheorems.
Import UMalloc UMallocHeap.

(** ** The blocks that are in use *)

Fixpoint live (a : Z) (bs : list block) : gmap Z (list Z) :=
  match bs with
  | [] => ∅
  | (n, Some ws) :: bs' => <[a + 8 := ws]> (live (a + 8 * n) bs')
  | (n, None) :: bs' => live (a + 8 * n) bs'
  end.

Lemma live_app a l1 l2 : live a (l1 ++ l2) = live a l1 ∪ live (a + 8 * span l1) l2.
Proof.
  revert a. induction l1 as [|[n [ws|]] l1 IH]; intros a; simpl.
  - by rewrite (left_id_L ∅ (∪)), Z.mul_0_r, Z.add_0_r.
  - rewrite IH, <- insert_union_l. by replace (a + 8 * n + 8 * span l1) with (a + 8 * (n + span l1)) by lia.
  - rewrite IH. by replace (a + 8 * n + 8 * span l1) with (a + 8 * (n + span l1)) by lia.
Qed.

Definition sized (bs : list block) : Prop := Forall (λ b, 1 <= b.1) bs.

Lemma blocks_sized m a p bs : blocks m a p bs → sized bs.
Proof.
  revert a p. induction bs as [|[n c] bs IH]; intros a p; simpl; [constructor|].
  intros (_ & _ & Hn & _ & H). constructor; [done|]. by eapply IH.
Qed.

Lemma sized_span bs : sized bs → 0 <= span bs.
Proof. induction 1 as [|[n c] bs Hn _ IH]; simpl in *; lia. Qed.

Lemma sized_length bs : sized bs → Z.of_nat (length bs) <= span bs.
Proof. induction 1 as [|[n c] bs Hn _ IH]; simpl in *; lia. Qed.

Lemma live_range a bs x ws : sized bs → live a bs !! x = Some ws → a + 8 <= x <= a + 8 * span bs.
Proof.
  intros Hs. revert a. induction Hs as [|[n c] bs Hn Hs IH]; intros a; simpl in *; [by rewrite lookup_empty|].
  pose proof (sized_span _ Hs). destruct c as [ws'|].
  - destruct (decide (x = a + 8)) as [->|]; [lia|]. rewrite lookup_insert_ne by done. intros Hx.
    pose proof (IH _ Hx). lia.
  - intros Hx. pose proof (IH _ Hx). lia.
Qed.

Lemma live_mark a l1 n ws l2 :
  sized (l1 ++ (n, None) :: l2) →
  live a (l1 ++ (n, Some ws) :: l2) = <[a + 8 * span l1 + 8 := ws]> (live a (l1 ++ (n, None) :: l2)) ∧
  live a (l1 ++ (n, None) :: l2) !! (a + 8 * span l1 + 8) = None.
Proof.
  intros H. apply Forall_app in H as [H1 [Hn H2]%Forall_cons]. simpl in Hn. rewrite !live_app. cbn [live].
  assert (live a l1 !! (a + 8 * span l1 + 8) = None) as Hno.
  { destruct (live a l1 !! _) eqn:E; [|done]. pose proof (live_range _ _ _ _ H1 E). lia. }
  split; [by rewrite insert_union_r|]. apply lookup_union_None. split; [done|].
  destruct (live (a + 8 * span l1 + 8 * n) l2 !! _) eqn:E; [|done]. pose proof (live_range _ _ _ _ H2 E). lia.
Qed.

Lemma live_cut a l1 n k c l2 : live a (l1 ++ cut n k c ++ l2) = live a (l1 ++ (n, c) :: l2).
Proof.
  rewrite !live_app. f_equal. change ((n, c) :: l2) with ([(n, c)] ++ l2). rewrite live_app.
  rewrite span_cut. cbn [span]. rewrite Z.add_0_r. f_equal. unfold cut. destruct (_ <? _); [done|]. by destruct c.
Qed.

(** A live block is a block of the list. *)
Lemma live_block a bs x ws :
  live a bs !! x = Some ws → ∃ l1 n l2, bs = l1 ++ (n, Some ws) :: l2 ∧ x = a + 8 * span l1 + 8.
Proof.
  revert a. induction bs as [|[n c] bs IH]; intros a; simpl; [by rewrite lookup_empty|].
  intros Hx. destruct c as [ws'|].
  - destruct (decide (x = a + 8)) as [->|].
    + rewrite lookup_insert_eq in Hx. simplify_eq. exists [], n, bs. split; [done|]. simpl. lia.
    + rewrite lookup_insert_ne in Hx by done. destruct (IH _ Hx) as (l1 & n' & l2 & -> & ->).
      exists ((n, Some ws') :: l1), n', l2. split; [done|]. simpl. lia.
  - destruct (IH _ Hx) as (l1 & n' & l2 & -> & ->). exists ((n, None) :: l1), n', l2. split; [done|]. simpl. lia.
Qed.

(** ** Free blocks are not adjacent *)

Definition head_free (bs : list block) : Prop := match bs with (_, None) :: _ => True | _ => False end.
Definition last_free (bs : list block) : Prop := match last bs with Some (_, None) => True | _ => False end.

Fixpoint separate (bs : list block) : Prop :=
  match bs with
  | [] => True
  | (n, c) :: bs' => (c = None → ¬ head_free bs') ∧ separate bs'
  end.

Lemma last_free_cons b c bs : last_free (b :: c :: bs) = last_free (c :: bs).
Proof. unfold last_free. by rewrite last_cons_cons. Qed.

Lemma separate_app l1 l2 :
  separate (l1 ++ l2) ↔ separate l1 ∧ separate l2 ∧ (last_free l1 → ¬ head_free l2).
Proof.
  induction l1 as [|[n c] l1 IH]; simpl.
  - unfold last_free. simpl. tauto.
  - rewrite IH. destruct l1 as [|[n' c'] l1].
    + unfold last_free. simpl. destruct c; simpl; naive_solver.
    + rewrite last_free_cons. simpl. tauto.
Qed.

(** The block at the top has room for data. *)
Definition top_block (bs : list block) : Prop := match last bs with Some (n, _) => 2 <= n | None => True end.

Lemma top_block_app l1 b l2 : top_block (l1 ++ b :: l2) ↔ top_block (b :: l2).
Proof. unfold top_block. by rewrite last_app_cons. Qed.

Lemma top_block_cons b c l : top_block (b :: c :: l) ↔ top_block (c :: l).
Proof. unfold top_block. by rewrite last_cons_cons. Qed.

Definition well_formed (bs : list block) : Prop := separate bs ∧ top_block bs.

Lemma cut_well_formed l1 n n' k ws l2 :
  well_formed (l1 ++ (n, None) :: l2) → (l2 = [] → 2 <= n') → 0 <= k →
  well_formed (l1 ++ cut n' k (Some ws) ++ l2).
Proof.
  intros [Hs Ht] Hn Hk. apply separate_app in Hs as (H1 & [Hh H2] & _). rewrite top_block_app in Ht.
  unfold cut. destruct (Z.ltb_spec (n' - 1 - k) 2); cbn [app]; (split; [apply separate_app; split_and!; [done| |by intros ? []]|rewrite top_block_app]).
  - simpl. split; [done|done].
  - destruct l2 as [|b l2]; [specialize (Hn eq_refl); unfold top_block; simpl; lia|]. rewrite top_block_cons in *. done.
  - simpl. split; [done|]. split; [by intros _; apply Hh|done].
  - destruct l2 as [|b l2]; [unfold top_block; simpl; lia|]. rewrite !top_block_cons in *. done.
Qed.

(** ** The heap between calls *)

(** Before the first call, and from then on. *)
Definition fresh (s : ustate) : Prop :=
  heapbase s = 0 ∧ heaptop s = 0 ∧ 0 < heap_end s < 2 ^ 31 ∧ heap_end s mod 8 = 0 ∧ stack_base s <= 2 ^ 31.

Definition started (s : ustate) (bs : list block) : Prop := holds s (words s) bs ∧ break_ok s ∧ well_formed bs.

Definition heap (s : ustate) (bs : list block) : Prop := (fresh s ∧ bs = []) ∨ started s bs.

(** The units of eight bytes for the data of a request. *)
Definition units (size : Z) : Z := (size + 7) / 8.

(** What [malloc] does to the live blocks. *)
Definition malloc_post (s : ustate) (bs : list block) (k : Z) (r : option Z) (s' : ustate) : Prop :=
  ∃ bs', started s' bs' ∧
    match r with
    | None => live (heapbase s') bs' = live (heapbase s) bs
    | Some p => ∃ ws : list Z, Z.of_nat (length ws) = 2 * k ∧ p mod 8 = 0 ∧
        live (heapbase s) bs !! p = None ∧ live (heapbase s') bs' = <[p := ws]> (live (heapbase s) bs)
    end.

Lemma allocated_post s m' bs k p :
  started s bs → 0 <= k → allocated s m' bs k p → malloc_post s bs k (Some p) (set_words m' s).
Proof.
  intros (H & Hbr & Hwf) Hk (l1 & n & l2 & ws & -> & Hkn & -> & Hws & Hm').
  pose proof (blocks_sized _ _ _ _ (hd_blocks _ _ _ H)) as Hsz. destruct (live_mark (heapbase s) l1 n ws l2 Hsz) as [Hl Hno].
  exists (l1 ++ cut n k (Some ws) ++ l2). split.
  - split_and!; [destruct Hm'; by split|done|]. apply (cut_well_formed l1 n); [done| |done].
    intros ->. destruct Hwf as [_ Ht]. rewrite top_block_app in Ht. exact Ht.
  - exists ws. split_and!; [done| |done|].
    + destruct (hd_base _ _ _ H) as [_ Hb]. Z.to_euclidean_division_equations. lia.
    + by rewrite live_cut, <- Hl.
Qed.

Lemma expanded_post s bs k r s' :
  started s bs → 0 <= k → expanded s (words s) bs k r s' → malloc_post s bs k r s'.
Proof.
  intros (H & Hbr & Hwf) Hk. destruct r as [p|]; simpl.
  2:{ intros ->. rewrite set_words_id. exists bs. split; [done|done]. }
  intros (j & m' & l1 & n & ws & -> & Hbs & Hkn & Hn & -> & Hws & Hm').
  pose proof (blocks_sized _ _ _ _ (hd_blocks _ _ _ H)) as Hsz.
  assert (live (heapbase s) bs = live (heapbase s) (l1 ++ [(n, None)]) ∧ sized l1 ∧ separate l1) as (Hlive & Hsz1 & Hsep).
  { destruct Hwf as [Hs _]. destruct Hbs as [->|[n0 ->]]; rewrite !live_app; simpl; rewrite !(right_id_L ∅ (∪)); [done|].
    apply Forall_app in Hsz as [? _]. apply separate_app in Hs as (? & _). done. }
  destruct (live_mark (heapbase s) l1 n ws []) as [Hl Hno].
  { apply Forall_app. split; [done|]. constructor; [simpl; lia|constructor]. }
  exists (l1 ++ cut n k (Some ws)). split.
  - split_and!; [destruct Hm'; by split|by destruct Hbr|]. rewrite <- (app_nil_r (cut _ _ _)).
    unfold cut. destruct (Z.ltb_spec (n - 1 - k) 2); cbn [app]; (split; [apply separate_app; split_and!; [done| |by intros ? []]|rewrite top_block_app]).
    + simpl. done.
    + unfold top_block. simpl. lia.
    + simpl. split_and!; try done. by intros _ [].
    + unfold top_block. simpl. lia.
  - exists ws. split_and!; [done| |by rewrite Hlive|].
    + destruct (hd_base _ _ _ H) as [_ Hb]. Z.to_euclidean_division_equations. lia.
    + rewrite Hlive, <- Hl. rewrite <- (app_nil_r (cut _ _ _)). apply live_cut.
Qed.

Lemma wp_malloc_started s bs size :
  started s bs → 0 <= size <= 2 ^ 30 →
  wp (KASSERT (negb ((heapbase s =? 0) || (heaptop s =? 0) || (heapbase s >? heaptop s))) ;;
      r ← search (Z.to_nat ((heaptop s - heapbase s) / MBLOCKSIZE + 1)) (heapbase s) None 0
            (u32 (size + MBLOCKSIZE - 1) / MBLOCKSIZE * MBLOCKSIZE);
      match r with
      | inl p => mret (Some p)
      | inr (mh, rightprevblock) => expand mh rightprevblock (u32 (size + MBLOCKSIZE - 1) / MBLOCKSIZE * MBLOCKSIZE)
      end) (malloc_post s bs (units size)) s.
Proof.
  intros Hst Hsize. pose proof Hst as (H & Hbr & Hwf). destruct (hd_base _ _ _ H) as [Hb0 Hb8].
  destruct (hd_top _ _ _ H) as [Ht Ht2]. pose proof (blocks_sized _ _ _ _ (hd_blocks _ _ _ H)) as Hsz.
  pose proof (sized_span _ Hsz). apply wp_bind, wp_KASSERT.
  { apply negb_true_iff, orb_false_iff. split; [apply orb_false_iff; split; apply Z.eqb_neq; lia|]. lia. }
  set (k := u32 (size + MBLOCKSIZE - 1) / MBLOCKSIZE).
  assert (k = units size) as Hk8.
  { unfold k, units, u32, MBLOCKSIZE. rewrite Z.mod_small by lia. by replace (size + 8 - 1) with (size + 7) by lia. }
  assert (size <= 8 * k <= size + 7) as Hk by (rewrite Hk8; unfold units; Z.to_euclidean_division_equations; lia).
  rewrite <- Hk8. replace (k * MBLOCKSIZE) with (8 * k) by (unfold MBLOCKSIZE; lia). clearbody k.
  opose proof (wp_search s (words s) bs k (Z.to_nat ((heaptop s - heapbase s) / MBLOCKSIZE + 1)) [] bs H _ _ eq_refl _ _) as Hse;
    [lia|lia|constructor| |].
  { pose proof (sized_length _ Hsz). replace (heaptop s - heapbase s) with (span bs * 8) by lia.
    unfold MBLOCKSIZE. rewrite Z.div_mul by lia. lia. }
  rewrite set_words_id in Hse. cbn [span] in Hse. rewrite Z.mul_0_r, Z.add_0_r in Hse.
  apply wp_bind. eapply wp_mono; [|exact Hse]. intros [p|[mh rp]] s'.
  - intros (m' & -> & Ha). apply wp_ret. apply allocated_post; [done|lia|done].
  - intros (-> & Hun & -> & ->). opose proof (wp_expand s (words s) bs k H Hbr _ Hun) as Hex; [lia|].
    rewrite set_words_id in Hex. eapply wp_mono; [|exact Hex].
    intros r s' Hr. apply expanded_post; [done|lia|done].
Qed.

Lemma wp_malloc s bs size :
  heap s bs → 0 <= size <= 2 ^ 30 → wp (malloc size) (malloc_post s bs (units size)) s.
Proof.
  intros [[(Hb & Ht & He & Ha & Hst) ->]|Hst] Hsize.
  - set (s1 := set_bounds (heap_end s) (heap_end s) s).
    assert (started s1 []) as H1.
    { split_and!; [|done|split; done]. split; simpl; [lia|lia| |done]. intros k Hk. lia. }
    apply wp_bind, wp_gets. rewrite Hb. cbn [Z.eqb]. apply wp_bind.
    apply (wp_mono _ (λ _ s', s' = s1)).
    + intros [] s' ->. apply wp_bind, wp_gets.
      eapply wp_mono; [|exact (wp_malloc_started s1 [] size H1 Hsize)].
      intros r s' (bs' & ? & Hr). exists bs'. split; [done|]. destruct r; done.
    + apply wp_bind, wp_gets, wp_bind, wp_KASSERT; [by rewrite Hb, Ht|].
      apply wp_bind, wp_bind, wp_gets. cbn [Z.ltb Z.eqb Z.compare]. apply wp_ret. 
      apply wp_bind, wp_ret, wp_bind, wp_KASSERT; [apply negb_true_iff, Z.eqb_neq; lia|].
      apply wp_bind, wp_modify. unfold MBLOCKSIZE. rewrite Ha. by apply wp_ret.
  - apply wp_bind, wp_gets, wp_bind. destruct Hst as (H & Hbr & Hwf). destruct (hd_base _ _ _ H) as [Hb0 _].
    destruct (Z.eqb_spec (heapbase s) 0); [lia|]. apply wp_ret, wp_bind, wp_gets.
    apply (wp_malloc_started s bs size); [by split|done].
Qed.

Lemma wp_id {A} (x : M ustate A) Q s : wp x Q (set_words (words s) s) → wp x Q s.
Proof. by rewrite set_words_id. Qed.

(** ** Freeing a block *)

Lemma wp_merge_next s m l1 n l2 :
  holds s m (l1 ++ (n, None) :: l2) → separate l2 →
  wp (mhnext ← M_NEXT (heapbase s + 8 * span l1);
      top ← gets heaptop;
      if mhnext =? top then mret tt else malloc_trymerge (heapbase s + 8 * span l1) mhnext)
    (λ _ s', ∃ m' n' l2', s' = set_words m' s ∧ holds s m' (l1 ++ (n', None) :: l2') ∧ ¬ head_free l2' ∧
       ((l2' = l2 ∧ n' = n) ∨ ∃ n2, l2 = (n2, None) :: l2' ∧ n' = n + n2)) (set_words m s).
Proof.
  intros H Hsep. pose proof (holds_hdr _ _ _ _ _ _ H) as Hh. pose proof (holds_split _ _ _ _ _ _ H) as Hsp.
  apply wp_bind, (wp_NEXT _ _ _ _ _ _ Hh), wp_bind, wp_gets. cbn [heaptop set_words].
  pose proof (blocks_sized _ _ _ _ (hd_blocks _ _ _ H)) as Hsz. apply Forall_app in Hsz as [_ [_ Hsz]%Forall_cons].
  destruct l2 as [|[n2 c2] l2].
  - cbn [span] in Hsp. destruct (Z.eqb_spec (heapbase s + 8 * span l1 + 8 * n) (heaptop s)); [|lia].
    apply wp_ret. exists m, n, []. split_and!; [done|done|by intros []|by left].
  - apply Forall_cons in Hsz as [Hn2 Hsz]. pose proof (sized_span _ Hsz). cbn [span] in *. simpl in Hn2.
    destruct (Z.eqb_spec (heapbase s + 8 * span l1 + 8 * n) (heaptop s)); [lia|]. destruct c2 as [ws|].
    + eapply wp_mono; [|by apply (wp_trymerge_used s m l1 n None n2 (Some ws) l2 H)].
      intros _ s' ->. exists m, n, ((n2, Some ws) :: l2). split_and!; [done|done|by intros []|by left].
    + eapply wp_mono; [|exact (wp_trymerge_free s m l1 l2 n n2 H)].
      intros _ s' (m' & -> & Hm'). exists m', (n + n2), l2. destruct Hsep as [Hh2 _].
      split_and!; [done|done|by apply Hh2|right; by exists n2].
Qed.

Lemma wp_merge_prev s m l1 n l2 :
  holds s m (l1 ++ (n, None) :: l2) →
  wp (base ← gets heapbase;
      if heapbase s + 8 * span l1 =? base then mret tt else
      mhprev ← M_PREV (heapbase s + 8 * span l1);
      malloc_trymerge mhprev (heapbase s + 8 * span l1))
    (λ _ s', ∃ m' n' l1', s' = set_words m' s ∧ holds s m' (l1' ++ (n', None) :: l2) ∧
       ((l1' = l1 ∧ n' = n ∧ ¬ last_free l1) ∨ ∃ n0, l1 = l1' ++ [(n0, None)] ∧ n' = n0 + n)) (set_words m s).
Proof.
  intros H. pose proof (holds_hdr _ _ _ _ _ _ H) as Hh. apply wp_bind, wp_gets. cbn [heapbase set_words].
  destruct l1 as [|[n0 c0] l1 _] using rev_ind.
  { cbn [span]. rewrite Z.mul_0_r, Z.add_0_r, Z.eqb_refl. apply wp_ret. exists m, n, []. split_and!; [done|done|].
    left. split_and!; [done|done|by intros []]. }
  pose proof H as H2. rewrite <- (assoc_L (++)) in H2. cbn [app] in H2. pose proof (holds_split _ _ _ _ _ _ H2) as Hsp.
  assert (span (l1 ++ [(n0, c0)]) = span l1 + n0) as Hs by (rewrite block_span_app; simpl; lia).
  destruct (Z.eqb_spec (heapbase s + 8 * span (l1 ++ [(n0, c0)])) (heapbase s)); [lia|].
  apply wp_bind, (wp_PREV _ _ _ _ _ _ Hh). rewrite lastn_snoc, Hs.
  replace (heapbase s + 8 * (span l1 + n0) - 8 * n0) with (heapbase s + 8 * span l1) by lia.
  replace (heapbase s + 8 * (span l1 + n0)) with (heapbase s + 8 * span l1 + 8 * n0) by lia.
  destruct c0 as [ws|].
  - eapply wp_mono; [|by apply (wp_trymerge_used s m l1 n0 (Some ws) n None l2 H2)].
    intros _ s' ->. exists m, n, (l1 ++ [(n0, Some ws)]). split_and!; [done|done|]. left. split_and!; [done|done|].
    unfold last_free. rewrite last_snoc. by intros [].
  - eapply wp_mono; [|exact (wp_trymerge_free s m l1 l2 n0 n H2)].
    intros _ s' (m' & -> & Hm'). exists m', (n0 + n), l1. split_and!; [done|done|]. right. by exists n0.
Qed.

(** The list after both merges. *)
Lemma merged_list a l1 n c l2 n1 l2' n2 l1' :
  well_formed (l1 ++ (n, c) :: l2) → sized (l1 ++ (n, c) :: l2) → ¬ head_free l2' →
  ((l2' = l2 ∧ n1 = n) ∨ ∃ n', l2 = (n', None) :: l2' ∧ n1 = n + n') →
  ((l1' = l1 ∧ n2 = n1 ∧ ¬ last_free l1) ∨ ∃ n0, l1 = l1' ++ [(n0, None)] ∧ n2 = n0 + n1) →
  well_formed (l1' ++ (n2, None) :: l2') ∧
  live a (l1' ++ (n2, None) :: l2') = live a (l1 ++ (n, None) :: l2).
Proof.
  intros [Hs Ht] Hsz Hh Hnext Hprev. apply separate_app in Hs as (Hs1 & [_ Hs2] & _). rewrite top_block_app in Ht.
  apply Forall_app in Hsz as [Hsz1 [Hn Hsz2]%Forall_cons]. simpl in Hn.
  assert (separate l2' ∧ n <= n1 ∧ (l2' = [] → 2 <= n1) ∧ (l2' ≠ [] → top_block l2') ∧
    ∀ b, live b ((n1, None) :: l2') = live b ((n, None) :: l2)) as (Hs2' & Hn1 & Hbig & Htop & Hlive).
  { destruct Hnext as [[-> ->]|(n' & -> & ->)].
    - split_and!; try done; [intros ->; exact Ht|]. intros Hne. destruct l2; [done|]. by rewrite top_block_cons in Ht.
    - apply Forall_cons in Hsz2 as [Hn' _]. simpl in Hn'. destruct Hs2 as [_ Hs2]. split_and!; try done; [lia|lia| |].
      + intros Hne. destruct l2'; [done|]. by rewrite !top_block_cons in Ht.
      + intros b. cbn [live]. f_equal. lia. }
  assert (∀ k, n1 <= k → top_block ((k, None) :: l2')) as Htb.
  { intros k Hk. destruct l2' as [|b l2']; [|rewrite top_block_cons; by apply Htop].
    specialize (Hbig eq_refl). unfold top_block. simpl. lia. }
  destruct Hprev as [(-> & -> & Hlf)|(n0 & -> & ->)].
  - split; [|by rewrite !live_app, Hlive]. split; [|rewrite top_block_app; apply Htb; lia].
    apply separate_app. split_and!; [done| |by intros ?]. simpl. split; [by intros _|done].
  - apply separate_app in Hs1 as (Hs1 & _ & Hl). apply Forall_app in Hsz1 as [_ [Hn0 _]%Forall_cons]. simpl in Hn0.
    split.
    + split; [|rewrite top_block_app; apply Htb; lia]. apply separate_app. split_and!; [done| |].
      * simpl. split; [by intros _|done].
      * intros Hf. by destruct (Hl Hf).
    + rewrite <- (assoc_L (++)). cbn [app]. rewrite !live_app. f_equal. cbn [live].
      specialize (Hlive (a + 8 * span l1' + 8 * n0)). cbn [live] in Hlive. rewrite <- Hlive. f_equal. lia.
Qed.

Lemma wp_assoc2 {S A B C D} (x : M S A) (y : A → M S B) (f : A → B → M S C) (k : M S D) Q s :
  wp ((a ← x; b ← y a; f a b) ;; k) Q s → wp (a ← x; b ← y a; f a b ;; k) Q s.
Proof.
  unfold wp, mbind, M_bind. destruct (x s) as [[a s1]|]; [|done]. by destruct (y a s1) as [[b s2]|].
Qed.

(** The two merges at the end of [free]. *)
Lemma wp_merges s m l1 n c l2 :
  holds s m (l1 ++ (n, None) :: l2) → break_ok s → well_formed (l1 ++ (n, c) :: l2) →
  wp (mhnext ← M_NEXT (heapbase s + 8 * span l1);
      top ← gets heaptop;
      (if mhnext =? top then mret tt else malloc_trymerge (heapbase s + 8 * span l1) mhnext) ;;
      base ← gets heapbase;
      if heapbase s + 8 * span l1 =? base then mret tt else
      mhprev ← M_PREV (heapbase s + 8 * span l1);
      malloc_trymerge mhprev (heapbase s + 8 * span l1))
    (λ _ s', ∃ bs', started s' bs' ∧ heapbase s' = heapbase s ∧
       live (heapbase s) bs' = live (heapbase s) (l1 ++ (n, None) :: l2)) (set_words m s).
Proof.
  intros H Hbr Hwf. pose proof (proj1 Hwf) as Hsep. apply separate_app in Hsep as (_ & [_ Hsep2] & _).
  apply wp_assoc2, wp_bind. eapply wp_mono; [|exact (wp_merge_next s m l1 n l2 H Hsep2)].
  intros _ s' (m1 & n1 & l2' & -> & H1 & Hh & Hnext).
  eapply wp_mono; [|exact (wp_merge_prev s m1 l1 n1 l2' H1)].
  intros _ s' (m2 & n2 & l1' & -> & H2 & Hprev). exists (l1' ++ (n2, None) :: l2').
  destruct (merged_list (heapbase s) l1 n c l2 n1 l2' n2 l1' Hwf) as [Hwf' Hlive]; try done.
  { pose proof (blocks_sized _ _ _ _ (hd_blocks _ _ _ H)) as Hsz. apply Forall_app in Hsz as [? [? ?]%Forall_cons].
    apply Forall_app. split; [done|]. by constructor. }
  split_and!; [split_and!; [destruct H2; by split|done|done]|done|done].
Qed.

(** A live block lies below the top of the heap. *)
Lemma live_below_top s bs l1 n ws l2 :
  started s bs → bs = l1 ++ (n, Some ws) :: l2 → heapbase s + 8 * span l1 + 8 < heaptop s.
Proof.
  intros (H & _ & [_ Ht]) ->. pose proof (holds_split _ _ _ _ _ _ H). rewrite top_block_app in Ht.
  pose proof (blocks_sized _ _ _ _ (hd_blocks _ _ _ H)) as Hsz. destruct l2 as [|[n2 c2] l2].
  - unfold top_block in Ht. simpl in *. lia.
  - apply Forall_app in Hsz as [_ [_ [Hn2 Hl2]%Forall_cons]%Forall_cons]. pose proof (sized_span _ Hl2). simpl in *. lia.
Qed.

Lemma wp_free s bs p ws :
  started s bs → live (heapbase s) bs !! p = Some ws →
  wp (free (Some p)) (λ _ s', ∃ bs', started s' bs' ∧ heapbase s' = heapbase s ∧
    live (heapbase s) bs' = delete p (live (heapbase s) bs)) s.
Proof.
  intros (H & Hbr & Hwf) Hp. destruct (live_block _ _ _ _ Hp) as (l1 & n & l2 & -> & ->).
  pose proof (holds_hdr _ _ _ _ _ _ H) as Hh. pose proof (holds_split _ _ _ _ _ _ H) as Hsp.
  destruct (hd_base _ _ _ H) as [Hb0 Hb8]. pose proof (blocks_sized _ _ _ _ (hd_blocks _ _ _ H)) as Hsz.
  pose proof (live_below_top s _ l1 n ws l2 ltac:(split; eauto) eq_refl) as Htop.
  set (a := heapbase s + 8 * span l1) in *. unfold free. apply wp_bind, wp_gets.
  apply wp_bind, wp_KASSERT; [lia|]. apply wp_bind, wp_KASSERT; [lia|].
  replace (a + 8 - MBLOCKSIZE) with a by (unfold MBLOCKSIZE; lia). cbv zeta.
  apply wp_id, wp_bind, (wp_OK _ _ _ _ _ _ Hh), wp_bind, wp_KASSERT; [done|].
  apply wp_bind, (wp_inuse _ _ _ _ _ _ Hh), wp_bind, wp_KASSERT; [done|].
  apply wp_bind, (wp_set_inuse _ _ _ _ _ _ Hh false).
  pose proof (holds_mark s (words s) l1 n (Some ws) None l2 H I) as H1. fold a in H1. cbn [used] in H1.
  set (m1 := <[_ := _]> (words s)) in *.
  apply wp_bind, (wp_SIZE m1 s a _ _ _ (holds_hdr _ _ _ _ _ _ H1)).
  apply wp_bind. eapply wp_mono; [|apply (wp_deadbeef s (Z.to_nat (8 * (n - 1) / 4)) (M_DATA a) m1 (heapbase s) (heaptop s));
    [apply H1|..]; unfold M_DATA, MBLOCKSIZE, a; Z.to_euclidean_division_equations; lia].
  intros _ s' (m2 & -> & Hm2 & Hout).
  assert (holds s m2 (l1 ++ (n, None) :: l2)) as H2.
  { eapply holds_frame_free; [exact H1|done|]. intros k Hk. apply Hout. fold a in Hk. unfold M_DATA, MBLOCKSIZE.
    Z.to_euclidean_division_equations. lia. }
  assert (sized (l1 ++ (n, None) :: l2)) as Hsz' by (exact (blocks_sized _ _ _ _ (hd_blocks _ _ _ H2))).
  eapply wp_mono; [|exact (wp_merges s m2 l1 n (Some ws) l2 H2 Hbr Hwf)].
  intros _ s' (bs' & Hst & Hbase & Hlive). exists bs'. split_and!; [done|done|].
  destruct (live_mark (heapbase s) l1 n ws l2 Hsz') as [-> Hno]. fold a in Hno |- *. by rewrite Hlive, delete_insert_id.
Qed.

(** A store of the program into a word of its block. *)
Definition store (p : Z) (i : nat) (v : Z) : M ustate unit := st (p + 4 * Z.of_nat i) v.

Lemma wp_user_store s bs p ws i v :
  started s bs → live (heapbase s) bs !! p = Some ws → (i < length ws)%nat →
  wp (store p i v) (λ _ s', ∃ bs', started s' bs' ∧ heapbase s' = heapbase s ∧
    live (heapbase s) bs' = <[p := <[i := v]> ws]> (live (heapbase s) bs)) s.
Proof.
  intros (H & Hbr & Hwf) Hp Hi. destruct (live_block _ _ _ _ Hp) as (l1 & n & l2 & -> & ->).
  pose proof (blocks_sized _ _ _ _ (hd_blocks _ _ _ H)) as Hsz.
  destruct H as [Hb Ht Hm Hbs]. apply blocks_app in Hbs as [H1 (Hw1 & Hw2 & Hn & [Hl Hc] & H2)].
  destruct (lookup_lt_is_Some_2 ws i Hi) as [x Hx]. apply wp_id, wp_st; [exists x; by apply Hc|].
  assert (sized (l1 ++ (n, None) :: l2)) as Hsz'.
  { apply Forall_app in Hsz as [? [? ?]%Forall_cons]. apply Forall_app. split; [done|]. by constructor. }
  exists (l1 ++ (n, Some (<[i := v]> ws)) :: l2). split_and!; [|done|].
  - split_and!; [|done|].
    + split; [done| |by apply mapped_insert|]; [rewrite block_span_app in *; exact Ht|].
      apply blocks_app. split; [eapply blocks_frame; [|exact H1]; intros k Hk; simpl in *; by rewrite lookup_insert_ne by lia|].
      cbn [blocks used]. simpl. split_and!; [by rewrite lookup_insert_ne by lia|by rewrite lookup_insert_ne by lia|done| | |].
      * rewrite length_insert. done.
      * intros j y Hj. destruct (decide (j = i)) as [->|].
        -- rewrite list_lookup_insert_eq in Hj by done. simplify_eq. by rewrite lookup_insert_eq.
        -- rewrite list_lookup_insert_ne in Hj by done. rewrite lookup_insert_ne by lia. by apply Hc.
      * eapply blocks_frame; [|exact H2]. intros k Hk. simpl in *. by rewrite lookup_insert_ne by lia.
    + destruct Hwf as [Hs Htb]. apply separate_app in Hs as (? & [? ?] & Hlf). split.
      * apply separate_app. split_and!; [done|by split|done].
      * rewrite top_block_app in *. destruct l2; [exact Htb|]. by rewrite top_block_cons in *.
  - destruct (live_mark (heapbase s) l1 n ws l2 Hsz') as [-> _].
    destruct (live_mark (heapbase s) l1 n (<[i := v]> ws) l2 Hsz') as [-> _]. by rewrite insert_insert_eq.
Qed.

(** ** A program that uses the heap *)

Inductive call := Malloc (size : Z) | Free (x : option Z) | Store (p : Z) (i : nat) (v : Z).

Definition exec (c : call) : M ustate (option Z) :=
  match c with
  | Malloc size => malloc size
  | Free x => free x ;; mret None
  | Store p i v => store p i v ;; mret None
  end.

(** What the program may do when [L] are its blocks with their contents: requests up
    to a gigabyte, [free] of what it has, and stores into its blocks. *)
Definition allowed (c : call) (L : gmap Z (list Z)) : Prop :=
  match c with
  | Malloc size => 0 <= size <= 2 ^ 30
  | Free None => True
  | Free (Some p) => is_Some (L !! p)
  | Store p i v => ∃ ws, L !! p = Some ws ∧ (i < length ws)%nat
  end.

Definition read_block (s : ustate) (p : Z) (n : nat) : list Z :=
  (λ i, default 0 (words s !! (p + 4 * Z.of_nat i))) <$> seq 0 n.

(** The program's blocks after a call: a new block has what is there, as many words
    as the request needs, up to a multiple of eight bytes. *)
Definition after (c : call) (r : option Z) (s' : ustate) (L : gmap Z (list Z)) : gmap Z (list Z) :=
  match c, r with
  | Malloc size, Some p => <[p := read_block s' p (Z.to_nat (2 * units size))]> L
  | Malloc _, None => L
  | Free (Some p), _ => delete p L
  | Free None, _ => L
  | Store p i v, _ => alter (λ ws, <[i := v]> ws) p L
  end.

Inductive reachable : ustate → gmap Z (list Z) → Prop :=
| reach_start s : fresh s → reachable s ∅
| reach_call s L c r s' :
    reachable s L → allowed c L → exec c s = Done (r, s') → reachable s' (after c r s' L).

Lemma live_contents m a p bs x ws :
  blocks m a p bs → live a bs !! x = Some ws → ∀ (i : nat) y, ws !! i = Some y → m !! (x + 4 * Z.of_nat i) = Some y.
Proof.
  intros H Hx. destruct (live_block _ _ _ _ Hx) as (l1 & n & l2 & -> & ->).
  apply blocks_app in H as [_ (_ & _ & _ & [_ Hc] & _)]. exact Hc.
Qed.

Lemma read_block_eq s p ws :
  (∀ (i : nat) y, ws !! i = Some y → words s !! (p + 4 * Z.of_nat i) = Some y) → read_block s p (length ws) = ws.
Proof.
  intros H. apply list_eq. intros i. unfold read_block. rewrite list_lookup_fmap.
  destruct (ws !! i) as [y|] eqn:E.
  - rewrite lookup_seq_lt by (by eapply lookup_lt_Some). simpl. by rewrite (H i y E).
  - apply lookup_ge_None in E. by rewrite lookup_seq_ge by done.
Qed.

Definition tracks (s : ustate) (L : gmap Z (list Z)) : Prop := ∃ bs, heap s bs ∧ L = live (heapbase s) bs.

Lemma wp_exec s L c :
  tracks s L → allowed c L → wp (exec c) (λ r s', tracks s' (after c r s' L)) s.
Proof.
  intros (bs & H & ->) Ha.
  assert (∀ p ws, live (heapbase s) bs !! p = Some ws → started s bs) as Hst.
  { intros p ws Hp. destruct H as [[_ ->]|H]; [simpl in Hp; by rewrite lookup_empty in Hp|done]. }
  destruct c as [size|[p|]|p i v]; simpl in Ha.
  - eapply wp_mono; [|by apply (wp_malloc s bs size)]. intros [p|] s' (bs' & Hs' & Hr).
    + destruct Hr as (ws & Hws & Hp & Hno & Hl). exists bs'. split; [by right|]. simpl. rewrite Hl. f_equal.
      replace (Z.to_nat (2 * units size)) with (length ws) by lia. apply read_block_eq.
      apply (live_contents _ (heapbase s') 0 bs'); [apply Hs'|]. rewrite Hl. by rewrite lookup_insert_eq.
    + exists bs'. split; [by right|]. by rewrite Hr.
  - destruct Ha as [ws Hws]. apply wp_bind. eapply wp_mono; [|exact (wp_free s bs p ws (Hst _ _ Hws) Hws)].
    intros _ s' (bs' & Hs' & Hb & Hl). apply wp_ret. exists bs'. split; [by right|]. simpl. by rewrite Hb, Hl.
  - apply wp_bind, wp_ret, wp_ret. by exists bs.
  - destruct Ha as (ws & Hws & Hi). apply wp_bind.
    eapply wp_mono; [|exact (wp_user_store s bs p ws i v (Hst _ _ Hws) Hws Hi)].
    intros _ s' (bs' & Hs' & Hb & Hl). apply wp_ret. exists bs'. split; [by right|]. simpl. rewrite Hb, Hl.
    apply map_eq. intros q. destruct (decide (q = p)) as [->|].
    + rewrite lookup_insert_eq, lookup_alter_eq, Hws. done.
    + by rewrite lookup_insert_ne, lookup_alter_ne by done.
Qed.

Lemma reachable_tracks s L : reachable s L → tracks s L.
Proof.
  induction 1 as [s Hf|s L c r s' _ IH Ha Hrun].
  - exists []. split; [by left|done].
  - pose proof (wp_exec s L c IH Ha) as Hwp. unfold wp in Hwp. by rewrite Hrun in Hwp.
Qed.

Lemma live_disjoint m a pr bs p q ws ws' :
  blocks m a pr bs → live a bs !! p = Some ws → live a bs !! q = Some ws' → p < q →
  p + 4 * Z.of_nat (length ws) + 8 <= q.
Proof.
  revert a pr. induction bs as [|[n c] bs IH]; intros a pr; simpl; [by rewrite lookup_empty|].
  intros (_ & _ & Hn & Hc & Hbs) Hp Hq Hlt. pose proof (blocks_sized _ _ _ _ Hbs) as Hsz.
  destruct c as [w|]; [|by eapply IH].
  destruct (decide (p = a + 8)) as [->|Hpa], (decide (q = a + 8)) as [->|Hqa]; [lia| | |].
  - rewrite lookup_insert_eq in Hp. rewrite lookup_insert_ne in Hq by done. simplify_eq.
    destruct Hc as [Hl _]. pose proof (live_range _ _ _ _ Hsz Hq). lia.
  - rewrite lookup_insert_ne in Hp by done. pose proof (live_range _ _ _ _ Hsz Hp). lia.
  - rewrite !lookup_insert_ne in Hp, Hq by done. by eapply IH.
Qed.

(** Without live blocks there is at most one block. *)
Lemma live_empty a bs : sized bs → separate bs → live a bs = ∅ → bs = [] ∨ ∃ n, bs = [(n, None)].
Proof.
  destruct bs as [|[n [ws|]] bs]; [by left| |]; intros Hsz Hs Hl; simpl in *.
  - by apply insert_non_empty in Hl.
  - right. exists n. destruct Hs as [Hh _]. destruct bs as [|[n' [ws|]] bs]; [done| |].
    + simpl in Hl. by apply insert_non_empty in Hl.
    + by destruct (Hh eq_refl).
Qed.

(** C20: The user-level heap is safe to use.  In every state that a program can reach by calls of
    [malloc] (of at most a gigabyte), [free] of its own blocks and stores into them: each of its
    blocks still has the contents that the program last gave it, whatever it has done with other
    blocks; no two blocks overlap; each call that it may make next completes, so no check of
    malloc.c fails, and a block that [malloc] returns is new and at a multiple of eight; and when the
    program has freed everything, all the memory of the heap is one free block again. *)
Theorem heap_contents_kept (s : ustate) (L : gmap Z (list Z)) :
  reachable s L →
  (∀ p ws (i : nat) x, L !! p = Some ws → ws !! i = Some x → words s !! (p + 4 * Z.of_nat i) = Some x) ∧
  (∀ p q ws ws', L !! p = Some ws → L !! q = Some ws' → p < q → p + 4 * Z.of_nat (length ws) <= q) ∧
  (∀ c, allowed c L → ∃ r s', exec c s = Done (r, s') ∧
     ∀ size p, c = Malloc size → r = Some p → p mod 8 = 0 ∧ L !! p = None) ∧
  (L = ∅ → heaptop s = heapbase s ∨
     words s !! (heapbase s + 4) = Some (heaptop s - heapbase s + flag false + MMAGIC)).
Proof.
  intros H. pose proof (reachable_tracks s L H) as (bs & Hh & ->). split_and!.
  - intros p ws i x Hp Hi. destruct Hh as [[_ ->]|(Hh & _)]; [simpl in Hp; by rewrite lookup_empty in Hp|].
    by apply (live_contents _ _ _ _ _ _ (hd_blocks _ _ _ Hh) Hp).
  - intros p q ws ws' Hp Hq Hlt. destruct Hh as [[_ ->]|(Hh & _)]; [simpl in Hp; by rewrite lookup_empty in Hp|].
    pose proof (live_disjoint _ _ _ _ _ _ _ _ (hd_blocks _ _ _ Hh) Hp Hq Hlt). lia.
  - intros c Ha. destruct (proj1 (wp_done _ _ _) (wp_exec s _ c (ex_intro _ bs (conj Hh eq_refl)) Ha)) as (r & s' & Hrun & _).
    exists r, s'. split; [done|]. intros size p -> ->.
    pose proof (wp_malloc s bs size Hh Ha) as Hm. unfold wp in Hm. simpl in Hrun. rewrite Hrun in Hm.
    by destruct Hm as (bs' & _ & ws & _ & ? & ? & _).
  - intros Hl. destruct Hh as [[(-> & -> & _) _]|(Hh & _ & [Hs _])]; [by left|]. destruct Hh as [_ [Ht _] _ Hb].
    destruct (live_empty _ _ (blocks_sized _ _ _ _ Hb) Hs Hl) as [->|[n ->]]; simpl in Ht; [left; lia|right].
    destruct Hb as (_ & Hw & _). simpl in Hw. rewrite Hw. do 3 f_equal. lia.
Qed.

(** A heap that starts at 0x400000. *)
Definition demo_start : ustate := mkU ∅ 0 0 0x400000 0x400000 0x7ffff000.

Definition state_after (c : call) (s : ustate) : ustate := match exec c s with Done (_, s') => s' | Panic => s end.

Lemma heap_contents_kept_witness :
  ∃ s L, reachable s L ∧ L !! 0x400008 = Some [0; 0; 7; 0; 0; 0] ∧ words s !! (0x400008 + 4 * Z.of_nat 2) = Some 7.
Proof.
  set (s1 := state_after (Malloc 20) demo_start). set (s2 := state_after (Store 0x400008 2 7) s1).
  set (L1 := after (Malloc 20) (Some 0x400008) s1 ∅). set (L2 := after (Store 0x400008 2 7) None s2 L1).
  assert (reachable s2 L2) as H.
  { apply (reach_call s1 L1 (Store 0x400008 2 7) None s2).
    - apply (reach_call demo_start ∅ (Malloc 20) (Some 0x400008) s1); [|simpl; lia|vm_compute; reflexivity].
      apply reach_start. split_and!; simpl; reflexivity || lia.
    - exists [0; 0; 0; 0; 0; 0]. split; [vm_compute; reflexivity|simpl; lia].
    - vm_compute. reflexivity. }
  assert (L2 !! 0x400008 = Some [0; 0; 7; 0; 0; 0]) as Hp by (vm_compute; reflexivity).
  exists s2, L2. split; [exact H|]. split; [exact Hp|].
  exact (proj1 (heap_contents_kept s2 L2 H) 0x400008 [0; 0; 7; 0; 0; 0] 2%nat 7 Hp eq_refl).
Defined.

(** The bound on requests is needed: a request of 2 GB makes [sbrk]'s argument negative, and
    the kernel panics; one of nearly 4 GB is rounded up to 0 and gets a block of no bytes. *)
Lemma malloc_huge_panics : malloc 0x80000000 demo_start = Panic.
Proof. vm_compute. reflexivity. Qed.

Lemma malloc_wraps :
  match malloc 0xfffffffc demo_start with
  | Done (Some p, s') => M_SIZE (p - 8) s' = Done (0, s')
  | _ => False
  end.
Proof. vm_compute. reflexivity. Qed.

End UMallocTheorems.
